(* ===== verification/_CoqProject ===== *)
-Q . S2P
Prelude.v
H2Wire.v
H2FlowControl.v
SipHash.v
QueryMap.v
SimdParser.v
Http1.v
HttpResponse.v
Http1Recv.v
H2Out.v
HpackPrim.v
Hpack.v
HpackEncode.v
H2Budget.v
H2State.v
H2Send.v
H2Recv.v
H2Serve.v
H2Quiet.v
H2Inv.v
H2Conn.v
H2Deliver.v
H2Block.v
Mux.v
Seq.v
Sha1.v
WsHandshake.v
WsFrame.v
WebSocket.v
WsSpec.v
WsReceive.v
WsSafe.v
WsSequenced.v
WsAsync.v
WsParked.v
WsAsyncRecv.v
Timers.v
TimerHeap.v
TimerRun.v
PostQueue.v
Protobuf.v
ProtobufSpec.v
ProtobufRead.v
Redis.v
RedisResp.v
RedisTimed.v
RedisFrame.v
RedisCall.v
RedisLegacy.v
Sha256.v
SeqAuth.v
SeqAuthRun.v
QuicFlow.v
Memory.v
SString.v
Stun.v
