(* ===== verification/Prelude.v ===== *)
(** * CWIST verification library: root and prelude

    CWIST is a web framework and application server in C.  This library models
    its request path, from the bytes of a connection to the handler and back:
    the HTTP/1.1 parser, receivers and response writer of [net/http/http.c],
    the HTTP/2 connection of [net/http/http2.c] with its flow control and
    HPACK, WebSocket on both server models, the query parameters, the router,
    and the hash they rest on; and, beside it, the reactor's timers and posts,
    the Protobuf wire format, the Redis client, authenticated sequencing with
    its HMAC, the string type, QUIC flow control and the STUN messages of the
    WebRTC agent.

    ** Parts and how they meet

    A connection hands bytes to a receiver (HTTP/1.1) or to the frame loop
    (HTTP/2).  The receiver finds a message with the delimiter scanners, the
    request parser turns it into a request record whose query string becomes a
    query map, and the router picks a handler; the handler's response is
    serialised, or streamed in chunks, back to the connection.  On HTTP/2 the
    loop reads one frame at a time, decodes header blocks with HPACK into the
    same request record, collects DATA under two levels of flow control, calls
    the handler once per request and sends its response as HEADERS and DATA
    frames through a batch buffer, resuming it when the peer grants credit.
    A WebSocket handshake takes over an HTTP/1.1 connection: frames are read
    by a blocking call of a worker thread ([websocket.c]) or fed as bytes
    arrive on the reactor ([websocket_async.c]); both reassemble fragments and,
    when negotiated, chunks of sequenced messages ([core/seq]).  The reactor's
    thread runs timers and the callbacks that other threads post to it.

    The other parts stand beside this path.  A handler may call Redis: a pooled
    connection is lent to one caller, who sends a command and reads one reply
    before a deadline.  [seq_auth] seals the chunks of [core/seq] under a key and
    opens them in any order, once each.  The string type holds the texts of a
    request.  QUIC flow control and STUN are used by the transports that are not
    modelled themselves.

    ** Files

    - [Prelude] (this file): record update, machine integers, bytes and C
      strings, allocation outcomes; generic lemmas, tactics and the hint
      databases [cwist].
    - [H2Wire] (net/http/h2_wire.h): big-endian fields and their round trips.
    - [H2FlowControl] (net/http/http2_flow_control.c): windows, RTT estimator,
      pacing bucket, WINDOW_UPDATE decision.  Invariant of every window under
      any sequence of calls; exactness of the bucket; reservation.
    - [SipHash] (core/siphash/siphash.c): equal to the published definition.
    - [QueryMap] (net/http/query.c): the chained, growing hash map refines a
      finite map, whatever the seed and whichever allocations fail.
    - [SimdParser] (net/http/simd_parser.h, the portable paths): first
      occurrence.
    - [Http1] (net/http/http.c): methods, header list, request parser with its
      smuggling defences, error responses.  What is accepted is safe to frame;
      what is printed is parsed back.
    - [HttpResponse] (net/http/http.c): header serialisation, framing of fixed
      and streamed responses, the chunk producer under failing sinks.
    - [Http1Recv] (net/http/http.c): chunked decoding, the blocking and the
      non-blocking receiver as implementations of one message parser, whatever
      the segmentation of the input.
    - [H2Out] (net/http/http2.c): frame headers, batch buffer, flush, frame
      writers and the frame reader: what is written is read back.
    - [HpackPrim], [Hpack], [HpackEncode] (net/http/http2.c): prefix integers,
      Huffman code, string literals; tables and header decoding; response
      header blocks, their splitting into frames.  Round trips, refinement of
      the RFC 7541 table, acceptance exactly by the RFC 9113 field rules.
    - [H2Budget] (net/http/http2.c): the RST_STREAM and PING credit counters.
    - [H2State], [H2Send], [H2Recv], [H2Serve] (net/http/http2.c): the whole
      HTTP/2 connection as executable functions: state and stream table;
      responses; one handler per frame type; the serving loop.  Function names
      are those of the C source; a part of [cwist_http2_serve_connection_ex]
      that has no name there is [on_headers], [on_data], [serve_turn], ...
    - [H2Quiet], [H2Inv], [H2Conn]: the connection's invariant [conn_wf], kept
      by every handler and every turn; completeness of requests.
    - [H2Deliver]: what of a response's body a sender puts on the wire.
    - [H2Block]: header blocks split over CONTINUATION frames.
    - [Mux] (net/http/mux.c): route registration and dispatch, parameters,
      middleware chains.
    - [Seq] (core/seq/seq.c): chunk headers, the splitter and the reassembler
      of sequenced messages, which answers as a finite map of open messages.
    - [Sha1] (net/websocket/ws_utils.c): equal to FIPS 180-4.
      [WsHandshake] (net/websocket/websocket.c): base64, the accept key, the
      upgrade response.
    - [WsFrame], [WebSocket] (websocket.c): UTF-8 and frame rules, masking, the
      frame reader and writer; the receive and send calls with fragments and
      sequenced messages.  [WsSpec] is RFC 6455 as a function of whole frames;
      [WsReceive]: a receive call implements it for every segmentation;
      [WsSafe]: whatever arrives and fails, its state stays sound;
      [WsSequenced]: sequenced messages are received as they were sent.
    - [WsAsync] (websocket_async.c): the connection on the reactor: stash,
      feeding, parked output.  [WsParked]: what reaches the peer is the frames
      queued, whole and in order; [WsAsyncRecv]: bytes in any pieces over any
      events give what [WsSpec] says of the frames in them.
    - [Timers] (sys/io/reactor.c): the timer heap and its round of due timers.
      [TimerHeap]: sifting keeps heap order and back-pointers; [TimerRun]:
      refinement of a finite map, invariant, what a round fires, the wait.
    - [PostQueue] (reactor.c): the lock-free stack of posted callbacks as steps
      of many threads; order, no loss, no lost wake-up.
    - [Protobuf] (net/grpc/protobuf.c): writer and reader.  [ProtobufSpec]: the
      bytes a call appends; [ProtobufRead]: the reader accepts exactly the
      fields of the format, and gives back what was written.
    - [Redis] (net/redis/cwist_redis.c): commands, the reply parser under a
      deadline and limits, the call, the pool.  [RedisResp]: the strings that are
      a reply; [RedisTimed]: the parser finds exactly the reply at the front of
      the stream, in any pieces; [RedisFrame]: commands as written, read back;
      [RedisCall]: a connection is in step with its server or thrown away;
      [RedisLegacy]: the calls without a deadline.
    - [Sha256] (core/crypto/sha256.h): SHA-256 and HMAC equal FIPS 180-4 and RFC
      2104.  [SeqAuth], [SeqAuthRun] (core/seq/seq_auth.c): sealing and opening
      chunks, replay windows as the history they remember, whole messages.
    - [Memory], [SString] (core/sstring/sstring.c): checked reads and writes; the
      string type refines its contents under the calls it guards.
    - [QuicFlow] (net/quic_flow_control.c): windows and limits, agreed with a peer
      that reads the frames.
    - [Stun] (net/webrtc/ice.c): checks written, read, signed and answered.

    ** Conventions

    Bytes are [Z] in lists, offsets [nat], unsigned integers [Z] with their
    wrap-around written out; a NULL pointer is [None].  Outcomes that come from
    outside (allocations, socket writes, readings of the clock, what [recv] or
    [poll] report, entropy) are arguments or explicit lists consumed in order;
    a theorem quantifies over all of them.  The request handler, [pread] and
    the settings read from the environment are parameters ([H2Env] for HTTP/2,
    arguments elsewhere); what a theorem assumes of them is a named hypothesis
    ([env_ok]).

    ** Fuel

    Loops that are not structural carry fuel: the bytes left to scan or parse
    (each step consumes one, [header_loop_fuel], [decode_loop_fuel]), the bytes
    of a body left to send ([data_loop]: every turn that goes on sends at least
    one), 64 doublings of a capacity ([grow]: 2^64 is past every size), 20
    digits of a 64-bit number, the stashed bytes ([feed_loop]: every frame has
    two), the index of a timer for moving up its heap and the heap's size for
    moving down, 10 bytes of a varint; for Redis the outcomes left (each round of
    a wait or a read uses one), the longest line for the peek of a line, eight
    levels of nested arrays; 64 doublings of a string's capacity; the length of a
    STUN message (each attribute has four bytes).  The lemmas named, and for the others
    the invariants of their components, say that more changes nothing or that
    the bound suffices.

    ** Not modelled

    - HTTP/2: stream hooks and the senders of hook handler threads
      ([cwist_http2_stream_send_*], [h2_fc_wait_credit]), server push, the
      opt-in sequenced DATA extension, and the locking of the batch buffer and
      the completion queue.  TLS and socket reads and writes are outcomes.
    - HTTP/1.1: the reactor-driven servers, file sending and compression.  A
      header line that finds no memory is recorded, dropped or fails the parse
      just as the source has it; the strings of a fresh request are taken to be
      allocated with it.  A failed flush of the HTTP/2 batch buffer may have sent
      any part of it and keeps all of it.
    - WebSocket: events of a reactor connection run one after another; the
      locks against senders on other threads and the sweeping timer are not
      modelled, only its verdict.  Posts: memory is sequentially consistent.
    - Redis: the helpers that only name a command, connecting, the subscription
      loop; waiting for a pooled connection is a retry.
    - WebRTC beyond STUN: DTLS, SCTP data channels, SDP, sockets.  QUIC beyond
      its flow-control arithmetic, and HTTP/3.
    - The reactor's rings and descriptors; gRPC calls, GraphQL, the ORM and the
      databases, jobs, templates, TLS backends, garbage collector, allocators
      and platform ports: separate subsystems, or glue to vendored libraries;
      the manifest lists each with its reason. *)

From Stdlib Require Export ZArith Lia Bool String Ascii.
From stdpp Require Export prelude list gmap numbers.

#[global] Open Scope Z_scope.
#[global] Set Default Goal Selector "!".

(** ** Record update

    C code updates a structure through a pointer, one field at a time:
    [r <| f := v |>].  A record declares how it is rebuilt from its fields
    ([Fields], one instance per record); the update of a field is derived from
    that by abstracting the projection. *)

Class Fields (R : Type) := rebuild : R -> R.
Class Setter {R T : Type} (proj : R -> T) := set_field : T -> R -> R.

Ltac derive_setter :=
  match goal with
  | |- @Setter ?R ?T ?proj =>
      let inst := constr:(_ : Fields R) in
      let body := eval hnf in inst in
      let abstracted := eval pattern proj in body in
      match abstracted with
      | ?f _ =>
          let t := constr:(fun (v : T) (r : R) => f (fun _ : R => v) r) in
          let t := eval cbv beta in t in
          exact t
      end
  end.
#[export] Hint Extern 0 (Setter _) => derive_setter : typeclass_instances.

Declare Scope cwist_scope.
Delimit Scope cwist_scope with cwist.
#[global] Open Scope cwist_scope.

Notation "r <| f := v |>" := (set_field (proj := f) v r)
  (at level 1, left associativity, f constr at level 0,
   format "r  <| f  :=  v |>") : cwist_scope.

(** ** Machine integers

    An unsigned C integer of width w is a [Z] kept in [0, 2^w); every
    operation that can leave the range is followed by the wrap-around. *)

Definition u8 (x : Z) : Z := x mod 256.
Definition u16 (x : Z) : Z := x mod 65536.
Definition u32 (x : Z) : Z := x mod 4294967296.
Definition u64 (x : Z) : Z := x mod 18446744073709551616.

(** Conversion to a signed type of the same width (two's complement). *)
Definition s32 (x : Z) : Z :=
  let y := u32 x in if y <? 2147483648 then y else y - 4294967296.
Definition s64 (x : Z) : Z :=
  let y := u64 x in
  if y <? 9223372036854775808 then y else y - 18446744073709551616.

Definition UINT16_MAX : Z := 65535.
Definition UINT32_MAX : Z := 4294967295.
Definition UINT64_MAX : Z := 18446744073709551615.
(** The hosted targets are LP64: size_t has 64 bits. *)
Definition SIZE_MAX : Z := UINT64_MAX.

Definition is_u8 (x : Z) : Prop := 0 <= x < 256.
Definition is_u16 (x : Z) : Prop := 0 <= x < 65536.
Definition is_u32 (x : Z) : Prop := 0 <= x < 4294967296.
Definition is_u64 (x : Z) : Prop := 0 <= x < 18446744073709551616.

Ltac zlia := Z.to_euclidean_division_equations; lia.
Ltac znia := Z.to_euclidean_division_equations; nia.

(** Splits on the comparisons of the goal, innermost first. *)
Ltac cases_ltb :=
  cbv zeta;
  repeat match goal with
  | |- context [?a <? ?b] =>
      lazymatch constr:((a, b)) with
      | context [_ <? _] => fail
      | _ => destruct (Z.ltb_spec a b)
      end
  | |- context [?a <=? ?b] =>
      lazymatch constr:((a, b)) with
      | context [_ <? _] => fail
      | _ => destruct (Z.leb_spec a b)
      end
  end.

(** Unfolds the width predicates and wrap-arounds, then decides. *)
Ltac mlia :=
  unfold is_u8, is_u16, is_u32, is_u64, u8, u16, u32, u64,
    UINT16_MAX, UINT32_MAX, UINT64_MAX, SIZE_MAX in *; zlia.

Lemma u8_range x : is_u8 (u8 x).
Proof. mlia. Qed.
Lemma u16_range x : is_u16 (u16 x).
Proof. mlia. Qed.
Lemma u32_range x : is_u32 (u32 x).
Proof. mlia. Qed.
Lemma u64_range x : is_u64 (u64 x).
Proof. mlia. Qed.
Lemma u8_id x : is_u8 x -> u8 x = x.
Proof. mlia. Qed.
Lemma u16_id x : is_u16 x -> u16 x = x.
Proof. mlia. Qed.
Lemma u32_id x : is_u32 x -> u32 x = x.
Proof. mlia. Qed.
Lemma u64_id x : is_u64 x -> u64 x = x.
Proof. mlia. Qed.

Create HintDb cwist.
Create Rewrite HintDb cwist.
#[export] Hint Resolve u8_range u16_range u32_range u64_range : cwist.
#[export] Hint Rewrite u8_id u16_id u32_id u64_id using (auto with cwist; mlia) : cwist.

(** ** Bytes, buffers and C strings

    A byte is a [Z] in [0, 256).  A buffer is a list of bytes; a C string is
    the list of the bytes before its terminating NUL. *)

Abbreviation bytes := (list Z).

Definition bytes_ok (l : bytes) : Prop := Forall is_u8 l.
Definition cstr_ok (l : bytes) : Prop := Forall (fun b => 0 < b < 256) l.

(** String literals of the C source. *)
Definition bs (s : string) : bytes :=
  map (fun a => Z.of_N (N_of_ascii a)) (list_ascii_of_string s).

(** Evaluates the lengths of the literals of a goal. *)
Ltac lengths :=
  repeat match goal with
  | |- context [length (bs ?s)] =>
      let n := eval vm_compute in (length (bs s)) in change (length (bs s)) with n
  end;
  cbn [length].

(** [strlen] and buffer sizes as C sees them. *)
Definition blen (l : bytes) : Z := Z.of_nat (length l).

Lemma blen_app a b : blen (a ++ b) = blen a + blen b.
Proof. unfold blen. rewrite length_app. lia. Qed.
Lemma blen_nonneg l : 0 <= blen l.
Proof. unfold blen. lia. Qed.

(** [p[off] = v] and [memcpy(p + off, src, strlen(src))].  Both are only used
    in range; out of range they leave the buffer's length unchanged. *)
Definition put (buf : bytes) (off : nat) (v : Z) : bytes := <[off := v]> buf.
Fixpoint blit (buf : bytes) (off : nat) (src : bytes) : bytes :=
  match src with
  | [] => buf
  | b :: src' => blit (put buf off b) (S off) src'
  end.

(** The boolean tests, for concrete inputs. *)
Definition bytes_okb (l : bytes) : bool := forallb (fun b => (0 <=? b) && (b <? 256)) l.
Definition cstr_okb (l : bytes) : bool := forallb (fun b => (0 <? b) && (b <? 256)) l.

Lemma bytes_okb_ok l : bytes_okb l = true -> bytes_ok l.
Proof.
  intros H. apply Forall_forall. intros x Hx.
  apply (proj1 (forallb_forall _ _) H) in Hx. unfold is_u8. lia.
Qed.
Lemma cstr_okb_ok l : cstr_okb l = true -> cstr_ok l.
Proof.
  intros H. apply Forall_forall. intros x Hx.
  apply (proj1 (forallb_forall _ _) H) in Hx. lia.
Qed.

(** ASCII case, [strcasecmp]-style comparison, and decimal printing. *)
Definition tolower (c : Z) : Z := if (65 <=? c) && (c <=? 90) then c + 32 else c.
Definition case_eq (a b : bytes) : bool :=
  bool_decide (map tolower a = map tolower b).
Definition isdigit (c : Z) : bool := (48 <=? c) && (c <=? 57).
Fixpoint dec_loop (fuel : nat) (n : Z) : bytes :=
  match fuel with
  | O => []
  | S fuel => (if n <? 10 then [] else dec_loop fuel (n / 10)) ++ [48 + n mod 10]
  end.
(** [%zu]/[%u] of a value below 2^64, and [%d] of an int32. *)
Definition dec (n : Z) : bytes := dec_loop 20 n.
Definition dec_signed (n : Z) : bytes := if n <? 0 then 45 :: dec (- n) else dec n.

(** ** Memory allocation

    [cwist_alloc] and its relatives may fail.  The outcomes of the requests
    still to come are an explicit list, consumed in order; a run past its end
    succeeds. *)
Abbreviation oracle := (list bool).
Definition alloc (o : oracle) : bool * oracle :=
  match o with
  | [] => (true, [])
  | b :: o' => (b, o')
  end.

Definition rd (buf : bytes) (off : nat) : Z := nth off buf 0.

(** The C string a NUL-terminated buffer denotes, and a span of a buffer. *)
Fixpoint cstr (l : bytes) : bytes :=
  match l with
  | [] => []
  | b :: l' => if b =? 0 then [] else b :: cstr l'
  end.
Definition sub (buf : bytes) (off len : nat) : bytes := take len (drop off buf).

(** Little-endian loads and stores of a word ([memcpy] on the hosted targets). *)
Fixpoint le_load (buf : bytes) (off n : nat) : Z :=
  match n with
  | O => 0
  | S n' => rd buf off + 256 * le_load buf (S off) n'
  end.
Fixpoint le_bytes (n : nat) (v : Z) : bytes :=
  match n with
  | O => []
  | S n' => u8 v :: le_bytes n' (v / 256)
  end.

(** ** Buffer lemmas *)

Lemma length_put buf off v : length (put buf off v) = length buf.
Proof. apply length_insert. Qed.

Lemma rd_lookup buf off b : buf !! off = Some b -> rd buf off = b.
Proof.
  unfold rd. revert off. induction buf as [|c buf IH]; intros [|off]; simpl;
    intros H; simplify_eq; auto.
Qed.

Lemma rd_put_eq buf off v : (off < length buf)%nat -> rd (put buf off v) off = v.
Proof. intros H. apply rd_lookup. by apply list_lookup_insert_eq. Qed.

Lemma rd_overflow buf off : (length buf <= off)%nat -> rd buf off = 0.
Proof. apply nth_overflow. Qed.

Lemma rd_put_ne buf off i v : off <> i -> rd (put buf off v) i = rd buf i.
Proof.
  intros H. destruct (decide (i < length buf)%nat) as [Hi|Hi].
  - destruct (lookup_lt_is_Some_2 buf i Hi) as [b Hb].
    rewrite (rd_lookup _ _ _ Hb). apply rd_lookup.
    unfold put. by rewrite list_lookup_insert_ne.
  - rewrite !rd_overflow; [done| |]; rewrite ?length_put; lia.
Qed.

Lemma length_blit src buf off : length (blit buf off src) = length buf.
Proof.
  revert buf off. induction src as [|b src IH]; intros buf off; simpl; [done|].
  by rewrite IH, length_put.
Qed.

Lemma blit_lookup_out src buf off i :
  (i < off \/ off + length src <= i)%nat -> blit buf off src !! i = buf !! i.
Proof.
  revert buf off. induction src as [|b src IH]; intros buf off Hi; simpl in *; [done|].
  rewrite IH by lia. unfold put. apply list_lookup_insert_ne. lia.
Qed.

Lemma blit_lookup_in src buf off i :
  (off + length src <= length buf)%nat -> (i < length src)%nat ->
  blit buf off src !! (off + i)%nat = src !! i.
Proof.
  revert buf off i. induction src as [|b src IH]; intros buf off i Hl Hi; simpl in *; [lia|].
  destruct i as [|i]; simpl.
  - rewrite blit_lookup_out by lia. unfold put.
    rewrite Nat.add_0_r. rewrite list_lookup_insert_eq; [done|lia].
  - rewrite <- Nat.add_succ_comm. apply IH; [rewrite length_put; lia|lia].
Qed.

(** A copy in range replaces exactly the bytes it covers. *)
Lemma blit_in_range src buf off :
  (off + length src <= length buf)%nat ->
  blit buf off src = take off buf ++ src ++ drop (off + length src) buf.
Proof.
  intros H. apply list_eq. intros i.
  destruct (decide (i < off)%nat).
  { rewrite blit_lookup_out by lia. rewrite lookup_app_l by (rewrite length_take; lia).
    by rewrite lookup_take_lt. }
  rewrite lookup_app_r by (rewrite length_take; lia).
  rewrite length_take, Nat.min_l by lia.
  destruct (decide (i < off + length src)%nat).
  - rewrite lookup_app_l by lia.
    replace i with (off + (i - off))%nat at 1 by lia. apply blit_lookup_in; lia.
  - rewrite blit_lookup_out by lia. rewrite lookup_app_r by lia.
    rewrite lookup_drop. f_equal. lia.
Qed.

Lemma rd_app_l a b i : (i < length a)%nat -> rd (a ++ b) i = rd a i.
Proof. apply app_nth1. Qed.
Lemma rd_app_r a b i : (length a <= i)%nat -> rd (a ++ b) i = rd b (i - length a).
Proof. apply app_nth2. Qed.
Lemma rd_drop a i k : rd (drop k a) i = rd a (k + i).
Proof.
  unfold rd. revert k. induction a as [|x a IH]; intros [|k]; simpl; try done.
  - by destruct i.
Qed.

Lemma bytes_ok_rd l i : bytes_ok l -> is_u8 (rd l i).
Proof.
  intros H. destruct (decide (i < length l)%nat) as [Hi|Hi].
  - destruct (lookup_lt_is_Some_2 l i Hi) as [b Hb]. rewrite (rd_lookup _ _ _ Hb).
    by apply (Forall_lookup_1 _ _ _ _ H Hb).
  - rewrite rd_overflow by lia. mlia.
Qed.

Lemma bytes_ok_put l i v : bytes_ok l -> is_u8 v -> bytes_ok (put l i v).
Proof. intros. by apply Forall_insert. Qed.

Lemma cstr_ok_bytes l : cstr_ok l -> bytes_ok l.
Proof. apply Forall_impl. mlia. Qed.

Lemma cstr_id l : cstr_ok l -> cstr l = l.
Proof.
  induction 1 as [|b l Hb _ IH]; simpl; [done|].
  rewrite (proj2 (Z.eqb_neq b 0)) by lia. by rewrite IH.
Qed.

Lemma cstr_is_ok l : bytes_ok l -> cstr_ok (cstr l).
Proof.
  induction 1 as [|b l Hb _ IH]; simpl; [constructor|].
  destruct (Z.eqb_spec b 0); constructor; [mlia|done].
Qed.

Lemma le_load_range buf off n :
  bytes_ok buf -> 0 <= le_load buf off n < 256 ^ Z.of_nat n.
Proof.
  intros H. revert off. induction n as [|n IH]; intros off; [cbn; lia|].
  cbn [le_load]. specialize (IH (S off)). pose proof (bytes_ok_rd buf off H).
  rewrite Nat2Z.inj_succ, Z.pow_succ_r by lia. mlia.
Qed.

Lemma le_bytes_ok n v : bytes_ok (le_bytes n v).
Proof.
  revert v. induction n as [|n IH]; intros v; constructor; [apply u8_range|apply IH].
Qed.
Lemma length_le_bytes n v : length (le_bytes n v) = n.
Proof. revert v. induction n as [|n IH]; intros v; simpl; [done|]. by rewrite IH. Qed.

(** ** Decimal printing *)

(** Digits only, and the value they denote. *)
Fixpoint digits_value (v : bytes) (acc : Z) : Z :=
  match v with
  | [] => acc
  | c :: v' => digits_value v' (acc * 10 + (c - 48))
  end.

Lemma digits_value_app a b acc : digits_value (a ++ b) acc = digits_value b (digits_value a acc).
Proof. revert acc. induction a as [|c a IH]; intros acc; [done|]. apply IH. Qed.

Lemma dec_loop_spec fuel : forall n,
  0 <= n < 10 ^ Z.of_nat fuel -> (0 < fuel)%nat ->
  digits_value (dec_loop fuel n) 0 = n /\
  Forall (fun c => isdigit c = true) (dec_loop fuel n) /\
  (forall k, (0 < k)%nat -> n < 10 ^ Z.of_nat k -> (length (dec_loop fuel n) <= k)%nat) /\
  dec_loop fuel n <> [].
Proof.
  induction fuel as [|fuel IH]; intros n Hn Hf; [lia|]. cbn [dec_loop].
  assert (Hd : isdigit (48 + n mod 10) = true) by (unfold isdigit; zlia).
  destruct (Z.ltb_spec n 10) as [Hlt|Hge].
  - rewrite Z.mod_small by lia. split; [cbn; lia|]. split.
    + constructor; [|done]. rewrite Z.mod_small in Hd by lia. done.
    + split; [cbn; lia|done].
  - rewrite Nat2Z.inj_succ, Z.pow_succ_r in Hn by lia.
    destruct fuel as [|fuel]; [cbn in Hn; lia|].
    destruct (IH (n / 10) ltac:(split; zlia) ltac:(lia)) as (IH1 & IH2 & IH3 & _).
    split; [|split; [|split]].
    + rewrite digits_value_app, IH1. cbn [digits_value]. zlia.
    + apply Forall_app_2; [done|]. by constructor.
    + intros k Hk Hnk. rewrite length_app. cbn [length].
      destruct k as [|[|k]]; [lia|cbn in Hnk; lia|].
      rewrite Nat2Z.inj_succ, Z.pow_succ_r in Hnk by lia.
      specialize (IH3 (S k) ltac:(lia) ltac:(zlia)). lia.
    + intros H. by apply app_eq_nil in H as [_ H].
Qed.

Lemma dec_spec n :
  is_u64 n ->
  digits_value (dec n) 0 = n /\ Forall (fun c => isdigit c = true) (dec n) /\
  (length (dec n) <= 20)%nat /\ dec n <> [].
Proof.
  intros Hn. unfold is_u64 in Hn.
  destruct (dec_loop_spec 20 n ltac:(change (10 ^ Z.of_nat 20) with 100000000000000000000; lia)
    ltac:(lia)) as (H1 & H2 & H3 & H4).
  split; [done|]. split; [done|]. split; [|done]. apply H3; [lia|].
  change (10 ^ Z.of_nat 20) with 100000000000000000000. lia.
Qed.

Lemma dec_signed_length n : -2147483648 <= n < 2147483648 -> (length (dec_signed n) <= 11)%nat.
Proof.
  intros Hn. unfold dec_signed, dec.
  assert (H : forall m, 0 <= m <= 2147483648 -> (length (dec_loop 20 m) <= 10)%nat).
  { intros m Hm. apply (dec_loop_spec 20 m);
      [change (10 ^ Z.of_nat 20) with 100000000000000000000; lia|lia|lia|].
    change (10 ^ Z.of_nat 10) with 10000000000. lia. }
  destruct (Z.ltb_spec n 0); [cbn [length]; specialize (H (- n) ltac:(lia)); lia|].
  specialize (H n ltac:(lia)). lia.
Qed.

(** ** Bit operations as arithmetic *)

Lemma lxor_u64 a b : is_u64 a -> is_u64 b -> is_u64 (Z.lxor a b).
Proof.
  intros Ha Hb. unfold is_u64 in *. assert (0 <= Z.lxor a b) by (apply Z.lxor_nonneg; lia).
  split; [done|]. destruct (decide (Z.lxor a b = 0)) as [->|]; [lia|].
  change 18446744073709551616 with (2 ^ 64). apply Z.log2_lt_pow2; [lia|].
  pose proof (Z.log2_lxor a b ltac:(lia) ltac:(lia)).
  assert (Z.log2 a < 64) by (destruct (decide (a = 0)) as [->|]; [done|]; apply Z.log2_lt_pow2; lia).
  assert (Z.log2 b < 64) by (destruct (decide (b = 0)) as [->|]; [done|]; apply Z.log2_lt_pow2; lia).
  lia.
Qed.

Lemma lor_u64 a b : is_u64 a -> is_u64 b -> is_u64 (Z.lor a b).
Proof.
  intros Ha Hb. unfold is_u64 in *. assert (0 <= Z.lor a b) by (apply Z.lor_nonneg; lia).
  split; [done|]. destruct (decide (Z.lor a b = 0)) as [->|]; [lia|].
  change 18446744073709551616 with (2 ^ 64). apply Z.log2_lt_pow2; [lia|].
  pose proof (Z.log2_lor a b ltac:(lia) ltac:(lia)).
  assert (Z.log2 a < 64) by (destruct (decide (a = 0)) as [->|]; [done|]; apply Z.log2_lt_pow2; lia).
  assert (Z.log2 b < 64) by (destruct (decide (b = 0)) as [->|]; [done|]; apply Z.log2_lt_pow2; lia).
  lia.
Qed.

Lemma lxor_u8 a b : is_u8 a -> is_u8 b -> is_u8 (Z.lxor a b).
Proof.
  intros Ha Hb. unfold is_u8 in *. assert (0 <= Z.lxor a b) by (apply Z.lxor_nonneg; lia).
  split; [done|]. destruct (decide (Z.lxor a b = 0)) as [->|]; [lia|].
  change 256 with (2 ^ 8). apply Z.log2_lt_pow2; [lia|].
  pose proof (Z.log2_lxor a b ltac:(lia) ltac:(lia)).
  assert (Z.log2 a < 8) by (destruct (decide (a = 0)) as [->|]; [done|]; apply Z.log2_lt_pow2; lia).
  assert (Z.log2 b < 8) by (destruct (decide (b = 0)) as [->|]; [done|]; apply Z.log2_lt_pow2; lia).
  lia.
Qed.
#[export] Hint Resolve lxor_u64 lor_u64 lxor_u8 : cwist.

Lemma land_shiftl_small a b k :
  0 <= k -> 0 <= b < 2 ^ k -> Z.land (Z.shiftl a k) b = 0.
Proof.
  intros Hk Hb. apply Z.bits_inj'. intros i Hi.
  rewrite Z.land_spec, Z.bits_0, Z.shiftl_spec by lia.
  destruct (Z.ltb_spec i k).
  - rewrite Z.testbit_neg_r by lia. reflexivity.
  - destruct (decide (b = 0)) as [->|]; [rewrite Z.bits_0; apply andb_false_r|].
    rewrite (Z.bits_above_log2 b i); [apply andb_false_r|lia|].
    apply Z.log2_lt_pow2; [lia|].
    assert (2 ^ k <= 2 ^ i) by (apply Z.pow_le_mono_r; lia). lia.
Qed.

Lemma lor_shiftl_add a b k :
  0 <= k -> 0 <= b < 2 ^ k -> Z.lor (Z.shiftl a k) b = a * 2 ^ k + b.
Proof.
  intros Hk Hb. rewrite <- Z.add_nocarry_lor by (by apply land_shiftl_small).
  by rewrite Z.shiftl_mul_pow2 by lia.
Qed.

Lemma lor_add_shiftl a b k :
  0 <= k -> 0 <= b < 2 ^ k -> Z.lor b (Z.shiftl a k) = b + a * 2 ^ k.
Proof. intros. rewrite Z.lor_comm, lor_shiftl_add by done. lia. Qed.

Lemma lor_add_above t y n :
  0 <= n -> t mod 2 ^ n = 0 -> 0 <= y < 2 ^ n -> Z.lor t y = t + y.
Proof.
  intros Hn Ht Hy. pose proof (Z.div_mod t (2 ^ n) ltac:(lia)) as E. rewrite Ht in E.
  replace t with (Z.shiftl (t / 2 ^ n) n) at 1 by (rewrite Z.shiftl_mul_pow2; lia).
  rewrite lor_shiftl_add by lia. lia.
Qed.

(** Appending a byte below the bytes already placed. *)
Lemma lor_horner q x n m :
  0 <= n -> m = n + 8 -> 0 <= x < 256 ->
  Z.lor (Z.shiftl q m) (Z.shiftl x n) = Z.shiftl (x + 256 * q) n.
Proof.
  intros Hn -> Hx.
  rewrite (Z.add_comm n 8), <- Z.shiftl_shiftl, <- Z.shiftl_lor by lia.
  rewrite lor_shiftl_add by lia. f_equal. lia.
Qed.

(** Bitwise operations on little-endian words go byte by byte. *)
Lemma testbit_byte a A i :
  0 <= a < 256 -> 0 <= i ->
  Z.testbit (a + 256 * A) i = if i <? 8 then Z.testbit a i else Z.testbit A (i - 8).
Proof.
  intros Ha Hi. replace (a + 256 * A) with (Z.lor a (Z.shiftl A 8))
    by (rewrite lor_add_shiftl by lia; lia).
  rewrite Z.lor_spec, Z.shiftl_spec by lia. destruct (Z.ltb_spec i 8).
  - rewrite (Z.testbit_neg_r A) by lia. apply orb_false_r.
  - destruct (decide (a = 0)) as [->|]; [by rewrite Z.bits_0|].
    rewrite (Z.bits_above_log2 a i); [done|lia|].
    assert (Z.log2 a < 8) by (apply Z.log2_lt_pow2; lia). lia.
Qed.

Lemma lxor_byte a A c C :
  0 <= a < 256 -> 0 <= c < 256 ->
  Z.lxor (a + 256 * A) (c + 256 * C) = Z.lxor a c + 256 * Z.lxor A C.
Proof.
  intros Ha Hc. apply Z.bits_inj'. intros i Hi.
  pose proof (lxor_u8 a c Ha Hc). unfold is_u8 in *.
  rewrite Z.lxor_spec, !testbit_byte, !Z.lxor_spec by done. by destruct (i <? 8).
Qed.

Lemma lor_byte a A c C :
  0 <= a < 256 -> 0 <= c < 256 ->
  Z.lor (a + 256 * A) (c + 256 * C) = Z.lor a c + 256 * Z.lor A C.
Proof.
  intros Ha Hc. apply Z.bits_inj'. intros i Hi.
  assert (0 <= Z.lor a c < 256).
  { split; [apply Z.lor_nonneg; lia|].
    destruct (decide (Z.lor a c = 0)) as [->|]; [lia|].
    assert (0 <= Z.lor a c) by (apply Z.lor_nonneg; lia).
    change 256 with (2 ^ 8). apply Z.log2_lt_pow2; [lia|].
    rewrite Z.log2_lor by lia.
    assert (Z.log2 a < 8) by (destruct (decide (a = 0)) as [->|]; [done|]; apply Z.log2_lt_pow2; lia).
    assert (Z.log2 c < 8) by (destruct (decide (c = 0)) as [->|]; [done|]; apply Z.log2_lt_pow2; lia).
    lia. }
  rewrite Z.lor_spec, !testbit_byte, !Z.lor_spec by done. by destruct (i <? 8).
Qed.

(** [Z.land x (2^k - 1)] for the masks the source uses. *)
Lemma land_mask x k m : 0 <= k -> m = Z.ones k -> Z.land x m = x mod 2 ^ k.
Proof. intros ? ->. by apply Z.land_ones. Qed.

Lemma shiftr_div x k n : 0 <= k -> n = 2 ^ k -> Z.shiftr x k = x / n.
Proof. intros ? ->. by apply Z.shiftr_div_pow2. Qed.

(** Rewrites the shifts and masks of byte extraction as division and modulo. *)
Ltac shifts :=
  repeat match goal with
  | |- context [Z.shiftr ?x ?k] =>
      let n := eval vm_compute in (2 ^ k) in
      rewrite (shiftr_div x k n) by (first [lia | reflexivity])
  | |- context [Z.land ?x ?m] =>
      let k := eval vm_compute in (Z.log2_up m) in
      let n := eval vm_compute in (2 ^ k) in
      rewrite (land_mask x k m) by (first [lia | reflexivity]);
      change (2 ^ k) with n
  end.

(** Reads after writes. *)
Ltac rdput :=
  repeat first
    [ rewrite rd_put_eq by (rewrite ?length_put; lia)
    | rewrite rd_put_ne by lia ].
