(* ===== verification/H2Wire.v ===== *)
(** * HTTP/2 wire integers (src/src/net/http/h2_wire.h)

    The big-endian readers and writers the HTTP/2 code uses, on buffers with
    an explicit offset, and their round trips. *)

From S2P Require Import Prelude.

(** ** Writers: [p] is [buf + off]. *)

Definition h2_put_u24 (buf : bytes) (off : nat) (v : Z) : bytes :=
  put (put (put buf off (u8 (Z.shiftr v 16)))
         (off + 1) (u8 (Z.shiftr v 8)))
    (off + 2) (u8 v).

Definition h2_put_u32 (buf : bytes) (off : nat) (v : Z) : bytes :=
  put (put (put (put buf off (u8 (Z.shiftr v 24)))
              (off + 1) (u8 (Z.shiftr v 16)))
         (off + 2) (u8 (Z.shiftr v 8)))
    (off + 3) (u8 v).

Definition h2_put_u31 (buf : bytes) (off : nat) (v : Z) : bytes :=
  h2_put_u32 buf off (Z.land v 2147483647).

(** ** Readers *)

Definition h2_get_u16 (buf : bytes) (off : nat) : Z :=
  u16 (Z.lor (Z.shiftl (rd buf off) 8) (rd buf (off + 1))).

Definition h2_get_u24 (buf : bytes) (off : nat) : Z :=
  Z.lor (Z.lor (Z.shiftl (rd buf off) 16) (Z.shiftl (rd buf (off + 1)) 8))
    (rd buf (off + 2)).

Definition h2_get_u32 (buf : bytes) (off : nat) : Z :=
  Z.lor (Z.lor (Z.lor (u32 (Z.shiftl (rd buf off) 24))
                  (Z.shiftl (rd buf (off + 1)) 16))
           (Z.shiftl (rd buf (off + 2)) 8))
    (rd buf (off + 3)).

Definition h2_get_u31 (buf : bytes) (off : nat) : Z :=
  Z.land (h2_get_u32 buf off) 2147483647.

(** ** Round trips *)

Lemma length_h2_put_u24 buf off v : length (h2_put_u24 buf off v) = length buf.
Proof. unfold h2_put_u24. by rewrite !length_put. Qed.

Lemma length_h2_put_u32 buf off v : length (h2_put_u32 buf off v) = length buf.
Proof. unfold h2_put_u32. by rewrite !length_put. Qed.

Lemma h2_get_put_u24 buf off v :
  0 <= v < 16777216 -> (off + 3 <= length buf)%nat ->
  h2_get_u24 (h2_put_u24 buf off v) off = v.
Proof.
  intros Hv Hl. unfold h2_get_u24, h2_put_u24. rdput. shifts.
  rewrite <- Z.lor_assoc, (lor_shiftl_add _ (u8 v) 8) by mlia.
  rewrite lor_shiftl_add by mlia. mlia.
Qed.

Lemma h2_get_put_u32 buf off v :
  is_u32 v -> (off + 4 <= length buf)%nat ->
  h2_get_u32 (h2_put_u32 buf off v) off = v.
Proof.
  intros Hv Hl. unfold h2_get_u32, h2_put_u32. rdput. shifts.
  rewrite <- !Z.lor_assoc, (lor_shiftl_add _ (u8 v) 8) by mlia.
  rewrite (lor_shiftl_add _ _ 16) by mlia.
  rewrite (Z.shiftl_mul_pow2 _ 24), u32_id by mlia.
  rewrite <- (Z.shiftl_mul_pow2 _ 24), lor_shiftl_add by mlia. mlia.
Qed.

Lemma h2_get_put_u31 buf off v :
  0 <= v < 2147483648 -> (off + 4 <= length buf)%nat ->
  h2_get_u31 (h2_put_u31 buf off v) off = v.
Proof.
  intros Hv Hl. unfold h2_get_u31, h2_put_u31.
  assert (Hm : Z.land v 2147483647 = v) by (shifts; mlia).
  rewrite Hm, h2_get_put_u32 by (done || mlia). done.
Qed.
