(* ===== verification/H2FlowControl.v ===== *)
(** * HTTP/2 flow control (src/src/net/http/http2_flow_control.c)

    Connection and stream windows, the RTT estimator, the pacing bucket and
    the WINDOW_UPDATE writer.  A NULL pointer argument is [None]. *)

From S2P Require Import Prelude H2Wire.

Definition CWIST_HTTP2_INITIAL_CONNECTION_WINDOW : Z := 1536 * 1024.
Definition CWIST_HTTP2_INITIAL_STREAM_WINDOW : Z := 1024 * 1024.
Definition CWIST_HTTP2_MAX_WINDOW : Z := 2147483647.

Inductive net_quality : Type := Q_NORMAL | Q_HIGH_RTT | Q_UNSTABLE.

#[export] Instance net_quality_eq_dec : EqDecision net_quality.
Proof. solve_decision. Defined.

(** ** State *)

Record h2_conn_fc : Type := MkConnFc {
  receive_window : Z;
  target_window : Z;
  min_window : Z;
  max_window : Z;
  pending_update : Z;
  send_window : Z;
  srtt_us : Z;
  rttvar_us : Z;
  rtt_initialized : bool;
  network_quality : net_quality;
  last_window_update_us : Z;
  pacing_tokens : Z;
  pacing_rate : Z;
  pacing_last_us : Z
}.

#[export] Instance h2_conn_fc_fields : Fields h2_conn_fc := fun r =>
  MkConnFc (receive_window r) (target_window r) (min_window r) (max_window r)
    (pending_update r) (send_window r) (srtt_us r) (rttvar_us r) (rtt_initialized r)
    (network_quality r) (last_window_update_us r) (pacing_tokens r) (pacing_rate r)
    (pacing_last_us r).

Record h2_stream_fc : Type := MkStreamFc {
  sf_stream_id : Z;
  sf_receive_window : Z;
  sf_target_window : Z;
  sf_min_window : Z;
  sf_max_window : Z;
  sf_pending_update : Z;
  sf_send_window : Z;
  sf_last_window_update_us : Z
}.

#[export] Instance h2_stream_fc_fields : Fields h2_stream_fc := fun r =>
  MkStreamFc (sf_stream_id r) (sf_receive_window r) (sf_target_window r) (sf_min_window r)
    (sf_max_window r) (sf_pending_update r) (sf_send_window r) (sf_last_window_update_us r).

(** ** Helpers *)

Definition window_clamp (value minimum maximum : Z) : Z :=
  if value <? minimum then minimum
  else if maximum <? value then maximum
  else u32 value.

Definition abs_diff (left right : Z) : Z :=
  if right <=? left then u64 (left - right) else u64 (right - left).

(** [cwist_http2_flow_control_adjust] *)
Definition flow_control_adjust (fc : h2_conn_fc) : h2_conn_fc :=
  if negb fc.(rtt_initialized) then fc else
  let delay_us := u64 (fc.(srtt_us) + u64 (4 * fc.(rttvar_us))) in
  let quality :=
    if fc.(srtt_us) / 2 <? fc.(rttvar_us) then Q_UNSTABLE
    else if 200000 <=? delay_us then Q_HIGH_RTT
    else Q_NORMAL in
  let m0 := delay_us / 200000 in
  let m1 := if m0 <? 1 then 1 else m0 in
  let multiplier := if decide (quality = Q_NORMAL) then m1 else u64 (m1 + 1) in
  let target := window_clamp (u64 (fc.(min_window) * multiplier))
                  fc.(min_window) fc.(max_window) in
  let rate := u64 (target * 1000000) / (if fc.(srtt_us) =? 0 then 1 else fc.(srtt_us)) in
  let rate_floor := u64 (fc.(min_window) * 10) in
  fc <| network_quality := quality |>
     <| target_window := target |>
     <| pacing_rate := if rate <? rate_floor then rate_floor else rate |>.

(** [cwist_http2_write_window_update]: the return code, the buffer and
    [*written]. *)
Definition write_window_update (buffer : option bytes) (buffer_len : Z)
    (written : option Z) (stream_id increment : Z)
    : Z * option bytes * option Z :=
  let written0 := match written with Some _ => Some 0 | None => None end in
  match buffer, written with
  | Some buf, Some _ =>
      if (buffer_len <? 13) || (increment =? 0) then (-1, buffer, written0)
      else
        let buf := h2_put_u24 buf 0 4 in
        let buf := put buf 3 8 in
        let buf := put buf 4 0 in
        let buf := h2_put_u31 buf 5 stream_id in
        let buf := h2_put_u32 buf 9 increment in
        (0, Some buf, Some 13)
  | _, _ => (-1, buffer, written0)
  end.

(** ** Initialisation.  The pointed-to structure is overwritten entirely
    (memset, then every field); [initial * 10U] is a 32-bit product. *)

Definition clamp_initial (requested default : Z) : Z :=
  if requested <? default then default else requested.

Definition clamp_max (initial maximum : Z) : Z :=
  let m := if maximum <? initial then initial else maximum in
  if CWIST_HTTP2_MAX_WINDOW <? m then CWIST_HTTP2_MAX_WINDOW else m.

Definition flow_control_init (p : option h2_conn_fc) (initial maximum : Z)
    : option h2_conn_fc :=
  match p with
  | None => None
  | Some _ =>
      let iw := clamp_initial initial CWIST_HTTP2_INITIAL_CONNECTION_WINDOW in
      let mw := clamp_max iw maximum in
      Some (MkConnFc iw iw iw mw 0 iw 0 0 false Q_NORMAL 0 (iw / 2) (u32 (iw * 10)) 0)
  end.

Definition stream_flow_control_init (p : option h2_stream_fc)
    (stream_id initial maximum : Z) : option h2_stream_fc :=
  match p with
  | None => None
  | Some _ =>
      let iw := clamp_initial initial CWIST_HTTP2_INITIAL_STREAM_WINDOW in
      let mw := clamp_max iw maximum in
      Some (MkStreamFc stream_id iw iw iw mw 0 (s32 iw) 0)
  end.

(** ** RTT estimator *)

Definition flow_control_update_rtt (p : option h2_conn_fc) (rtt_sample_us : Z)
    : option h2_conn_fc :=
  match p with
  | None => None
  | Some fc =>
      if rtt_sample_us =? 0 then Some fc else
      let fc' :=
        if negb fc.(rtt_initialized) then
          fc <| srtt_us := rtt_sample_us |>
             <| rttvar_us := rtt_sample_us / 2 |>
             <| rtt_initialized := true |>
        else
          let difference := abs_diff fc.(srtt_us) rtt_sample_us in
          fc <| rttvar_us := u64 (u64 (3 * fc.(rttvar_us)) + difference) / 4 |>
             <| srtt_us := u64 (u64 (7 * fc.(srtt_us)) + rtt_sample_us) / 8 |> in
      Some (flow_control_adjust fc')
  end.

(** ** Receive side *)

Definition flow_control_receive (p : option h2_conn_fc) (n : Z)
    : option h2_conn_fc * bool :=
  match p with
  | None => (None, false)
  | Some fc =>
      if fc.(receive_window) <? n then (Some fc, false)
      else (Some (fc <| receive_window := u32 (fc.(receive_window) - n) |>), true)
  end.

Definition stream_flow_control_receive (p : option h2_stream_fc) (n : Z)
    : option h2_stream_fc * bool :=
  match p with
  | None => (None, false)
  | Some fc =>
      if fc.(sf_receive_window) <? n then (Some fc, false)
      else (Some (fc <| sf_receive_window := u32 (fc.(sf_receive_window) - n) |>), true)
  end.

Definition pending_add (pending n : Z) : Z :=
  u32 (pending + (if UINT32_MAX - pending <? n then UINT32_MAX - pending else n)).

Definition flow_control_consume (p : option h2_conn_fc) (n : Z) : option h2_conn_fc :=
  match p with
  | None => None
  | Some fc => Some (fc <| pending_update := pending_add fc.(pending_update) n |>)
  end.

Definition stream_flow_control_consume (p : option h2_stream_fc) (n : Z)
    : option h2_stream_fc :=
  match p with
  | None => None
  | Some fc => Some (fc <| sf_pending_update := pending_add fc.(sf_pending_update) n |>)
  end.

(** [cwist_http2_flow_control_retune_target] *)
Definition retune_target (pending srtt interval current minimum maximum : Z) : Z :=
  if interval =? 0 then current else
  let bdp2 := u64 (u64 (2 * pending) * srtt) / interval in
  let target := window_clamp bdp2 minimum maximum in
  let grow_cap := u64 (current * 2) in
  let shrink_floor := current / 2 in
  if grow_cap <? target then window_clamp grow_cap minimum maximum
  else if target <? shrink_floor then window_clamp shrink_floor minimum maximum
  else target.

(** [cwist_http2_flow_control_increment] *)
Definition update_increment (pending receive target : Z) : Z :=
  let top_up := if receive <? target then u32 (target - receive) else 0 in
  if top_up <? pending then pending else top_up.

(** [increment > MAX - window ? MAX : window + increment], in uint32_t. *)
Definition credit_window (window increment : Z) : Z :=
  if u32 (CWIST_HTTP2_MAX_WINDOW - window) <? increment then CWIST_HTTP2_MAX_WINDOW
  else u32 (window + increment).

Definition update_due (force : bool) (pending target : Z) : bool :=
  negb ((pending =? 0) || (negb force && (pending <? target / 2))).

Definition retune_due (fc : h2_conn_fc) (now_us : Z) : bool :=
  fc.(rtt_initialized) && negb (fc.(last_window_update_us) =? 0) &&
  (fc.(last_window_update_us) <? now_us).

Definition maybe_window_update (p : option h2_conn_fc) (buffer : option bytes)
    (buffer_len : Z) (written : option Z) (now_us : Z) (force : bool)
    : Z * option h2_conn_fc * option bytes * option Z :=
  let written0 := match written with Some _ => Some 0 | None => None end in
  match p with
  | None => (0, None, buffer, written0)
  | Some fc =>
      if negb (update_due force fc.(pending_update) fc.(target_window))
      then (0, Some fc, buffer, written0)
      else
        let fc :=
          if retune_due fc now_us then
            fc <| target_window :=
                    retune_target fc.(pending_update) fc.(srtt_us)
                      (u64 (now_us - fc.(last_window_update_us)))
                      fc.(target_window) fc.(min_window) fc.(max_window) |>
          else fc in
        let increment := update_increment fc.(pending_update) fc.(receive_window)
                           fc.(target_window) in
        match write_window_update buffer buffer_len written0 0 increment with
        | (rc, buffer', written') =>
            if negb (rc =? 0) then (-1, Some fc, buffer', written')
            else (1, Some (fc <| receive_window := credit_window fc.(receive_window) increment |>
                              <| pending_update := 0 |>
                              <| last_window_update_us := now_us |>),
                  buffer', written')
        end
  end.

Definition stream_maybe_window_update (c : option h2_conn_fc) (p : option h2_stream_fc)
    (buffer : option bytes) (buffer_len : Z) (written : option Z) (now_us : Z)
    (force : bool) : Z * option h2_stream_fc * option bytes * option Z :=
  let written0 := match written with Some _ => Some 0 | None => None end in
  match c, p with
  | Some conn, Some fc =>
      if (fc.(sf_stream_id) =? 0) || (Z.land fc.(sf_stream_id) 1 =? 0)
      then (0, p, buffer, written0)
      else if negb (update_due force fc.(sf_pending_update) fc.(sf_target_window))
      then (0, p, buffer, written0)
      else
        let fc :=
          if retune_due conn now_us then
            fc <| sf_target_window :=
                    retune_target fc.(sf_pending_update) conn.(srtt_us)
                      (u64 (now_us - conn.(last_window_update_us)))
                      fc.(sf_target_window) fc.(sf_min_window) fc.(sf_max_window) |>
          else fc in
        let increment := update_increment fc.(sf_pending_update) fc.(sf_receive_window)
                           fc.(sf_target_window) in
        match write_window_update buffer buffer_len written0 fc.(sf_stream_id) increment with
        | (rc, buffer', written') =>
            if negb (rc =? 0) then (-1, Some fc, buffer', written')
            else (1, Some (fc <| sf_receive_window :=
                                   credit_window fc.(sf_receive_window) increment |>
                              <| sf_pending_update := 0 |>
                              <| sf_last_window_update_us := now_us |>),
                  buffer', written')
        end
  | _, _ => (-1, p, buffer, written0)
  end.

(** ** Send side *)

Definition flow_control_add_send_window (p : option h2_conn_fc) (increment : Z)
    : option h2_conn_fc :=
  match p with
  | None => None
  | Some fc => Some (fc <| send_window := credit_window fc.(send_window) increment |>)
  end.

(** int64_t sum, capped, then converted to int32_t. *)
Definition stream_send_add (window delta : Z) : Z :=
  let next := window + delta in
  if CWIST_HTTP2_MAX_WINDOW <? next then CWIST_HTTP2_MAX_WINDOW else s32 next.

Definition stream_flow_control_add_send_window (p : option h2_stream_fc) (increment : Z)
    : option h2_stream_fc :=
  match p with
  | None => None
  | Some fc => Some (fc <| sf_send_window := stream_send_add fc.(sf_send_window) increment |>)
  end.

Definition stream_flow_control_adjust_send_window (p : option h2_stream_fc) (delta : Z)
    : option h2_stream_fc :=
  match p with
  | None => None
  | Some fc => Some (fc <| sf_send_window := stream_send_add fc.(sf_send_window) delta |>)
  end.

(** The refill of the pacing bucket at the head of
    [cwist_http2_flow_control_pacing_allowance]. *)
Definition pacing_refill (fc : h2_conn_fc) (now_us : Z) : h2_conn_fc :=
  if fc.(pacing_last_us) =? 0 then fc <| pacing_last_us := now_us |>
  else if fc.(pacing_last_us) <? now_us then
    let elapsed := u64 (now_us - fc.(pacing_last_us)) in
    let rate := fc.(pacing_rate) in
    let fill_us := u64 (u64 (fc.(target_window) * 1000000)
                          / (if rate =? 0 then 1 else rate) + 1) in
    let elapsed := if fill_us <? elapsed then fill_us else elapsed in
    let added := u64 (elapsed * rate) / 1000000 in
    let tokens := u64 (fc.(pacing_tokens) + added) in
    fc <| pacing_tokens := if fc.(target_window) <? tokens then fc.(target_window) else tokens |>
       <| pacing_last_us := now_us |>
  else fc.

Definition pacing_allowance (c : option h2_conn_fc) (s : option h2_stream_fc)
    (requested now_us : Z) : option h2_conn_fc * Z :=
  match c, s with
  | Some conn, Some stream =>
      if stream.(sf_send_window) <=? 0 then (c, 0) else
      let conn := pacing_refill conn now_us in
      let allowed := requested in
      let allowed := if conn.(send_window) <? allowed then conn.(send_window) else allowed in
      let allowed := if stream.(sf_send_window) <? allowed
                     then stream.(sf_send_window) else allowed in
      let allowed := if conn.(pacing_tokens) <? allowed then conn.(pacing_tokens) else allowed in
      (Some conn, allowed)
  | _, _ => (c, 0)
  end.

(** [None] is undefined behaviour: with [bytes = 0] a NULL pointer passes the
    comparison and is then dereferenced. *)
Definition reserve_send (c : option h2_conn_fc) (s : option h2_stream_fc) (n now_us : Z)
    : option (option h2_conn_fc * option h2_stream_fc * bool) :=
  match pacing_allowance c s n now_us with
  | (c', allowed) =>
      if allowed <? n then Some (c', s, false)
      else
        match c', s with
        | Some conn, Some stream =>
            Some (Some (conn <| send_window := u32 (conn.(send_window) - n) |>
                             <| pacing_tokens := u64 (conn.(pacing_tokens) - n) |>),
                  Some (stream <| sf_send_window := s32 (stream.(sf_send_window) - n) |>),
                  true)
        | _, _ => None
        end
  end.

(** ** Well-formed states *)

Record conn_ok (fc : h2_conn_fc) : Prop := {
  ok_recv : 0 <= fc.(receive_window) <= CWIST_HTTP2_MAX_WINDOW;
  ok_min : 0 < fc.(min_window) <= fc.(target_window);
  ok_target : fc.(target_window) <= fc.(max_window);
  ok_max : fc.(max_window) <= CWIST_HTTP2_MAX_WINDOW;
  ok_pending : is_u32 fc.(pending_update);
  ok_send : 0 <= fc.(send_window) <= CWIST_HTTP2_MAX_WINDOW;
  ok_srtt : is_u64 fc.(srtt_us);
  ok_rttvar : is_u64 fc.(rttvar_us);
  ok_tokens : 0 <= fc.(pacing_tokens) <= fc.(max_window);
  ok_rate : 0 <= fc.(pacing_rate) <= CWIST_HTTP2_MAX_WINDOW * 1000000;
  ok_last : is_u64 fc.(last_window_update_us);
  ok_pacing_last : is_u64 fc.(pacing_last_us)
}.

Record stream_ok (fc : h2_stream_fc) : Prop := {
  sok_recv : 0 <= fc.(sf_receive_window) <= CWIST_HTTP2_MAX_WINDOW;
  sok_min : 0 < fc.(sf_min_window) <= fc.(sf_target_window);
  sok_target : fc.(sf_target_window) <= fc.(sf_max_window);
  sok_max : fc.(sf_max_window) <= CWIST_HTTP2_MAX_WINDOW;
  sok_pending : is_u32 fc.(sf_pending_update);
  sok_send : -2147483648 <= fc.(sf_send_window) <= CWIST_HTTP2_MAX_WINDOW
}.

(** The calls the HTTP/2 connection makes, with their arguments. *)
Inductive fc_event : Type :=
| EvRtt (sample : Z)
| EvReceive (n : Z)
| EvStreamReceive (n : Z)
| EvConsume (n : Z)
| EvStreamConsume (n : Z)
| EvUpdate (buffer : option bytes) (len : Z) (written : option Z) (now : Z) (force : bool)
| EvStreamUpdate (buffer : option bytes) (len : Z) (written : option Z) (now : Z) (force : bool)
| EvAddSend (n : Z)
| EvStreamAddSend (n : Z)
| EvStreamAdjustSend (delta : Z)
| EvAllowance (requested now : Z)
| EvReserve (n now : Z).

Definition event_ok (e : fc_event) : Prop :=
  match e with
  | EvRtt s => is_u64 s
  | EvReceive n | EvStreamReceive n | EvConsume n | EvStreamConsume n
  | EvAddSend n | EvStreamAddSend n => is_u32 n
  | EvUpdate _ _ _ now _ | EvStreamUpdate _ _ _ now _ => is_u64 now
  | EvStreamAdjustSend d => -2147483648 <= d < 2147483648
  | EvAllowance r now => is_u64 r /\ is_u64 now
  | EvReserve n now => is_u32 n /\ is_u64 now
  end.

Definition fc_step (st : h2_conn_fc * h2_stream_fc) (e : fc_event)
    : h2_conn_fc * h2_stream_fc :=
  let '(c, s) := st in
  match e with
  | EvRtt x => (default c (flow_control_update_rtt (Some c) x), s)
  | EvReceive n => (default c (flow_control_receive (Some c) n).1, s)
  | EvStreamReceive n => (c, default s (stream_flow_control_receive (Some s) n).1)
  | EvConsume n => (default c (flow_control_consume (Some c) n), s)
  | EvStreamConsume n => (c, default s (stream_flow_control_consume (Some s) n))
  | EvUpdate b l w now f =>
      (default c (maybe_window_update (Some c) b l w now f).1.1.2, s)
  | EvStreamUpdate b l w now f =>
      (c, default s (stream_maybe_window_update (Some c) (Some s) b l w now f).1.1.2)
  | EvAddSend n => (default c (flow_control_add_send_window (Some c) n), s)
  | EvStreamAddSend n => (c, default s (stream_flow_control_add_send_window (Some s) n))
  | EvStreamAdjustSend d =>
      (c, default s (stream_flow_control_adjust_send_window (Some s) d))
  | EvAllowance r now => (default c (pacing_allowance (Some c) (Some s) r now).1, s)
  | EvReserve n now =>
      match reserve_send (Some c) (Some s) n now with
      | Some (c', s', _) => (default c c', default s s')
      | None => (c, s)
      end
  end.

Definition fc_run (st : h2_conn_fc * h2_stream_fc) (es : list fc_event)
    : h2_conn_fc * h2_stream_fc := fold_left fc_step es st.

(** ** Lemmas *)

Ltac fields :=
  unfold set_field; cbn [receive_window target_window min_window max_window pending_update
    send_window srtt_us rttvar_us rtt_initialized network_quality last_window_update_us
    pacing_tokens pacing_rate pacing_last_us sf_stream_id sf_receive_window sf_target_window
    sf_min_window sf_max_window sf_pending_update sf_send_window sf_last_window_update_us
    default fst snd id].

Lemma window_clamp_range v lo hi :
  0 <= lo <= hi -> is_u32 hi -> lo <= window_clamp v lo hi <= hi.
Proof. intros. unfold window_clamp. cases_ltb; mlia. Qed.

Lemma credit_window_range w inc :
  0 <= w <= CWIST_HTTP2_MAX_WINDOW -> is_u32 inc ->
  0 <= credit_window w inc <= CWIST_HTTP2_MAX_WINDOW.
Proof. intros. unfold credit_window, CWIST_HTTP2_MAX_WINDOW in *. cases_ltb; mlia. Qed.

Lemma credit_window_min w inc :
  0 <= w <= CWIST_HTTP2_MAX_WINDOW -> is_u32 inc ->
  credit_window w inc = Z.min CWIST_HTTP2_MAX_WINDOW (w + inc).
Proof. intros. unfold credit_window, CWIST_HTTP2_MAX_WINDOW in *. cases_ltb; mlia. Qed.

Lemma pending_add_range p n : is_u32 p -> is_u32 n -> is_u32 (pending_add p n).
Proof. intros. unfold pending_add. apply u32_range. Qed.

Lemma retune_target_range pending srtt interval current lo hi :
  0 < lo <= current -> current <= hi -> is_u32 hi ->
  lo <= retune_target pending srtt interval current lo hi <= hi.
Proof.
  intros. unfold retune_target.
  destruct (interval =? 0); [lia|]. cases_ltb; apply window_clamp_range; first [done | lia].
Qed.

Lemma update_increment_max p r t :
  is_u32 p -> is_u32 r -> is_u32 t -> update_increment p r t = Z.max p (t - r).
Proof. intros. unfold update_increment. cases_ltb; mlia. Qed.

Lemma update_increment_u32 p r t :
  is_u32 p -> is_u32 r -> is_u32 t -> is_u32 (update_increment p r t).
Proof. intros. rewrite update_increment_max by done. mlia. Qed.

Lemma stream_send_add_range w d :
  -2147483648 <= w <= CWIST_HTTP2_MAX_WINDOW -> -2147483648 <= d < 4294967296 ->
  -2147483648 <= stream_send_add w d <= CWIST_HTTP2_MAX_WINDOW.
Proof.
  intros. unfold stream_send_add, s32, CWIST_HTTP2_MAX_WINDOW in *. cases_ltb; mlia.
Qed.

#[export] Hint Resolve window_clamp_range credit_window_range pending_add_range
  update_increment_u32 : cwist.

Lemma ok_recv_u32 fc : conn_ok fc -> is_u32 fc.(receive_window).
Proof. intros []. unfold CWIST_HTTP2_MAX_WINDOW in *. mlia. Qed.
Lemma ok_target_u32 fc : conn_ok fc -> is_u32 fc.(target_window).
Proof. intros []. unfold CWIST_HTTP2_MAX_WINDOW in *. mlia. Qed.
Lemma sok_recv_u32 fc : stream_ok fc -> is_u32 fc.(sf_receive_window).
Proof. intros []. unfold CWIST_HTTP2_MAX_WINDOW in *. mlia. Qed.
Lemma sok_target_u32 fc : stream_ok fc -> is_u32 fc.(sf_target_window).
Proof. intros []. unfold CWIST_HTTP2_MAX_WINDOW in *. mlia. Qed.

(** *** The RTT estimator *)

Lemma adjust_ok fc : conn_ok fc -> conn_ok (flow_control_adjust fc).
Proof.
  intros [? ? ? ? ? ? ? ? ? ? ? ?]. unfold flow_control_adjust.
  destruct (rtt_initialized fc); cbn [negb]; [|done].
  set (q := if _ <? _ then Q_UNSTABLE else _). set (m := if decide _ then _ else _).
  assert (Ht : min_window fc <= window_clamp (u64 (min_window fc * m)) (min_window fc) (max_window fc)
            <= max_window fc)
    by (apply window_clamp_range; unfold CWIST_HTTP2_MAX_WINDOW in *; mlia).
  set (t := window_clamp _ _ _) in *. clearbody t q m.
  constructor; fields; try lia; try done.
  set (d := if srtt_us fc =? 0 then _ else _).
  assert (1 <= d) by (unfold d, is_u64 in *; destruct (Z.eqb_spec (srtt_us fc) 0); lia).
  clearbody d.
  rewrite (u64_id (t * 1000000)) by (unfold CWIST_HTTP2_MAX_WINDOW in *; mlia).
  rewrite (u64_id (min_window fc * 10)) by (unfold CWIST_HTTP2_MAX_WINDOW in *; mlia).
  assert (0 <= t * 1000000 / d <= t * 1000000) by (split; znia).
  cases_ltb; lia.
Qed.

Lemma update_rtt_ok fc x fc' :
  conn_ok fc -> is_u64 x -> flow_control_update_rtt (Some fc) x = Some fc' -> conn_ok fc'.
Proof.
  intros Hok Hx. unfold flow_control_update_rtt.
  destruct (x =? 0); intros [= <-]; [done|]. apply adjust_ok.
  destruct Hok, (rtt_initialized fc); cbn [negb]; constructor; fields; try done;
    pose proof (u64_range (3 * rttvar_us fc)); mlia.
Qed.

(** *** The pacing bucket *)

(** What the bucket would hold if its arithmetic were exact and the elapsed
    time were not capped. *)
Definition ideal_tokens (fc : h2_conn_fc) (now_us : Z) : Z :=
  Z.min fc.(target_window)
    (fc.(pacing_tokens) + (now_us - fc.(pacing_last_us)) * fc.(pacing_rate) / 1000000).

Lemma refill_exact fc now :
  conn_ok fc -> is_u64 now -> fc.(pacing_last_us) <> 0 -> fc.(pacing_last_us) < now ->
  (pacing_refill fc now).(pacing_tokens) = ideal_tokens fc now.
Proof.
  intros [? ? ? ? ? ? ? ? ? ? ? Hl] Hn H0 Hlt.
  unfold pacing_refill, ideal_tokens. rewrite (proj2 (Z.eqb_neq _ _)) by done.
  rewrite (proj2 (Z.ltb_lt _ _) Hlt). fields. unfold CWIST_HTTP2_MAX_WINDOW in *.
  set (t := target_window fc) in *. set (r := pacing_rate fc) in *.
  set (k := pacing_tokens fc) in *.
  rewrite (u64_id (now - pacing_last_us fc)) by mlia.
  set (e := now - pacing_last_us fc). assert (He : 0 < e < 18446744073709551616) by mlia.
  clearbody e k r t. rewrite (u64_id (t * 1000000)) by mlia.
  set (d := if r =? 0 then 1 else r).
  assert (Hd : 1 <= d /\ (r <> 0 -> d = r)) by (unfold d; destruct (Z.eqb_spec r 0); lia).
  clearbody d.
  assert (Hq : 0 <= t * 1000000 / d <= t * 1000000) by (split; znia).
  rewrite (u64_id (t * 1000000 / d + 1)) by mlia.
  set (f := t * 1000000 / d + 1) in *.
  assert (Hf : t * 1000000 < f * d <= t * 1000000 + d).
  { unfold f. znia. }
  assert (Hfr : f * r <= 4294967296000000) by (destruct (decide (r = 0)); [nia|]; nia).
  assert (Hrf : r <> 0 -> t * 1000000 <= f * r) by nia.
  clearbody f.
  destruct (Z.ltb_spec f e) as [Hfe|Hfe].
  - rewrite (u64_id (f * r)) by (unfold is_u64; nia).
    assert (f * r / 1000000 <= e * r / 1000000) by (apply Z.div_le_mono; nia).
    assert (0 <= f * r / 1000000 <= f * r) by (split; [apply Z.div_pos; nia|znia]).
    assert (r = 0 \/ t <= f * r / 1000000) as [->|?].
    { destruct (decide (r = 0)); [by left|right]. apply Z.div_le_lower_bound; lia. }
    + rewrite !Z.mul_0_r. rewrite (u64_id (k + _)) by mlia. cases_ltb; lia.
    + rewrite (u64_id (k + _)) by mlia. cases_ltb; lia.
  - assert (0 <= e * r <= f * r) by nia.
    rewrite (u64_id (e * r)) by mlia.
    assert (0 <= e * r / 1000000 <= e * r) by (split; [apply Z.div_pos; lia|zlia]).
    rewrite (u64_id (k + _)) by mlia. cases_ltb; lia.
Qed.

Lemma ideal_tokens_range fc now :
  conn_ok fc -> fc.(pacing_last_us) <= now ->
  0 <= ideal_tokens fc now <= fc.(target_window).
Proof.
  intros [] Hle. unfold ideal_tokens.
  assert (0 <= (now - pacing_last_us fc) * pacing_rate fc / 1000000)
    by (apply Z.div_pos; nia). lia.
Qed.

Lemma refill_ok fc now : conn_ok fc -> is_u64 now -> conn_ok (pacing_refill fc now).
Proof.
  intros Hok Hn. pose proof (refill_exact fc now Hok Hn) as Hx.
  unfold pacing_refill in *. destruct (Z.eqb_spec (pacing_last_us fc) 0).
  - destruct Hok. constructor; fields; done.
  - destruct (Z.ltb_spec (pacing_last_us fc) now); [|done].
    pose proof (ideal_tokens_range fc now Hok ltac:(lia)) as Hr.
    revert Hx. fields. intros Hx. rewrite <- Hx in Hr by done.
    destruct Hok. constructor; fields; first [done | lia].
Qed.

Lemma refill_windows fc now :
  (pacing_refill fc now).(send_window) = fc.(send_window) /\
  (pacing_refill fc now).(target_window) = fc.(target_window).
Proof.
  unfold pacing_refill. destruct (_ =? 0); [done|]. by destruct (_ <? now).
Qed.

(** A refill never takes tokens away, unless the target has shrunk below them. *)
Lemma refill_tokens_mono fc now :
  conn_ok fc -> is_u64 now ->
  Z.min fc.(target_window) fc.(pacing_tokens) <= (pacing_refill fc now).(pacing_tokens).
Proof.
  intros Hok Hn. pose proof (refill_exact fc now Hok Hn) as Hx.
  unfold pacing_refill in *. destruct (Z.eqb_spec (pacing_last_us fc) 0); [fields; lia|].
  destruct (Z.ltb_spec (pacing_last_us fc) now); [|lia].
  rewrite Hx by done. unfold ideal_tokens. destruct Hok.
  assert (0 <= (now - pacing_last_us fc) * pacing_rate fc / 1000000)
    by (apply Z.div_pos; nia). lia.
Qed.

(** *** Sending *)

(** The credit available for a stream: the specification of the allowance. *)
Definition send_credit (c : h2_conn_fc) (s : h2_stream_fc) : Z :=
  Z.min c.(send_window) (Z.min s.(sf_send_window) c.(pacing_tokens)).

Lemma allowance_min c s r now :
  pacing_allowance (Some c) (Some s) r now =
  if s.(sf_send_window) <=? 0 then (Some c, 0)
  else (Some (pacing_refill c now),
        Z.min r (send_credit (pacing_refill c now) s)).
Proof.
  unfold pacing_allowance, send_credit. destruct (_ <=? 0); [done|].
  f_equal. cases_ltb; lia.
Qed.

Lemma reserve_cases c s n now :
  conn_ok c -> stream_ok s -> is_u32 n -> is_u64 now ->
  let c' := pacing_refill c now in
  reserve_send (Some c) (Some s) n now =
  if s.(sf_send_window) <=? 0 then Some (Some c, Some s, n =? 0) else
  if decide (n <= send_credit c' s)
  then Some (Some (c' <| send_window := c'.(send_window) - n |>
                      <| pacing_tokens := c'.(pacing_tokens) - n |>),
             Some (s <| sf_send_window := s.(sf_send_window) - n |>), true)
  else Some (Some c', Some s, false).
Proof.
  intros Hc Hs Hn Hnow c'.
  assert (Hc' : conn_ok c') by (by apply refill_ok).
  unfold reserve_send. rewrite allowance_min. fold c'.
  destruct Hc, Hs, Hc'. unfold CWIST_HTTP2_MAX_WINDOW, is_u32 in *.
  destruct (Z.leb_spec (sf_send_window s) 0).
  - destruct (Z.eqb_spec n 0) as [->|].
    + rewrite Z.ltb_irrefl. rewrite !Z.sub_0_r.
      rewrite u32_id, u64_id by mlia.
      assert (Hs : s32 (sf_send_window s) = sf_send_window s).
      { unfold s32. cases_ltb; mlia. }
      rewrite Hs. by destruct c, s.
    + rewrite (proj2 (Z.ltb_lt 0 n)) by lia. done.
  - unfold send_credit. destruct (decide _) as [Hle|Hgt].
    + rewrite (proj2 (Z.ltb_ge _ _)) by lia.
      rewrite u32_id, u64_id by mlia. unfold s32. rewrite u32_id by mlia.
      rewrite (proj2 (Z.ltb_lt _ 2147483648)) by mlia. done.
    + rewrite (proj2 (Z.ltb_lt _ _)) by lia. done.
Qed.

Lemma allowance_ok c s r now :
  conn_ok c -> is_u64 now ->
  conn_ok (default c (pacing_allowance (Some c) (Some s) r now).1).
Proof.
  intros. rewrite allowance_min. destruct (_ <=? 0); fields; [done|]. by apply refill_ok.
Qed.

Lemma reserve_ok c s n now c' s' b :
  conn_ok c -> stream_ok s -> is_u32 n -> is_u64 now ->
  reserve_send (Some c) (Some s) n now = Some (Some c', Some s', b) ->
  conn_ok c' /\ stream_ok s'.
Proof.
  intros Hc Hs Hn Hnow. rewrite reserve_cases by done.
  destruct (_ <=? 0); [by intros [= <- <- _]|].
  pose proof (refill_ok c now Hc Hnow) as Hr.
  destruct (decide _) as [Hle|]; intros [= <- <- _]; [|done].
  unfold send_credit in Hle. unfold is_u32 in *.
  split; [destruct Hr | destruct Hs]; constructor; fields; first [done | lia].
Qed.

(** *** Window updates *)

Lemma write_window_update_cases buf len w id inc :
  is_u32 id -> is_u32 inc -> (13 <= len -> 13 <= blen buf) ->
  write_window_update (Some buf) len (Some w) id inc =
    (-1, Some buf, Some 0) /\ (len < 13 \/ inc = 0) \/
  13 <= len /\ inc <> 0 /\
  exists buf', write_window_update (Some buf) len (Some w) id inc = (0, Some buf', Some 13) /\
    h2_get_u24 buf' 0 = 4 /\ rd buf' 3 = 8 /\ rd buf' 4 = 0 /\
    h2_get_u31 buf' 5 = id mod 2147483648 /\ h2_get_u32 buf' 9 = inc /\
    length buf' = length buf /\ drop 13 buf' = drop 13 buf.
Proof.
  intros Hid Hinc Hlen. unfold write_window_update.
  destruct (Z.ltb_spec len 13); cbn [orb]; [left; split; [done|by left]|].
  destruct (Z.eqb_spec inc 0); [left; split; [done|by right]|].
  right. split; [done|]. split; [done|]. eexists. split; [done|].
  unfold blen in Hlen. specialize (Hlen ltac:(lia)).
  assert (Hb : (13 <= length buf)%nat) by lia.
  assert (Hmask : Z.land id 2147483647 = id mod 2147483648) by (by shifts).
  split; [|split; [|split; [|split; [|split; [|split]]]]].
  - unfold h2_get_u24, h2_put_u31, h2_put_u32, h2_put_u24. rdput. reflexivity.
  - unfold h2_put_u31, h2_put_u32, h2_put_u24. rdput. reflexivity.
  - unfold h2_put_u31, h2_put_u32, h2_put_u24. rdput. reflexivity.
  - assert (Hfar : forall b v, h2_get_u31 (h2_put_u32 b 9 v) 5 = h2_get_u31 b 5).
    { intros b v. unfold h2_get_u31, h2_get_u32, h2_put_u32. rdput. reflexivity. }
    rewrite Hfar. unfold h2_put_u31. rewrite Hmask.
    assert (Hm : Z.land (id mod 2147483648) 2147483647 = id mod 2147483648) by (shifts; mlia).
    rewrite <- Hm at 1. fold (h2_put_u31 (put (put (h2_put_u24 buf 0 4) 3 8) 4 0) 5
      (id mod 2147483648)). apply h2_get_put_u31; [mlia|].
    rewrite !length_put, length_h2_put_u24. lia.
  - apply h2_get_put_u32; [done|].
    unfold h2_put_u31. rewrite length_h2_put_u32, !length_put, length_h2_put_u24. lia.
  - unfold h2_put_u31. by rewrite !length_h2_put_u32, !length_put, length_h2_put_u24.
  - unfold h2_put_u31, h2_put_u32, h2_put_u24, put.
    by rewrite !drop_insert_lt by lia.
Qed.

Lemma maybe_window_update_ok fc b l w now f rc fc' b' w' :
  conn_ok fc -> is_u64 now ->
  maybe_window_update (Some fc) b l w now f = (rc, Some fc', b', w') -> conn_ok fc'.
Proof.
  intros Hok Hn. unfold maybe_window_update.
  destruct (negb (update_due _ _ _)); [by intros [= <- <- <- <-]|].
  set (fc1 := if retune_due fc now then _ else fc).
  assert (Hok1 : conn_ok fc1).
  { unfold fc1. destruct (retune_due fc now); [|done].
    pose proof (ok_target_u32 fc Hok). destruct Hok. unfold CWIST_HTTP2_MAX_WINDOW in *.
    assert (Hm : is_u32 (max_window fc)) by mlia.
    pose proof (retune_target_range (pending_update fc) (srtt_us fc)
      (u64 (now - last_window_update_us fc)) (target_window fc) (min_window fc)
      (max_window fc) ltac:(lia) ltac:(lia) Hm).
    constructor; fields; unfold CWIST_HTTP2_MAX_WINDOW; first [done | lia]. }
  clearbody fc1. pose proof (ok_recv_u32 fc1 Hok1). pose proof (ok_target_u32 fc1 Hok1).
  destruct (write_window_update _ _ _ _ _) as [[rc1 b1] w1].
  destruct (negb (rc1 =? 0)); [by intros [= <- <- <- <-]|].
  intros [= <- <- <- <-]. destruct Hok1.
  constructor; fields; try done.
  apply credit_window_range; [done|]. by apply update_increment_u32.
Qed.

Lemma stream_maybe_window_update_ok c fc b l w now f rc fc' b' w' :
  conn_ok c -> stream_ok fc -> is_u64 now ->
  stream_maybe_window_update (Some c) (Some fc) b l w now f = (rc, Some fc', b', w') ->
  stream_ok fc'.
Proof.
  intros Hc Hok Hn. unfold stream_maybe_window_update.
  destruct (_ || _); [by intros [= <- <- <- <-]|].
  destruct (negb (update_due _ _ _)); [by intros [= <- <- <- <-]|].
  set (fc1 := if retune_due c now then _ else fc).
  assert (Hok1 : stream_ok fc1).
  { unfold fc1. destruct (retune_due c now); [|done].
    destruct Hok. unfold CWIST_HTTP2_MAX_WINDOW in *.
    assert (Hm : is_u32 (sf_max_window fc)) by mlia.
    pose proof (retune_target_range (sf_pending_update fc) (srtt_us c)
      (u64 (now - last_window_update_us c)) (sf_target_window fc) (sf_min_window fc)
      (sf_max_window fc) ltac:(lia) ltac:(lia) Hm).
    constructor; fields; unfold CWIST_HTTP2_MAX_WINDOW; first [done | lia]. }
  clearbody fc1. pose proof (sok_recv_u32 fc1 Hok1). pose proof (sok_target_u32 fc1 Hok1).
  destruct (write_window_update _ _ _ _ _) as [[rc1 b1] w1].
  destruct (negb (rc1 =? 0)); [by intros [= <- <- <- <-]|].
  intros [= <- <- <- <-]. destruct Hok1.
  constructor; fields; try done.
  apply credit_window_range; [done|]. by apply update_increment_u32.
Qed.

Lemma init_ok initial maximum fc fc' :
  0 <= initial <= CWIST_HTTP2_MAX_WINDOW -> is_u32 maximum ->
  flow_control_init (Some fc) initial maximum = Some fc' -> conn_ok fc'.
Proof.
  intros Hi Hm [= <-]. unfold clamp_max, clamp_initial, CWIST_HTTP2_INITIAL_CONNECTION_WINDOW,
    CWIST_HTTP2_MAX_WINDOW in *.
  set (iw := if _ <? _ then _ else initial).
  assert (1536 * 1024 <= iw <= 2147483647) by (unfold iw; cases_ltb; lia). clearbody iw.
  constructor; fields; cases_ltb; unfold CWIST_HTTP2_MAX_WINDOW; mlia.
Qed.

Lemma stream_init_ok id initial maximum fc fc' :
  0 <= initial <= CWIST_HTTP2_MAX_WINDOW -> is_u32 maximum ->
  stream_flow_control_init (Some fc) id initial maximum = Some fc' -> stream_ok fc'.
Proof.
  intros Hi Hm [= <-]. unfold clamp_max, clamp_initial, CWIST_HTTP2_INITIAL_STREAM_WINDOW,
    CWIST_HTTP2_MAX_WINDOW in *.
  set (iw := if _ <? _ then _ else initial).
  assert (1024 * 1024 <= iw <= 2147483647) by (unfold iw; cases_ltb; lia). clearbody iw.
  constructor; fields; unfold s32; cases_ltb; unfold CWIST_HTTP2_MAX_WINDOW; mlia.
Qed.

(** *** Receive credit *)

Lemma conn_receive_ok fc n : conn_ok fc -> is_u32 n -> conn_ok (default fc (flow_control_receive (Some fc) n).1).
Proof.
  intros Hc Hn. unfold flow_control_receive. cases_ltb; [done|]. destruct Hc.
  constructor; fields; unfold CWIST_HTTP2_MAX_WINDOW in *; first [done | mlia].
Qed.
Lemma conn_consume_ok fc n : conn_ok fc -> is_u32 n -> conn_ok (default fc (flow_control_consume (Some fc) n)).
Proof. intros []. constructor; fields; first [done | by apply pending_add_range]. Qed.
Lemma stream_receive_ok fc n :
  stream_ok fc -> is_u32 n -> stream_ok (default fc (stream_flow_control_receive (Some fc) n).1).
Proof.
  intros Hc Hn. unfold stream_flow_control_receive. cases_ltb; [done|]. destruct Hc.
  constructor; fields; unfold CWIST_HTTP2_MAX_WINDOW in *; first [done | mlia].
Qed.
Lemma stream_consume_ok fc n :
  stream_ok fc -> is_u32 n -> stream_ok (default fc (stream_flow_control_consume (Some fc) n)).
Proof. intros []. constructor; fields; first [done | by apply pending_add_range]. Qed.

Lemma fc_step_ok c s e :
  conn_ok c -> stream_ok s -> event_ok e ->
  conn_ok (fc_step (c, s) e).1 /\ stream_ok (fc_step (c, s) e).2.
Proof.
  intros Hc Hs He. destruct e; cbn [event_ok fc_step fst snd default
    flow_control_consume stream_flow_control_consume flow_control_add_send_window
    stream_flow_control_add_send_window stream_flow_control_adjust_send_window] in *;
    split; try done.
  - destruct (flow_control_update_rtt _ _) eqn:E; [by eapply update_rtt_ok|done].
  - by apply conn_receive_ok.
  - by apply stream_receive_ok.
  - by apply conn_consume_ok.
  - by apply stream_consume_ok.
  - destruct (maybe_window_update _ _ _ _ _ _) as [[[rc [fc'|]] b'] w'] eqn:E;
      [by eapply maybe_window_update_ok|done].
  - destruct (stream_maybe_window_update _ _ _ _ _ _ _) as [[[rc [fc'|]] b'] w'] eqn:E;
      [|done]. by eapply (stream_maybe_window_update_ok c s).
  - destruct Hc. constructor; fields; first [done | auto with cwist].
  - destruct Hs. constructor; fields; try done. apply stream_send_add_range; [done|mlia].
  - destruct Hs. constructor; fields; try done. apply stream_send_add_range; [done|mlia].
  - destruct He. by apply allowance_ok.
  - destruct He. destruct (reserve_send _ _ _ _) as [[[[c'|] [s'|]] b]|] eqn:E; fields; try done.
    + by eapply (reserve_ok c s).
    + rewrite reserve_cases in E by done. by repeat case_match.
  - destruct He. destruct (reserve_send _ _ _ _) as [[[[c'|] [s'|]] b]|] eqn:E; fields; try done.
    + by eapply (reserve_ok c s).
    + rewrite reserve_cases in E by done. by repeat case_match.
Qed.

(** ** Properties *)

Lemma fc_run_ok es c s :
  conn_ok c -> stream_ok s -> Forall event_ok es ->
  conn_ok (fc_run (c, s) es).1 /\ stream_ok (fc_run (c, s) es).2.
Proof.
  intros Hc Hs Hes. revert c s Hc Hs.
  induction Hes as [|e es He Hes IH]; intros c s Hc Hs; [done|].
  pose proof (fc_step_ok c s e Hc Hs He) as [Hc' Hs'].
  unfold fc_run in *. cbn [fold_left]. destruct (fc_step (c, s) e) as [c' s'].
  by apply IH.
Qed.

(** from initialisation with initial windows of at most 2^31-1, whatever
    sequence of RTT samples, DATA receipts, consumptions, WINDOW_UPDATEs sent
    or received, SETTINGS adjustments, allowance queries and reservations
    follows, every receive and send window stays within the protocol maximum,
    min <= target <= max holds, the stream's send window stays in int32 range
    and the bucket never exceeds the maximum window. *)
Theorem fc_windows_invariant ini maxi sid sini smaxi raw sraw c0 s0 es :
  0 <= ini <= CWIST_HTTP2_MAX_WINDOW -> is_u32 maxi ->
  0 <= sini <= CWIST_HTTP2_MAX_WINDOW -> is_u32 smaxi ->
  flow_control_init (Some raw) ini maxi = Some c0 ->
  stream_flow_control_init (Some sraw) sid sini smaxi = Some s0 ->
  Forall event_ok es ->
  conn_ok (fc_run (c0, s0) es).1 /\ stream_ok (fc_run (c0, s0) es).2.
Proof.
  intros ? ? ? ? Hc Hs He. apply fc_run_ok; [| |done].
  - by apply (init_ok ini maxi raw).
  - by apply (stream_init_ok sid sini smaxi sraw).
Qed.

Definition wit_conn : h2_conn_fc :=
  MkConnFc 1000 1572864 1572864 4000000 900000 70000 1000 500 true Q_NORMAL 10 20000
    15728640 5.
Definition wit_stream : h2_stream_fc := MkStreamFc 3 1000 1048576 1048576 4000000 0 70000 0.

Lemma fc_windows_invariant_witness :
  let st := fc_run (default wit_conn (flow_control_init (Some wit_conn) 65535 0),
                    default wit_stream (stream_flow_control_init (Some wit_stream) 3 65535 0))
              [EvRtt 50000; EvReceive 900000; EvConsume 900000;
               EvUpdate (Some (repeat 0 13)) 13 (Some 0) 77 false; EvReserve 16384 100] in
  conn_ok st.1 /\ stream_ok st.2 /\ st.1.(send_window) = 1572864 - 16384.
Proof.
  split; [|split]; [| |reflexivity];
    eapply (fc_windows_invariant 65535 0 3 65535 0 wit_conn wit_stream);
    first [reflexivity | unfold CWIST_HTTP2_MAX_WINDOW, is_u32; lia
          | repeat apply Forall_cons_2; try apply Forall_nil_2; cbn; mlia].
Defined.

(** the capped, wrapping arithmetic of the pacing refill computes exactly
    the ideal bucket min(target, tokens + floor(elapsed * rate / 10^6)),
    however long the connection idled: the cap on the elapsed time loses
    nothing and no 64-bit product overflows. *)
Theorem pacing_refill_exact fc now :
  conn_ok fc -> is_u64 now -> fc.(pacing_last_us) <> 0 -> fc.(pacing_last_us) < now ->
  (pacing_refill fc now).(pacing_tokens) = ideal_tokens fc now.
Proof. apply refill_exact. Qed.

Lemma wit_conn_ok : conn_ok wit_conn.
Proof.
  constructor; unfold CWIST_HTTP2_MAX_WINDOW; cbn; mlia.
Qed.
Lemma wit_stream_ok : stream_ok wit_stream.
Proof. constructor; unfold CWIST_HTTP2_MAX_WINDOW; cbn; mlia. Qed.

Lemma pacing_refill_exact_witness :
  (pacing_refill wit_conn 18446744073709551615).(pacing_tokens) =
  ideal_tokens wit_conn 18446744073709551615 /\
  ideal_tokens wit_conn 18446744073709551615 = 1572864.
Proof.
  split; [|reflexivity].
  apply (pacing_refill_exact wit_conn 18446744073709551615 wit_conn_ok);
    cbn; unfold is_u64; lia.
Defined.

(** a reservation is granted exactly when the connection window, the
    stream window and the refilled bucket all cover it (or it is empty); then
    all three are debited by exactly that amount and stay non-negative;
    otherwise no window is debited and the stream is untouched. *)
Theorem reserve_send_spec c s n now :
  conn_ok c -> stream_ok s -> is_u32 n -> is_u64 now ->
  exists c' s' b,
    reserve_send (Some c) (Some s) n now = Some (Some c', Some s', b) /\
    (b = true <-> n = 0 \/ 0 < s.(sf_send_window) /\ n <= send_credit (pacing_refill c now) s) /\
    (b = true -> n = 0 \/
       c'.(send_window) = c.(send_window) - n /\ 0 <= c'.(send_window) /\
       s'.(sf_send_window) = s.(sf_send_window) - n /\ 0 <= s'.(sf_send_window) /\
       c'.(pacing_tokens) = (pacing_refill c now).(pacing_tokens) - n /\
       0 <= c'.(pacing_tokens)) /\
    (b = false -> c'.(send_window) = c.(send_window) /\ s' = s) /\
    conn_ok c' /\ stream_ok s'.
Proof.
  intros Hc Hs Hn Hnow. pose proof (reserve_cases c s n now Hc Hs Hn Hnow) as Heq.
  cbv zeta in Heq. destruct (refill_windows c now) as [Hsw _].
  assert (Hok : forall c' s' b,
    reserve_send (Some c) (Some s) n now = Some (Some c', Some s', b) ->
    conn_ok c' /\ stream_ok s') by (intros; by eapply (reserve_ok c s)).
  pose proof (sok_send s Hs). pose proof (refill_ok c now Hc Hnow) as [? ? ? ? ? ? ? ? ? ? ? ?].
  unfold is_u32, CWIST_HTTP2_MAX_WINDOW in *.
  destruct (Z.leb_spec (sf_send_window s) 0); [|destruct (decide _) as [Hle|Hgt]];
    do 3 eexists; (split; [exact Heq|]); unfold send_credit in *; fields; rewrite <- ?Hsw.
  - destruct (Z.eqb_spec n 0); (split; [split; intros; first [done | lia | exfalso; lia]|]);
      (split; [by left || done|]); (split; [done|]); by eapply Hok.
  - split; [split; [intros _; right; lia|done]|].
    split; [intros _; lia|]. split; [done|]. by eapply Hok.
  - split; [split; [done|intros; exfalso; lia]|]. split; [done|]. split; [done|]. by eapply Hok.
Qed.

Lemma reserve_send_spec_witness :
  exists c' s' b,
    reserve_send (Some wit_conn) (Some wit_stream) 16384 7 = Some (Some c', Some s', b) /\
    b = true.
Proof.
  destruct (reserve_send_spec wit_conn wit_stream 16384 7 wit_conn_ok wit_stream_ok)
    as (c' & s' & b & H & Hb & _); [unfold is_u32; lia|unfold is_u64; lia|].
  exists c', s', b. split; [exact H|]. apply Hb. right. split; [reflexivity|].
  unfold send_credit. vm_compute. intros; discriminate.
Defined.

(** an allowance that covers a write is honoured by the reservation that
    follows it, however much later: a check of [n] bytes (at most the target
    window) at one time that answers [n] makes [reserve_send] of [n] bytes
    succeed at every later time. *)
Theorem allowance_then_reserve c s n t1 t2 c1 :
  conn_ok c -> stream_ok s -> is_u32 n -> is_u64 t1 -> is_u64 t2 ->
  n <= c.(target_window) ->
  pacing_allowance (Some c) (Some s) n t1 = (Some c1, n) ->
  exists c2 s2, reserve_send (Some c1) (Some s) n t2 = Some (Some c2, Some s2, true).
Proof.
  intros Hc Hs Hn H1 H2 Ht. rewrite allowance_min.
  destruct (Z.leb_spec (sf_send_window s) 0) as [Hle|Hgt]; intros [= <- Ha].
  - rewrite reserve_cases by done. rewrite (proj2 (Z.leb_le _ _) Hle), <- Ha. eauto.
  - pose proof (refill_ok c t1 Hc H1) as Hr. rewrite reserve_cases by done.
    rewrite (proj2 (Z.leb_gt _ _)) by lia.
    destruct (decide _) as [|Hno]; [eauto|]. exfalso. apply Hno.
    pose proof (refill_tokens_mono (pacing_refill c t1) t2 Hr H2) as Hm.
    destruct (refill_windows (pacing_refill c t1) t2) as [Hw2 _].
    destruct (refill_windows c t1) as [_ Hw1].
    unfold send_credit in *. lia.
Qed.

Lemma allowance_then_reserve_witness :
  exists c1 c2 s2,
    pacing_allowance (Some wit_conn) (Some wit_stream) 1000 7 = (Some c1, 1000) /\
    reserve_send (Some c1) (Some wit_stream) 1000 9 = Some (Some c2, Some s2, true).
Proof.
  destruct (allowance_then_reserve wit_conn wit_stream 1000 7 9
    (default wit_conn (pacing_allowance (Some wit_conn) (Some wit_stream) 1000 7).1)
    wit_conn_ok wit_stream_ok) as (c2 & s2 & H); try (unfold is_u32, is_u64; lia).
  - cbn. lia.
  - vm_compute. reflexivity.
  - eexists _, c2, s2. split; [vm_compute; reflexivity|]. exact H.
Defined.

(** The state after the optional retune: what the update decision is taken on. *)
Definition retuned (fc : h2_conn_fc) (now_us : Z) : h2_conn_fc :=
  if retune_due fc now_us then
    fc <| target_window :=
            retune_target fc.(pending_update) fc.(srtt_us)
              (u64 (now_us - fc.(last_window_update_us)))
              fc.(target_window) fc.(min_window) fc.(max_window) |>
  else fc.

Lemma retuned_ok fc now : conn_ok fc -> conn_ok (retuned fc now).
Proof.
  intros Hok. unfold retuned. destruct (retune_due fc now); [|done].
  destruct Hok. unfold CWIST_HTTP2_MAX_WINDOW in *.
  assert (Hm : is_u32 (max_window fc)) by mlia.
  pose proof (retune_target_range (pending_update fc) (srtt_us fc)
    (u64 (now - last_window_update_us fc)) (target_window fc) (min_window fc)
    (max_window fc) ltac:(lia) ltac:(lia) Hm).
  constructor; fields; unfold CWIST_HTTP2_MAX_WINDOW; first [done | lia].
Qed.

(** a WINDOW_UPDATE is sent exactly when one is due (something pending, and
    either forced or half the target consumed) and the buffer holds 13 bytes.
    The frame then reads back as a 4-byte WINDOW_UPDATE of the connection whose
    increment is max(pending, target - window); that same increment is credited
    to the receive window (capped at 2^31-1), so the window reaches the target,
    nothing the application consumed is lost, the accumulator is cleared, and
    no byte past the thirteenth is touched. *)
Theorem maybe_window_update_spec fc buf len w now force :
  conn_ok fc -> is_u64 now -> (13 <= len -> 13 <= blen buf) ->
  let fc1 := retuned fc now in
  let inc := Z.max fc.(pending_update) (fc1.(target_window) - fc.(receive_window)) in
  let r := maybe_window_update (Some fc) (Some buf) len (Some w) now force in
  (update_due force fc.(pending_update) fc.(target_window) = false /\
     r = (0, Some fc, Some buf, Some 0)) \/
  (update_due force fc.(pending_update) fc.(target_window) = true /\ len < 13 /\
     r = (-1, Some fc1, Some buf, Some 0)) \/
  (update_due force fc.(pending_update) fc.(target_window) = true /\ 13 <= len /\
     exists fc' buf', r = (1, Some fc', Some buf', Some 13) /\
       h2_get_u24 buf' 0 = 4 /\ rd buf' 3 = 8 /\ rd buf' 4 = 0 /\ h2_get_u31 buf' 5 = 0 /\
       h2_get_u32 buf' 9 = inc /\ drop 13 buf' = drop 13 buf /\
       fc'.(receive_window) = Z.min CWIST_HTTP2_MAX_WINDOW (fc.(receive_window) + inc) /\
       fc'.(target_window) <= fc'.(receive_window) /\
       fc'.(pending_update) = 0 /\ fc'.(last_window_update_us) = now).
Proof.
  intros Hok Hn Hlen fc1 inc r. subst r. unfold maybe_window_update. fold (retuned fc now).
  fold fc1. pose proof (retuned_ok fc now Hok) as Hok1. fold fc1 in Hok1.
  assert (Hsame : fc1.(pending_update) = fc.(pending_update) /\
                  fc1.(receive_window) = fc.(receive_window)).
  { unfold fc1, retuned. by destruct (retune_due fc now). }
  destruct Hsame as [Hp Hr].
  pose proof (ok_recv_u32 fc1 Hok1) as Hr1. pose proof (ok_target_u32 fc1 Hok1) as Ht1.
  pose proof (ok_pending fc1 Hok1) as Hp1. pose proof (ok_recv fc1 Hok1) as Hrm.
  pose proof (ok_target fc1 Hok1). pose proof (ok_max fc1 Hok1).
  assert (Hinc : update_increment fc1.(pending_update) fc1.(receive_window)
                   fc1.(target_window) = inc)
    by (rewrite update_increment_max by done; unfold inc; lia).
  destruct (update_due force _ _) eqn:Hdue; cbn [negb]; [right|by left].
  assert (Hpos : 0 < inc).
  { unfold update_due in Hdue. destruct (Z.eqb_spec (pending_update fc) 0); [done|].
    unfold is_u32 in *. lia. }
  rewrite Hinc. assert (Hi : is_u32 inc) by (unfold inc, is_u32 in *; lia).
  destruct (write_window_update_cases buf len 0 0 inc ltac:(unfold is_u32; lia) Hi Hlen)
    as [[Hw [?|?]]|(Hl & _ & buf' & Hw & F0 & F3 & F4 & F5 & F9 & _ & Hd)]; [|lia|].
  - left. rewrite Hw. done.
  - right. rewrite Hw. cbn [negb Z.eqb]. split; [done|]. split; [done|].
    do 2 eexists. split; [done|]. fields.
    rewrite credit_window_min by done. rewrite Hr.
    repeat (split; [done|]). split; [|done].
    unfold CWIST_HTTP2_MAX_WINDOW in *. lia.
Qed.

Lemma maybe_window_update_spec_witness :
  exists fc' buf',
    maybe_window_update (Some wit_conn) (Some (repeat 255 14)) 14 (Some 9) 77 false
      = (1, Some fc', Some buf', Some 13) /\ h2_get_u32 buf' 9 = 3144728 /\
    fc'.(receive_window) = 3145728.
Proof.
  destruct (maybe_window_update_spec wit_conn (repeat 255 14) 14 9 77 false wit_conn_ok)
    as [[H _]|[(_ & H & _)|(_ & _ & fc' & buf' & H & _ & _ & _ & _ & Hi & _ & Hr & _)]].
  - unfold is_u64; lia.
  - intros _. by vm_compute.
  - exfalso. vm_compute in H. discriminate.
  - lia.
  - exists fc', buf'. split; [exact H|]. rewrite Hi, Hr. split; vm_compute; reflexivity.
Defined.
