(* ===== verification/SipHash.v ===== *)
(** * SipHash-2-4 and hash seeds (src/src/core/siphash/siphash.c)

    The keyed hash of the query map and of the route tables, proved equal to
    the published definition (a fold of the compression over the padded
    little-endian words), and the seed generator with the entropy source as an
    argument. *)

From S2P Require Import Prelude.

(** ** The rounds.  [ROTL(x, b)] on uint64_t. *)

Definition ROTL (x b : Z) : Z := u64 (Z.lor (Z.shiftl x b) (Z.shiftr x (64 - b))).

Record sipstate : Type := MkSip { v0 : Z; v1 : Z; v2 : Z; v3 : Z }.
#[export] Instance sipstate_fields : Fields sipstate := fun s =>
  MkSip (v0 s) (v1 s) (v2 s) (v3 s).

Definition sipround_steps : list (sipstate -> sipstate) :=
  [ (fun s => s <| v0 := u64 (s.(v0) + s.(v1)) |>);
    (fun s => s <| v1 := ROTL s.(v1) 13 |>);
    (fun s => s <| v1 := Z.lxor s.(v1) s.(v0) |>);
    (fun s => s <| v0 := ROTL s.(v0) 32 |>);
    (fun s => s <| v2 := u64 (s.(v2) + s.(v3)) |>);
    (fun s => s <| v3 := ROTL s.(v3) 16 |>);
    (fun s => s <| v3 := Z.lxor s.(v3) s.(v2) |>);
    (fun s => s <| v0 := u64 (s.(v0) + s.(v3)) |>);
    (fun s => s <| v3 := ROTL s.(v3) 21 |>);
    (fun s => s <| v3 := Z.lxor s.(v3) s.(v0) |>);
    (fun s => s <| v2 := u64 (s.(v2) + s.(v1)) |>);
    (fun s => s <| v1 := ROTL s.(v1) 17 |>);
    (fun s => s <| v1 := Z.lxor s.(v1) s.(v2) |>);
    (fun s => s <| v2 := ROTL s.(v2) 32 |>) ].

(** The statements of [sipround], in order. *)
Definition sipround (s : sipstate) : sipstate :=
  foldl (fun s step => step s) s sipround_steps.

Definition sip_init (key : bytes) : sipstate :=
  let k0 := le_load key 0 8 in
  let k1 := le_load key 8 8 in
  MkSip (Z.lxor k0 8317987319222330741) (Z.lxor k1 7237128888997146477)
        (Z.lxor k0 7816392313619706465) (Z.lxor k1 8387220255154660723).

(** One block: [v3 ^= mi], two rounds, [v0 ^= mi]. *)
Definition sip_block (s : sipstate) (mi : Z) : sipstate :=
  let s := s <| v3 := Z.lxor s.(v3) mi |> in
  let s := sipround (sipround s) in
  s <| v0 := Z.lxor s.(v0) mi |>.

(** [for (; m < end; m += 8)], with [n] blocks left and [m] at [off]. *)
Fixpoint sip_blocks (src : bytes) (off n : nat) (s : sipstate) : sipstate :=
  match n with
  | O => s
  | S n' => sip_blocks src (off + 8) n' (sip_block s (le_load src off 8))
  end.

(** The fall-through switch over the last 0-7 bytes. *)
Definition sip_tail (src : bytes) (m rest : nat) : Z :=
  let case (k : nat) (t : Z) :=
    if (k <=? rest)%nat
    then Z.lor t (Z.shiftl (rd src (m + (k - 1))) (8 * Z.of_nat (k - 1))) else t in
  case 1%nat (case 2%nat (case 3%nat (case 4%nat (case 5%nat (case 6%nat (case 7%nat 0)))))).

(** [v2 ^= 0xff], four rounds, the xor of the lanes. *)
Definition sip_finish (s : sipstate) : Z :=
  let s := Nat.iter 4 sipround (s <| v2 := Z.lxor s.(v2) 255 |>) in
  Z.lxor (Z.lxor (Z.lxor s.(v0) s.(v1)) s.(v2)) s.(v3).

Definition siphash24 (src : bytes) (key : bytes) : Z :=
  let len := length src in
  let b := u64 (Z.shiftl (Z.of_nat len) 56) in
  let s := sip_blocks src 0 (len / 8) (sip_init key) in
  let t := sip_tail src (8 * (len / 8)) (len mod 8) in
  sip_finish (sip_block s (Z.lor b t)).

(** ** Reference definition: a left fold over the padded words *)

Definition sip_padding (src : bytes) : bytes :=
  src ++ replicate (7 - length src mod 8)%nat 0 ++ [u8 (blen src)].

Fixpoint le_words (n : nat) (l : bytes) : list Z :=
  match n with
  | O => []
  | S n' => le_load l 0 8 :: le_words n' (drop 8 l)
  end.

Definition siphash24_spec (src : bytes) (key : bytes) : Z :=
  let p := sip_padding src in
  sip_finish (foldl sip_block (sip_init key) (le_words (length p / 8) p)).

(** ** Seeds *)

Definition CHOE_ORTHO_PRIMARY : list (list Z) :=
  [[0; 1; 2; 3]; [1; 0; 3; 2]; [2; 3; 0; 1]; [3; 2; 1; 0]].
Definition CHOE_ORTHO_SECONDARY : list (list Z) :=
  [[0; 1; 2; 3]; [2; 3; 0; 1]; [3; 2; 1; 0]; [1; 0; 3; 2]].

Definition table2 (t : list (list Z)) (i j : Z) : Z :=
  nth (Z.to_nat j) (nth (Z.to_nat i) t []) 0.

Definition rotl64 (v r : Z) : Z :=
  let r := Z.land r 63 in
  u64 (Z.lor (u64 (Z.shiftl v r)) (Z.shiftr v (Z.land (64 - r) 63))).

Definition gusuryak_cell (a b : Z) : Z :=
  let row := Z.land a 3 in
  let col := Z.land b 3 in
  let primary := table2 CHOE_ORTHO_PRIMARY row col in
  let secondary := table2 CHOE_ORTHO_SECONDARY col row in
  u8 (Z.lor (Z.shiftl primary 2) secondary).

(** One cell of the 4x4 board: the pair is (hi, lo). *)
Definition gusuryak_step (inp : bytes) (acc : Z * Z) (idx : nat) : Z * Z :=
  let '(hi, lo) := acc in
  let row := (idx / 4)%nat in
  let col := (idx mod 4)%nat in
  let base := rd inp idx in
  let partner := rd inp ((col + 1) mod 4 + (row + 1) mod 4 * 4)%nat in
  let orth := gusuryak_cell base partner in
  let delta := Z.lor (Z.lor (Z.lor (Z.lor (Z.shiftl base 32) (Z.shiftl orth 24))
                               (Z.shiftl (Z.of_nat row) 12))
                        (Z.shiftl (Z.of_nat col) 4))
                 (gusuryak_cell partner base) in
  let hi := Z.lxor hi (rotl64 (Z.lxor delta hi) (Z.of_nat (row * 13 + col * 7))) in
  let lo := u64 (lo + rotl64 (u64 (delta + lo)) (Z.of_nat (row * 11 + col * 5))) in
  (hi, lo).

Definition gusuryak_mix (inp : bytes) : bytes :=
  let '(hi, lo) := foldl (gusuryak_step inp)
                     (11400714785074694791, 14029467366897019727) (seq 0 16) in
  let hi := Z.lxor hi (rotl64 lo 17) in
  let lo := Z.lxor lo (rotl64 hi 41) in
  le_bytes 8 hi ++ le_bytes 8 lo.

(** [cwist_generate_hash_seed] on the 16 raw entropy bytes. *)
Definition seed_tweak : Z := 11912009170470909681.
Definition generate_hash_seed (raw : bytes) : bytes :=
  let key := gusuryak_mix raw in
  if (rd key 0 =? 0) && (rd key 8 =? 0)
  then imap (fun i k => Z.lxor k (u8 (Z.shiftr seed_tweak (Z.of_nat (i mod 8) * 8)))) key
  else key.

(** ** Lemmas *)

Lemma le_load_app_l a b off n :
  (off + n <= length a)%nat -> le_load (a ++ b) off n = le_load a off n.
Proof.
  revert off. induction n as [|n IH]; intros off H; [done|]. cbn [le_load].
  rewrite rd_app_l, IH by lia. done.
Qed.

Lemma le_load_drop l k off n : le_load (drop k l) off n = le_load l (k + off) n.
Proof.
  revert off. induction n as [|n IH]; intros off; [done|]. cbn [le_load].
  rewrite rd_drop, IH. by rewrite Nat.add_succ_r.
Qed.

Lemma sip_blocks_fold src off n s :
  sip_blocks src off n s = foldl sip_block s (le_words n (drop off src)).
Proof.
  revert off s. induction n as [|n IH]; intros off s; [done|].
  cbn [sip_blocks le_words foldl]. rewrite IH, le_load_drop, drop_drop, Nat.add_0_r. done.
Qed.

Lemma sip_blocks_app a b n s :
  (8 * n <= length a)%nat -> sip_blocks (a ++ b) 0 n s = sip_blocks a 0 n s.
Proof.
  intros H. assert (Hgen : forall off, (off + 8 * n <= length a)%nat ->
    sip_blocks (a ++ b) off n s = sip_blocks a off n s); [|by apply Hgen].
  clear H. revert s. induction n as [|n IH]; intros s off H; [done|].
  cbn [sip_blocks]. rewrite le_load_app_l, IH by lia. done.
Qed.

Lemma sip_blocks_snoc src off n s :
  sip_blocks src off (S n) s = sip_block (sip_blocks src off n s) (le_load src (off + 8 * n) 8).
Proof.
  revert off s. induction n as [|n IH]; intros off s.
  - cbn [sip_blocks]. by rewrite Nat.mul_0_r, Nat.add_0_r.
  - change (sip_blocks src off (S (S n)) s)
      with (sip_blocks src (off + 8) (S n) (sip_block s (le_load src off 8))).
    rewrite IH. cbn [sip_blocks]. do 2 f_equal. lia.
Qed.

Lemma length_sip_padding src :
  length (sip_padding src) = (8 * S (length src / 8))%nat.
Proof.
  unfold sip_padding. rewrite !length_app, length_replicate. cbn [length].
  pose proof (Nat.div_mod_eq (length src) 8). pose proof (Nat.mod_upper_bound (length src) 8).
  lia.
Qed.

Lemma rd_replicate0 n i : rd (replicate n 0) i = 0.
Proof. unfold rd. revert i. induction n as [|n IH]; intros [|i]; simpl; done || apply IH. Qed.

Lemma rd_padding src i :
  (i < 8)%nat ->
  rd (sip_padding src) (8 * (length src / 8) + i) =
  if (i <? length src mod 8)%nat then rd src (8 * (length src / 8) + i)
  else if (i =? 7)%nat then u8 (blen src) else 0.
Proof.
  intros Hi. unfold sip_padding. pose proof (Nat.div_mod_eq (length src) 8).
  pose proof (Nat.mod_upper_bound (length src) 8).
  destruct (Nat.ltb_spec i (length src mod 8)).
  - by rewrite rd_app_l by lia.
  - rewrite rd_app_r by lia. destruct (Nat.eqb_spec i 7) as [->|].
    + rewrite rd_app_r by (rewrite length_replicate; lia). rewrite length_replicate.
      replace (_ - _ - _)%nat with 0%nat by lia. done.
    + rewrite rd_app_l by (rewrite length_replicate; lia). apply rd_replicate0.
Qed.

(** The padded last word is [b | t]. *)
Lemma sip_last_word src :
  bytes_ok src ->
  le_load (sip_padding src) (8 * (length src / 8)) 8 =
  Z.lor (u64 (Z.shiftl (blen src) 56)) (sip_tail src (8 * (length src / 8)) (length src mod 8)).
Proof.
  intros Hok. set (m := (8 * (length src / 8))%nat).
  assert (Hld : forall l, le_load l m 8 =
    rd l (m + 0) + 256 * (rd l (m + 1) + 256 * (rd l (m + 2) + 256 * (rd l (m + 3) +
    256 * (rd l (m + 4) + 256 * (rd l (m + 5) + 256 * (rd l (m + 6) + 256 * rd l (m + 7)))))))).
  { intros l. cbn [le_load]. rewrite !Nat.add_succ_r, Nat.add_0_r. lia. }
  rewrite Hld. unfold m at 1 2 3 4 5 6 7 8. rewrite !rd_padding by lia. fold m.
  pose proof (Nat.mod_upper_bound (length src) 8 ltac:(done)) as Hr.
  unfold sip_tail. set (r := (length src mod 8)%nat) in *.
  assert (Hb : forall i, 0 <= rd src (m + i) < 256) by (intros; by apply bytes_ok_rd).
  pose proof (Hb 0%nat). pose proof (Hb 1%nat). pose proof (Hb 2%nat). pose proof (Hb 3%nat).
  pose proof (Hb 4%nat). pose proof (Hb 5%nat). pose proof (Hb 6%nat).
  assert (Hbl : u64 (Z.shiftl (blen src) 56) = Z.shiftl (u8 (blen src)) 56).
  { rewrite !Z.shiftl_mul_pow2 by lia. change (2 ^ 56) with 72057594037927936. mlia. }
  rewrite Hbl. pose proof (u8_range (blen src)) as Hu. set (u := u8 (blen src)) in *.
  unfold is_u8 in Hu.
  clearbody m r u. clear Hld Hb Hbl Hok.
  destruct r as [|[|[|[|[|[|[|[|r]]]]]]]]; try lia;
    cbn [Nat.leb Nat.ltb Nat.eqb Nat.sub Nat.mul Z.of_nat Pos.of_succ_nat Pos.succ Z.mul Pos.mul];
    rewrite ?Z.lor_0_l;
    repeat match goal with
    | |- context [Z.lor (Z.shiftl ?q ?a) (Z.shiftl ?x ?b)] =>
        rewrite (lor_horner q x b a) by lia
    end;
    rewrite ?Z.shiftl_0_r, lor_shiftl_add by (cbn; lia); lia.
Qed.

(** ** Range *)

Lemma ROTL_u64 x b : is_u64 (ROTL x b).
Proof. apply u64_range. Qed.

Definition sip_ok (s : sipstate) : Prop :=
  is_u64 s.(v0) /\ is_u64 s.(v1) /\ is_u64 s.(v2) /\ is_u64 s.(v3).

Lemma sipround_ok s : sip_ok s -> sip_ok (sipround s).
Proof.
  unfold sipround.
  assert (H : Forall (fun f => forall s, sip_ok s -> sip_ok (f s)) sipround_steps).
  { unfold sipround_steps. repeat apply Forall_cons_2; try apply Forall_nil_2;
      intros r (? & ? & ? & ?); unfold sip_ok, set_field; cbn [v0 v1 v2 v3];
      refine (conj _ (conj _ (conj _ _))); first [assumption | apply u64_range | apply lxor_u64; assumption]. }
  revert s. induction H as [|f fs Hf _ IH]; intros s Hs; [done|]. cbn [foldl]. auto.
Qed.

Lemma sip_ok_v0 s x : sip_ok s -> is_u64 x -> sip_ok (s <| v0 := x |>).
Proof. by intros (? & ? & ? & ?) ?. Qed.
Lemma sip_ok_v2 s x : sip_ok s -> is_u64 x -> sip_ok (s <| v2 := x |>).
Proof. by intros (? & ? & ? & ?) ?. Qed.
Lemma sip_ok_v3 s x : sip_ok s -> is_u64 x -> sip_ok (s <| v3 := x |>).
Proof. by intros (? & ? & ? & ?) ?. Qed.
Lemma sip_v0_u64 s : sip_ok s -> is_u64 s.(v0).
Proof. by intros (? & ? & ? & ?). Qed.
Lemma sip_v2_u64 s : sip_ok s -> is_u64 s.(v2).
Proof. by intros (? & ? & ? & ?). Qed.
Lemma sip_v3_u64 s : sip_ok s -> is_u64 s.(v3).
Proof. by intros (? & ? & ? & ?). Qed.

(** The digest of a final state, and the four finishing rounds. *)
Lemma sip_digest_u64 s :
  sip_ok s -> is_u64 (Z.lxor (Z.lxor (Z.lxor s.(v0) s.(v1)) s.(v2)) s.(v3)).
Proof. intros (? & ? & ? & ?). auto with cwist. Qed.

Lemma sip_block_ok s mi : sip_ok s -> is_u64 mi -> sip_ok (sip_block s mi).
Proof.
  intros Hs Hm. unfold sip_block.
  assert (H : sip_ok (sipround (sipround (s <| v3 := Z.lxor s.(v3) mi |>)))).
  { apply sipround_ok, sipround_ok, sip_ok_v3; [done|].
    apply lxor_u64; [by apply sip_v3_u64|done]. }
  generalize dependent (sipround (sipround (s <| v3 := Z.lxor s.(v3) mi |>))).
  intros s' H. apply sip_ok_v0; [done|]. apply lxor_u64; [by apply sip_v0_u64|done].
Qed.

Lemma sip_blocks_ok src off n s :
  bytes_ok src -> sip_ok s -> sip_ok (sip_blocks src off n s).
Proof.
  intros Hb. revert off s. induction n as [|n IH]; intros off s Hs; [done|].
  cbn [sip_blocks]. apply IH, sip_block_ok; [done|]. apply (le_load_range src off 8 Hb).
Qed.

Lemma sip_init_ok key : bytes_ok key -> sip_ok (sip_init key).
Proof.
  intros H. pose proof (le_load_range key 0 8 H). pose proof (le_load_range key 8 8 H).
  unfold sip_init, sip_ok; cbn [v0 v1 v2 v3].
  refine (conj _ (conj _ (conj _ _))); apply lxor_u64; unfold is_u64; lia.
Qed.

(** The unrolled code is the fold over the padded words. *)
Lemma siphash24_unroll src key :
  bytes_ok src ->
  siphash24 src key =
  sip_finish (sip_blocks (sip_padding src) 0 (S (length src / 8)) (sip_init key)).
Proof.
  intros Hb. rewrite sip_blocks_snoc, Nat.add_0_l, sip_last_word by done.
  unfold sip_padding at 1. rewrite sip_blocks_app
    by (pose proof (Nat.div_mod_eq (length src) 8); lia).
  reflexivity.
Qed.

Lemma sip_finish_u64 s : sip_ok s -> is_u64 (sip_finish s).
Proof.
  intros Hok. unfold sip_finish. apply sip_digest_u64. do 4 (apply sipround_ok).
  apply sip_ok_v2; [done|]. apply lxor_u64; [by apply sip_v2_u64|]. unfold is_u64. lia.
Qed.

Lemma siphash24_range src key :
  bytes_ok src -> bytes_ok key -> is_u64 (siphash24 src key).
Proof.
  intros Hs Hk. rewrite siphash24_unroll by done. apply sip_finish_u64.
  apply sip_blocks_ok; [|by apply sip_init_ok]. unfold sip_padding.
  apply Forall_app_2; [done|]. apply Forall_app_2; [|by repeat constructor; apply u8_range].
  apply Forall_replicate. split; lia.
Qed.

(** ** Seed lemmas *)

Lemma length_gusuryak_mix inp : length (gusuryak_mix inp) = 16%nat.
Proof.
  unfold gusuryak_mix. destruct (foldl _ _ _) as [hi lo].
  by rewrite length_app, !length_le_bytes.
Qed.

Lemma gusuryak_mix_ok inp : bytes_ok (gusuryak_mix inp).
Proof.
  unfold gusuryak_mix. destruct (foldl _ _ _) as [hi lo].
  apply Forall_app_2; apply le_bytes_ok.
Qed.

Lemma rd_imap f l i :
  (i < length l)%nat -> rd (imap f l) i = f i (rd l i).
Proof.
  intros Hi. destruct (lookup_lt_is_Some_2 l i Hi) as [b Hb].
  rewrite (rd_lookup l i b Hb). apply rd_lookup. by rewrite list_lookup_imap, Hb.
Qed.

Lemma generate_hash_seed_ok raw :
  length (generate_hash_seed raw) = 16%nat /\ bytes_ok (generate_hash_seed raw).
Proof.
  unfold generate_hash_seed. destruct (_ && _).
  - split; [rewrite length_imap; apply length_gusuryak_mix|].
    apply Forall_lookup_2. intros i x. rewrite list_lookup_imap.
    intros (b & Hb & ->)%fmap_Some. apply lxor_u8; [|apply u8_range].
    by apply (Forall_lookup_1 _ _ _ _ (gusuryak_mix_ok raw) Hb).
  - split; [apply length_gusuryak_mix|apply gusuryak_mix_ok].
Qed.

(** ** Properties *)

(** the block loop, the fall-through switch and the length byte compute
    SipHash-2-4 as published: the fold of the compression function over the
    little-endian words of the message padded with zeros and its length modulo
    256, then four finishing rounds; the digest is a uint64_t. *)
Theorem siphash24_correct src key :
  bytes_ok src -> bytes_ok key ->
  siphash24 src key = siphash24_spec src key /\ is_u64 (siphash24 src key).
Proof.
  intros Hs Hk. split; [|by apply siphash24_range].
  rewrite siphash24_unroll by done. unfold siphash24_spec.
  rewrite length_sip_padding, Nat.mul_comm, Nat.div_mul, sip_blocks_fold by done. done.
Qed.

(** The published test vector (key 00..0f, message 00..0e). *)
Lemma siphash24_correct_witness :
  siphash24_spec (seqZ 0 15) (seqZ 0 16) = 11613035633349379557 /\
  siphash24 (seqZ 0 15) (seqZ 0 16) = siphash24_spec (seqZ 0 15) (seqZ 0 16).
Proof.
  split; [vm_compute; reflexivity|].
  apply (siphash24_correct (seqZ 0 15) (seqZ 0 16));
    (apply Forall_lookup_2; intros i x Hx; apply lookup_seqZ in Hx; split; lia).
Defined.

(** Whatever the entropy source delivers, the seed is 16 bytes and is never
    the degenerate key whose two 64-bit halves both start with a zero byte. *)
Theorem generate_hash_seed_nonzero raw :
  length (generate_hash_seed raw) = 16%nat /\ bytes_ok (generate_hash_seed raw) /\
  ~ (rd (generate_hash_seed raw) 0 = 0 /\ rd (generate_hash_seed raw) 8 = 0).
Proof.
  destruct (generate_hash_seed_ok raw) as [Hl Hb]. split; [done|]. split; [done|].
  unfold generate_hash_seed. pose proof (length_gusuryak_mix raw) as Hm.
  generalize dependent (gusuryak_mix raw). intros key Hm.
  destruct (Z.eqb_spec (rd key 0) 0) as [E0|N0]; cbn [andb]; [|intros [H _]; exact (N0 H)].
  destruct (Z.eqb_spec (rd key 8) 0) as [E8|N8]; [|intros [_ H]; exact (N8 H)].
  rewrite rd_imap by lia. rewrite E0. intros [H _]. revert H. clear. vm_compute. discriminate.
Qed.
