(* ===== verification/QueryMap.v ===== *)
(** * Query parameters (src/src/net/http/query.c)

    The seeded hash map of URL query parameters: chained buckets with
    doubling, insertion, lookup, deletion, percent-decoding and parsing of
    [a=1&b=2].  Keys and values are C strings (bytes before the NUL).  Every
    [query_alloc] consumes one outcome of the allocation oracle: false when
    both the arena and the heap are exhausted.

    The map is proved to refine a finite map, whatever the seed and whichever
    allocations fail. *)

From S2P Require Import Prelude SipHash.

Definition CWIST_QUERY_MAP_DEFAULT_SIZE : nat := 16.

(** ** State *)

Record query_map : Type := MkQMap {
  qm_buckets : list (list (bytes * bytes));
  qm_size : nat;
  qm_seed : bytes;
  qm_count : nat
}.
#[export] Instance query_map_fields : Fields query_map := fun m =>
  MkQMap (qm_buckets m) (qm_size m) (qm_seed m) (qm_count m).

(** [siphash24(key, strlen(key), seed) % size] *)
Definition bucket_index (key seed : bytes) (n : nat) : nat :=
  Z.to_nat (siphash24 key seed mod Z.of_nat n).

(** ** Operations *)

(** [cwist_query_map_create_in_arena]; [raw] are the entropy bytes of the seed. *)
Definition query_map_create (raw : bytes) (o : oracle) : option query_map * oracle :=
  match alloc o with
  | (false, o) => (None, o)
  | (true, o) =>
      match alloc o with
      | (false, o) => (None, o)
      | (true, o) =>
          (Some (MkQMap (replicate CWIST_QUERY_MAP_DEFAULT_SIZE []) CWIST_QUERY_MAP_DEFAULT_SIZE
                   (generate_hash_seed raw) 0), o)
      end
  end.

Definition query_map_clear (m : query_map) : query_map :=
  m <| qm_buckets := replicate m.(qm_size) [] |> <| qm_count := 0%nat |>.

(** [node->next = buckets[index]; buckets[index] = node] *)
Definition push (index : nat) (kv : bytes * bytes) (bs : list (list (bytes * bytes)))
    : list (list (bytes * bytes)) := alter (cons kv) index bs.

(** The relinking loops of [query_map_grow]. *)
Definition rehash (seed : bytes) (new_size : nat) (old : list (list (bytes * bytes)))
    : list (list (bytes * bytes)) :=
  foldl (fun acc kv => push (bucket_index kv.1 seed new_size) kv acc)
    (replicate new_size []) (concat old).

Definition query_map_grow (m : query_map) (o : oracle) : query_map * oracle :=
  if (negb (m.(qm_size) =? 0)%nat && (m.(qm_count) + 1 <=? m.(qm_size) - m.(qm_size) / 4)%nat) then (m, o)
  else
    let new_size :=
      if (m.(qm_size) =? 0)%nat then CWIST_QUERY_MAP_DEFAULT_SIZE else (m.(qm_size) * 2)%nat in
    if (u64 (Z.of_nat new_size) <=? Z.of_nat m.(qm_size)) ||
       (SIZE_MAX / 8 <? u64 (Z.of_nat new_size)) then (m, o)
    else
      match alloc o with
      | (false, o) => (m, o)
      | (true, o) =>
          (m <| qm_buckets := rehash m.(qm_seed) new_size m.(qm_buckets) |> <| qm_size := new_size |>, o)
      end.

(** The two chain walks: [strcmp] lookup and in-place update of the first match. *)
Fixpoint chain_find (key : bytes) (c : list (bytes * bytes)) : option bytes :=
  match c with
  | [] => None
  | (k, v) :: c' => if decide (k = key) then Some v else chain_find key c'
  end.

Fixpoint chain_update (key value : bytes) (c : list (bytes * bytes)) : list (bytes * bytes) :=
  match c with
  | [] => []
  | (k, v) :: c' =>
      if decide (k = key) then (k, value) :: c' else (k, v) :: chain_update key value c'
  end.

Fixpoint chain_delete (key : bytes) (c : list (bytes * bytes)) : list (bytes * bytes) :=
  match c with
  | [] => []
  | (k, v) :: c' => if decide (k = key) then c' else (k, v) :: chain_delete key c'
  end.

(** The insertion tail of [cwist_query_map_set]: a node, then both copies. *)
Definition query_map_insert (m : query_map) (key value : bytes) (o : oracle)
    : query_map * oracle :=
  let '(m, o) :=
    if (m.(qm_size) - m.(qm_size) / 4 <? m.(qm_count) + 1)%nat then query_map_grow m o else (m, o) in
  let index := bucket_index key m.(qm_seed) m.(qm_size) in
  match alloc o with
  | (false, o) => (m, o)
  | (true, o) =>
      let '(k_ok, o) := alloc o in
      let '(v_ok, o) := alloc o in
      if k_ok && v_ok
      then (m <| qm_buckets := push index (key, value) m.(qm_buckets) |>
              <| qm_count := (m.(qm_count) + 1)%nat |>, o)
      else (m, o)
  end.

(** [cwist_query_map_set] on non-NULL arguments (NULL ones change nothing). *)
Definition query_map_set (m : query_map) (key value : bytes) (o : oracle)
    : query_map * oracle :=
  let '(m, o) := if (m.(qm_size) =? 0)%nat then query_map_grow m o else (m, o) in
  if (m.(qm_size) =? 0)%nat then (m, o) else
  let index := bucket_index key m.(qm_seed) m.(qm_size) in
  match chain_find key (nth index m.(qm_buckets) []) with
  | Some _ =>
      match alloc o with
      | (false, o) => (m, o)
      | (true, o) =>
          (m <| qm_buckets := alter (chain_update key value) index m.(qm_buckets) |>, o)
      end
  | None => query_map_insert m key value o
  end.

Definition query_map_get (m : query_map) (key : bytes) : option bytes :=
  if (m.(qm_size) =? 0)%nat then None
  else chain_find key (nth (bucket_index key m.(qm_seed) m.(qm_size)) m.(qm_buckets) []).

Definition query_map_delete (m : query_map) (key : bytes) : query_map :=
  if (m.(qm_size) =? 0)%nat then m else
  let index := bucket_index key m.(qm_seed) m.(qm_size) in
  match chain_find key (nth index m.(qm_buckets) []) with
  | Some _ => m <| qm_buckets := alter (chain_delete key) index m.(qm_buckets) |>
                <| qm_count := (m.(qm_count) - 1)%nat |>
  | None => m
  end.

(** [cb(key, value, ctx)] over the buckets in order; [ctx] is the accumulator. *)
Definition query_map_foreach {A} (m : query_map) (cb : A -> bytes * bytes -> A) (ctx : A) : A :=
  foldl cb ctx (concat m.(qm_buckets)).

(** ** Percent-decoding *)

Definition isxdigit (c : Z) : bool :=
  ((48 <=? c) && (c <=? 57)) || ((65 <=? c) && (c <=? 70)) || ((97 <=? c) && (c <=? 102)).

(** [url_decode_hex], zero outside the hexadecimal digits. *)
Definition url_decode_hex (c : Z) : Z :=
  if (48 <=? c) && (c <=? 57) then c - 48
  else if (65 <=? c) && (c <=? 70) then c - 55
  else if (97 <=? c) && (c <=? 102) then c - 87
  else 0.

(** [strcspn(s, "%+")] *)
Fixpoint plain_run (s : bytes) : nat :=
  match s with
  | [] => O
  | c :: s' => if (c =? 37) || (c =? 43) then O else S (plain_run s')
  end.

(** The loop of [url_decode]; [src] is read past its end as its NUL. *)
Fixpoint url_decode_loop (fuel : nat) (src : bytes) (i : nat) (out : bytes) : bytes :=
  match fuel with
  | O => out
  | S fuel =>
      if (length src <=? i)%nat then out else
      let plain := plain_run (drop i src) in
      let out := out ++ sub src i plain in
      let i := (i + plain)%nat in
      if (0 <? plain)%nat && (length src <=? i)%nat then out
      else if rd src i =? 43 then url_decode_loop fuel src (S i) (out ++ [32])
      else if (i + 2 <? length src)%nat && isxdigit (rd src (i + 1)) && isxdigit (rd src (i + 2))
      then url_decode_loop fuel src (i + 3)
             (out ++ [u8 (Z.lor (Z.shiftl (url_decode_hex (rd src (i + 1))) 4)
                                (url_decode_hex (rd src (i + 2))))])
      else url_decode_loop fuel src (S i) (out ++ [rd src i])
  end.

(** The decoded buffer, then what the callers read of it: a C string. *)
Definition url_decode (src : bytes) (o : oracle) : option bytes * oracle :=
  match alloc o with
  | (false, o) => (None, o)
  | (true, o) => (Some (cstr (url_decode_loop (S (length src)) src 0 [])), o)
  end.

(** ** Parsing *)

(** [memchr]: the bytes before the first [c], and those after it if there is one. *)
Fixpoint cut (c : Z) (l : bytes) : bytes * option bytes :=
  match l with
  | [] => ([], None)
  | b :: l' =>
      if b =? c then ([], Some l')
      else let '(pre, post) := cut c l' in (b :: pre, post)
  end.

(** One non-empty token of the loop of [cwist_query_map_parse]. *)
Definition query_token (m : query_map) (token : bytes) (o : oracle) : query_map * oracle :=
  match cut 61 token with
  | (_, None) => (m, o)
  | (key_raw, Some value_raw) =>
      let '(key_dec, o) := url_decode key_raw o in
      let '(value_dec, o) := url_decode value_raw o in
      match key_dec with
      | Some key =>
          match query_map_get m key with
          | None => query_map_set m key (default [] value_dec) o
          | Some _ => (m, o)
          end
      | None => (m, o)
      end
  end.

Fixpoint query_parse_loop (fuel : nat) (m : query_map) (seg : bytes) (o : oracle)
    : query_map * oracle :=
  match fuel with
  | O => (m, o)
  | S fuel =>
      match seg with
      | [] => (m, o)
      | _ =>
          let '(token, rest) := cut 38 seg in
          let '(m, o) :=
            match token with [] => (m, o) | _ => query_token m token o end in
          query_parse_loop fuel m (default [] rest) o
      end
  end.

(** [cwist_query_map_parse]: nothing for an empty query, else one working copy. *)
Definition query_map_parse (m : query_map) (raw_query : bytes) (o : oracle)
    : query_map * oracle :=
  match raw_query with
  | [] => (m, o)
  | _ =>
      match alloc o with
      | (false, o) => (m, o)
      | (true, o) => query_parse_loop (S (length raw_query)) m raw_query o
      end
  end.

(** The proofs never look inside the hash. *)
#[local] Opaque siphash24.

(** ** Abstraction and invariant *)

Definition entries (m : query_map) : list (bytes * bytes) := concat m.(qm_buckets).

(** The finite map a query map denotes. *)
Definition abs (m : query_map) : gmap bytes bytes := list_to_map (entries m).

Record qm_ok (m : query_map) : Prop := {
  qm_len : length m.(qm_buckets) = m.(qm_size);
  qm_pos : (0 < m.(qm_size))%nat;
  qm_placed : forall i c k v, m.(qm_buckets) !! i = Some c -> (k, v) ∈ c ->
    bucket_index k m.(qm_seed) m.(qm_size) = i;
  qm_nodup : NoDup (entries m).*1;
  qm_counted : m.(qm_count) = length (entries m)
}.

Ltac qm_fields :=
  unfold set_field; cbn [qm_buckets qm_size qm_seed qm_count].

(** ** Chains *)

Lemma chain_find_app k a b :
  chain_find k (a ++ b) =
  match chain_find k a with Some v => Some v | None => chain_find k b end.
Proof. induction a as [|[k' v'] a IH]; simpl; [done|]. by destruct (decide _). Qed.

Lemma chain_find_notin k c : k ∉ c.*1 -> chain_find k c = None.
Proof.
  induction c as [|[k' v'] c IH]; simpl; [done|]. intros [? ?]%not_elem_of_cons.
  rewrite decide_False by done. by apply IH.
Qed.

Lemma chain_find_none k c : chain_find k c = None -> k ∉ c.*1.
Proof.
  induction c as [|[k' v'] c IH]; simpl; [intros _; apply not_elem_of_nil|].
  destruct (decide _); [done|]. intros ?%IH. by apply not_elem_of_cons.
Qed.

Lemma list_to_map_find k (l : list (bytes * bytes)) :
  (list_to_map l : gmap bytes bytes) !! k = chain_find k l.
Proof.
  induction l as [|[k' v'] l IH]; simpl; [apply lookup_empty|].
  destruct (decide (k' = k)) as [->|]; [apply lookup_insert_eq|].
  by rewrite lookup_insert_ne.
Qed.

Lemma chain_find_some k v c :
  chain_find k c = Some v -> exists c1 c2, c = c1 ++ (k, v) :: c2 /\
    (forall w, chain_update k w c = c1 ++ (k, w) :: c2) /\ chain_delete k c = c1 ++ c2.
Proof.
  induction c as [|[k' v'] c IH]; simpl; [done|]. destruct (decide (k' = k)) as [->|].
  - intros [= ->]. by exists [], c.
  - intros (c1 & c2 & -> & Hu & Hd)%IH. exists ((k', v') :: c1), c2.
    rewrite Hd. split; [done|]. split; [|done]. intros w. by rewrite Hu.
Qed.

(** Rewriting one bucket of the table. *)
Lemma concat_alter (f : list (bytes * bytes) -> list (bytes * bytes)) i bs c :
  bs !! i = Some c ->
  concat (alter f i bs) = concat (take i bs) ++ f c ++ concat (drop (S i) bs) /\
  concat bs = concat (take i bs) ++ c ++ concat (drop (S i) bs).
Proof.
  intros Hc. pose proof (take_drop_middle bs i c Hc) as E.
  pose proof (lookup_lt_Some _ _ _ Hc) as Hi. split.
  - rewrite <- E at 1. rewrite alter_app_r_alt by (rewrite length_take; lia).
    rewrite length_take, Nat.min_l, Nat.sub_diag by lia. simpl. by rewrite concat_app.
  - rewrite <- E at 1. by rewrite concat_app.
Qed.

Lemma concat_push i kv bs :
  (i < length bs)%nat -> concat (push i kv bs) ≡ₚ kv :: concat bs.
Proof.
  intros [c Hc]%lookup_lt_is_Some_2.
  destruct (concat_alter (cons kv) i bs c Hc) as [H1 H2]. unfold push. rewrite H1, H2.
  simpl. symmetry. apply Permutation_middle.
Qed.

Lemma bucket_index_lt k s n : (0 < n)%nat -> (bucket_index k s n < n)%nat.
Proof.
  intros Hn. unfold bucket_index.
  pose proof (Z.mod_pos_bound (siphash24 k s) (Z.of_nat n) ltac:(lia)). lia.
Qed.

(** The keys of the whole table found through the one bucket that can hold them. *)
Lemma find_in_bucket m k :
  qm_ok m ->
  chain_find k (entries m) =
  chain_find k (nth (bucket_index k m.(qm_seed) m.(qm_size)) m.(qm_buckets) []).
Proof.
  intros [Hl Hp Hpl _ _]. set (i := bucket_index k _ _).
  assert (Hi : (i < length m.(qm_buckets))%nat) by (rewrite Hl; by apply bucket_index_lt).
  destruct (lookup_lt_is_Some_2 _ _ Hi) as [c Hc]. rewrite (nth_lookup_Some _ _ _ _ Hc).
  unfold entries. destruct (concat_alter id i _ c Hc) as [_ ->].
  assert (Hother : forall j bs, (forall i' c', bs !! i' = Some c' -> exists i'',
      m.(qm_buckets) !! i'' = Some c' /\ i'' <> i) -> j = concat bs -> chain_find k j = None).
  { intros j bs Hbs ->. apply chain_find_notin. intros ([k' v'] & -> & Hin)%list_elem_of_fmap.
    apply list_elem_of_In, in_concat in Hin as (c' & Hc'%list_elem_of_In & Hin%list_elem_of_In).
    apply list_elem_of_lookup in Hc' as [i' Hc'].
    destruct (Hbs i' c' Hc') as (i'' & Hi'' & Hne). apply Hne. symmetry.
    by apply (Hpl i'' c' k' v'). }
  rewrite !chain_find_app.
  rewrite (Hother (concat (take i _)) (take i m.(qm_buckets))); [| |done].
  - rewrite (Hother (concat (drop (S i) _)) (drop (S i) m.(qm_buckets))); [| |done].
    + by destruct (chain_find k c).
    + intros i' c' H. exists (S i + i')%nat. rewrite lookup_drop in H. split; [done|lia].
  - intros i' c' H. exists i'. apply lookup_take_Some in H as [? ?]. split; [done|lia].
Qed.

Lemma get_abs m k : qm_ok m -> query_map_get m k = abs m !! k.
Proof.
  intros Hok. unfold query_map_get, abs. rewrite list_to_map_find, find_in_bucket by done.
  destruct Hok. by rewrite (proj2 (Nat.eqb_neq _ _)) by lia.
Qed.

(** ** Growing *)

Definition placed (seed : bytes) (n : nat) (bs : list (list (bytes * bytes))) : Prop :=
  forall i c k v, bs !! i = Some c -> (k, v) ∈ c -> bucket_index k seed n = i.

Lemma placed_push seed n bs k v :
  placed seed n bs -> placed seed n (push (bucket_index k seed n) (k, v) bs).
Proof.
  intros Hp i c k' v' Hc Hin. unfold push in Hc.
  destruct (decide (i = bucket_index k seed n)) as [->|Hne].
  - rewrite list_lookup_alter_eq in Hc. apply fmap_Some in Hc as (c' & Hc' & ->).
    apply elem_of_cons in Hin as [[= -> ->]|Hin]; [done|]. by eapply Hp.
  - rewrite list_lookup_alter_ne in Hc by done. by eapply Hp.
Qed.

Lemma concat_empties n : concat (replicate n ([] : list (bytes * bytes))) = [].
Proof. by induction n. Qed.

Lemma placed_empties seed n n' : placed seed n (replicate n' []).
Proof.
  intros i c k v [-> _]%lookup_replicate Hin. by apply elem_of_nil in Hin.
Qed.

Lemma rehash_ok seed n old :
  (0 < n)%nat ->
  length (rehash seed n old) = n /\ placed seed n (rehash seed n old) /\
  concat (rehash seed n old) ≡ₚ concat old.
Proof.
  intros Hn. unfold rehash.
  assert (Hgen : forall l acc, length acc = n -> placed seed n acc ->
    let r := foldl (fun acc kv => push (bucket_index kv.1 seed n) kv acc) acc l in
    length r = n /\ placed seed n r /\ concat r ≡ₚ l ++ concat acc).
  { induction l as [|[k v] l IH]; intros acc Hl Hp; cbn [foldl]; [done|].
    destruct (IH (push (bucket_index k seed n) (k, v) acc)) as (? & ? & Hperm).
    - unfold push. by rewrite length_alter.
    - by apply placed_push.
    - split; [done|]. split; [done|]. rewrite Hperm, concat_push
        by (rewrite Hl; by apply bucket_index_lt).
      simpl. symmetry. apply Permutation_middle. }
  destruct (Hgen (concat old) (replicate n [])) as (? & ? & Hp).
  - apply length_replicate.
  - apply placed_empties.
  - rewrite concat_empties, app_nil_r in Hp. done.
Qed.

(** Two well-formed maps with the same entries denote the same finite map. *)
Lemma abs_perm m m' :
  NoDup (entries m).*1 -> entries m ≡ₚ entries m' -> abs m = abs m'.
Proof. apply list_to_map_proper. Qed.

Lemma grow_ok m o m' o' :
  qm_ok m -> query_map_grow m o = (m', o') ->
  qm_ok m' /\ abs m' = abs m /\ m'.(qm_seed) = m.(qm_seed) /\ entries m' ≡ₚ entries m.
Proof.
  intros Hok. pose proof Hok as [Hl Hp Hpl Hnd Hc]. unfold query_map_grow.
  destruct (_ && _); [by intros [= <- <-]|].
  rewrite (proj2 (Nat.eqb_neq _ _)) by lia. destruct (_ || _); [by intros [= <- <-]|].
  destruct (alloc o) as [[|] o1]; intros [= <- <-]; [|done].
  destruct (rehash_ok m.(qm_seed) (m.(qm_size) * 2) m.(qm_buckets) ltac:(lia)) as (? & ? & Hperm).
  assert (Hent : NoDup (concat (rehash m.(qm_seed) (m.(qm_size) * 2) m.(qm_buckets))).*1).
  { by rewrite Hperm. }
  split; [|split; [|split; [done|]]].
  - constructor; qm_fields; try done; [lia|]. rewrite Hc. unfold entries. qm_fields.
    by rewrite Hperm.
  - symmetry. apply abs_perm; [done|]. unfold entries. qm_fields. by rewrite Hperm.
  - unfold entries. qm_fields. done.
Qed.

(** ** Insertion, update, deletion *)

Lemma push_ok m k v :
  qm_ok m -> abs m !! k = None ->
  let m' := m <| qm_buckets := push (bucket_index k m.(qm_seed) m.(qm_size)) (k, v)
                                 m.(qm_buckets) |>
              <| qm_count := (m.(qm_count) + 1)%nat |> in
  qm_ok m' /\ abs m' = <[k := v]> (abs m).
Proof.
  intros [Hl Hp Hpl Hnd Hc] Hk m'.
  assert (Hi : (bucket_index k m.(qm_seed) m.(qm_size) < length m.(qm_buckets))%nat)
    by (rewrite Hl; by apply bucket_index_lt).
  assert (Hperm : entries m' ≡ₚ (k, v) :: entries m) by by apply concat_push.
  assert (Hnin : k ∉ (entries m).*1) by by apply not_elem_of_list_to_map_2.
  assert (Hnd' : NoDup (entries m').*1).
  { rewrite Hperm. simpl. by constructor. }
  split.
  - constructor; try done.
    + unfold m'. qm_fields. unfold push. by rewrite length_alter.
    + unfold m'. qm_fields. by apply placed_push.
    + rewrite Hperm. simpl. unfold m'. qm_fields. lia.
  - unfold abs. rewrite (list_to_map_proper _ _ Hnd' Hperm). done.
Qed.

(** The bucket of a present key, and the table around it. *)
Lemma found_split m k v :
  qm_ok m -> abs m !! k = Some v ->
  let i := bucket_index k m.(qm_seed) m.(qm_size) in
  exists c1 c2, m.(qm_buckets) !! i = Some (c1 ++ (k, v) :: c2) /\
    (forall w, concat (alter (chain_update k w) i m.(qm_buckets)) ≡ₚ
       (k, w) :: (concat (take i m.(qm_buckets)) ++ c1 ++ c2 ++
                  concat (drop (S i) m.(qm_buckets)))) /\
    concat (alter (chain_delete k) i m.(qm_buckets)) =
      concat (take i m.(qm_buckets)) ++ c1 ++ c2 ++ concat (drop (S i) m.(qm_buckets)) /\
    entries m ≡ₚ (k, v) :: (concat (take i m.(qm_buckets)) ++ c1 ++ c2 ++
                            concat (drop (S i) m.(qm_buckets))) /\
    (forall w, chain_update k w (c1 ++ (k, v) :: c2) = c1 ++ (k, w) :: c2) /\
    chain_delete k (c1 ++ (k, v) :: c2) = c1 ++ c2.
Proof.
  intros Hok Hf i. rewrite <- get_abs in Hf by done. unfold query_map_get in Hf.
  pose proof Hok as [Hl Hp Hpl Hnd Hc]. rewrite (proj2 (Nat.eqb_neq _ _)) in Hf by lia.
  fold i in Hf.
  assert (Hi : (i < length m.(qm_buckets))%nat) by (rewrite Hl; by apply bucket_index_lt).
  destruct (lookup_lt_is_Some_2 _ _ Hi) as [c Hcl]. rewrite (nth_lookup_Some _ _ _ _ Hcl) in Hf.
  destruct (chain_find_some k v c Hf) as (c1 & c2 & -> & Hu & Hd). exists c1, c2.
  split; [done|].
  assert (Hmid : forall (x : bytes * bytes) A B, A ++ (c1 ++ x :: c2) ++ B ≡ₚ x :: A ++ c1 ++ c2 ++ B).
  { intros x A B. rewrite <- !app_assoc. simpl.
    rewrite (app_assoc A c1 (x :: c2 ++ B)), (app_assoc A c1 (c2 ++ B)).
    symmetry. apply Permutation_middle. }
  split; [|split; [|split; [|done]]].
  - intros w. destruct (concat_alter (chain_update k w) i _ _ Hcl) as [-> _].
    rewrite Hu. apply Hmid.
  - destruct (concat_alter (chain_delete k) i _ _ Hcl) as [-> _]. rewrite Hd.
    by rewrite <- !app_assoc.
  - unfold entries. destruct (concat_alter id i _ _ Hcl) as [_ ->]. apply Hmid.
Qed.

Lemma elem_concat_split (kv : bytes * bytes) i bs c :
  bs !! i = Some c -> kv ∈ c -> kv ∈ concat bs.
Proof.
  intros Hc Hin. destruct (concat_alter id i bs c Hc) as [_ ->]. set_solver.
Qed.

(** Replacing one bucket by one with no new key keeps the placement. *)
Lemma placed_alter seed n bs i f :
  placed seed n bs ->
  (forall c k v, bs !! i = Some c -> (k, v) ∈ f c -> exists v', (k, v') ∈ c) ->
  placed seed n (alter f i bs).
Proof.
  intros Hp Hf j c k v Hc Hin. destruct (decide (j = i)) as [->|Hne].
  - rewrite list_lookup_alter_eq in Hc. apply fmap_Some in Hc as (c' & Hc' & ->).
    destruct (Hf c' k v Hc' Hin) as [v' Hin']. by eapply Hp.
  - rewrite list_lookup_alter_ne in Hc by done. by eapply Hp.
Qed.

Lemma update_ok m k v w :
  qm_ok m -> abs m !! k = Some v ->
  let m' := m <| qm_buckets := alter (chain_update k w)
                   (bucket_index k m.(qm_seed) m.(qm_size)) m.(qm_buckets) |> in
  qm_ok m' /\ abs m' = <[k := w]> (abs m).
Proof.
  intros Hok Hk m'. pose proof Hok as [Hl Hp Hpl Hnd Hc].
  destruct (found_split m k v Hok Hk) as (c1 & c2 & Hcl & Hu & _ & He & Hup & _).
  specialize (Hu w). set (rest := _ ++ _) in Hu, He.
  assert (Hw : entries m' ≡ₚ (k, w) :: rest) by exact Hu. clear Hu. rename Hw into Hu.
  assert (Hnd2 : NoDup (entries m').*1) by (rewrite Hu; rewrite He in Hnd; done).
  split.
  - constructor; try done.
    + unfold m'. qm_fields. by rewrite length_alter.
    + unfold m'. qm_fields. apply placed_alter; [done|].
      intros c k' v' Hc'. rewrite Hcl in Hc'. injection Hc' as <-. rewrite Hup.
      intros Hin. rewrite elem_of_app, elem_of_cons in Hin.
      destruct Hin as [?|[[= -> ->]|?]]; [exists v'|exists v|exists v'];
        rewrite elem_of_app, elem_of_cons; tauto.
    + rewrite Hu. unfold m'. qm_fields. rewrite Hc, He. done.
  - unfold abs. rewrite (list_to_map_proper _ _ Hnd2 Hu), (list_to_map_proper _ _ Hnd He).
    rewrite !list_to_map_cons. by rewrite insert_insert_eq.
Qed.

Lemma delete_found m k v :
  qm_ok m -> abs m !! k = Some v ->
  let m' := m <| qm_buckets := alter (chain_delete k)
                   (bucket_index k m.(qm_seed) m.(qm_size)) m.(qm_buckets) |>
              <| qm_count := (m.(qm_count) - 1)%nat |> in
  qm_ok m' /\ abs m' = delete k (abs m).
Proof.
  intros Hok Hk m'. pose proof Hok as [Hl Hp Hpl Hnd Hc].
  destruct (found_split m k v Hok Hk) as (c1 & c2 & Hcl & _ & Hd & He & _ & Hdel).
  assert (Hd' : entries m' = _) by exact Hd. rewrite <- Hd' in He.
  pose proof Hnd as Hnd0. rewrite He in Hnd0. simpl in Hnd0.
  inversion_clear Hnd0 as [|? ? Hni Hnd2]. split.
  - constructor; try done.
    + unfold m'. qm_fields. by rewrite length_alter.
    + unfold m'. qm_fields. apply placed_alter; [done|].
      intros c k' v' Hc'. rewrite Hcl in Hc'. injection Hc' as <-. rewrite Hdel.
      intros Hin. exists v'. rewrite elem_of_app in Hin. rewrite elem_of_app, elem_of_cons. tauto.
    + unfold m' at 1. qm_fields. rewrite Hc, He. simpl. lia.
  - unfold abs. rewrite (list_to_map_proper _ _ Hnd He), list_to_map_cons.
    rewrite delete_insert_id; [done|]. by apply not_elem_of_list_to_map_1.
Qed.

(** ** Each operation against the finite map *)

Lemma chain_lookup m k :
  qm_ok m ->
  chain_find k (nth (bucket_index k m.(qm_seed) m.(qm_size)) m.(qm_buckets) []) = abs m !! k.
Proof. intros Hok. unfold abs. by rewrite list_to_map_find, find_in_bucket. Qed.

Lemma insert_ok m k v o m' o' :
  qm_ok m -> abs m !! k = None -> query_map_insert m k v o = (m', o') ->
  qm_ok m' /\ (abs m' = <[k := v]> (abs m) \/ abs m' = abs m) /\
  (o = [] -> abs m' = <[k := v]> (abs m) /\ o' = []).
Proof.
  intros Hok Hk. unfold query_map_insert.
  destruct (if (_ <? _)%nat then query_map_grow m o else (m, o)) as [m1 o1] eqn:E1.
  assert (Hg : qm_ok m1 /\ abs m1 = abs m /\ (o = [] -> o1 = [])).
  { destruct (_ <? _)%nat.
    - destruct (grow_ok m o m1 o1 Hok E1) as (? & ? & _ & _). split; [done|]. split; [done|].
      intros ->. revert E1. unfold query_map_grow. cbn [alloc].
      repeat case_match; congruence.
    - by injection E1 as <- <-. }
  destruct Hg as (Hok1 & Habs & Ho). rewrite <- Habs in Hk |- *.
  destruct (push_ok m1 k v Hok1 Hk) as [Hp1 Hp2].
  destruct (alloc o1) as [[|] o2] eqn:E2;
    [destruct (alloc o2) as [b1 o3] eqn:E3; destruct (alloc o3) as [b2 o4] eqn:E4;
     destruct b1, b2; cbn [andb]|]; intros [= <- <-];
    (split; [first [exact Hp1 | exact Hok1]|]);
    (split; [first [right; reflexivity | left; exact Hp2]|]);
    intros Hnil; rewrite (Ho Hnil) in E2; try discriminate E2; injection E2 as <-;
    try discriminate E3; injection E3 as <-; try discriminate E4; injection E4 as <-.
  split; [exact Hp2|reflexivity].
Qed.

Lemma set_ok m k v o m' o' :
  qm_ok m -> query_map_set m k v o = (m', o') ->
  qm_ok m' /\ (abs m' = <[k := v]> (abs m) \/ abs m' = abs m) /\
  (o = [] -> abs m' = <[k := v]> (abs m) /\ o' = []).
Proof.
  intros Hok. unfold query_map_set. pose proof (qm_pos m Hok).
  rewrite (proj2 (Nat.eqb_neq _ _)) by lia. cbv iota beta zeta.
  rewrite (proj2 (Nat.eqb_neq _ _)) by lia. rewrite chain_lookup by done.
  destruct (abs m !! k) as [v0|] eqn:E; [|by apply insert_ok].
  destruct (update_ok m k v0 v Hok E) as [Hu1 Hu2].
  destruct o as [|[|] o1]; cbn [alloc]; intros [<- <-]%pair_eq.
  - split; [exact Hu1|]. split; [left; exact Hu2|]. intros _. split; [exact Hu2|reflexivity].
  - split; [exact Hu1|]. split; [left; exact Hu2|discriminate].
  - split; [exact Hok|]. split; [right; reflexivity|discriminate].
Qed.

Lemma delete_ok m k :
  qm_ok m -> qm_ok (query_map_delete m k) /\ abs (query_map_delete m k) = delete k (abs m).
Proof.
  intros Hok. unfold query_map_delete. pose proof (qm_pos m Hok).
  rewrite (proj2 (Nat.eqb_neq _ _)) by lia. rewrite chain_lookup by done.
  destruct (abs m !! k) as [v0|] eqn:E; [by apply (delete_found m k v0)|].
  by rewrite delete_id.
Qed.

Lemma empty_ok sd n :
  (0 < n)%nat ->
  qm_ok (MkQMap (replicate n []) n sd 0) /\ abs (MkQMap (replicate n []) n sd 0) = ∅.
Proof.
  intros Hn. assert (He : entries (MkQMap (replicate n []) n sd 0) = []) by apply concat_empties.
  split; [|unfold abs; by rewrite He].
  constructor; rewrite ?He; cbn [qm_buckets qm_size qm_seed qm_count].
  - apply length_replicate.
  - exact Hn.
  - apply placed_empties.
  - constructor.
  - reflexivity.
Qed.

Lemma clear_ok m :
  qm_ok m -> qm_ok (query_map_clear m) /\ abs (query_map_clear m) = ∅.
Proof. intros []. by apply (empty_ok m.(qm_seed) m.(qm_size)). Qed.

Lemma create_ok raw o m o' :
  query_map_create raw o = (Some m, o') -> qm_ok m /\ abs m = ∅.
Proof.
  unfold query_map_create.
  destruct (alloc o) as [[|] o1]; [|done]. destruct (alloc o1) as [[|] o2]; [|done].
  intros [[= <-] <-]%pair_eq. apply (empty_ok _ CWIST_QUERY_MAP_DEFAULT_SIZE). unfold CWIST_QUERY_MAP_DEFAULT_SIZE. lia.
Qed.

(** ** Decoding: the run-copying loop against a byte-at-a-time decoder *)

Fixpoint url_decode_spec (l : bytes) : bytes :=
  match l with
  | [] => []
  | c :: l' =>
      if c =? 43 then 32 :: url_decode_spec l'
      else if c =? 37 then
        match l' with
        | h1 :: h2 :: rest =>
            if isxdigit h1 && isxdigit h2
            then (16 * url_decode_hex h1 + url_decode_hex h2) :: url_decode_spec rest
            else 37 :: url_decode_spec l'
        | _ => 37 :: url_decode_spec l'
        end
      else c :: url_decode_spec l'
  end.

Lemma hex_value_range c : isxdigit c = true -> 0 <= url_decode_hex c < 16.
Proof.
  unfold isxdigit, url_decode_hex. intros H.
  repeat match goal with |- context [if ?b then _ else _] => destruct b eqn:? end; lia.
Qed.

Lemma hex_pair h1 h2 :
  isxdigit h1 = true -> isxdigit h2 = true ->
  u8 (Z.lor (Z.shiftl (url_decode_hex h1) 4) (url_decode_hex h2)) =
  16 * url_decode_hex h1 + url_decode_hex h2.
Proof.
  intros H1%hex_value_range H2%hex_value_range. rewrite lor_shiftl_add by lia.
  change (2 ^ 4) with 16. mlia.
Qed.

Lemma plain_run_spec s :
  url_decode_spec s = take (plain_run s) s ++ url_decode_spec (drop (plain_run s) s) /\
  (plain_run s <= length s)%nat /\
  ((plain_run s < length s)%nat -> rd s (plain_run s) = 37 \/ rd s (plain_run s) = 43).
Proof.
  induction s as [|c s (IH1 & IH2 & IH3)]; [by cbn; repeat split; lia|].
  cbn [plain_run]. destruct (Z.eqb_spec c 37) as [->|]; [cbn; split; [done|]; lia|].
  destruct (Z.eqb_spec c 43) as [->|]; [cbn; split; [done|]; lia|]. cbn [orb].
  split; [|split].
  - cbn [take drop]. cbn [url_decode_spec].
    rewrite (proj2 (Z.eqb_neq c 43)), (proj2 (Z.eqb_neq c 37)) by done. by rewrite IH1 at 1.
  - cbn [length]. lia.
  - cbn [length]. intros H. apply IH3. lia.
Qed.

Lemma url_decode_loop_spec fuel src i out :
  (length src < i + fuel)%nat ->
  url_decode_loop fuel src i out = out ++ url_decode_spec (drop i src).
Proof.
  revert i out. induction fuel as [|fuel IH]; intros i out Hf.
  { cbn. rewrite drop_ge by lia. by rewrite app_nil_r. }
  cbn [url_decode_loop]. destruct (Nat.leb_spec (length src) i).
  { rewrite drop_ge by lia. by rewrite app_nil_r. }
  destruct (plain_run_spec (drop i src)) as (E & Hle & Hstop).
  set (p := plain_run (drop i src)) in *. rewrite length_drop in Hle, Hstop.
  rewrite E. unfold sub. rewrite drop_drop, app_assoc.
  destruct (Nat.leb_spec (length src) (i + p)).
  { destruct (Nat.ltb_spec 0 p); [|lia]. cbn [andb].
    rewrite (drop_ge src (i + p)) by lia. by rewrite app_nil_r. }
  rewrite andb_false_r. specialize (Hstop ltac:(lia)). rewrite rd_drop in Hstop.
  set (j := (i + p)%nat) in *. set (out' := out ++ _).
  assert (Hcons : drop j src = rd src j :: drop (S j) src).
  { destruct (lookup_lt_is_Some_2 src j ltac:(lia)) as [b Hb].
    rewrite (drop_S _ _ _ Hb). by rewrite (rd_lookup _ _ _ Hb). }
  rewrite Hcons. cbn [url_decode_spec].
  destruct Hstop as [-> | ->]; cbn [Z.eqb Pos.eqb]; [|rewrite IH by lia; by rewrite <- app_assoc].
  assert (Hn : forall k, (k < length src)%nat -> drop k src = rd src k :: drop (S k) src).
  { intros k Hk. destruct (lookup_lt_is_Some_2 src k Hk) as [b Hb].
    rewrite (drop_S _ _ _ Hb). by rewrite (rd_lookup _ _ _ Hb). }
  destruct (Nat.ltb_spec (j + 2) (length src)); cbn [andb].
  - rewrite (Hn (S j)), (Hn (S (S j))) by lia.
    replace (j + 1)%nat with (S j) by lia. replace (j + 2)%nat with (S (S j)) by lia.
    destruct (isxdigit (rd src (S j))) eqn:X1, (isxdigit (rd src (S (S j)))) eqn:X2; cbn [andb];
      rewrite IH by lia; rewrite <- app_assoc; rewrite ?(Hn (S j)), ?(Hn (S (S j))) by lia; try done.
    rewrite hex_pair by done. replace (j + 3)%nat with (S (S (S j))) by lia. done.
  - rewrite IH, <- app_assoc by lia. simpl. f_equal.
    assert (Hsh : (length (drop (S j) src) < 2)%nat) by (rewrite length_drop; lia).
    by destruct (drop (S j) src) as [|? [|? ?]]; [| |cbn in Hsh; lia].
Qed.

Lemma url_decode_correct src o :
  url_decode src o =
  if (alloc o).1 then (Some (cstr (url_decode_spec src)), (alloc o).2) else (None, (alloc o).2).
Proof.
  unfold url_decode. destruct (alloc o) as [[|] o1]; cbn [fst snd]; [|done].
  by rewrite url_decode_loop_spec by lia.
Qed.

(** ** Parsing against splitting *)

Fixpoint split_on (c : Z) (l : bytes) : list bytes :=
  match l with
  | [] => [[]]
  | b :: l' =>
      if b =? c then [] :: split_on c l'
      else match split_on c l' with f :: fs => (b :: f) :: fs | [] => [[b]] end
  end.

Definition query_pair (token : bytes) : option (bytes * bytes) :=
  match cut 61 token with
  | (k, Some v) => Some (cstr (url_decode_spec k), cstr (url_decode_spec v))
  | (_, None) => None
  end.

(** The decoded [key=value] fields of a query, in order. *)
Definition query_pairs (q : bytes) : list (bytes * bytes) := omap query_pair (split_on 38 q).

Lemma split_on_cut c l :
  split_on c l = (cut c l).1 :: match (cut c l).2 with Some r => split_on c r | None => [] end.
Proof.
  induction l as [|b l IH]; [done|]. cbn [split_on cut]. destruct (b =? c); [done|].
  rewrite IH. by destruct (cut c l) as [pre [r|]].
Qed.

Lemma cut_length c l r : (cut c l).2 = Some r -> (length r < length l)%nat.
Proof.
  induction l as [|b l IH]; [done|]. cbn [cut]. destruct (b =? c).
  - intros [= ->]. cbn. lia.
  - destruct (cut c l) as [pre post]. cbn in *. intros H%IH. lia.
Qed.

Lemma query_pairs_cut q :
  query_pairs q = option_list (query_pair (cut 38 q).1) ++
    match (cut 38 q).2 with Some r => query_pairs r | None => [] end.
Proof.
  unfold query_pairs. rewrite split_on_cut. cbn [omap list_omap].
  destruct (query_pair (cut 38 q).1), (cut 38 q).2; done.
Qed.

Lemma union_insert_present (M N : gmap bytes bytes) k v w :
  M !! k = Some w -> M ∪ <[k := v]> N = M ∪ N.
Proof.
  intros Hk. apply map_eq. intros i. rewrite !lookup_union.
  destruct (decide (i = k)) as [->|]; [|by rewrite lookup_insert_ne].
  rewrite Hk, lookup_insert_eq. by destruct (N !! k).
Qed.

Lemma union_insert_absent (M N : gmap bytes bytes) k v :
  M !! k = None -> M ∪ <[k := v]> N = <[k := v]> M ∪ N.
Proof.
  intros Hk. apply map_eq. intros i. rewrite !lookup_union.
  destruct (decide (i = k)) as [->|]; [|by rewrite !lookup_insert_ne].
  rewrite Hk, !lookup_insert_eq. by destruct (N !! k).
Qed.

(** What a parse may do with the pairs of a query when allocations can fail:
    taken in order, each is skipped (its key is there already, or memory is
    missing) or added; without memory for its value it is added with an empty
    one. *)
Inductive parsed : gmap bytes bytes -> list (bytes * bytes) -> gmap bytes bytes -> Prop :=
| ParsedEnd M : parsed M [] M
| ParsedSkip M k v l M' : parsed M l M' -> parsed M ((k, v) :: l) M'
| ParsedAdd M k v w l M' :
    M !! k = None -> w = v \/ w = [] -> parsed (<[k := w]> M) l M' -> parsed M ((k, v) :: l) M'.

Lemma parsed_skip_all M l : parsed M l M.
Proof. induction l as [|[k v] l IH]; by constructor. Qed.
Lemma parsed_app M1 l1 M2 l2 M3 : parsed M1 l1 M2 -> parsed M2 l2 M3 -> parsed M1 (l1 ++ l2) M3.
Proof. intros H1 H2. induction H1; [done|by apply ParsedSkip, IHparsed|eapply ParsedAdd; eauto]. Qed.

(** One token; with every allocation granted the pair is added unless its key is
    there. *)
Lemma token_ok m tok o m' o' :
  qm_ok m -> query_token m tok o = (m', o') ->
  qm_ok m' /\ parsed (abs m) (option_list (query_pair tok)) (abs m') /\
  (o = [] -> o' = [] /\
     forall N : gmap bytes bytes,
       abs m ∪ list_to_map (option_list (query_pair tok)) ∪ N = abs m' ∪ N).
Proof.
  intros Hok. unfold query_token, query_pair.
  destruct (cut 61 tok) as [k [v|]]; cycle 1.
  { intros [<- <-]%pair_eq. split; [exact Hok|]. split; [constructor|]. intros ->.
    split; [done|]. intros N. change (option_list None) with (@nil (bytes * bytes)).
    by rewrite list_to_map_nil, map_union_empty. }
  rewrite url_decode_correct. set (kd := cstr (url_decode_spec k)).
  set (vd := cstr (url_decode_spec v)). destruct (alloc o) as [b1 o1] eqn:E1.
  assert (Hskip : forall o'', (o = [] -> False) ->
    (m, o'') = (m', o') -> qm_ok m' /\ parsed (abs m) (option_list (Some (kd, vd))) (abs m') /\
    (o = [] -> o' = [] /\ forall N : gmap bytes bytes,
       abs m ∪ list_to_map (option_list (Some (kd, vd))) ∪ N = abs m' ∪ N)).
  { intros o'' Hno [<- <-]%pair_eq. split; [exact Hok|]. split; [apply parsed_skip_all|].
    intros H. by destruct (Hno H). }
  destruct b1.
  2:{ cbn [fst snd]. rewrite url_decode_correct. destruct (alloc o1) as [[|] o2]; cbn [fst snd];
      apply Hskip; intros ->; discriminate E1. }
  cbn [fst snd]. rewrite url_decode_correct. fold vd.
  destruct (alloc o1) as [b2 o2] eqn:E2. cbn [fst snd].
  set (vv := default [] (if b2 then Some vd else None)).
  assert (Hpair : (if b2 then (Some vd, o2) else (None, o2)) = (if b2 then Some vd else None, o2))
    by by destruct b2.
  rewrite Hpair. fold vv. rewrite get_abs by done.
  destruct (abs m !! kd) as [w|] eqn:Ek.
  - intros [<- <-]%pair_eq. split; [exact Hok|]. split; [apply parsed_skip_all|]. intros ->.
    injection E1 as <-. injection E2 as <- <-. split; [done|]. intros N.
    change (option_list (Some (kd, vd))) with [(kd, vd)].
    rewrite list_to_map_cons, list_to_map_nil.
    rewrite (union_insert_present _ _ _ _ w) by done. by rewrite map_union_empty.
  - intros Hset. destruct (set_ok m kd vv o2 m' o' Hok Hset) as (Hok' & Hor & Hnil).
    split; [exact Hok'|]. split.
    { destruct Hor as [-> | ->]; [|apply parsed_skip_all]. apply (ParsedAdd _ _ _ vv); [done| |constructor].
      unfold vv. destruct b2; [by left|by right]. }
    intros ->. injection E1 as <-. injection E2 as <- <-. destruct (Hnil eq_refl) as [-> ->].
    split; [done|]. intros N. change (option_list (Some (kd, vd))) with [(kd, vd)].
    rewrite list_to_map_cons, list_to_map_nil.
    rewrite union_insert_absent by done. by rewrite map_union_empty.
Qed.

Lemma parse_loop_ok fuel : forall m seg o m' o',
  qm_ok m -> (length seg < fuel)%nat -> query_parse_loop fuel m seg o = (m', o') ->
  qm_ok m' /\ parsed (abs m) (query_pairs seg) (abs m') /\
  (o = [] -> o' = [] /\ abs m' = abs m ∪ list_to_map (query_pairs seg)).
Proof.
  induction fuel as [|fuel IH]; intros m seg o m' o' Hok Hf; [lia|].
  cbn [query_parse_loop]. destruct seg as [|b0 seg0].
  { intros [<- <-]%pair_eq. split; [exact Hok|]. split; [constructor|]. intros ->.
    split; [done|]. change (list_to_map (query_pairs [])) with (∅ : gmap bytes bytes).
    by rewrite map_union_empty. }
  set (seg := b0 :: seg0) in *. rewrite query_pairs_cut.
  pose proof (cut_length 38 seg) as Hlen. destruct (cut 38 seg) as [tok rest]. cbn [fst snd] in *.
  assert (Htok : match tok with [] => (m, o) | _ => query_token m tok o end = query_token m tok o)
    by by destruct tok.
  rewrite Htok. destruct (query_token m tok o) as [m1 o1] eqn:E1.
  destruct (token_ok m tok o m1 o1 Hok E1) as (Hok1 & Hsub & Hnil).
  intros Hl. destruct (IH m1 (default [] rest) o1 m' o' Hok1) as (Hok' & Hsub' & Hnil'); [|done|].
  { assert (length seg = S (length seg0)) by done.
    destruct rest as [r|]; cbn [default]; [|cbn; lia]. specialize (Hlen r eq_refl).
    unfold id. lia. }
  split; [exact Hok'|]. split; [apply (parsed_app _ _ (abs m1)); [done|by destruct rest]|]. intros ->.
  destruct (Hnil eq_refl) as [-> HN]. destruct (Hnil' eq_refl) as [-> ->]. split; [done|].
  rewrite list_to_map_app, (assoc_L (∪)).
  - rewrite <- HN. by destruct rest.
Qed.

(** ** Properties *)

(** The operations a client can apply, in any order. *)
Inductive qop : Type :=
| QSet (k v : bytes) | QDelete (k : bytes) | QClear | QParse (q : bytes).

Definition qm_step (mo : query_map * oracle) (op : qop) : query_map * oracle :=
  let '(m, o) := mo in
  match op with
  | QSet k v => query_map_set m k v o
  | QDelete k => (query_map_delete m k, o)
  | QClear => (query_map_clear m, o)
  | QParse q => query_map_parse m q o
  end.

(** The same operations on a finite map: a parsed pair never replaces a key. *)
Definition map_step (M : gmap bytes bytes) (op : qop) : gmap bytes bytes :=
  match op with
  | QSet k v => <[k := v]> M
  | QDelete k => delete k M
  | QClear => ∅
  | QParse q => M ∪ list_to_map (query_pairs q)
  end.

(** What a step may do when allocations can fail. *)
Inductive partial_step (M : gmap bytes bytes) : qop -> gmap bytes bytes -> Prop :=
| PDone op : partial_step M op (map_step M op)
| PSkipSet k v : partial_step M (QSet k v) M
| PParse q M' : parsed M (query_pairs q) M' -> partial_step M (QParse q) M'.

Lemma step_ok m o op m' o' :
  qm_ok m -> qm_step (m, o) op = (m', o') ->
  qm_ok m' /\ partial_step (abs m) op (abs m') /\
  (o = [] -> o' = [] /\ abs m' = map_step (abs m) op).
Proof.
  intros Hok. destruct op as [k v|k| |q]; cbn [qm_step].
  - intros Hs. destruct (set_ok m k v o m' o' Hok Hs) as (? & Hor & Hnil).
    split; [done|]. split.
    + destruct Hor as [-> | ->]; [apply (PDone _ (QSet k v))|constructor].
    + intros Hn. by destruct (Hnil Hn).
  - intros [<- <-]%pair_eq. destruct (delete_ok m k Hok) as [? Hd]. split; [done|].
    rewrite Hd. split; [apply (PDone _ (QDelete k))|done].
  - intros [<- <-]%pair_eq. destruct (clear_ok m Hok) as [? Hc]. split; [done|].
    rewrite Hc. split; [apply (PDone _ QClear)|done].
  - unfold query_map_parse. destruct q as [|b q].
    { intros [<- <-]%pair_eq. split; [done|]. split; [constructor; apply parsed_skip_all|].
      intros ->. split; [done|]. cbn [map_step].
      change (list_to_map (query_pairs [])) with (∅ : gmap bytes bytes).
      by rewrite map_union_empty. }
    destruct (alloc o) as [[|] o1] eqn:E.
    + intros Hl. destruct (parse_loop_ok _ m (b :: q) o1 m' o' Hok (Nat.lt_succ_diag_r _) Hl)
        as (? & ? & Hnil).
      split; [done|]. split; [by constructor|]. intros ->. injection E as <-. by apply Hnil.
    + intros [<- <-]%pair_eq. split; [done|]. split; [constructor; apply parsed_skip_all|]. intros ->. discriminate E.
Qed.

(** C39: a query map behaves as a finite map.  After any sequence of sets,
    deletes, clears and parses from a fresh map, for every seed, [get] answers
    what the finite map answers, the iteration visits every binding exactly
    once, and the entry count is exact, through every growth of the table. *)
Theorem query_map_refines raw m0 ops k :
  query_map_create raw [] = (Some m0, []) ->
  let m := (foldl qm_step (m0, []) ops).1 in
  let M := foldl map_step ∅ ops in
  query_map_get m k = M !! k /\
  query_map_foreach m (fun acc kv => acc ++ [kv]) [] ≡ₚ map_to_list M /\
  m.(qm_count) = length (map_to_list M).
Proof.
  intros Hc. destruct (create_ok raw [] m0 [] Hc) as [Hok Habs]. rewrite <- Habs. clear Hc Habs.
  cbv zeta. revert m0 Hok. induction ops as [|op ops IH]; intros m0 Hok; cbn [foldl fst].
  - assert (Hp : entries m0 ≡ₚ map_to_list (abs m0)).
    { unfold abs. by rewrite map_to_list_to_map by apply Hok. }
    split; [by apply get_abs|]. split.
    + rewrite <- Hp. unfold query_map_foreach. fold (entries m0).
      assert (Hf : forall l acc, foldl (fun acc (kv : bytes * bytes) => acc ++ [kv]) acc l = acc ++ l).
      { induction l as [|x l IHl]; intros acc; cbn [foldl]; [by rewrite app_nil_r|].
        by rewrite IHl, <- app_assoc. }
      by rewrite Hf.
    + rewrite <- Hp. apply Hok.
  - destruct (qm_step (m0, []) op) as [m1 o1] eqn:E.
    destruct (step_ok m0 [] op m1 o1 Hok E) as (Hok1 & _ & Hnil).
    destruct (Hnil eq_refl) as [-> <-]. by apply IH.
Qed.

Lemma query_map_refines_witness :
  exists m0, query_map_create (seqZ 0 16) [] = (Some m0, []) /\
    query_map_get (foldl qm_step (m0, [])
      [QParse (bs "a=1&b=%41+x&a=2&&c"); QDelete (bs "a"); QSet (bs "z") (bs "9")]).1 (bs "b")
    = Some (bs "A x").
Proof.
  eexists. split; [reflexivity|].
  etransitivity;
    [apply (query_map_refines (seqZ 0 16) _ _ (bs "b")); reflexivity|vm_compute; reflexivity].
Defined.

(** C40: under any pattern of allocation failures a step leaves a well-formed map.
    A set is applied whole or not at all; deletes and clears always apply; a
    parse goes through the query's pairs in order and adds some of those whose
    keys are not there, each with its value or, when there is no memory for that,
    an empty one, and changes nothing else. *)
Theorem query_map_atomic m o op :
  qm_ok m ->
  qm_ok (qm_step (m, o) op).1 /\
  partial_step (abs m) op (abs (qm_step (m, o) op).1) /\
  (forall k, query_map_get (qm_step (m, o) op).1 k = abs (qm_step (m, o) op).1 !! k).
Proof.
  intros Hok. destruct (qm_step (m, o) op) as [m' o'] eqn:E.
  destruct (step_ok m o op m' o' Hok E) as (? & ? & _). split; [done|]. split; [done|].
  intros k. by apply get_abs.
Qed.

Lemma query_map_atomic_witness :
  exists m0, query_map_create (seqZ 0 16) [] = (Some m0, []) /\
    qm_ok (qm_step (m0, [true; true; false]) (QSet (bs "k") (bs "v"))).1.
Proof.
  eexists. split; [reflexivity|]. apply query_map_atomic.
  by destruct (create_ok (seqZ 0 16) [] _ [] eq_refl).
Defined.

(** percent-decoding by copied runs equals decoding one character at a
    time: '+' is a space, '%' with two hexadecimal digits the byte, a '%' not
    followed by two digits is kept, everything else is copied; the result is
    the C string of the decoded bytes. *)
Theorem url_decode_equiv src o :
  url_decode src o =
  if (alloc o).1 then (Some (cstr (url_decode_spec src)), (alloc o).2) else (None, (alloc o).2).
Proof. apply url_decode_correct. Qed.
