(* ===== verification/SimdParser.v ===== *)
(** * Delimiter scanning (src/src/net/http/simd_parser.h)

    [cwist_simd_find_char], [cwist_simd_find_crlf] and
    [cwist_simd_find_crlfcrlf] as compiled for a 64-bit target without vector
    extensions: the 8-byte SWAR loop, then [memchr].  (The SSE/AVX/NEON/...
    blocks call compiler intrinsics and are not modelled.)  Each is proved to
    return the first occurrence, which is all the HTTP parser relies on.

    A pointer into the buffer is its offset; [None] is NULL. *)

From S2P Require Import Prelude.

(** ** Specification: the first position of a range that satisfies a test *)

Fixpoint find_first (P : nat -> bool) (off n : nat) : option nat :=
  match n with
  | O => None
  | S n' => if P off then Some off else find_first P (S off) n'
  end.

Lemma find_first_some P off n j :
  find_first P off n = Some j <->
  (off <= j < off + n)%nat /\ P j = true /\ (forall i, (off <= i < j)%nat -> P i = false).
Proof.
  revert off. induction n as [|n IH]; intros off; cbn [find_first]; [split; [done|lia]|].
  destruct (P off) eqn:E.
  - split.
    + intros [= <-]. split; [lia|]. split; [done|]. lia.
    + intros (Hr & Hj & Hi). destruct (decide (j = off)) as [->|]; [done|].
      rewrite Hi in E by lia. done.
  - rewrite IH. split; intros (Hr & Hj & Hi).
    + split; [lia|]. split; [done|]. intros i Hb. destruct (decide (i = off)) as [->|]; [done|].
      apply Hi. lia.
    + destruct (decide (j = off)) as [->|]; [congruence|]. split; [lia|]. split; [done|].
      intros i Hb. apply Hi. lia.
Qed.

Lemma find_first_none P off n :
  find_first P off n = None <-> forall i, (off <= i < off + n)%nat -> P i = false.
Proof.
  revert off. induction n as [|n IH]; intros off; cbn [find_first]; [split; [lia|done]|].
  destruct (P off) eqn:E.
  - split; [done|]. intros H. rewrite H in E by lia. done.
  - rewrite IH. split; intros H i Hi; [|apply H; lia].
    destruct (decide (i = off)) as [->|]; [done|]. apply H. lia.
Qed.

Lemma find_first_app P off n m :
  find_first P off (n + m) =
  match find_first P off n with Some j => Some j | None => find_first P (off + n) m end.
Proof.
  revert off. induction n as [|n IH]; intros off; cbn [find_first Nat.add]; [by rewrite Nat.add_0_r|].
  destruct (P off); [done|]. rewrite IH. by rewrite Nat.add_succ_comm.
Qed.

Lemma find_first_ext P Q off n :
  (forall i, (off <= i < off + n)%nat -> P i = Q i) -> find_first P off n = find_first Q off n.
Proof.
  revert off. induction n as [|n IH]; intros off H; cbn [find_first]; [done|].
  rewrite H by lia. destruct (Q off); [done|]. apply IH. intros i Hi. apply H. lia.
Qed.

(** ** The SWAR character search *)

Definition SWAR_ONES : Z := 72340172838076673.      (* 0x0101010101010101 *)
Definition SWAR_HIGHS : Z := 9259542123273814144.   (* 0x8080808080808080 *)

(** [(x - ONES) & ~x & HIGHS] on uint64_t. *)
Definition swar_has_zero (x : Z) : Z :=
  Z.land (Z.land (u64 (x - SWAR_ONES)) (u64 (Z.lnot x))) SWAR_HIGHS.

Definition is_char (buf : bytes) (c : Z) (i : nat) : bool := rd buf i =? c.

(** [memchr], and the 8-byte inner loop. *)
Definition scan_char (buf : bytes) (off n : nat) (c : Z) : option nat :=
  find_first (is_char buf c) off n.

(** The SWAR loop with [n] whole 8-byte chunks left, then the scalar tail. *)
Fixpoint find_char_chunks (buf : bytes) (off n tail : nat) (c : Z) : option nat :=
  match n with
  | O => scan_char buf off tail c
  | S n' =>
      let chunk64 := le_load buf off 8 in
      let xor_val := Z.lxor chunk64 (u64 (u8 c * SWAR_ONES)) in
      if negb (swar_has_zero xor_val =? 0) then
        match scan_char buf off 8 c with
        | Some j => Some j
        | None => find_char_chunks buf (off + 8) n' tail c
        end
      else find_char_chunks buf (off + 8) n' tail c
  end.

Definition find_char (buf : bytes) (off len : nat) (c : Z) : option nat :=
  find_char_chunks buf off (len / 8) (len mod 8) c.

(** ** CRLF and the blank line *)

Fixpoint find_crlf_loop (fuel : nat) (buf : bytes) (curr remaining stop : nat) : option nat :=
  match fuel with
  | O => None
  | S fuel =>
      if (remaining <? 2)%nat then None else
      match find_char buf curr remaining 13 with
      | None => None
      | Some cr =>
          if (cr + 1 <? stop)%nat && (rd buf (cr + 1) =? 10) then Some cr
          else
            let consumed := (cr + 1 - curr)%nat in
            find_crlf_loop fuel buf (curr + consumed) (remaining - consumed) stop
      end
  end.

Definition find_crlf (buf : bytes) (off len : nat) : option nat :=
  if (len <? 2)%nat then None else find_crlf_loop (S len) buf off len (off + len).

Fixpoint find_crlfcrlf_loop (fuel : nat) (buf : bytes) (curr remaining stop : nat)
    : option nat :=
  match fuel with
  | O => None
  | S fuel =>
      if (remaining <? 4)%nat then None else
      match find_char buf curr remaining 13 with
      | None => None
      | Some cr =>
          if (cr + 3 <? stop)%nat && (rd buf (cr + 1) =? 10) && (rd buf (cr + 2) =? 13) &&
             (rd buf (cr + 3) =? 10)
          then Some cr
          else
            let consumed := (cr + 1 - curr)%nat in
            find_crlfcrlf_loop fuel buf (curr + consumed) (remaining - consumed) stop
      end
  end.

Definition find_crlfcrlf (buf : bytes) (off len : nat) : option nat :=
  if (len <? 4)%nat then None else find_crlfcrlf_loop (S len) buf off len (off + len).

(** ** The zero-byte test *)

(** A zero byte in a little-endian word sets a bit of the mask. *)
Lemma swar_detects x0 x1 x2 x3 x4 x5 x6 x7 :
  Forall is_u8 [x0; x1; x2; x3; x4; x5; x6; x7] ->
  0 ∈ [x0; x1; x2; x3; x4; x5; x6; x7] ->
  swar_has_zero (x0 + 256 * (x1 + 256 * (x2 + 256 * (x3 + 256 * (x4 + 256 * (x5 +
    256 * (x6 + 256 * x7))))))) <> 0.
Proof.
  intros Hr Hz. set (x := x0 + _).
  assert (Hx : forall k, In k [7; 15; 23; 31; 39; 47; 55; 63] ->
    (x - SWAR_ONES) / 2 ^ k mod 2 = 1 -> x / 2 ^ k mod 2 = 0 -> swar_has_zero x <> 0).
  { intros k Hk H1 H0 Habs.
    assert (Hk0 : 0 <= k < 64) by (cbn in Hk; lia).
    assert (Hbit : Z.testbit (swar_has_zero x) k = true).
    { unfold swar_has_zero, u64. change 18446744073709551616 with (2 ^ 64).
      rewrite !Z.land_spec, !Z.mod_pow2_bits_low, Z.lnot_spec by lia.
      rewrite (proj2 (Z.testbit_true _ _ (proj1 Hk0)) H1).
      rewrite (proj2 (Z.testbit_false _ _ (proj1 Hk0)) H0). cbn [negb andb].
      cbn in Hk. by repeat (destruct Hk as [<-|Hk]; [reflexivity|]). }
    by rewrite Habs, Z.bits_0 in Hbit. }
  repeat (apply Forall_cons_1 in Hr as [? Hr]). clear Hr. unfold is_u8, SWAR_ONES in *.
  rewrite !elem_of_cons in Hz.
  destruct (decide (x0 = 0)); [apply (Hx 7); cbn; [tauto|unfold x; zlia|unfold x; zlia]|].
  destruct (decide (x1 = 0)); [apply (Hx 15); cbn; [tauto|unfold x; zlia|unfold x; zlia]|].
  destruct (decide (x2 = 0)); [apply (Hx 23); cbn; [tauto|unfold x; zlia|unfold x; zlia]|].
  destruct (decide (x3 = 0)); [apply (Hx 31); cbn; [tauto|unfold x; zlia|unfold x; zlia]|].
  destruct (decide (x4 = 0)); [apply (Hx 39); cbn; [tauto|unfold x; zlia|unfold x; zlia]|].
  destruct (decide (x5 = 0)); [apply (Hx 47); cbn; [tauto|unfold x; zlia|unfold x; zlia]|].
  destruct (decide (x6 = 0)); [apply (Hx 55); cbn; [tauto|unfold x; zlia|unfold x; zlia]|].
  destruct (decide (x7 = 0)); [apply (Hx 63); cbn; [tauto|unfold x; zlia|unfold x; zlia]|].
  exfalso. by repeat (destruct Hz as [Hz|Hz]; [congruence|]); apply elem_of_nil in Hz.
Qed.

(** A word with no flagged byte holds no occurrence of the character. *)
Lemma swar_skip buf off c :
  bytes_ok buf -> is_u8 c ->
  swar_has_zero (Z.lxor (le_load buf off 8) (u64 (u8 c * SWAR_ONES))) = 0 ->
  scan_char buf off 8 c = None.
Proof.
  intros Hb Hc Hz. apply find_first_none. intros i Hi. unfold is_char.
  apply Z.eqb_neq. intros Heq. revert Hz.
  assert (Ht : u64 (u8 c * SWAR_ONES) =
    c + 256 * (c + 256 * (c + 256 * (c + 256 * (c + 256 * (c + 256 * (c + 256 * c))))))).
  { rewrite u8_id by done. unfold SWAR_ONES. rewrite u64_id; [lia|mlia]. }
  rewrite Ht. cbn [le_load]. rewrite Z.mul_0_r, Z.add_0_r.
  pose proof (fun j => bytes_ok_rd buf j Hb) as Hr. unfold is_u8 in Hr.
  rewrite !lxor_byte by (first [apply Hr | unfold is_u8 in Hc; lia]).
  apply swar_detects.
  - repeat apply Forall_cons_2; try apply Forall_nil_2; apply lxor_u8; done || apply Hr.
  - subst c.
    assert (Hi' : i = off \/ i = S off \/ i = S (S off) \/ i = S (S (S off)) \/
      i = S (S (S (S off))) \/ i = S (S (S (S (S off)))) \/ i = S (S (S (S (S (S off))))) \/
      i = S (S (S (S (S (S (S off))))))) by lia.
    rewrite !elem_of_cons.
    repeat (destruct Hi' as [Hi'|Hi']; [rewrite Hi', Z.lxor_nilpotent; tauto|]).
    rewrite Hi', Z.lxor_nilpotent. tauto.
Qed.

Lemma find_char_chunks_scan buf off n tail c :
  bytes_ok buf -> is_u8 c ->
  find_char_chunks buf off n tail c = scan_char buf off (8 * n + tail) c.
Proof.
  intros Hb Hc. revert off. induction n as [|n IH]; intros off; [done|].
  cbn [find_char_chunks]. replace (8 * S n + tail)%nat with (8 + (8 * n + tail))%nat by lia.
  unfold scan_char at 2. rewrite find_first_app. fold (scan_char buf off 8 c).
  rewrite IH. destruct (Z.eqb_spec (swar_has_zero (Z.lxor (le_load buf off 8)
    (u64 (u8 c * SWAR_ONES)))) 0) as [E|_]; cbn [negb]; [|done].
  by rewrite (swar_skip buf off c).
Qed.

Lemma find_char_scan buf off len c :
  bytes_ok buf -> is_u8 c -> find_char buf off len c = find_first (is_char buf c) off len.
Proof.
  intros Hb Hc. unfold find_char. rewrite find_char_chunks_scan by done.
  unfold scan_char. f_equal. pose proof (Nat.div_mod_eq len 8). lia.
Qed.

Definition is_crlf (buf : bytes) (i : nat) : bool :=
  (rd buf i =? 13) && (rd buf (i + 1) =? 10).
Definition is_crlfcrlf (buf : bytes) (i : nat) : bool :=
  (rd buf i =? 13) && (rd buf (i + 1) =? 10) && (rd buf (i + 2) =? 13) && (rd buf (i + 3) =? 10).

(** Both loops hop from one '\r' to the next: here with the pattern's width [w]
    and its test [Q] at a '\r'. *)
Fixpoint hop_loop (fuel : nat) (buf : bytes) (w : nat) (Q : nat -> bool)
    (curr remaining stop : nat) : option nat :=
  match fuel with
  | O => None
  | S fuel =>
      if (remaining <? w)%nat then None else
      match find_char buf curr remaining 13 with
      | None => None
      | Some cr =>
          if (cr + (w - 1) <? stop)%nat && Q cr then Some cr
          else hop_loop fuel buf w Q (curr + (cr + 1 - curr)) (remaining - (cr + 1 - curr)) stop
      end
  end.

Lemma find_crlf_hop fuel buf curr n stop :
  find_crlf_loop fuel buf curr n stop =
  hop_loop fuel buf 2 (fun i => rd buf (i + 1) =? 10) curr n stop.
Proof.
  revert curr n. induction fuel as [|fuel IH]; intros curr n; [done|].
  cbn [find_crlf_loop hop_loop Nat.sub]. destruct (_ <? 2)%nat; [done|].
  destruct (find_char buf curr n 13); [|done]. by rewrite IH.
Qed.

Lemma find_crlfcrlf_hop fuel buf curr n stop :
  find_crlfcrlf_loop fuel buf curr n stop =
  hop_loop fuel buf 4 (fun i => (rd buf (i + 1) =? 10) && (rd buf (i + 2) =? 13) &&
                                (rd buf (i + 3) =? 10)) curr n stop.
Proof.
  revert curr n. induction fuel as [|fuel IH]; intros curr n; [done|].
  cbn [find_crlfcrlf_loop hop_loop Nat.sub]. destruct (_ <? 4)%nat; [done|].
  destruct (find_char buf curr n 13); [|done]. rewrite IH. by rewrite !andb_assoc.
Qed.

(** A hop skips no match: the loop finds the first position of the range that
    holds a '\r' and passes the test. *)
Lemma hop_loop_spec buf w Q fuel : forall curr n,
  bytes_ok buf -> (0 < w)%nat -> (n < fuel)%nat ->
  hop_loop fuel buf w Q curr n (curr + n) =
  find_first (fun i => is_char buf 13 i && Q i) curr (n + 1 - w).
Proof.
  induction fuel as [|fuel IH]; intros curr n Hb Hw Hf; [lia|]. cbn [hop_loop].
  destruct (Nat.ltb_spec n w).
  { by replace (n + 1 - w)%nat with 0%nat by lia. }
  rewrite find_char_scan by (done || mlia).
  destruct (find_first (is_char buf 13) curr n) as [cr|] eqn:E.
  2:{ symmetry. apply find_first_none. intros i Hi.
      rewrite (proj1 (find_first_none _ _ _) E i) by lia. done. }
  apply find_first_some in E as (Hr & Hc & Hbefore).
  assert (Hskip : (curr + n <= cr + (w - 1))%nat \/ Q cr = false ->
    find_first (fun i => is_char buf 13 i && Q i) curr (n + 1 - w) =
    find_first (fun i => is_char buf 13 i && Q i) (cr + 1) (n - (cr + 1 - curr) + 1 - w)).
  { intros Hcase. assert (Hno : forall i, (curr <= i < cr)%nat -> is_char buf 13 i && Q i = false).
    { intros i Hi. by rewrite Hbefore. }
    destruct (decide (curr + (n + 1 - w) <= cr)%nat).
    - replace (n - (cr + 1 - curr) + 1 - w)%nat with 0%nat by lia.
      apply find_first_none. intros i Hi. apply Hno. lia.
    - replace (n + 1 - w)%nat with ((cr + 1 - curr) + (n - (cr + 1 - curr) + 1 - w))%nat by lia.
      rewrite find_first_app. replace (curr + (cr + 1 - curr))%nat with (cr + 1)%nat by lia.
      rewrite (proj2 (find_first_none _ curr _)); [done|]. intros i Hi.
      destruct (decide (i = cr)) as [->|]; [|apply Hno; lia].
      destruct Hcase as [?|HQ]; [lia|]. by rewrite HQ, andb_false_r. }
  destruct (Nat.ltb_spec (cr + (w - 1)) (curr + n)) as [Hlt|Hge];
    [destruct (Q cr) eqn:EQ|]; cbn [andb].
  - symmetry. apply find_first_some. rewrite Hc, EQ. split; [lia|]. split; [done|].
    intros i Hi. by rewrite Hbefore.
  - rewrite Hskip by auto. replace (curr + (cr + 1 - curr))%nat with (cr + 1)%nat by lia.
    rewrite <- IH by (done || lia). f_equal. lia.
  - rewrite Hskip by auto. replace (curr + (cr + 1 - curr))%nat with (cr + 1)%nat by lia.
    rewrite <- IH by (done || lia). f_equal. lia.
Qed.

Lemma find_crlf_scan buf off len :
  bytes_ok buf -> find_crlf buf off len = find_first (is_crlf buf) off (len - 1).
Proof.
  intros Hb. unfold find_crlf. destruct (Nat.ltb_spec len 2).
  - by replace (len - 1)%nat with 0%nat by lia.
  - rewrite find_crlf_hop, hop_loop_spec by (done || lia).
    replace (len + 1 - 2)%nat with (len - 1)%nat by lia. done.
Qed.

Lemma find_crlfcrlf_scan buf off len :
  bytes_ok buf -> find_crlfcrlf buf off len = find_first (is_crlfcrlf buf) off (len - 3).
Proof.
  intros Hb. unfold find_crlfcrlf. destruct (Nat.ltb_spec len 4).
  - by replace (len - 3)%nat with 0%nat by lia.
  - rewrite find_crlfcrlf_hop, hop_loop_spec by (done || lia).
    replace (len + 1 - 4)%nat with (len - 3)%nat by lia.
    apply find_first_ext. intros i _. unfold is_char, is_crlfcrlf. by rewrite !andb_assoc.
Qed.

(** ** Searches in a text whose pieces are known *)

Definition lacks (c : Z) (l : bytes) : Prop := Forall (fun b => b <> c) l.

Lemma rd_mid pre l post i :
  (i < length l)%nat -> rd (pre ++ l ++ post) (length pre + i) = rd l i.
Proof.
  intros Hi. rewrite rd_app_r by lia. rewrite rd_app_l by lia. f_equal. lia.
Qed.

Lemma lacks_rd c l i : lacks c l -> (i < length l)%nat -> rd l i <> c.
Proof.
  intros H Hi. destruct (lookup_lt_is_Some_2 l i Hi) as [b Hb]. rewrite (rd_lookup _ _ _ Hb).
  by apply (Forall_lookup_1 _ _ _ _ H Hb).
Qed.

Lemma find_char_mid raw pre l c post n :
  bytes_ok raw -> is_u8 c -> raw = pre ++ l ++ c :: post -> lacks c l -> (length l < n)%nat ->
  find_char raw (length pre) n c = Some (length pre + length l)%nat.
Proof.
  intros Hb Hc -> Hl Hn. rewrite find_char_scan by done. apply find_first_some.
  split; [lia|]. unfold is_char. split.
  - change (c :: post) with ([c] ++ post). rewrite app_assoc, <- length_app.
    rewrite <- (Nat.add_0_r (length (pre ++ l))), rd_mid by (cbn; lia). apply Z.eqb_refl.
  - intros i Hi. replace i with (length pre + (i - length pre))%nat by lia.
    rewrite rd_mid by lia. apply Z.eqb_neq. apply lacks_rd; [done|lia].
Qed.

Lemma find_crlf_mid raw pre l post n :
  bytes_ok raw -> raw = pre ++ l ++ 13 :: 10 :: post -> lacks 13 l -> (length l + 2 <= n)%nat ->
  find_crlf raw (length pre) n = Some (length pre + length l)%nat.
Proof.
  intros Hb -> Hl Hn. rewrite find_crlf_scan by done. apply find_first_some.
  split; [lia|]. unfold is_crlf. split.
  - change (13 :: 10 :: post) with ([13; 10] ++ post). rewrite app_assoc, <- length_app.
    rewrite <- (Nat.add_0_r (length (pre ++ l))) at 1. by rewrite !rd_mid by (cbn; lia).
  - intros i Hi. replace i with (length pre + (i - length pre))%nat by lia.
    rewrite rd_mid by lia. apply andb_false_iff. left. apply Z.eqb_neq. apply lacks_rd; [done|lia].
Qed.

Definition crlf : bytes := [13; 10].

(** Lines joined with CRLF after each. *)
Fixpoint crlf_lines (ls : list bytes) : bytes :=
  match ls with
  | [] => []
  | x :: ls' => (x ++ crlf) ++ crlf_lines ls'
  end.

(** The blank line ends the first run of non-empty lines free of '\r'. *)
Lemma find_crlfcrlf_lines ls : forall pre l body n,
  bytes_ok (pre ++ l ++ 13 :: 10 :: crlf_lines ls ++ 13 :: 10 :: body) ->
  lacks 13 l -> Forall (fun x => lacks 13 x /\ x <> []) ls ->
  let text := pre ++ l ++ 13 :: 10 :: crlf_lines ls ++ 13 :: 10 :: body in
  let last := (length l + length (crlf_lines ls))%nat in
  (last < n)%nat ->
  find_first (is_crlfcrlf text) (length pre) n = Some (length pre + last)%nat.
Proof.
  induction ls as [|x ls IH]; intros pre l body n Hb Hl Hls text last Hn.
  - subst text last. cbn [crlf_lines app length] in *. apply find_first_some. split; [lia|]. split.
    + change (13 :: 10 :: 13 :: 10 :: body) with ((crlf ++ crlf) ++ body).
      rewrite app_assoc, Nat.add_0_r, <- length_app. unfold is_crlfcrlf.
      rewrite <- (Nat.add_0_r (length (pre ++ l))) at 1. by rewrite !rd_mid by (cbn; lia).
    + intros i Hi. unfold is_crlfcrlf. replace i with (length pre + (i - length pre))%nat by lia.
      rewrite rd_mid by lia.
      by rewrite (proj2 (Z.eqb_neq _ _)) by (apply lacks_rd; [done|lia]).
  - apply Forall_cons_1 in Hls as [[Hx Hne] Hls].
    assert (Etext : text = (pre ++ l ++ crlf) ++ x ++ 13 :: 10 ::
      crlf_lines ls ++ 13 :: 10 :: body).
    { subst text. cbn [crlf_lines]. unfold crlf. rewrite <- ?app_assoc. cbn [app]. rewrite <- ?app_assoc. done. }
    assert (Elast : last = (length l + 2 + (length x +
      length (crlf_lines ls)))%nat).
    { subst last. cbn [crlf_lines]. rewrite !length_app. cbn [length crlf]. lia. }
    replace n with ((length l + 2) + (n - (length l + 2)))%nat by lia.
    rewrite find_first_app.
    rewrite (proj2 (find_first_none _ (length pre) (length l + 2))).
    + replace (length pre + (length l + 2))%nat with (length (pre ++ l ++ crlf))
        by (rewrite !length_app; cbn [length crlf]; lia).
      rewrite Etext. rewrite IH; [|by rewrite <- Etext|done|done|lia].
      f_equal. rewrite !length_app. cbn [length crlf]. lia.
    + intros i Hi. unfold is_crlfcrlf. destruct (decide (i < length pre + length l)%nat).
      * replace i with (length pre + (i - length pre))%nat by lia. unfold text.
        rewrite rd_mid by lia.
        by rewrite (proj2 (Z.eqb_neq _ _)) by (apply lacks_rd; [done|lia]).
      * destruct (decide (i = length pre + length l)%nat) as [->|].
        -- assert (Hx0 : rd text (length pre + length l + 2) <> 13).
           { rewrite Etext. replace (length pre + length l + 2)%nat
               with (length (pre ++ l ++ crlf) + 0)%nat by (rewrite !length_app; cbn [length crlf]; lia).
             destruct x as [|x0 x]; [done|]. rewrite rd_mid by (cbn; lia).
             apply (lacks_rd 13 (x0 :: x) 0); [done|cbn; lia]. }
           rewrite (proj2 (Z.eqb_neq _ _) Hx0). rewrite !andb_false_r. done.
        -- replace i with (length pre + length l + 1)%nat by lia.
           assert (H10 : rd text (length pre + length l + 1) = 10).
           { unfold text. rewrite app_assoc.
             rewrite <- (length_app pre l).
             change (13 :: 10 :: ?r) with (crlf ++ r).
             by rewrite rd_mid by (cbn; lia). }
           by rewrite H10.
Qed.

(** ** Properties *)

(** the 8-byte SWAR search, the CRLF search and the blank-line search all
    return the first occurrence in their range and NULL when there is none:
    the word trick misses no byte and hopping between carriage returns skips no
    match. *)
Theorem delimiter_search_correct buf off len c :
  bytes_ok buf -> is_u8 c ->
  find_char buf off len c = find_first (is_char buf c) off len /\
  find_crlf buf off len = find_first (is_crlf buf) off (len - 1) /\
  find_crlfcrlf buf off len = find_first (is_crlfcrlf buf) off (len - 3).
Proof.
  intros Hb Hc. split; [by apply find_char_scan|].
  split; [by apply find_crlf_scan|by apply find_crlfcrlf_scan].
Qed.

Lemma delimiter_search_correct_witness :
  let buf := bs "GET /some/long/path HTTP/1.1" ++ [13; 13; 10; 13; 10] in
  find_char buf 4 25 32 = Some 19%nat /\
  find_crlfcrlf buf 0 33 = find_first (is_crlfcrlf buf) 0 30.
Proof.
  intros buf. split; [vm_compute; reflexivity|].
  apply (delimiter_search_correct buf 0 33 13); [|unfold is_u8; lia].
  apply bytes_okb_ok. vm_compute. reflexivity.
Defined.
