(* ===== verification/Http1.v ===== *)
(** * HTTP/1.1 requests and headers (src/src/net/http/http.c)

    Method tokens, the header list, the request parser with its request
    smuggling defences, and the error responder.

    Pointers into the raw request are offsets.  A header list is a Rocq list
    with the node [*head] first, so the last line parsed is its head.  Each
    string or node the code allocates takes one outcome of the oracle (true:
    the arena or the heap could serve it). *)

From S2P Require Import Prelude SipHash QueryMap SimdParser.

(** ** Methods *)

Inductive http_method : Type :=
| HTTP_GET | HTTP_POST | HTTP_PUT | HTTP_DELETE | HTTP_PATCH | HTTP_HEAD
| HTTP_OPTIONS | HTTP_CONNECT | HTTP_UNKNOWN.
#[export] Instance http_method_eq_dec : EqDecision http_method.
Proof. solve_decision. Defined.

Definition method_to_string (m : http_method) : bytes :=
  match m with
  | HTTP_GET => bs "GET" | HTTP_POST => bs "POST" | HTTP_PUT => bs "PUT"
  | HTTP_DELETE => bs "DELETE" | HTTP_PATCH => bs "PATCH" | HTTP_HEAD => bs "HEAD"
  | HTTP_OPTIONS => bs "OPTIONS" | HTTP_CONNECT => bs "CONNECT" | HTTP_UNKNOWN => bs "UNKNOWN"
  end.

(** [MAKE_MAGIC4] of a four-character token. *)
Definition MAKE_MAGIC4 (s : bytes) : Z := le_load s 0 4.

(** [memcmp(str, lit, strlen(lit)) == 0] at [off]. *)
Definition mem_is (buf : bytes) (off : nat) (lit : bytes) : bool :=
  bool_decide (sub buf off (length lit) = lit).

(** The exact-length comparisons after the fast path. *)
Definition string_to_method_exact (buf : bytes) (off len : nat) : http_method :=
  if (len =? 3)%nat then
    let v := le_load buf off 3 in
    if Z.land v 16777215 =? 5522759 then HTTP_GET
    else if Z.land v 16777215 =? 5526864 then HTTP_PUT
    else HTTP_UNKNOWN
  else if (len =? 4)%nat then
    let v := le_load buf off 4 in
    if v =? 1414745936 then HTTP_POST
    else if v =? 1145128264 then HTTP_HEAD
    else HTTP_UNKNOWN
  else if (len =? 5)%nat then
    if mem_is buf off (bs "PATCH") then HTTP_PATCH else HTTP_UNKNOWN
  else if (len =? 6)%nat then
    if mem_is buf off (bs "DELETE") then HTTP_DELETE else HTTP_UNKNOWN
  else if (len =? 7)%nat then
    if mem_is buf off (bs "OPTIONS") then HTTP_OPTIONS else HTTP_UNKNOWN
  else HTTP_UNKNOWN.

(** [cwist_http_string_to_method_len]: [buf] holds the token at [off] and
    whatever follows it (the fast path loads four bytes). *)
Definition string_to_method_len (buf : bytes) (off len : nat) : http_method :=
  if (len =? 0)%nat then HTTP_UNKNOWN
  else if (3 <=? len)%nat then
    let m := le_load buf off 4 in
    if m =? MAKE_MAGIC4 (bs "GET ") then HTTP_GET
    else if m =? MAKE_MAGIC4 (bs "POST") then HTTP_POST
    else if m =? MAKE_MAGIC4 (bs "PUT ") then HTTP_PUT
    else if (m =? MAKE_MAGIC4 (bs "DELE")) && ((6 <=? len)%nat && mem_is buf off (bs "DELETE"))
    then HTTP_DELETE
    else if (m =? MAKE_MAGIC4 (bs "HEAD")) && (len =? 4)%nat then HTTP_HEAD
    else string_to_method_exact buf off len
  else string_to_method_exact buf off len.

(** [cwist_http_string_to_method] on a NUL-terminated string. *)
Definition string_to_method (s : bytes) : http_method :=
  string_to_method_len (s ++ [0]) 0 (length s).

(** ** Header lists *)

Abbreviation header := (bytes * bytes)%type.

(** An error reported as a JSON object, seen by [cwist_error_is_ok]: without
    memory for the object it counts as success. *)
Definition json_error_is_ok (o : oracle) : bool * oracle :=
  let '(json, o) := alloc o in (negb json, o).

(** One of a node's two strings: is it taken for assigned, and its bytes
    (none without a buffer). *)
Definition header_string (data : bytes) (o : oracle) : bool * bytes * oracle :=
  match alloc o with
  | (true, o) => (true, data, o)
  | (false, o) =>
      match data with
      | [] => (true, [], o)
      | _ => let '(ok, o) := json_error_is_ok o in (ok, [], o)
      end
  end.

(** [cwist_http_header_add_ex_len]: the list, and what [cwist_error_is_ok] says
    of the result.  The node, its two strings, their two buffers. *)
Definition header_add_ex_len (head : list header) (key value : bytes) (o : oracle)
    : list header * bool * oracle :=
  let '(node, o) := alloc o in
  if negb node then let '(ok, o) := json_error_is_ok o in (head, ok, o) else
  let '(k, o) := alloc o in
  let '(v, o) := alloc o in
  let '(ok, key, o) := if k && v then header_string key o else (false, [], o) in
  let '(ok, value, o) := if (ok : bool) then header_string value o else (false, [], o) in
  if (ok : bool) then ((key, value) :: head, true, o)
  else let '(ok, o) := json_error_is_ok o in (head, ok, o).

(** No CR and no LF; NULL is safe. *)
Definition header_text_is_safe (text : option bytes) : bool :=
  match text with
  | None => true
  | Some t => forallb (fun b => negb ((b =? 13) || (b =? 10))) t
  end.

Inductive header_error : Type := HdrRejected | HdrNoMemory.

(** [cwist_http_header_add] (and, on a response, [cwist_http_response_header_add]):
    [inr] is what [cwist_error_is_ok] takes for success. *)
Definition header_add (head : list header) (key value : option bytes) (o : oracle)
    : (header_error + list header) * oracle :=
  if negb (header_text_is_safe key) || negb (header_text_is_safe value)
  then (inl HdrRejected, o)
  else match header_add_ex_len head (default [] key) (default [] value) o with
       | (l, true, o) => (inr l, o)
       | (_, false, o) => (inl HdrNoMemory, o)
       end.

Fixpoint header_get (head : list header) (key : bytes) : option bytes :=
  match head with
  | [] => None
  | (k, v) :: rest =>
      if (length k =? length key)%nat && case_eq (cstr k) key then Some (cstr v)
      else header_get rest key
  end.

(** The list left by [cwist_http_header_remove], and the number removed. *)
Fixpoint header_remove (head : list header) (key : bytes) : list header * nat :=
  match head with
  | [] => ([], 0%nat)
  | (k, v) :: rest =>
      let '(l, n) := header_remove rest key in
      if case_eq (cstr k) key then (l, S n) else ((k, v) :: l, n)
  end.

(** ** Requests *)

Record http_request : Type := MkRequest {
  req_method : http_method;
  req_path : option bytes;
  req_query : option bytes;
  req_query_params : option query_map;
  req_version : option bytes;
  req_headers : list header;
  req_body : option bytes;
  req_keep_alive : bool;
  req_content_length : Z;
  req_te_chunked_seen : bool;
  req_expect_100_seen : bool
}.
#[export] Instance http_request_fields : Fields http_request := fun r =>
  MkRequest (req_method r) (req_path r) (req_query r) (req_query_params r) (req_version r)
    (req_headers r) (req_body r) (req_keep_alive r) (req_content_length r)
    (req_te_chunked_seen r) (req_expect_100_seen r).

Inductive parse_error : Type :=
| PARSE_EOF | PARSE_MALFORMED | PARSE_HEADER_OVERFLOW | PARSE_BODY_TOO_LARGE
| PARSE_TE_UNSUPPORTED | PARSE_EXPECT_FAILED.

(** [cwist_http_request_create]: version and path borrow their defaults.  One
    outcome stands for the structure and its four empty strings; the source does
    not test the strings, and goes on with NULL for one it found no memory for. *)
Definition http_request_create (o : oracle) : option http_request * oracle :=
  match alloc o with
  | (true, o) => (Some (MkRequest HTTP_GET (Some (bs "/")) None None (Some (bs "HTTP/1.1")) []
                          None true 0 false false), o)
  | (false, o) => (None, o)
  end.

(** [cwist_http_sstring_assign_arena]: an sstring keeps its old contents when
    no memory is found (an empty one then has no buffer at all). *)
Definition sstring_assign_arena (old : option bytes) (data : bytes) (o : oracle)
    : option bytes * oracle :=
  match alloc o with
  | (true, o) => (Some data, o)
  | (false, o) => (match data with [] => None | _ => old end, o)
  end.

(** ** The request line, from offset 0 to [line_end]; [raw_seed] feeds the
    query map's hash seed *)

Definition request_line_fast (raw : bytes) (line_end : nat) : bool :=
  mem_is raw 0 (bs "GET / HTTP/1.1") && (line_end =? 14)%nat.

(** Path, query and query parameters of the target [path_start, path_end). *)
Definition request_target (raw_seed raw : bytes) (path_start path_end : nat)
    (req : http_request) (o : oracle) : http_request * oracle :=
  match find_first (is_char raw 63) path_start (path_end - path_start) with
  | Some query_sep =>
      let '(p, o) := sstring_assign_arena req.(req_path)
                       (sub raw path_start (query_sep - path_start)) o in
      let '(q, o) := sstring_assign_arena req.(req_query)
                       (sub raw (query_sep + 1) (path_end - (query_sep + 1))) o in
      let req := req <| req_path := p |> <| req_query := q |> in
      match query_map_create raw_seed o with
      | (None, o) => (req <| req_query_params := None |>, o)
      | (Some m, o) =>
          let '(m, o) :=
            match q with
            | Some q => query_map_parse m (cstr q) o
            | None => (m, o)
            end in
          (req <| req_query_params := Some m |>, o)
      end
  | None =>
      let '(p, o) := sstring_assign_arena req.(req_path)
                       (sub raw path_start (path_end - path_start)) o in
      let '(q, o) := sstring_assign_arena req.(req_query) [] o in
      (req <| req_path := p |> <| req_query := q |>, o)
  end.

Definition parse_request_line (raw_seed raw : bytes) (line_end : nat) (req : http_request)
    (o : oracle) : (parse_error + http_request) * oracle :=
  if request_line_fast raw line_end then
    (inr (req <| req_method := HTTP_GET |> <| req_path := Some (bs "/") |>
              <| req_query := Some [] |> <| req_version := Some (bs "HTTP/1.1") |>
              <| req_keep_alive := true |>), o)
  else
    match find_char raw 0 line_end 32 with
    | None => (inl PARSE_MALFORMED, o)
    | Some sp1 =>
        match find_char raw (sp1 + 1) (line_end - (sp1 + 1)) 32 with
        | None => (inl PARSE_MALFORMED, o)
        | Some sp2 =>
            let req := req <| req_method := string_to_method_len raw 0 sp1 |> in
            let '(req, o) := request_target raw_seed raw (sp1 + 1) sp2 req o in
            let '(v, o) := sstring_assign_arena req.(req_version)
                             (sub raw (sp2 + 1) (line_end - (sp2 + 1))) o in
            (inr (req <| req_version := v |>
                      <| req_keep_alive := mem_is raw (sp2 + 1) (bs "HTTP/1.1") |>), o)
        end
    end.

(** ** The header pass *)

Record header_flags : Type := MkFlags {
  has_host : bool; host_dup : bool; host_empty : bool;
  cl_seen : bool; cl_bad : bool; cl_value : Z;
  te_seen : bool; expect_100 : bool; expect_bad : bool;
  hf_keep_alive : bool; hf_content_length : Z
}.
#[export] Instance header_flags_fields : Fields header_flags := fun f =>
  MkFlags (has_host f) (host_dup f) (host_empty f) (cl_seen f) (cl_bad f) (cl_value f)
    (te_seen f) (expect_100 f) (expect_bad f) (hf_keep_alive f) (hf_content_length f).

Definition is_ws (c : Z) : bool := (c =? 32) || (c =? 9).

(** [while (val_start < line_end && *val_start == ' ') val_start++] *)
Fixpoint skip_spaces (l : bytes) : bytes :=
  match l with
  | [] => []
  | c :: l' => if c =? 32 then skip_spaces l' else l
  end.

(** [while (vlen > 0 && (v[vlen-1] == ' ' || v[vlen-1] == '\t')) vlen--] *)
Fixpoint rtrim (l : bytes) : bytes :=
  match l with
  | [] => []
  | c :: l' => match rtrim l' with
               | [] => if is_ws c then [] else [c]
               | t => c :: t
               end
  end.

(** The digit loop of Content-Length: [None] is [!valid]. *)
Fixpoint parse_digits (v : bytes) (len : Z) : option Z :=
  match v with
  | [] => Some len
  | c :: v' =>
      if isdigit c then
        if (SIZE_MAX - 9) / 10 <? len then None
        else parse_digits v' (u64 (u64 (len * 10) + (c - 48)))
      else None
  end.

(** The SWAR test of "connection": ORing 0x20 into every byte. *)
Definition is_connection (key : bytes) : bool :=
  (Z.lor (le_load key 0 8) 2314885530818453536 =? 7598807758576447331) &&
  (Z.lor (le_load key 8 2) 8224 =? 28271).

Definition note_connection (val : bytes) (f : header_flags) : header_flags :=
  if (length val =? 5)%nat && ((rd val 0 =? 99) || (rd val 0 =? 67)) then
    if case_eq val (bs "close") then f <| hf_keep_alive := false |> else f
  else if (length val =? 10)%nat && ((rd val 0 =? 107) || (rd val 0 =? 75))
  then if case_eq val (bs "keep-alive") then f <| hf_keep_alive := true |> else f
  else f.

Definition note_content_length (val : bytes) (f : header_flags) : header_flags :=
  match rtrim val with
  | [] => f <| cl_bad := true |>
  | v =>
      match parse_digits v 0 with
      | None => f <| cl_bad := true |>
      | Some len =>
          let f := if f.(cl_seen) && negb (f.(cl_value) =? len)
                   then f <| cl_bad := true |> else f in
          f <| cl_seen := true |> <| cl_value := len |> <| hf_content_length := len |>
      end
  end.

Definition note_host (val : bytes) (f : header_flags) : header_flags :=
  let f := if f.(has_host) then f <| host_dup := true |> else f in
  let f := f <| has_host := true |> in
  match rtrim val with
  | [] => f <| host_empty := true |>
  | _ => f
  end.

Definition note_expect (val : bytes) (f : header_flags) : header_flags :=
  if case_eq (rtrim val) (bs "100-continue") then f <| expect_100 := true |>
  else f <| expect_bad := true |>.

(** The chain of tests on a recorded header: length and first letter, then the
    name. *)
Definition note_header (key val : bytes) (f : header_flags) : header_flags :=
  let k0 := rd key 0 in
  if (length key =? 10)%nat && ((k0 =? 67) || (k0 =? 99)) then
    if is_connection key then note_connection val f else f
  else if (length key =? 14)%nat && ((k0 =? 67) || (k0 =? 99)) then
    if case_eq key (bs "Content-Length") then note_content_length val f else f
  else if (length key =? 4)%nat && ((k0 =? 72) || (k0 =? 104)) then
    if case_eq key (bs "Host") then note_host val f else f
  else if (length key =? 17)%nat && ((k0 =? 84) || (k0 =? 116)) then
    if case_eq key (bs "Transfer-Encoding") then f <| te_seen := true |> else f
  else if (length key =? 6)%nat && ((k0 =? 69) || (k0 =? 101)) then
    if case_eq key (bs "Expect") then note_expect val f else f
  else f.

(** One line [line_start, line_end) of the loop. *)
Definition header_line (raw : bytes) (line_start line_end : nat) (hs : list header)
    (f : header_flags) (o : oracle) : (parse_error + list header * header_flags) * oracle :=
  match find_char raw line_start (line_end - line_start) 58 with
  | None => (inr (hs, f), o)
  | Some colon =>
      let key := sub raw line_start (colon - line_start) in
      if (0 <? length key)%nat && is_ws (rd key (length key - 1))
      then (inl PARSE_MALFORMED, o)
      else
        let val := skip_spaces (sub raw (colon + 1) (line_end - (colon + 1))) in
        match header_add_ex_len hs key val o with
        | (_, false, o) => (inl PARSE_EOF, o)
        | (hs, true, o) => (inr (hs, note_header key val f), o)
        end
  end.

Fixpoint header_loop (fuel : nat) (raw : bytes) (line_start header_end : nat)
    (hs : list header) (f : header_flags) (o : oracle)
    : (parse_error + list header * header_flags) * oracle :=
  match fuel with
  | O => (inr (hs, f), o)
  | S fuel =>
      if (header_end <=? line_start)%nat then (inr (hs, f), o) else
      match find_crlf raw line_start (header_end + 2 - line_start) with
      | None => (inr (hs, f), o)
      | Some line_end =>
          if (line_end =? line_start)%nat then (inr (hs, f), o) else
          match header_line raw line_start line_end hs f o with
          | (inl e, o) => (inl e, o)
          | (inr (hs, f), o) => header_loop fuel raw (line_end + 2) header_end hs f o
          end
      end
  end.

(** ** Transfer-Encoding: the codings of one field value, then the list *)

(** The comma-separated token loop over a C string: (any_token, last_chunked,
    bad_coding). *)
Definition is_sep (c : Z) : bool := (c =? 32) || (c =? 9) || (c =? 44).

Fixpoint skip_seps (p : bytes) : bytes :=
  match p with
  | [] => []
  | c :: p' => if is_sep c then skip_seps p' else p
  end.

Fixpoint te_tokens (fuel : nat) (p : bytes) (acc : bool * bool * bool) : bool * bool * bool :=
  match fuel with
  | O => acc
  | S fuel =>
      match p with
      | [] => acc
      | _ =>
          let '(tok, rest) := cut 44 (skip_seps p) in
          match rtrim tok with
          | [] => te_tokens fuel (default [] rest) acc
          | t =>
              let '(_, _, bad) := acc in
              let chunked := case_eq t (bs "chunked") in
              te_tokens fuel (default [] rest) (true, chunked, bad || negb chunked)
          end
      end
  end.

Fixpoint te_walk (hs : list header) (seen final bad : bool) : bool * bool * bool :=
  match hs with
  | [] => (seen, final, bad)
  | (k, v) :: rest =>
      if case_eq (cstr k) (bs "Transfer-Encoding") then
        let '(any, last, bad) := te_tokens (S (length v)) (cstr v) (false, false, bad) in
        te_walk rest true (if seen then final else any && last) bad
      else te_walk rest seen final bad
  end.

(** [http_validate_transfer_encoding]: 0, 1 or 2. *)
Definition validate_transfer_encoding (hs : list header) : Z :=
  let '(seen, final_is_chunked, bad_coding) := te_walk hs false false false in
  if negb seen then 0
  else if negb final_is_chunked then 1
  else if bad_coding then 2
  else 0.

(** ** The parser *)

Definition is_http11 (version : option bytes) : bool :=
  match version with
  | Some v => mem_is v 0 (bs "HTTP/1.1")
  | None => false
  end.

(** The checks after the header pass. *)
Definition check_headers (is11 : bool) (hs : list header) (f : header_flags)
    : option parse_error :=
  if is11 && (negb f.(has_host) || f.(host_dup) || f.(host_empty)) then Some PARSE_MALFORMED
  else if f.(cl_bad) then Some PARSE_MALFORMED
  else
    let te :=
      if f.(te_seen) then
        if f.(cl_seen) then Some PARSE_MALFORMED
        else
          let tev := validate_transfer_encoding hs in
          if negb (tev =? 0)
          then Some (if tev =? 1 then PARSE_MALFORMED else PARSE_TE_UNSUPPORTED)
          else None
      else None in
    match te with
    | Some e => Some e
    | None => if f.(expect_bad) then Some PARSE_EXPECT_FAILED else None
    end.

Definition take_body (raw : bytes) (header_end : nat) (req : http_request) (o : oracle)
    : http_request * oracle :=
  let body_start := (header_end + 4)%nat in
  let available := (length raw - body_start)%nat in
  if (0 <? available)%nat then
    let to_take :=
      if (0 <? req.(req_content_length)) && (req.(req_content_length) <? Z.of_nat available)
      then Z.to_nat req.(req_content_length) else available in
    let '(b, o) := sstring_assign_arena req.(req_body) (sub raw body_start to_take) o in
    (req <| req_body := b |>, o)
  else (req, o).

(** [cwist_http_parse_request_with_header_end], non-NULL arguments. *)
Definition parse_request_with_header_end (raw_seed raw : bytes) (header_end : nat) (o : oracle)
    : (parse_error + http_request) * oracle :=
  match find_crlf raw 0 (header_end + 2) with
  | None => (inl PARSE_MALFORMED, o)
  | Some line_end =>
      if (header_end <? line_end)%nat then (inl PARSE_MALFORMED, o) else
      match http_request_create o with
      | (None, o) => (inl PARSE_EOF, o)
      | (Some req, o) =>
          match parse_request_line raw_seed raw line_end req o with
          | (inl e, o) => (inl e, o)
          | (inr req, o) =>
              let f0 := MkFlags false false false false false 0 false false false
                          req.(req_keep_alive) req.(req_content_length) in
              match header_loop (S (length raw)) raw (line_end + 2) header_end
                      req.(req_headers) f0 o with
              | (inl e, o) => (inl e, o)
              | (inr (hs, f), o) =>
                  match check_headers (is_http11 req.(req_version)) hs f with
                  | Some e => (inl e, o)
                  | None =>
                      let req :=
                        req <| req_headers := hs |> <| req_keep_alive := f.(hf_keep_alive) |>
                            <| req_content_length := f.(hf_content_length) |>
                            <| req_te_chunked_seen := f.(te_seen) |>
                            <| req_expect_100_seen := f.(expect_100) |> in
                      let '(req, o) := take_body raw header_end req o in
                      (inr req, o)
                  end
              end
          end
      end
  end.

(** [cwist_http_parse_request_len]; [cwist_http_parse_request] is the same on a
    C string. *)
Definition parse_request_len (raw_seed raw : bytes) (o : oracle)
    : (parse_error + http_request) * oracle :=
  match find_crlfcrlf raw 0 (length raw) with
  | None => (inl PARSE_EOF, o)
  | Some header_end => parse_request_with_header_end raw_seed raw header_end o
  end.

(** ** Status lines and the error responder *)

Definition status_reasons : list (Z * bytes) :=
  [ (100, bs "Continue"); (101, bs "Switching Protocols");
    (102, bs "Processing"); (103, bs "Early Hints");
    (200, bs "OK"); (201, bs "Created");
    (202, bs "Accepted"); (203, bs "Non-Authoritative Information");
    (204, bs "No Content"); (205, bs "Reset Content");
    (206, bs "Partial Content"); (207, bs "Multi-Status");
    (208, bs "Already Reported"); (226, bs "IM Used");
    (300, bs "Multiple Choices"); (301, bs "Moved Permanently");
    (302, bs "Found"); (303, bs "See Other");
    (304, bs "Not Modified"); (305, bs "Use Proxy");
    (307, bs "Temporary Redirect"); (308, bs "Permanent Redirect");
    (400, bs "Bad Request"); (401, bs "Unauthorized");
    (402, bs "Payment Required"); (403, bs "Forbidden");
    (404, bs "Not Found"); (405, bs "Method Not Allowed");
    (406, bs "Not Acceptable"); (407, bs "Proxy Authentication Required");
    (408, bs "Request Timeout"); (409, bs "Conflict");
    (410, bs "Gone"); (411, bs "Length Required");
    (412, bs "Precondition Failed"); (413, bs "Content Too Large");
    (414, bs "URI Too Long"); (415, bs "Unsupported Media Type");
    (416, bs "Range Not Satisfiable"); (417, bs "Expectation Failed");
    (418, bs "I'm a Teapot"); (421, bs "Misdirected Request");
    (422, bs "Unprocessable Content"); (423, bs "Locked");
    (424, bs "Failed Dependency"); (425, bs "Too Early");
    (426, bs "Upgrade Required"); (428, bs "Precondition Required");
    (429, bs "Too Many Requests"); (431, bs "Request Header Fields Too Large");
    (451, bs "Unavailable For Legal Reasons"); (500, bs "Internal Server Error");
    (501, bs "Not Implemented"); (502, bs "Bad Gateway");
    (503, bs "Service Unavailable"); (504, bs "Gateway Timeout");
    (505, bs "HTTP Version Not Supported"); (506, bs "Variant Also Negotiates");
    (507, bs "Insufficient Storage"); (508, bs "Loop Detected");
    (510, bs "Not Extended"); (511, bs "Network Authentication Required") ].

(** [cwist_http_status_reason]; NULL for unknown codes. *)
Definition status_reason (status : Z) : option bytes :=
  snd <$> find (fun e => fst e =? status) status_reasons.

(** [cwist_http_send_error_response]: what the one [sendmsg] call writes; the
    header is formatted into a 256-byte buffer and nothing is sent when it does
    not fit. *)
Definition error_header (status : Z) (reason : bytes) (msg_len : Z) : bytes :=
  bs "HTTP/1.1 " ++ dec_signed status ++ bs " " ++ reason ++ crlf ++
  bs "Content-Type: text/plain" ++ crlf ++ bs "Content-Length: " ++ dec msg_len ++ crlf ++
  bs "Connection: close" ++ crlf ++ crlf.

Definition send_error_response (fd status : Z) (msg : option bytes) : option bytes :=
  if fd <? 0 then None else
  let reason := default (bs "Error") (status_reason status) in
  let msg := default reason msg in
  let buf := error_header status reason (blen msg) in
  if 256 <=? blen buf then None else Some (buf ++ msg).

(** ** Lemmas: header names *)

Lemma case_eq_length a b : case_eq a b = true -> length a = length b.
Proof.
  unfold case_eq. intros H%bool_decide_eq_true. apply (f_equal length) in H.
  by rewrite !length_map in H.
Qed.

Lemma case_eq_first a b :
  case_eq a b = true -> a <> [] -> tolower (rd a 0) = tolower (rd b 0).
Proof.
  unfold case_eq. intros H%bool_decide_eq_true Ha. destruct a as [|x a]; [done|].
  destruct b as [|y b]; [done|]. by injection H.
Qed.

Lemma case_eq_refl a : case_eq a a = true.
Proof. by apply bool_decide_eq_true. Qed.

Lemma case_eq_trans a b c : case_eq a b = true -> case_eq a c = case_eq b c.
Proof. unfold case_eq. intros H%bool_decide_eq_true. by rewrite H. Qed.

(** The length and first-letter filters never decide differently from the name. *)
Lemma note_header_spec key val f :
  note_header key val f =
  if case_eq key (bs "Content-Length") then note_content_length val f
  else if case_eq key (bs "Host") then note_host val f
  else if case_eq key (bs "Transfer-Encoding") then f <| te_seen := true |>
  else if case_eq key (bs "Expect") then note_expect val f
  else if (length key =? 10)%nat && ((rd key 0 =? 67) || (rd key 0 =? 99)) && is_connection key
  then note_connection val f
  else f.
Proof.
  assert (Hk : forall lit n a, case_eq key lit = true -> length lit = n ->
    tolower (rd lit 0) = a -> n <> 0%nat -> 97 <= a <= 122 ->
    length key = n /\ (rd key 0 =? a - 32) || (rd key 0 =? a) = true).
  { intros lit n a H Hn Ha Hn0 Hr. pose proof (case_eq_length _ _ H).
    split; [congruence|]. assert (Hne : key <> []) by (intros ->; simpl in *; lia).
    pose proof (case_eq_first _ _ H Hne) as Hf. rewrite Ha in Hf. unfold tolower in Hf.
    destruct ((65 <=? rd key 0) && (rd key 0 <=? 90)) eqn:E; lia. }
  unfold note_header.
  destruct (case_eq key (bs "Content-Length")) eqn:E1.
  { destruct (Hk _ 14%nat 99 E1) as [-> Hf]; try done. cbn [Nat.eqb andb] in *.
    change (99 - 32) with 67 in Hf. by rewrite Hf. }
  destruct (case_eq key (bs "Host")) eqn:E2.
  { destruct (Hk _ 4%nat 104 E2) as [-> Hf]; try done. cbn [Nat.eqb andb] in *.
    change (104 - 32) with 72 in Hf. by rewrite Hf. }
  destruct (case_eq key (bs "Transfer-Encoding")) eqn:E3.
  { destruct (Hk _ 17%nat 116 E3) as [-> Hf]; try done. cbn [Nat.eqb andb] in *.
    change (116 - 32) with 84 in Hf. by rewrite Hf. }
  destruct (case_eq key (bs "Expect")) eqn:E4.
  { destruct (Hk _ 6%nat 101 E4) as [-> Hf]; try done. cbn [Nat.eqb andb] in *.
    change (101 - 32) with 69 in Hf. by rewrite Hf. }
  destruct ((length key =? 10)%nat && _); [by destruct (is_connection key)|].
  cbn [andb]. by repeat (destruct ((_ =? _)%nat && _); [done|]).
Qed.

(** Byte by byte, ORing 0x20 is a case-insensitive comparison with a letter. *)
Lemma lor32_lower b c :
  is_u8 b -> 97 <= c <= 122 -> (Z.lor b 32 =? c) = (tolower b =? c).
Proof.
  intros Hb Hc.
  assert (Hall : forallb (fun b => forallb (fun c =>
    Bool.eqb (Z.lor b 32 =? c) (tolower b =? c)) (seqZ 97 26)) (seqZ 0 256) = true)
    by (vm_compute; reflexivity).
  rewrite forallb_forall in Hall. specialize (Hall b).
  rewrite forallb_forall in Hall. apply Bool.eqb_prop, Hall.
  - apply list_elem_of_In, elem_of_seqZ. unfold is_u8 in Hb. lia.
  - apply list_elem_of_In, elem_of_seqZ. lia.
Qed.

Lemma horner_inj a A c C :
  0 <= a < 256 -> 0 <= c < 256 -> (a + 256 * A =? c + 256 * C) = (a =? c) && (A =? C).
Proof. intros. destruct (Z.eqb_spec a c), (Z.eqb_spec A C); simpl; lia. Qed.

(** The 8+2 byte SWAR test is the case-insensitive name test. *)
Lemma is_connection_spec key :
  bytes_ok key -> length key = 10%nat -> is_connection key = case_eq key (bs "Connection").
Proof.
  intros Hb Hl. do 10 (destruct key as [|? key]; [done|]). destruct key; [|done].
  unfold is_connection, case_eq. cbn [le_load rd nth].
  repeat (apply Forall_cons_1 in Hb as [? Hb]). clear Hb Hl.
  change 2314885530818453536 with (32 + 256 * (32 + 256 * (32 + 256 * (32 + 256 * (32 + 256 *
    (32 + 256 * (32 + 256 * (32 + 256 * 0)))))))).
  change 8224 with (32 + 256 * (32 + 256 * 0)).
  change 7598807758576447331 with (99 + 256 * (111 + 256 * (110 + 256 * (110 + 256 * (101 + 256 *
    (99 + 256 * (116 + 256 * (105 + 256 * 0)))))))).
  change 28271 with (111 + 256 * (110 + 256 * 0)).
  rewrite !lor_byte by (first [assumption | lia]).
  assert (Hu : forall b, is_u8 b -> 0 <= Z.lor b 32 < 256).
  { intros b Hb.
    assert (Hall : forallb (fun b => (0 <=? Z.lor b 32) && (Z.lor b 32 <? 256)) (seqZ 0 256) = true)
      by (vm_compute; reflexivity).
    rewrite forallb_forall in Hall. specialize (Hall b).
    assert (In b (seqZ 0 256)) by (apply list_elem_of_In, elem_of_seqZ; unfold is_u8 in Hb; lia).
    specialize (Hall ltac:(assumption)). lia. }
  rewrite !horner_inj by (first [apply Hu; assumption | lia]).
  rewrite !lor32_lower by (first [assumption | lia]). rewrite Z.lor_0_l. cbn [Z.eqb].
  cbn [map bs list_ascii_of_string].
  destruct (bool_decide _) eqn:E.
  - apply bool_decide_eq_true in E. injection E as -> -> -> -> -> -> -> -> -> ->. reflexivity.
  - apply bool_decide_eq_false in E. apply not_true_iff_false. intros Hc. apply E.
    rewrite !andb_true_iff, !Z.eqb_eq in Hc.
    destruct Hc as [(-> & -> & -> & -> & -> & -> & -> & -> & _) (-> & -> & _)]. reflexivity.
Qed.

(** ** Lemmas: what the flags say about the recorded headers *)

(** The recorded fields of a name, as a recipient reading the list sees them. *)
Definition named (n : bytes) (hs : list header) : list bytes :=
  snd <$> filter (fun h => case_eq h.1 n = true) hs.

Lemma named_cons n k v hs :
  named n ((k, v) :: hs) = (if case_eq k n then [v] else []) ++ named n hs.
Proof.
  unfold named. rewrite filter_cons. cbn [fst]. destruct (case_eq k n) eqn:E.
  - by rewrite decide_True by done.
  - by rewrite decide_False by done.
Qed.

Lemma parse_digits_exact v : forall acc n,
  is_u64 acc -> parse_digits v acc = Some n ->
  Forall (fun c => isdigit c = true) v /\ n = digits_value v acc /\ is_u64 n.
Proof.
  induction v as [|c v IH]; intros acc n Ha; cbn [parse_digits digits_value].
  - intros [= <-]. by split; [constructor|].
  - destruct (isdigit c) eqn:Ed; [|done].
    destruct (Z.ltb_spec ((SIZE_MAX - 9) / 10) acc); [done|].
    assert (Hc : 48 <= c <= 57) by (unfold isdigit in Ed; lia).
    change ((SIZE_MAX - 9) / 10) with 1844674407370955160 in *.
    unfold is_u64 in Ha.
    assert (H1 : is_u64 (acc * 10)) by (unfold is_u64; lia).
    assert (H2 : is_u64 (acc * 10 + (c - 48))) by (unfold is_u64; lia).
    rewrite (u64_id _ H1), (u64_id _ H2). intros H'. destruct (IH _ n H2 H') as (? & ? & ?).
    split; [by constructor|]. done.
Qed.

Definition flags0 (ka : bool) (cl : Z) : header_flags :=
  MkFlags false false false false false 0 false false false ka cl.

Record flags_ok (hs : list header) (f : header_flags) : Prop := {
  fo_host : f.(has_host) = negb (bool_decide (named (bs "Host") hs = []));
  fo_dup : f.(host_dup) = (1 <? length (named (bs "Host") hs))%nat;
  fo_empty : f.(host_empty) = existsb (fun v => bool_decide (rtrim v = [])) (named (bs "Host") hs);
  fo_cl_seen : f.(cl_bad) = false ->
    f.(cl_seen) = negb (bool_decide (named (bs "Content-Length") hs = []));
  fo_cl : f.(cl_bad) = false ->
    Forall (fun v => rtrim v <> [] /\ parse_digits (rtrim v) 0 = Some f.(hf_content_length))
      (named (bs "Content-Length") hs);
  fo_cl_same : f.(cl_bad) = false -> f.(cl_seen) = true -> f.(cl_value) = f.(hf_content_length);
  fo_cl_zero : f.(cl_seen) = false -> f.(hf_content_length) = 0;
  fo_te : f.(te_seen) = negb (bool_decide (named (bs "Transfer-Encoding") hs = []));
  fo_expect : f.(expect_bad) = false ->
    Forall (fun v => case_eq (rtrim v) (bs "100-continue") = true) (named (bs "Expect") hs);
  fo_expect_seen : f.(expect_bad) = false ->
    f.(expect_100) = negb (bool_decide (named (bs "Expect") hs = []))
}.

Ltac flag_fields :=
  unfold set_field; cbn [has_host host_dup host_empty cl_seen cl_bad cl_value te_seen expect_100
    expect_bad hf_keep_alive hf_content_length].

Lemma flags0_ok ka : flags_ok [] (flags0 ka 0).
Proof. constructor; try done; intros; constructor. Qed.

(** Only one of the four names can match. *)
Lemma case_eq_other k a b :
  case_eq k a = true -> length a <> length b -> case_eq k b = false.
Proof.
  intros H Hl. apply not_true_iff_false. intros H'.
  apply case_eq_length in H, H'. congruence.
Qed.

(** A header with none of the four names changes nothing the checks read. *)
Lemma flags_ok_skip k v hs f :
  case_eq k (bs "Content-Length") = false -> case_eq k (bs "Host") = false ->
  case_eq k (bs "Transfer-Encoding") = false -> case_eq k (bs "Expect") = false ->
  flags_ok hs f -> flags_ok ((k, v) :: hs) f.
Proof.
  intros E1 E2 E3 E4 [].
  constructor; rewrite ?named_cons, ?E1, ?E2, ?E3, ?E4; done.
Qed.

Lemma flags_ok_ka hs f b : flags_ok hs f -> flags_ok hs (f <| hf_keep_alive := b |>).
Proof. intros []. by constructor. Qed.

Lemma note_connection_ok hs f v : flags_ok hs f -> flags_ok hs (note_connection v f).
Proof.
  intros H. unfold note_connection. repeat case_match; try done; by apply flags_ok_ka.
Qed.

Lemma note_cl_ok k v hs f :
  case_eq k (bs "Content-Length") = true ->
  flags_ok hs f -> flags_ok ((k, v) :: hs) (note_content_length v f).
Proof.
  intros E Hok. assert (E2 : case_eq k (bs "Host") = false) by by apply (case_eq_other _ _ _ E).
  assert (E3 : case_eq k (bs "Transfer-Encoding") = false) by by apply (case_eq_other _ _ _ E).
  assert (E4 : case_eq k (bs "Expect") = false) by by apply (case_eq_other _ _ _ E).
  destruct Hok as [H1 H2 H3 H4 H5 H6 H7 H8 H9 H10].
  assert (Hbad : forall f', f' = f <| cl_bad := true |> -> flags_ok ((k, v) :: hs) f').
  { intros f' ->. constructor; rewrite ?named_cons, ?E, ?E2, ?E3, ?E4; flag_fields; done. }
  unfold note_content_length. destruct (rtrim v) as [|c t] eqn:Et; [by apply Hbad|].
  destruct (parse_digits (c :: t) 0) as [n|] eqn:Ep; [|by apply Hbad].
  destruct (f.(cl_seen) && negb (f.(cl_value) =? n)) eqn:Em.
  - constructor; rewrite ?named_cons, ?E, ?E2, ?E3, ?E4; flag_fields; done.
  - constructor; rewrite ?named_cons, ?E, ?E2, ?E3, ?E4; flag_fields; try done.
    intros Hb. simpl. constructor; [by rewrite Et|].
    specialize (H5 Hb). specialize (H4 Hb). specialize (H6 Hb).
    destruct (f.(cl_seen)) eqn:Es.
    + assert (n = f.(hf_content_length)) as -> by (cbn [andb negb] in Em; specialize (H6 eq_refl);
        destruct (Z.eqb_spec f.(cl_value) n); [congruence|done]). done.
    + symmetry in H4. apply negb_false_iff, bool_decide_eq_true in H4. rewrite H4. constructor.
Qed.

Lemma note_host_ok k v hs f :
  case_eq k (bs "Host") = true -> flags_ok hs f -> flags_ok ((k, v) :: hs) (note_host v f).
Proof.
  intros E Hok.
  assert (E2 : case_eq k (bs "Content-Length") = false) by by apply (case_eq_other _ _ _ E).
  assert (E3 : case_eq k (bs "Transfer-Encoding") = false) by by apply (case_eq_other _ _ _ E).
  assert (E4 : case_eq k (bs "Expect") = false) by by apply (case_eq_other _ _ _ E).
  destruct Hok as [H1 H2 H3 H4 H5 H6 H7 H8 H9 H10]. unfold note_host.
  destruct (f.(has_host)) eqn:Eh.
  - symmetry in H1. apply negb_true_iff, bool_decide_eq_false in H1.
    destruct (rtrim v) as [|c t] eqn:Et;
      (constructor; rewrite ?named_cons, ?E, ?E2, ?E3, ?E4; flag_fields; try done;
       [by destruct (named (bs "Host") hs)
       | cbn [existsb app]; rewrite Et, ?H3; done]).
  - symmetry in H1. apply negb_false_iff, bool_decide_eq_true in H1. rewrite H1 in H2, H3.
    destruct (rtrim v) as [|c t] eqn:Et;
      (constructor; rewrite ?named_cons, ?E, ?E2, ?E3, ?E4, ?H1; flag_fields; try done;
       cbn [existsb app]; rewrite Et; done).
Qed.

Lemma note_expect_ok k v hs f :
  case_eq k (bs "Expect") = true -> flags_ok hs f -> flags_ok ((k, v) :: hs) (note_expect v f).
Proof.
  intros E Hok.
  assert (E2 : case_eq k (bs "Content-Length") = false) by by apply (case_eq_other _ _ _ E).
  assert (E3 : case_eq k (bs "Transfer-Encoding") = false) by by apply (case_eq_other _ _ _ E).
  assert (E4 : case_eq k (bs "Host") = false) by by apply (case_eq_other _ _ _ E).
  destruct Hok as [H1 H2 H3 H4 H5 H6 H7 H8 H9 H10]. unfold note_expect.
  destruct (case_eq (rtrim v) (bs "100-continue")) eqn:Ec;
    (constructor; rewrite ?named_cons, ?E, ?E2, ?E3, ?E4; flag_fields; try done).
  intros Hb. constructor; [done|by apply H9].
Qed.

Lemma note_te_ok k v hs f :
  case_eq k (bs "Transfer-Encoding") = true ->
  flags_ok hs f -> flags_ok ((k, v) :: hs) (f <| te_seen := true |>).
Proof.
  intros E Hok.
  assert (E2 : case_eq k (bs "Content-Length") = false) by by apply (case_eq_other _ _ _ E).
  assert (E3 : case_eq k (bs "Expect") = false) by by apply (case_eq_other _ _ _ E).
  assert (E4 : case_eq k (bs "Host") = false) by by apply (case_eq_other _ _ _ E).
  destruct Hok. constructor; rewrite ?named_cons, ?E, ?E2, ?E3, ?E4; flag_fields; done.
Qed.

Lemma note_header_ok k v hs f :
  flags_ok hs f -> flags_ok ((k, v) :: hs) (note_header k v f).
Proof.
  intros Hok. rewrite note_header_spec.
  destruct (case_eq k (bs "Content-Length")) eqn:E1; [by apply note_cl_ok|].
  destruct (case_eq k (bs "Host")) eqn:E2; [by apply note_host_ok|].
  destruct (case_eq k (bs "Transfer-Encoding")) eqn:E3; [by apply note_te_ok|].
  destruct (case_eq k (bs "Expect")) eqn:E4; [by apply note_expect_ok|].
  destruct (_ && _); [apply note_connection_ok|]; by apply flags_ok_skip.
Qed.

(** ** Lemmas: Transfer-Encoding *)

Fixpoint skip_ws (l : bytes) : bytes :=
  match l with
  | [] => []
  | c :: l' => if is_ws c then skip_ws l' else l
  end.

(** The transfer codings a field value lists: split at commas, trimmed, the
    empty elements dropped. *)
Definition te_codings (v : bytes) : list bytes :=
  filter (fun t => t <> []) ((fun t => rtrim (skip_ws t)) <$> split_on 44 v).

Definition note_coding (acc : bool * bool * bool) (t : bytes) : bool * bool * bool :=
  let '(_, _, bad) := acc in
  let chunked := case_eq t (bs "chunked") in (true, chunked, bad || negb chunked).

Lemma te_codings_sep c p : is_sep c = true -> te_codings (c :: p) = te_codings p.
Proof.
  intros Hc. unfold te_codings. cbn [split_on]. destruct (Z.eqb_spec c 44) as [->|Hn].
  - rewrite fmap_cons, filter_cons. by rewrite decide_False by (intros H; by apply H).
  - assert (Hw : is_ws c = true).
    { unfold is_sep in Hc. unfold is_ws. rewrite (proj2 (Z.eqb_neq c 44) Hn), orb_false_r in Hc.
      done. }
    rewrite split_on_cut. rewrite !fmap_cons. cbn [skip_ws]. by rewrite Hw.
Qed.

Lemma skip_seps_codings p :
  te_codings (skip_seps p) = te_codings p /\ (length (skip_seps p) <= length p)%nat /\
  match skip_seps p with c :: _ => is_sep c = false | [] => True end.
Proof.
  induction p as [|c p (IH1 & IH2 & IH3)]; [done|]. cbn [skip_seps].
  destruct (is_sep c) eqn:E.
  - rewrite te_codings_sep by done. split; [done|]. split; [cbn; lia|done].
  - done.
Qed.

Lemma skip_ws_cut q :
  match q with c :: _ => is_sep c = false | [] => True end ->
  skip_ws (cut 44 q).1 = (cut 44 q).1.
Proof.
  destruct q as [|c q]; [done|]. intros H. cbn [cut]. destruct (c =? 44); [done|].
  destruct (cut 44 q) as [pre post]. cbn [fst skip_ws].
  assert (Hw : is_ws c = false) by (unfold is_sep in H; unfold is_ws; by apply orb_false_iff in H as [-> _]).
  by rewrite Hw.
Qed.

Lemma te_tokens_spec fuel : forall p acc,
  (length p < fuel)%nat -> te_tokens fuel p acc = foldl note_coding acc (te_codings p).
Proof.
  induction fuel as [|fuel IH]; intros p acc Hf; [lia|]. cbn [te_tokens].
  destruct p as [|c0 p0]; [done|]. set (p := c0 :: p0) in *.
  destruct (skip_seps_codings p) as (Hc & Hl & Hh). rewrite <- Hc. clear Hc.
  pose proof (cut_length 44 (skip_seps p)) as Hcut.
  pose proof (skip_ws_cut _ Hh) as Hws. unfold te_codings. rewrite split_on_cut.
  destruct (cut 44 (skip_seps p)) as [tok rest]. cbn [fst snd] in *.
  rewrite fmap_cons, filter_cons, Hws.
  assert (Hrest : forall a, te_tokens fuel (default [] rest) a =
    foldl note_coding a (filter (fun t => t <> [])
      ((fun t => rtrim (skip_ws t)) <$>
         match rest with Some r => split_on 44 r | None => [] end))).
  { intros a. destruct rest as [r|]; cbn [default].
    - specialize (Hcut r eq_refl). unfold id. rewrite IH by lia. done.
    - by destruct fuel. }
  destruct (rtrim tok) as [|t0 t] eqn:Et.
  - rewrite decide_False by (intros H; by apply H). apply Hrest.
  - rewrite decide_True by done. cbn [foldl]. rewrite <- Hrest.
    by destruct acc as [[? ?] bad].
Qed.

(** The C-string values of the Transfer-Encoding fields, last line first. *)
Definition te_values (hs : list header) : list bytes :=
  (fun h => cstr h.2) <$> filter (fun h => case_eq (cstr h.1) (bs "Transfer-Encoding") = true) hs.

Definition all_chunked (v : bytes) : Prop :=
  Forall (fun t => case_eq t (bs "chunked") = true) (te_codings v).

Lemma note_codings_bad l a b bad :
  (foldl note_coding (a, b, bad) l).2 = bad || existsb (fun t => negb (case_eq t (bs "chunked"))) l.
Proof.
  revert a b bad. induction l as [|t l IH]; intros a b bad; [by rewrite orb_false_r|].
  cbn [foldl note_coding existsb]. by rewrite IH, orb_assoc.
Qed.

Lemma note_codings_any l a b bad :
  (foldl note_coding (a, b, bad) l).1.1 = true -> a = true \/ l <> [].
Proof. destruct l; [by left|by right]. Qed.

Lemma length_cstr v : (length (cstr v) <= length v)%nat.
Proof. induction v as [|c v IH]; cbn; [lia|]. destruct (c =? 0); cbn; lia. Qed.

Lemma te_walk_good hs : forall seen final bad,
  let r := te_walk hs seen final bad in
  r.2 = false -> r.1.2 = true ->
  bad = false /\ Forall all_chunked (te_values hs) /\
  (seen = false -> r.1.1 = true ->
     exists v rest, te_values hs = v :: rest /\ te_codings v <> []).
Proof.
  induction hs as [|[k v] hs IH]; intros seen final bad; cbn [te_walk].
  { intros ? ?. split; [done|]. split; [constructor|]. by intros ->. }
  unfold te_values. rewrite filter_cons. cbn [fst].
  destruct (case_eq (cstr k) (bs "Transfer-Encoding")) eqn:E.
  - rewrite decide_True by done. rewrite fmap_cons. fold (te_values hs). cbn [snd].
    rewrite te_tokens_spec by (pose proof (length_cstr v); lia).
    pose proof (note_codings_bad (te_codings (cstr v)) false false bad) as Hb.
    pose proof (note_codings_any (te_codings (cstr v)) false false bad) as Ha.
    destruct (foldl note_coding _ _) as [[any last] bad'] eqn:Ef. cbn [fst snd] in Hb, Ha.
    intros Hr Hfin. destruct (IH true (if seen then final else any && last) bad' Hr Hfin)
      as (Hbad & Hall & _).
    rewrite Hb in Hbad. apply orb_false_iff in Hbad as [-> Hex]. split; [done|]. split.
    + constructor; [|done]. apply Forall_forall. intros t Ht.
      destruct (case_eq t (bs "chunked")) eqn:Et; [done|]. exfalso.
      apply not_true_iff_false in Hex. apply Hex. apply existsb_exists. exists t.
      by rewrite Et.
    + intros -> _. exists (cstr v), (te_values hs). split; [done|].
      assert (Hany : any = true).
      { assert (Hkeep : forall hs' f b, (te_walk hs' true f b).1.2 = f).
        { clear. induction hs' as [|[k' v'] hs' IHw]; intros f b; [done|]. cbn [te_walk].
          destruct (case_eq _ _); [|apply IHw]. destruct (te_tokens _ _ _) as [[? ?] ?]. apply IHw. }
        rewrite Hkeep in Hfin. by destruct any. }
      by destruct (Ha Hany).
  - rewrite decide_False by done. apply IH.
Qed.

Lemma te_walk_seen hs : forall seen final bad,
  (te_walk hs seen final bad).1.1 = seen || negb (bool_decide (te_values hs = [])).
Proof.
  induction hs as [|[k v] hs IH]; intros seen final bad; cbn [te_walk]; [by destruct seen|].
  unfold te_values. rewrite filter_cons. cbn [fst].
  destruct (case_eq (cstr k) (bs "Transfer-Encoding")) eqn:E.
  - rewrite decide_True by done. destruct (te_tokens _ _ _) as [[any last] bad'].
    rewrite IH. by rewrite orb_true_r.
  - rewrite decide_False by done. apply IH.
Qed.

Lemma validate_te_good hs :
  validate_transfer_encoding hs = 0 ->
  te_values hs = [] \/
  Forall all_chunked (te_values hs) /\
  exists v rest, te_values hs = v :: rest /\ te_codings v <> [].
Proof.
  unfold validate_transfer_encoding. pose proof (te_walk_good hs false false false) as H.
  pose proof (te_walk_seen hs false false false) as Hs.
  destruct (te_walk hs false false false) as [[seen final] bad] eqn:E. cbn [fst snd] in H, Hs.
  destruct seen, final, bad; cbn [negb]; try done; intros _;
    try (left; symmetry in Hs; cbn [orb] in Hs;
         by apply negb_false_iff, bool_decide_eq_true in Hs).
  right. destruct (H eq_refl eq_refl) as (_ & ? & Hx). split; [done|]. by apply Hx.
Qed.

(** ** Lemmas: the whole parser *)

(** The fields of the header section, last line first: what the pass looks at,
    whether or not memory was found to record it. *)
Definition line_field (raw : bytes) (line_start line_end : nat) : option header :=
  match find_char raw line_start (line_end - line_start) 58 with
  | None => None
  | Some colon => Some (sub raw line_start (colon - line_start),
                        skip_spaces (sub raw (colon + 1) (line_end - (colon + 1))))
  end.
Fixpoint field_lines (fuel : nat) (raw : bytes) (line_start header_end : nat) (fields : list header)
    : list header :=
  match fuel with
  | O => fields
  | S fuel =>
      if (header_end <=? line_start)%nat then fields else
      match find_crlf raw line_start (header_end + 2 - line_start) with
      | None => fields
      | Some line_end =>
          if (line_end =? line_start)%nat then fields
          else field_lines fuel raw (line_end + 2) header_end
                 (option_list (line_field raw line_start line_end) ++ fields)
      end
  end.
Definition head_fields (raw : bytes) (header_end : nat) : list header :=
  match find_crlf raw 0 (header_end + 2) with
  | Some line_end => field_lines (S (length raw)) raw (line_end + 2) header_end []
  | None => []
  end.

(** What recording fields may lose when the error object of a failed allocation
    cannot be allocated either: a field, its name or its value. *)
Inductive recorded : list header -> list header -> Prop :=
| RecNil : recorded [] []
| RecDropped h fields hs : recorded fields hs -> recorded (h :: fields) hs
| RecKept k v k' v' fields hs :
    k' = k \/ k' = [] -> v' = v \/ v' = [] -> recorded fields hs ->
    recorded ((k, v) :: fields) ((k', v') :: hs).

Lemma header_string_cases d o :
  let '(ok, d', o') := header_string d o in (d' = d \/ d' = []) /\ (o = [] -> ok = true /\ d' = d /\ o' = []).
Proof.
  unfold header_string. destruct o as [|[|] o]; cbn [alloc].
  - split; [by left|done].
  - split; [by left|done].
  - destruct d; [by split; [left|]|]. unfold json_error_is_ok. destruct (alloc o). by split; [right|].
Qed.
Lemma header_add_cases hs k v o :
  let '(hs', ok, o') := header_add_ex_len hs k v o in
  (hs' = hs \/ exists k' v', hs' = (k', v') :: hs /\ (k' = k \/ k' = []) /\ (v' = v \/ v' = [])) /\
  (ok = false -> hs' = hs) /\ (o = [] -> hs' = (k, v) :: hs /\ ok = true /\ o' = []).
Proof.
  unfold header_add_ex_len. destruct (alloc o) as [node o1] eqn:E1.
  destruct node; cbn [negb].
  2: { destruct (json_error_is_ok o1). split; [by left|]. split; [done|]. by intros ->. }
  destruct (alloc o1) as [ka o2] eqn:E2. destruct (alloc o2) as [va o3] eqn:E3.
  assert (H3 : o = [] -> ka = true /\ va = true /\ o3 = []).
  { intros ->. injection E1 as <-. injection E2 as <- <-. by injection E3 as <- <-. }
  assert (Hk : let '(ok, k', o4) := (if ka && va then header_string k o3 else (false, [], o3)) in
            (k' = k \/ k' = []) /\ (o = [] -> ok = true /\ k' = k /\ o4 = [])).
  { destruct (ka && va) eqn:Eb.
    - pose proof (header_string_cases k o3) as H. destruct (header_string k o3) as [[ok k'] o4].
      destruct H as [? H]. split; [done|]. intros Ho. by apply H, H3.
    - split; [by right|]. intros Ho. by destruct (H3 Ho) as (-> & -> & _). }
  destruct (if ka && va then _ else _) as [[okk k'] o4]. destruct Hk as [Hk Hk0].
  assert (Hv : let '(ok, v', o5) := (if okk then header_string v o4 else (false, [], o4)) in
            (v' = v \/ v' = []) /\ (o = [] -> ok = true /\ v' = v /\ o5 = [])).
  { destruct okk.
    - pose proof (header_string_cases v o4) as H. destruct (header_string v o4) as [[ok v'] o5].
      destruct H as [? H]. split; [done|]. intros Ho. by apply H, Hk0.
    - split; [by right|]. intros Ho. by destruct (Hk0 Ho). }
  destruct (if okk then _ else _) as [[okv v'] o5]. destruct Hv as [Hv Hv0].
  destruct okv.
  - split; [right; by exists k', v'|]. split; [done|]. intros Ho.
    destruct (Hk0 Ho) as (_ & -> & _). by destruct (Hv0 Ho) as (_ & -> & ->).
  - destruct (json_error_is_ok o5). split; [by left|]. split; [done|]. intros Ho. by destruct (Hv0 Ho).
Qed.
(** While memory lasts a header is simply prepended. *)
Lemma header_add_nil hs k v : header_add_ex_len hs k v [] = ((k, v) :: hs, true, []).
Proof. done. Qed.
Lemma recorded_refl hs : recorded hs hs.
Proof. induction hs as [|[k v] hs IH]; constructor; by try left. Qed.

Lemma header_line_ok raw ls le fields hs f o hs' f' o' :
  flags_ok fields f -> recorded fields hs -> header_line raw ls le hs f o = (inr (hs', f'), o') ->
  let fields' := option_list (line_field raw ls le) ++ fields in
  flags_ok fields' f' /\ recorded fields' hs' /\ (o = [] -> fields = hs -> o' = [] /\ fields' = hs').
Proof.
  intros Hok Hr. unfold header_line, line_field. destruct (find_char _ _ _ _) as [colon|];
    [|by intros [[= <- <-] <-]%pair_eq].
  destruct (_ && _); [done|]. set (key := sub raw ls _). set (val := skip_spaces _).
  pose proof (header_add_cases hs key val o) as H. destruct (header_add_ex_len hs key val o) as [[hs1 ok] o1].
  destruct H as (H1 & _ & H3). destruct ok; [|done]. intros [[= <- <-] <-]%pair_eq. cbn [option_list app].
  split; [by apply note_header_ok|]. split.
  - destruct H1 as [->|(k' & v' & -> & Hk & Hv)]; by constructor.
  - intros Ho <-. by destruct (H3 Ho) as (-> & _ & ->).
Qed.

Lemma header_loop_ok fuel raw he : forall ls fields hs f o hs' f' o',
  flags_ok fields f -> recorded fields hs -> header_loop fuel raw ls he hs f o = (inr (hs', f'), o') ->
  let fields' := field_lines fuel raw ls he fields in
  flags_ok fields' f' /\ recorded fields' hs' /\ (o = [] -> fields = hs -> fields' = hs').
Proof.
  induction fuel as [|fuel IH]; intros ls fields hs f o hs' f' o' Hok Hr; cbn [header_loop field_lines].
  { by intros [[= <- <-] <-]%pair_eq. }
  destruct (_ <=? _)%nat; [by intros [[= <- <-] <-]%pair_eq|].
  destruct (find_crlf _ _ _) as [le|]; [|by intros [[= <- <-] <-]%pair_eq].
  destruct (_ =? _)%nat; [by intros [[= <- <-] <-]%pair_eq|].
  destruct (header_line _ _ _ _ _ _) as [[e|[hs1 f1]] o1] eqn:E; [done|]. intros Hl.
  destruct (header_line_ok _ _ _ _ _ _ _ _ _ _ Hok Hr E) as (Hok1 & Hr1 & H1).
  destruct (IH _ _ _ _ _ _ _ _ Hok1 Hr1 Hl) as (Hok2 & Hr2 & H2). split; [done|]. split; [done|].
  intros Ho Hs. destruct (H1 Ho Hs) as [-> He]. by apply H2.
Qed.

(** The fuel of the parser is enough: the loop consumes at least one byte and a
    CRLF per turn, so more fuel changes nothing. *)
Lemma header_loop_fuel raw he fuel fuel' : forall ls hs f o,
  bytes_ok raw -> (he - ls < fuel)%nat -> (he - ls < fuel')%nat ->
  header_loop fuel raw ls he hs f o = header_loop fuel' raw ls he hs f o.
Proof.
  revert fuel'. induction fuel as [|fuel IH]; intros fuel' ls hs f o Hb H H'; [lia|].
  destruct fuel' as [|fuel']; [lia|]. cbn [header_loop].
  destruct (Nat.leb_spec he ls); [done|].
  destruct (find_crlf raw ls (he + 2 - ls)) as [le|] eqn:E; [|done].
  rewrite find_crlf_scan in E by done. apply find_first_some in E as (Hr & _).
  destruct (le =? ls)%nat; [done|].
  destruct (header_line _ _ _ _ _ _) as [[e|[hs1 f1]] o1]; [done|]. apply IH; [done|lia|lia].
Qed.

(** What an accepted request satisfies, read off the fields it came with (the
    codings off the header list, when all of them were recorded). *)
Record request_safe (fields : list header) (req : http_request) : Prop := {
  rs_host : is_http11 req.(req_version) = true ->
    exists v, named (bs "Host") fields = [v] /\ rtrim v <> [];
  rs_content_length :
    Forall (fun v => Forall (fun c => isdigit c = true) (rtrim v) /\ rtrim v <> [] /\
                     digits_value (rtrim v) 0 = req.(req_content_length))
      (named (bs "Content-Length") fields);
  rs_no_length : named (bs "Content-Length") fields = [] -> req.(req_content_length) = 0;
  rs_te : req.(req_te_chunked_seen) = negb (bool_decide (named (bs "Transfer-Encoding") fields = []));
  rs_no_both : req.(req_te_chunked_seen) = true -> named (bs "Content-Length") fields = [];
  rs_chunked : req.(req_te_chunked_seen) = true -> req.(req_headers) = fields ->
    Forall all_chunked (te_values fields) /\
    exists v rest, te_values fields = v :: rest /\ te_codings v <> [];
  rs_expect : Forall (fun v => case_eq (rtrim v) (bs "100-continue") = true) (named (bs "Expect") fields);
  rs_expect_seen : req.(req_expect_100_seen) = negb (bool_decide (named (bs "Expect") fields = []))
}.

Lemma rtrim_length v : (length (rtrim v) <= length v)%nat.
Proof.
  induction v as [|c v IH]; cbn; [lia|]. destruct (rtrim v); [destruct (is_ws c)|]; cbn in *; lia.
Qed.

Lemma cstr_case_eq k lit :
  forallb (fun b => negb (b =? 0)) lit = true -> case_eq k lit = true -> cstr k = k.
Proof.
  revert lit. induction k as [|c k IH]; intros [|l lit] Hl H; try done.
  unfold case_eq in H. apply bool_decide_eq_true in H. injection H as Hc Hk.
  cbn in Hl. apply andb_true_iff in Hl as [Hl0 Hl].
  cbn [cstr]. destruct (Z.eqb_spec c 0) as [->|].
  - exfalso. unfold tolower in Hc. simpl in Hc.
    destruct ((65 <=? l) && (l <=? 90)) eqn:E; lia.
  - f_equal. apply (IH lit); [done|]. by apply bool_decide_eq_true.
Qed.

(** A recorded Transfer-Encoding field is one the validator walks. *)
Lemma te_values_named hs :
  named (bs "Transfer-Encoding") hs <> [] -> te_values hs <> [].
Proof.
  induction hs as [|[k v] hs IH]; [done|]. rewrite named_cons. unfold te_values.
  rewrite filter_cons. cbn [fst]. destruct (case_eq k (bs "Transfer-Encoding")) eqn:E.
  - intros _. rewrite (cstr_case_eq k (bs "Transfer-Encoding") eq_refl E), E. by rewrite decide_True by done.
  - intros H. destruct (case_eq (cstr k) _) eqn:E'.
    + by rewrite decide_True by done.
    + rewrite decide_False by done. by apply IH.
Qed.

Lemma checked_safe is11 fields hs f :
  flags_ok fields f -> check_headers is11 hs f = None ->
  (is11 = true -> exists v, named (bs "Host") fields = [v] /\ rtrim v <> []) /\
  f.(cl_bad) = false /\ f.(expect_bad) = false /\
  (f.(te_seen) = true -> f.(cl_seen) = false /\ validate_transfer_encoding hs = 0).
Proof.
  intros [H1 H2 H3 _ _ _ _ _ _ _]. unfold check_headers.
  destruct (is11 && _) eqn:Eh; [done|]. destruct (f.(cl_bad)); [done|].
  assert (Hhost : is11 = true -> exists v, named (bs "Host") fields = [v] /\ rtrim v <> []).
  { intros ->. cbn [andb] in Eh. apply orb_false_iff in Eh as [[Ea Eb]%orb_false_iff Ec].
    rewrite H1 in Ea. rewrite H2 in Eb. rewrite H3 in Ec.
    destruct (named (bs "Host") fields) as [|v [|v' l]]; [done| |done].
    exists v. split; [done|]. cbn [existsb] in Ec. apply orb_false_iff in Ec as [Ec _].
    by apply bool_decide_eq_false in Ec. }
  destruct (f.(te_seen)); [destruct (f.(cl_seen)); [done|];
    destruct (Z.eqb_spec (validate_transfer_encoding hs) 0); cbn [negb]; [|done]|];
    destruct (f.(expect_bad)); done.
Qed.

Lemma parse_request_line_fresh seed raw le req o req' o' :
  parse_request_line seed raw le req o = (inr req', o') ->
  req'.(req_headers) = req.(req_headers) /\ req'.(req_content_length) = req.(req_content_length).
Proof.
  unfold parse_request_line. destruct (request_line_fast raw le).
  { by intros [[= <-] <-]%pair_eq. }
  destruct (find_char _ _ _ _) as [sp1|]; [|done]. destruct (find_char _ _ _ _) as [sp2|]; [|done].
  destruct (request_target _ _ _ _ _ _) as [r1 o1] eqn:E.
  destruct (sstring_assign_arena _ _ _) as [v o2]. intros [[= <-] <-]%pair_eq.
  revert E. unfold request_target. repeat case_match; intros [<- _]%pair_eq; done.
Qed.

Lemma take_body_headers raw he req o :
  let r := (take_body raw he req o).1 in
  r.(req_headers) = req.(req_headers) /\ r.(req_version) = req.(req_version) /\
  r.(req_content_length) = req.(req_content_length) /\
  r.(req_te_chunked_seen) = req.(req_te_chunked_seen) /\
  r.(req_expect_100_seen) = req.(req_expect_100_seen).
Proof.
  unfold take_body. destruct (0 <? _)%nat; [|done]. by destruct (sstring_assign_arena _ _ _).
Qed.

Lemma request_target_nil seed raw a b req :
  (request_target seed raw a b req []).2 = [].
Proof.
  unfold request_target. destruct (find_first _ _ _) as [qs|]; [|done].
  cbn [sstring_assign_arena alloc].
  destruct (query_map_create seed []) as [m o] eqn:Ec.
  assert (Ho : o = []) by (by apply (f_equal snd) in Ec). subst o.
  destruct m as [m|]; [|done]. destruct (create_ok _ _ _ _ Ec) as [Hok _].
  set (q := cstr _). destruct (query_map_parse m q []) as [m1 o1] eqn:Ep. cbn [snd].
  unfold query_map_parse in Ep. destruct q as [|c q]; [by apply (f_equal snd) in Ep|].
  cbn [alloc] in Ep. by destruct (parse_loop_ok _ m _ _ _ _ Hok (Nat.lt_succ_diag_r _) Ep) as (_ & _ & H);
    apply H.
Qed.

Lemma parse_request_line_nil seed raw le req :
  (parse_request_line seed raw le req []).2 = [].
Proof.
  unfold parse_request_line. destruct (request_line_fast raw le); [done|].
  destruct (find_char raw 0 le 32) as [sp1|]; [|done].
  destruct (find_char raw (sp1 + 1) _ 32) as [sp2|]; [|done]. cbv zeta.
  set (req1 := set_field _ _).
  pose proof (request_target_nil seed raw (sp1 + 1) sp2 req1) as H.
  destruct (request_target _ _ _ _ _ _) as [req2 o]. cbn [snd] in H. by subst o.
Qed.

(** ** Properties: what is accepted *)


Definition wit_request : bytes :=
  bs "POST /up?a=1 HTTP/1.1" ++ crlf ++ bs "Host: x" ++ crlf ++ bs "Transfer-Encoding: chunked" ++
  crlf ++ crlf ++ bs "0".


(** Without memory for a node and then for the object of the error, a coding that
    is not supported goes through: the request is taken for a chunked one and its
    header list says nothing of an encoding. *)
Lemma framing_header_lost :
  match parse_request_with_header_end (seqZ 0 16)
          (bs "POST / HTTP/1.1" ++ crlf ++ bs "Host: x" ++ crlf ++ bs "Transfer-Encoding: gzip" ++ crlf ++ crlf)
          49 (replicate 9 true ++ [false; false]) with
  | (inr req, _) => req.(req_te_chunked_seen) = true /\ req.(req_headers) = [(bs "Host", bs "x")]
  | (inl _, _) => False
  end.
Proof. vm_compute. split; reflexivity. Qed.

(** ** Printing and parsing *)

Definition header_text (h : header) : bytes := h.1 ++ [58; 32] ++ h.2.

Definition request_line_text (m t ver : bytes) : bytes := m ++ [32] ++ t ++ [32] ++ ver.

(** A request as a client writes it. *)
Definition request_text (m t ver : bytes) (hs : list header) (body : bytes) : bytes :=
  request_line_text m t ver ++ crlf ++ crlf_lines (map header_text hs) ++ crlf ++ body.

(** Names without ':', CR or trailing blanks; values without CR or leading space. *)
Record header_wf (h : header) : Prop := {
  hw_key_cr : lacks 13 h.1;
  hw_key_colon : lacks 58 h.1;
  hw_key_end : (0 <? length h.1)%nat && is_ws (rd h.1 (length h.1 - 1)) = false;
  hw_val_cr : lacks 13 h.2;
  hw_val_start : skip_spaces h.2 = h.2
}.

Lemma sub_mid pre l post n :
  n = length l -> sub (pre ++ l ++ post) (length pre) n = l.
Proof.
  intros ->. unfold sub. rewrite drop_app_length. by rewrite take_app_length.
Qed.

Lemma length_sub raw i n : (i + n <= length raw)%nat -> length (sub raw i n) = n.
Proof. intros H. unfold sub. rewrite length_take, length_drop. lia. Qed.

Lemma header_line_parse raw pre h post hs f :
  bytes_ok raw -> header_wf h -> raw = pre ++ header_text h ++ post ->
  header_line raw (length pre) (length pre + length (header_text h)) hs f [] =
  (inr (h :: hs, note_header h.1 h.2 f), []).
Proof.
  intros Hb [H1 H2 H3 H4 H5] ->. destruct h as [k v]. unfold header_text in *. cbn [fst snd] in *.
  unfold header_line.
  rewrite (find_char_mid _ pre k 58 ([32] ++ v ++ post) _ Hb); [|mlia| |done|].
  2:{ by rewrite <- !app_assoc. }
  2:{ rewrite !length_app. cbn [length]. lia. }
  replace (length pre + length k - length pre)%nat with (length k) by lia.
  rewrite <- !app_assoc. rewrite sub_mid by done. rewrite H3.
  assert (Hv : sub (pre ++ k ++ [58; 32] ++ v ++ post) (length pre + length k + 1)
    (length pre + length (k ++ [58; 32] ++ v) - (length pre + length k + 1)) = [32] ++ v).
  { replace (pre ++ k ++ [58; 32] ++ v ++ post) with ((pre ++ k ++ [58]) ++ ([32] ++ v) ++ post)
      by (rewrite <- !app_assoc; done).
    replace (length pre + length k + 1)%nat with (length (pre ++ k ++ [58]))
      by (rewrite !length_app; cbn [length]; lia).
    apply sub_mid. rewrite !length_app. cbn [length]. lia. }
  rewrite Hv. cbn [app skip_spaces Z.eqb Pos.eqb]. rewrite H5. done.
Qed.

Definition note_headers (hs : list header) (f : header_flags) : header_flags :=
  foldl (fun f h => note_header h.1 h.2 f) f hs.

Lemma header_text_cr h : header_wf h -> lacks 13 (header_text h) /\ header_text h <> [].
Proof.
  intros []. unfold header_text. split; [|by destruct h.1].
  repeat apply Forall_app_2; try done. by repeat constructor.
Qed.

Lemma header_loop_parse hs : forall raw pre body fuel hs0 f,
  bytes_ok raw -> Forall header_wf hs ->
  raw = pre ++ crlf_lines (map header_text hs) ++ crlf ++ body -> (2 <= length pre)%nat ->
  (length raw < length pre + fuel)%nat ->
  header_loop fuel raw (length pre)
    (length pre + length (crlf_lines (map header_text hs)) - 2) hs0 f [] =
  (inr (rev hs ++ hs0, note_headers hs f), []).
Proof.
  induction hs as [|h hs IH]; intros raw pre body fuel hs0 f Hb Hwf Hraw Hp Hf.
  - cbn [map crlf_lines length rev app note_headers foldl]. destruct fuel as [|fuel]; [done|].
    cbn [header_loop]. destruct (Nat.leb_spec (length pre + 0 - 2) (length pre)); [done|lia].
  - apply Forall_cons_1 in Hwf as [Hh Hwf]. destruct (header_text_cr h Hh) as [Hcr Hne].
    cbn [map crlf_lines] in *. set (rest := crlf_lines (map header_text hs)) in *.
    assert (Hlen : (0 < length (header_text h))%nat) by (destruct (header_text h); [done|cbn; lia]).
    destruct fuel as [|fuel].
    { exfalso. rewrite Hraw, !length_app in Hf. lia. }
    cbn [header_loop].
    destruct (Nat.leb_spec (length pre + length ((header_text h ++ crlf) ++ rest) - 2) (length pre))
      as [Hle|_]; [rewrite !length_app in Hle; cbn [length crlf] in Hle; lia|].
    rewrite (find_crlf_mid raw pre (header_text h) (rest ++ crlf ++ body) _ Hb); [| |done|].
    2:{ rewrite Hraw. unfold crlf. by rewrite <- !app_assoc. }
    2:{ rewrite !length_app. cbn [length crlf]. lia. }
    destruct (Nat.eqb_spec (length pre + length (header_text h)) (length pre)); [lia|].
    rewrite (header_line_parse raw pre h (crlf ++ rest ++ crlf ++ body)); [|done|done|].
    2:{ rewrite Hraw. by rewrite <- !app_assoc. }
    pose proof (IH raw (pre ++ header_text h ++ crlf) body fuel (h :: hs0)
      (note_header h.1 h.2 f)) as Hrec.
    rewrite !length_app in Hrec. cbn [length crlf] in Hrec. fold rest in Hrec.
    rewrite !length_app. cbn [length crlf].
    replace (length pre + (length (header_text h) + 2 + length rest) - 2)%nat
      with (length pre + (length (header_text h) + 2) + length rest - 2)%nat by lia.
    rewrite <- (Nat.add_assoc (length pre)).
    rewrite Hrec; [|done|done| |lia|lia].
    + cbn [rev note_headers foldl]. by rewrite <- app_assoc.
    + rewrite Hraw. by rewrite <- !app_assoc.
Qed.

(** What a target denotes: path, query string and parameters. *)
Definition target_parts (seed t : bytes) : bytes * bytes * option query_map :=
  match cut 63 t with
  | (p, None) => (p, [], None)
  | (p, Some q) =>
      (p, q, match query_map_create seed [] with
             | (Some m, _) => Some (query_map_parse m (cstr q) []).1
             | (None, _) => None
             end)
  end.

Record request_wf (m t ver : bytes) (hs : list header) (body : bytes) : Prop := {
  rw_m : lacks 13 m /\ lacks 32 m /\ m <> [];
  rw_t : lacks 13 t /\ lacks 32 t;
  rw_v : lacks 13 ver;
  rw_h : Forall header_wf hs;
  rw_ok : bytes_ok (request_text m t ver hs body)
}.

Lemma cut_spec c l :
  lacks c (cut c l).1 /\
  l = (cut c l).1 ++ match (cut c l).2 with Some r => c :: r | None => [] end.
Proof.
  induction l as [|b l [IH1 IH2]]; [by split; [constructor|]|]. cbn [cut].
  destruct (Z.eqb_spec b c) as [->|Hn].
  - split; [constructor|done].
  - destruct (cut c l) as [pre post]. cbn [fst snd] in *. split; [by constructor|].
    simpl. by f_equal.
Qed.

Lemma find_first_mid raw pre l c post n :
  raw = pre ++ l ++ c :: post -> lacks c l -> (length l < n)%nat ->
  find_first (is_char raw c) (length pre) n = Some (length pre + length l)%nat.
Proof.
  intros -> Hl Hn. apply find_first_some. split; [lia|]. unfold is_char. split.
  - change (c :: post) with ([c] ++ post). rewrite app_assoc, <- length_app.
    rewrite <- (Nat.add_0_r (length (pre ++ l))), rd_mid by (cbn; lia). apply Z.eqb_refl.
  - intros i Hi. replace i with (length pre + (i - length pre))%nat by lia.
    rewrite rd_mid by lia. apply Z.eqb_neq. apply lacks_rd; [done|lia].
Qed.

Lemma find_first_mid_none raw pre l post c :
  raw = pre ++ l ++ post -> lacks c l ->
  find_first (is_char raw c) (length pre) (length l) = None.
Proof.
  intros -> Hl. apply find_first_none. intros i Hi. unfold is_char.
  replace i with (length pre + (i - length pre))%nat by lia.
  rewrite rd_mid by lia. apply Z.eqb_neq. apply lacks_rd; [done|lia].
Qed.

Lemma query_parse_nil m q : qm_ok m -> (query_map_parse m q []).2 = [].
Proof.
  intros Hok. destruct (query_map_parse m q []) as [m' o'] eqn:E.
  unfold query_map_parse in E. destruct q as [|b q]; [by injection E|]. cbn [alloc] in E.
  destruct (parse_loop_ok _ m (b :: q) [] m' o' Hok (Nat.lt_succ_diag_r _) E) as (_ & _ & H).
  by destruct (H eq_refl).
Qed.

Lemma query_create_nil seed : (query_map_create seed []).2 = [].
Proof. reflexivity. Qed.

(** Evaluates field updates on a built request. *)
Ltac req_fields :=
  cbv beta iota delta [set_field req_method req_path req_query req_query_params req_version
    req_headers req_body req_keep_alive req_content_length req_te_chunked_seen
    req_expect_100_seen].

(** A request whose target and version are still to be parsed. *)
Definition fresh_request (m : http_method) (p q v : option bytes) (ka : bool) : http_request :=
  MkRequest m p q None v [] None ka 0 false false.

Lemma request_target_parse seed raw pre t post m p0 q0 v ka :
  raw = pre ++ t ++ 32 :: post ->
  request_target seed raw (length pre) (length pre + length t) (fresh_request m p0 q0 v ka) [] =
  (let '(p, q, params) := target_parts seed t in
   (MkRequest m (Some p) (Some q) params v [] None ka 0 false false, [])).
Proof.
  intros Hraw. unfold fresh_request. unfold request_target, target_parts. destruct (cut_spec 63 t) as [Hl Ht].
  replace (length pre + length t - length pre)%nat with (length t) by lia.
  destruct (cut 63 t) as [p [q|]]; cbn [fst snd] in *.
  - rewrite (find_first_mid raw pre p 63 (q ++ 32 :: post)); [|by rewrite Hraw, Ht, <- app_assoc|done|].
    2:{ rewrite Ht, length_app. cbn [length]. lia. }
    assert (S1 : sub raw (length pre) (length pre + length p - length pre) = p).
    { rewrite Hraw, Ht, <- !app_assoc. apply sub_mid. lia. }
    assert (S2 : sub raw (length pre + length p + 1)
      (length pre + length t - (length pre + length p + 1)) = q).
    { rewrite Hraw, Ht. replace (pre ++ (p ++ 63 :: q) ++ 32 :: post)
        with ((pre ++ p ++ [63]) ++ q ++ 32 :: post) by (rewrite <- !app_assoc; done).
      replace (length pre + length p + 1)%nat with (length (pre ++ p ++ [63]))
        by (rewrite !length_app; cbn [length]; lia).
      apply sub_mid. rewrite !length_app. cbn [length]. lia. }
    rewrite S1, S2. cbn [sstring_assign_arena alloc].
    destruct (query_map_create seed []) as [[m1|] o] eqn:E.
    + pose proof (query_create_nil seed) as Hq. rewrite E in Hq. cbn [snd] in Hq. subst o.
      pose proof (query_parse_nil m1 (cstr q) (proj1 (create_ok _ _ _ _ E))) as Hnil.
      unfold id. destruct (query_map_parse m1 (cstr q) []) as [m' o']. cbn [fst snd] in *.
      rewrite Hnil. req_fields. done.
    + pose proof (query_create_nil seed) as Hq. rewrite E in Hq. cbn [snd] in Hq. subst o.
      req_fields. done.
  - rewrite app_nil_r in Ht. rewrite Ht in *. clear Ht.
    rewrite (find_first_mid_none raw pre p (32 :: post)) by done.
    assert (S1 : sub raw (length pre) (length p) = p) by (rewrite Hraw; by apply sub_mid).
    rewrite S1. cbn [sstring_assign_arena alloc]. req_fields. done.
Qed.

Lemma cut_app c l r : lacks c l -> cut c (l ++ c :: r) = (l, Some r).
Proof.
  induction 1 as [|b l Hb _ IH]; cbn [app cut]; [by rewrite Z.eqb_refl|].
  rewrite (proj2 (Z.eqb_neq b c) Hb). by rewrite IH.
Qed.

(** A literal without CR is found at the start of a line iff the line has it. *)
Lemma mem_is_line raw pre ver post lit :
  raw = pre ++ ver ++ 13 :: post -> lacks 13 lit ->
  mem_is raw (length pre) lit = mem_is ver 0 lit.
Proof.
  intros -> Hl. unfold mem_is, sub. rewrite drop_app_length, drop_0. apply bool_decide_ext.
  destruct (decide (length lit <= length ver)%nat).
  - by rewrite take_app_le.
  - rewrite (take_ge ver) by lia. rewrite take_app_ge by lia.
    destruct (length lit - length ver)%nat as [|k] eqn:En; [lia|]. cbn [take].
    split; intros H; exfalso.
    + rewrite <- H in Hl. apply Forall_app in Hl as [_ Hl]. by inversion Hl.
    + apply (f_equal length) in H. lia.
Qed.

Lemma request_line_parse seed raw m t ver post m0 p0 q0 v0 ka0 :
  raw = request_line_text m t ver ++ crlf ++ post -> bytes_ok raw ->
  lacks 32 m -> lacks 32 t ->
  parse_request_line seed raw (length (request_line_text m t ver))
    (fresh_request m0 p0 q0 v0 ka0) [] =
  (let '(p, q, params) := target_parts seed t in
   (inr (MkRequest (string_to_method_len raw 0 (length m)) (Some p) (Some q) params (Some ver) []
           None (mem_is ver 0 (bs "HTTP/1.1")) 0 false false), [])).
Proof.
  intros Hraw Hb Hm Ht. unfold parse_request_line.
  assert (Hline : length (request_line_text m t ver) = (length m + 1 + length t + 1 + length ver)%nat)
    by (unfold request_line_text; rewrite !length_app; cbn [length]; lia).
  destruct (request_line_fast raw (length (request_line_text m t ver))) eqn:Ef.
  - unfold request_line_fast, mem_is in Ef. apply andb_true_iff in Ef as [E1 E2].
    apply bool_decide_eq_true in E1. apply Nat.eqb_eq in E2.
    assert (Hfull : request_line_text m t ver = bs "GET / HTTP/1.1").
    { rewrite <- E1, Hraw. unfold sub. rewrite drop_0.
      change (length (bs "GET / HTTP/1.1")) with 14%nat. rewrite <- E2. by rewrite take_app_length. }
    assert (Hcut : cut 32 (request_line_text m t ver) = (m, Some (t ++ 32 :: ver)))
      by (unfold request_line_text; by apply cut_app).
    rewrite Hfull in Hcut. injection Hcut as <- Hrest.
    assert (Hcut : cut 32 (t ++ 32 :: ver) = (t, Some ver)) by by apply cut_app.
    rewrite <- Hrest in Hcut. injection Hcut as <- <-.
    rewrite Hraw, Hfull. cbn [target_parts cut Z.eqb Pos.eqb].
    unfold fresh_request. req_fields. reflexivity.
  - rewrite Hline.
    pose proof (find_char_mid raw [] m 32 (t ++ [32] ++ ver ++ crlf ++ post)
      (length m + 1 + length t + 1 + length ver) Hb) as F1. cbn [length Nat.add] in F1.
    rewrite F1; [|mlia| |done|lia].
    2:{ rewrite Hraw. unfold request_line_text. by rewrite <- !app_assoc. }
    pose proof (find_char_mid raw (m ++ [32]) t 32 (ver ++ crlf ++ post)
      (length m + 1 + length t + 1 + length ver - (length m + 1)) Hb) as F2.
    rewrite length_app in F2. cbn [length] in F2.
    rewrite F2; [|mlia| |done|lia].
    2:{ rewrite Hraw. unfold request_line_text. by rewrite <- !app_assoc. }
    pose proof (request_target_parse seed raw (m ++ [32]) t (ver ++ crlf ++ post)
      (string_to_method_len raw 0 (length m)) p0 q0 v0 ka0) as F3.
    rewrite length_app in F3. cbn [length] in F3. unfold fresh_request in *.
    match goal with |- context [request_target _ _ _ _ ?r _] =>
      replace r with (fresh_request (string_to_method_len raw 0 (length m)) p0 q0 v0 ka0) by done end.
    unfold fresh_request. rewrite F3; clear F1 F2 F3.
    2:{ rewrite Hraw. unfold request_line_text. by rewrite <- !app_assoc. }
    destruct (target_parts seed t) as [[p q] params].
    assert (Hpre : raw = (m ++ [32] ++ t ++ [32]) ++ ver ++ 13 :: 10 :: post).
    { rewrite Hraw. unfold request_line_text, crlf. by rewrite <- !app_assoc. }
    replace (length m + 1 + length t + 1)%nat with (length (m ++ [32] ++ t ++ [32]))
      by (rewrite !length_app; cbn [length]; lia).
    rewrite (mem_is_line raw _ ver (10 :: post) _ Hpre) by (repeat constructor; done).
    assert (Hver : forall n, n = length ver ->
      sub raw (length (m ++ [32] ++ t ++ [32])) n = ver)
      by (intros n Hn; rewrite Hpre; by apply sub_mid).
    rewrite Hver by (rewrite !length_app; cbn [length]; lia). cbn [sstring_assign_arena alloc].
    req_fields. done.
Qed.

(** What parsing a well-formed text must give. *)
Definition parsed_request (seed m t ver : bytes) (hs : list header) (body : bytes)
    : parse_error + http_request :=
  let ka := mem_is ver 0 (bs "HTTP/1.1") in
  let f := note_headers hs (flags0 ka 0) in
  match check_headers ka (rev hs) f with
  | Some e => inl e
  | None =>
      let '(p, q, params) := target_parts seed t in
      let n := f.(hf_content_length) in
      inr (MkRequest (string_to_method_len (m ++ [32]) 0 (length m)) (Some p) (Some q) params
             (Some ver) (rev hs)
             (match body with
              | [] => None
              | _ => Some (if (0 <? n) && (n <? blen body) then take (Z.to_nat n) body else body)
              end)
             f.(hf_keep_alive) n f.(te_seen) f.(expect_100))
  end.

(** The four-byte load and the comparisons stay within the token and the space. *)
Lemma method_prefix m post :
  string_to_method_len (m ++ 32 :: post) 0 (length m) =
  string_to_method_len (m ++ [32]) 0 (length m).
Proof.
  assert (Hld : forall n, (n <= length m + 1)%nat ->
    le_load (m ++ 32 :: post) 0 n = le_load (m ++ [32]) 0 n).
  { intros n Hn. change (32 :: post) with ([32] ++ post). rewrite app_assoc.
    apply le_load_app_l. rewrite length_app. cbn [length]. lia. }
  assert (Hmem : forall lit, (length lit <= length m)%nat ->
    mem_is (m ++ 32 :: post) 0 lit = mem_is (m ++ [32]) 0 lit).
  { intros lit Hl. unfold mem_is, sub. rewrite !drop_0. by rewrite !take_app_le. }
  assert (Hexact : string_to_method_exact (m ++ 32 :: post) 0 (length m) =
    string_to_method_exact (m ++ [32]) 0 (length m)).
  { unfold string_to_method_exact.
    destruct (Nat.eqb_spec (length m) 3); [by rewrite Hld by lia|].
    destruct (Nat.eqb_spec (length m) 4); [by rewrite Hld by lia|].
    destruct (Nat.eqb_spec (length m) 5); [by rewrite Hmem by (cbn; lia)|].
    destruct (Nat.eqb_spec (length m) 6); [by rewrite Hmem by (cbn; lia)|].
    destruct (Nat.eqb_spec (length m) 7); [by rewrite Hmem by (cbn; lia)|done]. }
  unfold string_to_method_len. rewrite Hexact. destruct (length m =? 0)%nat; [done|].
  destruct (Nat.leb_spec 3 (length m)); [|done]. rewrite Hld by lia.
  destruct (Nat.leb_spec 6 (length m)); cbn [andb]; [|done]. by rewrite Hmem by (cbn; lia).
Qed.

Lemma take_body_mid raw pre body req :
  raw = pre ++ body -> (4 <= length pre)%nat -> 0 <= req.(req_content_length) ->
  req.(req_body) = None ->
  take_body raw (length pre - 4) req [] =
  (req <| req_body :=
     match body with
     | [] => None
     | _ => Some (if (0 <? req.(req_content_length)) && (req.(req_content_length) <? blen body)
                  then take (Z.to_nat req.(req_content_length)) body else body)
     end |>, []).
Proof.
  intros -> Hp Hc Hb. unfold take_body. replace (length pre - 4 + 4)%nat with (length pre) by lia.
  rewrite length_app. replace (length pre + length body - length pre)%nat with (length body) by lia.
  destruct body as [|b body].
  - cbn [length Nat.ltb Nat.leb]. destruct req. cbn in Hb. by subst.
  - cbn [sstring_assign_arena alloc]. rewrite (proj2 (Nat.ltb_lt 0 _)) by (cbn; lia).
    unfold blen. set (l := b :: body). unfold sub. rewrite drop_app_length.
    destruct (_ && _) eqn:E; [done|]. by rewrite take_ge by done.
Qed.

Lemma note_headers_ok hs : forall hs0 f,
  flags_ok hs0 f -> flags_ok (rev hs ++ hs0) (note_headers hs f).
Proof.
  induction hs as [|[k v] hs IH]; intros hs0 f Hok; [done|].
  cbn [rev note_headers foldl fst snd]. rewrite <- app_assoc. cbn [app]. apply IH.
  by apply note_header_ok.
Qed.

Lemma content_length_nonneg hs f :
  flags_ok hs f -> f.(cl_bad) = false -> 0 <= f.(hf_content_length).
Proof.
  intros [_ _ _ H4 H5 _ H7 _ _ _] Hb. destruct (f.(cl_seen)) eqn:Es; [|by rewrite H7].
  specialize (H4 Hb). symmetry in H4. apply negb_true_iff, bool_decide_eq_false in H4.
  specialize (H5 Hb). destruct (named _ hs) as [|v l]; [done|].
  apply Forall_cons_1 in H5 as [[_ Hp] _].
  destruct (parse_digits_exact _ 0 _ ltac:(unfold is_u64; lia) Hp) as (_ & _ & Hr).
  unfold is_u64 in Hr. lia.
Qed.

(** ** Properties: what is parsed *)




(** the header-list interface.  A name or value with CR or LF is refused
    and changes nothing; otherwise (memory permitting) the new field is the one
    a lookup of its name finds, in any letter case, and other names answer as
    before.  Removal deletes every field of the name and no other, keeps the
    order, and reports how many there were. *)
Theorem header_list_spec hs key val o :
  Forall (fun h => cstr h.1 = h.1) hs -> cstr_ok key -> cstr_ok val ->
  (header_text_is_safe (Some key) && header_text_is_safe (Some val) = false ->
     header_add hs (Some key) (Some val) o = (inl HdrRejected, o)) /\
  (header_text_is_safe (Some key) && header_text_is_safe (Some val) = true ->
     header_add hs (Some key) (Some val) [] = (inr ((key, val) :: hs), []) /\
     (forall hs', (header_add hs (Some key) (Some val) o).1 = inr hs' -> recorded ((key, val) :: hs) hs') /\
     forall k, header_get ((key, val) :: hs) k =
               if case_eq key k then Some val else header_get hs k) /\
  (header_remove hs key).1 = filter (fun h => case_eq h.1 key = false) hs /\
  ((header_remove hs key).2 + length (header_remove hs key).1 = length hs)%nat /\
  (forall k, header_get (header_remove hs key).1 k =
             if case_eq key k then None else header_get hs k).
Proof.
  intros Hs Hk Hv. split; [|split; [|split; [|split]]].
  - intros H. unfold header_add. by rewrite <- negb_andb, H.
  - intros H. split; [|split].
    + unfold header_add. by rewrite <- negb_andb, H.
    + intros hs'. unfold header_add. rewrite <- negb_andb, H. cbn [negb].
      pose proof (header_add_cases hs key val o) as Hc. cbn [default].
      destruct (header_add_ex_len _ _ _ _) as [[l ok] o']. destruct Hc as (Hc & _). destruct ok; cbn [fst]; [|done].
      intros [= <-]. destruct Hc as [->|(k' & v' & -> & Hk' & Hv')]; constructor; try done; apply recorded_refl.
    + intros k. cbn [header_get]. rewrite (cstr_id key), (cstr_id val) by done.
      destruct (case_eq key k) eqn:E; [|by rewrite andb_false_r].
      by rewrite (case_eq_length _ _ E), Nat.eqb_refl.
  - induction Hs as [|[k v] hs Hh Hs IH]; [done|]. cbn [header_remove fst] in *.
    destruct (header_remove hs key) as [l n]. cbn [fst] in IH. subst l.
    rewrite Hh, filter_cons. cbn [fst]. by destruct (case_eq k key).
  - clear Hs. induction hs as [|[k v] hs IH]; [done|]. cbn [header_remove].
    destruct (header_remove hs key) as [l n]. cbn [fst snd] in IH.
    destruct (case_eq _ _); cbn [fst snd length]; lia.
  - intros k. induction Hs as [|[k' v] hs Hh Hs IH]; [by destruct (case_eq key k)|].
    cbn [header_remove header_get fst] in *. rewrite Hh.
    destruct (header_remove hs key) as [l n]. cbn [fst snd] in IH |- *.
    destruct (case_eq k' key) eqn:E; cbn [fst].
    + rewrite IH. destruct (case_eq key k) eqn:E2; [done|].
      rewrite (case_eq_trans _ _ k E), E2. by rewrite andb_false_r.
    + cbn [header_get]. rewrite Hh, IH. destruct (case_eq key k) eqn:E2; [|done].
      assert (E3 : case_eq k' k = false).
      { apply not_true_iff_false. intros H. unfold case_eq in *.
        apply bool_decide_eq_true in H, E2. apply bool_decide_eq_false in E. congruence. }
      by rewrite E3, andb_false_r.
Qed.

Lemma header_list_spec_witness :
  header_get ((bs "X-A", bs "1") :: [(bs "Host", bs "h")]) (bs "hOST") = Some (bs "h") /\
  header_add [] (Some (bs "X")) (Some (bs "a" ++ crlf ++ bs "Evil: 1")) [] = (inl HdrRejected, []).
Proof.
  split.
  - destruct (header_list_spec [(bs "Host", bs "h")] (bs "X-A") (bs "1") []) as (_ & H & _).
    + by repeat constructor.
    + apply cstr_okb_ok. reflexivity.
    + apply cstr_okb_ok. reflexivity.
    + destruct (H eq_refl) as (_ & _ & ->). reflexivity.
  - apply (header_list_spec [] (bs "X") (bs "a" ++ crlf ++ bs "Evil: 1") []).
    + constructor.
    + apply cstr_okb_ok. reflexivity.
    + apply cstr_okb_ok. reflexivity.
    + reflexivity.
Defined.

(** an error response is always sent, complete and consistently framed:
    for every status, known or not, and a message of any length the header fits
    its buffer, the announced Content-Length is the number of body bytes that
    follow, and the message is not truncated. *)
Theorem error_response_framed fd status msg :
  0 <= fd -> -2147483648 <= status < 2147483648 ->
  (match msg with Some m => is_u64 (blen m) | None => True end) ->
  let reason := default (bs "Error") (status_reason status) in
  let body := default reason msg in
  send_error_response fd status msg = Some (error_header status reason (blen body) ++ body) /\
  digits_value (dec (blen body)) 0 = blen body.
Proof.
  intros Hfd Hst Hm reason body. unfold send_error_response.
  rewrite (proj2 (Z.ltb_ge _ _) Hfd). fold reason. fold body.
  assert (Hr : (length reason <= 31)%nat).
  { unfold reason, status_reason.
    destruct (find (fun e => fst e =? status) status_reasons) as [[c r]|] eqn:E; [|cbn; lia].
    apply find_some in E as [Hin _]. cbn [fmap option_fmap option_map snd default id].
    assert (Hall : forallb (fun e => (length (snd e) <=? 31)%nat) status_reasons = true)
      by (vm_compute; reflexivity).
    rewrite forallb_forall in Hall. specialize (Hall (c, r) Hin). cbn [snd] in Hall.
    by apply Nat.leb_le. }
  assert (Hb : is_u64 (blen body)).
  { unfold body. destruct msg as [m|]; cbn [default]; [exact Hm|].
    unfold is_u64, blen. lia. }
  destruct (dec_spec (blen body) Hb) as (Hv & _ & Hl & _).
  pose proof (dec_signed_length status Hst) as Hd. split; [|exact Hv].
  rewrite (proj2 (Z.leb_gt _ _)); [done|].
  unfold blen at 1, error_header. rewrite !length_app. unfold crlf. lengths. lia.
Qed.

Lemma error_response_framed_witness :
  send_error_response 5 431 None =
    Some (error_header 431 (bs "Request Header Fields Too Large") 31 ++
          bs "Request Header Fields Too Large").
Proof.
  apply (error_response_framed 5 431 None); [lia|lia|exact I].
Defined.

(** ** Method tokens *)

Lemma le_load_cons b l off n : le_load (b :: l) (S off) n = le_load l off n.
Proof. revert off. induction n as [|n IH]; intros off; [done|]. cbn [le_load]. by rewrite IH. Qed.

(** Comparing loaded words is comparing bytes. *)
Lemma le_load_eqb lit : forall l,
  bytes_ok lit -> bytes_ok l -> (length lit <= length l)%nat ->
  (le_load l 0 (length lit) =? le_load lit 0 (length lit)) =
  bool_decide (take (length lit) l = lit).
Proof.
  induction lit as [|c lit IH]; intros l Hlit Hl Hn; [done|].
  destruct l as [|b l]; [cbn in Hn; lia|].
  apply Forall_cons_1 in Hlit as [Hc Hlit]. apply Forall_cons_1 in Hl as [Hb Hl].
  cbn [length le_load take]. rewrite !le_load_cons. cbn [rd nth].
  unfold rd. cbn [nth]. rewrite horner_inj by done. rewrite IH by (done || (cbn in Hn; lia)).
  destruct (Z.eqb_spec b c) as [->|Hbc]; cbn [andb].
  - apply bool_decide_ext. split; [by intros ->|by intros [=]].
  - symmetry. apply bool_decide_eq_false. by intros [=].
Qed.

Definition starts (lit s : bytes) : bool := bool_decide (take (length lit) s = lit).
Definition is_token (lit s : bytes) : bool := bool_decide (s = lit).

(** What the lookup accepts: GET, PUT, HEAD, PATCH and OPTIONS exactly, but
    every token that begins with POST or with DELETE. *)
Definition method_spec (s : bytes) : http_method :=
  if is_token (bs "GET") s then HTTP_GET
  else if starts (bs "POST") s then HTTP_POST
  else if is_token (bs "PUT") s then HTTP_PUT
  else if starts (bs "DELETE") s then HTTP_DELETE
  else if is_token (bs "HEAD") s then HTTP_HEAD
  else if is_token (bs "PATCH") s then HTTP_PATCH
  else if is_token (bs "OPTIONS") s then HTTP_OPTIONS
  else HTTP_UNKNOWN.

Lemma starts_length lit s : starts lit s = true -> (length lit <= length s)%nat.
Proof.
  unfold starts. intros H%bool_decide_eq_true. apply (f_equal length) in H.
  rewrite length_take in H. lia.
Qed.

Lemma is_token_starts lit s :
  is_token lit s = starts lit s && (length s =? length lit)%nat.
Proof.
  unfold is_token, starts. destruct (Nat.eqb_spec (length s) (length lit)) as [E|E].
  - rewrite andb_true_r. apply bool_decide_ext. rewrite take_ge by lia. done.
  - rewrite andb_false_r. apply bool_decide_eq_false. intros ->. done.
Qed.

Lemma mem_is_starts s lit : (length lit <= length s)%nat -> mem_is (s ++ [0]) 0 lit = starts lit s.
Proof. intros H. unfold mem_is, sub, starts. rewrite drop_0. by rewrite take_app_le. Qed.

Lemma magic_starts s lit :
  bytes_ok s -> bytes_ok lit -> length lit = 4%nat -> lacks 0 lit -> (3 <= length s)%nat ->
  (le_load (s ++ [0]) 0 4 =? MAKE_MAGIC4 lit) = starts lit s.
Proof.
  intros Hs Hlit H4 H0 Hl. unfold MAKE_MAGIC4. rewrite <- H4. rewrite le_load_eqb; [|done| |].
  - unfold starts. apply bool_decide_ext. destruct (decide (4 <= length s)%nat).
    + by rewrite take_app_le by lia.
    + rewrite (take_ge s) by lia. rewrite take_ge by (rewrite length_app; cbn; lia).
      split; intros H; exfalso.
      * rewrite <- H in H0. apply Forall_app in H0 as [_ H0]. by inversion H0.
      * rewrite H in n. lia.
  - apply Forall_app_2; [done|]. by repeat constructor.
  - rewrite length_app. cbn [length]. lia.
Qed.

(** Two different prefixes of the same length exclude each other. *)
Lemma starts_unique a b s :
  starts a s = true -> length a = length b -> a <> b -> starts b s = false.
Proof.
  unfold starts. intros H%bool_decide_eq_true Hl Hne. apply bool_decide_eq_false.
  rewrite <- Hl, H. done.
Qed.

Lemma starts_short lit s : (length s < length lit)%nat -> starts lit s = false.
Proof.
  intros H. apply not_true_iff_false. intros Hs. apply starts_length in Hs. lia.
Qed.

Lemma starts_space lit s : In 32 lit -> lacks 32 s -> starts lit s = false.
Proof.
  intros Hin Hs. unfold starts. apply bool_decide_eq_false. intros H.
  rewrite <- (take_drop (length lit) s) in Hs. rewrite H in Hs.
  apply Forall_app in Hs as [Hs _]. by apply (proj1 (Forall_forall _ _) Hs 32 Hin).
Qed.

Lemma starts_dele s : starts (bs "DELE") s && starts (bs "DELETE") s = starts (bs "DELETE") s.
Proof.
  destruct (starts (bs "DELETE") s) eqn:E; [|apply andb_false_r]. rewrite andb_true_r.
  unfold starts in *. apply bool_decide_eq_true in E. apply bool_decide_eq_true.
  change (length (bs "DELE")) with (Nat.min 4 (length (bs "DELETE"))).
  rewrite <- take_take, E. done.
Qed.

Lemma load3 s lit :
  bytes_ok s -> bytes_ok lit -> length lit = 3%nat -> length s = 3%nat ->
  (Z.land (le_load (s ++ [0]) 0 3) 16777215 =? le_load lit 0 3) = starts lit s.
Proof.
  intros Hs Hlit H3 Hl.
  rewrite (land_mask _ 24) by (lia || reflexivity).
  rewrite le_load_app_l by lia. pose proof (le_load_range s 0 3 Hs) as Hr.
  change (256 ^ Z.of_nat 3) with (2 ^ 24) in Hr. rewrite Z.mod_small by done.
  rewrite <- H3. rewrite le_load_eqb by (done || lia). done.
Qed.

(** the four-byte fast path and the exact comparisons recognise exactly the
    tokens of [method_spec]; every method name but CONNECT is read back from
    its printed form, and a token that only starts with POST or DELETE (say
    "POSTX") is taken for that method, which exact comparison would refuse. *)
Theorem method_lookup_spec s :
  bytes_ok s -> lacks 32 s -> lacks 0 s ->
  string_to_method s = method_spec s /\
  (forall m, m <> HTTP_CONNECT -> string_to_method (method_to_string m) = m) /\
  string_to_method (bs "POST" ++ s) = HTTP_POST /\
  string_to_method (bs "DELETE" ++ s) = HTTP_DELETE.
Proof.
  intros Hok Hsp H0.
  assert (Hspec : forall s, bytes_ok s -> lacks 32 s -> lacks 0 s ->
    string_to_method s = method_spec s).
  { clear s Hok Hsp H0. intros s Hok Hsp H0. unfold string_to_method, string_to_method_len.
    assert (Hlits : forall lit, In lit [bs "GET "; bs "PUT "; bs "POST"; bs "DELE"; bs "HEAD"] ->
      (3 <= length s)%nat -> (le_load (s ++ [0]) 0 4 =? MAKE_MAGIC4 lit) = starts lit s).
    { intros lit Hin Hl. apply magic_starts; try done;
        repeat (destruct Hin as [<-|Hin]; [by (reflexivity || (apply bytes_okb_ok; reflexivity) ||
          (apply (bool_decide_unpack _); vm_compute; exact I))|]); done. }
    unfold method_spec. rewrite !is_token_starts.
    change (length (bs "GET")) with 3%nat. change (length (bs "PUT")) with 3%nat.
    change (length (bs "HEAD")) with 4%nat. change (length (bs "PATCH")) with 5%nat.
    change (length (bs "OPTIONS")) with 7%nat.
    destruct (Nat.leb_spec 3 (length s)) as [H3|H3]; cycle 1.
    { rewrite (starts_short (bs "POST")), (starts_short (bs "DELETE")) by (cbn; lia).
      revert H3. unfold string_to_method_exact.
      destruct (length s) as [|[|[|n]]]; intros H3; [..|lia]; cbn [Nat.eqb]; by rewrite ?andb_false_r. }
    rewrite (proj2 (Nat.eqb_neq (length s) 0)) by lia.
    rewrite !Hlits by (cbn; tauto).
    rewrite (starts_space (bs "GET ")), (starts_space (bs "PUT ")) by (cbn; tauto || done).
    assert (Hdel : starts (bs "DELE") s && ((6 <=? length s)%nat && mem_is (s ++ [0]) 0 (bs "DELETE"))
      = starts (bs "DELETE") s).
    { destruct (Nat.leb_spec 6 (length s)); cbn [andb].
      - rewrite mem_is_starts by (cbn; lia). apply starts_dele.
      - rewrite (starts_short (bs "DELETE")) by (cbn; lia). apply andb_false_r. }
    rewrite Hdel. clear Hlits Hdel. unfold string_to_method_exact.
    destruct (Nat.eqb_spec (length s) 3) as [E3|N3].
    { rewrite E3. change 5522759 with (le_load (bs "GET") 0 3).
      change 5526864 with (le_load (bs "PUT") 0 3).
      rewrite !load3 by (done || (apply bytes_okb_ok; reflexivity)).
      rewrite (starts_short (bs "POST")), (starts_short (bs "DELETE")),
        (starts_short (bs "HEAD")) by (cbn; lia).
      cbn [Nat.eqb andb]. rewrite !andb_true_r, !andb_false_r.
      by destruct (starts (bs "GET") s), (starts (bs "PUT") s). }
    rewrite !andb_false_r. destruct (starts (bs "POST") s) eqn:EP; [done|].
    destruct (starts (bs "DELETE") s) eqn:ED; [done|].
    destruct (Nat.eqb_spec (length s) 4) as [E4|N4].
    { rewrite E4. cbn [Nat.eqb andb]. rewrite !andb_true_r, !andb_false_r.
      destruct (starts (bs "HEAD") s) eqn:EH; [done|].
      change 1414745936 with (MAKE_MAGIC4 (bs "POST")).
      change 1145128264 with (MAKE_MAGIC4 (bs "HEAD")).
      rewrite !magic_starts by (done || lia || (apply bytes_okb_ok; reflexivity) ||
        (apply (bool_decide_unpack _); vm_compute; exact I)). by rewrite EP, EH. }
    rewrite !andb_false_r.
    destruct (Nat.eqb_spec (length s) 5) as [E5|N5].
    { rewrite mem_is_starts, E5 by (cbn; lia). cbn [Nat.eqb]. by rewrite andb_true_r, andb_false_r. }
    rewrite !andb_false_r.
    destruct (Nat.eqb_spec (length s) 6) as [E6|N6].
    { rewrite mem_is_starts, ED, E6 by (cbn; lia). cbn [Nat.eqb]. by rewrite andb_false_r. }
    destruct (Nat.eqb_spec (length s) 7) as [E7|N7].
    { rewrite mem_is_starts by (cbn; lia). by rewrite andb_true_r. }
    by rewrite andb_false_r. }
  split; [by apply Hspec|]. split; [by intros []|].
  assert (Happ : forall lit, bytes_okb lit = true -> bool_decide (lacks 32 lit) = true ->
    bool_decide (lacks 0 lit) = true -> string_to_method (lit ++ s) = method_spec (lit ++ s)).
  { intros lit Ha Hb%bool_decide_eq_true Hc%bool_decide_eq_true.
    apply Hspec; apply Forall_app_2; try done. by apply bytes_okb_ok. }
  split; rewrite Happ by (vm_compute; reflexivity); reflexivity.
Qed.

Lemma method_lookup_spec_witness :
  string_to_method (bs "POSTX") = HTTP_POST /\ string_to_method (bs "PATCHX") = HTTP_UNKNOWN.
Proof.
  split; [|reflexivity].
  apply (method_lookup_spec (bs "X")); [apply bytes_okb_ok; reflexivity|..];
    apply (bool_decide_unpack _); vm_compute; exact I.
Defined.
