(* ===== verification/HttpResponse.v ===== *)
(** * HTTP/1.1 responses (src/src/net/http/http.c)

    [serialize_headers], [cwist_http_response_serialize] and the streaming
    producer ([stream_begin], [stream_write], [stream_end], [stream_flush]).

    [buf_size] bytes are available to the header block; each piece is appended
    after the capacity test the code makes for it.  The cached Date string (a
    clock) is an argument; the sink callback is the list of its return codes
    still to come ([] : 0 from now on) together with everything it accepted. *)

From S2P Require Import Prelude QueryMap SimdParser Http1.

Definition CWIST_HTTP_MAX_HEADER_SIZE : Z := 8192.
Definition CWIST_HTTP_MAX_BODY_SIZE : Z := 10485760.

(** [CWIST_HTTP_STATUS_FORBIDS_BODY] *)
Definition status_forbids_body (status : Z) : bool :=
  ((100 <=? status) && (status <? 200)) || (status =? 204) || (status =? 205) || (status =? 304).

(** ** State *)

Record http_response : Type := MkResponse {
  rs_status_code : Z;
  rs_status_text : option bytes;
  rs_version : option bytes;
  rs_headers : list header;
  rs_body : option bytes;
  rs_keep_alive : bool;
  rs_is_ptr_body : bool;
  rs_ptr_body : bytes;
  rs_use_file_stream : bool;
  rs_file_stream_len : Z;
  rs_alt_svc : option bytes;
  rs_stream_mode : bool;
  rs_stream_ended : bool;
  rs_stream_failed : bool;
  rs_stream_head_sent : bool;
  rs_stream_buf : option bytes;
  rs_stream_flushed : nat;
  rs_stream_sink : option (list Z);
  rs_sink_got : bytes
}.
#[export] Instance http_response_fields : Fields http_response := fun r =>
  MkResponse (rs_status_code r) (rs_status_text r) (rs_version r) (rs_headers r) (rs_body r)
    (rs_keep_alive r) (rs_is_ptr_body r) (rs_ptr_body r) (rs_use_file_stream r)
    (rs_file_stream_len r) (rs_alt_svc r) (rs_stream_mode r) (rs_stream_ended r)
    (rs_stream_failed r) (rs_stream_head_sent r) (rs_stream_buf r) (rs_stream_flushed r)
    (rs_stream_sink r) (rs_sink_got r).

(** ** The header block *)

(** [if (offset + n > buf_size) return 0; memcpy(...); offset += n] *)
Definition emit (buf_size : Z) (piece : bytes) (out : option bytes) : option bytes :=
  match out with
  | Some o => if buf_size <? blen o + blen piece then None else Some (o ++ piece)
  | None => None
  end.

Definition body_length (res : http_response) : Z :=
  if status_forbids_body res.(rs_status_code) then 0
  else if res.(rs_use_file_stream) then res.(rs_file_stream_len)
  else if res.(rs_is_ptr_body) then blen res.(rs_ptr_body)
  else match res.(rs_body) with Some b => blen b | None => 0 end.

Definition fast_path (res : http_response) (buf_size : Z) : bool :=
  (res.(rs_status_code) =? 200) && bool_decide (res.(rs_headers) = []) &&
  bool_decide (res.(rs_alt_svc) = None) && negb res.(rs_stream_mode) && (128 <=? buf_size).

Definition fast_headers (res : http_response) : bytes :=
  bs "HTTP/1.1 200 OK" ++ crlf ++ bs "Content-Length: " ++ dec (body_length res) ++
  (if res.(rs_keep_alive) then crlf ++ bs "Connection: keep-alive" ++ crlf ++ crlf
   else crlf ++ bs "Connection: close" ++ crlf ++ crlf).

(** The reason phrase: a custom one, the standard one of the code, or "OK". *)
Definition status_text_of (res : http_response) : bytes :=
  let txt := cstr <$> res.(rs_status_text) in
  let txt :=
    if bool_decide (txt = None) ||
       (negb (res.(rs_status_code) =? 200) && bool_decide (txt = Some (bs "OK")))
    then match status_reason res.(rs_status_code) with Some r => Some r | None => txt end
    else txt in
  default (bs "OK") txt.

Definition status_line (res : http_response) : bytes :=
  match res.(rs_version) with Some v => cstr v | None => bs "HTTP/1.1" end ++ [32] ++
  dec (u32 res.(rs_status_code)) ++ [32] ++ status_text_of res.

Record seen_headers : Type := MkSeen {
  have_date : bool; have_clen : bool; have_conn : bool; have_te : bool }.

(** A field that a body-less status must not carry. *)
Definition suppressed (bodyless : bool) (status : Z) (h : header) : bool :=
  (bodyless && negb (status =? 304) && (length h.1 =? 14)%nat &&
     case_eq (cstr h.1) (bs "content-length")) ||
  (bodyless && (length h.1 =? 17)%nat && case_eq (cstr h.1) (bs "transfer-encoding")).

Definition see_header (key : bytes) (s : seen_headers) : seen_headers :=
  let klen := length key in
  let k0 := rd key 0 in
  if (klen =? 4)%nat && ((k0 =? 68) || (k0 =? 100)) then
    if case_eq (cstr key) (bs "date")
    then MkSeen true s.(have_clen) s.(have_conn) s.(have_te) else s
  else if (klen =? 14)%nat && ((k0 =? 67) || (k0 =? 99)) then
    if case_eq (cstr key) (bs "content-length")
    then MkSeen s.(have_date) true s.(have_conn) s.(have_te) else s
  else if (klen =? 10)%nat && ((k0 =? 67) || (k0 =? 99)) then
    if case_eq (cstr key) (bs "connection")
    then MkSeen s.(have_date) s.(have_clen) true s.(have_te) else s
  else if (klen =? 17)%nat && ((k0 =? 84) || (k0 =? 116)) then
    if case_eq (cstr key) (bs "transfer-encoding")
    then MkSeen s.(have_date) s.(have_clen) s.(have_conn) true else s
  else s.

Fixpoint emit_headers (bodyless : bool) (status buf_size : Z) (hs : list header)
    (s : seen_headers) (out : option bytes) : seen_headers * option bytes :=
  match hs with
  | [] => (s, out)
  | h :: rest =>
      if suppressed bodyless status h then emit_headers bodyless status buf_size rest s out
      else emit_headers bodyless status buf_size rest (see_header h.1 s)
             (emit buf_size (h.1 ++ [58; 32] ++ h.2 ++ crlf) out)
  end.

(** [serialize_headers]; 0 (does not fit) is [None].  [snprintf] of the Alt-Svc
    line needs room for its NUL as well. *)
Definition serialize_headers (date : option bytes) (res : http_response) (buf_size : Z)
    : option bytes :=
  let bodyless := status_forbids_body res.(rs_status_code) in
  if fast_path res buf_size then Some (fast_headers res)
  else
    let out := emit buf_size (status_line res ++ crlf) (Some []) in
    let '(s, out) := emit_headers bodyless res.(rs_status_code) buf_size res.(rs_headers)
                       (MkSeen false false false false) out in
    let out :=
      match s.(have_date), date with
      | false, Some d => emit buf_size (bs "Date: " ++ sub d 0 29 ++ crlf) out
      | _, _ => out
      end in
    let out :=
      if negb bodyless && res.(rs_stream_mode) && negb s.(have_te) && negb s.(have_clen)
      then emit buf_size (bs "Transfer-Encoding: chunked" ++ crlf) out else out in
    let out :=
      if negb bodyless && negb s.(have_clen) && negb res.(rs_stream_mode)
      then emit buf_size (bs "Content-Length: " ++ dec (body_length res) ++ crlf) out else out in
    let out :=
      if negb s.(have_conn) then
        if res.(rs_keep_alive) then emit buf_size (bs "Connection: keep-alive" ++ crlf) out
        else emit buf_size (bs "Connection: close" ++ crlf) out
      else out in
    let out :=
      match res.(rs_alt_svc), out with
      | Some a, Some o =>
          let line := bs "Alt-Svc: " ++ cstr a ++ crlf in
          if (buf_size <=? blen o) || (buf_size - blen o <=? blen line) then None
          else Some (o ++ line)
      | _, _ => out
      end in
    emit buf_size crlf out.

(** ** The streaming producer *)

(** One sink call: its return code, and the bytes it was handed. *)
Definition sink_call (res : http_response) (codes : list Z) (data : bytes) : bool * http_response :=
  let '(rc, codes) := match codes with [] => (0, []) | c :: cs => (c, cs) end in
  (rc =? 0, res <| rs_stream_sink := Some codes |>
                <| rs_sink_got := res.(rs_sink_got) ++ (if rc =? 0 then data else []) |>).

(** Sending the head, the first half of a flush. *)
Definition send_head (date : option bytes) (res : http_response) (codes : list Z)
    : bool * http_response :=
  if negb res.(rs_stream_head_sent) then
    match serialize_headers date res CWIST_HTTP_MAX_HEADER_SIZE with
    | None => (false, res)
    | Some h =>
        if (blen h =? 0) || (CWIST_HTTP_MAX_HEADER_SIZE <=? blen h) then (false, res) else
        match sink_call res codes h with
        | (true, res) => (true, res <| rs_stream_head_sent := true |>)
        | (false, res) => (false, res)
        end
    end
  else (true, res).

(** [cwist_response_stream_flush]: true is 0. *)
Definition stream_flush (date : option bytes) (res : http_response) : bool * http_response :=
  match res.(rs_stream_sink) with
  | None => (true, res)
  | Some codes =>
      match send_head date res codes with
      | (false, res) => (false, res)
      | (true, res) =>
          let pending := match res.(rs_stream_buf) with
                         | Some b => (length b - res.(rs_stream_flushed))%nat
                         | None => O end in
          if (0 <? pending)%nat then
            let b := default [] res.(rs_stream_buf) in
            match sink_call res (default [] res.(rs_stream_sink)) (drop res.(rs_stream_flushed) b) with
            | (true, res) => (true, res <| rs_stream_flushed := length b |>)
            | (false, res) => (false, res)
            end
          else (true, res)
      end
  end.

(** [cwist_http_response_stream_begin] *)
Definition stream_begin (res : http_response) : bool * http_response :=
  if res.(rs_stream_mode) || res.(rs_is_ptr_body) || res.(rs_use_file_stream) then (false, res)
  else (true, res <| rs_stream_mode := true |>
                  <| rs_body := match res.(rs_body) with Some _ => Some [] | None => None end |>).

(** [%zx] *)
Definition hex_digit (d : Z) : Z := if d <? 10 then 48 + d else 87 + d.
Fixpoint hex_loop (fuel : nat) (n : Z) : bytes :=
  match fuel with
  | O => []
  | S fuel => (if n <? 16 then [] else hex_loop fuel (n / 16)) ++ [hex_digit (n mod 16)]
  end.
Definition hex (n : Z) : bytes := hex_loop 16 n.

(** The frame of one chunk. *)
Definition chunk_frame (data : bytes) : bytes := hex (blen data) ++ crlf ++ data ++ crlf.
Definition last_chunk : bytes := bs "0" ++ crlf ++ crlf.

(** Appends [pieces] to the stream buffer, one [cwist_sstring_append_len] each;
    the growth policy of the buffer is not modelled, any append may find no
    memory. *)
Fixpoint append_pieces (buf : bytes) (pieces : list bytes) (o : oracle) : bool * bytes * oracle :=
  match pieces with
  | [] => (true, buf, o)
  | p :: rest =>
      match alloc o with
      | (true, o) => append_pieces (buf ++ p) rest o
      | (false, o) => (false, buf, o)
      end
  end.

(** The stream buffer, created on first use. *)
Definition stream_buffer (res : http_response) (o : oracle) : option bytes * oracle :=
  match res.(rs_stream_buf) with
  | Some b => (Some b, o)
  | None => match alloc o with (true, o) => (Some [], o) | (false, o) => (None, o) end
  end.

Definition stream_append (date : option bytes) (res : http_response) (pieces : list bytes)
    (o : oracle) : bool * http_response * oracle :=
  match stream_buffer res o with
  | (None, o) => (false, res, o)
  | (Some b, o) =>
      match append_pieces b pieces o with
      | (false, b, o) => (false, res <| rs_stream_buf := Some b |>, o)
      | (true, b, o) =>
          match stream_flush date (res <| rs_stream_buf := Some b |>) with
          | (true, res) => (true, res, o)
          | (false, res) => (false, res <| rs_stream_failed := true |>, o)
          end
      end
  end.

(** [cwist_http_response_stream_write] *)
Definition stream_write (date : option bytes) (res : http_response) (data : option bytes)
    (o : oracle) : bool * http_response * oracle :=
  if negb res.(rs_stream_mode) || res.(rs_stream_ended) then (false, res, o) else
  match data with
  | None => (false, res, o)
  | Some data =>
      if status_forbids_body res.(rs_status_code) then (stream_flush date res, o)
      else if (length data =? 0)%nat then (true, res, o)
      else stream_append date res [hex (blen data) ++ crlf; data; crlf] o
  end.

(** [cwist_http_response_stream_end] *)
Definition stream_end (date : option bytes) (res : http_response) (o : oracle)
    : bool * http_response * oracle :=
  if negb res.(rs_stream_mode) || res.(rs_stream_ended) then (false, res, o)
  else if status_forbids_body res.(rs_status_code) then
    (stream_flush date (res <| rs_stream_ended := true |>), o)
  else
    match stream_append date res [last_chunk] o with
    | (true, res, o) => (true, res <| rs_stream_ended := true |>, o)
    | (false, res, o) => (false, res, o)
    end.

(** [cwist_http_response_serialize]: header block and body; an unfinished stream
    is ended first. *)
Definition response_serialize (date : option bytes) (res : http_response) (o : oracle)
    : option bytes * http_response * oracle :=
  let bodyless := status_forbids_body res.(rs_status_code) in
  if negb bodyless && res.(rs_use_file_stream) then (None, res, o) else
  match serialize_headers date res CWIST_HTTP_MAX_HEADER_SIZE with
  | None => (None, res, o)
  | Some h =>
      let '(body, res, o) :=
        if bodyless then ([], res, o)
        else if res.(rs_stream_mode) then
          let '(res, o) := if negb res.(rs_stream_ended)
                           then let '(_, r, o) := stream_end date res o in (r, o)
                           else (res, o) in
          (default [] res.(rs_stream_buf), res, o)
        else if res.(rs_is_ptr_body) then (res.(rs_ptr_body), res, o)
        else (default [] res.(rs_body), res, o) in
      match alloc o with
      | (true, o) => (Some (h ++ body), res, o)
      | (false, o) => (None, res, o)
      end
  end.

(** ** What the header block is: its lines *)

Definition kept (res : http_response) : list header :=
  filter (fun h => suppressed (status_forbids_body res.(rs_status_code)) res.(rs_status_code) h = false)
    res.(rs_headers).

(** The response already has a field of this name. *)
Definition given (n : bytes) (hs : list header) : bool :=
  existsb (fun h => (length h.1 =? length n)%nat && case_eq (cstr h.1) n) hs.

(** The line that frames the body, chosen by the server. *)
Definition framing_lines (res : http_response) : list bytes :=
  if status_forbids_body res.(rs_status_code) || given (bs "content-length") (kept res) then []
  else if res.(rs_stream_mode) then
    if given (bs "transfer-encoding") (kept res) then [] else [bs "Transfer-Encoding: chunked"]
  else [bs "Content-Length: " ++ dec (body_length res)].

Definition connection_line (res : http_response) : bytes :=
  if res.(rs_keep_alive) then bs "Connection: keep-alive" else bs "Connection: close".

Definition header_lines (date : option bytes) (res : http_response) (buf_size : Z) : list bytes :=
  if fast_path res buf_size then
    [bs "HTTP/1.1 200 OK"; bs "Content-Length: " ++ dec (body_length res); connection_line res]
  else
    [status_line res] ++ map header_text (kept res) ++
    (if given (bs "date") (kept res) then []
     else match date with Some d => [bs "Date: " ++ sub d 0 29] | None => [] end) ++
    framing_lines res ++
    (if given (bs "connection") (kept res) then [] else [connection_line res]) ++
    match res.(rs_alt_svc) with Some a => [bs "Alt-Svc: " ++ cstr a] | None => [] end.

(** ** Lemmas *)

Definition fits (n : Z) (t : bytes) : option bytes := if n <? blen t then None else Some t.

Lemma emit_fits n a b : emit n b (fits n a) = fits n (a ++ b).
Proof.
  unfold emit, fits. rewrite blen_app. pose proof (blen_nonneg b).
  destruct (Z.ltb_spec n (blen a)); [|done].
  by rewrite (proj2 (Z.ltb_lt _ _)) by lia.
Qed.

Lemma crlf_lines_app a b : crlf_lines (a ++ b) = crlf_lines a ++ crlf_lines b.
Proof. induction a as [|x a IH]; [done|]. cbn [crlf_lines app]. by rewrite IH, <- !app_assoc. Qed.

Lemma emit_line n ls l :
  emit n (l ++ crlf) (fits n (crlf_lines ls)) = fits n (crlf_lines (ls ++ [l])).
Proof.
  rewrite emit_fits, crlf_lines_app. cbn [crlf_lines]. unfold crlf. by rewrite app_nil_r.
Qed.

Lemma emit_headers_fits bodyless status n hs : forall s ls,
  emit_headers bodyless status n hs s (fits n (crlf_lines ls)) =
  let k := filter (fun h => suppressed bodyless status h = false) hs in
  (foldl (fun s h => see_header h.1 s) s k, fits n (crlf_lines (ls ++ map header_text k))).
Proof.
  induction hs as [|h hs IH]; intros s ls; cbn [emit_headers].
  { cbn. by rewrite app_nil_r. }
  rewrite filter_cons. destruct (suppressed bodyless status h) eqn:E.
  - rewrite decide_False by done. apply IH.
  - rewrite decide_True by done. cbv zeta. cbn [foldl map].
    assert (Hl : h.1 ++ [58; 32] ++ h.2 ++ crlf = header_text h ++ crlf)
      by (unfold header_text; by rewrite <- !app_assoc).
    rewrite Hl, emit_line, IH. cbv zeta. by rewrite <- app_assoc.
Qed.

(** The single-pass detection agrees with a search by name. *)
Lemma see_header_spec key s :
  bytes_ok key ->
  see_header key s =
  MkSeen (s.(have_date) || ((length key =? 4)%nat && case_eq (cstr key) (bs "date")))
    (s.(have_clen) || ((length key =? 14)%nat && case_eq (cstr key) (bs "content-length")))
    (s.(have_conn) || ((length key =? 10)%nat && case_eq (cstr key) (bs "connection")))
    (s.(have_te) || ((length key =? 17)%nat && case_eq (cstr key) (bs "transfer-encoding"))).
Proof.
  intros Hok.
  assert (Hk : forall lit n a, (length key =? n)%nat = true -> case_eq (cstr key) lit = true ->
    length lit = n -> tolower (rd lit 0) = a -> n <> 0%nat -> 97 <= a <= 122 ->
    (rd key 0 =? a - 32) || (rd key 0 =? a) = true).
  { intros lit n a Hn%Nat.eqb_eq Hc Hl Ha Hn0 Hr.
    destruct key as [|c key]; [simpl in Hn; congruence|].
    cbn [cstr rd nth] in *. destruct (Z.eqb_spec c 0) as [->|].
    { apply case_eq_length in Hc. cbn in Hc. congruence. }
    apply case_eq_first in Hc; [|done]. rewrite Ha in Hc. unfold rd in Hc. cbn [nth] in Hc.
    unfold tolower in Hc. unfold rd. cbn [nth]. destruct ((65 <=? c) && (c <=? 90)) eqn:E; lia. }
  unfold see_header. destruct s as [d cl cn te]. cbn [have_date have_clen have_conn have_te].
  destruct (length key =? 4)%nat eqn:E4.
  { rewrite !(proj2 (Nat.eqb_neq _ _)) by (apply Nat.eqb_eq in E4; lia). cbn [andb].
    rewrite !orb_false_r. destruct (case_eq (cstr key) (bs "date")) eqn:Ec.
    - pose proof (Hk _ 4%nat 100 E4 Ec) as H. cbn [Z.sub] in H.
      change (100 - 32) with 68 in H. rewrite H by done. by rewrite orb_true_r.
    - rewrite orb_false_r. by destruct (_ || _). }
  destruct (length key =? 14)%nat eqn:E14.
  { rewrite !(proj2 (Nat.eqb_neq (length key) 10)), !(proj2 (Nat.eqb_neq (length key) 17))
      by (apply Nat.eqb_eq in E14; lia). cbn [andb].
    rewrite !orb_false_r. destruct (case_eq (cstr key) (bs "content-length")) eqn:Ec.
    - pose proof (Hk _ 14%nat 99 E14 Ec) as H.
      change (99 - 32) with 67 in H. rewrite H by done. by rewrite orb_true_r.
    - rewrite orb_false_r. by destruct (_ || _). }
  destruct (length key =? 10)%nat eqn:E10.
  { rewrite !(proj2 (Nat.eqb_neq (length key) 17)) by (apply Nat.eqb_eq in E10; lia). cbn [andb].
    rewrite !orb_false_r. destruct (case_eq (cstr key) (bs "connection")) eqn:Ec.
    - pose proof (Hk _ 10%nat 99 E10 Ec) as H.
      change (99 - 32) with 67 in H. rewrite H by done. by rewrite orb_true_r.
    - rewrite orb_false_r. by destruct (_ || _). }
  destruct (length key =? 17)%nat eqn:E17.
  { cbn [andb]. rewrite !orb_false_r. destruct (case_eq (cstr key) (bs "transfer-encoding")) eqn:Ec.
    - pose proof (Hk _ 17%nat 116 E17 Ec) as H.
      change (116 - 32) with 84 in H. rewrite H by done. by rewrite orb_true_r.
    - rewrite orb_false_r. by destruct (_ || _). }
  cbn [andb]. by rewrite !orb_false_r.
Qed.

Definition names_ok (hs : list header) : Prop := Forall (fun h => bytes_ok h.1) hs.

Lemma see_headers_given hs : forall s,
  names_ok hs ->
  foldl (fun s h => see_header h.1 s) s hs =
  MkSeen (s.(have_date) || given (bs "date") hs) (s.(have_clen) || given (bs "content-length") hs)
    (s.(have_conn) || given (bs "connection") hs) (s.(have_te) || given (bs "transfer-encoding") hs).
Proof.
  induction hs as [|h hs IH]; intros s Hok.
  { cbn [given existsb foldl]. rewrite !orb_false_r. by destruct s. }
  apply Forall_cons_1 in Hok as [Hh Hok]. cbn [foldl]. rewrite IH, see_header_spec by done.
  cbn [have_date have_clen have_conn have_te given existsb]. by rewrite !orb_assoc.
Qed.

(** One optional line. *)
Lemma emit_opt n ls l (c : bool) :
  (if c then emit n (l ++ crlf) (fits n (crlf_lines ls)) else fits n (crlf_lines ls)) =
  fits n (crlf_lines (ls ++ if c then [l] else [])).
Proof. destruct c; [apply emit_line|by rewrite app_nil_r]. Qed.

Lemma Forall_kept (P : header -> Prop) res : Forall P res.(rs_headers) -> Forall P (kept res).
Proof.
  intros Hok. apply Forall_lookup_2. intros i h Hh%list_elem_of_lookup_2.
  apply list_elem_of_filter in Hh as [_ Hh]. apply list_elem_of_lookup in Hh as [j Hj].
  exact (Forall_lookup_1 _ _ _ _ Hok Hj).
Qed.

Lemma names_ok_kept res : names_ok res.(rs_headers) -> names_ok (kept res).
Proof. apply Forall_kept. Qed.

Lemma alt_svc_fits n ls (alt : option bytes) :
  0 <= n ->
  emit n crlf
    (match alt, fits n (crlf_lines ls) with
     | Some a, Some o =>
         if (n <=? blen o) || (n - blen o <=? blen (bs "Alt-Svc: " ++ cstr a ++ crlf)) then None
         else Some (o ++ bs "Alt-Svc: " ++ cstr a ++ crlf)
     | _, _ => fits n (crlf_lines ls)
     end) =
  fits n (crlf_lines (ls ++ match alt with Some a => [bs "Alt-Svc: " ++ cstr a] | None => [] end) ++
          crlf).
Proof.
  intros Hn. destruct alt as [a|]; [|by rewrite app_nil_r, emit_fits].
  rewrite crlf_lines_app. cbn [crlf_lines]. rewrite app_nil_r, <- !app_assoc.
  set (line := bs "Alt-Svc: " ++ cstr a ++ crlf).
  replace (crlf_lines ls ++ bs "Alt-Svc: " ++ cstr a ++ crlf ++ crlf)
    with (crlf_lines ls ++ line ++ crlf) by (subst line; by rewrite <- !app_assoc).
  set (o := crlf_lines ls). unfold fits. rewrite !blen_app.
  assert (Hc : blen crlf = 2) by reflexivity. rewrite Hc.
  pose proof (blen_nonneg line). pose proof (blen_nonneg o).
  destruct (Z.ltb_spec n (blen o)); [by rewrite (proj2 (Z.ltb_lt _ _)) by lia|].
  destruct (Z.leb_spec n (blen o)).
  { cbn [orb emit]. by rewrite (proj2 (Z.ltb_lt _ _)) by lia. }
  cbn [orb]. destruct (Z.leb_spec (n - blen o) (blen line)).
  { cbn [emit]. by rewrite (proj2 (Z.ltb_lt _ _)) by lia. }
  unfold emit. by rewrite blen_app, Hc, <- app_assoc, Z.add_assoc.
Qed.

Lemma serialize_general date res n :
  0 <= n -> names_ok res.(rs_headers) -> fast_path res n = false ->
  serialize_headers date res n = fits n (crlf_lines (header_lines date res n) ++ crlf).
Proof.
  intros Hn Hok Hfast. unfold serialize_headers, header_lines. cbv zeta. rewrite Hfast.
  assert (H0 : Some [] = fits n (crlf_lines [])).
  { unfold fits, blen. cbn [crlf_lines length]. by destruct (Z.ltb_spec n (Z.of_nat 0)); [lia|]. }
  rewrite H0, emit_line, emit_headers_fits. cbv zeta. fold (kept res).
  rewrite see_headers_given by (by apply names_ok_kept).
  cbn [have_date have_clen have_conn have_te orb app].
  set (hs := kept res). set (ls := status_line res :: map header_text hs).
  set (b := status_forbids_body (rs_status_code res)).
  replace (match given (bs "date") hs, date with
           | false, Some d => emit n (bs "Date: " ++ sub d 0 29 ++ crlf) (fits n (crlf_lines ls))
           | _, _ => fits n (crlf_lines ls)
           end)
    with (fits n (crlf_lines (ls ++ if given (bs "date") hs then []
                                    else match date with Some d => [bs "Date: " ++ sub d 0 29] | None => [] end))).
  2: { destruct (given (bs "date") hs), date as [d|]; rewrite ?app_nil_r; try done.
       by rewrite !app_assoc, emit_line. }
  rewrite emit_opt, (app_assoc (bs "Content-Length: ")), emit_opt.
  match goal with |- context [fits n (crlf_lines (?l ++ if _ then [bs "Content-Length: " ++ _] else []))] =>
    set (ls1 := l) end.
  set (ls2 := ls1 ++ _).
  replace (if negb (given (bs "connection") hs)
           then if rs_keep_alive res
                then emit n (bs "Connection: keep-alive" ++ crlf) (fits n (crlf_lines ls2))
                else emit n (bs "Connection: close" ++ crlf) (fits n (crlf_lines ls2))
           else fits n (crlf_lines ls2))
    with (fits n (crlf_lines (ls2 ++ if given (bs "connection") hs then [] else [connection_line res]))).
  2: { unfold connection_line. destruct (given (bs "connection") hs), (rs_keep_alive res);
         rewrite ?app_nil_r, ?emit_line; done. }
  rewrite alt_svc_fits by done. do 3 f_equal. subst ls2 ls1 ls. unfold framing_lines. fold b hs.
  destruct b, (rs_stream_mode res), (given (bs "transfer-encoding") hs),
    (given (bs "content-length") hs); cbn [negb andb orb app]; rewrite <- ?app_assoc;
    cbn [app]; rewrite <- ?app_assoc; done.
Qed.

Lemma length_dec n : is_u64 n -> (length (dec n) <= 20)%nat.
Proof. intros H. apply (dec_spec n H). Qed.

Lemma fast_path_fits date res n :
  is_u64 (body_length res) -> fast_path res n = true ->
  Some (fast_headers res) = fits n (crlf_lines (header_lines date res n) ++ crlf).
Proof.
  intros Hl Hf. unfold header_lines, connection_line. rewrite Hf.
  assert (Ht : fast_headers res = crlf_lines
    [bs "HTTP/1.1 200 OK"; bs "Content-Length: " ++ dec (body_length res);
     if rs_keep_alive res then bs "Connection: keep-alive" else bs "Connection: close"] ++ crlf).
  { unfold fast_headers. cbn [crlf_lines]. destruct (rs_keep_alive res);
      rewrite <- !app_assoc; done. }
  rewrite <- Ht. unfold fast_path in Hf. apply andb_prop in Hf as [_ Hn%Z.leb_le].
  unfold fits. destruct (Z.ltb_spec n (blen (fast_headers res))) as [H|]; [|done]. exfalso.
  unfold fast_headers, blen in H. destruct (rs_keep_alive res); rewrite !length_app in H;
    pose proof (length_dec _ Hl);
    assert (length (bs "HTTP/1.1 200 OK") = 15%nat) by reflexivity;
    assert (length (bs "Content-Length: ") = 16%nat) by reflexivity;
    assert (length (bs "Connection: keep-alive") = 22%nat) by reflexivity;
    assert (length (bs "Connection: close") = 17%nat) by reflexivity;
    assert (length crlf = 2%nat) by reflexivity; lia.
Qed.

Lemma serialize_fits date res n :
  0 <= n -> names_ok res.(rs_headers) -> is_u64 (body_length res) ->
  serialize_headers date res n = fits n (crlf_lines (header_lines date res n) ++ crlf).
Proof.
  intros Hn Hok Hl. destruct (fast_path res n) eqn:Hf; [|by apply serialize_general].
  unfold serialize_headers. cbv zeta. rewrite Hf. by apply fast_path_fits.
Qed.

(** Text that may stand in a line: bytes without CR or LF. *)
Definition text_safe (t : bytes) : Prop := bytes_ok t /\ header_text_is_safe (Some t) = true.
Definition opt_safe (t : option bytes) : Prop := match t with Some t => text_safe t | None => True end.

(** The fields a handler sets, as [cwist_http_header_add] accepts them. *)
Record head_safe (date : option bytes) (res : http_response) : Prop := {
  hs_headers : Forall (fun h => text_safe h.1 /\ text_safe h.2) res.(rs_headers);
  hs_text : opt_safe res.(rs_status_text);
  hs_version : opt_safe res.(rs_version);
  hs_alt : opt_safe res.(rs_alt_svc);
  hs_date : opt_safe date;
  hs_length : is_u64 (body_length res)
}.

Definition line_safe (l : bytes) : Prop := bytes_ok l /\ lacks 13 l /\ lacks 10 l.

Lemma text_safe_line t : text_safe t <-> line_safe t.
Proof.
  unfold text_safe, line_safe, lacks, header_text_is_safe. rewrite forallb_forall.
  split; [intros [Hb H]|intros (Hb & H1 & H2)]; (split; [done|]).
  - split; apply Forall_lookup_2; intros i x Hx; apply list_elem_of_lookup_2, list_elem_of_In in Hx;
      specialize (H x Hx); cbn in H; lia.
  - intros x Hi. apply list_elem_of_In, list_elem_of_lookup in Hi as [i Hi].
    pose proof (Forall_lookup_1 _ _ _ _ H1 Hi). pose proof (Forall_lookup_1 _ _ _ _ H2 Hi).
    cbn in *. lia.
Qed.

Lemma line_safe_app a b : line_safe a -> line_safe b -> line_safe (a ++ b).
Proof. intros (?&?&?) (?&?&?). split; [|split]; by apply Forall_app_2. Qed.

Lemma Forall_cstr (Q : Z -> Prop) l : Forall Q l -> Forall Q (cstr l).
Proof.
  induction 1 as [|x l Hx _ IH]; [done|]. cbn [cstr]. destruct (x =? 0); by constructor.
Qed.

Lemma line_safe_cstr l : text_safe l -> line_safe (cstr l).
Proof.
  intros (H1 & H2 & H3)%text_safe_line. split; [|split]; by apply Forall_cstr.
Qed.

Lemma line_safe_sub l k : text_safe l -> line_safe (sub l 0 k).
Proof.
  intros (H1 & H2 & H3)%text_safe_line. split; [|split]; by apply Forall_take.
Qed.

Lemma line_safe_lit s : bytes_okb (bs s) = true -> bool_decide (lacks 13 (bs s)) = true ->
  bool_decide (lacks 10 (bs s)) = true -> line_safe (bs s).
Proof.
  intros H1 H2 H3. split; [by apply bytes_okb_ok|].
  split; by eapply bool_decide_eq_true_1.
Qed.

Lemma line_safe_dec n : is_u64 n -> line_safe (dec n).
Proof.
  intros Hn. destruct (dec_spec n Hn) as (_ & H & _). unfold line_safe, lacks, bytes_ok.
  unfold isdigit in H. split; [|split]; revert H; apply Forall_impl; intros; mlia.
Qed.

(** Closes the safety of a line built from literals and safe parts. *)
Ltac safe_line :=
  repeat first
    [ apply line_safe_dec; assumption
    | apply line_safe_app
    | apply line_safe_lit; reflexivity
    | apply line_safe_cstr; assumption
    | apply line_safe_sub; assumption
    | apply text_safe_line; assumption ].

Lemma status_reasons_safe r status : status_reason status = Some r -> line_safe r.
Proof.
  unfold status_reason. intros H. destruct (find _ _) as [[k v]|] eqn:E; [|done].
  apply find_some in E as [Hin _]. cbn in H. injection H as ->.
  assert (Hall : forallb (fun e => bytes_okb (snd e) && header_text_is_safe (Some (snd e)))
            status_reasons = true) by reflexivity.
  pose proof (proj1 (forallb_forall _ _) Hall _ Hin) as Hr. cbn [snd] in Hr.
  apply andb_prop in Hr as [H1 H2]. apply text_safe_line. split; [by apply bytes_okb_ok|done].
Qed.

Lemma status_line_safe date res : head_safe date res -> line_safe (status_line res).
Proof.
  intros [_ Ht Hv _ _ _]. unfold status_line.
  assert (H32 : line_safe [32]) by (split; [|split]; repeat constructor; lia).
  apply line_safe_app; [|apply line_safe_app; [done|apply line_safe_app; [|apply line_safe_app; [done|]]]].
  - destruct (rs_version res); safe_line.
  - apply line_safe_dec. pose proof (u32_range (rs_status_code res)). mlia.
  - unfold status_text_of. cbv zeta. destruct (rs_status_text res) as [t|]; cbn [fmap option_fmap option_map].
    + assert (Hc : line_safe (cstr t)) by safe_line.
      match goal with |- context [if ?b then _ else _] => destruct b end; [|done].
      destruct (status_reason (rs_status_code res)) eqn:E; [|done].
      by apply status_reasons_safe in E.
    + change (bool_decide (None = None) || _) with (true || false). cbn [orb].
      destruct (status_reason (rs_status_code res)) eqn:E; [exact (status_reasons_safe _ _ E)|].
      change (line_safe (bs "OK")). safe_line.
Qed.

Definition line_ok (l : bytes) : Prop := line_safe l /\ l <> [].

Lemma line_ok_one l : line_safe l -> l <> [] -> Forall line_ok [l].
Proof. intros. constructor; [done|constructor]. Qed.

Lemma header_lines_safe date res n :
  head_safe date res -> Forall line_ok (header_lines date res n).
Proof.
  intros Hs. pose proof (status_line_safe _ _ Hs) as Hst. destruct Hs as [Hh _ _ Ha Hd Hl].
  assert (Hconn : Forall line_ok [connection_line res])
    by (unfold connection_line; destruct (rs_keep_alive res); apply line_ok_one; (done || safe_line)).
  assert (Hlen : Forall line_ok [bs "Content-Length: " ++ dec (body_length res)])
    by (apply line_ok_one; [safe_line|done]).
  unfold header_lines. destruct (fast_path res n).
  { apply (Forall_app_2 _ [_] (_ :: _)); [apply line_ok_one; [safe_line|done]|].
    by apply (Forall_app_2 _ [_] [_]). }
  apply Forall_app_2; [|apply Forall_app_2; [|apply Forall_app_2;
    [|apply Forall_app_2; [|apply Forall_app_2]]]].
  - apply line_ok_one; [done|]. unfold status_line.
    by destruct (match rs_version res with Some v => cstr v | None => _ end).
  - apply Forall_fmap, Forall_lookup_2. intros i h Hi%list_elem_of_lookup_2.
    apply list_elem_of_filter in Hi as [_ Hi]. apply list_elem_of_lookup in Hi as [j Hj].
    destruct (Forall_lookup_1 _ _ _ _ Hh Hj) as [Hk Hv]. cbn. unfold header_text. split; [|by destruct h.1].
    apply text_safe_line in Hk, Hv. apply line_safe_app; [done|]. apply line_safe_app; [|done].
    split; [|split]; repeat constructor; lia.
  - destruct (given _ _); [done|]. destruct date; [|done]. apply line_ok_one; [safe_line|done].
  - unfold framing_lines. repeat case_match; try done. apply line_ok_one; [safe_line|done].
  - by destruct (given _ _).
  - destruct (rs_alt_svc res); [|done]. apply line_ok_one; [safe_line|done].
Qed.

Lemma head_safe_names date res : head_safe date res -> names_ok res.(rs_headers).
Proof.
  intros Hs. apply Forall_lookup_2. intros i h Hh.
  apply (Forall_lookup_1 _ _ _ _ (hs_headers _ _ Hs) Hh).
Qed.

Lemma line_ok_crlfcrlf ls :
  Forall line_ok ls -> Forall (fun x => lacks 13 x /\ x <> []) ls.
Proof. intros H. apply Forall_lookup_2. intros i x Hx.
  destruct (Forall_lookup_1 _ _ _ _ H Hx) as [(_ & Hl & _) Hne]. done. Qed.

Lemma crlf_lines_bytes ls : Forall line_ok ls -> bytes_ok (crlf_lines ls).
Proof.
  induction 1 as [|l ls [(Hb & _) _] _ IH]; [constructor|]. cbn [crlf_lines].
  apply Forall_app_2; [apply Forall_app_2; [done|]|done]. by apply bytes_okb_ok.
Qed.

(** The lines of a head that frame its body. *)
Definition framing_name (k : bytes) : bool :=
  case_eq k (bs "content-length") || case_eq k (bs "transfer-encoding").
Definition framing_line (l : bytes) : bool :=
  match cut 58 l with (k, Some _) => framing_name k | (_, None) => false end.

Definition name_wf (h : header) : Prop := cstr_ok h.1 /\ lacks 58 h.1.
Definition has_name (n : bytes) (hs : list header) : bool := existsb (fun h => case_eq h.1 n) hs.

Lemma given_has n hs : Forall name_wf hs -> given n hs = has_name n hs.
Proof.
  induction 1 as [|h hs [Hk _] _ IH]; [done|]. cbn [given has_name existsb].
  rewrite (cstr_id _ Hk). fold (given n hs). fold (has_name n hs). rewrite IH. f_equal.
  destruct (case_eq h.1 n) eqn:E; [|apply andb_false_r].
  by rewrite (case_eq_length _ _ E), Nat.eqb_refl.
Qed.

Lemma framing_header h : name_wf h -> framing_line (header_text h) = framing_name h.1.
Proof.
  intros [_ H]. unfold framing_line, header_text. cbn [app]. by rewrite cut_app.
Qed.

Lemma framing_headers hs :
  Forall name_wf hs ->
  filter framing_line (map header_text hs) =
  map header_text (filter (fun h => framing_name h.1) hs).
Proof.
  induction 1 as [|h hs Hh _ IH]; [done|]. cbn [map]. rewrite !filter_cons, framing_header by done.
  rewrite IH. by destruct (framing_name h.1).
Qed.

Lemma suppressed_none status (hs : list header) :
  filter (fun h => suppressed false status h = false) hs = hs.
Proof. induction hs as [|h hs IH]; [done|]. by rewrite filter_cons, decide_True, IH. Qed.

(** What a body-less status leaves of the fields that frame a body. *)
Lemma kept_framing status hs :
  Forall name_wf hs ->
  filter (fun h => framing_name h.1)
    (filter (fun h => suppressed true status h = false) hs) =
  filter (fun h => (status =? 304) && case_eq h.1 (bs "content-length")) hs.
Proof.
  induction 1 as [|h hs [Hk _] _ IH]; [done|]. rewrite !filter_cons.
  assert (Hs : suppressed true status h =
    (negb (status =? 304) && case_eq h.1 (bs "content-length")) || case_eq h.1 (bs "transfer-encoding")).
  { unfold suppressed. rewrite (cstr_id _ Hk). cbn [andb].
    destruct (case_eq h.1 (bs "content-length")) eqn:E1.
    { rewrite (case_eq_length _ _ E1). destruct (case_eq h.1 (bs "transfer-encoding")) eqn:E2;
        [apply case_eq_length in E1, E2; rewrite E1 in E2; discriminate|].
      by destruct (status =? 304). }
    rewrite !andb_false_r. destruct (case_eq h.1 (bs "transfer-encoding")) eqn:E2;
      [by rewrite (case_eq_length _ _ E2)|]. by rewrite andb_false_r. }
  rewrite Hs. assert (Hf : framing_name h.1 =
    case_eq h.1 (bs "content-length") || case_eq h.1 (bs "transfer-encoding")) by done.
  destruct (case_eq h.1 (bs "content-length")) eqn:E1, (case_eq h.1 (bs "transfer-encoding")) eqn:E2.
  { apply case_eq_length in E1, E2. rewrite E1 in E2. discriminate. }
  all: rewrite ?andb_true_r, ?andb_false_r, ?orb_true_r, ?orb_false_r.
  - destruct (status =? 304); cbn [negb];
      [rewrite !decide_True by done|by rewrite !decide_False by done].
    by rewrite filter_cons, Hf, decide_True, IH.
  - rewrite !decide_False by (by rewrite ?andb_false_r). exact IH.
  - destruct (decide (false = false)) as [_|[]]; [|done].
    by rewrite filter_cons, Hf, IH.
Qed.

(** ** Streaming *)

Inductive stream_op : Type :=
| SWrite (data : option bytes)
| SEnd.

(** One call of the producer, at the clock reading [date]. *)
Definition stream_step (date : option bytes) (op : stream_op) (res : http_response) (o : oracle)
    : bool * http_response * oracle :=
  match op with
  | SWrite data => stream_write date res data o
  | SEnd => stream_end date res o
  end.

Fixpoint stream_run (ops : list (option bytes * stream_op)) (res : http_response) (o : oracle)
    : bool * http_response :=
  match ops with
  | [] => (true, res)
  | (date, op) :: ops =>
      let '(ok, res, o) := stream_step date op res o in
      let '(oks, res) := stream_run ops res o in (ok && oks, res)
  end.

(** What no stream operation changes, in particular all a head is made of. *)
Definition core (r : http_response) : http_response :=
  MkResponse (rs_status_code r) (rs_status_text r) (rs_version r) (rs_headers r) (rs_body r)
    (rs_keep_alive r) (rs_is_ptr_body r) (rs_ptr_body r) (rs_use_file_stream r)
    (rs_file_stream_len r) (rs_alt_svc r) (rs_stream_mode r) false false false None 0 None [].

Lemma serialize_core date r n : serialize_headers date r n = serialize_headers date (core r) n.
Proof. by destruct r. Qed.

Definition buffered (r : http_response) : bytes := default [] r.(rs_stream_buf).

(** The sink holds the head and the flushed part of the buffer, in order. *)
Record sink_inv (r0 r : http_response) : Prop := {
  si_core : core r = core r0;
  si_flushed : (r.(rs_stream_flushed) <= length (buffered r))%nat;
  si_got :
    if r.(rs_stream_head_sent)
    then exists date h, serialize_headers date r0 CWIST_HTTP_MAX_HEADER_SIZE = Some h /\
           r.(rs_sink_got) = h ++ take r.(rs_stream_flushed) (buffered r)
    else r.(rs_sink_got) = [] /\ r.(rs_stream_flushed) = O
}.

Lemma sink_call_spec r codes d ok r' :
  sink_call r codes d = (ok, r') ->
  core r' = core r /\ rs_stream_buf r' = rs_stream_buf r /\
  rs_stream_head_sent r' = rs_stream_head_sent r /\ rs_stream_flushed r' = rs_stream_flushed r /\
  rs_stream_ended r' = rs_stream_ended r /\ rs_stream_sink r' <> None /\
  rs_sink_got r' = rs_sink_got r ++ (if ok then d else []).
Proof.
  unfold sink_call. intros H.
  destruct codes as [|c cs]; [|destruct (c =? 0)]; injection H as <- <-; done.
Qed.

Lemma send_head_inv date r0 r codes ok r' :
  sink_inv r0 r -> send_head date r codes = (ok, r') -> r.(rs_stream_sink) <> None ->
  sink_inv r0 r' /\ rs_stream_buf r' = rs_stream_buf r /\ rs_stream_sink r' <> None /\
  rs_stream_ended r' = rs_stream_ended r /\
  (ok = true -> rs_stream_head_sent r' = true /\ rs_stream_flushed r' = rs_stream_flushed r).
Proof.
  intros Hinv Hr Hs. pose proof Hinv as [Hc Hf Hg]. unfold send_head in Hr. rewrite serialize_core, Hc, <- serialize_core in Hr.
  destruct (rs_stream_head_sent r) eqn:Eh; cbn [negb] in Hr.
  { by simplify_eq. }
  destruct Hg as [Hgot Hfl].
  destruct (serialize_headers date r0 _) as [h|] eqn:Eser;
    [|by simplify_eq].
  destruct (_ || _); [by simplify_eq|]. clear Hinv.
  destruct (sink_call r codes h) as [[] r1] eqn:Es; apply sink_call_spec in Es;
    destruct Es as (E1 & E2 & E3 & E4 & E5 & E6 & E7); injection Hr as <- <-;
    rewrite Hgot in E7; cbn [app] in E7.
  - split; [|done]. split; [exact (eq_trans E1 Hc)| |].
    + change (rs_stream_flushed r1 <= length (buffered r1))%nat. unfold buffered. by rewrite E2, E4.
    + exists date, h. split; [done|]. change (rs_sink_got r1 = h ++ take (rs_stream_flushed r1) (buffered r1)).
      by rewrite E4, Hfl, take_0, app_nil_r.
  - split; [|by rewrite E2]. split; [exact (eq_trans E1 Hc)| |].
    + unfold buffered. by rewrite E2, E4.
    + rewrite E3, Eh. by rewrite E4.
Qed.

Lemma stream_flush_inv date r0 r ok r' :
  sink_inv r0 r -> stream_flush date r = (ok, r') ->
  sink_inv r0 r' /\ rs_stream_buf r' = rs_stream_buf r /\ rs_stream_ended r' = rs_stream_ended r /\
  (rs_stream_sink r' = None <-> rs_stream_sink r = None) /\
  (ok = true -> rs_stream_sink r <> None ->
   rs_stream_head_sent r' = true /\ rs_stream_flushed r' = length (buffered r')).
Proof.
  intros Hinv Hr. unfold stream_flush in Hr.
  destruct (rs_stream_sink r) as [codes|] eqn:Esink; [|injection Hr as <- <-; by rewrite Esink].
  destruct (send_head date r codes) as [ok1 r1] eqn:Eh.
  destruct (send_head_inv _ _ _ _ _ _ Hinv Eh ltac:(by rewrite Esink)) as (Hinv1 & Hb & Hs & He & Hok).
  destruct ok1; [|injection Hr as <- <-; split; [done|]; split; [done|]; split; [done|];
    split; [by split|done]].
  destruct (Hok eq_refl) as [Hh Hf]. pose proof Hinv1 as [Hc1 Hf1 Hg1]. rewrite Hh in Hg1.
  destruct Hg1 as (d & h & Hser & Hg1).
  assert (Hbuf : match rs_stream_buf r1 with
    | Some b => (length b - rs_stream_flushed r1)%nat | None => O end =
    (length (buffered r1) - rs_stream_flushed r1)%nat)
    by (unfold buffered; by destruct (rs_stream_buf r1)).
  rewrite Hbuf in Hr. fold (buffered r1) in Hr.
  destruct (Nat.ltb_spec 0 (length (buffered r1) - rs_stream_flushed r1)) as [Hp|Hp].
  2: { injection Hr as <- <-. split; [done|]. do 2 (split; [done|]). split; [by split|].
       intros _ _. split; [done|]. lia. }
  destruct (sink_call r1 _ _) as [ok2 r2] eqn:Es. apply sink_call_spec in Es as (E1&E2&E3&E4&E5&E6&E7).
  assert (Eb : buffered r2 = buffered r1) by (unfold buffered; by rewrite E2).
  destruct ok2; injection Hr as <- <-.
  - split; [|split; [exact (eq_trans E2 Hb)|split; [exact (eq_trans E5 He)|split; [by split|]]]].
    + split; [exact (eq_trans E1 Hc1)| |].
      * change (length (buffered r1) <= length (buffered r2))%nat. by rewrite Eb.
      * change (if rs_stream_head_sent r2 then exists date h,
          serialize_headers date r0 CWIST_HTTP_MAX_HEADER_SIZE = Some h /\
          rs_sink_got r2 = h ++ take (length (buffered r1)) (buffered r2)
          else rs_sink_got r2 = [] /\ length (buffered r1) = O).
        rewrite E3, Hh, Eb, firstn_all, E7, Hg1. exists d, h. split; [done|].
        by rewrite <- app_assoc, take_drop.
    + intros _ _. split; [exact (eq_trans E3 Hh)|].
      change (length (buffered r1) = length (buffered r2)). by rewrite Eb.
  - split; [|split; [exact (eq_trans E2 Hb)|split; [exact (eq_trans E5 He)|split; [by split|done]]]].
    split; [exact (eq_trans E1 Hc1)|by rewrite E4, Eb|].
    rewrite E3, Hh, E4, Eb, E7, Hg1, app_nil_r. by exists d, h.
Qed.

Lemma append_pieces_spec pieces : forall b o ok b' o',
  append_pieces b pieces o = (ok, b', o') ->
  exists x, b' = b ++ x /\ (ok = true -> x = concat pieces).
Proof.
  induction pieces as [|p ps IH]; intros b o ok b' o' H; cbn [append_pieces concat] in *.
  { injection H as <- <- <-. exists []. by rewrite app_nil_r. }
  destruct (alloc o) as [[] o1].
  - apply IH in H as (x & -> & Hx). exists (p ++ x). rewrite app_assoc. split; [done|].
    intros Hok. by rewrite Hx.
  - injection H as <- <- <-. exists []. by rewrite app_nil_r.
Qed.

Lemma grow_inv r0 r b x :
  sink_inv r0 r -> b = buffered r ++ x -> sink_inv r0 (r <| rs_stream_buf := Some b |>).
Proof.
  intros [Hc Hf Hg] ->. split; [exact Hc| |].
  - change (rs_stream_flushed r <= length (buffered r ++ x))%nat. rewrite length_app. lia.
  - change (if rs_stream_head_sent r then exists date h,
      serialize_headers date r0 CWIST_HTTP_MAX_HEADER_SIZE = Some h /\
      rs_sink_got r = h ++ take (rs_stream_flushed r) (buffered r ++ x)
      else rs_sink_got r = [] /\ rs_stream_flushed r = O).
    by rewrite take_app_le.
Qed.

Lemma stream_append_inv date r0 r pieces o ok r' o' :
  sink_inv r0 r -> stream_append date r pieces o = (ok, r', o') ->
  sink_inv r0 r' /\ (rs_stream_sink r' = None <-> rs_stream_sink r = None) /\
  (ok = true -> buffered r' = buffered r ++ concat pieces /\
     (rs_stream_sink r <> None ->
      rs_stream_head_sent r' = true /\ rs_stream_flushed r' = length (buffered r'))).
Proof.
  intros Hinv H. unfold stream_append in H.
  destruct (stream_buffer r o) as [[b|] o1] eqn:Eb; [|by injection H as <- <- <-].
  assert (Hb : b = buffered r).
  { unfold stream_buffer, buffered in *. destruct (rs_stream_buf r); [by injection Eb as <- _|].
    destruct (alloc o) as [[] ?]; [by injection Eb as <- _|done]. }
  subst b. destruct (append_pieces (buffered r) pieces o1) as [[ok1 b] o2] eqn:Ep.
  apply append_pieces_spec in Ep as (x & Hx & Hall).
  pose proof (grow_inv r0 r b x Hinv Hx) as Hg. set (rb := r <| rs_stream_buf := Some b |>) in *.
  assert (Hrb : buffered rb = b) by done.
  destruct ok1; [|by injection H as <- <- <-].
  destruct (stream_flush date rb) as [ok2 r2] eqn:Ef.
  destruct (stream_flush_inv _ _ _ _ _ Hg Ef) as (Hinv2 & Hb2 & _ & Hs2 & Hok2).
  assert (Hbuf2 : buffered r2 = b) by (unfold buffered; by rewrite Hb2).
  destruct ok2; injection H as <- <- <-.
  - split; [done|]. split; [done|]. intros _. rewrite Hbuf2, Hx, (Hall eq_refl). split; [done|].
    intros Hs. rewrite <- (Hall eq_refl), <- Hx. destruct (Hok2 eq_refl Hs) as [H1 H2].
    split; [done|]. by rewrite H2, Hbuf2.
  - split; [|done]. destruct Hinv2. by split.
Qed.

(** The bytes an accepted call adds to the stream. *)
Definition op_bytes (bodyless : bool) (op : stream_op) : bytes :=
  if bodyless then [] else
  match op with
  | SWrite (Some []) => []
  | SWrite (Some d) => chunk_frame d
  | SWrite None => []
  | SEnd => last_chunk
  end.

Lemma core_status r r0 : core r = core r0 -> rs_status_code r = rs_status_code r0.
Proof. intros H. exact (f_equal rs_status_code H). Qed.

Lemma sink_inv_ended r0 r b : sink_inv r0 r -> sink_inv r0 (r <| rs_stream_ended := b |>).
Proof. intros []. by split. Qed.

Lemma stream_step_inv date op r0 r o ok r' o' :
  sink_inv r0 r -> stream_step date op r o = (ok, r', o') ->
  sink_inv r0 r' /\ (rs_stream_sink r' = None <-> rs_stream_sink r = None) /\
  (ok = true ->
     buffered r' = buffered r ++ op_bytes (status_forbids_body (rs_status_code r0)) op /\
     (op = SEnd -> rs_stream_sink r <> None ->
      rs_stream_head_sent r' = true /\ rs_stream_flushed r' = length (buffered r'))).
Proof.
  intros Hinv H. pose proof (core_status _ _ (si_core _ _ Hinv)) as Hst.
  destruct op as [data|]; cbn [stream_step op_bytes] in *.
  - unfold stream_write in H. destruct (_ || _); [by injection H as <- <- <-|].
    destruct data as [data|]; [|by injection H as <- <- <-]. rewrite Hst in H.
    destruct (status_forbids_body (rs_status_code r0)).
    { destruct (stream_flush date r) as [ok1 r1] eqn:Ef. injection H as <- <- <-.
      destruct (stream_flush_inv _ _ _ _ _ Hinv Ef) as (H1 & H2 & _ & H3 & _).
      split; [done|]. split; [done|]. intros _. unfold buffered. by rewrite H2, app_nil_r. }
    destruct data as [|b data]; cbn [length Nat.eqb] in H.
    { injection H as <- <- <-. split; [done|]. split; [done|]. intros _. by rewrite app_nil_r. }
    destruct (stream_append_inv _ _ _ _ _ _ _ _ Hinv H) as (H1 & H2 & H3).
    split; [done|]. split; [done|]. intros Hok. destruct (H3 Hok) as [H4 _]. split; [|done].
    rewrite H4. unfold chunk_frame. cbn [concat]. by rewrite app_nil_r, <- app_assoc.
  - unfold stream_end in H. destruct (_ || _); [by injection H as <- <- <-|]. rewrite Hst in H.
    destruct (status_forbids_body (rs_status_code r0)).
    { destruct (stream_flush date _) as [ok1 r1] eqn:Ef. injection H as <- <- <-.
      destruct (stream_flush_inv _ _ _ _ _ (sink_inv_ended _ _ true Hinv) Ef) as (H1 & H2 & _ & H3 & H4).
      split; [done|]. split; [done|]. intros Hok. split; [unfold buffered; by rewrite H2, app_nil_r|].
      intros _ Hs. by apply H4. }
    destruct (stream_append date r [last_chunk] o) as [[ok1 r1] o1] eqn:Ea.
    destruct (stream_append_inv _ _ _ _ _ _ _ _ Hinv Ea) as (H1 & H2 & H3).
    destruct ok1; injection H as <- <- <-; [|done].
    split; [by apply sink_inv_ended|]. split; [done|]. intros _. destruct (H3 eq_refl) as [H4 H5].
    cbn [concat] in H4. rewrite app_nil_r in H4. split; [exact H4|]. intros _. exact H5.
Qed.

Lemma stream_run_inv ops : forall r0 r o ok r',
  sink_inv r0 r -> stream_run ops r o = (ok, r') ->
  sink_inv r0 r' /\ (rs_stream_sink r' = None <-> rs_stream_sink r = None) /\
  (ok = true ->
     buffered r' = buffered r ++
       concat (map (fun op => op_bytes (status_forbids_body (rs_status_code r0)) op.2) ops) /\
     (forall pre date, ops = pre ++ [(date, SEnd)] -> rs_stream_sink r <> None ->
      rs_stream_head_sent r' = true /\ rs_stream_flushed r' = length (buffered r'))).
Proof.
  induction ops as [|[date op] ops IH]; intros r0 r o ok r' Hinv H; cbn [stream_run map concat] in *.
  { injection H as <- <-. split; [done|]. split; [done|]. intros _. rewrite app_nil_r.
    split; [done|]. by intros [|] ? ?. }
  destruct (stream_step date op r o) as [[ok1 r1] o1] eqn:E1.
  destruct (stream_run ops r1 o1) as [ok2 r2] eqn:E2. injection H as <- <-.
  destruct (stream_step_inv _ _ _ _ _ _ _ _ Hinv E1) as (H1 & Hs1 & Hok1).
  destruct (IH _ _ _ _ _ H1 E2) as (H2 & Hs2 & Hok2). split; [done|]. split; [by rewrite Hs2|].
  intros [-> ->]%andb_prop. destruct (Hok1 eq_refl) as [Hb1 He1], (Hok2 eq_refl) as [Hb2 He2].
  split; [by rewrite Hb2, Hb1, <- app_assoc|]. intros [|p pre] d Hops Hs.
  - injection Hops as E3 E4 E5. subst. injection E2 as <-. by apply He1.
  - injection Hops as E3 E4. eapply He2; [done|]. by rewrite Hs1.
Qed.

(** A response just switched to streaming. *)
Record fresh_stream (r : http_response) : Prop := {
  fs_buf : r.(rs_stream_buf) = None;
  fs_flushed : r.(rs_stream_flushed) = O;
  fs_head : r.(rs_stream_head_sent) = false;
  fs_got : r.(rs_sink_got) = []
}.

Lemma fresh_inv r : fresh_stream r -> sink_inv r r.
Proof. intros [H1 H2 H3 H4]. split; [done|lia|]. by rewrite H3. Qed.

(** ** Properties *)

(** a header block is serialised exactly when it fits the caller's buffer,
    and is then the status line, the handler's fields in order, and the fields
    the server adds; no value a handler can set puts a blank line in it, so a
    peer finds the end of the head where the server put it, whatever body
    follows (no response splitting). *)
Theorem response_head_spec date res n body :
  0 <= n -> head_safe date res -> bytes_ok body ->
  let head := crlf_lines (header_lines date res n) ++ crlf in
  serialize_headers date res n = (if n <? blen head then None else Some head) /\
  find_crlfcrlf (head ++ body) 0 (length (head ++ body)) = Some (length head - 4)%nat.
Proof.
  intros Hn Hs Hbody head. pose proof (header_lines_safe _ _ n Hs) as Hok. split.
  - apply serialize_fits; [done|by eapply head_safe_names|apply Hs].
  - assert (Hne : header_lines date res n <> []) by (unfold header_lines; by destruct (fast_path res n)).
    pose proof (crlf_lines_bytes _ Hok) as Hb. subst head. clear Hs.
    destruct (header_lines date res n) as [|l ls]; [done|]. clear Hne.
    pose proof (line_ok_crlfcrlf _ Hok) as Hls. apply Forall_cons_1 in Hls as [[Hl _] Hls].
    assert (Htext : (crlf_lines (l :: ls) ++ crlf) ++ body =
      [] ++ l ++ 13 :: 10 :: crlf_lines ls ++ 13 :: 10 :: body)
      by (cbn [crlf_lines app]; unfold crlf; rewrite <- !app_assoc; done).
    assert (Hall : bytes_ok ((crlf_lines (l :: ls) ++ crlf) ++ body)).
    { apply Forall_app_2; [apply Forall_app_2; [done|by apply bytes_okb_ok]|done]. }
    rewrite find_crlfcrlf_scan by done. rewrite Htext in *.
    rewrite (find_crlfcrlf_lines ls [] l body); [|done|done|done|].
    + f_equal. cbn [crlf_lines length]. rewrite !length_app. cbn [length crlf]. lia.
    + rewrite !length_app. cbn [length]. rewrite length_app. cbn [length]. lia.
Qed.

(** the fields that frame the body of a response: a status that has no body
    carries none of them (304 keeps the handler's Content-Length); any other
    carries the handler's, and the server adds Content-Length with the body's
    length, or chunked coding in stream mode, unless the handler decided, so
    the body is never left without framing. *)
Theorem response_framing_spec date res n :
  Forall name_wf res.(rs_headers) ->
  let sent := filter framing_line (tail (header_lines date res n)) in
  let own := filter (fun h => framing_name h.1) res.(rs_headers) in
  (status_forbids_body res.(rs_status_code) = true ->
     sent = map header_text (filter (fun h => (res.(rs_status_code) =? 304) &&
              case_eq h.1 (bs "content-length")) res.(rs_headers))) /\
  (status_forbids_body res.(rs_status_code) = false ->
     sent = map header_text own ++
       (if has_name (bs "content-length") res.(rs_headers) then []
        else if res.(rs_stream_mode) then
          if has_name (bs "transfer-encoding") res.(rs_headers) then []
          else [bs "Transfer-Encoding: chunked"]
        else [bs "Content-Length: " ++ dec (body_length res)]) /\
     sent <> []).
Proof.
  intros Hwf sent own. subst sent own. unfold header_lines.
  assert (Hadd : forall c, filter framing_line (if c : bool then [] else [connection_line res]) = []).
  { intros []; [done|]. unfold connection_line. by destruct (rs_keep_alive res). }
  destruct (fast_path res n) eqn:Hf.
  { unfold fast_path in Hf. repeat (apply andb_prop in Hf as [Hf ?]).
    apply Z.eqb_eq in Hf. rewrite Hf in *. change (status_forbids_body 200) with false.
    destruct (rs_headers res) as [|]; [|by rewrite bool_decide_eq_false_2 in *].
    destruct (rs_stream_mode res); [done|]. split; [done|]. intros _. cbn [tail].
    rewrite filter_cons, decide_True by done. rewrite (Hadd false : filter framing_line [_] = []). done. }
  cbn [app tail]. rewrite !list.filter_app, Hadd.
  assert (Hdate : filter framing_line (if given (bs "date") (kept res) then []
    else match date with Some d => [bs "Date: " ++ sub d 0 29] | None => [] end) = [])
    by (destruct (given _ _), date; done).
  assert (Halt : filter framing_line
    (match rs_alt_svc res with Some a => [bs "Alt-Svc: " ++ cstr a] | None => [] end) = [])
    by (by destruct (rs_alt_svc res)).
  rewrite Hdate, Halt, !app_nil_r. cbn [app]. unfold framing_lines.
  assert (Hk : Forall name_wf (kept res)) by (by apply Forall_kept).
  rewrite framing_headers, !given_has by done. unfold kept.
  split; intros Hb; rewrite Hb; cbn [orb].
  - cbn [filter list_filter]. by rewrite app_nil_r, kept_framing.
  - rewrite suppressed_none. set (hs := rs_headers res) in *.
    set (fr := if has_name (bs "content-length") hs then [] else _).
    assert (Hfr : filter framing_line fr = fr).
    { subst fr. destruct (has_name (bs "content-length") hs); [done|]. destruct (rs_stream_mode res); [|done]. by destruct (has_name _ hs). }
    rewrite Hfr. split; [done|]. intros [H1 H2]%app_eq_nil. subst fr.
    assert (Hno : forall n, has_name n hs = true -> (n = bs "content-length" \/ n = bs "transfer-encoding") ->
      filter (fun h : header => framing_name h.1) hs <> []).
    { clear. intros n Hn Hor. induction hs as [|h hs IH]; [done|]. rewrite filter_cons.
      case_decide as Hd; [done|]. apply IH. cbn [has_name existsb] in Hn.
      apply orb_prop in Hn as [Hn|Hn]; [|done]. exfalso. apply Hd. unfold framing_name.
      destruct Hor as [-> | ->]; rewrite Hn; rewrite ?orb_true_r; done. }
    apply map_eq_nil in H1.
    destruct (has_name (bs "content-length") hs) eqn:E1; [by eapply Hno; eauto|].
    destruct (rs_stream_mode res); [|done].
    destruct (has_name (bs "transfer-encoding") hs) eqn:E2; [by eapply Hno; eauto|done].
Qed.

(** the sink of a streaming response receives the head once and then the
    framed chunks in order without loss, repetition or reordering: whatever
    calls are made and whatever fails on the way, it holds nothing, or the head
    and a prefix of what was framed; when every call up to the final
    [stream_end] succeeds it holds the head, one frame per non-empty write and
    the terminator (a body-less status: the head alone). *)
Theorem stream_output_spec ops r0 o ok r :
  fresh_stream r0 -> stream_run ops r0 o = (ok, r) ->
  let frames := concat (map (fun op => op_bytes (status_forbids_body (rs_status_code r0)) op.2) ops) in
  (r.(rs_sink_got) = [] \/
   exists date h k, serialize_headers date r0 CWIST_HTTP_MAX_HEADER_SIZE = Some h /\
     r.(rs_sink_got) = h ++ take k (buffered r)) /\
  (ok = true -> buffered r = frames /\
   forall pre date, ops = pre ++ [(date, SEnd)] -> r0.(rs_stream_sink) <> None ->
   exists date h, serialize_headers date r0 CWIST_HTTP_MAX_HEADER_SIZE = Some h /\
     r.(rs_sink_got) = h ++ frames).
Proof.
  intros Hf Hr frames.
  destruct (stream_run_inv _ _ _ _ _ _ (fresh_inv _ Hf) Hr) as ([_ _ Hg] & _ & Hok).
  split.
  - destruct (rs_stream_head_sent r); [|by left; destruct Hg].
    right. destruct Hg as (d & h & H1 & H2). eauto.
  - intros Ht. destruct (Hok Ht) as [Hb He].
    assert (Hb' : buffered r = frames) by (rewrite Hb; unfold buffered; by rewrite (fs_buf _ Hf)).
    split; [done|]. intros pre d Hops Hs. destruct (He _ _ Hops Hs) as [Hh Hfl].
    rewrite Hh in Hg. destruct Hg as (d' & h & H1 & H2). exists d', h. split; [done|].
    by rewrite H2, Hfl, firstn_all, Hb'.
Qed.

(** ** Concrete runs *)

Definition demo_headers : list header := [(bs "X-A", bs "1"); (bs "Content-Type", bs "text/plain")].
Definition demo_response (status : Z) (stream : bool) : http_response :=
  MkResponse status None None demo_headers (Some (bs "hello")) true false [] false 0
    (Some (bs "h3=443")) stream false false false None 0 (Some []) [].

Lemma demo_safe status stream : head_safe None (demo_response status stream).
Proof.
  split; [|done|done| |done|].
  - constructor; [|constructor; [|constructor]]; (split; (split; [apply bytes_okb_ok|]; reflexivity)).
  - split; [apply bytes_okb_ok|]; reflexivity.
  - unfold body_length. cbn. destruct (status_forbids_body status); by (split; vm_compute).
Qed.

Lemma response_head_spec_witness :
  serialize_headers None (demo_response 404 false) 512 =
    Some (crlf_lines [bs "HTTP/1.1 404 Not Found"; bs "X-A: 1"; bs "Content-Type: text/plain";
            bs "Content-Length: 5"; bs "Connection: keep-alive"; bs "Alt-Svc: h3=443"] ++ crlf) /\
  find_crlfcrlf ((crlf_lines (header_lines None (demo_response 404 false) 512) ++ crlf) ++ bs "hello") 0
    (length ((crlf_lines (header_lines None (demo_response 404 false) 512) ++ crlf) ++ bs "hello")) =
  Some (length (crlf_lines (header_lines None (demo_response 404 false) 512) ++ crlf) - 4)%nat.
Proof.
  pose proof (response_head_spec None (demo_response 404 false) 512 (bs "hello") ltac:(lia)
    (demo_safe 404 false) ltac:(by apply bytes_okb_ok)) as [H1 H2].
  split; [rewrite H1; vm_compute; reflexivity|exact H2].
Defined.

Lemma response_framing_spec_witness :
  filter framing_line (tail (header_lines None (demo_response 204 false) 512)) = [] /\
  filter framing_line (tail (header_lines None (demo_response 200 true) 512)) =
    [bs "Transfer-Encoding: chunked"].
Proof.
  assert (Hwf : Forall name_wf demo_headers).
  { constructor; [|constructor; [|constructor]]; (split; [by apply cstr_okb_ok|by apply (bool_decide_unpack _)]). }
  split.
  - by rewrite (proj1 (response_framing_spec None (demo_response 204 false) 512 Hwf) eq_refl).
  - by rewrite (proj1 (proj2 (response_framing_spec None (demo_response 200 true) 512 Hwf) eq_refl)).
Defined.

Lemma stream_output_spec_witness :
  let ops := [(None, SWrite (Some (bs "hello"))); (None, SWrite (Some [])); (None, SEnd)] in
  exists date h, serialize_headers date (demo_response 200 true) 8192 = Some h /\
    rs_sink_got (stream_run ops (demo_response 200 true) []).2 =
    h ++ bs "5" ++ crlf ++ bs "hello" ++ crlf ++ bs "0" ++ crlf ++ crlf.
Proof.
  intros ops.
  assert (Hf : fresh_stream (demo_response 200 true)) by done.
  pose proof (stream_output_spec ops (demo_response 200 true) [] true
    (stream_run ops (demo_response 200 true) []).2 Hf ltac:(vm_compute; reflexivity)) as [_ H].
  destruct (H eq_refl) as [_ H'].
  apply (H' [(None, SWrite (Some (bs "hello"))); (None, SWrite (Some []))] None); done.
Defined.

(** A handler that streams under its own Content-Length: the head announces the
    length and no chunked coding, the body is chunk-framed all the same. *)
Example stream_with_content_length :
  let res := MkResponse 200 None None [(bs "Content-Length", bs "5")] None true false [] false 0 None
               true false false false None 0 None [] in
  (response_serialize None (stream_write None res (Some (bs "hello")) []).1.2 []).1.1 =
  Some (crlf_lines [bs "HTTP/1.1 200 OK"; bs "Content-Length: 5"; bs "Connection: keep-alive"] ++ crlf ++
        bs "5" ++ crlf ++ bs "hello" ++ crlf ++ bs "0" ++ crlf ++ crlf).
Proof. vm_compute. reflexivity. Qed.

(** A write that fails half way leaves the size line it appended in the stream;
    the next write is framed behind it. *)
Example stream_write_leaves_half_frame :
  let res := MkResponse 200 None None [] None true false [] false 0 None
               true false false false None 0 None [] in
  let '(ok1, res, o) := stream_write None res (Some (bs "twenty bytes of data")) [true; true; false] in
  let '(ok2, res, _) := stream_write None res (Some (bs "xyz")) o in
  ok1 = false /\ ok2 = true /\ res.(rs_stream_buf) =
    Some (bs "14" ++ crlf ++ bs "3" ++ crlf ++ bs "xyz" ++ crlf).
Proof. vm_compute. done. Qed.
