(* ===== verification/Http1Recv.v ===== *)
(** * Receiving HTTP/1.1 requests (src/src/net/http/http.c)

    The chunked-body decoders and the two receivers: the non-blocking one, which
    works on a connection's stash ([cwist_http_receive_request_nb],
    [cwist_http_async_conn_fill]), and the blocking one
    ([cwist_http_receive_request], [http_read_chunked_body]).

    The network is the list of what the next [recv]/[poll] calls report; it is a
    byte stream, so what does not fit the room offered stays for the next call.
    [memmem] of the C library is the first match. *)

From S2P Require Import Prelude SipHash QueryMap SimdParser Http1 HttpResponse.

Definition CWIST_HTTP_READ_BUFFER_SIZE : Z := 16384.
Definition CWIST_ASYNC_STASH_MAX : Z := CWIST_HTTP_READ_BUFFER_SIZE + CWIST_HTTP_MAX_BODY_SIZE.
Definition CWIST_ASYNC_STASH_IDLE : Z := 4096.
Definition CWIST_HTTP_BODY_ZC_MIN : Z := 16384.

(** ** Chunk size lines *)

Definition hex_value (c : Z) : option Z :=
  if (48 <=? c) && (c <=? 57) then Some (c - 48)
  else if (97 <=? c) && (c <=? 102) then Some (c - 97 + 10)
  else if (65 <=? c) && (c <=? 70) then Some (c - 65 + 10)
  else None.

Fixpoint chunk_digits (line : bytes) (value : Z) (digits : nat) : option (Z * nat) :=
  match line with
  | [] => Some (value, digits)
  | c :: line =>
      if c =? 59 then Some (value, digits) else
      match hex_value c with
      | None => None
      | Some d =>
          if (CWIST_HTTP_MAX_BODY_SIZE - d) / 16 <? value then None
          else chunk_digits line (value * 16 + d) (S digits)
      end
  end.

(** [http_parse_chunk_size] *)
Definition parse_chunk_size (line : bytes) : option Z :=
  match chunk_digits line 0 0 with
  | Some (v, S _) => Some v
  | _ => None
  end.

(** [memmem(buf + pos, avail - pos, CRLF, 2)] *)
Definition memmem_crlf (buf : bytes) (pos avail : nat) : option nat :=
  find_first (is_crlf buf) pos (avail - pos - 1).

(** ** Scanning a chunked message in memory *)

Inductive scan_result : Type :=
| ScanComplete (consumed : nat)
| ScanMore
| ScanBad.

(** Trailers until an empty line. *)
Fixpoint scan_trailers (fuel : nat) (buf : bytes) (pos avail : nat) : scan_result :=
  match fuel with
  | O => ScanMore
  | S fuel =>
      if (avail - pos <? 2)%nat then ScanMore
      else if is_crlf buf pos then ScanComplete (pos + 2)
      else match memmem_crlf buf pos avail with
           | None => ScanMore
           | Some t => scan_trailers fuel buf (t + 2) avail
           end
  end.

(** [http_chunk_append]: an empty piece is no request for memory; a failed one
    loses the piece, and is no failure either when no object for its error is
    found. *)
Definition chunk_append (out data : bytes) (o : oracle) : option bytes * oracle :=
  if (length data =? 0)%nat then (Some out, o) else
  match alloc o with
  | (true, o) => (Some (out ++ data), o)
  | (false, o) => let '(ok, o) := json_error_is_ok o in (if ok then Some out else None, o)
  end.

(** [http_chunked_scan] *)
Fixpoint chunked_scan_loop (fuel : nat) (buf : bytes) (pos avail : nat) (out : bytes) (o : oracle)
    : scan_result * bytes * oracle :=
  match fuel with
  | O => (ScanBad, out, o)
  | S fuel =>
      match memmem_crlf buf pos avail with
      | None => ((if CWIST_ASYNC_STASH_MAX <? Z.of_nat avail then ScanBad else ScanMore), out, o)
      | Some crlf =>
          let line_len := (crlf - pos)%nat in
          match parse_chunk_size (sub buf pos line_len) with
          | None => (ScanBad, out, o)
          | Some size =>
              let pos := (pos + line_len + 2)%nat in
              if size =? 0 then (scan_trailers (S avail) buf pos avail, out, o)
              else if CWIST_HTTP_MAX_BODY_SIZE <? size then (ScanBad, out, o)
              else
                let n := Z.to_nat size in
                if (avail - pos <? n + 2)%nat then (ScanMore, out, o)
                else if negb (is_crlf buf (pos + n)) then (ScanBad, out, o)
                else if CWIST_HTTP_MAX_BODY_SIZE <? blen out + size then (ScanBad, out, o)
                else
                  match chunk_append out (sub buf pos n) o with
                  | (None, o) => (ScanBad, out, o)
                  | (Some out, o) => chunked_scan_loop fuel buf (pos + n + 2) avail out o
                  end
          end
      end
  end.
Definition chunked_scan (buf : bytes) (o : oracle) : scan_result * bytes * oracle :=
  chunked_scan_loop (S (length buf)) buf 0 (length buf) [] o.

(** ** The network *)

(** What one [recv] reports.  [RecvAgain] and [RecvTimeout] are EAGAIN, which
    a blocking reader follows with a [poll] that finds data or does not. *)
Inductive recv_event : Type :=
| RecvData (data : bytes)
| RecvEof
| RecvAgain
| RecvTimeout
| RecvIntr
| RecvFail.

(** One [recv] offering [room] bytes. *)
Definition recv (room : nat) (net : list recv_event) : recv_event * list recv_event :=
  match net with
  | [] => (RecvTimeout, [])
  | RecvData d :: rest =>
      if (length d =? 0)%nat then (RecvEof, rest)
      else if (room =? 0)%nat then (RecvEof, net)
      else if (room <? length d)%nat then (RecvData (take room d), RecvData (drop room d) :: rest)
      else (RecvData d, rest)
  | e :: rest => (e, rest)
  end.

(** A bound on the calls that report something. *)
Definition event_size (e : recv_event) : nat :=
  match e with RecvData d => S (length d) | _ => 1%nat end.
Definition net_size (net : list recv_event) : nat := sum_list_with event_size net.

(** The bytes still to come. *)
Definition event_bytes (e : recv_event) : bytes := match e with RecvData d => d | _ => [] end.
Definition net_bytes (net : list recv_event) : bytes := concat (map event_bytes net).

(** ** The non-blocking connection *)

(** [c_data] is [rbuf] up to [len]; [c_continues] counts the interim 100
    responses written. *)
Record async_conn : Type := MkConn {
  c_data : bytes;
  c_cap : Z;
  c_virgin : bool;
  c_expect_continue_sent : bool;
  c_peer_eof : bool;
  c_rx_recv_inflight : bool;
  c_rx_data_ready : bool;
  c_continues : nat
}.
#[export] Instance async_conn_fields : Fields async_conn := fun c =>
  MkConn (c_data c) (c_cap c) (c_virgin c) (c_expect_continue_sent c) (c_peer_eof c)
    (c_rx_recv_inflight c) (c_rx_data_ready c) (c_continues c).

(** The doubling loop of [http_async_stash_grow]. *)
Fixpoint grow_cap (fuel : nat) (cap need : Z) : Z :=
  match fuel with
  | O => cap
  | S fuel =>
      if cap <? need then
        if CWIST_ASYNC_STASH_MAX / 2 <? cap then CWIST_ASYNC_STASH_MAX
        else grow_cap fuel (cap * 2) need
      else cap
  end.

Definition stash_grow (conn : async_conn) (need : Z) (o : oracle) : bool * async_conn * oracle :=
  if conn.(c_rx_recv_inflight) then (false, conn, o)
  else if CWIST_ASYNC_STASH_MAX <? need then (false, conn, o)
  else if need <=? conn.(c_cap) then (true, conn, o)
  else
    let cap := grow_cap 64 (if conn.(c_cap) =? 0 then CWIST_ASYNC_STASH_IDLE else conn.(c_cap)) need in
    let cap := if CWIST_ASYNC_STASH_MAX <? cap then CWIST_ASYNC_STASH_MAX else cap in
    if cap =? conn.(c_cap) then (false, conn, o) else
    match alloc o with
    | (true, o) => (true, conn <| c_cap := cap |>, o)
    | (false, o) => (false, conn, o)
    end.

(** The receive loop of [cwist_http_async_conn_fill]. *)
Fixpoint fill_loop (fuel : nat) (conn : async_conn) (net : list recv_event) (o : oracle)
    : bool * async_conn * list recv_event * oracle :=
  match fuel with
  | O => (false, conn, net, o)
  | S fuel =>
      let '(room, conn, o) :=
        if conn.(c_cap) <=? blen conn.(c_data) + 1
        then stash_grow conn (blen conn.(c_data) + 4096) o else (true, conn, o) in
      if negb room then (false, conn, net, o) else
      let avail := Z.to_nat (conn.(c_cap) - 1 - blen conn.(c_data)) in
      match recv avail net with
      | (RecvData d, net) =>
          let conn := conn <| c_data := conn.(c_data) ++ d |> <| c_virgin := false |> in
          if (length d <? avail)%nat then (true, conn, net, o) else fill_loop fuel conn net o
      | (RecvEof, net) => (true, conn <| c_peer_eof := true |>, net, o)
      | (RecvIntr, net) => fill_loop fuel conn net o
      | (RecvAgain, net) | (RecvTimeout, net) => (true, conn, net, o)
      | (RecvFail, net) => (false, conn, net, o)
      end
  end.

(** [cwist_http_async_conn_fill]: true is 0. *)
Definition conn_fill (conn : async_conn) (net : list recv_event) (o : oracle)
    : bool * async_conn * list recv_event * oracle :=
  if conn.(c_peer_eof) then (true, conn, net, o)
  else if conn.(c_rx_recv_inflight) || conn.(c_rx_data_ready) then
    (true, conn <| c_rx_data_ready := false |>, net, o)
  else fill_loop (S (net_size net)) conn net o.

Inductive recv_status : Type := RECV_OK | RECV_NEED_MORE | RECV_FATAL.

(** The outcome of a receiver: status, request, and the parse error code
    ([None] is CWIST_HTTP_PARSE_OK). *)
Record received : Type := MkReceived {
  rv_status : recv_status;
  rv_request : option http_request;
  rv_error : option parse_error
}.
Definition need_more : received := MkReceived RECV_NEED_MORE None None.
Definition fatal (e : parse_error) : received := MkReceived RECV_FATAL None (Some e).

(** [cwist_http_receive_request_nb] *)
Definition receive_request_nb (seed : bytes) (conn : async_conn) (o : oracle)
    : received * async_conn * oracle :=
  let buf := conn.(c_data) in
  let len := length buf in
  if (len =? 0)%nat then (need_more, conn, o) else
  match find_crlfcrlf buf 0 len with
  | None =>
      if CWIST_HTTP_READ_BUFFER_SIZE - 1 <=? blen buf
      then (fatal PARSE_HEADER_OVERFLOW, conn, o) else (need_more, conn, o)
  | Some header_end =>
      let header_len := (header_end + 4)%nat in
      match parse_request_with_header_end seed (take header_len buf) header_end o with
      | (inl e, o) => (fatal e, conn, o)
      | (inr req, o) =>
          let body_received := (len - header_len)%nat in
          let te := req.(req_te_chunked_seen) in
          let cl := req.(req_content_length) in
          let conn :=
            if req.(req_expect_100_seen) && negb conn.(c_expect_continue_sent) &&
               ((Z.of_nat body_received <? cl) || (te && (cl =? 0)))
            then conn <| c_continues := S conn.(c_continues) |> <| c_expect_continue_sent := true |>
            else conn in
          let ok (req : http_request) (consumed : nat) (conn : async_conn) (o : oracle) :=
            (MkReceived RECV_OK (Some req) None,
             conn <| c_data := drop consumed conn.(c_data) |> <| c_expect_continue_sent := false |>, o) in
          if 0 <? cl then
            if CWIST_HTTP_MAX_BODY_SIZE <? cl then (fatal PARSE_BODY_TOO_LARGE, conn, o)
            else if Z.of_nat body_received <? cl then
              match stash_grow conn (Z.of_nat header_len + cl + 1) o with
              | (false, conn, o) => (fatal PARSE_EOF, conn, o)
              | (true, conn, o) => (need_more, conn, o)
              end
            else
              let n := Z.to_nat cl in
              let body := sub buf header_len n in
              let '(fresh, o) :=
                if (header_len + n =? len)%nat && (CWIST_HTTP_BODY_ZC_MIN <=? cl)
                then alloc o else (false, o) in
              if fresh then
                ok (req <| req_body := Some body |>) 0%nat
                   (conn <| c_data := [] |> <| c_cap := CWIST_HTTP_READ_BUFFER_SIZE |>) o
              else
                match alloc o with
                | (false, o) => (fatal PARSE_EOF, conn, o)
                | (true, o) => ok (req <| req_body := Some body |>) (header_len + n)%nat conn o
                end
          else if te then
            match alloc o with
            | (false, o) => (fatal PARSE_EOF, conn, o)
            | (true, o) =>
                match chunked_scan (drop header_len buf) o with
                | (ScanComplete chunk_bytes, body, o) =>
                    ok (req <| req_body := match body with [] => None | _ => Some body end |>)
                       (header_len + chunk_bytes)%nat conn o
                | (ScanMore, _, o) =>
                    match stash_grow conn (blen buf + 4096) o with
                    | (false, conn, o) => (fatal PARSE_EOF, conn, o)
                    | (true, conn, o) => (need_more, conn, o)
                    end
                | (ScanBad, _, o) => (fatal PARSE_MALFORMED, conn, o)
                end
            end
          else ok req header_len conn o
      end
  end.

(** ** The blocking receiver *)

(** A [recv] repeated over EINTR and over EAGAIN with data on the way. *)
Fixpoint recv_retry (room : nat) (net : list recv_event) : option bytes * list recv_event :=
  match net with
  | RecvAgain :: rest | RecvIntr :: rest => recv_retry room rest
  | _ => match recv room net with
         | (RecvData d, rest) => (Some d, rest)
         | (_, rest) => (None, rest)
         end
  end.

(** Reads into [buf], whose capacity is [cap], until a CRLF follows [offset]. *)
Fixpoint until_crlf (fuel : nat) (cap : nat) (buf : bytes) (offset : nat) (net : list recv_event)
    : option (nat * bytes * list recv_event) :=
  match memmem_crlf buf offset (length buf) with
  | Some crlf => Some (crlf, buf, net)
  | None =>
      match fuel with
      | O => None
      | S fuel =>
          if (cap - 1 <=? length buf)%nat then None else
          match recv_retry (cap - 1 - length buf) net with
          | (None, _) => None
          | (Some d, net) => until_crlf fuel cap (buf ++ d) offset net
          end
      end
  end.

(** Reads until [need] bytes are there. *)
Fixpoint until_len (fuel : nat) (cap : nat) (buf : bytes) (need : nat) (net : list recv_event)
    : option (bytes * list recv_event) :=
  if (need <=? length buf)%nat then Some (buf, net) else
  match fuel with
  | O => None
  | S fuel =>
      if (cap - 1 <=? length buf)%nat then None else
      match recv_retry (cap - 1 - length buf) net with
      | (None, _) => None
      | (Some d, net) => until_len fuel cap (buf ++ d) need net
      end
  end.

(** The trailer loop and the final CRLF. *)
Fixpoint blocking_trailers (fuel : nat) (cap : nat) (buf : bytes) (offset : nat)
    (net : list recv_event) : option (nat * bytes * list recv_event) :=
  if (offset + 1 <? length buf)%nat && negb (is_crlf buf offset) then
    match fuel with
    | O => None
    | S fuel =>
        match memmem_crlf buf offset (length buf) with
        | Some t => blocking_trailers fuel cap buf (t + 2) net
        | None =>
            if (cap - 1 <=? length buf)%nat then None else
            match recv_retry (cap - 1 - length buf) net with
            | (None, _) => None
            | (Some d, net) =>
                let buf := buf ++ d in
                match memmem_crlf buf offset (length buf) with
                | Some t => blocking_trailers fuel cap buf (t + 2) net
                | None => blocking_trailers fuel cap buf offset net
                end
            end
        end
    end
  else
    Some ((if (offset + 1 <? length buf)%nat && is_crlf buf offset then (offset + 2)%nat else offset),
          buf, net).

(** The chunk loop of [http_read_chunked_body]: body, bytes left in the buffer. *)
Fixpoint read_chunks (fuel : nat) (cap : nat) (buf : bytes) (offset : nat) (out : bytes)
    (net : list recv_event) (o : oracle) : option (bytes * bytes * list recv_event) * oracle :=
  match fuel with
  | O => (None, o)
  | S fuel =>
      match until_crlf (net_size net) cap buf offset net with
      | None => (None, o)
      | Some (crlf, buf, net) =>
          let line_len := (crlf - offset + 2)%nat in
          match parse_chunk_size (sub buf offset (line_len - 2)) with
          | None => (None, o)
          | Some size =>
              let offset := (offset + line_len)%nat in
              if size =? 0 then
                match blocking_trailers (length buf + net_size net) cap buf offset net with
                | None => (None, o)
                | Some (offset, buf, net) => (Some (out, drop offset buf, net), o)
                end
              else if (CWIST_HTTP_MAX_BODY_SIZE <? size) || (CWIST_HTTP_MAX_BODY_SIZE <? blen out + size)
              then (None, o)
              else
                let n := Z.to_nat size in
                match until_len (net_size net) cap buf (offset + n + 2) net with
                | None => (None, o)
                | Some (buf, net) =>
                    if negb (is_crlf buf (offset + n)) then (None, o) else
                    match chunk_append out (sub buf offset n) o with
                    | (None, o) => (None, o)
                    | (Some out, o) => read_chunks fuel cap buf (offset + n + 2) out net o
                    end
                end
          end
      end
  end.
Definition read_chunked_body (cap : nat) (buf : bytes) (net : list recv_event) (o : oracle) :=
  read_chunks (S (length buf + net_size net)) cap buf 0 [] net o.

(** Reads the rest of a body of known length. *)
Fixpoint read_exact (fuel : nat) (body : bytes) (need : nat) (net : list recv_event)
    : option (bytes * list recv_event) :=
  if (need <=? length body)%nat then Some (body, net) else
  match fuel with
  | O => None
  | S fuel =>
      match recv_retry (need - length body) net with
      | (None, _) => None
      | (Some d, net) => read_exact fuel (body ++ d) need net
      end
  end.

(** The header read, within its time budget ([RecvTimeout]: nothing before it
    is spent); [live]: an idle connection may wait, the pool is not shutting
    down. *)
Fixpoint read_header (fuel : nat) (cap : nat) (live : bool) (buf : bytes) (net : list recv_event)
    : parse_error + (nat * bytes * list recv_event) :=
  match find_crlfcrlf buf 0 (length buf) with
  | Some header_end => inr (header_end, buf, net)
  | None =>
      if (cap - 1 <=? length buf)%nat then inl PARSE_HEADER_OVERFLOW
      else if (length buf =? 0)%nat && negb live then inl PARSE_EOF
      else
        match fuel with
        | O => inl PARSE_EOF
        | S fuel =>
            match recv (cap - 1 - length buf) net with
            | (RecvData d, net) => read_header fuel cap live (buf ++ d) net
            | (RecvAgain, net) | (RecvIntr, net) => read_header fuel cap live buf net
            | _ => inl PARSE_EOF
            end
        end
  end.

(** What [cwist_http_receive_request] returns: the request, what is left in the
    read buffer, the network after it, and the interim 100 responses written; or
    NULL with the error code, which the parser has already set to
    CWIST_HTTP_PARSE_OK ([None]) when a body read fails. *)
Record blocking_ok : Type := MkBlocking {
  bk_request : http_request;
  bk_left : bytes;
  bk_net : list recv_event;
  bk_continues : nat
}.

Definition receive_request (seed : bytes) (cap : nat) (live : bool) (buf : bytes)
    (net : list recv_event) (o : oracle) : (option parse_error + blocking_ok) * oracle :=
  match read_header (net_size net) cap live buf net with
  | inl e => (inl (Some e), o)
  | inr (header_end, buf, net) =>
      let header_len := (header_end + 4)%nat in
      match parse_request_with_header_end seed (take header_len buf) header_end o with
      | (inl e, o) => (inl (Some e), o)
      | (inr req, o) =>
          let rest := drop header_len buf in
          let te := req.(req_te_chunked_seen) in
          let cl := req.(req_content_length) in
          let continues := if req.(req_expect_100_seen) &&
                              ((blen rest <? cl) || (te && (cl =? 0))) then 1%nat else 0%nat in
          if 0 <? cl then
            if CWIST_HTTP_MAX_BODY_SIZE <? cl then (inl (Some PARSE_BODY_TOO_LARGE), o) else
            match alloc o with
            | (false, o) => (inl (Some PARSE_EOF), o)
            | (true, o) =>
                let n := Z.to_nat cl in
                match read_exact (net_size net) (take n rest) n net with
                | None => (inl None, o)
                | Some (body, net) =>
                    (inr (MkBlocking (req <| req_body := Some body |>) (drop n rest) net continues), o)
                end
            end
          else if te then
            match alloc o with
            | (false, o) => (inl None, o)
            | (true, o) =>
                match read_chunked_body cap rest net o with
                | (None, o) => (inl (Some PARSE_MALFORMED), o)
                | (Some (body, rest, net), o) =>
                    (inr (MkBlocking (req <| req_body := match body with [] => None | _ => Some body end |>)
                            rest net continues), o)
                end
            end
          else (inr (MkBlocking req rest net continues), o)
      end
  end.

(** ** Lemmas: scanning does not depend on what follows *)

Lemma is_crlf_app p x i : (i + 1 < length p)%nat -> is_crlf (p ++ x) i = is_crlf p i.
Proof. intros H. unfold is_crlf. by rewrite !rd_app_l by lia. Qed.

Lemma sub_app p x pos n : (pos + n <= length p)%nat -> sub (p ++ x) pos n = sub p pos n.
Proof.
  intros H. unfold sub. rewrite drop_app_le by lia. apply take_app_le. rewrite length_drop. lia.
Qed.

Lemma memmem_app p x pos t :
  memmem_crlf p pos (length p) = Some t ->
  memmem_crlf (p ++ x) pos (length (p ++ x)) = Some t /\ (pos <= t)%nat /\ (t + 2 <= length p)%nat.
Proof.
  unfold memmem_crlf. intros (Hr & Ht & Hb)%find_first_some. split; [|lia].
  apply find_first_some. rewrite length_app. split; [lia|].
  split; [by rewrite is_crlf_app by lia|]. intros i Hi. rewrite is_crlf_app by lia. by apply Hb.
Qed.

Lemma scan_trailers_app p x : forall f pos c,
  scan_trailers f p pos (length p) = ScanComplete c ->
  (pos <= c <= length p)%nat /\
  forall f2, (length (p ++ x) - pos < f2)%nat ->
    scan_trailers f2 (p ++ x) pos (length (p ++ x)) = ScanComplete c.
Proof.
  induction f as [|f IH]; intros pos c H; [done|]. cbn [scan_trailers] in H.
  destruct (Nat.ltb_spec (length p - pos) 2) as [|Hl]; [done|].
  assert (Hl2 : (length (p ++ x) - pos <? 2)%nat = false)
    by (apply Nat.ltb_ge; rewrite length_app; lia).
  destruct (is_crlf p pos) eqn:Ec.
  - injection H as <-. split; [lia|]. intros [|f2] Hf; [lia|]. cbn [scan_trailers].
    by rewrite Hl2, is_crlf_app, Ec by lia.
  - destruct (memmem_crlf p pos (length p)) as [t|] eqn:Et; [|done].
    apply (memmem_app p x) in Et as (Et & Ht1 & Ht2). apply IH in H as [Hc H]. split; [lia|].
    intros [|f2] Hf; [lia|]. cbn [scan_trailers]. rewrite Hl2, is_crlf_app, Ec, Et by lia.
    apply H. rewrite length_app in *. lia.
Qed.

Lemma scan_trailers_not_bad f : forall p pos n, scan_trailers f p pos n <> ScanBad.
Proof.
  induction f as [|f IH]; intros p pos n; cbn [scan_trailers]; [done|].
  destruct (_ <? _)%nat; [done|]. destruct (is_crlf p pos); [done|].
  by destruct (memmem_crlf p pos n).
Qed.

(** A verdict on a prefix, other than "more", is the verdict on the whole; only
    a stash past its bound without a line end is refused outright. *)
Lemma scan_app p x : forall f pos out o r out' o',
  chunked_scan_loop f p pos (length p) out o = (r, out', o') ->
  (length p - pos < f)%nat -> (pos <= length p)%nat ->
  r = ScanMore \/ (CWIST_ASYNC_STASH_MAX < Z.of_nat (length p) /\ r = ScanBad) \/
  (match r with ScanComplete c => (pos <= c <= length p)%nat | _ => True end /\
   forall f2, (length (p ++ x) - pos < f2)%nat ->
     chunked_scan_loop f2 (p ++ x) pos (length (p ++ x)) out o = (r, out', o')).
Proof.
  induction f as [|f IH]; intros pos out o r out' o' H Hf Hp; [lia|].
  cbn [chunked_scan_loop] in H.
  destruct (memmem_crlf p pos (length p)) as [t|] eqn:Et.
  2: { destruct (Z.ltb_spec CWIST_ASYNC_STASH_MAX (Z.of_nat (length p))); injection H as <- <- <-;
         [right; by left|by left]. }
  apply (memmem_app p x) in Et as (Et & Ht1 & Ht2).
  assert (Hsub : forall q n, (q + n <= length p)%nat -> sub (p ++ x) q n = sub p q n)
    by (intros; by apply sub_app).
  assert (Hunfold : forall f2, (length (p ++ x) - pos < f2)%nat -> exists f3, f2 = S f3 /\
    (length (p ++ x) - (t + 2) < f3)%nat).
  { intros [|f3] ?; [lia|]. exists f3. rewrite length_app in *. split; [done|lia]. }
  replace (pos + (t - pos) + 2)%nat with (t + 2)%nat in H by lia.
  destruct (parse_chunk_size (sub p pos (t - pos))) as [size|] eqn:Es.
  2: { injection H as <- <- <-. right. right. split; [done|]. intros f2 (f3 & -> & _)%Hunfold.
       cbn [chunked_scan_loop]. by rewrite Et, Hsub, Es by lia. }
  destruct (size =? 0) eqn:E0.
  { injection H as Hr <- <-. destruct r as [c| |]; [|by left|destruct (scan_trailers_not_bad (S (length p)) p (t + 2) (length p) Hr)].
    apply (scan_trailers_app p x (S (length p))) in Hr as [Hc Hr]. right. right. split; [lia|].
    intros f2 (f3 & -> & _)%Hunfold. cbn [chunked_scan_loop]. rewrite Et, Hsub, Es, E0 by lia.
    replace (pos + (t - pos) + 2)%nat with (t + 2)%nat by lia. by rewrite Hr by lia. }
  assert (Hstep : forall g, chunked_scan_loop (S g) (p ++ x) pos (length (p ++ x)) out o =
    if CWIST_HTTP_MAX_BODY_SIZE <? size then (ScanBad, out, o)
    else if (length (p ++ x) - (t + 2) <? Z.to_nat size + 2)%nat then (ScanMore, out, o)
    else if negb (is_crlf (p ++ x) (t + 2 + Z.to_nat size)) then (ScanBad, out, o)
    else if CWIST_HTTP_MAX_BODY_SIZE <? blen out + size then (ScanBad, out, o)
    else match chunk_append out (sub (p ++ x) (t + 2) (Z.to_nat size)) o with
         | (None, o) => (ScanBad, out, o)
         | (Some out, o) => chunked_scan_loop g (p ++ x) (t + 2 + Z.to_nat size + 2)
                              (length (p ++ x)) out o
         end).
  { intros g. cbn [chunked_scan_loop]. rewrite Et, Hsub, Es, E0 by lia.
    by replace (pos + (t - pos) + 2)%nat with (t + 2)%nat by lia. }
  set (n := Z.to_nat size) in *.
  destruct (CWIST_HTTP_MAX_BODY_SIZE <? size) eqn:Em.
  { injection H as <- <- <-. right. right. split; [done|]. intros f2 (f3 & -> & _)%Hunfold. by rewrite Hstep. }
  destruct (Nat.ltb_spec (length p - (t + 2)) (n + 2)) as [|Hn].
  { injection H as <- <- <-. by left. }
  assert (Hn2 : (length (p ++ x) - (t + 2) <? n + 2)%nat = false)
    by (apply Nat.ltb_ge; rewrite length_app; lia).
  rewrite Hn2 in Hstep. rewrite is_crlf_app in Hstep by lia. rewrite Hsub in Hstep by lia.
  destruct (negb (is_crlf p (t + 2 + n))) eqn:Ec.
  { injection H as <- <- <-. right. right. split; [done|]. intros f2 (f3 & -> & _)%Hunfold. by rewrite Hstep. }
  destruct (CWIST_HTTP_MAX_BODY_SIZE <? blen out + size) eqn:Eo.
  { injection H as <- <- <-. right. right. split; [done|]. intros f2 (f3 & -> & _)%Hunfold. by rewrite Hstep. }
  destruct (chunk_append out (sub p (t + 2) n) o) as [[out1|] o1] eqn:Ea.
  2: { injection H as <- <- <-. right. right. split; [done|]. intros f2 (f3 & -> & _)%Hunfold. by rewrite Hstep. }
  apply IH in H; [|lia|lia]. destruct H as [H|[H|[Hc H]]]; [by left|right; by left|right; right].
  split; [destruct r; [lia|done|done]|]. intros f2 (f3 & -> & Hf3)%Hunfold. rewrite Hstep. apply H. lia.
Qed.

(** ** Lemmas: the decoder inverts the encoder *)

Lemma hex_digit_spec d :
  0 <= d < 16 -> hex_value (hex_digit d) = Some d /\ hex_digit d <> 59 /\ hex_digit d <> 13 /\
  is_u8 (hex_digit d).
Proof.
  intros Hd. unfold hex_digit, hex_value, is_u8. destruct (Z.ltb_spec d 10).
  - destruct (Z.leb_spec 48 (48 + d)), (Z.leb_spec (48 + d) 57); try lia. cbn [andb].
    split; [f_equal; lia|lia].
  - destruct (Z.leb_spec 48 (87 + d)), (Z.leb_spec (87 + d) 57); try lia. cbn [andb].
    destruct (Z.leb_spec 97 (87 + d)), (Z.leb_spec (87 + d) 102); try lia. cbn [andb].
    split; [f_equal; lia|lia].
Qed.

Lemma chunk_digits_hex fuel : forall n tail,
  0 <= n < 16 ^ Z.of_nat fuel -> n <= CWIST_HTTP_MAX_BODY_SIZE -> (0 < fuel)%nat ->
  exists k, chunk_digits (hex_loop fuel n ++ tail) 0 0 = chunk_digits tail n (S k).
Proof.
  induction fuel as [|fuel IH]; intros n tail Hn Hm Hf; [lia|]. cbn [hex_loop].
  assert (Hd : 0 <= n mod 16 < 16) by (apply Z.mod_pos_bound; lia).
  destruct (hex_digit_spec _ Hd) as (Hv & H59 & _).
  assert (Hstep : forall v k, v * 16 + n mod 16 = n ->
    chunk_digits (hex_digit (n mod 16) :: tail) v k = chunk_digits tail n (S k)).
  { intros v k Hv'. cbn [chunk_digits]. rewrite (proj2 (Z.eqb_neq _ _) H59), Hv.
    rewrite (proj2 (Z.ltb_ge _ _)) by (apply Z.div_le_lower_bound; lia). by rewrite Hv'. }
  destruct (Z.ltb_spec n 16) as [Hlt|Hge].
  - exists 0%nat. apply Hstep. rewrite Z.mod_small; lia.
  - rewrite Nat2Z.inj_succ, Z.pow_succ_r in Hn by lia.
    destruct fuel as [|fuel]; [cbn in Hn; lia|].
    destruct (IH (n / 16) (hex_digit (n mod 16) :: tail)) as [k Hk]; [split; zlia|zlia|lia|].
    exists (S k). rewrite <- app_assoc. cbn [app]. rewrite Hk. apply Hstep. zlia.
Qed.

Lemma parse_hex n : 0 <= n <= CWIST_HTTP_MAX_BODY_SIZE -> parse_chunk_size (hex n) = Some n.
Proof.
  intros Hn. unfold parse_chunk_size, hex. unfold CWIST_HTTP_MAX_BODY_SIZE in Hn.
  destruct (chunk_digits_hex 16 n []) as [k Hk];
    [change (16 ^ Z.of_nat 16) with 18446744073709551616; lia|apply Hn|lia|].
  rewrite app_nil_r in Hk. by rewrite Hk.
Qed.

Lemma hex_lacks n : 0 <= n -> lacks 13 (hex n).
Proof.
  unfold hex, lacks. generalize 16%nat as fuel. intros fuel. revert n.
  induction fuel as [|fuel IH]; intros n Hn; [constructor|]. cbn [hex_loop].
  apply Forall_app_2; [destruct (n <? 16); [constructor|apply IH; zlia]|].
  constructor; [|constructor]. apply (hex_digit_spec (n mod 16)). apply Z.mod_pos_bound. lia.
Qed.

Lemma memmem_mid buf pre l post :
  buf = pre ++ l ++ crlf ++ post -> lacks 13 l ->
  memmem_crlf buf (length pre) (length buf) = Some (length pre + length l)%nat.
Proof.
  intros -> Hl. unfold memmem_crlf. apply find_first_some.
  rewrite !length_app. cbn [crlf length]. split; [lia|]. split.
  - unfold is_crlf. rewrite (app_assoc pre), <- length_app.
    rewrite <- (Nat.add_0_r (length (pre ++ l))) at 1. by rewrite !rd_mid by (cbn; lia).
  - intros i Hi. replace i with (length pre + (i - length pre))%nat by lia.
    unfold is_crlf. rewrite rd_mid by lia. apply andb_false_iff. left.
    apply Z.eqb_neq. apply lacks_rd; [done|lia].
Qed.

Lemma sub_at pre l post : sub (pre ++ l ++ post) (length pre) (length l) = l.
Proof. unfold sub. by rewrite drop_app_length, take_app_length. Qed.

Lemma is_crlf_at pre post : is_crlf (pre ++ crlf ++ post) (length pre) = true.
Proof.
  unfold is_crlf. rewrite <- (Nat.add_0_r (length pre)) at 1. by rewrite !rd_mid by (cbn; lia).
Qed.

Lemma scan_frames chunks : forall f buf pre out rest,
  buf = pre ++ concat (map chunk_frame chunks) ++ last_chunk ++ rest ->
  Forall (fun d => d <> []) chunks -> (length buf - length pre < f)%nat ->
  blen (out ++ concat chunks) <= CWIST_HTTP_MAX_BODY_SIZE ->
  chunked_scan_loop f buf (length pre) (length buf) out [] =
    (ScanComplete (length pre + length (concat (map chunk_frame chunks)) + 5), out ++ concat chunks, []).
Proof.
  induction chunks as [|d chunks IH]; intros [|f] buf pre out rest Hbuf Hne Hf Hmax; try lia;
    cbn [map concat app] in *.
  - cbn [chunked_scan_loop].
    assert (Hl : buf = pre ++ [48] ++ crlf ++ crlf ++ rest) by (rewrite Hbuf; unfold last_chunk; by rewrite <- !app_assoc).
    rewrite (memmem_mid buf pre [48] (crlf ++ rest) Hl) by (by repeat constructor).
    cbn [length]. replace (length pre + 1 - length pre)%nat with 1%nat by lia.
    rewrite Hl at 1. change 1%nat with (length (bs "0")) at 1. change [48] with (bs "0"). rewrite sub_at.
    change (parse_chunk_size (bs "0")) with (Some 0). cbv beta iota zeta. cbn [Z.eqb].
    assert (Hat : is_crlf buf (length pre + 1 + 2) = true).
    { rewrite Hl. replace (length pre + 1 + 2)%nat with (length (pre ++ [48] ++ crlf))
        by (rewrite !length_app; cbn; lia).
      replace (pre ++ [48] ++ crlf ++ crlf ++ rest) with ((pre ++ [48] ++ crlf) ++ crlf ++ rest)
        by (by rewrite <- !app_assoc). apply is_crlf_at. }
    cbn [scan_trailers]. rewrite Hat, app_nil_r.
    replace (length buf - (length pre + 1 + 2) <? 2)%nat with false.
    { do 3 f_equal. cbn [length]. lia. }
    symmetry. apply Nat.ltb_ge. rewrite Hl, !length_app. cbn [length crlf]. lia.
  - apply Forall_cons_1 in Hne as [Hd Hne].
    assert (Hlen : blen d <= CWIST_HTTP_MAX_BODY_SIZE /\ blen out + blen d <= CWIST_HTTP_MAX_BODY_SIZE).
    { rewrite !blen_app in Hmax. pose proof (blen_nonneg out). pose proof (blen_nonneg (concat chunks)). lia. }
    assert (Hd0 : 0 < blen d) by (unfold blen; destruct d; [done|cbn [length]; lia]).
    set (fr := concat (map chunk_frame chunks)) in *.
    set (h := hex (blen d)).
    assert (Hl : buf = pre ++ h ++ crlf ++ d ++ crlf ++ fr ++ last_chunk ++ rest)
      by (rewrite Hbuf; unfold chunk_frame; by rewrite <- !app_assoc).
    cbn [chunked_scan_loop].
    rewrite (memmem_mid buf pre h _ Hl) by (apply hex_lacks; lia).
    replace (length pre + length h - length pre)%nat with (length h) by lia.
    rewrite Hl at 1. rewrite sub_at. subst h. set (h := hex (blen d)) in *.
    assert (Hp : parse_chunk_size h = Some (blen d)) by (apply parse_hex; lia).
    rewrite Hp. rewrite (proj2 (Z.eqb_neq (blen d) 0)) by lia.
    rewrite (proj2 (Z.ltb_ge _ (blen d))) by lia.
    assert (Hn : Z.to_nat (blen d) = length d) by (unfold blen; lia). rewrite Hn.
    set (pre1 := pre ++ h ++ crlf).
    assert (Hpre1 : (length pre + length h + 2)%nat = length pre1)
      by (subst pre1; rewrite !length_app; cbn [length crlf]; lia).
    rewrite Hpre1.
    assert (Hl1 : buf = pre1 ++ d ++ crlf ++ fr ++ last_chunk ++ rest)
      by (rewrite Hl; subst pre1; by rewrite <- !app_assoc).
    assert (Hc : is_crlf buf (length pre1 + length d) = true).
    { rewrite Hl1, <- length_app, app_assoc. apply is_crlf_at. }
    assert (Hs : sub buf (length pre1) (length d) = d) by (rewrite Hl1; apply sub_at).
    assert (Hb : (length buf - length pre1 <? length d + 2)%nat = false).
    { apply Nat.ltb_ge. rewrite Hl1, !length_app. cbn [length crlf]. lia. }
    rewrite Hb, Hc, Hs. cbn [negb]. rewrite (proj2 (Z.ltb_ge _ (blen out + blen d))) by lia.
    unfold chunk_append. rewrite (proj2 (Nat.eqb_neq (length d) 0)) by (destruct d; [done|cbn; lia]).
    cbn [alloc]. set (pre2 := pre1 ++ d ++ crlf).
    assert (Hpre2 : (length pre1 + length d + 2)%nat = length pre2)
      by (subst pre2; rewrite !length_app; cbn [length crlf]; lia).
    rewrite Hpre2, (IH f buf pre2 (out ++ d) rest).
    + f_equal. f_equal; [|by rewrite <- app_assoc]. f_equal. rewrite <- Hpre2, <- Hpre1.
      unfold chunk_frame. rewrite !length_app. fold h. cbn [length crlf]. lia.
    + rewrite Hl1. subst pre2. by rewrite <- !app_assoc.
    + done.
    + assert (length pre2 <= length buf)%nat by
        (rewrite Hl1, <- Hpre2, !length_app; cbn [length crlf]; lia).
      rewrite <- Hpre2, <- Hpre1 in *. lia.
    + by rewrite <- app_assoc.
Qed.

(** ** Lemmas: the stash *)

Lemma grow_cap_spec fuel : forall cap need,
  0 < cap -> need <= cap * 2 ^ Z.of_nat fuel -> need <= CWIST_ASYNC_STASH_MAX ->
  need <= grow_cap fuel cap need /\ 0 < grow_cap fuel cap need.
Proof.
  induction fuel as [|fuel IH]; intros cap need Hc Hn Hm; cbn [grow_cap].
  { rewrite Z.pow_0_r in Hn. lia. }
  rewrite Nat2Z.inj_succ, Z.pow_succ_r in Hn by lia.
  destruct (Z.ltb_spec cap need); [|lia].
  destruct (_ <? cap); [unfold CWIST_ASYNC_STASH_MAX, CWIST_HTTP_READ_BUFFER_SIZE,
    CWIST_HTTP_MAX_BODY_SIZE in *; lia|].
  apply IH; lia.
Qed.

(** The connection's buffer: absent, or with room for the closing NUL. *)
Definition conn_ok (c : async_conn) : Prop :=
  (c.(c_cap) = 0 /\ c.(c_data) = []) \/ blen c.(c_data) < c.(c_cap) <= CWIST_ASYNC_STASH_MAX.

Lemma stash_grow_spec conn need o ok conn' o' :
  conn_ok conn -> stash_grow conn need o = (ok, conn', o') ->
  c_data conn' = c_data conn /\ conn_ok conn' /\ c_cap conn <= c_cap conn' /\
  c_rx_recv_inflight conn' = c_rx_recv_inflight conn /\
  (ok = true -> need <= c_cap conn' <= CWIST_ASYNC_STASH_MAX) /\
  (c_rx_recv_inflight conn = false -> need <= CWIST_ASYNC_STASH_MAX -> o = [] -> ok = true /\ o' = []).
Proof.
  intros Hok H. unfold stash_grow in H.
  assert (Hcap : 0 <= c_cap conn <= CWIST_ASYNC_STASH_MAX).
  { destruct Hok as [[-> _]|Hok]; [done|]. pose proof (blen_nonneg (c_data conn)). lia. }
  destruct (c_rx_recv_inflight conn) eqn:Ei.
  { injection H as <- <- <-. rewrite Ei. split; [done|]. split; [done|]. split; [lia|]. done. }
  destruct (Z.ltb_spec CWIST_ASYNC_STASH_MAX need).
  { injection H as <- <- <-. rewrite Ei. do 4 (split; [done || lia|]). split; [done|lia]. }
  destruct (Z.leb_spec need (c_cap conn)).
  { injection H as <- <- <-. rewrite Ei. do 4 (split; [done || lia|]). split; [lia|done]. }
  set (base := if c_cap conn =? 0 then CWIST_ASYNC_STASH_IDLE else c_cap conn) in *.
  assert (Hb : 0 < base) by (subst base; destruct (Z.eqb_spec (c_cap conn) 0); [done|lia]).
  destruct (grow_cap_spec 64 base need Hb) as [Hg _].
  { change (2 ^ Z.of_nat 64) with 18446744073709551616.
    unfold CWIST_ASYNC_STASH_MAX, CWIST_HTTP_READ_BUFFER_SIZE, CWIST_HTTP_MAX_BODY_SIZE in *. lia. }
  { done. }
  set (g := grow_cap 64 base need) in *. clearbody g.
  set (cap := if CWIST_ASYNC_STASH_MAX <? g then CWIST_ASYNC_STASH_MAX else g) in *.
  assert (Hc : need <= cap <= CWIST_ASYNC_STASH_MAX)
    by (subst cap; destruct (Z.ltb_spec CWIST_ASYNC_STASH_MAX g); lia).
  clearbody cap. rewrite (proj2 (Z.eqb_neq cap (c_cap conn))) in H by lia.
  assert (Hok' : conn_ok (conn <| c_cap := cap |>)).
  { right. change (blen (c_data conn) < cap <= CWIST_ASYNC_STASH_MAX).
    destruct Hok as [[_ Hd]|Hok]; [rewrite Hd; change (blen []) with 0; lia|lia]. }
  destruct (alloc o) as [[] o1] eqn:Ea; injection H as <- <- <-.
  - split; [done|]. split; [done|]. split; [change (c_cap conn <= cap); lia|].
    split; [done|]. split; [intros _; exact Hc|]. intros _ _ ->. by injection Ea as <-.
  - split; [done|]. split; [done|]. split; [lia|]. split; [done|]. split; [done|].
    intros _ _ ->. done.
Qed.

Lemma net_bytes_cons e net : net_bytes (e :: net) = event_bytes e ++ net_bytes net.
Proof. done. Qed.

(** A [recv] takes bytes from the front of the stream. *)
Lemma recv_spec room net e net' :
  (0 < room)%nat -> recv room net = (e, net') ->
  event_bytes e ++ net_bytes net' = net_bytes net /\
  (forall d, e = RecvData d -> (0 < length d <= room)%nat /\ (net_size net' < net_size net)%nat) /\
  (e = RecvIntr -> (net_size net' < net_size net)%nat) /\
  (Forall (fun e => e <> RecvFail) net -> e <> RecvFail /\ Forall (fun e => e <> RecvFail) net').
Proof.
  intros Hroom H. unfold recv in H.
  assert (Hother : forall e1 rest, event_bytes e1 = [] -> (forall d, e1 <> RecvData d) ->
    (e1, rest) = (e, net') -> net = e1 :: rest ->
    event_bytes e ++ net_bytes net' = net_bytes net /\
    (forall d, e = RecvData d -> (0 < length d <= room)%nat /\ (net_size net' < net_size net)%nat) /\
    (e = RecvIntr -> (net_size net' < net_size net)%nat) /\
    (Forall (fun e => e <> RecvFail) net -> e <> RecvFail /\ Forall (fun e => e <> RecvFail) net')).
  { intros e1 rest He1 Hd [= -> ->] ->. split; [done|]. split; [intros d Hd'; by destruct (Hd d)|].
    split; [intros ->; cbn; unfold net_size; lia|]. intros Hf. apply Forall_cons_1 in Hf as [? ?]; done. }
  destruct net as [|[d| | | | |] net]; try (refine (Hother _ _ _ _ H eq_refl); done).
  { by injection H as <- <-. }
  destruct (Nat.eqb_spec (length d) 0) as [H0|H0].
  { injection H as <- <-. destruct d; [|done]. split; [done|]. split; [done|]. split; [done|].
    intros Hf; apply Forall_cons_1 in Hf as [_ Hf]; done. }
  rewrite (proj2 (Nat.eqb_neq room 0)) in H by lia.
  destruct (Nat.ltb_spec room (length d)); injection H as <- <-.
  - split; [cbn [event_bytes]; rewrite net_bytes_cons; cbn [event_bytes];
            by rewrite app_assoc, take_drop|].
    split; [|split; [done|]].
    + intros ? [= <-]. rewrite length_take. split; [lia|].
      unfold net_size. cbn [sum_list_with event_size]. rewrite length_drop. lia.
    + intros Hf. split; [done|]. apply Forall_cons_1 in Hf as [_ Hf]. by constructor.
  - split; [done|]. split; [|split; [done|]].
    + intros ? [= <-]. split; [lia|]. cbn [net_size sum_list_with event_size]. unfold net_size. lia.
    + intros Hf. apply Forall_cons_1 in Hf as [? ?]; done.
Qed.

Lemma conn_ok_room c : conn_ok c -> 0 <= c_cap c <= CWIST_ASYNC_STASH_MAX.
Proof.
  intros [[-> _]|H]; [done|]. pose proof (blen_nonneg (c_data c)). lia.
Qed.

Lemma fill_loop_spec fuel : forall conn net o ok conn' net' o',
  conn_ok conn -> fill_loop fuel conn net o = (ok, conn', net', o') ->
  c_data conn' ++ net_bytes net' = c_data conn ++ net_bytes net /\ conn_ok conn' /\
  ((net_size net < fuel)%nat -> c_rx_recv_inflight conn = false -> o = [] ->
   Forall (fun e => e <> RecvFail) net ->
   blen (c_data conn ++ net_bytes net) + 4096 <= CWIST_ASYNC_STASH_MAX -> ok = true).
Proof.
  induction fuel as [|fuel IH]; intros conn net o ok conn' net' o' Hok H; cbn [fill_loop] in H.
  { injection H as <- <- <- <-. split; [done|]. split; [done|lia]. }
  destruct (if c_cap conn <=? blen (c_data conn) + 1 then _ else _) as [[room conn1] o1] eqn:Er.
  assert (Hr : c_data conn1 = c_data conn /\ conn_ok conn1 /\
    c_rx_recv_inflight conn1 = c_rx_recv_inflight conn /\
    (room = true -> blen (c_data conn) + 1 < c_cap conn1) /\
    (c_rx_recv_inflight conn = false -> o = [] ->
     blen (c_data conn) + 4096 <= CWIST_ASYNC_STASH_MAX -> room = true /\ o1 = [])).
  { destruct (Z.leb_spec (c_cap conn) (blen (c_data conn) + 1)).
    - apply (stash_grow_spec _ _ _ _ _ _ Hok) in Er as (E1 & E2 & E3 & E4 & E5 & E6).
      split; [done|]. split; [done|]. split; [done|]. split; [intros Ht; specialize (E5 Ht); lia|].
      intros Hi Ho Hm. by apply E6.
    - injection Er as <- <- <-. split; [done|]. split; [done|]. split; [done|]. split; [lia|done]. }
  destruct Hr as (Hd & Hok1 & Hi & Hroom & Hlive).
  destruct room; cbn [negb] in H.
  2: { injection H as <- <- <- <-. rewrite Hd. split; [done|]. split; [done|]. intros _ Hi0 Ho _ Hm.
       rewrite blen_app in Hm. pose proof (blen_nonneg (net_bytes net)).
       by destruct (Hlive Hi0 Ho ltac:(lia)). }
  specialize (Hroom eq_refl). pose proof (conn_ok_room _ Hok1) as Hcap1. rewrite Hd in H.
  pose proof (blen_nonneg (c_data conn)) as Hnn.
  set (avail := Z.to_nat (c_cap conn1 - 1 - blen (c_data conn))) in *.
  assert (Hav : (0 < avail)%nat /\ Z.of_nat avail = c_cap conn1 - 1 - blen (c_data conn)) by lia.
  clearbody avail. destruct (recv avail net) as [e net1] eqn:Ev.
  apply recv_spec in Ev as (Hb & Hdata & Hintr & Hfail); [|lia].
  assert (Hstop : forall b, (ok, conn', net', o') = (b, conn1, net1, o1) -> event_bytes e = [] ->
    c_data conn' ++ net_bytes net' = c_data conn ++ net_bytes net /\ conn_ok conn').
  { intros b [= _ -> -> _] He. rewrite Hd. split; [|done]. by rewrite <- Hb, He. }
  destruct e as [d| | | | |]; cbn [event_bytes app] in *.
  - destruct (Hdata d eq_refl) as [Hl Hs].
    set (conn2 := conn1 <| c_data := c_data conn ++ d |> <| c_virgin := false |>) in *.
    assert (Hok2 : conn_ok conn2).
    { right. change (blen (c_data conn ++ d) < c_cap conn1 <= CWIST_ASYNC_STASH_MAX).
      rewrite blen_app. unfold blen at 2. lia. }
    assert (Hall : (c_data conn ++ d) ++ net_bytes net1 = c_data conn ++ net_bytes net)
      by (by rewrite <- app_assoc, Hb).
    destruct (length d <? avail)%nat.
    { injection H as <- <- <- <-. by split. }
    apply IH in H as (H1 & H2 & H3); [|done].
    change (c_data conn2) with (c_data conn ++ d) in *. rewrite Hall in *.
    split; [done|]. split; [done|]. intros Hf Hi0 Ho Hnf Hm.
    apply H3; [lia|by rewrite <- Hi0, <- Hi| |by apply Hfail|done].
    rewrite blen_app in Hm. pose proof (blen_nonneg (net_bytes net)). by apply Hlive; try lia.
  - injection H as <- <- <- <-. split; [change (c_data conn1 ++ net_bytes net1 = c_data conn ++ net_bytes net);
      by rewrite Hd, <- Hb|]. split; [exact Hok1|done].
  - injection H as <- <- <- <-. rewrite Hd, Hb. done.
  - injection H as <- <- <- <-. rewrite Hd, Hb. done.
  - apply IH in H as (H1 & H2 & H3); [|done]. rewrite Hd, Hb in *.
    split; [done|]. split; [done|]. intros Hf Hi0 Ho Hnf Hm. specialize (Hintr eq_refl).
    apply H3; [lia|by rewrite Hi| |by apply Hfail|done].
    rewrite blen_app in Hm. pose proof (blen_nonneg (net_bytes net)). by apply Hlive; try lia.
  - injection H as <- <- <- <-. rewrite Hd, Hb. split; [done|]. split; [done|].
    intros _ _ _ Hnf. by destruct (Hfail Hnf).
Qed.

(** ** Lemmas: the blocking reader *)

Lemma blocking_trailers_agree buf cap net : forall f f2 pos c,
  scan_trailers f buf pos (length buf) = ScanComplete c -> (length buf - pos < f2)%nat ->
  blocking_trailers f2 cap buf pos net = Some (c, buf, net).
Proof.
  induction f as [|f IH]; intros f2 pos c H Hf; [done|]. cbn [scan_trailers] in H.
  destruct (Nat.ltb_spec (length buf - pos) 2); [done|].
  assert (Hlt : (pos + 1 <? length buf)%nat = true) by (apply Nat.ltb_lt; lia).
  destruct f2 as [|f2]; [lia|]. cbn [blocking_trailers]. rewrite Hlt.
  destruct (is_crlf buf pos) eqn:Ec; cbn [negb andb].
  - by injection H as <-.
  - destruct (memmem_crlf buf pos (length buf)) as [t|] eqn:Et; [|done].
    apply (memmem_app buf []) in Et as (_ & Ht1 & Ht2). apply IH; [done|lia].
Qed.

(** A message that is all there is read without a [recv]. *)
Lemma read_chunks_agree buf cap net : forall f f2 pos out o c out' o',
  chunked_scan_loop f buf pos (length buf) out o = (ScanComplete c, out', o') ->
  (length buf - pos < f2)%nat -> (pos <= length buf)%nat ->
  read_chunks f2 cap buf pos out net o = (Some (out', drop c buf, net), o').
Proof.
  induction f as [|f IH]; intros f2 pos out o c out' o' H Hf Hp; [done|].
  destruct f2 as [|f2]; [lia|]. cbn [chunked_scan_loop read_chunks] in *.
  destruct (memmem_crlf buf pos (length buf)) as [t|] eqn:Et; [|by destruct (_ <? _)].
  assert (Hu : until_crlf (net_size net) cap buf pos net = Some (t, buf, net))
    by (destruct (net_size net); cbn [until_crlf]; by rewrite Et).
  rewrite Hu. apply (memmem_app buf []) in Et as (_ & Ht1 & Ht2).
  replace (t - pos + 2 - 2)%nat with (t - pos)%nat by lia.
  destruct (parse_chunk_size _) as [size|]; [|done].
  replace (pos + (t - pos) + 2)%nat with (t + 2)%nat in H by lia.
  replace (pos + (t - pos + 2))%nat with (t + 2)%nat by lia.
  destruct (size =? 0).
  { injection H as H <- <-. rewrite (blocking_trailers_agree buf cap net (S (length buf)) _ _ c H) by lia.
    done. }
  destruct (CWIST_HTTP_MAX_BODY_SIZE <? size); [done|].
  destruct (Nat.ltb_spec (length buf - (t + 2)) (Z.to_nat size + 2)) as [|Hn]; [done|].
  destruct (is_crlf buf (t + 2 + Z.to_nat size)) eqn:Ec; [|done]. cbn [negb orb] in *.
  destruct (CWIST_HTTP_MAX_BODY_SIZE <? blen out + size); [done|].
  assert (Hl : until_len (net_size net) cap buf (t + 2 + Z.to_nat size + 2) net = Some (buf, net)).
  { destruct (net_size net); cbn [until_len];
      by rewrite (proj2 (Nat.leb_le (t + 2 + Z.to_nat size + 2) (length buf))) by lia. }
  rewrite Hl, Ec. cbn [negb]. destruct (chunk_append _ _ o) as [[out1|] o1]; [|done].
  apply (IH _ _ _ _ _ _ _ H); lia.
Qed.

(** ** Lemmas: parsing without allocation failures leaves none behind *)

Lemma header_loop_nil fuel : forall raw ls he hs f, (header_loop fuel raw ls he hs f []).2 = [].
Proof.
  induction fuel as [|fuel IH]; intros raw ls he hs f; cbn [header_loop]; [done|].
  destruct (he <=? ls)%nat; [done|]. destruct (find_crlf _ _ _) as [le|]; [|done].
  destruct (le =? ls)%nat; [done|]. unfold header_line.
  destruct (find_char _ _ _ _); [|apply IH]. destruct (_ && _); [done|].
  rewrite header_add_nil. apply IH.
Qed.

Lemma parse_nil seed raw he : (parse_request_with_header_end seed raw he []).2 = [].
Proof.
  unfold parse_request_with_header_end. destruct (find_crlf raw 0 _) as [le|]; [|done].
  destruct (he <? le)%nat; [done|]. cbn [http_request_create alloc].
  set (req0 := MkRequest _ _ _ _ _ _ _ _ _ _ _).
  pose proof (parse_request_line_nil seed raw le req0) as H1.
  destruct (parse_request_line _ _ _ _ _) as [[e|req] o1]; cbn [snd] in H1; subst o1; [done|].
  set (f0 := MkFlags _ _ _ _ _ _ _ _ _ _ _).
  pose proof (header_loop_nil (S (length raw)) raw (le + 2) he (req_headers req) f0) as H2.
  destruct (header_loop _ _ _ _ _ _ _) as [[e|[hs f]] o2]; cbn [snd] in H2; subst o2; [done|].
  destruct (check_headers _ _ _); [done|]. cbv zeta. set (req1 := set_field _ _). clearbody req1.
  unfold take_body. destruct (_ <? _)%nat; [|done].
  by destruct (sstring_assign_arena _ _ _) as [b o3] eqn:Eb; apply (f_equal snd) in Eb.
Qed.

(** ** The framing both receivers implement *)

(** How many bytes after the head belong to the message, and its body. *)
Definition framed (req : http_request) (rest : bytes) : option (nat * option bytes) :=
  let cl := req.(req_content_length) in
  if 0 <? cl then
    if (CWIST_HTTP_MAX_BODY_SIZE <? cl) || (blen rest <? cl) then None
    else Some (Z.to_nat cl, Some (take (Z.to_nat cl) rest))
  else if req.(req_te_chunked_seen) then
    match chunked_scan rest [] with
    | (ScanComplete n, body, _) => Some (n, match body with [] => None | _ => Some body end)
    | _ => None
    end
  else Some (O, req.(req_body)).

(** A complete message at the front of [buf]: its request and its length. *)
Definition message (seed buf : bytes) : option (http_request * nat) :=
  match find_crlfcrlf buf 0 (length buf) with
  | None => None
  | Some he =>
      match parse_request_with_header_end seed (take (he + 4) buf) he [] with
      | (inr req, _) =>
          match framed req (drop (he + 4) buf) with
          | Some (n, body) => Some (req <| req_body := body |>, (he + 4 + n)%nat)
          | None => None
          end
      | (inl _, _) => None
      end
  end.

Lemma scan_nil fuel : forall buf pos n out, (chunked_scan_loop fuel buf pos n out []).2 = [].
Proof.
  induction fuel as [|fuel IH]; intros buf pos n out; cbn [chunked_scan_loop]; [done|].
  destruct (memmem_crlf buf pos n); [|done]. destruct (parse_chunk_size _); [|done].
  repeat (match goal with |- context [if ?b then _ else _] => destruct b end; [done|]).
  unfold chunk_append. destruct (_ =? 0)%nat; apply IH.
Qed.

Lemma scan_complete_app p x n body o :
  chunked_scan p [] = (ScanComplete n, body, o) ->
  (n <= length p)%nat /\ chunked_scan (p ++ x) [] = (ScanComplete n, body, o).
Proof.
  intros H. unfold chunked_scan in *.
  destruct (scan_app p x _ _ _ _ _ _ _ H) as [Hc|[[_ Hc]|[Hc Hx]]]; [lia|lia|done|done|].
  split; [lia|]. apply Hx. lia.
Qed.

Lemma framed_app req rest x n body :
  framed req rest = Some (n, body) ->
  (n <= length rest)%nat /\ framed req (rest ++ x) = Some (n, body).
Proof.
  unfold framed. destruct (Z.ltb_spec 0 (req_content_length req)) as [H0|H0].
  - destruct (Z.ltb_spec CWIST_HTTP_MAX_BODY_SIZE (req_content_length req)); [done|].
    destruct (Z.ltb_spec (blen rest) (req_content_length req)) as [|Hl]; [done|]. intros [= <- <-].
    unfold blen in Hl. split; [lia|]. rewrite (proj2 (Z.ltb_ge (blen (rest ++ x)) _)).
    + cbn [orb]. by rewrite take_app_le by lia.
    + unfold blen. rewrite length_app. lia.
  - destruct (req_te_chunked_seen req); [|intros [= <- <-]; split; [lia|done]].
    destruct (chunked_scan rest []) as [[[c| |] b] o] eqn:Es; [|done|done]. intros [= <- <-].
    apply (scan_complete_app _ x) in Es as [Hc ->]. done.
Qed.

Lemma find_crlfcrlf_app p x he :
  bytes_ok p -> bytes_ok x -> find_crlfcrlf p 0 (length p) = Some he ->
  (he + 4 <= length p)%nat /\ find_crlfcrlf (p ++ x) 0 (length (p ++ x)) = Some he.
Proof.
  intros Hp Hx. rewrite !find_crlfcrlf_scan by (done || by apply Forall_app_2).
  intros (Hr & Hc & Hb)%find_first_some. split; [lia|]. apply find_first_some.
  assert (Heq : forall i, (i + 3 < length p)%nat -> is_crlfcrlf (p ++ x) i = is_crlfcrlf p i)
    by (intros i Hi; unfold is_crlfcrlf; by rewrite !rd_app_l by lia).
  rewrite length_app. split; [lia|]. split; [by rewrite Heq by lia|].
  intros i Hi. rewrite Heq by lia. by apply Hb.
Qed.

Lemma message_app seed p x req n :
  bytes_ok p -> bytes_ok x -> message seed p = Some (req, n) ->
  (0 < n <= length p)%nat /\ message seed (p ++ x) = Some (req, n).
Proof.
  intros Hp Hx. unfold message. destruct (find_crlfcrlf p 0 (length p)) as [he|] eqn:Eh; [|done].
  destruct (find_crlfcrlf_app p x he Hp Hx Eh) as [Hl ->].
  rewrite take_app_le, drop_app_le by lia.
  destruct (parse_request_with_header_end _ _ _ _) as [[e|r] o]; [done|].
  destruct (framed r (drop (he + 4) p)) as [[k b]|] eqn:Ef; [|done]. intros [= <- <-].
  apply (framed_app _ _ x) in Ef as [Hk ->]. rewrite length_drop in Hk. split; [lia|done].
Qed.

(** ** Lemmas: both receivers implement [message] *)

Lemma stash_grow_data conn need o : c_data (stash_grow conn need o).1.2 = c_data conn.
Proof.
  unfold stash_grow. destruct (c_rx_recv_inflight conn); [done|].
  destruct (_ <? need); [done|]. destruct (need <=? _); [done|]. cbv zeta.
  set (cap := if CWIST_ASYNC_STASH_MAX <? _ then _ else _). destruct (cap =? _); [done|].
  by destruct (alloc o) as [[] ?].
Qed.

Lemma set_body_id req : req <| req_body := req_body req |> = req.
Proof. by destruct req. Qed.

(** The connection once the message is taken from the stash. *)
Definition took (n : nat) (conn conn' : async_conn) : Prop :=
  c_data conn' = drop n (c_data conn) /\ c_expect_continue_sent conn' = false /\
  c_rx_recv_inflight conn' = c_rx_recv_inflight conn.

Lemma receive_nb_spec seed conn :
  let '(rv, conn', o') := receive_request_nb seed conn [] in
  match message seed (c_data conn) with
  | Some (req, n) => rv = MkReceived RECV_OK (Some req) None /\ o' = [] /\ took n conn conn'
  | None => rv_status rv <> RECV_OK /\ rv_request rv = None /\ c_data conn' = c_data conn
  end.
Proof.
  unfold receive_request_nb, message.
  destruct (Nat.eqb_spec (length (c_data conn)) 0) as [H0|H0].
  { by destruct (c_data conn). }
  destruct (find_crlfcrlf _ _ _) as [he|]; [|by destruct (_ <=? _)].
  pose proof (parse_nil seed (take (he + 4) (c_data conn)) he) as Hp.
  destruct (parse_request_with_header_end _ _ _ _) as [[e|req] o]; cbn [snd] in Hp; subst o; [done|].
  cbv zeta. unfold framed.
  match goal with |- context [if ?b then conn <| c_continues := _ |> <| c_expect_continue_sent := _ |> else conn] =>
    set (conn1 := if b then _ else conn) end.
  assert (Hd1 : c_data conn1 = c_data conn /\ c_rx_recv_inflight conn1 = c_rx_recv_inflight conn)
    by (subst conn1; by destruct (_ && _)).
  clearbody conn1. destruct Hd1 as [Hd1 Hi1].
  set (cl := req_content_length req). set (buf := c_data conn) in *.
  assert (Hbl : blen (drop (he + 4) buf) = Z.of_nat (length buf - (he + 4)))
    by (unfold blen; by rewrite length_drop).
  destruct (Z.ltb_spec 0 cl) as [Hcl|Hcl].
  - destruct (Z.ltb_spec CWIST_HTTP_MAX_BODY_SIZE cl); [done|]. cbn [orb]. rewrite Hbl.
    destruct (Z.ltb_spec (Z.of_nat (length buf - (he + 4))) cl) as [|Hlen].
    { pose proof (stash_grow_data conn1 (Z.of_nat (he + 4) + cl + 1) []) as Hg.
      destruct (stash_grow _ _ _) as [[[] c2] o2]; cbn [fst snd] in Hg; by rewrite Hg. }
    destruct ((he + 4 + Z.to_nat cl =? length buf)%nat && (CWIST_HTTP_BODY_ZC_MIN <=? cl)) eqn:Ez;
      cbn [alloc].
    + split; [done|]. split; [done|]. apply andb_prop in Ez as [Ez%Nat.eqb_eq _].
      split; [|done]. change ([] = drop (he + 4 + Z.to_nat cl) buf). rewrite drop_ge by lia. done.
    + split; [done|]. split; [done|]. split; [|done].
      change (drop (he + 4 + Z.to_nat cl) (c_data conn1) = drop (he + 4 + Z.to_nat cl) buf).
      by rewrite Hd1.
  - destruct (req_te_chunked_seen req); cbn [alloc].
    + pose proof (scan_nil (S (length (drop (he + 4) buf))) (drop (he + 4) buf) 0
        (length (drop (he + 4) buf)) []) as Hn. fold (chunked_scan (drop (he + 4) buf) []) in Hn.
      destruct (chunked_scan _ _) as [[[c| |] body] o]; cbn [snd] in Hn; subst o; [|
        pose proof (stash_grow_data conn1 (blen buf + 4096) []) as Hg;
        destruct (stash_grow _ _ _) as [[[] c2] o2]; cbn [fst snd] in Hg; by rewrite Hg|done].
      split; [done|]. split; [done|]. split; [|done].
      change (drop (he + 4 + c) (c_data conn1) = drop (he + 4 + c) buf). by rewrite Hd1.
    + rewrite set_body_id, Nat.add_0_r. split; [done|]. split; [done|]. split; [|done].
      change (drop (he + 4) (c_data conn1) = drop (he + 4) buf). by rewrite Hd1.
Qed.

Lemma receive_blocking_spec seed cap live net buf req n :
  message seed buf = Some (req, n) ->
  exists k, receive_request seed cap live buf net [] = (inr (MkBlocking req (drop n buf) net k), []).
Proof.
  unfold message, receive_request. destruct (find_crlfcrlf buf 0 (length buf)) as [he|] eqn:Eh; [|done].
  assert (Hh : read_header (net_size net) cap live buf net = inr (he, buf, net))
    by (destruct (net_size net); cbn [read_header]; by rewrite Eh).
  rewrite Hh. pose proof (parse_nil seed (take (he + 4) buf) he) as Hp.
  destruct (parse_request_with_header_end _ _ _ _) as [[e|r] o]; cbn [snd] in Hp; subst o; [done|].
  cbv zeta. unfold framed. set (cl := req_content_length r). set (rest := drop (he + 4) buf) in *.
  match goal with |- context [MkBlocking _ _ _ ?b] => set (k := b); clearbody k end. intros Hf. exists k.
  destruct (0 <? cl).
  - destruct (CWIST_HTTP_MAX_BODY_SIZE <? cl); [done|]. cbn [orb] in Hf.
    destruct (Z.ltb_spec (blen rest) cl) as [|Hl]; [done|]. injection Hf as <- <-. cbn [alloc].
    assert (Hx : read_exact (net_size net) (take (Z.to_nat cl) rest) (Z.to_nat cl) net =
      Some (take (Z.to_nat cl) rest, net)).
    { assert (Hle : (Z.to_nat cl <=? length (take (Z.to_nat cl) rest))%nat = true).
      { apply Nat.leb_le. rewrite length_take. unfold blen in Hl. lia. }
      destruct (net_size net); cbn [read_exact]; by rewrite Hle. }
    rewrite Hx. subst rest. by rewrite drop_drop.
  - destruct (req_te_chunked_seen r); cbn [alloc].
    + destruct (chunked_scan rest []) as [[[c| |] body] o] eqn:Es; [|done|done]. injection Hf as <- <-.
      pose proof (scan_nil (S (length rest)) rest 0 (length rest) []) as Hn.
      unfold chunked_scan in Es. rewrite Es in Hn. cbn [snd] in Hn. subst o.
      unfold read_chunked_body.
      rewrite (read_chunks_agree rest cap net _ (S (length rest + net_size net)) _ _ _ _ _ _ Es) by lia.
      subst rest. by rewrite drop_drop.
    + injection Hf as <- <-. by rewrite set_body_id, Nat.add_0_r.
Qed.

(** ** The blocking receiver on a message still on its way *)

(** The peer sends, in segments of any size; the socket may say EAGAIN (and then
    have data) or EINTR in between. *)
Definition flowing (e : recv_event) : Prop :=
  match e with RecvData d => d <> [] | RecvAgain | RecvIntr => True | _ => False end.

Lemma recv_data room d net :
  (0 < room)%nat -> d <> [] -> Forall flowing net ->
  exists d1 net', recv room (RecvData d :: net) = (RecvData d1, net') /\
    d1 ++ net_bytes net' = d ++ net_bytes net /\ (0 < length d1 <= room)%nat /\
    (net_size net' < net_size (RecvData d :: net))%nat /\ Forall flowing net'.
Proof.
  intros Hr Hd Hf. assert (Hl : (0 < length d)%nat) by (destruct d; [done|cbn; lia]).
  unfold recv. rewrite !(proj2 (Nat.eqb_neq _ 0)) by lia. destruct (Nat.ltb_spec room (length d)).
  - exists (take room d), (RecvData (drop room d) :: net). split; [done|]. split.
    { unfold net_bytes. cbn [map concat event_bytes]. by rewrite app_assoc, take_drop. }
    split; [rewrite length_take; lia|]. split.
    { unfold net_size. cbn [sum_list_with event_size]. rewrite length_drop. lia. }
    constructor; [|done]. intros E. apply (f_equal length) in E. rewrite length_drop in E. cbn [length] in E. lia.
  - exists d, net. split; [done|]. split; [done|]. split; [lia|]. split; [|done].
    unfold net_size. cbn [sum_list_with event_size]. lia.
Qed.

Lemma find_crlfcrlf_cut p x he :
  bytes_ok p -> bytes_ok x -> find_crlfcrlf (p ++ x) 0 (length (p ++ x)) = Some he -> (he + 4 <= length p)%nat ->
  find_crlfcrlf p 0 (length p) = Some he.
Proof.
  intros Hp Hx. rewrite !find_crlfcrlf_scan by (done || by apply Forall_app_2).
  intros (Hr & Hc & Hb)%find_first_some Hl. apply find_first_some.
  assert (Heq : forall i, (i + 3 < length p)%nat -> is_crlfcrlf (p ++ x) i = is_crlfcrlf p i)
    by (intros i Hi; unfold is_crlfcrlf; by rewrite !rd_app_l by lia).
  split; [lia|]. split; [by rewrite <- Heq by lia|]. intros i Hi. rewrite <- Heq by lia. by apply Hb.
Qed.

Lemma read_header_net cap he fuel : forall buf net,
  bytes_ok buf -> bytes_ok (net_bytes net) -> Forall flowing net -> (net_size net <= fuel)%nat ->
  (he + 4 < cap)%nat ->
  find_crlfcrlf (buf ++ net_bytes net) 0 (length (buf ++ net_bytes net)) = Some he ->
  exists buf' net', read_header fuel cap true buf net = inr (he, buf', net') /\
    buf' ++ net_bytes net' = buf ++ net_bytes net /\ Forall flowing net' /\ (he + 4 <= length buf')%nat.
Proof.
  induction fuel as [|fuel IH]; intros buf net Hb Hn Hf Hs Hcap Hfind; cbn [read_header];
    (destruct (find_crlfcrlf buf 0 (length buf)) as [he1|] eqn:Eh;
     [destruct (find_crlfcrlf_app buf (net_bytes net) he1 Hb Hn Eh) as [Hl E]; rewrite E in Hfind;
      injection Hfind as ->; by exists buf, net|]);
    (assert (Hlt : (length buf < he + 4)%nat);
     [destruct (Nat.ltb_spec (length buf) (he + 4)) as [|Hle]; [done|];
      by rewrite (find_crlfcrlf_cut _ _ _ Hb Hn Hfind Hle) in Eh|]);
    (destruct net as [|e net]; [cbn [net_bytes map concat] in Hfind; rewrite app_nil_r in Hfind; congruence|]).
  { unfold net_size in Hs. cbn [sum_list_with] in Hs. destruct e; cbn in Hs; lia. }
  rewrite (proj2 (Nat.leb_gt _ _)) by lia. cbn [negb]. rewrite andb_false_r.
  apply list.Forall_cons in Hf as [He Hf]. destruct e as [d| | | | |]; try done.
  - destruct (recv_data (cap - 1 - length buf) d net ltac:(lia) He Hf) as (d1 & net1 & -> & Hd & Hl & Hsz & Hf1).
    assert (Hbytes : net_bytes (RecvData d :: net) = d1 ++ net_bytes net1) by (by rewrite Hd).
    rewrite Hbytes in Hn, Hfind |- *. apply Forall_app in Hn as [Hn1 Hn2].
    rewrite app_assoc in Hfind. rewrite app_assoc. apply IH; try done; [by apply Forall_app_2|lia].
  - change (net_bytes (RecvAgain :: net)) with (net_bytes net) in *.
    assert (net_size net <= fuel)%nat by (unfold net_size in *; cbn [sum_list_with event_size] in Hs; lia).
    destruct (cap - 1 - length buf)%nat eqn:Er; [lia|]. by apply IH.
  - change (net_bytes (RecvIntr :: net)) with (net_bytes net) in *.
    assert (net_size net <= fuel)%nat by (unfold net_size in *; cbn [sum_list_with event_size] in Hs; lia).
    destruct (cap - 1 - length buf)%nat eqn:Er; [lia|]. by apply IH.
Qed.

Lemma recv_retry_net room net :
  (0 < room)%nat -> Forall flowing net -> net_bytes net <> [] ->
  exists d1 net', recv_retry room net = (Some d1, net') /\ d1 ++ net_bytes net' = net_bytes net /\
    (0 < length d1 <= room)%nat /\ (net_size net' < net_size net)%nat /\ Forall flowing net'.
Proof.
  intros Hr Hf Hne. induction Hf as [|e net He Hf IH]; [done|]. destruct e as [d| | | | |]; try done.
  - destruct (recv_data room d net Hr He Hf) as (d1 & net1 & E & Hd & Hl & Hsz & Hf1).
    exists d1, net1. cbn [recv_retry]. by rewrite E.
  - destruct (IH Hne) as (d1 & net1 & E & Hd & Hl & Hsz & Hf1). exists d1, net1. cbn [recv_retry].
    split_and!; try done; try lia. unfold net_size in *. cbn [sum_list_with event_size]. lia.
  - destruct (IH Hne) as (d1 & net1 & E & Hd & Hl & Hsz & Hf1). exists d1, net1. cbn [recv_retry].
    split_and!; try done; try lia. unfold net_size in *. cbn [sum_list_with event_size]. lia.
Qed.

Lemma read_exact_net need fuel : forall body net,
  Forall flowing net -> (net_size net <= fuel)%nat -> (length body <= need)%nat ->
  (need <= length (body ++ net_bytes net))%nat ->
  exists net', read_exact fuel body need net = Some (take need (body ++ net_bytes net), net') /\
    net_bytes net' = drop need (body ++ net_bytes net).
Proof.
  induction fuel as [|fuel IH]; intros body net Hf Hs Hle Hn; cbn [read_exact];
    destruct (Nat.leb_spec need (length body)) as [Hd|Hd].
  1,3: exists net; assert (length body = need) as <- by lia; by rewrite take_app_length, drop_app_length.
  - destruct net as [|e net]; [cbn [net_bytes map concat] in Hn; rewrite app_nil_r in Hn; lia|].
    unfold net_size in Hs. cbn [sum_list_with] in Hs. destruct e; cbn in Hs; lia.
  - rewrite length_app in Hn.
    destruct (recv_retry_net (need - length body) net ltac:(lia) Hf) as (d1 & net1 & -> & Hb & Hl & Hsz & Hf1).
    { intros E. rewrite E in Hn. cbn [length] in Hn. lia. }
    rewrite <- Hb, app_assoc. apply IH; [done|lia|rewrite length_app; lia|].
    rewrite <- app_assoc, Hb, length_app. lia.
Qed.

(** A message whose body has a known length, or none. *)
Definition sized_message (seed all : bytes) (req : http_request) (n : nat) : Prop :=
  message seed all = Some (req, n) /\
  (req.(req_te_chunked_seen) = false \/ 0 < req.(req_content_length)).

Lemma receive_blocking_net seed cap buf net req n he :
  bytes_ok buf -> bytes_ok (net_bytes net) -> Forall flowing net ->
  let all := buf ++ net_bytes net in
  find_crlfcrlf all 0 (length all) = Some he -> (he + 4 < cap)%nat -> sized_message seed all req n ->
  exists left net' k, receive_request seed cap true buf net [] = (inr (MkBlocking req left net' k), []) /\
    left ++ net_bytes net' = drop n all.
Proof.
  intros Hb Hn Hf all Hfind Hcap [Hm Hsized]. unfold message in Hm. rewrite Hfind in Hm.
  destruct (read_header_net cap he _ buf net Hb Hn Hf (Nat.le_refl _) Hcap Hfind) as (buf1 & net1 & Eh & Hall & Hf1 & Hl).
  unfold receive_request. rewrite Eh. fold all in Hall. rewrite <- Hall in Hm |- *.
  rewrite take_app_le, drop_app_le in Hm by lia.
  pose proof (parse_nil seed (take (he + 4) buf1) he) as Hp.
  destruct (parse_request_with_header_end _ _ _ _) as [[e|r] o]; cbn [snd] in Hp; subst o; [done|].
  cbv zeta. unfold framed in Hm. set (cl := req_content_length r) in *. set (rest := drop (he + 4) buf1) in *.
  match goal with |- context [MkBlocking _ _ _ ?b] => set (k := b); clearbody k end.
  assert (Hr : forall b, req_te_chunked_seen (r <| req_body := b |>) = req_te_chunked_seen r /\
                         req_content_length (r <| req_body := b |>) = cl) by done.
  destruct (Z.ltb_spec 0 cl) as [Hcl|Hcl].
  - destruct (CWIST_HTTP_MAX_BODY_SIZE <? cl); [done|]. cbn [orb] in Hm.
    destruct (Z.ltb_spec (blen (rest ++ net_bytes net1)) cl) as [|Hlen]; [done|]. injection Hm as <- <-. cbn [alloc].
    set (m := Z.to_nat cl). unfold blen in Hlen. rewrite length_app in Hlen.
    destruct (Nat.leb_spec m (length rest)) as [Hfull|Hpart].
    + exists (drop m rest), net1, k. split.
      * assert (Hx : read_exact (net_size net1) (take m rest) m net1 = Some (take m rest, net1)).
        { assert (Hle : (m <=? length (take m rest))%nat = true) by (apply Nat.leb_le; rewrite length_take; lia).
          destruct (net_size net1); cbn [read_exact]; by rewrite Hle. }
        rewrite Hx. by rewrite take_app_le by lia.
      * rewrite <- drop_drop, drop_app_le by lia. fold rest. by rewrite drop_app_le by lia.
    + rewrite (take_ge rest) by lia.
      destruct (read_exact_net m (net_size net1) rest net1 Hf1 (Nat.le_refl _) ltac:(lia)) as (net2 & -> & Hn2).
      { rewrite length_app. lia. }
      exists [], net2, k. split; [by rewrite drop_ge by lia|].
      rewrite <- drop_drop, drop_app_le by lia. fold rest. by rewrite Hn2.
  - destruct (req_te_chunked_seen r) eqn:Et; [|injection Hm as <- <-].
    + exfalso. destruct (chunked_scan _ []) as [[[c| |] body] o]; try done. injection Hm as <- <-.
      destruct (Hr (match body with [] => None | _ => Some body end)) as [H1 H2]. rewrite H1, H2 in Hsized.
      destruct Hsized; [done|lia].
    + exists rest, net1, k. split; [by rewrite set_body_id|]. rewrite Nat.add_0_r. by rewrite drop_app_le by lia.
Qed.

(** ** Serving a connection *)

(** All complete requests of the stash; [None] is a fatal receive. *)
Fixpoint nb_drain (fuel : nat) (seed : bytes) (conn : async_conn)
    : option (list http_request * async_conn) :=
  match fuel with
  | O => Some ([], conn)
  | S fuel =>
      match receive_request_nb seed conn [] with
      | (MkReceived RECV_OK (Some req) _, conn, _) =>
          match nb_drain fuel seed conn with
          | Some (reqs, conn) => Some (req :: reqs, conn)
          | None => None
          end
      | (MkReceived RECV_NEED_MORE _ _, conn, _) => Some ([], conn)
      | (_, _, _) => None
      end
  end.

(** The stash after each segment that arrives, drained. *)
Fixpoint nb_serve (seed : bytes) (conn : async_conn) (segments : list bytes)
    : option (list http_request * async_conn) :=
  match segments with
  | [] => Some ([], conn)
  | s :: segments =>
      let conn := conn <| c_data := c_data conn ++ s |> in
      match nb_drain (S (length (c_data conn))) seed conn with
      | None => None
      | Some (reqs, conn) =>
          match nb_serve seed conn segments with
          | Some (reqs', conn) => Some (reqs ++ reqs', conn)
          | None => None
          end
      end
  end.

(** The messages a byte string starts with, and what follows them. *)
Fixpoint messages (fuel : nat) (seed buf : bytes) : list http_request * bytes :=
  match fuel with
  | O => ([], buf)
  | S fuel =>
      match message seed buf with
      | Some (req, n) => let '(reqs, rest) := messages fuel seed (drop n buf) in (req :: reqs, rest)
      | None => ([], buf)
      end
  end.
Definition all_messages (seed buf : bytes) := messages (S (length buf)) seed buf.

Lemma message_bounds seed p req n :
  bytes_ok p -> message seed p = Some (req, n) -> (0 < n <= length p)%nat.
Proof. intros Hp Hm. by destruct (message_app seed p [] req n Hp ltac:(constructor) Hm). Qed.

Lemma messages_fuel seed : forall f g buf,
  bytes_ok buf -> (length buf < f)%nat -> (length buf < g)%nat ->
  messages f seed buf = messages g seed buf.
Proof.
  induction f as [|f IH]; intros [|g] buf Hb Hf Hg; try lia. cbn [messages].
  destruct (message seed buf) as [[req n]|] eqn:Em; [|done].
  pose proof (message_bounds _ _ _ _ Hb Em). rewrite (IH g); [done|by apply Forall_drop| |];
    rewrite length_drop; lia.
Qed.

Lemma messages_app seed : forall f buf x,
  bytes_ok buf -> bytes_ok x -> (length buf < f)%nat ->
  all_messages seed (buf ++ x) =
  let '(reqs, rest) := messages f seed buf in
  let '(reqs', rest') := all_messages seed (rest ++ x) in (reqs ++ reqs', rest').
Proof.
  induction f as [|f IH]; intros buf x Hb Hx Hf; [lia|]. cbn [messages].
  destruct (message seed buf) as [[req n]|] eqn:Em.
  - pose proof (message_bounds _ _ _ _ Hb Em) as Hn.
    destruct (message_app seed buf x req n Hb Hx Em) as [_ Hm].
    unfold all_messages at 1. cbn [messages]. rewrite Hm, drop_app_le by lia.
    rewrite (messages_fuel _ _ (S (length (drop n buf ++ x)))).
    + fold (all_messages seed (drop n buf ++ x)). rewrite (IH (drop n buf) x).
      * destruct (messages f seed (drop n buf)) as [rs rest].
        by destruct (all_messages seed (rest ++ x)).
      * by apply Forall_drop.
      * done.
      * rewrite length_drop. lia.
    + apply Forall_app_2; [by apply Forall_drop|done].
    + rewrite !length_app, length_drop. lia.
    + lia.
  - by destruct (all_messages seed (buf ++ x)).
Qed.

Lemma messages_bytes seed f : forall buf, bytes_ok buf -> bytes_ok (messages f seed buf).2.
Proof.
  induction f as [|f IH]; intros buf Hb; cbn [messages]; [done|].
  destruct (message seed buf) as [[req n]|]; [|done].
  pose proof (IH (drop n buf) (Forall_drop _ n _ Hb)). by destruct (messages f seed (drop n buf)).
Qed.

Lemma messages_stuck seed f : forall buf rest,
  bytes_ok buf -> (length buf < f)%nat -> (messages f seed buf).2 = rest -> message seed rest = None.
Proof.
  induction f as [|f IH]; intros buf rest Hb Hf H; [lia|]. cbn [messages] in H.
  destruct (message seed buf) as [[req n]|] eqn:Em; [|by subst rest].
  pose proof (message_bounds _ _ _ _ Hb Em). apply (IH (drop n buf));
    [by apply Forall_drop|rewrite length_drop; lia|].
  by destruct (messages f seed (drop n buf)).
Qed.

Lemma nb_drain_spec seed f : forall conn reqs conn',
  bytes_ok (c_data conn) -> (length (c_data conn) < f)%nat ->
  nb_drain f seed conn = Some (reqs, conn') ->
  messages f seed (c_data conn) = (reqs, c_data conn').
Proof.
  induction f as [|f IH]; intros conn reqs conn' Hb Hf H; [lia|]. cbn [nb_drain messages] in *.
  pose proof (receive_nb_spec seed conn) as Hs.
  destruct (receive_request_nb seed conn []) as [[rv conn1] o1].
  destruct (message seed (c_data conn)) as [[req n]|] eqn:Em.
  - destruct Hs as (-> & _ & Hd & _). destruct (nb_drain f seed conn1) as [[rs c]|] eqn:Ed; [|done].
    injection H as <- <-. pose proof (message_bounds _ _ _ _ Hb Em).
    assert (Hb1 : bytes_ok (c_data conn1)) by (rewrite Hd; by apply Forall_drop).
    rewrite <- Hd, (IH conn1 rs c Hb1 ltac:(rewrite Hd, length_drop; lia) Ed). done.
  - destruct Hs as (Hst & Hr & Hd). destruct rv as [[] r e]; cbn [rv_status rv_request] in *;
      [done| |done]. injection H as <- <-. by rewrite Hd.
Qed.

(** ** Properties *)

(** C12: chunked coding round trip.  The decoder reads back what the response
    producer writes: given the frames of any non-empty chunks (at most 10 MiB
    together), the terminator and whatever is pipelined behind, it returns the
    chunks' bytes and exactly the length of the message; given any proper
    prefix of the message it asks for more, never refusing or completing it. *)
Theorem chunked_roundtrip chunks :
  Forall (fun d => d <> []) chunks -> blen (concat chunks) <= CWIST_HTTP_MAX_BODY_SIZE ->
  let msg := concat (map chunk_frame chunks) ++ last_chunk in
  (forall rest, chunked_scan (msg ++ rest) [] = (ScanComplete (length msg), concat chunks, [])) /\
  (forall p x, p ++ x = msg -> x <> [] -> blen p <= CWIST_ASYNC_STASH_MAX ->
     (chunked_scan p []).1.1 = ScanMore).
Proof.
  intros Hne Hmax msg.
  assert (Hfull : forall rest,
    chunked_scan (msg ++ rest) [] = (ScanComplete (length msg), concat chunks, [])).
  { intros rest. unfold chunked_scan.
    pose proof (scan_frames chunks (S (length (msg ++ rest))) (msg ++ rest) [] [] rest) as H.
    cbn [app length] in H. rewrite H; [| |done|lia|done].
    - subst msg. rewrite length_app. by replace (length last_chunk) with 5%nat by done.
    - subst msg. by rewrite <- app_assoc. }
  split; [done|]. intros p x Hpx Hx Hp.
  destruct (chunked_scan p []) as [[r b] o] eqn:Es. cbn [fst].
  pose proof (Hfull []) as Hf. rewrite app_nil_r, <- Hpx in Hf. unfold chunked_scan in Es, Hf.
  destruct (scan_app p x _ _ _ _ _ _ _ Es) as [->|[[Hbig _]|[Hc Hv]]]; [lia|lia|done| |].
  { unfold blen in Hp. lia. }
  rewrite Hv in Hf by lia. injection Hf as -> _ _. rewrite length_app in Hc.
  destruct x; [done|]. cbn [length] in Hc. lia.
Qed.

(** C10: what the receivers take for a message.  [message] is what a byte string
    starts with: a head, and the body its Content-Length or its chunked coding
    delimits.  The non-blocking receiver reports a request exactly when the stash
    starts with a message, removes exactly its bytes and otherwise leaves the
    stash as it is.  The blocking receiver returns the same request and leaves the
    same bytes, without touching the network, when the message is in its buffer;
    and, unless the body is chunked, also when any part of it is still to come, in
    segments of any size, provided the head fits the buffer.  (For chunked bodies
    on their way the two differ: [blocking_reader_leaves_final_crlf],
    [blocking_reader_bounded_by_buffer].) *)
Theorem receivers_implement_message seed conn cap live net :
  (let '(rv, conn', o') := receive_request_nb seed conn [] in
   match message seed (c_data conn) with
   | Some (req, n) =>
       rv = MkReceived RECV_OK (Some req) None /\ o' = [] /\ took n conn conn' /\
       exists k, receive_request seed cap live (c_data conn) net [] =
         (inr (MkBlocking req (c_data conn') net k), [])
   | None => rv_status rv <> RECV_OK /\ rv_request rv = None /\ c_data conn' = c_data conn
   end) /\
  (forall buf req n he,
     bytes_ok buf -> bytes_ok (net_bytes net) -> Forall flowing net ->
     let all := buf ++ net_bytes net in
     find_crlfcrlf all 0 (length all) = Some he -> (he + 4 < cap)%nat -> sized_message seed all req n ->
     exists left net' k, receive_request seed cap true buf net [] = (inr (MkBlocking req left net' k), []) /\
       left ++ net_bytes net' = drop n all).
Proof.
  split; [|intros buf req n he; by apply receive_blocking_net].
  pose proof (receive_nb_spec seed conn) as H.
  destruct (receive_request_nb seed conn []) as [[rv conn'] o'].
  destruct (message seed (c_data conn)) as [[req n]|] eqn:Em; [|done].
  destruct H as (H1 & H2 & H3). split; [done|]. split; [done|]. split; [done|].
  destruct (receive_blocking_spec seed cap live net _ _ _ Em) as [k Hk]. exists k.
  by rewrite Hk, (proj1 H3).
Qed.

(** A request with a body, read a few bytes at a time. *)
Lemma receivers_implement_message_witness :
  let net := [RecvData (bs "ST / HTTP/1.0" ++ crlf ++ bs "Content-Le"); RecvIntr;
              RecvData (bs "ngth: 5" ++ crlf ++ crlf ++ bs "he"); RecvAgain; RecvData (bs "lloNEXT")] in
  exists req left net' k,
    receive_request (seqZ 0 16) 100 true (bs "PO") net [] = (inr (MkBlocking req left net' k), []) /\
    req.(req_body) = Some (bs "hello") /\ left ++ net_bytes net' = bs "NEXT".
Proof.
  intros net.
  assert (Hm : exists req, message (seqZ 0 16) (bs "PO" ++ net_bytes net) = Some (req, 43%nat) /\
                           req.(req_body) = Some (bs "hello") /\ req.(req_content_length) = 5).
  { eexists. split; [vm_compute; reflexivity|]. split; reflexivity. }
  destruct Hm as (req & Hm & Hbody & Hcl).
  destruct (proj2 (receivers_implement_message (seqZ 0 16)
      (MkConn [] 0 false false false false false 0) 100 true net) (bs "PO") req 43%nat 34%nat) as (left & net' & k & H1 & H2).
  - apply bytes_okb_ok. reflexivity.
  - apply bytes_okb_ok. reflexivity.
  - repeat (apply list.Forall_cons_2; [done|]). constructor.
  - vm_compute. reflexivity.
  - apply Nat.ltb_lt. reflexivity.
  - split; [exact Hm|]. right. rewrite Hcl. reflexivity.
  - exists req, left, net', k. split; [exact H1|]. split; [exact Hbody|]. rewrite H2. vm_compute. reflexivity.
Defined.

(** C9: the requests served do not depend on how the byte stream is cut: as
    long as no receive is fatal, feeding the connection any sequence of
    segments serves exactly the messages of their concatenation, in order, and
    leaves exactly the bytes after them. *)
Theorem serve_any_segmentation seed segments conn reqs conn' :
  bytes_ok (c_data conn) -> Forall bytes_ok segments ->
  message seed (c_data conn) = None ->
  nb_serve seed conn segments = Some (reqs, conn') ->
  all_messages seed (c_data conn ++ concat segments) = (reqs, c_data conn').
Proof.
  revert conn reqs conn'.
  induction segments as [|s segs IH]; intros conn reqs conn' Hb Hsegs Hm H; cbn [nb_serve concat] in *.
  { injection H as <- <-. rewrite app_nil_r. unfold all_messages. cbn [messages]. by rewrite Hm. }
  apply Forall_cons_1 in Hsegs as [Hs Hsegs]. rewrite app_assoc.
  set (conn1 := conn <| c_data := c_data conn ++ s |>) in *.
  assert (Hb1 : bytes_ok (c_data conn1)) by (by apply Forall_app_2).
  change (c_data conn ++ s) with (c_data conn1).
  destruct (nb_drain _ seed conn1) as [[rs c]|] eqn:Ed; [|done].
  destruct (nb_serve seed c segs) as [[rs' c']|] eqn:Es; [|done]. injection H as <- <-.
  pose proof (nb_drain_spec _ _ _ _ _ Hb1 (Nat.lt_succ_diag_r _) Ed) as Hdr.
  rewrite (messages_app seed (S (length (c_data conn1)))), Hdr; [|done| |lia].
  2: { clear - Hsegs. induction Hsegs; [constructor|by apply Forall_app_2]. }
  rewrite (IH c rs' c'); [done| |done| |done].
  - pose proof (messages_bytes seed (S (length (c_data conn1))) _ Hb1) as Hc. by rewrite Hdr in Hc.
  - apply (messages_stuck seed (S (length (c_data conn1))) (c_data conn1)); [done|lia|].
    by rewrite Hdr.
Qed.

(** filling the stash neither loses, repeats nor reorders a byte of the
    stream, keeps room for the closing NUL below the cap of 10 MiB + 16 KiB,
    and succeeds whenever the socket reports no error, memory is available and
    the stash is not near its cap: the loop ends by itself. *)
Theorem conn_fill_spec conn net o ok conn' net' o' :
  conn_ok conn -> conn_fill conn net o = (ok, conn', net', o') ->
  c_data conn' ++ net_bytes net' = c_data conn ++ net_bytes net /\ conn_ok conn' /\
  (o = [] -> Forall (fun e => e <> RecvFail) net ->
   blen (c_data conn ++ net_bytes net) + 4096 <= CWIST_ASYNC_STASH_MAX -> ok = true).
Proof.
  intros Hok H. unfold conn_fill in H. destruct (c_peer_eof conn); [by injection H as <- <- <- <-|].
  destruct (c_rx_recv_inflight conn) eqn:Ei; cbn [orb] in H.
  { injection H as <- <- <- <-. done. }
  destruct (c_rx_data_ready conn); [by injection H as <- <- <- <-|].
  destruct (fill_loop_spec _ _ _ _ _ _ _ _ Hok H) as (H1 & H2 & H3).
  split; [done|]. split; [done|]. intros Ho Hn Hm. apply H3; [lia|done|done|done|done].
Qed.

(** ** Concrete runs *)

Definition demo_seed : bytes := replicate 16 7.
Definition fresh_conn : async_conn := MkConn [] 0 true false false false false 0.

Definition demo_get : bytes :=
  crlf_lines [bs "GET /a HTTP/1.1"; bs "Host: h"] ++ crlf.
Definition demo_post : bytes :=
  crlf_lines [bs "POST /b HTTP/1.1"; bs "Host: h"; bs "Transfer-Encoding: chunked"] ++ crlf ++
  chunk_frame (bs "hello ") ++ chunk_frame (bs "world") ++ last_chunk.

Lemma chunked_roundtrip_witness :
  chunked_scan ((concat (map chunk_frame [bs "hello "; bs "world"]) ++ last_chunk) ++ bs "GET") [] =
    (ScanComplete 26, bs "hello world", []) /\
  (chunked_scan (bs "6" ++ crlf ++ bs "hel") []).1.1 = ScanMore.
Proof.
  assert (H1 : Forall (fun d => d <> []) [bs "hello "; bs "world"]) by (by repeat constructor).
  assert (H2 : blen (concat [bs "hello "; bs "world"]) <= CWIST_HTTP_MAX_BODY_SIZE) by (by vm_compute).
  pose proof (chunked_roundtrip _ H1 H2) as [Ha Hb]. split; [exact (Ha (bs "GET"))|].
  apply (Hb _ (bs "lo " ++ crlf ++ chunk_frame (bs "world") ++ last_chunk)); by vm_compute.
Defined.

Lemma serve_any_segmentation_witness :
  let segs := [take 20 (demo_get ++ demo_post); drop 20 (demo_get ++ demo_post) ++ bs "GE"] in
  exists reqs conn', nb_serve demo_seed fresh_conn segs = Some (reqs, conn') /\
    all_messages demo_seed ([] ++ concat segs) = (reqs, c_data conn') /\
    map req_path reqs = [Some (bs "/a"); Some (bs "/b")] /\
    map req_body reqs = [None; Some (bs "hello world")] /\ c_data conn' = bs "GE".
Proof.
  intros segs.
  destruct (nb_serve demo_seed fresh_conn segs) as [[reqs conn']|] eqn:E; [|by vm_compute in E].
  exists reqs, conn'. split; [done|].
  assert (Hs : Forall bytes_ok segs)
    by (constructor; [|constructor; [|constructor]]; apply bytes_okb_ok; reflexivity).
  split; [exact (serve_any_segmentation demo_seed segs fresh_conn reqs conn' ltac:(constructor) Hs eq_refl E)|].
  vm_compute in E. by injection E as <- <-.
Defined.

Lemma conn_fill_spec_witness :
  let '(ok, conn', net', o') :=
    conn_fill fresh_conn [RecvData (bs "GET / "); RecvAgain; RecvData (bs "HTTP")] [] in
  ok = true /\ c_data conn' ++ net_bytes net' = bs "GET / HTTP" /\ c_cap conn' = 4096.
Proof.
  destruct (conn_fill fresh_conn [RecvData (bs "GET / "); RecvAgain; RecvData (bs "HTTP")] [])
    as [[[ok conn'] net'] o'] eqn:E.
  assert (Hok : conn_ok fresh_conn) by (by left).
  destruct (conn_fill_spec _ _ _ _ _ _ _ Hok E) as (H1 & _ & H3).
  split; [apply H3; [done|by repeat constructor|by vm_compute]|]. split; [exact H1|].
  vm_compute in E. by injection E as <- <- <- <-.
Defined.

(** The blocking decoder stops after the last chunk's line when the final CRLF
    has not arrived: it reports a complete body, and the CRLF is left to be
    read as the start of the next request; the other receiver waits for it. *)
Example blocking_reader_leaves_final_crlf :
  let early := chunk_frame (bs "hello") ++ bs "0" ++ crlf in
  (read_chunked_body 16384 early [RecvData crlf] []).1 = Some (bs "hello", [], [RecvData crlf]) /\
  (chunked_scan early []).1.1 = ScanMore.
Proof. vm_compute. done. Qed.

(** The blocking decoder never frees what it has decoded from the read buffer,
    so a chunked body larger than the buffer is refused; the other receiver
    accepts it. *)
Example blocking_reader_bounded_by_buffer :
  let big := replicate 9000 97 in
  let msg := chunk_frame big ++ chunk_frame big ++ last_chunk in
  (read_chunked_body 16384 (take 16000 msg) [RecvData (drop 16000 msg)] []).1 = None /\
  (chunked_scan msg []).1.1 = ScanComplete (length msg).
Proof. vm_compute. done. Qed.
