(* ===== verification/H2Out.v ===== *)
(** * HTTP/2 frames and the batch buffer (src/src/net/http/http2.c)

    The frame header, the outgoing batch buffer with its flush, and the frame
    writers built on it: GOAWAY, WINDOW_UPDATE, PING.

    [h2_io] holds what they touch: the batch buffer, the outcomes of the
    allocations and socket writes still to come ([[]]: success from now on),
    the readings of the monotonic clock still to come (the last one stays), and
    the bytes the transport has taken so far.  [h2_write_all] is one outcome: it
    writes everything, or fails after some bytes.  The mutex around the buffer is left
    out: the connection thread is its only user here. *)

From S2P Require Import Prelude H2Wire.

Definition CWIST_HTTP2_FRAME_HEADER_SIZE : nat := 9.
Definition CWIST_HTTP2_MAX_FRAME_SIZE : Z := 16384.

Definition FRAME_DATA : Z := 0.
Definition FRAME_HEADERS : Z := 1.
Definition FRAME_RST_STREAM : Z := 3.
Definition FRAME_SETTINGS : Z := 4.
Definition FRAME_PING : Z := 6.
Definition FRAME_GOAWAY : Z := 7.
Definition FRAME_WINDOW_UPDATE : Z := 8.
Definition FRAME_CONTINUATION : Z := 9.

Definition FLAG_END_STREAM : Z := 1.
Definition FLAG_ACK : Z := 1.
Definition FLAG_END_HEADERS : Z := 4.
Definition FLAG_PADDED : Z := 8.
Definition FLAG_PRIORITY : Z := 32.

Definition H2_ERR_NO_ERROR : Z := 0.
Definition H2_ERR_PROTOCOL_ERROR : Z := 1.
Definition H2_ERR_FLOW_CONTROL_ERROR : Z := 3.
Definition H2_ERR_FRAME_SIZE_ERROR : Z := 6.
Definition H2_ERR_REFUSED_STREAM : Z := 7.
Definition H2_ERR_ENHANCE_YOUR_CALM : Z := 11.

(** ** State *)

(** A call of [h2_write_all]: the whole buffer is taken, or it fails (an error, a
    peer that stays silent) when [n] bytes have been. *)
Inductive write_outcome : Type := WriteAll | WriteFails (n : nat).
Definition h2_write_all (w : list write_outcome) : write_outcome * list write_outcome :=
  match w with [] => (WriteAll, []) | r :: w => (r, w) end.

Record h2_io : Type := MkIo {
  io_out_buf : bytes;
  io_out_cap : Z;
  io_wire : bytes;
  io_alloc : oracle;
  io_write : list write_outcome;
  io_clock : list Z
}.
#[export] Instance h2_io_fields : Fields h2_io := fun r =>
  MkIo (io_out_buf r) (io_out_cap r) (io_wire r) (io_alloc r) (io_write r) (io_clock r).

(** ** Clock *)

Definition h2_now_ns (io : h2_io) : Z * h2_io :=
  match io.(io_clock) with
  | [] => (0, io)
  | [t] => (t, io)
  | t :: rest => (t, io <| io_clock := rest |>)
  end.
Definition h2_now_ms (io : h2_io) : Z * h2_io := let '(t, io) := h2_now_ns io in (t / 1000000, io).
Definition h2_now_us (io : h2_io) : Z * h2_io := let '(t, io) := h2_now_ns io in (t / 1000, io).

(** ** Frame headers *)

Definition h2_make_frame_header (out : bytes) (len type flags stream_id : Z) : bytes :=
  h2_put_u31 (put (put (h2_put_u24 out 0 len) 3 type) 4 flags) 5 stream_id.

(** What the dispatcher reads off the nine bytes. *)
Record frame_header : Type := MkFrameHeader { fh_len : Z; fh_type : Z; fh_flags : Z; fh_stream : Z }.
Definition parse_frame_header (hdr : bytes) : frame_header :=
  MkFrameHeader (h2_get_u24 hdr 0) (rd hdr 3) (rd hdr 4) (h2_get_u31 hdr 5).

(** ** The batch buffer *)

(** [while (cap < need) cap *= 2] on a size_t. *)
Fixpoint grow (fuel : nat) (cap need : Z) : Z :=
  match fuel with
  | O => cap
  | S fuel => if cap <? need then grow fuel (u64 (cap * 2)) need else cap
  end.

Definition h2_out_flush_raw (io : h2_io) : Z * h2_io :=
  if blen io.(io_out_buf) =? 0 then (0, io) else
  match h2_write_all io.(io_write) with
  | (WriteAll, w) => (0, io <| io_write := w |> <| io_wire := io.(io_wire) ++ io.(io_out_buf) |>
                            <| io_out_buf := [] |>)
  | (WriteFails n, w) => (-1, io <| io_write := w |> <| io_wire := io.(io_wire) ++ take n io.(io_out_buf) |>)
  end.

(** [threshold] is [h2_batch_threshold()]. *)
Definition h2_out_append_raw (threshold : Z) (buf : bytes) (io : h2_io) : Z * h2_io :=
  if blen buf =? 0 then (0, io) else
  let need := u64 (blen io.(io_out_buf) + blen buf) in
  let '(ok, io) :=
    if io.(io_out_cap) <? need then
      let cap := if io.(io_out_cap) =? 0 then 16384 else io.(io_out_cap) in
      let cap := grow 64 cap need in
      match alloc io.(io_alloc) with
      | (true, a) => (true, io <| io_alloc := a |> <| io_out_cap := cap |>)
      | (false, a) => (false, io <| io_alloc := a |>)
      end
    else (true, io) in
  if negb ok then (-1, io) else
  let io := io <| io_out_buf := io.(io_out_buf) ++ buf |> in
  if threshold <=? blen io.(io_out_buf) then h2_out_flush_raw io else (0, io).

Definition h2_out_flush (io : h2_io) : Z * h2_io := h2_out_flush_raw io.
Definition h2_out_append (threshold : Z) (buf : bytes) (io : h2_io) : Z * h2_io :=
  h2_out_append_raw threshold buf io.

(** ** Frame writers *)

Definition h2_write_frame (threshold type flags stream_id : Z) (payload : option bytes) (len : Z)
    (io : h2_io) : Z * h2_io :=
  let frame := h2_make_frame_header (replicate CWIST_HTTP2_FRAME_HEADER_SIZE 0) len type flags stream_id in
  let '(rc, io) := h2_out_append threshold frame io in
  if negb (rc =? 0) then (-1, io) else
  match payload with
  | Some p => if 0 <? len then h2_out_append threshold (take (Z.to_nat len) p) io else (0, io)
  | None => (0, io)
  end.

Definition h2_send_goaway (threshold last_stream_id error_code : Z) (io : h2_io) : Z * h2_io :=
  let payload := h2_put_u32 (h2_put_u31 (replicate 8 0) 0 last_stream_id) 4 error_code in
  h2_write_frame threshold FRAME_GOAWAY 0 0 (Some payload) 8 io.

Definition h2_send_window_update (threshold stream_id increment : Z) (io : h2_io) : Z * h2_io :=
  let payload := h2_put_u31 (replicate 4 0) 0 (u32 increment) in
  h2_write_frame threshold FRAME_WINDOW_UPDATE 0 stream_id (Some payload) 4 io.

(** [RST_STREAM] without the budget of [h2_send_rst_stream]. *)
Definition write_rst_stream (threshold stream_id error_code : Z) (io : h2_io) : Z * h2_io :=
  h2_write_frame threshold FRAME_RST_STREAM 0 stream_id (Some (h2_put_u32 (replicate 4 0) 0 error_code)) 4 io.

(** The payload of [h2_send_ping]: the clock, big-endian. *)
Definition ping_payload (now : Z) : bytes :=
  map (fun i => u8 (Z.shiftr now (56 - 8 * i))) [0; 1; 2; 3; 4; 5; 6; 7].

(** ** Reading frames

    [h2_read_full] on the bytes the peer will send: [None] when the connection
    ends, or falls silent, before [n] of them have come. *)
Definition h2_read_full (n : nat) (input : bytes) : option (bytes * bytes) :=
  if (length input <? n)%nat then None else Some (take n input, drop n input).

(** The two reads of one turn of the dispatcher: the header, then the payload. *)
Definition read_frame (input : bytes) : option (frame_header * bytes * bytes) :=
  match h2_read_full CWIST_HTTP2_FRAME_HEADER_SIZE input with
  | None => None
  | Some (hdr, rest) =>
      let h := parse_frame_header hdr in
      match h2_read_full (Z.to_nat h.(fh_len)) rest with
      | None => None
      | Some (payload, rest) => Some (h, payload, rest)
      end
  end.

(** ** Frames as values *)

Record h2_frame : Type := MkH2Frame { f_type : Z; f_flags : Z; f_stream : Z; f_payload : bytes }.
Record frame_ok (f : h2_frame) : Prop := {
  fo_type : is_u8 f.(f_type); fo_flags : is_u8 f.(f_flags);
  fo_stream : 0 <= f.(f_stream) < 2147483648; fo_len : blen f.(f_payload) < 16777216
}.
Definition frame_bytes (f : h2_frame) : bytes :=
  h2_make_frame_header (replicate CWIST_HTTP2_FRAME_HEADER_SIZE 0)
    (blen f.(f_payload)) f.(f_type) f.(f_flags) f.(f_stream) ++ f.(f_payload).
Definition frames_bytes (fs : list h2_frame) : bytes := concat (map frame_bytes fs).

(** Frames written one after the other, until one fails. *)
Fixpoint write_frames (threshold : Z) (fs : list h2_frame) (io : h2_io) : Z * h2_io :=
  match fs with
  | [] => (0, io)
  | f :: fs =>
      let '(rc, io) := h2_write_frame threshold f.(f_type) f.(f_flags) f.(f_stream)
                         (Some f.(f_payload)) (blen f.(f_payload)) io in
      if negb (rc =? 0) then (-1, io) else write_frames threshold fs io
  end.

(** Everything the connection has produced, sent or not (as long as no write has
    failed half way). *)
Definition produced (io : h2_io) : bytes := io.(io_wire) ++ io.(io_out_buf).
(** The output is [all]: [done] has been written, the buffer holds the rest, and
    [n] bytes of it have been taken by a write that then failed. *)
Definition output_is (all : bytes) (n : nat) (io : h2_io) : Prop :=
  exists done, done ++ io.(io_out_buf) = all /\ io.(io_wire) = done ++ take n io.(io_out_buf).

(** What is pending lies inside the buffer's capacity. *)
Definition in_capacity (io : h2_io) : Prop := 0 <= io.(io_out_cap) /\ blen io.(io_out_buf) <= io.(io_out_cap).

(** Frames read until the input ends. *)
Fixpoint read_frames (fuel : nat) (input : bytes) : list (frame_header * bytes) * bytes :=
  match fuel with
  | O => ([], input)
  | S fuel =>
      match read_frame input with
      | None => ([], input)
      | Some (h, p, rest) => let '(fs, rest) := read_frames fuel rest in ((h, p) :: fs, rest)
      end
  end.

(** ** Lemmas *)

Lemma length_make_header len type flags id :
  length (h2_make_frame_header (replicate CWIST_HTTP2_FRAME_HEADER_SIZE 0) len type flags id) = 9%nat.
Proof.
  unfold h2_make_frame_header, h2_put_u31. by rewrite length_h2_put_u32, !length_put, length_h2_put_u24.
Qed.

Lemma get_put_type buf off v i :
  (i < off)%nat -> rd (h2_put_u31 buf off v) i = rd buf i.
Proof. intros H. unfold h2_put_u31, h2_put_u32. by rdput. Qed.

Lemma parse_make_header len type flags id :
  0 <= len < 16777216 -> is_u8 type -> is_u8 flags -> 0 <= id < 2147483648 ->
  parse_frame_header (h2_make_frame_header (replicate CWIST_HTTP2_FRAME_HEADER_SIZE 0) len type flags id) =
    MkFrameHeader len type flags id.
Proof.
  intros Hl Ht Hf Hi. unfold parse_frame_header.
  set (buf := replicate CWIST_HTTP2_FRAME_HEADER_SIZE 0).
  assert (Hb : length buf = 9%nat) by done.
  unfold h2_make_frame_header.
  rewrite h2_get_put_u31 by (rewrite ?length_put, ?length_h2_put_u24; lia || done).
  f_equal.
  unfold h2_get_u24. rewrite !get_put_type by lia. rewrite !rd_put_ne by lia.
  change (h2_get_u24 (h2_put_u24 buf 0 len) 0 = len). apply h2_get_put_u24; [done|lia].
Qed.

Lemma grow_spec fuel : forall cap need,
  0 < cap -> 0 <= need < 2 ^ 63 -> need <= cap * 2 ^ Z.of_nat fuel ->
  need <= grow fuel cap need.
Proof.
  induction fuel as [|fuel IH]; intros cap need Hc Hn Hf; cbn [grow]; [cbn in Hf; lia|].
  destruct (Z.ltb_spec cap need); [|lia].
  rewrite Nat2Z.inj_succ, Z.pow_succ_r in Hf by lia.
  rewrite u64_id by (unfold is_u64; lia). apply IH; lia.
Qed.

Lemma grow_bound fuel : forall cap need,
  0 < cap -> 0 <= need < 2 ^ 62 -> cap <= grow fuel cap need <= Z.max cap (2 * need).
Proof.
  induction fuel as [|fuel IH]; intros cap need Hc Hn; cbn [grow]; [lia|].
  destruct (Z.ltb_spec cap need); [|lia]. rewrite u64_id by (unfold is_u64; lia).
  specialize (IH (cap * 2) need ltac:(lia) Hn). lia.
Qed.

Lemma output_produced io : output_is (produced io) 0 io.
Proof. exists io.(io_wire). by rewrite take_0, app_nil_r. Qed.
Lemma output_whole all io : output_is all 0 io -> produced io = all.
Proof. intros (w & <- & Hw). unfold produced. by rewrite Hw, take_0, app_nil_r. Qed.
(** What the transport has taken is a part of it from its beginning. *)
Lemma output_prefix all n io : output_is all n io -> io.(io_wire) `prefix_of` all.
Proof. intros (w & <- & ->). apply prefix_app. exists (drop n io.(io_out_buf)). by rewrite take_drop. Qed.

Lemma flush_spec io :
  let '(rc, io') := h2_out_flush io in
  (rc = 0 -> produced io' = produced io) /\ (rc = 0 \/ rc = -1) /\ (rc = 0 -> io'.(io_out_buf) = []) /\
  (io.(io_write) = [] -> rc = 0 /\ io'.(io_write) = []) /\
  io'.(io_alloc) = io.(io_alloc) /\ io'.(io_clock) = io.(io_clock) /\
  io'.(io_out_cap) = io.(io_out_cap) /\ blen io'.(io_out_buf) <= blen io.(io_out_buf) /\
  (rc <> 0 -> io'.(io_out_buf) = io.(io_out_buf) /\ exists n, output_is (produced io) n io').
Proof.
  destruct io as [buf cap wire al wr ck]. unfold h2_out_flush, h2_out_flush_raw, produced, output_is.
  cbn [io_out_buf io_write io_wire io_alloc io_clock].
  destruct (Z.eqb_spec (blen buf) 0) as [H|H].
  - assert (buf = []) as -> by (destruct buf; [done|unfold blen in H; cbn [length] in H; lia]).
    split_and!; try done. by left.
  - destruct (h2_write_all wr) as [[|n] w] eqn:Ew;
      cbv beta iota delta [set_field io_out_buf io_write io_wire io_alloc io_clock io_out_cap].
    + split_and!; try done; [by rewrite app_nil_r|by left| |unfold blen; cbn [length]; lia].
      intros ->. cbn in Ew. by simplify_eq.
    + split_and!; try done; [by right|by intros ->|]. intros _. split; [done|]. by exists n, wire.
Qed.

Lemma append_spec threshold buf io :
  let '(rc, io') := h2_out_append threshold buf io in
  (rc = 0 \/ rc = -1) /\
  (exists b n, b `prefix_of` buf /\ output_is (produced io ++ b) n io' /\ (rc = 0 -> n = O /\ b = buf)) /\
  (rc = 0 -> 0 < threshold -> blen io.(io_out_buf) < threshold -> blen io'.(io_out_buf) < threshold) /\
  (io.(io_write) = [] -> io.(io_alloc) = [] ->
     rc = 0 /\ io'.(io_write) = [] /\ io'.(io_alloc) = []) /\
  io'.(io_clock) = io.(io_clock) /\
  blen io'.(io_out_buf) <= blen io.(io_out_buf) + blen buf /\
  (blen io.(io_out_buf) + blen buf < 2 ^ 63 -> in_capacity io -> in_capacity io').
Proof.
  unfold h2_out_append, h2_out_append_raw.
  destruct (Z.eqb_spec (blen buf) 0) as [H|H].
  { assert (buf = []) as -> by (destruct buf; [done|unfold blen in H; cbn [length] in H; lia]).
    split_and!; try done; try (by left); [|lia]. exists [], O. split; [done|]. rewrite app_nil_r.
    split; [apply output_produced|done]. }
  assert (Hbl : 0 < blen buf /\ 0 <= blen io.(io_out_buf)) by (unfold blen in *; lia).
  set (need := u64 (blen (io_out_buf io) + blen buf)).
  set (cap := grow 64 _ need).
  assert (Hst : forall b io1,
    (if (io_out_cap io <? need)
     then match alloc (io_alloc io) with
          | (true, a) => (true, io <| io_alloc := a |> <| io_out_cap := cap |>)
          | (false, a) => (false, io <| io_alloc := a |>)
          end else (true, io)) = (b, io1) ->
    io1.(io_out_buf) = io.(io_out_buf) /\ io1.(io_wire) = io.(io_wire) /\ io1.(io_write) = io.(io_write) /\
    io1.(io_clock) = io.(io_clock) /\ (io.(io_alloc) = [] -> b = true /\ io1.(io_alloc) = []) /\
    (blen io.(io_out_buf) + blen buf < 2 ^ 63 -> in_capacity io ->
       0 <= io1.(io_out_cap) /\ blen io.(io_out_buf) <= io1.(io_out_cap) /\
       (b = true -> blen io.(io_out_buf) + blen buf <= io1.(io_out_cap)))).
  { intros b io1. subst cap need. destruct io as [bu ca wi al wr ck]. unfold in_capacity.
    cbn [io_alloc io_out_cap io_out_buf] in *. destruct (Z.ltb_spec ca (u64 (blen bu + blen buf))) as [Hlt|Hge].
    - destruct (alloc al) as [[] a] eqn:Ea; intros; simplify_eq;
        cbv beta iota delta [set_field io_out_buf io_write io_wire io_alloc io_clock io_out_cap].
      + split_and!; try done; [by intros ->; cbn in Ea; simplify_eq|]. intros H63 [Hc1 Hc2].
        rewrite u64_id by (unfold is_u64; lia).
        pose proof (grow_spec 64 (if ca =? 0 then 16384 else ca) (blen bu + blen buf)
          ltac:(destruct (Z.eqb_spec ca 0); lia) ltac:(lia)
          ltac:(change (2 ^ Z.of_nat 64) with 18446744073709551616; destruct (Z.eqb_spec ca 0); lia)).
        lia.
      + split_and!; try done; [by intros ->|]. intros H63 [Hc1 Hc2]. lia.
    - intros; simplify_eq. split_and!; try done. cbn [io_out_cap io_out_buf]. intros H63 [Hc1 Hc2].
      rewrite u64_id in Hge by (unfold is_u64; lia). lia. }
  destruct (if (io_out_cap io <? need) then _ else _) as [b io1] eqn:E.
  destruct (Hst b io1 eq_refl) as (H1 & H2 & H3 & H4 & H5 & H6). destruct b; cbn [negb].
  - set (io2 := io1 <| io_out_buf := io1.(io_out_buf) ++ buf |>).
    assert (Hp : produced io2 = produced io ++ buf)
      by (unfold produced; cbn; rewrite H1, H2; by rewrite app_assoc).
    assert (Hl2 : blen (io_out_buf io1 ++ buf) = blen (io_out_buf io) + blen buf)
      by (unfold blen; rewrite H1, length_app; lia).
    change (io_out_buf io2) with (io1.(io_out_buf) ++ buf).
    destruct (Z.leb_spec threshold (blen (io_out_buf io1 ++ buf))) as [Ht|Ht].
    + pose proof (flush_spec io2) as Hf. change (h2_out_flush io2) with (h2_out_flush_raw io2) in Hf.
      destruct (h2_out_flush_raw io2) as [rc io3]. destruct Hf as (F1 & F2 & F3 & F4 & F5 & F6 & F7 & F8 & F9).
      change (io_out_cap io2) with (io_out_cap io1) in F7.
      change (io_out_buf io2) with (io1.(io_out_buf) ++ buf) in F8. rewrite Hl2 in F8.
      split_and!; [done| |intros Hr Hth _; by rewrite (F3 Hr)| |by rewrite F6|lia|].
      * destruct F2 as [->| ->].
        -- exists buf, O. split; [done|]. split; [|done]. rewrite <- Hp, <- (F1 eq_refl). apply output_produced.
        -- destruct (F9 ltac:(done)) as [_ [n Hn]]. exists buf, n. rewrite <- Hp. by split_and!.
      * intros Hw Ha. destruct F4 as [F4 F4']; [by change (io_write io2) with (io_write io1); rewrite H3|].
        split; [done|]. split; [done|]. rewrite F5. by apply H5.
      * intros H63 Hc. destruct (H6 H63 Hc) as (C1 & C2 & C3). specialize (C3 eq_refl).
        unfold in_capacity. rewrite F7. lia.
    + split_and!; [by left| |intros; exact Ht| |exact H4| |].
      * exists buf, O. rewrite <- Hp. split; [done|]. split; [apply output_produced|done].
      * intros Hw Ha. split; [done|]. split; [by rewrite <- Hw, <- H3|]. by apply H5.
      * change (blen (io_out_buf io1 ++ buf) <= blen (io_out_buf io) + blen buf). lia.
      * intros H63 Hc. destruct (H6 H63 Hc) as (C1 & C2 & C3). specialize (C3 eq_refl).
        unfold in_capacity. change (io_out_buf io2) with (io1.(io_out_buf) ++ buf).
        change (io_out_cap io2) with (io_out_cap io1). lia.
  - split_and!; [by right| |lia| |done|rewrite H1; lia|].
    + exists [], O. split; [apply prefix_nil|]. split; [|lia]. rewrite app_nil_r.
      exists (io_wire io). unfold produced. by rewrite H1, H2, take_0, app_nil_r.
    + intros _ Ha. by destruct (H5 Ha).
    + intros H63 Hc. destruct (H6 H63 Hc) as (C1 & C2 & C3). unfold in_capacity. rewrite H1. lia.
Qed.

Lemma length_frame_bytes f : blen (frame_bytes f) = 9 + blen (f_payload f).
Proof. unfold frame_bytes, blen. rewrite length_app, length_make_header. lia. Qed.

(** What the writers guarantee: the return code, what they add to the output,
    the batch bound, success without faults, the clock, the capacity. *)
Record wrote (threshold : Z) (all : bytes) (rc : Z) (io io' : h2_io) : Prop := {
  wr_rc : rc = 0 \/ rc = -1;
  wr_bytes : exists b n, b `prefix_of` all /\ output_is (produced io ++ b) n io' /\ (rc = 0 -> n = O /\ b = all);
  wr_batch : rc = 0 -> 0 < threshold -> blen io.(io_out_buf) < threshold -> blen io'.(io_out_buf) < threshold;
  wr_clean : io.(io_write) = [] -> io.(io_alloc) = [] ->
    rc = 0 /\ io'.(io_write) = [] /\ io'.(io_alloc) = [];
  wr_clock : io'.(io_clock) = io.(io_clock);
  wr_room : blen io'.(io_out_buf) <= blen io.(io_out_buf) + blen all;
  wr_cap : blen io.(io_out_buf) + blen all < 2 ^ 63 -> in_capacity io -> in_capacity io'
}.

Lemma wrote_nil threshold io : wrote threshold [] 0 io io.
Proof.
  constructor; try done; [by left| |unfold blen; cbn [length]; lia].
  exists [], O. split; [done|]. rewrite app_nil_r. split; [apply output_produced|done].
Qed.

Lemma wrote_append threshold buf io :
  let '(rc, io') := h2_out_append threshold buf io in wrote threshold buf rc io io'.
Proof.
  pose proof (append_spec threshold buf io) as Ha. destruct (h2_out_append threshold buf io) as [rc io1].
  destruct Ha as (A1 & A2 & A3 & A4 & A5 & A6 & A7). by constructor.
Qed.
Lemma wrote_all threshold all io io' : wrote threshold all 0 io io' -> produced io' = produced io ++ all.
Proof.
  intros [_ (b & n & _ & Hb & Hall) _ _ _ _ _]. destruct (Hall eq_refl) as [-> ->]. by apply output_whole.
Qed.

(** One writer after another, the second only when the first succeeds. *)
Lemma wrote_seq threshold a b rc1 rc2 io io1 io2 :
  wrote threshold a rc1 io io1 ->
  (rc1 = 0 -> wrote threshold b rc2 io1 io2) ->
  (rc1 <> 0 -> rc2 = -1 /\ io2 = io1) ->
  wrote threshold (a ++ b) rc2 io io2.
Proof.
  intros Ha Hb Hn. pose proof Ha as [A1 (x & nx & Ax & A2 & A3) A4 A5 A6 A7 A8].
  assert (Hla : 0 <= blen a /\ 0 <= blen b) by (unfold blen; lia).
  destruct (Z.eq_dec rc1 0) as [->|Hr].
  - destruct (Hb eq_refl) as [B1 (y & n & By & B2 & B3) B4 B5 B6 B7 B8].
    rewrite (wrote_all _ _ _ _ Ha), <- app_assoc in B2.
    constructor; [done| |auto| |congruence|rewrite blen_app; lia|].
    + exists (a ++ y), n. split; [by apply prefix_app|]. split; [done|].
      intros Hr. by destruct (B3 Hr) as [-> ->].
    + intros H1 H2. destruct (A5 H1 H2) as (_ & H3 & H4). auto.
    + rewrite blen_app. intros H63 Hc. apply B8; [lia|]. apply A8; [lia|done].
  - destruct (Hn Hr) as [-> ->]. constructor; [by right| |lia| |done|rewrite blen_app; lia|].
    + exists x, nx. split; [by apply prefix_app_r|]. split; [done|lia].
    + intros H1 H2. by destruct (A5 H1 H2).
    + rewrite blen_app. intros H63 Hc. apply A8; [lia|done].
Qed.

Lemma wrote_frame threshold f io :
  let '(rc, io') := h2_write_frame threshold f.(f_type) f.(f_flags) f.(f_stream)
                      (Some f.(f_payload)) (blen f.(f_payload)) io in
  wrote threshold (frame_bytes f) rc io io'.
Proof.
  unfold h2_write_frame, frame_bytes. set (hd := h2_make_frame_header _ _ _ _ _).
  pose proof (wrote_append threshold hd io) as Ha.
  destruct (h2_out_append threshold hd io) as [rc io1].
  destruct (Z.eqb_spec rc 0) as [->|Hn]; cbn [negb].
  - assert (Hx : let '(rc, io') := (if 0 <? blen (f_payload f)
        then h2_out_append threshold (take (Z.to_nat (blen (f_payload f))) (f_payload f)) io1 else (0, io1)) in
      wrote threshold (f_payload f) rc io1 io').
    { destruct (Z.ltb_spec 0 (blen (f_payload f))) as [Hl|Hl].
      - rewrite firstn_all2 by (unfold blen; lia). apply wrote_append.
      - assert (f.(f_payload) = []) as ->
          by (destruct f.(f_payload); [done|unfold blen in Hl; cbn [length] in Hl; lia]). apply wrote_nil. }
    destruct (if 0 <? _ then _ else _) as [rc2 io2]. by apply (wrote_seq _ _ _ 0 rc2 io io1 io2).
  - by apply (wrote_seq _ _ _ rc (-1) io io1 io1).
Qed.

Lemma wrote_frames threshold fs : forall io,
  let '(rc, io') := write_frames threshold fs io in wrote threshold (frames_bytes fs) rc io io'.
Proof.
  unfold frames_bytes. induction fs as [|f fs IH]; intros io; cbn [write_frames map concat]; [apply wrote_nil|].
  pose proof (wrote_frame threshold f io) as Hf.
  destruct (h2_write_frame _ _ _ _ _ _ io) as [rc io1].
  destruct (Z.eqb_spec rc 0) as [->|Hn]; cbn [negb].
  - specialize (IH io1). destruct (write_frames threshold fs io1) as [rc2 io2].
    by apply (wrote_seq _ _ _ 0 rc2 io io1 io2).
  - by apply (wrote_seq _ _ _ rc (-1) io io1 io1).
Qed.

Lemma read_frame_bytes f rest :
  frame_ok f ->
  read_frame (frame_bytes f ++ rest) =
    Some (MkFrameHeader (blen f.(f_payload)) f.(f_type) f.(f_flags) f.(f_stream), f.(f_payload), rest).
Proof.
  intros [H1 H2 H3 H4]. unfold read_frame, frame_bytes, h2_read_full.
  set (hd := h2_make_frame_header _ _ _ _ _). assert (Hh : length hd = 9%nat) by apply length_make_header.
  unfold CWIST_HTTP2_FRAME_HEADER_SIZE at 1.
  rewrite <- app_assoc, length_app, Hh, (proj2 (Nat.ltb_ge _ _)) by lia.
  rewrite take_app_length' by done. rewrite drop_app_length' by done.
  unfold hd. rewrite parse_make_header by (unfold blen in *; lia || done). cbn [fh_len].
  unfold blen. rewrite Nat2Z.id, length_app, (proj2 (Nat.ltb_ge _ _)) by lia.
  by rewrite take_app_length, drop_app_length.
Qed.

Lemma read_frames_bytes fs : forall fuel,
  Forall frame_ok fs -> (length fs < fuel)%nat ->
  read_frames fuel (frames_bytes fs) =
    (map (fun f => (MkFrameHeader (blen f.(f_payload)) f.(f_type) f.(f_flags) f.(f_stream), f.(f_payload))) fs, []).
Proof.
  unfold frames_bytes.
  induction fs as [|f fs IH]; intros [|fuel] Hf Hl; cbn [length] in Hl; try lia; [done|].
  apply Forall_cons_1 in Hf as [Hf Hfs]. cbn [map concat read_frames].
  rewrite read_frame_bytes by done. rewrite IH by (lia || done). done.
Qed.

(** ** Properties *)

(** C5: batching is transparent and the frame codec is exact: frames written
    through the batch buffer, whatever its threshold and whichever allocation
    or write fails, reach the transport in order and contiguously.  Up to and
    including the first write that fails, what the transport has taken is a
    prefix of what was there before followed by the frames' bytes, and the
    buffer holds all that follows the last write that succeeded; no byte is
    stored past its capacity.  When no call reports a failure, sent and pending
    bytes together are all of it, the pending part is below the threshold, and
    the dispatcher's reader gets from the new bytes exactly the frames written.
    A flush then leaves nothing pending, or fails and keeps the buffer as it was,
    part of it taken. *)
Theorem batched_frames_exact threshold fs io :
  0 < threshold -> blen io.(io_out_buf) < threshold -> Forall frame_ok fs -> in_capacity io ->
  threshold + blen (frames_bytes fs) <= 2 ^ 63 ->
  let '(rc, io1) := write_frames threshold fs io in
  (exists b n, b `prefix_of` frames_bytes fs /\ output_is (produced io ++ b) n io1 /\ (rc = 0 -> n = O)) /\
  io1.(io_wire) `prefix_of` produced io ++ frames_bytes fs /\
  in_capacity io1 /\
  (io.(io_write) = [] -> io.(io_alloc) = [] -> rc = 0) /\
  (rc = 0 ->
     produced io1 = produced io ++ frames_bytes fs /\
     blen io1.(io_out_buf) < threshold /\
     read_frames (S (length fs)) (drop (length (produced io)) (produced io1)) =
       (map (fun f => (MkFrameHeader (blen f.(f_payload)) f.(f_type) f.(f_flags) f.(f_stream),
                       f.(f_payload))) fs, []) /\
     let '(rc2, io2) := h2_out_flush io1 in
     (rc2 = 0 -> io2.(io_out_buf) = [] /\ io2.(io_wire) = produced io ++ frames_bytes fs) /\
     (rc2 <> 0 -> io2.(io_out_buf) = io1.(io_out_buf) /\
        exists n, output_is (produced io ++ frames_bytes fs) n io2)).
Proof.
  intros Ht Hb Hf Hc H63. pose proof (wrote_frames threshold fs io) as Hw.
  destruct (write_frames threshold fs io) as [rc io1].
  pose proof Hw as [A1 (b & n & Hb1 & A2 & A3) A4 A5 _ A6 A7].
  split; [exists b, n; split_and!; try done; by intros; apply A3|].
  split; [by etrans; [apply (output_prefix _ _ _ A2)|apply prefix_app]|].
  split; [apply A7; [lia|done]|].
  split; [intros H1 H2; by apply A5|]. intros ->. pose proof (wrote_all _ _ _ _ Hw) as Hall.
  split; [done|]. split; [by apply A4|].
  split; [rewrite Hall, drop_app_length; apply read_frames_bytes; [done|lia]|].
  pose proof (flush_spec io1) as Hfl.
  destruct (h2_out_flush io1) as [rc2 io2]. destruct Hfl as (F1 & _ & F2 & _ & _ & _ & _ & _ & F9).
  rewrite <- Hall. split; [|done].
  intros H0. split; [by apply F2|]. rewrite <- (F1 H0). unfold produced. by rewrite (F2 H0), app_nil_r.
Qed.

(** A buffer kept by a failed write is sent from its beginning by the next one
    that succeeds: here the transport gets a frame's first bytes twice. *)
Lemma failed_flush_sent_twice :
  let '(rc1, io1) := h2_out_flush (MkIo (bs "frame") 16384 [] [] [WriteFails 3] []) in
  rc1 = -1 /\ let '(rc2, io2) := h2_out_flush io1 in rc2 = 0 /\ io2.(io_wire) = bs "fraframe".
Proof. done. Qed.

Definition wit_frames : list h2_frame :=
  [MkH2Frame 4 1 0 []; MkH2Frame 0 0 1 (bs "hello"); MkH2Frame 0 1 1 (bs "world")].

Lemma batched_frames_exact_witness :
  Forall frame_ok wit_frames /\
  let '(rc, io1) := write_frames 20 wit_frames (MkIo [] 0 [] [] [WriteAll; WriteFails 7] []) in
  io1.(io_wire) `prefix_of` [] ++ frames_bytes wit_frames.
Proof.
  assert (H : Forall frame_ok wit_frames).
  { repeat first [apply Forall_cons_2 | apply list.Forall_nil_2]; constructor; vm_compute;
      first [reflexivity | split; [discriminate|reflexivity]]. }
  assert (Hb : blen ([] : bytes) < 20) by done.
  assert (Hc : in_capacity (MkIo [] 0 [] [] [WriteAll; WriteFails 7] [])) by (by split).
  split; [exact H|].
  pose proof (batched_frames_exact 20 wit_frames (MkIo [] 0 [] [] [WriteAll; WriteFails 7] []) eq_refl Hb H Hc
                ltac:(vm_compute; discriminate)) as Hx.
  destruct (write_frames 20 wit_frames _) as [rc io1]. exact (proj1 (proj2 Hx)).
Defined.
