(* ===== verification/HpackPrim.v ===== *)
(** * HPACK primitives (src/src/net/http/http2.c)

    Prefix integers, the Huffman code and string literals of RFC 7541, as the
    HTTP/2 connection decodes and encodes them.

    The decode tree is a functional tree; the pool it is allocated from is the
    count of nodes taken.  A position in the tree is the root or a node below
    it, which is what the pointer comparison with [h2_huffman_root] tells.  The
    encoders report, besides what they wrote, the extent of their writes: one
    more than the largest index of [dst] they stored to, to be compared with
    the capacity the caller gave. *)

From S2P Require Import Prelude.

(** ** Integers *)

Fixpoint int_loop (fuel : nat) (buf : bytes) (pos : nat) (n m : Z) : option (Z * nat) :=
  match fuel with
  | O => None
  | S fuel =>
      if (length buf <=? pos)%nat then None else
      let b := rd buf pos in
      if 28 <? m then None else
      let n := u32 (n + u32 (Z.shiftl (Z.land b 0x7f) m)) in
      if Z.land b 0x80 =? 0 then Some (n, (pos + 1)%nat) else int_loop fuel buf (pos + 1) n (m + 7)
  end.

(** [h2_decode_integer]: the value and the position after it; -1 is [None]. *)
Definition h2_decode_integer (buf : bytes) (pos : nat) (prefix_bits : Z) : option (Z * nat) :=
  if (length buf <=? pos)%nat || (prefix_bits =? 0) || (8 <? prefix_bits) then None else
  let mask := u8 (Z.shiftl 1 prefix_bits - 1) in
  let n := Z.land (rd buf pos) mask in
  if n <? mask then Some (n, (pos + 1)%nat) else int_loop (length buf) buf (pos + 1) n 0.

(** The continuation bytes, from index [i] of [dst]. *)
Fixpoint encode_rest (fuel : nat) (dst_cap i : nat) (value : Z) (out : bytes) : option bytes * nat :=
  match fuel with
  | O => (None, i)
  | S fuel =>
      if 128 <=? value then
        if (dst_cap <=? i)%nat then (None, i)
        else encode_rest fuel dst_cap (i + 1) (Z.shiftr value 7)
               (out ++ [Z.lor (Z.land value 0x7f) 0x80])
      else if (dst_cap <=? i)%nat then (None, i)
      else (Some (out ++ [u8 value]), (i + 1)%nat)
  end.

(** [h2_encode_integer] over [first], the byte [dst[0]] holds: the bytes
    written ([None] is 0, does not fit) and their extent. *)
Definition h2_encode_integer (first : Z) (dst_cap : nat) (value prefix_bits : Z) : option bytes * nat :=
  let mask := u8 (Z.shiftl 1 prefix_bits - 1) in
  let first := Z.ldiff first mask in
  if value <? mask then (Some [Z.lor first value], 1%nat)
  else encode_rest 6 dst_cap 1 (value - mask) [Z.lor first mask].

(** ** The Huffman code *)

(** Code and length of each symbol; 256 is EOS. *)
Definition huffman_table : list (Z * nat) :=
  [
    (0x00001ff8, 13%nat); (0x007fffd8, 23%nat); (0x0fffffe2, 28%nat); (0x0fffffe3, 28%nat); (0x0fffffe4, 28%nat);
    (0x0fffffe5, 28%nat); (0x0fffffe6, 28%nat); (0x0fffffe7, 28%nat); (0x0fffffe8, 28%nat); (0x00ffffea, 24%nat);
    (0x3ffffffc, 30%nat); (0x0fffffe9, 28%nat); (0x0fffffea, 28%nat); (0x3ffffffd, 30%nat); (0x0fffffeb, 28%nat);
    (0x0fffffec, 28%nat); (0x0fffffed, 28%nat); (0x0fffffee, 28%nat); (0x0fffffef, 28%nat); (0x0ffffff0, 28%nat);
    (0x0ffffff1, 28%nat); (0x0ffffff2, 28%nat); (0x3ffffffe, 30%nat); (0x0ffffff3, 28%nat); (0x0ffffff4, 28%nat);
    (0x0ffffff5, 28%nat); (0x0ffffff6, 28%nat); (0x0ffffff7, 28%nat); (0x0ffffff8, 28%nat); (0x0ffffff9, 28%nat);
    (0x0ffffffa, 28%nat); (0x0ffffffb, 28%nat); (0x00000014, 6%nat); (0x000003f8, 10%nat); (0x000003f9, 10%nat);
    (0x00000ffa, 12%nat); (0x00001ff9, 13%nat); (0x00000015, 6%nat); (0x000000f8, 8%nat); (0x000007fa, 11%nat);
    (0x000003fa, 10%nat); (0x000003fb, 10%nat); (0x000000f9, 8%nat); (0x000007fb, 11%nat); (0x000000fa, 8%nat);
    (0x00000016, 6%nat); (0x00000017, 6%nat); (0x00000018, 6%nat); (0x00000000, 5%nat); (0x00000001, 5%nat);
    (0x00000002, 5%nat); (0x00000019, 6%nat); (0x0000001a, 6%nat); (0x0000001b, 6%nat); (0x0000001c, 6%nat);
    (0x0000001d, 6%nat); (0x0000001e, 6%nat); (0x0000001f, 6%nat); (0x0000005c, 7%nat); (0x000000fb, 8%nat);
    (0x00007ffc, 15%nat); (0x00000020, 6%nat); (0x00000ffb, 12%nat); (0x000003fc, 10%nat); (0x00001ffa, 13%nat);
    (0x00000021, 6%nat); (0x0000005d, 7%nat); (0x0000005e, 7%nat); (0x0000005f, 7%nat); (0x00000060, 7%nat);
    (0x00000061, 7%nat); (0x00000062, 7%nat); (0x00000063, 7%nat); (0x00000064, 7%nat); (0x00000065, 7%nat);
    (0x00000066, 7%nat); (0x00000067, 7%nat); (0x00000068, 7%nat); (0x00000069, 7%nat); (0x0000006a, 7%nat);
    (0x0000006b, 7%nat); (0x0000006c, 7%nat); (0x0000006d, 7%nat); (0x0000006e, 7%nat); (0x0000006f, 7%nat);
    (0x00000070, 7%nat); (0x00000071, 7%nat); (0x00000072, 7%nat); (0x000000fc, 8%nat); (0x00000073, 7%nat);
    (0x000000fd, 8%nat); (0x00001ffb, 13%nat); (0x0007fff0, 19%nat); (0x00001ffc, 13%nat); (0x00003ffc, 14%nat);
    (0x00000022, 6%nat); (0x00007ffd, 15%nat); (0x00000003, 5%nat); (0x00000023, 6%nat); (0x00000004, 5%nat);
    (0x00000024, 6%nat); (0x00000005, 5%nat); (0x00000025, 6%nat); (0x00000026, 6%nat); (0x00000027, 6%nat);
    (0x00000006, 5%nat); (0x00000074, 7%nat); (0x00000075, 7%nat); (0x00000028, 6%nat); (0x00000029, 6%nat);
    (0x0000002a, 6%nat); (0x00000007, 5%nat); (0x0000002b, 6%nat); (0x00000076, 7%nat); (0x0000002c, 6%nat);
    (0x00000008, 5%nat); (0x00000009, 5%nat); (0x0000002d, 6%nat); (0x00000077, 7%nat); (0x00000078, 7%nat);
    (0x00000079, 7%nat); (0x0000007a, 7%nat); (0x0000007b, 7%nat); (0x00007ffe, 15%nat); (0x000007fc, 11%nat);
    (0x00003ffd, 14%nat); (0x00001ffd, 13%nat); (0x0ffffffc, 28%nat); (0x000fffe6, 20%nat); (0x003fffd2, 22%nat);
    (0x000fffe7, 20%nat); (0x000fffe8, 20%nat); (0x003fffd3, 22%nat); (0x003fffd4, 22%nat); (0x003fffd5, 22%nat);
    (0x007fffd9, 23%nat); (0x003fffd6, 22%nat); (0x007fffda, 23%nat); (0x007fffdb, 23%nat); (0x007fffdc, 23%nat);
    (0x007fffdd, 23%nat); (0x007fffde, 23%nat); (0x00ffffeb, 24%nat); (0x007fffdf, 23%nat); (0x00ffffec, 24%nat);
    (0x00ffffed, 24%nat); (0x003fffd7, 22%nat); (0x007fffe0, 23%nat); (0x00ffffee, 24%nat); (0x007fffe1, 23%nat);
    (0x007fffe2, 23%nat); (0x007fffe3, 23%nat); (0x007fffe4, 23%nat); (0x001fffdc, 21%nat); (0x003fffd8, 22%nat);
    (0x007fffe5, 23%nat); (0x003fffd9, 22%nat); (0x007fffe6, 23%nat); (0x007fffe7, 23%nat); (0x00ffffef, 24%nat);
    (0x003fffda, 22%nat); (0x001fffdd, 21%nat); (0x000fffe9, 20%nat); (0x003fffdb, 22%nat); (0x003fffdc, 22%nat);
    (0x007fffe8, 23%nat); (0x007fffe9, 23%nat); (0x001fffde, 21%nat); (0x007fffea, 23%nat); (0x003fffdd, 22%nat);
    (0x003fffde, 22%nat); (0x00fffff0, 24%nat); (0x001fffdf, 21%nat); (0x003fffdf, 22%nat); (0x007fffeb, 23%nat);
    (0x007fffec, 23%nat); (0x001fffe0, 21%nat); (0x001fffe1, 21%nat); (0x003fffe0, 22%nat); (0x001fffe2, 21%nat);
    (0x007fffed, 23%nat); (0x003fffe1, 22%nat); (0x007fffee, 23%nat); (0x007fffef, 23%nat); (0x000fffea, 20%nat);
    (0x003fffe2, 22%nat); (0x003fffe3, 22%nat); (0x003fffe4, 22%nat); (0x007ffff0, 23%nat); (0x003fffe5, 22%nat);
    (0x003fffe6, 22%nat); (0x007ffff1, 23%nat); (0x03ffffe0, 26%nat); (0x03ffffe1, 26%nat); (0x000fffeb, 20%nat);
    (0x0007fff1, 19%nat); (0x003fffe7, 22%nat); (0x007ffff2, 23%nat); (0x003fffe8, 22%nat); (0x01ffffec, 25%nat);
    (0x03ffffe2, 26%nat); (0x03ffffe3, 26%nat); (0x03ffffe4, 26%nat); (0x07ffffde, 27%nat); (0x07ffffdf, 27%nat);
    (0x03ffffe5, 26%nat); (0x00fffff1, 24%nat); (0x01ffffed, 25%nat); (0x0007fff2, 19%nat); (0x001fffe3, 21%nat);
    (0x03ffffe6, 26%nat); (0x07ffffe0, 27%nat); (0x07ffffe1, 27%nat); (0x03ffffe7, 26%nat); (0x07ffffe2, 27%nat);
    (0x00fffff2, 24%nat); (0x001fffe4, 21%nat); (0x001fffe5, 21%nat); (0x03ffffe8, 26%nat); (0x03ffffe9, 26%nat);
    (0x0ffffffd, 28%nat); (0x07ffffe3, 27%nat); (0x07ffffe4, 27%nat); (0x07ffffe5, 27%nat); (0x000fffec, 20%nat);
    (0x00fffff3, 24%nat); (0x000fffed, 20%nat); (0x001fffe6, 21%nat); (0x003fffe9, 22%nat); (0x001fffe7, 21%nat);
    (0x001fffe8, 21%nat); (0x007ffff3, 23%nat); (0x003fffea, 22%nat); (0x003fffeb, 22%nat); (0x01ffffee, 25%nat);
    (0x01ffffef, 25%nat); (0x00fffff4, 24%nat); (0x00fffff5, 24%nat); (0x03ffffea, 26%nat); (0x007ffff4, 23%nat);
    (0x03ffffeb, 26%nat); (0x07ffffe6, 27%nat); (0x03ffffec, 26%nat); (0x03ffffed, 26%nat); (0x07ffffe7, 27%nat);
    (0x07ffffe8, 27%nat); (0x07ffffe9, 27%nat); (0x07ffffea, 27%nat); (0x07ffffeb, 27%nat); (0x0ffffffe, 28%nat);
    (0x07ffffec, 27%nat); (0x07ffffed, 27%nat); (0x07ffffee, 27%nat); (0x07ffffef, 27%nat); (0x07fffff0, 27%nat);
    (0x03ffffee, 26%nat); (0x3fffffff, 30%nat) ].

#[warnings="-register-all"]
Inductive htree : Type := HNode (symbol : option Z) (c0 c1 : option htree).
Definition symbol_of (t : htree) : option Z := let 'HNode s _ _ := t in s.
Definition child (t : htree) (bit : bool) : option htree :=
  let 'HNode _ c0 c1 := t in if bit then c1 else c0.
Definition empty_node : htree := HNode None None None.

(** The low [k] bits of [n], highest first. *)
Fixpoint code_bits (n : Z) (k : nat) : list bool :=
  match k with
  | O => []
  | S k => Z.testbit n (Z.of_nat k) :: code_bits n k
  end.

(** Inserts one code; [used] nodes of the 4096 of the pool are taken. *)
Fixpoint huffman_insert (bits : list bool) (sym : Z) (t : htree) (used : Z) : option (htree * Z) :=
  let 'HNode s c0 c1 := t in
  match bits with
  | [] => Some (HNode (Some sym) c0 c1, used)
  | b :: bits =>
      let next := match (if b then c1 else c0) with
                  | Some c => Some (c, used)
                  | None => if 4096 <=? used then None else Some (empty_node, used + 1)
                  end in
      match next with
      | None => None
      | Some (c, used) =>
          match huffman_insert bits sym c used with
          | None => None
          | Some (c, used) => Some ((if b then HNode s c0 (Some c) else HNode s (Some c) c1), used)
          end
      end
  end.

Fixpoint huffman_insert_all (table : list (Z * nat)) (sym : Z) (t : htree) (used : Z) : option htree :=
  match table with
  | [] => Some t
  | (code, bits) :: table =>
      match huffman_insert (code_bits code bits) sym t used with
      | None => None
      | Some (t, used) => huffman_insert_all table (sym + 1) t used
      end
  end.

(** [h2_huffman_init]: the tree, unless the pool is exhausted. *)
Definition h2_huffman_init : option htree := huffman_insert_all huffman_table 0 empty_node 1.

(** One entry of the root lookup table: symbol and bits consumed. *)
Fixpoint lut_walk (t : htree) (bits : list bool) (consumed : nat) {struct bits}
    : option (Z * nat) :=
  match bits with
  | [] => None
  | b :: bits =>
      match child t b with
      | None => None
      | Some n => match symbol_of n with
                  | Some s => Some (s, S consumed)
                  | None => lut_walk n bits (S consumed)
                  end
      end
  end.
Definition root_lut (root : htree) (index : Z) : option (Z * nat) := lut_walk root (code_bits index 8) 0.

(** ** Huffman decoding *)

Inductive hpos : Type := AtRoot | Below (t : htree).
Definition node_of (root : htree) (p : hpos) : htree := match p with AtRoot => root | Below t => t end.

(** Stores one symbol, doubling the buffer when it is full. *)
Definition emit_symbol (out : bytes) (cap : nat) (sym : Z) (o : oracle)
    : option (bytes * nat) * oracle :=
  if (cap <=? length out + 1)%nat then
    match alloc o with
    | (true, o) => (Some (out ++ [sym], (cap * 2)%nat), o)
    | (false, o) => (None, o)
    end
  else (Some (out ++ [sym], cap), o).

(** Keeps the bit buffer filled. *)
Fixpoint refill (src : bytes) (bit_buf : Z) (bit_cnt : nat) : bytes * Z * nat :=
  match src with
  | b :: src' =>
      if (bit_cnt <=? 24)%nat
      then refill src' (Z.lor (u32 (Z.shiftl bit_buf 8)) b) (bit_cnt + 8)
      else (src, bit_buf, bit_cnt)
  | [] => (src, bit_buf, bit_cnt)
  end.

Fixpoint huffman_loop (fuel : nat) (root : htree) (src : bytes) (bit_buf : Z) (bit_cnt : nat)
    (pos : hpos) (out : bytes) (cap : nat) (o : oracle) : option (bytes * hpos) * oracle :=
  match fuel with
  | O => (None, o)
  | S fuel =>
      if (length src =? 0)%nat && (bit_cnt =? 0)%nat then (Some (out, pos), o) else
      let '(src, bit_buf, bit_cnt) := refill src bit_buf bit_cnt in
      let hit :=
        match pos with
        | AtRoot => if (8 <=? bit_cnt)%nat
                    then root_lut root (u8 (Z.shiftr bit_buf (Z.of_nat (bit_cnt - 8)))) else None
        | Below _ => None
        end in
      match hit with
      | Some (sym, bits) =>
          if sym =? 256 then (None, o) else
          match emit_symbol out cap sym o with
          | (None, o) => (None, o)
          | (Some (out, cap), o) =>
              huffman_loop fuel root src bit_buf (bit_cnt - bits) AtRoot out cap o
          end
      | None =>
          match bit_cnt with
          | O => (Some (out, pos), o)
          | S bit_cnt =>
              match child (node_of root pos) (Z.testbit bit_buf (Z.of_nat bit_cnt)) with
              | None => (None, o)
              | Some n =>
                  match symbol_of n with
                  | Some sym =>
                      if sym =? 256 then (None, o) else
                      match emit_symbol out cap sym o with
                      | (None, o) => (None, o)
                      | (Some (out, cap), o) =>
                          huffman_loop fuel root src bit_buf bit_cnt AtRoot out cap o
                      end
                  | None => huffman_loop fuel root src bit_buf bit_cnt (Below n) out cap o
                  end
              end
          end
      end
  end.

(** The padding check: only ones lead on to EOS. *)
Fixpoint leads_to_eos (t : htree) : bool :=
  match t with
  | HNode (Some s) _ _ => s =? 256
  | HNode None _ (Some c) => leads_to_eos c
  | HNode None _ None => false
  end.

(** [h2_huffman_decode] *)
Definition h2_huffman_decode (src : bytes) (o : oracle) : option bytes * oracle :=
  match h2_huffman_init with
  | None => (None, o)
  | Some root =>
      match alloc o with
      | (false, o) => (None, o)
      | (true, o) =>
          let cap := Nat.max 16 (length src * 2 + 1) in
          match huffman_loop (S (8 * length src)) root src 0 0 AtRoot [] cap o with
          | (None, o) => (None, o)
          | (Some (out, AtRoot), o) => (Some out, o)
          | (Some (out, Below t), o) => ((if leads_to_eos t then Some out else None), o)
          end
      end
  end.

(** ** String literals *)

(** [h2_decode_string_counted]: the string and the position after it. *)
Definition h2_decode_string_counted (buf : bytes) (pos : nat) (o : oracle)
    : option (bytes * nat) * oracle :=
  if (length buf <=? pos)%nat then (None, o) else
  let huffman := negb (Z.land (rd buf pos) 0x80 =? 0) in
  match h2_decode_integer buf pos 7 with
  | None => (None, o)
  | Some (str_len, pos) =>
      if Z.of_nat (length buf) <? Z.of_nat pos + str_len then (None, o) else
      let n := Z.to_nat str_len in
      if huffman then
        match h2_huffman_decode (sub buf pos n) o with
        | (None, o) => (None, o)
        | (Some out, o) => (Some (out, (pos + n)%nat), o)
        end
      else
        match alloc o with
        | (false, o) => (None, o)
        | (true, o) => (Some (sub buf pos n, (pos + n)%nat), o)
        end
  end.

(** [h2_encode_string]: bytes written and their extent. *)
Definition h2_encode_string (dst_cap : nat) (str : bytes) : option bytes * nat :=
  match h2_encode_integer 0 dst_cap (u32 (blen str)) 7 with
  | (None, ext) => (None, Nat.max 1 ext)
  | (Some hdr, ext) =>
      if (dst_cap <? length hdr + length str)%nat then (None, Nat.max 1 ext)
      else (Some (hdr ++ str), (length hdr + length str)%nat)
  end.

Example huffman_example :
  h2_huffman_decode [0xf1; 0xe3; 0xc2; 0xe5; 0xf2; 0x3a; 0x6b; 0xa0; 0xab; 0x90; 0xf4; 0xff] [] =
  (Some (bs "www.example.com"), []).
Proof. vm_compute. reflexivity. Qed.

(** ** Lemmas: bits *)

Lemma length_code_bits n k : length (code_bits n k) = k.
Proof. induction k as [|k IH]; [done|]. cbn. by rewrite IH. Qed.

Lemma code_bits_ext n m k :
  (forall i, 0 <= i < Z.of_nat k -> Z.testbit n i = Z.testbit m i) -> code_bits n k = code_bits m k.
Proof.
  induction k as [|k IH]; intros H; [done|]. cbn [code_bits]. rewrite H by lia.
  rewrite IH; [done|]. intros i Hi. apply H. lia.
Qed.

Lemma code_bits_split n j k : code_bits n (j + k) = code_bits (Z.shiftr n (Z.of_nat k)) j ++ code_bits n k.
Proof.
  induction j as [|j IH]; [done|]. cbn [Nat.add code_bits app]. rewrite IH, Z.shiftr_spec by lia.
  do 2 f_equal. lia.
Qed.

Lemma drop_code_bits n k j : drop j (code_bits n k) = code_bits n (k - j).
Proof.
  revert j. induction k as [|k IH]; intros [|j]; try done. cbn [code_bits drop]. by rewrite IH.
Qed.

Lemma u32_testbit x i : 0 <= i -> Z.testbit (u32 x) i = (i <? 32) && Z.testbit x i.
Proof.
  intros Hi. unfold u32. change 4294967296 with (2 ^ 32). destruct (Z.ltb_spec i 32).
  - by rewrite Z.mod_pow2_bits_low by lia.
  - by rewrite Z.mod_pow2_bits_high by lia.
Qed.

Lemma u8_testbit_high c i : is_u8 c -> 8 <= i -> Z.testbit c i = false.
Proof.
  intros Hc Hi. unfold is_u8 in Hc. rewrite <- (Z.mod_small c (2 ^ 8)) by (change (2 ^ 8) with 256; lia).
  apply Z.mod_pow2_bits_high. lia.
Qed.

Lemma code_bits_push b c k :
  is_u8 c -> (k + 8 <= 32)%nat ->
  code_bits (Z.lor (u32 (Z.shiftl b 8)) c) (k + 8) = code_bits b k ++ code_bits c 8.
Proof.
  intros Hc Hk. rewrite code_bits_split. f_equal; apply code_bits_ext; intros i Hi.
  - rewrite Z.shiftr_spec, Z.lor_spec, u32_testbit, Z.shiftl_spec by lia.
    rewrite (u8_testbit_high c) by (done || lia). rewrite orb_false_r.
    rewrite (proj2 (Z.ltb_lt _ _)) by lia. cbn [andb]. f_equal. lia.
  - rewrite Z.lor_spec, u32_testbit, Z.shiftl_spec by lia.
    rewrite (Z.testbit_neg_r b) by lia. by rewrite andb_false_r.
Qed.

Definition src_bits (src : bytes) : list bool := concat (map (fun b => code_bits b 8) src).

Lemma length_src_bits src : length (src_bits src) = (8 * length src)%nat.
Proof.
  unfold src_bits. induction src as [|b src IH]; [done|]. cbn [map concat length].
  rewrite length_app, length_code_bits, IH. lia.
Qed.

Lemma refill_spec src : forall buf cnt,
  bytes_ok src -> (cnt <= 32)%nat ->
  let '(src', buf', cnt') := refill src buf cnt in
  code_bits buf' cnt' ++ src_bits src' = code_bits buf cnt ++ src_bits src /\
  (cnt' <= 32)%nat /\ bytes_ok src' /\ (src' = [] \/ (24 < cnt')%nat).
Proof.
  induction src as [|b src IH]; intros buf cnt Hok Hc; cbn [refill].
  { split; [done|]. split; [done|]. split; [done|by left]. }
  destruct (Nat.leb_spec cnt 24).
  - apply Forall_cons_1 in Hok as [Hb Hok].
    specialize (IH (Z.lor (u32 (Z.shiftl buf 8)) b) (cnt + 8)%nat Hok ltac:(lia)).
    destruct (refill src _ _) as [[src' buf'] cnt']. destruct IH as (H1 & H2 & H3).
    split; [|done]. rewrite H1, code_bits_push by (done || lia). by rewrite <- app_assoc.
  - split; [done|]. split; [done|]. split; [done|right; lia].
Qed.

(** ** Lemmas: the loop is a walk over the bits *)

Fixpoint walk (root : htree) (pos : hpos) (bits : list bool) (out : bytes) : option (bytes * hpos) :=
  match bits with
  | [] => Some (out, pos)
  | b :: bits =>
      match child (node_of root pos) b with
      | None => None
      | Some n =>
          match symbol_of n with
          | Some s => if s =? 256 then None else walk root AtRoot bits (out ++ [s])
          | None => walk root (Below n) bits out
          end
      end
  end.

Lemma lut_walk_spec root bits : forall t c s k,
  lut_walk t bits c = Some (s, k) ->
  (c < k <= c + length bits)%nat /\
  forall pos rest out, node_of root pos = t ->
    walk root pos (bits ++ rest) out =
    if s =? 256 then None else walk root AtRoot (drop (k - c) bits ++ rest) (out ++ [s]).
Proof.
  induction bits as [|b bits IH]; intros t c s k H; cbn [lut_walk] in H; [done|].
  destruct (child t b) as [n|] eqn:Ec; [|done]. destruct (symbol_of n) as [s0|] eqn:Es.
  - injection H as -> <-. cbn [length]. split; [lia|]. intros pos rest out Hp. cbn [app walk].
    rewrite Hp, Ec, Es. replace (S c - c)%nat with 1%nat by lia. done.
  - apply IH in H as [Hk H]. cbn [length]. split; [lia|]. intros pos rest out Hp. cbn [app walk].
    rewrite Hp, Ec, Es, (H (Below n)) by done.
    by replace (k - c)%nat with (S (k - S c)) by lia.
Qed.

Lemma emit_symbol_nil out cap s : exists cap', emit_symbol out cap s [] = (Some (out ++ [s], cap'), []).
Proof. unfold emit_symbol. destruct (_ <=? _)%nat; by eexists. Qed.

Lemma huffman_loop_spec root : forall fuel src buf cnt pos out cap,
  bytes_ok src -> (cnt <= 32)%nat -> (length (code_bits buf cnt ++ src_bits src) < fuel)%nat ->
  huffman_loop fuel root src buf cnt pos out cap [] =
  (walk root pos (code_bits buf cnt ++ src_bits src) out, []).
Proof.
  induction fuel as [|fuel IH]; intros src buf cnt pos out cap Hok Hc Hf; [lia|].
  cbn [huffman_loop]. destruct ((length src =? 0)%nat && (cnt =? 0)%nat) eqn:E0.
  { apply andb_prop in E0 as [E1%Nat.eqb_eq E2%Nat.eqb_eq]. subst cnt. by destruct src. }
  clear E0. pose proof (refill_spec src buf cnt Hok Hc) as Hr.
  destruct (refill src buf cnt) as [[src1 buf1] cnt1]. destruct Hr as (Hbits & Hc1 & Hok1 & Hfull).
  rewrite <- Hbits in *. clear src buf cnt Hok Hc Hbits.
  rename src1 into src, buf1 into buf, cnt1 into cnt.
  destruct (match pos with AtRoot => _ | Below _ => None end) as [[sym k]|] eqn:Ehit.
  - destruct pos as [|t]; [|done]. destruct (Nat.leb_spec 8 cnt) as [H8|]; [|done].
    apply (lut_walk_spec root) in Ehit as [Hk Hw]. rewrite length_code_bits in Hk.
    assert (Hidx : code_bits (u8 (Z.shiftr buf (Z.of_nat (cnt - 8)))) 8 =
      code_bits (Z.shiftr buf (Z.of_nat (cnt - 8))) 8).
    { apply code_bits_ext. intros i Hi. unfold u8. change 256 with (2 ^ 8).
      by rewrite Z.mod_pow2_bits_low by lia. }
    rewrite Hidx, Nat.sub_0_r in Hw.
    assert (Hsplit : code_bits buf cnt = code_bits (Z.shiftr buf (Z.of_nat (cnt - 8))) 8 ++ code_bits buf (cnt - 8))
      by (rewrite <- code_bits_split; f_equal; lia).
    rewrite Hsplit, <- app_assoc, (Hw AtRoot) by done. destruct (sym =? 256); [done|].
    destruct (emit_symbol_nil out cap sym) as [cap' ->].
    rewrite app_assoc, <- drop_app_le, <- Hsplit, drop_code_bits by (rewrite length_code_bits; lia).
    apply IH; [done|lia|]. rewrite length_app, !length_code_bits in *. lia.
  - destruct cnt as [|cnt].
    { cbn [code_bits app]. destruct src as [|b src]; [done|]. destruct Hfull; [done|lia]. }
    cbn [code_bits app walk]. destruct (child _ _) as [n|]; [|done].
    destruct (symbol_of n) as [s|].
    + destruct (s =? 256); [done|]. destruct (emit_symbol_nil out cap s) as [cap' ->].
      apply IH; [done|lia|]. cbn [code_bits app length] in Hf. lia.
    + apply IH; [done|lia|]. cbn [code_bits app length] in Hf. lia.
Qed.

(** ** Lemmas: the tree *)

Definition huffman_root : htree := default empty_node h2_huffman_init.

Lemma huffman_init_ok : h2_huffman_init = Some huffman_root.
Proof. vm_compute. reflexivity. Qed.

(** The code of a symbol, and of a string. *)
Definition symbol_code (s : Z) : list bool :=
  let '(code, bits) := nth (Z.to_nat s) huffman_table (0, O) in code_bits code bits.
Definition string_code (s : bytes) : list bool := concat (map symbol_code s).

(** Every symbol is found at the end of its code. *)
Lemma symbols_found :
  forallb (fun s => bool_decide (lut_walk huffman_root (symbol_code s) 0 =
                                 Some (s, length (symbol_code s)))) (seqZ 0 257) = true.
Proof. vm_compute. reflexivity. Qed.

Lemma symbol_found s :
  0 <= s < 257 -> lut_walk huffman_root (symbol_code s) 0 = Some (s, length (symbol_code s)).
Proof.
  intros Hs. pose proof (proj1 (forallb_forall _ _) symbols_found s) as H.
  apply bool_decide_eq_true in H; [done|]. apply list_elem_of_In, elem_of_seqZ. lia.
Qed.

(** The terminal nodes below a node, with their paths. *)
Fixpoint leaves (t : htree) : list (list bool * Z) :=
  let 'HNode _ c0 c1 := t in
  let below b c :=
    match c with
    | Some (HNode (Some s) _ _) => [([b], s)]
    | _ => []
    end in
  below false c0 ++ below true c1 ++
  match c0 with Some (HNode None a b as n) => map (fun e => (false :: e.1, e.2)) (leaves n) | _ => [] end ++
  match c1 with Some (HNode None a b as n) => map (fun e => (true :: e.1, e.2)) (leaves n) | _ => [] end.

Lemma lut_walk_leaves bits : forall t c s k,
  lut_walk t bits c = Some (s, k) -> In (take (k - c) bits, s) (leaves t).
Proof.
  induction bits as [|b bits IH]; intros t c s k H; [done|]. pose proof (lut_walk_spec t _ _ _ _ _ H) as [Hk _].
  cbn [lut_walk] in H. destruct t as [s0 c0 c1]. cbn [child] in H.
  destruct b; [destruct c1 as [[[s1|] a0 a1]|]|destruct c0 as [[[s1|] a0 a1]|]]; try done;
    cbn [symbol_of] in H; cbn [leaves].
  - injection H as -> <-. replace (S c - c)%nat with 1%nat by lia. cbn [take].
    apply in_or_app. right. apply in_or_app. left. by left.
  - apply IH in H. replace (k - c)%nat with (S (k - S c)) by lia. cbn [take].
    do 3 (apply in_or_app; right). by apply (in_map (fun e => (true :: e.1, e.2))) in H.
  - injection H as -> <-. replace (S c - c)%nat with 1%nat by lia. cbn [take].
    apply in_or_app. left. by left.
  - apply IH in H. replace (k - c)%nat with (S (k - S c)) by lia. cbn [take].
    do 2 (apply in_or_app; right). apply in_or_app. left.
    by apply (in_map (fun e => (false :: e.1, e.2))) in H.
Qed.

(** Every terminal node is the end of its symbol's code. *)
Lemma leaves_coded :
  forallb (fun e => bool_decide (e.1 = symbol_code e.2) && (0 <=? e.2) && (e.2 <? 257))
    (leaves huffman_root) = true.
Proof. vm_compute. reflexivity. Qed.

Lemma lut_walk_code bits s k :
  lut_walk huffman_root bits 0 = Some (s, k) -> take k bits = symbol_code s /\ 0 <= s < 257.
Proof.
  intros H. apply lut_walk_leaves in H. rewrite Nat.sub_0_r in H.
  apply (proj1 (forallb_forall _ _) leaves_coded) in H. cbn [fst snd] in H.
  apply andb_prop in H as [[H1%bool_decide_eq_true H2]%andb_prop H3]. split; [done|lia].
Qed.

Lemma lut_walk_none bits : forall t c c', lut_walk t bits c = None -> lut_walk t bits c' = None.
Proof.
  induction bits as [|b bits IH]; intros t c c' H; [done|]. cbn [lut_walk] in *.
  destruct (child t b) as [n|]; [|done]. destruct (symbol_of n); [done|]. by eapply IH.
Qed.

(** A walk that meets no terminal node stays on one path. *)
Lemma walk_inside root bits : forall t pos out,
  node_of root pos = t -> lut_walk t bits 0 = None ->
  walk root pos bits out = None \/
  exists pos', walk root pos bits out = Some (out, pos') /\ (bits = [] -> pos' = pos) /\
    (bits <> [] -> exists t', pos' = Below t' /\ symbol_of t' = None) /\
    forall more c, lut_walk t (bits ++ more) c = lut_walk (node_of root pos') more (c + length bits).
Proof.
  induction bits as [|b bits IH]; intros t pos out Hp H.
  { right. exists pos. split; [done|]. split; [done|]. split; [done|]. intros more c. rewrite Hp.
    by rewrite Nat.add_0_r. }
  cbn [lut_walk walk] in *. rewrite Hp. destruct (child t b) as [n|] eqn:Ec; [|by left].
  destruct (symbol_of n) as [s|] eqn:Es; [done|]. apply (lut_walk_none _ _ _ 0) in H.
  destruct (IH n (Below n) out eq_refl H) as [Hw|(pos' & Hw & Hnil & Hcons & Hmore)]; [by left|].
  right. exists pos'. split; [done|]. split; [done|]. split.
  - intros _. destruct bits as [|b' bits]; [|by apply Hcons].
    rewrite (Hnil eq_refl). by exists n.
  - intros more c. cbn [app lut_walk length]. rewrite Ec, Es, Hmore. f_equal. lia.
Qed.

(** A walk from the root spells symbols and then part of a code. *)
Lemma walk_spells n : forall bits out r pos,
  (length bits < n)%nat -> walk huffman_root AtRoot bits out = Some (r, pos) ->
  exists s rest, r = out ++ s /\ bytes_ok s /\ bits = string_code s ++ rest /\
    lut_walk huffman_root rest 0 = None /\ walk huffman_root AtRoot rest r = Some (r, pos).
Proof.
  induction n as [|n IH]; intros bits out r pos Hn H; [lia|].
  destruct (lut_walk huffman_root bits 0) as [[s k]|] eqn:El.
  - destruct (lut_walk_spec huffman_root _ _ _ _ _ El) as [Hk Hw].
    destruct (lut_walk_code _ _ _ El) as [Hcode Hs].
    pose proof (Hw AtRoot [] out eq_refl) as Hw'. rewrite !app_nil_r, Nat.sub_0_r in Hw'.
    rewrite Hw' in H. destruct (Z.eqb_spec s 256); [done|].
    destruct (IH (drop k bits) (out ++ [s]) r pos) as (s' & rest & -> & Hok & Hbits & Hr);
      [rewrite length_drop; lia|done|].
    exists (s :: s'), rest. split; [by rewrite <- app_assoc|]. split; [constructor; [unfold is_u8; lia|done]|].
    split; [|done]. rewrite <- (take_drop k bits), Hcode, Hbits. unfold string_code. cbn [map concat].
    by rewrite <- app_assoc.
  - exists [], bits. assert (Hr : r = out).
    { destruct (walk_inside huffman_root bits _ AtRoot out eq_refl El) as [Hw|(p' & Hw & _)];
        rewrite Hw in H; [done|by injection H]. }
    subst r. rewrite app_nil_r. split; [done|]. split; [constructor|done].
Qed.

Lemma walk_string s : forall rest out,
  bytes_ok s ->
  walk huffman_root AtRoot (string_code s ++ rest) out = walk huffman_root AtRoot rest (out ++ s).
Proof.
  induction s as [|c s IH]; intros rest out Hok; [by rewrite app_nil_r|].
  apply Forall_cons_1 in Hok as [Hc Hok]. unfold string_code. cbn [map concat]. fold (string_code s).
  assert (Hr : 0 <= c < 257) by (unfold is_u8 in Hc; lia).
  destruct (lut_walk_spec huffman_root _ _ _ _ _ (symbol_found c Hr)) as [_ Hw].
  rewrite <- app_assoc, (Hw AtRoot) by done. rewrite (proj2 (Z.eqb_neq c 256)) by (unfold is_u8 in Hc; lia).
  rewrite Nat.sub_0_r, drop_all. cbn [app]. rewrite IH by done. by rewrite <- app_assoc.
Qed.

(** The end of a decoding: at the root, or where ones lead on to EOS. *)
Definition end_ok (p : hpos) : bool := match p with AtRoot => true | Below t => leads_to_eos t end.

Lemma leads_to_eos_walk : forall t c,
  leads_to_eos t = true -> symbol_of t = None ->
  exists j, lut_walk t (replicate j true) c = Some (256, (c + j)%nat).
Proof.
  fix IH 1. intros [s c0 [n|]] c H Hs; cbn [symbol_of] in Hs; subst s; [|done].
  cbn [leads_to_eos] in H. destruct (symbol_of n) as [s1|] eqn:En.
  - exists 1%nat. cbn [replicate lut_walk child]. rewrite En.
    assert (s1 = 256) as -> by (destruct n; cbn in En; subst; by apply Z.eqb_eq in H).
    do 2 f_equal. lia.
  - destruct (IH n (S c) H En) as [j Hj]. exists (S j).
    cbn [replicate lut_walk child]. rewrite En, Hj. do 2 f_equal. lia.
Qed.

Lemma ones_end : forallb (fun k =>
  match walk huffman_root AtRoot (replicate k true) [] with
  | Some ([], p) => end_ok p | _ => false end) (seq 0 30) = true.
Proof. vm_compute. reflexivity. Qed.

Lemma walk_out root bits : forall pos out r p,
  walk root pos bits out = Some (r, p) -> forall out', exists s, r = out ++ s /\
    walk root pos bits out' = Some (out' ++ s, p).
Proof.
  induction bits as [|b bits IH]; intros pos out r p H out'; cbn [walk] in *.
  { injection H as <- <-. exists []. by rewrite !app_nil_r. }
  destruct (child _ b) as [n|]; [|done]. destruct (symbol_of n) as [s|].
  - destruct (s =? 256); [done|]. destruct (IH _ _ _ _ H (out' ++ [s])) as (s' & -> & ->).
    exists (s :: s'). by rewrite <- !app_assoc.
  - exact (IH _ _ _ _ H out').
Qed.

Lemma walk_ones k out :
  (k < 30)%nat -> exists p, walk huffman_root AtRoot (replicate k true) out = Some (out, p) /\ end_ok p = true.
Proof.
  intros Hk. pose proof (proj1 (forallb_forall _ _) ones_end k ltac:(apply in_seq; lia)) as H.
  cbv beta in H. destruct (walk huffman_root AtRoot (replicate k true) []) as [[r p]|] eqn:E; [|done].
  destruct r; [|done]. exists p. split; [|done].
  destruct (walk_out _ _ _ _ _ _ E out) as (s & Hs & ->). cbn in Hs. subst s. by rewrite app_nil_r.
Qed.

Lemma eos_code : symbol_code 256 = replicate 30 true.
Proof. vm_compute. reflexivity. Qed.

#[local] Opaque huffman_root.

(** The bits left after the last symbol are ones, fewer than EOS has. *)
Lemma padding_ones rest out p :
  lut_walk huffman_root rest 0 = None -> walk huffman_root AtRoot rest out = Some (out, p) ->
  end_ok p = true -> exists k, (k < 30)%nat /\ rest = replicate k true.
Proof.
  intros Hl Hw He. destruct rest as [|b rest]; [by exists 0%nat; split; [lia|]|].
  pose proof (walk_inside huffman_root (b :: rest) huffman_root AtRoot out eq_refl Hl) as Hin.
  destruct Hin as [Hn|(p' & Hw' & _ & Hc & Hm)]; [rewrite Hn in Hw; discriminate Hw|].
  rewrite Hw' in Hw. injection Hw as ->.
  destruct (Hc ltac:(done)) as (t & -> & Ht). cbn [end_ok] in He.
  set (bits := b :: rest) in *.
  destruct (leads_to_eos_walk t (length bits) He Ht) as [j Hj].
  assert (Hall : exists k, lut_walk huffman_root (bits ++ replicate j true) 0 = Some (256, k) /\
    k = (length bits + j)%nat).
  { exists (length bits + j)%nat. split; [|done]. rewrite (Hm (replicate j true) 0%nat). exact Hj. }
  destruct Hall as (k & Hk & ->). pose proof (lut_walk_spec huffman_root _ _ _ _ _ Hk) as [_ _].
  apply lut_walk_code in Hk as [Hcode _].
  rewrite take_ge in Hcode by (rewrite length_app, length_replicate; lia). rewrite eos_code in Hcode.
  assert (Hlen : (length bits + j = 30)%nat)
    by (apply (f_equal length) in Hcode; by rewrite length_app, !length_replicate in Hcode).
  assert (Hj0 : (0 < j)%nat) by (destruct j; [cbn in Hj; done|lia]).
  exists (length bits). split; [lia|]. apply (f_equal (take (length bits))) in Hcode.
  rewrite take_app_length, take_replicate, Nat.min_l in Hcode by lia. done.
Qed.

(** ** Lemmas: integers *)

Lemma rd_app_here pre b l : rd (pre ++ b :: l) (length pre) = b.
Proof. rewrite rd_app_r by lia. by rewrite Nat.sub_diag. Qed.

(** The continuation bytes as a reference: seven bits each, lowest first. *)
Fixpoint varint (fuel : nat) (v : Z) : bytes :=
  match fuel with
  | O => []
  | S fuel => if 128 <=? v then (128 + v mod 128) :: varint fuel (v / 128) else [v]
  end.

Lemma pow128_S k : 128 ^ Z.of_nat (S k) = 128 * 128 ^ Z.of_nat k.
Proof. rewrite Nat2Z.inj_succ, Z.pow_succ_r by lia. done. Qed.

Lemma varint_spec fuel : forall v,
  0 <= v < 128 ^ Z.of_nat fuel -> (0 < fuel)%nat ->
  (1 <= length (varint fuel v) <= fuel)%nat /\ bytes_ok (varint fuel v).
Proof.
  induction fuel as [|fuel IH]; intros v Hv Hf; [lia|]. rewrite pow128_S in Hv. cbn [varint].
  destruct (Z.leb_spec 128 v); cbn [length].
  - destruct fuel as [|fuel]; [cbn in Hv; lia|].
    destruct (IH (v / 128) ltac:(zlia) ltac:(lia)) as [H1 H2].
    split; [lia|]. constructor; [mlia|done].
  - split; [lia|]. constructor; [mlia|constructor].
Qed.

Lemma continuation_byte v : 0 <= v -> Z.lor (Z.land v 127) 128 = 128 + v mod 128.
Proof.
  intros Hv. rewrite (land_mask v 7 127), Z.lor_comm by (lia || done). change (2 ^ 7) with 128.
  apply (lor_add_above 128 (v mod 128) 7); [lia|done|]. change (2 ^ 7) with 128. zlia.
Qed.

Lemma encode_rest_spec cap fuel : forall i v out,
  0 <= v < 128 ^ Z.of_nat fuel -> (0 < fuel)%nat ->
  let tail := varint fuel v in
  if (i + length tail <=? cap)%nat
  then encode_rest fuel cap i v out = (Some (out ++ tail), (i + length tail)%nat)
  else encode_rest fuel cap i v out = (None, Nat.max i cap).
Proof.
  induction fuel as [|fuel IH]; intros i v out Hv Hf; [lia|]. rewrite pow128_S in Hv.
  cbn [varint encode_rest]. cbv zeta. destruct (Z.leb_spec 128 v); cbn [length].
  - destruct fuel as [|fuel]; [cbn in Hv; lia|].
    pose proof (IH (i + 1)%nat (v / 128) (out ++ [128 + v mod 128]) ltac:(zlia) ltac:(lia)) as H1.
    cbv zeta in H1. replace (i + 1 + length (varint (S fuel) (v / 128)))%nat
      with (i + S (length (varint (S fuel) (v / 128))))%nat in H1 by lia.
    pose proof (proj1 (varint_spec (S fuel) (v / 128) ltac:(zlia) ltac:(lia))) as Hlen.
    rewrite continuation_byte, (shiftr_div v 7 128) by (lia || done).
    destruct (Nat.leb_spec (i + S (length (varint (S fuel) (v / 128)))) cap) as [Hc|Hc].
    + rewrite (proj2 (Nat.leb_gt cap i)), H1, <- app_assoc by lia. done.
    + destruct (Nat.leb_spec cap i); [f_equal; lia|]. rewrite H1. f_equal; lia.
  - rewrite u8_id by mlia.
    destruct (Nat.leb_spec (i + 1) cap); destruct (Nat.leb_spec cap i); try lia; [done|].
    f_equal; lia.
Qed.

Lemma last_flag r : 0 <= r < 128 -> Z.land r 128 = 0.
Proof.
  intros Hr. change 128 with (Z.shiftl 1 7). rewrite Z.land_comm.
  apply land_shiftl_small; [lia|]. change (2 ^ 7) with 128. lia.
Qed.

Lemma continuation_flag r : 0 <= r < 128 -> Z.land (128 + r) 128 = 128.
Proof.
  intros Hr. replace (128 + r) with (Z.lor 128 r)
    by (apply (lor_add_above 128 r 7); [lia|done|change (2 ^ 7) with 128; lia]).
  rewrite Z.land_lor_distr_l, (last_flag r Hr). reflexivity.
Qed.

(** A continuation byte adds its seven bits. *)
Lemma u32_step n b v m :
  0 <= m -> u32 (u32 (n + u32 (b * 2 ^ m)) + v * 2 ^ (m + 7)) = u32 (n + (b + 128 * v) * 2 ^ m).
Proof.
  intros Hm. unfold u32. rewrite Z.add_mod_idemp_l, <- Z.add_assoc, <- (Z.add_mod_idemp_r n) by lia.
  rewrite Z.add_mod_idemp_l, Z.add_mod_idemp_r, Z.pow_add_r by lia. f_equal. lia.
Qed.

Lemma int_loop_varint f : forall v fuel pre rest n m,
  0 <= v < 128 ^ Z.of_nat f -> (0 < f)%nat -> (length (varint f v) <= fuel)%nat -> 0 <= m ->
  m + 7 * (Z.of_nat (length (varint f v)) - 1) <= 28 ->
  int_loop fuel (pre ++ varint f v ++ rest) (length pre) n m =
  Some (u32 (n + v * 2 ^ m), (length pre + length (varint f v))%nat).
Proof.
  induction f as [|f IH]; intros v fuel pre rest n m Hv Hf Hfuel Hm Hl; [lia|].
  pose proof (proj1 (varint_spec (S f) v Hv Hf)) as Hlen0.
  rewrite pow128_S in Hv. destruct fuel as [|fuel]; [lia|]. cbn [varint] in *.
  destruct (Z.leb_spec 128 v) as [Hge|Hlt]; cbn [int_loop app length] in *;
    rewrite (proj2 (Nat.leb_gt _ _)) by (rewrite length_app; cbn [length]; lia);
    rewrite rd_app_here.
  - destruct f as [|f]; [cbn in Hv; lia|].
    pose proof (proj1 (varint_spec (S f) (v / 128) ltac:(zlia) ltac:(lia))) as Hlen.
    rewrite (proj2 (Z.ltb_ge _ _)) by lia.
    rewrite (land_mask (128 + v mod 128) 7 127) by (lia || done). change (2 ^ 7) with 128.
    replace ((128 + v mod 128) mod 128) with (v mod 128) by zlia.
    rewrite continuation_flag by zlia. cbn [Z.eqb]. rewrite Z.shiftl_mul_pow2 by lia.
    specialize (IH (v / 128) fuel (pre ++ [128 + v mod 128]) rest
      (u32 (n + u32 (v mod 128 * 2 ^ m))) (m + 7) ltac:(zlia) ltac:(lia) ltac:(lia) ltac:(lia) ltac:(lia)).
    rewrite <- app_assoc, length_app in IH. cbn [app length] in IH. rewrite IH, u32_step by lia.
    f_equal. f_equal; [|lia]. do 2 f_equal. f_equal. zlia.
  - rewrite (proj2 (Z.ltb_ge _ _)) by lia.
    rewrite (land_mask v 7 127) by (lia || done). change (2 ^ 7) with 128.
    rewrite (Z.mod_small v) by lia.
    rewrite last_flag by lia. cbn [Z.eqb]. rewrite Z.shiftl_mul_pow2 by lia. f_equal. f_equal.
    pose proof (u32_step n v 0 m Hm) as H. rewrite Z.mul_0_l, Z.mul_0_r, !Z.add_0_r in H.
    unfold u32 in *. by rewrite Z.mod_mod in H by lia.
Qed.

(** The prefix and the encoding the integer has in [6] bytes. *)
Definition prefix_mask (p : Z) : Z := u8 (Z.shiftl 1 p - 1).
Definition integer_code (first v p : Z) : bytes :=
  let hi := Z.ldiff first (prefix_mask p) in
  if v <? prefix_mask p then [hi + v]
  else (hi + prefix_mask p) :: varint 6 (v - prefix_mask p).

Lemma prefix_mask_eq p : 1 <= p <= 8 -> prefix_mask p = 2 ^ p - 1.
Proof.
  intros Hp. unfold prefix_mask. rewrite Z.shiftl_mul_pow2, Z.mul_1_l, u8_id by
    (try lia; assert (p = 1 \/ p = 2 \/ p = 3 \/ p = 4 \/ p = 5 \/ p = 6 \/ p = 7 \/ p = 8)
      as [->|[->|[->|[->|[->|[->|[->| ->]]]]]]] by lia; mlia).
  done.
Qed.

Lemma ldiff_prefix first p :
  1 <= p <= 8 -> is_u8 first ->
  Z.ldiff first (prefix_mask p) = first / 2 ^ p * 2 ^ p /\
  0 <= first / 2 ^ p * 2 ^ p <= 255 - prefix_mask p.
Proof.
  intros Hp Hf. rewrite prefix_mask_eq by done.
  replace (2 ^ p - 1) with (Z.ones p) by (rewrite Z.ones_equiv; lia).
  rewrite Z.ldiff_ones_r, Z.shiftl_mul_pow2, Z.shiftr_div_pow2 by lia. split; [done|].
  rewrite Z.ones_equiv.
  assert (p = 1 \/ p = 2 \/ p = 3 \/ p = 4 \/ p = 5 \/ p = 6 \/ p = 7 \/ p = 8)
      as [->|[->|[->|[->|[->|[->|[->| ->]]]]]]] by lia;
    match goal with |- context [2 ^ ?p] => let n := eval vm_compute in (2 ^ p) in
      change (2 ^ p) with n end; mlia.
Qed.

Lemma lor_prefix first v p :
  1 <= p <= 8 -> is_u8 first -> 0 <= v <= prefix_mask p ->
  Z.lor (Z.ldiff first (prefix_mask p)) v = Z.ldiff first (prefix_mask p) + v.
Proof.
  intros Hp Hf Hv. rewrite (proj1 (ldiff_prefix first p Hp Hf)).
  rewrite prefix_mask_eq in Hv by done. apply (lor_add_above _ v p); [lia| |lia].
  apply Z.mod_mul. lia.
Qed.

Lemma land_prefix first v p :
  1 <= p <= 8 -> is_u8 first -> 0 <= v <= prefix_mask p ->
  Z.land (Z.ldiff first (prefix_mask p) + v) (prefix_mask p) = v.
Proof.
  intros Hp Hf Hv. rewrite (proj1 (ldiff_prefix first p Hp Hf)).
  rewrite (land_mask _ p) by (try lia; rewrite prefix_mask_eq, Z.ones_equiv by done; lia).
  rewrite Z.add_comm, Z.mod_add by lia. apply Z.mod_small. rewrite prefix_mask_eq in Hv by done. lia.
Qed.

Lemma prefix_mask_range p : 1 <= p <= 8 -> 1 <= prefix_mask p <= 255.
Proof.
  intros Hp. rewrite prefix_mask_eq by done.
  assert (2 ^ 1 <= 2 ^ p <= 2 ^ 8) by (split; apply Z.pow_le_mono_r; lia).
  change (2 ^ 1) with 2 in *. change (2 ^ 8) with 256 in *. lia.
Qed.

Lemma h2_encode_integer_spec first cap v p :
  is_u8 first -> is_u32 v -> 1 <= p <= 8 ->
  let code := integer_code first v p in
  h2_encode_integer first cap v p =
    if (length code <=? Nat.max 1 cap)%nat then (Some code, length code) else (None, Nat.max 1 cap).
Proof.
  intros Hf Hv Hp. unfold h2_encode_integer, integer_code. fold (prefix_mask p). cbv zeta.
  pose proof (prefix_mask_range p Hp) as Hm.
  destruct (Z.ltb_spec v (prefix_mask p)).
  - rewrite lor_prefix by (done || mlia). cbn [length]. by rewrite (proj2 (Nat.leb_le _ _)) by lia.
  - rewrite lor_prefix by (done || lia).
    pose proof (encode_rest_spec cap 6 1 (v - prefix_mask p) [Z.ldiff first (prefix_mask p) + prefix_mask p])
      as He. cbv zeta in He. specialize (He ltac:(change (128 ^ Z.of_nat 6) with 4398046511104; mlia) ltac:(lia)).
    pose proof (proj1 (varint_spec 6 (v - prefix_mask p)
      ltac:(change (128 ^ Z.of_nat 6) with 4398046511104; mlia) ltac:(lia))) as Hl.
    cbn [length]. destruct (Nat.leb_spec (1 + length (varint 6 (v - prefix_mask p))) cap).
    + rewrite He. by rewrite (proj2 (Nat.leb_le _ _)) by lia.
    + rewrite He. by rewrite (proj2 (Nat.leb_gt _ _)) by lia.
Qed.

Lemma varint_5 v : is_u32 v -> (length (varint 6 v) <= 5)%nat.
Proof.
  intros Hv. unfold is_u32 in Hv. cbn [varint].
  repeat match goal with |- context [128 <=? ?x] => destruct (Z.leb_spec 128 x); [cbn [length]|cbn [length]; lia] end.
  exfalso. zlia.
Qed.

Lemma h2_decode_integer_code pre first v p rest :
  is_u8 first -> is_u32 v -> 1 <= p <= 8 ->
  let code := integer_code first v p in
  h2_decode_integer (pre ++ code ++ rest) (length pre) p =
    Some (v, (length pre + length code)%nat).
Proof.
  intros Hf Hv Hp. unfold h2_decode_integer, integer_code. cbv zeta. fold (prefix_mask p).
  pose proof (prefix_mask_range p Hp) as Hm.
  rewrite (proj2 (Z.eqb_neq p 0)), (proj2 (Z.ltb_ge 8 p)) by lia.
  destruct (Z.ltb_spec v (prefix_mask p)) as [Hlt|Hge]; cbn [app length];
    rewrite (proj2 (Nat.leb_gt _ _)) by (rewrite length_app; cbn [length]; lia); cbn [orb];
    rewrite rd_app_here, land_prefix by (done || mlia).
  - by rewrite (proj2 (Z.ltb_lt _ _)).
  - rewrite Z.ltb_irrefl. set (w := v - prefix_mask p).
    assert (Hw : is_u32 w) by (unfold w; mlia).
    assert (Hwp : 0 <= w < 128 ^ Z.of_nat 6) by (change (128 ^ Z.of_nat 6) with 4398046511104; mlia).
    pose proof (varint_5 w Hw) as H5. pose proof (varint_spec 6 w Hwp ltac:(lia)) as [H6 _].
    pose proof (int_loop_varint 6 w
      (length (pre ++ (Z.ldiff first (prefix_mask p) + prefix_mask p) :: varint 6 w ++ rest))
      (pre ++ [Z.ldiff first (prefix_mask p) + prefix_mask p]) rest (prefix_mask p) 0 Hwp ltac:(lia)
      ltac:(rewrite length_app; cbn [length]; rewrite length_app; lia) ltac:(lia) ltac:(lia)) as Hi.
    rewrite <- app_assoc, (length_app pre [_]) in Hi. cbn [app length] in Hi. rewrite Hi.
    f_equal. f_equal; [|lia]. rewrite Z.pow_0_r, Z.mul_1_r. unfold w.
    replace (prefix_mask p + (v - prefix_mask p)) with v by lia. by apply u32_id.
Qed.

Lemma integer_code_ok first v p :
  is_u8 first -> is_u32 v -> 1 <= p <= 8 ->
  (1 <= length (integer_code first v p) <= 6)%nat /\ bytes_ok (integer_code first v p).
Proof.
  intros Hf Hv Hp. unfold integer_code. cbv zeta. pose proof (prefix_mask_range p Hp).
  pose proof (ldiff_prefix first p Hp Hf) as [-> Hh].
  destruct (Z.ltb_spec v (prefix_mask p)); cbn [length].
  - split; [lia|]. constructor; [mlia|constructor].
  - assert (Hw : is_u32 (v - prefix_mask p)) by mlia.
    pose proof (varint_5 _ Hw). destruct (varint_spec 6 (v - prefix_mask p)
      ltac:(change (128 ^ Z.of_nat 6) with 4398046511104; mlia) ltac:(lia)).
    split; [lia|]. constructor; [mlia|done].
Qed.

Lemma integer_code_flags first v p :
  is_u8 first -> is_u32 v -> 1 <= p <= 8 ->
  Z.ldiff (hd 0 (integer_code first v p)) (prefix_mask p) = Z.ldiff first (prefix_mask p).
Proof.
  intros Hf Hv Hp. unfold integer_code. cbv zeta.
  pose proof (prefix_mask_range p Hp).
  destruct (Z.ltb_spec v (prefix_mask p)); cbn [hd];
    rewrite <- (lor_prefix first _ p) by (done || mlia).
  - apply Z.bits_inj'. intros i Hi. rewrite !Z.ldiff_spec, Z.lor_spec, Z.ldiff_spec.
    pose proof (land_prefix first v p Hp Hf ltac:(mlia)) as Hl.
    rewrite <- (lor_prefix first v p) in Hl by (done || mlia).
    apply (f_equal (fun x => Z.testbit x i)) in Hl. rewrite Z.land_spec, Z.lor_spec, Z.ldiff_spec in Hl.
    destruct (Z.testbit first i), (Z.testbit v i), (Z.testbit (prefix_mask p) i); done.
  - apply Z.bits_inj'. intros i Hi. rewrite !Z.ldiff_spec, Z.lor_spec, Z.ldiff_spec.
    by destruct (Z.testbit first i), (Z.testbit (prefix_mask p) i).
Qed.

(** A decoded integer is 32-bit and lies in the buffer. *)
Lemma int_loop_pos fuel : forall buf pos n m v pos',
  int_loop fuel buf pos n m = Some (v, pos') -> (pos < pos' <= length buf)%nat /\ is_u32 v.
Proof.
  induction fuel as [|fuel IH]; intros buf pos n m v pos' H; cbn [int_loop] in H; [done|].
  destruct (Nat.leb_spec (length buf) pos); [done|]. destruct (28 <? m); [done|].
  destruct (_ =? 0).
  - injection H as <- <-. split; [lia|apply u32_range].
  - apply IH in H as [H1 H2]. split; [lia|done].
Qed.

Lemma h2_decode_integer_pos buf pos p v pos' :
  bytes_ok buf -> h2_decode_integer buf pos p = Some (v, pos') ->
  (pos < pos' <= length buf)%nat /\ is_u32 v.
Proof.
  intros Hok H. unfold h2_decode_integer in H.
  destruct (Nat.leb_spec (length buf) pos); [done|]. cbn [orb] in H.
  destruct (_ || _); [done|]. destruct (_ <? _).
  - injection H as <- <-. split; [lia|]. pose proof (bytes_ok_rd buf pos Hok) as Hb. unfold is_u8 in Hb.
    split; [apply Z.land_nonneg; lia|].
    destruct (decide (Z.land (rd buf pos) (u8 (Z.shiftl 1 p - 1)) = 0)) as [->|Hz]; [lia|].
    pose proof (Z.land_nonneg (rd buf pos) (u8 (Z.shiftl 1 p - 1))) as Hnn.
    change 4294967296 with (2 ^ 32). apply Z.log2_lt_pow2; [lia|].
    pose proof (Z.log2_land (rd buf pos) (u8 (Z.shiftl 1 p - 1)) ltac:(lia)
      ltac:(pose proof (u8_range (Z.shiftl 1 p - 1)); mlia)).
    assert (Z.log2 (rd buf pos) < 32).
    { destruct (decide (rd buf pos = 0)) as [->|]; [done|]. apply Z.log2_lt_pow2; [lia|].
      change (2 ^ 32) with 4294967296. lia. }
    lia.
  - apply int_loop_pos in H as [H1 H2]. split; [lia|done].
Qed.

Lemma h2_decode_string_pos buf pos o s pos' o' :
  bytes_ok buf -> h2_decode_string_counted buf pos o = (Some (s, pos'), o') ->
  (pos < pos' <= length buf)%nat.
Proof.
  intros Hok H. unfold h2_decode_string_counted in H.
  destruct (Nat.leb_spec (length buf) pos); [done|].
  destruct (h2_decode_integer buf pos 7) as [[n p1]|] eqn:E; [|done].
  apply h2_decode_integer_pos in E as [E1 E2]; [|done]. unfold is_u32 in E2.
  destruct (Z.ltb_spec (Z.of_nat (length buf)) (Z.of_nat p1 + n)); [done|].
  destruct (negb _).
  - destruct (h2_huffman_decode _ o) as [[out|] o1]; [|done]. injection H as _ <- _. lia.
  - destruct (alloc o) as [[] o1]; [|done]. injection H as _ <- _. lia.
Qed.

(** Nothing decodes to more than eight symbols per byte. *)
Lemma huffman_loop_length fuel : forall root src buf cnt pos out cap o out' p' o',
  huffman_loop fuel root src buf cnt pos out cap o = (Some (out', p'), o') ->
  (length out' <= length out + fuel)%nat.
Proof.
  induction fuel as [|fuel IH]; intros root src buf cnt pos out cap o out' p' o'; cbn [huffman_loop]; [done|].
  assert (Hemit : forall out cap sym o out1 cap1 o1,
    emit_symbol out cap sym o = (Some (out1, cap1), o1) -> length out1 = S (length out)).
  { intros u c x q u1 c1 q1. unfold emit_symbol. destruct (_ <=? _)%nat.
    - destruct (alloc q) as [[] q2]; intros; simplify_eq. rewrite length_app. cbn. lia.
    - intros; simplify_eq. rewrite length_app. cbn. lia. }
  destruct (_ && _); [intros; simplify_eq; lia|].
  destruct (refill src buf cnt) as [[src1 buf1] cnt1].
  destruct (match pos with AtRoot => _ | Below _ => None end) as [[sym bits]|].
  - destruct (sym =? 256); [done|].
    destruct (emit_symbol out cap sym o) as [[[u c]|] q] eqn:Ee; [|done].
    intros H. apply IH in H. apply Hemit in Ee. lia.
  - destruct cnt1 as [|cnt1]; [intros; simplify_eq; lia|].
    destruct (child _ _) as [n|]; [|done]. destruct (symbol_of n) as [sym|].
    + destruct (sym =? 256); [done|].
      destruct (emit_symbol out cap sym o) as [[[u c]|] q] eqn:Ee; [|done].
      intros H. apply IH in H. apply Hemit in Ee. lia.
    + intros H. apply IH in H. lia.
Qed.

Lemma h2_decode_string_length buf pos o s pos' o' :
  h2_decode_string_counted buf pos o = (Some (s, pos'), o') -> (length s <= 8 * length buf + 1)%nat.
Proof.
  unfold h2_decode_string_counted. destruct (_ <=? _)%nat; [done|].
  destruct (h2_decode_integer buf pos 7) as [[n p]|]; [|done]. destruct (_ <? _); [done|].
  assert (Hl : (length (sub buf p (Z.to_nat n)) <= length buf)%nat)
    by (unfold sub; rewrite length_take, length_drop; lia).
  destruct (negb _).
  - unfold h2_huffman_decode. destruct h2_huffman_init as [root|]; [|done].
    destruct (alloc o) as [[] o1]; [|done].
    destruct (huffman_loop _ _ _ _ _ _ _ _ _) as [[[out q]|] o2] eqn:El; [|done].
    apply huffman_loop_length in El. cbn [length] in El.
    destruct q as [|t]; [|destruct (leads_to_eos t)]; intros; simplify_eq; lia.
  - destruct (alloc o) as [[] o1]; [|done]. intros; simplify_eq. lia.
Qed.

(** ** Lemmas: strings *)

Definition literal_code (str : bytes) : bytes := integer_code 0 (blen str) 7 ++ str.

(** The literal when it fits; otherwise at most one byte past the capacity is
    touched, and only a capacity of 0 lets that happen. *)
Lemma h2_encode_string_spec cap str :
  blen str < 4294967296 ->
  h2_encode_string cap str =
    if (length (literal_code str) <=? cap)%nat then (Some (literal_code str), length (literal_code str))
    else (None, Nat.max 1 (Nat.min cap (length (integer_code 0 (blen str) 7)))).
Proof.
  intros Hs. assert (Hu : is_u32 (blen str)) by (unfold blen in *; mlia).
  unfold h2_encode_string. rewrite u32_id, h2_encode_integer_spec by (done || mlia).
  unfold literal_code. rewrite length_app.
  pose proof (proj1 (integer_code_ok 0 (blen str) 7 ltac:(mlia) Hu ltac:(lia))) as Hl.
  set (hdr := integer_code 0 (blen str) 7) in *.
  destruct (Nat.leb_spec (length hdr) (Nat.max 1 cap)), (Nat.leb_spec (length hdr + length str) cap);
    try lia.
  - by rewrite (proj2 (Nat.ltb_ge _ _)).
  - rewrite (proj2 (Nat.ltb_lt _ _)) by lia. f_equal. lia.
  - f_equal. lia.
Qed.

Lemma h2_decode_string_literal pre str rest o :
  bytes_ok str -> blen str < 4294967296 ->
  h2_decode_string_counted (pre ++ literal_code str ++ rest) (length pre) o =
  let '(ok, o) := alloc o in
  ((if ok then Some (str, (length pre + length (literal_code str))%nat) else None), o).
Proof.
  intros Hok Hs. assert (Hu : is_u32 (blen str)) by (unfold blen in *; mlia).
  unfold h2_decode_string_counted, literal_code. rewrite <- app_assoc.
  pose proof (integer_code_ok 0 (blen str) 7 ltac:(mlia) Hu ltac:(lia)) as [Hl _].
  pose proof (integer_code_flags 0 (blen str) 7 ltac:(mlia) Hu ltac:(lia)) as Hfl.
  rewrite (h2_decode_integer_code pre 0 (blen str) 7 (str ++ rest)) by (done || lia || mlia).
  set (hdr := integer_code 0 (blen str) 7) in *.
  rewrite (proj2 (Nat.leb_gt _ _)) by (rewrite !length_app; lia).
  assert (Hflag : Z.land (rd (pre ++ hdr ++ str ++ rest) (length pre)) 128 = 0).
  { destruct hdr as [|b hdr]; [cbn in Hl; lia|]. rewrite <- app_comm_cons, rd_app_here. cbn [hd] in Hfl.
    apply Z.bits_inj'. intros i Hi. rewrite Z.land_spec, Z.bits_0.
    destruct (decide (i = 7)) as [->|].
    - apply (f_equal (fun x => Z.testbit x 7)) in Hfl. rewrite !Z.ldiff_spec, Z.bits_0 in Hfl.
      change (Z.testbit (prefix_mask 7) 7) with false in Hfl. cbn [negb andb] in Hfl.
      rewrite andb_true_r in Hfl. by rewrite Hfl.
    - change 128 with (2 ^ 7). rewrite Z.pow2_bits_false by lia. apply andb_false_r. }
  rewrite Hflag. cbn [Z.eqb negb].
  rewrite (proj2 (Z.ltb_ge _ _)) by (rewrite !length_app; unfold blen; lia).
  unfold blen. rewrite !Nat2Z.id.
  replace (sub (pre ++ hdr ++ str ++ rest) (length pre + length hdr) (length str)) with str.
  2: { unfold sub. rewrite (app_assoc pre), <- length_app, drop_app_length. by rewrite take_app_length. }
  destruct (alloc o) as [[] o']; [|done]. rewrite length_app. do 3 f_equal. lia.
Qed.

(** Decoding uses no memory outcome when none is left to choose. *)
Lemma h2_huffman_decode_nil src : bytes_ok src -> (h2_huffman_decode src []).2 = [].
Proof.
  intros Hok. unfold h2_huffman_decode. rewrite huffman_init_ok. cbn [alloc].
  rewrite (huffman_loop_spec huffman_root) by
    (first [done | lia | cbn [code_bits app]; rewrite length_src_bits; lia]).
  by destruct (walk _ _ _ _) as [[out [|t]]|].
Qed.

Lemma h2_decode_string_nil buf pos : bytes_ok buf -> (h2_decode_string_counted buf pos []).2 = [].
Proof.
  intros Hok. unfold h2_decode_string_counted. destruct (_ <=? _)%nat; [done|].
  destruct (h2_decode_integer buf pos 7) as [[n p]|]; [|done]. destruct (_ <? _); [done|].
  destruct (negb _); [|done].
  pose proof (h2_huffman_decode_nil (sub buf p (Z.to_nat n))) as H.
  destruct (h2_huffman_decode _ []) as [[out|] o]; cbn [snd] in *; apply H; unfold sub;
    by apply Forall_take, Forall_drop.
Qed.

(** ** Properties *)

(** C16: a prefix integer survives the trip: for every 32-bit value, prefix of 1
    to 8 bits and flag byte, the encoder succeeds exactly when its code (at
    most 6 bytes) fits, reports the extent it wrote, keeps the flag bits above
    the prefix, and the decoder reads the value back wherever the code lies,
    stopping right after it. *)
Theorem integer_roundtrip first v p cap :
  is_u8 first -> is_u32 v -> 1 <= p <= 8 ->
  (exists code, (h2_encode_integer first 6 v p).1 = Some code /\ bytes_ok code /\
     (1 <= length code <= 6)%nat /\
     Z.ldiff (hd 0 code) (prefix_mask p) = Z.ldiff first (prefix_mask p) /\
     h2_encode_integer first cap v p =
       (if (length code <=? Nat.max 1 cap)%nat then (Some code, length code)
        else (None, Nat.max 1 cap)) /\
     forall pre rest, h2_decode_integer (pre ++ code ++ rest) (length pre) p =
       Some (v, (length pre + length code)%nat)).
Proof.
  intros Hf Hv Hp. exists (integer_code first v p).
  destruct (integer_code_ok first v p Hf Hv Hp) as [Hl Hok].
  split; [rewrite h2_encode_integer_spec by done; by rewrite (proj2 (Nat.leb_le _ _)) by lia|].
  split; [done|]. split; [done|]. split; [by apply integer_code_flags|].
  split; [by apply h2_encode_integer_spec|]. intros pre rest. by apply h2_decode_integer_code.
Qed.

Lemma integer_roundtrip_witness :
  h2_encode_integer 0xe0 3 1337 5 = (Some [0xff; 0x9a; 0x0a], 3%nat) /\
  (exists code, (h2_encode_integer 0xe0 6 1337 5).1 = Some code /\ bytes_ok code /\
     (1 <= length code <= 6)%nat /\
     Z.ldiff (hd 0 code) (prefix_mask 5) = Z.ldiff 0xe0 (prefix_mask 5) /\
     h2_encode_integer 0xe0 3 1337 5 =
       (if (length code <=? Nat.max 1 3)%nat then (Some code, length code)
        else (None, Nat.max 1 3)) /\
     forall pre rest, h2_decode_integer (pre ++ code ++ rest) (length pre) 5 =
       Some (1337, (length pre + length code)%nat)).
Proof.
  split; [vm_compute; reflexivity|].
  exact (integer_roundtrip 0xe0 1337 5 3 ltac:(mlia) ltac:(mlia) ltac:(lia)).
Defined.

(** A string literal survives the trip: it is written exactly when length
    prefix and bytes fit the capacity, and decoding it anywhere in a block
    gives the bytes back and the position after them, if memory for them can be
    had.  A refusal touches at most the capacity, or one byte when the capacity
    is 0. *)
Theorem string_roundtrip cap str :
  bytes_ok str -> blen str < 4294967296 ->
  (exists code, (h2_encode_string (length str + 6) str).1 = Some code /\
     h2_encode_string cap str =
       (if (length code <=? cap)%nat then (Some code, length code)
        else (None, (h2_encode_string cap str).2)) /\
     ((h2_encode_string cap str).2 <= Nat.max 1 cap)%nat /\
     forall pre rest o, h2_decode_string_counted (pre ++ code ++ rest) (length pre) o =
       ((if (alloc o).1 then Some (str, (length pre + length code)%nat) else None), (alloc o).2)).
Proof.
  intros Hok Hs. exists (literal_code str). pose proof Hs as Hu%(fun H => h2_encode_string_spec cap str H).
  assert (Hl : (length (literal_code str) <= length str + 6)%nat).
  { unfold literal_code. rewrite length_app.
    pose proof (proj1 (integer_code_ok 0 (blen str) 7 ltac:(mlia) ltac:(unfold blen in *; mlia) ltac:(lia))).
    lia. }
  split; [rewrite h2_encode_string_spec by done; by rewrite (proj2 (Nat.leb_le _ _))|].
  split; [|split].
  - rewrite Hu. by destruct (_ <=? _)%nat.
  - rewrite Hu. destruct (Nat.leb_spec (length (literal_code str)) cap); cbn [snd]; lia.
  - intros pre rest o. rewrite h2_decode_string_literal by done. by destruct (alloc o) as [[] o'].
Qed.

Lemma string_roundtrip_witness :
  (h2_encode_string 4 (bs "abc")).1 = Some (3 :: bs "abc") /\
  (exists code, (h2_encode_string (length (bs "abc") + 6) (bs "abc")).1 = Some code /\
     h2_encode_string 4 (bs "abc") =
       (if (length code <=? 4)%nat then (Some code, length code)
        else (None, (h2_encode_string 4 (bs "abc")).2)) /\
     ((h2_encode_string 4 (bs "abc")).2 <= Nat.max 1 4)%nat /\
     forall pre rest o, h2_decode_string_counted (pre ++ code ++ rest) (length pre) o =
       ((if (alloc o).1 then Some (bs "abc", (length pre + length code)%nat) else None), (alloc o).2)).
Proof.
  split; [vm_compute; reflexivity|].
  apply (string_roundtrip 4 (bs "abc")); [apply bytes_okb_ok; reflexivity|reflexivity].
Defined.

(** C15: the Huffman decoder accepts exactly the codings of RFC 7541's table:
    [src] decodes to [s] when its bits are the codes of the bytes of [s]
    followed by fewer than 30 ones, and to nothing otherwise; the lookup table,
    the 32-bit window and the growth of the buffer change nothing.  (The RFC
    allows at most 7 bits of padding; the decoder does not check that.) *)
Theorem huffman_decode_spec src s :
  bytes_ok src ->
  ((h2_huffman_decode src []).1 = Some s <->
   bytes_ok s /\ exists k, (k < 30)%nat /\ src_bits src = string_code s ++ replicate k true).
Proof.
  intros Hok. unfold h2_huffman_decode. rewrite huffman_init_ok. cbn [alloc].
  rewrite (huffman_loop_spec huffman_root) by
    (first [done | lia | cbn [code_bits app]; rewrite length_src_bits; lia]).
  cbn [code_bits app].
  assert (Hfst : (match walk huffman_root AtRoot (src_bits src) [] with
      | Some (out, p) => if end_ok p then Some out else None | None => None end) = Some s <->
    bytes_ok s /\ exists k, (k < 30)%nat /\ src_bits src = string_code s ++ replicate k true).
  2: { rewrite <- Hfst. destruct (walk _ _ _ _) as [[out [|t]]|]; done. }
  split.
  - destruct (walk huffman_root AtRoot (src_bits src) []) as [[r p]|] eqn:Ew; [|done].
    destruct (end_ok p) eqn:Ee; [|done]. intros [= ->].
    destruct (walk_spells _ _ _ _ _ (Nat.lt_succ_diag_r _) Ew)
      as (s' & rest & Hs & Hoks & Hbits & Hl & Hw). cbn [app] in Hs. subst s'. split; [done|].
    destruct (padding_ones rest s p Hl Hw Ee) as (k & Hk & ->). by exists k.
  - intros (Hs & k & Hk & ->). rewrite walk_string by done. cbn [app].
    destruct (walk_ones k s Hk) as (p & -> & ->). done.
Qed.

Lemma huffman_decode_spec_witness :
  bytes_ok [0x1f] /\
  ((h2_huffman_decode [0x1f] []).1 = Some (bs "a") <->
   bytes_ok (bs "a") /\ exists k, (k < 30)%nat /\
     src_bits [0x1f] = string_code (bs "a") ++ replicate k true).
Proof.
  split; [apply bytes_okb_ok; reflexivity|].
  apply (huffman_decode_spec [0x1f] (bs "a")). apply bytes_okb_ok. reflexivity.
Defined.

(** ** Observed behaviour *)

(** A string of nothing but padding, 8 bits and more, is the empty string. *)
Example overlong_padding_accepted : h2_huffman_decode [0xff; 0xff; 0xff] [] = (Some [], []).
Proof. vm_compute. reflexivity. Qed.

(** The fifth continuation byte may carry bits past the 32nd: they are lost. *)
Example decode_integer_wraps :
  h2_decode_integer [0x1f; 0x80; 0x80; 0x80; 0x80; 0x70] 0 5 = Some (31, 6%nat).
Proof. vm_compute. reflexivity. Qed.

(** With no room at all the encoder still stores the length byte. *)
Example encode_string_without_room : h2_encode_string 0 (bs "x") = (None, 1%nat).
Proof. vm_compute. reflexivity. Qed.
