(* ===== verification/Hpack.v ===== *)
(** * HPACK decoding and request headers (src/src/net/http/http2.c)

    The static and dynamic tables of RFC 7541, the decoding of a header block,
    and the rules of RFC 9113 a field must satisfy to enter the request.

    The dynamic table is the linked list of the connection, newest entry first,
    with the size counter the code keeps beside it.  A representation is
    decoded first and acted upon afterwards, as in the loop of
    [h2_decode_header_block]; names and values are counted bytes. *)

From S2P Require Import Prelude SipHash QueryMap SimdParser Http1 HpackPrim.

Definition CWIST_HTTP2_HEADER_TABLE_SIZE : Z := 4096.
Definition CWIST_HTTP2_MAX_HEADERS_PER_REQUEST : Z := 256.

(** ** The static table *)

(** The entries 1 to 61. *)
Definition static_table : list (bytes * bytes) := map (fun e => (bs e.1, bs e.2)) [
  (":authority", ""); (":method", "GET"); (":method", "POST"); (":path", "/");
  (":path", "/index.html"); (":scheme", "http"); (":scheme", "https"); (":status", "200");
  (":status", "204"); (":status", "206"); (":status", "304"); (":status", "400");
  (":status", "404"); (":status", "500"); ("accept-charset", "");
  ("accept-encoding", "gzip, deflate"); ("accept-language", ""); ("accept-ranges", "");
  ("accept", ""); ("access-control-allow-origin", ""); ("age", ""); ("allow", "");
  ("authorization", ""); ("cache-control", ""); ("content-disposition", "");
  ("content-encoding", ""); ("content-language", ""); ("content-length", "");
  ("content-location", ""); ("content-range", ""); ("content-type", ""); ("cookie", "");
  ("date", ""); ("etag", ""); ("expect", ""); ("expires", ""); ("from", ""); ("host", "");
  ("if-match", ""); ("if-modified-since", ""); ("if-none-match", ""); ("if-range", "");
  ("if-unmodified-since", ""); ("last-modified", ""); ("link", ""); ("location", "");
  ("max-forwards", ""); ("proxy-authenticate", ""); ("proxy-authorization", ""); ("range", "");
  ("referer", ""); ("refresh", ""); ("retry-after", ""); ("server", ""); ("set-cookie", "");
  ("strict-transport-security", ""); ("transfer-encoding", ""); ("user-agent", "");
  ("vary", ""); ("via", ""); ("www-authenticate", "") ]%string.

(** The number of entries of the C array, which starts with an empty one. *)
Definition static_count : Z := 62.

Definition h2_static_header (index : Z) : option (bytes * bytes) :=
  if (index =? 0) || (static_count <=? index) then None
  else static_table !! Z.to_nat (index - 1).

(** ** The dynamic table *)

Record hpack_entry : Type := MkEntry { he_name : bytes; he_value : bytes; he_size : Z }.
Record hpack_table : Type := MkTable {
  hp_entries : list hpack_entry;
  hp_size : Z;
  hp_capacity : Z
}.
#[export] Instance hpack_table_fields : Fields hpack_table := fun t =>
  MkTable (hp_entries t) (hp_size t) (hp_capacity t).

(** What [h2_conn_init] leaves. *)
Definition hpack_init : hpack_table := MkTable [] 0 CWIST_HTTP2_HEADER_TABLE_SIZE.

Fixpoint evict_loop (fuel : nat) (entries : list hpack_entry) (size limit : Z)
    : list hpack_entry * Z :=
  match fuel with
  | O => (entries, size)
  | S fuel =>
      if limit <? size then
        match list.last entries with
        | Some old => evict_loop fuel (removelast entries) (u32 (size - u32 old.(he_size))) limit
        | None => (entries, size)
        end
      else (entries, size)
  end.

Definition h2_hpack_evict_to (t : hpack_table) (limit : Z) : hpack_table :=
  let '(entries, size) := evict_loop (length t.(hp_entries)) t.(hp_entries) t.(hp_size) limit in
  t <| hp_entries := entries |> <| hp_size := size |>.

(** [while (e && --pos) e = e->next] *)
Fixpoint dynamic_walk (e : list hpack_entry) (pos : Z) : option hpack_entry :=
  match e with
  | [] => None
  | x :: next =>
      let pos := u32 (pos - 1) in
      if pos =? 0 then Some x else dynamic_walk next pos
  end.

Definition h2_hpack_dynamic_get (t : hpack_table) (index : Z) : option hpack_entry :=
  if index <? static_count then None
  else dynamic_walk t.(hp_entries) (u32 (u32 (index - static_count) + 1)).

(** The table afterwards, and whether 0 was returned. *)
Definition h2_hpack_insert (t : hpack_table) (name value : bytes) (o : oracle)
    : bool * hpack_table * oracle :=
  let entry_size := u64 (u64 (blen name + blen value) + 32) in
  if t.(hp_capacity) <? entry_size then (true, h2_hpack_evict_to t 0, o) else
  match alloc o with
  | (false, o) => (false, t, o)
  | (true, o) =>
      let '(n_ok, o) := alloc o in
      let '(v_ok, o) := alloc o in
      if n_ok && v_ok then
        let t := h2_hpack_evict_to t (u32 (t.(hp_capacity) - u32 entry_size)) in
        (true, t <| hp_entries := MkEntry name value entry_size :: t.(hp_entries) |>
                 <| hp_size := u32 (t.(hp_size) + u32 entry_size) |>, o)
      else (false, t, o)
  end.

Definition h2_hpack_set_capacity (t : hpack_table) (new_size : Z) : option hpack_table :=
  if CWIST_HTTP2_HEADER_TABLE_SIZE <? new_size then None
  else Some (h2_hpack_evict_to (t <| hp_capacity := new_size |>) new_size).

(** ** Fields of a request *)

(** The part of a stream the decoder works on. *)
Record h2_target : Type := MkTarget { ht_req : http_request; ht_has_content_length : bool }.
#[export] Instance h2_target_fields : Fields h2_target := fun s =>
  MkTarget (ht_req s) (ht_has_content_length s).

Record h2_header_state : Type := MkHeaderState {
  seen_method : bool; seen_path : bool; seen_scheme : bool; seen_authority : bool;
  seen_regular : bool; seen_host : bool; is_connect : bool; is_request : bool;
  header_count : Z
}.
#[export] Instance h2_header_state_fields : Fields h2_header_state := fun s =>
  MkHeaderState (seen_method s) (seen_path s) (seen_scheme s) (seen_authority s)
    (seen_regular s) (seen_host s) (is_connect s) (is_request s) (header_count s).

Definition header_state0 (request : bool) : h2_header_state :=
  MkHeaderState false false false false (negb request) false false request 0.

(** [cwist_sstring_assign_len] and [cwist_sstring_assign] on a string without a
    buffer of its own: one allocation; when it fails the string stays (an empty
    assignment by length then leaves no buffer). *)
Definition sstring_assign_len (old : option bytes) (data : bytes) (o : oracle)
    : option bytes * oracle :=
  match alloc o with
  | (true, o) => (Some data, o)
  | (false, o) => (match data with [] => None | _ => old end, o)
  end.
Definition sstring_assign (old : option bytes) (data : bytes) (o : oracle)
    : option bytes * oracle :=
  match alloc o with
  | (true, o) => (Some data, o)
  | (false, o) => (old, o)
  end.

(** [h2_parse_path]; [raw_seed] feeds the query map's hash seed. *)
Definition h2_parse_path (raw_seed : bytes) (req : http_request) (path : bytes) (o : oracle)
    : http_request * oracle :=
  match cut 63 path with
  | (p, Some q) =>
      let '(np, o) := sstring_assign_len req.(req_path) p o in
      let '(nq, o) := sstring_assign req.(req_query) q o in
      let req := req <| req_path := np |> <| req_query := nq |> in
      let '(m, o) := match req.(req_query_params) with
                     | Some m => (Some (query_map_clear m), o)
                     | None => query_map_create raw_seed o
                     end in
      match m with
      | Some m =>
          let '(m, o) := if (0 <? length (default [] nq))%nat
                         then query_map_parse m (cstr (default [] nq)) o else (m, o) in
          (req <| req_query_params := Some m |>, o)
      | None => (req <| req_query_params := None |>, o)
      end
  | (_, None) =>
      let '(np, o) := sstring_assign req.(req_path) path o in
      (req <| req_path := np |>, o)
  end.

Fixpoint name_chars_ok (first : bool) (name : bytes) : bool :=
  match name with
  | [] => true
  | c :: name =>
      negb ((c <=? 0x20) || (0x7f <=? c) || ((65 <=? c) && (c <=? 90)) ||
            ((c =? 58) && negb first)) && name_chars_ok false name
  end.
Definition h2_field_name_is_valid (name : bytes) : bool :=
  if (length name =? 0)%nat then false
  else if negb (name_chars_ok true name) then false
  else negb (rd name 0 =? 58) || (1 <? length name)%nat.

Definition h2_field_value_is_valid (value : bytes) : bool :=
  if (0 <? length value)%nat && (is_ws (rd value 0) || is_ws (rd value (length value - 1)))
  then false
  else forallb (fun c => negb ((c =? 0) || (c =? 13) || (c =? 10))) value.

Fixpoint content_length_loop (value : bytes) (parsed : Z) : option Z :=
  match value with
  | [] => Some parsed
  | c :: value =>
      if negb (isdigit c) || ((SIZE_MAX - 9) / 10 <? parsed) then None
      else content_length_loop value (u64 (u64 (parsed * 10) + (c - 48)))
  end.
Definition h2_parse_content_length (value : bytes) : option Z :=
  if (length value =? 0)%nat then None else content_length_loop value 0.

(** A header is added; a refusal or a failed allocation leaves the list. *)
Definition add_header (req : http_request) (name value : bytes) (o : oracle)
    : http_request * oracle :=
  match header_add req.(req_headers) (Some name) (Some value) o with
  | (inr hs, o) => (req <| req_headers := hs |>, o)
  | (inl _, o) => (req, o)
  end.

Definition connection_specific (name : bytes) : bool :=
  bool_decide (name ∈ [bs "connection"; bs "keep-alive"; bs "proxy-connection";
                       bs "transfer-encoding"; bs "upgrade"]).

(** The pseudo-header branch of [h2_apply_header]. *)
Definition apply_pseudo (raw_seed : bytes) (s : h2_target) (name value : bytes)
    (st : h2_header_state) (o : oracle) : bool * h2_target * h2_header_state * oracle :=
  if st.(seen_regular) then (false, s, st, o)
  else if bool_decide (name = bs ":method") then
    if st.(seen_method) then (false, s, st, o) else
    (true, s <| ht_req := s.(ht_req) <| req_method := string_to_method value |> |>,
     st <| seen_method := true |> <| is_connect := bool_decide (value = bs "CONNECT") |>, o)
  else if bool_decide (name = bs ":path") then
    if st.(seen_path) then (false, s, st, o) else
    let '(req, o) := h2_parse_path raw_seed s.(ht_req) value o in
    (true, s <| ht_req := req |>, st <| seen_path := true |>, o)
  else if bool_decide (name = bs ":scheme") then
    if st.(seen_scheme) then (false, s, st, o) else
    (true, s, st <| seen_scheme := true |>, o)
  else if bool_decide (name = bs ":authority") then
    if st.(seen_authority) then (false, s, st, o) else
    let '(req, o) := add_header s.(ht_req) (bs "host") value o in
    (true, s <| ht_req := req |>, st <| seen_authority := true |>, o)
  else (false, s, st, o).

(** The regular branch. *)
Definition apply_regular (s : h2_target) (name value : bytes) (st : h2_header_state) (o : oracle)
    : bool * h2_target * h2_header_state * oracle :=
  let st := st <| seen_regular := true |> in
  if connection_specific name then (false, s, st, o)
  else if bool_decide (name = bs "te") && negb (bool_decide (value = bs "trailers"))
  then (false, s, st, o)
  else if bool_decide (name = bs "host") && st.(seen_host) then (false, s, st, o) else
  let st := if bool_decide (name = bs "host") then st <| seen_host := true |> else st in
  if st.(is_request) && bool_decide (name = bs "content-length") then
    match h2_parse_content_length value with
    | None => (false, s, st, o)
    | Some n =>
        if s.(ht_has_content_length) && negb (s.(ht_req).(req_content_length) =? n)
        then (false, s, st, o)
        else
          let '(req, o) := add_header (s.(ht_req) <| req_content_length := n |>) name value o in
          (true, MkTarget req true, st, o)
    end
  else
    let '(req, o) := add_header s.(ht_req) name value o in
    (true, s <| ht_req := req |>, st, o).

(** [h2_apply_header]: [None] is a NULL stream, or one without a request. *)
Definition h2_apply_header (raw_seed : bytes) (s : option h2_target) (name value : bytes)
    (st : h2_header_state) (o : oracle)
    : bool * option h2_target * h2_header_state * oracle :=
  match s with
  | None => (false, s, st, o)
  | Some t =>
      if negb (h2_field_name_is_valid name) || negb (h2_field_value_is_valid value)
      then (false, s, st, o)
      else
        let st := st <| header_count := u32 (st.(header_count) + 1) |> in
        if CWIST_HTTP2_MAX_HEADERS_PER_REQUEST <? st.(header_count) then (false, s, st, o)
        else
          let '(ok, t, st, o) :=
            if rd name 0 =? 58 then apply_pseudo raw_seed t name value st o
            else apply_regular t name value st o in
          (ok, Some t, st, o)
  end.

(** ** Header blocks *)

Inductive repr : Type :=
| RIndexed (name value : bytes)
| RSize (new_size : Z)
| RLiteral (name value : bytes) (incremental : bool).

(** The name of an index; [strlen]/[cwist_strdup] read C strings, which the
    entries are. *)
Definition indexed_field (t : hpack_table) (index : Z) : option (bytes * bytes) :=
  match h2_static_header index with
  | Some e => Some e
  | None => match h2_hpack_dynamic_get t index with
            | Some e => Some (e.(he_name), e.(he_value))
            | None => None
            end
  end.

Definition literal_name (t : hpack_table) (payload : bytes) (pos : nat) (name_index : Z)
    (o : oracle) : option (bytes * nat) * oracle :=
  if 0 <? name_index then
    match indexed_field t name_index with
    | None => (None, o)
    | Some (n, _) => match alloc o with
                     | (true, o) => (Some (n, pos), o)
                     | (false, o) => (None, o)
                     end
    end
  else h2_decode_string_counted payload pos o.

(** The representation at [pos] and the position after it; [None] is a
    compression error. *)
Definition decode_representation (t : hpack_table) (payload : bytes) (pos : nat) (o : oracle)
    : option (repr * nat) * oracle :=
  let b := rd payload pos in
  if negb (Z.land b 0x80 =? 0) then
    match h2_decode_integer payload pos 7 with
    | None => (None, o)
    | Some (index, pos) =>
        match indexed_field t index with
        | None => (None, o)
        | Some (n, v) => (Some (RIndexed n v, pos), o)
        end
    end
  else if Z.land b 0xe0 =? 0x20 then
    match h2_decode_integer payload pos 5 with
    | None => (None, o)
    | Some (new_size, pos) => (Some (RSize new_size, pos), o)
    end
  else
    let form :=
      if Z.land b 0x40 =? 0x40 then Some (6, true)
      else if (Z.land b 0xf0 =? 0) || (Z.land b 0xf0 =? 0x10) then Some (4, false)
      else None in
    match form with
    | None => (None, o)
    | Some (prefix, incremental) =>
        match h2_decode_integer payload pos prefix with
        | None => (None, o)
        | Some (name_index, pos) =>
            match literal_name t payload pos name_index o with
            | (None, o) => (None, o)
            | (Some (name, pos), o) =>
                match h2_decode_string_counted payload pos o with
                | (None, o) => (None, o)
                | (Some (value, pos), o) => (Some (RLiteral name value incremental, pos), o)
                end
            end
        end
    end.

(** What the representation does to the table; [false] is a compression error. *)
Definition table_step (t : hpack_table) (r : repr) (o : oracle) : bool * hpack_table * oracle :=
  match r with
  | RIndexed _ _ => (true, t, o)
  | RSize n => match h2_hpack_set_capacity t n with
               | Some t' => (true, t', o)
               | None => (false, t, o)
               end
  | RLiteral name value false => (true, t, o)
  | RLiteral name value true =>
      if bool_decide (cstr name = name) && bool_decide (cstr value = value)
      then h2_hpack_insert t name value o
      else (false, t, o)
  end.

Definition repr_field (r : repr) : option (bytes * bytes) :=
  match r with
  | RIndexed n v | RLiteral n v _ => Some (n, v)
  | RSize _ => None
  end.

Inductive decode_result : Type := DECODE_OK | DECODE_STREAM_ERROR | DECODE_COMPRESSION_ERROR.
#[export] Instance decode_result_eq_dec : EqDecision decode_result.
Proof. solve_decision. Defined.

Record decode_state : Type := MkDecode {
  ds_table : hpack_table;
  ds_target : option h2_target;
  ds_hdr : h2_header_state;
  ds_stream_error : bool;
  ds_oracle : oracle
}.

(** The loop: [None] when [fuel] runs out, else the state at its end and
    whether that was a compression error. *)
Fixpoint decode_loop (fuel : nat) (raw_seed payload : bytes) (pos : nat) (d : decode_state)
    : option (bool * decode_state) :=
  match fuel with
  | O => None
  | S fuel =>
      if (length payload <=? pos)%nat then Some (true, d) else
      let '(MkDecode t s st err o) := d in
      match decode_representation t payload pos o with
      | (None, o) => Some (false, MkDecode t s st err o)
      | (Some (r, pos), o) =>
          let '(ok, s, st, o) :=
            match repr_field r with
            | Some (n, v) => h2_apply_header raw_seed s n v st o
            | None => (true, s, st, o)
            end in
          match table_step t r o with
          | (false, t, o) => Some (false, MkDecode t s st err o)
          | (true, t, o) =>
              decode_loop fuel raw_seed payload pos (MkDecode t s st (err || negb ok) o)
          end
      end
  end.

(** The checks after the loop. *)
Definition control_valid (st : h2_header_state) : bool :=
  if st.(is_connect)
  then st.(seen_method) && st.(seen_authority) && negb st.(seen_scheme) && negb st.(seen_path)
  else st.(seen_method) && st.(seen_scheme) && st.(seen_path).
Definition path_missing (s : option h2_target) : bool :=
  match s with
  | Some t => (length (default [] t.(ht_req).(req_path)) =? 0)%nat &&
              negb (bool_decide (t.(ht_req).(req_method) = HTTP_OPTIONS))
  | None => false
  end.

(** [h2_decode_header_block]: the result, the table and the stream. *)
Definition h2_decode_header_block (raw_seed : bytes) (t : hpack_table) (s : option h2_target)
    (payload : bytes) (request : bool) (o : oracle)
    : option (decode_result * hpack_table * option h2_target * oracle) :=
  match decode_loop (S (length payload)) raw_seed payload 0
          (MkDecode t s (header_state0 request) false o) with
  | None => None
  | Some (ok, MkDecode t s st err o) =>
      let r :=
        if negb ok then DECODE_COMPRESSION_ERROR
        else if err then DECODE_STREAM_ERROR
        else if request && (negb (control_valid st) || (st.(seen_path) && path_missing s))
        then DECODE_STREAM_ERROR
        else DECODE_OK in
      Some (r, t, s, o)
  end.

(** ** The table as a bounded list

    The specification of RFC 7541 section 4: what stays is the longest run of
    newest entries whose sizes fit the capacity. *)

Fixpoint total (l : list hpack_entry) : Z :=
  match l with [] => 0 | e :: l => e.(he_size) + total l end.

Fixpoint fit (limit : Z) (l : list hpack_entry) : list hpack_entry :=
  match l with
  | [] => []
  | e :: l => if e.(he_size) <=? limit then e :: fit (limit - e.(he_size)) l else []
  end.

Record entry_ok (e : hpack_entry) : Prop := {
  eo_size : e.(he_size) = blen e.(he_name) + blen e.(he_value) + 32;
  eo_name : cstr e.(he_name) = e.(he_name);
  eo_value : cstr e.(he_value) = e.(he_value)
}.

Record table_ok (t : hpack_table) : Prop := {
  tk_entries : Forall entry_ok t.(hp_entries);
  tk_size : t.(hp_size) = total t.(hp_entries);
  tk_fits : t.(hp_size) <= t.(hp_capacity);
  tk_capacity : 0 <= t.(hp_capacity) <= CWIST_HTTP2_HEADER_TABLE_SIZE
}.

(** Capacity and entries, as the specification sees them. *)
Definition table_abs (t : hpack_table) : Z * list hpack_entry := (t.(hp_capacity), t.(hp_entries)).

Definition table_spec (a : Z * list hpack_entry) (r : repr) : option (Z * list hpack_entry) :=
  let '(cap, l) := a in
  match r with
  | RSize n => if n <=? CWIST_HTTP2_HEADER_TABLE_SIZE then Some (n, fit n l) else None
  | RLiteral name value true =>
      if bool_decide (cstr name = name) && bool_decide (cstr value = value)
      then Some (cap, fit cap (MkEntry name value (blen name + blen value + 32) :: l))
      else None
  | _ => Some a
  end.

Lemma entry_ok_pos e : entry_ok e -> 32 <= e.(he_size).
Proof. intros [-> _ _]. unfold blen. lia. Qed.

Lemma total_nonneg l : Forall entry_ok l -> 0 <= total l.
Proof.
  induction 1 as [|e l He _ IH]; cbn [total]; [lia|]. pose proof (entry_ok_pos e He). lia.
Qed.

Lemma total_app a b : total (a ++ b) = total a + total b.
Proof. induction a as [|e a IH]; cbn [app total]; [lia|]. rewrite IH. lia. Qed.

Lemma fit_all l : forall limit, Forall entry_ok l -> total l <= limit -> fit limit l = l.
Proof.
  induction l as [|e l IH]; intros limit Hl Ht; [done|]. cbn [total fit] in *.
  apply Forall_cons_1 in Hl as [He Hl]. pose proof (total_nonneg l Hl).
  rewrite (proj2 (Z.leb_le _ _)) by lia. rewrite IH by (done || lia). done.
Qed.

Lemma fit_snoc l x : forall limit,
  limit < total (l ++ [x]) -> fit limit (l ++ [x]) = fit limit l.
Proof.
  induction l as [|e l IH]; intros limit Ht; cbn [app total fit] in *.
  - rewrite (proj2 (Z.leb_gt _ _)) by lia. done.
  - destruct (_ <=? _); [|done]. rewrite IH by lia. done.
Qed.

(** [fit] keeps a prefix, and the longest one that fits. *)
Lemma fit_prefix l : forall limit, fit limit l `prefix_of` l.
Proof.
  induction l as [|e l IH]; intros limit; cbn [fit]; [done|].
  destruct (_ <=? _); [by apply prefix_cons, IH|apply prefix_nil].
Qed.

Lemma fit_total l : forall limit, Forall entry_ok l -> 0 <= limit ->
  0 <= total (fit limit l) <= limit /\ Forall entry_ok (fit limit l).
Proof.
  induction l as [|e l IH]; intros limit Hl Hlim; cbn [fit total]; [split; [lia|constructor]|].
  apply Forall_cons_1 in Hl as [He Hl]. pose proof (entry_ok_pos e He).
  destruct (Z.leb_spec (he_size e) limit); cbn [total]; [|split; [lia|constructor]].
  destruct (IH (limit - he_size e) Hl ltac:(lia)) as [H1 H2]. split; [lia|by constructor].
Qed.

Lemma evict_loop_spec fuel : forall l limit,
  (length l <= fuel)%nat -> Forall entry_ok l -> 0 <= limit -> total l < 4294967296 ->
  evict_loop fuel l (total l) limit = (fit limit l, total (fit limit l)).
Proof.
  induction fuel as [|fuel IH]; intros l limit Hf Hl Hlim Ht.
  { destruct l; [done|cbn in Hf; lia]. }
  cbn [evict_loop]. destruct (Z.ltb_spec limit (total l)) as [Hgt|Hle].
  2: { by rewrite fit_all. }
  destruct l as [|x l _] using rev_ind; [cbn in Hgt; lia|].
  rewrite last_snoc, removelast_last.
  apply Forall_app in Hl as [Hl Hx]. apply Forall_cons_1 in Hx as [Hx _].
  pose proof (entry_ok_pos x Hx). pose proof (total_nonneg l Hl).
  rewrite total_app in Ht. cbn [total] in Ht. rewrite length_app in Hf. cbn [length] in Hf.
  assert (Hsz : u32 (total (l ++ [x]) - u32 (he_size x)) = total l).
  { rewrite total_app. cbn [total]. rewrite (u32_id (he_size x)) by mlia. rewrite u32_id by mlia. lia. }
  rewrite Hsz, IH by (done || lia). by rewrite fit_snoc.
Qed.

Lemma evict_to_spec t limit :
  Forall entry_ok t.(hp_entries) -> t.(hp_size) = total t.(hp_entries) ->
  total t.(hp_entries) < 4294967296 -> 0 <= limit ->
  h2_hpack_evict_to t limit =
  MkTable (fit limit t.(hp_entries)) (total (fit limit t.(hp_entries))) t.(hp_capacity).
Proof.
  intros He Hs Ht Hl. unfold h2_hpack_evict_to. rewrite Hs, evict_loop_spec by done. done.
Qed.

Lemma table_ok_total t : table_ok t -> 0 <= total t.(hp_entries) <= 4096.
Proof.
  intros [He Hs Hf Hc]. pose proof (total_nonneg _ He). unfold CWIST_HTTP2_HEADER_TABLE_SIZE in *. lia.
Qed.

Lemma fit_table_ok cap l :
  Forall entry_ok l -> 0 <= cap <= CWIST_HTTP2_HEADER_TABLE_SIZE ->
  table_ok (MkTable (fit cap l) (total (fit cap l)) cap).
Proof.
  intros Hl Hc. destruct (fit_total l cap Hl ltac:(lia)) as [H1 H2]. by constructor; cbn; [| |lia|].
Qed.

(** The names and values a representation can carry. *)
Definition repr_ok (r : repr) : Prop :=
  match r with
  | RLiteral name value _ => blen name + blen value < 2 ^ 62
  | RSize n => is_u32 n
  | RIndexed _ _ => True
  end.

Lemma insert_spec t name value :
  table_ok t -> blen name + blen value < 2 ^ 62 -> cstr name = name -> cstr value = value ->
  exists t',
    (forall o, exists o', h2_hpack_insert t name value o = (true, t', o') \/
                          h2_hpack_insert t name value o = (false, t, o')) /\
    h2_hpack_insert t name value [] = (true, t', []) /\
    table_ok t' /\ table_spec (table_abs t) (RLiteral name value true) = Some (table_abs t').
Proof.
  intros Hok Hlen Hn Hv. pose proof (table_ok_total t Hok) as Ht. destruct Hok as [He Hs Hf Hc].
  destruct t as [l sz cap]. cbn [hp_entries hp_size hp_capacity] in *.
  set (e := MkEntry name value (blen name + blen value + 32)).
  assert (Hee : entry_ok e) by by constructor.
  assert (Hb : 0 <= blen name + blen value) by (unfold blen; lia). change (2 ^ 62) with 4611686018427387904 in Hlen.
  exists (MkTable (fit cap (e :: l))
            (total (fit cap (e :: l))) cap).
  assert (Hspec : table_spec (table_abs (MkTable l sz cap)) (RLiteral name value true) =
    Some (cap, fit cap (e :: l))).
  { unfold table_spec, table_abs. rewrite !bool_decide_true by done. done. }
  rewrite Hspec. clear Hspec.
  assert (Hok' : table_ok (MkTable (fit cap (e :: l))
            (total (fit cap (e :: l))) cap))
    by (apply fit_table_ok; [by constructor|done]).
  unfold h2_hpack_insert. cbn [hp_capacity]. rewrite u64_id by mlia. rewrite u64_id by mlia.
  cbn [fit] in *. change (he_size e) with (blen name + blen value + 32) in *.
  unfold CWIST_HTTP2_HEADER_TABLE_SIZE in *.
  destruct (Z.leb_spec (blen name + blen value + 32) cap) as [Hle|Hgt].
  - rewrite (proj2 (Z.ltb_ge _ _)) by done. rewrite !(u32_id (_ + 32)) by mlia.
    rewrite (u32_id (_ - _)) by mlia. rewrite evict_to_spec by (done || cbn; lia). cbn [hp_entries hp_capacity].
    destruct (fit_total l (cap - (blen name + blen value + 32)) He ltac:(lia)) as [Hft _].
    cbv beta iota delta [set_field hp_entries hp_size hp_capacity hpack_table_fields].
    rewrite u32_id by mlia. rewrite (Z.add_comm (total _)).
    split; [|by split].
    intros o. destruct o as [|[] [|[] [|[] o]]]; eexists; (left; reflexivity) || (right; reflexivity).
  - rewrite (proj2 (Z.ltb_lt _ _)) by done. rewrite evict_to_spec by (done || cbn; lia). cbn [hp_entries hp_capacity].
    assert (Hz : fit 0 l = []).
    { destruct l as [|x l]; [done|]. apply Forall_cons_1 in He as [Hx _].
      pose proof (entry_ok_pos x Hx). cbn [fit]. by rewrite (proj2 (Z.leb_gt _ _)) by lia. }
    rewrite Hz. split; [|by split]. intros o. exists o. by left.
Qed.

(** One step against the specification. *)
Lemma table_step_spec t r :
  table_ok t -> repr_ok r ->
  (forall o, exists t' o',
     (table_step t r o = (true, t', o') /\ table_ok t' /\ table_spec (table_abs t) r = Some (table_abs t')) \/
     (table_step t r o = (false, t, o'))) /\
  match table_step t r [] with
  | (true, _, o') => o' = []
  | (false, _, o') => o' = [] /\ table_spec (table_abs t) r = None
  end.
Proof.
  intros Ht Hr. destruct r as [n v|n|n v []]; cbn [table_step table_spec table_abs].
  - split; [|done]. intros o. exists t, o. by left.
  - unfold h2_hpack_set_capacity. destruct (Z.leb_spec n CWIST_HTTP2_HEADER_TABLE_SIZE) as [Hn|Hn].
    + rewrite (proj2 (Z.ltb_ge _ _)) by done. split; [|done]. intros o.
      eexists _, o. left. split; [done|]. pose proof (table_ok_total t Ht) as Htot.
      destruct Ht as [He Hs Hf Hc]. destruct t as [l sz cap]. cbn in Hr. cbn [hp_entries hp_size hp_capacity] in *.
      change ((MkTable l sz cap) <| hp_capacity := n |>) with (MkTable l sz n).
      rewrite evict_to_spec by (cbn; first [done | mlia]). split; [|done].
      apply fit_table_ok; [done|]. cbn [hp_capacity]. unfold is_u32 in Hr. lia.
    + rewrite (proj2 (Z.ltb_lt _ _)) by done. split; [|done]. intros o. exists t, o. by right.
  - destruct (bool_decide (cstr n = n)) eqn:E1; [|split; [intros o; exists t, o; by right|done]].
    destruct (bool_decide (cstr v = v)) eqn:E2; [|split; [intros o; exists t, o; by right|done]].
    apply bool_decide_eq_true in E1, E2. cbn [andb].
    destruct (insert_spec t n v Ht Hr E1 E2) as (t' & Ho & Hn & Hok & Hs).
    unfold table_spec, table_abs in Hs. rewrite !bool_decide_true in Hs by done. cbn [andb] in Hs.
    rewrite Hn. split; [|done]. intros o. destruct (Ho o) as [o' [H|H]].
    + exists t', o'. left. by split; [|split].
    + exists t', o'. by right.
  - split; [|done]. intros o. exists t, o. by left.
Qed.

Lemma dynamic_walk_spec e : forall i,
  1 <= i < 4294967296 -> dynamic_walk e i = e !! Z.to_nat (i - 1).
Proof.
  induction e as [|x e IH]; intros i Hi; [done|]. cbn [dynamic_walk].
  rewrite u32_id by mlia. destruct (Z.eqb_spec (i - 1) 0) as [H0|H0].
  - by rewrite H0.
  - rewrite IH by lia. replace (Z.to_nat (i - 1)) with (S (Z.to_nat (i - 1 - 1))) by lia. done.
Qed.

Lemma dynamic_get_spec t i :
  62 <= i < 4294967296 -> h2_hpack_dynamic_get t i = t.(hp_entries) !! Z.to_nat (i - 62).
Proof.
  intros Hi. unfold h2_hpack_dynamic_get, static_count.
  rewrite (proj2 (Z.ltb_ge _ _)) by lia. rewrite (u32_id (i - 62)) by mlia. rewrite u32_id by mlia.
  rewrite dynamic_walk_spec by lia. do 2 f_equal. lia.
Qed.

(** A sequence of updates, up to the first that is refused. *)
Fixpoint run_table (t : hpack_table) (rs : list repr) (o : oracle) : nat * hpack_table * oracle :=
  match rs with
  | [] => (0%nat, t, o)
  | r :: rs => match table_step t r o with
               | (true, t, o) => let '(n, t, o) := run_table t rs o in (S n, t, o)
               | (false, t, o) => (0%nat, t, o)
               end
  end.

Fixpoint run_spec (a : Z * list hpack_entry) (rs : list repr) : option (Z * list hpack_entry) :=
  match rs with
  | [] => Some a
  | r :: rs => match table_spec a r with Some a => run_spec a rs | None => None end
  end.

Lemma run_table_spec rs : forall t o,
  table_ok t -> Forall repr_ok rs ->
  let '(n, t', o') := run_table t rs o in
  table_ok t' /\ (n <= length rs)%nat /\
  run_spec (table_abs t) (take n rs) = Some (table_abs t') /\
  (o = [] -> o' = [] /\ ((n < length rs)%nat -> run_spec (table_abs t) (take (S n) rs) = None)).
Proof.
  induction rs as [|r rs IH]; intros t o Ht Hr; cbn [run_table].
  { split; [done|]. split; [cbn; lia|]. split; [done|]. intros ->. split; [done|]. cbn. lia. }
  apply Forall_cons_1 in Hr as [Hr Hrs].
  destruct (table_step_spec t r Ht Hr) as [Hstep Hnil].
  destruct (Hstep o) as (t1 & o1 & [(Es & Ht1 & Hspec)|Es]); rewrite Es.
  - specialize (IH t1 o1 Ht1 Hrs). destruct (run_table t1 rs o1) as [[n t'] o'].
    destruct IH as (H1 & H2 & H3 & H4). split; [done|]. split; [cbn; lia|].
    cbn [take run_spec]. rewrite Hspec. split; [done|]. intros ->. rewrite Es in Hnil. subst o1.
    destruct (H4 eq_refl) as [-> H5]. split; [done|]. intros Hlt. apply H5. cbn in Hlt. lia.
  - split; [done|]. split; [lia|]. split; [done|]. intros ->. rewrite Es in Hnil.
    destruct Hnil as [-> Hn]. split; [done|]. intros _. cbn [take run_spec]. by rewrite Hn.
Qed.

(** ** Properties of the table *)

(** C11: the dynamic table is the bounded list of RFC 7541: after any sequence of
    decoded representations, whichever allocations fail, it equals what the
    specification (push in front, keep the longest newest run that fits the
    capacity) gives for the accepted ones; the byte counter is exact and never
    above the capacity, nor that above 4096; an update is refused only where
    the specification refuses it or memory failed; and index 62 + i of the
    lookup is the i-th newest entry. *)
Theorem hpack_table_refines rs o :
  Forall repr_ok rs ->
  let '(n, t, o') := run_table hpack_init rs o in
  table_ok t /\ (n <= length rs)%nat /\
  run_spec (CWIST_HTTP2_HEADER_TABLE_SIZE, []) (take n rs) = Some (t.(hp_capacity), t.(hp_entries)) /\
  (o = [] -> (n < length rs)%nat ->
     run_spec (CWIST_HTTP2_HEADER_TABLE_SIZE, []) (take (S n) rs) = None) /\
  (forall i, 62 <= i < 4294967296 ->
     h2_hpack_dynamic_get t i = t.(hp_entries) !! Z.to_nat (i - 62)).
Proof.
  intros Hr. pose proof (run_table_spec rs hpack_init o
    ltac:(constructor; [constructor|done|cbn; unfold CWIST_HTTP2_HEADER_TABLE_SIZE; lia|cbn; unfold CWIST_HTTP2_HEADER_TABLE_SIZE; lia]) Hr) as H.
  destruct (run_table hpack_init rs o) as [[n t] o']. destruct H as (H1 & H2 & H3 & H4).
  split; [done|]. split; [done|]. split; [done|]. split; [|intros i Hi; by apply dynamic_get_spec].
  intros Ho. by destruct (H4 Ho).
Qed.

Definition wit_reprs : list repr :=
  [RLiteral (bs "x-a") (bs "1") true; RSize 80; RLiteral (bs "x-b") (bs "2") true;
   RIndexed (bs "x-b") (bs "2"); RLiteral (bs "x-c") (bs "3") true; RSize 5000].

Lemma hpack_table_refines_witness :
  Forall repr_ok wit_reprs /\ (run_table hpack_init wit_reprs []).1.1 = 5%nat /\
  let '(n, t, o') := run_table hpack_init wit_reprs [] in
  table_ok t /\ (n <= length wit_reprs)%nat /\
  run_spec (CWIST_HTTP2_HEADER_TABLE_SIZE, []) (take n wit_reprs) = Some (t.(hp_capacity), t.(hp_entries)) /\
  (([] : oracle) = [] -> (n < length wit_reprs)%nat ->
     run_spec (CWIST_HTTP2_HEADER_TABLE_SIZE, []) (take (S n) wit_reprs) = None) /\
  (forall i, 62 <= i < 4294967296 ->
     h2_hpack_dynamic_get t i = t.(hp_entries) !! Z.to_nat (i - 62)).
Proof.
  assert (H : Forall repr_ok wit_reprs) by (repeat (apply Forall_cons_2; [done|]); constructor).
  split; [exact H|]. split; [reflexivity|]. exact (hpack_table_refines wit_reprs [] H).
Defined.

(** ** The decoding loop ends *)

Lemma decode_representation_pos t payload pos o r pos' o' :
  bytes_ok payload -> decode_representation t payload pos o = (Some (r, pos'), o') ->
  (pos < pos' <= length payload)%nat.
Proof.
  intros Hok H. unfold decode_representation in H.
  destruct (negb _).
  { destruct (h2_decode_integer payload pos 7) as [[i p]|] eqn:E; [|done].
    apply h2_decode_integer_pos in E as [E _]; [|done].
    destruct (indexed_field t i) as [[n v]|]; [|done]. by injection H as _ <- _. }
  destruct (_ =? 32).
  { destruct (h2_decode_integer payload pos 5) as [[i p]|] eqn:E; [|done].
    apply h2_decode_integer_pos in E as [E _]; [|done]. by injection H as _ <- _. }
  destruct (if _ =? 64 then _ else _) as [[prefix inc]|]; [|done].
  destruct (h2_decode_integer payload pos prefix) as [[i p]|] eqn:E; [|done].
  apply h2_decode_integer_pos in E as [E _]; [|done].
  destruct (literal_name t payload p i o) as [[[n p1]|] o1] eqn:E1; [|done].
  destruct (h2_decode_string_counted payload p1 o1) as [[[v p2]|] o2] eqn:E2; [|done].
  injection H as _ <- _. apply h2_decode_string_pos in E2; [|done].
  unfold literal_name in E1. destruct (0 <? i).
  - destruct (indexed_field t i) as [[n' v']|]; [|done]. destruct (alloc o) as [[] o3]; [|done].
    injection E1 as _ <- _. lia.
  - apply h2_decode_string_pos in E1; [|done]. lia.
Qed.

Lemma decode_loop_fuel f1 : forall f2 seed payload pos d,
  bytes_ok payload -> (length payload - pos < f1)%nat -> (length payload - pos < f2)%nat ->
  decode_loop f1 seed payload pos d = decode_loop f2 seed payload pos d /\
  decode_loop f1 seed payload pos d <> None.
Proof.
  induction f1 as [|f1 IH]; intros [|f2] seed payload pos d Hok H1 H2; try lia. cbn [decode_loop].
  destruct (Nat.leb_spec (length payload) pos); [done|]. destruct d as [t s st err o].
  destruct (decode_representation t payload pos o) as [[[r p]|] o1] eqn:E; [|done].
  apply decode_representation_pos in E; [|done].
  destruct (match repr_field r with Some _ => _ | None => _ end) as [[[ok s1] st1] o2].
  destruct (table_step t r o2) as [[[] t1] o3]; [|done]. apply IH; [done|lia|lia].
Qed.

(** C19: decoding a header block ends: every representation takes at least one
    byte, so for every block, table, stream and allocation outcome the loop
    reaches its end within one step per byte and one more, and allowing it
    more steps never changes what it does. *)
Theorem header_block_terminates seed t s payload request o :
  bytes_ok payload ->
  (exists r t' s' o', h2_decode_header_block seed t s payload request o = Some (r, t', s', o')) /\
  (forall fuel, (length payload < fuel)%nat ->
     decode_loop fuel seed payload 0 (MkDecode t s (header_state0 request) false o) =
     decode_loop (S (length payload)) seed payload 0 (MkDecode t s (header_state0 request) false o)).
Proof.
  intros Hok. split.
  - unfold h2_decode_header_block.
    destruct (decode_loop_fuel (S (length payload)) (S (length payload)) seed payload 0
      (MkDecode t s (header_state0 request) false o) Hok ltac:(lia) ltac:(lia)) as [_ H].
    destruct (decode_loop _ _ _ _ _) as [[ok [t' s' st err o']]|]; [|done]. by do 4 eexists.
  - intros fuel Hf. apply decode_loop_fuel; [done|lia|lia].
Qed.

Lemma header_block_terminates_witness :
  bytes_ok [0x82; 0x86; 0x84] /\
  (exists r t' s' o', h2_decode_header_block [] hpack_init None [0x82; 0x86; 0x84] true [] = Some (r, t', s', o')) /\
  (forall fuel, (length [0x82; 0x86; 0x84] < fuel)%nat ->
     decode_loop fuel [] [0x82; 0x86; 0x84] 0 (MkDecode hpack_init None (header_state0 true) false []) =
     decode_loop (S (length [0x82; 0x86; 0x84])) [] [0x82; 0x86; 0x84] 0
       (MkDecode hpack_init None (header_state0 true) false [])).
Proof.
  assert (H : bytes_ok [0x82; 0x86; 0x84]) by (apply bytes_okb_ok; reflexivity).
  split; [exact H|]. exact (header_block_terminates [] hpack_init None [0x82; 0x86; 0x84] true [] H).
Defined.

(** ** The fields of a request, globally

    RFC 9113 section 8.3, as the connection enforces it. *)

Abbreviation field := (bytes * bytes)%type.

Definition is_pseudo (n : bytes) : bool := rd n 0 =? 58.
Definition pseudo_names : list bytes := [bs ":method"; bs ":path"; bs ":scheme"; bs ":authority"].

Record name_ok (n : bytes) : Prop := {
  no_nonempty : n <> [] /\ n <> [58];
  no_chars : Forall (fun c => 32 < c < 127 /\ ~ 65 <= c <= 90) n;
  no_colon : 58 ∉ tail n
}.

Record value_ok (v : bytes) : Prop := {
  vo_chars : Forall (fun c => c <> 0 /\ c <> 13 /\ c <> 10) v;
  vo_trim : v = [] \/ is_ws (rd v 0) = false /\ is_ws (rd v (length v - 1)) = false
}.

Record request_fields (fs : list field) : Prop := {
  rf_count : Z.of_nat (length fs) <= CWIST_HTTP2_MAX_HEADERS_PER_REQUEST;
  rf_syntax : Forall (fun f => name_ok f.1 /\ value_ok f.2) fs;
  rf_known : Forall (fun f => is_pseudo f.1 = true -> f.1 ∈ pseudo_names) fs;
  rf_order : forall i j f g, fs !! i = Some f -> fs !! j = Some g -> (i < j)%nat ->
    is_pseudo g.1 = true -> is_pseudo f.1 = true;
  rf_once : forall i j f g, fs !! i = Some f -> fs !! j = Some g -> (i < j)%nat ->
    f.1 = g.1 -> is_pseudo f.1 = false /\ f.1 <> bs "host";
  rf_connection : Forall (fun f => connection_specific f.1 = false /\
    (f.1 = bs "te" -> f.2 = bs "trailers")) fs;
  rf_length : exists k, forall v, (bs "content-length", v) ∈ fs -> h2_parse_content_length v = Some k
}.

(** The same for one more field. *)
Record allowed (fs : list field) (f : field) : Prop := {
  al_count : Z.of_nat (length fs) < CWIST_HTTP2_MAX_HEADERS_PER_REQUEST;
  al_syntax : name_ok f.1 /\ value_ok f.2;
  al_known : is_pseudo f.1 = true -> f.1 ∈ pseudo_names;
  al_order : is_pseudo f.1 = true -> Forall (fun g => is_pseudo g.1 = true) fs;
  al_once : is_pseudo f.1 = true \/ f.1 = bs "host" -> f.1 ∉ fs.*1;
  al_connection : connection_specific f.1 = false /\ (f.1 = bs "te" -> f.2 = bs "trailers");
  al_length : f.1 = bs "content-length" -> exists k, h2_parse_content_length f.2 = Some k /\
    forall v, (bs "content-length", v) ∈ fs -> h2_parse_content_length v = Some k
}.

Lemma request_fields_nil : request_fields [].
Proof.
  constructor; try (apply Forall_nil_2); try done.
  exists 0. intros v Hv. by apply not_elem_of_nil in Hv.
Qed.

Lemma lookup_snoc_cases {A} (l : list A) x i y :
  (l ++ [x]) !! i = Some y -> l !! i = Some y /\ (i < length l)%nat \/ i = length l /\ y = x.
Proof.
  intros H. apply lookup_app_Some in H as [H|[H1 H2]].
  - left. split; [done|]. by apply lookup_lt_Some in H.
  - right. apply list_lookup_singleton_Some in H2 as [H2 ->]. split; [lia|done].
Qed.

Lemma request_fields_snoc fs f :
  request_fields (fs ++ [f]) <-> request_fields fs /\ allowed fs f.
Proof.
  split.
  - intros [H1 H2 H3 H4 H5 H6 [k H7]]. rewrite length_app in H1. cbn [length] in H1.
    apply Forall_app in H2 as [H2 H2f]. apply Forall_app in H3 as [H3 H3f]. apply Forall_app in H6 as [H6 H6f].
    apply Forall_cons_1 in H2f as [H2f _]. apply Forall_cons_1 in H3f as [H3f _]. apply Forall_cons_1 in H6f as [H6f _].
    assert (Hl : (fs ++ [f]) !! length fs = Some f) by (by rewrite lookup_app_r, Nat.sub_diag).
    assert (Hi : forall i g, fs !! i = Some g -> (fs ++ [f]) !! i = Some g /\ (i < length fs)%nat)
      by (intros i g Hg; split; [by apply lookup_app_l_Some|by apply lookup_lt_Some in Hg]).
    split; constructor; try done; try lia.
    + intros i j g h Hg Hh. apply (H4 i j); by apply Hi.
    + intros i j g h Hg Hh. apply (H5 i j); by apply Hi.
    + exists k. intros v Hv. apply H7. set_solver.
    + intros Hp. apply Forall_lookup_2. intros i g Hg. apply Hi in Hg as [Hg Hlt].
      by apply (H4 i (length fs) g f).
    + intros Hp Hin. apply list_elem_of_fmap in Hin as [g [Hfg Hg]].
      apply list_elem_of_lookup in Hg as [i Hg]. apply Hi in Hg as [Hg Hlt].
      destruct (H5 i (length fs) g f Hg Hl Hlt (eq_sym Hfg)) as [Ha Hb]. rewrite <- Hfg in *.
      destruct Hp; congruence.
    + intros Hc. exists k. split; [|intros v Hv; apply H7; set_solver].
      apply H7. apply elem_of_app. right. rewrite <- Hc. destruct f. set_solver.
  - intros [[H1 H2 H3 H4 H5 H6 [k H7]] [A1 A2 A3 A4 A5 A6 A7]]. constructor.
    + rewrite length_app. cbn [length]. lia.
    + apply Forall_app_2; [done|by apply Forall_cons_2].
    + apply Forall_app_2; [done|by apply Forall_cons_2].
    + intros i j g h Hg Hh Hij Hp.
      apply lookup_snoc_cases in Hg as [[Hg ?]|[-> ->]]; apply lookup_snoc_cases in Hh as [[Hh ?]|[-> ->]]; try lia.
      * by apply (H4 i j g h).
      * by apply (Forall_lookup_1 _ _ _ _ (A4 Hp) Hg).
    + intros i j g h Hg Hh Hij He.
      apply lookup_snoc_cases in Hg as [[Hg ?]|[-> ->]]; apply lookup_snoc_cases in Hh as [[Hh ?]|[-> ->]]; try lia.
      * by apply (H5 i j g h).
      * assert (Hin : f.1 ∈ fs.*1).
        { rewrite <- He. apply list_elem_of_fmap. exists g. split; [done|]. by apply list_elem_of_lookup_2 in Hg. }
        rewrite He. split.
        -- destruct (is_pseudo f.1) eqn:E; [|done]. exfalso. by apply A5; [left|].
        -- intros E. by apply A5; [right|].
    + apply Forall_app_2; [done|by apply Forall_cons_2].
    + destruct (decide (f.1 = bs "content-length")) as [Hc|Hc].
      * destruct (A7 Hc) as (k' & Hk & Hall). exists k'. intros v Hv.
        apply elem_of_app in Hv as [Hv|Hv]; [by apply Hall|].
        apply list_elem_of_singleton in Hv. by rewrite <- Hv in Hk.
      * exists k. intros v Hv. apply elem_of_app in Hv as [Hv|Hv]; [by apply H7|].
        apply list_elem_of_singleton in Hv. by rewrite <- Hv in Hc.
Qed.

(** ** The checks against the syntax *)

Lemma name_chars_ok_spec n : forall first,
  name_chars_ok first n = true <->
  Forall (fun c => 32 < c < 127 /\ ~ 65 <= c <= 90) n /\ 58 ∉ (if first then tail n else n).
Proof.
  induction n as [|c n IH]; intros first; cbn [name_chars_ok].
  - split; [|done]. intros _. split; [constructor|]. destruct first; apply not_elem_of_nil.
  - rewrite andb_true_iff, (IH false), list.Forall_cons, negb_true_iff. cbn [tail].
    assert (Hc : (c <=? 32) || (127 <=? c) || ((65 <=? c) && (c <=? 90)) || ((c =? 58) && negb first) = false
      <-> (32 < c < 127 /\ ~ 65 <= c <= 90) /\ (first = true \/ c <> 58)) by (destruct first; lia).
    rewrite Hc. destruct first; [naive_solver|].
    rewrite not_elem_of_cons. naive_solver.
Qed.

Lemma name_valid_spec n : h2_field_name_is_valid n = true <-> name_ok n.
Proof.
  unfold h2_field_name_is_valid. destruct n as [|c n].
  { split; [done|]. intros [[H _] _ _]. done. }
  cbn [length Nat.eqb]. pose proof (name_chars_ok_spec (c :: n) true) as Hs.
  destruct (name_chars_ok true (c :: n)); cbn [negb].
  2: { split; [done|]. intros [_ H1 H2]. by apply Hs. }
  destruct (proj1 Hs eq_refl) as [H1 H2]. change (rd (c :: n) 0) with c. split.
  - intros H. constructor; [|done|done]. split; [done|]. intros [= -> ->]. done.
  - intros [[_ H] _ _]. destruct (Z.eqb_spec c 58) as [->|]; [|done]. cbn [negb orb].
    destruct n; [done|]. cbn. by destruct n.
Qed.

Lemma value_valid_spec v : h2_field_value_is_valid v = true <-> value_ok v.
Proof.
  unfold h2_field_value_is_valid.
  assert (Hc : forallb (fun c => negb ((c =? 0) || (c =? 13) || (c =? 10))) v = true <->
    Forall (fun c => c <> 0 /\ c <> 13 /\ c <> 10) v).
  { rewrite forallb_forall, List.Forall_forall. split; intros H x Hx; specialize (H x Hx); lia. }
  destruct v as [|c v].
  { split; [|done]. intros _. constructor; [constructor|by left]. }
  set (w := c :: v) in *. change (0 <? length w)%nat with true. cbn [andb].
  destruct (is_ws (rd w 0)) eqn:E1; cbn [orb].
  { split; [done|]. intros [_ [H|[H _]]]; [done|congruence]. }
  destruct (is_ws (rd w (length w - 1))) eqn:E2.
  { split; [done|]. intros [_ [H|[_ H]]]; [done|congruence]. }
  rewrite Hc. split; [intros H; constructor; [done|by right]|by intros []].
Qed.

(** ** What accepted fields leave behind *)

Definition has (n : bytes) (fs : list field) : bool := bool_decide (n ∈ fs.*1).

Fixpoint assoc (n : bytes) (fs : list field) : option bytes :=
  match fs with
  | [] => None
  | (k, v) :: fs => if bool_decide (k = n) then Some v else assoc n fs
  end.

(** The header a field becomes. *)
Definition field_header (f : field) : option header :=
  if bool_decide (f.1 = bs ":authority") then Some (bs "host", f.2)
  else if is_pseudo f.1 then None
  else Some f.

Definition params_ok (req : http_request) : Prop :=
  match req.(req_query_params) with Some m => qm_ok m | None => True end.

Record applied (req0 : http_request) (fs : list field) (t : h2_target) (st : h2_header_state) : Prop := {
  ap_method : st.(seen_method) = has (bs ":method") fs;
  ap_path : st.(seen_path) = has (bs ":path") fs;
  ap_scheme : st.(seen_scheme) = has (bs ":scheme") fs;
  ap_authority : st.(seen_authority) = has (bs ":authority") fs;
  ap_regular : st.(seen_regular) = existsb (fun f => negb (is_pseudo f.1)) fs;
  ap_host : st.(seen_host) = has (bs "host") fs;
  ap_connect : st.(is_connect) = bool_decide ((bs ":method", bs "CONNECT") ∈ fs);
  ap_request : st.(is_request) = true;
  ap_count : st.(header_count) = Z.of_nat (length fs);
  ap_has_length : t.(ht_has_content_length) = has (bs "content-length") fs;
  ap_length : forall v, (bs "content-length", v) ∈ fs ->
    h2_parse_content_length v = Some t.(ht_req).(req_content_length);
  ap_headers : t.(ht_req).(req_headers) = rev (omap field_header fs) ++ req0.(req_headers);
  ap_verb : t.(ht_req).(req_method) =
    match assoc (bs ":method") fs with Some v => string_to_method v | None => req0.(req_method) end;
  ap_target : t.(ht_req).(req_path) =
    match assoc (bs ":path") fs with Some v => Some (cut 63 v).1 | None => req0.(req_path) end;
  ap_params : params_ok t.(ht_req)
}.

Lemma has_snoc n fs f : has n (fs ++ [f]) = has n fs || bool_decide (f.1 = n).
Proof.
  unfold has. rewrite fmap_app. cbn.
  destruct (decide (n ∈ fs.*1)), (decide (f.1 = n)); repeat case_bool_decide; set_solver.
Qed.

Lemma assoc_snoc n fs f :
  assoc n (fs ++ [f]) = match assoc n fs with
                        | Some v => Some v
                        | None => if bool_decide (f.1 = n) then Some f.2 else None
                        end.
Proof.
  destruct f as [k v]. induction fs as [|[k' v'] fs IH]; cbn [app assoc]; [done|].
  destruct (bool_decide (k' = n)); [done|exact IH].
Qed.

Lemma assoc_none n fs : has n fs = false -> assoc n fs = None.
Proof.
  unfold has. induction fs as [|[k v] fs IH]; [done|]. cbn [assoc].
  intros H. apply bool_decide_eq_false in H. rewrite fmap_cons, not_elem_of_cons in H. cbn [fst] in H.
  rewrite bool_decide_false by naive_solver. apply IH. rewrite bool_decide_false; naive_solver.
Qed.

Lemma existsb_snoc {A} (p : A -> bool) l x : existsb p (l ++ [x]) = existsb p l || p x.
Proof. rewrite existsb_app. cbn. by rewrite orb_false_r. Qed.

Lemma omap_snoc {A B} (g : A -> option B) l x :
  omap g (l ++ [x]) = omap g l ++ match g x with Some y => [y] | None => [] end.
Proof. rewrite omap_app. cbn. by destruct (g x). Qed.

Lemma pseudo_name n : n ∈ pseudo_names -> is_pseudo n = true.
Proof.
  unfold pseudo_names. rewrite !elem_of_cons, elem_of_nil. by intros [->|[->|[->|[->|[]]]]].
Qed.

(** A safe value is added as a header whenever memory lasts. *)
Lemma add_header_ok req n v :
  name_ok n -> value_ok v ->
  add_header req n v [] = (req <| req_headers := (n, v) :: req.(req_headers) |>, []).
Proof.
  intros [_ Hn _] [Hv _]. unfold add_header, header_add.
  assert (Hs : forall l, Forall (fun c => c <> 13 /\ c <> 10) l -> header_text_is_safe (Some l) = true).
  { intros l Hl. apply forallb_forall. intros x Hx. apply list_elem_of_In in Hx.
    pose proof (proj1 (list.Forall_forall _ _) Hl x Hx) as H. cbv beta in H. lia. }
  rewrite !Hs; [done| |]; eapply list.Forall_impl; try done; naive_solver lia.
Qed.

Lemma cut_none c l p : cut c l = (p, None) -> p = l.
Proof.
  revert p. induction l as [|b l IH]; intros p; cbn [cut]; [by intros [= <-]|].
  destruct (b =? c); [done|]. destruct (cut c l) as [q [r|]] eqn:E; [done|]. intros [= <-].
  by rewrite (IH q).
Qed.

Lemma parse_path_ok seed req path :
  params_ok req ->
  exists req', h2_parse_path seed req path [] = (req', []) /\
    req'.(req_path) = Some (cut 63 path).1 /\ req'.(req_method) = req.(req_method) /\
    req'.(req_headers) = req.(req_headers) /\
    req'.(req_content_length) = req.(req_content_length) /\ params_ok req'.
Proof.
  intros Hp. unfold h2_parse_path. destruct (cut 63 path) as [p [q|]] eqn:Ecut.
  2: { rewrite (cut_none _ _ _ Ecut). eexists. split; [reflexivity|]. repeat (split; [done|]). exact Hp. }
  clear Ecut.
  cbn [sstring_assign_len sstring_assign alloc].
  set (m := match req_query_params _ with Some m => _ | None => _ end).
  assert (Hm : exists qm, m = (Some qm, []) /\ qm_ok qm).
  { unfold m. change (req_query_params _) with (req_query_params req). unfold params_ok in Hp.
    destruct (req_query_params req) as [qm|].
    - exists (query_map_clear qm). split; [done|]. by apply clear_ok.
    - destruct (query_map_create seed []) as [[qm|] o] eqn:E; [|done].
      exists qm. pose proof (query_create_nil seed) as Hn. rewrite E in Hn. cbn in Hn. subst o.
      split; [done|]. by apply (create_ok seed [] qm []). }
  destruct Hm as (qm & -> & Hqm). destruct q as [|c q].
  { eexists. split; [reflexivity|]. repeat (split; [done|]). exact Hqm. }
  pose proof (query_parse_nil qm (cstr (c :: q)) Hqm) as Hn.
  destruct (query_map_parse qm (cstr (c :: q)) []) as [m' o'] eqn:E. cbn in Hn. subst o'.
  cbn [default length from_option Nat.ltb Nat.leb]. change (id (c :: q)) with (c :: q). rewrite E.
  eexists. split; [reflexivity|]. split; [done|]. split; [done|]. split; [done|]. split; [done|].
  unfold params_ok. cbn. by apply (step_ok qm [] (QParse (cstr (c :: q))) m' [] Hqm E).
Qed.

(** ** One field *)

Definition target_ok (s : option h2_target) : Prop :=
  match s with Some t => params_ok t.(ht_req) | None => True end.

(** While memory lasts, applying a field neither fails for it nor spoils the
    query map. *)
Lemma add_header_nil req n v :
  exists req', add_header req n v [] = (req', []) /\
    req'.(req_query_params) = req.(req_query_params).
Proof.
  unfold add_header, header_add. destruct (_ || _); eexists; split; reflexivity.
Qed.

Lemma apply_header_nil seed s n v st :
  target_ok s -> exists ok s' st',
    h2_apply_header seed s n v st [] = (ok, s', st', []) /\ target_ok s'.
Proof.
  intros Hs. unfold h2_apply_header. destruct s as [t|]; [|by do 3 eexists].
  destruct (_ || _); [by do 3 eexists|]. destruct (_ <? _); [by do 3 eexists|].
  cbn [target_ok] in Hs. destruct (rd n 0 =? 58).
  - unfold apply_pseudo. destruct (seen_regular _); [by do 3 eexists|].
    destruct (bool_decide (n = bs ":method")).
    { destruct (seen_method _); by do 3 eexists. }
    destruct (bool_decide (n = bs ":path")).
    { destruct (seen_path _); [by do 3 eexists|].
      destruct (parse_path_ok seed (ht_req t) v Hs) as (req' & -> & _ & _ & _ & _ & Hp).
      by do 3 eexists. }
    destruct (bool_decide (n = bs ":scheme")).
    { destruct (seen_scheme _); by do 3 eexists. }
    destruct (bool_decide (n = bs ":authority")); [|by do 3 eexists].
    destruct (seen_authority _); [by do 3 eexists|].
    destruct (add_header_nil (ht_req t) (bs "host") v) as (req' & -> & Hq).
    do 3 eexists. split; [done|]. unfold target_ok, params_ok. cbn. by rewrite Hq.
  - unfold apply_regular. destruct (connection_specific n); [by do 3 eexists|].
    destruct (_ && _); [by do 3 eexists|]. destruct (_ && _); [by do 3 eexists|].
    destruct (is_request _ && _).
    + destruct (h2_parse_content_length v) as [k|]; [|by do 3 eexists].
      destruct (_ && _); [by do 3 eexists|].
      destruct (add_header_nil ((ht_req t) <| req_content_length := k |>) n v) as (req' & -> & Hq).
      do 3 eexists. split; [done|]. unfold target_ok, params_ok. cbn [ht_req]. by rewrite Hq.
    + destruct (add_header_nil (ht_req t) n v) as (req' & -> & Hq).
      do 3 eexists. split; [done|]. unfold target_ok, params_ok. cbn. by rewrite Hq.
Qed.

(** Comparisons of literals, and of what was seen. *)
Ltac literals :=
  repeat match goal with
  | |- context [bool_decide (bs ?a = bs ?b)] =>
      let v := eval vm_compute in (bool_decide (bs a = bs b)) in
      change (bool_decide (bs a = bs b)) with v
  end.

Lemma elem_snoc_fresh (n v : bytes) (fs : list field) f :
  f.1 <> n -> bool_decide ((n, v) ∈ fs ++ [f]) = bool_decide ((n, v) ∈ fs).
Proof.
  intros H. apply bool_decide_ext. rewrite elem_of_app, list_elem_of_singleton.
  split; [|by left]. intros [Hi|<-]; done.
Qed.

Lemma has_elem n v fs : (n, v) ∈ fs -> has n fs = true.
Proof. intros H. apply bool_decide_true. apply list_elem_of_fmap. by exists (n, v). Qed.

Lemma all_pseudo fs :
  Forall (fun g : field => is_pseudo g.1 = true) fs <->
  existsb (fun g => negb (is_pseudo g.1)) fs = false.
Proof.
  induction fs as [|f fs IH]; [done|]. cbn [existsb].
  rewrite list.Forall_cons, IH, orb_false_iff, negb_false_iff. done.
Qed.

(** The conditions a pseudo-header must meet besides its syntax. *)
Lemma allowed_pseudo fs n v :
  Z.of_nat (length fs) < CWIST_HTTP2_MAX_HEADERS_PER_REQUEST -> name_ok n -> value_ok v ->
  is_pseudo n = true ->
  (allowed fs (n, v) <->
   existsb (fun g : field => negb (is_pseudo g.1)) fs = false /\ n ∈ pseudo_names /\ has n fs = false).
Proof.
  intros Hc Hn Hv Hp. unfold has. split.
  - intros [_ _ A3 A4 A5 _ _]. cbn [fst snd] in *. split; [by apply all_pseudo, A4|].
    split; [by apply A3|]. apply bool_decide_eq_false. apply A5. by left.
  - intros (H1 & H2 & H3%bool_decide_eq_false). constructor; cbn [fst snd]; try done.
    + intros _. by apply all_pseudo.
    + unfold pseudo_names in H2. rewrite !elem_of_cons, elem_of_nil in H2.
      destruct H2 as [->|[->|[->|[->|[]]]]]; done.
    + intros ->. done.
Qed.

Lemma allowed_regular fs n v :
  Z.of_nat (length fs) < CWIST_HTTP2_MAX_HEADERS_PER_REQUEST -> name_ok n -> value_ok v ->
  is_pseudo n = false ->
  (allowed fs (n, v) <->
   connection_specific n = false /\ (n = bs "te" -> v = bs "trailers") /\
   (n = bs "host" -> has n fs = false) /\
   (n = bs "content-length" -> exists k, h2_parse_content_length v = Some k /\
      forall w, (bs "content-length", w) ∈ fs -> h2_parse_content_length w = Some k)).
Proof.
  intros Hc Hn Hv Hp. unfold has. split.
  - intros [_ _ _ _ A5 [A6 A6'] A7]. cbn [fst snd] in *. split; [done|]. split; [done|]. split; [|done].
    intros Hh. apply bool_decide_eq_false. apply A5. by right.
  - intros (H1 & H2 & H3 & H4). constructor; cbn [fst snd]; try done.
    + by rewrite Hp.
    + by rewrite Hp.
    + rewrite Hp. intros [?|Hh]; [done|]. exact (proj1 (bool_decide_eq_false _) (H3 Hh)).
Qed.

(** Reads the fields of explicit records. *)
Ltac flds :=
  cbv beta iota delta [set_field rebuild h2_header_state_fields h2_target_fields http_request_fields
    seen_method seen_path seen_scheme seen_authority seen_regular seen_host is_connect is_request
    header_count ht_req ht_has_content_length req_method req_path req_query req_query_params
    req_version req_headers req_body req_keep_alive req_content_length req_te_chunked_seen
    req_expect_100_seen].

Ltac snoc :=
  rewrite ?has_snoc, ?assoc_snoc, ?existsb_snoc, ?omap_snoc, ?rev_app_distr, ?length_app;
  cbn [fst snd length]; literals; rewrite ?orb_false_r, ?orb_true_r.

Lemma content_length_fresh (fs : list field) (f : field) v :
  f.1 <> bs "content-length" -> (bs "content-length", v) ∈ fs ++ [f] -> (bs "content-length", v) ∈ fs.
Proof. intros H [Hv|Hv%list_elem_of_singleton]%elem_of_app; [done|]. by subst f. Qed.

Lemma not_elem_has n (v : bytes) fs : has n fs = false -> bool_decide ((n, v) ∈ fs) = false.
Proof.
  intros H. apply bool_decide_false. intros Hi. by rewrite (has_elem n v fs Hi) in H.
Qed.

(** A pseudo-header on a stream that took [fs]. *)
Lemma apply_pseudo_step seed req0 fs t st n v :
  applied req0 fs t st -> name_ok n -> value_ok v ->
  existsb (fun g : field => negb (is_pseudo g.1)) fs = false -> n ∈ pseudo_names -> has n fs = false ->
  exists t' st',
    apply_pseudo seed t n v (st <| header_count := Z.of_nat (length fs) + 1 |>) [] = (true, t', st', []) /\
    applied req0 (fs ++ [(n, v)]) t' st'.
Proof.
  intros Ha Hn Hv Hr Hk Hf. destruct st as [sm sp ss sa sr sh ic ir hc], t as [req cl].
  destruct Ha as [A1 A2 A3 A4 A5 A6 A7 A8 A9 A10 A11 A12 A13 A14 A15].
  cbn [seen_method seen_path seen_scheme seen_authority seen_regular seen_host is_connect is_request
    header_count ht_req ht_has_content_length] in *.
  unfold apply_pseudo. flds. rewrite A5, Hr.
  unfold pseudo_names in Hk. rewrite !elem_of_cons, elem_of_nil in Hk.
  destruct Hk as [->|[->|[->|[->|[]]]]]; literals.
  - rewrite A1, Hf. do 2 eexists. split; [reflexivity|]. constructor; flds; snoc; try done.
    + apply bool_decide_ext. rewrite elem_of_app, list_elem_of_singleton.
      pose proof (not_elem_has _ (bs "CONNECT") _ Hf) as He. apply bool_decide_eq_false in He.
      split; [intros ->; by right|]. intros [?|[= ->]]; done.
    + lia.
    + intros w Hw. apply content_length_fresh in Hw; [by apply A11|done].
    + by rewrite (assoc_none _ _ Hf).
    + etransitivity; [exact A14|]. by destruct (assoc (bs ":path") fs).
  - rewrite A2, Hf. destruct (parse_path_ok seed req v A15) as (req' & -> & Hp & Hm & Hh & Hc & Hq).
    do 2 eexists. split; [reflexivity|]. constructor; flds; snoc; try done.
    + rewrite A7. symmetry. by apply elem_snoc_fresh.
    + lia.
    + intros w Hw. apply content_length_fresh in Hw; [|done]. rewrite (A11 w Hw). by rewrite <- Hc.
    + etransitivity; [exact Hh|]. exact A12.
    + etransitivity; [exact Hm|]. etransitivity; [exact A13|]. by destruct (assoc (bs ":method") fs).
    + etransitivity; [exact Hp|]. by rewrite (assoc_none _ _ Hf).
  - rewrite A3, Hf. do 2 eexists. split; [reflexivity|]. constructor; flds; snoc; try done.
    + rewrite A7. symmetry. by apply elem_snoc_fresh.
    + lia.
    + intros w Hw. apply content_length_fresh in Hw; [by apply A11|done].
    + etransitivity; [exact A13|]. by destruct (assoc (bs ":method") fs).
    + etransitivity; [exact A14|]. by destruct (assoc (bs ":path") fs).
  - rewrite A4, Hf. rewrite add_header_ok by (first [done | by apply name_valid_spec | by apply value_valid_spec]).
    do 2 eexists. split; [reflexivity|]. constructor; flds; snoc; try done.
    + rewrite A7. symmetry. by apply elem_snoc_fresh.
    + lia.
    + intros w Hw. apply content_length_fresh in Hw; [by apply A11|done].
    + change (field_header (bs ":authority", v)) with (Some (bs "host", v)). cbn [rev app].
      apply (f_equal (cons _)). exact A12.
    + etransitivity; [exact A13|]. by destruct (assoc (bs ":method") fs).
    + etransitivity; [exact A14|]. by destruct (assoc (bs ":path") fs).
Qed.

Lemma regular_ne n m : is_pseudo n = false -> is_pseudo m = true -> n <> m.
Proof. intros H1 H2 ->. congruence. Qed.

(** A regular field. *)
Lemma apply_regular_step req0 fs t st n v :
  applied req0 fs t st -> name_ok n -> value_ok v -> is_pseudo n = false ->
  connection_specific n = false -> (n = bs "te" -> v = bs "trailers") ->
  (n = bs "host" -> has n fs = false) ->
  (n = bs "content-length" -> exists k, h2_parse_content_length v = Some k /\
      forall w, (bs "content-length", w) ∈ fs -> h2_parse_content_length w = Some k) ->
  exists t' st',
    apply_regular t n v (st <| header_count := Z.of_nat (length fs) + 1 |>) [] = (true, t', st', []) /\
    applied req0 (fs ++ [(n, v)]) t' st'.
Proof.
  intros Ha Hn Hv Hp Hcs Hte Hho Hcl. destruct st as [sm sp ss sa sr sh ic ir hc], t as [req cl].
  destruct Ha as [A1 A2 A3 A4 A5 A6 A7 A8 A9 A10 A11 A12 A13 A14 A15].
  cbn [seen_method seen_path seen_scheme seen_authority seen_regular seen_host is_connect is_request
    header_count ht_req ht_has_content_length] in *.
  unfold apply_regular. rewrite Hcs.
  assert (Ht : bool_decide (n = bs "te") && negb (bool_decide (v = bs "trailers")) = false).
  { destruct (bool_decide (n = bs "te")) eqn:E; [|done]. apply bool_decide_eq_true in E.
    rewrite bool_decide_true; auto. }
  rewrite Ht. clear Ht. flds.
  assert (Hh : bool_decide (n = bs "host") && sh = false).
  { destruct (bool_decide (n = bs "host")) eqn:E; [|done]. apply bool_decide_eq_true in E.
    cbn [andb]. rewrite A6, <- E. auto. }
  rewrite Hh. clear Hh.
  assert (Hst : (if bool_decide (n = bs "host")
      then MkHeaderState sm sp ss sa true true ic ir (Z.of_nat (length fs) + 1)
      else MkHeaderState sm sp ss sa true sh ic ir (Z.of_nat (length fs) + 1)) =
    MkHeaderState sm sp ss sa true (sh || bool_decide (n = bs "host")) ic ir (Z.of_nat (length fs) + 1))
    by (destruct (bool_decide (n = bs "host")); by rewrite ?orb_true_r, ?orb_false_r).
  rewrite Hst. clear Hst. rewrite A8. cbn [andb].
  assert (Hne : forall m, is_pseudo m = true -> bool_decide (n = m) = false)
    by (intros m Hm; apply bool_decide_false; by apply regular_ne).
  assert (Hcon : bool_decide ((bs ":method", bs "CONNECT") ∈ fs) =
    bool_decide ((bs ":method", bs "CONNECT") ∈ fs ++ [(n, v)]))
    by (symmetry; apply elem_snoc_fresh; by apply regular_ne).
  assert (Hfh : field_header (n, v) = Some (n, v)).
  { unfold field_header. cbn [fst snd]. by rewrite Hne, Hp. }
  assert (Hreq : forall c,
    (forall w, (bs "content-length", w) ∈ fs ++ [(n, v)] -> h2_parse_content_length w = Some c) ->
    applied req0 (fs ++ [(n, v)])
      (MkTarget (req <| req_content_length := c |> <| req_headers := (n, v) :: req.(req_headers) |>)
         (cl || bool_decide (n = bs "content-length")))
      (MkHeaderState sm sp ss sa true (sh || bool_decide (n = bs "host")) ic true (Z.of_nat (length fs) + 1))).
  { intros c Hc. constructor; flds; snoc; rewrite ?Hne, ?orb_false_r, ?Hfh, ?Hp by done; cbn [negb];
      rewrite ?orb_true_r; try congruence; try lia; try done.
    - cbn [rev app]. apply (f_equal (cons _)). exact A12.
    - etransitivity; [exact A13|]. by destruct (assoc (bs ":method") fs).
    - etransitivity; [exact A14|]. by destruct (assoc (bs ":path") fs). }
  destruct (bool_decide (n = bs "content-length")) eqn:Ecl.
  - apply bool_decide_eq_true in Ecl. destruct (Hcl Ecl) as (k & Hk & Hall). rewrite Hk.
    assert (Hsame : cl && negb ((let (_, _, _, _, _, _, _, _, c, _, _) := req in c) =? k) = false).
    { destruct cl eqn:E; [|done]. symmetry in A10. apply bool_decide_eq_true in A10.
      apply list_elem_of_fmap in A10 as [[n' w] [Hn' Hw]]. cbn in Hn'. subst n'.
      pose proof (A11 w Hw) as H1. rewrite (Hall w Hw) in H1. injection H1 as ->.
      change (let (_, _, _, _, _, _, _, _, c, _, _) := req in c) with (req_content_length req).
      by rewrite Z.eqb_refl. }
    rewrite Hsame. clear Hsame. specialize (Hreq k). rewrite orb_true_r in Hreq.
    match goal with |- context [add_header ?r n v []] =>
      change r with (req <| req_content_length := k |>) end.
    rewrite add_header_ok by done. do 2 eexists. split; [reflexivity|]. apply Hreq.
    intros w [Hw|Hw%list_elem_of_singleton]%elem_of_app; [by apply Hall|]. by injection Hw as _ ->.
  - apply bool_decide_eq_false in Ecl. rewrite add_header_ok by done. do 2 eexists.
    split; [reflexivity|]. specialize (Hreq (req_content_length req)). rewrite orb_false_r in Hreq.
    destruct req as [r1 r2 r3 r4 r5 r6 r7 r8 r9 r10 r11]. apply Hreq.
    intros w Hw. apply A11. by apply content_length_fresh in Hw.
Qed.

(** A field is accepted exactly when it is allowed, and is then accounted for. *)
Lemma apply_header_step seed req0 fs t st f :
  applied req0 fs t st -> Z.of_nat (length fs) <= CWIST_HTTP2_MAX_HEADERS_PER_REQUEST ->
  exists ok t' st',
    h2_apply_header seed (Some t) f.1 f.2 st [] = (ok, Some t', st', []) /\ params_ok t'.(ht_req) /\
    (ok = true <-> allowed fs f) /\ (ok = true -> applied req0 (fs ++ [f]) t' st').
Proof.
  intros Ha Hlen. destruct f as [n v]. cbn [fst snd].
  destruct (apply_header_nil seed (Some t) n v st (ap_params _ _ _ _ Ha)) as (ok & s' & st' & E & Hs').
  assert (Hsome : exists t', s' = Some t').
  { unfold h2_apply_header in E.
    destruct (_ || _); [injection E as _ <- _; by eexists|].
    destruct (_ <? _); [injection E as _ <- _; by eexists|].
    destruct (if _ =? _ then _ else _) as [[[a b] c] d]. injection E as _ <- _ _. by eexists. }
  destruct Hsome as [t' ->]. exists ok, t', st'. split; [done|]. split; [done|].
  cut ((ok = true -> allowed fs (n, v)) /\
       (allowed fs (n, v) -> ok = true /\ applied req0 (fs ++ [(n, v)]) t' st')).
  { intros [H1 H2]. split; [split; [exact H1|intros H; exact (proj1 (H2 H))]|].
    intros Hok. exact (proj2 (H2 (H1 Hok))). }
  unfold h2_apply_header in E.
  unfold CWIST_HTTP2_MAX_HEADERS_PER_REQUEST in *.
  change (header_count (st <| header_count := u32 (header_count st + 1) |>))
    with (u32 (header_count st + 1)) in E.
  rewrite (ap_count _ _ _ _ Ha) in E. rewrite (u32_id (Z.of_nat (length fs) + 1)) in E by mlia.
  destruct (h2_field_name_is_valid n) eqn:En; cbn [negb orb] in E.
  2: { injection E as <- <- <-. split; [done|]. intros [_ [Hn _] _ _ _ _ _]. apply name_valid_spec in Hn. cbn [fst] in Hn. congruence. }
  apply name_valid_spec in En.
  destruct (h2_field_value_is_valid v) eqn:Ev; cbn [negb orb] in E.
  2: { injection E as <- <- <-. split; [done|]. intros [_ [_ Hv] _ _ _ _ _]. apply value_valid_spec in Hv. cbn [snd] in Hv. congruence. }
  apply value_valid_spec in Ev.
  destruct (Z.ltb_spec 256 (Z.of_nat (length fs) + 1)) as [Hc|Hc].
  { injection E as <- <- <-. split; [done|]. intros [A1 _ _ _ _ _ _].
    unfold CWIST_HTTP2_MAX_HEADERS_PER_REQUEST in A1. lia. }
  assert (Hc' : Z.of_nat (length fs) < CWIST_HTTP2_MAX_HEADERS_PER_REQUEST)
    by (unfold CWIST_HTTP2_MAX_HEADERS_PER_REQUEST; lia).
  change (rd n 0 =? 58) with (is_pseudo n) in E. destruct (is_pseudo n) eqn:Ep.
  - rewrite (allowed_pseudo fs n v Hc' En Ev Ep). split.
    + intros ->. unfold apply_pseudo in E.
      change (seen_regular (st <| header_count := Z.of_nat (length fs) + 1 |>)) with (seen_regular st) in E.
      change (seen_method (st <| header_count := Z.of_nat (length fs) + 1 |>)) with (seen_method st) in E.
      change (seen_path (st <| header_count := Z.of_nat (length fs) + 1 |>)) with (seen_path st) in E.
      change (seen_scheme (st <| header_count := Z.of_nat (length fs) + 1 |>)) with (seen_scheme st) in E.
      change (seen_authority (st <| header_count := Z.of_nat (length fs) + 1 |>)) with (seen_authority st) in E.
      rewrite (ap_regular _ _ _ _ Ha), (ap_method _ _ _ _ Ha), (ap_path _ _ _ _ Ha),
        (ap_scheme _ _ _ _ Ha), (ap_authority _ _ _ _ Ha) in E.
      destruct (existsb _ fs); [done|]. split; [done|]. unfold pseudo_names.
      rewrite !elem_of_cons.
      destruct (bool_decide (n = bs ":method")) eqn:E1.
      { apply bool_decide_eq_true in E1 as ->. split; [by left|]. by destruct (has _ fs). }
      destruct (bool_decide (n = bs ":path")) eqn:E2.
      { apply bool_decide_eq_true in E2 as ->. split; [by right; left|]. by destruct (has _ fs). }
      destruct (bool_decide (n = bs ":scheme")) eqn:E3.
      { apply bool_decide_eq_true in E3 as ->. split; [by do 2 right; left|]. by destruct (has _ fs). }
      destruct (bool_decide (n = bs ":authority")) eqn:E4; [|done].
      apply bool_decide_eq_true in E4 as ->. split; [by do 3 right; left|]. by destruct (has _ fs).
    + intros (H1 & H2 & H3).
      destruct (apply_pseudo_step seed req0 fs t st n v Ha En Ev H1 H2 H3) as (t2 & st2 & E2 & Ha2).
      rewrite E2 in E. by injection E as <- <- <-.
  - rewrite (allowed_regular fs n v Hc' En Ev Ep). split.
    + intros ->. unfold apply_regular in E. destruct (connection_specific n); [done|].
      destruct (bool_decide (n = bs "te") && negb (bool_decide (v = bs "trailers"))) eqn:E1; [done|].
      set (st1 := st <| header_count := _ |> <| seen_regular := true |>) in E.
      change (seen_host st1) with (seen_host st) in E. rewrite (ap_host _ _ _ _ Ha) in E.
      destruct (bool_decide (n = bs "host") && has (bs "host") fs) eqn:E2; [done|].
      assert (Hreq : is_request (if bool_decide (n = bs "host") then st1 <| seen_host := true |> else st1) = true)
        by (destruct (bool_decide (n = bs "host")); exact (ap_request _ _ _ _ Ha)).
      rewrite Hreq in E. cbn [andb] in E. split; [done|]. split.
      { intros ->. cbn in E1. apply negb_false_iff, bool_decide_eq_true in E1. done. }
      split; [by intros ->|]. intros ->.
      change (bool_decide (bs "content-length" = bs "content-length")) with true in E. cbv iota in E.
      destruct (h2_parse_content_length v) as [k|]; [|done]. exists k. split; [done|]. intros w Hw.
      rewrite (ap_length _ _ _ _ Ha w Hw). f_equal.
      rewrite (ap_has_length _ _ _ _ Ha), (has_elem _ _ _ Hw) in E. cbn [andb] in E.
      destruct (Z.eqb_spec (req_content_length (ht_req t)) k); [done|]. done.
    + intros (H1 & H2 & H3 & H4).
      destruct (apply_regular_step req0 fs t st n v Ha En Ev Ep H1 H2 H3 H4) as (t2 & st2 & E2 & Ha2).
      rewrite E2 in E. by injection E as <- <- <-.
Qed.

(** ** The block as a list of fields *)

(** The fields a block spells and the table it leaves, with memory to spare. *)
Fixpoint block_fields (fuel : nat) (t : hpack_table) (payload : bytes) (pos : nat)
    : option (list field * hpack_table) :=
  match fuel with
  | O => None
  | S fuel =>
      if (length payload <=? pos)%nat then Some ([], t) else
      match (decode_representation t payload pos []).1 with
      | None => None
      | Some (r, pos) =>
          match table_step t r [] with
          | (false, _, _) => None
          | (true, t, _) =>
              match block_fields fuel t payload pos with
              | None => None
              | Some (fs, t) => Some (option_list (repr_field r) ++ fs, t)
              end
          end
      end
  end.

Fixpoint apply_all (seed : bytes) (s : option h2_target) (st : h2_header_state) (fs : list field)
    : bool * option h2_target * h2_header_state :=
  match fs with
  | [] => (true, s, st)
  | f :: fs =>
      let '(ok, s, st, _) := h2_apply_header seed s f.1 f.2 st [] in
      let '(all_ok, s, st) := apply_all seed s st fs in
      (ok && all_ok, s, st)
  end.

Lemma decode_representation_nil t payload pos :
  bytes_ok payload -> (decode_representation t payload pos []).2 = [].
Proof.
  intros Hok. unfold decode_representation. destruct (negb _).
  { destruct (h2_decode_integer payload pos 7) as [[i p]|]; [|done].
    by destruct (indexed_field t i) as [[n v]|]. }
  destruct (_ =? 32). { by destruct (h2_decode_integer payload pos 5) as [[i p]|]. }
  destruct (if _ =? 64 then _ else _) as [[prefix inc]|]; [|done].
  destruct (h2_decode_integer payload pos prefix) as [[i p]|]; [|done].
  assert (H1 : (literal_name t payload p i []).2 = []).
  { unfold literal_name. destruct (0 <? i); [|by apply h2_decode_string_nil].
    by destruct (indexed_field t i) as [[n v]|]. }
  destruct (literal_name t payload p i []) as [[[n p1]|] o1]; cbn in H1; subst o1; [|done].
  pose proof (h2_decode_string_nil payload p1 Hok) as H2.
  by destruct (h2_decode_string_counted payload p1 []) as [[[v p2]|] o2].
Qed.

Lemma table_step_nil t r : (table_step t r []).2 = [].
Proof.
  destruct r as [n v|n|n v []]; cbn [table_step]; try done.
  - by destruct (h2_hpack_set_capacity t n).
  - destruct (_ && _); [|done]. unfold h2_hpack_insert. by destruct (_ <? _).
Qed.

(** The loop decodes fields and applies them one by one. *)
Lemma decode_loop_fields fuel : forall seed payload pos t s st err,
  bytes_ok payload -> (length payload - pos < fuel)%nat -> target_ok s ->
  match block_fields fuel t payload pos with
  | None => exists d, decode_loop fuel seed payload pos (MkDecode t s st err []) = Some (false, d)
  | Some (fs, t') =>
      let '(ok, s', st') := apply_all seed s st fs in
      decode_loop fuel seed payload pos (MkDecode t s st err []) =
        Some (true, MkDecode t' s' st' (err || negb ok) [])
  end.
Proof.
  induction fuel as [|fuel IH]; intros seed payload pos t s st err Hok Hf Hs; [lia|].
  cbn [block_fields decode_loop].
  destruct (Nat.leb_spec (length payload) pos); [cbn [apply_all negb]; by rewrite orb_false_r|].
  pose proof (decode_representation_nil t payload pos Hok) as Hn.
  destruct (decode_representation t payload pos []) as [[[r p]|] o1] eqn:E; cbn in Hn; subst o1;
    [|by eexists].
  apply decode_representation_pos in E; [|done]. cbn [fst].
  assert (Happ : exists ok s1 st1,
    match repr_field r with
    | Some (n, v) => h2_apply_header seed s n v st []
    | None => (true, s, st, [])
    end = (ok, s1, st1, []) /\ target_ok s1 /\
    forall fs, apply_all seed s st (option_list (repr_field r) ++ fs) =
      let '(all_ok, s, st) := apply_all seed s1 st1 fs in (ok && all_ok, s, st)).
  { destruct (repr_field r) as [[n v]|].
    - destruct (apply_header_nil seed s n v st Hs) as (ok & s1 & st1 & Ea & Hs1).
      exists ok, s1, st1. split; [done|]. split; [done|]. intros fs.
      change (option_list (Some (n, v)) ++ fs) with ((n, v) :: fs). cbn [apply_all fst snd]. by rewrite Ea.
    - exists true, s, st. split; [done|]. split; [done|]. intros fs. cbn [option_list app].
      change (option_list None ++ fs) with fs. by destruct (apply_all seed s st fs) as [[a b] c]. }
  destruct Happ as (ok & s1 & st1 & -> & Hs1 & Hall).
  pose proof (table_step_nil t r) as Ht. destruct (table_step t r []) as [[ok2 t1] o2].
  cbn in Ht. subst o2. destruct ok2; [|by eexists].
  specialize (IH seed payload p t1 s1 st1 (err || negb ok) Hok ltac:(lia) Hs1).
  destruct (block_fields fuel t1 payload p) as [[fs t']|]; [|done].
  rewrite Hall. destruct (apply_all seed s1 st1 fs) as [[all_ok s'] st']. rewrite IH.
  do 3 f_equal. rewrite <- orb_assoc. f_equal. by destruct ok, all_ok.
Qed.

(** ** What a header block leaves alone

    Whatever the block and the allocations: the table stays well-formed, a
    stream with a request keeps it, and the request keeps its body. *)

Lemma decode_representation_ok t payload pos o r pos' o' :
  bytes_ok payload -> blen payload < 2 ^ 32 -> table_ok t ->
  decode_representation t payload pos o = (Some (r, pos'), o') -> repr_ok r.
Proof.
  intros Hok Hlen Ht H. unfold decode_representation in H. change (2 ^ 32) with 4294967296 in Hlen.
  destruct (negb _).
  { destruct (h2_decode_integer payload pos 7) as [[i p]|]; [|done].
    destruct (indexed_field t i) as [[n v]|]; [|done]. by simplify_eq. }
  destruct (_ =? 32).
  { destruct (h2_decode_integer payload pos 5) as [[i p]|] eqn:E; [|done]. simplify_eq.
    by apply h2_decode_integer_pos in E as [_ E]. }
  destruct (if _ =? 64 then _ else _) as [[prefix inc]|]; [|done].
  destruct (h2_decode_integer payload pos prefix) as [[i p]|] eqn:E; [|done].
  destruct (literal_name t payload p i o) as [[[n p1]|] o1] eqn:E1; [|done].
  destruct (h2_decode_string_counted payload p1 o1) as [[[v p2]|] o2] eqn:E2; [|done].
  simplify_eq. apply h2_decode_string_length in E2. cbn [repr_ok].
  assert (Hn : (length n <= 8 * length payload + 5000)%nat).
  { unfold literal_name in E1. destruct (0 <? i).
    - destruct (indexed_field t i) as [[n' v']|] eqn:Ei; [|done].
      destruct (alloc o) as [[] o3]; [|done]. simplify_eq.
      unfold indexed_field in Ei. destruct (h2_static_header i) as [[a b]|] eqn:Es; simplify_eq.
      + assert (Hst : forallb (fun e => (length e.1 <=? 100)%nat) static_table = true) by (vm_compute; reflexivity).
        assert (Hin : (n, v') ∈ static_table).
        { unfold h2_static_header in Es. repeat case_match; simplify_eq.
          by eapply list_elem_of_lookup_2. }
        rewrite forallb_forall in Hst. apply list_elem_of_In in Hin. specialize (Hst _ Hin).
        cbn in Hst. apply Nat.leb_le in Hst. lia.
      + unfold h2_hpack_dynamic_get in Ei. repeat case_match; simplify_eq.
        match goal with H : dynamic_walk _ _ = Some ?e |- _ => rename H into Hw; rename e into en end.
        assert (Hin : forall l k e, dynamic_walk l k = Some e -> e ∈ l).
        { induction l as [|x l IH]; intros k e; cbn [dynamic_walk]; [done|].
          destruct (_ =? 0); [intros; simplify_eq; left|]. intros Hx. right. by eapply IH. }
        apply Hin in Hw. pose proof (table_ok_total t Ht) as Htot.
        pose proof (tk_entries t Ht) as He. rewrite list.Forall_forall in He.
        assert (Hsz : forall l, Forall entry_ok l -> en ∈ l -> he_size en <= total l).
        { induction 1 as [|x l Hx Hl IH]; intros Hi; [by apply elem_of_nil in Hi|]. cbn [total].
          pose proof (entry_ok_pos x Hx). pose proof (total_nonneg l Hl).
          apply elem_of_cons in Hi as [->|Hi]; [lia|]. specialize (IH Hi). lia. }
        specialize (Hsz _ (tk_entries t Ht) Hw). pose proof (eo_size en (He _ Hw)). unfold blen in *. lia.
    - apply h2_decode_string_length in E1. lia. }
  unfold blen in *. change (2 ^ 62) with 4611686018427387904. lia.
Qed.

(** The same stream, the same body. *)
Definition same_body (s s' : option h2_target) : Prop :=
  match s, s' with
  | None, None => True
  | Some t, Some t' => t'.(ht_req).(req_body) = t.(ht_req).(req_body)
  | _, _ => False
  end.
#[export] Instance same_body_refl : Reflexive same_body.
Proof. by intros [t|]. Qed.
#[export] Instance same_body_trans : Transitive same_body.
Proof. intros [a|] [b|] [c|]; cbn; congruence || done. Qed.

Lemma add_header_body req n v o : (add_header req n v o).1.(req_body) = req.(req_body).
Proof. unfold add_header. by destruct (header_add _ _ _ o) as [[]]. Qed.

Lemma parse_path_body seed req path o : (h2_parse_path seed req path o).1.(req_body) = req.(req_body).
Proof. unfold h2_parse_path. repeat case_match; simplify_eq; done. Qed.

Lemma apply_header_body seed s n v st o :
  same_body s (h2_apply_header seed s n v st o).1.1.2.
Proof.
  unfold h2_apply_header. destruct s as [t|]; [|done].
  destruct (_ || _); [done|]. destruct (_ <? _); [done|].
  destruct (rd n 0 =? 58).
  - unfold apply_pseudo. destruct (seen_regular _); [done|].
    destruct (bool_decide (n = bs ":method")); [by destruct (seen_method _)|].
    destruct (bool_decide (n = bs ":path")).
    { destruct (seen_path _); [done|]. pose proof (parse_path_body seed (ht_req t) v o) as H.
      by destruct (h2_parse_path seed (ht_req t) v o). }
    destruct (bool_decide (n = bs ":scheme")); [by destruct (seen_scheme _)|].
    destruct (bool_decide (n = bs ":authority")); [|done]. destruct (seen_authority _); [done|].
    pose proof (add_header_body (ht_req t) (bs "host") v o) as H. by destruct (add_header _ _ _ o).
  - unfold apply_regular. destruct (connection_specific n); [done|]. destruct (_ && _); [done|].
    destruct (_ && _); [done|]. destruct (_ && _).
    + destruct (h2_parse_content_length v) as [k|]; [|done]. destruct (_ && _); [done|].
      pose proof (add_header_body ((ht_req t) <| req_content_length := k |>) n v o) as H.
      by destruct (add_header _ _ _ o).
    + pose proof (add_header_body (ht_req t) n v o) as H. by destruct (add_header _ _ _ o).
Qed.

Lemma decode_loop_frame fuel : forall seed payload pos t s st err o b d,
  bytes_ok payload -> blen payload < 2 ^ 32 -> table_ok t ->
  decode_loop fuel seed payload pos (MkDecode t s st err o) = Some (b, d) ->
  table_ok d.(ds_table) /\ same_body s d.(ds_target) /\
  (target_ok s -> o = [] -> d.(ds_oracle) = [] /\ target_ok d.(ds_target)).
Proof.
  induction fuel as [|fuel IH]; intros seed payload pos t s st err o b d Hok Hl Ht; cbn [decode_loop]; [done|].
  destruct (_ <=? _)%nat; [intros; by simplify_eq|].
  pose proof (decode_representation_nil t payload pos Hok) as Hdn.
  destruct (decode_representation t payload pos o) as [[[r p]|] o1] eqn:Er.
  2: { intros [= <- <-]. cbn. split; [done|]. split; [done|]. intros Ht1 Ho. rewrite Ho in Er.
       rewrite Er in Hdn. done. }
  assert (Ho1 : o = [] -> o1 = []) by (intros Ho; rewrite Ho in Er; rewrite Er in Hdn; done).
  pose proof (decode_representation_ok t payload pos o r p o1 Hok Hl Ht Er) as Hr.
  set (app := match repr_field r with Some _ => _ | None => _ end).
  assert (Ha : same_body s app.1.1.2 /\ (target_ok s -> o = [] -> app.2 = [] /\ target_ok app.1.1.2)).
  { unfold app. destruct (repr_field r) as [[n v]|]; [|split; [reflexivity|intros; split; [by apply Ho1|done]]]. split; [apply apply_header_body|].
    intros Hts Ho. rewrite (Ho1 Ho). by destruct (apply_header_nil seed s n v st Hts) as (ok & s' & st' & -> & H). }
  destruct app as [[[ok s1] st1] o2]. cbn [fst snd] in Ha. destruct Ha as [Ha1 Ha2].
  destruct (table_step_spec t r Ht Hr) as [Hstep _]. pose proof (table_step_nil t r) as Htn.
  assert (Ho3 : forall x t2 o3, table_step t r o2 = (x, t2, o3) -> o2 = [] -> o3 = [])
    by (intros x t2 o3 Hx Ho2; rewrite Ho2 in Hx; rewrite Hx in Htn; done).
  destruct (Hstep o2) as (t2 & o3 & [(Es & Ht2 & _)|Es]); rewrite Es; specialize (Ho3 _ _ _ Es).
  - intros H. apply IH in H as (H1 & H2 & H3); [|done..]. split; [done|]. split; [by etrans|].
    intros Hts Ho. destruct (Ha2 Hts Ho) as [H4 H5]. auto.
  - intros [= <- <-]. cbn. split; [done|]. split; [done|]. intros Hts Ho. destruct (Ha2 Hts Ho) as [H4 H5]. auto.
Qed.

(** Enough steps are there, so a block is always decoded to a verdict. *)
Lemma decode_block_frame seed t s payload request o :
  bytes_ok payload -> blen payload < 2 ^ 32 -> table_ok t ->
  exists r t' s' o', h2_decode_header_block seed t s payload request o = Some (r, t', s', o') /\
    table_ok t' /\ same_body s s' /\ (target_ok s -> o = [] -> o' = [] /\ target_ok s').
Proof.
  intros Hok Hl Ht. unfold h2_decode_header_block.
  destruct (decode_loop_fuel (S (length payload)) (S (length payload)) seed payload 0
    (MkDecode t s (header_state0 request) false o) Hok ltac:(lia) ltac:(lia)) as [_ H].
  destruct (decode_loop _ _ _ _ _) as [[ok [t' s' st err o']]|] eqn:Ed; [|done].
  apply decode_loop_frame in Ed; [|done..]. do 4 eexists. split; [reflexivity|]. exact Ed.
Qed.

Lemma request_fields_prefix a b : request_fields (a ++ b) -> request_fields a.
Proof.
  induction b as [|f b IH] using rev_ind; [by rewrite app_nil_r|].
  rewrite app_assoc. intros H. apply IH. exact (proj1 (proj1 (request_fields_snoc _ _) H)).
Qed.

Lemma apply_all_spec seed req0 fs : forall fs0 t st,
  request_fields fs0 -> applied req0 fs0 t st ->
  let '(ok, s', st') := apply_all seed (Some t) st fs in
  (ok = true <-> request_fields (fs0 ++ fs)) /\
  (ok = true -> exists t', s' = Some t' /\ applied req0 (fs0 ++ fs) t' st').
Proof.
  induction fs as [|f fs IH]; intros fs0 t st Hfs Ha; cbn [apply_all].
  { rewrite app_nil_r. split; [done|]. intros _. by exists t. }
  destruct (apply_header_step seed req0 fs0 t st f Ha (rf_count _ Hfs))
    as (ok & t1 & st1 & -> & Hp1 & Hiff & Happ).
  destruct ok.
  - specialize (IH (fs0 ++ [f]) t1 st1). rewrite <- app_assoc in IH. cbn [app] in IH.
    destruct (apply_all seed (Some t1) st1 fs) as [[ok s'] st'] eqn:E. cbn [andb]. apply IH.
    + apply request_fields_snoc. split; [done|]. by apply Hiff.
    + by apply Happ.
  - destruct (apply_all seed (Some t1) st1 fs) as [[ok s'] st'] eqn:E. cbn [andb].
    split; [|done]. split; [done|]. intros H. exfalso.
    assert (H1 : request_fields (fs0 ++ [f]))
      by (apply (request_fields_prefix _ fs); by rewrite <- app_assoc).
    apply request_fields_snoc in H1 as [_ H1]. by apply Hiff in H1.
Qed.

Lemma applied_start req0 :
  params_ok req0 -> applied req0 [] (MkTarget req0 false) (header_state0 true).
Proof.
  intros Hp. constructor; try done. intros v Hv. by apply not_elem_of_nil in Hv.
Qed.

(** The pseudo-headers a request must have. *)
Definition control_fields (fs : list field) : Prop :=
  if bool_decide ((bs ":method", bs "CONNECT") ∈ fs)
  then has (bs ":authority") fs = true /\ has (bs ":scheme") fs = false /\ has (bs ":path") fs = false
  else exists m p, assoc (bs ":method") fs = Some m /\ has (bs ":scheme") fs = true /\
    assoc (bs ":path") fs = Some p /\ ((cut 63 p).1 = [] -> string_to_method m = HTTP_OPTIONS).

Lemma assoc_has n fs : has n fs = true <-> exists v, assoc n fs = Some v.
Proof.
  unfold has. rewrite bool_decide_eq_true. induction fs as [|[k v] fs IH].
  - split; [by intros ?%not_elem_of_nil|by intros [v [=]]].
  - rewrite fmap_cons, elem_of_cons. cbn [fst assoc]. destruct (bool_decide (k = n)) eqn:E.
    + apply bool_decide_eq_true in E as ->. split; [by eexists|by left].
    + apply bool_decide_eq_false in E. rewrite <- IH. split; [by intros [?|?]|by right].
Qed.

Lemma control_spec req0 fs t st :
  applied req0 fs t st ->
  negb (control_valid st) || (st.(seen_path) && path_missing (Some t)) = false <-> control_fields fs.
Proof.
  intros Ha. unfold control_valid, control_fields, path_missing.
  rewrite (ap_connect _ _ _ _ Ha), (ap_method _ _ _ _ Ha), (ap_path _ _ _ _ Ha), (ap_scheme _ _ _ _ Ha),
    (ap_authority _ _ _ _ Ha), (ap_target _ _ _ _ Ha), (ap_verb _ _ _ _ Ha).
  case_bool_decide as Ec.
  - rewrite (has_elem _ _ _ Ec). cbn [andb].
    destruct (has (bs ":authority") fs), (has (bs ":scheme") fs), (has (bs ":path") fs); naive_solver.
  - destruct (has (bs ":method") fs) eqn:Em.
    2: { split; [done|]. intros (m & p & Hm & _). by rewrite (assoc_none _ _ Em) in Hm. }
    destruct (has (bs ":scheme") fs) eqn:Es; [|split; [done|naive_solver]].
    destruct (has (bs ":path") fs) eqn:Epp.
    2: { split; [done|]. intros (m & p & _ & _ & Hp & _). by rewrite (assoc_none _ _ Epp) in Hp. }
    apply assoc_has in Em as [m Em], Epp as [p Epp]. rewrite Em, Epp. cbn [andb negb orb default].
    change (id (cut 63 p).1) with (cut 63 p).1.
    destruct (Nat.eqb_spec (length (cut 63 p).1) 0) as [E0|E0]; cbn [andb].
    + apply nil_length_inv in E0. rewrite negb_false_iff, bool_decide_eq_true. naive_solver.
    + split; [|done]. intros _. exists m, p. split; [done|]. split; [done|]. split; [done|].
      intros E1. by rewrite E1 in E0.
Qed.


Definition wit_request0 : http_request :=
  MkRequest HTTP_GET (Some (bs "/")) None None (Some (bs "HTTP/1.1")) [] None true 0 false false.
(** GET, http, a literal path, an authority by static name, and a header that
    enters the dynamic table. *)
Definition wit_block : bytes :=
  [0x82; 0x86; 0x04; 0x02; 47; 97; 0x41; 0x01; 104; 0x40; 0x03; 120; 45; 97; 0x01; 49].
Definition wit_fields : list field :=
  [(bs ":method", bs "GET"); (bs ":scheme", bs "http"); (bs ":path", bs "/a");
   (bs ":authority", bs "h"); (bs "x-a", bs "1")].


(** ** Observed behaviour *)

(** A request whose pseudo-headers follow a regular field is a stream error,
    and an index past both tables a compression error. *)
Example pseudo_after_regular :
  (fst <$> (fst <$> (fst <$> h2_decode_header_block [] hpack_init
    (Some (MkTarget wit_request0 false)) [0x82; 0x86; 0x90; 0x84] true []))) = Some DECODE_STREAM_ERROR.
Proof. vm_compute. reflexivity. Qed.
Example index_past_tables :
  (fst <$> (fst <$> (fst <$> h2_decode_header_block [] hpack_init
    (Some (MkTarget wit_request0 false)) [0xbe] true []))) = Some DECODE_COMPRESSION_ERROR.
Proof. vm_compute. reflexivity. Qed.

(** When memory fails for the path the request keeps the path it was created
    with: a request for "/a" is accepted as one for "/". *)
Example path_lost_without_memory :
  exists t s o, h2_decode_header_block [] hpack_init (Some (MkTarget wit_request0 false))
      [0x82; 0x86; 0x04; 0x02; 47; 97] true [true; true; false] = Some (DECODE_OK, t, Some s, o) /\
    s.(ht_req).(req_path) = Some (bs "/").
Proof. do 3 eexists. split; vm_compute; reflexivity. Qed.
