(* ===== verification/HpackEncode.v ===== *)
(** * HPACK encoding and header frames (src/src/net/http/http2.c)

    The encoder of response header blocks and of header pairs (trailers and
    hook responses), the growing buffer it writes to, and the splitting of a
    block into HEADERS and CONTINUATION frames.

    The encoder state is what has been written and the extent of the writes:
    one more than the largest index of [dst] stored to.  [None] is the result
    0, the block does not fit.  [tolower] is that of the C locale. *)

From S2P Require Import Prelude H2Wire H2Out SipHash QueryMap SimdParser Http1 HpackPrim Hpack HttpResponse.

(** ** Writing into the block *)

Record writer : Type := MkWriter { wr_out : bytes; wr_ext : nat }.

(** A step of the encoder: the state after it and whether it went on. *)
Abbreviation emit := (bool * writer)%type.
Definition andthen (m : emit) (k : writer -> emit) : emit :=
  match m with (true, w) => k w | (false, w) => (false, w) end.
Notation "m >>> k" := (andthen m k) (at level 60, right associativity) : cwist_scope.

(** [if (pos >= dst_cap) return 0; dst[pos++] = b] *)
Definition put_byte (cap : nat) (b : Z) (w : writer) : emit :=
  if (cap <=? length w.(wr_out))%nat then (false, w)
  else (true, MkWriter (w.(wr_out) ++ [b]) (Nat.max w.(wr_ext) (length w.(wr_out) + 1))).

(** What a sub-encoder writes at [dst + pos]. *)
Definition put_code (w : writer) (r : option bytes * nat) : emit :=
  let ext := Nat.max w.(wr_ext) (length w.(wr_out) + r.2) in
  match r.1 with
  | Some code => (true, MkWriter (w.(wr_out) ++ code) ext)
  | None => (false, MkWriter w.(wr_out) ext)
  end.

(** The literal's first byte and its name index. *)
Definition put_index (cap : nat) (index : Z) (w : writer) : emit :=
  if (cap <? length w.(wr_out) + 1)%nat then (false, w)
  else put_code w (h2_encode_integer 0 (cap - length w.(wr_out)) index 4).

Definition put_string (cap : nat) (s : bytes) (w : writer) : emit :=
  put_code w (h2_encode_string (cap - length w.(wr_out)) s).

(** ** Fields *)

Fixpoint find_name (table : list (bytes * bytes)) (i : Z) (name : bytes) : Z :=
  match table with
  | [] => 0
  | (n, _) :: table => if case_eq n name then i else find_name table (i + 1) name
  end.
Definition h2_static_table_find_name (name : bytes) : Z := find_name static_table 1 name.

(** A literal field without indexing, named by index when the table knows it. *)
Definition put_field (cap : nat) (name value : bytes) (w : writer) : emit :=
  let name_idx := h2_static_table_find_name name in
  put_index cap name_idx w >>> fun w =>
  (if 0 <? name_idx then (true, w) else put_string cap name w) >>> put_string cap value.

(** The copy of the name into [lower_name[256]]. *)
Definition lower_name (key : bytes) : bytes := map tolower (take 255 (cstr key)).

Definition h2_status_forbids_body (status : Z) : bool :=
  ((100 <=? status) && (status <? 200)) || (status =? 204) || (status =? 304).

Definition put_status (cap : nat) (status : Z) (w : writer) : emit :=
  if status =? 200 then put_byte cap 0x88 w
  else if status =? 204 then put_byte cap 0x89 w
  else if status =? 206 then put_byte cap 0x8a w
  else if status =? 304 then put_byte cap 0x8b w
  else if status =? 400 then put_byte cap 0x8c w
  else if status =? 404 then put_byte cap 0x8d w
  else if status =? 500 then put_byte cap 0x8e w
  else put_index cap 0 w >>> fun w =>
       put_string cap (bs ":status") w >>> put_string cap (dec_signed status).

Definition h2_body_len (res : http_response) : Z :=
  if res.(rs_use_file_stream) then res.(rs_file_stream_len)
  else if res.(rs_is_ptr_body) then blen res.(rs_ptr_body)
  else match res.(rs_body) with Some b => blen b | None => 0 end.

(** The headers that do not go into the block. *)
Definition skip_header (bodyless grpc_mode : bool) (h : header) : bool :=
  let key := cstr h.1 in
  let is_key n := case_eq key (bs n) in
  is_key "content-length"%string || is_key "connection"%string || is_key "keep-alive"%string ||
  is_key "proxy-connection"%string || is_key "transfer-encoding"%string || is_key "upgrade"%string ||
  (is_key "te"%string && negb (case_eq (cstr h.2) (bs "trailers"))) ||
  (bodyless && is_key "content-length"%string) ||
  (grpc_mode && (is_key "grpc-status"%string || is_key "grpc-message"%string ||
                 is_key "grpc-retry-pushback-ms"%string)) ||
  existsb (fun c => (c =? 13) || (c =? 10)) (cstr h.2) ||
  negb (length (cstr h.2) =? length h.2)%nat.

Fixpoint put_headers (cap : nat) (bodyless grpc_mode : bool) (hs : list header) (w : writer) : emit :=
  match hs with
  | [] => (true, w)
  | h :: hs =>
      if skip_header bodyless grpc_mode h then put_headers cap bodyless grpc_mode hs w
      else put_field cap (lower_name h.1) (cstr h.2) w >>> put_headers cap bodyless grpc_mode hs
  end.

(** [h2_encode_response_headers]: the block and the extent of the writes. *)
Definition h2_encode_response_headers (res : http_response) (cap : nat) (grpc_mode : bool)
    : option bytes * nat :=
  let bodyless := h2_status_forbids_body res.(rs_status_code) in
  let '(ok, w) :=
    put_status cap res.(rs_status_code) (MkWriter [] 0) >>> fun w =>
    (if negb grpc_mode && negb bodyless
     then put_field cap (bs "content-length") (dec (h2_body_len res)) w
     else (true, w)) >>>
    put_headers cap bodyless grpc_mode res.(rs_headers) in
  ((if ok then Some w.(wr_out) else None), w.(wr_ext)).

(** The buffer doubles, from 16 KiB, until the block fits or it would pass
    1 MiB; [fuel] bounds the doublings. *)
Fixpoint response_block_loop (fuel : nat) (res : http_response) (grpc_mode : bool) (cap : nat) (o : oracle)
    : option bytes * oracle :=
  match fuel with
  | O => (None, o)
  | S fuel =>
      if (1048576 <? Z.of_nat cap) then (None, o) else
      match alloc o with
      | (false, o) => (None, o)
      | (true, o) =>
          match (h2_encode_response_headers res cap grpc_mode).1 with
          | Some block => (Some block, o)
          | None => response_block_loop fuel res grpc_mode (cap * 2) o
          end
      end
  end.
Definition h2_encode_response_block (res : http_response) (grpc_mode : bool) (o : oracle)
    : option bytes * oracle :=
  response_block_loop 8 res grpc_mode (Z.to_nat 16384) o.

(** [h2_encode_header_pairs]; a pair without name or value is passed over. *)
Fixpoint put_pairs (cap : nat) (pairs : list (option bytes * option bytes)) (w : writer) : emit :=
  match pairs with
  | [] => (true, w)
  | (Some name, Some value) :: pairs =>
      let lower := lower_name name in
      let name_idx := h2_static_table_find_name lower in
      put_index cap name_idx w >>> fun w =>
      (if name_idx =? 0 then put_string cap lower w else (true, w)) >>> fun w =>
      put_string cap value w >>> put_pairs cap pairs
  | _ :: pairs => put_pairs cap pairs w
  end.
Definition h2_encode_header_pairs (cap : nat) (pairs : list (option bytes * option bytes))
    : option bytes * nat :=
  let '(ok, w) := put_pairs cap pairs (MkWriter [] 0) in
  ((if ok then Some w.(wr_out) else None), w.(wr_ext)).

(** ** Header frames *)

Record frame : Type := MkFrame { fr_type : Z; fr_flags : Z; fr_payload : bytes }.

(** The loop of [h2_send_header_block]: the frames written and whether the last
    write succeeded; each write takes one outcome of [o]. *)
Fixpoint send_block_loop (fuel : nat) (block : bytes) (max_frame : Z) (type flags : Z) (o : oracle)
    : option (list frame * bool * oracle) :=
  match fuel with
  | O => None
  | S fuel =>
      let chunk := if max_frame <? blen block then Z.to_nat max_frame else length block in
      let frame_flags := if (chunk =? length block)%nat then Z.lor flags FLAG_END_HEADERS else flags in
      let f := MkFrame type frame_flags (take chunk block) in
      match alloc o with
      | (false, o) => Some ([], false, o)
      | (true, o) =>
          let block := drop chunk block in
          match block with
          | [] => Some ([f], true, o)
          | _ => match send_block_loop fuel block max_frame FRAME_CONTINUATION 0 o with
                 | Some (fs, ok, o) => Some (f :: fs, ok, o)
                 | None => None
                 end
          end
      end
  end.
Definition h2_send_header_block (block : bytes) (max_frame base_flags : Z) (o : oracle)
    : option (list frame * bool * oracle) :=
  send_block_loop (S (length block)) block max_frame FRAME_HEADERS base_flags o.

(** ** What an encoder step writes

    [k] writes [code]: entirely when it fits, else it stops; and it touches at
    most one byte past the capacity. *)
Definition writes (cap : nat) (k : writer -> emit) (code : bytes) : Prop :=
  forall w, (length w.(wr_out) <= cap)%nat -> (w.(wr_ext) <= S cap)%nat ->
  let '(ok, w') := k w in
  (w'.(wr_ext) <= S cap)%nat /\
  if (length w.(wr_out) + length code <=? cap)%nat
  then ok = true /\ w'.(wr_out) = w.(wr_out) ++ code
  else ok = false.

Lemma writes_nil cap : writes cap (fun w => (true, w)) [].
Proof.
  intros w Ho He. split; [done|]. cbn [length]. rewrite (proj2 (Nat.leb_le _ _)) by lia.
  by rewrite app_nil_r.
Qed.

Lemma writes_seq cap k1 k2 c1 c2 :
  writes cap k1 c1 -> writes cap k2 c2 -> writes cap (fun w => k1 w >>> k2) (c1 ++ c2).
Proof.
  intros H1 H2 w Ho He. specialize (H1 w Ho He). destruct (k1 w) as [[] w1]; cbn [andthen];
    destruct H1 as [He1 H1]; rewrite length_app.
  - destruct (Nat.leb_spec (length (wr_out w) + length c1) cap); [|done].
    destruct H1 as [_ Hw1]. specialize (H2 w1 ltac:(rewrite Hw1, length_app; lia) He1).
    destruct (k2 w1) as [ok w2]. destruct H2 as [He2 H2]. split; [done|].
    rewrite Hw1, length_app, <- app_assoc in H2. by rewrite Nat.add_assoc.
  - split; [done|]. destruct (Nat.leb_spec (length (wr_out w) + length c1) cap); [by destruct H1|].
    by rewrite (proj2 (Nat.leb_gt _ _)) by lia.
Qed.

Lemma writes_if cap (b : bool) k1 k2 c1 c2 :
  writes cap k1 c1 -> writes cap k2 c2 ->
  writes cap (fun w => if b then k1 w else k2 w) (if b then c1 else c2).
Proof. by destruct b. Qed.

Lemma put_byte_writes cap b : writes cap (put_byte cap b) [b].
Proof.
  intros w Ho He. unfold put_byte. destruct (Nat.leb_spec cap (length (wr_out w))); cbn [length wr_out wr_ext].
  - split; [done|]. by rewrite (proj2 (Nat.leb_gt _ _)) by lia.
  - split; [lia|]. by rewrite (proj2 (Nat.leb_le _ _)) by lia.
Qed.

Lemma put_index_writes cap index :
  is_u32 index -> writes cap (put_index cap index) (integer_code 0 index 4).
Proof.
  intros Hi w Ho He. unfold put_index.
  pose proof (proj1 (integer_code_ok 0 index 4 ltac:(mlia) Hi ltac:(lia))) as Hl.
  destruct (Nat.ltb_spec cap (length (wr_out w) + 1)).
  { split; [done|]. by rewrite (proj2 (Nat.leb_gt _ _)) by lia. }
  rewrite h2_encode_integer_spec by (done || mlia). unfold put_code.
  destruct (Nat.leb_spec (length (integer_code 0 index 4)) (Nat.max 1 (cap - length (wr_out w))));
    cbn [fst snd wr_out wr_ext].
  - split; [lia|]. by rewrite (proj2 (Nat.leb_le _ _)) by lia.
  - split; [lia|]. by rewrite (proj2 (Nat.leb_gt _ _)) by lia.
Qed.

Lemma put_string_writes cap s :
  blen s < 4294967296 -> writes cap (put_string cap s) (literal_code s).
Proof.
  intros Hs w Ho He. unfold put_string, put_code. rewrite h2_encode_string_spec by done.
  destruct (Nat.leb_spec (length (literal_code s)) (cap - length (wr_out w))); cbn [fst snd wr_out wr_ext].
  - split; [lia|]. by rewrite (proj2 (Nat.leb_le _ _)) by lia.
  - split; [lia|]. by rewrite (proj2 (Nat.leb_gt _ _)) by lia.
Qed.

(** ** What the codes spell *)

Definition field_code (f : field) : bytes :=
  let idx := h2_static_table_find_name f.1 in
  integer_code 0 idx 4 ++ (if 0 <? idx then [] else literal_code f.1) ++ literal_code f.2.

Lemma find_name_spec table : forall i name,
  0 < i -> find_name table i name = 0 \/
  exists k n v, find_name table i name = i + Z.of_nat k /\ table !! k = Some (n, v) /\ case_eq n name = true.
Proof.
  induction table as [|[n v] table IH]; intros i name Hi; cbn [find_name]; [by left|].
  destruct (case_eq n name) eqn:E.
  - right. exists 0%nat, n, v. split; [lia|done].
  - destruct (IH (i + 1) name ltac:(lia)) as [H|(k & n' & v' & H1 & H2 & H3)]; [by left|].
    right. exists (S k), n', v'. split; [lia|done].
Qed.

Lemma static_names_lower :
  forallb (fun e => bool_decide (map tolower e.1 = e.1)) static_table = true.
Proof. vm_compute. reflexivity. Qed.

Lemma static_index_range name : 0 <= h2_static_table_find_name name <= 61.
Proof.
  destruct (find_name_spec static_table 1 name ltac:(lia)) as [H|(k & n & v & H & Hk & _)];
    unfold h2_static_table_find_name; rewrite H; [lia|].
  apply lookup_lt_Some in Hk. change (length static_table) with 61%nat in Hk. lia.
Qed.

(** The index of a lower-case name leads back to it. *)
Lemma static_index_name name :
  map tolower name = name -> 0 < h2_static_table_find_name name ->
  exists v, h2_static_header (h2_static_table_find_name name) = Some (name, v).
Proof.
  intros Hl Hpos.
  destruct (find_name_spec static_table 1 name ltac:(lia)) as [H|(k & n & v & H & Hk & Hc)];
    unfold h2_static_table_find_name in *; [lia|].
  pose proof (lookup_lt_Some _ _ _ Hk) as Hlt. change (length static_table) with 61%nat in Hlt.
  exists v. rewrite H. unfold h2_static_header, static_count.
  rewrite (proj2 (Z.eqb_neq _ _)), (proj2 (Z.leb_gt _ _)) by lia. cbn [orb].
  replace (Z.to_nat (1 + Z.of_nat k - 1)) with k by lia. rewrite Hk. do 2 f_equal.
  unfold case_eq in Hc. apply bool_decide_eq_true in Hc. rewrite Hl in Hc. rewrite <- Hc.
  symmetry. apply list_elem_of_lookup_2, list_elem_of_In in Hk.
  pose proof (proj1 (forallb_forall _ _) static_names_lower _ Hk) as Hb.
  by apply bool_decide_eq_true in Hb.
Qed.

(** [code] spells [fs]: from its start the decoder reads [fs], leaves the table
    alone and is at its end. *)
Definition spells (code : bytes) (fs : list field) : Prop :=
  (length fs <= length code)%nat /\
  forall t pre rest fuel,
    block_fields (length fs + fuel) t (pre ++ code ++ rest) (length pre) =
    match block_fields fuel t (pre ++ code ++ rest) (length pre + length code) with
    | Some (gs, t') => Some (fs ++ gs, t')
    | None => None
    end.

Lemma spells_nil : spells [] [].
Proof.
  split; [done|]. intros t pre rest fuel. cbn [length app]. rewrite Nat.add_0_r. cbn [Nat.add].
  by destruct (block_fields _ _ _ _) as [[gs t']|].
Qed.

Lemma spells_app c1 c2 f1 f2 : spells c1 f1 -> spells c2 f2 -> spells (c1 ++ c2) (f1 ++ f2).
Proof.
  intros [L1 H1] [L2 H2]. split; [rewrite !length_app; lia|]. intros t pre rest fuel.
  rewrite length_app, <- Nat.add_assoc, <- app_assoc, H1.
  specialize (H2 t (pre ++ c1) rest fuel). rewrite <- app_assoc, length_app in H2. rewrite H2.
  rewrite length_app, Nat.add_assoc.
  destruct (block_fields fuel _ _ _) as [[gs t']|]; [|done]. by rewrite app_assoc.
Qed.

Lemma spells_one code f r :
  code <> [] -> repr_field r = Some f -> (forall t, table_step t r [] = (true, t, [])) ->
  (forall t pre rest, decode_representation t (pre ++ code ++ rest) (length pre) [] =
     (Some (r, (length pre + length code)%nat), [])) ->
  spells code [f].
Proof.
  intros Hc Hr Ht Hd. assert (Hl : (1 <= length code)%nat) by (destruct code; [done|cbn; lia]).
  split; [cbn; lia|]. intros t pre rest fuel. cbn [length Nat.add block_fields].
  rewrite (proj2 (Nat.leb_gt _ _)) by (rewrite !length_app; lia).
  rewrite Hd. cbn [fst]. rewrite Ht, Hr.
  by destruct (block_fields fuel _ _ _) as [[gs t']|].
Qed.

(** A whole block. *)
Lemma spells_block code fs t :
  spells code fs -> block_fields (S (length code)) t code 0 = Some (fs, t).
Proof.
  intros [Hl H]. specialize (H t [] [] (S (length code) - length fs)%nat).
  cbn [app length Nat.add] in H. rewrite app_nil_r in H.
  replace (length fs + (S (length code) - length fs))%nat with (S (length code)) in H by lia. rewrite H.
  destruct (S (length code) - length fs)%nat as [|k] eqn:E; [lia|]. cbn [block_fields].
  rewrite Nat.leb_refl. by rewrite app_nil_r.
Qed.

(** A literal whose name is [name_code]: by index or spelled out. *)
Lemma literal_spells idx name_code n v :
  0 <= idx <= 61 -> bytes_ok v -> blen v < 4294967296 ->
  (forall t pre rest, literal_name t (pre ++ name_code ++ rest) (length pre) idx [] =
     (Some (n, (length pre + length name_code)%nat), [])) ->
  spells (integer_code 0 idx 4 ++ name_code ++ literal_code v) [(n, v)].
Proof.
  intros Hi Hv Hl Hname.
  assert (Hu : is_u32 idx) by mlia.
  destruct (integer_code_ok 0 idx 4 ltac:(mlia) Hu ltac:(lia)) as [Hlen _].
  apply (spells_one _ _ (RLiteral n v false)); [|done|done|].
  { intros H. apply (f_equal length) in H. rewrite length_app in H. cbn in H. lia. }
  intros t pre rest.
  assert (Hb : exists b code, integer_code 0 idx 4 = b :: code /\ 0 <= b < 16).
  { unfold integer_code. change (prefix_mask 4) with 15. change (Z.ldiff 0 15) with 0.
    destruct (idx <? 15) eqn:E; do 2 eexists; (split; [reflexivity|lia]). }
  destruct Hb as (b & code & Hcode & Hb).
  unfold decode_representation.
  assert (Hrd : rd (pre ++ (integer_code 0 idx 4 ++ name_code ++ literal_code v) ++ rest) (length pre) = b)
    by (rewrite Hcode; rewrite <- !app_comm_cons; apply rd_app_here).
  rewrite Hrd.
  assert (Hforms : Z.land b 128 = 0 /\ Z.land b 224 = 0 /\ Z.land b 64 = 0 /\ Z.land b 240 = 0).
  { assert (b = 0 \/ b = 1 \/ b = 2 \/ b = 3 \/ b = 4 \/ b = 5 \/ b = 6 \/ b = 7 \/ b = 8 \/ b = 9 \/
      b = 10 \/ b = 11 \/ b = 12 \/ b = 13 \/ b = 14 \/ b = 15)
      as [->|[->|[->|[->|[->|[->|[->|[->|[->|[->|[->|[->|[->|[->|[->| ->]]]]]]]]]]]]]]] by lia; by vm_compute. }
  destruct Hforms as (-> & -> & -> & ->). cbn [Z.eqb negb orb Pos.eqb].
  rewrite <- !app_assoc.
  rewrite (h2_decode_integer_code pre 0 idx 4) by (done || lia || mlia).
  pose proof (Hname t (pre ++ integer_code 0 idx 4) (literal_code v ++ rest)) as H1.
  rewrite <- !app_assoc, length_app in H1. rewrite H1.
  pose proof (h2_decode_string_literal (pre ++ integer_code 0 idx 4 ++ name_code) v rest [] Hv Hl) as H2.
  rewrite <- !app_assoc, !length_app in H2. cbn [alloc] in H2.
  rewrite <- Nat.add_assoc, H2. rewrite !length_app. do 3 f_equal. lia.
Qed.

Lemma field_code_spells n v :
  map tolower n = n -> bytes_ok n -> blen n < 4294967296 -> bytes_ok v -> blen v < 4294967296 ->
  spells (field_code (n, v)) [(n, v)].
Proof.
  intros Hlow Hn Hnl Hv Hvl. unfold field_code. cbn [fst snd].
  pose proof (static_index_range n) as Hi.
  apply literal_spells; [lia|done|done|]. intros t pre rest. unfold literal_name.
  destruct (Z.ltb_spec 0 (h2_static_table_find_name n)) as [Hpos|Hz].
  - destruct (static_index_name n Hlow Hpos) as [w Hw]. unfold indexed_field. rewrite Hw.
    cbn [alloc length]. by rewrite Nat.add_0_r.
  - by apply h2_decode_string_literal.
Qed.

Lemma put_field_writes cap n v :
  blen n < 4294967296 -> blen v < 4294967296 -> writes cap (put_field cap n v) (field_code (n, v)).
Proof.
  intros Hn Hv. unfold put_field, field_code. cbv zeta. cbn [fst snd].
  pose proof (static_index_range n) as Hi. apply writes_seq; [apply put_index_writes; mlia|].
  apply (writes_seq cap (fun w => if 0 <? h2_static_table_find_name n then (true, w) else put_string cap n w));
    [|by apply put_string_writes].
  apply (writes_if cap (0 <? h2_static_table_find_name n) (fun w => (true, w)));
    [apply writes_nil|by apply put_string_writes].
Qed.

(** The status pseudo-header: an index for the common codes. *)
Definition status_code (status : Z) : bytes :=
  if status =? 200 then [0x88] else if status =? 204 then [0x89] else if status =? 206 then [0x8a]
  else if status =? 304 then [0x8b] else if status =? 400 then [0x8c] else if status =? 404 then [0x8d]
  else if status =? 500 then [0x8e]
  else integer_code 0 0 4 ++ literal_code (bs ":status") ++ literal_code (dec_signed status).

Lemma dec_loop_ok fuel : forall n, 0 <= n -> bytes_ok (dec_loop fuel n).
Proof.
  induction fuel as [|fuel IH]; intros n Hn; cbn [dec_loop]; [constructor|].
  apply Forall_app_2; [destruct (n <? 10); [constructor|apply IH; zlia]|].
  apply Forall_cons_2; [mlia|constructor].
Qed.

Lemma dec_signed_ok n : bytes_ok (dec_signed n).
Proof.
  unfold dec_signed, dec. destruct (Z.ltb_spec n 0); [apply Forall_cons_2; [mlia|]|]; apply dec_loop_ok; lia.
Qed.

Lemma put_status_writes cap status :
  -2147483648 <= status < 2147483648 -> writes cap (put_status cap status) (status_code status).
Proof.
  intros Hs. pose proof (dec_signed_length status Hs) as Hl. unfold put_status, status_code.
  repeat (apply writes_if; [apply put_byte_writes|]).
  apply writes_seq; [apply put_index_writes; mlia|].
  apply writes_seq; apply put_string_writes; [done|unfold blen; lia].
Qed.

Lemma indexed_spells b i f :
  0 <= i < 62 -> b = 128 + i -> h2_static_header i = Some f ->
  (forall pre rest, h2_decode_integer (pre ++ [b] ++ rest) (length pre) 7 = Some (i, (length pre + 1)%nat)) ->
  spells [b] [f].
Proof.
  intros Hi -> Hf Hd. destruct f as [n v].
  apply (spells_one _ _ (RIndexed n v)); [done|done|done|]. intros t pre rest.
  unfold decode_representation. cbn [app] in *. rewrite rd_app_here.
  rewrite continuation_flag by lia. cbn [Z.eqb negb]. rewrite Hd. unfold indexed_field. by rewrite Hf.
Qed.

Lemma status_code_spells status :
  -2147483648 <= status < 2147483648 -> spells (status_code status) [(bs ":status", dec_signed status)].
Proof.
  intros Hs. pose proof (dec_signed_length status Hs) as Hl. unfold status_code.
  assert (Hst : forall i v, 8 <= i <= 14 -> h2_static_header i = Some (bs ":status", v) ->
    spells [128 + i] [(bs ":status", v)]).
  { intros i v Hi Hv. apply (indexed_spells _ i); [lia|done|done|]. intros pre rest.
    pose proof (h2_decode_integer_code pre 128 i 7 rest ltac:(mlia) ltac:(mlia) ltac:(lia)) as H.
    cbv zeta in H. unfold integer_code in H. change (prefix_mask 7) with 127 in H.
    rewrite (proj2 (Z.ltb_lt i 127)) in H by lia. exact H. }
  destruct (Z.eqb_spec status 200) as [->|]; [by apply (Hst 8 (bs "200"))|].
  destruct (Z.eqb_spec status 204) as [->|]; [by apply (Hst 9 (bs "204"))|].
  destruct (Z.eqb_spec status 206) as [->|]; [by apply (Hst 10 (bs "206"))|].
  destruct (Z.eqb_spec status 304) as [->|]; [by apply (Hst 11 (bs "304"))|].
  destruct (Z.eqb_spec status 400) as [->|]; [by apply (Hst 12 (bs "400"))|].
  destruct (Z.eqb_spec status 404) as [->|]; [by apply (Hst 13 (bs "404"))|].
  destruct (Z.eqb_spec status 500) as [->|]; [by apply (Hst 14 (bs "500"))|].
  apply literal_spells; [lia|apply dec_signed_ok|unfold blen; lia|]. intros t pre rest.
  unfold literal_name. cbn [Z.ltb Z.compare].
  apply h2_decode_string_literal; [by apply bytes_okb_ok|done].
Qed.

(** ** Header lists *)

Definition header_field (h : header) : field := (lower_name h.1, cstr h.2).

(** The fields of a response block. *)
Definition response_fields (res : http_response) (grpc_mode : bool) : list field :=
  let bodyless := h2_status_forbids_body res.(rs_status_code) in
  (bs ":status", dec_signed res.(rs_status_code)) ::
  (if negb grpc_mode && negb bodyless then [(bs "content-length", dec (h2_body_len res))] else []) ++
  map header_field (filter (fun h => skip_header bodyless grpc_mode h = false) res.(rs_headers)).

Definition fields_code (fs : list field) : bytes := concat (map field_code fs).

Definition response_code (res : http_response) (grpc_mode : bool) : bytes :=
  status_code res.(rs_status_code) ++ fields_code (tail (response_fields res grpc_mode)).

(** Strings short enough for a 32-bit length. *)
Definition header_ok (h : header) : Prop :=
  bytes_ok h.1 /\ bytes_ok h.2 /\ blen h.2 < 4294967296.

Record response_ok (res : http_response) : Prop := {
  ro_status : -2147483648 <= res.(rs_status_code) < 2147483648;
  ro_body : is_u64 (h2_body_len res);
  ro_headers : Forall header_ok res.(rs_headers)
}.

Lemma cstr_length l : (length (cstr l) <= length l)%nat.
Proof.
  induction l as [|c l IH]; [done|]. cbn [cstr]. destruct (c =? 0); cbn [length]; lia.
Qed.

Lemma cstr_bytes_ok l : bytes_ok l -> bytes_ok (cstr l).
Proof. intros H. by apply cstr_ok_bytes, cstr_is_ok. Qed.

Lemma tolower_u8 c : is_u8 c -> is_u8 (tolower c).
Proof. unfold tolower, is_u8. destruct (_ && _) eqn:E; lia. Qed.

Lemma tolower_idem c : tolower (tolower c) = tolower c.
Proof.
  unfold tolower. destruct ((65 <=? c) && (c <=? 90)) eqn:E; [|by rewrite E].
  destruct ((65 <=? c + 32) && (c + 32 <=? 90)) eqn:E'; [lia|done].
Qed.

Lemma lower_name_ok k :
  bytes_ok k ->
  map tolower (lower_name k) = lower_name k /\ bytes_ok (lower_name k) /\ blen (lower_name k) <= 255.
Proof.
  intros Hk. unfold lower_name. split; [|split].
  - rewrite map_map. apply map_ext. apply tolower_idem.
  - apply Forall_map. eapply list.Forall_impl; [|apply tolower_u8]. by apply Forall_take, cstr_bytes_ok.
  - unfold blen. rewrite length_map, length_take. lia.
Qed.

Lemma Forall_filter_sub {A} (P Q : A -> Prop) `{forall x, Decision (Q x)} (l : list A) :
  Forall P l -> Forall P (filter Q l).
Proof.
  intros Hl. apply Forall_lookup_2. intros i x Hx. apply list_elem_of_lookup_2 in Hx.
  apply list_elem_of_filter in Hx as [_ Hx]. by apply (proj1 (list.Forall_forall _ _) Hl).
Qed.

Lemma header_field_ok h :
  header_ok h ->
  let '(n, v) := header_field h in
  map tolower n = n /\ bytes_ok n /\ blen n < 4294967296 /\ bytes_ok v /\ blen v < 4294967296.
Proof.
  intros (H1 & H2 & H3). destruct (lower_name_ok h.1 H1) as (L1 & L2 & L3). cbn [header_field].
  split; [done|]. split; [done|]. split; [lia|]. split; [by apply cstr_bytes_ok|].
  pose proof (cstr_length h.2). unfold blen in *. lia.
Qed.

Lemma fields_code_spells fs :
  Forall (fun f => spells (field_code f) [f]) fs -> spells (fields_code fs) fs.
Proof.
  induction 1 as [|f fs Hf _ IH]; [apply spells_nil|]. exact (spells_app _ _ [f] fs Hf IH).
Qed.

Lemma put_headers_writes cap bodyless grpc hs :
  Forall header_ok hs ->
  writes cap (put_headers cap bodyless grpc hs)
    (fields_code (map header_field (filter (fun h => skip_header bodyless grpc h = false) hs))).
Proof.
  induction 1 as [|h hs Hh _ IH]; [apply writes_nil|]. rewrite filter_cons. cbn [put_headers].
  destruct (skip_header bodyless grpc h).
  - rewrite decide_False by done. exact IH.
  - rewrite decide_True by done. cbn [map]. unfold fields_code. cbn [map concat].
    pose proof (header_field_ok h Hh) as Hf. unfold header_field in *. destruct Hf as (_ & _ & Hn & _ & Hv).
    exact (writes_seq cap _ _ _ _ (put_field_writes cap _ _ Hn Hv) IH).
Qed.

Lemma content_length_field_ok res :
  is_u64 (h2_body_len res) ->
  blen (dec (h2_body_len res)) < 4294967296 /\ bytes_ok (dec (h2_body_len res)).
Proof.
  intros H. destruct (dec_spec _ H) as (_ & _ & Hl & _). split; [unfold blen; lia|].
  apply dec_loop_ok. unfold is_u64 in H. lia.
Qed.

Lemma encode_response_spec res cap grpc :
  response_ok res ->
  (h2_encode_response_headers res cap grpc).1 =
    (if (length (response_code res grpc) <=? cap)%nat then Some (response_code res grpc) else None) /\
  ((h2_encode_response_headers res cap grpc).2 <= S cap)%nat.
Proof.
  intros [Hs Hb Hh]. destruct (content_length_field_ok res Hb) as [Hcl _].
  unfold h2_encode_response_headers, response_code, response_fields. cbv zeta. cbn [tail].
  set (bodyless := h2_status_forbids_body (rs_status_code res)).
  assert (Hw : writes cap
    (fun w => put_status cap (rs_status_code res) w >>> fun w =>
      (if negb grpc && negb bodyless
       then put_field cap (bs "content-length") (dec (h2_body_len res)) w else (true, w)) >>>
      put_headers cap bodyless grpc (rs_headers res))
    (status_code (rs_status_code res) ++
      (if negb grpc && negb bodyless then field_code (bs "content-length", dec (h2_body_len res)) else []) ++
      fields_code (map header_field (filter (fun h => skip_header bodyless grpc h = false) (rs_headers res))))).
  { apply writes_seq; [by apply put_status_writes|].
    apply (writes_seq cap (fun w => if negb grpc && negb bodyless then _ else (true, w)));
      [|by apply put_headers_writes].
    apply (writes_if cap _ (put_field cap _ _) (fun w => (true, w)));
      [by apply put_field_writes|apply writes_nil]. }
  specialize (Hw (MkWriter [] 0) ltac:(cbn; lia) ltac:(cbn; lia)). cbn [wr_out length Nat.add app] in Hw.
  assert (Hcode : fields_code ((if negb grpc && negb bodyless
      then [(bs "content-length", dec (h2_body_len res))] else []) ++
      map header_field (filter (fun h => skip_header bodyless grpc h = false) (rs_headers res))) =
    (if negb grpc && negb bodyless then field_code (bs "content-length", dec (h2_body_len res)) else []) ++
      fields_code (map header_field (filter (fun h => skip_header bodyless grpc h = false) (rs_headers res)))).
  { destruct (negb grpc && negb bodyless); [|done]. done. }
  rewrite Hcode. destruct (put_status _ _ _ >>> _) as [ok w']. cbn [fst snd].
  destruct Hw as [He Hw]. split; [|done]. destruct (_ <=? _)%nat; [by destruct Hw as [-> ->]|by subst ok].
Qed.

Lemma response_code_spells res grpc :
  response_ok res -> spells (response_code res grpc) (response_fields res grpc).
Proof.
  intros [Hs Hb Hh]. destruct (content_length_field_ok res Hb) as [Hcl Hclb].
  unfold response_code, response_fields. cbv zeta. cbn [tail].
  apply (spells_app _ _ [_]); [by apply status_code_spells|]. apply fields_code_spells.
  apply Forall_app_2.
  - destruct (_ && _); [|constructor]. apply Forall_cons_2; [|constructor].
    apply field_code_spells; try done. by apply bytes_okb_ok.
  - apply Forall_map, Forall_filter_sub. eapply list.Forall_impl; [exact Hh|].
    intros h Hok. pose proof (header_field_ok h Hok) as Hf. unfold header_field in *.
    destruct Hf as (H1 & H2 & H3 & H4 & H5). by apply field_code_spells.
Qed.

(** ** The growing buffer *)

Lemma response_block_loop_spec res grpc : forall fuel k,
  response_ok res -> (k + fuel = 8)%nat -> 
  (forall j, (j < k)%nat -> 16384 * 2 ^ Z.of_nat j < blen (response_code res grpc)) ->
  response_block_loop fuel res grpc (Z.to_nat (16384 * 2 ^ Z.of_nat k)) [] =
  ((if blen (response_code res grpc) <=? 1048576 then Some (response_code res grpc) else None), []).
Proof.
  induction fuel as [|fuel IH]; intros k Hok Hk Hj; cbn [response_block_loop].
  { specialize (Hj 6%nat ltac:(lia)). change (16384 * 2 ^ Z.of_nat 6) with 1048576 in Hj.
    by rewrite (proj2 (Z.leb_gt _ _)) by lia. }
  assert (Hp : 0 < 2 ^ Z.of_nat k) by (apply Z.pow_pos_nonneg; lia).
  rewrite Z2Nat.id by lia. destruct (Z.ltb_spec 1048576 (16384 * 2 ^ Z.of_nat k)) as [Hbig|Hsmall].
  { destruct k as [|k]; [cbn in Hbig; lia|]. specialize (Hj k ltac:(lia)).
    rewrite Nat2Z.inj_succ, Z.pow_succ_r in Hbig by lia.
    assert (7 <= Z.of_nat k + 1).
    { apply Z.nlt_ge. intros Hlt. assert (2 ^ (Z.of_nat k + 1) <= 2 ^ 6) by (apply Z.pow_le_mono_r; lia).
      rewrite Z.pow_add_r in * by lia. change (2 ^ 1) with 2 in *. change (2 ^ 6) with 64 in *. lia. }
    assert (2 ^ 6 <= 2 ^ Z.of_nat k) by (apply Z.pow_le_mono_r; lia). change (2 ^ 6) with 64 in *.
    by rewrite (proj2 (Z.leb_gt _ _)) by lia. }
  cbn [alloc]. destruct (encode_response_spec res (Z.to_nat (16384 * 2 ^ Z.of_nat k)) grpc Hok) as [-> _].
  destruct (Nat.leb_spec (length (response_code res grpc)) (Z.to_nat (16384 * 2 ^ Z.of_nat k))) as [Hle|Hgt].
  - rewrite (proj2 (Z.leb_le _ _)) by (unfold blen; lia). done.
  - replace (Z.to_nat (16384 * 2 ^ Z.of_nat k) * 2)%nat with (Z.to_nat (16384 * 2 ^ Z.of_nat (S k)))
      by (rewrite Nat2Z.inj_succ, Z.pow_succ_r by lia; lia).
    apply IH; [done|lia|]. intros j Hlt. destruct (decide (j = k)) as [->|]; [unfold blen; lia|].
    apply Hj. lia.
Qed.

(** ** Properties *)

(** C13: a response's header block survives the trip: whatever its status and
    headers, [h2_encode_response_headers] writes one code, which fits or is
    refused as a whole, touching at most one byte past the buffer; the growing
    buffer holds it if it is at most 1 MiB; and any peer's decoder, whatever its
    table holds, reads back the status, the content length where one belongs,
    and the remaining headers in lower case and in order, leaving its table as
    it was. *)
Theorem response_block_roundtrip res grpc :
  response_ok res ->
  exists code,
    (forall cap, (h2_encode_response_headers res cap grpc).1 =
       (if (length code <=? cap)%nat then Some code else None) /\
       ((h2_encode_response_headers res cap grpc).2 <= S cap)%nat) /\
    h2_encode_response_block res grpc [] =
      ((if blen code <=? 1048576 then Some code else None), []) /\
    forall t, block_fields (S (length code)) t code 0 = Some (response_fields res grpc, t).
Proof.
  intros Hok. exists (response_code res grpc). split; [|split].
  - intros cap. by apply encode_response_spec.
  - exact (response_block_loop_spec res grpc 8 0 Hok eq_refl ltac:(lia)).
  - intros t. by apply spells_block, response_code_spells.
Qed.

Definition wit_response (hs : list header) : http_response :=
  MkResponse 200 None None hs (Some (bs "hi")) true false [] false 0 None false false false false None O
    None [].

Definition wit_headers : list header :=
  [(bs "Server", bs "cwist"); (bs "Connection", bs "close"); (bs "X-Id", bs "7")].

Lemma response_block_roundtrip_witness :
  response_ok (wit_response wit_headers) /\
  response_fields (wit_response wit_headers) false =
    [(bs ":status", bs "200"); (bs "content-length", bs "2"); (bs "server", bs "cwist"); (bs "x-id", bs "7")] /\
  exists code,
    (forall cap, (h2_encode_response_headers (wit_response wit_headers) cap false).1 =
       (if (length code <=? cap)%nat then Some code else None) /\
       ((h2_encode_response_headers (wit_response wit_headers) cap false).2 <= S cap)%nat) /\
    h2_encode_response_block (wit_response wit_headers) false [] =
      ((if blen code <=? 1048576 then Some code else None), []) /\
    forall t, block_fields (S (length code)) t code 0 =
      Some (response_fields (wit_response wit_headers) false, t).
Proof.
  assert (H : response_ok (wit_response wit_headers)).
  { constructor; [cbn; lia|vm_compute; by split|].
    repeat (apply Forall_cons_2; [split; [by apply bytes_okb_ok|split; [by apply bytes_okb_ok|done]]|]).
    constructor. }
  split; [exact H|]. split; [vm_compute; reflexivity|].
  exact (response_block_roundtrip (wit_response wit_headers) false H).
Defined.

(** ** Header pairs *)

Definition pair_field (p : option bytes * option bytes) : option field :=
  match p with (Some n, Some v) => Some (lower_name n, v) | _ => None end.

Definition pair_ok (p : option bytes * option bytes) : Prop :=
  match p with (Some n, Some v) => header_ok (n, v) | _ => True end.

Lemma put_pairs_writes cap ps :
  Forall pair_ok ps -> writes cap (put_pairs cap ps) (fields_code (omap pair_field ps)).
Proof.
  induction 1 as [|[[n|] [v|]] ps Hp _ IH]; try exact IH; [apply writes_nil|].
  cbn [put_pairs omap list_omap pair_field].
  change (omap pair_field ((Some n, Some v) :: ps)) with ((lower_name n, v) :: omap pair_field ps).
  unfold fields_code. cbn [map concat]. fold (fields_code (omap pair_field ps)).
  destruct Hp as (H1 & H2 & H3). cbn [fst snd] in *. destruct (lower_name_ok n H1) as (_ & _ & Hl).
  unfold field_code. cbv zeta. cbn [fst snd]. pose proof (static_index_range (lower_name n)) as Hi.
  rewrite <- !app_assoc. apply writes_seq; [apply put_index_writes; mlia|].
  apply (writes_seq cap (fun w => if h2_static_table_find_name (lower_name n) =? 0
    then put_string cap (lower_name n) w else (true, w))).
  - replace (if 0 <? h2_static_table_find_name (lower_name n) then [] else literal_code (lower_name n))
      with (if h2_static_table_find_name (lower_name n) =? 0 then literal_code (lower_name n) else [])
      by (destruct (Z.eqb_spec (h2_static_table_find_name (lower_name n)) 0),
            (Z.ltb_spec 0 (h2_static_table_find_name (lower_name n))); done || lia).
    apply writes_if; [apply put_string_writes; lia|apply writes_nil].
  - apply writes_seq; [by apply put_string_writes|exact IH].
Qed.

Lemma pairs_spell ps :
  Forall pair_ok ps -> spells (fields_code (omap pair_field ps)) (omap pair_field ps).
Proof.
  intros H. apply fields_code_spells.
  induction H as [|[[n|] [v|]] ps Hp _ IH]; try exact IH; [constructor|].
  change (omap pair_field ((Some n, Some v) :: ps)) with ((lower_name n, v) :: omap pair_field ps).
  apply Forall_cons_2; [|exact IH]. destruct Hp as (H1 & H2 & H3). cbn [fst snd] in *.
  destruct (lower_name_ok n H1) as (L1 & L2 & L3). apply field_code_spells; try done. lia.
Qed.

(** Trailers and hook-driven response headers survive the trip: the pairs
    with both a name and a value are written in order, all or nothing, touching
    at most one byte past the buffer, and any peer's decoder reads back the
    lower-cased names (at most 255 bytes) with the values, its table unchanged. *)
Theorem header_pairs_roundtrip cap ps :
  Forall pair_ok ps ->
  exists code,
    (h2_encode_header_pairs cap ps).1 = (if (length code <=? cap)%nat then Some code else None) /\
    ((h2_encode_header_pairs cap ps).2 <= S cap)%nat /\
    forall t, block_fields (S (length code)) t code 0 = Some (omap pair_field ps, t).
Proof.
  intros Hp. exists (fields_code (omap pair_field ps)).
  pose proof (put_pairs_writes cap ps Hp (MkWriter [] 0) ltac:(cbn; lia) ltac:(cbn; lia)) as Hw.
  cbn [wr_out length Nat.add app] in Hw. unfold h2_encode_header_pairs.
  destruct (put_pairs cap ps _) as [ok w]. cbn [fst snd]. destruct Hw as [He Hw].
  split; [|split; [done|]].
  - destruct (_ <=? _)%nat; [by destruct Hw as [-> ->]|by subst ok].
  - intros t. by apply spells_block, pairs_spell.
Qed.

Definition wit_pairs : list (option bytes * option bytes) :=
  [(Some (bs "grpc-status"), Some (bs "0")); (None, Some (bs "x")); (Some (bs "Date"), Some (bs "now"))].

Lemma header_pairs_roundtrip_witness :
  Forall pair_ok wit_pairs /\
  exists code,
    (h2_encode_header_pairs 64 wit_pairs).1 = (if (length code <=? 64)%nat then Some code else None) /\
    ((h2_encode_header_pairs 64 wit_pairs).2 <= 65)%nat /\
    forall t, block_fields (S (length code)) t code 0 =
      Some ([(bs "grpc-status", bs "0"); (bs "date", bs "now")], t).
Proof.
  assert (H : Forall pair_ok wit_pairs).
  { assert (Hp : forall n v, bytes_okb n = true -> bytes_okb v = true -> blen v < 4294967296 ->
      pair_ok (Some n, Some v)) by (intros n v Hn Hv Hl; split; [by apply bytes_okb_ok|split; [by apply bytes_okb_ok|done]]).
    apply Forall_cons_2; [by apply Hp|]. apply Forall_cons_2; [exact I|]. apply Forall_cons_2; [by apply Hp|].
    constructor. }
  split; [exact H|]. exact (header_pairs_roundtrip 64 wit_pairs H).
Defined.

(** ** Header frames *)

(** The flags of a run of header frames: [base] on the first, END_HEADERS on
    the last and on no other. *)
Fixpoint flags_ok (type base : Z) (fs : list frame) : Prop :=
  match fs with
  | [] => False
  | [f] => f.(fr_type) = type /\ f.(fr_flags) = Z.lor base FLAG_END_HEADERS
  | f :: fs => f.(fr_type) = type /\ f.(fr_flags) = base /\ flags_ok FRAME_CONTINUATION 0 fs
  end.

Definition payloads (fs : list frame) : bytes := concat (map fr_payload fs).

Lemma send_block_loop_spec fuel : forall block max_frame type base o,
  0 < max_frame -> (length block < fuel)%nat ->
  exists fs ok o', send_block_loop fuel block max_frame type base o = Some (fs, ok, o') /\
    Forall (fun f => blen f.(fr_payload) <= max_frame) fs /\
    payloads fs `prefix_of` block /\ (o = [] -> ok = true) /\
    (ok = true -> payloads fs = block /\ flags_ok type base fs).
Proof.
  induction fuel as [|fuel IH]; intros block max_frame type base o Hm Hf; [lia|].
  cbn [send_block_loop].
  set (chunk := if max_frame <? blen block then Z.to_nat max_frame else length block).
  assert (Hchunk : (chunk <= length block)%nat /\ Z.of_nat chunk <= max_frame /\
    (chunk = length block \/ chunk = Z.to_nat max_frame)).
  { unfold chunk, blen. destruct (Z.ltb_spec max_frame (Z.of_nat (length block))); lia. }
  destruct Hchunk as (Hc1 & Hc2 & Hc3).
  assert (Hpay : blen (take chunk block) <= max_frame) by (unfold blen; rewrite length_take; lia).
  assert (Ho : o = [] -> alloc o = (true, [])) by (by intros ->).
  destruct (alloc o) as [[] o1].
  2: { exists [], false, o1. split; [done|]. split; [constructor|]. split; [apply prefix_nil|].
       split; [intros H; by specialize (Ho H)|done]. }
  pose proof (length_drop block chunk) as Hd. pose proof (take_drop chunk block) as Htd.
  destruct (drop chunk block) as [|b rest].
  - assert (Hl : chunk = length block) by (cbn in Hd; lia). rewrite app_nil_r in Htd.
    do 3 eexists. split; [reflexivity|]. split; [apply Forall_cons_2; [done|constructor]|].
    unfold payloads. cbn [map concat fr_payload]. rewrite app_nil_r, Htd.
    split; [done|]. split; [done|]. intros _. split; [done|]. cbn [flags_ok fr_type fr_flags].
    split; [done|]. by rewrite Hl, Nat.eqb_refl.
  - assert (Hl : (0 < chunk < length block)%nat) by (cbn in Hd; lia).
    destruct (IH (b :: rest) max_frame FRAME_CONTINUATION 0 o1 Hm ltac:(lia))
      as (fs & ok & o' & -> & H1 & H2 & H3 & H4).
    do 3 eexists. split; [reflexivity|]. split; [by apply Forall_cons_2|].
    unfold payloads. cbn [map concat fr_payload]. fold (payloads fs).
    split; [rewrite <- Htd at 2; by apply prefix_app|].
    split; [intros H; apply H3; by injection (Ho H)|]. intros Hok. destruct (H4 Hok) as [-> Hfl].
    split; [done|]. destruct fs as [|f fs]; [done|]. cbn [flags_ok fr_type fr_flags].
    split; [done|]. split; [|exact Hfl]. by rewrite (proj2 (Nat.eqb_neq _ _)) by lia.
Qed.

(** C14: sending a header block: for every frame size the peer can set, the loop
    ends; every frame respects that size; the payloads are a prefix of the
    block, and when every write succeeds exactly the block, as one HEADERS
    frame with the caller's flags followed by CONTINUATION frames without any,
    END_HEADERS being set on the last frame and no other. *)
Theorem header_frames_reassemble block max_frame base_flags o :
  0 < max_frame ->
  exists fs ok o', h2_send_header_block block max_frame base_flags o = Some (fs, ok, o') /\
    Forall (fun f => blen f.(fr_payload) <= max_frame) fs /\
    payloads fs `prefix_of` block /\ (o = [] -> ok = true) /\
    (ok = true -> payloads fs = block /\ flags_ok FRAME_HEADERS base_flags fs).
Proof. intros Hm. apply send_block_loop_spec; [done|lia]. Qed.

Lemma header_frames_reassemble_witness :
  0 < 4 /\
  h2_send_header_block (bs "abcdefghi") 4 1 [] =
    Some ([MkFrame 1 1 (bs "abcd"); MkFrame 9 0 (bs "efgh"); MkFrame 9 4 (bs "i")], true, []) /\
  exists fs ok o', h2_send_header_block (bs "abcdefghi") 4 1 [] = Some (fs, ok, o') /\
    Forall (fun f => blen f.(fr_payload) <= 4) fs /\
    payloads fs `prefix_of` (bs "abcdefghi") /\ (([] : oracle) = [] -> ok = true) /\
    (ok = true -> payloads fs = bs "abcdefghi" /\ flags_ok FRAME_HEADERS 1 fs).
Proof.
  split; [lia|]. split; [vm_compute; reflexivity|].
  apply (header_frames_reassemble (bs "abcdefghi") 4 1 []). lia.
Defined.

(** ** Observed behaviour *)

(** The one byte past the buffer is real: when a name index ends exactly at
    the capacity, the length byte of the value is stored behind it.  A value of
    16375 bytes does that to the 16 KiB the block starts with. *)
Example encoder_writes_past_buffer :
  (h2_encode_response_headers
     (wit_response [(bs "x", replicate (Z.to_nat 16375) 97); (bs "age", bs "1")]) (Z.to_nat 16384) true).2 =
  Z.to_nat 16385.
Proof. vm_compute. reflexivity. Qed.
