(* ===== verification/H2Budget.v ===== *)
(** * HTTP/2 rate budgets (src/src/net/http/http2.c)

    The three credit counters of a connection: inbound RST_STREAM frames
    (rapid reset), outbound RST_STREAM frames, and inbound PINGs.  Each is
    refilled from the clock and spent one credit at a time.  The clock
    ([h2_now_ms]) and the limits that come from the environment are
    arguments. *)

From S2P Require Import Prelude.

Definition CWIST_HTTP2_DEFAULT_PING_BURST : Z := 100.
Definition CWIST_HTTP2_DEFAULT_PING_RATE : Z := 50.

(** ** State *)

Record credit : Type := MkCredit { cr_budget : Z; cr_last : Z }.
Record h2_budgets : Type := MkBudgets { hb_rst : credit; hb_out_rst : credit; hb_ping : credit }.
#[export] Instance h2_budgets_fields : Fields h2_budgets := fun b =>
  MkBudgets (hb_rst b) (hb_out_rst b) (hb_ping b).

(** ** Operations *)

(** The refill and the spending the three functions share. *)
Definition consume (burst rate now : Z) (c : credit) : bool * credit :=
  let elapsed := if c.(cr_last) <? now then now - c.(cr_last) else 0 in
  let c :=
    if 1000 <=? elapsed then MkCredit burst now
    else if 0 <? elapsed then
      let add := u32 (u64 (elapsed * rate) / 1000) in
      if 0 <? add then
        let budget := u32 (c.(cr_budget) + add) in
        MkCredit (if burst <? budget then burst else budget) now
      else c
    else c in
  if c.(cr_budget) =? 0 then (false, c) else (true, MkCredit (c.(cr_budget) - 1) c.(cr_last)).

Definition h2_conn_consume_rst_budget (burst rate now : Z) (b : h2_budgets) : bool * h2_budgets :=
  let '(ok, c) := consume burst rate now b.(hb_rst) in (ok, b <| hb_rst := c |>).
Definition h2_conn_consume_out_rst_budget (burst rate now : Z) (b : h2_budgets) : bool * h2_budgets :=
  let '(ok, c) := consume burst rate now b.(hb_out_rst) in (ok, b <| hb_out_rst := c |>).
Definition h2_conn_consume_ping_budget (now : Z) (b : h2_budgets) : bool * h2_budgets :=
  let '(ok, c) := consume CWIST_HTTP2_DEFAULT_PING_BURST CWIST_HTTP2_DEFAULT_PING_RATE now b.(hb_ping) in
  (ok, b <| hb_ping := c |>).

(** ** Runs *)

(** Limits the environment may set, and a counter they allow. *)
Definition limits_ok (burst rate : Z) : Prop := 1 <= burst /\ 1 <= rate /\ burst + rate < 4294967296.
Record credit_ok (burst : Z) (c : credit) : Prop := {
  ck_budget : 0 <= c.(cr_budget) <= burst;
  ck_last : is_u64 c.(cr_last)
}.

(** Requests at the clock readings [nows]: how many were granted. *)
Fixpoint spend (burst rate : Z) (c : credit) (nows : list Z) : Z * credit :=
  match nows with
  | [] => (0, c)
  | now :: nows =>
      let '(ok, c) := consume burst rate now c in
      let '(n, c) := spend burst rate c nows in
      ((if ok then 1 else 0) + n, c)
  end.

(** The last reading of a monotone clock that started at [t]. *)
Fixpoint clock (t : Z) (nows : list Z) : Prop :=
  match nows with
  | [] => True
  | now :: nows => t <= now /\ is_u64 now /\ clock now nows
  end.
Fixpoint clock_end (t : Z) (nows : list Z) : Z :=
  match nows with [] => t | now :: nows => clock_end now nows end.

Lemma consume_spec burst rate now c :
  limits_ok burst rate -> credit_ok burst c -> is_u64 now ->
  let '(ok, c') := consume burst rate now c in
  credit_ok burst c' /\ c.(cr_last) <= c'.(cr_last) <= Z.max c.(cr_last) now /\
  ((if ok then 1 else 0) + c'.(cr_budget)) * 1000 <=
    c.(cr_budget) * 1000 + (c'.(cr_last) - c.(cr_last)) * Z.max burst rate /\
  (ok = false -> c.(cr_budget) = 0 /\ c'.(cr_last) = c.(cr_last) /\
     ((now - c.(cr_last)) * rate < 1000 \/ now <= c.(cr_last))).
Proof.
  intros (Hb & Hr & Hsum) [Hc Hl] Hn. destruct c as [budget last]. cbn [cr_budget cr_last] in *.
  unfold is_u64 in *. unfold consume. cbn [cr_budget cr_last].
  set (elapsed := if last <? now then now - last else 0).
  assert (He : 0 <= elapsed /\ (elapsed = now - last \/ elapsed = 0 /\ now <= last))
    by (unfold elapsed; destruct (Z.ltb_spec last now); lia).
  destruct (Z.leb_spec 1000 elapsed) as [H1|H1].
  - cbn [cr_budget cr_last]. rewrite (proj2 (Z.eqb_neq burst 0)) by lia. cbn [cr_budget cr_last].
    split; [by constructor; cbn; unfold is_u64; lia|]. split; [lia|]. split; [nia|done].
  - destruct (Z.ltb_spec 0 elapsed) as [H2|H2].
    2: { cbn [cr_budget cr_last]. destruct (Z.eqb_spec budget 0); cbn [cr_budget cr_last].
         - split; [by constructor|]. split; [lia|]. split; [lia|]. intros _. split; [done|]. split; [done|]. lia.
         - split; [by constructor; cbn; unfold is_u64; lia|]. split; [lia|]. split; [lia|done]. }
    assert (Hm : 0 <= elapsed * rate < 1000 * rate) by nia.
    rewrite u64_id by (unfold is_u64; lia). rewrite u32_id by (unfold is_u32; zlia).
    pose proof (Z.mul_div_le (elapsed * rate) 1000 ltac:(lia)) as Hd.
    assert (Hd0 : 0 <= elapsed * rate / 1000 < rate) by (split; zlia).
    destruct (Z.ltb_spec 0 (elapsed * rate / 1000)) as [H3|H3].
    + cbn [cr_budget cr_last]. rewrite u32_id by (unfold is_u32; lia).
      set (b' := if burst <? budget + elapsed * rate / 1000 then burst else budget + elapsed * rate / 1000).
      assert (Hb' : 1 <= b' <= burst /\ b' <= budget + elapsed * rate / 1000)
        by (unfold b'; destruct (Z.ltb_spec burst (budget + elapsed * rate / 1000)); lia).
      rewrite (proj2 (Z.eqb_neq b' 0)) by lia. cbn [cr_budget cr_last].
      split; [by constructor; cbn; unfold is_u64; lia|]. split; [lia|]. split; [|done].
      assert (elapsed * rate <= (now - last) * Z.max burst rate) by nia. lia.
    + cbn [cr_budget cr_last]. destruct (Z.eqb_spec budget 0); cbn [cr_budget cr_last].
      * split; [by constructor|]. split; [lia|]. split; [lia|]. intros _. split; [done|]. split; [done|].
        left. assert (elapsed * rate / 1000 = 0) as H4 by lia. apply Z.div_small_iff in H4; [|lia]. nia.
      * split; [by constructor; cbn; unfold is_u64; lia|]. split; [lia|]. split; [lia|done].
Qed.

Lemma spend_spec burst rate nows : forall c t,
  limits_ok burst rate -> credit_ok burst c -> clock t nows -> c.(cr_last) <= t ->
  let '(n, c') := spend burst rate c nows in
  credit_ok burst c' /\ c'.(cr_last) <= clock_end t nows /\
  (n + c'.(cr_budget)) * 1000 <= c.(cr_budget) * 1000 + (c'.(cr_last) - c.(cr_last)) * Z.max burst rate.
Proof.
  induction nows as [|now nows IH]; intros c t Hl Hc Hclk Ht; cbn [spend].
  { split; [done|]. split; [done|]. lia. }
  destruct Hclk as (H1 & H2 & H3). pose proof (consume_spec burst rate now c Hl Hc H2) as Hs.
  destruct (consume burst rate now c) as [ok c1]. destruct Hs as (Hc1 & Hlast & Hamt & _).
  specialize (IH c1 now Hl Hc1 H3 ltac:(lia)). destruct (spend burst rate c1 nows) as [n c2].
  destruct IH as (Hc2 & Hl2 & Hamt2). split; [done|]. split; [exact Hl2|lia].
Qed.

(** ** Properties *)

(** a flood is rationed: on a monotone clock, whatever the readings, a
    counter never grants more than the credits it starts with plus, per second
    passed, the larger of the burst and the rate; and it never leaves the range
    from 0 to the burst. *)
Theorem budget_bounds_rate burst rate c t nows :
  limits_ok burst rate -> credit_ok burst c -> clock t nows -> c.(cr_last) <= t ->
  let '(n, c') := spend burst rate c nows in
  credit_ok burst c' /\
  n * 1000 <= c.(cr_budget) * 1000 + (clock_end t nows - c.(cr_last)) * Z.max burst rate.
Proof.
  intros Hl Hc Hclk Ht. pose proof (spend_spec burst rate nows c t Hl Hc Hclk Ht) as H.
  destruct (spend burst rate c nows) as [n c']. destruct H as (H1 & H2 & H3). split; [done|].
  destruct H1 as [H1 _], Hl as (Hb & Hr & _). nia.
Qed.

Lemma budget_bounds_rate_witness :
  limits_ok 2 1 /\ credit_ok 2 (MkCredit 2 0) /\ clock 0 [0; 0; 0; 999; 1000; 1500] /\
  (spend 2 1 (MkCredit 2 0) [0; 0; 0; 999; 1000; 1500]).1 = 4 /\
  let '(n, c') := spend 2 1 (MkCredit 2 0) [0; 0; 0; 999; 1000; 1500] in
  credit_ok 2 c' /\ n * 1000 <= 2 * 1000 + (clock_end 0 [0; 0; 0; 999; 1000; 1500] - 0) * Z.max 2 1.
Proof.
  assert (H1 : limits_ok 2 1) by (unfold limits_ok; lia).
  assert (H2 : credit_ok 2 (MkCredit 2 0)) by (constructor; cbn; [lia|mlia]).
  assert (H3 : clock 0 [0; 0; 0; 999; 1000; 1500]) by (cbn; unfold is_u64; lia).
  split; [exact H1|]. split; [exact H2|]. split; [exact H3|]. split; [vm_compute; reflexivity|].
  exact (budget_bounds_rate 2 1 (MkCredit 2 0) 0 [0; 0; 0; 999; 1000; 1500] H1 H2 H3 ltac:(cbn; lia)).
Defined.

(** no peer is locked out: a request refused now is granted once the clock
    has moved a second past the last refill, or by as much as one credit takes
    at the refill rate, however often it is refused in between. *)
Theorem budget_recovers burst rate c nows t now :
  limits_ok burst rate -> credit_ok burst c -> clock t nows -> c.(cr_last) <= t -> is_u64 now ->
  let '(n, c') := spend burst rate c nows in
  n = 0 ->
  1000 <= (now - c.(cr_last)) * rate \/ c.(cr_last) + 1000 <= now ->
  (consume burst rate now c').1 = true.
Proof.
  intros Hl Hc Hclk Ht Hn.
  assert (Hinv : forall nows c t, credit_ok burst c -> clock t nows ->
    let '(n, c') := spend burst rate c nows in
    0 <= n /\ credit_ok burst c' /\ (n = 0 -> c'.(cr_last) = c.(cr_last))).
  { clear c nows t Hc Hclk Ht. induction nows as [|x nows IH]; intros c t Hc Hclk; cbn [spend].
    { split; [lia|]. by split. }
    destruct Hclk as (_ & H2 & H3). pose proof (consume_spec burst rate x c Hl Hc H2) as Hs.
    destruct (consume burst rate x c) as [ok c1]. destruct Hs as (Hc1 & _ & _ & Hf).
    specialize (IH c1 x Hc1 H3). destruct (spend burst rate c1 nows) as [n c2].
    destruct IH as (I1 & I2 & I3). split; [destruct ok; lia|]. split; [done|]. intros Hz.
    destruct ok; [lia|]. destruct (Hf eq_refl) as (_ & Hlast & _). rewrite <- Hlast. apply I3. lia. }
  specialize (Hinv nows c t Hc Hclk). destruct (spend burst rate c nows) as [n c'].
  destruct Hinv as (_ & Hc' & Hlast). intros Hz Hw. specialize (Hlast Hz).
  pose proof (consume_spec burst rate now c' Hl Hc' Hn) as Hs.
  destruct (consume burst rate now c') as [[] c2]; [done|]. destruct Hs as (_ & _ & _ & Hf).
  destruct (Hf eq_refl) as (_ & _ & Hor). rewrite Hlast in Hor. destruct Hl as (_ & Hr & _). exfalso. nia.
Qed.

Lemma budget_recovers_witness :
  limits_ok 2 1 /\ credit_ok 2 (MkCredit 0 0) /\ clock 0 [1; 500; 999] /\
  (consume 2 1 1000 (spend 2 1 (MkCredit 0 0) [1; 500; 999]).2).1 = true.
Proof.
  assert (H1 : limits_ok 2 1) by (unfold limits_ok; lia).
  assert (H2 : credit_ok 2 (MkCredit 0 0)) by (constructor; cbn; [lia|mlia]).
  assert (H3 : clock 0 [1; 500; 999]) by (cbn; unfold is_u64; lia).
  split; [exact H1|]. split; [exact H2|]. split; [exact H3|].
  apply (budget_recovers 2 1 (MkCredit 0 0) [1; 500; 999] 0 1000 H1 H2 H3 ltac:(cbn; lia) ltac:(mlia) eq_refl).
  right. cbn. lia.
Defined.

(** ** Observed behaviour *)

(** The PING budget refills to the whole burst after a second, so 100 PINGs in
    every second pass, twice the documented refill rate. *)
Example ping_refills_in_full :
  (h2_conn_consume_ping_budget 1000 (MkBudgets (MkCredit 0 0) (MkCredit 0 0) (MkCredit 0 0))).2.(hb_ping) =
  MkCredit 99 1000.
Proof. vm_compute. reflexivity. Qed.
