(* ===== verification/H2State.v ===== *)
(** * HTTP/2 connection state (src/src/net/http/http2.c)

    [h2_stream], [h2_conn], their initialisation, the stream table, and the
    writers that spend a budget or record a PING.

    Modelled is the connection of [cwist_http2_serve_connection]: no stream
    hooks (the gRPC server's), so no [hook_ctx], no handler thread besides the
    connection's own, no send-credit waiters; and without the opt-in sequenced
    DATA extension.  Streams are the list [hc->streams], newest first.  What a
    connection takes from outside is the class [H2Env]. *)

From S2P Require Import Prelude QueryMap SimdParser Http1 HttpResponse H2Wire H2Out H2FlowControl H2Budget.
From S2P Require Import HpackPrim Hpack HpackEncode.

Definition CWIST_HTTP2_MAX_CONCURRENT_STREAMS : Z := 100.
Definition CWIST_HTTP2_MAX_HEADER_BLOCK_SIZE : Z := 65536.
Definition CWIST_HTTP2_MAX_CONTINUATIONS : Z := 32.

(** ** The surroundings of a connection

    The settings read from the environment, the entropy of the query map's
    seed, the local port when HTTP/3 is offered, [pread] on the file behind a
    response (bytes wanted, offset from the response's start), and the request
    handler: the request and the response as it leaves them, and whether it
    deferred the response to another thread. *)
Class H2Env : Type := {
  env_batch : Z;
  env_rst_burst : Z;
  env_rst_rate : Z;
  env_idle_ms : Z;
  env_grace_ms : Z;
  env_seed : bytes;
  env_http3_port : option Z;
  env_pread : http_response -> Z -> Z -> option bytes;
  env_handler : http_request -> http_response -> http_request * http_response * bool
}.

(** ** State *)

Record h2_stream : Type := MkStream {
  hs_id : Z;
  hs_req : option http_request;
  hs_fc : h2_stream_fc;
  hs_recv_xor : Z;
  hs_send_xor : Z;
  hs_response : option http_response;
  hs_has_content_length : bool;
  hs_received_content : Z;
  hs_response_sent : Z;
  hs_response_headers_sent : bool
}.
#[export] Instance h2_stream_fields : Fields h2_stream := fun r =>
  MkStream (hs_id r) (hs_req r) (hs_fc r) (hs_recv_xor r) (hs_send_xor r) (hs_response r)
    (hs_has_content_length r) (hs_received_content r) (hs_response_sent r) (hs_response_headers_sent r).

(** The header block being assembled: [ct_buf] is [cont_buf], its first
    [cont_len] bytes being in use. *)
Record h2_cont : Type := MkCont {
  ct_buf : option bytes;
  ct_len : Z;
  ct_cap : Z;
  ct_stream_id : Z;
  ct_expecting : bool;
  ct_end_stream : bool;
  ct_discard : bool;
  ct_frame_count : Z
}.
#[export] Instance h2_cont_fields : Fields h2_cont := fun r =>
  MkCont (ct_buf r) (ct_len r) (ct_cap r) (ct_stream_id r) (ct_expecting r) (ct_end_stream r)
    (ct_discard r) (ct_frame_count r).

Record h2_ping : Type := MkPing { pg_sent_us : Z; pg_payload : bytes; pg_outstanding : bool }.
#[export] Instance h2_ping_fields : Fields h2_ping := fun r =>
  MkPing (pg_sent_us r) (pg_payload r) (pg_outstanding r).

(** [hc_calls] is no field of the C structure: the requests handed to the
    handler so far, oldest first, with the stream each belongs to. *)
Record h2_conn : Type := MkConn {
  hc_io : h2_io;
  hc_streams : list h2_stream;
  hc_active_streams : Z;
  hc_peer_max_frame_size : Z;
  hc_peer_initial_window_size : Z;
  hc_peer_max_concurrent_streams : Z;
  hc_fc : h2_conn_fc;
  hc_pacing_waiting : bool;
  hc_ping : h2_ping;
  hc_cont : h2_cont;
  hc_last_processed_stream_id : Z;
  hc_last_activity : Z;
  hc_table : hpack_table;
  hc_budgets : h2_budgets;
  hc_calls : list (h2_stream * http_request)
}.
#[export] Instance h2_conn_fields : Fields h2_conn := fun r =>
  MkConn (hc_io r) (hc_streams r) (hc_active_streams r) (hc_peer_max_frame_size r)
    (hc_peer_initial_window_size r) (hc_peer_max_concurrent_streams r) (hc_fc r)
    (hc_pacing_waiting r) (hc_ping r) (hc_cont r) (hc_last_processed_stream_id r)
    (hc_last_activity r) (hc_table r) (hc_budgets r) (hc_calls r).

(** ** Initialisation *)

Definition zero_conn_fc : h2_conn_fc := MkConnFc 0 0 0 0 0 0 0 0 false Q_NORMAL 0 0 0 0.
Definition zero_stream_fc : h2_stream_fc := MkStreamFc 0 0 0 0 0 0 0 0.

Section conn.
Context {E : H2Env}.

Definition h2_conn_init (io : h2_io) : h2_conn :=
  let fc := default zero_conn_fc (flow_control_init (Some zero_conn_fc) 0 CWIST_HTTP2_MAX_WINDOW) in
  let '(now, io) := h2_now_ms io in
  MkConn io [] 0 CWIST_HTTP2_MAX_FRAME_SIZE 65535 0 (fc <| send_window := 65535 |>) false
    (MkPing 0 (replicate 8 0) false) (MkCont None 0 0 0 false false false 0) 0 now hpack_init
    (MkBudgets (MkCredit env_rst_burst now) (MkCredit env_rst_burst now)
       (MkCredit CWIST_HTTP2_DEFAULT_PING_BURST now)) [].

(** ** Stream table *)

Definition h2_stream_find (hc : h2_conn) (stream_id : Z) : option h2_stream :=
  list_find (fun s => hs_id s = stream_id) hc.(hc_streams) ≫= fun p => Some p.2.

(** Writes a stream back through the pointer [h2_stream_find] returned. *)
Fixpoint put_stream (s : h2_stream) (l : list h2_stream) : list h2_stream :=
  match l with
  | [] => []
  | x :: l => if hs_id x =? hs_id s then s :: l else x :: put_stream s l
  end.
Definition set_stream (hc : h2_conn) (s : h2_stream) : h2_conn :=
  hc <| hc_streams := put_stream s hc.(hc_streams) |>.

Fixpoint drop_stream (stream_id : Z) (l : list h2_stream) : list h2_stream :=
  match l with
  | [] => []
  | x :: l => if hs_id x =? stream_id then l else x :: drop_stream stream_id l
  end.

Definition h2_stream_create (hc : h2_conn) (stream_id : Z) : option h2_stream * h2_conn :=
  match alloc hc.(hc_io).(io_alloc) with
  | (false, a) => (None, hc <| hc_io := hc.(hc_io) <| io_alloc := a |> |>)
  | (true, a) =>
      let hc := hc <| hc_io := hc.(hc_io) <| io_alloc := a |> |> in
      let fc := default zero_stream_fc
                  (stream_flow_control_init (Some zero_stream_fc) stream_id CWIST_HTTP2_MAX_WINDOW
                     CWIST_HTTP2_MAX_WINDOW) in
      let fc := fc <| sf_send_window := s32 hc.(hc_peer_initial_window_size) |> in
      let s := MkStream stream_id None fc 0 0 None false 0 0 false in
      (Some s, hc <| hc_streams := s :: hc.(hc_streams) |>
                  <| hc_active_streams := u32 (hc.(hc_active_streams) + 1) |>)
  end.

Definition h2_stream_remove (hc : h2_conn) (stream_id : Z) : h2_conn :=
  match h2_stream_find hc stream_id with
  | None => hc
  | Some _ =>
      hc <| hc_streams := drop_stream stream_id hc.(hc_streams) |>
         <| hc_active_streams := if 0 <? hc.(hc_active_streams) then hc.(hc_active_streams) - 1
                                 else hc.(hc_active_streams) |>
  end.

(** ** Writers of the connection *)

Definition on_io {A} (f : h2_io -> A * h2_io) (hc : h2_conn) : A * h2_conn :=
  let '(a, io) := f hc.(hc_io) in (a, hc <| hc_io := io |>).

Definition conn_goaway (last_stream_id error_code : Z) : h2_conn -> Z * h2_conn :=
  on_io (h2_send_goaway env_batch last_stream_id error_code).

Definition h2_send_rst_stream (hc : h2_conn) (stream_id error_code : Z) : Z * h2_conn :=
  let '(now, hc) := on_io h2_now_ms hc in
  let '(ok, b) := h2_conn_consume_out_rst_budget env_rst_burst env_rst_rate now hc.(hc_budgets) in
  let hc := hc <| hc_budgets := b |> in
  if negb ok then
    let '(_, hc) := conn_goaway hc.(hc_last_processed_stream_id) H2_ERR_ENHANCE_YOUR_CALM hc in (-2, hc)
  else on_io (write_rst_stream env_batch stream_id error_code) hc.

Definition h2_send_ping (hc : h2_conn) : Z * h2_conn :=
  let '(now, hc) := on_io h2_now_us hc in
  let p := ping_payload now in
  let '(rc, hc) := on_io (h2_write_frame env_batch FRAME_PING 0 0 (Some p) 8) hc in
  if negb (rc =? 0) then (-1, hc) else (0, hc <| hc_ping := MkPing now p true |>).

(** [if (r > 0 && h2_out_append(hc, frame_buf, written) != 0) return -1] *)
Definition append_update (r : Z) (buf : option bytes) (written : option Z) (hc : h2_conn) : Z * h2_conn :=
  if 0 <? r then on_io (h2_out_append env_batch (take (Z.to_nat (default 0 written)) (default [] buf))) hc
  else (0, hc).

(** The frame buffer on the stack is not initialised; the writer fills all
    thirteen bytes it sends. *)
Definition h2_auto_window_update (hc : h2_conn) (sid : option Z) : Z * h2_conn :=
  let '(now, hc) := on_io h2_now_us hc in
  let buf := replicate 13 0 in
  let '(r, fc, buf, written) := maybe_window_update (Some hc.(hc_fc)) (Some buf) 13 (Some 0) now false in
  let hc := hc <| hc_fc := default hc.(hc_fc) fc |> in
  if r <? 0 then (-1, hc) else
  let '(rc, hc) := append_update r buf written hc in
  if negb (rc =? 0) then (-1, hc) else
  match sid ≫= h2_stream_find hc with
  | None => (0, hc)
  | Some s =>
      let '(r, fc, buf, written) :=
        stream_maybe_window_update (Some hc.(hc_fc)) (Some s.(hs_fc)) buf 13 (Some 0) now false in
      let hc := set_stream hc (s <| hs_fc := default s.(hs_fc) fc |>) in
      if r <? 0 then (-1, hc) else
      let '(rc, hc) := append_update r buf written hc in
      if negb (rc =? 0) then (-1, hc) else (0, hc)
  end.

End conn.
