(* ===== verification/H2Send.v ===== *)
(** * HTTP/2 response sending (src/src/net/http/http2.c)

    Send credit ([h2_send_allowance], [h2_commit_send]), the response sender
    [h2_send_response_hc] with its resumable DATA loop and the gRPC trailers,
    and the resumption of responses that waited for credit.

    A response that streams a file has an open descriptor; [env_pread] reads
    it. *)

From S2P Require Import Prelude QueryMap SimdParser Http1 HttpResponse H2Wire H2Out H2FlowControl H2Budget.
From S2P Require Import HpackPrim Hpack HpackEncode H2State.

Definition h2_xor_bytes (buf : bytes) : Z := fold_left Z.lxor buf 0.

Section conn.
Context {E : H2Env}.

(** ** Send credit: the connection and stream after the call, and the bytes. *)

Definition h2_send_allowance (hc : h2_conn) (s : h2_stream) (requested : Z)
    : Z * h2_conn * h2_stream :=
  if s.(hs_fc).(sf_send_window) <=? 0 then (0, hc, s) else
  let allowed := requested in
  let allowed := if hc.(hc_fc).(send_window) <? allowed then hc.(hc_fc).(send_window) else allowed in
  let allowed := if s.(hs_fc).(sf_send_window) <? allowed then s.(hs_fc).(sf_send_window) else allowed in
  if hc.(hc_fc).(rtt_initialized) && (0 <? allowed) then
    let '(now, hc) := on_io h2_now_us hc in
    let '(fc, paced) := pacing_allowance (Some hc.(hc_fc)) (Some s.(hs_fc)) allowed now in
    let hc := hc <| hc_fc := default hc.(hc_fc) fc |> in
    ((if paced <? allowed then paced else allowed), hc, s)
  else (allowed, hc, s).

Definition h2_commit_send (hc : h2_conn) (s : h2_stream) (n : Z) : h2_conn * h2_stream :=
  if hc.(hc_fc).(rtt_initialized) then
    let '(now, hc) := on_io h2_now_us hc in
    match reserve_send (Some hc.(hc_fc)) (Some s.(hs_fc)) n now with
    | Some (c, f, _) => (hc <| hc_fc := default hc.(hc_fc) c |>, s <| hs_fc := default s.(hs_fc) f |>)
    | None => (hc, s)
    end
  else
    (hc <| hc_fc := hc.(hc_fc) <| send_window := u32 (hc.(hc_fc).(send_window) - n) |> |>,
     s <| hs_fc := s.(hs_fc) <| sf_send_window := s32 (s.(hs_fc).(sf_send_window) - n) |> |>).

(** ** Headers and trailers *)

(** The frames of a block, on one stream; the loop stops at a failed write. *)
Definition send_header_block (hc : h2_conn) (stream_id : Z) (block : bytes) (max_frame flags : Z)
    : Z * h2_conn :=
  match h2_send_header_block block max_frame flags [] with
  | Some (fs, _, _) =>
      on_io (write_frames env_batch
               (map (fun f => MkH2Frame f.(fr_type) f.(fr_flags) stream_id f.(fr_payload)) fs)) hc
  | None => (-1, hc)
  end.

Definition h2_response_is_grpc (res : http_response) : bool :=
  match header_get res.(rs_headers) (bs "content-type") with
  | Some ct => bool_decide (take 16 ct = bs "application/grpc")
  | None =>
      match header_get res.(rs_headers) (bs "Content-Type") with
      | Some ct => bool_decide (take 16 ct = bs "application/grpc")
      | None => false
      end
  end.

Fixpoint h2_grpc_header_value (hs : list header) (name : bytes) : option bytes :=
  match hs with
  | [] => None
  | (k, v) :: hs => if case_eq (cstr k) name then Some (cstr v) else h2_grpc_header_value hs name
  end.

Definition grpc_pairs (res : http_response) (fallback : bytes) : list (option bytes * option bytes) :=
  (Some (bs "grpc-status"), Some (default fallback (h2_grpc_header_value res.(rs_headers) (bs "grpc-status")))) ::
  match h2_grpc_header_value res.(rs_headers) (bs "grpc-message") with
  | Some m => [(Some (bs "grpc-message"), Some m)] | None => [] end ++
  match h2_grpc_header_value res.(rs_headers) (bs "grpc-retry-pushback-ms") with
  | Some m => [(Some (bs "grpc-retry-pushback-ms"), Some m)] | None => [] end.

Definition h2_send_grpc_trailers (hc : h2_conn) (stream_id : Z) (res : http_response) (max_frame : Z)
    : Z * h2_conn :=
  match (h2_encode_header_pairs (Z.to_nat 1024) (grpc_pairs res (bs "0"))).1 with
  | None => (-1, hc)
  | Some block => send_header_block hc stream_id block max_frame FLAG_END_STREAM
  end.

Definition on_alloc {A} (f : oracle -> A * oracle) (hc : h2_conn) : A * h2_conn :=
  on_io (fun io => let '(a, al) := f io.(io_alloc) in (a, io <| io_alloc := al |>)) hc.

Definition h2_send_grpc_trailers_only (hc : h2_conn) (stream_id : Z) (res : http_response)
    (max_frame : Z) : Z * h2_conn :=
  match on_alloc (h2_encode_response_block res true) hc with
  | (None, hc) => (-1, hc)
  | (Some block, hc) =>
      match (h2_encode_header_pairs (Z.to_nat 1024) (grpc_pairs res (bs "13"))).1 with
      | None => (-1, hc)
      | Some tail =>
          let '(ok, hc) := on_alloc alloc hc in
          if negb ok then (-1, hc)
          else send_header_block hc stream_id (block ++ tail) max_frame FLAG_END_STREAM
      end
  end.

(** ** Body *)

Inductive body_source : Type := BodyMemory (data : bytes) | BodyFile (len : Z).
Definition source_len (b : body_source) : Z :=
  match b with BodyMemory d => blen d | BodyFile n => n end.

Definition response_source (grpc_mode : bool) (res : http_response) : body_source :=
  if grpc_mode then BodyMemory (default [] res.(rs_body))
  else if res.(rs_use_file_stream) then BodyFile res.(rs_file_stream_len)
  else if res.(rs_is_ptr_body) then BodyMemory res.(rs_ptr_body)
  else BodyMemory (default [] res.(rs_body)).

(** The bytes of one DATA frame: at most [allowed], from offset [sent]; a file
    is read into scratch memory. *)
Definition body_piece (b : body_source) (res : http_response) (allowed sent : Z) (hc : h2_conn)
    : option bytes * h2_conn :=
  match b with
  | BodyMemory d => (Some (sub d (Z.to_nat sent) (Z.to_nat allowed)), hc)
  | BodyFile _ =>
      let '(ok, hc) := on_alloc alloc hc in
      if negb ok then (None, hc)
      else match env_pread res allowed sent with
           | Some d => if blen d =? 0 then (None, hc) else (Some d, hc)
           | None => (None, hc)
           end
  end.

(** How the DATA loop ends: everything sent, or a return code. *)
Inductive sent : Type := SentAll | SentReturn (rc : Z).

Definition flush_return (rc : Z) (pacing : bool) (hc : h2_conn) : sent * h2_conn :=
  let '(r, hc) := on_io h2_out_flush hc in
  if negb (r =? 0) then (SentReturn (-1), hc)
  else (SentReturn rc, if pacing then hc <| hc_pacing_waiting := true |> else hc).

(** One turn: a verdict when the loop stops. *)
Definition data_turn (grpc_mode : bool) (b : body_source) (res : http_response) (max_frame : Z)
    (hc : h2_conn) (s : h2_stream) : option sent * h2_conn * h2_stream :=
  let ret r s := let '(o, hc) := r in (Some o, hc, s) in
  let body_len := source_len b in
  let done := s.(hs_response_sent) in
  if (hc.(hc_fc).(send_window) =? 0) || (s.(hs_fc).(sf_send_window) <=? 0)
  then ret (flush_return 1 false hc) s else
  let remaining := body_len - done in
  let chunk := u32 (if max_frame <? remaining then max_frame else remaining) in
  let '(allowed, hc, s) := h2_send_allowance hc s chunk in
  if allowed =? 0 then ret (flush_return 1 true hc) s else
  match body_piece b res allowed done hc with
  | (None, hc) => (Some (SentReturn (-1)), hc, s)
  | (Some data, hc) =>
      let allowed := match b with BodyMemory _ => allowed | BodyFile _ => u32 (blen data) end in
      let flags := if negb grpc_mode && (done + allowed =? body_len) then FLAG_END_STREAM else 0 in
      let '(rc, hc) := on_io (h2_write_frame env_batch FRAME_DATA flags s.(hs_id) (Some data) allowed) hc in
      if negb (rc =? 0) then (Some (SentReturn (-1)), hc, s) else
      let s := s <| hs_send_xor := Z.lxor s.(hs_send_xor) (h2_xor_bytes data) |> in
      let '(hc, s) := h2_commit_send hc s allowed in
      let s := s <| hs_response_sent := done + allowed |> in
      if (allowed <? chunk) && (0 <? hc.(hc_fc).(send_window)) && (0 <? s.(hs_fc).(sf_send_window))
      then ret (flush_return 1 true hc) s
      else (None, hc, s)
  end.

(** Each turn that goes on has sent a byte: [fuel] counts those left. *)
Fixpoint data_loop (fuel : nat) (grpc_mode : bool) (b : body_source) (res : http_response)
    (max_frame : Z) (hc : h2_conn) (s : h2_stream) : sent * h2_conn * h2_stream :=
  if negb (s.(hs_response_sent) <? source_len b) then (SentAll, hc, s) else
  match fuel with
  | O => (SentReturn (-1), hc, s)
  | S fuel =>
      match data_turn grpc_mode b res max_frame hc s with
      | (Some o, hc, s) => (o, hc, s)
      | (None, hc, s) => data_loop fuel grpc_mode b res max_frame hc s
      end
  end.

(** ** The response *)

Definition no_content (s : h2_stream) (res : http_response) : bool :=
  h2_status_forbids_body res.(rs_status_code) ||
  match s.(hs_req) with Some r => bool_decide (r.(req_method) = HTTP_HEAD) | None => false end.

(** After the headers: body and trailers. *)
Definition send_rest (hc : h2_conn) (s : h2_stream) (res : http_response) (grpc_mode empty : bool)
    (max_frame : Z) : Z * h2_conn :=
  let stream_id := s.(hs_id) in
  let b := response_source grpc_mode res in
  if empty then
    if grpc_mode then h2_send_grpc_trailers hc stream_id res max_frame else (0, hc)
  else
    let '(o, hc, s) :=
      data_loop (Z.to_nat (source_len b - s.(hs_response_sent))) grpc_mode b res max_frame hc s in
    let hc := set_stream hc s in
    match o with
    | SentReturn rc => (rc, hc)
    | SentAll => if grpc_mode then h2_send_grpc_trailers hc stream_id res max_frame
                 else on_io h2_out_flush hc
    end.

(** 0: sent; 1: waiting for credit; -1: failed. *)
Definition h2_send_response_hc (hc : h2_conn) (stream_id : Z) (res : http_response) : Z * h2_conn :=
  match h2_stream_find hc stream_id with
  | None => (-1, hc)
  | Some s =>
      let grpc_mode := h2_response_is_grpc res in
      let b := response_source grpc_mode res in
      let no_content := no_content s res in
      let max_frame := if hc.(hc_peer_max_frame_size) =? 0 then CWIST_HTTP2_MAX_FRAME_SIZE
                       else hc.(hc_peer_max_frame_size) in
      let empty := (source_len b =? 0) || no_content in
      if s.(hs_response_headers_sent) then send_rest hc s res grpc_mode empty max_frame else
      if grpc_mode && match h2_grpc_header_value res.(rs_headers) (bs "grpc-status") with
                      | Some gs => negb (bool_decide (gs = bs "0")) | None => false end
      then h2_send_grpc_trailers_only hc stream_id res max_frame
      else
        let flags := if empty && negb grpc_mode then FLAG_END_STREAM else 0 in
        match on_alloc (h2_encode_response_block res grpc_mode) hc with
        | (None, hc) => (-1, hc)
        | (Some block, hc) =>
            let '(rc, hc) := send_header_block hc stream_id block max_frame flags in
            if negb (rc =? 0) then (-1, hc) else
            let s := s <| hs_response_headers_sent := true |> in
            send_rest (set_stream hc s) s res grpc_mode empty max_frame
        end
  end.

Definition h2_inject_alt_svc (res : http_response) (o : oracle) : http_response * oracle :=
  match env_http3_port with
  | Some port =>
      match header_get res.(rs_headers) (bs "Alt-Svc") with
      | Some _ => (res, o)
      | None =>
          let value := bs "h3=" ++ [34] ++ bs ":" ++ dec_signed port ++ [34] ++ bs "; ma=86400" in
          match header_add res.(rs_headers) (Some (bs "Alt-Svc")) (Some value) o with
          | (inr hs, o) => (res <| rs_headers := hs |>, o)
          | (inl _, o) => (res, o)
          end
      end
  | None => (res, o)
  end.

(** The streams as they stand when the walk starts. *)
Fixpoint resume_loop (ids : list Z) (hc : h2_conn) : Z * h2_conn :=
  match ids with
  | [] => (0, hc)
  | id :: ids =>
      match h2_stream_find hc id ≫= hs_response with
      | None => resume_loop ids hc
      | Some res =>
          let '(rc, hc) := h2_send_response_hc hc id res in
          if rc =? 1 then resume_loop ids hc else
          let hc := h2_stream_remove hc id in
          if negb (rc =? 0) then (-1, hc) else resume_loop ids hc
      end
  end.
Definition h2_resume_responses (hc : h2_conn) : Z * h2_conn :=
  resume_loop (map hs_id hc.(hc_streams)) hc.

End conn.
