(* ===== verification/H2Recv.v ===== *)
(** * The HTTP/2 connection: frame handlers
    (src/src/net/http/http2.c)

    Header blocks and their CONTINUATIONs, SETTINGS, WINDOW_UPDATE, DATA,
    RST_STREAM and PING as the dispatcher of
    [cwist_http2_serve_connection_ex] handles them (with NULL hooks), the
    request handler's call, and the dispatcher itself.

    A handler of a frame returns whether the connection stays up; [None] is the
    dereference of a NULL pointer. *)

From S2P Require Import Prelude QueryMap SimdParser Http1 HttpResponse H2Wire H2Out H2FlowControl H2Budget.
From S2P Require Import HpackPrim Hpack HpackEncode H2State H2Send.

Section conn.
Context {E : H2Env}.

(** ** Header blocks *)

Inductive created : Type := Created (s : h2_stream) | CreateRefused | CreateGoaway | CreateFailed.

Definition h2_request_stream_create (hc : h2_conn) (stream_id : Z) : created * h2_conn :=
  if CWIST_HTTP2_MAX_CONCURRENT_STREAMS <=? hc.(hc_active_streams) then
    let '(rst_rc, hc) := h2_send_rst_stream hc stream_id H2_ERR_REFUSED_STREAM in
    if rst_rc =? -2 then (CreateGoaway, hc) else (CreateRefused, hc)
  else
    match h2_stream_create hc stream_id with
    | (None, hc) => (CreateFailed, hc)
    | (Some s, hc) =>
        match on_alloc http_request_create hc with
        | (None, hc) => (CreateFailed, h2_stream_remove hc stream_id)
        | (Some req, hc) =>
            let '(version, hc) := on_alloc (sstring_assign req.(req_version) (bs "HTTP/2")) hc in
            let s := s <| hs_req := Some (req <| req_version := version |>) |> in
            (Created s, set_stream hc s)
        end
    end.

(** The decoder's view of a stream, and back. *)
Definition stream_target (s : h2_stream) : option h2_target :=
  match s.(hs_req) with Some r => Some (MkTarget r s.(hs_has_content_length)) | None => None end.
Definition with_target (s : h2_stream) (t : option h2_target) : h2_stream :=
  match t with
  | Some t => s <| hs_req := Some t.(ht_req) |> <| hs_has_content_length := t.(ht_has_content_length) |>
  | None => s
  end.

Definition decode_block (hc : h2_conn) (s : h2_stream) (block : bytes) (is_request : bool)
    : option (decode_result * h2_conn) :=
  match h2_decode_header_block env_seed hc.(hc_table) (stream_target s) block is_request
          hc.(hc_io).(io_alloc) with
  | None => None
  | Some (r, table, t, a) =>
      let hc := hc <| hc_table := table |> <| hc_io := hc.(hc_io) <| io_alloc := a |> |> in
      Some (r, set_stream hc (with_target s t))
  end.

Definition h2_decode_stream_headers (hc : h2_conn) (s : h2_stream) (block : bytes) (is_request : bool)
    : option (Z * h2_conn) :=
  match decode_block hc s block is_request with
  | None => None
  | Some (DECODE_COMPRESSION_ERROR, hc) => Some (-1, hc)
  | Some (DECODE_STREAM_ERROR, hc) =>
      let '(rst_rc, hc) := h2_send_rst_stream hc s.(hs_id) H2_ERR_PROTOCOL_ERROR in
      let hc := h2_stream_remove hc s.(hs_id) in
      Some (if rst_rc =? -2 then -1 else 1, hc)
  | Some (DECODE_OK, hc) => Some (0, hc)
  end.

(** A request stream without any header: RST_STREAM. *)
Definition reject_empty_block (hc : h2_conn) (stream_id : Z) : Z * h2_conn :=
  let '(rst_rc, hc) := h2_send_rst_stream hc stream_id H2_ERR_PROTOCOL_ERROR in
  let hc := h2_stream_remove hc stream_id in
  (if rst_rc =? -2 then -2 else 1, hc).

Definition create_code (c : created) : Z :=
  match c with CreateGoaway => -2 | CreateRefused => 1 | _ => -1 end.

(** The stream of a block, or a new one. *)
Definition open_stream (hc : h2_conn) (stream_id : Z) : created * h2_conn :=
  match h2_stream_find hc stream_id with
  | Some s => (Created s, hc)
  | None => h2_request_stream_create hc stream_id
  end.

Definition h2_begin_headers (hc : h2_conn) (stream_id : Z) (payload : bytes)
    (end_headers end_stream : bool) : option (Z * h2_conn) :=
  let block_len := blen payload in
  if hc.(hc_cont).(ct_expecting) then Some (-1, hc) else
  let is_new := bool_decide (h2_stream_find hc stream_id = None) in
  if is_new && (stream_id <=? hc.(hc_last_processed_stream_id)) then Some (-1, hc) else
  if end_headers then
    let '(c, hc) := open_stream hc stream_id in
    match c with
    | Created s =>
        if 0 <? block_len then h2_decode_stream_headers hc s payload is_new
        else if is_new then Some (reject_empty_block hc stream_id)
        else Some (0, hc)
    | c => Some (create_code c, hc)
    end
  else if CWIST_HTTP2_MAX_HEADER_BLOCK_SIZE <? block_len then Some (-2, hc)
  else if is_new && (CWIST_HTTP2_MAX_CONCURRENT_STREAMS <=? hc.(hc_active_streams)) then
    let '(rst_rc, hc) := h2_send_rst_stream hc stream_id H2_ERR_REFUSED_STREAM in
    if rst_rc =? -2 then Some (-2, hc) else
    let ct := hc.(hc_cont) in
    Some (1, hc <| hc_cont := MkCont ct.(ct_buf) 0 ct.(ct_cap) stream_id true end_stream true 0 |>)
  else
    let cap := if block_len <? 1024 then 1024 else block_len * 2 in
    let '(ok, hc) := on_alloc alloc hc in
    if negb ok then
      Some (-1, hc <| hc_cont := MkCont None block_len cap stream_id false end_stream false 0 |>)
    else
      Some (0, hc <| hc_cont := MkCont (Some payload) block_len cap stream_id true end_stream false 0 |>).

(** [memcpy(cont_buf + cont_len, payload, len)] after the growth; [None]: no
    memory. *)
Definition cont_append (hc : h2_conn) (payload : bytes) : bool * h2_conn :=
  let ct := hc.(hc_cont) in
  let need := ct.(ct_len) + blen payload in
  let '(ok, cap, hc) :=
    if ct.(ct_cap) <? need then
      let '(ok, hc) := on_alloc alloc hc in (ok, grow 64 (u64 (ct.(ct_cap) * 2)) need, hc)
    else (true, ct.(ct_cap), hc) in
  if negb ok then (false, hc) else
  let buf := take (Z.to_nat ct.(ct_len)) (default [] ct.(ct_buf)) ++ payload in
  (true, hc <| hc_cont := ct <| ct_buf := Some buf |> <| ct_len := need |> <| ct_cap := cap |> |>).

(** What END_HEADERS on a CONTINUATION does with the assembled block. *)
Definition finish_block (hc : h2_conn) : option (Z * h2_conn) :=
  let ct := hc.(hc_cont) in
  let stream_id := ct.(ct_stream_id) in
  let is_new := bool_decide (h2_stream_find hc stream_id = None) in
  let '(c, hc) := open_stream hc stream_id in
  let r :=
    match c with
    | Created s =>
        match ct.(ct_buf) with
        | Some buf =>
            if 0 <? ct.(ct_len) then
              h2_decode_stream_headers hc s (take (Z.to_nat ct.(ct_len)) buf) is_new
            else if is_new then Some (reject_empty_block hc stream_id) else Some (0, hc)
        | None => if is_new then Some (reject_empty_block hc stream_id) else Some (0, hc)
        end
    | c => Some (create_code c, hc)
    end in
  match r with
  | None => None
  | Some (rc, hc) =>
      Some (rc, hc <| hc_cont := hc.(hc_cont) <| ct_expecting := false |> <| ct_len := 0 |>
                                    <| ct_stream_id := 0 |> <| ct_frame_count := 0 |> |>)
  end.

Definition h2_handle_continuation (hc : h2_conn) (stream_id : Z) (payload : bytes) (end_headers : bool)
    : option (Z * h2_conn) :=
  if negb hc.(hc_cont).(ct_expecting) || negb (hc.(hc_cont).(ct_stream_id) =? stream_id)
  then Some (-1, hc) else
  let hc := hc <| hc_cont := hc.(hc_cont) <| ct_frame_count := u32 (hc.(hc_cont).(ct_frame_count) + 1) |> |> in
  let ct := hc.(hc_cont) in
  if CWIST_HTTP2_MAX_CONTINUATIONS <? ct.(ct_frame_count) then Some (-2, hc) else
  if CWIST_HTTP2_MAX_HEADER_BLOCK_SIZE <? ct.(ct_len) + blen payload then Some (-2, hc) else
  if ct.(ct_discard) then
    Some (0, if end_headers
             then hc <| hc_cont := ct <| ct_expecting := false |> <| ct_discard := false |>
                                      <| ct_stream_id := 0 |> <| ct_frame_count := 0 |> |>
             else hc)
  else
    let '(ok, hc) := if 0 <? blen payload then cont_append hc payload else (true, hc) in
    if negb ok then Some (-1, hc)
    else if end_headers then finish_block hc else Some (0, hc).

(** ** SETTINGS and WINDOW_UPDATE *)

Definition adjust_streams (delta : Z) (l : list h2_stream) : list h2_stream :=
  map (fun s => s <| hs_fc :=
         default s.(hs_fc) (stream_flow_control_adjust_send_window (Some s.(hs_fc)) delta) |>) l.

Definition apply_setting (hc : h2_conn) (id value : Z) : Z * h2_conn :=
  if id =? 2 then (if 1 <? value then (-1, hc) else (0, hc))
  else if id =? 3 then (0, hc <| hc_peer_max_concurrent_streams := value |>)
  else if id =? 4 then
    if 2147483647 <? value then (-1, hc) else
    let delta := s32 value - s32 hc.(hc_peer_initial_window_size) in
    (0, hc <| hc_peer_initial_window_size := value |>
           <| hc_streams := adjust_streams delta hc.(hc_streams) |>)
  else if id =? 5 then
    if (value <? 16384) || (16777215 <? value) then (-1, hc)
    else (0, hc <| hc_peer_max_frame_size := value |>)
  else (0, hc).

(** The entries from offset [i]. *)
Fixpoint settings_loop (n : nat) (payload : bytes) (i : nat) (hc : h2_conn) : Z * h2_conn :=
  match n with
  | O => (0, hc)
  | S n =>
      let '(rc, hc) := apply_setting hc (h2_get_u16 payload i) (h2_get_u32 payload (i + 2)) in
      if negb (rc =? 0) then (-1, hc) else settings_loop n payload (i + 6) hc
  end.

Definition h2_handle_settings (hc : h2_conn) (payload : bytes) (ack : bool) : Z * h2_conn :=
  if ack then (0, hc)
  else if negb (length payload mod 6 =? 0)%nat then (-1, hc)
  else settings_loop (length payload / 6) payload 0 hc.

Definition h2_handle_window_update (hc : h2_conn) (stream_id : Z) (payload : bytes) : Z * h2_conn :=
  if negb (length payload =? 4)%nat then (-1, hc) else
  let increment := h2_get_u31 payload 0 in
  if increment <=? 0 then (-1, hc) else
  if stream_id =? 0 then
    if CWIST_HTTP2_MAX_WINDOW <? hc.(hc_fc).(send_window) + increment then (-1, hc)
    else (0, hc <| hc_fc := hc.(hc_fc) <| send_window := u32 (hc.(hc_fc).(send_window) + increment) |> |>)
  else
    match h2_stream_find hc stream_id with
    | None => (0, hc)
    | Some s =>
        let next := s.(hs_fc).(sf_send_window) + increment in
        if CWIST_HTTP2_MAX_WINDOW <? next then (-1, hc)
        else (0, set_stream hc (s <| hs_fc := s.(hs_fc) <| sf_send_window := s32 next |> |>))
    end.

(** ** The request handler *)

(** [cwist_http_response_create_in_arena] *)
Definition response_create (o : oracle) : option http_response * oracle :=
  match alloc o with
  | (true, o) => (Some (MkResponse 200 (Some (bs "OK")) (Some (bs "HTTP/1.1")) [] None true false [] false 0
                          None false false false false None 0 None []), o)
  | (false, o) => (None, o)
  end.

Inductive handled : Type := HandlerNoMemory | HandlerDeferred | HandlerSent (rc : Z).

(** The handler's call for the request of stream [s], and the sending of what
    it answers. *)
Definition call_handler (hc : h2_conn) (s : h2_stream) (req : http_request) : handled * h2_conn :=
  match on_alloc response_create hc with
  | (None, hc) => (HandlerNoMemory, hc)
  | (Some res, hc) =>
      let '(req', res, deferred) := env_handler req res in
      let hc := hc <| hc_calls := hc.(hc_calls) ++ [(s, req)] |> in
      if (deferred : bool) then (HandlerDeferred, set_stream hc (s <| hs_req := None |>)) else
      let '(res, hc) := on_alloc (h2_inject_alt_svc res) hc in
      let hc := set_stream hc (s <| hs_req := Some req' |> <| hs_response := Some res |>) in
      let '(rc, hc) := h2_send_response_hc hc s.(hs_id) res in
      let hc := if rc =? 1 then hc else
                match h2_stream_find hc s.(hs_id) with
                | Some s => set_stream hc (s <| hs_response := None |>)
                | None => hc
                end in
      (HandlerSent rc, hc)
  end.

(** The end of a request without body: from HEADERS or CONTINUATION. *)
Definition dispatch_request (hc : h2_conn) (stream_id : Z) : bool * h2_conn :=
  match h2_stream_find hc stream_id with
  | None => (true, hc)
  | Some s =>
      match s.(hs_req) with
      | None => (true, hc)
      | Some req =>
          match call_handler hc s req with
          | (HandlerDeferred, hc) => (true, hc)
          | (HandlerNoMemory, hc) => (true, h2_stream_remove hc stream_id)
          | (HandlerSent rc, hc) =>
              (negb (rc <? 0), if rc =? 1 then hc else h2_stream_remove hc stream_id)
          end
      end
  end.

(** ** Content length *)

(** [None]: [s->req] is NULL and read. *)
Definition h2_content_length_matches (s : h2_stream) : option bool :=
  if negb s.(hs_has_content_length) then Some true
  else match s.(hs_req) with
       | Some r => Some (r.(req_content_length) =? s.(hs_received_content))
       | None => None
       end.

Definition reset_stream (hc : h2_conn) (stream_id error_code : Z) : h2_conn :=
  let rst := [0; 0; 0; u8 error_code] in
  let '(_, hc) := on_io (h2_write_frame env_batch FRAME_RST_STREAM 0 stream_id (Some rst) 4) hc in
  h2_stream_remove hc stream_id.
Definition h2_reject_content_length (hc : h2_conn) (s : h2_stream) : h2_conn :=
  reset_stream hc s.(hs_id) H2_ERR_PROTOCOL_ERROR.

(** ** Frames.  The result: does the connection stay up. *)

Definition goaway (hc : h2_conn) (last_stream_id error_code : Z) : bool * h2_conn :=
  let '(_, hc) := conn_goaway last_stream_id error_code hc in (false, hc).
Definition goaway_last (hc : h2_conn) (error_code : Z) : bool * h2_conn :=
  goaway hc hc.(hc_last_processed_stream_id) error_code.

Definition has_flag (flags flag : Z) : bool := negb (Z.land flags flag =? 0).

Definition on_settings (hc : h2_conn) (flags : Z) (payload : bytes) : bool * h2_conn :=
  let '(rc, hc) := h2_handle_settings hc payload (has_flag flags FLAG_ACK) in
  if negb (rc =? 0) then goaway_last hc H2_ERR_PROTOCOL_ERROR
  else if has_flag flags FLAG_ACK then (true, hc)
  else let '(rc, hc) := on_io (h2_write_frame env_batch FRAME_SETTINGS FLAG_ACK 0 None 0) hc in
       (rc =? 0, hc).

(** The header block inside a HEADERS payload. *)
Definition strip_padding (flags : Z) (payload : bytes) : option bytes :=
  let unpadded :=
    if has_flag flags FLAG_PADDED then
      if (blen payload =? 0) || (blen payload <=? rd payload 0) then None
      else Some (sub payload 1 (length payload - Z.to_nat (rd payload 0) - 1))
    else Some payload in
  match unpadded with
  | None => None
  | Some block =>
      if has_flag flags FLAG_PRIORITY then
        if blen block <? 5 then None else Some (drop 5 block)
      else Some block
  end.

Definition block_error (rc : Z) : Z := if rc =? -2 then H2_ERR_ENHANCE_YOUR_CALM else H2_ERR_PROTOCOL_ERROR.

(** After a complete block with END_STREAM: the length check, then the
    handler. *)
Definition end_of_headers (hc : h2_conn) (stream_id : Z) : option (bool * h2_conn) :=
  match h2_stream_find hc stream_id with
  | None => Some (true, hc)
  | Some s =>
      match s.(hs_req) with
      | None => Some (true, hc)
      | Some _ =>
          match h2_content_length_matches s with
          | None => None
          | Some false => Some (true, h2_reject_content_length hc s)
          | Some true => Some (dispatch_request hc stream_id)
          end
      end
  end.

Definition on_headers (hc : h2_conn) (flags stream_id : Z) (payload : bytes) : option (bool * h2_conn) :=
  if (stream_id =? 0) || (stream_id mod 2 =? 0) then Some (goaway hc 0 H2_ERR_PROTOCOL_ERROR) else
  match strip_padding flags payload with
  | None => Some (goaway_last hc H2_ERR_PROTOCOL_ERROR)
  | Some block =>
      match h2_begin_headers hc stream_id block (has_flag flags FLAG_END_HEADERS)
              (has_flag flags FLAG_END_STREAM) with
      | None => None
      | Some (rc, hc) =>
          if rc <? 0 then Some (goaway_last hc (block_error rc)) else
          let hc := if hc.(hc_last_processed_stream_id) <? stream_id
                    then hc <| hc_last_processed_stream_id := stream_id |> else hc in
          if 0 <? rc then Some (true, hc)
          else if has_flag flags FLAG_END_STREAM then end_of_headers hc stream_id
          else Some (true, hc)
      end
  end.

Definition on_continuation (hc : h2_conn) (flags stream_id : Z) (payload : bytes)
    : option (bool * h2_conn) :=
  if (stream_id =? 0) || negb hc.(hc_cont).(ct_expecting) || negb (hc.(hc_cont).(ct_stream_id) =? stream_id)
  then Some (goaway_last hc H2_ERR_PROTOCOL_ERROR) else
  match h2_handle_continuation hc stream_id payload (has_flag flags FLAG_END_HEADERS) with
  | None => None
  | Some (rc, hc) =>
      if rc <? 0 then Some (goaway_last hc (block_error rc))
      else if 0 <? rc then Some (true, hc)
      else if has_flag flags FLAG_END_STREAM then Some (goaway_last hc H2_ERR_PROTOCOL_ERROR)
      else if has_flag flags FLAG_END_HEADERS && hc.(hc_cont).(ct_end_stream)
      then end_of_headers hc stream_id
      else Some (true, hc)
  end.

(** *** DATA *)

Definition data_payload (flags : Z) (payload : bytes) : option bytes :=
  if has_flag flags FLAG_PADDED then
    if (blen payload =? 0) || (blen payload - 1 <? rd payload 0) then None
    else Some (sub payload 1 (length payload - 1 - Z.to_nat (rd payload 0)))
  else Some payload.

(** Receive credit of connection and stream; [false]: exceeded. *)
Definition data_credit (hc : h2_conn) (s : h2_stream) (len : Z) : bool * h2_conn * h2_stream :=
  if 0 <? len then
    let '(fc, ok) := flow_control_receive (Some hc.(hc_fc)) len in
    let hc := hc <| hc_fc := default hc.(hc_fc) fc |> in
    if negb ok then (false, hc, s) else
    let '(sfc, ok) := stream_flow_control_receive (Some s.(hs_fc)) len in
    let s := s <| hs_fc := default s.(hs_fc) sfc |> in
    if negb ok then (false, hc, s) else
    (true, hc <| hc_fc := default hc.(hc_fc) (flow_control_consume (Some hc.(hc_fc)) len) |>,
     s <| hs_fc := default s.(hs_fc) (stream_flow_control_consume (Some s.(hs_fc)) len) |>)
  else (true, hc, s).

(** DATA for a stream that is not open: only the connection's credit. *)
Definition stray_data (hc : h2_conn) (len : Z) : bool * h2_conn :=
  let '(fc, ok) := flow_control_receive (Some hc.(hc_fc)) len in
  let hc := hc <| hc_fc := default hc.(hc_fc) fc |> in
  if negb ok then goaway_last hc H2_ERR_FLOW_CONTROL_ERROR
  else (true, hc <| hc_fc := default hc.(hc_fc) (flow_control_consume (Some hc.(hc_fc)) len) |>).

(** The body grows by [data]; [false]: it would pass the limit.  An append that
    finds no memory leaves the body. *)
Definition append_body (hc : h2_conn) (s : h2_stream) (req : http_request) (data : bytes)
    : bool * h2_conn * h2_stream :=
  let body := default [] req.(req_body) in
  if CWIST_HTTP_MAX_BODY_SIZE <? blen body + blen data then (false, hc, s) else
  let '(ok, hc) := on_alloc alloc hc in
  let req := if (ok : bool) then req <| req_body := Some (body ++ data) |> else req in
  (true, hc, s <| hs_recv_xor := Z.lxor s.(hs_recv_xor) (h2_xor_bytes data) |> <| hs_req := Some req |>).

(** END_STREAM on DATA: the length check, the handler, the last credit. *)
Definition end_of_data (hc : h2_conn) (s : h2_stream) : option (bool * h2_conn) :=
  match h2_content_length_matches s with
  | None => None
  | Some false => Some (true, h2_reject_content_length hc s)
  | Some true =>
      match s.(hs_req) with
      | None => None
      | Some req =>
          match call_handler hc s req with
          | (HandlerDeferred, hc) => Some (true, (h2_auto_window_update hc (Some s.(hs_id))).2)
          | (HandlerNoMemory, hc) =>
              Some (true, h2_stream_remove (h2_auto_window_update hc (Some s.(hs_id))).2 s.(hs_id))
          | (HandlerSent rc, hc) =>
              let connected := negb (rc <? 0) in
              let hc := if connected then (h2_auto_window_update hc (Some s.(hs_id))).2 else hc in
              Some (connected, if rc =? 1 then hc else h2_stream_remove hc s.(hs_id))
          end
      end
  end.

(** The content-length check before the data is looked at. *)
Definition over_content_length (s : h2_stream) : option bool :=
  if s.(hs_has_content_length) then
    match s.(hs_req) with
    | Some r => Some (r.(req_content_length) <? s.(hs_received_content))
    | None => None
    end
  else Some false.

Definition on_stream_data (hc : h2_conn) (s : h2_stream) (flags : Z) (data : bytes)
    : option (bool * h2_conn) :=
  let s := s <| hs_received_content := u64 (s.(hs_received_content) + blen data) |> in
  let hc := set_stream hc s in
  match over_content_length s with
  | None => None
  | Some true => Some (true, h2_reject_content_length hc s)
  | Some false =>
      let r :=
        if 0 <? blen data then
          match s.(hs_req) with
          | None => None
          | Some req => Some (append_body hc s req data)
          end
        else Some (true, hc, s) in
      match r with
      | None => None
      | Some (false, hc, s) => Some (true, reset_stream hc s.(hs_id) H2_ERR_REFUSED_STREAM)
      | Some (true, hc, s) =>
          let hc := set_stream hc s in
          if has_flag flags FLAG_END_STREAM then end_of_data hc s
          else Some (true, (h2_auto_window_update hc (Some s.(hs_id))).2)
      end
  end.

Definition on_data (hc : h2_conn) (flags stream_id : Z) (payload : bytes) : option (bool * h2_conn) :=
  if stream_id =? 0 then Some (goaway hc 0 H2_ERR_PROTOCOL_ERROR) else
  match data_payload flags payload with
  | None => Some (goaway_last hc H2_ERR_PROTOCOL_ERROR)
  | Some data =>
      match h2_stream_find hc stream_id with
      | None => Some (stray_data hc (blen payload))
      | Some s =>
          let '(ok, hc, s) := data_credit hc s (blen payload) in
          let hc := set_stream hc s in
          if negb ok then Some (goaway_last hc H2_ERR_FLOW_CONTROL_ERROR)
          else on_stream_data hc s flags data
      end
  end.

(** *** RST_STREAM, PING, WINDOW_UPDATE *)

Definition on_rst_stream (hc : h2_conn) (stream_id : Z) (payload : bytes) : bool * h2_conn :=
  if (stream_id =? 0) || negb (blen payload =? 4) then goaway_last hc H2_ERR_PROTOCOL_ERROR else
  if hc.(hc_last_processed_stream_id) <? stream_id then goaway_last hc H2_ERR_PROTOCOL_ERROR else
  let '(now, hc) := on_io h2_now_ms hc in
  let '(ok, b) := h2_conn_consume_rst_budget env_rst_burst env_rst_rate now hc.(hc_budgets) in
  let hc := hc <| hc_budgets := b |> in
  if negb ok then goaway_last hc H2_ERR_ENHANCE_YOUR_CALM
  else (true, h2_stream_remove hc stream_id).

Definition on_ping (hc : h2_conn) (flags : Z) (payload : bytes) : bool * h2_conn :=
  if negb (blen payload =? 8) then goaway_last hc H2_ERR_FRAME_SIZE_ERROR else
  if negb (has_flag flags FLAG_ACK) then
    let '(now, hc) := on_io h2_now_ms hc in
    let '(ok, b) := h2_conn_consume_ping_budget now hc.(hc_budgets) in
    let hc := hc <| hc_budgets := b |> in
    if negb ok then goaway_last hc H2_ERR_ENHANCE_YOUR_CALM else
    let '(rc, hc) := on_io (h2_write_frame env_batch FRAME_PING FLAG_ACK 0 (Some payload) 8) hc in
    (rc =? 0, hc)
  else if hc.(hc_ping).(pg_outstanding) && bool_decide (payload = hc.(hc_ping).(pg_payload)) then
    let '(now, hc) := on_io h2_now_us hc in
    let sample := u64 (now - hc.(hc_ping).(pg_sent_us)) in
    let hc := hc <| hc_ping := hc.(hc_ping) <| pg_outstanding := false |> |> in
    let hc := if 0 <? sample
              then hc <| hc_fc := default hc.(hc_fc) (flow_control_update_rtt (Some hc.(hc_fc)) sample) |>
              else hc in
    (true, match hc.(hc_streams) with [] => hc | _ => (h2_send_ping hc).2 end)
  else (true, hc).

Definition on_window_update (hc : h2_conn) (stream_id : Z) (payload : bytes) : bool * h2_conn :=
  if negb (blen payload =? 4) then goaway_last hc H2_ERR_FRAME_SIZE_ERROR else
  let '(rc, hc) := h2_handle_window_update hc stream_id payload in
  if negb (rc =? 0) then goaway_last hc H2_ERR_FLOW_CONTROL_ERROR else (true, hc).

(** The [switch] of the dispatcher. *)
Definition on_frame (hc : h2_conn) (type flags stream_id : Z) (payload : bytes)
    : option (bool * h2_conn) :=
  if type =? FRAME_SETTINGS then Some (on_settings hc flags payload)
  else if type =? FRAME_HEADERS then on_headers hc flags stream_id payload
  else if type =? FRAME_CONTINUATION then on_continuation hc flags stream_id payload
  else if type =? FRAME_DATA then on_data hc flags stream_id payload
  else if type =? FRAME_RST_STREAM then Some (on_rst_stream hc stream_id payload)
  else if type =? FRAME_PING then Some (on_ping hc flags payload)
  else if type =? FRAME_GOAWAY then Some (false, hc)
  else if type =? FRAME_WINDOW_UPDATE then Some (on_window_update hc stream_id payload)
  else Some (true, hc).

(** From a readable connection to the next: the header, its checks, the
    payload, the dispatch.  What is left of the input comes with the result. *)
Definition read_and_dispatch (hc : h2_conn) (input : bytes) : option (bool * h2_conn * bytes) :=
  match h2_read_full CWIST_HTTP2_FRAME_HEADER_SIZE input with
  | None => Some (false, hc, [])
  | Some (hdr, input) =>
      let h := parse_frame_header hdr in
      let stop r := let '(up, hc) := r in Some (up, hc, input) in
      if CWIST_HTTP2_MAX_FRAME_SIZE <? h.(fh_len)
      then stop (goaway_last hc H2_ERR_FRAME_SIZE_ERROR) else
      if hc.(hc_cont).(ct_expecting) &&
         (negb (h.(fh_type) =? FRAME_CONTINUATION) || negb (h.(fh_stream) =? hc.(hc_cont).(ct_stream_id)))
      then stop (goaway_last hc H2_ERR_PROTOCOL_ERROR) else
      let '(ok, hc) := if 0 <? h.(fh_len) then on_alloc alloc hc else (true, hc) in
      if negb ok then Some (false, hc, input) else
      match h2_read_full (Z.to_nat h.(fh_len)) input with
      | None => Some (false, hc, [])
      | Some (payload, input) =>
          let '(now, hc) := on_io h2_now_ms hc in
          let hc := hc <| hc_last_activity := now |> in
          match on_frame hc h.(fh_type) h.(fh_flags) h.(fh_stream) payload with
          | None => None
          | Some (up, hc) => Some (up, hc, input)
          end
      end
  end.

End conn.
