(* ===== verification/H2Serve.v ===== *)
(** * Serving an HTTP/2 connection (src/src/net/http/http2.c)

    [cwist_http2_serve_connection]: the preface and the first frames, then the
    turns of the frame loop with shutdown, idle expiry and its grace period,
    parking, responses that waited for credit and those completed by another
    thread.

    What a turn meets is a [turn]: whether the process still runs, whether the
    idle connection was handed to the park set (and came back past its
    deadline), and how the wait for the next frame ended. *)

From S2P Require Import Prelude QueryMap SimdParser Http1 HttpResponse H2Wire H2Out H2FlowControl H2Budget.
From S2P Require Import HpackPrim Hpack HpackEncode H2State H2Send H2Recv.

Definition CWIST_HTTP2_CONNECTION_PREFACE : bytes :=
  bs "PRI * HTTP/2.0" ++ [13; 10; 13; 10] ++ bs "SM" ++ [13; 10; 13; 10].
Definition CWIST_HTTP2_CONNECTION_PREFACE_LEN : nat := 24.

Record h2_session : Type := MkSession {
  st_hc : h2_conn;
  st_sent_goaway : bool;
  st_goaway_close_at : Z
}.
#[export] Instance h2_session_fields : Fields h2_session := fun r =>
  MkSession (st_hc r) (st_sent_goaway r) (st_goaway_close_at r).

(** A response completed by another thread: its stream and what to send. *)
Abbreviation completion := (Z * http_response)%type.

Inductive wait_end : Type := WaitReadable | WaitAsync (done : list completion) | WaitFailed.
Record turn : Type := MkTurn { tn_running : bool; tn_park : option bool; tn_wait : wait_end }.

Section conn.
Context {E : H2Env}.

(** ** Start *)

Definition cwist_http2_verify_preface (input : bytes) : option bytes :=
  match h2_read_full CWIST_HTTP2_CONNECTION_PREFACE_LEN input with
  | None => None
  | Some (buffer, input) =>
      if bool_decide (buffer = CWIST_HTTP2_CONNECTION_PREFACE) then Some input else None
  end.

Definition server_settings : bytes :=
  [0x00; 0x01; 0x00; 0x00; 0x10; 0x00;
   0x00; 0x03; 0x00; 0x00; 0x00; 0x64;
   0x00; 0x04; 0x7f; 0xff; 0xff; 0xff;
   0x00; 0x06; 0x00; 0x01; 0x00; 0x00].

(** [None]: the connection is given up before its loop. *)
Definition start_connection (io : h2_io) (input : bytes) : option (h2_session * bytes) :=
  let hc := h2_conn_init io in
  match cwist_http2_verify_preface input with
  | None => None
  | Some input =>
      let '(rc, hc) := on_io (h2_write_frame env_batch FRAME_SETTINGS 0 0 (Some server_settings) 24) hc in
      if negb (rc =? 0) then None else
      let '(_, hc) := on_io (h2_send_window_update env_batch 0 (2147483647 - 65535)) hc in
      let hc := hc <| hc_fc := hc.(hc_fc) <| receive_window := CWIST_HTTP2_MAX_WINDOW |> |> in
      let '(_, hc) := h2_send_ping hc in
      Some (MkSession hc false 0, input)
  end.

(** ** Completions of deferred requests *)

Fixpoint drain_loop (l : list completion) (hc : h2_conn) : Z * h2_conn :=
  match l with
  | [] => (0, hc)
  | (id, res) :: l =>
      match h2_stream_find hc id with
      | None => drain_loop l hc
      | Some s =>
          let '(res, hc) := on_alloc (h2_inject_alt_svc res) hc in
          let hc := set_stream hc (s <| hs_req := None |> <| hs_response := Some res |>) in
          let '(rc, hc) := h2_send_response_hc hc id res in
          if rc =? 1 then drain_loop l hc else
          let hc := h2_stream_remove hc id in
          if negb (rc =? 0) then (-1, hc) else drain_loop l hc
      end
  end.
Definition h2_async_drain (hc : h2_conn) (done : list completion) : Z * h2_conn := drain_loop done hc.

(** ** The loop *)

Definition h2_can_park (hc : h2_conn) : bool :=
  match hc.(hc_streams) with [] => negb (0 <? hc.(hc_cont).(ct_len)) | _ => false end.

(** GOAWAY without error, and the grace period that follows it. *)
Definition announce (st : h2_session) (now : option Z) : bool * h2_session :=
  let '(rc, hc) := conn_goaway st.(st_hc).(hc_last_processed_stream_id) H2_ERR_NO_ERROR st.(st_hc) in
  if negb (rc =? 0) then (false, st <| st_hc := hc |>) else
  match now with
  | Some now => (true, MkSession hc true (u64 (now + env_grace_ms)))
  | None => let '(now, hc) := on_io h2_now_ms hc in (true, MkSession hc true (u64 (now + env_grace_ms)))
  end.

(** The wait failed: pacing or idle expiry go on, anything else ends. *)
Definition after_failed_wait (st : h2_session) (pacing_deadline : Z) : bool * h2_session :=
  let '(now, hc) := on_io h2_now_ms st.(st_hc) in
  let st := st <| st_hc := hc |> in
  if negb (pacing_deadline =? 0) && (pacing_deadline <=? now) then (true, st)
  else if negb st.(st_sent_goaway) && (env_idle_ms <=? u64 (now - hc.(hc_last_activity)))
  then announce st (Some now)
  else (false, st).

(** The wait for a frame, and the frame. *)
Definition wait_and_read (t : turn) (st : h2_session) (input : bytes) : option (bool * h2_session * bytes) :=
  let hc := st.(st_hc) in
  let '(pacing_deadline, hc) :=
    if hc.(hc_pacing_waiting) then let '(now, hc) := on_io h2_now_ms hc in (u64 (now + 2), hc) else (0, hc) in
  let '(rc, hc) := on_io h2_out_flush hc in
  let st := st <| st_hc := hc |> in
  let failed := let '(up, st) := after_failed_wait st pacing_deadline in Some (up, st, input) in
  if negb (rc =? 0) then failed else
  match t.(tn_wait) with
  | WaitFailed => failed
  | WaitAsync done =>
      let '(rc, hc) := h2_async_drain hc done in
      Some (rc =? 0, st <| st_hc := hc |>, input)
  | WaitReadable =>
      match read_and_dispatch hc input with
      | None => None
      | Some (up, hc, input) => Some (up, st <| st_hc := hc |>, input)
      end
  end.

(** The connection was handed to the park set and is resumed. *)
Definition resume_parked (expired : bool) (st : h2_session) : bool * h2_session :=
  if expired then announce st None else (true, st).

Definition serve_turn (t : turn) (st : h2_session) (input : bytes) : option (bool * h2_session * bytes) :=
  let '(up, st) := if negb st.(st_sent_goaway) && negb t.(tn_running) then announce st None else (true, st) in
  if negb up then Some (false, st, input) else
  let '(over, hc) :=
    if st.(st_sent_goaway) && negb (st.(st_goaway_close_at) =? 0) then
      let '(now, hc) := on_io h2_now_ms st.(st_hc) in (st.(st_goaway_close_at) <=? now, hc)
    else (false, st.(st_hc)) in
  if (over : bool) then Some (false, st <| st_hc := hc |>, input) else
  let '(rc, hc) := h2_resume_responses (hc <| hc_pacing_waiting := false |>) in
  let st := st <| st_hc := hc |> in
  if negb (rc =? 0) then Some (false, st, input) else
  if negb st.(st_sent_goaway) && h2_can_park hc then
    let '(rc, hc) := on_io h2_out_flush hc in
    let st := st <| st_hc := hc |> in
    if negb (rc =? 0) then Some (false, st, input) else
    let '(now, hc) := on_io h2_now_ms hc in
    let st := st <| st_hc := hc |> in
    let idle_for := u64 (now - hc.(hc_last_activity)) in
    match t.(tn_park) with
    | Some expired =>
        if idle_for <? env_idle_ms
        then let '(up, st) := resume_parked expired st in Some (up, st, input)
        else wait_and_read t st input
    | None => wait_and_read t st input
    end
  else wait_and_read t st input.

Fixpoint serve_loop (turns : list turn) (st : h2_session) (input : bytes)
    : option (bool * h2_session * bytes) :=
  match turns with
  | [] => Some (true, st, input)
  | t :: turns =>
      match serve_turn t st input with
      | None => None
      | Some (true, st, input) => serve_loop turns st input
      | Some (false, st, input) => Some (false, st <| st_hc := (on_io h2_out_flush st.(st_hc)).2 |>, input)
      end
  end.

Definition cwist_http2_serve_connection (io : h2_io) (input : bytes) (turns : list turn)
    : option (bool * h2_session * bytes) :=
  match start_connection io input with
  | None => Some (false, MkSession (h2_conn_init io) false 0, input)
  | Some (st, input) => serve_loop turns st input
  end.

End conn.
