(* ===== verification/H2Quiet.v ===== *)
(** * The HTTP/2 connection: what writing leaves alone

    Writing frames, sending responses and returning credit leave the requests,
    the table of streams, the header tables and the assembly of header blocks
    alone, and keep every window, budget and clock reading in range: the
    relation [quiet], proved once per such operation of H2State and H2Send. *)

From S2P Require Import Prelude QueryMap SimdParser Http1 HttpResponse H2Wire H2Out H2FlowControl H2Budget.
From S2P Require Import HpackPrim Hpack HpackEncode H2State H2Send H2Recv H2Serve.

(** ** Input and output *)

Record io_calm (io io' : h2_io) : Prop := {
  ic_clock : Forall is_u64 io.(io_clock) -> Forall is_u64 io'.(io_clock);
  ic_alloc : io.(io_alloc) = [] -> io'.(io_alloc) = []
}.
#[export] Instance io_calm_preorder : PreOrder io_calm.
Proof. split; [by split|]. intros a b c [H1 H2] [H3 H4]. split; auto. Qed.

Lemma alloc_nil o : o = [] -> (alloc o).2 = [].
Proof. by intros ->. Qed.

Lemma calm_alloc io a : (io.(io_alloc) = [] -> a = []) -> io_calm io (io <| io_alloc := a |>).
Proof. by split. Qed.

Lemma calm_flush io : io_calm io (h2_out_flush io).2.
Proof.
  pose proof (flush_spec io) as H. destruct (h2_out_flush io) as [rc io'].
  destruct H as (_ & _ & _ & _ & H1 & H2 & _). split; cbn; by rewrite ?H1, ?H2.
Qed.

Lemma calm_append threshold buf io : io_calm io (h2_out_append threshold buf io).2.
Proof.
  unfold h2_out_append, h2_out_append_raw. destruct (_ =? 0); [done|].
  set (r := if _ <? _ then _ else (true, io)).
  assert (Hr : io_calm io r.2).
  { unfold r. destruct (_ <? _); [|done]. destruct (alloc (io_alloc io)) as [[] a] eqn:Ea;
      (split; [done|]); intros H; rewrite H in Ea; cbn in Ea; by simplify_eq. }
  destruct r as [[] io1]; cbn [negb snd] in *; [|done].
  etrans; [exact Hr|]. set (io2 := io1 <| io_out_buf := _ |>).
  assert (H2 : io_calm io1 io2) by (by split).
  destruct (_ <=? _); [|done]. etrans; [exact H2|]. apply calm_flush.
Qed.

Lemma calm_write_frame threshold type flags id payload len io :
  io_calm io (h2_write_frame threshold type flags id payload len io).2.
Proof.
  unfold h2_write_frame. set (fr := h2_make_frame_header _ _ _ _ _).
  pose proof (calm_append threshold fr io) as H. destruct (h2_out_append threshold fr io) as [rc io1].
  destruct (negb _); [done|]. destruct payload as [p|]; [|done]. destruct (0 <? len); [|done].
  etrans; [exact H|]. apply calm_append.
Qed.

Lemma calm_write_frames threshold fs : forall io, io_calm io (write_frames threshold fs io).2.
Proof.
  induction fs as [|f fs IH]; intros io; cbn [write_frames]; [done|].
  pose proof (calm_write_frame threshold f.(f_type) f.(f_flags) f.(f_stream) (Some f.(f_payload))
    (blen f.(f_payload)) io) as H.
  destruct (h2_write_frame _ _ _ _ _ _ io) as [rc io1]. destruct (negb _); [done|].
  etrans; [exact H|]. apply IH.
Qed.

Lemma now_ns_spec io :
  Forall is_u64 io.(io_clock) -> is_u64 (h2_now_ns io).1 /\ io_calm io (h2_now_ns io).2.
Proof.
  intros H. unfold h2_now_ns. destruct (io_clock io) as [|t [|t' l]] eqn:E; cbn [fst snd].
  - split; [by unfold is_u64|done].
  - apply Forall_cons_1 in H as [H _]. by split.
  - apply Forall_cons_1 in H as [H H']. split; [done|]. split; [done|done].
Qed.

Lemma now_ms_spec io :
  Forall is_u64 io.(io_clock) -> is_u64 (h2_now_ms io).1 /\ io_calm io (h2_now_ms io).2.
Proof.
  intros H. apply now_ns_spec in H as [H1 H2]. unfold h2_now_ms.
  destruct (h2_now_ns io) as [t io']. cbn [fst snd] in *. split; [mlia|done].
Qed.

Lemma now_us_spec io :
  Forall is_u64 io.(io_clock) -> is_u64 (h2_now_us io).1 /\ io_calm io (h2_now_us io).2.
Proof.
  intros H. apply now_ns_spec in H as [H1 H2]. unfold h2_now_us.
  destruct (h2_now_ns io) as [t io']. cbn [fst snd] in *. split; [mlia|done].
Qed.

(** ** The stream table *)

Lemma find_spec hc id s :
  h2_stream_find hc id = Some s -> s ∈ hc.(hc_streams) /\ hs_id s = id.
Proof.
  unfold h2_stream_find. destruct (list_find _ _) as [[i x]|] eqn:Ef; [|done].
  intros [= <-]. apply list_find_Some in Ef as (H1 & H2 & _). split; [|done].
  by apply list_elem_of_lookup_2 in H1.
Qed.

Lemma find_none hc id :
  h2_stream_find hc id = None <-> id ∉ map hs_id hc.(hc_streams).
Proof.
  unfold h2_stream_find. destruct (list_find _ _) as [[i x]|] eqn:Ef; cbn.
  - split; [done|]. apply list_find_Some in Ef as (H1 & H2 & _). intros Hn. exfalso. apply Hn.
    rewrite <- H2. apply list_elem_of_fmap_2. by apply list_elem_of_lookup_2 in H1.
  - split; [|done]. intros _ Hin. apply list_elem_of_fmap in Hin as (y & -> & Hy).
    apply list_find_None in Ef. rewrite list.Forall_forall in Ef. by apply (Ef y).
Qed.

Lemma put_ids s l : map hs_id (put_stream s l) = map hs_id l.
Proof.
  induction l as [|x l IH]; cbn [put_stream map]; [done|].
  destruct (Z.eqb_spec (hs_id x) (hs_id s)); cbn [map]; [by f_equal|by f_equal].
Qed.

Lemma put_length s l : length (put_stream s l) = length l.
Proof. rewrite <- (length_map hs_id), put_ids. apply length_map. Qed.

Lemma put_Forall (P : h2_stream -> Prop) s l : Forall P l -> P s -> Forall P (put_stream s l).
Proof.
  intros Hl Hs. induction Hl as [|x l Hx Hl IH]; cbn [put_stream]; [constructor|].
  destruct (_ =? _); by constructor.
Qed.

(** The stream a lookup finds is the one that is written back. *)
Lemma put_Forall2 (R : h2_stream -> h2_stream -> Prop) hc s s' :
  (forall x, R x x) -> h2_stream_find hc (hs_id s') = Some s -> R s s' ->
  Forall2 R hc.(hc_streams) (put_stream s' hc.(hc_streams)).
Proof.
  intros Hr Hf Hs. unfold h2_stream_find in Hf. induction (hc_streams hc) as [|x l IH]; [constructor|].
  cbn [put_stream list_find] in *. destruct (Z.eqb_spec (hs_id x) (hs_id s')) as [E|E].
  - rewrite decide_True in Hf by done. cbn in Hf. injection Hf as ->. constructor; [done|].
    apply Forall2_same_length_lookup. split; [done|]. intros. simplify_eq. done.
  - rewrite decide_False in Hf by done. constructor; [done|]. apply IH.
    destruct (list_find _ l) as [[i y]|]; [|done]. done.
Qed.

Lemma drop_sublist id l : drop_stream id l `sublist_of` l.
Proof.
  induction l as [|x l IH]; cbn [drop_stream]; [done|].
  destruct (_ =? _); [by apply sublist_cons|by apply sublist_skip].
Qed.

Lemma drop_length id l : id ∈ map hs_id l -> S (length (drop_stream id l)) = length l.
Proof.
  induction l as [|x l IH]; cbn [map drop_stream]; intros H; [by apply elem_of_nil in H|].
  destruct (Z.eqb_spec (hs_id x) id); [done|]. cbn [length]. f_equal. apply IH.
  by apply elem_of_cons in H as [H|H]; [congruence|].
Qed.

Lemma drop_Forall (P : h2_stream -> Prop) id l : Forall P l -> Forall P (drop_stream id l).
Proof.
  intros H. induction H as [|x l Hx Hl IH]; cbn [drop_stream]; [constructor|].
  destruct (_ =? _); [done|by constructor].
Qed.

(** ** Quiet operations *)

Section conn.
Context {E : H2Env}.

(** The surroundings as the theorems take them: [pread] returns no more than it
    is asked for, and the handler leaves the body of the request and (a
    well-formed) query map as they are.  [clean] will mean that every allocation
    succeeds, [nodefer] that the handler never defers. *)
Record env_ok (clean nodefer : bool) : Prop := {
  eo_batch : 0 < env_batch;
  eo_limits : limits_ok env_rst_burst env_rst_rate;
  eo_pread : forall res n off d, env_pread res n off = Some d -> blen d <= n;
  eo_body : forall req res, (env_handler req res).1.1.(req_body) = req.(req_body);
  eo_params : clean = true -> forall req res, params_ok req -> params_ok (env_handler req res).1.1;
  eo_defer : nodefer = true -> forall req res, (env_handler req res).2 = false
}.

Record budgets_ok (b : h2_budgets) : Prop := {
  bo_rst : credit_ok env_rst_burst b.(hb_rst);
  bo_out_rst : credit_ok env_rst_burst b.(hb_out_rst);
  bo_ping : credit_ok CWIST_HTTP2_DEFAULT_PING_BURST b.(hb_ping)
}.

(** What the quiet operations need, and keep. *)
Record stream_fine (s : h2_stream) : Prop := {
  sn_fc : stream_ok s.(hs_fc);
  sn_sent : 0 <= s.(hs_response_sent)
}.
Record calm (hc : h2_conn) : Prop := {
  ca_fc : conn_ok hc.(hc_fc);
  ca_clock : Forall is_u64 hc.(hc_io).(io_clock);
  ca_streams : Forall stream_fine hc.(hc_streams);
  ca_budgets : budgets_ok hc.(hc_budgets);
  ca_frame : 0 <= hc.(hc_peer_max_frame_size) < 4294967296
}.

(** Two states of a stream with the same request; the send window may have been
    spent, down to zero. *)
Record stream_same (a b : h2_stream) : Prop := {
  ss_id : hs_id b = hs_id a;
  ss_req : hs_req b = hs_req a;
  ss_length : hs_has_content_length b = hs_has_content_length a;
  ss_received : hs_received_content b = hs_received_content a;
  ss_fc_id : (hs_fc b).(sf_stream_id) = (hs_fc a).(sf_stream_id);
  ss_window : Z.min 0 (hs_fc a).(sf_send_window) <= (hs_fc b).(sf_send_window)
}.
#[export] Instance stream_same_refl : Reflexive stream_same.
Proof. intros s. constructor; done || lia. Qed.
#[export] Instance stream_same_trans : Transitive stream_same.
Proof. intros a b c [] []. constructor; congruence || lia. Qed.

Record quiet (hc hc' : h2_conn) : Prop := {
  qt_streams : Forall2 stream_same hc.(hc_streams) hc'.(hc_streams);
  qt_active : hc'.(hc_active_streams) = hc.(hc_active_streams);
  qt_frame : hc'.(hc_peer_max_frame_size) = hc.(hc_peer_max_frame_size);
  qt_initial : hc'.(hc_peer_initial_window_size) = hc.(hc_peer_initial_window_size);
  qt_cont : hc'.(hc_cont) = hc.(hc_cont);
  qt_last : hc'.(hc_last_processed_stream_id) = hc.(hc_last_processed_stream_id);
  qt_table : hc'.(hc_table) = hc.(hc_table);
  qt_calls : hc'.(hc_calls) = hc.(hc_calls);
  qt_alloc : hc.(hc_io).(io_alloc) = [] -> hc'.(hc_io).(io_alloc) = [];
  qt_calm : calm hc'
}.

Lemma quiet_refl hc : calm hc -> quiet hc hc.
Proof.
  intros H. by constructor.
Qed.

Lemma quiet_trans a b c : quiet a b -> quiet b c -> quiet a c.
Proof.
  intros [] []. constructor; try congruence; try done; [|auto].
  by etrans.
Qed.

(** The streams themselves untouched. *)
Lemma quiet_of hc hc' :
  hc_streams hc' = hc_streams hc -> hc'.(hc_active_streams) = hc.(hc_active_streams) ->
  hc'.(hc_peer_max_frame_size) = hc.(hc_peer_max_frame_size) ->
  hc'.(hc_peer_initial_window_size) = hc.(hc_peer_initial_window_size) ->
  hc'.(hc_cont) = hc.(hc_cont) -> hc'.(hc_last_processed_stream_id) = hc.(hc_last_processed_stream_id) ->
  hc'.(hc_table) = hc.(hc_table) -> hc'.(hc_calls) = hc.(hc_calls) ->
  conn_ok hc'.(hc_fc) -> budgets_ok hc'.(hc_budgets) -> io_calm hc.(hc_io) hc'.(hc_io) ->
  calm hc -> quiet hc hc'.
Proof.
  intros Hs ? ? ? ? ? ? ? ? ? [H1 H2] []. constructor; try done.
  - by rewrite Hs.
  - constructor; try done; [auto|by rewrite Hs|congruence].
Qed.

Lemma quiet_io {A} (f : h2_io -> A * h2_io) hc :
  calm hc -> (io_calm hc.(hc_io) (f hc.(hc_io)).2) ->
  quiet hc (on_io f hc).2 /\ hc_streams (on_io f hc).2 = hc_streams hc.
Proof.
  intros Hc Hf. unfold on_io. destruct (f (hc_io hc)) as [a io]. split; [|done].
  apply quiet_of; try done; apply Hc.
Qed.

Lemma quiet_fc hc fc :
  calm hc -> conn_ok fc ->
  quiet hc (hc <| hc_fc := fc |>) /\ hc_streams (hc <| hc_fc := fc |>) = hc_streams hc.
Proof. intros Hc Hf. split; [|done]. apply quiet_of; try done; apply Hc. Qed.

Lemma quiet_budgets hc b :
  calm hc -> budgets_ok b -> quiet hc (hc <| hc_budgets := b |>).
Proof. intros Hc Hb. apply quiet_of; try done; apply Hc. Qed.

(** Writing a stream back that differs in nothing that matters. *)
Lemma quiet_put hc s s' :
  calm hc -> h2_stream_find hc (hs_id s') = Some s -> stream_same s s' -> stream_fine s' ->
  quiet hc (set_stream hc s').
Proof.
  intros [] Hf Hs Hok. constructor; try done.
  - by apply (put_Forall2 stream_same hc s s').
  - constructor; try done. by apply put_Forall.
Qed.

Lemma quiet_find hc hc' id s :
  quiet hc hc' -> h2_stream_find hc id = Some s ->
  exists s', h2_stream_find hc' id = Some s' /\ stream_same s s'.
Proof.
  intros [Hq _ _ _ _ _ _ _ _ _]. unfold h2_stream_find. revert Hq.
  generalize (hc_streams hc) (hc_streams hc'). intros l l' Hl.
  induction Hl as [|a b l l' [Hi] Hl IH]; cbn [list_find]; [done|].
  destruct (decide (hs_id a = id)) as [E1|E1].
  - rewrite decide_True by congruence. cbn. intros [= <-]. eexists. split; [done|]. by constructor.
  - rewrite decide_False by congruence. cbn. intros Hf.
    destruct (list_find (fun s => hs_id s = id) l) as [[i x]|]; [|done]. cbn in *. simplify_eq.
    destruct (IH eq_refl) as (s' & H1 & H2). exists s'. split; [|done].
    destruct (list_find (fun s => hs_id s = id) l') as [[i' x']|]; [|done]. cbn in *. by simplify_eq.
Qed.

(** ** Writers and credit *)

Ltac sub_io := first [apply calm_write_frame | apply calm_write_frames | apply calm_flush | apply calm_append].

Lemma quiet_goaway hc last err : calm hc -> quiet hc (conn_goaway last err hc).2.
Proof. intros Hc. apply quiet_io; [done|]. apply calm_write_frame. Qed.

Lemma quiet_now hc :
  calm hc -> is_u64 (on_io h2_now_us hc).1 /\ quiet hc (on_io h2_now_us hc).2 /\
    hc_streams (on_io h2_now_us hc).2 = hc_streams hc /\ hc_fc (on_io h2_now_us hc).2 = hc_fc hc.
Proof.
  intros Hc. destruct (now_us_spec (hc_io hc) (ca_clock _ Hc)) as [H1 H2].
  pose proof (quiet_io h2_now_us hc Hc H2) as Hq. unfold on_io in *.
  destruct (h2_now_us (hc_io hc)) as [t io]. by destruct Hq.
Qed.

Lemma quiet_now_ms hc :
  calm hc -> is_u64 (on_io h2_now_ms hc).1 /\ quiet hc (on_io h2_now_ms hc).2 /\
    hc_streams (on_io h2_now_ms hc).2 = hc_streams hc /\ hc_budgets (on_io h2_now_ms hc).2 = hc_budgets hc.
Proof.
  intros Hc. destruct (now_ms_spec (hc_io hc) (ca_clock _ Hc)) as [H1 H2].
  pose proof (quiet_io h2_now_ms hc Hc H2) as Hq. unfold on_io in *.
  destruct (h2_now_ms (hc_io hc)) as [t io]. by destruct Hq.
Qed.

Lemma quiet_rst hc id err :
  limits_ok env_rst_burst env_rst_rate -> calm hc -> quiet hc (h2_send_rst_stream hc id err).2.
Proof.
  intros Hl Hc. unfold h2_send_rst_stream.
  destruct (quiet_now_ms hc Hc) as (Hn & Hq & _ & Hb).
  destruct (on_io h2_now_ms hc) as [now hc1]. cbn [fst snd] in *.
  pose proof (qt_calm _ _ Hq) as Hc1. destruct (ca_budgets _ Hc1) as [B1 B2 B3].
  unfold h2_conn_consume_out_rst_budget.
  pose proof (consume_spec env_rst_burst env_rst_rate now _ Hl B2 Hn) as Hs.
  destruct (consume _ _ _ _) as [ok c]. destruct Hs as [Hs _].
  assert (Hq2 : quiet hc1 (hc1 <| hc_budgets := (hc_budgets hc1) <| hb_out_rst := c |> |>))
    by (apply quiet_budgets; [done|]; by constructor).
  eapply quiet_trans; [exact Hq|]. eapply quiet_trans; [exact Hq2|].
  apply qt_calm in Hq2. destruct ok; cbn [negb].
  - apply quiet_io; [done|]. apply calm_write_frame.
  - set (last := hc_last_processed_stream_id _).
    pose proof (quiet_goaway _ last H2_ERR_ENHANCE_YOUR_CALM Hq2) as H.
    by destruct (conn_goaway _ _ _) as [r hc2].
Qed.

Lemma quiet_ping hc : calm hc -> quiet hc (h2_send_ping hc).2.
Proof.
  intros Hc. unfold h2_send_ping. destruct (quiet_now hc Hc) as (Hn & Hq & _ & _).
  destruct (on_io h2_now_us hc) as [now hc1]. cbn [fst snd] in *. pose proof (qt_calm _ _ Hq) as Hc1.
  set (f := h2_write_frame _ _ _ _ _ _).
  destruct (quiet_io f hc1 Hc1 ltac:(apply calm_write_frame)) as [Hq2 _].
  destruct (on_io f hc1) as [rc hc2]. cbn [snd] in Hq2.
  eapply quiet_trans; [exact Hq|]. destruct (negb _); [done|].
  eapply quiet_trans; [exact Hq2|]. apply qt_calm in Hq2. apply quiet_of; try done; apply Hq2.
Qed.

(** Returning receive credit. *)
Lemma stream_update_same c fc buf now r fc' buf' w' :
  stream_maybe_window_update (Some c) (Some fc) buf 13 (Some 0) now false = (r, fc', buf', w') ->
  exists fc1, fc' = Some fc1 /\ sf_stream_id fc1 = sf_stream_id fc /\ sf_send_window fc1 = sf_send_window fc.
Proof.
  unfold stream_maybe_window_update.
  destruct (_ || _); [intros [= <- <- <- <-]; by eexists|].
  destruct (negb _); [intros [= <- <- <- <-]; by eexists|].
  destruct fc as [i1 i2 i3 i4 i5 i6 i7 i8].
  destruct (retune_due c now); destruct (write_window_update _ _ _ _ _) as [[rc b] w];
    destruct (negb _); intros [= <- <- <- <-]; by eexists.
Qed.

Lemma quiet_update hc sid : calm hc -> quiet hc (h2_auto_window_update hc sid).2.
Proof.
  intros Hc. unfold h2_auto_window_update. destruct (quiet_now hc Hc) as (Hn & Hq & _ & _).
  destruct (on_io h2_now_us hc) as [now hc1]. cbn [fst snd] in *. pose proof (qt_calm _ _ Hq) as Hc1.
  destruct (maybe_window_update _ _ _ _ _ _) as [[[r fc] buf] w] eqn:Em.
  set (hc2 := hc1 <| hc_fc := _ |>).
  assert (Hq2 : quiet hc1 hc2).
  { apply quiet_fc; [done|]. destruct fc as [fc|]; [|apply Hc1].
    eapply maybe_window_update_ok; [apply Hc1|exact Hn|exact Em]. }
  eapply quiet_trans; [exact Hq|]. apply quiet_trans with hc2; [exact Hq2|].
  apply qt_calm in Hq2. clear - Hq2 Hn. destruct (r <? 0); [by apply quiet_refl|].
  assert (Ha : forall r buf w hc, calm hc -> quiet hc (append_update r buf w hc).2).
  { intros r' b' w' h Hh. unfold append_update. destruct (0 <? r'); [|by apply quiet_refl].
    apply quiet_io; [done|]. apply calm_append. }
  pose proof (Ha r buf w hc2 Hq2) as H1. destruct (append_update r buf w hc2) as [rc hc3]. cbn [snd] in H1.
  destruct (negb _); [done|]. eapply quiet_trans; [exact H1|]. apply qt_calm in H1.
  destruct sid as [id|]; cbn [mbind option_bind]; [|by apply quiet_refl].
  destruct (h2_stream_find hc3 id) as [s|] eqn:Ef; [|by apply quiet_refl].
  destruct (stream_maybe_window_update _ _ _ _ _ _ _) as [[[r2 fc2] buf2] w2] eqn:Es.
  destruct (stream_update_same _ _ _ _ _ _ _ _ Es) as (fc1 & -> & E1 & E2).
  set (hc4 := set_stream hc3 _).
  assert (Hq4 : quiet hc3 hc4).
  { destruct (find_spec _ _ _ Ef) as [Hin Hid]. pose proof (ca_streams _ H1) as Hall.
    rewrite list.Forall_forall in Hall. specialize (Hall s Hin). cbn beta in Hall.
    apply (quiet_put hc3 s); [done|by rewrite <- Hid in Ef| |].
    - constructor; try done. cbn. rewrite E2. lia.
    - constructor; [|apply Hall].
      eapply stream_maybe_window_update_ok; [apply H1|apply Hall|exact Hn|exact Es]. }
  eapply quiet_trans; [exact Hq4|]. apply qt_calm in Hq4. destruct (r2 <? 0); [by apply quiet_refl|].
  pose proof (Ha r2 buf2 w2 hc4 Hq4) as H5. by destruct (append_update r2 buf2 w2 hc4) as [rc2 hc5]; destruct (negb _).
Qed.

(** ** Sending responses

    [spent]: connection and stream after part of a response has gone out. *)

Lemma refill_rtt fc now : rtt_initialized (pacing_refill fc now) = rtt_initialized fc.
Proof.
  unfold pacing_refill. destruct (Z.eqb_spec (pacing_last_us fc) 0); [done|].
  by destruct (Z.ltb_spec (pacing_last_us fc) now).
Qed.

Record spent (hc : h2_conn) (s : h2_stream) (hc' : h2_conn) (s' : h2_stream) : Prop := {
  sp_quiet : quiet hc hc';
  sp_streams : hc_streams hc' = hc_streams hc;
  sp_same : stream_same s s';
  sp_ok : stream_fine s'
}.

Lemma spent_refl hc s : calm hc -> stream_fine s -> spent hc s hc s.
Proof. intros. constructor; try done. all: by apply quiet_refl. Qed.

Lemma spent_trans a s b s1 c s2 : spent a s b s1 -> spent b s1 c s2 -> spent a s c s2.
Proof. intros [] []. constructor; [by eapply quiet_trans|congruence|by etrans|done]. Qed.

Lemma spent_io {A} (f : h2_io -> A * h2_io) hc s :
  calm hc -> stream_fine s -> io_calm hc.(hc_io) (f hc.(hc_io)).2 ->
  spent hc s (on_io f hc).2 s.
Proof. intros H1 H2 H3. destruct (quiet_io f hc H1 H3). by constructor. Qed.

Lemma spent_send_allowance hc s n :
  calm hc -> stream_fine s -> is_u32 n ->
  let '(a, hc', s') := h2_send_allowance hc s n in
  spent hc s hc' s' /\ s' = s /\ hc_peer_max_frame_size hc' = hc_peer_max_frame_size hc /\
  0 <= a <= n /\ (0 < a -> a <= (hs_fc s).(sf_send_window) /\ a <= hc'.(hc_fc).(send_window)) /\
  hc'.(hc_fc).(send_window) = hc.(hc_fc).(send_window) /\
  hc'.(hc_fc).(rtt_initialized) = hc.(hc_fc).(rtt_initialized).
Proof.
  intros Hc Hs Hn. unfold h2_send_allowance.
  destruct (Z.leb_spec (sf_send_window (hs_fc s)) 0).
  { split; [by apply spent_refl|]. unfold is_u32 in Hn. split_and!; first [done | lia]. }
  set (a1 := if _ <? n then _ else n). set (a2 := if _ <? a1 then _ else a1).
  assert (Ha : 0 <= a2 <= n /\ a2 <= (hs_fc s).(sf_send_window) /\ a2 <= hc.(hc_fc).(send_window)).
  { pose proof (ok_send _ (ca_fc _ Hc)). unfold is_u32 in Hn. unfold a2, a1. cases_ltb; lia. }
  clearbody a2. clear a1. destruct (rtt_initialized (hc_fc hc)) eqn:Er; cbn [andb].
  2: { split; [by apply spent_refl|]. split_and!; first [done | lia]. }
  destruct (Z.ltb_spec 0 a2); [|split; [by apply spent_refl|]; split_and!; first [done | lia]].
  destruct (quiet_now hc Hc) as (Hnow & Hq & Hst & Hfc).
  destruct (on_io h2_now_us hc) as [now hc1]. cbn [fst snd] in *. pose proof (qt_calm _ _ Hq) as Hc1.
  rewrite Hfc, allowance_min. rewrite (proj2 (Z.leb_gt _ _)) by lia. cbn [default].
  pose proof (refill_ok (hc_fc hc) now (ca_fc _ Hc) Hnow) as Hr.
  destruct (refill_windows (hc_fc hc) now) as [Hw _].
  set (fc := pacing_refill (hc_fc hc) now) in *. set (paced := Z.min a2 _).
  assert (Hp : 0 <= paced <= a2)
    by (unfold paced, send_credit; pose proof (ok_tokens _ Hr); pose proof (ok_send _ Hr); lia).
  assert (Hp2 : (if paced <? a2 then paced else a2) = paced)
    by (destruct (Z.ltb_spec paced a2); lia).
  rewrite Hp2. destruct (quiet_fc hc1 fc Hc1 Hr) as [Hq2 Hst2].
  split; [constructor; [by eapply quiet_trans|exact Hst|done|done]|].
  pose proof (refill_rtt (hc_fc hc) now : rtt_initialized fc = _) as Hri.
  split; [done|]. split; [by rewrite <- (qt_frame _ _ Hq)|].
  change (hc_fc (hc1 <| hc_fc := id fc |>)) with fc. rewrite Hw, Hri.
  split; [lia|]. split; [lia|]. split; done.
Qed.

Lemma spent_commit hc s n :
  calm hc -> stream_fine s -> 0 <= n -> n <= (hs_fc s).(sf_send_window) ->
  n <= hc.(hc_fc).(send_window) ->
  let '(hc', s') := h2_commit_send hc s n in
  spent hc s hc' s' /\ hs_response_sent s' = hs_response_sent s /\ hs_send_xor s' = hs_send_xor s /\
  hc'.(hc_fc).(rtt_initialized) = hc.(hc_fc).(rtt_initialized) /\
  (hc.(hc_fc).(rtt_initialized) = false ->
     hc'.(hc_fc).(send_window) = hc.(hc_fc).(send_window) - n /\
     (hs_fc s').(sf_send_window) = (hs_fc s).(sf_send_window) - n /\ hc_io hc' = hc_io hc).
Proof.
  intros Hc Hs Hn Hsw Hcw. unfold h2_commit_send.
  pose proof (ok_send _ (ca_fc _ Hc)) as Hw. pose proof (sok_send _ (sn_fc _ Hs)) as Hsok.
  unfold CWIST_HTTP2_MAX_WINDOW in *. destruct (rtt_initialized (hc_fc hc)) eqn:Er.
  - destruct (quiet_now hc Hc) as (Hnow & Hq & Hst & Hfc).
    destruct (on_io h2_now_us hc) as [now hc1]. cbn [fst snd] in *. pose proof (qt_calm _ _ Hq) as Hc1.
    rewrite Hfc. assert (Hu : is_u32 n) by mlia.
    pose proof (reserve_cases (hc_fc hc) (hs_fc s) n now (ca_fc _ Hc) (sn_fc _ Hs) Hu Hnow) as Heq. cbv zeta in Heq.
    assert (Hres : exists c f b, reserve_send (Some (hc_fc hc)) (Some (hs_fc s)) n now = Some (Some c, Some f, b) /\
      conn_ok c /\ stream_ok f /\ sf_stream_id f = sf_stream_id (hs_fc s) /\
      rtt_initialized c = true /\ Z.min 0 (sf_send_window (hs_fc s)) <= sf_send_window f).
    { rewrite Heq. destruct (Z.leb_spec (sf_send_window (hs_fc s)) 0).
      - do 3 eexists. split; [done|]. split; [apply Hc|]. split; [apply Hs|]. split; [done|]. split; [done|lia].
      - pose proof (reserve_ok (hc_fc hc) (hs_fc s) n now) as Hok. rewrite Heq in Hok.
        destruct (Z.leb_spec (sf_send_window (hs_fc s)) 0); [lia|].
        destruct (decide _); do 3 eexists; (split; [done|]);
          (destruct (Hok _ _ _ (ca_fc _ Hc) (sn_fc _ Hs) Hu Hnow eq_refl) as [H1 H2]);
          (split; [done|]); (split; [done|]); (split; [done|]); (split; [change (rtt_initialized (pacing_refill (hc_fc hc) now) = true); by rewrite refill_rtt|]); [|lia].
        change (Z.min 0 (sf_send_window (hs_fc s)) <= sf_send_window (hs_fc s) - n). lia. }
    destruct Hres as (c & f & b & -> & Hc' & Hf' & Hid & Hr' & Hmin). cbn [default].
    destruct (quiet_fc hc1 c Hc1 Hc') as [Hq2 Hst2].
    split; [|split; [done|]; split; [done|]; split; [done|done]].
    constructor; [by eapply quiet_trans|exact Hst|by constructor|constructor; [done|apply Hs]].
  - assert (Hu : u32 (send_window (hc_fc hc) - n) = send_window (hc_fc hc) - n) by (apply u32_id; mlia).
    assert (Hs32 : s32 (sf_send_window (hs_fc s) - n) = sf_send_window (hs_fc s) - n).
    { unfold s32. rewrite u32_id by mlia. by rewrite (proj2 (Z.ltb_lt _ _)) by lia. }
    rewrite Hu, Hs32.
    assert (Hc' : conn_ok ((hc_fc hc) <| send_window := send_window (hc_fc hc) - n |>)).
    { destruct (ca_fc _ Hc). destruct (hc_fc hc). constructor; cbn in *; unfold CWIST_HTTP2_MAX_WINDOW in *; done || lia. }
    destruct (quiet_fc hc _ Hc Hc') as [Hq2 Hst2].
    split; [constructor; [done|done| |]|].
    + constructor; try done. cbn. lia.
    + constructor; [|apply Hs]. destruct Hs as [Hs _], Hs. destruct (hs_fc s). constructor; cbn in *; unfold CWIST_HTTP2_MAX_WINDOW in *; done || lia.
    + split_and!; try done. all: intros; done.
Qed.

Lemma io_on_alloc {A} (f : oracle -> A * oracle) io :
  (f []).2 = [] -> io_calm io (let '(a, al) := f io.(io_alloc) in (a, io <| io_alloc := al |>)).2.
Proof.
  intros Hf. destruct (f (io_alloc io)) as [a al] eqn:Ef. split; [done|].
  intros H. rewrite H in Ef. rewrite Ef in Hf. done.
Qed.

Lemma quiet_on_alloc {A} (f : oracle -> A * oracle) hc :
  calm hc -> (f []).2 = [] ->
  quiet hc (on_alloc f hc).2 /\ hc_streams (on_alloc f hc).2 = hc_streams hc.
Proof. intros Hc Hf. apply quiet_io; [done|]. by apply io_on_alloc. Qed.

Lemma flush_return_spec rc pacing hc s :
  calm hc -> stream_fine s ->
  let '(o, hc') := flush_return rc pacing hc in
  spent hc s hc' s /\ (o = SentReturn (-1) \/ o = SentReturn rc).
Proof.
  intros Hc Hs. unfold flush_return.
  pose proof (spent_io h2_out_flush hc s Hc Hs (calm_flush _)) as Hq.
  destruct (on_io h2_out_flush hc) as [r hc1]. cbn [snd] in Hq.
  destruct (negb _); [by split; [|left]|]. split; [|by right]. destruct pacing; [|done].
  eapply spent_trans; [exact Hq|]. destruct (qt_calm _ _ (sp_quiet _ _ _ _ Hq)).
  by constructor; [apply quiet_of| | |].
Qed.

(** Everything a turn does to the state. *)
Record turn_done (hc : h2_conn) (s : h2_stream) (len : Z) (hc' : h2_conn) (s' : h2_stream) : Prop := {
  td_spent : spent hc s hc' s';
  td_sent : hs_response_sent s <= hs_response_sent s' <= len;
  td_headers : hs_response_headers_sent s' = hs_response_headers_sent s;
  td_response : hs_response s' = hs_response s
}.

Lemma body_piece_spec (clean nodefer : bool) b res n off hc s :
  env_ok clean nodefer -> calm hc -> stream_fine s -> 0 < n -> 0 <= off -> off < source_len b ->
  let '(p, hc') := body_piece b res n off hc in
  spent hc s hc' s /\ hc_fc hc' = hc_fc hc /\
  forall data, p = Some data ->
    0 < blen data <= n /\
    match b with
    | BodyMemory d => data = sub d (Z.to_nat off) (Z.to_nat n) /\ (n <= blen d - off -> blen data = n)
    | BodyFile _ => True
    end.
Proof.
  intros He Hc Hs Hn Ho Hl. unfold body_piece. destruct b as [d|len]; cbn [source_len] in Hl.
  - split; [by apply spent_refl|]. split; [done|]. intros data [= <-].
    unfold sub, blen in *. rewrite length_take, length_drop. split; [lia|]. split; [done|lia].
  - destruct (quiet_on_alloc alloc hc Hc eq_refl) as [Hq Hst].
    assert (Hf : hc_fc (on_alloc alloc hc).2 = hc_fc hc).
    { unfold on_alloc, on_io. destruct (alloc _) as [a al]. done. }
    destruct (on_alloc alloc hc) as [ok hc1]. cbn [snd] in *.
    assert (Hsp : spent hc s hc1 s) by (by constructor).
    destruct ok; cbn [negb]; [|done]. destruct (env_pread res n off) as [data|] eqn:Ep; [|done].
    pose proof (eo_pread _ _ He _ _ _ _ Ep) as Hp.
    destruct (Z.eqb_spec (blen data) 0) as [H0|H0]; [done|].
    split; [done|]. split; [done|]. intros data' [= <-]. split; [|done]. unfold blen in *. lia.
Qed.

Lemma data_turn_spec clean nodefer grpc b res mf hc s :
  env_ok clean nodefer -> calm hc -> stream_fine s -> 0 < mf < 4294967296 ->
  0 <= hs_response_sent s < source_len b ->
  let '(o, hc', s') := data_turn grpc b res mf hc s in
  turn_done hc s (source_len b) hc' s' /\
  (o = None /\ hs_response_sent s < hs_response_sent s' \/ o = Some (SentReturn 1) \/ o = Some (SentReturn (-1))).
Proof.
  intros He Hc Hs Hm Hsent. unfold data_turn.
  destruct (_ || _) eqn:E0.
  { pose proof (flush_return_spec 1 false hc s Hc Hs) as H. destruct (flush_return 1 false hc) as [o hc1].
    destruct H as [H [-> | ->]]; (split; [by constructor; [done|lia| |]|]); auto. }
  clear E0. set (chunk := u32 _).
  assert (Hch : 0 < chunk <= mf /\ chunk <= source_len b - hs_response_sent s).
  { unfold chunk. destruct (Z.ltb_spec mf (source_len b - hs_response_sent s)); rewrite u32_id by mlia; lia. }
  pose proof (spent_send_allowance hc s chunk Hc Hs ltac:(mlia)) as Ha.
  destruct (h2_send_allowance hc s chunk) as [[a hc1] s1].
  destruct Ha as (Hq1 & -> & _ & Har & Hw & _ & _).
  pose proof (qt_calm _ _ (sp_quiet _ _ _ _ Hq1)) as Hc1.
  destruct (Z.eqb_spec a 0) as [->|Hane].
  { pose proof (flush_return_spec 1 true hc1 s Hc1 Hs) as H. destruct (flush_return 1 true hc1) as [o hc2].
    destruct H as [H Ho]. split; [constructor; [by eapply spent_trans|lia|done|done]|].
    destruct Ho as [-> | ->]; auto. }
  destruct Hw as [Hw1 Hw2]; [lia|].
  pose proof (body_piece_spec clean nodefer b res a (hs_response_sent s) hc1 s He Hc1 Hs
    ltac:(lia) ltac:(lia) ltac:(lia)) as Hp.
  destruct (body_piece b res a (hs_response_sent s) hc1) as [[data|] hc2].
  2: { destruct Hp as (Hp & _). split; [constructor; [by eapply spent_trans|lia|done|done]|]. auto. }
  destruct Hp as (Hp & Hfc & Hd). destruct (Hd data eq_refl) as [Hlen Hmem]. clear Hd.
  set (n := match b with BodyMemory _ => a | BodyFile _ => u32 (blen data) end).
  assert (Hn : 0 < n <= a) by (unfold n; destruct b; [lia|]; rewrite u32_id by mlia; lia).
  set (flags := if _ && _ then _ else _).
  pose proof (spent_trans _ _ _ _ _ _ Hq1 Hp) as Hq2.
  pose proof (qt_calm _ _ (sp_quiet _ _ _ _ Hq2)) as Hc2.
  set (wf := h2_write_frame _ _ _ _ _ _).
  pose proof (spent_io wf hc2 s Hc2 Hs ltac:(apply calm_write_frame)) as Hq3.
  assert (Hfc3 : hc_fc (on_io wf hc2).2 = hc_fc hc2) by (unfold on_io; by destruct (wf (hc_io hc2))).
  destruct (on_io wf hc2) as [rc hc3]. cbn [snd] in Hq3, Hfc3.
  pose proof (spent_trans _ _ _ _ _ _ Hq2 Hq3) as Hq4.
  destruct (negb (rc =? 0)).
  { split; [constructor; [done|lia|done|done]|]. auto. }
  pose proof (qt_calm _ _ (sp_quiet _ _ _ _ Hq4)) as Hc3.
  set (s2 := s <| hs_send_xor := _ |>).
  pose proof (spent_commit hc3 s2 n Hc3 ltac:(by destruct Hs) ltac:(lia)) as Hcm.
  change (hs_fc s2) with (hs_fc s) in Hcm. specialize (Hcm ltac:(lia) ltac:(rewrite Hfc3, Hfc; lia)).
  destruct (h2_commit_send hc3 s2 n) as [hc4 s3] eqn:Ecm. destruct Hcm as (Hq5 & Hs3 & _ & _ & _).
  set (s4 := s3 <| hs_response_sent := _ |>).
  assert (Hh : hs_response_headers_sent s3 = hs_response_headers_sent s /\ hs_response s3 = hs_response s).
  { revert Ecm. unfold h2_commit_send. destruct (rtt_initialized _); [|intros; simplify_eq; done].
    destruct (on_io h2_now_us hc3) as [now h]. destruct (reserve_send _ _ _ _) as [[[c f] bb]|];
      intros; simplify_eq; done. }
  assert (Hq6 : spent hc s hc4 s4).
  { assert (spent hc s hc3 s2) as H by (destruct Hq4 as [? ? [] []]; by constructor).
    pose proof (spent_trans _ _ _ _ _ _ H Hq5) as [H1 H2 [] []]. constructor; [done|done|by constructor|].
    constructor; [done|cbn; lia]. }
  assert (Htd : turn_done hc s (source_len b) hc4 s4).
  { constructor; [done|cbn; lia|by apply Hh|by apply Hh]. }
  destruct ((n <? chunk) && (0 <? send_window (hc_fc hc4)) && (0 <? sf_send_window (hs_fc s4))).
  - pose proof (flush_return_spec 1 true hc4 s4 (qt_calm _ _ (sp_quiet _ _ _ _ Hq6)) (sp_ok _ _ _ _ Hq6)) as H.
    destruct (flush_return 1 true hc4) as [o hc5]. destruct H as [H Ho].
    split; [destruct Htd; constructor; [by eapply spent_trans|done|done|done]|].
    destruct Ho as [-> | ->]; auto.
  - split; [done|]. left. split; [done|]. cbn. lia.
Qed.

Lemma data_loop_spec clean nodefer fuel : forall grpc b res mf hc s,
  env_ok clean nodefer -> calm hc -> stream_fine s -> 0 < mf < 4294967296 ->
  0 <= hs_response_sent s -> (Z.to_nat (source_len b - hs_response_sent s) <= fuel)%nat ->
  let '(o, hc', s') := data_loop fuel grpc b res mf hc s in
  spent hc s hc' s' /\ hs_response_sent s <= hs_response_sent s' /\
  (o = SentAll /\ source_len b <= hs_response_sent s' \/ o = SentReturn 1 \/ o = SentReturn (-1)).
Proof.
  induction fuel as [|fuel IH]; intros grpc b res mf hc s He Hc Hs Hm H0 Hf; cbn [data_loop];
    destruct (Z.ltb_spec (hs_response_sent s) (source_len b)) as [Hlt|Hge]; cbn [negb]; try lia;
    try (split; [by apply spent_refl|split; [lia|by left]]).
  pose proof (data_turn_spec clean nodefer grpc b res mf hc s He Hc Hs Hm ltac:(lia)) as Ht.
  destruct (data_turn grpc b res mf hc s) as [[o hc1] s1]. destruct Ht as [[Hsp Hse _ _] Ho].
  destruct Ho as [[-> Hp]|[-> | ->]]; [|split; [done|]; split; [lia|auto]..].
  specialize (IH grpc b res mf hc1 s1 He (qt_calm _ _ (sp_quiet _ _ _ _ Hsp)) (sp_ok _ _ _ _ Hsp) Hm
    ltac:(lia) ltac:(lia)).
  destruct (data_loop fuel grpc b res mf hc1 s1) as [[o hc2] s2]. destruct IH as (H1 & H2 & H3).
  split; [by eapply spent_trans|]. split; [lia|done].
Qed.

Lemma quiet_block hc id block mf flags :
  calm hc -> quiet hc (send_header_block hc id block mf flags).2 /\
    hc_streams (send_header_block hc id block mf flags).2 = hc_streams hc.
Proof.
  intros Hc. unfold send_header_block.
  destruct (h2_send_header_block block mf flags []) as [[[fs ok] o]|]; [|split; [by apply quiet_refl|done]].
  apply quiet_io; [done|]. apply calm_write_frames.
Qed.

Lemma response_block_nil fuel : forall res g cap, (response_block_loop fuel res g cap []).2 = [].
Proof.
  induction fuel as [|fuel IH]; intros res g cap; cbn [response_block_loop]; [done|].
  destruct (_ <? _); [done|]. cbn [alloc]. by destruct (h2_encode_response_headers res cap g).1.
Qed.

Lemma quiet_trailers hc id res mf :
  calm hc -> quiet hc (h2_send_grpc_trailers hc id res mf).2.
Proof.
  intros Hc. unfold h2_send_grpc_trailers. destruct (h2_encode_header_pairs _ _).1; [|by apply quiet_refl].
  by apply quiet_block.
Qed.

Lemma quiet_encode hc res g :
  calm hc -> quiet hc (on_alloc (h2_encode_response_block res g) hc).2 /\
    hc_streams (on_alloc (h2_encode_response_block res g) hc).2 = hc_streams hc.
Proof. intros Hc. apply quiet_on_alloc; [done|]. apply response_block_nil. Qed.

Lemma quiet_trailers_only hc id res mf :
  calm hc -> quiet hc (h2_send_grpc_trailers_only hc id res mf).2.
Proof.
  intros Hc. unfold h2_send_grpc_trailers_only. destruct (quiet_encode hc res true Hc) as [Hq _].
  destruct (on_alloc _ hc) as [[block|] hc1]; cbn [snd] in Hq; [|done].
  destruct (h2_encode_header_pairs _ _).1 as [tail|]; [|done].
  destruct (quiet_on_alloc alloc hc1 (qt_calm _ _ Hq) eq_refl) as [Hq2 _].
  destruct (on_alloc alloc hc1) as [ok hc2]. cbn [snd] in Hq2.
  pose proof (quiet_trans _ _ _ Hq Hq2) as Hq3. destruct (negb ok); [done|].
  eapply quiet_trans; [exact Hq3|]. apply quiet_block. apply Hq3.
Qed.

Lemma find_eq hc hc' id : hc_streams hc' = hc_streams hc -> h2_stream_find hc' id = h2_stream_find hc id.
Proof. intros H. unfold h2_stream_find. by rewrite H. Qed.

Lemma stream_calm hc id s :
  calm hc -> h2_stream_find hc id = Some s -> stream_fine s /\ hs_id s = id /\ s ∈ hc_streams hc.
Proof.
  intros Hc Hf. destruct (find_spec _ _ _ Hf) as [Hin Hid]. split_and!; try done.
  pose proof (ca_streams _ Hc) as H. rewrite list.Forall_forall in H. by apply H.
Qed.

Lemma find_put hc s s' :
  h2_stream_find hc (hs_id s') = Some s -> h2_stream_find (set_stream hc s') (hs_id s') = Some s'.
Proof.
  unfold h2_stream_find. change (hc_streams (set_stream hc s')) with (put_stream s' (hc_streams hc)).
  intros Hf. induction (hc_streams hc) as [|x l IH]; cbn [put_stream list_find] in *; [done|].
  destruct (Z.eqb_spec (hs_id x) (hs_id s')) as [Hx|Hx]; cbn [list_find].
  - by rewrite decide_True.
  - rewrite decide_False in * by done. destruct (list_find _ l) as [[i y]|]; [|done].
    cbn in *. specialize (IH Hf). by destruct (list_find _ (put_stream s' l)) as [[j z]|].
Qed.

(** The rest of a response once its headers are out. *)
Lemma quiet_rest clean nodefer hc s res grpc empty mf :
  env_ok clean nodefer -> calm hc -> h2_stream_find hc (hs_id s) = Some s -> 0 < mf < 4294967296 ->
  quiet hc (send_rest hc s res grpc empty mf).2.
Proof.
  intros He Hc Hf Hm. unfold send_rest. destruct (stream_calm hc _ s Hc Hf) as (Hok & _ & _).
  destruct empty; [destruct grpc; [by apply quiet_trailers|by apply quiet_refl]|].
  pose proof (data_loop_spec clean nodefer _ grpc (response_source grpc res) res mf hc s He Hc Hok Hm
    (sn_sent _ Hok) (Nat.le_refl _)) as Hl.
  destruct (data_loop _ _ _ _ _ _ _) as [[o hc1] s1]. destruct Hl as ([Hq Hst Hsame Hok1] & _ & _).
  cbv zeta. assert (Hq2 : quiet hc (set_stream hc1 s1)).
  { eapply quiet_trans; [exact Hq|]. apply (quiet_put hc1 s); [apply Hq| |done|done].
    by rewrite (find_eq _ _ _ Hst), (ss_id _ _ Hsame). }
  destruct o; [|done]. eapply quiet_trans; [exact Hq2|]. apply qt_calm in Hq2.
  destruct grpc; [by apply quiet_trailers|]. apply quiet_io; [done|]. apply calm_flush.
Qed.

Lemma quiet_response clean nodefer hc id res :
  env_ok clean nodefer -> calm hc -> quiet hc (h2_send_response_hc hc id res).2.
Proof.
  intros He Hc. unfold h2_send_response_hc.
  destruct (h2_stream_find hc id) as [s|] eqn:Ef; [|by apply quiet_refl].
  destruct (stream_calm hc id s Hc Ef) as (Hok & Hid & Hin).
  set (grpc := h2_response_is_grpc res). set (b := response_source grpc res).
  set (mf := if _ =? 0 then _ else _).
  assert (Hmf : 0 < mf < 4294967296).
  { unfold mf. destruct (Z.eqb_spec (hc_peer_max_frame_size hc) 0); [done|].
    pose proof (ca_frame _ Hc). lia. }
  set (empty := (source_len b =? 0) || no_content s res).
  destruct (hs_response_headers_sent s) eqn:Eh.
  { apply (quiet_rest clean nodefer); try done. by rewrite Hid. }
  destruct (grpc && _); [by apply quiet_trailers_only|].
  destruct (quiet_encode hc res grpc Hc) as [Hq Hst].
  destruct (on_alloc _ hc) as [[block|] hc1]; cbn [snd] in Hq, Hst; [|done].
  set (flags := if empty && negb grpc then _ else _).
  pose proof (quiet_block hc1 id block mf flags (qt_calm _ _ Hq)) as [Hq2 Hst2].
  destruct (send_header_block hc1 id block mf flags) as [rc hc2]. cbn [snd] in Hq2, Hst2.
  pose proof (quiet_trans _ _ _ Hq Hq2) as Hq3. destruct (negb (rc =? 0)); [done|].
  set (s1 := s <| hs_response_headers_sent := true |>).
  assert (Hf2 : h2_stream_find hc2 (hs_id s1) = Some s)
    by (rewrite (find_eq hc1), (find_eq hc) by done; change (hs_id s1) with (hs_id s); by rewrite Hid).
  assert (Hs1 : stream_fine s1) by (by destruct Hok).
  assert (Hq4 : quiet hc2 (set_stream hc2 s1)).
  { apply (quiet_put hc2 s); [apply Hq3|done|constructor; first [done | cbn; lia]|done]. }
  eapply quiet_trans; [exact Hq3|]. eapply quiet_trans; [exact Hq4|].
  apply (quiet_rest clean nodefer); [done|apply Hq4|by apply (find_put hc2 s)|done].
Qed.

End conn.
