(* ===== verification/H2Inv.v ===== *)
(** * The HTTP/2 connection: invariants

    [conn_wf]: what holds of a connection between two frames, and [call_ok]:
    what holds of a request when the handler gets it; that every handler of
    the dispatcher and every turn of the loop keep them. *)

From S2P Require Import Prelude QueryMap SimdParser Http1 HttpResponse H2Wire H2Out H2FlowControl H2Budget.
From S2P Require Import HpackPrim Hpack HpackEncode H2State H2Send H2Recv H2Serve H2Quiet.

Section conn.
Context {E : H2Env}.
Context (clean nodefer : bool) (Henv : env_ok clean nodefer).

(** ** The invariant

    [iw]: the peer's initial window; [top]: the highest stream accepted. *)

Definition body_of (r : http_request) : bytes := default [] r.(req_body).

Record stream_wf (iw top : Z) (s : h2_stream) : Prop := {
  sw_id : 0 < hs_id s <= top;
  sw_odd : hs_id s mod 2 = 1;
  sw_fc_id : (hs_fc s).(sf_stream_id) = hs_id s;
  sw_floor : iw - CWIST_HTTP2_MAX_WINDOW <= (hs_fc s).(sf_send_window);
  sw_body : forall r, hs_req s = Some r ->
    blen (body_of r) <= CWIST_HTTP_MAX_BODY_SIZE /\
    (clean = true -> hs_received_content s = blen (body_of r) /\ params_ok r);
  sw_live : nodefer = true -> hs_req s <> None
}.

(** The block being assembled: within its buffer and the limits, for an odd
    stream that was accepted. *)
Record cont_wf (up : bool) (top : Z) (ct : h2_cont) : Prop := {
  cn_len : 0 <= ct.(ct_len) <= CWIST_HTTP2_MAX_HEADER_BLOCK_SIZE;
  cn_count : 0 <= ct.(ct_frame_count) <= (if up then CWIST_HTTP2_MAX_CONTINUATIONS
                                          else CWIST_HTTP2_MAX_CONTINUATIONS + 1);
  cn_stream : ct.(ct_expecting) = true ->
    0 < ct.(ct_stream_id) <= top /\ ct.(ct_stream_id) mod 2 = 1;
  cn_buf : ct.(ct_expecting) = true -> ct.(ct_discard) = false ->
    exists b, ct.(ct_buf) = Some b /\ bytes_ok b /\ blen b = ct.(ct_len) /\
      ct.(ct_len) <= ct.(ct_cap) /\ 1024 <= ct.(ct_cap) <= 2 * CWIST_HTTP2_MAX_HEADER_BLOCK_SIZE
}.

(** A call of the handler: the request of its stream, within the body limit,
    and of the length it declared. *)
Record call_ok (c : h2_stream * http_request) : Prop := {
  cl_req : hs_req c.1 = Some c.2;
  cl_length : hs_has_content_length c.1 = true -> c.2.(req_content_length) = hs_received_content c.1;
  cl_limit : blen (body_of c.2) <= CWIST_HTTP_MAX_BODY_SIZE;
  cl_body : clean = true -> hs_received_content c.1 = blen (body_of c.2)
}.

Record conn_wf (up : bool) (top : Z) (hc : h2_conn) : Prop := {
  cw_calm : calm hc;
  cw_nodup : NoDup (map hs_id hc.(hc_streams));
  cw_streams : Forall (stream_wf hc.(hc_peer_initial_window_size) top) hc.(hc_streams);
  cw_active : hc.(hc_active_streams) = Z.of_nat (length hc.(hc_streams));
  cw_max : hc.(hc_active_streams) <= CWIST_HTTP2_MAX_CONCURRENT_STREAMS;
  cw_frame : 16384 <= hc.(hc_peer_max_frame_size) <= 16777215;
  cw_initial : 0 <= hc.(hc_peer_initial_window_size) <= CWIST_HTTP2_MAX_WINDOW;
  cw_last : 0 <= hc.(hc_last_processed_stream_id) <= top;
  cw_top : top < 2147483648;
  cw_cont : cont_wf up top hc.(hc_cont);
  cw_table : table_ok hc.(hc_table);
  cw_clean : clean = true -> hc.(hc_io).(io_alloc) = [];
  cw_calls : Forall call_ok hc.(hc_calls)
}.

(** After a frame: accepted streams are counted while the connection is up. *)
Definition settled (up : bool) (hc : h2_conn) : Prop :=
  exists top, conn_wf up top hc /\ (up = true -> top = hc.(hc_last_processed_stream_id)).

Lemma wf_down up top hc : conn_wf up top hc -> conn_wf false top hc.
Proof.
  intros []. constructor; try done. destruct cw_cont0. constructor; try done. destruct up; lia.
Qed.

Lemma wf_settled up hc : conn_wf up hc.(hc_last_processed_stream_id) hc -> settled up hc.
Proof. intros H. by eexists. Qed.

Lemma wf_stopped up top hc : conn_wf up top hc -> settled false hc.
Proof. intros H. exists top. split; [by eapply wf_down|done]. Qed.

Lemma stream_wf_mono iw top top' s : top <= top' -> stream_wf iw top s -> stream_wf iw top' s.
Proof. intros Ht []. constructor; try done. lia. Qed.

Lemma cont_wf_mono up top top' ct : top <= top' -> cont_wf up top ct -> cont_wf up top' ct.
Proof.
  intros Ht []. constructor; try done. intros H. specialize (cn_stream0 H). split; [lia|by apply cn_stream0].
Qed.

Lemma wf_mono up top top' hc :
  top <= top' < 2147483648 -> conn_wf up top hc -> conn_wf up top' hc.
Proof.
  intros Ht []. constructor; try done; try lia.
  - eapply list.Forall_impl; [exact cw_streams0|]. intros s. apply stream_wf_mono. lia.
  - eapply cont_wf_mono; [|done]. lia.
Qed.

Lemma stream_wf_same iw top a b :
  0 <= iw <= CWIST_HTTP2_MAX_WINDOW -> stream_same a b -> stream_wf iw top a -> stream_wf iw top b.
Proof.
  intros Hi [S1 S2 S3 S4 S5 S6] []. constructor; rewrite ?S1, ?S2, ?S4, ?S5; try done. lia.
Qed.

Lemma wf_quiet up top hc hc' : conn_wf up top hc -> quiet hc hc' -> conn_wf up top hc'.
Proof.
  intros [] []. constructor; try done; try (by rewrite ?qt_frame, ?qt_initial, ?qt_last, ?qt_cont, ?qt_table, ?qt_calls).
  - replace (map hs_id (hc_streams hc')) with (map hs_id (hc_streams hc)); [done|].
    clear -qt_streams. induction qt_streams as [|a b l l' [Hi] Hl IH]; cbn; [done|]. by rewrite Hi, IH.
  - rewrite qt_initial. revert qt_streams cw_streams0. clear -cw_initial0.
    generalize (hc_streams hc) (hc_streams hc'). intros l l' Hl.
    induction Hl as [|a b l l' Hs Hl IH]; intros Hw; [constructor|].
    apply Forall_cons_1 in Hw as [Hw1 Hw2]. constructor; [by eapply stream_wf_same|by apply IH].
  - rewrite qt_active, cw_active0. by rewrite (Forall2_length qt_streams).
  - by rewrite qt_active.
  - intros Hc. apply qt_alloc. by apply cw_clean0.
Qed.

(** The streams and counters of a step that only rewrites one stream. *)
Lemma wf_put up top hc s s' :
  conn_wf up top hc -> h2_stream_find hc (hs_id s') = Some s -> stream_fine s' ->
  stream_wf hc.(hc_peer_initial_window_size) top s' -> conn_wf up top (set_stream hc s').
Proof.
  intros [] Hf Hs Hw. constructor; try done.
  - destruct cw_calm0. constructor; try done. by apply put_Forall.
  - change (NoDup (map hs_id (put_stream s' (hc_streams hc)))). by rewrite put_ids.
  - by apply put_Forall.
  - change (hc_active_streams hc = Z.of_nat (length (put_stream s' (hc_streams hc)))). by rewrite put_length.
Qed.

Lemma wf_find up top hc id s :
  conn_wf up top hc -> h2_stream_find hc id = Some s ->
  stream_fine s /\ stream_wf hc.(hc_peer_initial_window_size) top s /\ hs_id s = id /\ 0 < id <= top.
Proof.
  intros [] Hf. destruct (stream_calm hc id s cw_calm0 Hf) as (Hs & Hid & Hin).
  rewrite list.Forall_forall in cw_streams0. specialize (cw_streams0 s Hin).
  split; [done|]. split; [done|]. split; [done|]. rewrite <- Hid. apply cw_streams0.
Qed.

Lemma wf_remove up top hc id : conn_wf up top hc -> conn_wf up top (h2_stream_remove hc id).
Proof.
  intros Hw. unfold h2_stream_remove. destruct (h2_stream_find hc id) as [s|] eqn:Ef; [|done].
  assert (Hin : id ∈ map hs_id (hc_streams hc)).
  { destruct (find_spec _ _ _ Ef) as [Hin <-]. by apply list_elem_of_fmap_2. }
  pose proof (drop_length _ _ Hin) as Hl. destruct Hw. constructor; try done.
  - destruct cw_calm0. constructor; try done. by apply drop_Forall.
  - change (NoDup (map hs_id (drop_stream id (hc_streams hc)))).
    eapply sublist_NoDup; [done|]. apply fmap_sublist. apply drop_sublist.
  - by apply drop_Forall.
  - change ((if 0 <? hc_active_streams hc then hc_active_streams hc - 1 else hc_active_streams hc) =
      Z.of_nat (length (drop_stream id (hc_streams hc)))).
    rewrite (proj2 (Z.ltb_lt _ _)) by lia. lia.
  - change ((if 0 <? hc_active_streams hc then hc_active_streams hc - 1 else hc_active_streams hc) <=
      CWIST_HTTP2_MAX_CONCURRENT_STREAMS). destruct (0 <? _); lia.
Qed.

(** ** New streams *)

Lemma wf_alloc up top hc {A} (f : oracle -> A * oracle) :
  conn_wf up top hc -> (f []).2 = [] -> conn_wf up top (on_alloc f hc).2.
Proof. intros Hw Hf. eapply wf_quiet; [done|]. apply quiet_on_alloc; [apply Hw|done]. Qed.

Lemma rst_wf up top hc id err : conn_wf up top hc -> conn_wf up top (h2_send_rst_stream hc id err).2.
Proof. intros Hw. eapply wf_quiet; [done|]. apply quiet_rst; [apply Henv|apply Hw]. Qed.

(** A table with one more stream. *)
Lemma wf_push up top hc hc' s :
  conn_wf up top hc -> calm hc' ->
  hc_streams hc' = s :: hc_streams hc -> hc_active_streams hc' = hc_active_streams hc + 1 ->
  hc_active_streams hc < CWIST_HTTP2_MAX_CONCURRENT_STREAMS ->
  hc_peer_max_frame_size hc' = hc_peer_max_frame_size hc ->
  hc_peer_initial_window_size hc' = hc_peer_initial_window_size hc ->
  hc_cont hc' = hc_cont hc -> hc_last_processed_stream_id hc' = hc_last_processed_stream_id hc ->
  hc_table hc' = hc_table hc -> hc_calls hc' = hc_calls hc ->
  (hc.(hc_io).(io_alloc) = [] -> hc'.(hc_io).(io_alloc) = []) ->
  h2_stream_find hc (hs_id s) = None -> stream_wf (hc_peer_initial_window_size hc) top s ->
  conn_wf up top hc'.
Proof.
  intros [] Hc Hs Ha Hlt Hf Hi Hct Hl Ht Hcl Hal Hn Hw.
  constructor; rewrite ?Hs, ?Hf, ?Hi, ?Hct, ?Hl, ?Ht, ?Hcl, ?Ha; try done; try lia.
  - cbn [map]. constructor; [by apply find_none in Hn|done].
  - by constructor.
  - cbn [length]. lia.
  - auto.
Qed.

(** The stream [h2_stream_create] makes. *)
Definition new_stream (iw id : Z) : h2_stream :=
  MkStream id None
    ((default zero_stream_fc (stream_flow_control_init (Some zero_stream_fc) id CWIST_HTTP2_MAX_WINDOW
        CWIST_HTTP2_MAX_WINDOW)) <| sf_send_window := s32 iw |>) 0 0 None false 0 0 false.

Lemma new_stream_fine iw id :
  0 <= iw <= CWIST_HTTP2_MAX_WINDOW ->
  stream_fine (new_stream iw id) /\ sf_send_window (hs_fc (new_stream iw id)) = iw.
Proof.
  intros Hi. unfold CWIST_HTTP2_MAX_WINDOW in Hi.
  assert (Hs32 : s32 iw = iw).
  { unfold s32. rewrite u32_id by mlia. by rewrite (proj2 (Z.ltb_lt _ _)) by lia. }
  pose proof (stream_init_ok id CWIST_HTTP2_MAX_WINDOW CWIST_HTTP2_MAX_WINDOW zero_stream_fc
    (default zero_stream_fc (stream_flow_control_init (Some zero_stream_fc) id CWIST_HTTP2_MAX_WINDOW
      CWIST_HTTP2_MAX_WINDOW)) ltac:(unfold CWIST_HTTP2_MAX_WINDOW; lia)
    ltac:(unfold CWIST_HTTP2_MAX_WINDOW, is_u32; lia) eq_refl) as [].
  split; [|exact Hs32]. constructor; [|done]. unfold new_stream. rewrite Hs32. constructor; try done.
  cbn. unfold CWIST_HTTP2_MAX_WINDOW. lia.
Qed.

(** The connection with stream [s] put in front. *)
Definition pushed (hc : h2_conn) (s : h2_stream) : h2_conn :=
  hc <| hc_streams := s :: hc.(hc_streams) |> <| hc_active_streams := hc.(hc_active_streams) + 1 |>.

Lemma stream_create_eq hc id :
  0 <= hc_active_streams hc < 4294967295 ->
  h2_stream_create hc id =
    let '(ok, hc) := on_alloc alloc hc in
    if ok then (Some (new_stream hc.(hc_peer_initial_window_size) id),
                pushed hc (new_stream hc.(hc_peer_initial_window_size) id))
    else (None, hc).
Proof.
  intros Ha. unfold h2_stream_create, on_alloc, on_io, pushed.
  destruct (alloc (io_alloc (hc_io hc))) as [[] a]; [|done].
  pose proof (u32_id (hc_active_streams hc + 1) ltac:(mlia)) as Hu. destruct hc. cbn in *. by rewrite Hu.
Qed.

(** Removing it again. *)
Lemma pop_new hc hc' s :
  hc_streams hc' = s :: hc_streams hc -> hc_active_streams hc' = hc_active_streams hc + 1 ->
  0 <= hc_active_streams hc ->
  h2_stream_remove hc' (hs_id s) = hc' <| hc_streams := hc_streams hc |> <| hc_active_streams := hc_active_streams hc |>.
Proof.
  intros Hs Ha H0. unfold h2_stream_remove, h2_stream_find. rewrite Hs. cbn [list_find].
  rewrite decide_True by done. cbn [mbind option_bind drop_stream].
  rewrite Z.eqb_refl, Ha, (proj2 (Z.ltb_lt _ _)) by lia. do 2 f_equal. lia.
Qed.

Lemma request_create_nil hc :
  match on_alloc http_request_create hc with
  | (Some r, _) => req_body r = None /\ params_ok r
  | (None, _) => True
  end.
Proof.
  unfold on_alloc, on_io, http_request_create. by destruct (alloc (io_alloc (hc_io hc))) as [[] a].
Qed.

Lemma request_create_spec up top hc id :
  conn_wf up top hc -> 0 < id <= top -> id mod 2 = 1 -> h2_stream_find hc id = None ->
  let '(c, hc') := h2_request_stream_create hc id in
  conn_wf up top hc' /\
  match c with
  | Created s => h2_stream_find hc' id = Some s /\ hs_id s = id /\
      (exists r, hs_req s = Some r /\ req_body r = None)
  | _ => True
  end.
Proof.
  intros Hw Hid Hodd Hnone. unfold h2_request_stream_create.
  destruct (Z.leb_spec CWIST_HTTP2_MAX_CONCURRENT_STREAMS (hc_active_streams hc)) as [Hm|Hm].
  { pose proof (rst_wf up top hc id H2_ERR_REFUSED_STREAM Hw) as H.
    destruct (h2_send_rst_stream _ _ _) as [r hc1]. cbn [snd] in H. by destruct (r =? -2). }
  pose proof (cw_active _ _ _ Hw) as Hact. unfold CWIST_HTTP2_MAX_CONCURRENT_STREAMS in Hm.
  rewrite stream_create_eq by lia.
  destruct (quiet_on_alloc alloc hc (cw_calm _ _ _ Hw) eq_refl) as [Hq1 Hst1].
  destruct (on_alloc alloc hc) as [[] hc1]; cbn [snd] in Hq1, Hst1; [|split; [by eapply wf_quiet|done]].
  pose proof (wf_quiet _ _ _ _ Hw Hq1) as Hw1. clear Hw. destruct Hq1 as [_ Q1 _ _ _ _ _ _ _ _].
  set (s0 := new_stream (hc_peer_initial_window_size hc1) id).
  destruct (new_stream_fine (hc_peer_initial_window_size hc1) id (cw_initial _ _ _ Hw1)) as [Hs0 Hwin].
  assert (Hc2 : calm (pushed hc1 s0)).
  { destruct (cw_calm _ _ _ Hw1). constructor; try done. by constructor. }
  pose proof (quiet_on_alloc http_request_create _ Hc2 eq_refl) as [Hq3 Hst3].
  pose proof (request_create_nil (pushed hc1 s0)) as Hnil.
  destruct (on_alloc http_request_create _) as [[req|] hc3]; cbn [snd] in Hq3, Hst3.
  2: { split; [|done]. change id with (hs_id s0). rewrite (pop_new hc1) by (first [rewrite Hst3; reflexivity | rewrite (qt_active _ _ Hq3); reflexivity | lia]).
       destruct Hq3 as [_ _ Q3 Q4 Q5 Q6 Q7 Q8 Q9 [C1 C2 C3 C4 C5]].
       eapply wf_quiet; [exact Hw1|]. apply quiet_of; try done; try apply Hw1. }
  destruct Hnil as [Hbody Hpar].
  pose proof (quiet_on_alloc (sstring_assign (req_version req) (bs "HTTP/2")) hc3 (qt_calm _ _ Hq3) eq_refl) as [Hq4 Hst4].
  destruct (on_alloc (sstring_assign _ _) hc3) as [version hc4]. cbn [snd] in Hq4, Hst4.
  set (s := s0 <| hs_req := _ |>).
  assert (Hst : hc_streams hc4 = s0 :: hc_streams hc1) by (by rewrite Hst4, Hst3).
  assert (Hfnd : h2_stream_find hc4 (hs_id s) = Some s0).
  { unfold h2_stream_find. rewrite Hst. cbn [list_find]. by rewrite decide_True. }
  destruct (quiet_trans _ _ _ Hq3 Hq4) as [_ Q2 Q3 Q4 Q5 Q6 Q7 Q8 Q9 Q10]. split.
  2: { split; [by apply (find_put hc4 s0)|]. split; [done|]. by eexists. }
  assert (Hs : hc_streams (set_stream hc4 s) = s :: hc_streams hc1).
  { change (hc_streams (set_stream hc4 s)) with (put_stream s (hc_streams hc4)). rewrite Hst.
    cbn [put_stream]. change (hs_id s0 =? hs_id s) with (id =? id). by rewrite Z.eqb_refl. }
  apply (wf_push up top hc1 (set_stream hc4 s) s); try done; try lia.
  - destruct Q10 as [C1 C2 C3 C4 C5]. constructor; try done. rewrite Hs. constructor; [by destruct Hs0; constructor|].
    apply (ca_streams _ (cw_calm _ _ _ Hw1)).
  - unfold CWIST_HTTP2_MAX_CONCURRENT_STREAMS. lia.
  - change (h2_stream_find hc1 id = None). by rewrite (find_eq hc) by done.
  - pose proof (cw_initial _ _ _ Hw1). constructor; try done.
    + change (sf_send_window (hs_fc s)) with (sf_send_window (hs_fc s0)). unfold s0. rewrite Hwin. unfold CWIST_HTTP2_MAX_WINDOW in *. lia.
    + intros r [= <-]. unfold body_of. cbn. rewrite Hbody. cbn. done.
Qed.

(** ** Header blocks *)

Lemma wf_target up top hc id s :
  conn_wf up top hc -> h2_stream_find hc id = Some s -> clean = true -> target_ok (stream_target s).
Proof.
  intros Hw Hf Hc. destruct (wf_find _ _ _ _ _ Hw Hf) as (_ & Hs & _). unfold stream_target.
  destruct (hs_req s) as [r|] eqn:Er; [|done]. by apply (proj2 (sw_body _ _ _ Hs r Er) Hc).
Qed.

Lemma decode_wf up top hc s block request :
  conn_wf up top hc -> h2_stream_find hc (hs_id s) = Some s -> bytes_ok block -> blen block < 2 ^ 32 ->
  exists r hc', decode_block hc s block request = Some (r, hc') /\ conn_wf up top hc' /\
    hc'.(hc_cont) = hc.(hc_cont) /\ hc'.(hc_last_processed_stream_id) = hc.(hc_last_processed_stream_id).
Proof.
  intros Hw Hf Hb Hl. unfold decode_block.
  destruct (decode_block_frame env_seed (hc_table hc) (stream_target s) block request (io_alloc (hc_io hc)) Hb Hl
    (cw_table _ _ _ Hw)) as (r & t' & s' & o' & -> & Ht & Hsame & Hnil).
  eexists r, _. split; [reflexivity|]. split; [|done].
  set (hc1 := hc <| hc_table := t' |> <| hc_io := _ |>).
  assert (Hw1 : conn_wf up top hc1).
  { pose proof (fun Hc => Hnil (wf_target _ _ _ _ _ Hw Hf Hc) (cw_clean _ _ _ Hw Hc)) as Hn.
    destruct Hw as [[] W2 W3 W4 W5 W6 W7 W8 W9 W10 W11 W12 W13]. constructor; try done.
    intros Hc. by apply Hn. }
  destruct (wf_find _ _ _ _ _ Hw Hf) as (Hfine & Hs & _).
  assert (Hid : hs_id (with_target s s') = hs_id s) by (by destruct s').
  apply (wf_put _ _ _ s); [done|by rewrite Hid|by destruct s', Hfine|].
  change (hc_peer_initial_window_size hc1) with (hc_peer_initial_window_size hc).
  unfold stream_target, same_body in Hsame. destruct s' as [t|]; [|done].
  destruct (hs_req s) as [r0|] eqn:Er; [|done]. cbn [ht_req] in Hsame.
  destruct Hs as [S1 S2 S3 S4 S5 S6]. constructor; try done.
  intros r1 [= <-]. unfold body_of. rewrite Hsame. destruct (S5 r0 Er) as [B1 B2]. split; [done|].
  intros Hc. split; [by apply B2|]. by apply (Hnil (wf_target _ _ _ _ _ Hw Hf Hc) (cw_clean _ _ _ Hw Hc)).
Qed.

(** What the handlers of header blocks keep. *)
Definition block_done (up : bool) (top : Z) (hc : h2_conn) (r : option (Z * h2_conn)) : Prop :=
  exists rc hc', r = Some (rc, hc') /\ conn_wf (up && negb (rc <? 0)) top hc' /\
    hc'.(hc_last_processed_stream_id) = hc.(hc_last_processed_stream_id) /\
    (rc = 0 \/ rc = 1 \/ rc = -1 \/ rc = -2).

Lemma wf_and up b top hc : conn_wf up top hc -> conn_wf (up && b) top hc.
Proof. intros H. destruct b; [by rewrite andb_true_r|]. rewrite andb_false_r. by eapply wf_down. Qed.

Lemma rst_facts hc id err :
  calm hc -> (h2_send_rst_stream hc id err).2.(hc_last_processed_stream_id) = hc.(hc_last_processed_stream_id) /\
    (h2_send_rst_stream hc id err).2.(hc_cont) = hc.(hc_cont).
Proof. intros Hc. pose proof (quiet_rst hc id err (eo_limits _ _ Henv) Hc) as []. done. Qed.

Lemma remove_facts hc id :
  (h2_stream_remove hc id).(hc_last_processed_stream_id) = hc.(hc_last_processed_stream_id) /\
  (h2_stream_remove hc id).(hc_cont) = hc.(hc_cont).
Proof. unfold h2_stream_remove. by destruct (h2_stream_find hc id). Qed.

Definition same_place (hc hc' : h2_conn) : Prop :=
  hc'.(hc_last_processed_stream_id) = hc.(hc_last_processed_stream_id) /\ hc'.(hc_cont) = hc.(hc_cont).
#[export] Instance same_place_trans : Transitive same_place.
Proof. intros a b c [] []. split; congruence. Qed.
Lemma quiet_place hc hc' : quiet hc hc' -> same_place hc hc'.
Proof. by intros []. Qed.

(** A stream answered with RST_STREAM and taken out. *)
Lemma rst_remove_spec up top hc id err :
  conn_wf up top hc ->
  let '(rc, hc') := h2_send_rst_stream hc id err in
  conn_wf up top (h2_stream_remove hc' id) /\ same_place hc (h2_stream_remove hc' id).
Proof.
  intros Hw. pose proof (quiet_rst hc id err (eo_limits _ _ Henv) (cw_calm _ _ _ Hw)) as Hq.
  destruct (h2_send_rst_stream hc id err) as [rc hc']. cbn [snd] in Hq.
  split; [apply wf_remove; by eapply wf_quiet|]. etrans; [by apply quiet_place|]. apply remove_facts.
Qed.

Lemma decode_headers_spec up top hc s block request :
  conn_wf up top hc -> h2_stream_find hc (hs_id s) = Some s -> bytes_ok block -> blen block < 2 ^ 32 ->
  exists rc hc', h2_decode_stream_headers hc s block request = Some (rc, hc') /\ conn_wf up top hc' /\
    same_place hc hc' /\ (rc = 0 \/ rc = 1 \/ rc = -1).
Proof.
  intros Hw Hf Hb Hl. unfold h2_decode_stream_headers.
  destruct (decode_wf up top hc s block request Hw Hf Hb Hl) as (r & hc1 & -> & Hw1 & Hc1 & Hl1).
  assert (Hp : same_place hc hc1) by done.
  destruct r; [do 2 eexists; split; [done|]; auto| |do 2 eexists; split; [done|]; auto].
  pose proof (rst_remove_spec up top hc1 (hs_id s) H2_ERR_PROTOCOL_ERROR Hw1) as H.
  destruct (h2_send_rst_stream hc1 _ _) as [rc hc2]. destruct H as [H1 H2].
  do 2 eexists. split; [done|]. split; [done|]. split; [by etrans|]. destruct (rc =? -2); auto.
Qed.

Lemma reject_empty_spec up top hc id :
  conn_wf up top hc ->
  let '(rc, hc') := reject_empty_block hc id in
  conn_wf up top hc' /\ same_place hc hc' /\ (rc = 1 \/ rc = -2).
Proof.
  intros Hw. unfold reject_empty_block. pose proof (rst_remove_spec up top hc id H2_ERR_PROTOCOL_ERROR Hw) as H.
  destruct (h2_send_rst_stream hc _ _) as [rc hc2]. destruct H as [H1 H2].
  split; [done|]. split; [done|]. destruct (rc =? -2); auto.
Qed.

Lemma create_place hc id :
  calm hc -> limits_ok env_rst_burst env_rst_rate -> same_place hc (h2_request_stream_create hc id).2.
Proof.
  intros Hc Hl. unfold h2_request_stream_create. destruct (_ <=? _).
  { destruct (rst_facts hc id H2_ERR_REFUSED_STREAM Hc) as [H1 H2].
    destruct (h2_send_rst_stream _ _ _) as [r hc1]. by destruct (r =? -2). }
  unfold h2_stream_create. destruct (alloc _) as [[] a]; [|done].
  set (hc1 := hc <| hc_io := _ |> <| hc_streams := _ |> <| hc_active_streams := _ |>).
  assert (Hio : forall {A} (f : oracle -> A * oracle) h, same_place h (on_alloc f h).2).
  { intros A f h. unfold on_alloc, on_io. by destruct (f _). }
  pose proof (Hio _ http_request_create hc1) as H1.
  destruct (on_alloc http_request_create hc1) as [[req|] hc2]; cbn [snd] in H1.
  - pose proof (Hio _ (sstring_assign (req_version req) (bs "HTTP/2")) hc2) as H2.
    destruct (on_alloc _ hc2) as [v hc3]. cbn [snd] in *. by etrans.
  - cbn [snd]. etrans; [exact H1|]. apply remove_facts.
Qed.

Lemma open_stream_spec up top hc id :
  conn_wf up top hc -> 0 < id <= top -> id mod 2 = 1 ->
  let '(c, hc') := open_stream hc id in
  conn_wf up top hc' /\ same_place hc hc' /\
  match c with Created s => h2_stream_find hc' (hs_id s) = Some s | _ => True end.
Proof.
  intros Hw Hid Ho. unfold open_stream. destruct (h2_stream_find hc id) as [s|] eqn:Ef.
  - split; [done|]. split; [done|]. destruct (find_spec _ _ _ Ef) as [_ ->]. done.
  - pose proof (request_create_spec up top hc id Hw Hid Ho Ef) as H.
    pose proof (create_place hc id (cw_calm _ _ _ Hw) (eo_limits _ _ Henv)) as Hp.
    destruct (h2_request_stream_create hc id) as [c hc1]. destruct H as [H1 H2]. split; [done|].
    split; [done|]. destruct c; try done. destruct H2 as (H2 & <- & _). done.
Qed.

Lemma wf_cont up up' top hc ct :
  conn_wf up top hc -> cont_wf up' top ct -> conn_wf up' top (hc <| hc_cont := ct |>).
Proof. intros [[] W2 W3 W4 W5 W6 W7 W8 W9 W10 W11 W12 W13] Hc. by constructor. Qed.

Lemma create_code_cases c : create_code c = 1 \/ create_code c = -1 \/ create_code c = -2.
Proof. destruct c; auto. Qed.

Lemma begin_headers_spec top hc id payload eh es :
  conn_wf true top hc -> 0 < id <= top -> id mod 2 = 1 -> bytes_ok payload -> blen payload < 2 ^ 32 ->
  block_done true top hc (h2_begin_headers hc id payload eh es).
Proof.
  intros Hw Hid Hodd Hb Hl. unfold h2_begin_headers, block_done.
  assert (Hsame : forall rc, rc = -1 \/ rc = -2 -> exists rc' hc', Some (rc, hc) = Some (rc', hc') /\
    conn_wf (true && negb (rc' <? 0)) top hc' /\
    hc'.(hc_last_processed_stream_id) = hc.(hc_last_processed_stream_id) /\
    (rc' = 0 \/ rc' = 1 \/ rc' = -1 \/ rc' = -2)).
  { intros rc Hrc. exists rc, hc. split; [done|]. split; [by apply wf_and|]. split; [done|]. lia. }
  destruct (ct_expecting (hc_cont hc)); [apply Hsame; auto|].
  destruct (_ && _); [apply Hsame; auto|]. destruct eh.
  { pose proof (open_stream_spec true top hc id Hw Hid Hodd) as Ho.
    destruct (open_stream hc id) as [c hc1]. destruct Ho as (Hw1 & [Hp1 _] & Hc).
    assert (Hother : forall c', exists rc hc', Some (create_code c', hc1) = Some (rc, hc') /\
      conn_wf (true && negb (rc <? 0)) top hc' /\
      hc'.(hc_last_processed_stream_id) = hc.(hc_last_processed_stream_id) /\
      (rc = 0 \/ rc = 1 \/ rc = -1 \/ rc = -2)).
    { intros c'. do 2 eexists. split; [done|]. split; [by apply wf_and|]. split; [done|].
      destruct (create_code_cases c'); auto. }
    destruct c as [s| | |]; [|apply Hother..]. clear Hother.
    destruct (0 <? blen payload).
    - destruct (decode_headers_spec true top hc1 s payload (bool_decide (h2_stream_find hc id = None)) Hw1 Hc Hb Hl)
        as (rc & hc2 & -> & H1 & [H2 _] & H3).
      do 2 eexists. split; [done|]. split; [by apply wf_and|]. split; [congruence|]. lia.
    - destruct (bool_decide _); [|do 2 eexists; split; [done|]; auto].
      pose proof (reject_empty_spec true top hc1 id Hw1) as Hr.
      destruct (reject_empty_block hc1 id) as [rc hc2]. destruct Hr as (H1 & [H2 _] & H3).
      do 2 eexists. split; [done|]. split; [by apply wf_and|]. split; [congruence|]. lia. }
  destruct (Z.ltb_spec CWIST_HTTP2_MAX_HEADER_BLOCK_SIZE (blen payload)) as [Hbig|Hfit]; [apply Hsame; auto|].
  assert (Hpl : 0 <= blen payload) by (unfold blen; lia).
  unfold CWIST_HTTP2_MAX_HEADER_BLOCK_SIZE in Hfit.
  destruct (_ && _).
  - pose proof (quiet_rst hc id H2_ERR_REFUSED_STREAM (eo_limits _ _ Henv) (cw_calm _ _ _ Hw)) as Hq.
    destruct (h2_send_rst_stream hc id _) as [rc hc1]. cbn [snd] in Hq.
    pose proof (wf_quiet _ _ _ _ Hw Hq) as Hw1. pose proof (qt_last _ _ Hq) as Hlast.
    destruct (rc =? -2); do 2 eexists; (split; [done|]); (split; [|split; [done|auto]]).
    + by eapply wf_down.
    + eapply wf_cont; [done|]. constructor; cbn; unfold CWIST_HTTP2_MAX_HEADER_BLOCK_SIZE, CWIST_HTTP2_MAX_CONTINUATIONS;
        done || lia.
  - destruct (quiet_on_alloc alloc hc (cw_calm _ _ _ Hw) eq_refl) as [Hq _].
    destruct (on_alloc alloc hc) as [ok hc1]. cbn [snd] in Hq.
    pose proof (wf_quiet _ _ _ _ Hw Hq) as Hw1. pose proof (qt_last _ _ Hq) as Hlast.
    destruct ok; cbn [negb]; do 2 eexists; (split; [done|]); (split; [|split; [done|auto]]).
    + eapply wf_cont; [done|]. constructor; cbn; unfold CWIST_HTTP2_MAX_HEADER_BLOCK_SIZE, CWIST_HTTP2_MAX_CONTINUATIONS;
        try done; try lia. intros _ _. exists payload. split; [done|]. split; [done|]. split; [done|].
      destruct (Z.ltb_spec (blen payload) 1024); lia.
    + eapply wf_cont; [by eapply wf_down|]. constructor; cbn;
        unfold CWIST_HTTP2_MAX_HEADER_BLOCK_SIZE, CWIST_HTTP2_MAX_CONTINUATIONS; done || lia.
Qed.

(** Growing the buffer of the block being assembled. *)
Lemma cont_append_spec hc top payload :
  conn_wf true top hc -> bytes_ok payload -> 0 < blen payload ->
  hc.(hc_cont).(ct_expecting) = true -> hc.(hc_cont).(ct_discard) = false ->
  hc.(hc_cont).(ct_len) + blen payload <= CWIST_HTTP2_MAX_HEADER_BLOCK_SIZE ->
  let '(ok, hc') := cont_append hc payload in
  conn_wf true top hc' /\ hc'.(hc_last_processed_stream_id) = hc.(hc_last_processed_stream_id) /\
  hc'.(hc_cont).(ct_expecting) = true /\ hc'.(hc_cont).(ct_discard) = false.
Proof.
  intros Hw Hb Hpl He Hd Hfit. unfold cont_append. pose proof (cw_cont _ _ _ Hw) as [C1 C2 C3 C4].
  destruct (C4 He Hd) as (b & Hbuf & Hbok & Hbl & Hlc & Hcap).
  unfold CWIST_HTTP2_MAX_HEADER_BLOCK_SIZE in *. set (ct := hc_cont hc) in *.
  set (need := ct_len ct + blen payload) in *.
  assert (Hgrow : need <= grow 64 (u64 (ct_cap ct * 2)) need /\ 1024 <= grow 64 (u64 (ct_cap ct * 2)) need /\
    (ct_cap ct < need -> grow 64 (u64 (ct_cap ct * 2)) need <= 2 * 65536)).
  { rewrite u64_id by (unfold is_u64; lia).
    pose proof (grow_spec 64 (ct_cap ct * 2) need ltac:(lia) ltac:(lia)
      ltac:(change (2 ^ Z.of_nat 64) with 18446744073709551616; lia)).
    pose proof (grow_bound 64 (ct_cap ct * 2) need ltac:(lia) ltac:(lia)). lia. }
  assert (Hnew : forall cap, need <= cap <= 2 * 65536 -> 1024 <= cap ->
    cont_wf true top (ct <| ct_buf := Some (take (Z.to_nat (ct_len ct)) (default [] (ct_buf ct)) ++ payload) |>
                         <| ct_len := need |> <| ct_cap := cap |>)).
  { intros cap Hc1 Hc2. constructor; cbn; unfold CWIST_HTTP2_MAX_HEADER_BLOCK_SIZE; try done; try lia.
    intros _ _. eexists. split; [done|]. rewrite Hbuf. cbn. unfold blen in Hbl.
    rewrite firstn_all2 by lia. split; [by apply Forall_app_2|]. rewrite blen_app. unfold blen in *. lia. }
  destruct (Z.ltb_spec (ct_cap ct) need) as [Hlt|Hge].
  - destruct (quiet_on_alloc alloc hc (cw_calm _ _ _ Hw) eq_refl) as [Hq _].
    destruct (on_alloc alloc hc) as [ok hc1]. cbn [snd] in Hq.
    pose proof (wf_quiet _ _ _ _ Hw Hq) as Hw1. pose proof (qt_last _ _ Hq) as Hlast.
    pose proof (qt_cont _ _ Hq) as Hct.
    destruct ok; cbn [negb]; [|split; [done|]; split; [done|]; by rewrite Hct].
    split; [eapply wf_cont; [done|]; apply Hnew; lia|done].
  - cbn [negb]. split; [eapply wf_cont; [done|]; apply Hnew; lia|done].
Qed.

(** The assembled block goes where a block in one frame goes. *)
Lemma finish_block_spec top hc :
  conn_wf true top hc -> hc.(hc_cont).(ct_expecting) = true -> hc.(hc_cont).(ct_discard) = false ->
  block_done true top hc (finish_block hc).
Proof.
  intros Hw He Hd. unfold finish_block, block_done.
  pose proof (cw_cont _ _ _ Hw) as [C1 C2 C3 C4]. destruct (C3 He) as [Hid Hodd].
  destruct (C4 He Hd) as (b & Hbuf & Hbok & Hbl & _).
  pose proof (open_stream_spec true top hc _ Hw Hid Hodd) as Ho.
  set (id := ct_stream_id (hc_cont hc)) in *. set (is_new := bool_decide _).
  destruct (open_stream hc id) as [c hc1]. destruct Ho as (Hw1 & Hp1 & Hc).
  rewrite Hbuf. set (r := match c with Created _ => _ | _ => _ end).
  assert (Hr : exists rc hc2, r = Some (rc, hc2) /\ conn_wf true top hc2 /\ same_place hc hc2 /\
    (rc = 0 \/ rc = 1 \/ rc = -1 \/ rc = -2)).
  { assert (Hother : forall c', exists rc hc', Some (create_code c', hc1) = Some (rc, hc') /\ conn_wf true top hc' /\
      same_place hc hc' /\ (rc = 0 \/ rc = 1 \/ rc = -1 \/ rc = -2)).
    { intros c'. do 2 eexists. split; [done|]. split; [done|]. split; [done|]. destruct (create_code_cases c'); auto. }
    unfold r. destruct c as [s| | |]; [|apply Hother..]. destruct (0 <? ct_len (hc_cont hc)).
    - unfold CWIST_HTTP2_MAX_HEADER_BLOCK_SIZE in C1.
      destruct (decode_headers_spec true top hc1 s (take (Z.to_nat (ct_len (hc_cont hc))) b) is_new Hw1 Hc)
        as (rc & hc2 & -> & H1 & H2 & H3).
      { unfold blen in Hbl. rewrite firstn_all2 by lia. done. }
      { unfold blen. rewrite length_take. lia. }
      do 2 eexists. split; [done|]. split; [done|]. split; [by etrans|]. lia.
    - destruct is_new; [|do 2 eexists; split; [done|]; auto].
      pose proof (reject_empty_spec true top hc1 id Hw1) as Hx.
      destruct (reject_empty_block hc1 id) as [rc hc2]. destruct Hx as (H1 & H2 & H3).
      do 2 eexists. split; [done|]. split; [done|]. split; [by etrans|]. lia. }
  clearbody r. destruct Hr as (rc & hc2 & -> & Hw2 & [Hl2 Hct2] & Hrc).
  do 2 eexists. split; [done|]. split; [|by split].
  apply wf_and. eapply wf_cont; [done|]. rewrite Hct2. constructor; cbn; try done.
Qed.

Lemma continuation_spec top hc id payload eh :
  conn_wf true top hc -> bytes_ok payload -> blen payload < 2 ^ 32 ->
  block_done true top hc (h2_handle_continuation hc id payload eh).
Proof.
  intros Hw Hb Hl. unfold h2_handle_continuation, block_done.
  destruct (ct_expecting (hc_cont hc)) eqn:He; cbn [negb orb].
  2: { do 2 eexists. split; [done|]. split; [by apply wf_and|]. auto. }
  destruct (_ =? id); cbn [negb].
  2: { do 2 eexists. split; [done|]. split; [by apply wf_and|]. auto. }
  pose proof (cw_cont _ _ _ Hw) as [C1 C2 C3 C4]. unfold CWIST_HTTP2_MAX_CONTINUATIONS, CWIST_HTTP2_MAX_HEADER_BLOCK_SIZE in *.
  set (ct := (hc_cont hc) <| ct_frame_count := _ |>). set (hc1 := hc <| hc_cont := ct |>).
  assert (Hcnt : ct_frame_count ct = ct_frame_count (hc_cont hc) + 1) by (cbn; rewrite u32_id; [done|mlia]).
  change (hc_cont hc1) with ct.
  assert (Hwd : conn_wf false top hc1).
  { eapply wf_cont; [exact Hw|]. constructor; rewrite ?Hcnt; unfold CWIST_HTTP2_MAX_CONTINUATIONS; try done. lia. }
  destruct (Z.ltb_spec 32 (ct_frame_count ct)) as [Hc|Hc].
  { do 2 eexists. split; [done|]. split; [done|]. auto. }
  assert (Hw1 : conn_wf true top hc1).
  { eapply wf_cont; [exact Hw|]. constructor; unfold CWIST_HTTP2_MAX_CONTINUATIONS; try done. lia. }
  destruct (Z.ltb_spec 65536 (ct_len ct + blen payload)) as [Hbig|Hfit].
  { do 2 eexists. split; [done|]. split; [done|]. auto. }
  destruct (ct_discard ct) eqn:Hd.
  { destruct eh; do 2 eexists; (split; [done|]); (split; [|auto]); [|by apply wf_and].
    apply wf_and. eapply wf_cont; [exact Hw1|]. constructor; cbn; unfold CWIST_HTTP2_MAX_CONTINUATIONS; try done. }
  assert (Happ : forall ok hc2, (if 0 <? blen payload then cont_append hc1 payload else (true, hc1)) = (ok, hc2) ->
    conn_wf true top hc2 /\ hc2.(hc_last_processed_stream_id) = hc.(hc_last_processed_stream_id) /\
    hc2.(hc_cont).(ct_expecting) = true /\ hc2.(hc_cont).(ct_discard) = false).
  { intros ok hc2. destruct (Z.ltb_spec 0 (blen payload)) as [Hp|Hp]; [|by intros [= <- <-]].
    pose proof (cont_append_spec hc1 top payload Hw1 Hb Hp He Hd ltac:(done)) as H. intros Heq. by rewrite Heq in H. }
  destruct (if 0 <? blen payload then _ else _) as [ok hc2]. destruct (Happ ok hc2 eq_refl) as (Hw2 & Hl2 & He2 & Hd2).
  destruct ok; cbn [negb]; [|do 2 eexists; split; [done|]; split; [by apply wf_and|]; auto].
  destruct eh; [|do 2 eexists; split; [done|]; split; [by apply wf_and|]; auto].
  destruct (finish_block_spec top hc2 Hw2 He2 Hd2) as (rc & hc3 & -> & H1 & H2 & H3).
  do 2 eexists. split; [done|]. split; [done|]. split; [congruence|done].
Qed.

(** ** SETTINGS and WINDOW_UPDATE *)

Lemma adjust_wf iw value top s :
  0 <= iw <= CWIST_HTTP2_MAX_WINDOW -> 0 <= value <= CWIST_HTTP2_MAX_WINDOW ->
  stream_fine s -> stream_wf iw top s ->
  let s' := s <| hs_fc := default s.(hs_fc)
               (stream_flow_control_adjust_send_window (Some s.(hs_fc)) (value - iw)) |> in
  stream_fine s' /\ stream_wf value top s'.
Proof.
  intros Hi Hv [[] Hs] [] s'. unfold CWIST_HTTP2_MAX_WINDOW in *.
  assert (Hw : sf_send_window (hs_fc s') = Z.min 2147483647 (sf_send_window (hs_fc s) + (value - iw))).
  { change (stream_send_add (sf_send_window (hs_fc s)) (value - iw) = Z.min 2147483647 (sf_send_window (hs_fc s) + (value - iw))).
    unfold stream_send_add, CWIST_HTTP2_MAX_WINDOW. destruct (Z.ltb_spec 2147483647 (sf_send_window (hs_fc s) + (value - iw))); [lia|].
    unfold s32. cases_ltb; mlia. }
  split; constructor; try done; [constructor; try done|]; unfold CWIST_HTTP2_MAX_WINDOW; rewrite Hw; lia.
Qed.

Lemma adjust_ids delta l : map hs_id (adjust_streams delta l) = map hs_id l.
Proof. unfold adjust_streams. rewrite map_map. by apply map_ext. Qed.

Lemma setting_spec top hc id value :
  conn_wf true top hc -> is_u32 value ->
  conn_wf true top (apply_setting hc id value).2 /\ same_place hc (apply_setting hc id value).2.
Proof.
  intros Hw Hv. unfold apply_setting.
  destruct (id =? 2); [by destruct (1 <? value)|].
  destruct (id =? 3).
  { split; [|done]. destruct Hw as [[] W2 W3 W4 W5 W6 W7 W8 W9 W10 W11 W12 W13]. by constructor. }
  destruct (id =? 4).
  { destruct (Z.ltb_spec 2147483647 value) as [Hbig|Hsmall]; [done|]. split; [|done].
    pose proof (cw_initial _ _ _ Hw) as Hi. unfold CWIST_HTTP2_MAX_WINDOW, is_u32 in *.
    assert (Hs32 : forall x, 0 <= x <= 2147483647 -> s32 x = x).
    { intros x Hx. unfold s32. rewrite u32_id by mlia. by rewrite (proj2 (Z.ltb_lt _ _)) by lia. }
    cbn [snd]. rewrite !Hs32 by lia. set (delta := value - hc_peer_initial_window_size hc).
    destruct Hw as [[C1 C2 C3 C4 C5] W2 W3 W4 W5 W6 W7 W8 W9 W10 W11 W12 W13].
    assert (Hboth : Forall (fun s => stream_fine s /\ stream_wf value top s) (adjust_streams delta (hc_streams hc))).
    { unfold adjust_streams. rewrite list.Forall_forall. intros s' Hin. apply list_elem_of_fmap in Hin as (s & -> & Hin).
      rewrite list.Forall_forall in C3, W3. apply (adjust_wf (hc_peer_initial_window_size hc) value top s);
        unfold CWIST_HTTP2_MAX_WINDOW; [lia|lia|by apply C3|by apply W3]. }
    apply list.Forall_and in Hboth as [Hf Hs]. constructor; try done.
    - change (NoDup (map hs_id (adjust_streams delta (hc_streams hc)))). by rewrite adjust_ids.
    - change (hc_active_streams hc = Z.of_nat (length (adjust_streams delta (hc_streams hc)))).
      unfold adjust_streams. by rewrite length_map.
    - cbn. unfold CWIST_HTTP2_MAX_WINDOW. lia. }
  destruct (id =? 5); [|done].
  destruct (Z.ltb_spec value 16384) as [H1|H1]; [done|].
  destruct (Z.ltb_spec 16777215 value) as [H2|H2]; [done|]. split; [|done].
  destruct Hw as [[] W2 W3 W4 W5 W6 W7 W8 W9 W10 W11 W12 W13]. constructor; try done; constructor; try done; cbn; lia.
Qed.

Lemma get_u32_range p i : bytes_ok p -> is_u32 (h2_get_u32 p i).
Proof.
  intros Hp. unfold h2_get_u32.
  pose proof (bytes_ok_rd p i Hp). pose proof (bytes_ok_rd p (i + 1) Hp).
  pose proof (bytes_ok_rd p (i + 2) Hp). pose proof (bytes_ok_rd p (i + 3) Hp). unfold is_u8 in *.
  rewrite <- !Z.lor_assoc, (lor_shiftl_add _ (rd p (i + 3)) 8) by mlia.
  rewrite (lor_shiftl_add _ _ 16) by mlia.
  rewrite (Z.shiftl_mul_pow2 _ 24), u32_id by mlia.
  rewrite <- (Z.shiftl_mul_pow2 _ 24), lor_shiftl_add by mlia. mlia.
Qed.

Lemma settings_spec n : forall top hc payload i,
  conn_wf true top hc -> bytes_ok payload ->
  conn_wf true top (settings_loop n payload i hc).2 /\ same_place hc (settings_loop n payload i hc).2.
Proof.
  induction n as [|n IH]; intros top hc payload i Hw Hb; cbn [settings_loop]; [done|].
  pose proof (setting_spec top hc (h2_get_u16 payload i) _ Hw (get_u32_range payload (i + 2) Hb)) as [H1 H2].
  destruct (apply_setting hc _ _) as [rc hc1]. cbn [snd] in *. destruct (negb _); [done|].
  destruct (IH top hc1 payload (i + 6)%nat H1 Hb) as [H3 H4]. split; [done|]. by etrans.
Qed.

Lemma window_update_spec top hc id payload :
  conn_wf true top hc -> bytes_ok payload ->
  conn_wf true top (h2_handle_window_update hc id payload).2 /\
  same_place hc (h2_handle_window_update hc id payload).2.
Proof.
  intros Hw Hb. unfold h2_handle_window_update. destruct (negb _); [done|].
  set (inc := h2_get_u31 payload 0). destruct (Z.leb_spec inc 0) as [|Hpos]; [done|].
  destruct (id =? 0).
  - destruct (Z.ltb_spec CWIST_HTTP2_MAX_WINDOW (send_window (hc_fc hc) + inc)) as [|Hfit]; [done|].
    split; [|done]. eapply wf_quiet; [exact Hw|]. apply quiet_fc; [apply Hw|].
    pose proof (ca_fc _ (cw_calm _ _ _ Hw)) as []. unfold CWIST_HTTP2_MAX_WINDOW in *.
    rewrite u32_id by mlia. destruct (hc_fc hc). constructor; cbn in *; unfold CWIST_HTTP2_MAX_WINDOW; done || lia.
  - destruct (h2_stream_find hc id) as [s|] eqn:Ef; [|done].
    destruct (Z.ltb_spec CWIST_HTTP2_MAX_WINDOW (sf_send_window (hs_fc s) + inc)) as [|Hfit]; [done|].
    split; [|done]. destruct (wf_find _ _ _ _ _ Hw Ef) as ([Hok Hsent] & Hs & Hid & _).
    assert (H32 : s32 (sf_send_window (hs_fc s) + inc) = sf_send_window (hs_fc s) + inc).
    { destruct Hok. unfold CWIST_HTTP2_MAX_WINDOW in *. unfold s32. cases_ltb; mlia. }
    rewrite H32. apply (wf_put _ _ _ s); [done|change (h2_stream_find hc (hs_id s) = Some s); by rewrite Hid| |].
    + constructor; [|done]. destruct Hok. destruct (hs_fc s). constructor; cbn in *;
        unfold CWIST_HTTP2_MAX_WINDOW in *; done || lia.
    + destruct Hs. constructor; try done. cbn. lia.
Qed.

(** ** The handler's call *)

Lemma wf_calls up top hc s req :
  conn_wf up top hc -> call_ok (s, req) ->
  conn_wf up top (hc <| hc_calls := hc.(hc_calls) ++ [(s, req)] |>).
Proof.
  intros [[] W2 W3 W4 W5 W6 W7 W8 W9 W10 W11 W12 W13] Hc. constructor; try done.
  cbn. apply Forall_app_2; [done|]. by constructor.
Qed.

(** A stream with another request of the same body. *)
Lemma stream_wf_req iw top s r r' resp :
  stream_wf iw top s -> hs_req s = Some r -> r'.(req_body) = r.(req_body) ->
  (clean = true -> params_ok r') ->
  stream_wf iw top (s <| hs_req := Some r' |> <| hs_response := resp |>).
Proof.
  intros [S1 S2 S3 S4 S5 S6] Hr Hb Hp. constructor; try done. intros r1 [= <-]. unfold body_of. rewrite Hb.
  destruct (S5 r Hr) as [B1 B2]. split; [done|]. intros Hc. split; [by apply B2|by apply Hp].
Qed.

Lemma alt_svc_nil res : (h2_inject_alt_svc res []).2 = [].
Proof.
  unfold h2_inject_alt_svc. destruct env_http3_port; [|done].
  destruct (header_get _ _); [done|]. unfold header_add. by destruct (_ || _).
Qed.

Lemma response_wf up top hc id res : conn_wf up top hc -> conn_wf up top (h2_send_response_hc hc id res).2 /\
  same_place hc (h2_send_response_hc hc id res).2.
Proof.
  intros Hw. pose proof (quiet_response clean nodefer hc id res Henv (cw_calm _ _ _ Hw)) as Hq.
  split; [by eapply wf_quiet|by apply quiet_place].
Qed.

Lemma wf_response up top hc id s resp :
  conn_wf up top hc -> h2_stream_find hc id = Some s ->
  conn_wf up top (set_stream hc (s <| hs_response := resp |>)).
Proof.
  intros Hw Hf. destruct (wf_find _ _ _ _ _ Hw Hf) as (Hfine & Hs & Hid & _).
  apply (wf_put _ _ _ s); [done|change (h2_stream_find hc (hs_id s) = Some s); by rewrite Hid| |].
  - by destruct Hfine.
  - by destruct Hs.
Qed.

Lemma call_handler_spec top hc s req :
  conn_wf true top hc -> h2_stream_find hc (hs_id s) = Some s -> call_ok (s, req) ->
  conn_wf true top (call_handler hc s req).2 /\ same_place hc (call_handler hc s req).2.
Proof.
  intros Hw Hf Hok. unfold call_handler.
  destruct (quiet_on_alloc response_create hc (cw_calm _ _ _ Hw) eq_refl) as [Hq1 Hst1].
  destruct (on_alloc response_create hc) as [[res|] hc1]; cbn [snd] in Hq1, Hst1.
  2: { split; [by eapply wf_quiet|by apply quiet_place]. }
  pose proof (eo_body _ _ Henv req res) as Hbody. pose proof (fun Hc => eo_params _ _ Henv Hc req res) as Hpar.
  pose proof (fun Hc => eo_defer _ _ Henv Hc req res) as Hdef.
  destruct (env_handler req res) as [[req' res'] deferred]. cbn [fst snd] in Hbody, Hpar, Hdef.
  pose proof (wf_calls _ _ _ s req (wf_quiet _ _ _ _ Hw Hq1) Hok) as Hw2.
  set (hc2 := hc1 <| hc_calls := _ |>) in *. assert (Hp2 : same_place hc hc2) by (by apply (quiet_place hc hc1)).
  assert (Hf2 : h2_stream_find hc2 (hs_id s) = Some s) by (rewrite (find_eq hc); [done|exact Hst1]).
  destruct (wf_find _ _ _ _ _ Hw2 Hf2) as (Hfine & Hs & _). pose proof (cl_req _ Hok) as Hr. cbn [fst snd] in Hr.
  destruct deferred.
  { split; [|done]. apply (wf_put _ _ _ s); [done|done|by destruct Hfine|].
    destruct Hs. constructor; try done. intros Hn. by specialize (Hdef Hn). }
  destruct (quiet_on_alloc (h2_inject_alt_svc res') hc2 (cw_calm _ _ _ Hw2) (alt_svc_nil _)) as [Hq3 Hst3].
  destruct (on_alloc (h2_inject_alt_svc res') hc2) as [res2 hc3]. cbn [snd] in Hq3, Hst3.
  pose proof (wf_quiet _ _ _ _ Hw2 Hq3) as Hw3.
  set (s1 := s <| hs_req := Some req' |> <| hs_response := Some res2 |>).
  assert (Hw4 : conn_wf true top (set_stream hc3 s1)).
  { apply (wf_put _ _ _ s); [done|rewrite (find_eq hc2); done|by destruct Hfine|].
    rewrite (qt_initial _ _ Hq3). apply (stream_wf_req _ _ s req req' (Some res2)); [done|done|done|].
    intros Hc. apply Hpar; [done|]. by apply (proj2 (sw_body _ _ _ Hs req Hr) Hc). }
  destruct (response_wf _ _ _ (hs_id s) res2 Hw4) as [Hw5 Hp5].
  destruct (h2_send_response_hc _ _ _) as [rc hc4]. cbn [snd] in Hw5, Hp5.
  assert (Hp4 : same_place hc hc4).
  { etrans; [exact Hp2|]. etrans; [by apply (quiet_place hc2 hc3)|exact Hp5]. }
  cbn [snd]. destruct (rc =? 1); [done|].
  destruct (h2_stream_find hc4 (hs_id s)) as [s2|] eqn:Ef; [|done]. split; [by eapply wf_response|done].
Qed.

(** ** Frames *)

(** A NULL dereference needs a handler that defers. *)
Definition frame_done (r : option (bool * h2_conn)) : Prop :=
  match r with
  | None => nodefer = false
  | Some (up, hc) => settled up hc
  end.

(** The handlers keep [top] and the last stream accepted. *)
Definition kept (top : Z) (hc hc' : h2_conn) : Prop := conn_wf true top hc' /\ same_place hc hc'.

Lemma kept_done top hc hc' (up : bool) :
  top = hc.(hc_last_processed_stream_id) -> kept top hc hc' -> frame_done (Some (up, hc')).
Proof.
  intros Ht [Hw [Hl _]]. exists top. split; [|intros _; congruence]. destruct up; [done|by eapply wf_down].
Qed.

Lemma kept_trans top a b c : same_place a b -> kept top b c -> kept top a c.
Proof. intros Hp [Hw Hp2]. split; [done|by etrans]. Qed.

Lemma kept_quiet top hc hc' : conn_wf true top hc -> quiet hc hc' -> kept top hc hc'.
Proof. intros Hw Hq. split; [by eapply wf_quiet|by apply quiet_place]. Qed.

Lemma kept_remove top hc hc' id : kept top hc hc' -> kept top hc (h2_stream_remove hc' id).
Proof. intros [Hw Hp]. split; [by apply wf_remove|]. etrans; [exact Hp|]. apply remove_facts. Qed.

Lemma kept_update top hc hc' sid : kept top hc hc' -> kept top hc (h2_auto_window_update hc' sid).2.
Proof.
  intros [Hw Hp]. apply (kept_trans _ _ _ _ Hp). apply kept_quiet; [done|]. apply quiet_update. apply Hw.
Qed.

Lemma goaway_done up top hc last err : conn_wf up top hc -> frame_done (Some (goaway hc last err)).
Proof.
  intros Hw. unfold goaway. pose proof (quiet_goaway hc last err (cw_calm _ _ _ Hw)) as Hq.
  destruct (conn_goaway last err hc) as [rc hc1]. cbn [snd] in Hq.
  cbn [frame_done]. eapply wf_stopped. by eapply wf_quiet.
Qed.

Lemma kept_reset top hc id err : conn_wf true top hc -> kept top hc (reset_stream hc id err).
Proof.
  intros Hw. unfold reset_stream. set (f := h2_write_frame _ _ _ _ _ _).
  pose proof (quiet_io f hc (cw_calm _ _ _ Hw) ltac:(apply calm_write_frame)) as [Hq _].
  destruct (on_io f hc) as [rc hc1]. cbn [snd] in Hq. apply kept_remove. by apply kept_quiet.
Qed.

Lemma kept_dispatch top hc id s :
  conn_wf true top hc -> h2_stream_find hc id = Some s ->
  (hs_has_content_length s = true -> forall r, hs_req s = Some r -> r.(req_content_length) = hs_received_content s) ->
  kept top hc (dispatch_request hc id).2.
Proof.
  intros Hw Hf Hlen. unfold dispatch_request. rewrite Hf.
  destruct (wf_find _ _ _ _ _ Hw Hf) as (_ & Hs & Hid & _).
  destruct (hs_req s) as [req|] eqn:Er; [|done].
  assert (Hok : call_ok (s, req)).
  { destruct (sw_body _ _ _ Hs req Er) as [B1 B2]. constructor; cbn [fst snd]; try done; [by intros H; apply Hlen|].
    intros Hc. by apply B2. }
  destruct (call_handler_spec top hc s req Hw ltac:(by rewrite Hid) Hok) as [H1 H2].
  destruct (call_handler hc s req) as [h hc1]. cbn [snd] in H1, H2. assert (Hk : kept top hc hc1) by done.
  destruct h as [| |rc]; cbn [snd]; [by apply kept_remove|done|].
  destruct (rc =? 1); [done|by apply kept_remove].
Qed.

Lemma matches_facts s r :
  h2_content_length_matches s = Some true -> hs_has_content_length s = true -> hs_req s = Some r ->
  r.(req_content_length) = hs_received_content s.
Proof.
  unfold h2_content_length_matches. intros Hm Hc Hr. rewrite Hc, Hr in Hm. cbn in Hm.
  injection Hm as Hm. by apply Z.eqb_eq.
Qed.

Lemma end_of_headers_spec top hc id :
  conn_wf true top hc ->
  match end_of_headers hc id with
  | None => nodefer = false
  | Some (_, hc') => kept top hc hc'
  end.
Proof.
  intros Hw. unfold end_of_headers. destruct (h2_stream_find hc id) as [s|] eqn:Ef; [|done].
  destruct (hs_req s) as [req|] eqn:Er; [|done].
  destruct (h2_content_length_matches s) as [[]|] eqn:Em.
  - pose proof (kept_dispatch top hc id s Hw Ef) as H. destruct (dispatch_request hc id) as [up hc1].
    apply H. intros Hc r Hr. by apply (matches_facts s r).
  - unfold h2_reject_content_length. by apply kept_reset.
  - unfold h2_content_length_matches in Em. rewrite Er in Em. by destruct (negb _).
Qed.

Lemma on_settings_spec hc flags payload :
  conn_wf true hc.(hc_last_processed_stream_id) hc -> bytes_ok payload ->
  frame_done (Some (on_settings hc flags payload)).
Proof.
  intros Hw Hb. unfold on_settings.
  assert (Hs : conn_wf true hc.(hc_last_processed_stream_id) (h2_handle_settings hc payload (has_flag flags FLAG_ACK)).2 /\
    same_place hc (h2_handle_settings hc payload (has_flag flags FLAG_ACK)).2).
  { unfold h2_handle_settings. destruct (has_flag _ _); [done|]. destruct (negb _); [done|].
    by apply settings_spec. }
  destruct (h2_handle_settings _ _ _) as [rc hc1]. cbn [snd] in Hs. destruct Hs as [Hw1 Hp1].
  destruct (negb (rc =? 0)); [by eapply goaway_done|].
  destruct (has_flag flags FLAG_ACK); [by eapply kept_done|].
  set (f := h2_write_frame _ _ _ _ _ _).
  pose proof (quiet_io f hc1 (cw_calm _ _ _ Hw1) ltac:(apply calm_write_frame)) as [Hq _].
  destruct (on_io f hc1) as [rc2 hc2]. cbn [snd] in Hq.
  eapply (kept_done _ hc); [done|]. apply (kept_trans _ _ _ _ Hp1). by apply kept_quiet.
Qed.

Lemma bytes_ok_drop n l : bytes_ok l -> bytes_ok (drop n l).
Proof. intros H. by apply Forall_drop. Qed.
Lemma bytes_ok_take n l : bytes_ok l -> bytes_ok (take n l).
Proof. intros H. by apply Forall_take. Qed.

Lemma strip_padding_ok flags payload block :
  bytes_ok payload -> strip_padding flags payload = Some block -> bytes_ok block /\ (length block <= length payload)%nat.
Proof.
  intros Hb. unfold strip_padding.
  set (u := if has_flag flags FLAG_PADDED then _ else _).
  assert (Hu : forall b, u = Some b -> bytes_ok b /\ (length b <= length payload)%nat).
  { intros b. unfold u. destruct (has_flag _ _); [destruct (_ || _); [done|]|]; intros [= <-].
    - unfold sub. split; [by apply bytes_ok_take, bytes_ok_drop|]. rewrite length_take, length_drop. lia.
    - done. }
  destruct u as [b|]; [|done]. destruct (Hu b eq_refl) as [H1 H2].
  destruct (has_flag _ _); [|by intros [= <-]]. destruct (_ <? _); [done|]. intros [= <-].
  split; [by apply bytes_ok_drop|]. rewrite length_drop. lia.
Qed.

Lemma on_headers_spec hc flags id payload :
  conn_wf true hc.(hc_last_processed_stream_id) hc -> bytes_ok payload -> blen payload < 2 ^ 32 ->
  0 <= id < 2147483648 -> frame_done (on_headers hc flags id payload).
Proof.
  intros Hw Hb Hl Hid. unfold on_headers.
  destruct (Z.eqb_spec id 0) as [|Hn0]; [by eapply goaway_done|].
  destruct (Z.eqb_spec (id mod 2) 0) as [|Hodd]; [by eapply goaway_done|]. cbn [orb].
  destruct (strip_padding flags payload) as [block|] eqn:Es; [|by eapply goaway_done].
  destruct (strip_padding_ok flags payload block Hb Es) as [Hb2 Hl2].
  set (top := Z.max (hc_last_processed_stream_id hc) id).
  pose proof (cw_last _ _ _ Hw) as Hlast. pose proof (cw_top _ _ _ Hw) as Htop.
  pose proof (wf_mono true (hc_last_processed_stream_id hc) top hc ltac:(unfold top; lia) Hw) as Hw1.
  assert (Hodd2 : id mod 2 = 1) by (pose proof (Z.mod_pos_bound id 2); lia).
  assert (Hlen2 : blen block < 2 ^ 32) by (unfold blen in *; eapply Z.le_lt_trans; [|exact Hl]; lia).
  destruct (begin_headers_spec top hc id block (has_flag flags FLAG_END_HEADERS) (has_flag flags FLAG_END_STREAM)
    Hw1 ltac:(unfold top; lia) Hodd2 Hb2 Hlen2) as (rc & hc1 & -> & Hw2 & Hl1 & Hrc).
  destruct (Z.ltb_spec rc 0) as [Hneg|Hpos]; [by eapply goaway_done|]. rewrite andb_true_r in Hw2.
  set (hc2 := if hc_last_processed_stream_id hc1 <? id then hc1 <| hc_last_processed_stream_id := id |> else hc1).
  assert (Hlast2 : hc_last_processed_stream_id hc2 = top).
  { unfold hc2, top. rewrite Hl1. destruct (Z.ltb_spec (hc_last_processed_stream_id hc) id); cbn; lia. }
  assert (Hw3 : conn_wf true top hc2).
  { unfold hc2. destruct (_ <? id); [|done].
    destruct Hw2 as [[] W2 W3 W4 W5 W6 W7 W8 W9 W10 W11 W12 W13]. constructor; try done. cbn. unfold top. lia. }
  assert (Hdone : frame_done (Some (true, hc2))) by (apply (kept_done top hc2); done).
  destruct (0 <? rc); [done|]. destruct (has_flag flags FLAG_END_STREAM); [|done].
  pose proof (end_of_headers_spec top hc2 id Hw3) as He.
  destruct (end_of_headers hc2 id) as [[up hc3]|]; [|done]. by apply (kept_done top hc2).
Qed.

Lemma on_continuation_spec hc flags id payload :
  conn_wf true hc.(hc_last_processed_stream_id) hc -> bytes_ok payload -> blen payload < 2 ^ 32 ->
  frame_done (on_continuation hc flags id payload).
Proof.
  intros Hw Hb Hl. unfold on_continuation. destruct (_ || _); [by eapply goaway_done|].
  destruct (continuation_spec _ hc id payload (has_flag flags FLAG_END_HEADERS) Hw Hb Hl) as (rc & hc1 & -> & Hw2 & Hl1 & Hrc).
  destruct (Z.ltb_spec rc 0) as [Hneg|Hpos]; [by eapply goaway_done|]. rewrite andb_true_r in Hw2.
  assert (Hdone : frame_done (Some (true, hc1))).
  { eexists. split; [exact Hw2|]. intros _. by rewrite Hl1. }
  destruct (0 <? rc); [done|]. destruct (has_flag flags FLAG_END_STREAM); [by eapply goaway_done|].
  destruct (_ && _); [|done].
  pose proof (end_of_headers_spec _ hc1 id Hw2) as He.
  destruct (end_of_headers hc1 id) as [[up hc3]|]; [|done]. by apply (kept_done (hc_last_processed_stream_id hc) hc1).
Qed.

End conn.
