(* ===== verification/H2Conn.v ===== *)
(** * The HTTP/2 connection: every frame and every turn of the loop

    The remaining frame handlers, the dispatcher, the serving loop, and what
    follows for a whole connection: the invariant, the requests handed to the
    handler, and that no NULL pointer is dereferenced unless the handler
    defers. *)

From S2P Require Import Prelude QueryMap SimdParser Http1 HttpResponse H2Wire H2Out H2FlowControl H2Budget.
From S2P Require Import HpackPrim Hpack HpackEncode H2State H2Send H2Recv H2Serve H2Quiet H2Inv.

Section conn.
Context {E : H2Env}.
Context (clean nodefer : bool) (Henv : env_ok clean nodefer).

Abbreviation conn_wf := (conn_wf clean nodefer).
Abbreviation stream_wf := (stream_wf clean nodefer).
Abbreviation settled := (settled clean nodefer).
Abbreviation frame_done := (frame_done clean nodefer).
Abbreviation kept := (kept clean nodefer).

(** ** DATA *)

(** Receive credit of a stream changes neither its id nor its send window. *)
Lemma stream_receive_same s fc' (n : Z) :
  fc' = default (hs_fc s) (stream_flow_control_receive (Some (hs_fc s)) n).1 \/
  fc' = default (hs_fc s) (stream_flow_control_consume (Some (hs_fc s)) n) ->
  stream_same s (s <| hs_fc := fc' |>).
Proof.
  intros [-> | ->]; constructor; try done; unfold stream_flow_control_receive, stream_flow_control_consume;
    try destruct (_ <? n); cbn; lia || done.
Qed.

Lemma data_credit_spec hc s len :
  calm hc -> stream_fine s -> is_u32 len ->
  let '(ok, hc', s') := data_credit hc s len in
  quiet hc hc' /\ hc_streams hc' = hc_streams hc /\ stream_same s s' /\ stream_fine s'.
Proof.
  intros Hc Hs Hn. unfold data_credit. destruct (0 <? len).
  2: { by split; [apply quiet_refl|]. }
  pose proof (conn_receive_ok _ _ (ca_fc _ Hc) Hn) as H1.
  destruct (flow_control_receive _ len) as [fc ok1]. cbn [fst] in H1.
  destruct (quiet_fc hc _ Hc H1) as [Hq1 _]. destruct ok1; cbn [negb]; [|done].
  pose proof (stream_receive_ok _ _ (sn_fc _ Hs) Hn) as H2.
  pose proof (stream_receive_same s _ len (or_introl eq_refl)) as S1.
  destruct (stream_flow_control_receive _ len) as [sfc ok2]. cbn [fst] in H2, S1.
  set (s1 := s <| hs_fc := default (hs_fc s) sfc |>) in *.
  assert (Hs1 : stream_fine s1) by (constructor; [done|apply Hs]).
  destruct ok2; cbn [negb]; [|done].
  set (hc1 := hc <| hc_fc := default (hc_fc hc) fc |>) in *.
  pose proof (conn_consume_ok (hc_fc hc1) len (ca_fc _ (qt_calm _ _ Hq1)) Hn) as H3.
  destruct (quiet_fc hc1 _ (qt_calm _ _ Hq1) H3) as [Hq2 _].
  split; [by eapply quiet_trans|]. split; [done|]. split.
  - etrans; [exact S1|]. apply (stream_receive_same s1 _ len). by right.
  - constructor; [|apply Hs]. by apply stream_consume_ok; [apply Hs1|].
Qed.

Lemma stray_data_spec hc len :
  conn_wf true hc.(hc_last_processed_stream_id) hc -> is_u32 len -> frame_done (Some (stray_data hc len)).
Proof.
  intros Hw Hn. unfold stray_data. pose proof (conn_receive_ok _ _ (ca_fc _ (cw_calm _ _ _ _ _ Hw)) Hn) as H1.
  destruct (flow_control_receive _ len) as [fc ok1]. cbn [fst] in H1.
  destruct (quiet_fc hc _ (cw_calm _ _ _ _ _ Hw) H1) as [Hq1 _].
  set (hc1 := hc <| hc_fc := default (hc_fc hc) fc |>) in *.
  pose proof (wf_quiet _ _ _ _ _ _ Hw Hq1) as Hw1. destruct ok1; cbn [negb]; [|by eapply goaway_done].
  pose proof (conn_consume_ok (hc_fc hc1) len (ca_fc _ (qt_calm _ _ Hq1)) Hn) as H3.
  destruct (quiet_fc hc1 _ (qt_calm _ _ Hq1) H3) as [Hq2 _].
  apply (kept_done _ _ (hc_last_processed_stream_id hc) hc); [done|]. apply kept_quiet; [done|].
  by eapply quiet_trans.
Qed.

(** A stream about to be taken out may have been rewritten before. *)
Lemma drop_put s l : drop_stream (hs_id s) (put_stream s l) = drop_stream (hs_id s) l.
Proof.
  induction l as [|x l IH]; cbn [put_stream drop_stream]; [done|].
  destruct (Z.eqb_spec (hs_id x) (hs_id s)) as [Hx|Hx]; cbn [drop_stream].
  - by rewrite Z.eqb_refl.
  - rewrite (proj2 (Z.eqb_neq _ _)) by done. by rewrite IH.
Qed.

Lemma find_put_none hc s :
  h2_stream_find hc (hs_id s) = None -> h2_stream_find (set_stream hc s) (hs_id s) = None.
Proof. rewrite !find_none. change (hc_streams (set_stream hc s)) with (put_stream s (hc_streams hc)). by rewrite put_ids. Qed.

Lemma remove_put hc s :
  h2_stream_find hc (hs_id s) <> None ->
  h2_stream_remove (set_stream hc s) (hs_id s) = h2_stream_remove hc (hs_id s).
Proof.
  intros Hf. unfold h2_stream_remove. destruct (h2_stream_find hc (hs_id s)) as [x|] eqn:Ef; [|done].
  rewrite (find_put hc x) by done.
  change (hc_streams (set_stream hc s)) with (put_stream s (hc_streams hc)). by rewrite drop_put.
Qed.

Lemma reset_put hc s err :
  h2_stream_find hc (hs_id s) <> None ->
  reset_stream (set_stream hc s) (hs_id s) err = reset_stream hc (hs_id s) err.
Proof.
  intros Hf. unfold reset_stream, on_io. change (hc_io (set_stream hc s)) with (hc_io hc).
  destruct (h2_write_frame _ _ _ _ _ _ (hc_io hc)) as [rc io].
  change ((set_stream hc s) <| hc_io := io |>) with (set_stream (hc <| hc_io := io |>) s).
  by rewrite remove_put.
Qed.

Lemma put_put s s' l : hs_id s = hs_id s' -> put_stream s' (put_stream s l) = put_stream s' l.
Proof.
  intros Hi. induction l as [|x l IH]; cbn [put_stream]; [done|]. rewrite Hi.
  destruct (Z.eqb_spec (hs_id x) (hs_id s')) as [Hx|Hx]; cbn [put_stream].
  - rewrite Hi. by rewrite Z.eqb_refl.
  - rewrite (proj2 (Z.eqb_neq _ _)) by done. by rewrite IH.
Qed.

Lemma set_set hc s s' : hs_id s = hs_id s' -> set_stream (set_stream hc s) s' = set_stream hc s'.
Proof.
  intros Hi. unfold set_stream. change (hc_streams (hc <| hc_streams := put_stream s (hc_streams hc) |>)) with
    (put_stream s (hc_streams hc)). by rewrite put_put.
Qed.

(** Data counted but not yet appended. *)
Definition counted (s : h2_stream) (data : bytes) : h2_stream :=
  s <| hs_received_content := u64 (s.(hs_received_content) + blen data) |>.

(** What appending leaves: the stream with the data counted and appended, or
    refused. *)
Lemma append_body_spec top hc s req data :
  conn_wf true top hc -> h2_stream_find hc (hs_id s) = Some s -> hs_req s = Some req ->
  let '(ok, hc', s') := append_body (set_stream hc (counted s data)) (counted s data) req data in
  hs_id s' = hs_id s /\
  if (ok : bool) then kept top hc (set_stream hc' s') /\ h2_stream_find (set_stream hc' s') (hs_id s) = Some s'
  else hc' = set_stream hc (counted s data) /\ s' = counted s data.
Proof.
  intros Hw Hf Hr. unfold append_body. destruct (wf_find _ _ _ _ _ _ _ Hw Hf) as (Hfine & Hs & _).
  fold (body_of req). destruct (Z.ltb_spec CWIST_HTTP_MAX_BODY_SIZE (blen (body_of req) + blen data)) as [|Hlim]; [done|].
  pose proof (fun Hc => cw_clean _ _ _ _ _ Hw Hc) as Hnil.
  destruct (quiet_on_alloc alloc hc (cw_calm _ _ _ _ _ Hw) eq_refl) as [Hq Hst].
  set (o := on_alloc alloc hc) in *.
  assert (Heq : on_alloc alloc (set_stream hc (counted s data)) = (o.1, set_stream o.2 (counted s data)) /\
    (io_alloc (hc_io hc) = [] -> o.1 = true)).
  { unfold o, on_alloc, on_io. change (hc_io (set_stream hc _)) with (hc_io hc).
    destruct (io_alloc (hc_io hc)) as [|x l]; by split. }
  destruct Heq as [-> Hok]. destruct o as [ok hc1]. cbn [fst snd] in *. split; [done|].
  rewrite set_set by done. set (req' := if ok then _ else req). set (s' := _ <| hs_req := Some req' |>).
  assert (Hf1 : h2_stream_find hc1 (hs_id s) = Some s) by (by rewrite (find_eq hc)).
  split; [|by apply (find_put hc1 s s')].
  apply (kept_trans _ _ _ _ hc1); [by apply quiet_place|]. split; [|done].
  apply (wf_put _ _ _ _ _ s); [by eapply wf_quiet|done|by destruct Hfine|].
  rewrite (qt_initial _ _ Hq). destruct Hs as [S1 S2 S3 S4 S5 S6]. destruct (S5 req Hr) as [B1 B2].
  constructor; try done. intros r [= <-]. unfold req', body_of in *. split.
  - destruct ok; cbn; [by rewrite blen_app|done].
  - intros Hc. rewrite (Hok (Hnil Hc)). destruct (B2 Hc) as [B3 B4]. split; [|exact B4].
    cbn. rewrite blen_app, B3, u64_id; [done|]. unfold CWIST_HTTP_MAX_BODY_SIZE in Hlim. unfold is_u64, blen in *. lia.
Qed.

Lemma end_of_data_spec top hc s :
  conn_wf true top hc -> h2_stream_find hc (hs_id s) = Some s ->
  match end_of_data hc s with
  | None => nodefer = false
  | Some (_, hc') => kept top hc hc'
  end.
Proof.
  intros Hw Hf. destruct (wf_find _ _ _ _ _ _ _ Hw Hf) as (_ & Hs & _). unfold end_of_data.
  destruct (h2_content_length_matches s) as [[]|] eqn:Em.
  - destruct (hs_req s) as [req|] eqn:Er.
    2: { destruct nodefer eqn:En; [|done]. by destruct (sw_live _ _ _ _ _ Hs eq_refl). }
    assert (Hok : call_ok clean (s, req)).
    { destruct (sw_body _ _ _ _ _ Hs req Er) as [B1 B2]. constructor; cbn [fst snd]; try done.
      - intros Hc. by apply (matches_facts s req).
      - intros Hc. by apply B2. }
    destruct (call_handler_spec clean nodefer Henv top hc s req Hw Hf Hok) as [H1 H2].
    destruct (call_handler hc s req) as [h hc1]. cbn [snd] in H1, H2. assert (Hk : kept top hc hc1) by done.
    destruct h as [| |rc]; [by apply kept_remove, kept_update|by apply kept_update|].
    destruct (negb (rc <? 0)), (rc =? 1); try apply kept_remove; by try apply kept_update.
  - unfold h2_reject_content_length. by apply kept_reset.
  - unfold h2_content_length_matches in Em. destruct (negb _); [done|]. destruct (hs_req s) eqn:Er; [done|].
    destruct nodefer eqn:En; [|done]. by destruct (sw_live _ _ _ _ _ Hs eq_refl).
Qed.

Lemma on_stream_data_spec top hc s flags data :
  conn_wf true top hc -> h2_stream_find hc (hs_id s) = Some s ->
  match on_stream_data hc s flags data with
  | None => nodefer = false
  | Some (_, hc') => kept top hc hc'
  end.
Proof.
  intros Hw Hf. destruct (wf_find _ _ _ _ _ _ _ Hw Hf) as (Hfine & Hs & _).
  assert (Hdead : hs_req s = None -> nodefer = false).
  { intros Hn. destruct nodefer eqn:En; [|done]. by destruct (sw_live _ _ _ _ _ Hs eq_refl). }
  assert (Hreset : forall err, kept top hc (reset_stream (set_stream hc (counted s data)) (hs_id s) err)).
  { intros err. change (hs_id s) with (hs_id (counted s data)). rewrite reset_put by (cbn; by rewrite Hf).
    by apply kept_reset. }
  unfold on_stream_data. fold (counted s data).
  destruct (over_content_length (counted s data)) as [[]|] eqn:Eo.
  { apply Hreset. }
  2: { apply Hdead. unfold over_content_length in Eo. destruct (hs_has_content_length _); [|done].
       change (hs_req (counted s data)) with (hs_req s) in Eo. by destruct (hs_req s). }
  set (finish hc' s' := if has_flag flags FLAG_END_STREAM then end_of_data hc' s'
                        else Some (true, (h2_auto_window_update hc' (Some (hs_id s'))).2)).
  assert (Hfin : forall hc' s', kept top hc hc' -> hs_id s' = hs_id s -> h2_stream_find hc' (hs_id s) = Some s' ->
    match finish hc' s' with None => nodefer = false | Some (_, hc') => kept top hc hc' end).
  { intros hc' s' Hk Hi Hf'. unfold finish. destruct (has_flag _ _); [|by apply kept_update].
    pose proof (end_of_data_spec top hc' s' (proj1 Hk) ltac:(by rewrite Hi)) as He.
    destruct (end_of_data hc' s') as [[up hc2]|]; [|done]. apply (kept_trans _ _ _ _ hc'); [apply Hk|done]. }
  destruct (0 <? blen data) eqn:El.
  - change (hs_req (counted s data)) with (hs_req s). destruct (hs_req s) as [req|] eqn:Er; [|by apply Hdead].
    pose proof (append_body_spec top hc s req data Hw Hf Er) as Ha.
    destruct (append_body _ _ req data) as [[ok hc1] s1]. destruct Ha as [Hi Ha]. destruct ok.
    + destruct Ha as [Hk Hf1]. by apply Hfin.
    + destruct Ha as [-> ->]. apply Hreset.
  - rewrite set_set by done. assert (Hd : blen data = 0) by (apply Z.ltb_ge in El; unfold blen in *; lia).
    apply Hfin; [|done|by apply (find_put hc s (counted s data))]. split; [|done].
    apply (wf_put _ _ _ _ _ s); [done|done|by destruct Hfine|]. destruct Hs as [S1 S2 S3 S4 S5 S6].
    constructor; try done. intros r Hr. destruct (S5 r Hr) as [B1 B2]. split; [done|]. intros Hc.
    destruct (B2 Hc) as [B3 B4]. split; [|done]. cbn. rewrite Hd, Z.add_0_r, B3, u64_id; [done|].
    unfold CWIST_HTTP_MAX_BODY_SIZE in B1. unfold is_u64, blen in *. lia.
Qed.

Lemma on_data_spec hc flags id payload :
  conn_wf true hc.(hc_last_processed_stream_id) hc -> is_u32 (blen payload) ->
  frame_done (on_data hc flags id payload).
Proof.
  intros Hw Hl. unfold on_data. destruct (id =? 0); [by eapply goaway_done|].
  destruct (data_payload flags payload) as [data|]; [|by eapply goaway_done].
  destruct (h2_stream_find hc id) as [s|] eqn:Ef; [|by apply stray_data_spec].
  destruct (wf_find _ _ _ _ _ _ _ Hw Ef) as (Hfine & Hs & Hid & _).
  pose proof (data_credit_spec hc s (blen payload) (cw_calm _ _ _ _ _ Hw) Hfine Hl) as Hd.
  destruct (data_credit hc s (blen payload)) as [[ok hc1] s1]. destruct Hd as (Hq & Hst & Hsame & Hfine1).
  assert (Hf1 : h2_stream_find hc1 (hs_id s1) = Some s) by (by rewrite (find_eq hc), (ss_id _ _ Hsame), Hid).
  assert (Hk : kept (hc_last_processed_stream_id hc) hc (set_stream hc1 s1)).
  { apply kept_quiet; [done|]. eapply quiet_trans; [exact Hq|]. by apply (quiet_put hc1 s); [apply Hq|..]. }
  destruct ok; cbn [negb]; [|eapply goaway_done; apply Hk].
  pose proof (on_stream_data_spec _ (set_stream hc1 s1) s1 flags data (proj1 Hk) (find_put hc1 s s1 Hf1)) as H.
  destruct (on_stream_data _ _ _ _) as [[up hc2]|]; [|done].
  apply (kept_done _ _ (hc_last_processed_stream_id hc) hc); [done|]. apply (kept_trans _ _ _ _ _ _ (proj2 Hk) H).
Qed.

(** ** RST_STREAM, PING, WINDOW_UPDATE *)

Lemma on_rst_stream_spec hc id payload :
  conn_wf true hc.(hc_last_processed_stream_id) hc -> frame_done (Some (on_rst_stream hc id payload)).
Proof.
  intros Hw. unfold on_rst_stream. destruct (_ || _); [by eapply goaway_done|].
  destruct (_ <? id); [by eapply goaway_done|].
  destruct (quiet_now_ms hc (cw_calm _ _ _ _ _ Hw)) as (Hn & Hq & _ & Hb).
  destruct (on_io h2_now_ms hc) as [now hc1]. cbn [fst snd] in *.
  destruct (ca_budgets _ (qt_calm _ _ Hq)) as [B1 B2 B3]. unfold h2_conn_consume_rst_budget.
  pose proof (consume_spec env_rst_burst env_rst_rate now _ (eo_limits _ _ Henv) B1 Hn) as Hs.
  destruct (consume _ _ _ _) as [ok c]. destruct Hs as [Hs _].
  set (hc2 := hc1 <| hc_budgets := _ |>).
  assert (Hq2 : quiet hc hc2).
  { eapply quiet_trans; [exact Hq|]. apply quiet_budgets; [apply Hq|]. by constructor. }
  destruct ok; cbn [negb]; [|eapply goaway_done; by eapply wf_quiet].
  apply (kept_done _ _ (hc_last_processed_stream_id hc) hc); [done|]. by apply kept_remove, kept_quiet.
Qed.

(** The PING budget: its limits are constants. *)
Lemma ping_budget_ok now b :
  budgets_ok b -> is_u64 now -> budgets_ok (h2_conn_consume_ping_budget now b).2.
Proof.
  intros [B1 B2 B3] Hn. unfold h2_conn_consume_ping_budget.
  pose proof (consume_spec CWIST_HTTP2_DEFAULT_PING_BURST CWIST_HTTP2_DEFAULT_PING_RATE now _
    ltac:(by split) B3 Hn) as Hs.
  destruct (consume _ _ _ _) as [ok c]. destruct Hs as [Hs _]. by constructor.
Qed.

Lemma on_ping_spec hc flags payload :
  conn_wf true hc.(hc_last_processed_stream_id) hc -> frame_done (Some (on_ping hc flags payload)).
Proof.
  intros Hw. pose proof (cw_calm _ _ _ _ _ Hw) as Hc. unfold on_ping. destruct (negb (blen payload =? 8)); [by eapply goaway_done|].
  set (last := hc_last_processed_stream_id hc) in *.
  assert (Hk : forall hc' (up : bool), quiet hc hc' -> frame_done (Some (up, hc'))).
  { intros hc' up Hq. apply (kept_done _ _ last hc); [done|]. by apply kept_quiet. }
  destruct (negb (has_flag flags FLAG_ACK)).
  - destruct (quiet_now_ms hc Hc) as (Hn & Hq & _ & Hb).
    destruct (on_io h2_now_ms hc) as [now hc1]. cbn [fst snd] in *.
    pose proof (ping_budget_ok now _ (ca_budgets _ (qt_calm _ _ Hq)) Hn) as Hbo.
    destruct (h2_conn_consume_ping_budget now (hc_budgets hc1)) as [ok b]. cbn [snd] in Hbo.
    set (hc2 := hc1 <| hc_budgets := b |>).
    assert (Hq2 : quiet hc hc2) by (eapply quiet_trans; [exact Hq|]; apply quiet_budgets; [apply Hq|done]).
    destruct ok; cbn [negb]; [|eapply goaway_done; by eapply wf_quiet].
    set (f := h2_write_frame _ _ _ _ _ _).
    destruct (quiet_io f hc2 (qt_calm _ _ Hq2) ltac:(apply calm_write_frame)) as [Hq3 _].
    destruct (on_io f hc2) as [rc hc3]. cbn [snd] in Hq3. apply Hk. by eapply quiet_trans.
  - destruct (_ && _); [|by apply Hk, quiet_refl].
    destruct (quiet_now hc Hc) as (Hn & Hq & _ & _). destruct (on_io h2_now_us hc) as [now hc1]. cbn [fst snd] in *.
    set (hc2 := hc1 <| hc_ping := _ |>). set (sample := u64 _).
    assert (Hq2 : quiet hc1 hc2) by (destruct (qt_calm _ _ Hq); by apply quiet_of).
    set (hc3 := if 0 <? sample then _ else hc2).
    assert (Hq3 : quiet hc2 hc3).
    { unfold hc3. destruct (0 <? sample); [|apply quiet_refl; apply Hq2]. apply quiet_fc; [apply Hq2|].
      pose proof (ca_fc _ (qt_calm _ _ Hq2)) as Hok.
      destruct (flow_control_update_rtt _ _) as [fc|] eqn:Eu; [|done].
      apply (update_rtt_ok (hc_fc hc2) sample fc Hok); [apply u64_range|done]. }
    pose proof (quiet_trans _ _ _ Hq (quiet_trans _ _ _ Hq2 Hq3)) as Hq4.
    apply Hk. destruct (hc_streams hc3); [done|]. eapply quiet_trans; [exact Hq4|]. apply quiet_ping. apply Hq4.
Qed.

Lemma on_window_update_done hc id payload :
  conn_wf true hc.(hc_last_processed_stream_id) hc -> bytes_ok payload ->
  frame_done (Some (on_window_update hc id payload)).
Proof.
  intros Hw Hb. unfold on_window_update. destruct (negb _); [by eapply goaway_done|].
  destruct (window_update_spec clean nodefer _ hc id payload Hw Hb) as [H1 H2].
  destruct (h2_handle_window_update hc id payload) as [rc hc1]. cbn [snd] in *.
  destruct (negb _); [by eapply goaway_done|]. by apply (kept_done _ _ (hc_last_processed_stream_id hc) hc).
Qed.

(** ** The dispatcher *)

Lemma on_frame_spec hc type flags id payload :
  conn_wf true hc.(hc_last_processed_stream_id) hc -> bytes_ok payload -> is_u32 (blen payload) ->
  0 <= id < 2147483648 -> frame_done (on_frame hc type flags id payload).
Proof.
  intros Hw Hb Hl Hid. unfold on_frame. assert (Hl2 : blen payload < 2 ^ 32) by apply Hl.
  destruct (type =? FRAME_SETTINGS); [by apply on_settings_spec|].
  destruct (type =? FRAME_HEADERS); [by apply on_headers_spec|].
  destruct (type =? FRAME_CONTINUATION); [by apply on_continuation_spec|].
  destruct (type =? FRAME_DATA); [by apply on_data_spec|].
  destruct (type =? FRAME_RST_STREAM); [by apply on_rst_stream_spec|].
  destruct (type =? FRAME_PING); [by apply on_ping_spec|].
  destruct (type =? FRAME_GOAWAY); [by eapply wf_stopped|].
  destruct (type =? FRAME_WINDOW_UPDATE); [by apply on_window_update_done|].
  by apply wf_settled.
Qed.

Lemma get_u31_range p i : 0 <= h2_get_u31 p i < 2147483648.
Proof.
  unfold h2_get_u31. change 2147483647 with (Z.ones 31). rewrite Z.land_ones by lia.
  apply (Z.mod_pos_bound _ 2147483648). lia.
Qed.

Lemma read_full_spec n input a rest :
  bytes_ok input -> h2_read_full n input = Some (a, rest) ->
  input = a ++ rest /\ length a = n /\ bytes_ok a /\ bytes_ok rest.
Proof.
  intros Hb. unfold h2_read_full. destruct (Nat.ltb_spec (length input) n); [done|]. intros [= <- <-].
  split; [by rewrite take_drop|]. split; [rewrite length_take; lia|]. split; [by apply Forall_take|by apply Forall_drop].
Qed.

(** What a step of the loop leaves. *)
Definition step_done (r : option (bool * h2_conn * bytes)) : Prop :=
  match r with
  | None => nodefer = false
  | Some (up, hc, input) => settled up hc /\ bytes_ok input
  end.

Lemma read_and_dispatch_spec hc input :
  conn_wf true hc.(hc_last_processed_stream_id) hc -> bytes_ok input -> step_done (read_and_dispatch hc input).
Proof.
  intros Hw Hb. unfold read_and_dispatch.
  assert (Hstop : settled false hc) by (eapply wf_stopped; exact Hw).
  destruct (h2_read_full _ input) as [[hdr rest]|] eqn:Er; [|by split; [|constructor]].
  destruct (read_full_spec _ _ _ _ Hb Er) as (_ & _ & Hbh & Hbr). cbn zeta.
  set (h := parse_frame_header hdr).
  destruct (Z.ltb_spec CWIST_HTTP2_MAX_FRAME_SIZE (fh_len h)) as [Hbig|Hlen].
  { pose proof (goaway_done clean nodefer _ _ hc (hc_last_processed_stream_id hc) H2_ERR_FRAME_SIZE_ERROR Hw) as H.
    unfold goaway_last. destruct (goaway _ _ _) as [up hc1]. by split. }
  destruct (_ && _).
  { pose proof (goaway_done clean nodefer _ _ hc (hc_last_processed_stream_id hc) H2_ERR_PROTOCOL_ERROR Hw) as H.
    unfold goaway_last. destruct (goaway _ _ _) as [up hc1]. by split. }
  assert (Ha : forall ok hc1, (if 0 <? fh_len h then on_alloc alloc hc else (true, hc)) = (ok, hc1) -> quiet hc hc1).
  { intros ok hc1. destruct (quiet_on_alloc alloc hc (cw_calm _ _ _ _ _ Hw) eq_refl) as [Hq _].
    destruct (0 <? fh_len h); intros Heq; [by rewrite Heq in Hq|].
    injection Heq as <- <-. apply quiet_refl, Hw. }
  destruct (if 0 <? fh_len h then _ else _) as [ok hc1]. specialize (Ha ok hc1 eq_refl).
  destruct ok; cbn [negb]; [|split; [|done]; eapply wf_stopped; by eapply wf_quiet].
  destruct (h2_read_full _ rest) as [[payload rest2]|] eqn:Ep.
  2: { split; [|constructor]. eapply wf_stopped; by eapply wf_quiet. }
  destruct (read_full_spec _ _ _ _ Hbr Ep) as (_ & Hpl & Hbp & Hbr2).
  destruct (quiet_now_ms hc1 (qt_calm _ _ Ha)) as (_ & Hq & _ & _).
  destruct (on_io h2_now_ms hc1) as [now hc2]. cbn [snd] in Hq. set (hc3 := hc2 <| hc_last_activity := now |>).
  assert (Hq3 : quiet hc hc3).
  { eapply quiet_trans; [exact Ha|]. eapply quiet_trans; [exact Hq|].
    destruct (qt_calm _ _ Hq). by apply quiet_of. }
  unfold CWIST_HTTP2_MAX_FRAME_SIZE in Hlen.
  pose proof (on_frame_spec hc3 (fh_type h) (fh_flags h) (fh_stream h) payload) as H.
  rewrite (qt_last _ _ Hq3) in H. specialize (H (wf_quiet _ _ _ _ _ _ Hw Hq3) Hbp
    ltac:(unfold is_u32, blen; lia) (get_u31_range _ _)).
  destruct (on_frame _ _ _ _ _) as [[up hc4]|]; [|done]. by split.
Qed.

(** ** Responses that waited *)

Lemma resume_spec top : forall ids hc, conn_wf true top hc -> kept top hc (resume_loop ids hc).2.
Proof.
  induction ids as [|id ids IH]; intros hc Hw; cbn [resume_loop]; [done|].
  destruct (_ ≫= _) as [res|]; [|by apply IH].
  destruct (response_wf clean nodefer Henv true top hc id res Hw) as [Hw1 Hp1].
  destruct (h2_send_response_hc hc id res) as [rc hc1]. cbn [snd] in Hw1, Hp1.
  assert (Hk : kept top hc hc1) by done.
  destruct (rc =? 1); [apply (kept_trans _ _ _ _ hc1); [done|by apply IH]|].
  pose proof (kept_remove _ _ _ _ _ id Hk) as Hk2. cbv zeta.
  destruct (negb (rc =? 0)); [done|]. apply (kept_trans _ _ _ _ (h2_stream_remove hc1 id)); [apply Hk2|].
  apply IH. apply Hk2.
Qed.

Lemma drain_spec top : forall l hc,
  (nodefer = true -> l = []) -> conn_wf true top hc -> kept top hc (drain_loop l hc).2.
Proof.
  induction l as [|[id res] l IH]; intros hc Hn Hw; cbn [drain_loop]; [done|].
  assert (Hn' : nodefer = true -> l = []) by (intros H; by specialize (Hn H)).
  destruct (h2_stream_find hc id) as [s|] eqn:Ef; [|by apply IH].
  destruct (quiet_on_alloc (h2_inject_alt_svc res) hc (cw_calm _ _ _ _ _ Hw) (alt_svc_nil _)) as [Hq1 Hst1].
  destruct (on_alloc (h2_inject_alt_svc res) hc) as [res1 hc1]. cbn [snd] in Hq1, Hst1.
  set (s1 := s <| hs_req := None |> <| hs_response := Some res1 |>).
  destruct (wf_find _ _ _ _ _ _ _ Hw Ef) as (Hfine & Hs & Hid & _).
  assert (Hk2 : kept top hc (set_stream hc1 s1)).
  { split; [|by apply (quiet_place hc hc1)]. apply (wf_put _ _ _ _ _ s); [by eapply wf_quiet| |by destruct Hfine|].
    - rewrite (find_eq hc) by done. change (hs_id s1) with (hs_id s). by rewrite Hid.
    - rewrite (qt_initial _ _ Hq1). destruct Hs. constructor; try done. intros H. by specialize (Hn H). }
  destruct (response_wf clean nodefer Henv true top _ id res1 (proj1 Hk2)) as [Hw3 Hp3].
  destruct (h2_send_response_hc _ id res1) as [rc hc3]. cbn [snd] in Hw3, Hp3.
  assert (Hk3 : kept top hc hc3) by (apply (kept_trans _ _ _ _ _ _ (proj2 Hk2)); done).
  destruct (rc =? 1); [apply (kept_trans _ _ _ _ hc3); [apply Hk3|by apply IH]|].
  pose proof (kept_remove _ _ _ _ _ id Hk3) as Hk4. cbv zeta.
  destruct (negb (rc =? 0)); [done|]. apply (kept_trans _ _ _ _ (h2_stream_remove hc3 id)); [apply Hk4|].
  apply IH; [done|]. apply Hk4.
Qed.

(** ** Turns *)

(** A handler that never defers completes nothing later. *)
Definition turn_ok (t : turn) : Prop :=
  match t.(tn_wait) with WaitAsync l => nodefer = true -> l = [] | _ => True end.

Definition turn_done (r : option (bool * h2_session * bytes)) : Prop :=
  match r with
  | None => nodefer = false
  | Some (up, st, input) => settled up st.(st_hc) /\ bytes_ok input
  end.

Lemma settled_quiet up hc hc' : settled up hc -> quiet hc hc' -> settled up hc'.
Proof.
  intros (top & Hw & Ht) Hq. exists top. split; [by eapply wf_quiet|]. by rewrite (qt_last _ _ Hq).
Qed.
Lemma settled_calm up hc : settled up hc -> calm hc.
Proof. intros (top & Hw & _). apply Hw. Qed.
Lemma settled_any up hc : settled true hc -> settled up hc.
Proof. intros (top & Hw & Ht). exists top. destruct up; [done|]. split; [by eapply wf_down|done]. Qed.
Lemma settled_wf hc : settled true hc -> conn_wf true hc.(hc_last_processed_stream_id) hc.
Proof. intros (top & Hw & Ht). by rewrite <- Ht. Qed.

Lemma kept_settled up top hc hc' :
  top = hc.(hc_last_processed_stream_id) -> kept top hc hc' -> settled up hc'.
Proof. intros Ht [Hw [Hl _]]. apply settled_any. exists top. split; [done|]. intros _. congruence. Qed.

Lemma announce_spec st now :
  settled true st.(st_hc) -> let '(up, st') := announce st now in settled up st'.(st_hc).
Proof.
  intros Hs. unfold announce. set (last := hc_last_processed_stream_id (st_hc st)).
  pose proof (quiet_goaway _ last H2_ERR_NO_ERROR (settled_calm _ _ Hs)) as Hq.
  destruct (conn_goaway _ _ _) as [rc hc1]. cbn [snd] in Hq.
  pose proof (settled_quiet _ _ _ Hs Hq) as Hs1. destruct (negb _); [by apply settled_any|].
  destruct now as [now|]; [done|].
  destruct (quiet_now_ms hc1 (settled_calm _ _ Hs1)) as (_ & Hq2 & _ & _).
  destruct (on_io h2_now_ms hc1) as [now hc2]. cbn [snd] in Hq2. by eapply settled_quiet.
Qed.

Lemma after_failed_wait_spec st d :
  settled true st.(st_hc) -> let '(up, st') := after_failed_wait st d in settled up st'.(st_hc).
Proof.
  intros Hs. unfold after_failed_wait.
  destruct (quiet_now_ms _ (settled_calm _ _ Hs)) as (_ & Hq & _ & _).
  destruct (on_io h2_now_ms _) as [now hc1]. cbn [snd] in Hq. pose proof (settled_quiet _ _ _ Hs Hq) as Hs1.
  destruct (_ && _); [done|]. destruct (_ && _); [by apply announce_spec|]. by apply settled_any.
Qed.

Lemma flush_quiet hc : calm hc -> quiet hc (on_io h2_out_flush hc).2.
Proof. intros Hc. apply quiet_io; [done|]. apply calm_flush. Qed.

Lemma wait_and_read_spec t st input :
  settled true st.(st_hc) -> bytes_ok input -> turn_ok t -> turn_done (wait_and_read t st input).
Proof.
  intros Hs Hb Ht. unfold wait_and_read.
  set (p := if hc_pacing_waiting (st_hc st) then _ else _).
  assert (Hp : quiet (st_hc st) p.2).
  { unfold p. destruct (hc_pacing_waiting _); [|apply quiet_refl; by eapply settled_calm].
    destruct (quiet_now_ms _ (settled_calm _ _ Hs)) as (_ & Hq & _ & _). by destruct (on_io h2_now_ms _). }
  destruct p as [d hc1]. cbn [snd] in Hp. pose proof (settled_quiet _ _ _ Hs Hp) as Hs1.
  pose proof (flush_quiet hc1 (settled_calm _ _ Hs1)) as Hq2.
  destruct (on_io h2_out_flush hc1) as [rc hc2]. cbn [snd] in Hq2. pose proof (settled_quiet _ _ _ Hs1 Hq2) as Hs2.
  set (st2 := st <| st_hc := hc2 |>).
  pose proof (after_failed_wait_spec st2 d Hs2) as Hf. destruct (after_failed_wait st2 d) as [up st3].
  assert (Hfail : turn_done (Some (up, st3, input))) by done. cbv zeta.
  destruct (negb _); [done|]. unfold turn_ok in Ht. destruct (tn_wait t) as [|done0|]; [| |done].
  - pose proof (read_and_dispatch_spec hc2 input (settled_wf _ Hs2) Hb) as H.
    by destruct (read_and_dispatch hc2 input) as [[[up2 hc3] input2]|].
  - pose proof (drain_spec _ done0 hc2 Ht (settled_wf _ Hs2)) as H. unfold h2_async_drain.
    destruct (drain_loop done0 hc2) as [rc2 hc3]. cbn [snd] in H. split; [|done]. by eapply kept_settled.
Qed.

Lemma serve_turn_spec t st input :
  settled true st.(st_hc) -> bytes_ok input -> turn_ok t -> turn_done (serve_turn t st input).
Proof.
  intros Hs Hb Ht. unfold serve_turn.
  set (a := if negb (st_sent_goaway st) && _ then announce st None else (true, st)).
  assert (Ha : settled a.1 a.2.(st_hc)).
  { unfold a. destruct (_ && _); [|done]. pose proof (announce_spec st None Hs) as H. by destruct (announce st None). }
  destruct a as [up st1]. cbn [fst snd] in Ha. destruct up; cbn [negb]; [|done].
  set (o := if st_sent_goaway st1 && _ then _ else (false, st_hc st1)).
  assert (Ho : quiet (st_hc st1) o.2).
  { unfold o. destruct (_ && _); [|apply quiet_refl; by eapply settled_calm].
    destruct (quiet_now_ms _ (settled_calm _ _ Ha)) as (_ & Hq & _ & _). by destruct (on_io h2_now_ms _). }
  destruct o as [over hc2]. cbn [snd] in Ho. pose proof (settled_quiet _ _ _ Ha Ho) as Hs2.
  destruct over; [split; [by apply settled_any|done]|].
  set (hc3 := hc2 <| hc_pacing_waiting := false |>).
  assert (Hs3 : settled true hc3).
  { apply (settled_quiet _ _ _ Hs2). destruct (settled_calm _ _ Hs2). by apply quiet_of. }
  pose proof (resume_spec _ (map hs_id (hc_streams hc3)) hc3 (settled_wf _ Hs3)) as Hr.
  unfold h2_resume_responses. destruct (resume_loop _ hc3) as [rc hc4]. cbn [snd] in Hr.
  assert (Hs4 : forall up, settled up hc4) by (intros up; by eapply kept_settled). cbv zeta.
  destruct (negb (rc =? 0)); [split; [apply Hs4|done]|]. set (st4 := st1 <| st_hc := hc4 |>).
  destruct (_ && _); [|by apply wait_and_read_spec; [apply Hs4|..]].
  pose proof (flush_quiet hc4 (settled_calm _ _ (Hs4 true))) as Hq5.
  destruct (on_io h2_out_flush hc4) as [rc5 hc5]. cbn [snd] in Hq5.
  pose proof (settled_quiet _ _ _ (Hs4 true) Hq5) as Hs5.
  destruct (negb (rc5 =? 0)); [split; [by apply settled_any|done]|].
  destruct (quiet_now_ms _ (settled_calm _ _ Hs5)) as (_ & Hq6 & _ & _).
  destruct (on_io h2_now_ms _) as [now hc6]. cbn [snd] in Hq6. pose proof (settled_quiet _ _ _ Hs5 Hq6) as Hs6.
  set (st6 := st4 <| st_hc := hc5 |> <| st_hc := hc6 |>).
  assert (Hw : turn_done (wait_and_read t st6 input)) by by apply wait_and_read_spec.
  destruct (tn_park t) as [expired|]; [|done]. destruct (_ <? env_idle_ms); [|done].
  unfold resume_parked. destruct expired; [|done].
  pose proof (announce_spec st6 None Hs6) as H. by destruct (announce st6 None) as [up7 st7].
Qed.

Lemma serve_loop_spec turns : forall st input,
  settled true st.(st_hc) -> bytes_ok input -> Forall turn_ok turns -> turn_done (serve_loop turns st input).
Proof.
  induction turns as [|t turns IH]; intros st input Hs Hb Ht; cbn [serve_loop]; [done|].
  apply Forall_cons_1 in Ht as [Ht1 Ht2]. pose proof (serve_turn_spec t st input Hs Hb Ht1) as H.
  destruct (serve_turn t st input) as [[[up st1] input1]|]; [|done]. destruct H as [Hs1 Hb1].
  destruct up; [by apply IH|]. split; [|done].
  apply (settled_quiet _ _ _ Hs1). apply flush_quiet. by eapply settled_calm.
Qed.

(** ** The start *)

Lemma init_wf io :
  Forall is_u64 io.(io_clock) -> (clean = true -> io.(io_alloc) = []) -> conn_wf true 0 (h2_conn_init io).
Proof.
  intros Hclk Hal. unfold h2_conn_init.
  pose proof (init_ok 0 CWIST_HTTP2_MAX_WINDOW zero_conn_fc
    (default zero_conn_fc (flow_control_init (Some zero_conn_fc) 0 CWIST_HTTP2_MAX_WINDOW))
    ltac:(unfold CWIST_HTTP2_MAX_WINDOW; lia) ltac:(unfold CWIST_HTTP2_MAX_WINDOW, is_u32; lia) eq_refl) as Hfc.
  set (fc := default _ _) in *. clearbody fc. cbv zeta. destruct (now_ms_spec io Hclk) as [Hn [Hc Ha]].
  destruct (h2_now_ms io) as [now io1]. cbn [fst snd] in *.
  destruct (eo_limits _ _ Henv) as (L1 & L2 & L3).
  constructor; try done; cbn; try (unfold CWIST_HTTP2_MAX_CONCURRENT_STREAMS, CWIST_HTTP2_MAX_WINDOW; lia).
  - constructor; cbn; try done; try by apply Hc.
    + destruct Hfc. destruct fc. constructor; cbn in *; unfold CWIST_HTTP2_MAX_WINDOW in *; done || lia.
    + constructor; constructor; cbn; unfold CWIST_HTTP2_DEFAULT_PING_BURST; done || lia.
  - constructor.
  - intros H. by apply Ha, Hal.
Qed.

Lemma start_spec io input :
  Forall is_u64 io.(io_clock) -> (clean = true -> io.(io_alloc) = []) -> bytes_ok input ->
  match start_connection io input with
  | None => True
  | Some (st, rest) => settled true st.(st_hc) /\ bytes_ok rest
  end.
Proof.
  intros Hclk Hal Hb. pose proof (init_wf io Hclk Hal) as Hw.
  assert (Hs : settled true (h2_conn_init io)).
  { exists 0. split; [done|]. unfold h2_conn_init. by destruct (h2_now_ms io). }
  unfold start_connection, cwist_http2_verify_preface.
  destruct (h2_read_full _ input) as [[b rest]|] eqn:Er; [|done].
  destruct (read_full_spec _ _ _ _ Hb Er) as (_ & _ & _ & Hbr). destruct (bool_decide _); [|done].
  set (f := h2_write_frame _ _ _ _ _ _).
  destruct (quiet_io f _ (settled_calm _ _ Hs) ltac:(apply calm_write_frame)) as [Hq1 _].
  destruct (on_io f _) as [rc hc1]. cbn [snd] in Hq1. pose proof (settled_quiet _ _ _ Hs Hq1) as Hs1.
  destruct (negb _); [done|]. set (g := h2_send_window_update _ _ _).
  destruct (quiet_io g _ (settled_calm _ _ Hs1) ltac:(apply calm_write_frame)) as [Hq2 _].
  destruct (on_io g _) as [rc2 hc2]. cbn [snd] in Hq2. pose proof (settled_quiet _ _ _ Hs1 Hq2) as Hs2.
  set (hc3 := hc2 <| hc_fc := _ |>).
  assert (Hq3 : quiet hc2 hc3).
  { apply quiet_fc; [by eapply settled_calm|]. destruct (ca_fc _ (settled_calm _ _ Hs2)).
    destruct (hc_fc hc2). constructor; cbn in *; unfold CWIST_HTTP2_MAX_WINDOW in *; done || lia. }
  pose proof (settled_quiet _ _ _ Hs2 Hq3) as Hs3. pose proof (quiet_ping hc3 (settled_calm _ _ Hs3)) as Hq4.
  destruct (h2_send_ping hc3) as [rc4 hc4]. cbn [snd] in Hq4. split; [|done]. by eapply settled_quiet.
Qed.

Lemma serve_spec io input turns :
  Forall is_u64 io.(io_clock) -> (clean = true -> io.(io_alloc) = []) -> bytes_ok input ->
  Forall turn_ok turns -> turn_done (cwist_http2_serve_connection io input turns).
Proof.
  intros Hclk Hal Hb Ht. unfold cwist_http2_serve_connection. pose proof (start_spec io input Hclk Hal Hb) as Hst.
  destruct (start_connection io input) as [[st rest]|].
  - destruct Hst. by apply serve_loop_spec.
  - split; [|done]. cbn [st_hc]. by eapply wf_stopped, init_wf.
Qed.

End conn.

(** ** Properties *)

(** C1: whatever bytes arrive, in whatever order the loop's waits end, allocations
    and writes fail and the clock reads, serving a connection either leaves a
    well-formed one (distinct odd stream ids up to the highest accepted, at most
    100 streams, counted exactly, every window and budget in range, the header
    block being assembled within its buffer, 64 KiB and 32 CONTINUATIONs, the
    header table within its capacity) or has dereferenced a NULL request, which
    cannot happen when the handler never defers. *)
Theorem connection_well_formed {E : H2Env} clean nodefer io input turns :
  env_ok clean nodefer -> Forall is_u64 io.(io_clock) -> (clean = true -> io.(io_alloc) = []) ->
  bytes_ok input -> Forall (turn_ok nodefer) turns ->
  match cwist_http2_serve_connection io input turns with
  | None => nodefer = false
  | Some (up, st, _) =>
      exists top, conn_wf clean nodefer up top st.(st_hc) /\
        (up = true -> top = st.(st_hc).(hc_last_processed_stream_id))
  end.
Proof.
  intros Henv Hclk Hal Hb Ht. pose proof (serve_spec clean nodefer Henv io input turns Hclk Hal Hb Ht) as H.
  destruct (cwist_http2_serve_connection io input turns) as [[[up st] rest]|]; [|done]. apply H.
Qed.

(** C2: every request the handler is given is complete: its body is at most
    10 MiB and, when the request declared a content length, exactly that long,
    as long as allocations succeed; when one fails the handler may get a shorter
    body, but what the peer sent was of the declared length. *)
Theorem requests_complete {E : H2Env} clean nodefer io input turns up st rest s r :
  env_ok clean nodefer -> Forall is_u64 io.(io_clock) -> (clean = true -> io.(io_alloc) = []) ->
  bytes_ok input -> Forall (turn_ok nodefer) turns ->
  cwist_http2_serve_connection io input turns = Some (up, st, rest) ->
  (s, r) ∈ st.(st_hc).(hc_calls) ->
  blen (default [] r.(req_body)) <= CWIST_HTTP_MAX_BODY_SIZE /\
  (hs_has_content_length s = true ->
     r.(req_content_length) = hs_received_content s /\
     (clean = true -> r.(req_content_length) = blen (default [] r.(req_body)))).
Proof.
  intros Henv Hclk Hal Hb Ht Hs Hin. pose proof (serve_spec clean nodefer Henv io input turns Hclk Hal Hb Ht) as H.
  rewrite Hs in H. destruct H as [(top & Hw & _) _]. pose proof (cw_calls _ _ _ _ _ Hw) as Hc.
  rewrite list.Forall_forall in Hc. destruct (Hc _ Hin) as [C1 C2 C3 C4]. cbn [fst snd] in *.
  split; [done|]. intros Hcl. split; [by apply C2|]. intros Hn. rewrite (C2 Hcl). by apply C4.
Qed.

(** ** Concrete connections *)

(** A handler that answers every request with [body], or defers it. *)
Definition demo_env (body : bytes) (defer : bool) : H2Env := {|
  env_batch := 65536; env_rst_burst := 100; env_rst_rate := 100; env_idle_ms := 5000; env_grace_ms := 2000;
  env_seed := replicate 16 0; env_http3_port := None; env_pread := fun _ _ _ => None;
  env_handler := fun req res => (req, res <| rs_body := Some body |>, defer)
|}.
Lemma demo_env_ok body clean : @env_ok (demo_env body false) clean true.
Proof. by constructor. Qed.

Definition demo_io : h2_io := MkIo [] 0 [] [] [] [1000000000].
Definition demo_frame (type flags id : Z) (p : bytes) : bytes := frame_bytes (MkH2Frame type flags id p).
(** [POST /] over https, with a content length of 5 or without one. *)
Definition demo_post : bytes := [131; 132; 135; 15; 13; 1; 53].
Definition demo_post_open : bytes := [131; 132; 135].
Abbreviation demo_serve env frames :=
  (@cwist_http2_serve_connection env demo_io
    (CWIST_HTTP2_CONNECTION_PREFACE ++ demo_frame FRAME_SETTINGS 0 0 [] ++ concat frames)
    (replicate (S (length frames)) (MkTurn true None WaitReadable))).
Definition demo_upload : list bytes :=
  [demo_frame FRAME_HEADERS FLAG_END_HEADERS 1 demo_post; demo_frame FRAME_DATA FLAG_END_STREAM 1 (bs "hello")].


Lemma demo_bytes frames : bytes_ok (concat frames) ->
  bytes_ok (CWIST_HTTP2_CONNECTION_PREFACE ++ demo_frame FRAME_SETTINGS 0 0 [] ++ concat frames).
Proof. intros H. repeat apply Forall_app_2; [..|done]; by apply (bool_decide_unpack _); vm_compute. Qed.
Lemma demo_clock : Forall is_u64 (io_clock demo_io).
Proof. constructor; [|constructor]. unfold is_u64. lia. Qed.
Lemma demo_turns_ok nodefer n : Forall (turn_ok nodefer) (replicate n (MkTurn true None WaitReadable)).
Proof. apply Forall_replicate. done. Qed.
Lemma demo_upload_ok : bytes_ok (concat demo_upload).
Proof. by apply (bool_decide_unpack _); vm_compute. Qed.

Lemma connection_well_formed_witness :
  match demo_serve (demo_env (bs "ok") false) demo_upload with
  | Some (up, st, _) => exists top, @conn_wf (demo_env (bs "ok") false) true true up top st.(st_hc) /\ (up = true -> top = 1)
  | None => False
  end.
Proof.
  pose proof (@connection_well_formed (demo_env (bs "ok") false) true true demo_io _ _
    (demo_env_ok (bs "ok") true) demo_clock ltac:(done) (demo_bytes _ demo_upload_ok) (demo_turns_ok true (S (length demo_upload)))) as H.
  destruct (cwist_http2_serve_connection _ _ _) as [[[up st] rest]|] eqn:Es; [|done].
  destruct H as (top & Hw & Ht). exists top. split; [exact Hw|]. intros Hu. rewrite (Ht Hu).
  revert Es. vm_compute. by intros [= _ <- _].
Defined.

Lemma demo_upload_served :
  match demo_serve (demo_env (bs "ok") false) demo_upload with
  | Some (_, st, _) =>
      match st.(st_hc).(hc_calls) with
      | [(s, r)] => hs_has_content_length s = true /\ req_body r = Some (bs "hello")
      | _ => False
      end
  | None => False
  end.
Proof. vm_compute. by split. Qed.

Lemma requests_complete_witness :
  match demo_serve (demo_env (bs "ok") false) demo_upload with
  | Some (_, st, _) =>
      exists s r, (s, r) ∈ st.(st_hc).(hc_calls) /\ r.(req_content_length) = blen (default [] r.(req_body)) /\
        req_body r = Some (bs "hello")
  | None => False
  end.
Proof.
  pose proof demo_upload_served as Hd.
  pose proof (fun up st rest s r => @requests_complete (demo_env (bs "ok") false) true true demo_io _ _ up st rest s r
    (demo_env_ok (bs "ok") true) demo_clock ltac:(done) (demo_bytes _ demo_upload_ok)
    (demo_turns_ok true (S (length demo_upload)))) as Hr.
  destruct (cwist_http2_serve_connection _ _ _) as [[[up st] rest]|]; [|done].
  destruct (hc_calls (st_hc st)) as [|[s r] [|]] eqn:Ec; try done. destruct Hd as [Hl Hb].
  assert (Hin : (s, r) ∈ hc_calls (st_hc st)) by (rewrite Ec; by apply list_elem_of_singleton).
  destruct (Hr up st rest s r eq_refl Hin) as [_ H]. destruct (H Hl) as [_ H2].
  exists s, r. split; [by apply list_elem_of_singleton|]. split; [by apply H2|done].
Defined.

(** ** What the code does at its edges *)

(** A handler that defers leaves its stream in the table without a request; a
    DATA frame for that stream then reads through the NULL pointer. *)
Example data_after_deferral_dereferences_null :
  demo_serve (demo_env [] true)
    [demo_frame FRAME_HEADERS (FLAG_END_HEADERS + FLAG_END_STREAM) 1 demo_post_open;
     demo_frame FRAME_DATA 0 1 (bs "x")] = None.
Proof. vm_compute. reflexivity. Qed.

(** While a response waits for credit its stream still takes END_STREAM: the
    handler is called again for the same request. *)
Example second_end_stream_calls_again :
  match demo_serve (demo_env (replicate (Z.to_nat 70000) 0) false)
    [demo_frame FRAME_HEADERS (FLAG_END_HEADERS + FLAG_END_STREAM) 1 demo_post_open;
     demo_frame FRAME_DATA FLAG_END_STREAM 1 []] with
  | Some (_, st, _) => map (fun c => hs_id c.1) st.(st_hc).(hc_calls) = [1; 1]
  | None => False
  end.
Proof. vm_compute. reflexivity. Qed.

(** Trailers that go on in a CONTINUATION: HEADERS with END_STREAM has the
    handler called before they are complete, and the stream, taken out of the
    table by then, is opened again (here RST_STREAM: no [:method]). *)
Example trailers_dispatch_early :
  match demo_serve (demo_env (bs "ok") false)
    [demo_frame FRAME_HEADERS FLAG_END_HEADERS 1 demo_post_open;
     demo_frame FRAME_HEADERS FLAG_END_STREAM 1 [15; 13; 1];
     demo_frame FRAME_CONTINUATION FLAG_END_HEADERS 1 [48]] with
  | Some (up, st, _) =>
      map (fun c => hs_id c.1) st.(st_hc).(hc_calls) = [1] /\
      match read_frames 20 (produced st.(st_hc).(hc_io)) with
      | (fs, _) => map (fun f => (f.1.(fh_type), f.1.(fh_stream))) (drop 4 fs) =
                   [(FRAME_HEADERS, 1); (FRAME_DATA, 1); (FRAME_RST_STREAM, 1)]
      end
  | None => False
  end.
Proof. vm_compute. by split. Qed.

(** The header block of a refused stream is not decoded: what it adds to the
    dynamic table is lost, and with it the meaning of later indices. *)
Example refused_block_not_decoded :
  let hc := (@h2_conn_init (demo_env [] false) demo_io) <| hc_active_streams := 100 |> in
  match @h2_begin_headers (demo_env [] false) hc 1 [64; 1; 97; 1; 98] true true with
  | Some (rc, hc') => rc = 1 /\ hc'.(hc_table) = hpack_init /\
      match h2_decode_header_block (replicate 16 0) hc.(hc_table) None [64; 1; 97; 1; 98] true [] with
      | Some (_, t, _, _) => length t.(hp_entries) = 1%nat
      | None => False
      end
  | None => False
  end.
Proof. vm_compute. done. Qed.

(** Without RST_STREAM credit the connection is told to go away twice. *)
Example goaway_sent_twice :
  match @cwist_http2_serve_connection
    {| env_batch := 65536; env_rst_burst := 1; env_rst_rate := 1; env_idle_ms := 5000; env_grace_ms := 2000;
       env_seed := replicate 16 0; env_http3_port := None; env_pread := fun _ _ _ => None;
       env_handler := fun req res => (req, res, false) |} demo_io
    (CWIST_HTTP2_CONNECTION_PREFACE ++ demo_frame FRAME_SETTINGS 0 0 [] ++
     demo_frame FRAME_HEADERS (FLAG_END_HEADERS + FLAG_END_STREAM) 1 [] ++
     demo_frame FRAME_HEADERS (FLAG_END_HEADERS + FLAG_END_STREAM) 3 [])
    (replicate 4 (MkTurn true None WaitReadable)) with
  | Some (up, st, _) => up = false /\
      match read_frames 20 st.(st_hc).(hc_io).(io_wire) with
      | (fs, _) => map (fun f => f.1.(fh_type)) (drop 4 fs) = [FRAME_RST_STREAM; FRAME_GOAWAY; FRAME_GOAWAY]
      end
  | None => False
  end.
Proof. vm_compute. by split. Qed.
