(* ===== verification/H2Deliver.v ===== *)
(** * The HTTP/2 connection: delivery of a response's body

    What a call of the response sender puts on the wire: the next piece of the
    body, in DATA frames the peer allows, within the credit it granted, with
    END_STREAM on the last frame of the body only. *)

From S2P Require Import Prelude QueryMap SimdParser Http1 HttpResponse H2Wire H2Out H2FlowControl H2Budget.
From S2P Require Import HpackPrim Hpack HpackEncode H2State H2Send H2Recv H2Serve H2Quiet H2Inv H2Conn.

(** ** The frames of a piece of a body *)

Fixpoint body_frames (id : Z) (finished : bool) (ps : list bytes) : list h2_frame :=
  match ps with
  | [] => []
  | [p] => [MkH2Frame FRAME_DATA (if finished then FLAG_END_STREAM else 0) id p]
  | p :: ps => MkH2Frame FRAME_DATA 0 id p :: body_frames id finished ps
  end.

Lemma frames_bytes_app a b : frames_bytes (a ++ b) = frames_bytes a ++ frames_bytes b.
Proof. unfold frames_bytes. by rewrite map_app, concat_app. Qed.

Lemma body_frames_cons id finished p ps :
  (ps = [] -> finished = false) ->
  body_frames id finished (p :: ps) = body_frames id false [p] ++ body_frames id finished ps.
Proof. intros H. destruct ps; [by rewrite H|done]. Qed.

Section conn.
Context {E : H2Env}.
Context (clean nodefer : bool) (Henv : env_ok clean nodefer).

(** [d] is the body behind a source; [pread] returns bytes of the file from the
    offset it is given, maybe fewer than it is asked for. *)
Definition source_bytes (b : body_source) (res : http_response) (d : bytes) : Prop :=
  match b with
  | BodyMemory x => x = d
  | BodyFile n => n = blen d /\
      forall k off p, env_pread res k off = Some p -> p `prefix_of` drop (Z.to_nat off) d
  end.

Lemma source_length b res d : source_bytes b res d -> source_len b = blen d.
Proof. destruct b; cbn [source_bytes source_len]; [by intros ->|by intros [-> _]]. Qed.

Lemma prefix_sub p d off : p `prefix_of` drop off d -> p = sub d off (length p).
Proof. intros [x Hx]. unfold sub. rewrite Hx. by rewrite take_app_length. Qed.

(** ** What the steps of a turn do to the output and the credit *)

Lemma produced_now hc : produced (hc_io (on_io h2_now_us hc).2) = produced (hc_io hc).
Proof.
  unfold on_io, h2_now_us, h2_now_ns. by destruct (io_clock (hc_io hc)) as [|t [|t' l]].
Qed.

Lemma produced_alloc {A} (f : oracle -> A * oracle) hc :
  produced (hc_io (on_alloc f hc).2) = produced (hc_io hc).
Proof. unfold on_alloc, on_io. by destruct (f (io_alloc (hc_io hc))). Qed.

(** Credit as the pacer counts it at the next reservation. *)
Definition affordable (fc : h2_conn_fc) (s : h2_stream) (n : Z) : Prop :=
  rtt_initialized fc = true -> n <= fc.(target_window) ->
  forall t, is_u64 t -> n <= send_credit (pacing_refill fc t) (hs_fc s).

Lemma allowance_affordable hc s n :
  calm hc -> stream_fine s -> is_u32 n ->
  let '(a, hc', _) := h2_send_allowance hc s n in
  produced (hc_io hc') = produced (hc_io hc) /\
  hc'.(hc_fc).(target_window) = hc.(hc_fc).(target_window) /\
  hc_pacing_waiting hc' = hc_pacing_waiting hc /\
  (0 < a -> forall k, k <= a -> affordable (hc_fc hc') s k) /\
  (hc.(hc_fc).(rtt_initialized) = false -> 0 < n -> 0 < hc.(hc_fc).(send_window) ->
     a = Z.min n (Z.min hc.(hc_fc).(send_window) (Z.max 0 (hs_fc s).(sf_send_window)))).
Proof.
  intros Hc Hs Hn. unfold h2_send_allowance. pose proof (ok_send _ (ca_fc _ Hc)) as Hsend.
  destruct (Z.leb_spec (sf_send_window (hs_fc s)) 0) as [Hle|Hgt].
  { split_and!; try done; lia. }
  set (a1 := if _ <? n then _ else n). set (a2 := if _ <? a1 then _ else a1).
  assert (Ha : a2 = Z.min n (Z.min (send_window (hc_fc hc)) (Z.max 0 (sf_send_window (hs_fc s))))).
  { unfold a2, a1. cases_ltb; lia. }
  destruct (rtt_initialized (hc_fc hc)) eqn:Er; cbn [andb].
  2: { split_and!; try done. intros _ k _ Hr. congruence. }
  destruct (Z.ltb_spec 0 a2) as [Hp|Hp]; [|split_and!; first [done|lia]].
  pose proof (produced_now hc) as Hprod. pose proof (quiet_now hc Hc) as (Hnow & Hq & _ & Hfc).
  assert (Hpw : hc_pacing_waiting (on_io h2_now_us hc).2 = hc_pacing_waiting hc) by
    (unfold on_io; by destruct (h2_now_us (hc_io hc))).
  destruct (on_io h2_now_us hc) as [now hc1]. cbn [fst snd] in *.
  rewrite Hfc, allowance_min, (proj2 (Z.leb_gt _ _)) by lia. cbn [default].
  set (fc := pacing_refill (hc_fc hc) now). set (paced := Z.min a2 _).
  change (hc_fc (hc1 <| hc_fc := id fc |>)) with fc.
  split; [exact Hprod|]. split; [apply refill_windows|]. split; [exact Hpw|]. split; [|done].
  intros _ k Hk _ Ht t Htt. assert (Hk2 : k <= paced) by (revert Hk; destruct (Z.ltb_spec paced a2); lia).
  pose proof (refill_ok (hc_fc hc) now (ca_fc _ Hc) Hnow) as Hr.
  pose proof (refill_tokens_mono fc t Hr Htt) as Hm. destruct (refill_windows fc t) as [Hw2 _].
  unfold paced, send_credit in *. lia.
Qed.

(** Both windows lose the bytes sent. *)
Lemma commit_debits hc s n :
  calm hc -> stream_fine s -> 0 <= n -> n <= (hs_fc s).(sf_send_window) -> n <= hc.(hc_fc).(send_window) ->
  affordable (hc_fc hc) s n ->
  let '(hc', s') := h2_commit_send hc s n in
  produced (hc_io hc') = produced (hc_io hc) /\ hs_id s' = hs_id s /\
  hc'.(hc_fc).(target_window) = hc.(hc_fc).(target_window) /\
  hc_pacing_waiting hc' = hc_pacing_waiting hc /\
  (hc.(hc_fc).(rtt_initialized) = false \/ n <= hc.(hc_fc).(target_window) ->
     hc'.(hc_fc).(send_window) = hc.(hc_fc).(send_window) - n /\
     (hs_fc s').(sf_send_window) = (hs_fc s).(sf_send_window) - n).
Proof.
  intros Hc Hs Hn Hsw Hcw Haf. pose proof (spent_commit hc s n Hc Hs Hn Hsw Hcw) as Hsp.
  unfold h2_commit_send in *. destruct (rtt_initialized (hc_fc hc)) eqn:Er.
  2: { destruct Hsp as (_ & _ & _ & _ & Hw). destruct (Hw eq_refl) as (H1 & H2 & _). split_and!; try done. }
  clear Hsp. pose proof (produced_now hc) as Hprod. pose proof (quiet_now hc Hc) as (Hnow & Hq & _ & Hfc).
  assert (Hpw : hc_pacing_waiting (on_io h2_now_us hc).2 = hc_pacing_waiting hc) by
    (unfold on_io; by destruct (h2_now_us (hc_io hc))).
  destruct (on_io h2_now_us hc) as [now hc1]. cbn [fst snd] in *. rewrite Hfc.
  pose proof (ok_send _ (ca_fc _ Hc)) as Hsend. unfold CWIST_HTTP2_MAX_WINDOW in Hsend.
  pose proof (reserve_cases (hc_fc hc) (hs_fc s) n now (ca_fc _ Hc) (sn_fc _ Hs) ltac:(unfold is_u32; lia) Hnow) as Hr.
  cbv zeta in Hr. rewrite Hr. destruct (refill_windows (hc_fc hc) now) as [Hw1 Hw2].
  destruct (Z.leb_spec (sf_send_window (hs_fc s)) 0) as [Hle|Hgt].
  { cbn [default]. split_and!; try done. intros _. cbn. lia. }
  destruct (decide _) as [Hok|Hno]; cbn [default].
  - split_and!; try done. intros _. split; [|done]. by rewrite <- Hw1.
  - split_and!; try done. intros [Hx|Ht]; [done|]. destruct Hno. by apply Haf.
Qed.

Lemma body_piece_delivers b res d n off hc :
  env_ok clean nodefer -> source_bytes b res d -> 0 < n -> 0 <= off -> n <= blen d - off ->
  let '(p, hc') := body_piece b res n off hc in
  produced (hc_io hc') = produced (hc_io hc) /\ hc_fc hc' = hc_fc hc /\
  hc_pacing_waiting hc' = hc_pacing_waiting hc /\
  forall data, p = Some data ->
    0 < blen data <= n /\ data = sub d (Z.to_nat off) (length data) /\
    match b with BodyMemory _ => blen data = n | BodyFile _ => True end.
Proof.
  intros He Hb Hn Ho Hl. unfold body_piece. destruct b as [x|len]; cbn [source_bytes] in Hb.
  - subst x. split; [done|]. split; [done|]. split; [done|]. intros data [= <-].
    assert (Hlen : blen (sub d (Z.to_nat off) (Z.to_nat n)) = n).
    { unfold sub, blen in *. rewrite length_take, length_drop. lia. }
    split; [lia|]. split; [|done]. unfold blen in Hlen. f_equal. lia.
  - destruct Hb as [-> Hp].
    assert (Hf : produced (hc_io (on_alloc alloc hc).2) = produced (hc_io hc) /\
      hc_fc (on_alloc alloc hc).2 = hc_fc hc /\ hc_pacing_waiting (on_alloc alloc hc).2 = hc_pacing_waiting hc).
    { split; [apply produced_alloc|]. unfold on_alloc, on_io. by destruct (alloc _) as [a al]. }
    destruct (on_alloc alloc hc) as [ok hc1]. cbn [snd] in Hf. destruct Hf as (H1 & H2 & H3).
    destruct ok; cbn [negb]; [|split_and!; done].
    destruct (env_pread res n off) as [data|] eqn:Er; [|split_and!; done].
    pose proof (eo_pread _ _ He _ _ _ _ Er) as Hmax. specialize (Hp _ _ _ Er).
    destruct (Z.eqb_spec (blen data) 0) as [H0|H0]; [split_and!; done|].
    split_and!; try done. intros data' [= <-]. split; [unfold blen in *; lia|]. split; [|done].
    by apply prefix_sub.
Qed.

(** ** One turn, and the loop *)

(** The bytes from the stream's old position to its new one are on the output,
    in frames, and paid for. *)
Record moved (grpc : bool) (d : bytes) (mf : Z) (hc : h2_conn) (s : h2_stream) (hc' : h2_conn) (s' : h2_stream)
    (ps : list bytes) : Prop := {
  mv_output : produced (hc_io hc') =
    produced (hc_io hc) ++ frames_bytes (body_frames (hs_id s) (negb grpc && (hs_response_sent s' =? blen d)) ps);
  mv_bytes : concat ps = sub d (Z.to_nat (hs_response_sent s)) (Z.to_nat (hs_response_sent s' - hs_response_sent s));
  mv_sizes : Forall (fun p => 0 < blen p <= mf) ps;
  mv_target : hc'.(hc_fc).(target_window) = hc.(hc_fc).(target_window);
  mv_rtt : hc'.(hc_fc).(rtt_initialized) = hc.(hc_fc).(rtt_initialized);
  mv_credit : hc.(hc_fc).(rtt_initialized) = false \/ mf <= hc.(hc_fc).(target_window) ->
    let n := hs_response_sent s' - hs_response_sent s in
    hc'.(hc_fc).(send_window) = hc.(hc_fc).(send_window) - n /\
    (hs_fc s').(sf_send_window) = (hs_fc s).(sf_send_window) - n /\
    (0 < n -> n <= hc.(hc_fc).(send_window) /\ n <= (hs_fc s).(sf_send_window))
}.

Lemma moved_none grpc d mf hc s hc' :
  produced (hc_io hc') = produced (hc_io hc) -> target_window (hc_fc hc') = target_window (hc_fc hc) ->
  rtt_initialized (hc_fc hc') = rtt_initialized (hc_fc hc) -> send_window (hc_fc hc') = send_window (hc_fc hc) ->
  moved grpc d mf hc s hc' s [].
Proof.
  intros H1 H2 H3 H4. constructor; try done; [by rewrite app_nil_r|by rewrite Z.sub_diag|intros _; lia].
Qed.

Lemma sub_join (d : bytes) a b c :
  0 <= a -> a <= b -> b <= c -> c <= blen d ->
  sub d (Z.to_nat a) (Z.to_nat (b - a)) ++ sub d (Z.to_nat b) (Z.to_nat (c - b)) = sub d (Z.to_nat a) (Z.to_nat (c - a)).
Proof.
  intros H0 H1 H2 H3. unfold sub. replace (Z.to_nat (c - a)) with (Z.to_nat (b - a) + Z.to_nat (c - b))%nat by lia.
  rewrite <- take_take_drop. f_equal. rewrite drop_drop. do 2 f_equal. lia.
Qed.

(** The end of a turn that stops: all output flushed, and why it stops. *)
Definition waiting (hc : h2_conn) (s : h2_stream) : Prop :=
  hc.(hc_fc).(send_window) = 0 \/ (hs_fc s).(sf_send_window) <= 0 \/ hc_pacing_waiting hc = true.

Lemma flush_return_delivers rc pacing hc :
  let '(o, hc') := flush_return rc pacing hc in
  o <> SentReturn (-1) ->
  o = SentReturn rc /\ produced (hc_io hc') = produced (hc_io hc) /\ hc_fc hc' = hc_fc hc /\
  io_out_buf (hc_io hc') = [] /\ (pacing = true -> hc_pacing_waiting hc' = true).
Proof.
  unfold flush_return, on_io. pose proof (flush_spec (hc_io hc)) as Hf.
  destruct (h2_out_flush (hc_io hc)) as [r io]. destruct Hf as (F1 & _ & F2 & _).
  destruct (Z.eqb_spec r 0) as [->|]; cbn [negb]; [|done]. intros _. specialize (F1 eq_refl). specialize (F2 eq_refl).
  destruct pacing; split_and!; done.
Qed.

Lemma write_data_output (fin : bool) id data hc :
  let f := MkH2Frame FRAME_DATA (if fin then FLAG_END_STREAM else 0) id data in
  let '(rc, hc') := on_io (h2_write_frame env_batch FRAME_DATA (if fin then FLAG_END_STREAM else 0) id
                             (Some data) (blen data)) hc in
  (rc = 0 -> produced (hc_io hc') = produced (hc_io hc) ++ frames_bytes (body_frames id fin [data])) /\
  hc_fc hc' = hc_fc hc /\ hc_pacing_waiting hc' = hc_pacing_waiting hc.
Proof.
  intros f. unfold on_io. pose proof (wrote_frame env_batch f (hc_io hc)) as Hw. cbn [f f_type f_flags f_stream f_payload] in Hw.
  destruct (h2_write_frame _ _ _ _ _ _ (hc_io hc)) as [rc io]. split_and!; try done.
  intros ->. apply wrote_all in Hw. cbn. rewrite Hw.
  unfold frames_bytes. cbn [map concat]. by rewrite app_nil_r.
Qed.

(** One frame of [n] bytes, written and paid for. *)
Lemma frame_moves grpc d mf hc s hc3 n data :
  calm hc3 -> stream_fine s -> produced (hc_io hc3) = produced (hc_io hc) ++
    frames_bytes (body_frames (hs_id s) (negb grpc && (hs_response_sent s + n =? blen d)) [data]) ->
  target_window (hc_fc hc3) = target_window (hc_fc hc) -> rtt_initialized (hc_fc hc3) = rtt_initialized (hc_fc hc) ->
  send_window (hc_fc hc3) = send_window (hc_fc hc) ->
  0 < n <= mf -> n <= (hs_fc s).(sf_send_window) -> n <= send_window (hc_fc hc3) -> affordable (hc_fc hc3) s n ->
  blen data = n -> data = sub d (Z.to_nat (hs_response_sent s)) (length data) ->
  let '(hc', s') := h2_commit_send hc3 (s <| hs_send_xor := Z.lxor s.(hs_send_xor) (h2_xor_bytes data) |>) n in
  moved grpc d mf hc s hc' (s' <| hs_response_sent := hs_response_sent s + n |>) [data].
Proof.
  intros Hc Hs Hp Ht Hr Hsw Hn H1 H2 Ha Hl Hd. set (s2 := s <| hs_send_xor := _ |>).
  pose proof (commit_debits hc3 s2 n Hc ltac:(by destruct Hs) ltac:(lia) H1 H2 Ha) as Hcm.
  pose proof (spent_commit hc3 s2 n Hc ltac:(by destruct Hs) ltac:(lia) H1 H2) as Hsp.
  destruct (h2_commit_send hc3 s2 n) as [hc' s']. destruct Hcm as (C1 & C2 & C3 & C4 & C5).
  destruct Hsp as (_ & _ & _ & Hrtt & _).
  set (s3 := s' <| hs_response_sent := _ |>). assert (Hs3 : hs_response_sent s3 = hs_response_sent s + n) by done.
  constructor; rewrite ?Hs3.
  - by rewrite C1.
  - cbn [concat]. rewrite app_nil_r. replace (hs_response_sent s + n - hs_response_sent s) with n by lia.
    rewrite Hd at 1. f_equal. rewrite <- Hl. unfold blen. by rewrite Nat2Z.id.
  - constructor; [lia|constructor].
  - congruence.
  - congruence.
  - intros Hx. destruct C5 as [C5 C6]; [destruct Hx; [left; congruence|right; lia]|].
    change (hs_fc s3) with (hs_fc s'). change (hs_fc s2) with (hs_fc s) in C6. cbv zeta. lia.
Qed.

Lemma turn_delivers grpc b res d mf hc s :
  calm hc -> stream_fine s -> source_bytes b res d -> 0 < mf < 4294967296 ->
  hs_response_sent s < blen d ->
  let '(o, hc', s') := data_turn grpc b res mf hc s in
  o <> Some (SentReturn (-1)) ->
  exists ps, moved grpc d mf hc s hc' s' ps /\
    match o with
    | None => hs_response_sent s < hs_response_sent s' <= blen d /\ exists p, ps = [p]
    | Some o => o = SentReturn 1 /\ hs_response_sent s' < blen d /\ io_out_buf (hc_io hc') = [] /\ waiting hc' s'
    end.
Proof.
  intros Hc Hs Hb Hm Hlt. pose proof (sn_sent _ Hs) as H0. unfold data_turn.
  rewrite (source_length _ _ _ Hb). set (off := hs_response_sent s) in *.
  destruct (_ || _) eqn:E0.
  { pose proof (flush_return_delivers 1 false hc) as H. destruct (flush_return 1 false hc) as [o hc1].
    intros Ho. destruct H as (-> & H1 & H2 & H3 & _); [congruence|]. exists [].
    split; [by apply moved_none; rewrite ?H2|].
    split_and!; try done. unfold waiting. rewrite H2. apply orb_true_iff in E0 as [E0|E0]; lia. }
  apply orb_false_iff in E0 as [E1 E2]. apply Z.eqb_neq in E1. apply Z.leb_gt in E2.
  pose proof (ok_send _ (ca_fc _ Hc)) as Hsend.
  set (chunk := u32 _). assert (Hch : 0 < chunk <= mf /\ chunk <= blen d - off).
  { unfold chunk. destruct (Z.ltb_spec mf (blen d - off)); rewrite u32_id by mlia; lia. }
  pose proof (allowance_affordable hc s chunk Hc Hs ltac:(mlia)) as Ha.
  pose proof (spent_send_allowance hc s chunk Hc Hs ltac:(mlia)) as Hq.
  destruct (h2_send_allowance hc s chunk) as [[a hc1] s1].
  destruct Ha as (A1 & A2 & A3 & A4 & _). destruct Hq as (Hq1 & -> & _ & Har & Hw & Q1 & Q2).
  destruct (Z.eqb_spec a 0) as [->|Hane].
  { pose proof (flush_return_delivers 1 true hc1) as H. destruct (flush_return 1 true hc1) as [o hc2].
    intros Ho. destruct H as (-> & H1 & H2 & H3 & H4); [congruence|]. exists [].
    split; [apply moved_none; rewrite ?H2; congruence|]. split_and!; try done. right. right. by apply H4. }
  assert (Ha : 0 < a <= chunk) by lia. destruct Hw as [Hw1 Hw2]; [lia|].
  pose proof (qt_calm _ _ (sp_quiet _ _ _ _ Hq1)) as Hc1.
  pose proof (body_piece_spec clean nodefer b res a off hc1 s Henv Hc1 Hs ltac:(lia) H0
    ltac:(rewrite (source_length _ _ _ Hb); lia)) as Hp1.
  pose proof (body_piece_delivers b res d a off hc1 Henv Hb ltac:(lia) H0 ltac:(lia)) as Hp2.
  destruct (body_piece b res a off hc1) as [[data|] hc2]; [|done].
  destruct Hp1 as (Hq2 & Hfc2 & _). destruct Hp2 as (P1 & _ & P3 & P4).
  destruct (P4 data eq_refl) as (Hlen & Hdata & Hsrc). clear P4.
  set (n := match b with BodyMemory _ => a | BodyFile _ => u32 (blen data) end).
  assert (Hn : n = blen data) by (unfold n; destruct b; [done|]; apply u32_id; unfold is_u32; lia).
  clearbody n. subst n. clear Hsrc.
  pose proof (write_data_output (negb grpc && (off + blen data =? blen d)) (hs_id s) data hc2) as Hwr.
  set (fin := negb grpc && (off + blen data =? blen d)) in *. cbv zeta in Hwr.
  set (wf := h2_write_frame _ _ _ _ _ _) in *.
  pose proof (spent_io wf hc2 s (qt_calm _ _ (sp_quiet _ _ _ _ Hq2)) Hs ltac:(apply calm_write_frame)) as Hq3.
  destruct (on_io wf hc2) as [rc hc3]. cbn [snd] in Hq3. destruct Hwr as (W1 & W2 & W3).
  destruct (Z.eqb_spec rc 0) as [->|]; cbn [negb]; [|done]. specialize (W1 eq_refl).
  pose proof (frame_moves grpc d mf hc s hc3 (blen data) data (qt_calm _ _ (sp_quiet _ _ _ _ Hq3)) Hs
    ltac:(rewrite W1, P1, A1; done) ltac:(rewrite W2, Hfc2; done) ltac:(rewrite W2, Hfc2; done)
    ltac:(rewrite W2, Hfc2; done) ltac:(lia) ltac:(lia) ltac:(rewrite W2, Hfc2; lia)
    ltac:(rewrite W2, Hfc2; apply A4; lia) eq_refl Hdata) as Hmv.
  destruct (h2_commit_send hc3 _ (blen data)) as [hc4 s4].
  set (s5 := s4 <| hs_response_sent := _ |>) in *. assert (Hs5 : hs_response_sent s5 = off + blen data) by done.
  destruct ((blen data <? chunk) && (0 <? send_window (hc_fc hc4)) && (0 <? sf_send_window (hs_fc s5))) eqn:Estop.
  - pose proof (flush_return_delivers 1 true hc4) as H. destruct (flush_return 1 true hc4) as [o hc5].
    intros Ho. destruct H as (-> & H1 & H2 & H3 & H4); [congruence|]. exists [data].
    apply andb_true_iff in Estop as [Estop _]. apply andb_true_iff in Estop as [Estop _]. apply Z.ltb_lt in Estop.
    split; [destruct Hmv; constructor; rewrite ?H2, ?H1; done|].
    split_and!; [done|lia|done|]. right. right. by apply H4.
  - intros _. exists [data]. split; [done|]. rewrite Hs5. split; [lia|]. by eexists.
Qed.

Lemma moved_cons grpc d mf hc s hc1 s1 hc2 s2 p ps :
  moved grpc d mf hc s hc1 s1 [p] -> moved grpc d mf hc1 s1 hc2 s2 ps -> hs_id s1 = hs_id s ->
  0 <= hs_response_sent s <= hs_response_sent s1 -> hs_response_sent s1 < blen d ->
  hs_response_sent s1 <= hs_response_sent s2 <= blen d ->
  moved grpc d mf hc s hc2 s2 (p :: ps).
Proof.
  intros [A1 A2 A3 A4 A5 A6] [B1 B2 B3 B4 B5 B6] Hi H1 H2 H3.
  constructor; [| |by apply Forall_cons_1 in A3 as [? _]; constructor|congruence|congruence|].
  - assert (Hf : (hs_response_sent s1 =? blen d) = false) by (apply Z.eqb_neq; lia).
    rewrite B1, A1, Hf, andb_false_r, Hi, <- app_assoc, <- frames_bytes_app, <- body_frames_cons; [done|].
    intros ->. cbn [concat] in B2. symmetry in B2. apply (f_equal length) in B2.
    unfold sub in B2. rewrite length_take, length_drop in B2. cbn [length] in B2. unfold blen in *.
    assert (hs_response_sent s2 = hs_response_sent s1) as -> by lia. by rewrite Hf, andb_false_r.
  - cbn [concat]. cbn [concat] in A2. rewrite app_nil_r in A2. rewrite A2, B2. apply sub_join; lia.
  - intros Hx. cbv zeta in *. destruct (A6 Hx) as (? & ? & ?).
    destruct B6 as (? & ? & ?); [destruct Hx; [left; congruence|right; congruence]|]. lia.
Qed.

(** The loop as the sender runs it: all the rest of the body, or as much of it
    as there is credit for. *)
Lemma loop_delivers fuel : forall grpc b res d mf hc s,
  calm hc -> stream_fine s -> source_bytes b res d -> 0 < mf < 4294967296 ->
  hs_response_sent s <= blen d -> (Z.to_nat (blen d - hs_response_sent s) <= fuel)%nat ->
  let '(o, hc', s') := data_loop fuel grpc b res mf hc s in
  o <> SentReturn (-1) ->
  exists ps, moved grpc d mf hc s hc' s' ps /\ hs_response_sent s <= hs_response_sent s' <= blen d /\
    hs_response_headers_sent s' = hs_response_headers_sent s /\
    match o with
    | SentAll => hs_response_sent s' = blen d
    | SentReturn rc => rc = 1 /\ hs_response_sent s' < blen d /\ io_out_buf (hc_io hc') = [] /\ waiting hc' s'
    end.
Proof.
  induction fuel as [|fuel IH]; intros grpc b res d mf hc s Hc Hs Hb Hm Hle Hf; cbn [data_loop];
    rewrite (source_length _ _ _ Hb); destruct (Z.ltb_spec (hs_response_sent s) (blen d)) as [Hlt|Hge]; cbn [negb];
    try lia; try (intros _; exists []; split; [by apply moved_none|split; [lia|split; [done|lia]]]).
  pose proof (sn_sent _ Hs) as H0.
  pose proof (turn_delivers grpc b res d mf hc s Hc Hs Hb Hm Hlt) as Ht.
  pose proof (data_turn_spec clean nodefer grpc b res mf hc s Henv Hc Hs Hm
    ltac:(rewrite (source_length _ _ _ Hb); lia)) as Hq.
  destruct (data_turn grpc b res mf hc s) as [[o hc1] s1]. destruct Hq as [[Hsp Hse Hh _] Ho].
  rewrite (source_length _ _ _ Hb) in Hse. destruct o as [o|].
  - intros Hne. destruct Ht as (ps & Hmv & -> & Hrest); [congruence|]. exists ps. split; [done|]. split; [lia|]. by split.
  - destruct (Ht ltac:(done)) as (ps & Hmv & Hgrow & p & ->).
    specialize (IH grpc b res d mf hc1 s1 (qt_calm _ _ (sp_quiet _ _ _ _ Hsp)) (sp_ok _ _ _ _ Hsp) Hb Hm
      ltac:(lia) ltac:(lia)).
    destruct (data_loop fuel grpc b res mf hc1 s1) as [[o hc2] s2] eqn:El. intros Hne.
    destruct (IH Hne) as (ps & Hmv2 & Hse2 & Hh2 & Hend).
    destruct (Z.eq_dec (hs_response_sent s1) (blen d)) as [Hfull|Hpart].
    + assert (ps = []) as ->.
      { pose proof (mv_bytes _ _ _ _ _ _ _ _ Hmv2) as Hb2. pose proof (mv_sizes _ _ _ _ _ _ _ _ Hmv2) as Hz.
        replace (hs_response_sent s2 - hs_response_sent s1) with 0 in Hb2 by lia.
        destruct ps as [|q ps]; [done|]. apply Forall_cons_1 in Hz as [Hz _]. cbn [concat] in Hb2.
        apply (f_equal length) in Hb2. unfold sub in Hb2. rewrite length_app, take_0 in Hb2. cbn [length] in Hb2.
        unfold blen in Hz. lia. }
      exists [p]. split; [|split; [lia|split; [congruence|done]]]. destruct Hmv as [A1 A2 A3 A4 A5 A6], Hmv2 as [B1 B2 B3 B4 B5 B6].
      assert (Heq : hs_response_sent s2 = hs_response_sent s1) by lia.
      constructor; rewrite ?Heq; try done; [|congruence|congruence|].
      * rewrite B1, A1. cbn [body_frames]. unfold frames_bytes at 2. cbn [map concat]. by rewrite app_nil_r.
      * intros Hx. cbv zeta in *. destruct (A6 Hx) as (? & ? & ?).
    destruct B6 as (? & ? & ?); [destruct Hx; [left; congruence|right; congruence]|]. lia.
    + exists (p :: ps). split; [|split; [lia|split; [congruence|done]]].
      apply (moved_cons _ _ _ _ _ hc1 s1); try done; try lia. by rewrite (ss_id _ _ (sp_same _ _ _ _ Hsp)).
Qed.


(** ** The sender *)

Lemma set_stream_io hc s : hc_io (set_stream hc s) = hc_io hc /\ hc_fc (set_stream hc s) = hc_fc hc /\
  hc_pacing_waiting (set_stream hc s) = hc_pacing_waiting hc.
Proof. done. Qed.

Lemma rest_delivers res d mf hc s :
  calm hc -> h2_stream_find hc (hs_id s) = Some s -> source_bytes (response_source false res) res d ->
  0 < mf < 4294967296 -> hs_response_sent s <= blen d ->
  let '(rc, hc') := send_rest hc s res false false mf in
  (rc = 0 \/ rc = 1 \/ rc = -1) /\
  (rc <> -1 ->
     exists ps s', h2_stream_find hc' (hs_id s) = Some s' /\ moved false d mf hc s hc' s' ps /\
       hs_response_headers_sent s' = hs_response_headers_sent s /\ io_out_buf (hc_io hc') = [] /\
       hs_response_sent s' <= blen d /\ (rc = 0 <-> hs_response_sent s' = blen d) /\ (rc = 1 -> waiting hc' s')).
Proof.
  intros Hc Hf Hb Hm Hle. destruct (stream_calm hc _ s Hc Hf) as (Hs & _ & _). pose proof (sn_sent _ Hs) as H0.
  unfold send_rest. rewrite (source_length _ _ _ Hb).
  pose proof (loop_delivers _ false (response_source false res) res d mf hc s Hc Hs Hb Hm Hle (Nat.le_refl _)) as Hl.
  pose proof (data_loop_spec clean nodefer (Z.to_nat (blen d - hs_response_sent s)) false (response_source false res)
    res mf hc s Henv Hc Hs Hm H0 ltac:(rewrite (source_length _ _ _ Hb); lia)) as Hq.
  destruct (data_loop _ _ _ _ _ _ _) as [[o hc1] s1]. destruct Hq as ([Hq Hst Hsame Hok1] & _ & Ho).
  assert (Hfind : h2_stream_find (set_stream hc1 s1) (hs_id s) = Some s1).
  { rewrite <- (ss_id _ _ Hsame). apply (find_put hc1 s). by rewrite (find_eq _ _ _ Hst), (ss_id _ _ Hsame). }
  cbv zeta. destruct o as [|rc].
  - destruct (Hl ltac:(done)) as (ps & Hmv & Hse & Hh & Hend). clear Hl Ho. unfold on_io.
    change (hc_io (set_stream hc1 s1)) with (hc_io hc1). pose proof (flush_spec (hc_io hc1)) as Hfl.
    destruct (h2_out_flush (hc_io hc1)) as [rc io]. destruct Hfl as (F1 & F2 & F3 & _).
    split; [destruct F2; auto|]. intros Hne. destruct F2 as [->|]; [|done]. exists ps, s1. split; [done|].
    split; [destruct Hmv; constructor; try done; by cbn; rewrite (F1 eq_refl)|].
    split_and!; try done; try lia. by apply F3.
  - split; [destruct Ho as [[? _]|[[= ->]|[= ->]]]; first [done|auto]|]. intros Hne.
    destruct (Hl ltac:(congruence)) as (ps & Hmv & Hse & Hh & -> & Hlt & Hout & Hwt).
    exists ps, s1. split; [done|]. split; [destruct Hmv; by constructor|].
    split_and!; try done; lia.
Qed.

End conn.

(** ** Properties *)

(** The frames of the response's header block on stream [id]. *)
Definition header_frames {E : H2Env} (res : http_response) (id mf : Z) (o : oracle) (hs : list h2_frame) : Prop :=
  exists block o1 fs ok o2,
    h2_encode_response_block res false o = (Some block, o1) /\
    h2_send_header_block block mf 0 [] = Some (fs, ok, o2) /\
    hs = map (fun f => MkH2Frame f.(fr_type) f.(fr_flags) id f.(fr_payload)) fs.

Lemma on_alloc_eq {A} (f : oracle -> A * oracle) hc :
  on_alloc f hc = ((f hc.(hc_io).(io_alloc)).1, (on_alloc f hc).2).
Proof. unfold on_alloc, on_io. by destruct (f (io_alloc (hc_io hc))). Qed.

Lemma headers_output {E : H2Env} res id mf hc block o1 :
  calm hc -> h2_encode_response_block res false hc.(hc_io).(io_alloc) = (Some block, o1) ->
  let hc1 := (on_alloc (h2_encode_response_block res false) hc).2 in
  let '(rc, hc') := send_header_block hc1 id block mf 0 in
  rc = 0 ->
  quiet hc hc' /\ hc_streams hc' = hc_streams hc /\ hc_fc hc' = hc_fc hc /\
  exists hs, header_frames res id mf hc.(hc_io).(io_alloc) hs /\
    produced (hc_io hc') = produced (hc_io hc) ++ frames_bytes hs.
Proof.
  intros Hc He. destruct (quiet_encode hc res false Hc) as [Hq Hst].
  pose proof (produced_alloc (h2_encode_response_block res false) hc) as Hp.
  assert (Hfc : hc_fc (on_alloc (h2_encode_response_block res false) hc).2 = hc_fc hc).
  { unfold on_alloc, on_io. by destruct (h2_encode_response_block _ _ _). }
  set (hc1 := (on_alloc _ hc).2) in *. cbv zeta.
  destruct (quiet_block hc1 id block mf 0 (qt_calm _ _ Hq)) as [Hq2 Hst2]. revert Hq2 Hst2.
  unfold send_header_block. destruct (h2_send_header_block block mf 0 []) as [[[fs ok] o2]|] eqn:Eb; [|done].
  set (hs := map _ fs). unfold on_io. pose proof (wrote_frames env_batch hs (hc_io hc1)) as Hw.
  destruct (write_frames env_batch hs (hc_io hc1)) as [rc io]. cbn [snd]. intros Hq2 Hst2 ->.
  split; [by eapply quiet_trans|]. split; [by rewrite Hst2|]. split; [done|].
  exists hs. split; [exists block, o1, fs, ok, o2; split; [exact He|split; [exact Eb|reflexivity]]|].
  apply wrote_all in Hw. cbn. rewrite Hw. by rewrite Hp.
Qed.

(** C3: one call of the response sender, for a response with a body that is not
    gRPC's.  Unless it fails, everything pending is on the wire and it has added
    exactly: the HEADERS (and CONTINUATION) frames of the response, the first
    time only; then the body from the byte where the last call stopped, in
    nonempty DATA frames no longer than the peer's maximum, the last of which has
    END_STREAM exactly when the body is complete.  It answers 0 exactly then, and
    1 with no credit left on connection or stream or with the pacer waiting.  The
    body bytes it sent were within both windows of the peer, which have lost as
    many (once pacing is calibrated: for frames of at most the pacing target). *)
Theorem response_delivered {E : H2Env} clean nodefer hc id s res d :
  env_ok clean nodefer -> calm hc -> h2_stream_find hc id = Some s ->
  h2_response_is_grpc res = false -> no_content s res = false ->
  source_bytes (response_source false res) res d -> 0 < blen d -> hs_response_sent s <= blen d ->
  let mf := if hc.(hc_peer_max_frame_size) =? 0 then CWIST_HTTP2_MAX_FRAME_SIZE else hc.(hc_peer_max_frame_size) in
  let '(rc, hc') := h2_send_response_hc hc id res in
  (rc = 0 \/ rc = 1 \/ rc = -1) /\
  (rc <> -1 ->
   exists hs ps s',
     h2_stream_find hc' id = Some s' /\ hs_response_headers_sent s' = true /\
     (if hs_response_headers_sent s then hs = [] else header_frames res id mf hc.(hc_io).(io_alloc) hs) /\
     io_out_buf (hc_io hc') = [] /\
     io_wire (hc_io hc') = produced (hc_io hc) ++ frames_bytes hs ++
       frames_bytes (body_frames id (hs_response_sent s' =? blen d) ps) /\
     concat ps = sub d (Z.to_nat (hs_response_sent s)) (Z.to_nat (hs_response_sent s' - hs_response_sent s)) /\
     Forall (fun p => 0 < blen p <= mf) ps /\
     (rc = 0 <-> hs_response_sent s' = blen d) /\ (rc = 1 -> waiting hc' s') /\
     (hc.(hc_fc).(rtt_initialized) = false \/ mf <= hc.(hc_fc).(target_window) ->
        let n := hs_response_sent s' - hs_response_sent s in
        (0 < n -> n <= hc.(hc_fc).(send_window) /\ n <= (hs_fc s).(sf_send_window)) /\
        hc'.(hc_fc).(send_window) = hc.(hc_fc).(send_window) - n /\
        (hs_fc s').(sf_send_window) = (hs_fc s).(sf_send_window) - n)).
Proof.
  intros He Hc Hf Hg Hn Hb Hd Hle mf. unfold h2_send_response_hc. rewrite Hf, Hg, Hn.
  fold mf. rewrite (source_length _ _ _ Hb), (proj2 (Z.eqb_neq _ _)) by lia. cbn [orb andb negb].
  destruct (stream_calm hc id s Hc Hf) as (Hs & <- & _).
  assert (Hm : 0 < mf < 4294967296).
  { unfold mf. pose proof (ca_frame _ Hc). destruct (Z.eqb_spec (hc_peer_max_frame_size hc) 0); [done|lia]. }
  assert (Hwire : forall io, io_out_buf io = [] -> produced io = io_wire io).
  { intros io Hio. unfold produced. by rewrite Hio, app_nil_r. }
  destruct (hs_response_headers_sent s) eqn:Eh.
  { pose proof (rest_delivers clean nodefer He res d mf hc s Hc Hf Hb Hm Hle) as H.
    destruct (send_rest _ _ _ _ _ _) as [rc hc']. destruct H as [H1 H2]. split; [done|]. intros Hr.
    destruct (H2 Hr) as (ps & s' & R1 & [] & R3 & R4 & R5 & R6 & R7). exists [], ps, s'.
    split_and!; try done; try congruence; try apply R6; [by rewrite <- Hwire|]. intros Hx. cbv zeta in *. tauto. }
  destruct (h2_encode_response_block res false (io_alloc (hc_io hc))) as [[block|] o1] eqn:Ee.
  2: { rewrite (on_alloc_eq (h2_encode_response_block res false) hc), Ee. split; [right; right; reflexivity|by intros []]. }
  pose proof (headers_output res (hs_id s) mf hc block o1 Hc Ee) as Ho. cbv zeta in Ho.
  rewrite (on_alloc_eq (h2_encode_response_block res false) hc), Ee. cbn [fst].
  set (hc0 := (on_alloc _ hc).2) in *. clearbody hc0.
  destruct (send_header_block hc0 _ _ _ _) as [rc0 hc1].
  destruct (Z.eqb_spec rc0 0) as [->|Hrc]; cbn [negb]; [|split; [right; right; reflexivity|by intros []]].
  destruct (Ho eq_refl) as (Hq & Hst & Hfc & hs & Hhs & Hp). clear Ho Ee. set (s1 := s <| hs_response_headers_sent := true |>).
  assert (Hf1 : h2_stream_find hc1 (hs_id s1) = Some s) by (rewrite (find_eq hc); done).
  assert (Hq1 : quiet hc1 (set_stream hc1 s1)).
  { apply (quiet_put hc1 s); [apply Hq|done|constructor; first [done | cbn; lia]|by destruct Hs]. }
  pose proof (rest_delivers clean nodefer He res d mf (set_stream hc1 s1) s1 (qt_calm _ _ Hq1)
    (find_put hc1 s s1 Hf1) Hb Hm Hle) as H.
  destruct (send_rest _ _ _ _ _ _) as [rc hc']. destruct H as [H1 H2]. split; [done|]. intros Hr.
  destruct (H2 Hr) as (ps & s' & R1 & [] & R3 & R4 & R5 & R6 & R7). exists hs, ps, s'.
  change (hc_fc (set_stream hc1 s1)) with (hc_fc hc1) in *. rewrite Hfc in *.
  split_and!; try assumption; try apply R6; [|intros Hx; cbv zeta in *; tauto].
  rewrite <- Hwire, mv_output0 by done. change (hc_io (set_stream hc1 s1)) with (hc_io hc1).
  by rewrite Hp, <- app_assoc.
Qed.

(** A GET waiting for its response. *)
Definition demo_get : h2_conn :=
  match @h2_begin_headers (demo_env (bs "ok") false) (@h2_conn_init (demo_env (bs "ok") false) demo_io) 1
          [130; 132; 135] true true with
  | Some (_, hc) => hc
  | None => @h2_conn_init (demo_env (bs "ok") false) demo_io
  end.
Definition demo_response : http_response :=
  (default (MkResponse 200 None None [] None true false [] false 0 None false false false false None 0 None [])
    (response_create []).1) <| rs_body := Some (bs "ok") |>.

Lemma demo_get_calm : @calm (demo_env (bs "ok") false) demo_get.
Proof.
  pose proof (@init_wf (demo_env (bs "ok") false) true true (demo_env_ok (bs "ok") true) demo_io demo_clock ltac:(done)) as Hw.
  pose proof (@begin_headers_spec (demo_env (bs "ok") false) true true (demo_env_ok (bs "ok") true) 1 _ 1 [130; 132; 135] true true
    (wf_mono true true true 0 1 _ ltac:(lia) Hw) ltac:(lia) eq_refl
    ltac:(apply bytes_okb_ok; reflexivity) ltac:(reflexivity)) as (rc & hc & H & Hc & _).
  unfold demo_get. rewrite H. apply Hc.
Qed.

Lemma response_delivered_witness :
  exists hs ps s', @h2_stream_find (@h2_send_response_hc (demo_env (bs "ok") false) demo_get 1 demo_response).2 1 = Some s' /\
    io_wire (hc_io (@h2_send_response_hc (demo_env (bs "ok") false) demo_get 1 demo_response).2) =
      [] ++ frames_bytes hs ++ frames_bytes (body_frames 1 (hs_response_sent s' =? 2) ps) /\
    concat ps = bs "ok".
Proof.
  destruct (@h2_stream_find demo_get 1) as [s|] eqn:Ef; [|exfalso; revert Ef; by vm_compute].
  assert (Hs : no_content s demo_response = false /\ hs_response_sent s = 0).
  { revert Ef. vm_compute. by intros [= <-]. }
  pose proof (@response_delivered (demo_env (bs "ok") false) true true demo_get 1 s demo_response (bs "ok")
    (demo_env_ok (bs "ok") true) demo_get_calm Ef eq_refl (proj1 Hs) eq_refl eq_refl
    ltac:(rewrite (proj2 Hs); vm_compute; discriminate)) as H.
  assert (Hrc : (@h2_send_response_hc (demo_env (bs "ok") false) demo_get 1 demo_response).1 = 0) by (vm_compute; reflexivity).
  cbv zeta in H. destruct (h2_send_response_hc demo_get 1 demo_response) as [rc hc']. cbn [fst snd] in *. subst rc.
  destruct H as [_ H]. destruct (H ltac:(done)) as (hs & ps & s' & R1 & _ & _ & _ & R5 & R6 & _ & R8 & _).
  exists hs, ps, s'. split; [done|]. split; [done|]. rewrite R6, (proj2 Hs), (proj1 R8 eq_refl). reflexivity.
Defined.
