(* ===== verification/H2Block.v ===== *)
(** * The HTTP/2 connection: header blocks split over CONTINUATION frames

    A header block that arrives in a HEADERS frame and CONTINUATIONs is handled
    as if it had come in one HEADERS frame: [continuation_equivalence]. *)

From S2P Require Import Prelude QueryMap SimdParser Http1 HttpResponse H2Wire H2Out H2FlowControl H2Budget.
From S2P Require Import HpackPrim Hpack HpackEncode H2State H2Send H2Recv H2Serve H2Quiet H2Inv H2Conn.

Section conn.
Context {E : H2Env}.

(** ** The block being assembled is nobody else's business *)

Definition with_cont (ct : h2_cont) (hc : h2_conn) : h2_conn := hc <| hc_cont := ct |>.
Definition lift {A} (ct : h2_cont) (r : A * h2_conn) : A * h2_conn := (r.1, with_cont ct r.2).

Lemma io_cont {A} (f : h2_io -> A * h2_io) ct hc : on_io f (with_cont ct hc) = lift ct (on_io f hc).
Proof. unfold on_io. change (hc_io (with_cont ct hc)) with (hc_io hc). by destruct (f (hc_io hc)). Qed.

Lemma alloc_cont {A} (f : oracle -> A * oracle) ct hc :
  on_alloc f (with_cont ct hc) = lift ct (on_alloc f hc).
Proof. apply io_cont. Qed.

Lemma remove_cont ct hc id : h2_stream_remove (with_cont ct hc) id = with_cont ct (h2_stream_remove hc id).
Proof.
  unfold h2_stream_remove. change (h2_stream_find (with_cont ct hc) id) with (h2_stream_find hc id).
  by destruct (h2_stream_find hc id).
Qed.

Lemma rst_cont ct hc id err :
  h2_send_rst_stream (with_cont ct hc) id err = lift ct (h2_send_rst_stream hc id err).
Proof.
  unfold h2_send_rst_stream. rewrite io_cont. destruct (on_io h2_now_ms hc) as [now hc1].
  cbn [lift fst snd]. change (hc_budgets (with_cont ct hc1)) with (hc_budgets hc1).
  destruct (h2_conn_consume_out_rst_budget _ _ _ _) as [ok b].
  set (hc2 := hc1 <| hc_budgets := b |>). change ((with_cont ct hc1) <| hc_budgets := b |>) with (with_cont ct hc2).
  change (hc_last_processed_stream_id (with_cont ct hc2)) with (hc_last_processed_stream_id hc2).
  destruct (negb ok); unfold conn_goaway; rewrite io_cont; [|done]. by destruct (on_io _ hc2).
Qed.

Lemma create_cont ct hc id :
  h2_stream_create (with_cont ct hc) id = lift ct (h2_stream_create hc id).
Proof.
  unfold h2_stream_create. change (hc_io (with_cont ct hc)) with (hc_io hc).
  by destruct (alloc (io_alloc (hc_io hc))) as [[] a].
Qed.

Lemma request_create_cont ct hc id :
  h2_request_stream_create (with_cont ct hc) id = lift ct (h2_request_stream_create hc id).
Proof.
  unfold h2_request_stream_create. change (hc_active_streams (with_cont ct hc)) with (hc_active_streams hc).
  destruct (_ <=? _).
  - rewrite rst_cont. destruct (h2_send_rst_stream hc id _) as [rc hc1]. cbn [lift fst snd].
    by destruct (rc =? -2).
  - rewrite create_cont. destruct (h2_stream_create hc id) as [[s|] hc1]; cbn [lift fst snd]; [|done].
    rewrite alloc_cont. destruct (on_alloc http_request_create hc1) as [[req|] hc2]; cbn [lift fst snd].
    + rewrite alloc_cont. by destruct (on_alloc _ hc2) as [v hc3].
    + by rewrite remove_cont.
Qed.

Lemma open_cont ct hc id : open_stream (with_cont ct hc) id = lift ct (open_stream hc id).
Proof.
  unfold open_stream. change (h2_stream_find (with_cont ct hc) id) with (h2_stream_find hc id).
  destruct (h2_stream_find hc id); [done|]. apply request_create_cont.
Qed.

Definition lift_opt {A} (ct : h2_cont) (r : option (A * h2_conn)) : option (A * h2_conn) :=
  match r with Some r => Some (lift ct r) | None => None end.

Lemma decode_cont ct hc s block request :
  h2_decode_stream_headers (with_cont ct hc) s block request =
  lift_opt ct (h2_decode_stream_headers hc s block request).
Proof.
  unfold h2_decode_stream_headers, decode_block.
  change (hc_table (with_cont ct hc)) with (hc_table hc). change (hc_io (with_cont ct hc)) with (hc_io hc).
  destruct (h2_decode_header_block _ _ _ _ _ _) as [[[[r table] t] a]|]; [|done].
  set (hc1 := set_stream (hc <| hc_table := table |> <| hc_io := _ |>) _).
  destruct r; [done| |done].
  change (h2_send_rst_stream _ (hs_id s) H2_ERR_PROTOCOL_ERROR) with
    (h2_send_rst_stream (with_cont ct hc1) (hs_id s) H2_ERR_PROTOCOL_ERROR) at 1.
  rewrite rst_cont. destruct (h2_send_rst_stream hc1 _ _) as [rc hc2].
  cbn [lift fst snd lift_opt]. by rewrite remove_cont.
Qed.

Lemma reject_cont ct hc id : reject_empty_block (with_cont ct hc) id = lift ct (reject_empty_block hc id).
Proof.
  unfold reject_empty_block. rewrite rst_cont. destruct (h2_send_rst_stream hc id _) as [rc hc1].
  cbn [lift fst snd]. by rewrite remove_cont.
Qed.

(** ** A whole block *)

(** What a complete block does, whichever frames it came in. *)
Definition whole_block (hc : h2_conn) (id : Z) (block : bytes) : option (Z * h2_conn) :=
  let is_new := bool_decide (h2_stream_find hc id = None) in
  let '(c, hc) := open_stream hc id in
  match c with
  | Created s =>
      if 0 <? blen block then h2_decode_stream_headers hc s block is_new
      else if is_new then Some (reject_empty_block hc id) else Some (0, hc)
  | c => Some (create_code c, hc)
  end.

Lemma whole_cont ct hc id block : whole_block (with_cont ct hc) id block = lift_opt ct (whole_block hc id block).
Proof.
  unfold whole_block. change (h2_stream_find (with_cont ct hc) id) with (h2_stream_find hc id).
  rewrite open_cont. destruct (open_stream hc id) as [c hc1]. cbn [lift fst snd].
  destruct c; try done. destruct (0 <? blen block); [apply decode_cont|].
  destruct (bool_decide _); [|done]. cbn [lift_opt]. by rewrite reject_cont.
Qed.

Lemma begin_whole hc id block es :
  ct_expecting (hc_cont hc) = false ->
  (h2_stream_find hc id = None -> hc_last_processed_stream_id hc < id) ->
  h2_begin_headers hc id block true es = whole_block hc id block.
Proof.
  intros He Hid. unfold h2_begin_headers, whole_block. rewrite He.
  destruct (bool_decide_reflect (h2_stream_find hc id = None)) as [Hn|Hn]; cbn [andb]; [|done].
  rewrite (proj2 (Z.leb_gt _ _)); [done|]. by apply Hid.
Qed.

(** ** The pieces *)

(** Part of a block has arrived, in HEADERS and [k] CONTINUATIONs. *)
Definition assembling (hc : h2_conn) (id : Z) (es : bool) (part : bytes) (cap k : Z) : h2_conn :=
  with_cont (MkCont (Some part) (blen part) cap id true es false k) hc.

Lemma take_blen l : take (Z.to_nat (blen l)) l = l.
Proof. unfold blen. rewrite Nat2Z.id. apply firstn_all. Qed.

Lemma alloc_always hc : hc.(hc_io).(io_alloc) = [] -> on_alloc alloc hc = (true, hc).
Proof.
  intros H. unfold on_alloc, on_io. rewrite H. cbn [alloc]. rewrite <- H.
  destruct hc as [[] ? ? ? ? ? ? ? ? ? ? ? ? ? ?]. done.
Qed.

Lemma begin_split hc id part es :
  hc.(hc_io).(io_alloc) = [] -> ct_expecting (hc_cont hc) = false ->
  (h2_stream_find hc id = None ->
     hc_last_processed_stream_id hc < id /\ hc_active_streams hc < CWIST_HTTP2_MAX_CONCURRENT_STREAMS) ->
  blen part <= CWIST_HTTP2_MAX_HEADER_BLOCK_SIZE ->
  exists cap, h2_begin_headers hc id part false es = Some (0, assembling hc id es part cap 0).
Proof.
  intros Ha He Hid Hl. unfold h2_begin_headers. rewrite He.
  assert (Hnew : forall b, bool_decide (h2_stream_find hc id = None) && b =
    if bool_decide (h2_stream_find hc id = None) then b else false) by (intros; by destruct (bool_decide _)).
  rewrite !Hnew. rewrite (proj2 (Z.ltb_ge _ _)) by done. rewrite alloc_always by done. cbn [negb].
  exists (if blen part <? 1024 then 1024 else blen part * 2).
  destruct (bool_decide_reflect (h2_stream_find hc id = None)) as [Hn|Hn]; [|done].
  destruct (Hid Hn). rewrite (proj2 (Z.leb_gt _ _)) by done. by rewrite (proj2 (Z.leb_gt _ _)).
Qed.

(** The counter, the limits and the growing buffer on one more fragment. *)
Lemma cont_step hc id es part cap k c (last : bool) :
  hc.(hc_io).(io_alloc) = [] -> 0 <= k < CWIST_HTTP2_MAX_CONTINUATIONS ->
  blen part + blen c <= CWIST_HTTP2_MAX_HEADER_BLOCK_SIZE ->
  exists cap', h2_handle_continuation (assembling hc id es part cap k) id c last =
    if last then finish_block (assembling hc id es (part ++ c) cap' (k + 1))
    else Some (0, assembling hc id es (part ++ c) cap' (k + 1)).
Proof.
  intros Ha Hk Hl. set (hc0 := assembling hc id es part cap k). unfold h2_handle_continuation.
  change (ct_expecting (hc_cont hc0)) with true. change (ct_stream_id (hc_cont hc0)) with id.
  rewrite Z.eqb_refl. cbn [negb orb]. cbv zeta.
  set (hc1 := hc0 <| hc_cont := _ |>). assert (H1 : hc1 = assembling hc id es part cap (k + 1)).
  { unfold hc1. change (ct_frame_count (hc_cont hc0)) with k. rewrite u32_id; [done|].
    unfold CWIST_HTTP2_MAX_CONTINUATIONS in Hk. unfold is_u32. lia. }
  clearbody hc1. subst hc1. change (ct_frame_count (hc_cont (assembling hc id es part cap (k + 1)))) with (k + 1).
  change (ct_len (hc_cont (assembling hc id es part cap (k + 1)))) with (blen part).
  change (ct_discard (hc_cont (assembling hc id es part cap (k + 1)))) with false.
  rewrite (proj2 (Z.ltb_ge _ _)) by lia. rewrite (proj2 (Z.ltb_ge _ _)) by lia.
  assert (Happ : exists cap', (if 0 <? blen c then cont_append (assembling hc id es part cap (k + 1)) c
      else (true, assembling hc id es part cap (k + 1))) = (true, assembling hc id es (part ++ c) cap' (k + 1))).
  { destruct (Z.ltb_spec 0 (blen c)) as [Hp|Hp].
    2: { exists cap. destruct c; [by rewrite app_nil_r|]. unfold blen in Hp. cbn [length] in Hp. lia. }
    unfold cont_append. set (ct := hc_cont _). change (ct_cap ct) with cap. change (ct_len ct) with (blen part).
    change (ct_buf ct) with (Some part). cbn [default]. rewrite take_blen.
    rewrite alloc_always by done. exists (if cap <? blen part + blen c then grow 64 (u64 (cap * 2)) (blen part + blen c) else cap).
    unfold assembling at 3. rewrite blen_app. by destruct (cap <? _). }
  destruct Happ as [cap' ->]. exists cap'. by destruct last.
Qed.

(** The last fragment decodes what was put together. *)
Lemma finish_whole hc id es part cap k :
  exists ct, ct_expecting ct = false /\
    finish_block (assembling hc id es part cap k) = lift_opt ct (whole_block hc id part).
Proof.
  unfold finish_block. set (hc0 := assembling hc id es part cap k). set (ct := hc_cont hc0).
  change (ct_stream_id ct) with id. change (ct_buf ct) with (Some part). change (ct_len ct) with (blen part).
  cbv iota zeta. rewrite take_blen.
  exists (MkCont (Some part) 0 cap 0 false es false 0). split; [done|].
  pose proof (whole_cont ct hc id part) as Hw. unfold whole_block in Hw at 1.
  change (with_cont ct hc) with hc0 in Hw. destruct (open_stream hc0 id) as [c hc1].
  set (r := match c with Created _ => _ | _ => _ end).
  assert (Hr : r = lift_opt ct (whole_block hc id part)) by (by rewrite <- Hw; destruct c).
  rewrite Hr. by destruct (whole_block hc id part) as [[rc hc2]|].
Qed.

(** The CONTINUATIONs of a block, the last one with END_HEADERS; the loop stops
    at a result other than 0. *)
Fixpoint feed (hc : h2_conn) (id : Z) (c : bytes) (cs : list bytes) : option (Z * h2_conn) :=
  match cs with
  | [] => h2_handle_continuation hc id c true
  | c' :: cs =>
      match h2_handle_continuation hc id c false with
      | Some (rc, hc) => if rc =? 0 then feed hc id c' cs else Some (rc, hc)
      | None => None
      end
  end.

Lemma feed_whole id es hc : forall cs c part cap k,
  hc.(hc_io).(io_alloc) = [] -> 0 <= k -> k + Z.of_nat (length (c :: cs)) <= CWIST_HTTP2_MAX_CONTINUATIONS ->
  blen part + blen (concat (c :: cs)) <= CWIST_HTTP2_MAX_HEADER_BLOCK_SIZE ->
  exists ct, ct_expecting ct = false /\
    feed (assembling hc id es part cap k) id c cs = lift_opt ct (whole_block hc id (part ++ concat (c :: cs))).
Proof.
  induction cs as [|c' cs IH]; intros c part cap k Ha Hk Hn Hl; cbn [feed].
  - cbn [concat length] in *. rewrite app_nil_r in *.
    destruct (cont_step hc id es part cap k c true Ha ltac:(lia) Hl) as [cap' ->]. apply finish_whole.
  - cbn [concat length] in *. rewrite blen_app in Hl.
    pose proof (blen_nonneg (c' ++ concat cs)).
    destruct (cont_step hc id es part cap k c false Ha ltac:(lia) ltac:(lia)) as [cap' ->]. cbn [Z.eqb].
    destruct (IH c' (part ++ c) cap' (k + 1) Ha) as (ct & H1 & H2).
    + lia.
    + cbn [length]. lia.
    + cbn [concat]. rewrite blen_app. lia.
    + exists ct. split; [done|]. rewrite H2. cbn [concat]. by rewrite <- app_assoc.
Qed.

End conn.

(** ** Properties *)

(** C4: the assembly of header blocks.  Provided memory is found and the limits
    hold (32 CONTINUATIONs, 64 KiB together, a new stream below the concurrency
    limit), a block that comes in pieces cut anywhere, empty ones included,
    through [h2_begin_headers] without END_HEADERS and then
    [h2_handle_continuation], leaves the same result, stream table, HPACK table,
    budgets and output as [h2_begin_headers] given the whole block; only the
    assembly buffer's fields differ, and no CONTINUATION is expected any more.
    (What the dispatcher does around them is not the same for trailers, whose
    END_STREAM it acts on at the HEADERS frame: [H2Conn.trailers_dispatch_early].) *)
Theorem continuation_equivalence {E : H2Env} hc id es first c cs :
  hc.(hc_io).(io_alloc) = [] -> ct_expecting (hc_cont hc) = false ->
  (h2_stream_find hc id = None ->
     hc_last_processed_stream_id hc < id /\ hc_active_streams hc < CWIST_HTTP2_MAX_CONCURRENT_STREAMS) ->
  Z.of_nat (length (c :: cs)) <= CWIST_HTTP2_MAX_CONTINUATIONS ->
  blen (first ++ concat (c :: cs)) <= CWIST_HTTP2_MAX_HEADER_BLOCK_SIZE ->
  exists hc1 ct,
    h2_begin_headers hc id first false es = Some (0, hc1) /\ ct_expecting ct = false /\
    feed hc1 id c cs =
      match h2_begin_headers hc id (first ++ concat (c :: cs)) true es with
      | Some (rc, hc2) => Some (rc, hc2 <| hc_cont := ct |>)
      | None => None
      end.
Proof.
  intros Ha He Hid Hn Hl. rewrite blen_app in Hl. pose proof (blen_nonneg (concat (c :: cs))).
  destruct (begin_split hc id first es Ha He Hid ltac:(lia)) as [cap H0].
  destruct (feed_whole id es hc cs c first cap 0 Ha ltac:(lia) ltac:(lia) Hl) as (ct & H1 & H2).
  eexists _, ct. split; [exact H0|]. split; [done|]. rewrite H2, begin_whole; [|done|by intros Hf; apply Hid].
  by destruct (whole_block hc id _) as [[rc hc2]|].
Qed.

Definition demo_conn : h2_conn := @h2_conn_init (demo_env (bs "ok") false) demo_io.

Lemma continuation_equivalence_witness :
  exists hc1 ct,
    @h2_begin_headers (demo_env (bs "ok") false) demo_conn 1 [131] false false = Some (0, hc1) /\
    ct_expecting ct = false /\
    @feed (demo_env (bs "ok") false) hc1 1 [132; 135] [[]; [15; 13; 1; 53]] =
      match @h2_begin_headers (demo_env (bs "ok") false) demo_conn 1
              ([131] ++ concat [[132; 135]; []; [15; 13; 1; 53]]) true false with
      | Some (rc, hc2) => Some (rc, hc2 <| hc_cont := ct |>)
      | None => None
      end.
Proof.
  apply (@continuation_equivalence (demo_env (bs "ok") false) demo_conn 1 false [131] [132; 135] [[]; [15; 13; 1; 53]]);
    [reflexivity|reflexivity|intros _; by split|vm_compute; discriminate|vm_compute; discriminate].
Defined.

(** It is the block of one request with a content length. *)
Example split_block_decodes :
  match @h2_begin_headers (demo_env (bs "ok") false) demo_conn 1 [131] false false with
  | Some (_, hc1) =>
      match @feed (demo_env (bs "ok") false) hc1 1 [132; 135] [[]; [15; 13; 1; 53]] with
      | Some (rc, hc2) =>
          rc = 0 /\ match h2_stream_find hc2 1 ≫= hs_req with
                    | Some r => req_method r = HTTP_POST /\ req_content_length r = 5
                    | None => False
                    end
      | None => False
      end
  | None => False
  end.
Proof. vm_compute. done. Qed.
