(* ===== verification/Mux.v ===== *)
(** * The mux router (src/src/net/http/mux.c)

    Route records live in one store shared by the bucket table, the parametric
    list and the wildcard list; the lists hold indices into the store, so that
    [cwist_mux_route_use] on a record found by one list is seen through every
    other.  Paths are C strings (bytes without NUL).

    A handler or middleware is a function on the request and whatever else it
    touches ([U]: the response, application state).  A middleware receives
    [next] as a callback; it is a program that calls it any number of times
    ([CallNext]) before it returns.  The entropy of new parameter maps is the
    argument [seed]. *)

From S2P Require Import Prelude SipHash QueryMap Http1.

Definition CWIST_MUX_DEFAULT_BUCKETS : nat := 4099.

(** The integer value of [cwist_http_method_t]. *)
Definition method_value (m : http_method) : Z :=
  match m with
  | HTTP_GET => 0 | HTTP_POST => 1 | HTTP_PUT => 2 | HTTP_DELETE => 3 | HTTP_PATCH => 4
  | HTTP_HEAD => 5 | HTTP_OPTIONS => 6 | HTTP_CONNECT => 7 | HTTP_UNKNOWN => 8
  end.

(** ** Path signatures *)

Definition signature : Type := (Z * Z)%type.

Definition prime_hi : Z := 1099511628211.
Definition prime_lo : Z := 0x9e3779b185ebca87.

(** One byte into both lanes. *)
Definition sig_byte (s : signature) (b : Z) : signature :=
  (u64 (Z.lxor s.1 b * prime_hi), u64 (Z.lxor s.2 b * prime_lo)).
Definition sig_bytes (s : signature) (l : bytes) : signature := foldl sig_byte s l.

Fixpoint skip_slashes (l : bytes) : bytes :=
  match l with
  | [] => []
  | c :: l' => if c =? 47 then skip_slashes l' else l
  end.

(** The segment a cursor is on, and the cursor after it. *)
Fixpoint segment (l : bytes) : bytes * bytes :=
  match l with
  | [] => ([], [])
  | c :: l' => if c =? 47 then ([], l) else let '(s, r) := segment l' in (c :: s, r)
  end.

(** The normalising pass; the count of segments is carried along. *)
Fixpoint sig_loop (fuel : nat) (cursor : bytes) (s : signature) (seg_count : nat)
    : signature * nat :=
  match fuel with
  | O => (s, seg_count)
  | S fuel =>
      match cursor with
      | [] => (s, seg_count)
      | _ =>
          match skip_slashes cursor with
          | [] => (s, seg_count)
          | c =>
              let '(seg, rest) := segment c in
              sig_loop fuel rest (sig_bytes (sig_byte s 47) seg) (S seg_count)
          end
      end
  end.

(** [cwist_mux_signature_from_path]; the enum's four bytes come first. *)
Definition signature_from_path (m : http_method) (path : option bytes) : signature :=
  let s := sig_bytes (14695981039346656037, 0xcbf29ce484222325) (le_bytes 4 (method_value m)) in
  let path := default [47] path in
  let '(s, seg_count) := sig_loop (S (length path)) path s 0 in
  if (seg_count =? 0)%nat then sig_byte s 47 else s.

(** [cwist_mux_bucket_index] *)
Definition mux_bucket_index (bucket_count : nat) (sig : signature) : nat :=
  let h := Z.lxor sig.1 (u64 (sig.2 + 0x9e3779b97f4a7c15)) in
  let h := Z.lxor h (Z.shiftr h 30) in
  let h := u64 (h * 0xbf58476d1ce4e5b9) in
  let h := Z.lxor h (Z.shiftr h 27) in
  let h := u64 (h * 0x94d049bb133111eb) in
  let h := Z.lxor h (Z.shiftr h 31) in
  Z.to_nat (h mod Z.of_nat bucket_count).

(** ** Matching a template *)

(** Adds a parameter; a map that cannot be had swallows it. *)
Definition set_param (seed : bytes) (params : option query_map) (name value : bytes) (o : oracle)
    : option query_map * oracle :=
  let '(params, o) := match params with Some m => (Some m, o) | None => query_map_create seed o end in
  match params with
  | Some m => let '(m, o) := query_map_set m name value o in (Some m, o)
  | None => (None, o)
  end.

Definition is_end_slash (l : bytes) : bool := bool_decide (l = [47]).

(** [match_parametric_route]: the map on a match. *)
Fixpoint match_loop (fuel : nat) (seed t p : bytes) (params : option query_map) (o : oracle)
    : option (option query_map) * oracle :=
  match fuel with
  | O => (None, o)
  | S fuel =>
      match t, p with
      | tc :: t', pc :: p' =>
          if tc =? 58 then
            let '(name, t_rest) := segment t' in
            let '(value, p_rest) := segment p in
            if (256 <=? length name)%nat || (256 <=? length value)%nat then (None, o) else
            let '(params, o) := set_param seed params name value o in
            match_loop fuel seed t_rest p_rest params o
          else if tc =? pc then match_loop fuel seed t' p' params o
          else (None, o)
      | _, _ =>
          let t := if is_end_slash t then [] else t in
          let p := if is_end_slash p then [] else p in
          (if bool_decide (t = []) && bool_decide (p = []) then Some params else None, o)
      end
  end.
Definition match_parametric_route (seed route_tmpl req_path : bytes) (o : oracle)
    : option (option query_map) * oracle :=
  match_loop (S (length route_tmpl)) seed route_tmpl req_path None o.

(** [strncmp(a, b, n) == 0] on C strings. *)
Definition strn_eq (a b : bytes) (n : nat) : bool := bool_decide (take n a = take n b).

Definition match_wildcard_route (route_tmpl req_path : bytes) : bool :=
  let len := length route_tmpl in
  (0 <? len)%nat && (rd route_tmpl (len - 1) =? 42) && strn_eq req_path route_tmpl (len - 1).

(** ** Requests, handlers and middleware *)

Record mux_request : Type := MkMuxRequest {
  mr_method : http_method;
  mr_path : option bytes;
  mr_path_params : option query_map
}.

Section Mux.
Context {U : Type}.

Definition mux_state : Type := (mux_request * U)%type.
Definition handler : Type := mux_state -> mux_state.

Inductive program : Type :=
| Return (s : mux_state)
| CallNext (s : mux_state) (k : mux_state -> program).
Definition middleware : Type := mux_state -> program.

(** [mux_chain_next]: the chain state is what is left of the list; it is shared,
    so a middleware that calls [next] again continues where the first call left
    off.  The result is the chain state and the request state. *)
Fixpoint chain_next (fuel : nat) (h : handler) (current : list middleware) (s : mux_state)
    : list middleware * mux_state :=
  match fuel with
  | O => (current, s)
  | S fuel =>
      match current with
      | [] => ([], h s)
      | mw :: rest =>
          (fix run (current : list middleware) (p : program) : list middleware * mux_state :=
             match p with
             | Return s => (current, s)
             | CallNext s k =>
                 let '(current, s) := chain_next fuel h current s in run current (k s)
             end) rest (mw s)
      end
  end.

(** [run_middleware_chain] *)
Definition run_middleware_chain (mws : list middleware) (s : mux_state) (h : handler) : mux_state :=
  (chain_next (S (length mws)) h mws s).2.

(** ** Routes and the router *)

Record mux_route : Type := MkRoute {
  route_method : http_method;
  route_path : option bytes;
  route_handler : handler;
  route_signature : signature;
  route_is_parametric : bool;
  route_is_wildcard : bool;
  route_middleware : list middleware
}.

(** [mx_routes] is the store: a record's index is its age. *)
Record mux_router : Type := MkRouter {
  mx_routes : list mux_route;
  mx_buckets : list (list nat);
  mx_param_routes : list nat;
  mx_wildcard_routes : list nat
}.

Definition mux_router_create (o : oracle) : option mux_router * oracle :=
  match alloc o with
  | (false, o) => (None, o)
  | (true, o) =>
      match alloc o with
      | (false, o) => (None, o)
      | (true, o) => (Some (MkRouter [] (replicate CWIST_MUX_DEFAULT_BUCKETS []) [] []), o)
      end
  end.

(** The route's own copy of its path: absent when memory runs out. *)
Definition route_path_copy (path : bytes) (o : oracle) : option bytes * oracle :=
  match alloc o with
  | (false, o) => (None, o)
  | (true, o) => match alloc o with (true, o) => (Some path, o) | (false, o) => (None, o) end
  end.

Definition has_colon (path : bytes) : bool := existsb (fun c => c =? 58) path.
Definition ends_star (path : bytes) : bool :=
  (0 <? length path)%nat && (rd path (length path - 1) =? 42).

(** [cwist_mux_handle] on non-NULL arguments. *)
Definition mux_handle (r : mux_router) (m : http_method) (path : bytes) (h : handler) (o : oracle)
    : mux_router * oracle :=
  match alloc o with
  | (false, o) => (r, o)
  | (true, o) =>
      let '(copy, o) := route_path_copy path o in
      let id := length r.(mx_routes) in
      let sig := signature_from_path m (Some path) in
      let add sig := r.(mx_routes) ++ [MkRoute m copy h sig (has_colon path) (ends_star path) []] in
      if ends_star path then
        (MkRouter (add (0, 0)) r.(mx_buckets) r.(mx_param_routes) (id :: r.(mx_wildcard_routes)), o)
      else if has_colon path then
        (MkRouter (add (0, 0)) r.(mx_buckets) (id :: r.(mx_param_routes)) r.(mx_wildcard_routes), o)
      else
        let idx := mux_bucket_index (length r.(mx_buckets)) sig in
        (MkRouter (add sig) (alter (cons id) idx r.(mx_buckets)) r.(mx_param_routes)
           r.(mx_wildcard_routes), o)
  end.

(** [cwist_mux_group_handle]: the group's prefix, then the path, verbatim. *)
Definition mux_group_handle (r : mux_router) (prefix : bytes) (m : http_method) (path : bytes)
    (h : handler) (o : oracle) : mux_router * oracle :=
  match alloc o with
  | (false, o) => (r, o)
  | (true, o) => mux_handle r m (prefix ++ path) h o
  end.

(** [cwist_mux_route_use] on the route [id]. *)
Definition mux_route_use (r : mux_router) (id : nat) (mw : middleware) (o : oracle)
    : mux_router * oracle :=
  match alloc o with
  | (false, o) => (r, o)
  | (true, o) =>
      (MkRouter
         (alter (fun rt => MkRoute rt.(route_method) rt.(route_path) rt.(route_handler)
                             rt.(route_signature) rt.(route_is_parametric) rt.(route_is_wildcard)
                             (mw :: rt.(route_middleware))) id r.(mx_routes))
         r.(mx_buckets) r.(mx_param_routes) r.(mx_wildcard_routes), o)
  end.

(** ** Lookup and dispatch *)

(** The test of the bucket walk. *)
Definition exact_match (m : http_method) (sig : signature) (path : bytes) (rt : mux_route) : bool :=
  bool_decide (rt.(route_method) = m) && (rt.(route_signature).1 =? sig.1) &&
  (rt.(route_signature).2 =? sig.2) && bool_decide (rt.(route_path) = Some path).

Fixpoint find_exact (routes : list mux_route) (m : http_method) (sig : signature) (path : bytes)
    (ids : list nat) : option nat :=
  match ids with
  | [] => None
  | id :: ids =>
      match routes !! id with
      | Some rt => if exact_match m sig path rt then Some id else find_exact routes m sig path ids
      | None => find_exact routes m sig path ids
      end
  end.

(** The parametric walk: the route and its parameters. *)
Fixpoint find_param (seed : bytes) (routes : list mux_route) (m : http_method) (path : bytes)
    (ids : list nat) (o : oracle) : option (nat * option query_map) * oracle :=
  match ids with
  | [] => (None, o)
  | id :: ids =>
      match routes !! id with
      | Some rt =>
          match rt.(route_path) with
          | Some tmpl =>
              if bool_decide (rt.(route_method) = m) then
                match match_parametric_route seed tmpl path o with
                | (Some params, o) => (Some (id, params), o)
                | (None, o) => find_param seed routes m path ids o
                end
              else find_param seed routes m path ids o
          | None => find_param seed routes m path ids o
          end
      | None => find_param seed routes m path ids o
      end
  end.

Fixpoint find_wildcard (routes : list mux_route) (m : http_method) (path : bytes) (ids : list nat)
    : option nat :=
  match ids with
  | [] => None
  | id :: ids =>
      match routes !! id with
      | Some rt =>
          match rt.(route_path) with
          | Some tmpl =>
              if bool_decide (rt.(route_method) = m) && match_wildcard_route tmpl path
              then Some id else find_wildcard routes m path ids
          | None => find_wildcard routes m path ids
          end
      | None => find_wildcard routes m path ids
      end
  end.

(** [cwist_mux_find_route] on non-NULL arguments. *)
Definition mux_find_route (seed : bytes) (r : mux_router) (m : http_method) (path : bytes) (o : oracle)
    : option nat * oracle :=
  let sig := signature_from_path m (Some path) in
  let idx := mux_bucket_index (length r.(mx_buckets)) sig in
  match find_exact r.(mx_routes) m sig path (nth idx r.(mx_buckets) []) with
  | Some id => (Some id, o)
  | None =>
      match find_param seed r.(mx_routes) m path r.(mx_param_routes) o with
      | (Some (id, _), o) => (Some id, o)
      | (None, o) => (None, o)
      end
  end.

(** Runs the route found. *)
Definition run_route (r : mux_router) (id : nat) (s : mux_state) : mux_state :=
  match r.(mx_routes) !! id with
  | Some rt =>
      match rt.(route_middleware) with
      | [] => rt.(route_handler) s
      | mws => run_middleware_chain mws s rt.(route_handler)
      end
  | None => s
  end.

(** [cwist_mux_serve] *)
Definition mux_serve (seed : bytes) (r : mux_router) (s : mux_state) (o : oracle)
    : bool * mux_state * oracle :=
  let req := s.1 in
  let path := match req.(mr_path) with Some p => p | None => [47] end in
  let m := req.(mr_method) in
  let sig := signature_from_path m (Some path) in
  let idx := mux_bucket_index (length r.(mx_buckets)) sig in
  match find_exact r.(mx_routes) m sig path (nth idx r.(mx_buckets) []) with
  | Some id => (true, run_route r id s, o)
  | None =>
      match find_param seed r.(mx_routes) m path r.(mx_param_routes) o with
      | (Some (id, params), o) =>
          let req := match params with
                     | Some q => MkMuxRequest m req.(mr_path) (Some q)
                     | None => req
                     end in
          (true, run_route r id (req, s.2), o)
      | (None, o) =>
          match find_wildcard r.(mx_routes) m path r.(mx_wildcard_routes) with
          | Some id => (true, run_route r id s, o)
          | None => (false, s, o)
          end
      end
  end.

(** ** Lemmas: signatures see the non-empty segments only *)

Definition nonempty (l : bytes) : bool := match l with [] => false | _ => true end.
Definition path_segments (p : bytes) : list bytes := filter nonempty (split_on 47 p).

(** The reference: method bytes, then '/' and the bytes of each segment. *)
Definition signature_of (m : http_method) (segs : list bytes) : signature :=
  let s := sig_bytes (14695981039346656037, 0xcbf29ce484222325) (le_bytes 4 (method_value m)) in
  match segs with
  | [] => sig_byte s 47
  | _ => foldl (fun s seg => sig_bytes (sig_byte s 47) seg) s segs
  end.

Lemma segment_cut l :
  segment l = ((cut 47 l).1, match (cut 47 l).2 with Some r => 47 :: r | None => [] end).
Proof.
  induction l as [|c l IH]; [done|]. cbn [segment cut]. destruct (Z.eqb_spec c 47) as [->|]; [done|].
  rewrite IH. by destruct (cut 47 l).
Qed.

Lemma segment_length l : (length (segment l).1 + length (segment l).2 = length l)%nat.
Proof.
  induction l as [|c l IH]; [done|]. cbn [segment]. destruct (c =? 47); [done|].
  destruct (segment l); cbn [fst snd length] in *; lia.
Qed.

Lemma path_segments_cut l :
  path_segments l = (if nonempty (cut 47 l).1 then [(cut 47 l).1] else []) ++
    match (cut 47 l).2 with Some r => path_segments r | None => [] end.
Proof.
  unfold path_segments. rewrite split_on_cut. destruct (cut 47 l) as [a [r|]]; cbn [fst snd];
    rewrite filter_cons; by destruct (nonempty a).
Qed.

Lemma path_segments_slash l : path_segments (47 :: l) = path_segments l.
Proof. by rewrite path_segments_cut. Qed.

Lemma path_segments_skip l : path_segments (skip_slashes l) = path_segments l.
Proof.
  induction l as [|c l IH]; [done|]. cbn [skip_slashes]. destruct (Z.eqb_spec c 47) as [->|]; [|done].
  by rewrite path_segments_slash.
Qed.

Lemma skip_slashes_cases l :
  skip_slashes l = [] \/ exists c r, skip_slashes l = c :: r /\ c <> 47 /\ (length (c :: r) <= length l)%nat.
Proof.
  induction l as [|c l IH]; [by left|]. cbn [skip_slashes]. destruct (Z.eqb_spec c 47) as [->|Hc].
  - destruct IH as [IH|(c & r & -> & ? & ?)]; [by left|]. right. exists c, r. cbn [length] in *.
    split; [done|]. split; [done|lia].
  - right. by exists c, l.
Qed.

Lemma sig_loop_spec fuel : forall cursor s n,
  (length cursor < fuel)%nat ->
  sig_loop fuel cursor s n =
  (foldl (fun s seg => sig_bytes (sig_byte s 47) seg) s (path_segments cursor),
   (n + length (path_segments cursor))%nat).
Proof.
  induction fuel as [|fuel IH]; intros cursor s n Hf; [lia|]. cbn [sig_loop].
  destruct cursor as [|c0 cursor0]; [by rewrite Nat.add_0_r|]. set (cursor := c0 :: cursor0) in *.
  rewrite <- (path_segments_skip cursor).
  destruct (skip_slashes_cases cursor) as [->|(c & r & -> & Hc & Hl)]; [by rewrite Nat.add_0_r|].
  pose proof (segment_length (c :: r)) as Hlen. rewrite segment_cut in *. cbn [fst snd] in Hlen.
  rewrite (path_segments_cut (c :: r)).
  assert (Hne : exists s0, (cut 47 (c :: r)).1 = c :: s0).
  { cbn [cut]. rewrite (proj2 (Z.eqb_neq c 47) Hc). destruct (cut 47 r). by eexists. }
  destruct Hne as [s0 Hs0]. rewrite Hs0 in *. cbn [nonempty].
  rewrite IH by (cbn [length] in *; lia). cbn [app foldl length].
  destruct (cut 47 (c :: r)).2 as [r2|].
  - rewrite path_segments_slash. f_equal. lia.
  - change (path_segments []) with ([] : list bytes). cbn [app length foldl]. f_equal. lia.
Qed.

Lemma signature_segments m p : signature_from_path m (Some p) = signature_of m (path_segments p).
Proof.
  unfold signature_from_path, signature_of. change (default [47] (Some p)) with p.
  rewrite sig_loop_spec by lia. by destruct (path_segments p).
Qed.

(** ** Lemmas: templates *)

(** A template as its author thinks of it. *)
Inductive template_segment : Type := Lit (l : bytes) | Param (name : bytes).
Definition segment_text (s : template_segment) : bytes :=
  match s with Lit l => l | Param n => 58 :: n end.
Definition print_segments (ss : list bytes) : bytes := concat (map (cons 47) ss).
Definition print_template (ts : list template_segment) : bytes := print_segments (map segment_text ts).

Definition segment_wf (s : template_segment) : Prop :=
  match s with
  | Lit l => l <> [] /\ Forall (fun c => c <> 47 /\ c <> 58) l
  | Param n => Forall (fun c => c <> 47) n /\ (length n < 256)%nat
  end.
Definition path_wf (ps : list bytes) : Prop := Forall (Forall (fun c => c <> 47)) ps.

(** Segment by segment: the parameters bound, in order. *)
Fixpoint template_match (ts : list template_segment) (ps : list bytes)
    : option (list (bytes * bytes)) :=
  match ts, ps with
  | [], [] | [], [[]] => Some []
  | Lit l :: ts, s :: ps => if decide (l = s) then template_match ts ps else None
  | Param n :: ts, s :: ps =>
      if (256 <=? length s)%nat || (bool_decide (s = []) && bool_decide (ps = [])) then None
      else cons (n, s) <$> template_match ts ps
  | _, _ => None
  end.

(** The map of the bound parameters, none when nothing was bound. *)
Definition params_denote (params : option query_map) (bound : list (bytes * bytes)) : Prop :=
  match params with
  | None => bound = []
  | Some m => bound <> [] /\ qm_ok m /\ abs m = foldl (fun M kv => <[kv.1 := kv.2]> M) ∅ bound
  end.

Lemma params_denote_add seed params bound n v :
  params_denote params bound ->
  let '(params', o') := set_param seed params n v [] in
  o' = [] /\ params_denote params' (bound ++ [(n, v)]).
Proof.
  intros Hd. unfold set_param.
  assert (Hset : forall m, qm_ok m -> abs m = foldl (fun M kv => <[kv.1 := kv.2]> M) ∅ bound ->
    let '(m', o') := query_map_set m n v [] in o' = [] /\ params_denote (Some m') (bound ++ [(n, v)])).
  { intros m Hok Habs. destruct (query_map_set m n v []) as [m' o'] eqn:E.
    destruct (set_ok _ _ _ _ _ _ Hok E) as (Hok' & _ & Hnil). destruct (Hnil eq_refl) as [Ha ->].
    split; [done|]. split; [by destruct bound|]. split; [done|].
    by rewrite Ha, Habs, foldl_app. }
  destruct params as [m|].
  - destruct Hd as (_ & Hok & Habs). specialize (Hset m Hok Habs). revert Hset. by destruct (query_map_set _ _ _ _).
  - cbn [params_denote] in Hd. subst bound. destruct (query_map_create seed []) as [pm o] eqn:Ec.
    assert (Ho : o = []) by (by apply (f_equal snd) in Ec). subst o.
    assert (Hpm : exists m, pm = Some m) by (destruct pm as [m|]; [by exists m|discriminate Ec]).
    destruct Hpm as [m ->]. destruct (create_ok _ _ _ _ Ec) as [Hok Habs].
    specialize (Hset m Hok Habs). revert Hset. by destruct (query_map_set m n v []).
Qed.

Lemma segment_app s rest :
  Forall (fun c => c <> 47) s -> match rest with [] => True | c :: _ => c = 47 end ->
  segment (s ++ rest) = (s, rest).
Proof.
  intros Hs Hr. induction Hs as [|c s Hc _ IH]; cbn [app segment].
  - destruct rest as [|c rest]; [done|]. subst c. done.
  - rewrite (proj2 (Z.eqb_neq c 47) Hc). by rewrite IH.
Qed.

Lemma print_head ss : match print_segments ss with [] => True | c :: _ => c = 47 end.
Proof. by destruct ss. Qed.

Lemma match_end_false fuel seed c t params o :
  c <> 47 -> (match_loop (S fuel) seed (c :: t) [] params o) = (None, o) /\
  (match_loop (S fuel) seed [] (c :: t) params o) = (None, o).
Proof.
  intros Hc. cbn [match_loop].
  assert (He : is_end_slash (c :: t) = false)
    by (unfold is_end_slash; apply bool_decide_eq_false; congruence).
  rewrite !He. split; [done|]. by rewrite andb_false_r.
Qed.

Definition at_boundary (l : bytes) : Prop := match l with [] => True | c :: _ => c = 47 end.

Lemma match_literal seed params o : forall l s rt rp fuel,
  Forall (fun c => c <> 47 /\ c <> 58) l -> Forall (fun c => c <> 47) s ->
  at_boundary rt -> at_boundary rp -> (length l < fuel)%nat ->
  match_loop fuel seed (l ++ rt) (s ++ rp) params o =
  if decide (l = s) then match_loop (fuel - length l) seed rt rp params o else (None, o).
Proof.
  induction l as [|c l IH]; intros s rt rp fuel Hl Hs Hrt Hrp Hf.
  - cbn [app length]. destruct s as [|d s].
    { rewrite decide_True by done. cbn [app]. by rewrite Nat.sub_0_r. }
    rewrite decide_False by done. apply Forall_cons_1 in Hs as [Hd _]. destruct fuel as [|fuel]; [lia|].
    destruct rt as [|c rt]; [by apply (match_end_false _ _ d (s ++ rp))|].
    cbn in Hrt. subst c. cbn [match_loop app]. change (47 =? 58) with false. cbv iota.
    by rewrite (proj2 (Z.eqb_neq 47 d)) by done.
  - apply Forall_cons_1 in Hl as [[Hc47 Hc58] Hl]. destruct fuel as [|fuel]; [lia|]. cbn [length app] in *.
    destruct s as [|d s].
    { rewrite decide_False by done. cbn [app]. destruct rp as [|d rp].
      - by apply (match_end_false _ _ c (l ++ rt)).
      - cbn in Hrp. subst d. cbn [match_loop]. by rewrite (proj2 (Z.eqb_neq c 58)), (proj2 (Z.eqb_neq c 47)). }
    apply Forall_cons_1 in Hs as [Hd Hs]. cbn [match_loop app].
    rewrite (proj2 (Z.eqb_neq c 58) Hc58). destruct (Z.eqb_spec c d) as [->|Hne].
    + rewrite IH by (done || lia). destruct (decide (l = s)) as [->|Hls].
      * rewrite decide_True by done. by rewrite Nat.sub_succ.
      * rewrite decide_False by congruence. done.
    + rewrite decide_False by congruence. done.
Qed.

Lemma print_boundary ss : at_boundary (print_segments ss).
Proof. by destruct ss. Qed.

Definition match_result (r : option (option query_map)) (bound : list (bytes * bytes))
    (spec : option (list (bytes * bytes))) : Prop :=
  match spec with
  | Some b => exists params, r = Some params /\ params_denote params (bound ++ b)
  | None => r = None
  end.

Lemma match_end_print seed params bound ps fuel :
  params_denote params bound ->
  (match_loop (S fuel) seed [] (print_segments ps) params []).2 = [] /\
  match_result (match_loop (S fuel) seed [] (print_segments ps) params []).1 bound
    (template_match [] ps).
Proof.
  intros Hd. destruct ps as [|s ps].
  { split; [done|]. exists params. by rewrite app_nil_r. }
  change (print_segments (s :: ps)) with (47 :: s ++ print_segments ps).
  assert (Hend : is_end_slash (47 :: s ++ print_segments ps) = bool_decide (s = []) && bool_decide (ps = [])).
  { unfold is_end_slash. destruct s as [|c s], ps as [|q ps]; [done| | |];
      rewrite (bool_decide_eq_false_2 (47 :: _ = [47])) by done;
      by rewrite ?(bool_decide_eq_false_2 (_ :: _ = [])), ?andb_false_r by done. }
  cbn [match_loop]. rewrite Hend. split; [done|]. cbn [fst]. destruct s as [|c s], ps as [|q ps]; try done.
  exists params. split; [done|]. by rewrite app_nil_r.
Qed.

Lemma match_template seed : forall ts ps fuel params bound,
  Forall segment_wf ts -> path_wf ps -> (length (print_template ts) < fuel)%nat ->
  params_denote params bound ->
  (match_loop fuel seed (print_template ts) (print_segments ps) params []).2 = [] /\
  match_result (match_loop fuel seed (print_template ts) (print_segments ps) params []).1 bound
    (template_match ts ps).
Proof.
  induction ts as [|t ts IH]; intros ps fuel params bound Hts Hps Hf Hd.
  { destruct fuel as [|fuel]; [cbn in Hf; lia|]. by apply match_end_print. }
  apply Forall_cons_1 in Hts as [Ht Hts].
  assert (Hp : print_template (t :: ts) = 47 :: segment_text t ++ print_template ts) by done.
  rewrite Hp in *. cbn [length] in Hf. rewrite length_app in Hf.
  destruct fuel as [|fuel]; [lia|]. destruct ps as [|s ps].
  { change (print_segments []) with ([] : bytes). cbn [match_loop].
    assert (Hne : segment_text t <> []) by (destruct t as [[]|]; [by destruct Ht| |]; done).
    assert (He : is_end_slash (47 :: segment_text t ++ print_template ts) = false).
    { unfold is_end_slash. apply bool_decide_eq_false. intros [= H]. by apply app_eq_nil in H as [? _]. }
    rewrite He. split; [done|]. by destruct t. }
  apply Forall_cons_1 in Hps as [Hs Hps].
  change (print_segments (s :: ps)) with (47 :: s ++ print_segments ps). cbn [match_loop].
  change (47 =? 58) with false. change (47 =? 47) with true. cbv iota.
  destruct t as [l|n]; cbn [segment_text template_match] in *.
  - destruct Ht as [_ Hl]. rewrite match_literal by (done || lia || apply print_boundary).
    destruct (decide (l = s)) as [->|]; [|done]. apply IH; [done|done|lia|done].
  - destruct Ht as [Hn Hnl]. cbn [length] in Hf.
    destruct (bool_decide (s = []) && bool_decide (ps = [])) eqn:Eend.
    { rewrite orb_true_r. apply andb_prop in Eend as [Es%bool_decide_eq_true Eps%bool_decide_eq_true].
      subst s ps. destruct fuel as [|fuel]; [lia|]. cbn [app print_segments map concat].
      by rewrite (proj1 (match_end_false fuel seed 58 _ params [] ltac:(done))). }
    rewrite orb_false_r. destruct fuel as [|fuel]; [lia|].
    assert (Hcons : exists c r, s ++ print_segments ps = c :: r)
      by (destruct s, ps; try discriminate Eend; by do 2 eexists).
    pose proof (segment_app s (print_segments ps) Hs (print_boundary ps)) as Hseg.
    destruct Hcons as (c & r & Hcr). rewrite Hcr in *. cbn [match_loop app].
    rewrite (segment_app n (print_template ts) Hn (print_boundary _)), Hseg.
    change (58 =? 58) with true. cbv iota.
    rewrite (proj2 (Nat.leb_gt 256 (length n)) Hnl). cbn [orb].
    destruct (256 <=? length s)%nat; [done|].
    pose proof (params_denote_add seed params bound n s Hd) as Hadd.
    destruct (set_param seed params n s []) as [params' o']. destruct Hadd as [-> Hadd].
    destruct (IH ps fuel params' (bound ++ [(n, s)]) Hts Hps ltac:(lia) Hadd) as [H1 H2].
    split; [done|]. destruct (template_match ts ps) as [b|]; cbn [fmap option_fmap option_map]; [|done].
    destruct H2 as (q & Hq & Hdq). exists q. split; [done|].
    by rewrite <- app_assoc in Hdq.
Qed.

(** ** Lemmas: middleware *)

(** A middleware seen as a function of the whole rest of the chain. *)
Fixpoint interp (p : program) (next : handler) : mux_state :=
  match p with
  | Return s => s
  | CallNext s k => interp (k (next s)) next
  end.

(** It calls [next] at most once. *)
Inductive once : program -> Prop :=
| once_return s : once (Return s)
| once_next s k : (forall s', exists s'', k s' = Return s'') -> once (CallNext s k).

Definition onion (mws : list middleware) (h : handler) : handler :=
  foldr (fun mw next s => interp (mw s) next) h mws.

Lemma chain_next_once h mws : forall fuel s,
  Forall (fun mw : middleware => forall s, once (mw s)) mws -> (length mws < fuel)%nat ->
  (chain_next fuel h mws s).2 = onion mws h s.
Proof.
  induction mws as [|mw mws IH]; intros [|fuel] s Ho Hf; try (cbn [length] in Hf; lia); [done|].
  apply Forall_cons_1 in Ho as [Hm Ho]. cbn [chain_next onion foldr]. fold (onion mws h).
  destruct (Hm s) as [s0|s0 k Hk]; [done|].
  specialize (IH fuel s0 Ho ltac:(cbn [length] in Hf; lia)).
  destruct (chain_next fuel h mws s0) as [rest s1]. cbn [snd] in IH. subst s1. cbn [interp].
  by destruct (Hk (onion mws h s0)) as [s2 ->].
Qed.

(** ** Lemmas: the table *)

Fixpoint first_match (routes : list mux_route) (P : mux_route -> bool) (ids : list nat) : option nat :=
  match ids with
  | [] => None
  | id :: ids =>
      if match routes !! id with Some rt => P rt | None => false end
      then Some id else first_match routes P ids
  end.

(** The routes satisfying [P], newest first. *)
Definition all_ids (routes : list mux_route) : list nat := rev (seq 0 (length routes)).
Definition holds (routes : list mux_route) (P : mux_route -> bool) (id : nat) : bool :=
  match routes !! id with Some rt => P rt | None => false end.
Definition ids_of (P : mux_route -> bool) (routes : list mux_route) : list nat :=
  filter (holds routes P) (all_ids routes).

Definition is_exact (rt : mux_route) : bool := negb rt.(route_is_wildcard) && negb rt.(route_is_parametric).
Definition is_param (rt : mux_route) : bool := negb rt.(route_is_wildcard) && rt.(route_is_parametric).

Record router_ok (r : mux_router) : Prop := {
  ro_buckets : (0 < length r.(mx_buckets))%nat;
  ro_params : r.(mx_param_routes) = ids_of is_param r.(mx_routes);
  ro_wildcards : r.(mx_wildcard_routes) = ids_of route_is_wildcard r.(mx_routes);
  ro_bucket : forall i l, r.(mx_buckets) !! i = Some l ->
    l = ids_of (fun rt => is_exact rt &&
          (mux_bucket_index (length r.(mx_buckets)) rt.(route_signature) =? i)%nat) r.(mx_routes);
  ro_signature : Forall (fun rt => is_exact rt = true -> forall p, rt.(route_path) = Some p ->
    rt.(route_signature) = signature_from_path rt.(route_method) (Some p)) r.(mx_routes)
}.

Lemma filter_ext_in (P Q : nat -> bool) l :
  (forall x, In x l -> P x = Q x) -> filter P l = filter Q l.
Proof.
  induction l as [|x l IH]; intros H; [done|]. rewrite !filter_cons, (H x) by (by left).
  rewrite IH by (intros; apply H; by right). done.
Qed.

Lemma ids_of_snoc P routes rt :
  ids_of P (routes ++ [rt]) = (if P rt then [length routes] else []) ++ ids_of P routes.
Proof.
  unfold ids_of, all_ids. rewrite length_app, Nat.add_1_r, seq_S, rev_app_distr. cbn [rev app Nat.add].
  rewrite filter_cons.
  assert (Hnew : holds (routes ++ [rt]) P (length routes) = P rt)
    by (unfold holds; rewrite lookup_app_r by lia; by rewrite Nat.sub_diag).
  rewrite Hnew.
  assert (Hf : filter (holds (routes ++ [rt]) P) (rev (seq 0 (length routes))) =
    filter (holds routes P) (rev (seq 0 (length routes)))).
  { apply filter_ext_in. intros x Hx. apply in_rev, in_seq in Hx. unfold holds.
    by rewrite lookup_app_l by lia. }
  rewrite Hf. by destruct (P rt).
Qed.

Lemma ids_of_alter P routes (f : mux_route -> mux_route) id :
  (forall rt, P (f rt) = P rt) -> ids_of P (alter f id routes) = ids_of P routes.
Proof.
  intros HP. unfold ids_of, all_ids. rewrite length_alter. apply filter_ext_in. intros x _. unfold holds.
  destruct (decide (id = x)) as [->|].
  - rewrite list_lookup_alter_eq. by destruct (routes !! x); cbn.
  - by rewrite list_lookup_alter_ne.
Qed.

Lemma first_match_ids routes P Q :
  first_match routes P (ids_of Q routes) = first_match routes (fun rt => Q rt && P rt) (all_ids routes).
Proof.
  unfold ids_of. induction (all_ids routes) as [|id ids IH]; [done|]. rewrite filter_cons.
  cbn [first_match]. destruct (holds routes Q id) eqn:EQ; unfold holds in EQ.
  - rewrite decide_True by done. cbn [first_match]. rewrite IH.
    destruct (routes !! id) as [rt|]; [|done]. by rewrite EQ.
  - rewrite decide_False by (by intros ?). rewrite IH.
    destruct (routes !! id) as [rt|]; [|done]. by rewrite EQ.
Qed.

Lemma first_match_ext routes P Q ids :
  Forall (fun rt => P rt = Q rt) routes -> first_match routes P ids = first_match routes Q ids.
Proof.
  intros H. induction ids as [|id ids IH]; [done|]. cbn [first_match].
  destruct (routes !! id) as [rt|] eqn:E; [|done].
  rewrite (Forall_lookup_1 _ _ _ _ H E : P rt = Q rt). by rewrite IH.
Qed.

Lemma find_exact_first routes m sig path ids :
  find_exact routes m sig path ids = first_match routes (exact_match m sig path) ids.
Proof. induction ids as [|id ids IH]; [done|]. cbn. destruct (routes !! id); by rewrite IH. Qed.

Definition wildcard_match (m : http_method) (path : bytes) (rt : mux_route) : bool :=
  match rt.(route_path) with
  | Some tmpl => bool_decide (rt.(route_method) = m) && match_wildcard_route tmpl path
  | None => false
  end.

Lemma find_wildcard_first routes m path ids :
  find_wildcard routes m path ids = first_match routes (wildcard_match m path) ids.
Proof.
  induction ids as [|id ids IH]; [done|]. cbn [find_wildcard first_match]. unfold wildcard_match at 1.
  destruct (routes !! id) as [rt|]; [|done]. destruct (route_path rt); [|done]. by rewrite IH.
Qed.

Lemma create_router_ok o r o' : mux_router_create o = (Some r, o') -> router_ok r.
Proof.
  unfold mux_router_create. destruct (alloc o) as [[] o1]; [|done].
  destruct (alloc o1) as [[] o2]; [|done]. intros [Hr _]%pair_eq.
  apply (f_equal (fun x => match x with Some x => x | None => r end)) in Hr. cbn beta iota in Hr. subst r.
  split; cbn [mx_routes mx_buckets mx_param_routes mx_wildcard_routes].
  - rewrite length_replicate. apply Nat.lt_0_succ.
  - done.
  - done.
  - intros i l [-> _]%lookup_replicate_1. done.
  - constructor.
Qed.

Lemma mux_bucket_index_lt n sig : (0 < n)%nat -> (mux_bucket_index n sig < n)%nat.
Proof.
  intros Hn. unfold mux_bucket_index. cbv zeta. match goal with |- context [Z.modulo ?a _] =>
    pose proof (Z.mod_pos_bound a (Z.of_nat n) ltac:(lia)) end. lia.
Qed.

Lemma handle_router_ok r m path h o r' o' :
  router_ok r -> mux_handle r m path h o = (r', o') -> router_ok r'.
Proof.
  intros [Hb Hp Hw Hbk Hsig] H. unfold mux_handle in H. destruct (alloc o) as [[] o1];
    [|by injection H as <- <-].
  destruct (route_path_copy path o1) as [copy o2] eqn:Ec.
  assert (Hcopy : forall p, copy = Some p -> p = path).
  { unfold route_path_copy in Ec. destruct (alloc o1) as [[] o3]; [destruct (alloc o3) as [[] o4]|];
      injection Ec as <- _; congruence. }
  cbv zeta in H.
  assert (Hsn : forall rt, (is_exact rt = true -> forall p, rt.(route_path) = Some p ->
      rt.(route_signature) = signature_from_path rt.(route_method) (Some p)) ->
      Forall (fun rt => is_exact rt = true -> forall p, rt.(route_path) = Some p ->
        rt.(route_signature) = signature_from_path rt.(route_method) (Some p))
        (mx_routes r ++ [rt])).
  { intros rt Hrt. apply Forall_app_2; [done|]. constructor; [done|constructor]. }
  destruct (ends_star path) eqn:Es; [|destruct (has_colon path) eqn:Ecol]; injection H as <- <-;
    split; cbn [mx_routes mx_buckets mx_param_routes mx_wildcard_routes];
    rewrite ?length_alter, ?ids_of_snoc; unfold is_exact, is_param;
    cbn [route_is_wildcard route_is_parametric negb andb app]; try done; try (by f_equal).
  - intros i l Hl. rewrite ids_of_snoc. cbn [is_exact route_is_wildcard negb andb app]. by apply Hbk.
  - apply Hsn. done.
  - intros i l Hl. rewrite ids_of_snoc. cbn [route_is_wildcard route_is_parametric negb andb app].
    by apply Hbk.
  - apply Hsn. done.
  - intros i l Hl. rewrite ids_of_snoc.
    cbn [route_is_wildcard route_is_parametric route_signature negb andb].
    set (idx := mux_bucket_index (length (mx_buckets r)) (signature_from_path m (Some path))) in *.
    destruct (decide (i = idx)) as [->|Hne].
    + rewrite list_lookup_alter_eq in Hl. destruct (mx_buckets r !! idx) as [l0|] eqn:E0; [|done].
      cbn in Hl. injection Hl as <-. rewrite Nat.eqb_refl. cbn [app]. f_equal. by apply Hbk.
    + rewrite list_lookup_alter_ne in Hl by done.
      rewrite (proj2 (Nat.eqb_neq idx i)) by done. cbn [app]. by apply Hbk.
  - apply Hsn. intros _ p Hpath. cbn [route_path route_signature route_method] in *.
    by rewrite (Hcopy p Hpath).
Qed.

Lemma use_router_ok r id mw o r' o' :
  router_ok r -> mux_route_use r id mw o = (r', o') -> router_ok r'.
Proof.
  intros [Hb Hp Hw Hbk Hsig] H. unfold mux_route_use in H. destruct (alloc o) as [[] o1];
    injection H as <- <-; [|by split].
  split; cbn [mx_routes mx_buckets mx_param_routes mx_wildcard_routes]; try done.
  - rewrite ids_of_alter by done. done.
  - rewrite ids_of_alter by done. done.
  - intros i l Hl. rewrite ids_of_alter by done. by apply Hbk.
  - apply Forall_lookup_2. intros j rt Hj. destruct (decide (id = j)) as [->|].
    + rewrite list_lookup_alter_eq in Hj. destruct (mx_routes r !! j) as [rt0|] eqn:E0; [|done].
      injection Hj as <-. exact (Forall_lookup_1 _ _ _ _ Hsig E0).
    + rewrite list_lookup_alter_ne in Hj by done. exact (Forall_lookup_1 _ _ _ _ Hsig Hj).
Qed.

(** The walk of one bucket finds the newest route with that method and path. *)
Definition exact_route (m : http_method) (path : bytes) (rt : mux_route) : bool :=
  is_exact rt && bool_decide (rt.(route_method) = m) && bool_decide (rt.(route_path) = Some path).

Lemma find_exact_spec r m path :
  router_ok r ->
  let sig := signature_from_path m (Some path) in
  find_exact r.(mx_routes) m sig path
    (nth (mux_bucket_index (length r.(mx_buckets)) sig) r.(mx_buckets) []) =
  first_match r.(mx_routes) (exact_route m path) (all_ids r.(mx_routes)).
Proof.
  intros [Hb _ _ Hbk Hsig] sig. set (idx := mux_bucket_index _ sig).
  assert (Hidx : (idx < length (mx_buckets r))%nat) by (by apply mux_bucket_index_lt).
  destruct (lookup_lt_is_Some_2 _ _ Hidx) as [l Hl].
  assert (Hn : nth idx (mx_buckets r) [] = l) by (by rewrite nth_lookup, Hl).
  rewrite Hn, find_exact_first, (Hbk _ _ Hl), first_match_ids.
  apply first_match_ext. apply Forall_lookup_2. intros j rt Hj.
  pose proof (Forall_lookup_1 _ _ _ _ Hsig Hj) as Hrt. cbv beta in Hrt.
  unfold exact_match, exact_route. destruct (is_exact rt); [|done]. cbn [andb].
  destruct (bool_decide (route_method rt = m)) eqn:Em; [|by rewrite andb_false_r]. cbn [andb].
  apply bool_decide_eq_true in Em.
  destruct (bool_decide (route_path rt = Some path)) eqn:Ep; [|by rewrite !andb_false_r].
  apply bool_decide_eq_true in Ep. rewrite (Hrt eq_refl _ Ep), Em. fold sig. fold idx.
  by rewrite Nat.eqb_refl, !Z.eqb_refl.
Qed.

(** ** Properties *)

(** the normalised signature.  The single hashing pass over a path is the
    hash of its non-empty segments: empty segments, leading and trailing
    slashes do not count, NULL and "" are the root, and equal segments give
    equal signatures. *)
Theorem signature_normalises m p :
  signature_from_path m (Some p) = signature_of m (path_segments p) /\
  signature_from_path m None = signature_of m [].
Proof. split; [apply signature_segments|exact (signature_segments m [47])]. Qed.

(** a template matches a path segment by segment: literals are equal, a
    parameter takes a whole segment below 256 bytes (an empty one too, unless
    it ends the path), one trailing slash of the path is ignored, and on a
    match the parameters are bound left to right. *)
Theorem parametric_match_spec seed ts ps :
  Forall segment_wf ts -> path_wf ps ->
  let '(r, o) := match_parametric_route seed (print_template ts) (print_segments ps) [] in
  o = [] /\
  match template_match ts ps with
  | Some bound => exists params, r = Some params /\
      match params with
      | None => bound = []
      | Some q => bound <> [] /\ forall k, query_map_get q k =
          foldl (fun (M : gmap bytes bytes) kv => <[kv.1 := kv.2]> M) ∅ bound !! k
      end
  | None => r = None
  end.
Proof.
  intros Hts Hps. unfold match_parametric_route.
  destruct (match_template seed ts ps (S (length (print_template ts))) None [] Hts Hps
    ltac:(lia) eq_refl) as [H1 H2].
  destruct (match_loop _ _ _ _ _ _) as [r o]. cbn [fst snd] in *. split; [done|].
  destruct (template_match ts ps) as [bound|]; [|done].
  destruct H2 as (params & -> & Hd). exists params. split; [done|]. cbn [app] in Hd.
  destruct params as [q|]; [|done]. destruct Hd as (Hne & Hok & <-). split; [done|].
  intros k. by apply get_abs.
Qed.

(** Registrations and attachments, under any allocation outcomes. *)
Inductive router_op : Type :=
| OHandle (m : http_method) (path : bytes) (h : handler)
| OGroup (prefix : bytes) (m : http_method) (path : bytes) (h : handler)
| OUse (id : nat) (mw : middleware).
Definition router_step (ro : mux_router * oracle) (op : router_op) : mux_router * oracle :=
  match op with
  | OHandle m path h => mux_handle ro.1 m path h ro.2
  | OGroup prefix m path h => mux_group_handle ro.1 prefix m path h ro.2
  | OUse id mw => mux_route_use ro.1 id mw ro.2
  end.

Lemma steps_router_ok ops : forall ro, router_ok ro.1 -> router_ok (foldl router_step ro ops).1.
Proof.
  induction ops as [|op ops IH]; intros [r o] Hok; [done|]. cbn [foldl]. apply IH. cbn [fst] in Hok.
  destruct op as [m path h|prefix m path h|id mw]; cbn [router_step fst snd].
  - destruct (mux_handle r m path h o) eqn:E. by eapply handle_router_ok.
  - unfold mux_group_handle. destruct (alloc o) as [[] o1]; [|done].
    destruct (mux_handle r m (prefix ++ path) h o1) eqn:E. by eapply handle_router_ok.
  - destruct (mux_route_use r id mw o) eqn:E. by eapply use_router_ok.
Qed.

(** dispatch refines the table of registrations.  Whatever was registered,
    grouped and attached, and whatever allocations failed, a request goes to
    the newest exact route with its method and path; failing that to the first
    parametric route, newest first, whose template matches, with its
    parameters bound to the request; failing that to the newest wildcard route
    that matches; and otherwise it is refused and nothing ran.  Hashing and
    bucket collisions never change the answer, and the lookup without dispatch
    finds the same exact or parametric route. *)
Theorem mux_dispatch_spec seed o o1 r0 ops (s : mux_state) os :
  mux_router_create o = (Some r0, o1) ->
  let r := (foldl router_step (r0, o1) ops).1 in
  let routes := r.(mx_routes) in
  let m := s.1.(mr_method) in
  let path := default [47] s.1.(mr_path) in
  let exact := first_match routes (exact_route m path) (all_ids routes) in
  let param := find_param seed routes m path (ids_of is_param routes) os in
  mux_serve seed r s os =
    match exact, param with
    | Some id, _ => (true, run_route r id s, os)
    | None, (Some (id, params), os) =>
        let req := match params with
                   | Some q => MkMuxRequest m s.1.(mr_path) (Some q) | None => s.1 end in
        (true, run_route r id (req, s.2), os)
    | None, (None, os) =>
        match first_match routes (fun rt => route_is_wildcard rt && wildcard_match m path rt)
                (all_ids routes) with
        | Some id => (true, run_route r id s, os)
        | None => (false, s, os)
        end
    end /\
  mux_find_route seed r m path os =
    match exact, param with
    | Some id, _ => (Some id, os)
    | None, (Some (id, _), os) => (Some id, os)
    | None, (None, os) => (None, os)
    end.
Proof.
  intros Hc r routes m path exact param. subst exact param.
  assert (Hok : router_ok r) by (apply steps_router_ok; by eapply create_router_ok).
  pose proof (find_exact_spec r m path Hok) as Hex. cbv zeta in Hex.
  pose proof (ro_params r Hok) as Hp. pose proof (ro_wildcards r Hok) as Hw.
  assert (Hpath : match mr_path s.1 with Some p => p | None => [47] end = path)
    by (subst path; by destruct (mr_path s.1)).
  clearbody r. subst routes. split.
  - unfold mux_serve. cbv zeta. rewrite Hpath. fold m. rewrite Hex, Hp, Hw.
    rewrite find_wildcard_first, first_match_ids.
    destruct (first_match _ (exact_route m path) _); [done|].
    destruct (find_param _ _ _ _ _ _) as [[[id params]|] os']; [|done]. by destruct params.
  - unfold mux_find_route. cbv zeta. rewrite Hex, Hp.
    destruct (first_match _ (exact_route m path) _); [done|].
    by destruct (find_param _ _ _ _ _ _) as [[[id params]|] os'].
Qed.

(** per-route middleware.  When every middleware of a chain calls [next] at
    most once, running the chain is nesting: each one, outermost the last
    attached, receives as [next] the whole rest of the chain and finally the
    handler, and one that does not call it cuts the rest off.  Attaching a
    middleware to a route puts it around what the route did before. *)
Theorem middleware_onion r id rt mw s :
  r.(mx_routes) !! id = Some rt ->
  Forall (fun mw : middleware => forall s, once (mw s)) (mw :: rt.(route_middleware)) ->
  run_middleware_chain rt.(route_middleware) s rt.(route_handler) =
    onion rt.(route_middleware) rt.(route_handler) s /\
  run_route (mux_route_use r id mw []).1 id s = interp (mw s) (run_route r id).
Proof.
  intros Hr Ho. pose proof Ho as [_ Ho']%Forall_cons_1.
  assert (Hrun : forall s, run_route r id s = onion (route_middleware rt) (route_handler rt) s).
  { intros s0. unfold run_route. rewrite Hr. destruct (route_middleware rt) as [|m ms] eqn:Em; [done|].
    unfold run_middleware_chain. by apply chain_next_once; [done|lia]. }
  split; [unfold run_middleware_chain; by apply chain_next_once; [done|lia]|].
  cbn [mux_route_use alloc fst]. unfold run_route at 1. cbn [mx_routes].
  rewrite list_lookup_alter_eq, Hr. cbn [fmap option_fmap option_map route_middleware route_handler].
  unfold run_middleware_chain. rewrite chain_next_once by (done || lia). cbn [onion foldr].
  fold (onion (route_middleware rt) (route_handler rt)).
  assert (Hext : forall p f g, (forall s, f s = g s) -> interp p f = interp p g).
  { clear. intros p f g Hfg. induction p as [s|s k IH]; [done|]. cbn [interp]. by rewrite Hfg, IH. }
  apply Hext. intros s0. by rewrite Hrun.
Qed.

End Mux.

(** ** Concrete runs *)

Definition mux_demo_seed : bytes := replicate 16 3.

Lemma parametric_match_spec_witness :
  exists q, match_parametric_route mux_demo_seed (bs "/users/:id/posts/:n")
    (bs "/users/42/posts/7/") [] = (Some (Some q), []) /\
    query_map_get q (bs "id") = Some (bs "42") /\ query_map_get q (bs "n") = Some (bs "7").
Proof.
  set (ts := [Lit (bs "users"); Param (bs "id"); Lit (bs "posts"); Param (bs "n")]).
  set (ps := [bs "users"; bs "42"; bs "posts"; bs "7"; []]).
  assert (Hts : Forall segment_wf ts).
  { constructor; [|constructor; [|constructor; [|constructor; [|constructor]]]];
      (split; [done || by apply (bool_decide_unpack _); vm_compute | by apply (bool_decide_unpack _); vm_compute]). }
  assert (Hps : path_wf ps) by (by apply (bool_decide_unpack _); vm_compute).
  pose proof (parametric_match_spec mux_demo_seed ts ps Hts Hps) as H.
  change (print_template ts) with (bs "/users/:id/posts/:n") in H.
  change (print_segments ps) with (bs "/users/42/posts/7/") in H.
  destruct (match_parametric_route _ _ _ _) as [r o]. destruct H as [-> H].
  change (template_match ts ps) with (Some [(bs "id", bs "42"); (bs "n", bs "7")]) in H.
  destruct H as ([q|] & -> & Hq); [|done]. destruct Hq as [_ Hq]. exists q. split; [done|].
  by rewrite !Hq.
Defined.

(** Handlers that write their name. *)
Definition write (c : string) : @handler (list bytes) := fun s => (s.1, s.2 ++ [bs c]).
Definition around (c : string) : @middleware (list bytes) := fun s =>
  CallNext (s.1, s.2 ++ [bs c]) (fun s => Return (s.1, s.2 ++ [bs c])).

Definition demo_ops : list (@router_op (list bytes)) :=
  [OHandle HTTP_GET (bs "/u/:id") (write "user"); OHandle HTTP_GET (bs "/static/*") (write "file");
   OGroup (bs "/u") HTTP_GET (bs "/me") (write "me"); OUse 2 (around "a"); OUse 2 (around "b")].
Definition demo_request (p : string) : @mux_state (list bytes) :=
  (MkMuxRequest HTTP_GET (Some (bs p)) None, []).

Lemma mux_dispatch_spec_witness :
  exists r0, mux_router_create [] = (Some r0, []) /\
    let r := (foldl router_step (r0, []) demo_ops).1 in
    let served (p : string) := (mux_serve mux_demo_seed r (demo_request p) []).1.2.2 in
    served "/u/me"%string = [bs "b"; bs "a"; bs "me"; bs "a"; bs "b"] /\
    served "/u/7"%string = [bs "user"] /\ served "/static/x"%string = [bs "file"] /\ served "/none"%string = [].
Proof.
  eexists. split; [reflexivity|]. cbv beta zeta.
  assert (H : forall p, (mux_serve mux_demo_seed _ (demo_request p) []) = _)
    by (intros p; apply (mux_dispatch_spec mux_demo_seed [] [] _ demo_ops (demo_request p) [] eq_refl)).
  rewrite !H. split; [vm_compute; reflexivity|]. split; [vm_compute; reflexivity|].
  split; vm_compute; reflexivity.
Defined.

Lemma middleware_onion_witness :
  let rt := MkRoute HTTP_GET (Some (bs "/")) (write "h") (0, 0) false false [around "a"] in
  let r := MkRouter [rt] [] [] [] in
  run_middleware_chain [around "a"] (demo_request "/") (write "h") =
    onion [around "a"] (write "h") (demo_request "/") /\
  (run_route (mux_route_use r 0 (around "b") []).1 0 (demo_request "/")).2 =
    [bs "b"; bs "a"; bs "h"; bs "a"; bs "b"].
Proof.
  intros rt r.
  assert (Ho : Forall (fun mw => forall s, once (mw s)) [around "b"; around "a"]).
  { constructor; [|constructor; [|constructor]]; intros s; apply once_next; intros s'; by eexists. }
  destruct (middleware_onion r 0 rt (around "b") (demo_request "/") eq_refl Ho) as [H1 H2].
  split; [exact H1|]. rewrite H2. vm_compute. reflexivity.
Defined.

(** A middleware that calls [next] twice: the second call finds the chain
    consumed and goes straight to the handler. *)
Example second_next_skips_the_chain :
  let twice : @middleware (list bytes) := fun s => CallNext s (fun s => CallNext s Return) in
  (run_middleware_chain [twice; around "a"] (demo_request "/") (write "h")).2 =
  [bs "a"; bs "h"; bs "a"; bs "h"].
Proof. reflexivity. Qed.
