(* ===== verification/Seq.v ===== *)
(** * Sequenced messages (core/seq/seq.c)

    A message is split into numbered chunks and put together again whatever
    the order, and however often, they arrive.  The assembler is a refinement
    of a finite map from chunk index to payload ([seq_spec]). *)

From stdpp Require Import fin_map_dom fin_sets.
From S2P Require Import Prelude.

(** ** Data *)

Definition CWIST_SEQ_HEADER_SIZE : nat := 8.
Definition CWIST_SEQ_MAX_CHUNKS : Z := 8192.
Definition CWIST_SEQ_MAX_REASSEMBLED_SIZE : Z := 67108864.

(** [payload] borrows the bytes from its address to the end of the buffer. *)
Record cwist_seq_chunk := MkChunk {
  ck_seq : Z; ck_total : Z; ck_payload_len : Z; ck_chunk_size : Z;
  ck_payload : option bytes }.

Record cwist_seq_message := MkMessage {
  msg_chunks : list bytes; msg_chunk_lens : list Z; msg_count : Z }.
Definition message_zero : cwist_seq_message := MkMessage [] [] 0.

Record cwist_seq_assembler := MkAssembler {
  have_state : bool; a_total : Z; a_chunk_size : Z; total_len : Z; data_cap : Z;
  max_data_len : Z; a_data : option bytes; received : option (list bool);
  payload_lens : option (list Z); received_count : Z; contaminated : bool }.
#[export] Instance assembler_fields : Fields cwist_seq_assembler := fun r =>
  MkAssembler r.(have_state) r.(a_total) r.(a_chunk_size) r.(total_len) r.(data_cap)
    r.(max_data_len) r.(a_data) r.(received) r.(payload_lens) r.(received_count)
    r.(contaminated).

Definition assembler_zero : cwist_seq_assembler :=
  MkAssembler false 0 0 0 0 0 None None None 0 false.

(** ** Chunk headers *)

Definition seq_read_u16 (p : bytes) (off : nat) : Z :=
  u16 (Z.lor (Z.shiftl (rd p off) 8) (rd p (off + 1))).
Definition seq_write_u16 (v : Z) : bytes :=
  [u8 (Z.land (Z.shiftr v 8) 255); u8 (Z.land v 255)].

(** The checks shared, line by line, by the parser and the assembler. *)
Definition chunk_fields_valid (seq total payload_len chunk_size : Z) : bool :=
  negb ((seq =? 0) || (total =? 0) || (CWIST_SEQ_MAX_CHUNKS <? total) || (total <? seq)) &&
  negb ((payload_len =? 0) || (chunk_size =? 0)) &&
  negb (chunk_size <? payload_len) &&
  negb (negb (seq =? total) && negb (payload_len =? chunk_size)).

(** [*out] is written before the checks are made. *)
Definition cwist_seq_chunk_parse (data : option bytes) (out : option cwist_seq_chunk)
  : bool * option cwist_seq_chunk :=
  match data, out with
  | Some d, Some _ =>
      if blen d <? Z.of_nat CWIST_SEQ_HEADER_SIZE then (false, out)
      else
        let seq := seq_read_u16 d 0 in
        let total := seq_read_u16 d 2 in
        let payload_len := seq_read_u16 d 4 in
        let chunk_size := seq_read_u16 d 6 in
        (chunk_fields_valid seq total payload_len chunk_size &&
         negb (blen d - Z.of_nat CWIST_SEQ_HEADER_SIZE <? payload_len),
         Some (MkChunk seq total payload_len chunk_size
                 (Some (drop CWIST_SEQ_HEADER_SIZE d))))
  | _, _ => (false, out)
  end.

Definition cwist_seq_chunk_build_header (seq total payload_len chunk_size : Z) : bytes :=
  seq_write_u16 seq ++ seq_write_u16 total ++ seq_write_u16 payload_len ++
  seq_write_u16 chunk_size.

(** ** Splitting *)

Section Split.
Context (data : bytes) (total chunk_payload_size : Z).

(** The loop over [i], [n] chunks to go; each buffer with its length. *)
Fixpoint split_loop (n : nat) (i : Z) (o : oracle) : option (list (bytes * Z)) * oracle :=
  match n with
  | O => (Some [], o)
  | S n =>
      let offset := u64 (i * chunk_payload_size) in
      let plen := u64 (blen data - offset) in
      let plen := if chunk_payload_size <? plen then chunk_payload_size else plen in
      let chunk_len := Z.of_nat CWIST_SEQ_HEADER_SIZE + plen in
      let (ok, o) := alloc o in
      if ok then
        let chunk :=
          cwist_seq_chunk_build_header (u16 (i + 1)) total (u16 plen) chunk_payload_size ++
          sub data (Z.to_nat offset) (Z.to_nat plen) in
        let (rest, o) := split_loop n (u16 (i + 1)) o in
        (cons (chunk, chunk_len) <$> rest, o)
      else (None, o)
  end.
End Split.

Definition cwist_seq_split (data : option bytes) (chunk_payload_size : Z) (o : oracle)
  : bool * cwist_seq_message * oracle :=
  match data with
  | None => (false, message_zero, o)
  | Some d =>
      let len := blen d in
      if (len =? 0) || (chunk_payload_size =? 0) then (false, message_zero, o)
      else
        let total32 := u32 (u64 (len + chunk_payload_size - 1) / chunk_payload_size) in
        if (total32 =? 0) || (UINT16_MAX <? total32) || (CWIST_SEQ_MAX_CHUNKS <? total32) ||
           (CWIST_SEQ_MAX_REASSEMBLED_SIZE <? len)
        then (false, message_zero, o)
        else
          let (ok1, o) := alloc o in
          let (ok2, o) := alloc o in
          if negb (ok1 && ok2) then (false, message_zero, o)
          else
            match split_loop d (u16 total32) chunk_payload_size (Z.to_nat (u16 total32)) 0 o with
            | (Some cs, o) =>
                (true, MkMessage (map fst cs) (map snd cs) (u16 total32), o)
            | (None, o) => (false, message_zero, o)
            end
  end.

(** ** The assembler *)

Definition cwist_seq_assembler_create_limited (limit : Z) (o : oracle)
  : option cwist_seq_assembler * oracle :=
  let (ok, o) := alloc o in
  (if ok then Some (assembler_zero <| max_data_len := limit |>) else None, o).
Definition cwist_seq_assembler_create (o : oracle) : option cwist_seq_assembler * oracle :=
  cwist_seq_assembler_create_limited 0 o.

Definition cwist_seq_assembler_reset (a : cwist_seq_assembler) : cwist_seq_assembler :=
  assembler_zero <| max_data_len := a.(max_data_len) |>.

Definition assembler_ceiling (a : cwist_seq_assembler) : Z :=
  if negb (a.(max_data_len) =? 0) then a.(max_data_len) else CWIST_SEQ_MAX_REASSEMBLED_SIZE.

(** First valid chunk: fixes the layout and allocates the buffers, zeroed. *)
Definition feed_first (a : cwist_seq_assembler) (total chunk_size : Z) (o : oracle)
  : bool * cwist_seq_assembler * oracle :=
  let a := a <| a_total := total |> <| a_chunk_size := chunk_size |> in
  if SIZE_MAX / chunk_size <? total then (false, a, o)
  else
    let cap := u64 (total * chunk_size) in
    if assembler_ceiling a <? cap then (false, a <| data_cap := 0 |>, o)
    else
      let (ok1, o) := alloc o in
      let (ok2, o) := alloc o in
      let (ok3, o) := alloc o in
      if negb (ok1 && ok2 && ok3) then (false, assembler_zero, o)
      else
        (true, a <| data_cap := cap |>
                 <| a_data := Some (replicate (Z.to_nat cap) 0) |>
                 <| received := Some (replicate (Z.to_nat total) false) |>
                 <| payload_lens := Some (replicate (Z.to_nat total) 0) |>
                 <| have_state := true |>, o).

(** The second half of the function: the chunk against the established layout. *)
Definition feed_store (a : cwist_seq_assembler) (c : cwist_seq_chunk) (p : bytes)
  : bool * cwist_seq_assembler :=
  let index := Z.to_nat (c.(ck_seq) - 1) in
  let offset := u64 ((c.(ck_seq) - 1) * a.(a_chunk_size)) in
  let d := default [] a.(a_data) in
  let n := Z.to_nat c.(ck_payload_len) in
  if nth index (default [] a.(received)) false then
    let identical :=
      (nth index (default [] a.(payload_lens)) 0 =? c.(ck_payload_len)) &&
      bool_decide (sub d (Z.to_nat offset) n = take n p) in
    (identical, if identical then a else a <| contaminated := true |>)
  else if (a.(data_cap) <? offset) || (a.(data_cap) - offset <? c.(ck_payload_len))
  then (false, a)
  else
    let a := a <| a_data := Some (blit d (Z.to_nat offset) (take n p)) |>
               <| received := Some (<[index := true]> (default [] a.(received))) |>
               <| payload_lens :=
                    Some (<[index := c.(ck_payload_len)]> (default [] a.(payload_lens))) |> in
    let a := if c.(ck_seq) =? c.(ck_total)
             then a <| total_len := u64 (offset + c.(ck_payload_len)) |> else a in
    (true, a <| received_count := u16 (a.(received_count) + 1) |>).

Definition cwist_seq_assembler_feed (a : cwist_seq_assembler) (c : cwist_seq_chunk) (o : oracle)
  : bool * cwist_seq_assembler * oracle :=
  match chunk_fields_valid c.(ck_seq) c.(ck_total) c.(ck_payload_len) c.(ck_chunk_size),
        c.(ck_payload) with
  | true, Some p =>
      let '(ok, a, o) :=
        if a.(have_state)
        then (negb (negb (c.(ck_total) =? a.(a_total)) ||
                    negb (c.(ck_chunk_size) =? a.(a_chunk_size))), a, o)
        else feed_first a c.(ck_total) c.(ck_chunk_size) o in
      if ok then let (r, a) := feed_store a c p in (r, a, o) else (false, a, o)
  | _, _ => (false, a, o)
  end.

Definition cwist_seq_assembler_is_complete (a : cwist_seq_assembler) : bool :=
  a.(have_state) && negb a.(contaminated) && (a.(received_count) =? a.(a_total)) &&
  nth (Z.to_nat (a.(a_total) - 1)) (default [] a.(received)) false && (0 <? a.(total_len)).

(** [out] receives the first [out_cap] of the missing numbers. *)
Fixpoint targets_loop (n : nat) (i : Z) (r : list bool) : list Z :=
  match n with
  | O => []
  | S n =>
      (if nth (Z.to_nat i) r false then [] else [u16 (i + 1)]) ++
      targets_loop n (u16 (i + 1)) r
  end.
Definition cwist_seq_assembler_recovery_targets (a : cwist_seq_assembler) (out_cap : nat)
  : Z * list Z :=
  if negb a.(have_state) || cwist_seq_assembler_is_complete a then (0, [])
  else
    let missing := targets_loop (Z.to_nat a.(a_total)) 0 (default [] a.(received)) in
    (Z.of_nat (length missing), take out_cap missing).

Definition cwist_seq_assembler_get_data (a : cwist_seq_assembler) : option bytes :=
  if cwist_seq_assembler_is_complete a
  then Some (take (Z.to_nat a.(total_len)) (default [] a.(a_data)))
  else None.

(** ** Specification: a finite map from index to payload *)

Record seq_spec := MkSpec {
  sp_limit : Z; sp_layout : option (Z * Z); sp_parts : gmap nat bytes; sp_conflict : bool }.
Definition spec_empty (limit : Z) : seq_spec := MkSpec limit None ∅ false.

Definition chunk_valid (c : cwist_seq_chunk) : bool :=
  chunk_fields_valid c.(ck_seq) c.(ck_total) c.(ck_payload_len) c.(ck_chunk_size).
Definition chunk_index (c : cwist_seq_chunk) : nat := Z.to_nat (c.(ck_seq) - 1).
Definition chunk_part (c : cwist_seq_chunk) : bytes :=
  take (Z.to_nat c.(ck_payload_len)) (default [] c.(ck_payload)).
Definition spec_ceiling (s : seq_spec) : Z :=
  if s.(sp_limit) =? 0 then CWIST_SEQ_MAX_REASSEMBLED_SIZE else s.(sp_limit).

Definition alloc3 (o : oracle) : bool * oracle :=
  let (b1, o) := alloc o in let (b2, o) := alloc o in let (b3, o) := alloc o in
  (b1 && b2 && b3, o).

(** A chunk of an accepted layout is stored once; a different one at the same
    index is a conflict.  A failed allocation forgets everything, the limit
    included. *)
Definition spec_store (s : seq_spec) (c : cwist_seq_chunk) : bool * seq_spec :=
  match s.(sp_parts) !! chunk_index c with
  | Some q =>
      if bool_decide (q = chunk_part c) then (true, s)
      else (false, MkSpec s.(sp_limit) s.(sp_layout) s.(sp_parts) true)
  | None =>
      (true, MkSpec s.(sp_limit) s.(sp_layout)
               (<[chunk_index c := chunk_part c]> s.(sp_parts)) s.(sp_conflict))
  end.

Definition spec_feed (s : seq_spec) (c : cwist_seq_chunk) (o : oracle)
  : bool * seq_spec * oracle :=
  if negb (chunk_valid c) then (false, s, o)
  else
    match c.(ck_payload), s.(sp_layout) with
    | None, _ => (false, s, o)
    | Some _, Some l =>
        if bool_decide (l = (c.(ck_total), c.(ck_chunk_size))) then (spec_store s c, o)
        else (false, s, o)
    | Some _, None =>
        if spec_ceiling s <? c.(ck_total) * c.(ck_chunk_size) then (false, s, o)
        else
          let (ok, o) := alloc3 o in
          if ok then
            (spec_store (MkSpec s.(sp_limit) (Some (c.(ck_total), c.(ck_chunk_size))) ∅ false) c, o)
          else (false, spec_empty 0, o)
    end.

(** Indices still missing, in order. *)
Definition spec_missing (s : seq_spec) : list nat :=
  match s.(sp_layout) with
  | Some (t, _) => filter (fun k => s.(sp_parts) !! k = None) (seq 0 (Z.to_nat t))
  | None => []
  end.
Definition spec_complete (s : seq_spec) : bool :=
  bool_decide (is_Some s.(sp_layout)) && negb s.(sp_conflict) &&
  bool_decide (spec_missing s = []).
Definition spec_message (s : seq_spec) : bytes :=
  match s.(sp_layout) with
  | Some (t, _) => concat (map (fun k => default [] (s.(sp_parts) !! k)) (seq 0 (Z.to_nat t)))
  | None => []
  end.
Definition spec_data (s : seq_spec) : option bytes :=
  if spec_complete s then Some (spec_message s) else None.

(** What C's types and a caller's pointer guarantee of a chunk. *)
Definition chunk_ok (c : cwist_seq_chunk) : Prop :=
  is_u16 c.(ck_seq) /\ is_u16 c.(ck_total) /\ is_u16 c.(ck_payload_len) /\
  is_u16 c.(ck_chunk_size) /\
  forall p, c.(ck_payload) = Some p -> c.(ck_payload_len) <= blen p.

(** ** The representation relation *)

(** A part sits at its place in the buffer, with its length on record. *)
Record part_at (a : cwist_seq_assembler) (d : bytes) (lens : list Z) (k : nat) (p : bytes)
  : Prop := {
  pa_index : Z.of_nat k < a.(a_total);
  pa_len : lens !! k = Some (blen p);
  pa_size : 0 < blen p <= a.(a_chunk_size);
  pa_full : Z.of_nat k + 1 <> a.(a_total) -> blen p = a.(a_chunk_size);
  pa_bytes : sub d (k * Z.to_nat a.(a_chunk_size)) (length p) = p }.

Record asm_full (a : cwist_seq_assembler) (s : seq_spec) (d : bytes) (r : list bool)
    (lens : list Z) : Prop := {
  af_layout : s.(sp_layout) = Some (a.(a_total), a.(a_chunk_size));
  af_total : 1 <= a.(a_total) <= CWIST_SEQ_MAX_CHUNKS;
  af_chunk_size : 1 <= a.(a_chunk_size) < 65536;
  af_cap : a.(data_cap) = a.(a_total) * a.(a_chunk_size);
  af_data : a.(a_data) = Some d;
  af_data_len : blen d = a.(data_cap);
  af_received : a.(received) = Some r;
  af_received_len : Z.of_nat (length r) = a.(a_total);
  af_lens : a.(payload_lens) = Some lens;
  af_lens_len : Z.of_nat (length lens) = a.(a_total);
  af_flags : forall k, (k < length r)%nat ->
    r !! k = Some (bool_decide (is_Some (s.(sp_parts) !! k)));
  af_parts : map_Forall (part_at a d lens) s.(sp_parts);
  af_count : a.(received_count) = Z.of_nat (size s.(sp_parts));
  af_total_len : a.(total_len) =
    match s.(sp_parts) !! Z.to_nat (a.(a_total) - 1) with
    | Some p => (a.(a_total) - 1) * a.(a_chunk_size) + blen p
    | None => 0
    end;
  af_conflict : a.(contaminated) = s.(sp_conflict) }.

Definition asm_repr (a : cwist_seq_assembler) (s : seq_spec) : Prop :=
  a.(max_data_len) = s.(sp_limit) /\
  if a.(have_state) then exists d r lens, asm_full a s d r lens
  else s.(sp_layout) = None /\ s.(sp_parts) = ∅ /\ s.(sp_conflict) = false /\
       a.(contaminated) = false /\ a.(received_count) = 0 /\ a.(total_len) = 0.

(** ** Lemmas *)

Record chunk_facts (c : cwist_seq_chunk) : Prop := {
  cf_seq : 1 <= c.(ck_seq) <= c.(ck_total);
  cf_total : c.(ck_total) <= CWIST_SEQ_MAX_CHUNKS;
  cf_len : 1 <= c.(ck_payload_len) <= c.(ck_chunk_size);
  cf_size : c.(ck_chunk_size) < 65536;
  cf_full : c.(ck_seq) <> c.(ck_total) -> c.(ck_payload_len) = c.(ck_chunk_size) }.

Lemma chunk_valid_facts c : chunk_ok c -> chunk_valid c = true -> chunk_facts c.
Proof.
  intros (H1 & H2 & H3 & H4 & _) H. unfold chunk_valid, chunk_fields_valid, is_u16 in *.
  split; lia.
Qed.

(** A copy changes exactly the span it covers. *)
Lemma sub_blit_same d off src :
  (off + length src <= length d)%nat -> sub (blit d off src) off (length src) = src.
Proof.
  intros H. rewrite blit_in_range by done. unfold sub.
  rewrite drop_app_length' by (rewrite length_take; lia). apply take_app_length.
Qed.
Lemma sub_blit_other d off src off' n :
  (off + length src <= length d)%nat ->
  (off' + n <= off \/ off + length src <= off')%nat ->
  sub (blit d off src) off' n = sub d off' n.
Proof.
  intros H Hd. apply list_eq. intros i. unfold sub.
  destruct (decide (i < n)%nat).
  - rewrite !lookup_take_lt, !lookup_drop by done. apply blit_lookup_out. lia.
  - by rewrite !lookup_take_ge by lia.
Qed.

Lemma part_length c p :
  chunk_ok c -> c.(ck_payload) = Some p -> blen (chunk_part c) = c.(ck_payload_len).
Proof.
  intros (_ & _ & H3 & _ & H) Hp. specialize (H p Hp).
  unfold chunk_part, blen, is_u16 in *. rewrite Hp. cbn. rewrite length_take. lia.
Qed.

Lemma alloc3_eq o :
  alloc3 o =
  (let (b1, o1) := alloc o in let (b2, o2) := alloc o1 in let (b3, o3) := alloc o2 in
   (b1 && b2 && b3, o3)).
Proof. reflexivity. Qed.

(** The buffer range of a chunk of the layout. *)
Lemma chunk_range t cs k :
  1 <= cs < 65536 -> 1 <= t <= CWIST_SEQ_MAX_CHUNKS -> 0 <= k < t ->
  u64 (k * cs) = k * cs /\ k * cs + cs <= t * cs.
Proof. unfold CWIST_SEQ_MAX_CHUNKS. intros. split; [rewrite u64_id; [done|unfold is_u64; nia]|nia]. Qed.

Lemma layout_size t cs :
  1 <= cs < 65536 -> 1 <= t <= CWIST_SEQ_MAX_CHUNKS ->
  (SIZE_MAX / cs <? t) = false /\ u64 (t * cs) = t * cs.
Proof.
  unfold CWIST_SEQ_MAX_CHUNKS, SIZE_MAX, UINT64_MAX. intros. split.
  - apply Z.ltb_ge. apply Z.div_le_lower_bound; nia.
  - rewrite u64_id; [done|unfold is_u64; nia].
Qed.

(** A map whose keys lie below [n] has at most [n] entries, and [n] only when
    none is missing. *)
Lemma bounded_map_size {A} (m : gmap nat A) n :
  (forall k x, m !! k = Some x -> (k < n)%nat) ->
  (size m <= n)%nat /\ (size m = n <-> forall k, (k < n)%nat -> is_Some (m !! k)).
Proof.
  intros H. rewrite <- (size_dom (D := gset nat) m).
  assert (Hsub : dom m ⊆ (set_seq 0 n : gset nat)).
  { intros k [x Hk]%elem_of_dom. apply elem_of_set_seq. specialize (H k x Hk). lia. }
  pose proof (subseteq_size _ _ Hsub) as Hle. rewrite size_set_seq in Hle.
  split; [done|]. split.
  - intros E k Hk. apply elem_of_dom.
    rewrite (set_subseteq_size_eq _ _ Hsub) by (rewrite size_set_seq; lia).
    apply elem_of_set_seq. lia.
  - intros Hall.
    assert (Hsup : (set_seq 0 n : gset nat) ⊆ dom m).
    { intros k Hk%elem_of_set_seq. apply elem_of_dom, Hall. lia. }
    pose proof (subseteq_size _ _ Hsup) as Hge. rewrite size_set_seq in Hge. lia.
Qed.

Lemma part_at_ext a a' d lens k p :
  a_total a' = a_total a -> a_chunk_size a' = a_chunk_size a ->
  part_at a d lens k p -> part_at a' d lens k p.
Proof. intros E1 E2 []. by split; rewrite ?E1, ?E2. Qed.

Lemma parts_bounded a s d r lens k q :
  asm_full a s d r lens -> s.(sp_parts) !! k = Some q -> (k < Z.to_nat a.(a_total))%nat.
Proof.
  intros Hrepr Hk. destruct (af_parts _ _ _ _ _ Hrepr _ _ Hk) as [H _ _ _ _]. lia.
Qed.

Section Store.
Context (a : cwist_seq_assembler) (s : seq_spec) (d : bytes) (r : list bool) (lens : list Z)
  (c : cwist_seq_chunk) (p : bytes).
Hypothesis Hrepr : asm_full a s d r lens.
Hypothesis Hck : chunk_ok c.
Hypothesis Hvalid : chunk_valid c = true.
Hypothesis Hp : c.(ck_payload) = Some p.
Hypothesis Htotal : c.(ck_total) = a.(a_total).
Hypothesis Hsize : c.(ck_chunk_size) = a.(a_chunk_size).

Let off : nat := (chunk_index c * Z.to_nat a.(a_chunk_size))%nat.

Lemma store_facts :
  u64 ((c.(ck_seq) - 1) * a.(a_chunk_size)) = Z.of_nat off /\
  Z.of_nat off + a.(a_chunk_size) <= a.(data_cap) /\
  (chunk_index c < length r)%nat /\ (chunk_index c < length lens)%nat /\
  (off + length (chunk_part c) <= length d)%nat.
Proof.
  pose proof (chunk_valid_facts c Hck Hvalid) as [].
  pose proof (part_length c p Hck Hp) as Hl.
  destruct Hrepr as [_ Ht Hcs Hcap _ Hdl _ Hrl _ Hll _ _ _ _ _].
  destruct (chunk_range a.(a_total) a.(a_chunk_size) (c.(ck_seq) - 1)) as [E1 E2]; [done..|lia|].
  assert (Z.of_nat off = (c.(ck_seq) - 1) * a.(a_chunk_size)).
  { unfold off, chunk_index. rewrite Nat2Z.inj_mul, !Z2Nat.id by lia. done. }
  unfold chunk_index, blen in *. split_and!; lia.
Qed.

Lemma stored_flag :
  nth (chunk_index c) r false = bool_decide (is_Some (s.(sp_parts) !! chunk_index c)).
Proof.
  destruct store_facts as (_ & _ & Hi & _ & _).
  apply nth_lookup_Some. by apply (af_flags _ _ _ _ _ Hrepr).
Qed.

(** A duplicate is recognised as such exactly when it equals the stored part. *)
Lemma identical_spec q :
  s.(sp_parts) !! chunk_index c = Some q ->
  (nth (chunk_index c) lens 0 =? c.(ck_payload_len)) &&
  bool_decide (sub d off (Z.to_nat c.(ck_payload_len)) = chunk_part c) =
  bool_decide (q = chunk_part c).
Proof.
  intros Hq. pose proof (part_length c p Hck Hp) as Hl.
  destruct (af_parts _ _ _ _ _ Hrepr _ _ Hq) as [_ Hlen _ _ Hb].
  rewrite (nth_lookup_Some lens _ 0 _ Hlen). fold off in Hb.
  apply Bool.eq_iff_eq_true.
  rewrite andb_true_iff, Z.eqb_eq, !bool_decide_eq_true. split.
  - intros [E1 E2]. rewrite <- E2, <- E1. unfold blen. by rewrite Nat2Z.id.
  - intros ->. split; [done|]. rewrite <- Hl. unfold blen. by rewrite Nat2Z.id.
Qed.

(** The parts already there keep their place when a new one is copied in. *)
Lemma parts_kept k q :
  s.(sp_parts) !! chunk_index c = None -> s.(sp_parts) !! k = Some q ->
  part_at a (blit d off (chunk_part c)) (<[chunk_index c := c.(ck_payload_len)]> lens) k q.
Proof.
  intros Hnone Hk. destruct store_facts as (_ & _ & _ & _ & Ho).
  pose proof (chunk_valid_facts c Hck Hvalid) as [].
  pose proof (part_length c p Hck Hp) as Hl.
  assert (Hne : k <> chunk_index c) by congruence.
  destruct (af_parts _ _ _ _ _ Hrepr _ _ Hk) as [H1 H2 H3 H4 H5]. split; try done.
  - by rewrite list_lookup_insert_ne.
  - rewrite sub_blit_other; [done|done|]. unfold off, blen in *.
    destruct (decide (k < chunk_index c)%nat); [left|right]; nia.
Qed.

Lemma new_part :
  part_at a (blit d off (chunk_part c)) (<[chunk_index c := c.(ck_payload_len)]> lens)
    (chunk_index c) (chunk_part c).
Proof.
  destruct store_facts as (_ & _ & Hi & Hi' & Ho).
  pose proof (chunk_valid_facts c Hck Hvalid) as [].
  pose proof (part_length c p Hck Hp) as Hl.
  pose proof (af_received_len _ _ _ _ _ Hrepr).
  split; rewrite ?Hl, <- ?Hsize; [lia| |lia| |].
  - by rewrite list_lookup_insert_eq.
  - intros Hne. apply cf_full0. unfold chunk_index in Hne. lia.
  - rewrite Hsize. fold off. by apply sub_blit_same.
Qed.

(** The assembler after a new chunk was stored. *)
Let stored : cwist_seq_assembler :=
  let a' := a <| a_data := Some (blit d off (chunk_part c)) |>
              <| received := Some (<[chunk_index c := true]> r) |>
              <| payload_lens := Some (<[chunk_index c := c.(ck_payload_len)]> lens) |> in
  let a'' := if c.(ck_seq) =? c.(ck_total)
             then a' <| total_len := u64 (Z.of_nat off + c.(ck_payload_len)) |> else a' in
  a'' <| received_count := u16 (a''.(received_count) + 1) |>.

Lemma stored_layout :
  a_total stored = a.(a_total) /\ a_chunk_size stored = a.(a_chunk_size) /\
  data_cap stored = a.(data_cap) /\ contaminated stored = a.(contaminated) /\
  max_data_len stored = a.(max_data_len) /\ have_state stored = a.(have_state).
Proof. unfold stored. by destruct (_ =? _). Qed.

Lemma stored_total_len :
  s.(sp_parts) !! chunk_index c = None ->
  total_len stored =
  match <[chunk_index c := chunk_part c]> s.(sp_parts) !! Z.to_nat (a.(a_total) - 1) with
  | Some q => (a.(a_total) - 1) * a.(a_chunk_size) + blen q
  | None => 0
  end.
Proof.
  intros Hnone. destruct store_facts as (E1 & E2 & Hi & Hi' & Ho).
  pose proof (chunk_valid_facts c Hck Hvalid) as [].
  pose proof (part_length c p Hck Hp) as Hl.
  pose proof (af_total_len _ _ _ _ _ Hrepr) as Htl. pose proof (af_cap _ _ _ _ _ Hrepr).
  pose proof (af_chunk_size _ _ _ _ _ Hrepr). pose proof (af_total _ _ _ _ _ Hrepr).
  unfold CWIST_SEQ_MAX_CHUNKS in *.
  unfold stored. destruct (Z.eqb_spec c.(ck_seq) c.(ck_total)) as [Hlast|Hlast]; cbn.
  - replace (Z.to_nat (a_total a - 1)) with (chunk_index c) by (unfold chunk_index; lia).
    rewrite lookup_insert_eq, Hl. rewrite u64_id by (unfold is_u64; nia).
    rewrite <- E1, u64_id by (unfold is_u64; nia). lia.
  - rewrite lookup_insert_ne; [done|]. unfold chunk_index. lia.
Qed.

Lemma insert_repr :
  s.(sp_parts) !! chunk_index c = None ->
  asm_full stored
    (MkSpec s.(sp_limit) s.(sp_layout) (<[chunk_index c := chunk_part c]> s.(sp_parts))
       s.(sp_conflict))
    (blit d off (chunk_part c)) (<[chunk_index c := true]> r)
    (<[chunk_index c := c.(ck_payload_len)]> lens).
Proof.
  intros Hnone. destruct store_facts as (E1 & E2 & Hi & Hi' & Ho).
  destruct (bounded_map_size (<[chunk_index c := chunk_part c]> s.(sp_parts))
    (Z.to_nat a.(a_total))) as [Hsz _].
  { intros k q [[<- _]|[_ Hk]]%lookup_insert_Some; [|by eapply parts_bounded].
    pose proof (af_received_len _ _ _ _ _ Hrepr). lia. }
  pose proof parts_kept as Hkept. pose proof new_part as Hnew.
  pose proof (stored_total_len Hnone) as Htl'. pose proof stored_layout as (S1 & S2 & S3 & S4 & _).
  destruct Hrepr as [Hlay Ht Hcs Hcap Hd Hdl Hr Hrl Hlens Hll Hfl Hparts Hcnt Htl Hc].
  rewrite map_size_insert_None in Hsz by done.
  split; rewrite ?S1, ?S2, ?S3, ?S4; rewrite ?length_insert; cbn; try done.
  1,3,4: unfold stored; by destruct (_ =? _).
  - unfold blen in *. by rewrite length_blit.
  - intros k Hk. destruct (decide (k = chunk_index c)) as [->|Hne].
    + rewrite list_lookup_insert_eq, lookup_insert_eq by lia.
      by rewrite bool_decide_eq_true_2 by eauto.
    + rewrite list_lookup_insert_ne, lookup_insert_ne by done. auto.
  - intros k q Hkq. apply part_at_ext with a; [done..|].
    apply lookup_insert_Some in Hkq as [[<- <-]|[_ Hk]]; auto.
  - unfold CWIST_SEQ_MAX_CHUNKS in *. unfold stored.
    transitivity (u16 (received_count a + 1)); [by destruct (_ =? _)|].
    rewrite map_size_insert_None by done. rewrite Hcnt, u16_id by (unfold is_u16; lia). lia.
Qed.

(** The second half of the function implements [spec_store]. *)
Lemma feed_store_refines :
  let (b, a') := feed_store a c p in
  let (b', s') := spec_store s c in
  b = b' /\ a'.(max_data_len) = a.(max_data_len) /\ a'.(have_state) = a.(have_state) /\
  s'.(sp_limit) = s.(sp_limit) /\ exists d' r' lens', asm_full a' s' d' r' lens'.
Proof.
  destruct store_facts as (E1 & E2 & _).
  pose proof (chunk_valid_facts c Hck Hvalid) as [].
  pose proof (af_chunk_size _ _ _ _ _ Hrepr) as Hcs.
  assert (Et : take (Z.to_nat c.(ck_payload_len)) p = chunk_part c).
  { unfold chunk_part. by rewrite Hp. }
  unfold feed_store. fold (chunk_index c). rewrite E1, Nat2Z.id, Et.
  rewrite (af_data _ _ _ _ _ Hrepr), (af_received _ _ _ _ _ Hrepr), (af_lens _ _ _ _ _ Hrepr).
  cbn [from_option id]. rewrite stored_flag. unfold spec_store.
  destruct (s.(sp_parts) !! chunk_index c) as [q|] eqn:Hq.
  - rewrite bool_decide_eq_true_2 by eauto.
    cbv zeta. rewrite (identical_spec q Hq).
    destruct (bool_decide (q = chunk_part c)); cbn.
    + split_and!; try done. by exists d, r, lens.
    + split_and!; try done. exists d, r, lens.
      destruct Hrepr; split; try done.
      intros k q' Hk. by apply part_at_ext with a; [..|auto].
  - rewrite bool_decide_eq_false_2 by (by intros []).
    rewrite (proj2 (orb_false_iff _ _)) by lia. cbv zeta.
    pose proof stored_layout as (_ & _ & _ & _ & S5 & S6).
    split_and!; try done. eexists _, _, _. by apply insert_repr.
Qed.
End Store.

(** A state without layout forgets whatever numbers it holds. *)
Lemma first_repr a s c o :
  asm_repr a s -> a.(have_state) = false -> chunk_ok c -> chunk_valid c = true ->
  let '(b, a', o') := feed_first a c.(ck_total) c.(ck_chunk_size) o in
  match spec_ceiling s <? c.(ck_total) * c.(ck_chunk_size), alloc3 o with
  | true, _ => b = false /\ o' = o /\ asm_repr a' s
  | false, (false, o3) => b = false /\ o' = o3 /\ a' = assembler_zero
  | false, (true, o3) =>
      b = true /\ o' = o3 /\ a'.(max_data_len) = s.(sp_limit) /\ a'.(have_state) = true /\
      a'.(a_total) = c.(ck_total) /\ a'.(a_chunk_size) = c.(ck_chunk_size) /\
      exists d r lens,
        asm_full a' (MkSpec s.(sp_limit) (Some (c.(ck_total), c.(ck_chunk_size))) ∅ false) d r lens
  end.
Proof.
  intros [Hlim Hrepr] Hno Hck Hv. rewrite Hno in Hrepr.
  destruct Hrepr as (Hl & Hparts & Hcf & Hcont & Hcnt & Htl).
  pose proof (chunk_valid_facts c Hck Hv) as [H1 H2 H3 H4 H5].
  destruct (layout_size c.(ck_total) c.(ck_chunk_size)) as [E1 E2]; [lia..|].
  unfold feed_first. cbv zeta. rewrite E1, E2.
  change (assembler_ceiling _) with (assembler_ceiling a).
  assert (Ec : assembler_ceiling a = spec_ceiling s).
  { unfold assembler_ceiling, spec_ceiling. rewrite Hlim. by destruct (_ =? 0). }
  rewrite Ec. destruct (spec_ceiling s <? ck_total c * ck_chunk_size c).
  { cbv beta iota. split; [done|]. split; [done|]. split; [done|]. cbn. by rewrite Hno. }
  unfold alloc3. destruct (alloc o) as [b1 o1], (alloc o1) as [b2 o2], (alloc o2) as [b3 o3].
  destruct (b1 && b2 && b3); cbn; split_and!; try done.
  eexists _, _, _. split; cbn; try done; rewrite ?length_replicate; try lia.
  - unfold blen. rewrite length_replicate. rewrite Z2Nat.id by nia. done.
  - intros k Hk. rewrite lookup_empty, bool_decide_eq_false_2 by (by intros []).
    by apply lookup_replicate_2.
Qed.

(** Every call of the assembler is a step of the specification, on every
    branch: malformed chunks, other layouts, size limit, failed allocations,
    new parts, duplicates and conflicts. *)
Lemma feed_refines a s c o :
  asm_repr a s -> chunk_ok c ->
  let '(b, a', o') := cwist_seq_assembler_feed a c o in
  let '(b', s', o'') := spec_feed s c o in
  b = b' /\ o' = o'' /\ asm_repr a' s'.
Proof.
  intros Hrepr Hck. unfold cwist_seq_assembler_feed, spec_feed. fold (chunk_valid c).
  destruct (chunk_valid c) eqn:Hv; cbn [negb]; [|done].
  destruct (ck_payload c) as [p|] eqn:Hp; [|done].
  destruct (have_state a) eqn:Hs.
  - pose proof Hrepr as [Hlim Hr]. rewrite Hs in Hr. destruct Hr as (d & r & lens & Hfull).
    rewrite (af_layout _ _ _ _ _ Hfull).
    assert (E : negb (negb (ck_total c =? a_total a) || negb (ck_chunk_size c =? a_chunk_size a)) =
      bool_decide ((a_total a, a_chunk_size a) = (ck_total c, ck_chunk_size c))).
    { apply Bool.eq_iff_eq_true. rewrite bool_decide_eq_true.
      rewrite negb_orb, !negb_involutive, andb_true_iff, !Z.eqb_eq.
      split; [by intros [-> ->]|by intros [= -> ->]]. }
    rewrite E. destruct (bool_decide _) eqn:Eb; [|done].
    apply bool_decide_eq_true in Eb as [= Et Ec].
    pose proof (feed_store_refines a s d r lens c p Hfull Hck Hv Hp (eq_sym Et) (eq_sym Ec)) as H.
    destruct (feed_store a c p) as [b a'], (spec_store s c) as [b' s'].
    destruct H as (-> & H1 & H2 & H3 & H4). split; [done|]. split; [done|].
    split; [congruence|]. by rewrite H2, Hs.
  - assert (Hl : sp_layout s = None).
    { destruct Hrepr as [_ Hr]. rewrite Hs in Hr. apply Hr. }
    rewrite Hl. pose proof (first_repr a s c o Hrepr Hs Hck Hv) as H.
    destruct (feed_first a (ck_total c) (ck_chunk_size c) o) as [[b a'] o'].
    destruct (spec_ceiling s <? ck_total c * ck_chunk_size c); [by destruct H as (-> & -> & H)|].
    destruct (alloc3 o) as [[] o3].
    2: { destruct H as (-> & -> & ->). split; [done|]. split; [done|]. by split. }
    destruct H as (-> & -> & H1 & H2 & H3 & H4 & d & r & lens & Hfull).
    pose proof (feed_store_refines a' _ d r lens c p Hfull Hck Hv Hp (eq_sym H3) (eq_sym H4)) as H.
    destruct (feed_store a' c p) as [b1 a1], (spec_store _ c) as [b' s'].
    destruct H as (-> & H5 & H6 & H7 & H8). split; [done|]. split; [done|].
    split; [cbn in *; congruence|]. by rewrite H6, H2.
Qed.

(** ** What the queries report *)

Lemma missing_nil s t cs :
  s.(sp_layout) = Some (t, cs) ->
  (spec_missing s = [] <-> forall k, (k < Z.to_nat t)%nat -> is_Some (s.(sp_parts) !! k)).
Proof.
  intros Hl. unfold spec_missing. rewrite Hl. split.
  - intros E k Hk. destruct (s.(sp_parts) !! k) eqn:Hs; [eauto|].
    assert (Hin : k ∈ filter (fun k => s.(sp_parts) !! k = None) (seq 0 (Z.to_nat t))).
    { apply list_elem_of_filter. split; [done|]. apply elem_of_seq. lia. }
    rewrite E in Hin. by apply not_elem_of_nil in Hin.
  - intros H. apply elem_of_nil_inv. intros k [Hn Hk]%list_elem_of_filter.
    apply elem_of_seq in Hk. destruct (H k) as [x Hx]; [lia|congruence].
Qed.

Lemma complete_refines a s :
  asm_repr a s -> cwist_seq_assembler_is_complete a = spec_complete s.
Proof.
  intros [_ H]. unfold cwist_seq_assembler_is_complete, spec_complete.
  destruct (have_state a).
  2: { destruct H as (-> & _). rewrite bool_decide_eq_false_2 by (by intros []). done. }
  destruct H as (d & r & lens & Hfull).
  pose proof (fun k q => parts_bounded a s d r lens k q Hfull) as Hb.
  destruct (bounded_map_size _ _ Hb) as [_ Hsz].
  destruct Hfull as [Hlay Ht _ _ _ _ Hr Hrl _ _ Hfl Hparts Hcnt Htl Hc].
  rewrite Hlay, bool_decide_eq_true_2 by eauto. rewrite Hc. cbn [andb].
  destruct (sp_conflict s); [done|]. cbn [andb negb].
  apply Bool.eq_iff_eq_true. rewrite !andb_true_iff, bool_decide_eq_true, (missing_nil _ _ _ Hlay).
  rewrite Z.eqb_eq, Hcnt, Hr. cbn [from_option id]. split.
  - intros [[E _] _]. apply Hsz. lia.
  - intros Hall. pose proof (proj2 Hsz Hall) as E. destruct (Hall (Z.to_nat (a_total a - 1))) as [q Hq]; [lia|].
    split; [split; [lia|]|].
    + apply nth_lookup_Some. rewrite Hfl by lia. by rewrite bool_decide_eq_true_2 by eauto.
    + rewrite Htl, Hq. destruct (Hparts _ _ Hq) as [_ _ ? _ _]. nia.
Qed.

(** The parts in order are the front of the buffer. *)
Lemma parts_concat a s d r lens :
  asm_full a s d r lens -> forall n p,
  (S n <= Z.to_nat a.(a_total))%nat -> s.(sp_parts) !! n = Some p ->
  (forall k, (k < n)%nat -> is_Some (s.(sp_parts) !! k)) ->
  concat (map (fun k => default [] (s.(sp_parts) !! k)) (seq 0 (S n))) =
  take (n * Z.to_nat a.(a_chunk_size) + length p) d.
Proof.
  intros Hfull n. induction n as [|n IH]; intros p Hn Hp Hall.
  - destruct (af_parts _ _ _ _ _ Hfull _ _ Hp) as [_ _ _ _ Hb]. unfold sub in Hb.
    cbn [seq map concat]. by rewrite Hp, app_nil_r, <- Hb at 1.
  - destruct (Hall n ltac:(lia)) as [q Hq].
    rewrite seq_S, map_app, concat_app, (IH q) by (auto with lia).
    destruct (af_parts _ _ _ _ _ Hfull _ _ Hp) as [_ _ _ _ Hb].
    destruct (af_parts _ _ _ _ _ Hfull _ _ Hq) as [_ _ ? Hqf _]. unfold sub, blen in *.
    cbn [map concat]. rewrite Nat.add_0_l, Hp, app_nil_r. cbn [from_option id].
    replace (n * Z.to_nat a.(a_chunk_size) + length q)%nat
      with (S n * Z.to_nat a.(a_chunk_size))%nat by lia.
    rewrite <- Hb at 1. by rewrite take_take_drop.
Qed.

Lemma data_refines a s : asm_repr a s -> cwist_seq_assembler_get_data a = spec_data s.
Proof.
  intros H. unfold cwist_seq_assembler_get_data, spec_data. rewrite (complete_refines a s H).
  destruct (spec_complete s) eqn:Hc; [|done]. f_equal.
  unfold spec_complete in Hc. rewrite !andb_true_iff, !bool_decide_eq_true in Hc.
  destruct Hc as [[[l Hl] _] Hm]. destruct H as [_ H].
  destruct (have_state a); [|destruct H; congruence].
  destruct H as (d & r & lens & Hfull).
  pose proof (af_total _ _ _ _ _ Hfull). pose proof (af_chunk_size _ _ _ _ _ Hfull).
  pose proof (af_layout _ _ _ _ _ Hfull) as Hlay.
  pose proof (proj1 (missing_nil s _ _ Hlay) Hm) as Hall.
  destruct (Hall (Z.to_nat (a_total a - 1))) as [p Hp]; [lia|].
  rewrite (af_total_len _ _ _ _ _ Hfull), (af_data _ _ _ _ _ Hfull), Hp. cbn [from_option id].
  unfold spec_message. rewrite Hlay.
  replace (Z.to_nat (a_total a)) with (S (Z.to_nat (a_total a - 1))) by lia.
  rewrite (parts_concat a s d r lens Hfull _ p) by (auto with lia).
  f_equal. unfold blen. nia.
Qed.

Lemma targets_loop_spec r n i :
  Z.of_nat (i + n) <= CWIST_SEQ_MAX_CHUNKS ->
  targets_loop n (Z.of_nat i) r =
  map (fun k => Z.of_nat (S k)) (filter (fun k => nth k r false = false) (seq i n)).
Proof.
  unfold CWIST_SEQ_MAX_CHUNKS. revert i. induction n as [|n IH]; intros i Hi; [done|].
  cbn [targets_loop seq]. rewrite Nat2Z.id.
  rewrite u16_id by (unfold is_u16; lia).
  replace (Z.of_nat i + 1) with (Z.of_nat (S i)) by lia. rewrite IH by lia.
  rewrite filter_cons. by destruct (nth i r false).
Qed.

Lemma targets_refines a s cap :
  asm_repr a s ->
  cwist_seq_assembler_recovery_targets a cap =
  (if spec_complete s then (0, [])
   else (Z.of_nat (length (spec_missing s)),
         take cap (map (fun k => Z.of_nat (S k)) (spec_missing s)))).
Proof.
  intros H. unfold cwist_seq_assembler_recovery_targets. rewrite (complete_refines a s H).
  destruct (spec_complete s); [by rewrite orb_true_r|]. rewrite orb_false_r.
  destruct H as [_ H]. destruct (have_state a).
  2: { destruct H as (E & _). unfold spec_missing. rewrite E. by destruct cap. }
  destruct H as (d & r & lens & Hfull). cbn [negb]. cbv zeta.
  pose proof (af_total _ _ _ _ _ Hfull) as Ht. unfold CWIST_SEQ_MAX_CHUNKS in Ht.
  rewrite (af_received _ _ _ _ _ Hfull). cbn [from_option id].
  change 0 with (Z.of_nat 0). rewrite targets_loop_spec by (unfold CWIST_SEQ_MAX_CHUNKS; lia).
  unfold spec_missing. rewrite (af_layout _ _ _ _ _ Hfull), length_map.
  assert (E : filter (fun k => nth k r false = false) (seq 0 (Z.to_nat (a_total a))) =
    filter (fun k => s.(sp_parts) !! k = None) (seq 0 (Z.to_nat (a_total a)))); [|by rewrite E].
  apply list_filter_iff. intros k. pose proof (af_received_len _ _ _ _ _ Hfull).
  destruct (decide (k < length r)%nat) as [Hk|Hk].
  - rewrite (nth_lookup_Some _ _ _ _ (af_flags _ _ _ _ _ Hfull k Hk)), bool_decide_eq_false.
    symmetry. apply eq_None_not_Some.
  - rewrite nth_overflow by lia. split; [intros _|done].
    destruct (s.(sp_parts) !! k) as [q|] eqn:Hq; [|done].
    pose proof (parts_bounded a s d r lens k q Hfull Hq). lia.
Qed.

(** ** Sequences of calls *)

Inductive seq_op := OpFeed (c : cwist_seq_chunk) | OpReset.
Definition op_ok (op : seq_op) : Prop :=
  match op with OpFeed c => chunk_ok c | OpReset => True end.

Fixpoint asm_run (ops : list seq_op) (a : cwist_seq_assembler) (o : oracle)
  : list bool * cwist_seq_assembler * oracle :=
  match ops with
  | [] => ([], a, o)
  | OpFeed c :: ops =>
      let '(b, a, o) := cwist_seq_assembler_feed a c o in
      let '(bs, a, o) := asm_run ops a o in (b :: bs, a, o)
  | OpReset :: ops => asm_run ops (cwist_seq_assembler_reset a) o
  end.
Fixpoint spec_run (ops : list seq_op) (s : seq_spec) (o : oracle) : list bool * seq_spec * oracle :=
  match ops with
  | [] => ([], s, o)
  | OpFeed c :: ops =>
      let '(b, s, o) := spec_feed s c o in
      let '(bs, s, o) := spec_run ops s o in (b :: bs, s, o)
  | OpReset :: ops => spec_run ops (spec_empty s.(sp_limit)) o
  end.

Lemma reset_refines a s :
  asm_repr a s -> asm_repr (cwist_seq_assembler_reset a) (spec_empty s.(sp_limit)).
Proof. intros [H _]. by split. Qed.

Lemma run_refines ops : forall a s o,
  asm_repr a s -> Forall op_ok ops ->
  let '(bs, a', o1) := asm_run ops a o in
  let '(bs', s', o2) := spec_run ops s o in
  bs = bs' /\ o1 = o2 /\ asm_repr a' s'.
Proof.
  induction ops as [|[c|] ops IH]; intros a s o Hr Hok; cbn [asm_run spec_run]; [done| |].
  - apply list.Forall_cons_1 in Hok as [Hc Hok]. pose proof (feed_refines a s c o Hr Hc) as H.
    destruct (cwist_seq_assembler_feed a c o) as [[b a1] o1], (spec_feed s c o) as [[b' s1] o2].
    destruct H as (-> & -> & H). specialize (IH a1 s1 o2 H Hok).
    destruct (asm_run ops a1 o2) as [[bs a2] o3], (spec_run ops s1 o2) as [[bs' s2] o4].
    by destruct IH as (-> & -> & IH).
  - apply list.Forall_cons_1 in Hok as [_ Hok]. apply IH; [by apply reset_refines|done].
Qed.

Lemma assembler_steps ops limit o a o' :
  cwist_seq_assembler_create_limited limit o = (Some a, o') -> Forall op_ok ops ->
  let '(bs, a', o1) := asm_run ops a o' in
  let '(bs', s', o2) := spec_run ops (spec_empty limit) o' in
  bs = bs' /\ o1 = o2 /\ asm_repr a' s'.
Proof.
  unfold cwist_seq_assembler_create_limited. destruct (alloc o) as [[] o1]; [|done].
  intros [= <- <-] Hok. apply run_refines; [by split|done].
Qed.

(** An assembler is a finite map from chunk index to payload.  Whatever
    chunks it is fed, well-formed or not, in whatever order, with resets in
    between and whichever allocations fail, every call answers as the map
    does: a part is stored once, an identical duplicate is accepted and changes
    nothing, a different one is refused and recorded as a conflict, another
    layout is refused, a layout beyond the limit is refused.  Afterwards the
    queries are those of the map: complete when nothing is missing and nothing
    conflicted, the recovery targets are the missing numbers in ascending
    order, and the data is the parts in order. *)
Theorem assembler_refines ops limit o a o' :
  cwist_seq_assembler_create_limited limit o = (Some a, o') -> Forall op_ok ops ->
  let '(bs, a', o1) := asm_run ops a o' in
  let '(bs', s', o2) := spec_run ops (spec_empty limit) o' in
  bs = bs' /\ o1 = o2 /\
  cwist_seq_assembler_is_complete a' = spec_complete s' /\
  cwist_seq_assembler_get_data a' = spec_data s' /\
  forall cap, cwist_seq_assembler_recovery_targets a' cap =
    (if spec_complete s' then (0, [])
     else (Z.of_nat (length (spec_missing s')),
           take cap (map (fun k => Z.of_nat (S k)) (spec_missing s')))).
Proof.
  intros Hc Hok. pose proof (assembler_steps ops limit o a o' Hc Hok) as H.
  destruct (asm_run _ _ _) as [[bs a'] o2], (spec_run _ _ _) as [[bs' s'] o3].
  destruct H as (-> & -> & H). split; [done|]. split; [done|].
  split; [by apply complete_refines|]. split; [by apply data_refines|].
  intros cap. by apply targets_refines.
Qed.

(** ** Splitting and reassembling *)

(** Parts of a message, and the buffers that carry them. *)
Definition genuine_part (d : bytes) (cps : Z) (k : nat) : bytes :=
  take (Z.to_nat cps) (drop (k * Z.to_nat cps) d).
Definition genuine_chunk (d : bytes) (cps total : Z) (k : nat) : bytes :=
  cwist_seq_chunk_build_header (Z.of_nat k + 1) total (blen (genuine_part d cps k)) cps ++
  genuine_part d cps k.

Lemma seq_u16_roundtrip v : is_u16 v ->
  u16 (Z.lor (Z.shiftl (u8 (Z.land (Z.shiftr v 8) 255)) 8) (u8 (Z.land v 255))) = v.
Proof.
  intros Hv. unfold is_u16 in Hv. shifts.
  rewrite lor_shiftl_add by (change (2 ^ 8) with 256; mlia). change (2 ^ 8) with 256. mlia.
Qed.

Lemma parse_build seq total len size p c0 :
  is_u16 seq -> is_u16 total -> is_u16 len -> is_u16 size ->
  cwist_seq_chunk_parse (Some (cwist_seq_chunk_build_header seq total len size ++ p)) (Some c0) =
  (chunk_fields_valid seq total len size && negb (blen p <? len),
   Some (MkChunk seq total len size (Some p))).
Proof.
  intros H1 H2 H3 H4. unfold cwist_seq_chunk_parse, cwist_seq_chunk_build_header.
  rewrite blen_app. change (blen (seq_write_u16 seq ++ _)) with 8.
  change (Z.of_nat CWIST_SEQ_HEADER_SIZE) with 8. pose proof (blen_nonneg p).
  replace (8 + blen p - 8) with (blen p) by lia.
  destruct (Z.ltb_spec (8 + blen p) 8); [lia|].
  unfold seq_read_u16. cbn [seq_write_u16 app rd nth Nat.add].
  by rewrite !seq_u16_roundtrip by done.
Qed.

Lemma parse_ok b c0 c :
  cwist_seq_chunk_parse (Some b) (Some c0) = (true, Some c) ->
  chunk_ok c /\ chunk_valid c = true /\ exists p, c.(ck_payload) = Some p.
Proof.
  unfold cwist_seq_chunk_parse. destruct (_ <? _) eqn:Hl; [done|]. cbv zeta.
  intros [= Hv <-]. apply andb_true_iff in Hv as [Hv Hp].
  split; [|split; [done|by eexists]].
  unfold chunk_ok; cbn [ck_seq ck_total ck_payload_len ck_chunk_size ck_payload].
  split_and!; [apply u16_range..|]. intros p [= <-]. unfold blen in *. rewrite length_drop.
  change CWIST_SEQ_HEADER_SIZE with 8%nat in *.
  apply negb_true_iff in Hp. apply Z.ltb_ge in Hp, Hl. lia.
Qed.

Lemma genuine_part_length d cps k :
  0 <= cps -> length (genuine_part d cps k) =
    Nat.min (Z.to_nat cps) (length d - k * Z.to_nat cps).
Proof. intros. unfold genuine_part. by rewrite length_take, length_drop. Qed.

Lemma split_loop_spec d total cps n : forall i o l o',
  1 <= cps < 65536 -> blen d <= CWIST_SEQ_MAX_REASSEMBLED_SIZE ->
  Z.of_nat (i + n) <= CWIST_SEQ_MAX_CHUNKS -> (Z.of_nat (i + n) - 1) * cps < blen d ->
  split_loop d total cps n (Z.of_nat i) o = (Some l, o') ->
  map fst l = map (genuine_chunk d cps total) (seq i n) /\
  map snd l = map blen (map fst l).
Proof.
  unfold CWIST_SEQ_MAX_CHUNKS, CWIST_SEQ_MAX_REASSEMBLED_SIZE.
  induction n as [|n IH]; intros i o l o' Hc Hd Hn Hlen; cbn [split_loop].
  { by intros [= <- <-]. }
  rewrite (u64_id (Z.of_nat i * cps)) by (unfold is_u64; nia).
  rewrite (u64_id (blen d - _)) by (unfold is_u64; nia).
  set (plen := if cps <? _ then _ else _).
  assert (E : plen = blen (genuine_part d cps i)).
  { unfold blen at 1. rewrite genuine_part_length by lia. unfold plen, blen in *.
    destruct (Z.ltb_spec cps (Z.of_nat (length d) - Z.of_nat i * cps)); nia. }
  assert (Hp : 1 <= plen <= cps).
  { rewrite E. unfold blen in *. rewrite genuine_part_length by lia. nia. }
  assert (Es : sub d (Z.to_nat (Z.of_nat i * cps)) (Z.to_nat plen) = genuine_part d cps i).
  { rewrite E. unfold sub, blen. rewrite Nat2Z.id.
    replace (Z.to_nat (Z.of_nat i * cps)) with (i * Z.to_nat cps)%nat by nia.
    rewrite genuine_part_length by lia. unfold genuine_part. rewrite <- take_take.
    rewrite (take_ge (drop _ d)) by (rewrite length_drop; lia). done. }
  destruct (alloc o) as [[] o1]; [|done].
  rewrite !u16_id by (unfold is_u16; lia). rewrite Es, E.
  replace (Z.of_nat i + 1) with (Z.of_nat (S i)) by lia.
  destruct (split_loop d total cps n (Z.of_nat (S i)) o1) as [[l1|] o2] eqn:Hl; [|done].
  intros [= <- <-]. destruct (IH (S i) o1 l1 o2) as [IH1 IH2]; [lia|lia|lia|nia|done|].
  cbn [map seq fst snd]. rewrite IH2, <- IH1. unfold genuine_chunk.
  replace (Z.of_nat i + 1) with (Z.of_nat (S i)) by lia. split; [done|].
  f_equal. unfold blen. cbn [length]. change CWIST_SEQ_HEADER_SIZE with 8%nat. lia.
Qed.

(** What the caller of a successful split holds. *)
Record split_facts (d : bytes) (cps : Z) (msg : cwist_seq_message) : Prop := {
  sf_cps : 1 <= cps < 65536;
  sf_count : 1 <= msg.(msg_count) <= CWIST_SEQ_MAX_CHUNKS;
  sf_low : (msg.(msg_count) - 1) * cps < blen d;
  sf_high : blen d <= msg.(msg_count) * cps;
  sf_chunks : msg.(msg_chunks) =
    map (genuine_chunk d cps msg.(msg_count)) (seq 0 (Z.to_nat msg.(msg_count)));
  sf_lens : msg.(msg_chunk_lens) = map blen msg.(msg_chunks) }.

Lemma split_spec d cps o msg o' :
  is_u16 cps -> cwist_seq_split (Some d) cps o = (true, msg, o') -> split_facts d cps msg.
Proof.
  unfold is_u16. intros Hc. unfold cwist_seq_split. pose proof (blen_nonneg d).
  destruct ((blen d =? 0) || (cps =? 0)) eqn:E0; [done|]. cbv zeta.
  set (q := u64 (blen d + cps - 1) / cps).
  destruct ((u32 q =? 0) || (UINT16_MAX <? u32 q) || (CWIST_SEQ_MAX_CHUNKS <? u32 q) ||
    (CWIST_SEQ_MAX_REASSEMBLED_SIZE <? blen d)) eqn:E1; [done|].
  unfold CWIST_SEQ_MAX_CHUNKS, CWIST_SEQ_MAX_REASSEMBLED_SIZE, UINT16_MAX in E1.
  rewrite !orb_false_iff, Z.eqb_neq, !Z.ltb_ge in E1.
  assert (Hq : q = (blen d + cps - 1) / cps) by (unfold q; by rewrite u64_id by (unfold is_u64; lia)).
  assert (H0 : (q - 1) * cps < blen d <= q * cps).
  { rewrite Hq. pose proof (Z.div_mod (blen d + cps - 1) cps ltac:(lia)).
    pose proof (Z.mod_pos_bound (blen d + cps - 1) cps ltac:(lia)). nia. }
  assert (Hu : u32 q = q).
  { apply u32_id. unfold is_u32. split; [nia|]. rewrite Hq.
    apply Z.div_lt_upper_bound; nia. }
  rewrite Hu in E1. rewrite !Hu. rewrite (u16_id q) by (unfold is_u16; lia).
  destruct (alloc o) as [b1 o1], (alloc o1) as [b2 o2]. destruct (negb _); [done|].
  destruct (split_loop d q cps (Z.to_nat q) 0 o2) as [[l|] o3] eqn:Hl; [|done].
  intros [= <- <-]. change 0 with (Z.of_nat 0) in Hl.
  apply split_loop_spec in Hl as [H1 H2];
    unfold CWIST_SEQ_MAX_CHUNKS, CWIST_SEQ_MAX_REASSEMBLED_SIZE in *; [|lia..|nia].
  split; cbn; unfold CWIST_SEQ_MAX_CHUNKS; try lia; done.
Qed.

(** The buffer [k] of a split parses to the part [k]. *)
Lemma genuine_parse d cps msg k c0 :
  split_facts d cps msg -> (k < Z.to_nat msg.(msg_count))%nat ->
  cwist_seq_chunk_parse (Some (genuine_chunk d cps msg.(msg_count) k)) (Some c0) =
  (true, Some (MkChunk (Z.of_nat k + 1) msg.(msg_count) (blen (genuine_part d cps k)) cps
                 (Some (genuine_part d cps k)))).
Proof.
  intros [H1 H2 H3 H4 _ _] Hk. unfold CWIST_SEQ_MAX_CHUNKS in *.
  assert (Hl : 1 <= blen (genuine_part d cps k) <= cps /\
    (Z.of_nat k + 1 <> msg.(msg_count) -> blen (genuine_part d cps k) = cps)).
  { unfold blen in *. rewrite genuine_part_length by lia. nia. }
  unfold genuine_chunk. rewrite parse_build by (unfold is_u16; lia).
  f_equal. unfold chunk_fields_valid, CWIST_SEQ_MAX_CHUNKS.
  destruct (Z.eqb_spec (Z.of_nat k + 1) msg.(msg_count)); lia.
Qed.

(** A receiver parses every buffer and feeds what parses. *)
Definition chunk_of (b : bytes) : option cwist_seq_chunk :=
  match cwist_seq_chunk_parse (Some b) (Some (MkChunk 0 0 0 0 None)) with
  | (true, c) => c
  | (false, _) => None
  end.
Definition feed_buffers (bufs : list bytes) : list seq_op := map OpFeed (omap chunk_of bufs).

(** [c] belongs to the layout; the buffer carries part [k]; it contradicts
    the message. *)
Definition of_layout (t cps : Z) (c : cwist_seq_chunk) : bool :=
  (c.(ck_total) =? t) && (c.(ck_chunk_size) =? cps).
Definition carries (t cps : Z) (k : nat) (b : bytes) : bool :=
  match chunk_of b with
  | Some c => of_layout t cps c && (chunk_index c =? k)%nat
  | None => false
  end.
Definition contradicts (d : bytes) (t cps : Z) (b : bytes) : bool :=
  match chunk_of b with
  | Some c =>
      of_layout t cps c && negb (bool_decide (chunk_part c = genuine_part d cps (chunk_index c)))
  | None => false
  end.

Lemma chunk_of_spec b c :
  chunk_of b = Some c -> chunk_ok c /\ chunk_valid c = true /\ exists p, c.(ck_payload) = Some p.
Proof.
  unfold chunk_of. destruct (cwist_seq_chunk_parse _ _) as [[] x] eqn:E; [|done].
  intros ->. by eapply parse_ok.
Qed.

Lemma feed_buffers_ok bufs : Forall op_ok (feed_buffers bufs).
Proof.
  apply list.Forall_forall. intros op Hop. unfold feed_buffers in Hop.
  apply list_elem_of_fmap in Hop as (c & -> & Hc). apply list_elem_of_omap in Hc as (b & _ & Hb).
  by destruct (chunk_of_spec b c Hb).
Qed.

(** The map after a layout was fixed, against the chunks of that layout seen so far. *)
Record tracks (t cps : Z) (seen : list cwist_seq_chunk) (s : seq_spec) : Prop := {
  tr_layout : s.(sp_layout) = Some (t, cps);
  tr_seen : forall c, c ∈ seen -> of_layout t cps c = true ->
    s.(sp_parts) !! chunk_index c = Some (chunk_part c) \/ s.(sp_conflict) = true;
  tr_parts : forall k q, s.(sp_parts) !! k = Some q ->
    exists c, c ∈ seen /\ of_layout t cps c = true /\ chunk_index c = k /\ chunk_part c = q;
  tr_conflict : s.(sp_conflict) = true ->
    exists c c', c ∈ seen /\ c' ∈ seen /\ of_layout t cps c = true /\ of_layout t cps c' = true /\
      chunk_index c = chunk_index c' /\ chunk_part c <> chunk_part c' }.

Lemma tracks_other t cps seen s c :
  tracks t cps seen s -> of_layout t cps c = false -> tracks t cps (c :: seen) s.
Proof.
  intros [H1 H2 H3 H4] Hc. split; [done| | |].
  - intros c' [->|Hin]%elem_of_cons Hl; [congruence|auto].
  - intros k q Hk. destruct (H3 k q Hk) as (c' & Hin & H). exists c'. by split; [right|].
  - intros Hcf. destruct (H4 Hcf) as (c1 & c2 & Hi1 & Hi2 & H). exists c1, c2.
    by split; [right|split; [right|]].
Qed.

Lemma tracks_store t cps seen s c :
  tracks t cps seen s -> of_layout t cps c = true -> tracks t cps (c :: seen) (spec_store s c).2.
Proof.
  intros [H1 H2 H3 H4] Hc. unfold spec_store.
  destruct (sp_parts s !! chunk_index c) as [q|] eqn:Hq.
  - destruct (bool_decide (q = chunk_part c)) eqn:E; [apply bool_decide_eq_true in E|apply bool_decide_eq_false in E];
      (split; cbn; [done| | |]).
    + intros c' [->|Hin]%elem_of_cons Hl; [by left; rewrite Hq, E|auto].
    + intros k q' Hk. destruct (H3 k q' Hk) as (c' & Hin & H). exists c'. by split; [right|].
    + intros Hcf. destruct (H4 Hcf) as (c1 & c2 & Hi1 & Hi2 & H). exists c1, c2.
      by split; [right|split; [right|]].
    + by right.
    + intros k q' Hk. destruct (H3 k q' Hk) as (c' & Hin & H). exists c'. by split; [right|].
    + intros _. destruct (H3 _ _ Hq) as (c' & Hin & Hl & Hi & Hp). exists c, c'.
      split_and!; try done; [by left|by right|congruence].
  - split; cbn; [done| | |].
    + intros c' [->|Hin]%elem_of_cons Hl; [left; by rewrite lookup_insert_eq|].
      destruct (H2 c' Hin Hl) as [Hp|]; [|by right]. left.
      rewrite lookup_insert_ne; [done|]. congruence.
    + intros k q' [[<- <-]|[_ Hk]]%lookup_insert_Some.
      { exists c. split_and!; try done. by left. }
      destruct (H3 k q' Hk) as (c' & Hin & H). exists c'. by split; [right|].
    + intros Hcf. destruct (H4 Hcf) as (c1 & c2 & Hi1 & Hi2 & H). exists c1, c2.
      by split; [right|split; [right|]].
Qed.

Lemma tracks_feed t cps seen s c o :
  tracks t cps seen s -> chunk_valid c = true -> (exists p, c.(ck_payload) = Some p) ->
  exists b s', spec_feed s c o = (b, s', o) /\ tracks t cps (c :: seen) s'.
Proof.
  intros Ht Hv [p Hp]. unfold spec_feed. rewrite Hv, Hp, (tr_layout _ _ _ _ Ht). cbn [negb].
  destruct (of_layout t cps c) eqn:Hl.
  - assert ((t, cps) = (ck_total c, ck_chunk_size c)) as E.
    { unfold of_layout in Hl. f_equal; lia. }
    rewrite bool_decide_eq_true_2 by done.
    eexists _, _. rewrite <- surjective_pairing. split; [|by apply tracks_store].
    by destruct (spec_store s c).
  - rewrite bool_decide_eq_false_2.
    + eexists _, _. split; [done|]. by apply tracks_other.
    + intros [= E1 E2]. unfold of_layout in Hl. lia.
Qed.

Lemma tracks_run t cps bufs : forall seen s o,
  tracks t cps seen s ->
  exists bs s', spec_run (feed_buffers bufs) s o = (bs, s', o) /\
    tracks t cps (reverse (omap chunk_of bufs) ++ seen) s'.
Proof.
  unfold feed_buffers. induction bufs as [|b bufs IH]; intros seen s o Ht.
  { by exists [], s. }
  cbn [omap list_omap]. destruct (chunk_of b) as [c|] eqn:Hb; [|by apply IH].
  destruct (chunk_of_spec b c Hb) as (_ & Hv & Hp).
  destruct (tracks_feed t cps seen s c o Ht Hv Hp) as (r & s1 & E & Ht1).
  destruct (IH (c :: seen) s1 o Ht1) as (bs & s2 & E2 & Ht2).
  exists (r :: bs), s2. cbn [map spec_run]. unfold list_omap in *. rewrite E. rewrite E2. split; [done|].
  by rewrite reverse_cons, <- app_assoc.
Qed.

Lemma genuine_concat d cps n :
  concat (map (genuine_part d cps) (seq 0 n)) = take (n * Z.to_nat cps) d.
Proof.
  induction n as [|n IH]; [done|]. rewrite seq_S, map_app, concat_app, IH. cbn [map concat].
  rewrite app_nil_r, Nat.add_0_l. unfold genuine_part. rewrite take_take_drop. f_equal. lia.
Qed.

(** Feeding a fresh assembler, the first buffer being one of the message. *)
Lemma tracks_fresh d cps msg k limit rest :
  split_facts d cps msg -> (k < Z.to_nat msg.(msg_count))%nat ->
  msg.(msg_count) * cps <= spec_ceiling (spec_empty limit) ->
  exists bs s,
    spec_run (feed_buffers (genuine_chunk d cps msg.(msg_count) k :: rest)) (spec_empty limit) [] =
      (bs, s, []) /\
    exists seen, tracks msg.(msg_count) cps seen s /\
      forall c, c ∈ seen <->
        exists b, b ∈ genuine_chunk d cps msg.(msg_count) k :: rest /\ chunk_of b = Some c.
Proof.
  intros Hs Hk Hfit. set (g := genuine_chunk _ _ _ k).
  assert (Hg : exists c, chunk_of g = Some c /\ of_layout msg.(msg_count) cps c = true).
  { unfold chunk_of, g. rewrite (genuine_parse d cps msg k _ Hs Hk). eexists. split; [done|].
    unfold of_layout. cbn. lia. }
  destruct Hg as (c & Hc & Hl). destruct (chunk_of_spec g c Hc) as (_ & Hv & p & Hp).
  assert (E : msg.(msg_count) = ck_total c /\ cps = ck_chunk_size c).
  { unfold of_layout in Hl. lia. } destruct E as [E1 E2].
  set (s0 := MkSpec limit (Some (msg.(msg_count), cps)) ∅ false).
  assert (Ht0 : tracks msg.(msg_count) cps [] s0).
  { split; cbn; try done. intros c' H. by apply elem_of_nil in H. }
  pose proof (tracks_store _ _ _ _ c Ht0 Hl) as Ht1.
  destruct (tracks_run _ _ rest _ _ [] Ht1) as (bs & s & Hrun & Ht).
  exists ((spec_store s0 c).1 :: bs), s. split.
  - unfold feed_buffers in *. cbn [omap list_omap]. rewrite Hc. cbn [map spec_run].
    unfold spec_feed. rewrite Hv, Hp. cbn [negb spec_empty sp_layout sp_limit alloc3 alloc andb].
    rewrite <- E1, <- E2. destruct (Z.ltb_spec (spec_ceiling (spec_empty limit)) (msg_count msg * cps)); [lia|].
    fold s0. destruct (spec_store s0 c) as [b0 s1]. cbn [fst snd] in *.
    unfold list_omap in *. by rewrite Hrun.
  - exists (reverse (omap chunk_of rest) ++ [c]). split; [done|]. intros c'.
    rewrite elem_of_app, elem_of_reverse, list_elem_of_omap, list_elem_of_singleton. split.
    + intros [(b & Hb & E)| ->]; [exists b|exists g]; (split; [|done]); [by right|by left].
    + intros (b & [->|Hb]%elem_of_cons & E); [right|left; eauto]. congruence.
Qed.

Lemma genuine_chunk_of d cps msg k :
  split_facts d cps msg -> (k < Z.to_nat msg.(msg_count))%nat ->
  exists c, chunk_of (genuine_chunk d cps msg.(msg_count) k) = Some c /\
    of_layout msg.(msg_count) cps c = true /\ chunk_index c = k /\
    chunk_part c = genuine_part d cps k.
Proof.
  intros Hs Hk. unfold chunk_of. rewrite (genuine_parse d cps msg k _ Hs Hk).
  eexists. split; [done|]. unfold of_layout, chunk_index, chunk_part. cbn.
  split; [lia|]. split; [lia|]. unfold blen. rewrite Nat2Z.id. by apply take_ge.
Qed.

Section Outcome.
Context (d : bytes) (cps : Z) (msg : cwist_seq_message) (bufs : list bytes)
  (seen : list cwist_seq_chunk) (s : seq_spec).
Let t := msg.(msg_count).
Hypothesis Hs : split_facts d cps msg.
Hypothesis Ht : tracks t cps seen s.
Hypothesis Hseen : forall c, c ∈ seen <-> exists b, b ∈ bufs /\ chunk_of b = Some c.

(** A contradicting buffer and the true one cannot both be without conflict. *)
Lemma contradiction_noticed :
  existsb (contradicts d t cps) bufs = true -> (forall b, b ∈ msg.(msg_chunks) -> b ∈ bufs) ->
  s.(sp_conflict) = true.
Proof.
  intros (b & Hb%list_elem_of_In & Hc)%existsb_exists Hall. unfold contradicts in Hc.
  destruct (chunk_of b) as [c|] eqn:E; [|done].
  apply andb_true_iff in Hc as [Hl Hne%negb_true_iff%bool_decide_eq_false].
  destruct (chunk_of_spec b c E) as (Hok & Hv & _).
  pose proof (chunk_valid_facts c Hok Hv) as [].
  assert (Hk : (chunk_index c < Z.to_nat t)%nat).
  { unfold of_layout in Hl. unfold chunk_index. lia. }
  destruct (genuine_chunk_of d cps msg (chunk_index c) Hs Hk) as (c' & E' & Hl' & Hi' & Hp').
  destruct (tr_seen _ _ _ _ Ht c) as [H1|]; [apply Hseen; by eexists|done| |done].
  destruct (tr_seen _ _ _ _ Ht c') as [H2|]; [|done| |done].
  - apply Hseen. eexists. split; [|done]. apply Hall. rewrite (sf_chunks _ _ _ Hs).
    apply list_elem_of_fmap. eexists. split; [done|]. apply elem_of_seq. unfold t in *. lia.
  - congruence.
Qed.

Lemma agreeing_part c :
  existsb (contradicts d t cps) bufs = false -> c ∈ seen -> of_layout t cps c = true ->
  chunk_part c = genuine_part d cps (chunk_index c).
Proof.
  intros Hno (b & Hb & E)%Hseen Hl. destruct (decide (chunk_part c = genuine_part d cps (chunk_index c)))
    as [|Hne]; [done|exfalso].
  apply not_true_iff_false in Hno. apply Hno, existsb_exists. exists b.
  split; [by apply list_elem_of_In|]. unfold contradicts. rewrite E, Hl.
  by rewrite bool_decide_eq_false_2.
Qed.

Lemma agreeing_outcome :
  existsb (contradicts d t cps) bufs = false ->
  s.(sp_conflict) = false /\
  forall k, s.(sp_parts) !! k =
    if existsb (carries t cps k) bufs then Some (genuine_part d cps k) else None.
Proof.
  intros Hno. assert (Hcf : s.(sp_conflict) = false).
  { destruct (sp_conflict s) eqn:Hcf; [|done]. exfalso.
    destruct (tr_conflict _ _ _ _ Ht Hcf) as (c & c' & H1 & H2 & H3 & H4 & H5 & H6).
    apply H6. rewrite (agreeing_part c), (agreeing_part c') by done. by rewrite H5. }
  split; [done|]. intros k. destruct (existsb (carries t cps k) bufs) eqn:Hk.
  - apply existsb_exists in Hk as (b & Hb%list_elem_of_In & Hc). unfold carries in Hc.
    destruct (chunk_of b) as [c|] eqn:E; [|done].
    apply andb_true_iff in Hc as [Hl <-%Nat.eqb_eq].
    assert (Hin : c ∈ seen) by (apply Hseen; by eexists).
    destruct (tr_seen _ _ _ _ Ht c Hin Hl) as [H|]; [|congruence].
    by rewrite H, (agreeing_part c).
  - destruct (sp_parts s !! k) as [q|] eqn:Hq; [|done]. exfalso.
    destruct (tr_parts _ _ _ _ Ht k q Hq) as (c & Hin & Hl & Hi & _).
    apply Hseen in Hin as (b & Hb & E). apply not_true_iff_false in Hk.
    apply Hk, existsb_exists. exists b. split; [by apply list_elem_of_In|].
    unfold carries. rewrite E, Hl, Hi. by rewrite Nat.eqb_refl.
Qed.

(** What the queries say of a map that agrees with the message. *)
Lemma agreeing_queries :
  existsb (contradicts d t cps) bufs = false ->
  let missing := filter (fun k => existsb (carries t cps k) bufs = false) (seq 0 (Z.to_nat t)) in
  spec_missing s = missing /\
  spec_complete s = bool_decide (missing = []) /\
  (missing = [] -> spec_message s = d).
Proof.
  intros Hno. destruct (agreeing_outcome Hno) as [Hcf Hparts]. cbv zeta.
  assert (E : spec_missing s =
    filter (fun k => existsb (carries t cps k) bufs = false) (seq 0 (Z.to_nat t))).
  { unfold spec_missing. rewrite (tr_layout _ _ _ _ Ht). apply list_filter_iff.
    intros k. rewrite Hparts. by destruct (existsb (carries t cps k) bufs). }
  split; [done|]. split.
  - unfold spec_complete. rewrite (tr_layout _ _ _ _ Ht), Hcf, E.
    by rewrite bool_decide_eq_true_2 by eauto.
  - rewrite <- E. intros Hm. unfold spec_message. rewrite (tr_layout _ _ _ _ Ht).
    pose proof (proj1 (missing_nil s t cps (tr_layout _ _ _ _ Ht)) Hm) as Hall.
    rewrite (map_ext_in _ (genuine_part d cps)).
    + rewrite genuine_concat. apply take_ge. destruct Hs. unfold t, blen in *. nia.
    + intros k [_ Hk]%in_seq. destruct (Hall k ltac:(lia)) as [q Hq]. rewrite Hq.
      rewrite Hparts in Hq. destruct (existsb (carries t cps k) bufs); [|done].
      by injection Hq.
Qed.
End Outcome.

(** C25: A split message survives any network.  Starting from any chunk of the
    message and followed by anything at all (the other chunks in any order and
    any number of copies, malformed buffers, chunks of other messages, forged
    chunks), the assembler ends in one of two ways.  If no buffer contradicts
    the message, it asks for exactly the chunks that have not come, and hands
    out the message, byte for byte, once all have.  If one does contradict it
    and all the true chunks came as well, it hands out nothing: good bytes are
    not replaced by forged ones. *)
Theorem split_reassembles d cps o msg o' limit oa a g rest :
  is_u16 cps -> cwist_seq_split (Some d) cps o = (true, msg, o') ->
  cwist_seq_assembler_create_limited limit oa = (Some a, []) ->
  msg.(msg_count) * cps <= (if limit =? 0 then CWIST_SEQ_MAX_REASSEMBLED_SIZE else limit) ->
  g ∈ msg.(msg_chunks) ->
  let t := msg.(msg_count) in
  let '(_, a', _) := asm_run (feed_buffers (g :: rest)) a [] in
  let missing := filter (fun k => existsb (carries t cps k) (g :: rest) = false)
                   (seq 0 (Z.to_nat t)) in
  if existsb (contradicts d t cps) (g :: rest) then
    (forall b, b ∈ msg.(msg_chunks) -> b ∈ g :: rest) ->
    cwist_seq_assembler_get_data a' = None
  else
    cwist_seq_assembler_get_data a' = (if bool_decide (missing = []) then Some d else None) /\
    forall cap, cwist_seq_assembler_recovery_targets a' cap =
      (Z.of_nat (length missing), take cap (map (fun k => Z.of_nat (S k)) missing)).
Proof.
  intros Hc Hsplit Hcreate Hfit Hg. pose proof (split_spec _ _ _ _ _ Hc Hsplit) as Hs.
  rewrite (sf_chunks _ _ _ Hs) in Hg. apply list_elem_of_fmap in Hg as (k & -> & Hk%elem_of_seq).
  destruct (tracks_fresh d cps msg k limit rest Hs) as (bs & s & Hrun & seen & Ht & Hseen);
    [lia|done|].
  pose proof (assembler_steps _ limit _ _ _ Hcreate (feed_buffers_ok
    (genuine_chunk d cps (msg_count msg) k :: rest))) as H. cbv zeta.
  rewrite Hrun in H. destruct (asm_run _ a []) as [[bs' a'] o1]. destruct H as (_ & _ & H).
  rewrite (data_refines _ _ H).
  destruct (existsb (contradicts _ _ _) _) eqn:Hcon.
  - intros Hall. unfold spec_data, spec_complete.
    rewrite (contradiction_noticed d cps msg _ seen s Hs Ht Hseen Hcon Hall).
    by rewrite andb_false_r.
  - destruct (agreeing_queries d cps msg _ seen s Hs Ht Hseen Hcon) as (E1 & E2 & E3).
    set (missing := filter _ _) in *. clearbody missing. split.
    + unfold spec_data. rewrite E2. destruct (bool_decide_reflect (missing = [])) as [Hm|]; [|done].
      by rewrite E3.
    + intros cap. rewrite (targets_refines _ _ cap H), E1, E2.
      destruct (bool_decide_reflect (missing = [])) as [->|]; [by destruct cap|done].
Qed.

(** ** Concrete runs *)

Definition demo_chunk (s t n : Z) (p : string) : cwist_seq_chunk :=
  MkChunk s t n 4 (Some (bs p)).

Lemma assembler_refines_witness :
  let ops := [OpFeed (demo_chunk 2 2 3 "xyz"); OpReset; OpFeed (demo_chunk 1 2 4 "abcd");
              OpFeed (demo_chunk 1 2 4 "abcX"); OpFeed (demo_chunk 3 2 4 "abcd")] in
  let '(bs, a', o1) := asm_run ops assembler_zero [] in
  let '(bs', s', o2) := spec_run ops (spec_empty 0) [] in
  bs = bs' /\ o1 = o2 /\
  cwist_seq_assembler_is_complete a' = spec_complete s' /\
  cwist_seq_assembler_get_data a' = spec_data s' /\
  forall cap, cwist_seq_assembler_recovery_targets a' cap =
    (if spec_complete s' then (0, [])
     else (Z.of_nat (length (spec_missing s')),
           take cap (map (fun k => Z.of_nat (S k)) (spec_missing s')))).
Proof.
  apply (assembler_refines _ 0 [] assembler_zero []); [reflexivity|].
  repeat constructor; cbn; try lia; intros p [= <-]; vm_compute; discriminate.
Defined.

Abbreviation demo_message := (bs "hello world").
Abbreviation demo_split :=
  (MkMessage (map (genuine_chunk demo_message 4 3) [0; 1; 2]%nat) [12; 12; 11] 3).

Lemma split_reassembles_witness :
  cwist_seq_split (Some demo_message) 4 [] = (true, demo_split, []) /\
  let '(_, a', _) :=
    asm_run (feed_buffers [genuine_chunk demo_message 4 3 2; bs "junk"; genuine_chunk demo_message 4 3 0])
      assembler_zero [] in
  cwist_seq_assembler_get_data a' = None /\
  cwist_seq_assembler_recovery_targets a' 8 = (1, [2]).
Proof.
  split; [vm_compute; reflexivity|].
  pose proof (split_reassembles demo_message 4 [] demo_split [] 0 [] assembler_zero
    (genuine_chunk demo_message 4 3 2) [bs "junk"; genuine_chunk demo_message 4 3 0]
    ltac:(unfold is_u16; lia) ltac:(vm_compute; reflexivity) ltac:(reflexivity)
    ltac:(vm_compute; discriminate) ltac:(right; right; left)) as H.
  cbv zeta in H. destruct (asm_run _ _ _) as [[bs' a'] o'].
  vm_compute in H. destruct H as [H1 H2]. split; [exact H1|]. exact (H2 8%nat).
Defined.

(** Forged after true, and true after forged: the message is withheld. *)
Example forged_duplicate_withholds :
  let forged := cwist_seq_chunk_build_header 1 3 4 4 ++ bs "HELL" in
  let run bufs := let '(_, a, _) := asm_run (feed_buffers bufs) assembler_zero [] in
                  cwist_seq_assembler_get_data a in
  run (forged :: demo_split.(msg_chunks)) = None /\
  run (demo_split.(msg_chunks) ++ [forged]) = None /\
  run (demo_split.(msg_chunks) ++ [genuine_chunk demo_message 4 3 1]) = Some demo_message.
Proof. vm_compute. auto. Qed.

(** The limit is compared with the layout, [total] full chunks: a message that
    fits the limit is refused when its last chunk is short. *)
Example layout_beyond_limit_refused :
  let '(ok, msg, _) := cwist_seq_split (Some (bs "0123456789")) 4 [] in
  let a := assembler_zero <| max_data_len := 10 |> in
  ok = true /\
  (asm_run (feed_buffers msg.(msg_chunks)) a []).1.1 = [false; false; false].
Proof. vm_compute. auto. Qed.

(** A failed allocation clears the limit as well: the next message is held to
    the default of 64 MiB. *)
Example failed_allocation_loses_limit :
  let a := assembler_zero <| max_data_len := 10 |> in
  let '(_, a', _) := cwist_seq_assembler_feed a (demo_chunk 1 2 4 "abcd") [true; false; true] in
  a'.(max_data_len) = 0 /\
  (cwist_seq_assembler_feed a (demo_chunk 1 3 4 "abcd") []).1.1 = false /\
  (cwist_seq_assembler_feed a' (demo_chunk 1 3 4 "abcd") []).1.1 = true.
Proof. vm_compute. auto. Qed.

(** A refused buffer has been written to [*out] all the same. *)
Example refused_chunk_written :
  cwist_seq_chunk_parse (Some [0; 9; 0; 2; 0; 1; 0; 1; 65]) (Some (MkChunk 0 0 0 0 None)) =
  (false, Some (MkChunk 9 2 1 1 (Some [65]))).
Proof. reflexivity. Qed.
