(* ===== verification/Sha1.v ===== *)
(** * SHA-1 and Base64 (net/websocket/ws_utils.c)

    The streaming SHA-1 of the WebSocket handshake equals the FIPS 180-4
    definition, whatever the length of the input; the Base64 encoder. *)

From S2P Require Import Prelude.

(** ** SHA-1 as the source has it *)

(** [ROL] on a uint32_t: the left shift wraps. *)
Definition rol32 (v n : Z) : Z := Z.lor (u32 (Z.shiftl v n)) (Z.shiftr v (32 - n)).

Abbreviation words := (list Z).
Definition wd (l : words) (i : nat) : Z := nth i l 0.

(** [blk0] and [blk]: the word of a round, from the block of 16 words it
    updates in place.  The block is loaded little-endian. *)
Definition blk0 (block : words) (i : nat) : words * Z :=
  let v := Z.lor (Z.land (rol32 (wd block i) 24) 0xFF00FF00)
                 (Z.land (rol32 (wd block i) 8) 0x00FF00FF) in
  (<[i := v]> block, v).
Definition blk (block : words) (i : nat) : words * Z :=
  let v := rol32 (Z.lxor (Z.lxor (Z.lxor (wd block (Nat.land (i + 13) 15))
                                         (wd block (Nat.land (i + 8) 15)))
                                 (wd block (Nat.land (i + 2) 15)))
                         (wd block (Nat.land i 15))) 1 in
  (<[Nat.land i 15 := v]> block, v).

(** The five working variables in the order of a round's macro arguments, and
    the block.  A macro updates [z] and [w]; the next round names the variables
    one place further round. *)
Record sha1_work := MkWork { wk_v : Z; wk_w : Z; wk_x : Z; wk_y : Z; wk_z : Z; wk_block : words }.

Definition round_with (f : Z -> Z -> Z -> Z) (k : Z) (next : words -> nat -> words * Z)
  (s : sha1_work) (i : nat) : sha1_work :=
  let '(MkWork v w x y z block) := s in
  let (block, m) := next block i in
  MkWork (u32 (z + (f w x y + m + k + rol32 v 5))) v (rol32 w 30) x y block.

Definition f_choose (w x y : Z) : Z := Z.lxor (Z.land w (Z.lxor x y)) y.
Definition f_parity (w x y : Z) : Z := Z.lxor (Z.lxor w x) y.
Definition f_major (w x y : Z) : Z := Z.lor (Z.land (Z.lor w x) y) (Z.land w x).

Definition R0 := round_with f_choose 0x5A827999 blk0.
Definition R1 := round_with f_choose 0x5A827999 blk.
Definition R2 := round_with f_parity 0x6ED9EBA1 blk.
Definition R3 := round_with f_major 0x8F1BBCDC blk.
Definition R4 := round_with f_parity 0xCA62C1D6 blk.

Definition sha1_round (s : sha1_work) (i : nat) : sha1_work :=
  if (i <? 16)%nat then R0 s i
  else if (i <? 20)%nat then R1 s i
  else if (i <? 40)%nat then R2 s i
  else if (i <? 60)%nat then R3 s i
  else R4 s i.

(** After 80 rounds, a multiple of five, the variables have their first names. *)
Definition SHA1Transform (state : words) (buffer : bytes) : words :=
  let block := map (fun i => le_load buffer (4 * i) 4) (seq 0 16) in
  let s := MkWork (wd state 0) (wd state 1) (wd state 2) (wd state 3) (wd state 4) block in
  let '(MkWork a b c d e _) := fold_left sha1_round (seq 0 80) s in
  [u32 (wd state 0 + a); u32 (wd state 1 + b); u32 (wd state 2 + c);
   u32 (wd state 3 + d); u32 (wd state 4 + e)].

Record SHA1_CTX := MkCtx { ctx_state : words; ctx_count0 : Z; ctx_count1 : Z; ctx_buffer : bytes }.

(** The context is on the stack: the buffer holds whatever was there. *)
Definition SHA1Init (stack : bytes) : SHA1_CTX :=
  MkCtx [0x67452301; 0xEFCDAB89; 0x98BADCFE; 0x10325476; 0xC3D2E1F0] 0 0 stack.

(** [for (; i + 63 < len; i += 64)]; [fuel] bounds the number of blocks. *)
Fixpoint transform_loop (fuel : nat) (state : words) (data : bytes) (i len : Z) : words * Z :=
  match fuel with
  | O => (state, i)
  | S fuel =>
      if u32 (i + 63) <? len
      then transform_loop fuel (SHA1Transform state (drop (Z.to_nat i) data)) data (u32 (i + 64)) len
      else (state, i)
  end.

Definition SHA1Update (ctx : SHA1_CTX) (data : bytes) (len : Z) : SHA1_CTX :=
  let j := ctx.(ctx_count0) in
  let shifted := u32 (Z.shiftl len 3) in
  let count0 := u32 (j + shifted) in
  let count1 := if count0 <? j then u32 (ctx.(ctx_count1) + 1) else ctx.(ctx_count1) in
  let count1 := u32 (count1 + Z.shiftr len 29) in
  let j := Z.land (Z.shiftr j 3) 63 in
  let '(state, buffer, i, j) :=
    if 63 <? u32 (j + len) then
      let i := 64 - j in
      let buffer := blit ctx.(ctx_buffer) (Z.to_nat j) (take (Z.to_nat i) data) in
      let state := SHA1Transform ctx.(ctx_state) buffer in
      let (state, i) := transform_loop (Z.to_nat (len / 64 + 1)) state data i len in
      (state, buffer, i, 0)
    else (ctx.(ctx_state), ctx.(ctx_buffer), 0, j) in
  MkCtx state count0 count1
    (blit buffer (Z.to_nat j) (take (Z.to_nat (len - i)) (drop (Z.to_nat i) data))).

Fixpoint pad_loop (fuel : nat) (ctx : SHA1_CTX) : SHA1_CTX :=
  match fuel with
  | O => ctx
  | S fuel =>
      if negb (Z.land ctx.(ctx_count0) 504 =? 448)
      then pad_loop fuel (SHA1Update ctx [0] 1)
      else ctx
  end.

Definition be_digit (v : Z) (i : nat) : Z :=
  u8 (Z.land (Z.shiftr v ((3 - Z.of_nat (Nat.land i 3)) * 8)) 255).
Definition SHA1Final (ctx : SHA1_CTX) : bytes :=
  let finalcount :=
    map (fun i => be_digit (if (4 <=? i)%nat then ctx.(ctx_count0) else ctx.(ctx_count1)) i)
      (seq 0 8) in
  let ctx := SHA1Update ctx [128] 1 in
  let ctx := pad_loop 64 ctx in
  let ctx := SHA1Update ctx finalcount 8 in
  map (fun i => be_digit (wd ctx.(ctx_state) (Nat.div2 (Nat.div2 i))) i) (seq 0 20).

Definition sha1 (stack data : bytes) : bytes :=
  SHA1Final (SHA1Update (SHA1Init stack) data (u32 (blen data))).

Example sha1_abc :
  sha1 (replicate 64 7) (bs "abc") =
  [0xa9; 0x99; 0x3e; 0x36; 0x47; 0x06; 0x81; 0x6a; 0xba; 0x3e;
   0x25; 0x71; 0x78; 0x50; 0xc2; 0x6c; 0x9c; 0xd0; 0xd8; 0x9d].
Proof. vm_compute. reflexivity. Qed.

(** ** The definition of FIPS 180-4 *)

Definition ones32 : Z := 4294967295.
Definition rotl (n x : Z) : Z := (x * 2 ^ n) mod 2 ^ 32 + x / 2 ^ (32 - n).

Definition fips_f (t : nat) (b c d : Z) : Z :=
  if (t <? 20)%nat then Z.lxor (Z.land b c) (Z.land (Z.lxor b ones32) d)
  else if (t <? 40)%nat then Z.lxor b (Z.lxor c d)
  else if (t <? 60)%nat then Z.lxor (Z.land b c) (Z.lxor (Z.land b d) (Z.land c d))
  else Z.lxor b (Z.lxor c d).
Definition fips_k (t : nat) : Z :=
  if (t <? 20)%nat then 0x5A827999 else if (t <? 40)%nat then 0x6ED9EBA1
  else if (t <? 60)%nat then 0x8F1BBCDC else 0xCA62C1D6.

Definition be_word (b : bytes) (off : nat) : Z :=
  rd b off * 16777216 + rd b (off + 1) * 65536 + rd b (off + 2) * 256 + rd b (off + 3).
Definition be_bytes (n : nat) (v : Z) : bytes := rev (le_bytes n v).

(** The message schedule: the 16 words of the block, then [n] more. *)
Fixpoint schedule (m : words) (n : nat) : words :=
  match n with
  | O => m
  | S n =>
      let l := schedule m n in
      let t := length l in
      l ++ [rotl 1 (Z.lxor (Z.lxor (wd l (t - 3)) (wd l (t - 8)))
                           (Z.lxor (wd l (t - 14)) (wd l (t - 16))))]
  end.
Definition block_schedule (b : bytes) : words :=
  schedule (map (fun i => be_word b (4 * i)) (seq 0 16)) 64.

Definition fips_round (w : words) (s : Z * Z * Z * Z * Z) (t : nat) : Z * Z * Z * Z * Z :=
  let '(a, b, c, d, e) := s in
  ((rotl 5 a + fips_f t b c d + e + fips_k t + wd w t) mod 2 ^ 32, a, rotl 30 b, c, d).

Definition compress (h : words) (b : bytes) : words :=
  let '(a, b, c, d, e) :=
    fold_left (fips_round (block_schedule b)) (seq 0 80) (wd h 0, wd h 1, wd h 2, wd h 3, wd h 4) in
  [(wd h 0 + a) mod 2 ^ 32; (wd h 1 + b) mod 2 ^ 32; (wd h 2 + c) mod 2 ^ 32;
   (wd h 3 + d) mod 2 ^ 32; (wd h 4 + e) mod 2 ^ 32].

(** [n] blocks of 64 bytes. *)
Fixpoint compress_blocks (n : nat) (h : words) (m : bytes) : words :=
  match n with
  | O => h
  | S n => compress_blocks n (compress h (take 64 m)) (drop 64 m)
  end.
Definition sha1_iv : words := [0x67452301; 0xEFCDAB89; 0x98BADCFE; 0x10325476; 0xC3D2E1F0].
Definition sha1_padding (m : bytes) : bytes :=
  [128] ++ replicate (Z.to_nat ((55 - blen m) mod 64)) 0 ++ be_bytes 8 (8 * blen m).
Definition sha1_spec (m : bytes) : bytes :=
  let p := m ++ sha1_padding m in
  concat (map (be_bytes 4) (compress_blocks (length p / 64) sha1_iv p)).

(** ** Words *)

Definition words_ok (l : words) : Prop := Forall is_u32 l.

Lemma wd_ok l i : words_ok l -> is_u32 (wd l i).
Proof.
  intros H. unfold wd. destruct (decide (i < length l)%nat) as [Hi|Hi].
  - destruct (lookup_lt_is_Some_2 l i Hi) as [v Hv]. rewrite (nth_lookup_Some _ _ _ _ Hv).
    by apply (Forall_lookup_1 _ _ _ _ H Hv).
  - rewrite nth_overflow by lia. mlia.
Qed.

(** The bits shifted out on the left. *)
Lemma rotl_high v n : 0 <= n <= 32 -> (v * 2 ^ n) mod 2 ^ 32 = v mod 2 ^ (32 - n) * 2 ^ n.
Proof.
  intros Hn.
  replace (2 ^ 32) with (2 ^ (32 - n) * 2 ^ n) by (rewrite <- Z.pow_add_r by lia; f_equal; lia).
  by rewrite Z.mul_mod_distr_r by (apply Z.pow_nonzero; lia).
Qed.

Lemma rol32_rotl v n : is_u32 v -> 0 <= n <= 32 -> rol32 v n = rotl n v.
Proof.
  intros Hv Hn. unfold rol32, rotl, u32, is_u32 in *. change 4294967296 with (2 ^ 32) in *.
  rewrite Z.shiftl_mul_pow2, Z.shiftr_div_pow2 by lia.
  pose proof (rotl_high v n Hn) as E.
  apply lor_add_above with n; [lia| |].
  - rewrite E. apply Z.mod_mul. apply Z.pow_nonzero; lia.
  - split; [apply Z.div_pos; lia|]. apply Z.div_lt_upper_bound; [lia|].
    rewrite <- Z.pow_add_r by lia. replace (32 - n + n) with 32 by lia. lia.
Qed.

Lemma rotl_u32 n v : is_u32 v -> 0 <= n <= 32 -> is_u32 (rotl n v).
Proof.
  intros Hv Hn. unfold rotl, is_u32 in *. change 4294967296 with (2 ^ 32) in *.
  pose proof (rotl_high v n Hn) as E.
  assert (0 < 2 ^ n) by (apply Z.pow_pos_nonneg; lia).
  assert (0 < 2 ^ (32 - n)) by (apply Z.pow_pos_nonneg; lia).
  assert (E32 : 2 ^ 32 = 2 ^ (32 - n) * 2 ^ n) by (rewrite <- Z.pow_add_r by lia; f_equal; lia).
  pose proof (Z.mod_pos_bound v (2 ^ (32 - n)) ltac:(lia)).
  assert (0 <= v / 2 ^ (32 - n) < 2 ^ n).
  { split; [apply Z.div_pos; lia|]. apply Z.div_lt_upper_bound; lia. }
  rewrite E. nia.
Qed.

Lemma lxor_u32 a b : is_u32 a -> is_u32 b -> is_u32 (Z.lxor a b).
Proof.
  intros Ha Hb. unfold is_u32 in *. assert (0 <= Z.lxor a b) by (apply Z.lxor_nonneg; lia).
  split; [done|]. destruct (decide (Z.lxor a b = 0)) as [->|]; [lia|].
  change 4294967296 with (2 ^ 32). apply Z.log2_lt_pow2; [lia|].
  pose proof (Z.log2_lxor a b ltac:(lia) ltac:(lia)).
  assert (Z.log2 a < 32) by (destruct (decide (a = 0)) as [->|]; [done|]; apply Z.log2_lt_pow2; lia).
  assert (Z.log2 b < 32) by (destruct (decide (b = 0)) as [->|]; [done|]; apply Z.log2_lt_pow2; lia).
  lia.
Qed.

(** The source's forms of the three functions. *)
Lemma testbit_ones32 i : 0 <= i -> Z.testbit ones32 i = (i <? 32).
Proof.
  intros Hi. change ones32 with (Z.ones 32). rewrite Z.testbit_ones by lia.
  destruct (Z.ltb_spec i 32); [apply andb_true_iff; lia|apply andb_false_iff; lia].
Qed.
Lemma testbit_u32 v i : is_u32 v -> 32 <= i -> Z.testbit v i = false.
Proof.
  intros Hv Hi. unfold is_u32 in Hv. destruct (decide (v = 0)) as [->|]; [apply Z.bits_0|].
  apply Z.bits_above_log2; [lia|].
  assert (Z.log2 v < 32) by (apply Z.log2_lt_pow2; lia). lia.
Qed.
Lemma f_choose_fips w x y :
  is_u32 y -> f_choose w x y = Z.lxor (Z.land w x) (Z.land (Z.lxor w ones32) y).
Proof.
  intros Hy. apply Z.bits_inj'. intros i Hi. unfold f_choose.
  rewrite !Z.lxor_spec, !Z.land_spec, !Z.lxor_spec, testbit_ones32 by lia.
  destruct (Z.ltb_spec i 32).
  - by destruct (Z.testbit w i), (Z.testbit x i), (Z.testbit y i).
  - rewrite (testbit_u32 y i) by done. by destruct (Z.testbit w i), (Z.testbit x i).
Qed.
Lemma f_major_fips w x y :
  f_major w x y = Z.lxor (Z.land w x) (Z.lxor (Z.land w y) (Z.land x y)).
Proof.
  apply Z.bits_inj'. intros i Hi. unfold f_major.
  rewrite !Z.lor_spec, !Z.lxor_spec, !Z.land_spec, !Z.lor_spec.
  by destruct (Z.testbit w i), (Z.testbit x i), (Z.testbit y i).
Qed.

(** ** The message schedule *)

Lemma land_byte_255 a : 0 <= a < 256 -> Z.land a 255 = a.
Proof. intros. rewrite (land_mask a 8 255) by (first [lia|reflexivity]). by rewrite Z.mod_small. Qed.

Lemma land_byte a A c C :
  0 <= a < 256 -> 0 <= c < 256 ->
  Z.land (a + 256 * A) (c + 256 * C) = Z.land a c + 256 * Z.land A C.
Proof.
  intros Ha Hc. apply Z.bits_inj'. intros i Hi.
  assert (0 <= Z.land a c < 256).
  { rewrite <- (land_byte_255 c), Z.land_assoc, (land_mask _ 8 255) by (first [lia|reflexivity]).
    apply Z.mod_pos_bound. lia. }
  rewrite Z.land_spec, !testbit_byte, !Z.land_spec by done. by destruct (i <? 8).
Qed.

(** The two rotations and masks swap the four bytes. *)
Lemma blk0_value block i b off :
  bytes_ok b -> wd block i = le_load b off 4 -> (blk0 block i).2 = be_word b off.
Proof.
  intros Hb Hw. pose proof (le_load_range b off 4 Hb) as Hr. cbn [blk0 snd].
  rewrite !rol32_rotl by (first [lia | rewrite Hw; unfold is_u32; lia]). rewrite Hw.
  pose proof (bytes_ok_rd b off Hb) as H0. pose proof (bytes_ok_rd b (S off) Hb) as H1.
  pose proof (bytes_ok_rd b (S (S off)) Hb) as H2. pose proof (bytes_ok_rd b (S (S (S off))) Hb) as H3.
  cbn [le_load]. unfold be_word.
  rewrite (Nat.add_comm off 1), (Nat.add_comm off 2), (Nat.add_comm off 3). cbn [Nat.add].
  set (b0 := rd b off) in *. set (b1 := rd b (S off)) in *. set (b2 := rd b (S (S off))) in *.
  set (b3 := rd b (S (S (S off)))) in *. clearbody b0 b1 b2 b3. unfold is_u8 in *.
  set (raw := b0 + _).
  assert (E24 : rotl 24 raw = b1 + 256 * (b2 + 256 * (b3 + 256 * b0))).
  { unfold rotl, raw. change (2 ^ 24) with 16777216. change (2 ^ 32) with 4294967296.
    change (2 ^ (32 - 24)) with 256. zlia. }
  assert (E8 : rotl 8 raw = b3 + 256 * (b0 + 256 * (b1 + 256 * b2))).
  { unfold rotl, raw. change (2 ^ 8) with 256. change (2 ^ 32) with 4294967296.
    change (2 ^ (32 - 8)) with 16777216. zlia. }
  rewrite E24, E8. clear E24 E8 raw.
  change 0xFF00FF00 with (0 + 256 * (255 + 256 * (0 + 256 * 255))).
  change 0x00FF00FF with (255 + 256 * (0 + 256 * (255 + 256 * 0))).
  rewrite !land_byte, !Z.land_0_r, !land_byte_255 by lia.
  rewrite !lor_byte, !Z.lor_0_l, !Z.lor_0_r by lia. lia.
Qed.

Lemma schedule_length m n : length (schedule m n) = (length m + n)%nat.
Proof. induction n as [|n IH]; cbn [schedule]; rewrite ?length_app, ?IH; cbn; lia. Qed.

(** Words once computed stay. *)
Lemma schedule_prefix m n k i :
  (i < length m + n)%nat -> wd (schedule m (n + k)) i = wd (schedule m n) i.
Proof.
  intros Hi. induction k as [|k IH]; [by rewrite Nat.add_0_r|].
  rewrite Nat.add_succ_r. cbn [schedule]. unfold wd in *.
  rewrite app_nth1; [done|]. rewrite schedule_length. lia.
Qed.

Lemma schedule_step m n t :
  length m = 16%nat -> (16 <= t < 16 + n)%nat ->
  wd (schedule m n) t =
  rotl 1 (Z.lxor (Z.lxor (wd (schedule m n) (t - 3)) (wd (schedule m n) (t - 8)))
                 (Z.lxor (wd (schedule m n) (t - 14)) (wd (schedule m n) (t - 16)))).
Proof.
  intros Hm Ht. replace n with (S (t - 16) + (n - S (t - 16)))%nat by lia.
  rewrite !schedule_prefix by lia. cbn [schedule]. unfold wd at 1.
  assert (El : length (schedule m (t - 16)) = t) by (rewrite schedule_length; lia).
  rewrite app_nth2, El, Nat.sub_diag by lia. cbn [nth].
  unfold wd. by rewrite !app_nth1 by lia.
Qed.

Lemma land_15 x : Nat.land x 15 = (x mod 16)%nat.
Proof. exact (Nat.land_ones x 4). Qed.

Lemma wd_insert l k v j : (k < length l)%nat ->
  wd (<[k := v]> l) j = if (j =? k)%nat then v else wd l j.
Proof.
  intros Hk. unfold wd. destruct (Nat.eqb_spec j k) as [->|Hne].
  - apply nth_lookup_Some. by apply list_lookup_insert_eq.
  - destruct (decide (j < length l)%nat) as [Hj|Hj].
    + destruct (lookup_lt_is_Some_2 l j Hj) as [x Hx].
      rewrite (nth_lookup_Some _ _ _ _ Hx). apply nth_lookup_Some.
      by rewrite list_lookup_insert_ne.
    + rewrite !nth_overflow; rewrite ?length_insert; [done|lia..].
Qed.

(** The block after [i] rounds: the words not yet used are as loaded, the last
    sixteen of the schedule are in their places. *)
Record block_at (b : bytes) (i : nat) (block : words) : Prop := {
  ba_len : length block = 16%nat;
  ba_ok : words_ok block;
  ba_raw : forall j, (i <= j < 16)%nat -> wd block j = le_load b (4 * j) 4;
  ba_sched : forall t, (i <= t + 16)%nat -> (t < i)%nat ->
    wd block (t mod 16) = wd (block_schedule b) t }.

Definition next_word (block : words) (i : nat) : words * Z :=
  if (i <? 16)%nat then blk0 block i else blk block i.

Lemma be_word_u32 b off : bytes_ok b -> is_u32 (be_word b off).
Proof.
  intros Hb. unfold be_word. pose proof (bytes_ok_rd b off Hb). pose proof (bytes_ok_rd b (off + 1) Hb).
  pose proof (bytes_ok_rd b (off + 2) Hb). pose proof (bytes_ok_rd b (off + 3) Hb).
  unfold is_u8, is_u32 in *. lia.
Qed.

Lemma block_schedule_low b i :
  (i < 16)%nat -> wd (block_schedule b) i = be_word b (4 * i).
Proof.
  intros Hi. unfold block_schedule. change 64%nat with (0 + 64)%nat.
  rewrite schedule_prefix by (rewrite length_map, length_seq; lia). cbn [schedule].
  unfold wd. rewrite (nth_indep _ 0 (be_word b (4 * 0))) by (rewrite length_map, length_seq; lia).
  rewrite (map_nth (fun i => be_word b (4 * i))), seq_nth by lia. done.
Qed.

(** The word of round [i] is that of the schedule. *)
Lemma next_word_value b i block :
  bytes_ok b -> block_at b i block -> (i < 80)%nat ->
  exists v, next_word block i = (<[(i mod 16)%nat := v]> block, v) /\
    v = wd (block_schedule b) i /\ is_u32 v.
Proof.
  intros Hb [Hlen Hok Hraw Hs] Hi. unfold next_word. destruct (Nat.ltb_spec i 16) as [Hlt|Hge].
  - exists (blk0 block i).2. rewrite (blk0_value block i b (4 * i)) by (auto with lia).
    rewrite Nat.mod_small by lia. split; [|split].
    + rewrite <- (blk0_value block i b (4 * i)) by (auto with lia). done.
    + by rewrite block_schedule_low.
    + by apply be_word_u32.
  - set (x := Z.lxor (Z.lxor (Z.lxor (wd block (Nat.land (i + 13) 15))
      (wd block (Nat.land (i + 8) 15))) (wd block (Nat.land (i + 2) 15))) (wd block (Nat.land i 15))).
    assert (Hx : is_u32 x) by (repeat apply lxor_u32; by apply wd_ok).
    exists (rotl 1 x). split; [|split].
    + unfold blk. fold x. rewrite rol32_rotl by (done || lia). by rewrite land_15.
    + unfold x. rewrite !land_15.
      replace ((i + 13) mod 16)%nat with ((i - 3) mod 16)%nat
        by (replace (i + 13)%nat with (i - 3 + 1 * 16)%nat by lia; by rewrite Nat.Div0.mod_add).
      replace ((i + 8) mod 16)%nat with ((i - 8) mod 16)%nat
        by (replace (i + 8)%nat with (i - 8 + 1 * 16)%nat by lia; by rewrite Nat.Div0.mod_add).
      replace ((i + 2) mod 16)%nat with ((i - 14) mod 16)%nat
        by (replace (i + 2)%nat with (i - 14 + 1 * 16)%nat by lia; by rewrite Nat.Div0.mod_add).
      replace (i mod 16)%nat with ((i - 16) mod 16)%nat
        by (replace i with (i - 16 + 1 * 16)%nat at 2 by lia; by rewrite Nat.Div0.mod_add).
      rewrite !Hs by lia. unfold block_schedule. rewrite (schedule_step _ _ i).
      * by rewrite Z.lxor_assoc.
      * by rewrite length_map, length_seq.
      * lia.
    + apply rotl_u32; [done|lia].
Qed.

Lemma block_at_step b i block v :
  block_at b i block -> v = wd (block_schedule b) i -> is_u32 v -> (i < 80)%nat ->
  block_at b (S i) (<[(i mod 16)%nat := v]> block).
Proof.
  intros [Hlen Hok Hraw Hs] Ev Hv Hi.
  assert (Hm : (i mod 16 < 16)%nat) by (apply Nat.mod_upper_bound; lia).
  split.
  - by rewrite length_insert.
  - by apply Forall_insert.
  - intros j Hj. rewrite wd_insert by lia. rewrite (Nat.mod_small i) by lia.
    destruct (Nat.eqb_spec j i); [lia|]. apply Hraw. lia.
  - intros t Ht1 Ht2. rewrite wd_insert by lia. destruct (decide (t = i)) as [->|Hne].
    + by rewrite Nat.eqb_refl.
    + destruct (Nat.eqb_spec (t mod 16) (i mod 16)) as [E|_]; [|apply Hs; lia].
      exfalso. pose proof (Nat.div_mod_eq t 16). pose proof (Nat.div_mod_eq i 16).
      assert ((t / 16 <= i / 16)%nat) by (apply Nat.Div0.div_le_mono; lia). lia.
Qed.

(** ** One block *)

Definition round_fn (i : nat) : Z -> Z -> Z -> Z :=
  if (i <? 20)%nat then f_choose else if (i <? 40)%nat then f_parity
  else if (i <? 60)%nat then f_major else f_parity.

Lemma sha1_round_eq s i : sha1_round s i = round_with (round_fn i) (fips_k i) next_word s i.
Proof.
  unfold sha1_round, round_fn, fips_k, R0, R1, R2, R3, R4, round_with, next_word. destruct s.
  destruct (Nat.ltb_spec i 16), (Nat.ltb_spec i 20), (Nat.ltb_spec i 40), (Nat.ltb_spec i 60);
    first [lia|done].
Qed.

Lemma round_fn_fips i w x y : is_u32 y -> round_fn i w x y = fips_f i w x y.
Proof.
  intros Hy. unfold round_fn, fips_f, f_parity.
  destruct (i <? 20)%nat; [by apply f_choose_fips|].
  destruct (i <? 40)%nat; [by rewrite Z.lxor_assoc|].
  destruct (i <? 60)%nat; [apply f_major_fips|by rewrite Z.lxor_assoc].
Qed.

Definition work_at (b : bytes) (i : nat) (s : sha1_work) (t : Z * Z * Z * Z * Z) : Prop :=
  t = (s.(wk_v), s.(wk_w), s.(wk_x), s.(wk_y), s.(wk_z)) /\
  words_ok [s.(wk_v); s.(wk_w); s.(wk_x); s.(wk_y); s.(wk_z)] /\
  block_at b i s.(wk_block).

Lemma round_step b i s t :
  bytes_ok b -> work_at b i s t -> (i < 80)%nat ->
  work_at b (S i) (sha1_round s i) (fips_round (block_schedule b) t i).
Proof.
  intros Hb (-> & Hok & Hblock) Hi. rewrite sha1_round_eq. destruct s as [v w x y z block].
  cbn [wk_v wk_w wk_x wk_y wk_z wk_block] in *.
  destruct (next_word_value b i block Hb Hblock Hi) as (m & E & Em & Hm).
  unfold words_ok in Hok. rewrite !list.Forall_cons in Hok. destruct Hok as (?&?&?&?&?&_).
  cbn [round_with fips_round]. rewrite E, !rol32_rotl by (first [done|lia]).
  rewrite round_fn_fips by done. unfold work_at; cbn [wk_v wk_w wk_x wk_y wk_z wk_block].
  rewrite <- Em. split; [|split].
  - do 4 f_equal. unfold u32. f_equal. lia.
  - repeat apply list.Forall_cons_2; try done; [apply u32_range|apply rotl_u32; [done|lia]].
  - by apply block_at_step.
Qed.

Lemma rounds b n : forall i s t,
  bytes_ok b -> work_at b i s t -> (i + n <= 80)%nat ->
  work_at b (i + n) (fold_left sha1_round (seq i n) s)
    (fold_left (fips_round (block_schedule b)) (seq i n) t).
Proof.
  induction n as [|n IH]; intros i s t Hb Hw Hn; cbn [seq fold_left]; [by rewrite Nat.add_0_r|].
  rewrite <- Nat.add_succ_comm. apply IH; [done| |lia]. apply round_step; [done|done|lia].
Qed.

Lemma block_loaded b : bytes_ok b ->
  block_at b 0 (map (fun i => le_load b (4 * i) 4) (seq 0 16)).
Proof.
  intros Hb. split.
  - done.
  - apply list.Forall_forall. intros x (i & -> & _)%list_elem_of_fmap.
    pose proof (le_load_range b (4 * i) 4 Hb). unfold is_u32. cbn in *. lia.
  - intros j Hj. unfold wd.
    rewrite (nth_indep _ 0 (le_load b (4 * 0) 4)) by (rewrite length_map, length_seq; lia).
    by rewrite (map_nth (fun i => le_load b (4 * i) 4)), seq_nth by lia.
  - lia.
Qed.

(** The transform of a block is the compression function. *)
Lemma transform_compress state b :
  words_ok state -> bytes_ok b -> SHA1Transform state b = compress state b.
Proof.
  intros Hs Hb. unfold SHA1Transform, compress.
  set (s0 := MkWork _ _ _ _ _ _).
  assert (H0 : work_at b 0 s0 (wd state 0, wd state 1, wd state 2, wd state 3, wd state 4)).
  { split; [done|]. split; [|by apply block_loaded].
    repeat apply list.Forall_cons_2; try done; by apply wd_ok. }
  destruct (rounds b 80 0 _ _ Hb H0 ltac:(lia)) as (E & _ & _).
  cbv zeta. rewrite E. by destruct (fold_left sha1_round (seq 0 80) s0).
Qed.

(** ** Streaming *)

Lemma compress_take h b : (64 <= length b)%nat -> compress h (take 64 b) = compress h b.
Proof.
  intros Hl. unfold compress. assert (E : block_schedule (take 64 b) = block_schedule b); [|by rewrite E].
  unfold block_schedule. f_equal. apply map_ext_in. intros i [_ Hi]%in_seq.
  assert (Hrd : forall k, (k < 64)%nat -> rd (take 64 b) k = rd b k).
  { intros k Hk. rewrite <- (take_drop 64 b) at 2. symmetry. apply rd_app_l.
    rewrite length_take. lia. }
  unfold be_word. by rewrite !Hrd by lia.
Qed.

Lemma compress_ok h b : words_ok (compress h b).
Proof.
  unfold compress. destruct (fold_left _ _ _) as [[[[a b'] c] d] e].
  repeat apply list.Forall_cons_2; try done; unfold is_u32; change (2 ^ 32) with 4294967296;
    apply Z.mod_pos_bound; lia.
Qed.

Lemma compress_blocks_ok n : forall h m, words_ok h -> words_ok (compress_blocks n h m).
Proof. induction n as [|n IH]; intros h m Hh; [done|]. apply IH, compress_ok. Qed.

Lemma compress_blocks_add a b : forall h m,
  compress_blocks (a + b) h m = compress_blocks b (compress_blocks a h m) (drop (64 * a) m).
Proof.
  induction a as [|a IH]; intros h m; [done|].
  cbn [Nat.add compress_blocks]. rewrite IH, drop_drop.
  do 2 f_equal. lia.
Qed.

Lemma compress_blocks_prefix n : forall h m x,
  (64 * n <= length m)%nat -> compress_blocks n h (m ++ x) = compress_blocks n h m.
Proof.
  induction n as [|n IH]; intros h m x Hm; [done|]. cbn [compress_blocks].
  rewrite take_app_le, drop_app_le by lia. apply IH. rewrite length_drop. lia.
Qed.

Lemma sha1_iv_ok : words_ok sha1_iv.
Proof. repeat apply list.Forall_cons_2; try done. Qed.

(** The loop transforms every whole block that is left.  [i + 63] does not wrap
    when [i] is a multiple of 64 or the input leaves room. *)
Lemma transform_loop_spec data fuel : forall state i,
  bytes_ok data -> words_ok state -> blen data < 4294967296 -> 0 <= i <= blen data ->
  (i mod 64 = 0 \/ blen data < 4294967296 - 64) -> (blen data - i) / 64 < Z.of_nat fuel ->
  let n := Z.to_nat ((blen data - i) / 64) in
  transform_loop fuel state data i (blen data) =
  (compress_blocks n state (drop (Z.to_nat i) data), i + 64 * Z.of_nat n).
Proof.
  induction fuel as [|fuel IH]; intros state i Hd Hs Hl Hi Hroom Hf; [zlia|].
  cbn [transform_loop]. rewrite u32_id by (unfold is_u32; destruct Hroom; zlia).
  destruct (Z.ltb_spec (i + 63) (blen data)) as [Hlt|Hge].
  - rewrite u32_id by (unfold is_u32; lia).
    assert (Hdrop : bytes_ok (drop (Z.to_nat i) data)) by (by apply Forall_drop).
    rewrite transform_compress by done.
    rewrite IH; [|done|apply compress_ok|done|lia|destruct Hroom; [left; zlia|by right]|zlia].
    assert (E : (blen data - i) / 64 = (blen data - (i + 64)) / 64 + 1) by zlia.
    rewrite E. replace (Z.to_nat ((blen data - (i + 64)) / 64 + 1))
      with (S (Z.to_nat ((blen data - (i + 64)) / 64))) by zlia.
    cbn [compress_blocks]. f_equal; [|lia].
    rewrite compress_take by (rewrite length_drop; unfold blen in *; lia).
    rewrite drop_drop. do 2 f_equal. lia.
  - assert (E : (blen data - i) / 64 = 0) by zlia. rewrite E. cbn. f_equal. lia.
Qed.

Record ctx_at (m : bytes) (ctx : SHA1_CTX) : Prop := {
  ct_state : ctx.(ctx_state) = compress_blocks (length m / 64) sha1_iv m;
  ct_buffer_len : length ctx.(ctx_buffer) = 64%nat;
  ct_buffer_ok : bytes_ok ctx.(ctx_buffer);
  ct_tail : take (length m mod 64) ctx.(ctx_buffer) = drop (64 * (length m / 64)) m;
  ct_count0 : ctx.(ctx_count0) = 8 * blen m mod 4294967296;
  ct_count1 : ctx.(ctx_count1) = 8 * blen m / 4294967296 mod 4294967296 }.

(** The two halves of the bit counter. *)
Lemma count_step L n :
  0 <= L -> 0 <= n < 4294967296 ->
  let c0 := 8 * L mod 4294967296 in
  let c1 := 8 * L / 4294967296 mod 4294967296 in
  let c0' := u32 (c0 + u32 (Z.shiftl n 3)) in
  c0' = 8 * (L + n) mod 4294967296 /\
  u32 ((if c0' <? c0 then u32 (c1 + 1) else c1) + Z.shiftr n 29) =
    8 * (L + n) / 4294967296 mod 4294967296.
Proof.
  intros HL Hn. cbv zeta. rewrite Z.shiftl_mul_pow2, Z.shiftr_div_pow2 by lia.
  change (2 ^ 3) with 8. change (2 ^ 29) with 536870912. unfold u32.
  set (X := 8 * L / 4294967296). set (c0 := 8 * L mod 4294967296).
  assert (EX : 8 * L = 4294967296 * X + c0 /\ 0 <= c0 < 4294967296) by (unfold X, c0; zlia).
  set (B := n / 536870912). set (d := (n * 8) mod 4294967296).
  assert (EB : 8 * n = 4294967296 * B + d /\ 0 <= d < 4294967296) by (unfold B, d; zlia).
  clearbody X c0 B d. destruct EX as [EX HX], EB as [EB HB].
  replace (8 * (L + n)) with (c0 + d + (X + B) * 4294967296) by lia.
  rewrite Z.mod_add, Z.div_add by lia. split; [done|].
  destruct (Z.ltb_spec ((c0 + d) mod 4294967296) c0).
  - replace ((c0 + d) / 4294967296) with 1 by zlia.
    rewrite Zplus_mod_idemp_l, <- Z.add_assoc, Zplus_mod_idemp_l. f_equal. lia.
  - replace ((c0 + d) / 4294967296) with 0 by zlia.
    rewrite Zplus_mod_idemp_l. f_equal.
Qed.

Lemma buffer_position m ctx :
  ctx_at m ctx -> Z.land (Z.shiftr ctx.(ctx_count0) 3) 63 = Z.of_nat (length m mod 64).
Proof.
  intros H. rewrite (ct_count0 _ _ H). shifts. unfold blen.
  rewrite Nat2Z.inj_mod. zlia.
Qed.

Lemma nat_div_mod_64 n : n = (64 * (n / 64) + n mod 64)%nat /\ (n mod 64 < 64)%nat.
Proof. split; [apply Nat.div_mod_eq|by apply Nat.mod_upper_bound]. Qed.

Lemma bytes_ok_blit buf off src : bytes_ok buf -> bytes_ok src -> bytes_ok (blit buf off src).
Proof.
  intros Hb Hs. revert buf off Hb. induction Hs as [|x src Hx _ IH]; intros buf off Hb; [done|].
  apply IH. by apply bytes_ok_put.
Qed.

Section Update.
Context (m : bytes) (ctx : SHA1_CTX) (data : bytes).
Hypothesis Hctx : ctx_at m ctx.
Hypothesis Hdata : bytes_ok data.
Hypothesis Hlen : blen data < 4294967296.
Hypothesis Hroom : (length m mod 64 = 0)%nat \/ blen data < 4294967296 - 64.

Let j : nat := (length m mod 64)%nat.
Let q : nat := (length m / 64)%nat.

(** Copying [data] behind the [j] bytes that wait in the buffer. *)
Lemma tail_copied (x : bytes) :
  (j + length x <= 64)%nat ->
  take (j + length x) (blit ctx.(ctx_buffer) j x) = drop (64 * q) m ++ x.
Proof.
  intros Hx. rewrite blit_in_range by (rewrite (ct_buffer_len _ _ Hctx); lia).
  pose proof (ct_tail _ _ Hctx) as Ht. fold j q in Ht. rewrite Ht, app_assoc.
  assert (El : length (drop (64 * q) m) = j).
  { rewrite length_drop. pose proof (nat_div_mod_64 (length m)). unfold q, j in *. lia. }
  rewrite take_app_le by (rewrite length_app, El; lia).
  apply take_ge. rewrite length_app, El. lia.
Qed.

Lemma update_short :
  (j + length data < 64)%nat -> ctx_at (m ++ data) (SHA1Update ctx data (blen data)).
Proof.
  intros Hn. pose proof (nat_div_mod_64 (length m)) as [Hm Hj]. fold j q in Hm, Hj.
  assert (Eq : ((length m + length data) / 64 = q)%nat).
  { symmetry. apply (Nat.div_unique _ _ _ (j + length data)); lia. }
  assert (Ej : ((length m + length data) mod 64 = j + length data)%nat).
  { symmetry. apply (Nat.mod_unique _ _ q); lia. }
  pose proof (count_step (blen m) (blen data)) as [E0 E1]; [apply blen_nonneg|split; [apply blen_nonneg|done]|].
  unfold SHA1Update. rewrite (buffer_position m ctx Hctx). fold j.
  rewrite u32_id by (unfold is_u32, blen in *; lia).
  destruct (Z.ltb_spec 63 (Z.of_nat j + blen data)); [unfold blen in *; lia|].
  rewrite Z.sub_0_r. unfold blen at 4. rewrite !Nat2Z.id, drop_0, firstn_all.
  split; cbn [ctx_state ctx_buffer ctx_count0 ctx_count1]; rewrite ?length_app, ?Eq, ?Ej.
  - rewrite compress_blocks_prefix by lia. apply (ct_state _ _ Hctx).
  - rewrite length_blit. apply (ct_buffer_len _ _ Hctx).
  - apply bytes_ok_blit; [apply (ct_buffer_ok _ _ Hctx)|done].
  - rewrite tail_copied by lia. by rewrite drop_app_le by lia.
  - rewrite (ct_count0 _ _ Hctx), blen_app. exact E0.
  - rewrite (ct_count0 _ _ Hctx), (ct_count1 _ _ Hctx), blen_app. exact E1.
Qed.
(** The block completed by the front of [data], and what follows it. *)
Lemma update_full :
  (64 <= j + length data)%nat -> ctx_at (m ++ data) (SHA1Update ctx data (blen data)).
Proof.
  intros Hn. pose proof (nat_div_mod_64 (length m)) as [Hm Hj]. fold j q in Hm, Hj.
  assert (Hj0 : j = 0%nat \/ blen data < 4294967296 - 64) by exact Hroom.
  pose proof (count_step (blen m) (blen data)) as [E0 E1]; [apply blen_nonneg|split; [apply blen_nonneg|done]|].
  unfold SHA1Update. rewrite (buffer_position m ctx Hctx). fold j.
  rewrite (u32_id (Z.of_nat j + _)) by (unfold is_u32, blen in *; lia).
  destruct (Z.ltb_spec 63 (Z.of_nat j + blen data)); [|unfold blen in *; lia].
  replace (64 - Z.of_nat j) with (Z.of_nat (64 - j)) by lia. rewrite !Nat2Z.id.
  set (front := take (64 - j) data).
  assert (Hfront : length front = (64 - j)%nat) by (unfold front; rewrite length_take; lia).
  pose proof (tail_copied front ltac:(lia)) as Hblock.
  set (buf := blit (ctx_buffer ctx) j front) in *.
  assert (Hbl : length buf = 64%nat) by (unfold buf; rewrite length_blit; apply (ct_buffer_len _ _ Hctx)).
  rewrite Hfront, take_ge in Hblock by lia.
  assert (Hbok : bytes_ok buf).
  { apply bytes_ok_blit; [apply (ct_buffer_ok _ _ Hctx)|by apply Forall_take]. }
  assert (Hst : words_ok (ctx_state ctx)).
  { rewrite (ct_state _ _ Hctx). apply compress_blocks_ok, sha1_iv_ok. }
  rewrite transform_compress by done.
  rewrite transform_loop_spec;
    [|done|apply compress_ok|done|unfold blen in *; lia|
      destruct Hj0 as [Hj0|]; [left; rewrite Hj0; reflexivity|by right]|unfold blen in *; zlia].
  set (rest := (length data - (64 - j))%nat).
  assert (Er : Z.to_nat ((blen data - Z.of_nat (64 - j)) / 64) = (rest / 64)%nat).
  { unfold blen, rest. rewrite <- (Nat2Z.id ((length data - (64 - j)) / 64)), Nat2Z.inj_div.
    do 2 f_equal. lia. }
  rewrite Er. pose proof (nat_div_mod_64 rest) as [Hr Hrm].
  assert (Eq : ((length m + length data) / 64 = q + S (rest / 64))%nat).
  { symmetry. apply (Nat.div_unique _ _ _ (rest mod 64)); lia. }
  assert (Ej : ((length m + length data) mod 64 = rest mod 64)%nat).
  { symmetry. apply (Nat.mod_unique _ _ (q + S (rest / 64))); lia. }
  assert (Ei : Z.to_nat (Z.of_nat (64 - j) + 64 * Z.of_nat (rest / 64)) =
    (64 - j + 64 * (rest / 64))%nat) by lia.
  assert (En : Z.to_nat (blen data - (Z.of_nat (64 - j) + 64 * Z.of_nat (rest / 64))) =
    (rest mod 64)%nat) by (unfold blen; lia).
  cbv zeta. rewrite Ei, En.
  set (last := take (rest mod 64) _).
  assert (Elast : last = drop (64 - j + 64 * (rest / 64)) data).
  { apply take_ge. rewrite length_drop. lia. }
  assert (Hlast : length last = (rest mod 64)%nat).
  { rewrite Elast, length_drop. lia. }
  assert (Edrop : drop (64 * q) (m ++ data) = buf ++ drop (64 - j) data).
  { rewrite drop_app_le by lia. rewrite Hblock. unfold front. rewrite <- app_assoc.
    by rewrite take_drop. }
  split; cbn [ctx_state ctx_buffer ctx_count0 ctx_count1]; rewrite ?length_app, ?Eq, ?Ej.
  - pose proof (ct_state _ _ Hctx) as Hs. fold q in Hs.
    rewrite compress_blocks_add, compress_blocks_prefix, Edrop, <- Hs by lia.
    cbn [compress_blocks]. by rewrite take_app_length', drop_app_length', Nat2Z.id by done.
  - by rewrite length_blit.
  - apply bytes_ok_blit; [done|]. apply Forall_take. by apply Forall_drop.
  - rewrite blit_in_range by lia. change (take (Z.to_nat 0) buf) with (@nil Z). cbn [app].
    rewrite take_app_length', Elast by done.
    replace (64 * (q + S (rest / 64)))%nat with (64 * q + (64 + 64 * (rest / 64)))%nat by lia.
    rewrite <- (drop_drop (m ++ data)), Edrop, <- (drop_drop (buf ++ _)).
    by rewrite (drop_app_length' buf), drop_drop by done.
  - rewrite (ct_count0 _ _ Hctx), blen_app. exact E0.
  - rewrite (ct_count0 _ _ Hctx), (ct_count1 _ _ Hctx), blen_app. exact E1.
Qed.

Lemma update_spec : ctx_at (m ++ data) (SHA1Update ctx data (blen data)).
Proof.
  destruct (decide (j + length data < 64)%nat); [by apply update_short|apply update_full; lia].
Qed.
End Update.

(** ** Finishing *)

Lemma init_at stack :
  length stack = 64%nat -> bytes_ok stack -> ctx_at [] (SHA1Init stack).
Proof. intros H1 H2. by split. Qed.

(** The loop condition looks at the position in the block. *)
Lemma count_position m ctx :
  ctx_at m ctx -> Z.land ctx.(ctx_count0) 504 = 8 * (blen m mod 64).
Proof.
  intros H. rewrite (ct_count0 _ _ H). pose proof (blen_nonneg m).
  replace (8 * blen m mod 4294967296) with (Z.shiftl (blen m mod 536870912) 3)
    by (rewrite Z.shiftl_mul_pow2 by lia; change (2 ^ 3) with 8; zlia).
  change 504 with (Z.shiftl 63 3). rewrite <- Z.shiftl_land. shifts.
  rewrite Z.shiftl_mul_pow2 by lia. change (2 ^ 3) with 8. zlia.
Qed.

Lemma pad_loop_spec fuel : forall m ctx,
  ctx_at m ctx -> (56 - blen m) mod 64 < Z.of_nat fuel ->
  ctx_at (m ++ replicate (Z.to_nat ((56 - blen m) mod 64)) 0) (pad_loop fuel ctx).
Proof.
  induction fuel as [|fuel IH]; intros m ctx Hc Hf; [zlia|].
  cbn [pad_loop]. rewrite (count_position m ctx Hc).
  destruct (Z.eqb_spec (8 * (blen m mod 64)) 448) as [E|E]; cbn [negb].
  - replace ((56 - blen m) mod 64) with 0 by zlia. by rewrite app_nil_r.
  - assert (Hc' : ctx_at (m ++ [0]) (SHA1Update ctx [0] 1)).
    { apply (update_spec m ctx [0] Hc); [by repeat constructor|done|by right]. }
    assert (Ek : (56 - blen m) mod 64 = (56 - blen (m ++ [0])) mod 64 + 1).
    { rewrite blen_app. change (blen [0]) with 1. zlia. }
    specialize (IH _ _ Hc' ltac:(lia)). rewrite Ek.
    replace (Z.to_nat ((56 - blen (m ++ [0])) mod 64 + 1))
      with (S (Z.to_nat ((56 - blen (m ++ [0])) mod 64))) by zlia.
    cbn [replicate]. by rewrite <- app_assoc in IH.
Qed.

Lemma be_digit_div v i :
  be_digit v i = u8 (v / 2 ^ ((3 - Z.of_nat (Nat.land i 3)) * 8)).
Proof.
  unfold be_digit. assert (Nat.land i 3 < 4)%nat.
  { change 3%nat with (Nat.ones 2). rewrite Nat.land_ones. by apply Nat.mod_upper_bound. }
  rewrite Z.shiftr_div_pow2 by lia. shifts. unfold u8. by rewrite Z.mod_mod by lia.
Qed.

(** The eight bytes of the bit count. *)
Lemma final_count m ctx :
  ctx_at m ctx ->
  map (fun i => be_digit (if (4 <=? i)%nat then ctx.(ctx_count0) else ctx.(ctx_count1)) i) (seq 0 8) =
  be_bytes 8 (8 * blen m).
Proof.
  intros H. pose proof (blen_nonneg m). rewrite (ct_count0 _ _ H), (ct_count1 _ _ H).
  set (x := 8 * blen m). assert (0 <= x) by (unfold x; lia). clearbody x.
  cbn [seq map Nat.leb]. rewrite !be_digit_div. unfold be_bytes. cbn [le_bytes rev app].
  rewrite !Z.div_div by lia. cbn [Nat.land Z.of_nat]. unfold u8.
  repeat (f_equal; [cbn; zlia|]). f_equal. cbn. zlia.
Qed.

Lemma length_be_bytes n v : length (be_bytes n v) = n.
Proof. unfold be_bytes. by rewrite length_rev, length_le_bytes. Qed.
Lemma be_bytes_ok n v : bytes_ok (be_bytes n v).
Proof. unfold be_bytes. apply Forall_rev, le_bytes_ok. Qed.

(** The digest is the state, word by word. *)
Lemma digest_bytes state :
  length state = 5%nat -> words_ok state ->
  map (fun i => be_digit (wd state (Nat.div2 (Nat.div2 i))) i) (seq 0 20) =
  concat (map (be_bytes 4) state).
Proof.
  intros Hl Hok. destruct state as [|a [|b [|c [|d [|e [|]]]]]]; try done.
  cbn [seq map Nat.div2 wd nth concat]. rewrite !be_digit_div. unfold be_bytes.
  cbn [le_bytes rev app]. rewrite !Z.div_div by lia. cbn [Nat.land Z.of_nat].
  clear. cbn. by rewrite !Z.div_1_r.
Qed.

Lemma compress_blocks_length n : forall h m,
  length h = 5%nat -> length (compress_blocks n h m) = 5%nat.
Proof.
  induction n as [|n IH]; intros h m Hh; [done|]. apply IH. unfold compress.
  by destruct (fold_left _ _ _) as [[[[a b] c] d] e].
Qed.

Lemma padded_length m : (length (m ++ sha1_padding m) mod 64 = 0)%nat.
Proof.
  unfold sha1_padding. rewrite !length_app, length_replicate, length_be_bytes. cbn [length].
  rewrite <- (Nat2Z.id (_ mod 64)), Nat2Z.inj_mod. unfold blen.
  change 0%nat with (Z.to_nat 0). f_equal. zlia.
Qed.

Lemma sha1_spec_ok m : bytes_ok (sha1_spec m).
Proof.
  unfold sha1_spec. generalize (compress_blocks (length (m ++ sha1_padding m) / 64) sha1_iv (m ++ sha1_padding m)).
  intros l. induction l as [|w l IH]; [constructor|]. cbn [map concat].
  apply Forall_app_2; [apply be_bytes_ok|done].
Qed.

Lemma sha1_digest stack data :
  length stack = 64%nat -> bytes_ok stack -> bytes_ok data -> blen data < 4294967296 ->
  sha1 stack data = sha1_spec data.
Proof.
  intros Hst Hstok Hd Hl. pose proof (blen_nonneg data).
  unfold sha1. rewrite u32_id by (unfold is_u32; lia).
  pose proof (update_spec [] (SHA1Init stack) data (init_at stack Hst Hstok) Hd Hl
    (or_introl eq_refl)) as H1. cbn [app] in H1.
  unfold SHA1Final. rewrite (final_count _ _ H1). set (ctx1 := SHA1Update _ _ _) in *.
  assert (H2 : ctx_at (data ++ [128]) (SHA1Update ctx1 [128] 1)).
  { apply (update_spec data ctx1 [128] H1); [by repeat constructor|done|by right]. }
  pose proof (pad_loop_spec 64 _ _ H2 ltac:(zlia)) as H3.
  assert (H4 : ctx_at (data ++ sha1_padding data)
    (SHA1Update (pad_loop 64 (SHA1Update ctx1 [128] 1)) (be_bytes 8 (8 * blen data)) 8)).
  { unfold sha1_padding.
    replace (data ++ [128] ++ replicate (Z.to_nat ((55 - blen data) mod 64)) 0 ++ be_bytes 8 (8 * blen data))
      with (((data ++ [128]) ++ replicate (Z.to_nat ((56 - blen (data ++ [128])) mod 64)) 0) ++
            be_bytes 8 (8 * blen data)).
    - refine (update_spec _ _ _ H3 (be_bytes_ok _ _) _ (or_intror _)); done.
    - rewrite blen_app. change (blen [128]) with 1.
      replace (56 - (blen data + 1)) with (55 - blen data) by lia. by rewrite <- !app_assoc. }
  cbv zeta. rewrite (ct_state _ _ H4). rewrite digest_bytes.
  - done.
  - by apply compress_blocks_length.
  - apply compress_blocks_ok, sha1_iv_ok.
Qed.

(** The SHA-1 of the WebSocket handshake is SHA-1.  The streaming code
    (in-place 16-word schedule, buffered blocks, two-word bit counter, padding
    byte by byte) computes the digest FIPS 180-4 defines, for every input below
    4 GiB and whatever the uninitialised context held. *)
Theorem sha1_correct stack data :
  length stack = 64%nat -> bytes_ok stack -> bytes_ok data -> blen data < 4294967296 ->
  sha1 stack data = sha1_spec data.
Proof. apply sha1_digest. Qed.

Lemma sha1_correct_witness :
  sha1 (replicate 64 7) (bs "abc") = sha1_spec (bs "abc") /\
  sha1_spec (bs "abc") =
    [0xa9; 0x99; 0x3e; 0x36; 0x47; 0x06; 0x81; 0x6a; 0xba; 0x3e;
     0x25; 0x71; 0x78; 0x50; 0xc2; 0x6c; 0x9c; 0xd0; 0xd8; 0x9d].
Proof.
  split; [|vm_compute; reflexivity].
  apply (sha1_correct (replicate 64 7) (bs "abc"));
    [reflexivity|apply bytes_okb_ok; reflexivity..|reflexivity].
Defined.
