(* ===== verification/WsHandshake.v ===== *)
(** * WebSocket handshake (net/websocket/websocket.c, ws_utils.c)

    The Base64 encoder, the checks on the request's fields, and the
    101 response.  A key is accepted exactly when it is the Base64 text of
    sixteen bytes, and the answer carries the digest RFC 6455 asks for. *)

From S2P Require Import Prelude.
From S2P Require Import Sha1.
From S2P Require Import Http1.
From S2P Require Import HttpResponse.
From S2P Require Import Hpack.

(** ** Base64 *)

Definition encoding_table : bytes :=
  bs "ABCDEFGHIJKLMNOPQRSTUVWXYZabcdefghijklmnopqrstuvwxyz0123456789+/".
Definition mod_table : list nat := [0; 2; 1]%nat.

(** The four characters of three octets. *)
Definition b64_quad (octet_a octet_b octet_c : Z) : bytes :=
  let triple := u32 (Z.shiftl octet_a 16 + Z.shiftl octet_b 8 + octet_c) in
  map (fun k => rd encoding_table (Z.to_nat (Z.land (Z.shiftr triple (k * 6)) 63))) [3; 2; 1; 0].

(** The loop: octets past the end read as 0. *)
Fixpoint b64_loop (data : bytes) : bytes :=
  match data with
  | [] => []
  | [a] => b64_quad a 0 0
  | [a; b] => b64_quad a b 0
  | a :: b :: c :: data' => b64_quad a b c ++ b64_loop data'
  end.

(** [for (i = 0; i < n; i++) encoded_data[output_length - 1 - i] = '='] *)
Fixpoint b64_pad (n : nat) (out : bytes) : bytes :=
  match n with
  | O => out
  | S n => put (b64_pad n out) (length out - 1 - n) 61
  end.

Definition base64_encode (data : bytes) (o : oracle) : option bytes * oracle :=
  let (ok, o) := alloc o in
  if ok then (Some (b64_pad (nth (length data mod 3) mod_table 0%nat) (b64_loop data)), o)
  else (None, o).

(** ** The checks *)

(** [p] up to the terminating NUL; [fuel] counts the tokens looked at. *)
Fixpoint drop_seps (p : bytes) : bytes :=
  match p with
  | c :: p' => if (c =? 32) || (c =? 9) || (c =? 44) then drop_seps p' else p
  | [] => []
  end.
Fixpoint token_to_comma (p : bytes) : bytes :=
  match p with
  | c :: p' => if c =? 44 then [] else c :: token_to_comma p'
  | [] => []
  end.
(** [while (end > start && (end[-1] == ' ' || end[-1] == '\t')) end--] *)
Fixpoint trim_end (n : nat) (tok : bytes) : bytes :=
  match n with
  | O => []
  | S n => if (rd tok n =? 32) || (rd tok n =? 9) then trim_end n tok else take (S n) tok
  end.
Fixpoint has_upgrade_loop (fuel : nat) (p : bytes) : bool :=
  match fuel, p with
  | S fuel, _ :: _ =>
      let p := drop_seps p in
      let tok := token_to_comma p in
      let t := trim_end (length tok) tok in
      if (length t =? 7)%nat && case_eq t (bs "Upgrade") then true
      else has_upgrade_loop fuel (drop (S (length tok)) p)
  | _, _ => false
  end.
Definition ws_connection_has_upgrade (connection : bytes) : bool :=
  has_upgrade_loop (S (length connection)) connection.

Definition ws_b64_value (c : Z) : Z :=
  if (65 <=? c) && (c <=? 90) then c - 65
  else if (97 <=? c) && (c <=? 122) then c - 97 + 26
  else if (48 <=? c) && (c <=? 57) then c - 48 + 52
  else if c =? 43 then 62
  else if c =? 47 then 63
  else -1.

(** [if (used >= sizeof(decoded)) return false; decoded[used++] = v] *)
Definition key_push (v : Z) (decoded : option bytes) : option bytes :=
  match decoded with
  | Some d => if (16 <=? length d)%nat then None else Some (d ++ [u8 v])
  | None => None
  end.

(** One round of the loop over [i = 0, 4, ..., 20]. *)
Definition key_step (key : bytes) (decoded : option bytes) (i : nat) : option bytes :=
  match decoded with
  | None => None
  | Some _ =>
      let k2 := rd key (i + 2) in
      let k3 := rd key (i + 3) in
      let a := ws_b64_value (rd key i) in
      let b := ws_b64_value (rd key (i + 1)) in
      let c := if k2 =? 61 then 0 else ws_b64_value k2 in
      let d := if k3 =? 61 then 0 else ws_b64_value k3 in
      if (a <? 0) || (b <? 0) || (c <? 0) || (d <? 0) then None
      else if (i + 2 <? 22)%nat && ((k2 =? 61) || (k3 =? 61)) then None
      else
        let v := Z.lor (Z.lor (Z.lor (Z.shiftl a 18) (Z.shiftl b 12)) (Z.shiftl c 6)) d in
        let decoded := key_push (Z.shiftr v 16) decoded in
        let decoded := if k2 =? 61 then decoded else key_push (Z.shiftr v 8) decoded in
        if k3 =? 61 then decoded else key_push v decoded
  end.

Definition ws_valid_handshake_key (key : bytes) : bool :=
  if negb (length key =? 24)%nat || negb (rd key 22 =? 61) || negb (rd key 23 =? 61) then false
  else
    match fold_left (key_step key) [0; 4; 8; 12; 16; 20]%nat (Some []) with
    | Some decoded =>
        (length decoded =? 16)%nat && (Z.land (ws_b64_value (rd key 21)) 15 =? 0)
    | None => false
    end.

(** ** The response *)

Definition WS_GUID : bytes := bs "258EAFA5-E914-47DA-95CA-C5AB0DC85B11".

(** Outcomes of adding a field are not looked at. *)
Definition add_ignored (hs : list header) (k v : bytes) (o : oracle) : list header * oracle :=
  match header_add hs (Some k) (Some v) o with
  | (inr l, o) => (l, o)
  | (inl _, o) => (hs, o)
  end.

Definition request_acceptable (headers : list header) : option bytes :=
  match header_get headers (bs "Connection"), header_get headers (bs "Upgrade"),
        header_get headers (bs "Sec-WebSocket-Key") with
  | Some connection, Some upgrade, Some key =>
      if negb (ws_connection_has_upgrade connection) then None
      else if negb (case_eq upgrade (bs "websocket")) then None
      else if negb (ws_valid_handshake_key key) then None
      else
        match header_get headers (bs "Sec-WebSocket-Version") with
        | Some v => if bool_decide (v = bs "13") then Some key else None
        | None => None
        end
  | _, _, _ => None
  end.

(** [stack] is what the hash context held. *)
Definition cwist_websocket_upgrade_response (stack : bytes) (headers : list header)
  (res : http_response) (o : oracle) : bool * http_response * oracle :=
  match request_acceptable headers with
  | None => (false, res, o)
  | Some key =>
      let combined_key := take 511 (key ++ WS_GUID) in
      let hash := sha1 stack combined_key in
      match base64_encode hash o with
      | (None, o) => (false, res, o)
      | (Some accept_key, o) =>
          let '(text, o) :=
            match res.(rs_status_text) with
            | Some _ => sstring_assign res.(rs_status_text) (bs "Switching Protocols") o
            | None => (None, o)
            end in
          let '(hs, o) := add_ignored res.(rs_headers) (bs "Upgrade") (bs "websocket") o in
          let '(hs, o) := add_ignored hs (bs "Connection") (bs "Upgrade") o in
          let '(hs, o) := add_ignored hs (bs "Sec-WebSocket-Accept") accept_key o in
          (true, res <| rs_status_code := 101 |> <| rs_status_text := text |>
                     <| rs_headers := hs |>, o)
      end
  end.

(** ** Reference definitions *)

Definition is_blank (c : Z) : bool := (c =? 32) || (c =? 9).
Fixpoint trim_start (s : bytes) : bytes :=
  match s with
  | c :: s' => if is_blank c then trim_start s' else s
  | [] => []
  end.
Definition trim (s : bytes) : bytes := rev (trim_start (rev (trim_start s))).
Fixpoint split_commas (s : bytes) : list bytes :=
  match s with
  | [] => [[]]
  | c :: s' =>
      if c =? 44 then [] :: split_commas s'
      else match split_commas s' with
           | e :: es => (c :: e) :: es
           | [] => [[c]]
           end
  end.
Definition lists_upgrade (connection : bytes) : bool :=
  existsb (fun e => case_eq (trim e) (bs "Upgrade")) (split_commas connection).

(** Base64 of RFC 4648, six bits at a time. *)
Definition b64_char (v : Z) : Z := rd encoding_table (Z.to_nat v).
Fixpoint base64_spec (d : bytes) : bytes :=
  match d with
  | [] => []
  | [a] => [b64_char (a / 4); b64_char (a mod 4 * 16); 61; 61]
  | [a; b] => [b64_char (a / 4); b64_char (a mod 4 * 16 + b / 16); b64_char (b mod 16 * 4); 61]
  | a :: b :: c :: d' =>
      [b64_char (a / 4); b64_char (a mod 4 * 16 + b / 16); b64_char (b mod 16 * 4 + c / 64);
       b64_char (c mod 64)] ++ base64_spec d'
  end.

(** What RFC 6455 asks of the opening request. *)
Definition request_valid (headers : list header) (key : bytes) : Prop :=
  (exists c, header_get headers (bs "Connection") = Some c /\ lists_upgrade c = true) /\
  (exists u, header_get headers (bs "Upgrade") = Some u /\ case_eq u (bs "websocket") = true) /\
  header_get headers (bs "Sec-WebSocket-Version") = Some (bs "13") /\
  header_get headers (bs "Sec-WebSocket-Key") = Some key /\
  exists nonce, length nonce = 16%nat /\ bytes_ok nonce /\ key = base64_spec nonce.

(** ** The comma-separated list *)

Lemma case_eq_lengths a b : case_eq a b = true -> length a = length b.
Proof.
  unfold case_eq. rewrite bool_decide_eq_true. intros H. apply (f_equal (@length Z)) in H.
  by rewrite !length_map in H.
Qed.

Lemma split_commas_cons s : exists e es, split_commas s = e :: es.
Proof. destruct s as [|c s]; cbn; [by eauto|]. destruct (c =? 44); [eauto|]. by destruct (split_commas s); eauto. Qed.

Lemma trim_blank c e : is_blank c = true -> trim (c :: e) = trim e.
Proof. intros H. unfold trim. cbn [trim_start]. by rewrite H. Qed.

Lemma lists_upgrade_drop_seps p : lists_upgrade (drop_seps p) = lists_upgrade p.
Proof.
  unfold lists_upgrade. induction p as [|c p IH]; [done|]. cbn [drop_seps split_commas].
  destruct (Z.eqb_spec c 44) as [->|Hc].
  { rewrite orb_true_r. cbn [existsb]. rewrite IH. done. }
  rewrite orb_false_r. destruct ((c =? 32) || (c =? 9)) eqn:Hb.
  - rewrite IH. destruct (split_commas_cons p) as (e & es & E). rewrite E. cbn [existsb].
    by rewrite (trim_blank c e Hb).
  - cbn [split_commas]. by rewrite (proj2 (Z.eqb_neq c 44) Hc).
Qed.

Lemma token_split p :
  exists es, split_commas p = token_to_comma p :: es /\
    existsb (fun e => case_eq (trim e) (bs "Upgrade")) es =
    lists_upgrade (drop (S (length (token_to_comma p))) p).
Proof.
  unfold lists_upgrade. induction p as [|c p IH]; [by exists []|].
  cbn [split_commas token_to_comma]. destruct (c =? 44) eqn:Hc.
  - eexists. by split.
  - destruct IH as (es & -> & E). exists es. by split.
Qed.

Lemma trim_end_spec n : forall tok, (n <= length tok)%nat ->
  trim_end n tok = rev (trim_start (rev (take n tok))).
Proof.
  induction n as [|n IH]; intros tok Hn; [done|]. cbn [trim_end].
  destruct (lookup_lt_is_Some_2 tok n) as [x Hx]; [lia|].
  rewrite (rd_lookup _ _ _ Hx), (take_S_r _ _ _ Hx), rev_app_distr.
  cbn [rev app trim_start]. fold (is_blank x). destruct (is_blank x); [apply IH; lia|].
  cbn [rev]. by rewrite rev_involutive.
Qed.

Lemma drop_seps_head p : trim_start (token_to_comma (drop_seps p)) = token_to_comma (drop_seps p).
Proof.
  induction p as [|c p IH]; [done|]. cbn [drop_seps].
  destruct ((c =? 32) || (c =? 9) || (c =? 44)) eqn:E; [done|].
  apply orb_false_iff in E as [Eb Ec]. cbn [token_to_comma]. rewrite Ec.
  cbn [trim_start]. unfold is_blank. by rewrite Eb.
Qed.

Lemma drop_seps_length p : (length (drop_seps p) <= length p)%nat.
Proof. induction p as [|c p IH]; cbn; [lia|]. destruct (_ || _); cbn; lia. Qed.

Lemma has_upgrade_loop_spec fuel : forall p,
  (length p < fuel)%nat -> has_upgrade_loop fuel p = lists_upgrade p.
Proof.
  induction fuel as [|fuel IH]; intros p Hf; [lia|]. cbn [has_upgrade_loop].
  destruct p as [|c p']; [done|]. set (p := c :: p') in *.
  pose proof (drop_seps_length p). destruct (token_split (drop_seps p)) as (es & E & Ees).
  rewrite <- (lists_upgrade_drop_seps p). unfold lists_upgrade at 1. rewrite E. cbn [existsb].
  rewrite Ees. rewrite trim_end_spec, take_ge, <- (drop_seps_head p) by lia.
  unfold trim. rewrite !drop_seps_head.
  set (t := rev _). destruct (case_eq t (bs "Upgrade")) eqn:Et.
  - rewrite (case_eq_lengths _ _ Et). done.
  - rewrite andb_false_r. cbn [orb]. apply IH. rewrite length_drop.
    assert (length p = S (length p')) by done. lia.
Qed.

Lemma connection_has_upgrade_spec c : ws_connection_has_upgrade c = lists_upgrade c.
Proof. apply has_upgrade_loop_spec. lia. Qed.

(** ** Base64 and the key *)

Lemma b64_table_value v : 0 <= v < 64 -> ws_b64_value (b64_char v) = v /\ b64_char v <> 61.
Proof.
  intros Hv.
  assert (H : forallb (fun n => (ws_b64_value (b64_char (Z.of_nat n)) =? Z.of_nat n) &&
    negb (b64_char (Z.of_nat n) =? 61)) (seq 0 64) = true) by reflexivity.
  apply forallb_forall with (x := Z.to_nat v) in H; [|apply in_seq; lia].
  rewrite Z2Nat.id in H by lia. lia.
Qed.

Lemma b64_value_table c :
  0 <= ws_b64_value c -> ws_b64_value c < 64 /\ b64_char (ws_b64_value c) = c.
Proof.
  intros Hc. assert (Hr : 0 <= c < 256) by (unfold ws_b64_value in Hc; repeat case_match; lia).
  assert (H : forallb (fun n => let c := Z.of_nat n in (ws_b64_value c <? 0) ||
    ((ws_b64_value c <? 64) && (b64_char (ws_b64_value c) =? c))) (seq 0 256) = true) by reflexivity.
  apply forallb_forall with (x := Z.to_nat c) in H; [|apply in_seq; lia].
  cbv zeta in H. rewrite Z2Nat.id in H by lia. lia.
Qed.

(** The characters of a group are its four sextets. *)
Lemma b64_quad_spec a b c :
  is_u8 a -> is_u8 b -> is_u8 c ->
  b64_quad a b c = [b64_char (a / 4); b64_char (a mod 4 * 16 + b / 16);
                    b64_char (b mod 16 * 4 + c / 64); b64_char (c mod 64)].
Proof.
  unfold is_u8. intros Ha Hb Hc. unfold b64_quad. rewrite !Z.shiftl_mul_pow2 by lia.
  change (2 ^ 16) with 65536. change (2 ^ 8) with 256.
  rewrite u32_id by (unfold is_u32; lia). cbn [map Z.mul Pos.mul Pos.add].
  shifts. unfold b64_char. set (t := a * 65536 + b * 256 + c).
  assert (E1 : t / 262144 mod 64 = a / 4) by (unfold t; zlia).
  assert (E2 : t / 4096 mod 64 = a mod 4 * 16 + b / 16) by (unfold t; zlia).
  assert (E3 : t / 64 mod 64 = b mod 16 * 4 + c / 64) by (unfold t; zlia).
  assert (E4 : t / 1 mod 64 = c mod 64) by (unfold t; zlia).
  by rewrite E1, E2, E3, E4.
Qed.

Lemma b64_loop_length d : (length (b64_loop d) = 4 * ((length d + 2) / 3))%nat.
Proof.
  remember (length d) as n eqn:E. revert d E.
  induction n as [n IH] using lt_wf_ind. intros [|a [|b [|c d]]] ->; try done.
  cbn [b64_loop]. rewrite length_app, (IH (length d)) by (cbn; lia || done).
  cbn [length b64_quad map]. replace (S (S (S (length d))) + 2)%nat with (length d + 2 + 1 * 3)%nat by lia.
  rewrite Nat.div_add by lia. lia.
Qed.

Lemma b64_pad_app n x out :
  (n <= length out)%nat -> b64_pad n (x ++ out) = x ++ b64_pad n out.
Proof.
  induction n as [|n IH]; intros Hn; [done|]. cbn [b64_pad]. rewrite IH by lia. unfold put.
  rewrite length_app. replace (length x + length out - 1 - n)%nat
    with (length x + (length out - 1 - n))%nat by lia.
  by rewrite insert_app_r.
Qed.

Definition base64_text (d : bytes) : bytes :=
  b64_pad (nth (length d mod 3) mod_table 0%nat) (b64_loop d).

(** The encoder is RFC 4648's, padding included. *)
Lemma base64_text_spec d : bytes_ok d -> base64_text d = base64_spec d.
Proof.
  remember (length d) as n eqn:E. revert d E.
  induction n as [n IH] using lt_wf_ind. intros [|a [|b [|c d]]] -> Hd; unfold base64_text.
  - done.
  - apply list.Forall_cons_1 in Hd as [Ha _]. cbn [b64_loop]. rewrite b64_quad_spec by (done || mlia).
    cbn. do 3 f_equal. by rewrite Z.add_0_r.
  - unfold bytes_ok in Hd. rewrite !list.Forall_cons in Hd. destruct Hd as (Ha & Hb & _). cbn [b64_loop].
    rewrite b64_quad_spec by (done || mlia). cbn. by rewrite Z.add_0_r.
  - unfold bytes_ok in Hd. rewrite !list.Forall_cons in Hd. destruct Hd as (Ha & Hb & Hc & Hd). cbn [b64_loop base64_spec].
    rewrite b64_quad_spec by done.
    assert (Em : (length (a :: b :: c :: d) mod 3 = length d mod 3)%nat).
    { cbn [length]. replace (S (S (S (length d)))) with (length d + 1 * 3)%nat by lia.
      apply Nat.Div0.mod_add. }
    rewrite Em, b64_pad_app; [f_equal; apply (IH (length d)); cbn; lia || done|].
    rewrite b64_loop_length. pose proof (Nat.mod_upper_bound (length d) 3 ltac:(lia)).
    pose proof (Nat.div_mod_eq (length d) 3). pose proof (Nat.div_mod_eq (length d + 2) 3). pose proof (Nat.mod_upper_bound (length d + 2) 3 ltac:(lia)).
    destruct (length d mod 3)%nat as [|[|[|]]] eqn:Er; cbn [nth mod_table]; lia.
Qed.

(** The 24 bits of four sextets, and the three octets they make. *)
Lemma sextets a b c d :
  0 <= a < 64 -> 0 <= b < 64 -> 0 <= c < 64 -> 0 <= d < 64 ->
  let v := Z.lor (Z.lor (Z.lor (Z.shiftl a 18) (Z.shiftl b 12)) (Z.shiftl c 6)) d in
  u8 (Z.shiftr v 16) = a * 4 + b / 16 /\ u8 (Z.shiftr v 8) = b mod 16 * 16 + c / 4 /\
  u8 v = c mod 4 * 64 + d.
Proof.
  intros Ha Hb Hc Hd. cbv zeta.
  rewrite !Z.shiftl_mul_pow2 by lia. change (2 ^ 18) with 262144. change (2 ^ 12) with 4096.
  change (2 ^ 6) with 64.
  rewrite (lor_add_above (a * 262144) (b * 4096) 18) by (change (2 ^ 18) with 262144; zlia).
  rewrite (lor_add_above _ (c * 64) 12) by (change (2 ^ 12) with 4096; zlia).
  rewrite (lor_add_above _ d 6) by (change (2 ^ 6) with 64; zlia).
  shifts. unfold u8. split; [|split]; zlia.
Qed.

Lemma key_push_room v d : (length d < 16)%nat -> key_push v (Some d) = Some (d ++ [u8 v]).
Proof. intros H. unfold key_push. by rewrite (proj2 (Nat.leb_gt _ _)) by lia. Qed.
Lemma key_push_inv v d d' : key_push v (Some d) = Some d' -> (length d < 16)%nat.
Proof. unfold key_push. destruct (Nat.leb_spec 16 (length d)); [done|lia]. Qed.

(** A group of four characters without padding. *)
Lemma key_step_full key dec dec' i :
  (i + 2 < 22)%nat -> key_step key (Some dec) i = Some dec' ->
  exists x y z, is_u8 x /\ is_u8 y /\ is_u8 z /\ dec' = dec ++ [x; y; z] /\
    [rd key i; rd key (i + 1); rd key (i + 2); rd key (i + 3)] =
    [b64_char (x / 4); b64_char (x mod 4 * 16 + y / 16); b64_char (y mod 16 * 4 + z / 64);
     b64_char (z mod 64)].
Proof.
  intros Hi. unfold key_step. rewrite (proj2 (Nat.ltb_lt _ _) Hi). cbn [andb].
  destruct (Z.eqb_spec (rd key (i + 2)) 61) as [_|H2]; [by destruct (_ || _)|].
  destruct (Z.eqb_spec (rd key (i + 3)) 61) as [_|H3]; [by destruct (_ || _)|]. cbn [orb].
  set (a := ws_b64_value (rd key i)). set (b := ws_b64_value (rd key (i + 1))).
  set (c := ws_b64_value (rd key (i + 2))). set (d := ws_b64_value (rd key (i + 3))).
  destruct ((a <? 0) || (b <? 0) || (c <? 0) || (d <? 0)) eqn:Hneg; [done|].
  destruct (b64_value_table (rd key i)) as [Ha Ea]; [fold a; lia|].
  destruct (b64_value_table (rd key (i + 1))) as [Hb Eb]; [fold b; lia|].
  destruct (b64_value_table (rd key (i + 2))) as [Hc Ec]; [fold c; lia|].
  destruct (b64_value_table (rd key (i + 3))) as [Hd Ed]; [fold d; lia|].
  fold a in Ha, Ea. fold b in Hb, Eb. fold c in Hc, Ec. fold d in Hd, Ed.
  destruct (sextets a b c d) as (E1 & E2 & E3); [lia..|]. cbv zeta.
  set (v := Z.lor _ d) in *. intros H.
  assert (Hroom : (length dec < 14)%nat).
  { unfold key_push in H. repeat case_match; simplify_eq.
    rewrite ?length_app in *. cbn [length] in *.
    repeat match goal with H : (_ <=? _)%nat = false |- _ => apply Nat.leb_gt in H end. lia. }
  rewrite !key_push_room in H by (rewrite ?length_app; cbn; lia). injection H as <-.
  exists (a * 4 + b / 16), (b mod 16 * 16 + c / 4), (c mod 4 * 64 + d).
  rewrite E1, E2, E3, <- !app_assoc. unfold is_u8. split_and!; try done; try zlia.
  rewrite <- Ea, <- Eb, <- Ec, <- Ed. repeat f_equal; zlia.
Qed.

Lemma key_step_full_ok key dec i x y z :
  (i + 2 < 22)%nat -> (length dec < 14)%nat -> is_u8 x -> is_u8 y -> is_u8 z ->
  rd key i = b64_char (x / 4) -> rd key (i + 1) = b64_char (x mod 4 * 16 + y / 16) ->
  rd key (i + 2) = b64_char (y mod 16 * 4 + z / 64) -> rd key (i + 3) = b64_char (z mod 64) ->
  key_step key (Some dec) i = Some (dec ++ [x; y; z]).
Proof.
  unfold is_u8. intros Hi Hl Hx Hy Hz H0 H1 H2 H3. unfold key_step. rewrite H0, H1, H2, H3.
  destruct (b64_table_value (x / 4)) as [E0 _]; [zlia|].
  destruct (b64_table_value (x mod 4 * 16 + y / 16)) as [E1 _]; [zlia|].
  destruct (b64_table_value (y mod 16 * 4 + z / 64)) as [E2 N2]; [zlia|].
  destruct (b64_table_value (z mod 64)) as [E3 N3]; [zlia|].
  rewrite (proj2 (Z.eqb_neq _ _) N2), (proj2 (Z.eqb_neq _ _) N3), E0, E1, E2, E3.
  rewrite andb_false_r. cbv zeta.
  rewrite !(proj2 (Z.ltb_ge _ 0)) by zlia. cbn [orb].
  destruct (sextets (x / 4) (x mod 4 * 16 + y / 16) (y mod 16 * 4 + z / 64) (z mod 64))
    as (F1 & F2 & F3); [zlia..|].
  rewrite !key_push_room by (rewrite ?length_app; cbn; lia).
  rewrite F1, F2, F3, <- !app_assoc. cbn [app]. do 2 f_equal. repeat f_equal; zlia.
Qed.

(** The last group: two characters and the padding. *)
Lemma key_step_last key dec :
  rd key 22 = 61 -> rd key 23 = 61 ->
  let a := ws_b64_value (rd key 20) in
  let b := ws_b64_value (rd key 21) in
  key_step key (Some dec) 20 =
  if (a <? 0) || (b <? 0) || (16 <=? length dec)%nat then None else Some (dec ++ [a * 4 + b / 16]).
Proof.
  intros H2 H3. cbv zeta. unfold key_step. cbn [Nat.add]. rewrite H2, H3.
  set (a := ws_b64_value (rd key 20)). set (b := ws_b64_value (rd key 21)).
  change (61 =? 61) with true. change (22 <? 22)%nat with false. change (0 <? 0) with false.
  rewrite !orb_false_r. cbn [andb].
  destruct ((a <? 0) || (b <? 0)) eqn:Hneg; [done|]. cbn [orb].
  destruct (b64_value_table (rd key 20)) as [Ha _]; [fold a; lia|].
  destruct (b64_value_table (rd key 21)) as [Hb _]; [fold b; lia|].
  fold a in Ha. fold b in Hb.
  destruct (sextets a b 0 0) as (E & _ & _); [lia..|]. cbv zeta.
  unfold key_push. rewrite E. done.
Qed.

Definition nonce_of (key : bytes) : option bytes :=
  fold_left (key_step key) [0; 4; 8; 12; 16; 20]%nat (Some []).

Lemma key_of_groups key d dec :
  length key = 24%nat -> rd key 22 = 61 -> rd key 23 = 61 ->
  fold_left (key_step key) [0; 4; 8; 12; 16]%nat (Some []) = Some dec ->
  0 <= d < 256 -> rd key 20 = b64_char (d / 4) -> rd key 21 = b64_char (d mod 4 * 16) ->
  length (dec ++ [d]) = 16%nat /\ bytes_ok dec /\ key = base64_spec (dec ++ [d]).
Proof.
  intros Hl H22 H23 Hf Hd H20 H21. cbn [fold_left] in Hf.
  destruct (key_step key (Some []) 0) as [d0|] eqn:E0; [|done].
  apply key_step_full in E0 as (x0 & y0 & z0 & ? & ? & ? & -> & K0); [|lia].
  destruct (key_step key (Some ([] ++ [x0; y0; z0])) 4) as [d1|] eqn:E1; [|done].
  apply key_step_full in E1 as (x1 & y1 & z1 & ? & ? & ? & -> & K1); [|lia].
  destruct (key_step key (Some (([] ++ [x0; y0; z0]) ++ [x1; y1; z1])) 8) as [d2|] eqn:E2; [|done].
  apply key_step_full in E2 as (x2 & y2 & z2 & ? & ? & ? & -> & K2); [|lia].
  destruct (key_step key _ 12) as [d3|] eqn:E3; [|done].
  apply key_step_full in E3 as (x3 & y3 & z3 & ? & ? & ? & -> & K3); [|lia].
  apply key_step_full in Hf as (x4 & y4 & z4 & ? & ? & ? & -> & K4); [|lia].
  split; [done|]. split; [by repeat (apply list.Forall_cons_2; [assumption|])|].
  cbn [Nat.add] in *. cbn [app base64_spec]. rewrite <- H20, <- H21.
  do 24 (destruct key as [|? key]; [done|]). destruct key; [|done].
  unfold rd in *. cbn [nth] in *. congruence.
Qed.

Lemma groups_of_key nonce d :
  length nonce = 15%nat -> bytes_ok nonce ->
  let key := base64_spec (nonce ++ [d]) in
  fold_left (key_step key) [0; 4; 8; 12; 16]%nat (Some []) = Some nonce /\
  length key = 24%nat /\ rd key 20 = b64_char (d / 4) /\ rd key 21 = b64_char (d mod 4 * 16) /\
  rd key 22 = 61 /\ rd key 23 = 61.
Proof.
  intros Hl Hok. do 15 (destruct nonce as [|? nonce]; [done|]). destruct nonce; [|done].
  unfold bytes_ok in Hok. rewrite !list.Forall_cons in Hok.
  destruct Hok as (?&?&?&?&?&?&?&?&?&?&?&?&?&?&?&_). cbv zeta. cbn [app base64_spec].
  split; [|done]. set (key := b64_char _ :: _). cbn [fold_left].
  repeat (erewrite key_step_full_ok;
    [|lia|cbn; lia| | | |reflexivity|reflexivity|reflexivity|reflexivity]; [|assumption..]).
  done.
Qed.

Lemma accepted_key_decodes key :
  ws_valid_handshake_key key = true ->
  exists nonce, length nonce = 16%nat /\ bytes_ok nonce /\ key = base64_spec nonce.
Proof.
  unfold ws_valid_handshake_key.
  destruct (_ || _) eqn:Hpre; [done|]. rewrite !orb_false_iff, !negb_false_iff in Hpre.
  destruct Hpre as [[Hl%Nat.eqb_eq H22%Z.eqb_eq] H23%Z.eqb_eq].
  change [0; 4; 8; 12; 16; 20]%nat with ([0; 4; 8; 12; 16] ++ [20])%nat. rewrite fold_left_app.
  destruct (fold_left _ [0; 4; 8; 12; 16]%nat _) as [dec|] eqn:Hf; [|done].
  cbn [fold_left]. rewrite (key_step_last key dec H22 H23).
  set (a := ws_b64_value (rd key 20)). set (b := ws_b64_value (rd key 21)).
  destruct ((a <? 0) || (b <? 0) || (16 <=? length dec)%nat) eqn:Hneg; [done|].
  rewrite andb_true_iff, Z.eqb_eq. intros [_ Hlow].
  destruct (b64_value_table (rd key 20)) as [Ha Ea]; [fold a; lia|].
  destruct (b64_value_table (rd key 21)) as [Hb Eb]; [fold b; lia|].
  fold a in Ha, Ea. fold b in Hb, Eb.
  rewrite (land_mask b 4 15) in Hlow by (first [lia|reflexivity]). change (2 ^ 4) with 16 in Hlow.
  destruct (key_of_groups key (a * 4 + b / 16) dec) as (H1 & H2 & H3); try done; [zlia| | |].
  + rewrite <- Ea. f_equal. zlia.
  + rewrite <- Eb. f_equal. zlia.
  + exists (dec ++ [a * 4 + b / 16]). split; [done|]. split; [|done].
    apply Forall_app_2; [done|]. apply list.Forall_singleton. unfold is_u8. zlia.
Qed.

Lemma nonce_key_accepted nonce :
  length nonce = 16%nat -> bytes_ok nonce -> ws_valid_handshake_key (base64_spec nonce) = true.
Proof.
  intros Hl Hok. unfold ws_valid_handshake_key.
  destruct nonce as [|d nonce _] using rev_ind; [done|].
  rewrite length_app in Hl. cbn [length] in Hl.
  apply Forall_app in Hok as [Hok [Hd _]%list.Forall_cons_1].
  destruct (groups_of_key nonce d) as (Hf & Hkl & H20 & H21 & H22 & H23); [lia|done|].
  set (key := base64_spec (nonce ++ [d])) in *. rewrite Hkl, H22, H23.
  change (negb (24 =? 24)%nat || negb (61 =? 61) || negb (61 =? 61)) with false. cbv iota.
  change [0; 4; 8; 12; 16; 20]%nat with ([0; 4; 8; 12; 16] ++ [20])%nat.
  rewrite fold_left_app, Hf. cbn [fold_left].
  rewrite (key_step_last key nonce H22 H23), H20, H21.
  unfold is_u8 in Hd.
  destruct (b64_table_value (d / 4)) as [-> _]; [zlia|].
  destruct (b64_table_value (d mod 4 * 16)) as [-> _]; [zlia|].
  rewrite (proj2 (Z.ltb_ge (d / 4) 0)), (proj2 (Z.ltb_ge (d mod 4 * 16) 0)) by zlia.
  rewrite (proj2 (Nat.leb_gt 16 (length nonce))) by lia. cbn [orb].
  rewrite length_app. cbn [length]. rewrite (proj2 (Nat.eqb_eq (length nonce + 1) 16)) by lia.
  rewrite (land_mask _ 4 15) by (first [lia|reflexivity]). change (2 ^ 4) with 16. zlia.
Qed.

(** A Sec-WebSocket-Key is accepted exactly when it is the Base64 text of
    sixteen bytes: 24 characters, padded, with the unused bits zero. *)
Theorem handshake_key_spec key :
  ws_valid_handshake_key key = true <->
  exists nonce, length nonce = 16%nat /\ bytes_ok nonce /\ key = base64_spec nonce.
Proof.
  split; [apply accepted_key_decodes|]. intros (nonce & Hl & Hok & ->). by apply nonce_key_accepted.
Qed.

Lemma handshake_key_spec_witness :
  ws_valid_handshake_key (base64_spec (bs "the sample nonce")) = true /\
  ws_valid_handshake_key (bs "dGhlIHNhbXBsZSBub25jZR==") = false.
Proof.
  split; [|vm_compute; reflexivity].
  apply (handshake_key_spec (base64_spec (bs "the sample nonce"))).
  exists (bs "the sample nonce"). split; [reflexivity|]. split; [apply bytes_okb_ok; reflexivity|reflexivity].
Defined.

(** ** The response *)

Lemma key_valid_reflect key :
  ws_valid_handshake_key key = true <->
  exists nonce, length nonce = 16%nat /\ bytes_ok nonce /\ key = base64_spec nonce.
Proof.
  split; [apply accepted_key_decodes|]. intros (nonce & Hl & Hok & ->). by apply nonce_key_accepted.
Qed.

Lemma request_acceptable_spec headers key :
  request_acceptable headers = Some key <-> request_valid headers key.
Proof.
  unfold request_acceptable, request_valid. rewrite <- key_valid_reflect.
  destruct (header_get headers (bs "Connection")) as [c|];
    [|split; [done|by intros [(? & ? & _) _]]].
  destruct (header_get headers (bs "Upgrade")) as [u|];
    [|split; [done|by intros (_ & (? & ? & _) & _)]].
  destruct (header_get headers (bs "Sec-WebSocket-Key")) as [k|];
    [|split; [done|by intros (_ & _ & _ & ? & _)]].
  destruct (ws_connection_has_upgrade c) eqn:Ec; cbn [negb];
    [|split; [done|intros [(? & [= <-] & H) _]; rewrite <- connection_has_upgrade_spec in H; congruence]].
  destruct (case_eq u (bs "websocket")) eqn:Eu; cbn [negb];
    [|split; [done|intros (_ & (? & [= <-] & H) & _); congruence]].
  destruct (ws_valid_handshake_key k) eqn:Ek; cbn [negb];
    [|split; [done|intros (_ & _ & _ & [= <-] & H); congruence]].
  destruct (header_get headers (bs "Sec-WebSocket-Version")) as [v|];
    [|split; [done|by intros (_ & _ & ? & _)]].
  destruct (bool_decide_reflect (v = bs "13")) as [->|Hv].
  - split; [|by intros (_ & _ & _ & [= <-] & _)]. intros [= <-].
    split_and!; try done; [exists c|exists u]; split; try done.
    by rewrite <- connection_has_upgrade_spec.
  - split; [done|]. intros (_ & _ & [= ->] & _). done.
Qed.

Lemma base64_spec_ok d : bytes_ok (base64_spec d).
Proof.
  assert (Hc : forall v, is_u8 (b64_char v)).
  { intros v. apply bytes_ok_rd. by apply bytes_okb_ok. }
  remember (length d) as n eqn:E. revert d E.
  induction n as [n IH] using lt_wf_ind. intros [|a [|b [|c d]]] ->; cbn [base64_spec];
    repeat (apply list.Forall_cons_2; [first [apply Hc|unfold is_u8; lia]|]);
    try by constructor.
  apply (IH (length d)); [cbn; lia|done].
Qed.

Lemma base64_safe d : header_text_is_safe (Some (base64_spec d)) = true.
Proof.
  assert (Hc : forall v, let x := b64_char v in negb ((x =? 13) || (x =? 10)) = true).
  { intros v. cbv zeta. unfold b64_char. destruct (decide (Z.to_nat v < 64)%nat) as [Hv|Hv].
    - assert (H : forallb (fun n => let x := rd encoding_table n in negb ((x =? 13) || (x =? 10)))
        (seq 0 64) = true) by reflexivity.
      apply forallb_forall with (x := Z.to_nat v) in H; [done|apply in_seq; lia].
    - by rewrite rd_overflow by (change (length encoding_table) with 64%nat; lia). }
  unfold header_text_is_safe. cbv zeta in Hc.
  remember (length d) as n eqn:E. revert d E.
  induction n as [n IH] using lt_wf_ind. intros [|a [|b [|c d]]] ->;
    cbn [base64_spec forallb app]; rewrite ?Hc; try done.
  cbn [andb]. apply (IH (length d)); [cbn; lia|done].
Qed.

Lemma nonce_key_length nonce : length nonce = 16%nat -> length (base64_spec nonce) = 24%nat.
Proof. intros Hl. do 16 (destruct nonce as [|? nonce]; [done|]). by destruct nonce. Qed.

(** The digest of an acceptable key, as the code computes it. *)
Lemma accept_digest stack headers key :
  length stack = 64%nat -> bytes_ok stack -> request_valid headers key ->
  take 511 (key ++ WS_GUID) = key ++ WS_GUID /\
  sha1 stack (key ++ WS_GUID) = sha1_spec (key ++ WS_GUID) /\ bytes_ok (sha1_spec (key ++ WS_GUID)).
Proof.
  intros Hs Hsok (_ & _ & _ & _ & nonce & Hn & _ & ->).
  pose proof (nonce_key_length nonce Hn) as Hl.
  assert (Hlen : length (base64_spec nonce ++ WS_GUID) = 60%nat) by (rewrite length_app, Hl; done).
  split; [apply take_ge; lia|]. split; [|apply sha1_spec_ok].
  apply sha1_digest; try done.
  - apply Forall_app_2; [apply base64_spec_ok|by apply bytes_okb_ok].
  - unfold blen. rewrite Hlen. lia.
Qed.

(** The opening handshake answers exactly the requests RFC 6455 allows: a
    Connection field that lists Upgrade, Upgrade: websocket, version 13 and a
    valid key.  The answer is 101 with the two fields and the Base64 of the
    SHA-1 of key and GUID; any other request leaves the response untouched. *)
Theorem upgrade_response_spec stack headers res :
  length stack = 64%nat -> bytes_ok stack ->
  (forall key, request_valid headers key ->
     cwist_websocket_upgrade_response stack headers res [] =
     (true, res <| rs_status_code := 101 |>
                <| rs_status_text := (fun _ => bs "Switching Protocols") <$> res.(rs_status_text) |>
                <| rs_headers := [(bs "Sec-WebSocket-Accept", base64_spec (sha1_spec (key ++ WS_GUID)));
                                  (bs "Connection", bs "Upgrade"); (bs "Upgrade", bs "websocket")] ++
                                 res.(rs_headers) |>, [])) /\
  ((forall key, ~ request_valid headers key) ->
     forall o, cwist_websocket_upgrade_response stack headers res o = (false, res, o)).
Proof.
  intros Hs Hsok. unfold cwist_websocket_upgrade_response. split.
  - intros key Hv. destruct (accept_digest stack headers key Hs Hsok Hv) as (E1 & E2 & Hok).
    rewrite (proj2 (request_acceptable_spec headers key) Hv), E1, E2. cbv zeta.
    change (base64_encode (sha1_spec (key ++ WS_GUID)) [])
      with (Some (base64_text (sha1_spec (key ++ WS_GUID))), @nil bool).
    rewrite base64_text_spec by done.
    set (accept := base64_spec _). assert (Hsafe : header_text_is_safe (Some accept) = true).
    { apply base64_safe. }
    clearbody accept. unfold add_ignored, header_add. rewrite Hsafe.
    destruct (rs_status_text res); reflexivity.
  - intros Hno o. destruct (request_acceptable headers) as [key|] eqn:E; [|done].
    by apply request_acceptable_spec, Hno in E.
Qed.

(** The example of RFC 6455, section 1.3. *)
Abbreviation demo_request :=
  [(bs "Sec-WebSocket-Version", bs "13"); (bs "sec-websocket-key", bs "dGhlIHNhbXBsZSBub25jZQ==");
   (bs "Connection", bs "keep-alive, Upgrade"); (bs "Upgrade", bs "WebSocket")].
Abbreviation demo_empty_response :=
  (MkResponse 200 (Some []) (Some []) [] (Some []) true false [] false 0 None false false false false
     None 0 None []).

Lemma upgrade_response_spec_witness :
  request_valid demo_request (bs "dGhlIHNhbXBsZSBub25jZQ==") /\
  (cwist_websocket_upgrade_response (replicate 64 0) demo_request demo_empty_response []).1.2.(rs_headers) =
  [(bs "Sec-WebSocket-Accept", bs "s3pPLMBiTxaQ9kYGzzhZRbK+xOo=");
   (bs "Connection", bs "Upgrade"); (bs "Upgrade", bs "websocket")] /\
  cwist_websocket_upgrade_response (replicate 64 0) [] demo_empty_response [] =
  (false, demo_empty_response, []).
Proof.
  assert (Hv : request_valid demo_request (bs "dGhlIHNhbXBsZSBub25jZQ==")).
  { split; [by eexists|]. split; [by eexists|]. split; [reflexivity|]. split; [reflexivity|].
    exists (bs "the sample nonce"). split; [reflexivity|]. split; [by apply bytes_okb_ok|reflexivity]. }
  destruct (upgrade_response_spec (replicate 64 0) demo_request demo_empty_response eq_refl
    ltac:(by apply bytes_okb_ok)) as [H _].
  destruct (upgrade_response_spec (replicate 64 0) [] demo_empty_response eq_refl
    ltac:(by apply bytes_okb_ok)) as [_ H'].
  split; [exact Hv|]. split.
  - rewrite (H _ Hv). vm_compute. reflexivity.
  - apply H'. intros key ((c & Hc & _) & _). discriminate Hc.
Defined.

(** The outcomes of adding the fields are not looked at: when memory runs out
    behind the accept key, success is reported for a 101 without its fields. *)
Example fields_lost_silently :
  let '(ok, res, _) := cwist_websocket_upgrade_response (replicate 64 0) demo_request
                         demo_empty_response [true; true; false; true; false; true; false; true] in
  ok = true /\ res.(rs_status_code) = 101 /\ res.(rs_headers) = [].
Proof. vm_compute. auto. Qed.
