(* ===== verification/WsFrame.v ===== *)
(** * WebSocket frame validation (net/websocket/ws_frame_validation.h)

    Opcodes and lengths a sender may use, close codes, and UTF-8: the decoder's
    single pass accepts exactly the encodings of sequences of Unicode scalar
    values. *)

From S2P Require Import Prelude.

Definition cwist_ws_internal_send_args_valid (opcode len : Z) : bool :=
  if negb (opcode =? 0) && negb (opcode =? 1) && negb (opcode =? 2) && negb (opcode =? 8) &&
     negb (opcode =? 9) && negb (opcode =? 10)
  then false
  else (opcode <? 8) || (len <=? 125).

Definition cwist_ws_internal_close_code_valid (code : Z) : bool :=
  if (code <? 1000) || (5000 <=? code) || (code =? 1004) || (code =? 1005) || (code =? 1006) ||
     (code =? 1015)
  then false
  else (code <=? 1014) || (3000 <=? code).

(** [(x & 0xC0) == 0x80] *)
Definition continuation (x : Z) : bool := Z.land x 192 =? 128.

(** The loop; [d] is what is left from [data + i], [fuel] the bytes left. *)
Fixpoint utf8_loop (fuel : nat) (d : bytes) : bool :=
  match fuel, d with
  | S fuel, c :: d =>
      if c <? 128 then utf8_loop fuel d
      else if (194 <=? c) && (c <=? 223) then
        if (length d <? 1)%nat || negb (continuation (rd d 0)) then false
        else utf8_loop fuel (drop 1 d)
      else if (224 <=? c) && (c <=? 239) then
        if (length d <? 2)%nat || negb (continuation (rd d 1)) then false
        else if (if c =? 224 then (rd d 0 <? 160) || (191 <? rd d 0)
                 else if c =? 237 then (rd d 0 <? 128) || (159 <? rd d 0)
                 else negb (continuation (rd d 0))) then false
        else utf8_loop fuel (drop 2 d)
      else if (240 <=? c) && (c <=? 244) then
        if (length d <? 3)%nat || negb (continuation (rd d 1)) || negb (continuation (rd d 2))
        then false
        else if (if c =? 240 then (rd d 0 <? 144) || (191 <? rd d 0)
                 else if c =? 244 then (rd d 0 <? 128) || (143 <? rd d 0)
                 else negb (continuation (rd d 0))) then false
        else utf8_loop fuel (drop 3 d)
      else false
  | _, _ => true
  end.
Definition cwist_ws_internal_utf8_valid (data : bytes) : bool := utf8_loop (length data) data.

Definition cwist_ws_internal_close_error (payload : bytes) : Z :=
  if (length payload =? 0)%nat then 0
  else if (length payload =? 1)%nat then 1002
  else
    let code := u16 (Z.lor (u16 (Z.shiftl (rd payload 0) 8)) (rd payload 1)) in
    if negb (cwist_ws_internal_close_code_valid code) then 1002
    else if cwist_ws_internal_utf8_valid (drop 2 payload) then 0 else 1007.

(** ** UTF-8 (RFC 3629) *)

Definition scalar_value (cp : Z) : Prop := 0 <= cp < 55296 \/ 57344 <= cp < 1114112.

Definition utf8_encode (cp : Z) : bytes :=
  if cp <? 128 then [cp]
  else if cp <? 2048 then [192 + cp / 64; 128 + cp mod 64]
  else if cp <? 65536 then [224 + cp / 4096; 128 + cp / 64 mod 64; 128 + cp mod 64]
  else [240 + cp / 262144; 128 + cp / 4096 mod 64; 128 + cp / 64 mod 64; 128 + cp mod 64].

Definition utf8_text (d : bytes) : Prop :=
  exists cps, Forall scalar_value cps /\ d = concat (map utf8_encode cps).

Lemma continuation_range x : is_u8 x -> continuation x = (128 <=? x) && (x <? 192).
Proof.
  intros Hx. unfold is_u8 in Hx.
  assert (H : forallb (fun n => let x := Z.of_nat n in
    Bool.eqb (continuation x) ((128 <=? x) && (x <? 192))) (seq 0 256) = true) by reflexivity.
  apply forallb_forall with (x := Z.to_nat x) in H; [|apply in_seq; lia].
  cbv zeta in H. rewrite Z2Nat.id in H by lia. by apply Bool.eqb_prop.
Qed.

Lemma utf8_text_cons cp d : scalar_value cp -> utf8_text d -> utf8_text (utf8_encode cp ++ d).
Proof. intros Hc (cps & Hs & ->). exists (cp :: cps). split; [by constructor|done]. Qed.

(** The byte sequences of one scalar value, by length. *)
Inductive utf8_seq : bytes -> Prop :=
  | Seq1 c : 0 <= c < 128 -> utf8_seq [c]
  | Seq2 c x : 194 <= c <= 223 -> 128 <= x < 192 -> utf8_seq [c; x]
  | Seq3 c x y : 224 <= c <= 239 -> 128 <= x < 192 -> 128 <= y < 192 ->
      (c = 224 -> 160 <= x) -> (c = 237 -> x < 160) -> utf8_seq [c; x; y]
  | Seq4 c x y z : 240 <= c <= 244 -> 128 <= x < 192 -> 128 <= y < 192 -> 128 <= z < 192 ->
      (c = 240 -> 144 <= x) -> (c = 244 -> x < 144) -> utf8_seq [c; x; y; z].

Lemma utf8_seq_encode s : utf8_seq s -> exists cp, scalar_value cp /\ utf8_encode cp = s.
Proof.
  unfold scalar_value, utf8_encode.
  intros [c H|c x H H1|c x y H H1 H2 H3 H4|c x y z H H1 H2 H3 H4 H5].
  - exists c. split; [lia|]. by rewrite (proj2 (Z.ltb_lt _ _)) by lia.
  - exists ((c - 192) * 64 + (x - 128)). split; [lia|]. cases_ltb; try lia.
    f_equal; [zlia|]. f_equal. zlia.
  - exists ((c - 224) * 4096 + (x - 128) * 64 + (y - 128)). split; [lia|].
    cases_ltb; try lia. f_equal; [zlia|]. f_equal; [zlia|]. f_equal. zlia.
  - exists ((c - 240) * 262144 + (x - 128) * 4096 + (y - 128) * 64 + (z - 128)). split; [lia|].
    cases_ltb; try lia. f_equal; [zlia|]. f_equal; [zlia|]. f_equal; [zlia|]. f_equal. zlia.
Qed.

Lemma utf8_encode_seq cp : scalar_value cp -> utf8_seq (utf8_encode cp).
Proof.
  unfold scalar_value, utf8_encode. intros H. cases_ltb.
  - constructor. lia.
  - constructor; zlia.
  - constructor; zlia.
  - constructor; zlia.
Qed.

Lemma utf8_text_seq s d : utf8_seq s -> utf8_text d -> utf8_text (s ++ d).
Proof. intros (cp & Hc & <-)%utf8_seq_encode. by apply utf8_text_cons. Qed.

(** Splits the boolean tests of a step into facts about the bytes. *)
Ltac utf8_tests :=
  repeat match goal with
  | H : _ || _ = false |- _ => apply orb_false_iff in H as [? ?]
  | H : _ && _ = true |- _ => apply andb_true_iff in H as [? ?]
  | H : negb (continuation _) = false |- _ =>
      apply negb_false_iff in H; rewrite continuation_range in H by assumption
  end.

(** One round of the loop reads one sequence. *)
Lemma utf8_loop_step fuel c d :
  bytes_ok (c :: d) -> utf8_loop (S fuel) (c :: d) = true ->
  exists s d', c :: d = s ++ d' /\ utf8_seq s /\ utf8_loop fuel d' = true.
Proof.
  intros [Hc Hd]%list.Forall_cons_1. cbn [utf8_loop]. unfold is_u8 in Hc.
  destruct (c <? 128) eqn:E1; [intros H; exists [c], d; split_and!; [done|constructor; lia|done]|].
  destruct ((194 <=? c) && (c <=? 223)) eqn:E2.
  { destruct d as [|x d]; [done|]. apply list.Forall_cons_1 in Hd as [Hx Hd].
    destruct (_ || _) eqn:E; [done|]. cbn [rd nth drop] in *. utf8_tests.
    intros H'. exists [c; x], d. split_and!; [done|constructor; lia|done]. }
  destruct ((224 <=? c) && (c <=? 239)) eqn:E3.
  { destruct d as [|x [|y d]]; [done..|]. rewrite !list.Forall_cons in Hd. destruct Hd as (Hx & Hy & Hd).
    destruct (_ || _) eqn:E; [done|]. destruct (if c =? 224 then _ else _) eqn:Ef; [done|].
    cbn [rd nth drop] in *. utf8_tests. intros H'. exists [c; x; y], d.
    destruct (Z.eqb_spec c 224), (Z.eqb_spec c 237); utf8_tests;
      (split_and!; [done|constructor; lia|done]). }
  destruct ((240 <=? c) && (c <=? 244)) eqn:E4; [|done].
  destruct d as [|x [|y [|z d]]]; [done..|]. rewrite !list.Forall_cons in Hd.
  destruct Hd as (Hx & Hy & Hz & Hd).
  destruct (_ || _ || _) eqn:E; [done|]. destruct (if c =? 240 then _ else _) eqn:Ef; [done|].
  cbn [rd nth drop] in *. utf8_tests. intros H'. exists [c; x; y; z], d.
  destruct (Z.eqb_spec c 240), (Z.eqb_spec c 244); utf8_tests;
    (split_and!; [done|constructor; lia|done]).
Qed.

Lemma utf8_loop_seq fuel s d :
  utf8_seq s -> utf8_loop (S fuel) (s ++ d) = utf8_loop fuel d.
Proof.
  intros [c H|c x H H1|c x y H H1 H2 H3 H4|c x y z H H1 H2 H3 H4 H5]; cbn [app utf8_loop].
  - by rewrite (proj2 (Z.ltb_lt c 128)) by lia.
  - rewrite (proj2 (Z.ltb_ge c 128)) by lia.
    rewrite (proj2 (andb_true_iff (194 <=? c) _)) by lia. cbn [length rd nth drop Nat.ltb Nat.leb orb].
    rewrite continuation_range by (unfold is_u8; lia).
    by rewrite (proj2 (andb_true_iff (128 <=? x) _)) by lia.
  - rewrite (proj2 (Z.ltb_ge c 128)) by lia.
    rewrite (proj2 (andb_false_iff (194 <=? c) _)) by lia.
    rewrite (proj2 (andb_true_iff (224 <=? c) _)) by lia. cbn [length rd nth drop Nat.ltb Nat.leb orb].
    rewrite !continuation_range by (unfold is_u8; lia).
    rewrite (proj2 (andb_true_iff (128 <=? y) _)) by lia. cbn [negb].
    destruct (if c =? 224 then _ else _) eqn:E; [exfalso|done].
    destruct (Z.eqb_spec c 224), (Z.eqb_spec c 237); lia.
  - rewrite (proj2 (Z.ltb_ge c 128)) by lia.
    rewrite (proj2 (andb_false_iff (194 <=? c) _)) by lia.
    rewrite (proj2 (andb_false_iff (224 <=? c) _)) by lia.
    rewrite (proj2 (andb_true_iff (240 <=? c) _)) by lia. cbn [length rd nth drop Nat.ltb Nat.leb orb].
    rewrite !continuation_range by (unfold is_u8; lia).
    rewrite (proj2 (andb_true_iff (128 <=? y) _)), (proj2 (andb_true_iff (128 <=? z) _)) by lia.
    cbn [negb orb]. destruct (if c =? 240 then _ else _) eqn:E; [exfalso|done].
    destruct (Z.eqb_spec c 240), (Z.eqb_spec c 244); lia.
Qed.

Lemma utf8_seq_nonempty s : utf8_seq s -> (1 <= length s)%nat.
Proof. intros []; cbn; lia. Qed.

Lemma utf8_loop_sound fuel : forall d,
  bytes_ok d -> (length d <= fuel)%nat -> utf8_loop fuel d = true -> utf8_text d.
Proof.
  induction fuel as [|fuel IH]; intros d Hd Hf H.
  { destruct d; [|cbn in Hf; lia]. by exists []. }
  destruct d as [|c d]; [by exists []|].
  destruct (utf8_loop_step fuel c d Hd H) as (s & d' & E & Hs & H').
  pose proof (utf8_seq_nonempty s Hs). rewrite E in *. apply Forall_app in Hd as [_ Hd].
  rewrite length_app in Hf. apply utf8_text_seq; [done|]. apply IH; [done|lia|done].
Qed.

Lemma utf8_loop_complete cps : forall fuel,
  Forall scalar_value cps -> (length (concat (map utf8_encode cps)) <= fuel)%nat ->
  utf8_loop fuel (concat (map utf8_encode cps)) = true.
Proof.
  induction cps as [|cp cps IH]; intros fuel Hc Hf; [by destruct fuel|].
  apply list.Forall_cons_1 in Hc as [Hcp Hc]. cbn [map concat] in *. rewrite length_app in Hf.
  pose proof (utf8_encode_seq cp Hcp) as Hs. pose proof (utf8_seq_nonempty _ Hs).
  destruct fuel as [|fuel]; [lia|]. rewrite utf8_loop_seq by done. apply IH; [done|lia].
Qed.

(** Text is accepted exactly when it is UTF-8: the concatenated encodings
    of Unicode scalar values.  Overlong forms, surrogates, values past U+10FFFF
    and sequences cut short are refused. *)
Theorem utf8_valid_spec d :
  bytes_ok d ->
  cwist_ws_internal_utf8_valid d = true <->
  exists cps, Forall scalar_value cps /\ d = concat (map utf8_encode cps).
Proof.
  intros Hd. split; [by apply utf8_loop_sound|].
  intros (cps & Hc & ->). by apply utf8_loop_complete.
Qed.

Lemma utf8_valid_spec_witness :
  cwist_ws_internal_utf8_valid (concat (map utf8_encode [65; 233; 8364; 128512])) = true /\
  cwist_ws_internal_utf8_valid [0xC0; 0xAF] = false /\
  cwist_ws_internal_utf8_valid [0xED; 0xA0; 0x80] = false.
Proof.
  split; [|vm_compute; auto].
  apply (utf8_valid_spec (concat (map utf8_encode [65; 233; 8364; 128512]))).
  - apply bytes_okb_ok. reflexivity.
  - exists [65; 233; 8364; 128512]. split; [|reflexivity].
    repeat constructor; unfold scalar_value; lia.
Defined.
