(* ===== verification/WebSocket.v ===== *)
(** * WebSocket connections (net/websocket/websocket.c)

    Frames in and out of an upgraded socket: reassembly of fragmented messages,
    control frames between fragments, the closing handshake, and messages sent
    as sequenced chunks.

    The socket is what it delivers and what it accepts: [rx] is the list of
    segments [recv] will return, [tx] the outcomes of the [send]s to come, and
    [wire] the bytes accepted so far. *)

From S2P Require Import Prelude.
From S2P Require Import Seq.
From S2P Require Import WsFrame.

(** ** Data *)

Definition CWIST_WS_FRAME_CONTINUATION : Z := 0.
Definition CWIST_WS_FRAME_TEXT : Z := 1.
Definition CWIST_WS_FRAME_BINARY : Z := 2.
Definition CWIST_WS_FRAME_CLOSE : Z := 8.
Definition CWIST_WS_FRAME_PING : Z := 9.
Definition CWIST_WS_FRAME_PONG : Z := 10.

Definition CWIST_WS_MAX_PAYLOAD_BYTES : Z := 16777216.
Definition CWIST_WS_MAX_MESSAGE_BYTES : Z := 67108864.

(** A [send] that takes some bytes, is interrupted, or fails. *)
Inductive send_outcome := SendTook (n : nat) | SendInterrupted | SendFailed.

Record cwist_websocket := MkWs {
  is_closed : bool; frag_buf : option bytes; frag_len : Z; frag_cap : Z; frag_opcode : Z;
  rx : list bytes; tx : list send_outcome; wire : bytes; mem : oracle }.
#[export] Instance websocket_fields : Fields cwist_websocket := fun w =>
  MkWs w.(is_closed) w.(frag_buf) w.(frag_len) w.(frag_cap) w.(frag_opcode)
    w.(rx) w.(tx) w.(wire) w.(mem).

(** [fr_payload] is the whole allocation, terminator included. *)
Record cwist_ws_frame := MkFrame {
  fr_fin : bool; fr_opcode : Z; fr_payload : option bytes; fr_payload_len : Z }.

(** The connection an upgrade returns, in front of what the socket will do. *)
Definition websocket_new (segs : list bytes) (outs : list send_outcome) (o : oracle) : cwist_websocket :=
  MkWs false None 0 0 CWIST_WS_FRAME_CONTINUATION segs outs [] o.

Definition ws_alloc (w : cwist_websocket) : bool * cwist_websocket :=
  let (ok, o) := alloc w.(mem) in (ok, w <| mem := o |>).

(** ** The socket *)

(** [recv] returns what has arrived, up to [want] bytes; an empty segment and
    the end of the list are the end of the stream or an error. *)
Definition sock_recv (want : nat) (segs : list bytes) : option bytes * list bytes :=
  match segs with
  | [] => (None, [])
  | [] :: segs => (None, segs)
  | seg :: segs =>
      (Some (take want seg), match drop want seg with [] => segs | rest => rest :: segs end)
  end.

(** Every [recv] returns at least one byte: [len] rounds are enough. *)
Fixpoint read_loop (fuel : nat) (got : bytes) (len : nat) (segs : list bytes)
  : option bytes * list bytes :=
  if (length got <? len)%nat then
    match fuel with
    | O => (None, segs)
    | S fuel =>
        match sock_recv (len - length got) segs with
        | (Some b, segs) => read_loop fuel (got ++ b) len segs
        | (None, segs) => (None, segs)
        end
    end
  else (Some got, segs).
Definition read_exact (len : nat) (w : cwist_websocket) : option bytes * cwist_websocket :=
  let (r, segs) := read_loop len [] len w.(rx) in (r, w <| rx := segs |>).

(** The outcomes run out: the kernel takes everything. *)
Fixpoint send_loop (buf : bytes) (outs : list send_outcome) : bool * bytes * list send_outcome :=
  match buf with
  | [] => (true, [], outs)
  | _ =>
      match outs with
      | [] => (true, buf, [])
      | SendInterrupted :: outs => send_loop buf outs
      | SendFailed :: outs => (false, [], outs)
      | SendTook O :: outs => (false, [], outs)
      | SendTook n :: outs =>
          let '(ok, sent, outs) := send_loop (drop n buf) outs in (ok, take n buf ++ sent, outs)
      end
  end.
Definition ws_send_all (buf : bytes) (w : cwist_websocket) : bool * cwist_websocket :=
  let '(ok, sent, outs) := send_loop buf w.(tx) in
  (ok, w <| wire := w.(wire) ++ sent |> <| tx := outs |>).

(** ** Sending *)

Definition frame_head (opcode len : Z) : bytes :=
  let b0 := u8 (Z.lor 128 (Z.land opcode 15)) in
  if len <? 126 then [b0; u8 len]
  else if len <? 65536 then [b0; 126; Z.land (Z.shiftr len 8) 255; Z.land len 255]
  else [b0; 127] ++ map (fun i => Z.land (Z.shiftr len ((7 - i) * 8)) 255) [0; 1; 2; 3; 4; 5; 6; 7].

(** 0 is [true]. *)
Definition cwist_websocket_send (w : cwist_websocket) (opcode : Z) (data : option bytes) (len : Z)
  : bool * cwist_websocket :=
  if w.(is_closed) || (bool_decide (data = None) && (0 <? len)) ||
     negb (cwist_ws_internal_send_args_valid opcode len)
  then (false, w)
  else
    let (ok, w) := ws_send_all (frame_head opcode len) w in
    if negb ok then (false, w)
    else if 0 <? len then ws_send_all (take (Z.to_nat len) (default [] data)) w
    else (true, w).

(** ** Reassembly *)

Definition ws_frag_append (w : cwist_websocket) (src : option bytes) (len : Z)
  : bool * cwist_websocket :=
  if len =? 0 then (true, w)
  else if CWIST_WS_MAX_MESSAGE_BYTES <? u64 (w.(frag_len) + len) then (false, w)
  else
    let need := u64 (w.(frag_len) + len + 1) in
    let '(ok, w) :=
      if w.(frag_cap) <? need then
        let new_cap := if negb (w.(frag_cap) =? 0) then u64 (w.(frag_cap) * 2) else 4096 in
        let new_cap := if new_cap <? need then need else new_cap in
        let (ok, w) := ws_alloc w in
        if ok then
          let nb := replicate (Z.to_nat new_cap) 0 in
          let nb := if negb (w.(frag_len) =? 0)
                    then blit nb 0 (take (Z.to_nat w.(frag_len)) (default [] w.(frag_buf)))
                    else nb in
          (true, w <| frag_buf := Some nb |> <| frag_cap := new_cap |>)
        else (false, w)
      else (true, w) in
    if negb ok then (false, w)
    else
      (true, w <| frag_buf := Some (blit (default [] w.(frag_buf)) (Z.to_nat w.(frag_len))
                                      (take (Z.to_nat len) (default [] src))) |>
               <| frag_len := u64 (w.(frag_len) + len) |>).

Definition frag_clear (w : cwist_websocket) : cwist_websocket :=
  w <| frag_buf := None |> <| frag_len := 0 |> <| frag_cap := 0 |>
    <| frag_opcode := CWIST_WS_FRAME_CONTINUATION |>.

(** ** Receiving *)

(** How one round of the loop ends: the caller gets a frame or NULL, or the
    loop goes on. *)
Inductive turn := Frame (f : cwist_ws_frame) | Null | Again.

(** A close frame of our own, and the connection is closed. *)
Definition close_with (code : Z) (w : cwist_websocket) : cwist_websocket :=
  (cwist_websocket_send w CWIST_WS_FRAME_CLOSE (Some [u8 (Z.shiftr code 8); u8 code]) 2).2
    <| is_closed := true |>.

(** The extended length: [None] when the socket ends or the form is too long
    for the value. *)
Definition read_length (code : Z) (w : cwist_websocket) : option Z * cwist_websocket :=
  if code =? 126 then
    match read_exact 2 w with
    | (Some b, w) =>
        let n := u16 (Z.lor (Z.shiftl (rd b 0) 8) (rd b 1)) in
        if n <? 126 then (None, close_with 1002 w) else (Some n, w)
    | (None, w) => (None, w)
    end
  else if code =? 127 then
    match read_exact 8 w with
    | (Some p, w) =>
        let n := fold_left (fun acc i => Z.lor acc (Z.shiftl (rd p i) ((7 - Z.of_nat i) * 8)))
                   (seq 0 8) 0 in
        if n <? 65536 then (None, close_with 1002 w) else (Some n, w)
    | (None, w) => (None, w)
    end
  else (Some code, w).

Definition unmask (key payload : bytes) : bytes :=
  imap (fun i b => Z.lxor b (rd key (i mod 4))) payload.

(** The payload's allocation; NULL when the frame is empty. *)
Definition read_payload (len : Z) (key : bytes) (w : cwist_websocket)
  : option (option bytes) * cwist_websocket :=
  if 0 <? len then
    let (ok, w) := ws_alloc w in
    if negb ok then (None, w)
    else
      match read_exact (Z.to_nat len) w with
      | (Some b, w) => (Some (Some (unmask key b ++ [0])), w)
      | (None, w) => (None, w)
      end
  else (Some None, w).

(** A complete frame: validation, automatic replies, the frame's own memory. *)
Definition deliver (fin : bool) (opcode : Z) (payload : option bytes) (len : Z)
  (w : cwist_websocket) : turn * cwist_websocket :=
  let data := take (Z.to_nat len) (default [] payload) in
  if (opcode =? CWIST_WS_FRAME_TEXT) && negb (cwist_ws_internal_utf8_valid data)
  then (Null, close_with 1007 w)
  else
    let close_error := cwist_ws_internal_close_error data in
    if (opcode =? CWIST_WS_FRAME_CLOSE) && negb (close_error =? 0)
    then (Null, close_with close_error w)
    else
      let w :=
        if opcode =? CWIST_WS_FRAME_CLOSE then
          (cwist_websocket_send w CWIST_WS_FRAME_CLOSE payload (if 2 <=? len then 2 else 0)).2
            <| is_closed := true |>
        else if opcode =? CWIST_WS_FRAME_PING then
          (cwist_websocket_send w CWIST_WS_FRAME_PONG payload len).2
        else w in
      let (ok, w) := ws_alloc w in
      if ok then (Frame (MkFrame fin opcode payload len), w) else (Null, w).

(** The frame against the message in progress. *)
Definition reassemble (fin : bool) (opcode : Z) (payload : option bytes) (len : Z)
  (w : cwist_websocket) : turn * cwist_websocket :=
  let is_control := 8 <=? opcode in
  let idle := w.(frag_opcode) =? CWIST_WS_FRAME_CONTINUATION in
  if is_control && negb fin then (Null, w)
  else if negb is_control && negb fin then
    if opcode =? CWIST_WS_FRAME_CONTINUATION then
      if idle then (Null, w)
      else
        let (ok, w) := ws_frag_append w payload len in (if ok then Again else Null, w)
    else
      if negb idle then (Null, w)
      else
        let (ok, w) := ws_frag_append (w <| frag_opcode := opcode |>) payload len in
        (if ok then Again else Null, w)
  else if negb is_control && (opcode =? CWIST_WS_FRAME_CONTINUATION) && idle then (Null, w)
  else if negb is_control && negb idle then
    if negb (opcode =? CWIST_WS_FRAME_CONTINUATION) then (Null, w)
    else
      let (ok, w) := ws_frag_append w payload len in
      if ok then deliver fin w.(frag_opcode) w.(frag_buf) w.(frag_len) (frag_clear w)
      else (Null, frag_clear w)
  else deliver fin opcode payload len w.

(** One round of the loop. *)
Definition receive_turn (w : cwist_websocket) : turn * cwist_websocket :=
  match read_exact 2 w with
  | (None, w) => (Null, w)
  | (Some head, w) =>
      let fin := negb (Z.land (rd head 0) 128 =? 0) in
      let opcode := Z.land (rd head 0) 15 in
      if negb (opcode =? 0) && negb (opcode =? 1) && negb (opcode =? 2) && negb (opcode =? 8) &&
         negb (opcode =? 9) && negb (opcode =? 10)
      then (Null, w)
      else if negb (Z.land (rd head 0) 112 =? 0) then (Null, w)
      else if Z.land (rd head 1) 128 =? 0 then (Null, w)
      else
        match read_length (Z.land (rd head 1) 127) w with
        | (None, w) => (Null, w)
        | (Some len, w) =>
            if CWIST_WS_MAX_PAYLOAD_BYTES <? len then (Null, w)
            else if (8 <=? opcode) && (125 <? len) then (Null, w)
            else
              match read_exact 4 w with
              | (None, w) => (Null, w)
              | (Some key, w) =>
                  match read_payload len key w with
                  | (None, w) => (Null, w)
                  | (Some payload, w) => reassemble fin opcode payload len w
                  end
              end
        end
  end.

Fixpoint receive_loop (fuel : nat) (w : cwist_websocket) : option cwist_ws_frame * cwist_websocket :=
  match fuel with
  | O => (None, w)
  | S fuel =>
      match receive_turn w with
      | (Frame f, w) => (Some f, w)
      | (Null, w) => (None, w)
      | (Again, w) => receive_loop fuel w
      end
  end.

(** Every round that goes on has read a head: the bytes to come bound the
    rounds. *)
Definition receive_fuel (w : cwist_websocket) : nat := S (length (concat w.(rx))).
Definition cwist_websocket_receive (w : cwist_websocket) : option cwist_ws_frame * cwist_websocket :=
  if w.(is_closed) then (None, w) else receive_loop (receive_fuel w) w.

(** ** Sequenced messages, closing *)

Fixpoint send_chunks (chunks : list (bytes * Z)) (w : cwist_websocket) : bool * cwist_websocket :=
  match chunks with
  | [] => (true, w)
  | (c, n) :: chunks =>
      let (ok, w) := cwist_websocket_send w CWIST_WS_FRAME_BINARY (Some c) n in
      if ok then send_chunks chunks w else (false, w)
  end.
Definition cwist_websocket_send_sequenced (w : cwist_websocket) (data : option bytes)
  (chunk_payload_size : Z) : bool * cwist_websocket :=
  match data with
  | None => (false, w)
  | Some d =>
      if w.(is_closed) || (blen d =? 0) || (chunk_payload_size =? 0) then (false, w)
      else
        match cwist_seq_split data chunk_payload_size w.(mem) with
        | (false, _, o) => (false, w <| mem := o |>)
        | (true, msg, o) =>
            send_chunks (combine msg.(msg_chunks) msg.(msg_chunk_lens)) (w <| mem := o |>)
        end
  end.

(** What a received frame does to the assembler; chunks that do not parse and
    the outcome of feeding are ignored. *)
Definition feed_frame (a : cwist_seq_assembler) (f : cwist_ws_frame) (o : oracle)
  : cwist_seq_assembler * oracle :=
  match f.(fr_payload) with
  | Some p =>
      if (f.(fr_opcode) =? CWIST_WS_FRAME_BINARY) && (0 <? f.(fr_payload_len)) then
        match cwist_seq_chunk_parse (Some (take (Z.to_nat f.(fr_payload_len)) p))
                (Some (MkChunk 0 0 0 0 None)) with
        | (true, Some c) => let '(_, a, o) := cwist_seq_assembler_feed a c o in (a, o)
        | _ => (a, o)
        end
      else (a, o)
  | None => (a, o)
  end.

Fixpoint sequenced_loop (fuel : nat) (a : cwist_seq_assembler) (w : cwist_websocket)
  : cwist_seq_assembler * cwist_websocket :=
  match fuel with
  | O => (a, w)
  | S fuel =>
      if cwist_seq_assembler_is_complete a then (a, w)
      else
        match cwist_websocket_receive w with
        | (None, w) => (a, w)
        | (Some f, w) =>
            let (a, o) := feed_frame a f w.(mem) in
            let w := w <| mem := o |> in
            if f.(fr_opcode) =? CWIST_WS_FRAME_CLOSE then (a, w) else sequenced_loop fuel a w
        end
  end.

(** The message with its terminator, and its length. *)
Definition cwist_websocket_receive_sequenced (w : cwist_websocket)
  : option (bytes * Z) * cwist_websocket :=
  if w.(is_closed) then (None, w)
  else
    match cwist_seq_assembler_create w.(mem) with
    | (None, o) => (None, w <| mem := o |>)
    | (Some a, o) =>
        let w := w <| mem := o |> in
        let (a, w) := sequenced_loop (receive_fuel w) a w in
        match cwist_seq_assembler_get_data a with
        | Some d =>
            if 0 <? blen d then
              let (ok, w) := ws_alloc w in
              (if ok then Some (d ++ [0], blen d) else None, w)
            else (None, w)
        | None => (None, w)
        end
    end.

Definition cwist_websocket_close (w : cwist_websocket) : cwist_websocket :=
  if w.(is_closed) then w
  else (cwist_websocket_send w CWIST_WS_FRAME_CLOSE None 0).2 <| is_closed := true |>.

(** ** Lemmas: the socket *)

(** The bytes that arrive before the next error or end of the stream. *)
Fixpoint avail (segs : list bytes) : bytes :=
  match segs with
  | [] | [] :: _ => []
  | seg :: segs => seg ++ avail segs
  end.

Lemma sock_recv_avail want segs :
  (0 < want)%nat ->
  match sock_recv want segs with
  | (Some b, segs') =>
      avail segs = b ++ avail segs' /\ (1 <= length b <= want)%nat /\
      (length b + length (concat segs') = length (concat segs))%nat /\
      (Forall bytes_ok segs -> Forall bytes_ok segs')
  | (None, segs') =>
      avail segs = [] /\ (length (concat segs') <= length (concat segs))%nat /\
      (Forall bytes_ok segs -> Forall bytes_ok segs')
  end.
Proof.
  intros Hw. destruct segs as [|[|x seg] segs]; cbn [sock_recv]; [done| |].
  { split_and!; [done|cbn; lia|]. intros H. by apply list.Forall_cons_1 in H as [_ H]. }
  destruct want as [|want]; [lia|]. cbn [take drop avail concat app length].
  pose proof (take_drop want seg) as E. pose proof (f_equal length E) as El.
  rewrite length_app in El. rewrite length_app. split_and!.
  - destruct (drop want seg) eqn:Ed; cbn [avail]; rewrite <- E at 1; by rewrite ?Ed, ?app_nil_r, <- ?app_assoc.
  - lia.
  - rewrite length_take. lia.
  - destruct (drop want seg) eqn:Ed; cbn [concat]; rewrite ?length_app; cbn [length] in *; lia.
  - intros H. apply list.Forall_cons_1 in H as [H1 H2]. apply list.Forall_cons_1 in H1 as [_ H1].
    destruct (drop want seg) eqn:Ed; [done|]. constructor; [|done].
    rewrite <- Ed. by apply Forall_drop.
Qed.

Lemma read_loop_avail fuel : forall got len segs,
  (length got <= len)%nat -> (len - length got <= fuel)%nat ->
  match read_loop fuel got len segs with
  | (Some b, segs') =>
      exists more, b = got ++ more /\ avail segs = more ++ avail segs' /\ length b = len /\
        (length more + length (concat segs') = length (concat segs))%nat /\
        (Forall bytes_ok segs -> Forall bytes_ok segs')
  | (None, segs') =>
      (length got + length (avail segs) < len)%nat /\
      (length (concat segs') <= length (concat segs))%nat /\
      (Forall bytes_ok segs -> Forall bytes_ok segs')
  end.
Proof.
  induction fuel as [|fuel IH]; intros got len segs Hl Hf; cbn [read_loop];
    destruct (Nat.ltb_spec (length got) len) as [Hlt|Hge]; try lia.
  1,3: exists []; rewrite app_nil_r; split_and!; [done|done|lia|cbn; lia|done].
  pose proof (sock_recv_avail (len - length got) segs ltac:(lia)) as Hs.
  destruct (sock_recv (len - length got) segs) as [[b|] segs1].
  - destruct Hs as (Ea & Hb & Hc & Hok).
    specialize (IH (got ++ b) len segs1). rewrite length_app in IH.
    specialize (IH ltac:(lia) ltac:(lia)). rewrite Ea, length_app.
    destruct (read_loop fuel (got ++ b) len segs1) as [[r|] segs2].
    + destruct IH as (more & -> & E2 & L & C2 & O2). exists (b ++ more).
      rewrite E2, <- !app_assoc. rewrite <- app_assoc in L. split_and!; [done|done|done| |auto].
      rewrite length_app. lia.
    + destruct IH as (L & C2 & O2). split_and!; [lia|lia|auto].
  - destruct Hs as (-> & C & O). cbn [length]. split_and!; [lia|done|done].
Qed.

(** A read takes exactly its bytes from the stream, or the stream ends first. *)
Lemma read_exact_spec len w :
  match read_exact len w with
  | (Some b, w') =>
      avail (rx w) = b ++ avail (rx w') /\ length b = len /\ w' = w <| rx := rx w' |> /\
      (len + length (concat (rx w')) = length (concat (rx w)))%nat /\
      (Forall bytes_ok (rx w) -> Forall bytes_ok (rx w'))
  | (None, w') =>
      (length (avail (rx w)) < len)%nat /\ w' = w <| rx := rx w' |> /\
      (length (concat (rx w')) <= length (concat (rx w)))%nat /\
      (Forall bytes_ok (rx w) -> Forall bytes_ok (rx w'))
  end.
Proof.
  unfold read_exact. pose proof (read_loop_avail len [] len (rx w)) as H.
  specialize (H ltac:(cbn; lia) ltac:(cbn; lia)).
  destruct (read_loop len [] len (rx w)) as [[b|] segs].
  - destruct H as (more & -> & E & L & C & O). cbn [app] in L.
    change (rx (w <| rx := segs |>)) with segs. cbn [app]. rewrite <- L. by split_and!.
  - destruct H as (H1 & H2 & H3). by split_and!.
Qed.

(** The stream decides what is read. *)
Lemma read_exact_app w b rest :
  avail (rx w) = b ++ rest ->
  exists w', read_exact (length b) w = (Some b, w') /\ avail (rx w') = rest /\ w' = w <| rx := rx w' |> /\
    (length b + length (concat (rx w')) = length (concat (rx w)))%nat /\
    (Forall bytes_ok (rx w) -> Forall bytes_ok (rx w')).
Proof.
  intros E. pose proof (read_exact_spec (length b) w) as H.
  destruct (read_exact (length b) w) as [[b'|] w'].
  - destruct H as (E' & L & H). exists w'. rewrite E in E'. apply app_inj_1 in E' as [<- <-]; [|done].
    destruct H as (H1 & H2 & H3). by split_and!.
  - destruct H as [L _]. rewrite E, length_app in L. lia.
Qed.

(** ** Lemmas: sending *)

(** What is written is a prefix, all of it when the loop succeeds; the
    interrupted and partial outcomes only split it. *)
Lemma send_loop_prefix outs : forall buf ok sent outs',
  send_loop buf outs = (ok, sent, outs') ->
  exists unsent, buf = sent ++ unsent /\ (ok = true -> unsent = []).
Proof.
  induction outs as [|out outs IH]; intros buf ok sent outs' H.
  { destruct buf; injection H as <- <- <-; exists []; by rewrite ?app_nil_r. }
  destruct buf as [|x buf]; [injection H as <- <- <-; by exists []|].
  destruct out as [[|n]| |].
  - injection H as <- <- <-. by exists (x :: buf).
  - cbn [send_loop] in H. destruct (send_loop (drop (S n) (x :: buf)) outs) as [[ok1 s1] o1] eqn:E.
    injection H as <- <- <-. destruct (IH _ _ _ _ E) as (u & Hu & Hok). exists u. split; [|done].
    change (x :: buf = (take (S n) (x :: buf) ++ s1) ++ u).
    by rewrite <- app_assoc, <- Hu, take_drop.
  - by apply (IH (x :: buf) ok sent outs').
  - injection H as <- <- <-. by exists (x :: buf).
Qed.

(** Replies write to the socket and nothing else. *)
Definition only_wire (w w' : cwist_websocket) : Prop :=
  exists sent outs, w' = w <| wire := w.(wire) ++ sent |> <| tx := outs |>.

#[export] Instance only_wire_preorder : PreOrder only_wire.
Proof.
  split.
  - intros w. exists [], w.(tx). destruct w; cbn. by rewrite app_nil_r.
  - intros w1 w2 w3 (s1 & o1 & ->) (s2 & o2 & ->). exists (s1 ++ s2), o2. cbn. by rewrite app_assoc.
Qed.

(** The bytes of a server frame: head and payload, unmasked. *)
Definition server_frame (opcode : Z) (payload : bytes) : bytes :=
  frame_head opcode (blen payload) ++ payload.

(** What a send is asked to send: [len] bytes from [data]. *)
Definition sent_data (data : option bytes) (len : Z) : bytes :=
  take (Z.to_nat len) (default [] data).

(** A send writes the frame, or stops in the middle of it and says so. *)
Lemma send_wire w opcode data len :
  len = blen (sent_data data len) ->
  let '(ok, w') := cwist_websocket_send w opcode data len in
  exists sent unsent outs,
    w' = w <| wire := w.(wire) ++ sent |> <| tx := outs |> /\
    (if ok then sent = server_frame opcode (sent_data data len) /\ is_closed w = false /\
                cwist_ws_internal_send_args_valid opcode len = true
     else server_frame opcode (sent_data data len) = sent ++ unsent).
Proof.
  intros Hlen. unfold cwist_websocket_send. fold (sent_data data len).
  set (d := sent_data data len) in *. clearbody d. subst len. unfold server_frame.
  pose proof (blen_nonneg d). destruct (_ || _ || _) eqn:Hbad.
  { exists [], (frame_head opcode (blen d) ++ d), w.(tx). destruct w; cbn. by rewrite app_nil_r. }
  rewrite !orb_false_iff, negb_false_iff in Hbad. destruct Hbad as [[Hc _] Ha].
  unfold ws_send_all at 1.
  destruct (send_loop (frame_head opcode (blen d)) (tx w)) as [[ok1 s1] o1] eqn:E1.
  destruct (send_loop_prefix _ _ _ _ _ E1) as (u1 & Eu1 & Hok1).
  destruct ok1; cbn [negb].
  2: { exists s1, (u1 ++ d), o1. split; [done|]. by rewrite Eu1, <- app_assoc. }
  rewrite (Hok1 eq_refl), app_nil_r in Eu1. rewrite Eu1. destruct (Z.ltb_spec 0 (blen d)) as [Hd|Hd].
  2: { exists s1, [], o1. assert (d = []) as Ed by (apply length_zero_iff_nil; unfold blen in Hd; lia).
       split; [done|]. split_and!; [|done|done]. by rewrite Ed, app_nil_r. }
  unfold ws_send_all. cbn [tx wire set_field].
  change (tx (w <| wire := wire w ++ s1 |> <| tx := o1 |>)) with o1.
  destruct (send_loop d o1) as [[ok2 s2] o2] eqn:E2.
  destruct (send_loop_prefix _ _ _ _ _ E2) as (u2 & Eu2 & Hok2).
  exists (s1 ++ s2), u2, o2. split; [cbn; by rewrite app_assoc|].
  destruct ok2; [|by rewrite <- app_assoc, <- Eu2].
  rewrite (Hok2 eq_refl), app_nil_r in Eu2. split_and!; [by rewrite Eu2|done|done].
Qed.

Lemma send_only_wire w opcode data len :
  len = blen (sent_data data len) -> only_wire w (cwist_websocket_send w opcode data len).2.
Proof.
  intros H. pose proof (send_wire w opcode data len H) as Hs.
  destruct (cwist_websocket_send w opcode data len) as [ok w'].
  destruct Hs as (sent & _ & outs & -> & _). by exists sent, outs.
Qed.

Lemma send_loop_willing buf : send_loop buf [] = (true, buf, []).
Proof. by destruct buf. Qed.

(** With a willing kernel the frame is written. *)
Lemma send_now w opcode data len :
  len = blen (sent_data data len) -> w.(tx) = [] -> w.(is_closed) = false ->
  cwist_ws_internal_send_args_valid opcode len = true ->
  cwist_websocket_send w opcode data len =
  (true, w <| wire := w.(wire) ++ server_frame opcode (sent_data data len) |>).
Proof.
  intros Hlen Ht Hc Ha. unfold cwist_websocket_send.
  assert (Hnull : bool_decide (data = None) && (0 <? len) = false).
  { destruct data; [by rewrite bool_decide_eq_false_2|]. apply andb_false_iff. right.
    unfold sent_data in Hlen. cbn [from_option] in Hlen. rewrite take_nil in Hlen. rewrite Hlen. done. }
  rewrite Hc, Ha, Hnull. cbn [orb negb]. fold (sent_data data len).
  set (d := sent_data data len) in *. clearbody d. subst len.
  unfold ws_send_all, server_frame. rewrite Ht.
  rewrite send_loop_willing. cbn [negb].
  destruct (Z.ltb_spec 0 (blen d)) as [Hd|Hd].
  - match goal with |- context [send_loop _ (tx ?w')] =>
      change (tx w') with (@nil send_outcome) end.
    rewrite send_loop_willing. destruct w; cbn in *. by rewrite Ht, app_assoc.
  - assert (d = []) as -> by (apply length_zero_iff_nil; unfold blen in Hd; lia).
    destruct w; cbn in *. by rewrite Ht, app_nil_r.
Qed.
