(* ===== verification/WsSpec.v ===== *)
(** * WebSocket receiving: the reference (RFC 6455)

    A frame is a record with an encoding for every form the wire allows, wrong
    ones included; [rfc_step] says what an endpoint does with one frame, given
    the message in progress, and [rfc_receive] with a list of them.  The limits
    are the program's: 16 MiB a frame, 64 MiB a message. *)

From S2P Require Import Prelude.
From S2P Require Import WsFrame.
From S2P Require Import WebSocket.

(** ** Frames *)

Inductive len_form := Len7 | Len16 | Len64.

(** [f_key] is the masking key, [None] for an unmasked frame; [f_payload] is
    the payload before masking. *)
Record rfc_frame := MkRfc {
  f_fin : bool; f_rsv : Z; f_op : Z; f_form : len_form; f_key : option bytes; f_payload : bytes }.

Definition form_limit (form : len_form) : Z :=
  match form with Len7 => 126 | Len16 => 65536 | Len64 => 18446744073709551616 end.
Definition frame_wf (f : rfc_frame) : Prop :=
  0 <= f_rsv f < 8 /\ 0 <= f_op f < 16 /\ blen (f_payload f) < form_limit (f_form f) /\
  bytes_ok (f_payload f) /\ match f_key f with Some k => length k = 4%nat /\ bytes_ok k | None => True end.

Fixpoint big_endian (k : nat) (n : Z) : bytes :=
  match k with O => [] | S k => n / 256 ^ Z.of_nat k mod 256 :: big_endian k n end.

Definition length_code (f : rfc_frame) : Z :=
  match f_form f with Len7 => blen (f_payload f) | Len16 => 126 | Len64 => 127 end.
Definition length_ext (f : rfc_frame) : bytes :=
  match f_form f with
  | Len7 => [] | Len16 => big_endian 2 (blen (f_payload f)) | Len64 => big_endian 8 (blen (f_payload f))
  end.
Definition masking (key payload : bytes) : bytes :=
  imap (fun i b => Z.lxor b (rd key (i mod 4))) payload.

Definition frame_head_bytes (f : rfc_frame) : bytes :=
  [(if f_fin f then 128 else 0) + 16 * f_rsv f + f_op f;
   (if f_key f is Some _ then 128 else 0) + length_code f].
Definition frame_body (f : rfc_frame) : bytes :=
  match f_key f with Some k => k ++ masking k (f_payload f) | None => f_payload f end.
Definition frame_bytes (f : rfc_frame) : bytes :=
  frame_head_bytes f ++ length_ext f ++ frame_body f.

(** ** Behaviour *)

(** The message in progress: its opcode and the payloads so far. *)
Abbreviation progress := (option (Z * bytes)).

(** What a frame leads to: nothing yet; a message for the application, with
    the bytes sent in reply and whether the connection is closed; a refusal. *)
Inductive rfc_event :=
  | More (open : progress)
  | Deliver (op : Z) (data reply : bytes) (closed : bool) (open : progress)
  | Refuse (reply : bytes) (closed : bool).

Definition close_frame (code : Z) : bytes := server_frame 8 [code / 256; code mod 256].

Definition rfc_close_code (c : Z) : bool :=
  (1000 <=? c) && (c <=? 1003) || (1007 <=? c) && (c <=? 1014) || (3000 <=? c) && (c <=? 4999).

(** The status a close frame is refused with. *)
Definition rfc_close_error (data : bytes) : option Z :=
  match data with
  | [] => None
  | [_] => Some 1002
  | a :: b :: reason =>
      if negb (rfc_close_code (256 * a + b)) then Some 1002
      else if cwist_ws_internal_utf8_valid reason then None else Some 1007
  end.

Definition rfc_finish (op : Z) (data : bytes) (open : progress) : rfc_event :=
  if (op =? 1) && negb (cwist_ws_internal_utf8_valid data) then Refuse (close_frame 1007) true
  else if op =? 8 then
    match rfc_close_error data with
    | Some code => Refuse (close_frame code) true
    | None => Deliver 8 data (server_frame 8 (take 2 data)) true open
    end
  else if op =? 9 then Deliver 9 data (server_frame 10 data) false open
  else Deliver op data [] false open.

(** A frame that is well formed and within the frame limits. *)
Definition rfc_data (open : progress) (fin : bool) (op : Z) (data : bytes) : rfc_event :=
  if 8 <=? op then (if fin then rfc_finish op data open else Refuse [] false)
  else
    match open, op =? 0 with
    | None, true | Some _, false => Refuse [] false
    | None, false => if fin then rfc_finish op data None else More (Some (op, data))
    | Some (op, acc), true =>
        if CWIST_WS_MAX_MESSAGE_BYTES <? blen (acc ++ data) then Refuse [] false
        else if fin then rfc_finish op (acc ++ data) None
        else More (Some (op, acc ++ data))
    end.

Definition rfc_opcode (op : Z) : bool := bool_decide (op ∈ [0; 1; 2; 8; 9; 10]).
Definition minimal_form (f : rfc_frame) : bool :=
  match f_form f with
  | Len7 => true | Len16 => 126 <=? blen (f_payload f) | Len64 => 65536 <=? blen (f_payload f)
  end.

Definition rfc_step (open : progress) (f : rfc_frame) : rfc_event :=
  if negb (rfc_opcode (f_op f)) || negb (f_rsv f =? 0) || bool_decide (f_key f = None)
  then Refuse [] false
  else if negb (minimal_form f) then Refuse (close_frame 1002) true
  else if (CWIST_WS_MAX_PAYLOAD_BYTES <? blen (f_payload f)) ||
          (8 <=? f_op f) && (125 <? blen (f_payload f)) then Refuse [] false
  else rfc_data open (f_fin f) (f_op f) (f_payload f).

(** Frames until one is delivered or refused, and the frames behind it; [None]
    when they run out, with the message in progress. *)
Fixpoint rfc_receive (open : progress) (fs : list rfc_frame)
  : progress * option rfc_event * list rfc_frame :=
  match fs with
  | [] => (open, None, [])
  | f :: fs =>
      match rfc_step open f with
      | More open => rfc_receive open fs
      | ev => (open, Some ev, fs)
      end
  end.

Definition ev_reply (ev : rfc_event) : bytes :=
  match ev with More _ => [] | Deliver _ _ reply _ _ => reply | Refuse reply _ => reply end.
Definition ev_closed (ev : rfc_event) : bool :=
  match ev with More _ => false | Deliver _ _ _ closed _ => closed | Refuse _ closed => closed end.

(** No frame is complete in [tail]. *)
Definition no_frame (tail : bytes) : Prop :=
  forall f rest, frame_wf f -> tail <> frame_bytes f ++ rest.

(** ** The encoding *)

Lemma length_big_endian k n : length (big_endian k n) = k.
Proof. induction k as [|k IH]; [done|]. cbn. by rewrite IH. Qed.

Lemma masking_involutive key p : masking key (masking key p) = p.
Proof.
  unfold masking. apply list_eq. intros i. rewrite !list_lookup_imap.
  destruct (p !! i) as [x|]; [|done]. cbn. f_equal.
  by rewrite Z.lxor_assoc, Z.lxor_nilpotent, Z.lxor_0_r.
Qed.
Lemma length_masking key p : length (masking key p) = length p.
Proof. apply length_imap. Qed.

Lemma masking_ok key p : bytes_ok key -> bytes_ok p -> bytes_ok (masking key p).
Proof.
  intros Hk Hp. apply Forall_lookup_2. intros i x. unfold masking.
  rewrite list_lookup_imap. destruct (p !! i) as [y|] eqn:E; [|done]. intros [= <-].
  apply lxor_u8; [by eapply Forall_lookup_1|by apply bytes_ok_rd].
Qed.

Lemma length_code_range f : frame_wf f -> 0 <= length_code f < 128.
Proof.
  intros (_ & _ & Hl & _). unfold length_code, form_limit in *. pose proof (blen_nonneg (f_payload f)).
  destruct (f_form f); lia.
Qed.

Lemma frame_bytes_long f : (2 <= length (frame_bytes f))%nat.
Proof. unfold frame_bytes. rewrite length_app. cbn. lia. Qed.

(** The bit tests of the head give its fields. *)
Lemma byte_tests b :
  is_u8 b ->
  (Z.land b 128 =? 0) = (b <? 128) /\ Z.land b 15 = b mod 16 /\ Z.land b 127 = b mod 128 /\
  Z.land b 112 = 16 * (b / 16 mod 8).
Proof.
  unfold is_u8. intros Hb.
  assert (H : forallb (fun n => let b := Z.of_nat n in
    Bool.eqb (Z.land b 128 =? 0) (b <? 128) && (Z.land b 112 =? 16 * (b / 16 mod 8))) (seq 0 256) = true)
    by reflexivity.
  apply forallb_forall with (x := Z.to_nat b) in H; [|apply in_seq; lia].
  cbv zeta in H. rewrite Z2Nat.id in H by lia. apply andb_true_iff in H as [H1 H2].
  apply Bool.eqb_prop in H1. split_and!; [done|by apply (land_mask b 4)|by apply (land_mask b 7)|lia].
Qed.

(** Big-endian numbers. *)
Definition be_value (b : bytes) : Z := fold_left (fun acc x => acc * 256 + x) b 0.

Lemma be_value_app a b : be_value (a ++ b) = fold_left (fun acc x => acc * 256 + x) b (be_value a).
Proof. unfold be_value. by rewrite fold_left_app. Qed.

Lemma big_endian_value b : bytes_ok b -> big_endian (length b) (be_value b) = b /\
  0 <= be_value b < 256 ^ Z.of_nat (length b).
Proof.
  assert (G : forall b acc, bytes_ok b ->
    exists v, fold_left (fun acc x => acc * 256 + x) b acc = acc * 256 ^ Z.of_nat (length b) + v /\
      0 <= v < 256 ^ Z.of_nat (length b) /\
      big_endian (length b) (acc * 256 ^ Z.of_nat (length b) + v) = b).
  { clear b. induction b as [|x b IH]; intros acc Hb; [exists 0; cbn; split; [lia|split; [lia|done]]|].
    apply list.Forall_cons_1 in Hb as [Hx Hb]. unfold is_u8 in Hx. cbn [fold_left length big_endian].
    destruct (IH (acc * 256 + x) Hb) as (v & -> & Hv & E).
    rewrite Nat2Z.inj_succ, Z.pow_succ_r by lia. set (P := 256 ^ Z.of_nat (length b)) in *.
    exists (x * P + v). replace (acc * (256 * P) + (x * P + v)) with ((acc * 256 + x) * P + v) by lia.
    split; [done|]. split; [nia|]. rewrite E. f_equal.
    rewrite Z.div_add_l, (Z.div_small v) by lia. zlia. }
  intros Hb. destruct (G b 0 Hb) as (v & E & Hv & Eb). unfold be_value. rewrite E in *.
  by split; [|lia].
Qed.

Lemma big_endian_ok k n : bytes_ok (big_endian k n).
Proof.
  induction k as [|k IH]; [constructor|]. constructor; [|done].
  unfold is_u8. zlia.
Qed.

Lemma be_value_big_endian k n : 0 <= n < 256 ^ Z.of_nat k -> be_value (big_endian k n) = n.
Proof.
  intros Hn. unfold be_value. assert (G : forall k n acc, 0 <= n ->
    fold_left (fun acc x => acc * 256 + x) (big_endian k n) acc =
    acc * 256 ^ Z.of_nat k + n mod 256 ^ Z.of_nat k).
  { clear. induction k as [|k IH]; intros n acc Hn; cbn [big_endian fold_left].
    - rewrite Z.mod_1_r. change (256 ^ Z.of_nat 0) with 1. lia.
    - rewrite IH by done. rewrite Nat2Z.inj_succ, Z.pow_succ_r by lia.
      assert (0 < 256 ^ Z.of_nat k) by lia. set (P := 256 ^ Z.of_nat k) in *.
      rewrite (Z.mul_comm 256 P), Z.rem_mul_r by lia. lia. }
  rewrite G by lia. rewrite Z.mod_small by lia. lia.
Qed.

Lemma no_frame_nil : no_frame [].
Proof.
  intros f rest _ E. apply (f_equal length) in E. rewrite length_app in E.
  pose proof (frame_bytes_long f). cbn in E. lia.
Qed.

(** ** Frames in a stream *)

Definition form_of_code (code : Z) : len_form :=
  if code =? 126 then Len16 else if code =? 127 then Len64 else Len7.
Lemma form_of_code_spec f : frame_wf f -> form_of_code (length_code f) = f_form f.
Proof.
  intros (_ & _ & Hl & _). unfold form_of_code, length_code, form_limit in *.
  pose proof (blen_nonneg (f_payload f)). destruct (f_form f); [|done|done].
  destruct (Z.eqb_spec (blen (f_payload f)) 126); [lia|].
  by destruct (Z.eqb_spec (blen (f_payload f)) 127); [lia|].
Qed.
Lemma length_ext_length f :
  length (length_ext f) = match f_form f with Len7 => 0%nat | Len16 => 2%nat | Len64 => 8%nat end.
Proof. unfold length_ext. destruct (f_form f); [done|apply length_big_endian..]. Qed.
Lemma frame_body_length f :
  length (frame_body f) = ((if f_key f is Some k then length k else 0) + length (f_payload f))%nat.
Proof. unfold frame_body. destruct (f_key f); [|done]. by rewrite length_app, length_masking. Qed.

(** Where a frame ends is told by its bytes. *)
Lemma frame_ends f g x y :
  frame_wf f -> frame_wf g -> frame_bytes f ++ x = frame_bytes g ++ y ->
  frame_bytes f = frame_bytes g /\ x = y.
Proof.
  intros Hf Hg E. apply app_inj_1; [|done].
  unfold frame_bytes in *. rewrite <- !app_assoc in E. cbn [app frame_head_bytes] in E.
  injection E as _ E1 E2. pose proof (length_code_range f Hf). pose proof (length_code_range g Hg).
  assert (Ec : length_code f = length_code g) by (destruct (f_key f), (f_key g); lia).
  pose proof (form_of_code_spec f Hf) as Ff. pose proof (form_of_code_spec g Hg) as Fg.
  assert (Eform : f_form f = f_form g) by congruence.
  assert (El : length (length_ext f) = length (length_ext g)) by (rewrite !length_ext_length; by rewrite Eform).
  apply app_inj_1 in E2 as [Eext _]; [|done].
  assert (Elen : length (f_payload f) = length (f_payload g)).
  { unfold length_ext, length_code in *. rewrite <- Eform in *. destruct Hf as (_ & _ & Lf & _), Hg as (_ & _ & Lg & _).
    rewrite <- Eform in Lg. pose proof (blen_nonneg (f_payload f)). pose proof (blen_nonneg (f_payload g)).
    enough (blen (f_payload f) = blen (f_payload g)) by (unfold blen in *; lia).
    unfold form_limit in *. destruct (f_form f); [done|..]; apply (f_equal be_value) in Eext;
      rewrite !be_value_big_endian in Eext by (cbn; lia); done. }
  assert (Ekey : (if f_key f is Some k then length k else 0%nat) = (if f_key g is Some k then length k else 0%nat)).
  { destruct Hf as (_ & _ & _ & _ & Kf), Hg as (_ & _ & _ & _ & Kg).
    destruct (f_key f), (f_key g); [lia|lia|lia|done]. }
  rewrite !length_app, !frame_body_length. cbn [length frame_head_bytes]. lia.
Qed.

Lemma frame_bytes_ok f : frame_wf f -> bytes_ok (frame_bytes f).
Proof.
  intros Hf. pose proof (length_code_range f Hf). destruct Hf as (Hr & Ho & _ & Hp & Hk). unfold frame_bytes.
  apply Forall_app_2; [|apply Forall_app_2].
  - unfold frame_head_bytes. apply list.Forall_cons_2; [|apply list.Forall_cons_2; [|constructor]]; unfold is_u8.
    + destruct (f_fin f); lia.
    + destruct (f_key f); lia.
  - unfold length_ext. destruct (f_form f); [constructor|apply big_endian_ok..].
  - unfold frame_body. destruct (f_key f) as [k|]; [|done]. destruct Hk as [_ Hk].
    apply Forall_app_2; [done|by apply masking_ok].
Qed.

(** Any bytes that hold no frame are the start of one. *)
Lemma frame_starts tail :
  bytes_ok tail -> no_frame tail -> exists f rest, frame_wf f /\ frame_bytes f = tail ++ rest.
Proof.
  intros Hok Hno. set (base := tail ++ replicate 14 0).
  assert (Hbase : bytes_ok base) by (apply Forall_app_2; [done|]; apply Forall_replicate; unfold is_u8; lia).
  assert (Hlen : (14 <= length base)%nat) by (unfold base; rewrite length_app, length_replicate; lia).
  destruct base as [|b0 [|b1 more]] eqn:Eb; cbn [length] in Hlen; [lia|lia|].
  pose proof (list.Forall_cons_1 _ _ _ Hbase) as [U0 Hbase1].
  pose proof (list.Forall_cons_1 _ _ _ Hbase1) as [U1 Hmore]. unfold is_u8 in U0, U1.
  set (code := b1 mod 128). set (form := form_of_code code).
  set (k := match form with Len7 => 0%nat | Len16 => 2%nat | Len64 => 8%nat end).
  set (ext := take k more). set (n := if code <? 126 then code else be_value ext).
  set (key := if b1 <? 128 then None else Some (take 4 (drop k more))).
  set (after := drop (k + (if key is Some _ then 4 else 0)) more).
  set (body := take (Z.to_nat n) (after ++ replicate (Z.to_nat n) 0)).
  assert (Hext : bytes_ok ext) by by apply Forall_take.
  assert (Hk : (k <= 8)%nat) by (unfold k; destruct form; lia).
  assert (Lext : length ext = k) by (unfold ext; rewrite length_take; lia).
  assert (Hcode : 0 <= code < 128) by (unfold code; apply Z.mod_pos_bound; lia).
  destruct (big_endian_value ext Hext) as [Eext Rext]. rewrite Lext in Eext, Rext.
  assert (Hn : 0 <= n < form_limit form /\ big_endian k n = ext /\ match form with Len7 => n = code | Len16 => code = 126 | Len64 => code = 127 end).
  { unfold n, form, k, form_of_code in *.
    destruct (Z.eqb_spec code 126) as [E|]; [rewrite E in *; cbn in *; split_and!; [lia|lia|done|done]|].
    destruct (Z.eqb_spec code 127) as [E|]; [rewrite E in *; cbn in *; split_and!; [lia|lia|done|done]|].
    rewrite (proj2 (Z.ltb_lt _ _)) by lia. cbn. split_and!; [lia|lia|done|done]. }
  destruct Hn as (Hn & Ebig & Hcode2).
  assert (Hbody : bytes_ok body).
  { apply Forall_take, Forall_app_2; [by apply Forall_drop|]. apply Forall_replicate. unfold is_u8. lia. }
  assert (Lbody : length body = Z.to_nat n).
  { unfold body. rewrite length_take, length_app, length_replicate. lia. }
  set (payload := if key is Some key then masking key body else body).
  assert (Lpay : blen payload = n).
  { unfold payload, blen. destruct key; rewrite ?length_masking, Lbody; lia. }
  assert (Hkey : match key with Some k => length k = 4%nat /\ bytes_ok k | None => True end).
  { unfold key. destruct (b1 <? 128); [done|]. split; [rewrite length_take, length_drop; lia|].
    by apply Forall_take, Forall_drop. }
  set (f := MkRfc (128 <=? b0) (b0 / 16 mod 8) (b0 mod 16) form key payload).
  assert (Hwf : frame_wf f).
  { split_and!; cbn [f_rsv f_op f_payload f_form f_key f]; [zlia..|rewrite Lpay; lia| |done].
    unfold payload. destruct key as [kb|]; [|done]. apply masking_ok; [apply Hkey|done]. }
  assert (Ecode : length_code f = code).
  { unfold length_code. cbn [f_form f_payload f]. rewrite Lpay. by destruct form. }
  assert (Ebytes : frame_bytes f = take (2 + k + (if key is Some _ then 4 else 0) + Z.to_nat n)
                     (b0 :: b1 :: more ++ replicate (Z.to_nat n) 0)).
  { unfold frame_bytes, frame_head_bytes. rewrite Ecode. cbn [f_fin f_rsv f_op f_key f app plus take].
    f_equal; [destruct (Z.leb_spec 128 b0); zlia|]. f_equal.
    { unfold key, code. destruct (Z.ltb_spec b1 128); zlia. }
    assert (Eext2 : length_ext f = ext).
    { unfold length_ext. cbn [f_form f_payload f]. rewrite Lpay. unfold k in Ebig. by destruct form. }
    assert (Ebody : frame_body f = (if key is Some kb then kb else []) ++ body).
    { unfold frame_body. cbn [f_key f_payload f]. unfold payload. destruct key; [by rewrite masking_involutive|done]. }
    rewrite Eext2, Ebody. unfold body, after, ext. set (z := replicate (Z.to_nat n) 0).
    rewrite <- (take_app_le more z k) by lia. rewrite <- (drop_app_le more z) by (destruct key; lia).
    unfold key. destruct (b1 <? 128); cbn [app].
    - rewrite !Nat.add_0_r. apply take_take_drop.
    - assert (E4 : take 4 (drop k more) = take 4 (drop k (more ++ z)))
        by (rewrite drop_app_le, take_app_le by (rewrite ?length_drop; lia); done).
      rewrite E4, <- (drop_drop (more ++ z)), take_take_drop, take_take_drop. f_equal. lia. }
  exists f, (drop (length tail) (frame_bytes f)). split; [done|].
  set (m := (2 + k + (if key is Some _ then 4 else 0) + Z.to_nat n)%nat) in *.
  change (b0 :: b1 :: more ++ replicate (Z.to_nat n) 0) with ((b0 :: b1 :: more) ++ replicate (Z.to_nat n) 0) in Ebytes.
  rewrite <- Eb in Ebytes. unfold base in Ebytes. rewrite <- app_assoc in Ebytes.
  destruct (Nat.le_gt_cases m (length tail)) as [Hm|Hm].
  - destruct (Hno f (drop m tail) Hwf). rewrite Ebytes, take_app_le by done. by rewrite take_drop.
  - rewrite Ebytes at 2. rewrite take_app_ge, drop_app_length by lia. rewrite Ebytes, take_app_ge by lia. done.
Qed.

(** ** Examples *)

Definition frame_okb (f : rfc_frame) : bool :=
  (0 <=? f_rsv f) && (f_rsv f <? 8) && (0 <=? f_op f) && (f_op f <? 16) &&
  (blen (f_payload f) <? form_limit (f_form f)) && bytes_okb (f_payload f) &&
  match f_key f with Some k => (length k =? 4)%nat && bytes_okb k | None => true end.

Lemma frame_okb_wf f : frame_okb f = true -> frame_wf f.
Proof.
  unfold frame_okb, frame_wf. rewrite !andb_true_iff. intros [[[[[[? ?] ?] ?] ?] ?] Hk].
  split_and!; try lia; [by apply bytes_okb_ok|]. destruct (f_key f); [|done].
  apply andb_true_iff in Hk as [? ?]. split; [by apply Nat.eqb_eq|by apply bytes_okb_ok].
Qed.
Lemma frames_okb_wf fs : forallb frame_okb fs = true -> Forall frame_wf fs.
Proof.
  rewrite forallb_forall, list.Forall_forall. intros H f Hf.
  by apply frame_okb_wf, H, list_elem_of_In.
Qed.
Lemma segs_okb_ok segs : forallb bytes_okb segs = true -> Forall bytes_ok segs.
Proof.
  rewrite forallb_forall, list.Forall_forall. intros H s Hs.
  by apply bytes_okb_ok, H, list_elem_of_In.
Qed.

(** Client frames for the examples. *)
Definition demo_frame (fin : bool) (op : Z) (payload : bytes) : rfc_frame :=
  MkRfc fin 0 op (if blen payload <? 126 then Len7 else Len16) (Some [18; 52; 86; 120]) payload.
