(* ===== verification/WsReceive.v ===== *)
(** * Receiving on a WebSocket

    [cwist_websocket_receive] implements [rfc_receive]: whatever arrives, in
    whatever segments, and whichever allocations and sends fail. *)

From S2P Require Import Prelude.
From S2P Require Import WsFrame.
From S2P Require Import WebSocket.
From S2P Require Import WsSpec.

(** ** Reassembly *)

(** The part of a connection that reassembly leaves alone. *)
Definition same_conn (w w' : cwist_websocket) : Prop :=
  is_closed w' = is_closed w /\ rx w' = rx w /\ tx w' = tx w /\ wire w' = wire w /\
  (mem w = [] -> mem w' = []).

(** The buffer holds the message so far, and zeros behind it. *)
Definition frag_at (w : cwist_websocket) (acc : bytes) : Prop :=
  frag_len w = blen acc /\ blen acc <= CWIST_WS_MAX_MESSAGE_BYTES /\
  match frag_buf w with
  | None => acc = [] /\ frag_cap w = 0
  | Some buf =>
      exists pad, buf = acc ++ replicate (S pad) 0 /\ frag_cap w = blen buf /\
        frag_cap w <= 2 * CWIST_WS_MAX_MESSAGE_BYTES + 4096
  end.

Lemma blit_zeros acc k data :
  (length data <= k)%nat ->
  blit (acc ++ replicate k 0) (length acc) data = acc ++ data ++ replicate (k - length data) 0.
Proof.
  intros Hk. rewrite blit_in_range by (rewrite length_app, length_replicate; lia).
  rewrite take_app_length. do 2 f_equal.
  rewrite drop_app_ge, drop_replicate by lia. f_equal. lia.
Qed.

Lemma blen_replicate k x : blen (replicate k x) = Z.of_nat k.
Proof. unfold blen. by rewrite length_replicate. Qed.

(** Room for the new bytes and a terminator, the old bytes in place. *)
Definition frag_room (w : cwist_websocket) (acc : bytes) (need : Z) : Prop :=
  frag_len w = blen acc /\ need <= frag_cap w <= 2 * CWIST_WS_MAX_MESSAGE_BYTES + 4096 /\
  exists k, frag_buf w = Some (acc ++ replicate k 0) /\ frag_cap w = blen acc + Z.of_nat k.

Lemma frag_at_room w acc need :
  frag_at w acc -> 0 < need <= frag_cap w -> frag_room w acc need.
Proof.
  intros (Hl & _ & Hb) Hn. destruct (frag_buf w) as [buf|] eqn:Eb; [|destruct Hb as [_ Hb]; lia].
  destruct Hb as (pad & -> & Ec & Hc). split; [done|]. split; [lia|]. exists (S pad). split; [done|].
  by rewrite Ec, blen_app, blen_replicate.
Qed.

Lemma frag_grow w acc need :
  frag_at w acc -> blen acc < need <= CWIST_WS_MAX_MESSAGE_BYTES + 1 -> frag_cap w < need ->
  let new_cap := if negb (frag_cap w =? 0) then u64 (frag_cap w * 2) else 4096 in
  let new_cap := if new_cap <? need then need else new_cap in
  let nb := replicate (Z.to_nat new_cap) 0 in
  let nb := if negb (frag_len w =? 0)
            then blit nb 0 (take (Z.to_nat (frag_len w)) (default [] (frag_buf w))) else nb in
  need <= new_cap <= 2 * CWIST_WS_MAX_MESSAGE_BYTES + 4096 /\
  nb = acc ++ replicate (Z.to_nat (new_cap - blen acc)) 0.
Proof.
  unfold CWIST_WS_MAX_MESSAGE_BYTES. intros (Hl & _ & Hb) Hn Hc. cbv zeta.
  pose proof (blen_nonneg acc).
  assert (Hcap : 0 <= frag_cap w).
  { destruct (frag_buf w); [destruct Hb as (? & -> & -> & _); apply blen_nonneg|].
    destruct Hb as [_ ->]. lia. }
  set (cap0 := if negb (frag_cap w =? 0) then _ else _).
  assert (Hcap0 : 0 <= cap0 <= 2 * 67108864 + 4096).
  { unfold cap0. destruct (Z.eqb_spec (frag_cap w) 0); cbn [negb]; [lia|].
    rewrite u64_id by (unfold is_u64; lia). lia. }
  set (cap1 := if cap0 <? need then need else cap0).
  assert (Hcap1 : need <= cap1 <= 2 * 67108864 + 4096).
  { unfold cap1. destruct (Z.ltb_spec cap0 need); lia. }
  clearbody cap1. split; [done|]. rewrite Hl.
  destruct (Z.eqb_spec (blen acc) 0) as [E0|E0]; cbn [negb].
  { assert (acc = []) as -> by (apply length_zero_iff_nil; unfold blen in E0; lia).
    rewrite Z.sub_0_r. done. }
  assert (Eacc : take (Z.to_nat (blen acc)) (default [] (frag_buf w)) = acc).
  { destruct (frag_buf w); cbn [from_option id].
    - destruct Hb as (? & -> & _). apply take_app_length'. unfold blen. lia.
    - destruct Hb as [-> _]. by destruct (Z.to_nat _). }
  rewrite Eacc. pose proof (blit_zeros [] (Z.to_nat cap1) acc) as Hz. cbn [app length] in Hz.
  rewrite Hz by (unfold blen in *; lia). do 2 f_equal. unfold blen. lia.
Qed.

Lemma frag_store w w1 acc src data :
  frag_room w1 acc (blen acc + blen data + 1) -> blen (acc ++ data) <= CWIST_WS_MAX_MESSAGE_BYTES ->
  take (length data) (default [] src) = data ->
  same_conn w w1 -> frag_opcode w1 = frag_opcode w ->
  let w2 := w1 <| frag_buf := Some (blit (default [] (frag_buf w1)) (Z.to_nat (frag_len w1))
                                      (take (Z.to_nat (blen data)) (default [] src))) |>
               <| frag_len := u64 (frag_len w1 + blen data) |> in
  same_conn w w2 /\ frag_opcode w2 = frag_opcode w /\ frag_at w2 (acc ++ data).
Proof.
  unfold CWIST_WS_MAX_MESSAGE_BYTES. rewrite blen_app.
  intros (Hl1 & Hc1 & k & Hb1 & Ek) Hfit Hsrc Hsame Hop.
  pose proof (blen_nonneg acc). pose proof (blen_nonneg data).
  cbv zeta. split; [done|]. split; [done|].
  unfold frag_at. cbn [frag_len frag_buf frag_cap set_field]. rewrite Hl1, Hb1, blen_app.
  rewrite u64_id by (unfold is_u64; lia). split; [done|].
  split; [unfold CWIST_WS_MAX_MESSAGE_BYTES; lia|]. cbn [from_option id].
  replace (Z.to_nat (blen data)) with (length data) by (unfold blen; lia).
  replace (Z.to_nat (blen acc)) with (length acc) by (unfold blen; lia).
  rewrite Hsrc, blit_zeros by (unfold blen in *; lia).
  exists (k - length data - 1)%nat. split; [|split].
  - rewrite <- app_assoc. do 3 f_equal. unfold blen in *. lia.
  - change (frag_cap w1 = blen (acc ++ data ++ replicate (k - length data) 0)).
    rewrite !blen_app, blen_replicate. unfold blen in *. lia.
  - unfold CWIST_WS_MAX_MESSAGE_BYTES in Hc1. change (frag_cap w1 <= 2 * 67108864 + 4096). lia.
Qed.

Lemma frag_append_spec w acc src data :
  frag_at w acc -> blen data <= CWIST_WS_MAX_PAYLOAD_BYTES ->
  take (length data) (default [] src) = data ->
  let (ok, w') := ws_frag_append w src (blen data) in
  same_conn w w' /\ frag_opcode w' = frag_opcode w /\
  if ok then frag_at w' (acc ++ data)
  else frag_at w' acc /\ (mem w = [] -> CWIST_WS_MAX_MESSAGE_BYTES < blen (acc ++ data)).
Proof.
  unfold CWIST_WS_MAX_PAYLOAD_BYTES. intros Hat Hd Hsrc. pose proof Hat as (Hlen & Hmax & _).
  unfold ws_frag_append. pose proof (blen_nonneg acc). pose proof (blen_nonneg data).
  rewrite Hlen. assert (HM : CWIST_WS_MAX_MESSAGE_BYTES = 67108864) by done.
  destruct (Z.eqb_spec (blen data) 0) as [E0|E0].
  { assert (data = []) as -> by (apply length_zero_iff_nil; unfold blen in E0; lia).
    rewrite app_nil_r. split; [by unfold same_conn; split_and!|]. by split. }
  rewrite (u64_id (blen acc + blen data)) by (unfold is_u64; lia).
  destruct (Z.ltb_spec CWIST_WS_MAX_MESSAGE_BYTES (blen acc + blen data)) as [Hbig|Hfit].
  { rewrite blen_app. split; [by unfold same_conn; split_and!|]. split; [done|]. by split. }
  rewrite (u64_id (blen acc + blen data + 1)) by (unfold is_u64; lia). cbv zeta.
  pose proof (frag_store w) as Hstore. rewrite <- blen_app in Hfit.
  destruct (Z.ltb_spec (frag_cap w) (blen acc + blen data + 1)) as [Hgrow|Hroom].
  - rewrite blen_app in Hfit.
    pose proof (frag_grow w acc (blen acc + blen data + 1) Hat ltac:(lia) Hgrow) as [Hcap Hnb].
    cbv zeta in Hcap, Hnb. unfold ws_alloc.
    destruct (alloc (mem w)) as [ok o] eqn:Ea.
    assert (Hmem : mem w = [] -> ok = true /\ o = []).
    { intros Hm. rewrite Hm in Ea. injection Ea as <- <-. done. }
    destruct ok; cbn [negb].
    2: { assert (Hno : mem w <> []) by (intros Hm; by destruct (Hmem Hm)).
         split; [by unfold same_conn; split_and!|]. split; [done|]. by split. }
    apply Hstore; [|by rewrite blen_app|done| |done].
    + split; [exact Hlen|]. split; [exact Hcap|]. eexists. split; [exact (f_equal Some Hnb)|].
      change (frag_cap (w <| mem := o |>)) with (frag_cap w) in *.
      unfold blen in *. cbn [frag_cap set_field]. lia.
    + split_and!; try done. intros Hm. by destruct (Hmem Hm).
  - cbn [negb]. apply Hstore; [|done|done|by unfold same_conn; split_and!|done].
    apply frag_at_room; [done|lia].
Qed.

(** ** Replies *)

(** [w'] has said [reply], or as much of it as the socket took. *)
Definition said (w w' : cwist_websocket) (reply : bytes) (closed : bool) : Prop :=
  is_closed w' = closed /\
  exists sent unsent, reply = sent ++ unsent /\ wire w' = wire w ++ sent /\
    (tx w = [] -> unsent = [] /\ tx w' = []).

(** Everything but the socket's outgoing side and the closed flag. *)
Definition same_state (w w' : cwist_websocket) : Prop :=
  rx w' = rx w /\ mem w' = mem w /\ frag_buf w' = frag_buf w /\ frag_len w' = frag_len w /\
  frag_cap w' = frag_cap w /\ frag_opcode w' = frag_opcode w.

Lemma said_nothing w : is_closed w = false -> said w w [] false.
Proof. intros H. split; [done|]. exists [], []. split_and!; [done|by rewrite app_nil_r|done]. Qed.

Lemma send_said w op data len :
  is_closed w = false -> len = blen (sent_data data len) ->
  cwist_ws_internal_send_args_valid op len = true ->
  let w' := (cwist_websocket_send w op data len).2 in
  said w w' (server_frame op (sent_data data len)) false /\ same_state w w'.
Proof.
  intros Hc Hl Ha. pose proof (send_wire w op data len Hl) as H.
  pose proof (fun Ht => send_now w op data len Hl Ht Hc Ha) as Hnow.
  destruct (cwist_websocket_send w op data len) as [ok w']. cbn [snd].
  destruct H as (sent & unsent & outs & -> & H). split; [|by unfold same_state].
  split; [done|]. cbn [wire tx set_field].
  destruct (tx w) eqn:Et.
  - specialize (Hnow eq_refl). apply (f_equal snd) in Hnow as Hw. cbn [snd] in Hw. exists sent, []. rewrite app_nil_r.
    apply (f_equal wire) in Hw as Hww. apply (f_equal tx) in Hw as Hwt. cbn in Hww, Hwt.
    apply app_inv_head in Hww. split; [done|]. split; [done|]. split; [done|]. by rewrite Hwt.
  - destruct ok.
    + exists sent, []. rewrite app_nil_r. destruct H as [-> _]. by split_and!.
    + exists sent, unsent. by split_and!.
Qed.

Lemma close_with_said w code :
  is_closed w = false -> 0 <= code < 65536 ->
  said w (close_with code w) (close_frame code) true /\ same_state w (close_with code w).
Proof.
  intros Hc Hr. unfold close_with.
  destruct (send_said w 8 (Some [u8 (Z.shiftr code 8); u8 code]) 2) as [[_ Hs] Hsame]; [done..|].
  assert (E : sent_data (Some [u8 (Z.shiftr code 8); u8 code]) 2 = [code / 256; code mod 256]).
  { unfold sent_data. cbn [from_option id]. change (Z.to_nat 2) with 2%nat. cbn [take].
    rewrite (shiftr_div code 8 256) by (first [lia|reflexivity]).
    rewrite (u8_id (code / 256)) by (unfold is_u8; zlia). done. }
  rewrite E in Hs. split; [split; [done|exact Hs]|exact Hsame].
Qed.

(** ** Complete frames *)

(** The reassembly state stands for the message in progress. *)
Definition ws_open (w : cwist_websocket) (open : progress) : Prop :=
  match open with
  | None => frag_opcode w = 0 /\ frag_buf w = None /\ frag_len w = 0 /\ frag_cap w = 0
  | Some (op, acc) => (op = 1 \/ op = 2) /\ frag_opcode w = op /\ frag_at w acc /\ bytes_ok acc
  end.

Lemma ws_open_frag w w' open :
  frag_buf w' = frag_buf w /\ frag_len w' = frag_len w /\ frag_cap w' = frag_cap w /\
  frag_opcode w' = frag_opcode w -> ws_open w open -> ws_open w' open.
Proof. intros (Hb & Hl & Hc & Ho). unfold ws_open, frag_at. by rewrite Hb, Hl, Hc, Ho. Qed.
Lemma ws_open_same w w' open : same_state w w' -> ws_open w open -> ws_open w' open.
Proof. intros (_ & _ & Hf). by apply ws_open_frag. Qed.

(** The buffer of a payload: the bytes and a terminator; none for no bytes. *)
Definition holds (p : option bytes) (data : bytes) : Prop :=
  match p with None => data = [] | Some b => exists k, b = data ++ replicate (S k) 0 end.

Lemma holds_take p data : holds p data -> take (length data) (default [] p) = data.
Proof.
  destruct p as [b|]; cbn; [intros [k ->]; apply take_app_length|by intros ->].
Qed.
Lemma holds_take_blen p data : holds p data -> take (Z.to_nat (blen data)) (default [] p) = data.
Proof. intros H. unfold blen. rewrite Nat2Z.id. by apply holds_take. Qed.

(** One round of the loop against the event of its frame: as specified, or cut
    short by a failed allocation. *)
Definition outcome (w : cwist_websocket) (t : turn) (w' : cwist_websocket) (ev : rfc_event) : Prop :=
  (mem w = [] -> mem w' = []) /\ (exists open, ws_open w' open) /\
  ((said w w' (ev_reply ev) (ev_closed ev) /\
    match ev with
    | More open => t = Again /\ ws_open w' open
    | Deliver op data _ _ open =>
        (exists p, t = Frame (MkFrame true op p (blen data)) /\ holds p data) /\ ws_open w' open
    | Refuse _ _ => t = Null
    end) \/
   (mem w <> [] /\ t = Null /\ (said w w' [] false \/ said w w' (ev_reply ev) (ev_closed ev)))).

Lemma outcome_refuse w w' reply closed open :
  same_state w w' -> ws_open w open -> said w w' reply closed -> outcome w Null w' (Refuse reply closed).
Proof.
  intros Hs Ho Hr. pose proof Hs as (_ & Hm & _).
  split; [by rewrite Hm|]. split; [exists open; by eapply ws_open_same|]. left. by split.
Qed.

Lemma outcome_refused w open :
  is_closed w = false -> ws_open w open -> outcome w Null w (Refuse [] false).
Proof.
  intros Hc Ho. eapply outcome_refuse; [|done|by apply said_nothing]. by unfold same_state.
Qed.

Lemma close_code_rfc c : cwist_ws_internal_close_code_valid c = rfc_close_code c.
Proof.
  unfold cwist_ws_internal_close_code_valid, rfc_close_code.
  destruct (_ || _ || _ || _ || _ || _) eqn:E; lia.
Qed.

Lemma close_error_rfc data :
  bytes_ok data -> cwist_ws_internal_close_error data = default 0 (rfc_close_error data).
Proof.
  intros Hd. unfold cwist_ws_internal_close_error, rfc_close_error.
  destruct data as [|a [|b reason]]; [done..|]. cbn [length Nat.eqb drop].
  unfold bytes_ok in Hd. rewrite !list.Forall_cons in Hd. destruct Hd as (Ha & Hb & _). unfold is_u8 in *.
  cbn [rd nth].
  assert (E : u16 (Z.lor (u16 (Z.shiftl a 8)) b) = 256 * a + b).
  { rewrite Z.shiftl_mul_pow2 by lia. change (2 ^ 8) with 256.
    rewrite (u16_id (a * 256)) by (unfold is_u16; lia).
    rewrite (lor_add_above _ _ 8) by (first [lia|change (2 ^ 8) with 256; zlia]).
    rewrite u16_id by (unfold is_u16; lia). lia. }
  change (rd (a :: b :: reason) 0) with a. change (rd (a :: b :: reason) 1) with b.
  rewrite E, close_code_rfc.
  destruct (rfc_close_code (256 * a + b)); [|done]. cbn [negb].
  change (drop 0 reason) with reason. by destruct (cwist_ws_internal_utf8_valid reason).
Qed.

Lemma rfc_close_error_code data code :
  rfc_close_error data = Some code -> code = 1002 \/ code = 1007.
Proof.
  unfold rfc_close_error. destruct data as [|a [|b reason]]; [done|intros [= <-]; auto|].
  destruct (negb _); [intros [= <-]; auto|]. destruct (cwist_ws_internal_utf8_valid reason); [done|].
  intros [= <-]; auto.
Qed.

(** The last step: the frame's own memory. *)
Lemma hand_over w w1 op p data reply closed open :
  same_state w w1 -> said w w1 reply closed -> ws_open w open -> holds p data ->
  let '(t, w') := let (ok, w2) := ws_alloc w1 in
    if ok then (Frame (MkFrame true op p (blen data)), w2) else (Null, w2) in
  rx w' = rx w /\ outcome w t w' (Deliver op data reply closed open).
Proof.
  intros Hs Hr Ho Hp. pose proof Hs as (Hrx & Hm & _). unfold ws_alloc.
  destruct (alloc (mem w1)) as [ok o] eqn:Ea.
  assert (Ho2 : forall o, ws_open (w1 <| mem := o |>) open).
  { intros o'. destruct Hs as (_ & _ & Hf). by apply (ws_open_frag w). }
  assert (Hmem : mem w = [] -> ok = true /\ o = []).
  { intros E. rewrite Hm, E in Ea. by injection Ea as <- <-. }
  destruct ok; (split; [done|]); (split; [intros E; by destruct (Hmem E)|]); (split; [by exists open|]).
  - left. split; [done|]. split; [|done]. by exists p.
  - right. split; [intros E; by destruct (Hmem E)|]. split; [done|]. by right.
Qed.

Lemma deliver_spec w op p data open :
  holds p data -> bytes_ok data -> is_closed w = false -> ws_open w open ->
  (8 <= op -> blen data <= 125) ->
  let (t, w') := deliver true op p (blen data) w in
  rx w' = rx w /\ outcome w t w' (rfc_finish op data open).
Proof.
  intros Hp Hd Hc Ho Hlen. unfold deliver, rfc_finish.
  unfold CWIST_WS_FRAME_TEXT, CWIST_WS_FRAME_CLOSE, CWIST_WS_FRAME_PING, CWIST_WS_FRAME_PONG.
  rewrite (holds_take_blen p data Hp). pose proof (blen_nonneg data).
  destruct ((op =? 1) && negb _).
  { destruct (close_with_said w 1007) as [Hs Hsame]; [done|lia|].
    split; [by destruct Hsame|]. by eapply outcome_refuse. }
  cbv zeta. rewrite (close_error_rfc data Hd). destruct (Z.eqb_spec op 8) as [->|H8]; cbn [andb].
  { specialize (Hlen ltac:(lia)).
    destruct (rfc_close_error data) as [code|] eqn:Ee; cbn [from_option id].
    { assert (1002 <= code <= 1007) by (apply rfc_close_error_code in Ee; lia).
      destruct (Z.eqb_spec code 0); [lia|]. cbn [negb].
      destruct (close_with_said w code) as [Hs Hsame]; [done|lia|].
      split; [by destruct Hsame|]. by eapply outcome_refuse. }
    cbn [Z.eqb negb andb].
    assert (E : sent_data p (if 2 <=? blen data then 2 else 0) = take 2 data /\
                (if 2 <=? blen data then 2 else 0) = blen (take 2 data)).
    { unfold rfc_close_error in Ee. destruct data as [|a [|b r]]; [|done|].
      - unfold sent_data. cbn. by destruct p.
      - destruct (Z.leb_spec 2 (blen (a :: b :: r))) as [_|Hb]; [|unfold blen in Hb; cbn in Hb; lia].
        split; [|done]. unfold sent_data. destruct p as [pb|]; [|done].
        destruct Hp as [k ->]. done. }
    destruct E as [Ed El].
    destruct (send_said w 8 p (if 2 <=? blen data then 2 else 0)) as [[_ Hr] Hs];
      [done|by rewrite Ed, <- El|by destruct (2 <=? blen data)|].
    rewrite Ed in Hr.
    eapply hand_over; [|split; [done|exact Hr]|done|done]. exact Hs. }
  destruct (Z.eqb_spec op 9) as [->|H9].
  { specialize (Hlen ltac:(lia)).
    assert (Ed : sent_data p (blen data) = data) by by apply holds_take_blen.
    destruct (send_said w 10 p (blen data)) as [Hr Hs]; [done|by rewrite Ed| |].
    { change ((blen data <=? 125) = true). lia. }
    rewrite Ed in Hr. by eapply hand_over. }
  eapply hand_over; [|by apply said_nothing|done|done]. by unfold same_state.
Qed.

(** ** Fragments *)

Lemma same_conn_said w w' :
  same_conn w w' -> is_closed w = false -> said w w' [] false.
Proof.
  intros (Hc & _ & Ht & Hw & _) H. split; [by rewrite Hc|]. exists [], [].
  split; [done|]. split; [by rewrite app_nil_r|]. by rewrite Ht.
Qed.

Lemma said_after w w1 w2 reply closed :
  same_conn w w1 -> said w1 w2 reply closed -> said w w2 reply closed.
Proof.
  intros (_ & _ & Ht & Hw & _) (Hc & sent & unsent & E & Hs & Hn). split; [done|].
  exists sent, unsent. by rewrite Hs, Hw, <- Ht.
Qed.

Lemma outcome_after w w1 t w2 ev :
  same_conn w w1 -> outcome w1 t w2 ev -> outcome w t w2 ev.
Proof.
  intros Hs (Hm & Ho & H). pose proof Hs as (_ & _ & _ & _ & Hm1).
  split; [auto|]. split; [done|]. destruct H as [[Hr H]|(Hne & Ht & H)].
  - left. split; [by eapply said_after|done].
  - right. split; [auto|]. split; [done|]. destruct H; [left|right]; by eapply said_after.
Qed.

Lemma outcome_short w w' ev :
  same_conn w w' -> is_closed w = false -> mem w <> [] -> (exists open, ws_open w' open) ->
  outcome w Null w' ev.
Proof.
  intros Hs Hc Hm Ho. split; [done|]. split; [done|]. right. split; [done|]. split; [done|]. left.
  by apply same_conn_said.
Qed.

(** Appending to the message in progress. *)
Lemma append_open w op acc p data :
  ws_open w (Some (op, acc)) -> holds p data -> bytes_ok data ->
  blen data <= CWIST_WS_MAX_PAYLOAD_BYTES ->
  let (ok, w') := ws_frag_append w p (blen data) in
  same_conn w w' /\
  if ok then ws_open w' (Some (op, acc ++ data)) /\ blen (acc ++ data) <= CWIST_WS_MAX_MESSAGE_BYTES
  else ws_open w' (Some (op, acc)) /\ (mem w = [] -> CWIST_WS_MAX_MESSAGE_BYTES < blen (acc ++ data)).
Proof.
  intros (Hop & Ho & Hat & Hacc) Hp Hd Hl.
  pose proof (frag_append_spec w acc p data Hat Hl (holds_take p data Hp)) as H.
  destruct (ws_frag_append w p (blen data)) as [ok w']. destruct H as (Hs & Hfo & H).
  split; [done|]. destruct ok.
  - split; [|by destruct H as (_ & H & _)].
    split; [done|]. split; [by rewrite Hfo|]. split; [done|]. by apply Forall_app.
  - destruct H as [H Hm]. split; [|done]. split; [done|]. split; [by rewrite Hfo|]. by split.
Qed.

Lemma frag_clear_open w : ws_open (frag_clear w) None.
Proof. done. Qed.

(** A fragment that is not the last. *)
Lemma append_more w op acc p data :
  is_closed w = false -> ws_open w (Some (op, acc)) -> holds p data -> bytes_ok data ->
  blen data <= CWIST_WS_MAX_PAYLOAD_BYTES ->
  let '(t, w') := let (ok, w1) := ws_frag_append w p (blen data) in (if ok then Again else Null, w1) in
  rx w' = rx w /\
  outcome w t w' (if CWIST_WS_MAX_MESSAGE_BYTES <? blen (acc ++ data) then Refuse [] false
                  else More (Some (op, acc ++ data))).
Proof.
  intros Hc Ho Hp Hd Hl. pose proof (append_open w op acc p data Ho Hp Hd Hl) as H.
  destruct (ws_frag_append w p (blen data)) as [ok w']. destruct H as [Hs H].
  split; [by destruct Hs as (_ & ? & _)|]. pose proof Hs as (_ & _ & _ & _ & Hmem). destruct ok.
  - destruct H as [Ho' Hle]. destruct (Z.ltb_spec CWIST_WS_MAX_MESSAGE_BYTES (blen (acc ++ data))); [lia|].
    split; [done|]. split; [by eexists|]. left. split; [by apply same_conn_said|]. done.
  - destruct H as [Ho' Hm].
    destruct (Z.ltb_spec CWIST_WS_MAX_MESSAGE_BYTES (blen (acc ++ data))) as [Hb|Hb].
    + split; [done|]. split; [by eexists|]. left. split; [by apply same_conn_said|]. done.
    + apply outcome_short; [done..| |by eexists]. intros E. specialize (Hm E). lia.
Qed.

(** The last fragment. *)
Lemma append_last w op acc p data :
  is_closed w = false -> ws_open w (Some (op, acc)) -> holds p data -> bytes_ok data ->
  blen data <= CWIST_WS_MAX_PAYLOAD_BYTES ->
  let '(t, w') :=
    let (ok, w1) := ws_frag_append w p (blen data) in
    if ok then deliver true (frag_opcode w1) (frag_buf w1) (frag_len w1) (frag_clear w1)
    else (Null, frag_clear w1) in
  rx w' = rx w /\
  outcome w t w' (if CWIST_WS_MAX_MESSAGE_BYTES <? blen (acc ++ data) then Refuse [] false
                  else rfc_finish op (acc ++ data) None).
Proof.
  intros Hc Ho Hp Hd Hl. pose proof (append_open w op acc p data Ho Hp Hd Hl) as H.
  destruct (ws_frag_append w p (blen data)) as [ok w1]. destruct H as [Hs H].
  assert (Hsc : same_conn w (frag_clear w1)) by by destruct Hs as (? & ? & ? & ? & ?).
  assert (Hrx : rx (frag_clear w1) = rx w) by by destruct Hsc as (_ & ? & _).
  destruct ok.
  - destruct H as [(Hop & Hfo & (Hfl & _ & Hfb) & Hok) Hle].
    destruct (Z.ltb_spec CWIST_WS_MAX_MESSAGE_BYTES (blen (acc ++ data))); [lia|].
    rewrite Hfo, Hfl.
    assert (Hh : holds (frag_buf w1) (acc ++ data)).
    { destruct (frag_buf w1) as [b|]; [|by destruct Hfb]. destruct Hfb as (k & -> & _). by exists k. }
    pose proof (deliver_spec (frag_clear w1) op (frag_buf w1) (acc ++ data) None Hh Hok) as Hdel.
    specialize (Hdel ltac:(by destruct Hsc as [-> _]) (frag_clear_open w1) ltac:(lia)).
    destruct (deliver _ _ _ _ _) as [t w']. destruct Hdel as [Hr Hout].
    split; [by rewrite Hr|]. by eapply outcome_after.
  - destruct H as [_ Hm]. split; [done|].
    destruct (Z.ltb_spec CWIST_WS_MAX_MESSAGE_BYTES (blen (acc ++ data))) as [Hb|Hb].
    + split; [by destruct Hsc as (_ & _ & _ & _ & ?)|]. split; [by exists None|]. left.
      split; [by apply same_conn_said|]. done.
    + apply outcome_short; [done..| |by exists None]. intros E. specialize (Hm E). lia.
Qed.

Lemma rfc_opcode_cases op : rfc_opcode op = true -> op = 0 \/ op = 1 \/ op = 2 \/ op = 8 \/ op = 9 \/ op = 10.
Proof.
  unfold rfc_opcode. rewrite bool_decide_eq_true. rewrite !elem_of_cons.
  intros [->|[->|[->|[->|[->|[->|H]]]]]]; [auto 10..|by apply elem_of_nil in H].
Qed.

Lemma idle_open w open :
  ws_open w open -> (frag_opcode w =? 0) = match open with None => true | Some _ => false end.
Proof.
  destruct open as [[op acc]|]; cbn.
  - intros (Hop & -> & _). lia.
  - by intros [-> _].
Qed.

(** A frame within the limits, against the message in progress. *)
Lemma reassemble_spec w fin op p data open :
  holds p data -> bytes_ok data -> is_closed w = false -> ws_open w open ->
  rfc_opcode op = true -> (8 <= op -> blen data <= 125) -> blen data <= CWIST_WS_MAX_PAYLOAD_BYTES ->
  let (t, w') := reassemble fin op p (blen data) w in
  rx w' = rx w /\ outcome w t w' (rfc_data open fin op data).
Proof.
  intros Hp Hd Hc Ho Hop Hlen Hmax. unfold reassemble, rfc_data, CWIST_WS_FRAME_CONTINUATION.
  rewrite (idle_open w open Ho). cbv zeta.
  destruct (Z.leb_spec 8 op) as [H8|H8]; cbn [negb andb].
  { destruct fin; cbn [negb].
    - apply deliver_spec; auto.
    - split; [done|]. by eapply outcome_refused. }
  assert (Hdeliver : op <> 0 -> open = None ->
    let (t, w') := deliver true op p (blen data) w in
    rx w' = rx w /\ outcome w t w' (rfc_finish op data None)).
  { intros _ ->. apply deliver_spec; auto. }
  destruct fin; cbn [negb]; destruct open as [[op1 acc]|]; destruct (Z.eqb_spec op 0) as [E0|E0];
    cbn [negb andb].
  - by apply append_last.
  - split; [done|]. by eapply outcome_refused.
  - split; [done|]. by eapply outcome_refused.
  - by apply Hdeliver.
  - by apply append_more.
  - split; [done|]. by eapply outcome_refused.
  - split; [done|]. by eapply outcome_refused.
  - assert (Ho1 : ws_open (w <| frag_opcode := op |>) (Some (op, []))).
    { destruct Ho as (_ & Hb & Hl & Hcap). split; [|split; [done|split; [|constructor]]].
      - apply rfc_opcode_cases in Hop. lia.
      - split; [done|]. split; [unfold CWIST_WS_MAX_MESSAGE_BYTES, blen; cbn; lia|].
        change (frag_buf (w <| frag_opcode := op |>)) with (frag_buf w). by rewrite Hb. }
    match type of Ho1 with ws_open ?w1 _ =>
      pose proof (append_more w1 op [] p data Hc Ho1 Hp Hd Hmax) as H end. cbn [app] in H.
    destruct (ws_frag_append _ p (blen data)) as [ok w']. destruct H as [Hrx H].
    destruct (Z.ltb_spec CWIST_WS_MAX_MESSAGE_BYTES (blen data)) as [Hb|Hb].
    { unfold CWIST_WS_MAX_MESSAGE_BYTES, CWIST_WS_MAX_PAYLOAD_BYTES in *. lia. }
    split; [done|]. eapply outcome_after; [|exact H]. by unfold same_conn.
Qed.

(** ** One round of the loop *)

(** Segments after at least [n] bytes were read from [segs]. *)
Definition fewer (n : nat) (segs segs' : list bytes) : Prop :=
  (n + length (concat segs') <= length (concat segs))%nat /\
  (Forall bytes_ok segs -> Forall bytes_ok segs').

Lemma fewer_trans n m s1 s2 s3 : fewer n s1 s2 -> fewer m s2 s3 -> fewer (n + m) s1 s3.
Proof. unfold fewer. intros [] []. split; [lia|auto]. Qed.
Lemma fewer_weaken n m s1 s2 : fewer n s1 s2 -> (m <= n)%nat -> fewer m s1 s2.
Proof. unfold fewer. intros [] ?. split; [lia|auto]. Qed.

Lemma read_exact_take len w b rest :
  avail (rx w) = b ++ rest -> length b = len ->
  exists segs, read_exact len w = (Some b, w <| rx := segs |>) /\ avail segs = rest /\
    fewer len (rx w) segs.
Proof.
  intros E <-. destruct (read_exact_app w b rest E) as (w' & R & A & Hw & L & O).
  exists (rx w'). rewrite R, <- Hw. split_and!; [done|done|]. split; [lia|done].
Qed.

Lemma length_value_16 x y : is_u8 x -> is_u8 y -> u16 (Z.lor (Z.shiftl x 8) y) = be_value [x; y].
Proof.
  unfold is_u8. intros Hx Hy. rewrite Z.shiftl_mul_pow2 by lia. change (2 ^ 8) with 256.
  rewrite (lor_add_above _ _ 8) by (first [lia|change (2 ^ 8) with 256; zlia]).
  rewrite u16_id by (unfold is_u16; lia). unfold be_value. cbn [fold_left]. lia.
Qed.

Lemma length_value_64 p :
  length p = 8%nat -> bytes_ok p ->
  fold_left (fun acc i => Z.lor acc (Z.shiftl (rd p i) ((7 - Z.of_nat i) * 8))) (seq 0 8) 0 = be_value p.
Proof.
  intros Hl Hp. do 9 (destruct p as [|? p]; try done). clear Hl.
  unfold bytes_ok, is_u8 in Hp. rewrite !list.Forall_cons in Hp. destruct_and! Hp.
  unfold be_value. cbn [seq fold_left rd nth].
  change (Z.of_nat 0) with 0. change (Z.of_nat 1) with 1. change (Z.of_nat 2) with 2.
  change (Z.of_nat 3) with 3. change (Z.of_nat 4) with 4. change (Z.of_nat 5) with 5.
  change (Z.of_nat 6) with 6. change (Z.of_nat 7) with 7. rewrite Z.lor_0_l.
  rewrite !lor_horner by lia. rewrite Z.shiftl_0_r. lia.
Qed.

Lemma length_ext_value f :
  frame_wf f ->
  match f_form f with
  | Len7 => length_code f = blen (f_payload f) /\ length_ext f = []
  | Len16 => exists x y, length_code f = 126 /\ length_ext f = [x; y] /\
      u16 (Z.lor (Z.shiftl x 8) y) = blen (f_payload f)
  | Len64 => length_code f = 127 /\ length (length_ext f) = 8%nat /\
      fold_left (fun acc i => Z.lor acc (Z.shiftl (rd (length_ext f) i) ((7 - Z.of_nat i) * 8)))
        (seq 0 8) 0 = blen (f_payload f)
  end.
Proof.
  intros (_ & _ & Hl & _). unfold length_code, length_ext, form_limit in *.
  pose proof (blen_nonneg (f_payload f)). destruct (f_form f).
  - done.
  - exists (blen (f_payload f) / 256 ^ Z.of_nat 1 mod 256), (blen (f_payload f) / 256 ^ Z.of_nat 0 mod 256).
    split_and!; [done|done|]. rewrite length_value_16 by (unfold is_u8; zlia).
    apply (be_value_big_endian 2). lia.
  - split_and!; [done|apply length_big_endian|].
    rewrite length_value_64 by (first [apply length_big_endian|apply big_endian_ok]).
    apply be_value_big_endian. lia.
Qed.

(** The extended length of a frame, or the refusal of a form too long. *)
Lemma read_length_spec f w rest :
  frame_wf f -> avail (rx w) = length_ext f ++ rest ->
  exists segs, fewer 0 (rx w) segs /\ avail segs = rest /\
  read_length (length_code f) w =
    if minimal_form f then (Some (blen (f_payload f)), w <| rx := segs |>)
    else (None, close_with 1002 (w <| rx := segs |>)).
Proof.
  intros Hwf Ha. pose proof (length_ext_value f Hwf) as Hv. pose proof Hwf as (_ & _ & Hl & _).
  unfold read_length, minimal_form, form_limit in *. destruct (f_form f).
  - destruct Hv as [-> Ex]. rewrite Ex in Ha. exists (rx w). split; [by split|]. split; [done|].
    destruct (Z.eqb_spec (blen (f_payload f)) 126); [lia|].
    destruct (Z.eqb_spec (blen (f_payload f)) 127); [lia|]. by destruct w.
  - destruct Hv as (x & y & -> & Ex & Ev). rewrite Ex in Ha.
    destruct (read_exact_take 2 w [x; y] rest Ha eq_refl) as (segs & R & A & L).
    exists segs. split; [by eapply fewer_weaken; [|lia]|]. split; [done|].
    change (126 =? 126) with true. cbv iota. rewrite R. cbv zeta.
    change (rd [x; y] 0) with x. change (rd [x; y] 1) with y. rewrite Ev.
    by rewrite Z.ltb_antisym; destruct (126 <=? blen (f_payload f)).
  - destruct Hv as (-> & El & Ev).
    destruct (read_exact_take 8 w _ rest Ha El) as (segs & R & A & L).
    exists segs. split; [by eapply fewer_weaken; [|lia]|]. split; [done|].
    change (127 =? 126) with false. change (127 =? 127) with true. cbv iota. rewrite R. cbv zeta.
    rewrite Ev. by rewrite Z.ltb_antisym; destruct (65536 <=? blen (f_payload f)).
Qed.

(** The masked payload, unless its memory is missing. *)
Lemma read_payload_spec w key data rest :
  avail (rx w) = masking key data ++ rest ->
  exists segs o, fewer 0 (rx w) segs /\ avail segs = rest /\ (mem w = [] -> o = []) /\
  let w' := w <| mem := o |> <| rx := segs |> in
  (exists p, read_payload (blen data) key w = (Some p, w') /\ holds p data) \/
  (mem w <> [] /\ exists w'', read_payload (blen data) key w = (None, w'') /\
    exists segs', w'' = w <| mem := o |> <| rx := segs' |> /\ fewer 0 (rx w) segs').
Proof.
  intros Ha. unfold read_payload. destruct (Z.ltb_spec 0 (blen data)) as [H|H].
  2: { assert (data = []) as -> by (apply length_zero_iff_nil; unfold blen in H; lia).
       exists (rx w), (mem w). split_and!; [by split|done|done|]. left. exists None.
       split; [by destruct w|done]. }
  unfold ws_alloc. destruct (alloc (mem w)) as [ok o] eqn:Ea.
  assert (Hm : mem w = [] -> ok = true /\ o = []).
  { intros E. rewrite E in Ea. by injection Ea as <- <-. }
  assert (El : length (masking key data) = Z.to_nat (blen data)).
  { rewrite length_masking. unfold blen. by rewrite Nat2Z.id. }
  set (w1 := w <| mem := o |>).
  destruct (read_exact_take (Z.to_nat (blen data)) w1 _ rest Ha El) as (segs & R & A & L).
  exists segs, o. split_and!; [by eapply fewer_weaken; [|lia]|done|intros E; by destruct (Hm E)|].
  destruct ok; cbn [negb].
  - left. rewrite R. eexists. split; [done|]. exists 0%nat.
    change (unmask key (masking key data)) with (masking key (masking key data)).
    by rewrite masking_involutive.
  - right. split; [intros E; by destruct (Hm E)|]. eexists. split; [done|].
    exists (rx w). split; [by destruct w|by split].
Qed.

(** The head of a frame reads back. *)
Lemma head_tests f b0 b1 :
  frame_wf f -> frame_head_bytes f = [b0; b1] ->
  negb (Z.land b0 128 =? 0) = f_fin f /\ Z.land b0 15 = f_op f /\
  (Z.land b0 112 =? 0) = (f_rsv f =? 0) /\
  (Z.land b1 128 =? 0) = bool_decide (f_key f = None) /\ Z.land b1 127 = length_code f.
Proof.
  intros Hwf [= <- <-]. pose proof (length_code_range f Hwf) as Hc. destruct Hwf as (Hr & Ho & _).
  set (b0 := _ + _ + _). set (b1 := _ + _).
  assert (H0 : is_u8 b0 /\ (128 <= b0 <-> f_fin f = true) /\ b0 mod 16 = f_op f /\ b0 / 16 mod 8 = f_rsv f).
  { unfold is_u8, b0. destruct (f_fin f); split_and!; try zlia. }
  assert (H1 : is_u8 b1 /\ (b1 < 128 <-> f_key f = None) /\ b1 mod 128 = length_code f).
  { unfold is_u8, b1. destruct (f_key f); split_and!; try zlia; split; intros; first [done|lia|exfalso; lia]. }
  clearbody b0 b1. destruct H0 as (U0 & F0 & O0 & R0), H1 as (U1 & K1 & L1).
  destruct (byte_tests b0 U0) as (T1 & T2 & _ & T4). destruct (byte_tests b1 U1) as (T5 & _ & T7 & _).
  rewrite T1, T2, T4, T5, T7, R0. split_and!; [|done| | |done].
  - destruct (f_fin f); lia.
  - lia.
  - apply Bool.eq_true_iff_eq. rewrite bool_decide_eq_true. by rewrite Z.ltb_lt.
Qed.

Lemma valid_opcode_rfc op :
  negb (op =? 0) && negb (op =? 1) && negb (op =? 2) && negb (op =? 8) &&
    negb (op =? 9) && negb (op =? 10) = negb (rfc_opcode op).
Proof.
  unfold rfc_opcode. destruct (bool_decide_reflect (op ∈ [0; 1; 2; 8; 9; 10])) as [H|H]; cbn [negb].
  - assert (rfc_opcode op = true) as E by by apply bool_decide_eq_true. apply rfc_opcode_cases in E. lia.
  - rewrite !elem_of_cons in H.
    repeat match goal with |- context [op =? ?k] => destruct (Z.eqb_spec op k); [tauto|] end. done.
Qed.

(** What a round makes of a complete frame. *)
Definition round (w : cwist_websocket) (rest : bytes) (r : turn * cwist_websocket) (ev : rfc_event) : Prop :=
  let (t, w') := r in
  outcome w t w' ev /\ fewer 2 (rx w) (rx w') /\ (t <> Null -> avail (rx w') = rest).

Lemma round_refused w segs rest open :
  is_closed w = false -> ws_open w open -> fewer 2 (rx w) segs ->
  round w rest (Null, w <| rx := segs |>) (Refuse [] false).
Proof.
  intros Hc Ho Hf. set (w1 := w <| rx := segs |>). split; [|by split].
  exact (outcome_refused w1 open Hc Ho).
Qed.

(** From the masking key on. *)
Lemma round_body f key w segs rest open :
  frame_wf f -> f_key f = Some key -> is_closed w = false -> ws_open w open ->
  rfc_opcode (f_op f) = true -> (8 <= f_op f -> blen (f_payload f) <= 125) ->
  blen (f_payload f) <= CWIST_WS_MAX_PAYLOAD_BYTES ->
  fewer 2 (rx w) segs -> avail segs = key ++ masking key (f_payload f) ++ rest ->
  round w rest
    match read_exact 4 (w <| rx := segs |>) with
    | (None, w) => (Null, w)
    | (Some key, w) =>
        match read_payload (blen (f_payload f)) key w with
        | (None, w) => (Null, w)
        | (Some payload, w) => reassemble (f_fin f) (f_op f) payload (blen (f_payload f)) w
        end
    end (rfc_data open (f_fin f) (f_op f) (f_payload f)).
Proof.
  intros (_ & _ & _ & Hp & Hk) Ek Hc Ho Hop Hctl Hmax L2 A2. rewrite Ek in Hk. destruct Hk as [Hk4 _].
  set (w2 := w <| rx := segs |>).
  destruct (read_exact_take 4 w2 key _ A2 Hk4) as (s3 & -> & A3 & L3).
  set (w3 := w2 <| rx := s3 |>). assert (L03 := fewer_trans _ _ _ _ _ L2 L3).
  destruct (read_payload_spec w3 key (f_payload f) rest A3) as (s4 & o & L4 & A4 & Hm & Hcase).
  set (w4 := w3 <| mem := o |> <| rx := s4 |>) in *. set (wm := w <| mem := o |>). cbv zeta in Hcase.
  assert (L04 := fewer_trans _ _ _ _ _ L03 L4).
  assert (Ho4 : ws_open w4 open) by by apply (ws_open_frag w).
  assert (Hs : same_conn w wm) by by unfold same_conn.
  destruct Hcase as [(p & -> & Hh)|(Hne & w'' & -> & s5 & -> & L5)].
  - pose proof (reassemble_spec w4 (f_fin f) (f_op f) p (f_payload f) open Hh Hp Hc Ho4 Hop Hctl Hmax) as H.
    destruct (reassemble _ _ _ _ w4) as [t w']. destruct H as [Hrx Hout].
    split; [exact (outcome_after w wm t w' _ Hs Hout)|]. rewrite Hrx.
    split; [eapply fewer_weaken; [exact L04|lia]|done].
  - split; [|split; [|done]].
    + set (w5 := w3 <| mem := o |> <| rx := s5 |>). split; [exact Hm|]. split; [by exists open|].
      right. split; [exact Hne|]. split; [done|]. left. exact (same_conn_said w wm Hs Hc).
    + eapply fewer_weaken; [eapply fewer_trans; [exact L03|exact L5]|lia].
Qed.

Lemma receive_turn_spec f w open rest :
  frame_wf f -> avail (rx w) = frame_bytes f ++ rest -> is_closed w = false -> ws_open w open ->
  round w rest (receive_turn w) (rfc_step open f).
Proof.
  intros Hwf Ha Hc Ho. unfold frame_bytes in Ha. rewrite <- app_assoc in Ha.
  destruct (read_exact_take 2 w (frame_head_bytes f) _ Ha eq_refl) as (s1 & R1 & A1 & L1).
  unfold receive_turn, rfc_step. rewrite R1. clear R1. cbv zeta.
  destruct (frame_head_bytes f) as [|b0 [|b1 [|? ?]]] eqn:Eh; try done.
  destruct (head_tests f b0 b1 Hwf Eh) as (E1 & E2 & E3 & E4 & E5).
  change (rd [b0; b1] 0) with b0. change (rd [b0; b1] 1) with b1.
  rewrite E1, E2, E3, E4, E5, valid_opcode_rfc.
  destruct (rfc_opcode (f_op f)) eqn:Eop; cbn [negb orb]; [|by eapply round_refused].
  destruct (f_rsv f =? 0) eqn:Ersv; cbn [negb orb]; [|by eapply round_refused].
  unfold frame_body in A1. destruct (f_key f) as [key|] eqn:Ek; [|by eapply round_refused].
  rewrite bool_decide_eq_false_2 by done. rewrite <- !app_assoc in A1.
  set (w1 := w <| rx := s1 |>). destruct (read_length_spec f w1 _ Hwf A1) as (s2 & L2 & A2 & R2).
  rewrite R2. clear R2. assert (L02 := fewer_trans _ _ _ _ _ L1 L2).
  set (w2 := w1 <| rx := s2 |>). destruct (minimal_form f); cbn [negb].
  2: { destruct (close_with_said w2 1002) as [Hs Hsame]; [done|lia|].
       split; [exact (outcome_refuse w2 _ _ _ open Hsame Ho Hs)|]. split; [|done].
       destruct Hsame as [-> _]. done. }
  destruct (Z.ltb_spec CWIST_WS_MAX_PAYLOAD_BYTES (blen (f_payload f))) as [Hb|Hb]; cbn [orb];
    [by eapply (round_refused w s2)|].
  destruct ((8 <=? f_op f) && (125 <? blen (f_payload f))) eqn:Ectl; [by eapply (round_refused w s2)|].
  apply (round_body f key w s2); [done..|lia|lia|done|done].
Qed.

(** ** An incomplete frame *)

Lemma avail_ok segs : Forall bytes_ok segs -> bytes_ok (avail segs).
Proof.
  induction 1 as [|seg segs Hs _ IH]; [constructor|]. destruct seg; [constructor|].
  cbn [avail]. by apply Forall_app.
Qed.

(** The bytes read, as segments. *)
Lemma read_exact_cases len w :
  exists segs, fewer 0 (rx w) segs /\
  ((exists b, read_exact len w = (Some b, w <| rx := segs |>) /\ avail (rx w) = b ++ avail segs /\
      length b = len) \/
   read_exact len w = (None, w <| rx := segs |>)).
Proof.
  pose proof (read_exact_spec len w) as H. destruct (read_exact len w) as [[b|] w'].
  - destruct H as (E & L & Hw & C & O). exists (rx w'). split; [by split; [lia|]|]. left. exists b.
    by rewrite <- Hw.
  - destruct H as (E & Hw & C & O). exists (rx w'). split; [by split; [lia|]|]. right. by rewrite <- Hw.
Qed.

Lemma read_length_inv code w :
  0 <= code < 128 -> bytes_ok (avail (rx w)) ->
  exists segs, fewer 0 (rx w) segs /\
  ((exists n form ext, read_length code w = (Some n, w <| rx := segs |>) /\
      avail (rx w) = ext ++ avail segs /\ 0 <= n < form_limit form /\
      forall f, f_form f = form -> blen (f_payload f) = n -> length_code f = code /\ length_ext f = ext) \/
   read_length code w = (None, w <| rx := segs |>) \/
   read_length code w = (None, close_with 1002 (w <| rx := segs |>))).
Proof.
  intros Hcode Hok. unfold read_length. destruct (Z.eqb_spec code 126) as [->|N1].
  { destruct (read_exact_cases 2 w) as (segs & L & [(b & -> & Ea & El)| ->]);
      [|by exists segs; split; [|right; left]].
    exists segs. split; [done|]. rewrite Ea in Hok. apply Forall_app in Hok as [Hb _].
    destruct b as [|x [|y [|? ?]]]; try done. unfold bytes_ok in Hb.
    pose proof (list.Forall_cons_1 _ _ _ Hb) as [Hx Hy]. apply list.Forall_cons_1 in Hy as [Hy _].
    cbv zeta. change (rd [x; y] 0) with x. change (rd [x; y] 1) with y.
    rewrite length_value_16 by done. pose proof (big_endian_value [x; y] Hb) as [Eb Hr].
    destruct (be_value [x; y] <? 126); [by right; right|]. left.
    exists (be_value [x; y]), Len16, [x; y]. split_and!; [done|done|lia|cbn in *; lia|].
    intros f Ef En. unfold length_code, length_ext. by rewrite Ef, En. }
  destruct (Z.eqb_spec code 127) as [->|N2].
  { destruct (read_exact_cases 8 w) as (segs & L & [(b & -> & Ea & El)| ->]);
      [|by exists segs; split; [|right; left]].
    exists segs. split; [done|]. rewrite Ea in Hok. apply Forall_app in Hok as [Hb _].
    cbv zeta. rewrite length_value_64 by done. pose proof (big_endian_value b Hb) as [Eb Hr].
    rewrite El in *. destruct (be_value b <? 65536); [by right; right|]. left.
    exists (be_value b), Len64, b. split_and!; [done|done|lia|cbn in *; lia|].
    intros f Ef En. unfold length_code, length_ext. by rewrite Ef, En. }
  exists (rx w). split; [by split|]. left. exists code, Len7, []. cbn [form_limit].
  split_and!; [by destruct w|done|lia|lia|].
  intros f Ef En. unfold length_code, length_ext. by rewrite Ef, En.
Qed.

(** Head bytes are the head of some frame. *)
Lemma head_fields b0 b1 :
  is_u8 b0 -> is_u8 b1 -> (Z.land b1 128 =? 0) = false ->
  forall form key payload,
  let f := MkRfc (128 <=? b0) (b0 / 16 mod 8) (b0 mod 16) form (Some key) payload in
  length_code f = Z.land b1 127 ->
  frame_head_bytes f = [b0; b1] /\ 0 <= f_rsv f < 8 /\ 0 <= f_op f < 16.
Proof.
  intros U0 U1 Hm form key payload f Hc.
  destruct (byte_tests b1 U1) as (T1 & _ & T3 & _). rewrite T1 in Hm. rewrite T3 in Hc.
  unfold frame_head_bytes. rewrite Hc. unfold is_u8 in *. cbn [f f_fin f_rsv f_op f_key].
  split; [|zlia]. f_equal; [|f_equal; zlia]. destruct (Z.leb_spec 128 b0); zlia.
Qed.

(** A round that gives nothing: the connection stands, or was closed with a
    protocol error. *)
Definition no_round (w : cwist_websocket) (r : turn * cwist_websocket) : Prop :=
  let (t, w') := r in
  t = Null /\ fewer 0 (rx w) (rx w') /\ (mem w = [] -> mem w' = []) /\
  (exists open, ws_open w' open) /\
  (said w w' [] false \/ said w w' (close_frame 1002) true).

Lemma no_round_read w w1 segs open :
  same_conn w (w1 <| rx := rx w |>) -> is_closed w = false -> ws_open w1 open -> fewer 0 (rx w) segs ->
  no_round w (Null, w1 <| rx := segs |>).
Proof.
  intros Hs Hc Ho Hf. split; [done|]. split; [done|].
  split; [by destruct Hs as (_ & _ & _ & _ & ?)|]. split; [by exists open|]. left.
  exact (same_conn_said _ _ Hs Hc).
Qed.

Lemma complete_frame b0 b1 form ext key b :
  is_u8 b0 -> is_u8 b1 -> (Z.land b1 128 =? 0) = false ->
  (forall f, f_form f = form -> blen (f_payload f) = blen b ->
    length_code f = Z.land b1 127 /\ length_ext f = ext) ->
  blen b < form_limit form -> length key = 4%nat -> bytes_ok key -> bytes_ok b ->
  exists f, frame_wf f /\ frame_bytes f = [b0; b1] ++ ext ++ key ++ b.
Proof.
  intros U0 U1 Hm Hf Hl Hk Hkey Hb.
  set (f := MkRfc (128 <=? b0) (b0 / 16 mod 8) (b0 mod 16) form (Some key) (masking key b)).
  assert (El : blen (f_payload f) = blen b) by exact (f_equal Z.of_nat (length_masking key b)).
  destruct (Hf f eq_refl El) as [Ec Ee].
  destruct (head_fields b0 b1 U0 U1 Hm form key (masking key b) Ec) as (Eh & Hr & Ho).
  exists f. split; [split_and!|].
  1-4: fold f in Hr, Ho; lia.
  - rewrite El. done.
  - by apply masking_ok.
  - done.
  - unfold frame_bytes. fold f in Eh. rewrite Eh, Ee. unfold frame_body. cbn [f_key f_payload f].
    by rewrite masking_involutive.
Qed.

Lemma read_payload_cases n key w :
  0 <= n ->
  (exists b segs, blen b = n /\ avail (rx w) = b ++ segs) \/
  exists segs o, read_payload n key w = (None, w <| mem := o |> <| rx := segs |>) /\
    fewer 0 (rx w) segs /\ (mem w = [] -> o = []).
Proof.
  intros Hn. unfold read_payload. destruct (Z.ltb_spec 0 n) as [H|H].
  2: { left. exists [], (avail (rx w)). split; [unfold blen; cbn; lia|done]. }
  unfold ws_alloc. destruct (alloc (mem w)) as [ok o] eqn:Ea.
  assert (Hm : mem w = [] -> o = []).
  { intros E. rewrite E in Ea. by injection Ea as <- <-. }
  set (w1 := w <| mem := o |>). destruct ok; cbn [negb].
  - destruct (read_exact_cases (Z.to_nat n) w1) as (segs & L & [(b & -> & Ea1 & El)| ->]).
    + left. exists b, (avail segs). split; [unfold blen; lia|done].
    + right. by exists segs, o.
  - right. exists (rx w), o. split; [by destruct w|]. by split.
Qed.

Lemma no_round_closed w w2 open :
  same_conn w (w2 <| rx := rx w |>) -> is_closed w = false -> ws_open w2 open ->
  fewer 0 (rx w) (rx w2) -> no_round w (Null, close_with 1002 w2).
Proof.
  intros Hsc Hc Ho Hf. pose proof Hsc as (Hc2 & _ & Ht & Hw & Hm2).
  assert (Hc' : is_closed w2 = false) by (rewrite <- Hc; exact Hc2).
  destruct (close_with_said w2 1002) as [Hs Hsame]; [done|lia|].
  pose proof Hsame as (Hrx & Hm & _). split; [done|]. rewrite Hrx. split; [done|].
  split; [intros E; rewrite Hm; by apply Hm2|]. split; [exists open; by eapply ws_open_same|]. right.
  exact (said_after w (w2 <| rx := rx w |>) _ _ _ Hsc Hs).
Qed.

(** Either a complete frame has arrived or the round ends without one. *)
Lemma receive_turn_cases w open :
  Forall bytes_ok (rx w) -> is_closed w = false -> ws_open w open ->
  (exists f rest, frame_wf f /\ avail (rx w) = frame_bytes f ++ rest) \/ no_round w (receive_turn w).
Proof.
  intros Hok Hc Ho. apply avail_ok in Hok as Hav.
  assert (Hrefl : same_conn w (w <| rx := rx w |>)) by done.
  assert (Hnull : forall segs, fewer 0 (rx w) segs ->
    (exists f rest, frame_wf f /\ avail (rx w) = frame_bytes f ++ rest) \/
    no_round w (Null, w <| rx := segs |>)).
  { intros segs Hf. right. by apply (no_round_read w w segs open). }
  unfold receive_turn.
  destruct (read_exact_cases 2 w) as (s1 & L1 & [(head & -> & A1 & El)| ->]); [|by apply Hnull].
  destruct head as [|b0 [|b1 [|? ?]]]; try done. clear El. cbv zeta.
  change (rd [b0; b1] 0) with b0. change (rd [b0; b1] 1) with b1.
  assert (Hb := Hav). rewrite A1 in Hb. apply Forall_app in Hb as [Hb Hav1].
  pose proof (list.Forall_cons_1 _ _ _ Hb) as [U0 U1]. apply list.Forall_cons_1 in U1 as [U1 _].
  destruct (negb (Z.land b0 15 =? 0) && _ && _ && _ && _ && _); [by apply Hnull|].
  destruct (negb (Z.land b0 112 =? 0)) eqn:Er; [by apply Hnull|].
  destruct (Z.land b1 128 =? 0) eqn:Em; [by apply Hnull|].
  set (w1 := w <| rx := s1 |>).
  destruct (byte_tests b1 U1) as (_ & _ & T3 & _).
  destruct (read_length_inv (Z.land b1 127) w1) as (s2 & L2 & Hlen); [rewrite T3; zlia|done|].
  assert (L02 := fewer_trans _ _ _ _ _ L1 L2).
  destruct Hlen as [(n & form & ext & -> & A2 & Hn & Hf)|[-> | ->]]; [|by apply (Hnull s2)|].
  2: { set (w2 := w1 <| rx := s2 |>). right. by apply (no_round_closed w w2 open). }
  destruct (CWIST_WS_MAX_PAYLOAD_BYTES <? n); [by apply (Hnull s2)|].
  destruct ((8 <=? Z.land b0 15) && (125 <? n)); [by apply (Hnull s2)|].
  destruct (read_exact_cases 4 (w1 <| rx := s2 |>)) as (s3 & L3 & [(key & -> & A3 & Ek)| ->]).
  2: { apply (Hnull s3). by eapply fewer_weaken; [eapply fewer_trans; [exact L02|exact L3]|lia]. }
  assert (L03 := fewer_trans _ _ _ _ _ L02 L3).
  set (w3 := w1 <| rx := s2 |> <| rx := s3 |>).
  destruct (read_payload_cases n key w3) as [(b & rest & Eb & A4)|(s4 & o & -> & L4 & Hm)]; [lia| |].
  - left. subst n.
    assert (E : avail (rx w) = ([b0; b1] ++ ext ++ key ++ b) ++ rest).
    { change (avail s1 = ext ++ avail s2) in A2. change (avail s2 = key ++ avail s3) in A3.
      change (avail s3 = b ++ rest) in A4. by rewrite A1, A2, A3, A4, <- !app_assoc. }
    rewrite E in Hav. unfold bytes_ok in Hav. rewrite !Forall_app in Hav.
    destruct Hav as ((_ & _ & Hkey & Hbb) & _).
    destruct (complete_frame b0 b1 form ext key b U0 U1 Em Hf (proj2 Hn) Ek Hkey Hbb) as (f & Hwf & Ef).
    exists f, rest. split; [done|]. by rewrite E, Ef.
  - right. set (wm := w <| mem := o |>). apply (no_round_read w wm s4 open); [|done|done|].
    + by unfold same_conn.
    + by eapply fewer_weaken; [eapply fewer_trans; [exact L03|exact L4]|lia].
Qed.

Lemma receive_turn_short w open :
  no_frame (avail (rx w)) -> Forall bytes_ok (rx w) -> is_closed w = false -> ws_open w open ->
  no_round w (receive_turn w).
Proof.
  intros Hno Hok Hc Ho. destruct (receive_turn_cases w open Hok Hc Ho) as [(f & rest & Hf & E)|H]; [|done].
  by destruct (Hno f rest Hf).
Qed.

(** ** The loop *)

(** A call of the receive function against [rfc_receive]. *)
Definition received (w : cwist_websocket) (open : progress) (fs : list rfc_frame) (tail : bytes)
  (r : option cwist_ws_frame * cwist_websocket) : Prop :=
  let (fr, w') := r in
  let '(_, ev, rest) := rfc_receive open fs in
  (mem w = [] -> mem w' = []) /\ (exists open', ws_open w' open') /\ Forall bytes_ok (rx w') /\
  match ev with
  | None => fr = None /\ (said w w' [] false \/ said w w' (close_frame 1002) true)
  | Some ev =>
      (said w w' (ev_reply ev) (ev_closed ev) /\
       match ev with
       | Deliver op data _ _ open' =>
           (exists p, fr = Some (MkFrame true op p (blen data)) /\ holds p data) /\
           ws_open w' open' /\ avail (rx w') = concat (map frame_bytes rest) ++ tail
       | _ => fr = None
       end) \/
      (mem w <> [] /\ fr = None /\ (said w w' [] false \/ said w w' (ev_reply ev) (ev_closed ev)))
  end.

Lemma said_nothing_trans w w1 w2 reply closed :
  said w w1 [] false -> said w1 w2 reply closed -> said w w2 reply closed.
Proof.
  intros (_ & s1 & u1 & E1 & W1 & N1) (Hc & s2 & u2 & E2 & W2 & N2).
  symmetry in E1. apply app_eq_nil in E1 as [-> ->]. rewrite app_nil_r in W1.
  split; [done|]. exists s2, u2. split; [done|]. split; [by rewrite W2, W1|].
  intros E. apply N2. by apply N1.
Qed.

Lemma received_again w w1 open open1 f fs tail r :
  rfc_step open f = More open1 -> said w w1 [] false -> (mem w = [] -> mem w1 = []) ->
  received w1 open1 fs tail r -> received w open (f :: fs) tail r.
Proof.
  unfold received. destruct r as [fr w']. cbn [rfc_receive]. intros -> Hs Hm.
  destruct (rfc_receive open1 fs) as [[o ev] rest]. intros (Hm1 & Ho & Hok & H).
  split; [auto|]. split; [done|]. split; [done|].
  assert (Ht : forall reply closed, said w1 w' reply closed -> said w w' reply closed).
  { intros reply closed. by apply said_nothing_trans. }
  destruct ev as [ev|].
  - destruct H as [[H1 H2]|(Hne & Hn & H)]; [left; auto|right].
    split; [auto|]. split; [done|]. destruct H; auto.
  - destruct H as [Hn H]. split; [done|]. destruct H; auto.
Qed.

Lemma receive_loop_spec fs tail : forall fuel w open,
  ws_open w open -> is_closed w = false -> Forall bytes_ok (rx w) ->
  Forall frame_wf fs -> no_frame tail -> avail (rx w) = concat (map frame_bytes fs) ++ tail ->
  (length (concat (rx w)) < fuel)%nat ->
  received w open fs tail (receive_loop fuel w).
Proof.
  induction fs as [|f fs IH]; intros fuel w open Ho Hc Hok Hwf Htail Ha Hfuel;
    (destruct fuel as [|fuel]; [lia|]); cbn [receive_loop].
  { cbn [map concat app] in Ha. rewrite <- Ha in Htail.
    pose proof (receive_turn_short w open Htail Hok Hc Ho) as H.
    destruct (receive_turn w) as [t w']. destruct H as (-> & [_ Hf] & Hm & Hi & H).
    unfold received. cbn [rfc_receive]. split_and!; auto. }
  apply list.Forall_cons_1 in Hwf as [Hf Hwf]. cbn [map concat] in Ha. rewrite <- app_assoc in Ha.
  pose proof (receive_turn_spec f w open _ Hf Ha Hc Ho) as H. unfold round in H.
  destruct (receive_turn w) as [t w1]. destruct H as ((Hm & Hi & H) & [Hlen Hok1] & Hrest).
  destruct (rfc_step open f) as [open1|op data reply closed open1|reply closed] eqn:Ev.
  1: destruct H as [[Hs [-> Ho1]]|(Hne & -> & Hs)].
  1: { eapply received_again; [done..|].
       apply IH; [done|by destruct Hs|auto|done|done|by apply Hrest|lia]. }
  all: unfold received; cbn [rfc_receive]; rewrite ?Ev.
  - assert (Hn : said w w1 [] false) by by destruct Hs.
    destruct (rfc_receive open1 fs) as [[o [ev|]] rest]; split_and!; auto.
  - destruct H as [[Hs [(p & -> & Hp) Ho1]]|(Hne & -> & Hs)]; split_and!; auto.
    left. split; [exact Hs|]. split; [by exists p|]. split; [done|by apply Hrest].
  - destruct H as [[Hs ->]|(Hne & -> & Hs)]; split_and!; auto.
Qed.

Lemma receive_spec w open fs tail :
  ws_open w open -> is_closed w = false -> Forall bytes_ok (rx w) ->
  Forall frame_wf fs -> no_frame tail -> avail (rx w) = concat (map frame_bytes fs) ++ tail ->
  received w open fs tail (cwist_websocket_receive w).
Proof.
  intros Ho Hc Hok Hwf Htail Ha. unfold cwist_websocket_receive. rewrite Hc.
  apply (receive_loop_spec fs tail _ w open); [done..|unfold receive_fuel; lia].
Qed.

(** C22: A call of the receive function does what RFC 6455 says of the frames
    that arrive: it gathers fragments, lets control frames through between
    them, hands over the first complete message with its bytes and terminator,
    answers pings and close frames, refuses malformed frames and oversized or
    misplaced fragments, and leaves the rest of the stream for the next call;
    when the stream ends inside a frame it returns nothing.  This holds for
    every stream, every segmentation of it and every outcome of [send], whose
    failures cut a reply short; a failed allocation makes the call return
    nothing. *)
Theorem receive_refines w open fs tail :
  ws_open w open -> is_closed w = false -> Forall bytes_ok (rx w) ->
  Forall frame_wf fs -> no_frame tail -> avail (rx w) = concat (map frame_bytes fs) ++ tail ->
  received w open fs tail (cwist_websocket_receive w).
Proof. apply receive_spec. Qed.

Abbreviation demo_frames :=
  [demo_frame false 1 (bs "Hel"); demo_frame true 0 (bs "lo"); demo_frame true 9 (bs "?")].
Abbreviation demo_stream := (concat (map frame_bytes demo_frames)).

(** A text message in two fragments, cut in three segments, a ping behind it. *)
Lemma receive_refines_witness :
  let w := websocket_new [take 3 demo_stream; take 9 (drop 3 demo_stream); drop 12 demo_stream] [] [] in
  received w None demo_frames [] (cwist_websocket_receive w) /\
  rfc_receive None demo_frames =
    (Some (1, bs "Hel"), Some (Deliver 1 (bs "Hello") [] false None), [demo_frame true 9 (bs "?")]).
Proof.
  split; [|vm_compute; reflexivity].
  apply receive_refines.
  - split_and!; reflexivity.
  - reflexivity.
  - apply segs_okb_ok; vm_compute; reflexivity.
  - apply frames_okb_wf; vm_compute; reflexivity.
  - apply no_frame_nil.
  - vm_compute. reflexivity.
Defined.
