(* ===== verification/WsSafe.v ===== *)
(** * WebSocket connections: what any input can do

    Bounds on a connection whose peer sends arbitrary bytes, and the frames the
    program sends itself. *)

From S2P Require Import Prelude.
From S2P Require Import WsFrame.
From S2P Require Import WebSocket.
From S2P Require Import WsSpec.
From S2P Require Import WsReceive.

(** ** Messages that may reach the application *)

Definition deliverable (op : Z) (data : bytes) : Prop :=
  (op = 1 \/ op = 2 \/ op = 8 \/ op = 9 \/ op = 10) /\ bytes_ok data /\
  blen data <= CWIST_WS_MAX_MESSAGE_BYTES /\ (8 <= op -> blen data <= 125) /\
  (op = 1 -> utf8_text data) /\ (op = 8 -> rfc_close_error data = None).

Definition progress_ok (open : progress) : Prop :=
  match open with
  | None => True
  | Some (op, acc) => (op = 1 \/ op = 2) /\ bytes_ok acc /\ blen acc <= CWIST_WS_MAX_MESSAGE_BYTES
  end.

Lemma ws_open_progress w open : ws_open w open -> progress_ok open.
Proof. destruct open as [[op acc]|]; [|done]. intros (Hop & _ & (_ & Hl & _) & Hok). done. Qed.

Lemma server_frame_short op payload :
  blen payload <= 125 -> (length (server_frame op payload) = 2 + length payload)%nat.
Proof.
  intros H. unfold server_frame, frame_head. destruct (Z.ltb_spec (blen payload) 126); [|lia].
  rewrite length_app. done.
Qed.

Lemma utf8_valid_text data : bytes_ok data -> cwist_ws_internal_utf8_valid data = true -> utf8_text data.
Proof. intros Hd. by apply utf8_loop_sound. Qed.

(** What an event may be. *)
Definition event_ok (ev : rfc_event) : Prop :=
  (length (ev_reply ev) <= 127)%nat /\
  match ev with
  | More _ => True
  | Deliver op data _ closed _ => deliverable op data /\ closed = (op =? 8)
  | Refuse reply closed => closed = bool_decide (reply <> [])
  end.

Lemma refuse_ok code : event_ok (Refuse (close_frame code) true).
Proof.
  split; [|by rewrite bool_decide_eq_true_2].
  change (length (server_frame 8 [(code / 256)%Z; (code mod 256)%Z]) <= 127)%nat.
  rewrite server_frame_short by done. cbn. lia.
Qed.

Lemma rfc_finish_ok op data open :
  (op = 1 \/ op = 2 \/ op = 8 \/ op = 9 \/ op = 10) -> bytes_ok data ->
  blen data <= CWIST_WS_MAX_MESSAGE_BYTES -> (8 <= op -> blen data <= 125) ->
  event_ok (rfc_finish op data open).
Proof.
  intros Hop Hok Hmax Hctl. unfold rfc_finish.
  destruct ((op =? 1) && negb _) eqn:Eu; [apply refuse_ok|].
  destruct (Z.eqb_spec op 8) as [->|H8].
  { specialize (Hctl ltac:(lia)). destruct (rfc_close_error data) eqn:Ec; [apply refuse_ok|].
    split.
    - cbn [ev_reply]. rewrite server_frame_short; [rewrite length_take; lia|].
      unfold blen in *. rewrite length_take. lia.
    - split; [|done]. split_and!; try done; intros; lia. }
  assert (Hdel : deliverable op data).
  { split_and!; try done. intros ->. apply utf8_valid_text; [done|].
    cbn in Eu. by apply negb_false_iff in Eu. }
  destruct (Z.eqb_spec op 9) as [->|H9].
  - specialize (Hctl ltac:(lia)). split; [|done]. cbn [ev_reply].
    rewrite server_frame_short by done. unfold blen in Hctl. lia.
  - split; [cbn; lia|]. split; [done|]. by destruct (Z.eqb_spec op 8).
Qed.

Lemma rfc_step_ok open f : frame_wf f -> progress_ok open -> event_ok (rfc_step open f).
Proof.
  intros (_ & _ & _ & Hok & _) Hp. unfold rfc_step.
  assert (Hno : event_ok (Refuse [] false)).
  { split; [cbn; lia|]. reflexivity. }
  assert (HM : CWIST_WS_MAX_PAYLOAD_BYTES <= CWIST_WS_MAX_MESSAGE_BYTES) by done.
  destruct (negb (rfc_opcode (f_op f)) || _ || _) eqn:E1; [done|].
  rewrite !orb_false_iff, negb_false_iff in E1. destruct E1 as [[Eop _] _].
  apply rfc_opcode_cases in Eop.
  destruct (negb (minimal_form f)); [apply refuse_ok|].
  destruct ((CWIST_WS_MAX_PAYLOAD_BYTES <? blen (f_payload f)) || _) eqn:E2; [done|].
  unfold rfc_data. destruct (Z.leb_spec 8 (f_op f)).
  { destruct (f_fin f); [|done]. apply rfc_finish_ok; [lia|done|lia|lia]. }
  destruct open as [[op acc]|]; destruct (Z.eqb_spec (f_op f) 0); try done.
  - destruct Hp as (Hop & Hacc & _).
    destruct (Z.ltb_spec CWIST_WS_MAX_MESSAGE_BYTES (blen (acc ++ f_payload f))); [done|].
    destruct (f_fin f); [|by split; [cbn; lia|]].
    apply rfc_finish_ok; [lia|by apply Forall_app|lia|lia].
  - destruct (f_fin f); [|by split; [cbn; lia|]]. apply rfc_finish_ok; [lia|done|lia|lia].
Qed.

(** ** Any input *)

Definition frame_ok (fr : cwist_ws_frame) : Prop :=
  fr_fin fr = true /\ exists data, deliverable (fr_opcode fr) data /\
    holds (fr_payload fr) data /\ fr_payload_len fr = blen data.

(** After a call: the reassembly state is sound, at most one control frame was
    written, and what was returned is a message. *)
Definition call_safe (w : cwist_websocket) (r : option cwist_ws_frame * cwist_websocket) : Prop :=
  let (fr, w') := r in
  (exists open, ws_open w' open) /\ Forall bytes_ok (rx w') /\
  (exists sent, wire w' = wire w ++ sent /\ (length sent <= 127)%nat) /\
  match fr with Some fr => frame_ok fr /\ is_closed w' = (fr_opcode fr =? 8) | None => True end.

Lemma said_short w w' reply closed :
  said w w' reply closed -> (length reply <= 127)%nat ->
  exists sent, wire w' = wire w ++ sent /\ (length sent <= 127)%nat.
Proof.
  intros (_ & sent & unsent & -> & Hw & _) Hl. rewrite length_app in Hl. exists sent. split; [done|lia].
Qed.

(** One round: it gives up, hands over a message, or goes on with fewer bytes
    to come and nothing written. *)
Lemma receive_turn_safe w open :
  ws_open w open -> is_closed w = false -> Forall bytes_ok (rx w) ->
  let (t, w') := receive_turn w in
  match t with
  | Again => (exists open', ws_open w' open') /\ Forall bytes_ok (rx w') /\ is_closed w' = false /\
      wire w' = wire w /\ (length (concat (rx w')) < length (concat (rx w)))%nat
  | Frame fr => call_safe w (Some fr, w')
  | Null => call_safe w (None, w')
  end.
Proof.
  intros Ho Hc Hok. assert (Hclose := proj1 (refuse_ok 1002)). cbn [ev_reply] in Hclose.
  destruct (receive_turn_cases w open Hok Hc Ho) as [(f & rest & Hf & Ha)|H].
  - pose proof (receive_turn_spec f w open rest Hf Ha Hc Ho) as H. unfold round in H.
    destruct (receive_turn w) as [t w']. destruct H as ((_ & Hi & H) & [Hlen Hok'] & _).
    destruct (rfc_step_ok open f Hf (ws_open_progress w open Ho)) as [Hl He].
    destruct H as [[Hs H]|(_ & -> & Hs)].
    + pose proof (said_short _ _ _ _ Hs Hl) as Hw.
      destruct (rfc_step open f) as [open1|op data reply closed open1|reply closed].
      * destruct H as [-> Ho1]. destruct Hs as (Hc' & sent & unsent & E & Hw' & _).
        symmetry in E. apply app_eq_nil in E as [-> ->]. rewrite app_nil_r in Hw'.
        split_and!; [done|auto|done|done|lia].
      * destruct H as [(p & -> & Hp) Ho1]. destruct He as [Hd ->].
        split; [done|]. split; [auto|]. split; [done|].
        split; [split; [done|by exists data]|by destruct Hs].
      * subst t. split_and!; auto.
    + split_and!; [done|auto| |done].
      destruct Hs as [Hs|Hs]; (eapply said_short; [exact Hs|]); [cbn; lia|done].
  - destruct (receive_turn w) as [t w']. destruct H as (-> & [_ Hf] & _ & Hi & Hs).
    split_and!; [done|auto| |done].
    destruct Hs as [Hs|Hs]; (eapply said_short; [exact Hs|]); [cbn; lia|done].
Qed.

Lemma receive_loop_safe fuel : forall w open,
  ws_open w open -> is_closed w = false -> Forall bytes_ok (rx w) ->
  (length (concat (rx w)) < fuel)%nat ->
  call_safe w (receive_loop fuel w) /\ forall n, receive_loop (fuel + n) w = receive_loop fuel w.
Proof.
  induction fuel as [|fuel IH]; intros w open Ho Hc Hok Hlen; [lia|].
  pose proof (receive_turn_safe w open Ho Hc Hok) as H. cbn [receive_loop Nat.add].
  destruct (receive_turn w) as [[fr| |] w']; [by split|by split|].
  destruct H as ((open' & Ho') & Hok' & Hc' & Hw & Hl).
  destruct (IH w' open' Ho' Hc' Hok' ltac:(lia)) as [Hs Hn]. split; [|exact Hn].
  unfold call_safe in *. by rewrite <- Hw.
Qed.

(** C28: Whatever bytes arrive, in whatever segments, and whichever allocations
    and sends fail: a call ends, returns nothing or one whole message, ends
    with a sound reassembly state, and writes at most one control frame.  A
    message is text that is UTF-8, binary, or a control frame of at most 125
    bytes with a valid close status; it has at most 64 MiB, is exactly as long
    as announced and is followed by a terminator in its buffer.  The connection
    is closed with a message exactly when it is a close frame, and a closed
    connection is left alone. *)
Theorem receive_safe w open :
  ws_open w open -> Forall bytes_ok (rx w) ->
  if is_closed w then cwist_websocket_receive w = (None, w)
  else
    call_safe w (cwist_websocket_receive w) /\
    forall n, receive_loop (receive_fuel w + n) w = cwist_websocket_receive w.
Proof.
  intros Ho Hok. unfold cwist_websocket_receive. destruct (is_closed w) eqn:Hc; [done|].
  apply (receive_loop_safe _ w open); [done..|unfold receive_fuel; lia].
Qed.

(** A forged length, an allocation that fails and a socket that takes one byte. *)
Lemma receive_safe_witness :
  let w := websocket_new [[130; 254]; [0; 5; 1; 2; 3]; [4; 5]] [SendTook 1; SendFailed] [true; false] in
  (call_safe w (cwist_websocket_receive w) /\
   forall n, receive_loop (receive_fuel w + n) w = cwist_websocket_receive w) /\
  is_closed (cwist_websocket_receive w).2 = true /\ wire (cwist_websocket_receive w).2 = [136].
Proof.
  split; [|vm_compute; split; reflexivity].
  apply (receive_safe (websocket_new [[130; 254]; [0; 5; 1; 2; 3]; [4; 5]]
           [SendTook 1; SendFailed] [true; false]) None).
  - split_and!; reflexivity.
  - apply segs_okb_ok; vm_compute; reflexivity.
Defined.
