(* ===== verification/WsSequenced.v ===== *)
(** * Sequenced messages over a WebSocket

    What [cwist_websocket_send] writes is the minimal encoding of one frame;
    [cwist_websocket_send_sequenced] writes one such frame per chunk, and
    [cwist_websocket_receive_sequenced] puts the chunks together again,
    whatever order the peer sends them in. *)

From S2P Require Import Prelude.
From S2P Require Import Seq.
From S2P Require Import WsFrame.
From S2P Require Import WebSocket.
From S2P Require Import WsSpec.
From S2P Require Import WsReceive.

(** ** Sending *)

(** The frame a send is meant to write. *)
Definition sent_frame (op : Z) (payload : bytes) : rfc_frame :=
  let n := blen payload in
  MkRfc true 0 op (if n <? 126 then Len7 else if n <? 65536 then Len16 else Len64) None payload.

Lemma frame_head_encoding op payload :
  0 <= op < 16 -> blen payload < 18446744073709551616 ->
  let f := sent_frame op payload in
  frame_head op (blen payload) = frame_head_bytes f ++ length_ext f.
Proof.
  intros Hop Hlen f. pose proof (blen_nonneg payload).
  assert (Hb0 : u8 (Z.lor 128 (Z.land op 15)) = 128 + 16 * 0 + op).
  { rewrite (land_mask op 4 15) by (first [lia|reflexivity]). change (2 ^ 4) with 16.
    rewrite (Z.mod_small op) by lia. rewrite (lor_add_above _ _ 4) by (first [lia|reflexivity]).
    rewrite u8_id by (unfold is_u8; lia). lia. }
  unfold frame_head, f, sent_frame, frame_head_bytes, length_ext, length_code.
  rewrite Hb0. cbn [f_fin f_rsv f_op f_key f_form f_payload].
  destruct (Z.ltb_spec (blen payload) 126).
  { rewrite u8_id by (unfold is_u8; lia). done. }
  destruct (Z.ltb_spec (blen payload) 65536).
  - cbn [app]. do 2 f_equal. shifts. cbn [big_endian].
    change (256 ^ Z.of_nat 1) with 256. change (256 ^ Z.of_nat 0) with 1.
    rewrite Z.div_1_r. done.
  - cbn [app map]. do 2 f_equal. cbn [big_endian Z.sub Z.mul Z.add Z.opp Pos.mul Z.pos_sub].
    shifts. cbn. done.
Qed.

Lemma sent_frame_bytes op payload :
  0 <= op < 16 -> blen payload < 18446744073709551616 ->
  server_frame op payload = frame_bytes (sent_frame op payload).
Proof.
  intros Hop Hlen. unfold server_frame. rewrite (frame_head_encoding op payload Hop Hlen).
  unfold frame_bytes. by rewrite <- app_assoc.
Qed.

Definition progressing (out : send_outcome) : Prop :=
  match out with SendTook (S _) | SendInterrupted => True | _ => False end.

(** The loop ends early only where the socket fails. *)
Lemma send_loop_ends outs : forall buf ok sent outs',
  send_loop buf outs = (ok, sent, outs') ->
  exists unsent, buf = sent ++ unsent /\ ok = bool_decide (unsent = []) /\
    (Forall progressing outs -> ok = true /\ Forall progressing outs').
Proof.
  induction outs as [|out outs IH]; intros buf ok sent outs' H.
  { destruct buf; injection H as <- <- <-; exists []; by rewrite ?app_nil_r. }
  destruct buf as [|x buf]; [injection H as <- <- <-; by exists []|].
  assert (Hstop : (ok, sent, outs') = (false, [], outs) -> ~ progressing out ->
    exists unsent, x :: buf = sent ++ unsent /\ ok = bool_decide (unsent = []) /\
    (Forall progressing (out :: outs) -> ok = true /\ Forall progressing outs')).
  { intros [= -> -> ->] Hno. exists (x :: buf). split; [done|].
    split; [done|]. by intros [? _]%list.Forall_cons_1. }
  destruct out as [[|n]| |].
  - apply Hstop; [by rewrite <- H|intros []].
  - cbn [send_loop] in H. destruct (send_loop (drop (S n) (x :: buf)) outs) as [[ok1 s1] o1] eqn:E.
    injection H as <- <- <-. destruct (IH _ _ _ _ E) as (u & Hu & Hok & Hp). exists u.
    split; [|split; [done|]].
    + change (x :: buf = (take (S n) (x :: buf) ++ s1) ++ u). by rewrite <- app_assoc, <- Hu, take_drop.
    + intros [_ H]%list.Forall_cons_1. by apply Hp.
  - destruct (IH (x :: buf) ok sent outs' H) as (u & Hu & Hok & Hp). exists u.
    split; [done|]. split; [done|]. intros [_ Hf]%list.Forall_cons_1. by apply Hp.
  - apply Hstop; [by rewrite <- H|intros []].
Qed.

Definition send_allowed (op len : Z) : bool := rfc_opcode op && ((op <? 8) || (len <=? 125)).

Lemma send_args_rfc op len : cwist_ws_internal_send_args_valid op len = send_allowed op len.
Proof.
  unfold cwist_ws_internal_send_args_valid, send_allowed. rewrite valid_opcode_rfc.
  by destruct (rfc_opcode op).
Qed.

(** The two writes of a send are one. *)
Lemma send_writes w op data len :
  len = blen (sent_data data len) -> len < 18446744073709551616 ->
  is_closed w = false -> send_allowed op len = true ->
  let '(ok, w') := cwist_websocket_send w op data len in
  exists sent unsent outs,
    w' = w <| wire := wire w ++ sent |> <| tx := outs |> /\
    frame_bytes (sent_frame op (sent_data data len)) = sent ++ unsent /\
    ok = bool_decide (unsent = []) /\ (Forall progressing (tx w) -> ok = true /\ Forall progressing outs).
Proof.
  intros Hlen Hmax Hc Ha.
  assert (Hop : 0 <= op < 16).
  { unfold send_allowed in Ha. apply andb_true_iff in Ha as [Ha _]. apply rfc_opcode_cases in Ha. lia. }
  unfold cwist_websocket_send. rewrite Hc, send_args_rfc, Ha.
  assert (Hnull : bool_decide (data = None) && (0 <? len) = false).
  { destruct data; [by rewrite bool_decide_eq_false_2|]. apply andb_false_iff. right.
    rewrite Hlen. unfold sent_data. cbn [from_option]. by rewrite take_nil. }
  rewrite Hnull. cbn [orb negb]. fold (sent_data data len).
  rewrite Hlen in Hmax. set (d := sent_data data len) in *. clearbody d. subst len.
  rewrite <- (sent_frame_bytes op d Hop Hmax). unfold server_frame, ws_send_all at 1.
  destruct (send_loop (frame_head op (blen d)) (tx w)) as [[ok1 s1] o1] eqn:E1.
  destruct (send_loop_ends _ _ _ _ _ E1) as (u1 & Eu1 & -> & Hp1). rewrite Eu1.
  destruct (bool_decide_reflect (u1 = [])) as [Eu|Hu1]; cbn [negb].
  2: { exists s1, (u1 ++ d), o1. split; [done|]. split; [by rewrite <- app_assoc|].
       split; [symmetry; apply bool_decide_eq_false_2; intros [? _]%app_eq_nil; done|]. exact Hp1. }
  rewrite Eu, app_nil_r. destruct (Z.ltb_spec 0 (blen d)) as [Hd|Hd].
  2: { assert (d = []) as -> by (apply length_zero_iff_nil; unfold blen in Hd; lia).
       exists s1, [], o1. by split_and!. }
  unfold ws_send_all. cbn [tx wire set_field].
  change (tx (w <| wire := wire w ++ s1 |> <| tx := o1 |>)) with o1.
  destruct (send_loop d o1) as [[ok2 s2] o2] eqn:E2.
  destruct (send_loop_ends _ _ _ _ _ E2) as (u2 & Eu2 & -> & Hp2).
  exists (s1 ++ s2), u2, o2. split; [cbn; by rewrite app_assoc|].
  split; [by rewrite <- app_assoc, <- Eu2|]. split; [done|]. intros H. by apply Hp2, Hp1.
Qed.

(** A send is refused, and writes nothing, on a closed connection and for
    frames the protocol forbids.  Otherwise it writes the one minimal, unmasked
    encoding of the final frame, whatever short and interrupted writes the
    socket makes of it, and returns true exactly when all of it was written;
    a socket that keeps taking bytes makes it succeed. *)
Theorem send_exact w op data len :
  len = blen (sent_data data len) -> len < 18446744073709551616 -> bytes_ok (sent_data data len) ->
  let '(ok, w') := cwist_websocket_send w op data len in
  if is_closed w || negb (send_allowed op len) then ok = false /\ w' = w
  else
    let f := sent_frame op (sent_data data len) in
    frame_wf f /\ minimal_form f = true /\
    exists sent unsent outs,
      w' = w <| wire := wire w ++ sent |> <| tx := outs |> /\ frame_bytes f = sent ++ unsent /\
      ok = bool_decide (unsent = []) /\ (Forall progressing (tx w) -> ok = true).
Proof.
  intros Hlen Hmax Hok. destruct (is_closed w || negb (send_allowed op len)) eqn:E.
  { unfold cwist_websocket_send. rewrite send_args_rfc.
    destruct (is_closed w); [done|]. cbn [orb] in *. rewrite E, orb_true_r. done. }
  apply orb_false_iff in E as [Hc Ha]. apply negb_false_iff in Ha.
  pose proof (send_writes w op data len Hlen Hmax Hc Ha) as H.
  destruct (cwist_websocket_send w op data len) as [ok w'].
  destruct H as (sent & unsent & outs & Hw & Hb & Hk & Hp).
  set (d := sent_data data len) in *. pose proof (blen_nonneg d).
  unfold send_allowed in Ha. apply andb_true_iff in Ha as [Ha _]. apply rfc_opcode_cases in Ha.
  split; [|split].
  - unfold frame_wf, sent_frame, form_limit. cbn [f_rsv f_op f_payload f_form f_key].
    split; [lia|]. split; [lia|]. split; [|done].
    destruct (Z.ltb_spec (blen d) 126); [done|]. destruct (Z.ltb_spec (blen d) 65536); lia.
  - unfold minimal_form, sent_frame. cbn [f_form f_payload].
    destruct (Z.ltb_spec (blen d) 126); [done|]. destruct (Z.ltb_spec (blen d) 65536); lia.
  - exists sent, unsent, outs. split_and!; [done..|]. intros Hf. by apply Hp.
Qed.

(** The chunks, a frame each. *)
Definition chunk_frames (chunks : list bytes) : bytes :=
  concat (map (fun c => frame_bytes (sent_frame 2 c)) chunks).

Lemma send_chunks_writes chunks : forall w,
  is_closed w = false -> Forall (fun c => blen c < 18446744073709551616) chunks ->
  let '(ok, w') := send_chunks (combine chunks (map blen chunks)) w in
  exists sent unsent outs,
    w' = w <| wire := wire w ++ sent |> <| tx := outs |> /\
    chunk_frames chunks = sent ++ unsent /\
    (ok = true -> unsent = []) /\ (Forall progressing (tx w) -> ok = true).
Proof.
  induction chunks as [|c chunks IH]; intros w Hc Hl; cbn [map combine send_chunks].
  { exists [], [], (tx w). split; [destruct w; cbn; by rewrite app_nil_r|]. done. }
  apply list.Forall_cons_1 in Hl as [Hlc Hl].
  assert (Hd : sent_data (Some c) (blen c) = c).
  { unfold sent_data, blen. rewrite Nat2Z.id. apply firstn_all. }
  pose proof (send_writes w 2 (Some c) (blen c)) as H. rewrite Hd in H.
  specialize (H eq_refl Hlc Hc eq_refl). unfold CWIST_WS_FRAME_BINARY.
  destruct (cwist_websocket_send w 2 (Some c) (blen c)) as [ok w1].
  destruct H as (s1 & u1 & o1 & -> & E1 & -> & Hp1). unfold chunk_frames. cbn [map concat]. rewrite E1.
  destruct (bool_decide_reflect (u1 = [])) as [Eu|Hu].
  - set (w1 := w <| wire := wire w ++ s1 |> <| tx := o1 |>).
    specialize (IH w1 Hc Hl). destruct (send_chunks _ w1) as [ok w2].
    destruct IH as (s2 & u2 & o2 & -> & E2 & Hok & Hp2). fold (chunk_frames chunks). rewrite E2, Eu, app_nil_r.
    exists (s1 ++ s2), u2, o2. split; [cbn; by rewrite app_assoc|]. split; [by rewrite app_assoc|].
    split; [done|]. intros H. by apply Hp2, Hp1.
  - exists s1, (u1 ++ chunk_frames chunks), o1. split; [done|].
    split; [by rewrite <- app_assoc|]. split; [done|]. intros H. by apply Hp1.
Qed.

Lemma genuine_chunk_short d cps msg c :
  split_facts d cps msg -> c ∈ msg.(msg_chunks) -> blen c <= 65543 /\ 8 < blen c.
Proof.
  intros Hs Hin. rewrite (sf_chunks _ _ _ Hs) in Hin.
  apply list_elem_of_fmap in Hin as (k & -> & Hk%elem_of_seq). destruct Hs.
  unfold genuine_chunk. rewrite blen_app. unfold cwist_seq_chunk_build_header, seq_write_u16.
  assert (Hp : 0 < blen (genuine_part d cps k) <= cps).
  { unfold blen in *. rewrite genuine_part_length by lia.
    assert (Z.of_nat k * cps <= (msg_count msg - 1) * cps) by nia. lia. }
  change (blen ([_; _] ++ [_; _] ++ [_; _] ++ [_; _])) with 8. lia.
Qed.

(** ** Receiving *)

(** A frame that is a whole message and leaves the connection as it is. *)
Definition plain (f : rfc_frame) : Prop :=
  exists reply, rfc_step None f = Deliver (f_op f) (f_payload f) reply false None.

(** The payloads that may be chunks. *)
Definition binaries (fs : list rfc_frame) : list bytes :=
  omap (fun f => if (f_op f =? 2) && (0 <? blen (f_payload f)) then Some (f_payload f) else None) fs.

Definition feed_all (bufs : list bytes) (a : cwist_seq_assembler) : cwist_seq_assembler :=
  (asm_run (feed_buffers bufs) a []).1.2.

Lemma spec_feed_lucky s c : (spec_feed s c []).2 = [].
Proof.
  unfold spec_feed. destruct (negb _); [done|]. destruct (ck_payload c); [|done].
  destruct (sp_layout s); [by destruct (bool_decide _)|]. by destruct (_ <? _).
Qed.

Lemma feed_lucky a s c :
  asm_repr a s -> chunk_ok c ->
  exists b a', cwist_seq_assembler_feed a c [] = (b, a', []) /\ exists s', asm_repr a' s'.
Proof.
  intros Ha Hc. pose proof (feed_refines a s c [] Ha Hc) as H. pose proof (spec_feed_lucky s c) as Ho.
  destruct (cwist_seq_assembler_feed a c []) as [[b a'] o], (spec_feed s c []) as [[b' s'] o'].
  cbn [snd] in Ho. destruct H as (_ & -> & H). exists b, a'. split; [by rewrite Ho|by exists s'].
Qed.

(** A received frame feeds its payload. *)
Lemma feed_frame_spec a s f p :
  asm_repr a s -> holds p (f_payload f) ->
  exists a' s', feed_frame a (MkFrame true (f_op f) p (blen (f_payload f))) [] = (a', []) /\
    asm_repr a' s' /\ forall bufs, feed_all (binaries [f] ++ bufs) a = feed_all bufs a'.
Proof.
  intros Ha Hp. unfold feed_frame, binaries. cbn [fr_payload fr_opcode fr_payload_len omap list_omap].
  unfold CWIST_WS_FRAME_BINARY.
  pose proof (holds_take_blen p _ Hp) as Ht.
  destruct p as [b|]; cbn in Hp.
  2: { rewrite Hp. exists a, s. rewrite andb_false_r. by split_and!. }
  cbn [from_option id] in Ht. rewrite Ht. destruct ((f_op f =? 2) && (0 <? blen (f_payload f))).
  2: { exists a, s. by split_and!. }
  pose proof (chunk_of_spec (f_payload f)) as Hok. unfold feed_all, feed_buffers. cbn [app omap list_omap].
  unfold chunk_of in *. destruct (cwist_seq_chunk_parse _ _) as [[] oc].
  2: { exists a, s. by split_and!. }
  destruct oc as [c|]; [|exists a, s; by split_and!].
  destruct (Hok c eq_refl) as [Hc _].
  destruct (feed_lucky a s c Ha Hc) as (r & a' & E & s' & Ha'). rewrite E.
  exists a', s'. split; [done|]. split; [done|]. intros bufs. cbn [map asm_run]. rewrite E.
  by destruct (asm_run _ a' []) as [[bs a2] o2].
Qed.

Lemma plain_open f : plain f -> f_op f <> 8.
Proof.
  intros [reply H] E. unfold rfc_step, rfc_data, rfc_finish in H. rewrite E in H. cbn [Z.eqb Z.leb Pos.eqb] in H.
  destruct (_ || _ || _); [done|]. destruct (negb _); [done|]. destruct (_ || _); [done|].
  change (8 <=? 8) with true in H. cbn [andb] in H. destruct (f_fin f); [|done].
  by destruct (rfc_close_error (f_payload f)).
Qed.

(** The connection between two messages. *)
Record between (w : cwist_websocket) (fs : list rfc_frame) (tail : bytes) : Prop := {
  bw_open : ws_open w None; bw_closed : is_closed w = false; bw_mem : mem w = [];
  bw_ok : Forall bytes_ok (rx w); bw_avail : avail (rx w) = concat (map frame_bytes fs) ++ tail }.

Lemma receive_plain f fs tail w :
  between w (f :: fs) tail -> Forall frame_wf (f :: fs) -> plain f -> no_frame tail ->
  exists p w', cwist_websocket_receive w = (Some (MkFrame true (f_op f) p (blen (f_payload f))), w') /\
    holds p (f_payload f) /\ between w' fs tail.
Proof.
  intros [Ho Hc Hm Hok Ha] Hwf [reply Hf] Htail.
  pose proof (receive_spec w None (f :: fs) tail Ho Hc Hok Hwf Htail Ha) as H.
  unfold received in H. cbn [rfc_receive] in H. rewrite Hf in H.
  destruct (cwist_websocket_receive w) as [fr w']. destruct H as (Hm' & _ & Hok' & H).
  destruct H as [[[Hc' _] [(p & -> & Hp) [Ho' Ha']]]|[Hne _]]; [|done].
  exists p, w'. split; [done|]. split; [done|]. constructor; auto.
Qed.

Lemma receive_ended tail w :
  between w [] tail -> no_frame tail ->
  exists w', cwist_websocket_receive w = (None, w') /\ mem w' = [].
Proof.
  intros [Ho Hc Hm Hok Ha] Htail.
  pose proof (receive_spec w None [] tail Ho Hc Hok ltac:(constructor) Htail Ha) as H.
  unfold received in H. cbn [rfc_receive] in H.
  destruct (cwist_websocket_receive w) as [fr w']. destruct H as (Hm' & _ & _ & -> & _).
  exists w'. auto.
Qed.

(** The loop feeds the binary payloads in order, until the message is whole or
    nothing comes any more. *)
Lemma sequenced_loop_spec fs tail : forall fuel a s w,
  asm_repr a s -> between w fs tail -> Forall frame_wf fs -> Forall plain fs -> no_frame tail ->
  (length fs < fuel)%nat ->
  let (a', w') := sequenced_loop fuel a w in
  mem w' = [] /\ exists pre, pre `prefix_of` binaries fs /\ a' = feed_all pre a /\
    (cwist_seq_assembler_is_complete a' = true \/ pre = binaries fs).
Proof.
  induction fs as [|f fs IH]; intros fuel a s w Ha Hw Hwf Hpl Htail Hf;
    (destruct fuel as [|fuel]; [cbn in Hf; lia|]); cbn [sequenced_loop];
    (destruct (cwist_seq_assembler_is_complete a) eqn:Hcomp;
      [split; [by destruct Hw|]; exists []; split_and!; [apply prefix_nil|done|by left]|]).
  { destruct (receive_ended tail w Hw Htail) as (w' & -> & Hm). split; [done|]. exists [].
    split_and!; [done|done|by right]. }
  apply list.Forall_cons_1 in Hpl as [Hpf Hpl].
  destruct (receive_plain f fs tail w Hw Hwf Hpf Htail) as (p & w' & -> & Hp & Hw').
  apply list.Forall_cons_1 in Hwf as [_ Hwf]. rewrite (bw_mem _ _ _ Hw').
  destruct (feed_frame_spec a s f p Ha Hp) as (a1 & s1 & -> & Ha1 & Hfeed).
  cbn [fr_opcode]. unfold CWIST_WS_FRAME_CLOSE.
  destruct (Z.eqb_spec (f_op f) 8) as [E|_]; [by apply plain_open in Hpf|].
  set (w1 := w' <| mem := [] |>).
  assert (Hw1 : between w1 fs tail) by by destruct Hw'.
  pose proof (IH fuel a1 s1 w1 Ha1 Hw1 Hwf Hpl Htail ltac:(cbn in Hf; lia)) as H.
  destruct (sequenced_loop fuel a1 w1) as [a' w2]. destruct H as (Hm & pre & Hpre & -> & H).
  split; [done|]. exists (binaries [f] ++ pre).
  assert (E : binaries (f :: fs) = binaries [f] ++ binaries fs).
  { unfold binaries. cbn [omap list_omap]. by destruct ((f_op f =? 2) && _). }
  rewrite E, Hfeed. split; [by apply prefix_app|]. split; [done|].
  destruct H as [H| ->]; [by left|by right].
Qed.

(** A fresh assembler fed a genuine chunk first and nothing that contradicts
    the message. *)
Lemma fed_message d cps msg g bufs a :
  split_facts d cps msg -> msg.(msg_count) * cps <= CWIST_SEQ_MAX_REASSEMBLED_SIZE ->
  cwist_seq_assembler_create [] = (Some a, []) -> g ∈ msg.(msg_chunks) ->
  existsb (contradicts d msg.(msg_count) cps) (g :: bufs) = false ->
  let a' := feed_all (g :: bufs) a in
  let missing := filter (fun k => existsb (carries msg.(msg_count) cps k) (g :: bufs) = false)
                   (seq 0 (Z.to_nat msg.(msg_count))) in
  cwist_seq_assembler_is_complete a' = bool_decide (missing = []) /\
  (missing = [] -> cwist_seq_assembler_get_data a' = Some d).
Proof.
  intros Hs Hfit Hcreate Hg Hcon. rewrite (sf_chunks _ _ _ Hs) in Hg.
  apply list_elem_of_fmap in Hg as (k & -> & Hk%elem_of_seq).
  destruct (tracks_fresh d cps msg k 0 bufs Hs) as (bs & s & Hrun & seen & Ht & Hseen);
    [lia|done|].
  pose proof (assembler_steps _ 0 _ _ _ Hcreate (feed_buffers_ok
    (genuine_chunk d cps (msg_count msg) k :: bufs))) as H. cbv zeta. unfold feed_all.
  rewrite Hrun in H. destruct (asm_run _ a []) as [[bs' a'] o1]. destruct H as (_ & _ & H).
  cbn [fst snd]. rewrite (complete_refines _ _ H), (data_refines _ _ H).
  destruct (agreeing_queries d cps msg _ seen s Hs Ht Hseen Hcon) as (_ & E2 & E3).
  split; [done|]. intros Hm. unfold spec_data. rewrite E2, bool_decide_eq_true_2 by done.
  by rewrite E3.
Qed.

Lemma none_missing d cps msg bufs :
  split_facts d cps msg -> (forall b, b ∈ msg.(msg_chunks) -> b ∈ bufs) ->
  filter (fun k => existsb (carries msg.(msg_count) cps k) bufs = false)
    (seq 0 (Z.to_nat msg.(msg_count))) = [].
Proof.
  intros Hs Hall. destruct (filter _ _) as [|k ks] eqn:Ef; [done|exfalso].
  assert (Hk : k ∈ k :: ks) by by left. rewrite <- Ef in Hk.
  apply list_elem_of_filter in Hk as [H Hk%elem_of_seq].
  destruct (genuine_chunk_of d cps msg k Hs ltac:(lia)) as (c & E & Hl & Hi & _).
  apply not_true_iff_false in H. apply H, existsb_exists.
  exists (genuine_chunk d cps msg.(msg_count) k). split.
  - apply list_elem_of_In, Hall. rewrite (sf_chunks _ _ _ Hs).
    apply list_elem_of_fmap. exists k. split; [done|]. apply elem_of_seq. lia.
  - unfold carries. rewrite E, Hl. by apply Nat.eqb_eq.
Qed.

(** Where the loop stops, the message is whole. *)
Lemma loop_message d cps msg g rest pre a :
  split_facts d cps msg -> msg.(msg_count) * cps <= CWIST_SEQ_MAX_REASSEMBLED_SIZE ->
  cwist_seq_assembler_create [] = (Some a, []) -> g ∈ msg.(msg_chunks) ->
  (forall b, b ∈ msg.(msg_chunks) -> b ∈ g :: rest) ->
  existsb (contradicts d msg.(msg_count) cps) (g :: rest) = false ->
  pre `prefix_of` g :: rest ->
  cwist_seq_assembler_is_complete (feed_all pre a) = true \/ pre = g :: rest ->
  cwist_seq_assembler_get_data (feed_all pre a) = Some d.
Proof.
  intros Hs Hfit Hcreate Hg Hall Hcon [suf Hpre] Hend. destruct pre as [|g' pre].
  { destruct Hend as [Hend|]; [|done]. by injection Hcreate as <-. }
  injection Hpre as <- ->.
  assert (Hcon' : existsb (contradicts d msg.(msg_count) cps) (g :: pre) = false).
  { change (g :: pre ++ suf) with ((g :: pre) ++ suf) in Hcon. rewrite existsb_app in Hcon.
    by apply orb_false_iff in Hcon as [? _]. }
  destruct (fed_message d cps msg g pre a Hs Hfit Hcreate Hg Hcon') as [Hc Hd]. apply Hd.
  destruct Hend as [Hend|Hend].
  - rewrite Hc in Hend. by apply bool_decide_eq_true in Hend.
  - rewrite Hend. by apply (none_missing d).
Qed.

Lemma length_avail segs : (length (avail segs) <= length (concat segs))%nat.
Proof.
  induction segs as [|[|x seg] segs IH]; cbn [avail concat app length]; [lia|lia|].
  rewrite !length_app. lia.
Qed.
Lemma length_frames fs : (length fs <= length (concat (map frame_bytes fs)))%nat.
Proof.
  induction fs as [|f fs IH]; [done|]. cbn [map concat length]. rewrite length_app.
  pose proof (frame_bytes_long f). lia.
Qed.

Lemma send_sequenced_writes d cps msg ws o' :
  is_u16 cps -> cwist_seq_split (Some d) cps (mem ws) = (true, msg, o') -> is_closed ws = false ->
  let (ok, ws') := cwist_websocket_send_sequenced ws (Some d) cps in
  exists sent unsent, wire ws' = wire ws ++ sent /\ chunk_frames msg.(msg_chunks) = sent ++ unsent /\
    (ok = true -> unsent = []) /\ (Forall progressing (tx ws) -> ok = true).
Proof.
  intros Hc Hsplit Hcs. pose proof (split_spec _ _ _ _ _ Hc Hsplit) as Hs.
  assert (Hd : 0 < blen d) by (destruct Hs; nia).
  unfold cwist_websocket_send_sequenced. rewrite Hcs, Hsplit.
  destruct (Z.eqb_spec (blen d) 0); [lia|]. destruct (Z.eqb_spec cps 0); [destruct Hs; lia|].
  cbn [orb]. rewrite (sf_lens _ _ _ Hs). set (w1 := ws <| mem := o' |>).
  pose proof (send_chunks_writes msg.(msg_chunks) w1 Hcs) as H.
  destruct (send_chunks _ w1) as [ok ws']. destruct H as (sent & unsent & outs & -> & H).
  - apply list.Forall_forall. intros c Hin. pose proof (genuine_chunk_short d cps msg c Hs Hin). lia.
  - by exists sent, unsent.
Qed.

Lemma receive_sequenced_whole d cps msg w fs tail g rest :
  split_facts d cps msg -> msg.(msg_count) * cps <= CWIST_SEQ_MAX_REASSEMBLED_SIZE ->
  between w fs tail -> Forall frame_wf fs -> Forall plain fs -> no_frame tail ->
  binaries fs = g :: rest -> g ∈ msg.(msg_chunks) ->
  (forall b, b ∈ msg.(msg_chunks) -> b ∈ g :: rest) ->
  existsb (contradicts d msg.(msg_count) cps) (g :: rest) = false ->
  exists w', cwist_websocket_receive_sequenced w = (Some (d ++ [0], blen d), w').
Proof.
  intros Hs Hfit Hw Hwf Hpl Htail Hbin Hg Hall Hcon.
  assert (Hd : 0 < blen d) by (destruct Hs; nia).
  unfold cwist_websocket_receive_sequenced. rewrite (bw_closed _ _ _ Hw), (bw_mem _ _ _ Hw).
  destruct (cwist_seq_assembler_create []) as [[a|] oa] eqn:Hcreate; [|done].
  assert (oa = []) as -> by (by injection Hcreate as _ <-). cbv zeta.
  set (w1 := w <| mem := [] |>). assert (Hw1 : between w1 fs tail) by by destruct Hw.
  assert (Ha : asm_repr a (spec_empty 0)).
  { by pose proof (assembler_steps [] 0 _ _ _ Hcreate (list.Forall_nil_2 _)) as (_ & _ & H). }
  pose proof (sequenced_loop_spec fs tail (receive_fuel w1) a _ w1 Ha Hw1 Hwf Hpl Htail) as H.
  destruct (sequenced_loop (receive_fuel w1) a w1) as [a' w2].
  destruct H as (Hm & pre & Hpre & -> & Hend).
  { unfold receive_fuel. pose proof (length_avail (rx w1)). pose proof (length_frames fs).
    rewrite (bw_avail _ _ _ Hw1), length_app in H. lia. }
  rewrite Hbin in Hpre, Hend.
  rewrite (loop_message d cps msg g rest pre a Hs Hfit Hcreate Hg Hall Hcon Hpre Hend).
  destruct (Z.ltb_spec 0 (blen d)); [|lia]. unfold ws_alloc. rewrite Hm. by eexists.
Qed.

(** C30: A message sent in sequence survives the connection.  The sender writes
    one frame per chunk, in order, all of them when the socket keeps taking
    bytes and a prefix otherwise.  The receiver, given the chunks in any order
    and any number of copies, as the peer masks and frames them, between other
    messages that do not contradict them, returns the message byte for byte
    with a terminator and its length. *)
Theorem sequenced_roundtrip d cps msg o' ws w fs tail g rest :
  is_u16 cps -> cwist_seq_split (Some d) cps (mem ws) = (true, msg, o') -> is_closed ws = false ->
  msg.(msg_count) * cps <= CWIST_SEQ_MAX_REASSEMBLED_SIZE ->
  between w fs tail -> Forall frame_wf fs -> Forall plain fs -> no_frame tail ->
  binaries fs = g :: rest -> g ∈ msg.(msg_chunks) ->
  (forall b, b ∈ msg.(msg_chunks) -> b ∈ g :: rest) ->
  existsb (contradicts d msg.(msg_count) cps) (g :: rest) = false ->
  (let (ok, ws') := cwist_websocket_send_sequenced ws (Some d) cps in
   exists sent unsent, wire ws' = wire ws ++ sent /\ chunk_frames msg.(msg_chunks) = sent ++ unsent /\
     (ok = true -> unsent = []) /\ (Forall progressing (tx ws) -> ok = true)) /\
  exists w', cwist_websocket_receive_sequenced w = (Some (d ++ [0], blen d), w').
Proof.
  intros Hc Hsplit Hcs Hfit Hw Hwf Hpl Htail Hbin Hg Hall Hcon. split.
  - by eapply send_sequenced_writes.
  - by eapply receive_sequenced_whole; [eapply split_spec|..].
Qed.

(** A ping's answer, interrupted and written in pieces. *)
Lemma send_exact_witness :
  let w := websocket_new [] [SendTook 1; SendInterrupted; SendTook 2] [] in
  let '(ok, w') := cwist_websocket_send w 10 (Some (bs "hi")) 2 in
  let f := sent_frame 10 (bs "hi") in
  frame_wf f /\ minimal_form f = true /\
  exists sent unsent outs,
    w' = w <| wire := wire w ++ sent |> <| tx := outs |> /\ frame_bytes f = sent ++ unsent /\
    ok = bool_decide (unsent = []) /\ (Forall progressing (tx w) -> ok = true).
Proof.
  apply (send_exact (websocket_new [] [SendTook 1; SendInterrupted; SendTook 2] []) 10 (Some (bs "hi")) 2).
  - reflexivity.
  - reflexivity.
  - apply bytes_okb_ok. reflexivity.
Defined.

Abbreviation demo_split := (cwist_seq_split (Some (bs "hello world")) 4 []).
Abbreviation demo_chunks := (msg_chunks demo_split.1.2).
Abbreviation demo_order :=
  [demo_frame true 2 (nth 2 demo_chunks []); demo_frame true 9 (bs "?");
   demo_frame true 2 (nth 0 demo_chunks []); demo_frame true 2 (nth 2 demo_chunks []);
   demo_frame true 2 (nth 1 demo_chunks []); demo_frame true 1 (bs "later")].

(** Chunks backwards, one of them twice, a ping in between. *)
Lemma sequenced_roundtrip_witness :
  let ws := websocket_new [] [SendTook 7; SendInterrupted] [] in
  let w := websocket_new [concat (map frame_bytes demo_order)] [] [] in
  (let (ok, ws') := cwist_websocket_send_sequenced ws (Some (bs "hello world")) 4 in
   exists sent unsent, wire ws' = wire ws ++ sent /\ chunk_frames demo_chunks = sent ++ unsent /\
     (ok = true -> unsent = []) /\ (Forall progressing (tx ws) -> ok = true)) /\
  exists w', cwist_websocket_receive_sequenced w = (Some (bs "hello world" ++ [0], 11), w').
Proof.
  apply (sequenced_roundtrip (bs "hello world") 4 demo_split.1.2 []
    (websocket_new [] [SendTook 7; SendInterrupted] []) _ demo_order [] (nth 2 demo_chunks [])
    [nth 0 demo_chunks []; nth 2 demo_chunks []; nth 1 demo_chunks []]).
  - unfold is_u16. lia.
  - vm_compute. reflexivity.
  - reflexivity.
  - vm_compute. discriminate.
  - constructor; [split_and!; reflexivity|reflexivity|reflexivity| |vm_compute; reflexivity].
    apply segs_okb_ok; vm_compute; reflexivity.
  - apply frames_okb_wf; vm_compute; reflexivity.
  - repeat constructor; eexists; vm_compute; reflexivity.
  - apply no_frame_nil.
  - vm_compute. reflexivity.
  - vm_compute. apply list_elem_of_In. cbn. auto.
  - apply (list.Forall_forall (fun b => b ∈ [nth 2 demo_chunks []; nth 0 demo_chunks [];
      nth 2 demo_chunks []; nth 1 demo_chunks []])). vm_compute.
    repeat constructor; apply list_elem_of_In; cbn; auto.
  - vm_compute. reflexivity.
Defined.
