(* ===== verification/WsAsync.v ===== *)
(** * WebSocket connections on the reactor (net/websocket/websocket_async.c)

    The non-blocking path: bytes are stashed as they come, complete frames are
    taken off the stash, messages go to the application's callback, and what
    the socket does not take is parked until it is writable again.

    The application is a function from the messages delivered so far to the
    calls its callback makes.  The reactor keeps one read slot and one write
    slot for the socket, as its io_uring backend does: a slot fires once, and
    [cwist_reactor_del] cancels both. *)

From S2P Require Import Prelude.
From S2P Require Import WsFrame.
From S2P Require Import WebSocket.

(** ** Data *)

Definition WS_ASYNC_MAX_PAYLOAD_BYTES : Z := 16777216.
Definition WS_ASYNC_MAX_MESSAGE_BYTES : Z := 67108864.
Definition WS_ASYNC_PARK_DEADLINE_SEC : Z := 30.

Inductive recv_outcome := RecvData (b : bytes) | RecvEof | RecvInterrupted | RecvAgain | RecvFailed.
(** [SAgain] is EAGAIN; [SFailed] any other error, and 0. *)
Inductive asend_outcome := STook (n : nat) | SInterrupted | SAgain | SFailed.

(** [off] bytes of [node_buf] are sent. *)
Record ws_async_park_node := MkNode { node_buf : bytes; node_off : nat }.

(** The structure in two parts.  Receiving: [stash] and [frag] are the used
    parts of their buffers, [None] is NULL; [stash_cap] and [wfrag_cap] their
    sizes. *)
Record async_rx := MkRx {
  stash : bytes; stash_cap : Z;
  frag : option bytes; wfrag_cap : Z; wfrag_opcode : Z; frag_active : bool }.
#[export] Instance async_rx_fields : Fields async_rx := fun r =>
  MkRx r.(stash) r.(stash_cap) r.(frag) r.(wfrag_cap) r.(wfrag_opcode) r.(frag_active).

(** Sending and the connection's life, with what the socket will take ([sends])
    and has taken ([awire]), the allocations and registrations to come, the
    clock, the reactor's slots, the messages delivered, the teardowns, and the
    frames that were to be queued: opcode, payload and what the call returned. *)
Record async_io := MkIo {
  park : list ws_async_park_node; parked_bytes : Z; park_deadline_sec : Z; last_active_sec : Z;
  closed : bool; closing : bool; terminate_pending : bool; read_armed : bool; write_armed : bool;
  sends : list asend_outcome; awire : bytes; amem : oracle; arms : oracle; now : Z;
  read_slot : bool; write_slot : bool; delivered : list cwist_ws_frame; torn_down : nat;
  queued : list (Z * bytes * Z) }.
#[export] Instance async_io_fields : Fields async_io := fun w =>
  MkIo w.(park) w.(parked_bytes) w.(park_deadline_sec) w.(last_active_sec)
    w.(closed) w.(closing) w.(terminate_pending) w.(read_armed) w.(write_armed)
    w.(sends) w.(awire) w.(amem) w.(arms) w.(now)
    w.(read_slot) w.(write_slot) w.(delivered) w.(torn_down) w.(queued).

Definition cwist_websocket_async : Type := async_rx * async_io.

Definition frag_bytes (r : async_rx) : bytes := default [] r.(frag).

Definition async_alloc (w : async_io) : bool * async_io :=
  let (ok, o) := alloc w.(amem) in (ok, w <| amem := o |>).

(** Registering a slot fails as [arms] says. *)
Definition reactor_add (w : async_io) : bool * async_io :=
  let (ok, o) := alloc w.(arms) in
  (ok, if ok then w <| arms := o |> <| read_slot := true |> else w <| arms := o |>).
Definition reactor_add_out (w : async_io) : bool * async_io :=
  let (ok, o) := alloc w.(arms) in
  (ok, if ok then w <| arms := o |> <| write_slot := true |> else w <| arms := o |>).
Definition reactor_del (w : async_io) : async_io :=
  w <| read_slot := false |> <| write_slot := false |>.

(** ** Parked writes *)

Definition ws_async_serialize_frame (opcode : Z) (data : option bytes) (len : Z)
  (w : async_io) : option bytes * async_io :=
  let (ok, w) := async_alloc w in
  (if ok then Some (frame_head opcode len ++ take (Z.to_nat len) (default [] data)) else None, w).

(** The loop: 0 drained, 1 the socket is full, -1 an error; whether anything
    was sent, what is left, the bytes sent.  When the outcomes run out the
    kernel takes everything. *)
Fixpoint park_drain_loop (outs : list asend_outcome) (q : list ws_async_park_node)
  : Z * bool * list ws_async_park_node * bytes * list asend_outcome :=
  match q with
  | [] => (0, false, [], [], outs)
  | MkNode buf off :: rest =>
      match outs with
      | [] => (0, true, [], concat (map (fun n => drop n.(node_off) n.(node_buf)) q), [])
      | STook O :: outs | SFailed :: outs => (-1, false, q, [], outs)
      | SInterrupted :: outs => park_drain_loop outs q
      | SAgain :: outs => (1, false, q, [], outs)
      | STook n :: outs =>
          let n := Nat.min n (length buf - off) in
          let q := if (off + n =? length buf)%nat then rest else MkNode buf (off + n) :: rest in
          let '(rc, _, q, sent, outs) := park_drain_loop outs q in
          (rc, true, q, sub buf off n ++ sent, outs)
      end
  end.
Definition ws_async_park_drain (w : async_io) : Z * bool * async_io :=
  let '(rc, made_progress, q, sent, outs) := park_drain_loop w.(sends) w.(park) in
  (rc, made_progress,
   w <| park := q |> <| parked_bytes := u64 (w.(parked_bytes) - blen sent) |>
     <| awire := w.(awire) ++ sent |> <| sends := outs |>).

Definition ws_async_park_deadline (w : async_io) : Z :=
  u32 (w.(now) + WS_ASYNC_PARK_DEADLINE_SEC).
Definition ws_async_touch (w : async_io) : async_io :=
  w <| last_active_sec := w.(now) |>.

Section async.
(** The two settings read from the environment, and the application. *)
Context (park_limit idle_timeout : Z).

Definition queue_frame_rc (opcode : Z) (data : option bytes) (len : Z)
  (w : async_io) : Z * async_io :=
  if negb (cwist_ws_internal_send_args_valid opcode len) then (-1, w)
  else
    match ws_async_serialize_frame opcode data len w with
    | (None, w) => (-1, w)
    | (Some frame, w) =>
        if (park_limit <? blen frame) || (park_limit - blen frame <? w.(parked_bytes)) then (1, w)
        else
          let (ok, w) := async_alloc w in
          if negb ok then (-1, w)
          else
            let w := w <| park := w.(park) ++ [MkNode frame 0] |>
                       <| parked_bytes := u64 (w.(parked_bytes) + blen frame) |> in
            let '(drain_rc, _, w) := ws_async_park_drain w in
            if drain_rc <? 0 then (-1, w)
            else if drain_rc =? 0 then (0, ws_async_touch w)
            else
              let w := w <| park_deadline_sec := ws_async_park_deadline w |> in
              if w.(write_armed) then (0, w)
              else
                let (ok, w) := reactor_add_out w in
                if ok then (0, w <| write_armed := true |>) else (-1, w)
    end.
(** [ws_async_queue_frame], with the call recorded. *)
Definition ws_async_queue_frame (opcode : Z) (data : option bytes) (len : Z)
  (w : async_io) : Z * async_io :=
  let (rc, w) := queue_frame_rc opcode data len w in
  (rc, w <| queued := w.(queued) ++ [(opcode, sent_data data len, rc)] |>).

Definition cwist_websocket_async_send (opcode : Z) (data : option bytes) (len : Z)
  (w : async_io) : Z * async_io :=
  if w.(closed) || (bool_decide (data = None) && (0 <? len)) then (-1, w)
  else ws_async_queue_frame opcode data len w.

(** Both close calls: the frame, then termination now or after draining. *)
Definition close_frame_queued (r : Z * async_io) : async_io :=
  let (rc, w) := r in
  if negb (rc =? 0) then w <| terminate_pending := true |>
  else if w.(parked_bytes) =? 0 then w <| terminate_pending := true |>
  else w.
Definition cwist_websocket_async_close (w : async_io) : async_io :=
  if w.(closed) then w
  else close_frame_queued
         (ws_async_queue_frame CWIST_WS_FRAME_CLOSE None 0 (w <| closed := true |>)).
Definition cwist_websocket_async_close_code (code : Z) (w : async_io)
  : async_io :=
  if w.(closed) then w
  else close_frame_queued
         (ws_async_queue_frame CWIST_WS_FRAME_CLOSE (Some [u8 (Z.shiftr code 8); u8 (Z.land code 255)]) 2
            (w <| closed := true |>)).

(** ** The application *)

Inductive app_call := AppSend (opcode : Z) (data : option bytes) (len : Z) | AppClose | AppCloseCode (code : Z).
Definition run_call (c : app_call) (w : async_io) : async_io :=
  match c with
  | AppSend opcode data len => (cwist_websocket_async_send opcode data len w).2
  | AppClose => cwist_websocket_async_close w
  | AppCloseCode code => cwist_websocket_async_close_code code w
  end.

(** What the callback does with a message, given all messages up to it. *)
Context (app : list cwist_ws_frame -> list app_call).

Definition on_message (f : cwist_ws_frame) (w : async_io) : async_io :=
  let w := w <| delivered := w.(delivered) ++ [f] |> in
  fold_left (fun w c => run_call c w) (app w.(delivered)) w.

(** ** Frames *)

Definition grown_cap (cap need : Z) : Z :=
  let new_cap := if negb (cap =? 0) then u64 (cap * 2) else 4096 in
  if new_cap <? need then need else new_cap.

Definition ws_async_stash_append (src : bytes) (s : cwist_websocket_async)
  : bool * cwist_websocket_async :=
  let (r, w) := s in
  if blen src =? 0 then (true, (r, w))
  else
    let need := u64 (blen r.(stash) + blen src) in
    let '(ok, r, w) :=
      if r.(stash_cap) <? need then
        let (ok, w) := async_alloc w in
        (ok, if ok then r <| stash_cap := grown_cap r.(stash_cap) need |> else r, w)
      else (true, r, w) in
    (ok, (if ok then r <| stash := r.(stash) ++ src |> else r, w)).

Definition ws_async_frag_append (src : option bytes) (len : Z) (s : cwist_websocket_async)
  : bool * cwist_websocket_async :=
  let (r, w) := s in
  if u64 (WS_ASYNC_MAX_MESSAGE_BYTES - blen (frag_bytes r)) <? len then (false, (r, w))
  else
    let need := u64 (blen (frag_bytes r) + len + 1) in
    let '(ok, r, w) :=
      if r.(wfrag_cap) <? need then
        let (ok, w) := async_alloc w in
        (ok, if ok then r <| frag := Some (frag_bytes r) |>
                          <| wfrag_cap := grown_cap r.(wfrag_cap) need |> else r, w)
      else (true, r, w) in
    (ok, (if ok then r <| frag := (fun b => b ++ take (Z.to_nat len) (default [] src)) <$> r.(frag) |>
          else r, w)).

Definition wfrag_clear (r : async_rx) : async_rx :=
  r <| frag := None |> <| wfrag_cap := 0 |> <| frag_active := false |>.

(** A complete message: 0 is [true]. *)
Definition async_deliver (fin : bool) (opcode : Z) (payload : option bytes) (len : Z) (w : async_io)
  : bool * async_io :=
  let data := take (Z.to_nat len) (default [] payload) in
  if (opcode =? CWIST_WS_FRAME_TEXT) && negb (cwist_ws_internal_utf8_valid data)
  then (false, cwist_websocket_async_close_code 1007 w)
  else if opcode =? CWIST_WS_FRAME_CLOSE then
    let close_error := cwist_ws_internal_close_error data in
    if negb (close_error =? 0) then (false, cwist_websocket_async_close_code (u16 close_error) w)
    else
      let w := (ws_async_queue_frame CWIST_WS_FRAME_CLOSE payload (if 2 <=? len then 2 else 0) w).2 in
      (true, w <| closed := true |> <| terminate_pending := true |>)
  else
    let w := if opcode =? CWIST_WS_FRAME_PING
             then (ws_async_queue_frame CWIST_WS_FRAME_PONG payload len w).2 else w in
    let (ok, w) := async_alloc w in
    if ok then (true, on_message (MkFrame fin opcode payload len) w) else (false, w).

Definition ws_async_process_frame (fin : bool) (opcode : Z) (payload : option bytes) (len : Z)
  (s : cwist_websocket_async) : bool * cwist_websocket_async :=
  let (r, w) := s in
  let deliver opcode payload len (s : cwist_websocket_async) :=
    let (ok, w) := async_deliver fin opcode payload len s.2 in (ok, (s.1, w)) in
  if 8 <=? opcode then deliver opcode payload len (r, w)
  else
    let continuation := opcode =? CWIST_WS_FRAME_CONTINUATION in
    if negb (Bool.eqb continuation r.(frag_active)) then (false, (r, w))
    else
      let r := if negb continuation && negb fin
               then r <| frag_active := true |> <| wfrag_opcode := opcode |> else r in
      if r.(frag_active) then
        let '(ok, (r, w)) := ws_async_frag_append payload len (r, w) in
        if negb ok then (false, (wfrag_clear r, w))
        else if negb fin then (true, (r, w))
        else
          deliver r.(wfrag_opcode) (Some (frag_bytes r ++ [0])) (blen (frag_bytes r)) (wfrag_clear r, w)
      else deliver opcode payload len (r, w).

(** The length field at [base]: not all there, not minimal, or the length and
    the bytes before the masking key. *)
Inductive async_length := LenWait | LenShort | LenIs (len : Z) (hdr : nat).
Definition read_async_length (code : Z) (base : bytes) : async_length :=
  if code =? 126 then
    if (length base <? 4)%nat then LenWait
    else
      let len := Z.lor (Z.shiftl (rd base 2) 8) (rd base 3) in
      if len <? 126 then LenShort else LenIs len 4
  else if code =? 127 then
    if (length base <? 10)%nat then LenWait
    else
      let len := fold_left (fun acc i => Z.lor acc (Z.shiftl (rd base (2 + i)) ((7 - Z.of_nat i) * 8)))
                   (seq 0 8) 0 in
      if len <? 65536 then LenShort else LenIs len 10
  else LenIs code 2.

(** The loop at [base], the stash from [off] on: what is left of it, or an
    error.  Every round that goes on takes a head: [length base] rounds are
    enough. *)
Fixpoint feed_loop (fuel : nat) (base : bytes) (s : cwist_websocket_async)
  : option bytes * cwist_websocket_async :=
  match fuel with
  | O => (Some base, s)
  | S fuel =>
      if (length base <? 2)%nat then (Some base, s)
      else
        let fin := negb (Z.land (rd base 0) 128 =? 0) in
        let opcode := Z.land (rd base 0) 15 in
        if negb (opcode =? 0) && negb (opcode =? 1) && negb (opcode =? 2) && negb (opcode =? 8) &&
           negb (opcode =? 9) && negb (opcode =? 10)
        then (None, s)
        else if negb (Z.land (rd base 0) 112 =? 0) then (None, s)
        else if Z.land (rd base 1) 128 =? 0 then (None, s)
        else
          match read_async_length (Z.land (rd base 1) 127) base with
          | LenWait => (Some base, s)
          | LenShort => (None, (s.1, cwist_websocket_async_close_code 1002 s.2))
          | LenIs len hdr =>
              if WS_ASYNC_MAX_PAYLOAD_BYTES <? len then (None, s)
              else if (8 <=? opcode) && ((125 <? len) || negb fin) then (None, s)
              else
                let total := (hdr + 4 + Z.to_nat len)%nat in
                if (length base <? total)%nat then (Some base, s)
                else
                  let '(ok, payload, w) :=
                    if 0 <? len then
                      let (ok, w) := async_alloc s.2 in
                      (ok, Some (unmask (sub base hdr 4) (sub base (hdr + 4) (Z.to_nat len)) ++ [0]), w)
                    else (true, None, s.2) in
                  if negb ok then (None, (s.1, w))
                  else
                    let '(ok, s) := ws_async_process_frame fin opcode payload len (s.1, w) in
                    if negb ok then (None, s)
                    else if s.2.(terminate_pending) then (Some (drop total base), s)
                    else feed_loop fuel (drop total base) s
          end
  end.
Definition ws_async_feed (s : cwist_websocket_async) : bool * cwist_websocket_async :=
  match feed_loop (length s.1.(stash)) s.1.(stash) s with
  | (Some rest, s) => (true, (s.1 <| stash := rest |>, s.2))
  | (None, s) => (false, s)
  end.

(** ** The reactor's events *)

(** Everything is released; [on_close] runs. *)
Definition ws_async_teardown (s : cwist_websocket_async) : cwist_websocket_async :=
  (s.1 <| stash := [] |> <| stash_cap := 0 |> <| frag := None |> <| wfrag_cap := 0 |>,
   s.2 <| park := [] |> <| parked_bytes := 0 |> <| torn_down := S s.2.(torn_down) |>).
Definition ws_async_terminate (s : cwist_websocket_async) : cwist_websocket_async :=
  let (r, w) := s in
  let parked := bool_decide (w.(park) <> []) in
  if w.(read_armed) || parked then
    let w := w <| closing := true |> in
    (r, if w.(read_armed) && parked then reactor_del w else w)
  else ws_async_teardown (r, w).
Definition ws_async_idle_reap (s : cwist_websocket_async) : bool * cwist_websocket_async :=
  let (r, w) := s in
  if idle_timeout =? 0 then (false, (r, w))
  else if (0 <? w.(last_active_sec)) && (idle_timeout <? u32 (w.(now) - w.(last_active_sec)))
  then (true, ws_async_terminate (r, w))
  else (false, (r, w)).

(** The outcomes run out: EAGAIN.  The flags are end of stream, error, bytes. *)
Fixpoint async_recv_loop (outs : list recv_outcome) (got : bool) (s : cwist_websocket_async)
  : bool * bool * bool * cwist_websocket_async :=
  match outs with
  | [] | RecvAgain :: _ => (false, false, got, s)
  | RecvData b :: outs =>
      let (ok, s) := ws_async_stash_append b s in
      if ok then async_recv_loop outs true s else (false, true, true, s)
  | RecvEof :: _ => (true, false, got, s)
  | RecvInterrupted :: outs => async_recv_loop outs got s
  | RecvFailed :: _ => (false, true, got, s)
  end.

(** Arming the read slot, or the end. *)
Definition arm_read (s : cwist_websocket_async) : cwist_websocket_async :=
  let (r, w) := s in
  let (ok, w) := reactor_add w in
  if ok then (r, w <| read_armed := true |>) else ws_async_terminate (r, w).

Definition ws_async_read_ready (recvs : list recv_outcome) (s : cwist_websocket_async)
  : cwist_websocket_async :=
  let s : cwist_websocket_async := (s.1, s.2 <| read_armed := false |>) in
  if s.2.(closing) then ws_async_teardown s
  else
    let (reaped, s) := ws_async_idle_reap s in
    if reaped then s
    else
      let '(eof, err, got_bytes, s) := async_recv_loop recvs false s in
      let '(err, s) :=
        if negb err && (0 <? blen s.1.(stash))
        then let (ok, s) := ws_async_feed s in (negb ok, s) else (err, s) in
      let s : cwist_websocket_async :=
        if got_bytes && negb err && negb eof then (s.1, ws_async_touch s.2) else s in
      if err || eof || s.2.(terminate_pending) then ws_async_terminate s else arm_read s.

Definition ws_async_write_ready (s : cwist_websocket_async) : cwist_websocket_async :=
  let s : cwist_websocket_async := (s.1, s.2 <| write_armed := false |>) in
  if s.2.(closing) then ws_async_teardown s
  else
    let (reaped, s) := ws_async_idle_reap s in
    if reaped then s
    else
      let '(drain_rc, made_progress, w) := ws_async_park_drain s.2 in
      let w := if made_progress
               then ws_async_touch (w <| park_deadline_sec := ws_async_park_deadline w |>) else w in
      let (rearmed, w) :=
        if (0 <? drain_rc) && (w.(now) <=? w.(park_deadline_sec)) then reactor_add_out w else (false, w) in
      if rearmed then (s.1, w <| write_armed := true |>)
      else if negb (drain_rc =? 0) || w.(terminate_pending) then ws_async_terminate (s.1, w)
      else if negb w.(read_armed) then arm_read (s.1, w)
      else (s.1, w).

(** Taking over an upgraded socket with the bytes already read; nothing of the
    connection is kept when it fails. *)
Definition async_new (outs : list asend_outcome) (o a : oracle) (t : Z) : cwist_websocket_async :=
  (MkRx [] 0 None 0 CWIST_WS_FRAME_CONTINUATION false,
   MkIo [] 0 0 t false false false false false outs [] o a t false false [] 0 []).
Definition cwist_websocket_async_attach_ex (initial : bytes) (outs : list asend_outcome)
  (o a : oracle) (t : Z) : option cwist_websocket_async :=
  let (ok, o) := alloc o in
  if negb ok then None
  else
    let s := async_new outs o a t in
    let '(fail, s) :=
      if 0 <? blen initial then
        let (ok, s) := ws_async_stash_append initial s in
        if negb ok then (true, s) else let (ok, s) := ws_async_feed s in (negb ok, s)
      else (false, s) in
    if fail || s.2.(terminate_pending) then None
    else
      let (ok, w) := reactor_add (s.2 <| read_armed := true |>) in
      if ok then Some (s.1, w) else None.
End async.
