(* ===== verification/WsParked.v ===== *)
(** * Parked writes of reactor WebSockets

    The peer is sent whole frames: what the socket has taken and what is parked
    are together the encodings of a list of frames, through every event,
    partial write and failure. *)

From S2P Require Import Prelude.
From S2P Require Import WsFrame.
From S2P Require Import WebSocket.
From S2P Require Import WsSpec.
From S2P Require Import WsReceive.
From S2P Require Import WsSequenced.
From S2P Require Import WsAsync.

(** ** The queue *)

Definition unsent (q : list ws_async_park_node) : bytes :=
  concat (map (fun n => drop n.(node_off) n.(node_buf)) q).
Definition node_ok (n : ws_async_park_node) : Prop := (n.(node_off) < length n.(node_buf))%nat.

(** What the peer has or will get. *)
Definition stream (w : async_io) : bytes := awire w ++ unsent (park w).

Lemma drain_loop_spec outs : forall q rc made q' sent outs',
  Forall node_ok q -> park_drain_loop outs q = (rc, made, q', sent, outs') ->
  unsent q = sent ++ unsent q' /\ Forall node_ok q' /\
  (rc = 0 /\ q' = [] \/ rc = 1 \/ rc = -1).
Proof.
  induction outs as [|out outs IH]; intros q rc made q' sent outs' Hq H; destruct q as [|[buf off] q];
    cbn [park_drain_loop] in H.
  1,3: injection H as <- <- <- <- <-; split; [done|split; [done|by left]].
  { injection H as <- <- <- <- <-. split; [by rewrite app_nil_r|]. split; [constructor|by left]. }
  pose proof (list.Forall_cons_1 _ _ _ Hq) as [Hn Hr]. unfold node_ok in Hn. cbn [node_off node_buf] in Hn.
  assert (Hstop : forall rc0, rc0 = 1 \/ rc0 = -1 -> (rc0, false, MkNode buf off :: q, [], outs) = (rc, made, q', sent, outs') ->
    unsent (MkNode buf off :: q) = sent ++ unsent q' /\ Forall node_ok q' /\
    (rc = 0 /\ q' = [] \/ rc = 1 \/ rc = -1)).
  { intros rc0 Hrc [= <- <- <- <- <-]. split; [done|]. split; [done|by right]. }
  destruct out as [[|n]| | |].
  - apply (Hstop (-1)); [by right|done].
  - cbv zeta in H. set (m := Nat.min (S n) (length buf - off)) in H.
    set (q1 := if (off + m =? length buf)%nat then q else MkNode buf (off + m) :: q) in H.
    assert (Hm : (0 < m <= length buf - off)%nat) by lia.
    assert (Hq1 : Forall node_ok q1 /\ unsent (MkNode buf off :: q) = sub buf off m ++ unsent q1).
    { unfold q1, unsent, sub. destruct (Nat.eqb_spec (off + m) (length buf)) as [E|E].
      - split; [done|]. cbn [map concat node_off node_buf]. f_equal.
        rewrite take_ge; [done|rewrite length_drop; lia].
      - split; [constructor; [unfold node_ok; cbn [node_off node_buf]; lia|done]|].
        cbn [map concat node_off node_buf]. rewrite app_assoc. f_equal.
        rewrite <- (take_drop m (drop off buf)) at 1. by rewrite drop_drop. }
    clearbody q1. destruct Hq1 as [Hq1 E1].
    destruct (park_drain_loop outs q1) as [[[[rc1 made1] q2] sent1] outs1] eqn:E.
    injection H as <- <- <- <- <-.
    destruct (IH _ _ _ _ _ _ Hq1 E) as (E2 & Hq2 & Hrc). rewrite E1, E2, app_assoc. done.
  - by apply (IH (MkNode buf off :: q)) in H.
  - apply (Hstop 1); [by left|done].
  - apply (Hstop (-1)); [by right|done].
Qed.

Section limit.
Context (park_limit : Z).
Hypothesis Hlimit : 0 < park_limit < 2 ^ 63.

(** The queue's bookkeeping. *)
Record io_ok (w : async_io) : Prop := {
  io_nodes : Forall node_ok (park w);
  io_bytes : parked_bytes w = blen (unsent (park w));
  io_limit : parked_bytes w <= park_limit }.

Lemma park_drain_spec w :
  Forall node_ok (park w) -> parked_bytes w = blen (unsent (park w)) -> parked_bytes w < 2 ^ 64 ->
  let '(rc, _, w') := ws_async_park_drain w in
  stream w' = stream w /\ Forall node_ok (park w') /\ parked_bytes w' = blen (unsent (park w')) /\
  parked_bytes w' <= parked_bytes w /\ (rc = 0 /\ park w' = [] \/ rc = 1 \/ rc = -1) /\
  exists q n wr outs, w' = w <| park := q |> <| parked_bytes := n |> <| awire := wr |> <| sends := outs |>.
Proof.
  intros Hn Hb Hmax. unfold ws_async_park_drain.
  destruct (park_drain_loop (sends w) (park w)) as [[[[rc made] q] sent] outs] eqn:E.
  destruct (drain_loop_spec _ _ _ _ _ _ _ Hn E) as (Eu & Hq & Hrc).
  assert (Hp : u64 (parked_bytes w - blen sent) = blen (unsent q)).
  { rewrite Hb, Eu, blen_app. pose proof (blen_nonneg sent). pose proof (blen_nonneg (unsent q)).
    rewrite Hb, Eu, blen_app in Hmax. rewrite u64_id by (unfold is_u64; lia). lia. }
  rewrite Hp. split_and!; cbn [park parked_bytes awire set_field stream].
  - unfold stream. cbn. by rewrite Eu, app_assoc.
  - done.
  - done.
  - change (blen (unsent q) <= parked_bytes w). rewrite Hb, Eu, blen_app.
    pose proof (blen_nonneg sent). lia.
  - done.
  - by exists q, (blen (unsent q)), (awire w ++ sent), outs.
Qed.

(** Frames on the wire. *)
Definition wire_frames (l : list (Z * bytes)) : bytes :=
  concat (map (fun '(op, p) => frame_bytes (sent_frame op p)) l).
Definition frames_allowed (l : list (Z * bytes)) : Prop :=
  Forall (fun '(op, p) => send_allowed op (blen p) = true) l.

(** The frames a record of calls stands for, in order: a call that returned 0 is
    a frame, one that returned 1 (too much is parked) none; after -1 the frame may
    be parked or not.  Only frames an endpoint may send. *)
Inductive accepted : list (Z * bytes * Z) -> list (Z * bytes) -> Prop :=
  | accepted_nil : accepted [] []
  | accepted_frame op data rc calls l :
      rc = 0 \/ rc = -1 -> send_allowed op (blen data) = true ->
      accepted calls l -> accepted ((op, data, rc) :: calls) ((op, data) :: l)
  | accepted_none op data rc calls l :
      rc = 1 \/ rc = -1 -> accepted calls l -> accepted ((op, data, rc) :: calls) l.

Lemma accepted_app c1 l1 c2 l2 : accepted c1 l1 -> accepted c2 l2 -> accepted (c1 ++ c2) (l1 ++ l2).
Proof. intros H H2. induction H; cbn [app]; [done|by constructor..]. Qed.

(** The frames of the calls made were added, whole. *)
Definition adds_frames (w w' : async_io) : Prop :=
  io_ok w -> io_ok w' /\ exists calls l,
    queued w' = queued w ++ calls /\ accepted calls l /\ stream w' = stream w ++ wire_frames l.

#[export] Instance adds_frames_preorder : PreOrder adds_frames.
Proof.
  split.
  - intros w H. split; [done|]. exists [], []. rewrite !app_nil_r. split_and!; [done|constructor|done].
  - intros w1 w2 w3 H12 H23 H1. destruct (H12 H1) as [H2 (c1 & l1 & C1 & A1 & E1)].
    destruct (H23 H2) as [H3 (c2 & l2 & C2 & A2 & E2)]. split; [done|]. exists (c1 ++ c2), (l1 ++ l2).
    split; [by rewrite C2, C1, app_assoc|]. split; [by apply accepted_app|]. unfold wire_frames. rewrite map_app, concat_app.
    by rewrite E2, E1, <- app_assoc.
Qed.

(** Steps that leave the queue and the wire alone. *)
Definition same_queue (w w' : async_io) : Prop :=
  park w' = park w /\ parked_bytes w' = parked_bytes w /\ awire w' = awire w /\ queued w' = queued w.

Lemma same_queue_adds w w' : same_queue w w' -> adds_frames w w'.
Proof.
  intros (Hp & Hb & Hw & Hq) [H1 H2 H3]. split; [constructor; congruence|].
  exists [], []. unfold stream. rewrite Hp, Hw, Hq, !app_nil_r. split_and!; [done|constructor|done].
Qed.

(** One frame more, as much as possible sent. *)
Lemma enqueue_drain w frame :
  io_ok w -> (0 < length frame)%nat -> parked_bytes w + blen frame <= park_limit ->
  let w1 := w <| park := park w ++ [MkNode frame 0] |>
              <| parked_bytes := u64 (parked_bytes w + blen frame) |> in
  let '(rc, _, w') := ws_async_park_drain w1 in
  io_ok w' /\ stream w' = stream w ++ frame /\ queued w' = queued w.
Proof.
  intros [Hn Hb Hl] Hframe Hfit w1. pose proof (blen_nonneg (unsent (park w))) as H0.
  pose proof (blen_nonneg frame) as H1.
  assert (Hu : parked_bytes w1 = parked_bytes w + blen frame).
  { apply u64_id. unfold is_u64. lia. }
  assert (Hun : unsent (park w1) = unsent (park w) ++ frame).
  { change (unsent (park w ++ [MkNode frame 0]) = unsent (park w) ++ frame).
    unfold unsent. rewrite map_app, concat_app. cbn [map concat node_off node_buf drop].
    by rewrite app_nil_r. }
  assert (Hn1 : Forall node_ok (park w1)).
  { apply Forall_app. split; [done|]. by constructor. }
  pose proof (park_drain_spec w1 Hn1) as Hd. rewrite Hun, Hu, blen_app in Hd.
  specialize (Hd ltac:(lia) ltac:(lia)).
  destruct (ws_async_park_drain w1) as [[rc made] w'].
  destruct Hd as (Hstr & Hn' & Hb' & Hle & _ & q & n & wr & outs & ->). split; [constructor; [done|done|lia]|].
  split; [|done]. rewrite Hstr. unfold stream. rewrite Hun. change (awire w1) with (awire w). by rewrite app_assoc.
Qed.

Lemma serialized_frame op data len :
  send_allowed op len = true -> len = blen (sent_data data len) -> len < 2 ^ 64 ->
  let frame := frame_head op len ++ sent_data data len in
  (0 < length frame)%nat /\ frame = wire_frames [(op, sent_data data len)].
Proof.
  intros Ha Hlen Hmax frame. split.
  - unfold frame, frame_head. rewrite length_app. destruct (len <? 126); [cbn; lia|].
    destruct (len <? 65536); cbn; lia.
  - change (frame = frame_bytes (sent_frame op (sent_data data len)) ++ []).
    rewrite app_nil_r, <- sent_frame_bytes; [|..|by rewrite <- Hlen].
    + unfold frame, server_frame. by rewrite <- Hlen.
    + unfold send_allowed in Ha. apply andb_true_iff in Ha as [Ha _]. apply rfc_opcode_cases in Ha. lia.
Qed.

(** Queueing leaves the record to its caller, and says what it did. *)
Lemma queue_frame_rc_spec op data len w :
  len = blen (sent_data data len) -> io_ok w ->
  let '(rc, w') := queue_frame_rc park_limit op data len w in
  io_ok w' /\ queued w' = queued w /\
  exists l, accepted [(op, sent_data data len, rc)] l /\ stream w' = stream w ++ wire_frames l.
Proof.
  intros Hlen Hok. unfold queue_frame_rc. rewrite send_args_rfc.
  assert (Hnone : forall rc w', same_queue w w' -> rc = 1 \/ rc = -1 ->
    io_ok w' /\ queued w' = queued w /\
    exists l, accepted [(op, sent_data data len, rc)] l /\ stream w' = stream w ++ wire_frames l).
  { intros rc w' Hs Hrc. destruct (same_queue_adds w w' Hs Hok) as [H' _]. destruct Hs as (Hp & _ & Hw & Hq).
    split; [done|]. split; [done|]. exists []. split; [apply accepted_none; [done|constructor]|].
    unfold stream. by rewrite Hp, Hw, app_nil_r. }
  destruct (send_allowed op len) eqn:Ha; cbn [negb]; [|apply Hnone; [done|by right]].
  unfold ws_async_serialize_frame, async_alloc. destruct (alloc (amem w)) as [[] o1]; cbn [snd].
  2: { apply Hnone; [done|by right]. }
  set (w1 := w <| amem := o1 |>). fold (sent_data data len).
  set (frame := frame_head op len ++ sent_data data len).
  destruct ((park_limit <? blen frame) || (park_limit - blen frame <? parked_bytes w1)) eqn:Hfull; cbn [snd].
  { apply Hnone; [done|by left]. }
  destruct (alloc (amem w1)) as [[] o2]; cbn [negb snd]; [|apply Hnone; [done|by right]].
  apply orb_false_iff in Hfull as [Hf1 Hf2].
  change (parked_bytes w1) with (parked_bytes w) in Hf2.
  assert (Hmax : len < 2 ^ 64).
  { unfold frame in Hf1. rewrite blen_app, <- Hlen in Hf1. pose proof (blen_nonneg (frame_head op len)). lia. }
  destruct (serialized_frame op data len Ha Hlen Hmax) as (Hframe & Henc). fold frame in Hframe, Henc.
  set (w1' := w1 <| amem := o2 |>). assert (Hok' : io_ok w1') by by destruct Hok.
  pose proof (enqueue_drain w1' frame Hok' Hframe) as Hd.
  change (parked_bytes w1') with (parked_bytes w) in Hd. specialize (Hd ltac:(lia)). cbv zeta in Hd.
  change (park w1) with (park w1'). change (parked_bytes w1) with (parked_bytes w).
  destruct (ws_async_park_drain _) as [[rc made] w3]. destruct Hd as (H3 & Hs3 & Hq3).
  assert (Hdone : forall rc w', same_queue w3 w' -> rc = 0 \/ rc = -1 ->
    io_ok w' /\ queued w' = queued w /\
    exists l, accepted [(op, sent_data data len, rc)] l /\ stream w' = stream w ++ wire_frames l).
  { intros rc' w' Hs Hrc. destruct (same_queue_adds w3 w' Hs H3) as [H' _]. destruct Hs as (Hp & _ & Hw & Hq).
    split; [done|]. split; [by rewrite Hq, Hq3|].
    exists [(op, sent_data data len)]. split; [constructor; [done|by rewrite <- Hlen|constructor]|]. rewrite <- Henc.
    change (stream w) with (stream w1'). rewrite <- Hs3. unfold stream. by rewrite Hp, Hw. }
  destruct (rc <? 0); [apply Hdone; [done|by right]|]. destruct (rc =? 0); [apply Hdone; [done|by left]|].
  destruct (write_armed _); [apply Hdone; [done|by left]|]. unfold reactor_add_out.
  destruct (alloc _) as [[] o3]; apply Hdone; first [done|by left|by right].
Qed.

Lemma queue_frame_adds op data len w :
  len = blen (sent_data data len) ->
  adds_frames w (ws_async_queue_frame park_limit op data len w).2.
Proof.
  intros Hlen Hok. unfold ws_async_queue_frame.
  pose proof (queue_frame_rc_spec op data len w Hlen Hok) as H.
  destruct (queue_frame_rc _ _ _ _ w) as [rc w']. destruct H as (Hok' & Hq & l & Hl & E). cbn [snd].
  split; [by destruct Hok'|]. exists [(op, sent_data data len, rc)], l. split; [cbn; by rewrite Hq|done].
Qed.

(** ** The connection *)

Context (idle_timeout : Z) (app : list cwist_ws_frame -> list app_call).

(** The application passes buffers as long as it says. *)
Definition call_ok (c : app_call) : Prop :=
  match c with AppSend _ data len => len = blen (sent_data data len) | _ => True end.
Hypothesis Happ : forall ms, Forall call_ok (app ms).

Lemma same_queue_after w w1 w' : same_queue w w1 -> adds_frames w1 w' -> adds_frames w w'.
Proof. intros H1 H2. etransitivity; [by apply same_queue_adds|done]. Qed.
Lemma same_queue_before w w1 w' : adds_frames w w1 -> same_queue w1 w' -> adds_frames w w'.
Proof. intros H1 H2. etransitivity; [done|by apply same_queue_adds]. Qed.

Lemma close_frame_queued_adds w r :
  adds_frames w r.2 -> adds_frames w (close_frame_queued r).
Proof.
  intros H. destruct r as [rc w']. unfold close_frame_queued.
  destruct (negb (rc =? 0)); [by apply (same_queue_before _ w')|].
  destruct (parked_bytes w' =? 0); [by apply (same_queue_before _ w')|done].
Qed.

Lemma close_adds w : adds_frames w (cwist_websocket_async_close park_limit w).
Proof.
  unfold cwist_websocket_async_close. destruct (closed w); [reflexivity|].
  apply close_frame_queued_adds. set (w1 := w <| closed := true |>).
  apply (same_queue_after _ w1); [done|]. by apply queue_frame_adds.
Qed.
Lemma close_code_adds code w : adds_frames w (cwist_websocket_async_close_code park_limit code w).
Proof.
  unfold cwist_websocket_async_close_code. destruct (closed w); [reflexivity|].
  apply close_frame_queued_adds. set (w1 := w <| closed := true |>).
  apply (same_queue_after _ w1); [done|]. by apply queue_frame_adds.
Qed.

Lemma run_call_adds c w : call_ok c -> adds_frames w (run_call park_limit c w).
Proof.
  destruct c as [op data len| |code]; intros H; cbn [run_call].
  - unfold cwist_websocket_async_send. destruct (closed w || _); [reflexivity|].
    by apply queue_frame_adds.
  - apply close_adds.
  - apply close_code_adds.
Qed.

Lemma on_message_adds f w : adds_frames w (on_message park_limit app f w).
Proof.
  unfold on_message. set (w1 := w <| delivered := delivered w ++ [f] |>).
  apply (same_queue_after _ w1); [done|]. generalize (Happ (delivered w1)).
  generalize (app (delivered w1)). intros cs Hcs. clearbody w1. revert w1.
  induction Hcs as [|c cs Hc _ IH]; intros w1; cbn [fold_left]; [reflexivity|].
  etransitivity; [by apply run_call_adds|apply IH].
Qed.

Lemma async_alloc_adds w : adds_frames w (async_alloc w).2.
Proof.
  unfold async_alloc. destruct (alloc (amem w)) as [ok o]. by apply same_queue_adds.
Qed.

Lemma deliver_adds fin op payload len w :
  len = blen (sent_data payload len) ->
  adds_frames w (async_deliver park_limit app fin op payload len w).2.
Proof.
  intros Hlen. unfold async_deliver. cbv zeta.
  destruct ((op =? CWIST_WS_FRAME_TEXT) && _); [apply close_code_adds|].
  destruct (op =? CWIST_WS_FRAME_CLOSE).
  { destruct (negb _); [apply close_code_adds|]. cbn [snd].
    set (w1 := (ws_async_queue_frame _ _ _ _ _).2). apply (same_queue_before _ w1); [|done].
    apply queue_frame_adds.
    destruct (Z.leb_spec 2 len) as [H2|H2]; [|by destruct payload].
    unfold sent_data in *. change (Z.to_nat 2) with 2%nat. unfold blen in *.
    rewrite length_take in *. lia. }
  assert (H1 : adds_frames w (if op =? CWIST_WS_FRAME_PING
    then (ws_async_queue_frame park_limit CWIST_WS_FRAME_PONG payload len w).2 else w)).
  { destruct (op =? CWIST_WS_FRAME_PING); [by apply queue_frame_adds|reflexivity]. }
  set (w1 := if op =? CWIST_WS_FRAME_PING then _ else w) in *. clearbody w1.
  pose proof (async_alloc_adds w1) as H2. destruct (async_alloc w1) as [[] w2]; cbn [snd] in *.
  - etransitivity; [exact H1|]. etransitivity; [exact H2|apply on_message_adds].
  - by etransitivity.
Qed.

Lemma frag_append_same src len s :
  let '(_, s') := ws_async_frag_append src len s in same_queue s.2 s'.2.
Proof.
  destruct s as [r w]. unfold ws_async_frag_append. destruct (_ <? len); [done|].
  unfold async_alloc. destruct (wfrag_cap r <? _); [|done]. by destruct (alloc (amem w)) as [[] o].
Qed.

Lemma process_frame_adds fin op payload len s :
  len = blen (sent_data payload len) ->
  adds_frames s.2 (ws_async_process_frame park_limit app fin op payload len s).2.2.
Proof.
  intros Hlen. destruct s as [r w]. unfold ws_async_process_frame. cbv zeta. cbn [fst snd].
  assert (Hdel : forall fin op payload len r' w', len = blen (sent_data payload len) ->
    adds_frames w w' ->
    adds_frames w (let (ok, w2) := async_deliver park_limit app fin op payload len w' in
      (ok, ((r', w2) : cwist_websocket_async))).2.2).
  { intros fin' op' payload' len' r' w' Hl Hw. pose proof (deliver_adds fin' op' payload' len' w' Hl) as H.
    destruct (async_deliver _ _ _ _ _ _ w') as [ok w2]. by etransitivity. }
  destruct (8 <=? op); [by apply Hdel|].
  destruct (negb (Bool.eqb _ _)); [reflexivity|].
  set (r1 := if _ && negb fin then _ else r). clearbody r1.
  destruct (frag_active r1); [|by apply Hdel].
  pose proof (frag_append_same payload len (r1, w)) as Hf.
  destruct (ws_async_frag_append payload len (r1, w)) as [ok [r2 w2]]. cbn [snd] in Hf.
  destruct ok; cbn [negb]; [|by apply same_queue_adds].
  destruct fin; cbn [negb]; [|by apply same_queue_adds].
  apply Hdel; [|by apply same_queue_adds].
  unfold sent_data, blen. cbn [from_option id]. rewrite Nat2Z.id, length_take, length_app. cbn. lia.
Qed.

Lemma payload_sent key src len :
  0 <= len -> blen src = len -> len = blen (sent_data (Some (unmask key src ++ [0])) len).
Proof.
  intros Hl Hs. unfold sent_data, blen in *. cbn [from_option id].
  rewrite length_take, length_app. unfold unmask. rewrite length_imap. cbn. lia.
Qed.

Lemma async_length_nonneg code base len hdr :
  bytes_ok base -> 0 <= code -> read_async_length code base = LenIs len hdr -> 0 <= len.
Proof.
  intros Hb Hc. unfold read_async_length.
  assert (Hrd : forall i, 0 <= rd base i) by (intros i; pose proof (bytes_ok_rd base i Hb) as H;
    unfold is_u8 in H; lia).
  destruct (code =? 126).
  { destruct (_ <? 4)%nat; [done|]. cbv zeta. destruct (_ <? 126) eqn:E; [done|].
    intros [= <- _]. apply Z.ltb_ge in E. lia. }
  destruct (code =? 127); [|by intros [= <- _]].
  destruct (_ <? 10)%nat; [done|]. cbv zeta. destruct (_ <? 65536) eqn:E; [done|].
  set (v := fold_left _ _ _) in *. clearbody v. intros [= <- _]. apply Z.ltb_ge in E. lia.
Qed.

(** The payload the parser hands on. *)
Definition take_payload (base : bytes) (hdr : nat) (len : Z) (w : async_io)
  : bool * option bytes * async_io :=
  if 0 <? len then
    let (ok, w) := async_alloc w in
    (ok, Some (unmask (sub base hdr 4) (sub base (hdr + 4) (Z.to_nat len)) ++ [0]), w)
  else (true, None, w).

Lemma take_payload_adds base hdr len w :
  0 <= len -> (hdr + 4 + Z.to_nat len <= length base)%nat ->
  let '(_, payload, w') := take_payload base hdr len w in
  adds_frames w w' /\ len = blen (sent_data payload len).
Proof.
  intros Hl Hb. unfold take_payload. destruct (Z.ltb_spec 0 len) as [H0|H0].
  - pose proof (async_alloc_adds w) as Ha. destruct (async_alloc w) as [ok w'].
    split; [done|]. apply payload_sent; [done|]. unfold blen, sub. rewrite length_take, length_drop. lia.
  - split; [reflexivity|]. replace len with 0 by lia. done.
Qed.

Lemma feed_loop_adds fuel : forall base s,
  bytes_ok base -> adds_frames s.2 (feed_loop park_limit app fuel base s).2.2.
Proof.
  induction fuel as [|fuel IH]; intros base s Hb; cbn [feed_loop]; [reflexivity|].
  destruct (length base <? 2)%nat; [reflexivity|]. cbv zeta.
  destruct (negb _ && _ && _ && _ && _ && _); [reflexivity|].
  destruct (negb _); [reflexivity|]. destruct (_ =? 0); [reflexivity|].
  destruct (read_async_length _ base) as [| |len hdr] eqn:El; [reflexivity|apply close_code_adds|].
  apply async_length_nonneg in El; [|done|apply Z.land_nonneg; right; lia].
  destruct (_ <? len); [reflexivity|]. destruct (_ && _); [reflexivity|].
  destruct (Nat.ltb_spec (length base) (hdr + 4 + Z.to_nat len)) as [|Hlen]; [reflexivity|].
  fold (take_payload base hdr len s.2).
  pose proof (take_payload_adds base hdr len s.2 El Hlen) as Hp.
  destruct (take_payload base hdr len s.2) as [[ok payload] w]. destruct Hp as [Hw Hs].
  destruct ok; cbn [negb]; [|done].
  pose proof (process_frame_adds (negb (Z.land (rd base 0) 128 =? 0)) (Z.land (rd base 0) 15)
    payload len (s.1, w) Hs) as Hf.
  destruct (ws_async_process_frame _ _ _ _ _ _ _) as [ok s']. cbn [snd] in Hf.
  destruct ok; cbn [negb]; [|by etransitivity].
  destruct (terminate_pending _); [by etransitivity|].
  etransitivity; [exact Hw|]. etransitivity; [exact Hf|]. apply IH. by apply Forall_drop.
Qed.

(** The parser leaves the stash to its caller. *)
Lemma process_frame_stash fin op payload len s :
  stash (ws_async_process_frame park_limit app fin op payload len s).2.1 = stash s.1.
Proof.
  destruct s as [r w]. unfold ws_async_process_frame. cbv zeta. cbn [fst snd].
  destruct (8 <=? op); [by destruct (async_deliver _ _ _ _ _ _ _)|].
  destruct (negb (Bool.eqb _ _)); [done|].
  set (r1 := if _ && negb fin then _ else r).
  assert (E1 : stash r1 = stash r) by (unfold r1; by destruct (_ && negb fin)). clearbody r1.
  rewrite <- E1. destruct (frag_active r1); [|by destruct (async_deliver _ _ _ _ _ _ _)].
  unfold ws_async_frag_append. destruct (_ <? len); [done|]. unfold async_alloc.
  destruct (wfrag_cap r1 <? _); [destruct (alloc (amem w)) as [[] o]|]; cbn [negb]; try done;
    (destruct fin; cbn [negb]; [|done]); by destruct (async_deliver _ _ _ _ _ _ _).
Qed.

Lemma feed_loop_stash fuel : forall base s,
  let '(rest, s') := feed_loop park_limit app fuel base s in
  stash s'.1 = stash s.1 /\ match rest with Some b => exists k, b = drop k base | None => True end.
Proof.
  assert (Hhere : forall (base : bytes) (s : cwist_websocket_async),
    stash s.1 = stash s.1 /\ exists k, base = drop k base) by (intros; split; [done|by exists 0%nat]).
  induction fuel as [|fuel IH]; intros base s; cbn [feed_loop]; [done|].
  destruct (length base <? 2)%nat; [done|]. cbv zeta.
  destruct (negb _ && _ && _ && _ && _ && _); [done|].
  destruct (negb _); [done|]. destruct (_ =? 0); [done|].
  destruct (read_async_length _ base) as [| |len hdr]; [done|done|].
  destruct (_ <? len); [done|]. destruct (_ && _); [done|].
  destruct (length base <? hdr + 4 + Z.to_nat len)%nat; [done|].
  fold (take_payload base hdr len s.2). destruct (take_payload base hdr len s.2) as [[ok payload] w].
  destruct ok; cbn [negb]; [|done].
  pose proof (process_frame_stash (negb (Z.land (rd base 0) 128 =? 0)) (Z.land (rd base 0) 15)
    payload len (s.1, w)) as Hf.
  destruct (ws_async_process_frame _ _ _ _ _ _ _) as [ok s']. cbn [fst snd] in Hf.
  destruct ok; cbn [negb]; [|done].
  destruct (terminate_pending _); [split; [done|by eexists]|].
  specialize (IH (drop (hdr + 4 + Z.to_nat len) base) s').
  destruct (feed_loop _ _ _ _ s') as [rest s2]. destruct IH as [-> H]. split; [done|].
  destruct rest; [|done]. destruct H as [k ->]. rewrite drop_drop. by eexists.
Qed.

(** ** Events *)

(** Through an event: frames are added, and what is parked when the connection
    is torn down is lost. *)
Definition event_adds (s s' : cwist_websocket_async) : Prop :=
  io_ok s.2 -> bytes_ok (stash s.1) ->
  io_ok s'.2 /\ bytes_ok (stash s'.1) /\
  exists calls l lost, queued s'.2 = queued s.2 ++ calls /\ accepted calls l /\
    stream s.2 ++ wire_frames l = stream s'.2 ++ lost /\ (torn_down s'.2 = O -> lost = []).

Lemma adds_event s s' :
  adds_frames s.2 s'.2 -> (bytes_ok (stash s.1) -> bytes_ok (stash s'.1)) -> event_adds s s'.
Proof.
  intros Ha Hb Hok Hst. destruct (Ha Hok) as [Hok' (calls & l & Hc & Hl & E)]. split; [done|]. split; [auto|].
  exists calls, l, []. rewrite E, app_nil_r. done.
Qed.

Lemma event_after s s1 s' :
  adds_frames s.2 s1.2 -> (bytes_ok (stash s.1) -> bytes_ok (stash s1.1)) -> event_adds s1 s' ->
  event_adds s s'.
Proof.
  intros Ha Hb H Hok Hst. destruct (Ha Hok) as [Hok1 (c1 & l1 & C1 & Hl1 & E1)].
  destruct (H Hok1 (Hb Hst)) as (Hok' & Hst' & c2 & l2 & lost & C2 & Hl2 & E2 & Hlost). split; [done|].
  split; [done|]. exists (c1 ++ c2), (l1 ++ l2), lost. split; [by rewrite C2, C1, app_assoc|].
  split; [by apply accepted_app|]. split; [|done].
  unfold wire_frames in *. rewrite map_app, concat_app, app_assoc. by rewrite <- E1.
Qed.

Lemma teardown_event s : event_adds s (ws_async_teardown s).
Proof.
  intros Hok Hst. split; [|split; [constructor|]].
  - constructor; cbn; [constructor|done|lia].
  - exists [], [], (unsent (park s.2)). split; [by rewrite app_nil_r|]. split; [constructor|]. split; [|done].
    unfold stream. cbn. by rewrite !app_nil_r.
Qed.

Lemma terminate_event s : event_adds s (ws_async_terminate s).
Proof.
  destruct s as [r w]. unfold ws_async_terminate. cbv zeta.
  destruct (read_armed w || _); [|apply teardown_event].
  destruct (read_armed _ && _); by apply adds_event; [apply same_queue_adds|].
Qed.

Lemma idle_reap_event s : event_adds s (ws_async_idle_reap idle_timeout s).2.
Proof.
  destruct s as [r w]. unfold ws_async_idle_reap.
  destruct (idle_timeout =? 0); [by apply adds_event; [reflexivity|]|].
  destruct (_ && _); [apply terminate_event|by apply adds_event; [reflexivity|]].
Qed.
Lemma idle_reap_same s : (ws_async_idle_reap idle_timeout s).1 = false ->
  (ws_async_idle_reap idle_timeout s).2 = s.
Proof.
  destruct s as [r w]. unfold ws_async_idle_reap. destruct (idle_timeout =? 0); [done|].
  by destruct (_ && _).
Qed.

Lemma stash_append_event src s :
  bytes_ok src ->
  adds_frames s.2 (ws_async_stash_append src s).2.2 /\
  (bytes_ok (stash s.1) -> bytes_ok (stash (ws_async_stash_append src s).2.1)).
Proof.
  intros Hsrc. destruct s as [r w]. unfold ws_async_stash_append. cbv zeta.
  destruct (blen src =? 0); [by split|].
  assert (Happ2 : bytes_ok (stash r) -> bytes_ok (stash r ++ src)) by (intros; by apply Forall_app).
  destruct (stash_cap r <? _); [|by split].
  pose proof (async_alloc_adds w) as H. by destruct (async_alloc w) as [[] w1].
Qed.

(** Steps before the end of an event. *)
Definition stays (s s' : cwist_websocket_async) : Prop :=
  (bytes_ok (stash s.1) -> adds_frames s.2 s'.2 /\ bytes_ok (stash s'.1)).

Lemma stays_trans s1 s2 s3 : stays s1 s2 -> stays s2 s3 -> stays s1 s3.
Proof.
  intros H1 H2 Hb. destruct (H1 Hb) as [A1 B1]. destruct (H2 B1) as [A2 B2].
  split; [by etransitivity|done].
Qed.
Lemma stays_same r w w' : same_queue w w' -> stays (r, w) (r, w').
Proof. intros H Hb. split; [by apply same_queue_adds|done]. Qed.
Lemma stays_event s s1 s' : stays s s1 -> event_adds s1 s' -> event_adds s s'.
Proof.
  intros H He Hok Hb. destruct (H Hb) as [A B]. by apply (event_after s s1 s').
Qed.
Lemma stays_end s s' : stays s s' -> event_adds s s'.
Proof. intros H Hok Hb. destruct (H Hb) as [A B]. by apply (adds_event s s'). Qed.

Lemma feed_stays s : stays s (ws_async_feed park_limit app s).2.
Proof.
  intros Hb. unfold ws_async_feed.
  pose proof (feed_loop_adds (length (stash s.1)) (stash s.1) s Hb) as Ha.
  pose proof (feed_loop_stash (length (stash s.1)) (stash s.1) s) as Hs.
  destruct (feed_loop _ _ _ _ s) as [[rest|] s']; cbn [snd] in *; destruct Hs as [E H].
  - split; [done|]. destruct H as [k ->]. cbn [fst]. by apply Forall_drop.
  - by rewrite E.
Qed.

Definition recvs_ok (recvs : list recv_outcome) : Prop :=
  Forall (fun r => match r with RecvData b => bytes_ok b | _ => True end) recvs.

Lemma recv_loop_stays recvs : forall got s,
  recvs_ok recvs -> stays s (async_recv_loop recvs got s).2.
Proof.
  assert (Hrefl : forall s, stays s s) by (intros s Hb; split; [reflexivity|done]).
  induction recvs as [|r recvs IH]; intros got s Hr; [apply Hrefl|].
  apply list.Forall_cons_1 in Hr as [Hb Hr]. destruct r as [b| | | |]; cbn [async_recv_loop]; try apply Hrefl.
  - assert (H1 : stays s (ws_async_stash_append b s).2).
    { intros Hst. destruct (stash_append_event b s Hb). auto. }
    destruct (ws_async_stash_append b s) as [[] s1]; cbn [snd] in *; [|done].
    eapply stays_trans; [exact H1|by apply IH].
  - by apply IH.
Qed.

Lemma arm_read_event s : event_adds s (arm_read s).
Proof.
  destruct s as [r w]. unfold arm_read, reactor_add. destruct (alloc (arms w)) as [[] o].
  - by apply stays_end, stays_same.
  - set (w1 := w <| arms := o |>). apply (stays_event (r, w) (r, w1)); [by apply stays_same|].
    apply terminate_event.
Qed.

Lemma read_ready_event recvs s :
  recvs_ok recvs -> event_adds s (ws_async_read_ready park_limit idle_timeout app recvs s).
Proof.
  intros Hr. unfold ws_async_read_ready. destruct s as [r w]. cbn [fst snd].
  set (w0 := w <| read_armed := false |>).
  apply (stays_event (r, w) (r, w0)); [by apply stays_same|].
  destruct (closing w0); [apply teardown_event|].
  pose proof (idle_reap_event (r, w0)) as Hreap. pose proof (idle_reap_same (r, w0)) as Hsame.
  destruct (ws_async_idle_reap _ (r, w0)) as [[] s1]; cbn [fst snd] in *; [done|].
  rewrite (Hsame eq_refl). clear s1 Hreap Hsame.
  pose proof (recv_loop_stays recvs false (r, w0) Hr) as H1.
  destruct (async_recv_loop recvs false (r, w0)) as [[[eof err] got] s1]. cbn [snd] in H1.
  apply (stays_event _ s1 _ H1). clear H1 w0 r w.
  assert (H2 : stays s1 (if negb err && (0 <? blen (stash s1.1))
    then let (ok, s) := ws_async_feed park_limit app s1 in (negb ok, s) else (err, s1)).2).
  { destruct (negb err && _); [|intros Hb; split; [reflexivity|done]].
    pose proof (feed_stays s1) as H. by destruct (ws_async_feed _ _ s1) as [ok s2]. }
  destruct (if negb err && _ then _ else _) as [err' s2]. cbn [snd] in H2.
  apply (stays_event _ s2 _ H2). clear H2 s1 err.
  set (s3 := if got && _ && _ then _ else s2).
  assert (H3 : stays s2 s3).
  { unfold s3. destruct s2 as [r w]. destruct (got && _ && _); by apply stays_same. }
  clearbody s3. apply (stays_event _ s3 _ H3).
  destruct (err' || eof || _); [apply terminate_event|apply arm_read_event].
Qed.

Lemma park_drain_adds w : adds_frames w (ws_async_park_drain w).2.
Proof.
  intros [Hn Hb Hl]. pose proof (park_drain_spec w Hn Hb ltac:(lia)) as H.
  destruct (ws_async_park_drain w) as [[rc made] w']. destruct H as (Hs & Hn' & Hb' & Hle & _ & q & n & wr & outs & Ew).
  split; [constructor; [done|done|cbn [snd]; lia]|]. exists [], []. cbn [snd]. rewrite Hs, !app_nil_r.
  split; [by subst w'|]. split; [constructor|done].
Qed.

Lemma write_ready_event s : event_adds s (ws_async_write_ready idle_timeout s).
Proof.
  unfold ws_async_write_ready. destruct s as [r w]. cbn [fst snd].
  set (w0 := w <| write_armed := false |>).
  apply (stays_event (r, w) (r, w0)); [by apply stays_same|].
  destruct (closing w0); [apply teardown_event|].
  pose proof (idle_reap_event (r, w0)) as Hreap. pose proof (idle_reap_same (r, w0)) as Hsame.
  destruct (ws_async_idle_reap _ (r, w0)) as [[] s1]; cbn [fst snd] in *; [done|].
  rewrite (Hsame eq_refl). clear s1 Hreap Hsame. cbn [fst snd].
  pose proof (park_drain_adds w0) as H1. destruct (ws_async_park_drain w0) as [[rc made] w1].
  cbn [snd] in H1. apply (stays_event _ (r, w1)); [intros Hb; by split|]. clear H1 w0 w.
  set (w2 := if made then _ else w1).
  assert (H2 : same_queue w1 w2) by (unfold w2; by destruct made). clearbody w2.
  apply (stays_event _ (r, w2)); [by apply stays_same|].
  set (p := if (0 <? rc) && _ then _ else (false, w2)).
  assert (H3 : same_queue w2 p.2).
  { unfold p. destruct ((0 <? rc) && _); [|done]. unfold reactor_add_out.
    by destruct (alloc (arms w2)) as [[] o]. }
  destruct p as [rearmed w3]. cbn [snd] in H3. apply (stays_event _ (r, w3)); [by apply stays_same|].
  destruct rearmed; [by apply stays_end, stays_same|].
  destruct (negb (rc =? 0) || _); [apply terminate_event|].
  destruct (negb (read_armed w3)); [apply arm_read_event|by apply stays_end, stays_same].
Qed.

(** ** Runs *)

(** An event, with what the sockets, the memory, the reactor and the clock will
    do during it. *)
Inductive async_event := EvRead (recvs : list recv_outcome) | EvWrite | EvCall (c : app_call).
Record world := MkWorld { wo_sends : list asend_outcome; wo_mem : oracle; wo_arms : oracle; wo_now : Z }.

(** A slot fires when it is armed, and only once.  After the teardown the memory
    is released: [None] is a slot that still fires, or a call the application
    makes after its [on_close]. *)
Definition async_step (s : cwist_websocket_async) (e : async_event * world) : option cwist_websocket_async :=
  let (e, o) := e in
  let w := s.2 <| sends := o.(wo_sends) |> <| amem := o.(wo_mem) |> <| arms := o.(wo_arms) |>
             <| now := o.(wo_now) |> in
  let released := (0 <? s.2.(torn_down))%nat in
  match e with
  | EvRead recvs =>
      if negb w.(read_slot) then Some s
      else if released then None
      else Some (ws_async_read_ready park_limit idle_timeout app recvs (s.1, w <| read_slot := false |>))
  | EvWrite =>
      if negb w.(write_slot) then Some s
      else if released then None
      else Some (ws_async_write_ready idle_timeout (s.1, w <| write_slot := false |>))
  | EvCall c => if released then None else Some (s.1, run_call park_limit c w)
  end.
(** The state when the events are over, or at the first that finds the memory
    released, with the events from there on. *)
Fixpoint async_run (es : list (async_event * world)) (s : cwist_websocket_async)
    : cwist_websocket_async * list (async_event * world) :=
  match es with
  | [] => (s, [])
  | e :: es => match async_step s e with Some s => async_run es s | None => (s, e :: es) end
  end.

Definition event_ok (e : async_event * world) : Prop :=
  match e.1 with EvRead recvs => recvs_ok recvs | EvWrite => True | EvCall c => call_ok c end.

(** A step that changes something is an event on a connection that stands. *)
Lemma async_step_event s e s' :
  event_ok e -> async_step s e = Some s' -> s' = s \/ (torn_down s.2 = O /\ event_adds s s').
Proof.
  destruct s as [r w], e as [e o]. intros He. unfold async_step. cbn [fst snd].
  set (w1 := w <| sends := _ |> <| amem := _ |> <| arms := _ |> <| now := _ |>).
  destruct e as [recvs| |c].
  - destruct (read_slot w1); cbn [negb]; [|intros [= <-]; by left].
    destruct (Nat.ltb_spec 0 (torn_down w)) as [|Ht]; intros [= <-]. right. split; [lia|].
    set (w2 := w1 <| read_slot := false |>).
    apply (stays_event _ (r, w2)); [by apply stays_same|]. by apply read_ready_event.
  - destruct (write_slot w1); cbn [negb]; [|intros [= <-]; by left].
    destruct (Nat.ltb_spec 0 (torn_down w)) as [|Ht]; intros [= <-]. right. split; [lia|].
    set (w2 := w1 <| write_slot := false |>).
    apply (stays_event _ (r, w2)); [by apply stays_same|]. apply write_ready_event.
  - destruct (Nat.ltb_spec 0 (torn_down w)) as [|Ht]; intros [= <-]. right. split; [lia|].
    apply (stays_event _ (r, w1)); [by apply stays_same|]. apply stays_end. intros Hb.
    split; [by apply run_call_adds|done].
Qed.
Lemma async_step_none s e :
  async_step s e = None ->
  (0 < torn_down s.2)%nat /\
  match e.1 with EvRead _ => read_slot s.2 = true | EvWrite => write_slot s.2 = true | EvCall _ => True end.
Proof.
  destruct s as [r w], e as [e o]. unfold async_step. cbn [fst snd].
  destruct (Nat.ltb_spec 0 (torn_down w)) as [|Ht], e as [recvs| |c]; cbn; try done.
  1,3: by destruct (read_slot w). all: by destruct (write_slot w).
Qed.

(** What the frames queued since the upgrade have become. *)
Definition frames_whole (s : cwist_websocket_async) : Prop :=
  io_ok s.2 /\ bytes_ok (stash s.1) /\
  exists l lost, accepted (queued s.2) l /\ wire_frames l = stream s.2 ++ lost /\
    (torn_down s.2 = O -> lost = []).

Lemma frames_whole_step s e s' :
  frames_whole s -> event_ok e -> async_step s e = Some s' -> frames_whole s'.
Proof.
  intros H He Hs. destruct (async_step_event s e s' He Hs) as [->|[Ht Hev]]; [done|].
  destruct H as (Hok & Hb & l & lost & Hl & E & Hlost).
  destruct (Hev Hok Hb) as (Hok' & Hb' & calls & l' & lost' & Hc & Hl' & E' & Hlost').
  split; [done|]. split; [done|]. rewrite (Hlost Ht), app_nil_r in E.
  exists (l ++ l'), lost'. split; [rewrite Hc; by apply accepted_app|]. split; [|done].
  unfold wire_frames in *. by rewrite map_app, concat_app, E.
Qed.

Lemma frames_whole_run es : forall s,
  frames_whole s -> Forall event_ok es -> frames_whole (async_run es s).1.
Proof.
  induction es as [|e es IH]; intros s Hs Hes; [done|].
  apply list.Forall_cons_1 in Hes as [He Hes]. cbn [async_run].
  destruct (async_step s e) as [s'|] eqn:E; [|done].
  apply IH; [by eapply frames_whole_step|done].
Qed.
Lemma async_run_stops es : forall s,
  let '(s', rest) := async_run es s in
  rest = [] \/
  (0 < torn_down s'.2)%nat /\
  match rest with
  | (EvRead _, _) :: _ => read_slot s'.2 = true
  | (EvWrite, _) :: _ => write_slot s'.2 = true
  | _ => True
  end.
Proof.
  induction es as [|e es IH]; intros s; cbn [async_run]; [by left|].
  destruct (async_step s e) as [s'|] eqn:E; [apply IH|]. right.
  apply async_step_none in E as [Ht H]. split; [done|]. by destruct e as [[] ?].
Qed.

Lemma attach_whole initial outs o a t s :
  bytes_ok initial ->
  cwist_websocket_async_attach_ex park_limit app initial outs o a t = Some s -> frames_whole s.
Proof.
  intros Hi. unfold cwist_websocket_async_attach_ex. destruct (alloc o) as [[] o1]; cbn [negb]; [|done].
  set (s0 := async_new outs o1 a t).
  assert (H0 : io_ok s0.2 /\ bytes_ok (stash s0.1) /\ stream s0.2 = [] /\ queued s0.2 = []).
  { split_and!; [constructor; cbn; [constructor|done|lia]|constructor|done|done]. }
  set (p := if 0 <? blen initial then _ else (false, s0)).
  assert (Hp : stays s0 p.2).
  { unfold p. destruct (0 <? blen initial); [|intros Hb; split; [reflexivity|done]].
    pose proof (stash_append_event initial s0 Hi) as [A B].
    destruct (ws_async_stash_append initial s0) as [[] s1]; cbn [negb snd] in *; [|intros Hb; auto].
    apply (stays_trans _ s1); [intros Hb; auto|]. pose proof (feed_stays s1) as H.
    by destruct (ws_async_feed _ _ s1) as [ok s2]. }
  destruct p as [fail s1]. cbn [snd] in Hp. destruct (fail || _); [done|]. unfold reactor_add.
  destruct (alloc _) as [[] o2]; [|done]. intros [= <-]. destruct H0 as (Hok & Hb & Es & Eq).
  destruct (Hp Hb) as [Ha Hb1]. destruct (Ha Hok) as [Hok1 (calls & l & Hc & Hl & E)].
  set (w1 := _ <| read_slot := true |>). 
  destruct (same_queue_adds s1.2 w1 ltac:(done) Hok1) as [Hok2 _].
  split; [done|]. split; [done|]. exists l, []. rewrite Eq in Hc.
  split; [cbn [snd]; change (queued w1) with (queued s1.2); by rewrite Hc|]. split; [|done].
  rewrite app_nil_r. rewrite Es in E. symmetry. exact E.
Qed.

(** C33: What the peer is sent is the frames queued, whole and in order.  After
    any events, whatever short writes, errors, failed allocations and
    registrations there were, the bytes the socket has taken followed by those
    still parked are the encodings of the frames that were queued: every call of
    the queueing function that returned 0, none that returned 1, and of those that
    returned -1 some; nothing comes between or behind them, and only a teardown
    loses what was parked then.  The parked bytes are counted exactly and stay
    within the limit.  The run goes on to the end of the events, unless one finds
    the connection released: a slot that is still armed after the teardown
    ([freed_with_write_slot]), or a call the application makes after it. *)
Theorem async_frames_whole initial outs o a t s es :
  bytes_ok initial -> Forall event_ok es ->
  cwist_websocket_async_attach_ex park_limit app initial outs o a t = Some s ->
  let '(s', rest) := async_run es s in
  let w := s'.2 in
  parked_bytes w = blen (unsent (park w)) /\ parked_bytes w <= park_limit /\
  (exists l lost, accepted (queued w) l /\ wire_frames l = awire w ++ unsent (park w) ++ lost /\
    (torn_down w = O -> lost = [])) /\
  (rest = [] \/
   (0 < torn_down w)%nat /\
   match rest with
   | (EvRead _, _) :: _ => read_slot w = true
   | (EvWrite, _) :: _ => write_slot w = true
   | _ => True
   end).
Proof.
  intros Hi Hes Hs. apply attach_whole in Hs; [|done].
  pose proof (frames_whole_run es s Hs Hes) as H. pose proof (async_run_stops es s) as Hstop.
  destruct (async_run es s) as [s' rest]. destruct H as ([_ Hb Hl] & _ & l & lost & Hal & E & Hlost).
  split; [done|]. split; [done|]. split; [|done]. exists l, lost. unfold stream in E. by rewrite app_assoc.
Qed.
End limit.

(** ** Examples *)

(** A greeting after the first message. *)
Abbreviation demo_app := (fun ms : list cwist_ws_frame =>
  match ms with [] => [] | _ => [AppSend 1 (Some [119; 101; 108]) 3] end).
Abbreviation demo_text := (frame_bytes (demo_frame true 1 [104; 105])).
Abbreviation demo_close := (frame_bytes (demo_frame true 8 [])).
Abbreviation demo_attached :=
  (default (async_new [] [] [] 0) (cwist_websocket_async_attach_ex 1000 demo_app demo_text [STook 2; SAgain] [] [] 5)).

(** The greeting is cut short after two bytes, then the socket is writable; a
    ping arrives; the application sends and closes. *)
Abbreviation demo_events := [
  (EvWrite, MkWorld [STook 1; SAgain] [] [] 6);
  (EvRead [RecvData (frame_bytes (demo_frame true 9 [7]))], MkWorld [SAgain] [] [] 7);
  (EvCall (AppSend 2 (Some [1; 2; 3]) 3), MkWorld [SInterrupted; STook 2; SAgain] [] [] 8);
  (EvWrite, MkWorld [] [] [] 9); (EvCall AppClose, MkWorld [] [] [] 9)].

Lemma async_frames_whole_witness :
  let '(s', rest) := async_run 1000 300 demo_app demo_events demo_attached in
  let w := s'.2 in
  parked_bytes w = blen (unsent (park w)) /\ parked_bytes w <= 1000 /\
  (exists l lost, accepted (queued w) l /\ wire_frames l = awire w ++ unsent (park w) ++ lost /\
    (torn_down w = O -> lost = [])) /\
  (rest = [] \/
   (0 < torn_down w)%nat /\
   match rest with
   | (EvRead _, _) :: _ => read_slot w = true
   | (EvWrite, _) :: _ => write_slot w = true
   | _ => True
   end).
Proof.
  apply (async_frames_whole 1000 ltac:(lia) 300 demo_app) with (initial := demo_text)
    (outs := [STook 2; SAgain]) (o := []) (a := []) (t := 5).
  - intros ms. destruct ms; repeat constructor.
  - by apply bytes_okb_ok.
  - apply list.Forall_cons_2; [done|]. apply list.Forall_cons_2.
    { apply list.Forall_cons_2; [by apply bytes_okb_ok|constructor]. }
    repeat (apply list.Forall_cons_2; [done|]). constructor.
  - vm_compute. reflexivity.
Defined.

(** Termination takes an empty queue for a write slot that is not armed: when
    the parked bytes went out with a later frame, a close frame releases the
    connection while the reactor still holds its write slot, and the slot fires. *)
Example freed_with_write_slot :
  let '(s, rest) := async_run 1000 300 demo_app
    [(EvRead [RecvData demo_close], MkWorld [] [] [] 6); (EvWrite, MkWorld [] [] [] 7)] demo_attached in
  (torn_down s.2, write_slot s.2, park s.2, rest) = (1%nat, true, [], [(EvWrite, MkWorld [] [] [] 7)]).
Proof. vm_compute. reflexivity. Qed.

(** A send error leaves the frame parked without a write slot; the peer's end
    of stream then only marks the connection as closing, and no slot is left
    that could tear it down. *)
Example never_torn_down :
  let s := (async_run 1000 300 demo_app
    [(EvRead [RecvData (frame_bytes (demo_frame true 9 [7]))], MkWorld [SFailed; SFailed] [] [] 6);
     (EvRead [RecvEof], MkWorld [] [] [] 7)]
    (default (async_new [] [] [] 0) (cwist_websocket_async_attach_ex 1000 demo_app [] [] [] [] 5))).1 in
  (torn_down s.2, closing s.2, read_slot s.2, write_slot s.2) = (0%nat, true, false, false).
Proof. vm_compute. reflexivity. Qed.

(** The application's close with bytes parked does not make the end of draining
    terminate the connection. *)
Example close_survives_draining :
  let s := (async_run 1000 300 demo_app
    [(EvCall AppClose, MkWorld [SAgain] [] [] 6); (EvWrite, MkWorld [] [] [] 7)] demo_attached).1 in
  (closed s.2, park s.2, terminate_pending s.2, read_slot s.2) = (true, [], false, true).
Proof. vm_compute. reflexivity. Qed.

(** A connection that is idle for too long with bytes parked cancels both its
    slots and stays. *)
Example reaped_and_kept :
  let s := (async_run 1000 300 demo_app [(EvWrite, MkWorld [SAgain] [] [] 1000)] demo_attached).1 in
  (torn_down s.2, closing s.2, read_slot s.2, write_slot s.2) = (0%nat, true, false, false).
Proof. vm_compute. reflexivity. Qed.

(** Attaching: the bytes read with the upgrade request are a ping, whose pong
    the socket does not take, and a frame that is refused.  The connection is
    freed with its write slot armed. *)
Example attach_frees_armed :
  let initial := frame_bytes (demo_frame true 9 [7]) ++ [0; 0] in
  let s := (ws_async_stash_append initial (async_new [SAgain] [] [] 5)).2 in
  let '(ok, s) := ws_async_feed 1000 (fun _ => []) s in
  (ok, write_slot s.2, cwist_websocket_async_attach_ex 1000 (fun _ => []) initial [SAgain] [] [] 5) =
  (false, true, None).
Proof. vm_compute. reflexivity. Qed.
