(* ===== verification/WsAsyncRecv.v ===== *)
(** * Receiving on a reactor WebSocket

    The incremental parser does what the blocking receiver does: it treats the
    frames in its stash as [rfc_step] says, however they came in. *)

From S2P Require Import Prelude.
From S2P Require Import WsFrame.
From S2P Require Import WebSocket.
From S2P Require Import WsSpec.
From S2P Require Import WsReceive.
From S2P Require Import WsAsync.

Section receive.
Context (park_limit : Z) (cb : list cwist_ws_frame -> list app_call).

(** ** The reference *)

(** Refusing: with a close frame, or without. *)
Definition close_status (reply : bytes) : Z := 256 * rd reply 2 + rd reply 3.
Definition ref_refuse (reply : bytes) (c : bool) (w : async_io) : async_io :=
  if c then cwist_websocket_async_close_code park_limit (close_status reply) w else w.

(** A message: the reply, then the application's turn; a close frame goes to
    nobody. *)
Definition ref_deliver (op : Z) (data : bytes) (p : option bytes) (c : bool) (w : async_io) : async_io :=
  if c then
    (ws_async_queue_frame park_limit 8 (Some data) (if 2 <=? blen data then 2 else 0) w).2
      <| closed := true |> <| terminate_pending := true |>
  else
    on_message park_limit cb (MkFrame true op p (blen data))
      (if op =? 9 then (ws_async_queue_frame park_limit 10 (Some data) (blen data) w).2 else w).

(** A message in one frame without payload has no buffer. *)
Definition message_pointer (f : rfc_frame) (data : bytes) : option bytes :=
  if (f_op f =? 0) || negb (blen data =? 0) then Some (data ++ [0]) else None.

(** The frames in order, until one is refused or the connection is to end. *)
Inductive ref_result := RefError | RefStopped (fs : list rfc_frame) (open : progress) | RefAll (open : progress).
Fixpoint async_ref (open : progress) (fs : list rfc_frame) (w : async_io) : ref_result * async_io :=
  match fs with
  | [] => (RefAll open, w)
  | f :: fs =>
      let continue open w := if w.(terminate_pending) then (RefStopped fs open, w) else async_ref open fs w in
      match rfc_step open f with
      | More open => continue open w
      | Deliver op data _ c open => continue open (ref_deliver op data (message_pointer f data) c w)
      | Refuse reply c => (RefError, ref_refuse reply c w)
      end
  end.

(** ** Allocations that succeed *)

Definition lucky (w : async_io) : Prop := amem w = [].

Lemma async_alloc_lucky w : lucky w -> async_alloc w = (true, w).
Proof. unfold lucky, async_alloc. destruct w; cbn. by intros ->. Qed.

Lemma queue_frame_lucky op data len w :
  lucky w -> lucky (ws_async_queue_frame park_limit op data len w).2.
Proof.
  intros Hw. unfold ws_async_queue_frame.
  enough (lucky (queue_frame_rc park_limit op data len w).2) as H by
    (destruct (queue_frame_rc park_limit op data len w); exact H).
  unfold queue_frame_rc, ws_async_serialize_frame.
  destruct (negb _); [done|]. rewrite async_alloc_lucky by done.
  destruct (_ || _); [done|]. rewrite async_alloc_lucky by done. cbn [negb].
  unfold ws_async_park_drain. destruct (park_drain_loop _ _) as [[[[rc made] q] sent] outs].
  destruct (rc <? 0); [done|]. destruct (rc =? 0); [done|]. destruct (write_armed _); [done|].
  unfold reactor_add_out. by destruct (alloc _) as [[] o].
Qed.

Lemma close_frame_queued_lucky r : lucky r.2 -> lucky (close_frame_queued r).
Proof.
  destruct r as [rc w]. unfold close_frame_queued. intros H.
  destruct (negb _); [done|]. by destruct (parked_bytes w =? 0).
Qed.

Lemma close_code_lucky code w : lucky w -> lucky (cwist_websocket_async_close_code park_limit code w).
Proof.
  intros H. unfold cwist_websocket_async_close_code. destruct (closed w); [done|].
  by apply close_frame_queued_lucky, queue_frame_lucky.
Qed.

Lemma on_message_lucky f w : lucky w -> lucky (on_message park_limit cb f w).
Proof.
  intros H. unfold on_message. set (w1 := w <| delivered := _ |>). assert (H1 : lucky w1) by done.
  generalize (cb (delivered w1)). intros cs. clearbody w1. clear H. revert w1 H1.
  induction cs as [|c cs IH]; intros w1 H1; [done|]. cbn [fold_left]. apply IH.
  destruct c as [op data len| |code]; cbn [run_call].
  - unfold cwist_websocket_async_send. destruct (_ || _); [done|]. by apply queue_frame_lucky.
  - unfold cwist_websocket_async_close. destruct (closed w1); [done|].
    by apply close_frame_queued_lucky, queue_frame_lucky.
  - by apply close_code_lucky.
Qed.

Lemma ref_deliver_lucky op data p c w : lucky w -> lucky (ref_deliver op data p c w).
Proof.
  intros H. unfold ref_deliver. destruct c; [exact (queue_frame_lucky 8 (Some data) (if 2 <=? blen data then 2 else 0) w H)|].
  apply on_message_lucky. destruct (op =? 9); [by apply queue_frame_lucky|done].
Qed.

(** ** Complete messages *)

(** A frame is sent from the bytes, wherever they are. *)
Lemma queue_frame_ext op data data' len w :
  sent_data data len = sent_data data' len ->
  ws_async_queue_frame park_limit op data len w = ws_async_queue_frame park_limit op data' len w.
Proof.
  intros H. unfold ws_async_queue_frame, queue_frame_rc, ws_async_serialize_frame. fold (sent_data data len).
  fold (sent_data data' len). by rewrite H.
Qed.

Lemma take_sent p data n :
  take (length data) (default [] p) = data -> (n <= length data)%nat ->
  sent_data p (Z.of_nat n) = sent_data (Some data) (Z.of_nat n).
Proof.
  intros H Hn. unfold sent_data. rewrite Nat2Z.id. cbn [from_option id].
  pose proof (f_equal (take n) H) as E. rewrite take_take in E. by rewrite Nat.min_l in E by lia.
Qed.

Lemma close_status_frame code : 0 <= code < 65536 -> close_status (close_frame code) = code.
Proof. intros H. unfold close_status. change (256 * (code / 256) + code mod 256 = code). zlia. Qed.

Definition delivery (r : bool * async_io) (ev : rfc_event) (p : option bytes) (w : async_io) : Prop :=
  match ev with
  | Refuse reply c => r = (false, ref_refuse reply c w)
  | Deliver op data _ c _ => r = (true, ref_deliver op data p c w)
  | More _ => False
  end.

Lemma async_deliver_spec op p data open w :
  lucky w -> bytes_ok data -> take (length data) (default [] p) = data ->
  delivery (async_deliver park_limit cb true op p (blen data) w) (rfc_finish op data open) p w.
Proof.
  intros Hw Hd Hp. unfold async_deliver, rfc_finish, delivery.
  unfold CWIST_WS_FRAME_TEXT, CWIST_WS_FRAME_CLOSE, CWIST_WS_FRAME_PING, CWIST_WS_FRAME_PONG.
  assert (Et : take (Z.to_nat (blen data)) (default [] p) = data) by (unfold blen; by rewrite Nat2Z.id).
  rewrite Et. cbv zeta.
  destruct ((op =? 1) && negb _).
  { cbv beta iota. unfold ref_refuse.
    rewrite close_status_frame by lia. done. }
  rewrite (close_error_rfc data Hd). destruct (Z.eqb_spec op 8) as [->|H8].
  { destruct (rfc_close_error data) as [code|] eqn:Ee; cbn [from_option id].
    - assert (1002 <= code <= 1007) by (apply rfc_close_error_code in Ee; lia).
      destruct (Z.eqb_spec code 0); [lia|]. cbn [negb]. cbv beta iota. unfold ref_refuse.
      rewrite close_status_frame, u16_id by (unfold is_u16; lia). done.
    - cbn [Z.eqb negb]. unfold ref_deliver. do 2 f_equal. cbn [snd].
      rewrite (queue_frame_ext 8 p (Some data)); [done|].
      unfold blen. destruct (Z.leb_spec 2 (Z.of_nat (length data))).
      + apply (take_sent p data 2); [done|lia].
      + apply (take_sent p data 0); [done|lia]. }
  assert (E : (if op =? 9 then (ws_async_queue_frame park_limit 10 p (blen data) w).2 else w) =
    (if op =? 9 then (ws_async_queue_frame park_limit 10 (Some data) (blen data) w).2 else w)).
  { destruct (op =? 9); [|done]. f_equal. apply queue_frame_ext. by apply take_sent. }
  rewrite E. set (w1 := if op =? 9 then _ else w).
  assert (Hw1 : lucky w1) by (unfold w1; destruct (op =? 9); [by apply queue_frame_lucky|done]).
  rewrite (async_alloc_lucky w1 Hw1). destruct (Z.eqb_spec op 9) as [->|H9]; unfold ref_deliver; [done|].
  destruct (Z.eqb_spec op 9); [done|]. done.
Qed.

(** ** Fragments *)

(** The reassembly state stands for the message in progress; the buffer has
    room for the terminator. *)
Definition async_open (r : async_rx) (open : progress) : Prop :=
  match open with
  | None => frag_active r = false /\ frag r = None /\ wfrag_cap r = 0
  | Some (op, acc) =>
      (op = 1 \/ op = 2) /\ frag_active r = true /\ wfrag_opcode r = op /\ frag r = Some acc /\
      bytes_ok acc /\ blen acc <= WS_ASYNC_MAX_MESSAGE_BYTES /\
      blen acc < wfrag_cap r <= 2 * WS_ASYNC_MAX_MESSAGE_BYTES + 4096
  end.

Lemma grown_cap_range cap need :
  0 <= cap <= 2 * WS_ASYNC_MAX_MESSAGE_BYTES + 4096 -> cap < need <= WS_ASYNC_MAX_MESSAGE_BYTES + 1 ->
  need <= grown_cap cap need <= 2 * WS_ASYNC_MAX_MESSAGE_BYTES + 4096.
Proof.
  unfold WS_ASYNC_MAX_MESSAGE_BYTES, grown_cap. intros Hc Hn.
  assert (E : u64 (cap * 2) = cap * 2) by (apply u64_id; unfold is_u64; lia). rewrite E.
  destruct (Z.eqb_spec cap 0) as [->|]; cbn [negb]; cases_ltb; lia.
Qed.

(** Appending to what [acc] is so far. *)
Lemma frag_append_spec_async r acc op p data w :
  lucky w -> frag_bytes r = acc -> (frag r = None -> wfrag_cap r = 0) -> (op = 1 \/ op = 2) ->
  frag_active r = true -> wfrag_opcode r = op -> bytes_ok acc -> bytes_ok data ->
  blen acc <= WS_ASYNC_MAX_MESSAGE_BYTES -> 0 <= wfrag_cap r <= 2 * WS_ASYNC_MAX_MESSAGE_BYTES + 4096 ->
  take (length data) (default [] p) = data ->
  exists r', ws_async_frag_append p (blen data) (r, w) =
    (blen (acc ++ data) <=? WS_ASYNC_MAX_MESSAGE_BYTES, (r', w)) /\
    (blen (acc ++ data) <= WS_ASYNC_MAX_MESSAGE_BYTES -> async_open r' (Some (op, acc ++ data))).
Proof.
  intros Hw Hacc Hnull Hop Hact Hopc Hok Hd Hmax Hcap Hp. unfold ws_async_frag_append.
  rewrite Hacc. assert (HM : WS_ASYNC_MAX_MESSAGE_BYTES = 67108864) by done.
  pose proof (blen_nonneg acc). pose proof (blen_nonneg data). rewrite blen_app.
  rewrite (u64_id (WS_ASYNC_MAX_MESSAGE_BYTES - blen acc)) by (unfold is_u64; lia).
  destruct (Z.ltb_spec (WS_ASYNC_MAX_MESSAGE_BYTES - blen acc) (blen data)) as [Hbig|Hfit].
  { exists r. rewrite (proj2 (Z.leb_gt _ _)) by lia. split; [done|lia]. }
  rewrite (proj2 (Z.leb_le _ _)) by lia.
  rewrite (u64_id (blen acc + blen data + 1)) by (unfold is_u64; lia). cbv zeta.
  assert (Et : take (Z.to_nat (blen data)) (default [] p) = data) by (unfold blen; by rewrite Nat2Z.id).
  rewrite Et.
  assert (Hr : forall r', frag r' = Some acc -> frag_active r' = true -> wfrag_opcode r' = op ->
    blen acc + blen data < wfrag_cap r' <= 2 * WS_ASYNC_MAX_MESSAGE_BYTES + 4096 ->
    async_open (r' <| frag := (fun b => b ++ data) <$> frag r' |>) (Some (op, acc ++ data))).
  { intros r' Ef Ea Eo Hc. unfold async_open. cbn [frag_active wfrag_opcode frag wfrag_cap set_field].
    rewrite blen_app. split_and!; [done|done|done|cbn; by rewrite Ef|by apply Forall_app|lia|cbn; lia|cbn; lia]. }
  destruct (Z.ltb_spec (wfrag_cap r) (blen acc + blen data + 1)) as [Hgrow|Hroom].
  - rewrite async_alloc_lucky by done. eexists. split; [done|]. intros _.
    pose proof (grown_cap_range (wfrag_cap r) (blen acc + blen data + 1) Hcap ltac:(lia)) as Hg.
    apply Hr; [done|done|done|cbn; lia].
  - eexists. split; [done|]. intros _. apply Hr; [|done|done|lia].
    unfold frag_bytes in Hacc. destruct (frag r) as [b|] eqn:Ef; [by cbn in Hacc; subst|].
    specialize (Hnull eq_refl). lia.
Qed.

Lemma wfrag_clear_open r : async_open (wfrag_clear r) None.
Proof. done. Qed.

(** What a frame makes of the connection. *)
Definition frame_done (f : rfc_frame) (ev : rfc_event) (w : async_io)
  (res : bool * cwist_websocket_async) : Prop :=
  exists r', match ev with
  | More open => res = (true, (r', w)) /\ async_open r' open
  | Deliver op data _ c open =>
      res = (true, (r', ref_deliver op data (message_pointer f data) c w)) /\ async_open r' open
  | Refuse reply c => res = (false, (r', ref_refuse reply c w))
  end.

Definition payload_pointer (data : bytes) : option bytes :=
  if blen data =? 0 then None else Some (data ++ [0]).

Lemma payload_pointer_take data : take (length data) (default [] (payload_pointer data)) = data.
Proof.
  unfold payload_pointer. destruct (Z.eqb_spec (blen data) 0) as [E|_].
  - assert (data = []) as -> by (apply length_zero_iff_nil; unfold blen in E; lia). done.
  - apply take_app_length.
Qed.

(** Delivering leaves the receive side as it is. *)
Lemma deliver_done f op data open r w :
  lucky w -> bytes_ok data -> take (length data) (default [] (message_pointer f data)) = data ->
  async_open r open ->
  frame_done f (rfc_finish op data open) w
    (let (ok, w) := async_deliver park_limit cb true op (message_pointer f data) (blen data) w in
     (ok, (r, w))).
Proof.
  intros Hw Hd Hp Ho.
  pose proof (async_deliver_spec op (message_pointer f data) data open w Hw Hd Hp) as H.
  destruct (async_deliver _ _ _ _ _ _ w) as [ok w']. exists r. unfold delivery in H.
  assert (Hev : match rfc_finish op data open with
    | Deliver _ d _ _ o => d = data /\ o = open | _ => True end).
  { unfold rfc_finish. destruct (_ && _); [done|]. destruct (op =? 8).
    - by destruct (rfc_close_error data).
    - by destruct (op =? 9). }
  destruct (rfc_finish op data open) as [o|op' d reply c o|reply c]; [done| |by injection H as -> ->].
  injection H as -> ->. by destruct Hev as [-> ->].
Qed.

Lemma payload_message f : f_op f <> 0 -> payload_pointer (f_payload f) = message_pointer f (f_payload f).
Proof.
  intros H. unfold payload_pointer, message_pointer. destruct (Z.eqb_spec (f_op f) 0); [done|].
  by destruct (blen (f_payload f) =? 0).
Qed.

Lemma process_frame_spec r w open f :
  lucky w -> async_open r open -> bytes_ok (f_payload f) -> rfc_opcode (f_op f) = true ->
  (8 <= f_op f -> f_fin f = true) -> blen (f_payload f) <= WS_ASYNC_MAX_PAYLOAD_BYTES ->
  frame_done f (rfc_data open (f_fin f) (f_op f) (f_payload f)) w
    (ws_async_process_frame park_limit cb (f_fin f) (f_op f) (payload_pointer (f_payload f))
       (blen (f_payload f)) (r, w)).
Proof.
  intros Hw Ho Hd Hop Hfin Hmax. pose proof (payload_pointer_take (f_payload f)) as Hp.
  unfold ws_async_process_frame, rfc_data. cbv zeta. cbn [fst snd].
  assert (Hdel : f_op f <> 0 -> forall open', async_open r open' ->
    frame_done f (rfc_finish (f_op f) (f_payload f) open') w
      (let (ok, w) := async_deliver park_limit cb true (f_op f) (payload_pointer (f_payload f))
         (blen (f_payload f)) w in (ok, (r, w)))).
  { intros H0 open' Ho'. rewrite (payload_message f H0) in *. by apply deliver_done. }
  destruct (Z.leb_spec 8 (f_op f)) as [H8|H8].
  { rewrite (Hfin H8). apply Hdel; [lia|done]. }
  unfold CWIST_WS_FRAME_CONTINUATION.
  assert (HM : CWIST_WS_MAX_MESSAGE_BYTES = WS_ASYNC_MAX_MESSAGE_BYTES) by done.
  assert (HP : WS_ASYNC_MAX_PAYLOAD_BYTES <= WS_ASYNC_MAX_MESSAGE_BYTES) by done.
  assert (HM0 : WS_ASYNC_MAX_MESSAGE_BYTES = 67108864) by done.
  destruct open as [[op acc]|]; cbn [async_open] in Ho.
  - destruct Ho as (Hopc & Hact & Hopcode & Hfrag & Hacc & Hlen & Hcap). rewrite Hact.
    destruct (Z.eqb_spec (f_op f) 0) as [E0|E0]; cbn [Bool.eqb negb andb]; [|by exists r].
    rewrite Hact.
    destruct (frag_append_spec_async r acc op (payload_pointer (f_payload f)) (f_payload f) w) as (r' & -> & Hr');
      try done; [unfold frag_bytes; by rewrite Hfrag|by rewrite Hfrag|pose proof (blen_nonneg acc); lia|].
    rewrite HM, Z.ltb_antisym.
    destruct (Z.leb_spec (blen (acc ++ f_payload f)) WS_ASYNC_MAX_MESSAGE_BYTES) as [Hfit|]; cbn [negb];
      [|by eexists].
    specialize (Hr' Hfit). destruct (f_fin f); cbn [negb]; [|by exists r'].
    destruct Hr' as (_ & _ & -> & Ef & Hok & _).
    assert (Eb : frag_bytes r' = acc ++ f_payload f) by (unfold frag_bytes; by rewrite Ef). rewrite Eb.
    assert (Em : Some ((acc ++ f_payload f) ++ [0]) = message_pointer f (acc ++ f_payload f)).
    { unfold message_pointer. by rewrite E0. }
    rewrite Em. apply deliver_done; [done|done| |done]. rewrite <- Em. apply take_app_length.
  - destruct Ho as (Hact & Hfrag & Hcap). rewrite Hact.
    destruct (Z.eqb_spec (f_op f) 0) as [E0|E0]; cbn [Bool.eqb negb andb]; [by exists r|].
    destruct (f_fin f); cbn [negb].
    { rewrite Hact. by apply Hdel. }
    set (r1 := r <| frag_active := true |> <| wfrag_opcode := f_op f |>).
    destruct (frag_append_spec_async r1 [] (f_op f) (payload_pointer (f_payload f)) (f_payload f) w)
      as (r' & Ha & Hr'); [done| |done| |done|done|by constructor|done|unfold blen; cbn; lia| |done|].
    + unfold frag_bytes. change (frag r1) with (frag r). by rewrite Hfrag.
    + apply rfc_opcode_cases in Hop. lia.
    + change (wfrag_cap r1) with (wfrag_cap r). lia.
    + rewrite ?app_nil_l in Ha, Hr'. change (frag_active r1) with true. cbv iota. rewrite Ha.
      rewrite (proj2 (Z.leb_le _ _)) by lia. cbn [negb]. exists r'. split; [done|]. apply Hr'. lia.
Qed.
(** ** The stash *)

Lemma sub_middle a b n : n = length b -> forall c, sub (a ++ b ++ c) (length a) n = b.
Proof. intros -> c. unfold sub. by rewrite drop_app_length, take_app_length. Qed.

Lemma length_field_16 x y : is_u8 x -> is_u8 y -> u16 (Z.lor (Z.shiftl x 8) y) = Z.lor (Z.shiftl x 8) y.
Proof.
  unfold is_u8. intros Hx Hy. rewrite Z.shiftl_mul_pow2 by lia. change (2 ^ 8) with 256.
  rewrite (lor_add_above _ _ 8) by (first [lia|change (2 ^ 8) with 256; zlia]).
  apply u16_id. unfold is_u16. lia.
Qed.

Lemma length_ext_ok f : bytes_ok (length_ext f).
Proof. unfold length_ext. destruct (f_form f); [constructor|apply big_endian_ok..]. Qed.

Lemma fold_left_ext_in {A B} (g h : A -> B -> A) l : (forall a x, In x l -> g a x = h a x) ->
  forall a, fold_left g l a = fold_left h l a.
Proof.
  induction l as [|x l IH]; intros H a; [done|]. cbn. rewrite H by by left. apply IH.
  intros a' y Hy. apply H. by right.
Qed.

(** The length field of a complete frame. *)
Lemma async_length_spec f rest :
  frame_wf f ->
  read_async_length (length_code f) (frame_bytes f ++ rest) =
    if minimal_form f then LenIs (blen (f_payload f)) (2 + length (length_ext f)) else LenShort.
Proof.
  intros Hwf. pose proof (length_ext_value f Hwf) as Hv. pose proof (frame_bytes_long f) as Hlong.
  unfold read_async_length, minimal_form, frame_bytes in *. pose proof Hwf as (_ & _ & Hl & _).
  pose proof (length_ext_ok f) as Hok.
  unfold form_limit in Hl. destruct (f_form f).
  - destruct Hv as [-> ->]. destruct (Z.eqb_spec (blen (f_payload f)) 126); [lia|].
    by destruct (Z.eqb_spec (blen (f_payload f)) 127); [lia|].
  - destruct Hv as (x & y & -> & Ex & Ev). unfold bytes_ok in Hok. rewrite Ex in Hok |- *.
    pose proof (list.Forall_cons_1 _ _ _ Hok) as [Hx Hy]. apply list.Forall_cons_1 in Hy as [Hy _].
    rewrite length_field_16 in Ev by done.
    change (126 =? 126) with true. cbv iota.
    cbn [frame_head_bytes app length Nat.ltb Nat.leb]. cbv zeta.
    unfold rd. cbn [nth]. rewrite Ev, Z.ltb_antisym. by destruct (126 <=? blen (f_payload f)).
  - destruct Hv as (-> & El & Ev).
    change (127 =? 126) with false. change (127 =? 127) with true. cbv iota.
    destruct (Nat.ltb_spec (length ((frame_head_bytes f ++ length_ext f ++ frame_body f) ++ rest)) 10) as [Hs|_].
    { rewrite !length_app, El in Hs. cbn in Hs. lia. }
    cbv zeta. erewrite (fold_left_ext_in _ _ (seq 0 8)); [rewrite Ev|].
    + rewrite Z.ltb_antisym, El. by destruct (65536 <=? blen (f_payload f)).
    + intros acc i Hi. apply in_seq in Hi. do 2 f_equal. unfold rd.
      cbn [frame_head_bytes app plus nth]. rewrite <- app_assoc. rewrite app_nth1 by lia. done.
Qed.

(** What is left of the loop after a frame. *)
Definition feed_next (fuel : nat) (rest : bytes) (res : bool * cwist_websocket_async)
  : option bytes * cwist_websocket_async :=
  if negb res.1 then (None, res.2)
  else if terminate_pending res.2.2 then (Some rest, res.2)
  else feed_loop park_limit cb fuel rest res.2.

Lemma frame_key_parts f key rest :
  frame_wf f -> f_key f = Some key ->
  let base := frame_bytes f ++ rest in
  let hdr := (2 + length (length_ext f))%nat in
  let total := (hdr + 4 + Z.to_nat (blen (f_payload f)))%nat in
  sub base hdr 4 = key /\
  sub base (hdr + 4) (Z.to_nat (blen (f_payload f))) = masking key (f_payload f) /\
  drop total base = rest /\ (total <= length base)%nat.
Proof.
  intros (_ & _ & _ & _ & Hk) Ek. rewrite Ek in Hk. destruct Hk as [Hk _]. cbv zeta.
  assert (Hn : Z.to_nat (blen (f_payload f)) = length (f_payload f)) by (unfold blen; lia).
  rewrite Hn. unfold frame_bytes, frame_body. rewrite Ek. rewrite <- !app_assoc.
  set (m := masking key (f_payload f)). assert (Hm : length m = length (f_payload f)) by apply length_masking.
  assert (E2 : length (frame_head_bytes f ++ length_ext f) = (2 + length (length_ext f))%nat)
    by (rewrite length_app; done).
  assert (E6 : length (frame_head_bytes f ++ length_ext f ++ key) = (2 + length (length_ext f) + 4)%nat).
  { rewrite !length_app, Hk. cbn. lia. }
  split; [|split; [|split]].
  - rewrite <- E2, (app_assoc (frame_head_bytes f)). by apply sub_middle.
  - rewrite <- E6.
    replace (frame_head_bytes f ++ length_ext f ++ key ++ m ++ rest)
      with ((frame_head_bytes f ++ length_ext f ++ key) ++ m ++ rest) by by rewrite <- !app_assoc.
    by apply sub_middle.
  - replace (frame_head_bytes f ++ length_ext f ++ key ++ m ++ rest)
      with ((frame_head_bytes f ++ length_ext f ++ key ++ m) ++ rest) by by rewrite <- !app_assoc.
    rewrite drop_app_length'; [done|]. rewrite !length_app, Hk, Hm. cbn. lia.
  - rewrite !length_app, Hk, Hm. cbn. lia.
Qed.

(** From the completeness test on. *)
Lemma feed_body f key fuel rest r w open :
  frame_wf f -> f_key f = Some key -> lucky w -> async_open r open -> rfc_opcode (f_op f) = true ->
  (8 <= f_op f -> f_fin f = true) -> blen (f_payload f) <= WS_ASYNC_MAX_PAYLOAD_BYTES ->
  let base := frame_bytes f ++ rest in
  let hdr := (2 + length (length_ext f))%nat in
  let len := blen (f_payload f) in
  let s : cwist_websocket_async := (r, w) in
  exists res, frame_done f (rfc_data open (f_fin f) (f_op f) (f_payload f)) w res /\
    (let total := (hdr + 4 + Z.to_nat len)%nat in
     if (length base <? total)%nat then (Some base, s)
     else
       let '(ok, payload, w) :=
         if 0 <? len then
           let (ok, w) := async_alloc s.2 in
           (ok, Some (unmask (sub base hdr 4) (sub base (hdr + 4) (Z.to_nat len)) ++ [0]), w)
         else (true, None, s.2) in
       if negb ok then (None, (s.1, w))
       else
         let '(ok, s) := ws_async_process_frame park_limit cb (f_fin f) (f_op f) payload len (s.1, w) in
         if negb ok then (None, s)
         else if s.2.(terminate_pending) then (Some (drop total base), s)
         else feed_loop park_limit cb fuel (drop total base) s) = feed_next fuel rest res.
Proof.
  intros Hwf Ek Hw Ho Hop Hfin Hmax base hdr len s. pose proof Hwf as (_ & _ & _ & Hp & _).
  destruct (frame_key_parts f key rest Hwf Ek) as (Es1 & Es2 & Ed & Hl). fold base hdr len in Es1, Es2, Ed, Hl.
  cbv zeta. destruct (Nat.ltb_spec (length base) (hdr + 4 + Z.to_nat len)) as [Hs|_]; [lia|].
  eexists. split; [by apply process_frame_spec|].
  rewrite Es1, Es2, Ed. cbn [s fst snd]. rewrite async_alloc_lucky by done.
  change (unmask key (masking key (f_payload f))) with (masking key (masking key (f_payload f))).
  rewrite masking_involutive.
  assert (E : (if 0 <? len then (true, Some (f_payload f ++ [0]), w) else (true, None, w)) =
    (true, payload_pointer (f_payload f), w)).
  { unfold payload_pointer. fold len. pose proof (blen_nonneg (f_payload f)). fold len in H.
    destruct (Z.ltb_spec 0 len), (Z.eqb_spec len 0); first [done|lia]. }
  rewrite E. cbn [negb]. unfold feed_next.
  by destruct (ws_async_process_frame _ _ _ _ _ _ _) as [[] [r' w']].
Qed.

(** A complete frame is treated as specified. *)
Lemma feed_round f fuel rest r w open :
  frame_wf f -> lucky w -> async_open r open ->
  exists res, frame_done f (rfc_step open f) w res /\
    feed_loop park_limit cb (S fuel) (frame_bytes f ++ rest) (r, w) = feed_next fuel rest res.
Proof.
  intros Hwf Hw Ho. pose proof (frame_bytes_long f) as Hlong. pose proof (async_length_spec f rest Hwf) as Hlen.
  cbn [feed_loop].
  destruct (Nat.ltb_spec (length (frame_bytes f ++ rest)) 2) as [Hs|_]; [rewrite length_app in Hs; lia|].
  unfold rfc_step. destruct (frame_head_bytes f) as [|b0 [|b1 [|? ?]]] eqn:Eh; try done.
  destruct (head_tests f b0 b1 Hwf Eh) as (E1 & E2 & E3 & E4 & E5).
  assert (R0 : rd (frame_bytes f ++ rest) 0 = b0) by (unfold frame_bytes; by rewrite Eh).
  assert (R1 : rd (frame_bytes f ++ rest) 1 = b1) by (unfold frame_bytes; by rewrite Eh).
  rewrite R0, R1, E1, E2, E3, E4, E5, Hlen, valid_opcode_rfc. cbv zeta.
  assert (Hno : exists res, frame_done f (Refuse [] false) w res /\
    (None, (r, w)) = feed_next fuel rest res) by by exists (false, (r, w)); split; [exists r|].
  destruct (rfc_opcode (f_op f)) eqn:Eop; cbn [negb orb]; [|done].
  destruct (f_rsv f =? 0); cbn [negb orb]; [|done].
  destruct (f_key f) as [key|] eqn:Ek; [|done].
  rewrite bool_decide_eq_false_2 by done. destruct (minimal_form f); cbn [negb].
  2: { exists (false, (r, cwist_websocket_async_close_code park_limit 1002 w)).
       split; [|done]. exists r. by rewrite <- (close_status_frame 1002). }
  change CWIST_WS_MAX_PAYLOAD_BYTES with WS_ASYNC_MAX_PAYLOAD_BYTES.
  destruct (Z.ltb_spec WS_ASYNC_MAX_PAYLOAD_BYTES (blen (f_payload f))) as [Hb|Hb]; cbn [orb]; [done|].
  assert (Hgo : (8 <= f_op f -> f_fin f = true) -> _) by
    exact (fun Hfin => feed_body f key fuel rest r w open Hwf Ek Hw Ho Eop Hfin Hb).
  destruct (Z.leb_spec 8 (f_op f)) as [H8|H8]; cbn [andb]; [|apply Hgo; lia].
  destruct (Z.ltb_spec 125 (blen (f_payload f))); cbn [orb]; [done|].
  destruct (f_fin f) eqn:Ef; cbn [negb]; [by apply Hgo|]. unfold rfc_data.
  by rewrite (proj2 (Z.leb_le _ _)) by lia.
Qed.

(** ** An incomplete frame *)

Lemma split_parts (base : bytes) (n m : nat) :
  (n + m <= length base)%nat -> base = take n base ++ sub base n m ++ drop (n + m) base.
Proof.
  intros H. unfold sub. rewrite <- drop_drop.
  by rewrite (take_drop m (drop n base)), take_drop.
Qed.

Lemma drop_parts (base : bytes) (n m : nat) :
  (n + m <= length base)%nat -> drop n base = sub base n m ++ drop (n + m) base.
Proof. intros H. unfold sub. by rewrite <- drop_drop, take_drop. Qed.

Lemma length_sub_in (base : bytes) n m : (n + m <= length base)%nat -> length (sub base n m) = m.
Proof. intros H. unfold sub. rewrite length_take, length_drop. lia. Qed.

Lemma sub_ok (base : bytes) n m : bytes_ok base -> bytes_ok (sub base n m).
Proof. intros H. unfold sub. by apply Forall_take, Forall_drop. Qed.

Lemma async_length_inv code base n hdr :
  0 <= code < 128 -> bytes_ok base -> (2 <= length base)%nat ->
  read_async_length code base = LenIs n hdr ->
  exists form ext, ext = sub base 2 (hdr - 2) /\ hdr = (2 + length ext)%nat /\ (hdr <= length base)%nat /\
    0 <= n < form_limit form /\
    forall f, f_form f = form -> blen (f_payload f) = n -> length_code f = code /\ length_ext f = ext.
Proof.
  intros Hcode Hok H2. unfold read_async_length. destruct (Z.eqb_spec code 126) as [->|N1].
  { destruct (Nat.ltb_spec (length base) 4) as [|H4]; [done|]. cbv zeta.
    destruct base as [|b0 [|b1 [|x [|y base]]]]; cbn in H4; try lia.
    change (rd (b0 :: b1 :: x :: y :: base) 2) with x. change (rd (b0 :: b1 :: x :: y :: base) 3) with y.
    assert (Hxy : bytes_ok [x; y]) by apply (sub_ok (b0 :: b1 :: x :: y :: base) 2 2 Hok).
    pose proof (list.Forall_cons_1 _ _ _ Hxy) as [Hx Hy]. apply list.Forall_cons_1 in Hy as [Hy _].
    rewrite <- length_field_16, length_value_16 by done.
    pose proof (big_endian_value [x; y] Hxy) as [Eb Hr].
    destruct (be_value [x; y] <? 126); [done|]. intros [= <- <-].
    exists Len16, [x; y]. split_and!; [done|done|cbn; lia|lia|cbn in *; lia|].
    intros f Ef En. unfold length_code, length_ext. by rewrite Ef, En. }
  destruct (Z.eqb_spec code 127) as [->|N2].
  { destruct (Nat.ltb_spec (length base) 10) as [|H10]; [done|]. cbv zeta.
    assert (He : forall a, fold_left (fun acc i => Z.lor acc (Z.shiftl (rd base (2 + i)) ((7 - Z.of_nat i) * 8)))
      (seq 0 8) a = fold_left (fun acc i => Z.lor acc (Z.shiftl (rd (sub base 2 8) i) ((7 - Z.of_nat i) * 8)))
      (seq 0 8) a).
    { apply fold_left_ext_in. intros acc i Hi. apply in_seq in Hi. do 2 f_equal.
      unfold rd, sub. rewrite !nth_lookup, lookup_take_lt, lookup_drop by lia. done. }
    rewrite He, length_value_64 by (first [apply length_sub_in; lia|by apply sub_ok]).
    pose proof (big_endian_value (sub base 2 8) (sub_ok _ _ _ Hok)) as [Eb Hr].
    rewrite length_sub_in in * by lia.
    destruct (be_value (sub base 2 8) <? 65536); [done|]. intros [= <- <-].
    exists Len64, (sub base 2 8). rewrite length_sub_in by lia. split_and!; [done|done|lia|lia|cbn in *; lia|].
    intros f Ef En. unfold length_code, length_ext. by rewrite Ef, En. }
  intros [= <- <-]. exists Len7, []. cbn [form_limit length].
  split_and!; [done|done|lia|lia|lia|].
  intros f Ef En. unfold length_code, length_ext. by rewrite Ef, En.
Qed.

(** A length that is there stays what it is. *)
Lemma read_async_length_app code base x :
  (2 <= length base)%nat -> read_async_length code base <> LenWait ->
  read_async_length code (base ++ x) = read_async_length code base.
Proof.
  intros H2. unfold read_async_length. rewrite length_app. destruct (code =? 126).
  { destruct (Nat.ltb_spec (length base) 4); [done|]. intros _.
    rewrite (proj2 (Nat.ltb_ge _ _)) by lia. cbv zeta. by rewrite !rd_app_l by lia. }
  destruct (code =? 127); [|done]. destruct (Nat.ltb_spec (length base) 10); [done|]. intros _.
  rewrite (proj2 (Nat.ltb_ge _ _)) by lia. cbv zeta.
  erewrite (fold_left_ext_in _ _ (seq 0 8)); [done|]. intros acc i Hi. apply in_seq in Hi.
  by rewrite rd_app_l by lia.
Qed.

(** Waiting for more, or refused from the head alone, whatever follows. *)
Lemma feed_tail fuel base r w :
  bytes_ok base -> no_frame base ->
  feed_loop park_limit cb fuel base (r, w) = (Some base, (r, w)) \/
  exists w', feed_loop park_limit cb fuel base (r, w) = (None, (r, w')) /\
    forall k x, feed_loop park_limit cb (S k) (base ++ x) (r, w) = (None, (r, w')).
Proof.
  intros Hok Hno. destruct fuel as [|fuel]; [by left|]. cbn [feed_loop].
  destruct (Nat.ltb_spec (length base) 2) as [|H2]; [by left|].
  assert (Ex : forall x, (length (base ++ x) <? 2)%nat = false /\ rd (base ++ x) 0 = rd base 0 /\
    rd (base ++ x) 1 = rd base 1).
  { intros x. rewrite !rd_app_l, length_app by lia. by rewrite (proj2 (Nat.ltb_ge _ _)) by lia. }
  destruct (negb (Z.land (rd base 0) 15 =? 0) && _ && _ && _ && _ && _) eqn:T1.
  { right. eexists. split; [done|]. intros k x. cbn [feed_loop]. destruct (Ex x) as (-> & -> & _). by rewrite T1. }
  destruct (negb (Z.land (rd base 0) 112 =? 0)) eqn:T2.
  { right. eexists. split; [done|]. intros k x. cbn [feed_loop]. destruct (Ex x) as (-> & -> & _). by rewrite T1, T2. }
  destruct (Z.land (rd base 1) 128 =? 0) eqn:Em.
  { right. eexists. split; [done|]. intros k x. cbn [feed_loop]. destruct (Ex x) as (-> & -> & ->). by rewrite T1, T2, Em. }
  assert (U0 : is_u8 (rd base 0)) by by apply bytes_ok_rd.
  assert (U1 : is_u8 (rd base 1)) by by apply bytes_ok_rd.
  destruct (byte_tests _ U1) as (_ & _ & T3 & _).
  assert (Hlen : forall x, read_async_length (Z.land (rd base 1) 127) base <> LenWait ->
    read_async_length (Z.land (rd base 1) 127) (base ++ x) = read_async_length (Z.land (rd base 1) 127) base)
    by (intros x; by apply read_async_length_app).
  destruct (read_async_length _ base) as [| |n hdr] eqn:El; [by left| |].
  { right. eexists. split; [done|]. intros k x. cbn [feed_loop]. destruct (Ex x) as (-> & -> & ->). rewrite T1, T2, Em. by rewrite Hlen. }
  apply async_length_inv in El as (form & ext & Eext & Ehdr & Hhdr & Hn & Hf); [|rewrite T3; zlia|done|done].
  destruct (WS_ASYNC_MAX_PAYLOAD_BYTES <? n) eqn:T4.
  { right. eexists. split; [done|]. intros k x. cbn [feed_loop]. destruct (Ex x) as (-> & -> & ->). rewrite T1, T2, Em. by rewrite Hlen, T4. }
  destruct ((8 <=? Z.land (rd base 0) 15) && _) eqn:T5.
  { right. eexists. split; [done|]. intros k x. cbn [feed_loop]. destruct (Ex x) as (-> & -> & ->). rewrite T1, T2, Em. by rewrite Hlen, T4, T5. }
  destruct (Nat.ltb_spec (length base) (hdr + 4 + Z.to_nat n)) as [|Hfull]; [by left|].
  exfalso. set (b := sub base (hdr + 4) (Z.to_nat n)). set (key := sub base hdr 4).
  assert (Eb : blen b = n) by (unfold blen, b; rewrite length_sub_in by lia; lia).
  destruct (complete_frame (rd base 0) (rd base 1) form ext key b) as (f & Hwf & Ef);
    [done|done|done|by rewrite Eb|lia|apply length_sub_in; lia|by apply sub_ok|by apply sub_ok|].
  apply (Hno f (drop (hdr + 4 + Z.to_nat n) base) Hwf). rewrite Ef, <- !app_assoc.
  rewrite (split_parts base 2 (hdr - 2)) at 1 by lia. rewrite <- Eext.
  replace (2 + (hdr - 2))%nat with hdr by lia.
  f_equal; [by destruct base as [|? [|? ?]]; cbn in H2; try lia|]. f_equal.
  rewrite (drop_parts base hdr 4) by lia. f_equal. apply drop_parts. lia.
Qed.

(** Bytes that wait for the rest of a frame are refused only if every frame that
    starts with them is refused, in this way. *)
Definition refused_head (open : progress) (tail : bytes) (w w' : async_io) : Prop :=
  (exists f rest, frame_wf f /\ frame_bytes f = tail ++ rest) /\
  forall f rest, frame_wf f -> frame_bytes f = tail ++ rest ->
    exists reply c, rfc_step open f = Refuse reply c /\ w' = ref_refuse reply c w.

Lemma feed_refused_head base r w open w' :
  bytes_ok base -> no_frame base -> lucky w -> async_open r open ->
  (forall k x, feed_loop park_limit cb (S k) (base ++ x) (r, w) = (None, (r, w'))) ->
  refused_head open base w w'.
Proof.
  intros Hok Hno Hw Ho H. split; [by apply frame_starts|]. intros f rest Hwf Ef.
  destruct (feed_round f 0 [] r w open Hwf Hw Ho) as (res & Hd & E). rewrite app_nil_r, Ef, H in E.
  unfold feed_next in E. destruct Hd as (r' & Hd). destruct (rfc_step open f) as [o|op data reply c o|reply c].
  - destruct Hd as [-> _]. cbn [fst snd negb] in E. by destruct (terminate_pending w).
  - destruct Hd as [-> _]. cbn [fst snd negb] in E. by destruct (terminate_pending _).
  - rewrite Hd in E. cbn [fst snd negb] in E. injection E as _ ->. by exists reply, c.
Qed.

(** ** All of the stash *)

(** What feeding comes to, against the reference: the same replies, messages
    and state, and in the stash, with what was not read, what is still to be
    treated.  Behind the last complete frame the bytes wait, or are refused for
    what they start. *)
Definition feed_agrees (ref : ref_result * async_io) (tail unread : bytes)
    (res : bool * cwist_websocket_async) : Prop :=
  let '(ok, (r, w)) := res in
  match ref with
  | (RefError, w1) => ok = false /\ w = w1
  | (RefStopped fs open, w1) =>
      ok = true /\ w = w1 /\ stash r ++ unread = concat (map frame_bytes fs) ++ tail /\ async_open r open
  | (RefAll open, w1) =>
      (ok = true /\ w = w1 /\ unread = [] /\ stash r = tail /\ async_open r open) \/
      (ok = false /\ refused_head open tail w1 w)
  end.

Definition feed_result (res : option bytes * cwist_websocket_async) : bool * cwist_websocket_async :=
  match res with
  | (Some rest, s) => (true, (s.1 <| stash := rest |>, s.2))
  | (None, s) => (false, s)
  end.

Lemma async_open_stash r b open : async_open r open -> async_open (r <| stash := b |>) open.
Proof. by destruct open as [[op acc]|]. Qed.

Lemma feed_loop_spec tail :
  bytes_ok tail -> no_frame tail ->
  forall fs fuel r w open, Forall frame_wf fs -> lucky w -> async_open r open ->
  (length (concat (map frame_bytes fs) ++ tail) <= fuel)%nat ->
  feed_agrees (async_ref open fs w) tail []
    (feed_result (feed_loop park_limit cb fuel (concat (map frame_bytes fs) ++ tail) (r, w))).
Proof.
  intros Hok Hno. induction fs as [|f fs IH]; intros fuel r w open Hwf Hw Ho Hfuel; cbn [map concat async_ref].
  { rewrite app_nil_l. destruct (feed_tail fuel tail r w Hok Hno) as [->|(w' & -> & Hx)];
      cbn [feed_result feed_agrees fst snd].
    - left. split_and!; [done..|by apply async_open_stash].
    - right. split; [done|]. by apply (feed_refused_head tail r). }
  apply list.Forall_cons_1 in Hwf as [Hf Hwf]. cbn [map concat] in Hfuel.
  pose proof (frame_bytes_long f). rewrite <- app_assoc in *. rewrite length_app in Hfuel.
  destruct fuel as [|fuel]; [lia|].
  destruct (feed_round f fuel (concat (map frame_bytes fs) ++ tail) r w open Hf Hw Ho) as (res & Hd & ->).
  assert (Hgo : forall open' r' w', lucky w' -> async_open r' open' ->
    feed_agrees (if terminate_pending w' then (RefStopped fs open', w') else async_ref open' fs w') tail []
      (feed_result (feed_next fuel (concat (map frame_bytes fs) ++ tail) (true, (r', w'))))).
  { intros open' r' w' Hw' Ho'. unfold feed_next. cbn [fst snd negb].
    destruct (terminate_pending w').
    - cbn. rewrite app_nil_r. split_and!; [done|done|done|by apply async_open_stash].
    - apply IH; [done|done|done|lia]. }
  destruct Hd as (r' & Hd). destruct (rfc_step open f) as [open'|op data reply c open'|reply c].
  - destruct Hd as [-> Ho']. by apply Hgo.
  - destruct Hd as [-> Ho']. apply Hgo; [by apply ref_deliver_lucky|done].
  - by rewrite Hd.
Qed.

Lemma feed_spec fs tail r w open :
  Forall frame_wf fs -> bytes_ok tail -> no_frame tail -> lucky w -> async_open r open ->
  stash r = concat (map frame_bytes fs) ++ tail ->
  feed_agrees (async_ref open fs w) tail [] (ws_async_feed park_limit cb (r, w)).
Proof.
  intros Hwf Hok Hno Hw Ho Hs. unfold ws_async_feed. cbn [fst]. rewrite Hs.
  change (match ?x with (Some rest, s) => _ | (None, s) => _ end) with (feed_result x).
  by apply feed_loop_spec.
Qed.

(** ** However the bytes come in *)

Lemma stash_append_spec b r w open :
  lucky w -> async_open r open ->
  exists r', ws_async_stash_append b (r, w) = (true, (r', w)) /\ stash r' = stash r ++ b /\
    async_open r' open.
Proof.
  intros Hw Ho. unfold ws_async_stash_append. destruct (Z.eqb_spec (blen b) 0) as [E|_].
  { assert (b = []) as -> by (apply length_zero_iff_nil; unfold blen in E; lia).
    exists r. by rewrite app_nil_r. }
  rewrite async_alloc_lucky by done. cbv zeta.
  destruct (stash_cap r <? _); eexists; (split; [done|]); (split; [done|]); apply async_open_stash; [|done].
  by destruct open as [[op acc]|].
Qed.

Lemma recv_loop_spec segs got r w open :
  lucky w -> async_open r open ->
  exists r' got', async_recv_loop (map RecvData segs) got (r, w) = (false, false, got', (r', w)) /\
    stash r' = stash r ++ concat segs /\ async_open r' open.
Proof.
  revert got r. induction segs as [|b segs IH]; intros got r Hw Ho; cbn [map async_recv_loop concat].
  - exists r, got. by rewrite app_nil_r.
  - destruct (stash_append_spec b r w open Hw Ho) as (r1 & -> & E1 & Ho1).
    destruct (IH true r1 Hw Ho1) as (r2 & got2 & -> & E2 & Ho2).
    exists r2, got2. split; [done|]. by rewrite E2, E1, app_assoc.
Qed.
(** Readable events one after the other, each with its bytes in pieces, until the
    connection is refused or to end; and the bytes not read then. *)
Fixpoint feed_events (events : list (list bytes)) (s : cwist_websocket_async)
    : bytes * (bool * cwist_websocket_async) :=
  match events with
  | [] => ([], (true, s))
  | segs :: events =>
      let '(eof, err, _, s) := async_recv_loop (map RecvData segs) false s in
      let (ok, s) := if eof || err then (false, s) else ws_async_feed park_limit cb s in
      if ok && negb (terminate_pending s.2) then feed_events events s
      else (concat (map (@concat Z) events), (ok, s))
  end.

(** The frames complete so far, and the rest of the stream. *)
Lemma split_frames fs : forall tail a rest,
  Forall frame_wf fs -> bytes_ok tail -> no_frame tail ->
  concat (map frame_bytes fs) ++ tail = a ++ rest ->
  exists fs1 fs2 t, fs = fs1 ++ fs2 /\ a = concat (map frame_bytes fs1) ++ t /\
    concat (map frame_bytes fs2) ++ tail = t ++ rest /\ no_frame t /\ bytes_ok t /\
    match fs2 with [] => True | f :: _ => exists more, frame_bytes f = t ++ more end.
Proof.
  induction fs as [|f fs IH]; intros tail a rest Hwf Hok Hno E; cbn [map concat] in E.
  { exists [], [], a. split_and!; [done..| | |done].
    - intros g x Hg ->. rewrite <- app_assoc in E. by apply (Hno g (x ++ rest)).
    - cbn in E. rewrite E in Hok. by apply Forall_app in Hok as [Hok _]. }
  apply list.Forall_cons_1 in Hwf as [Hf Hwf]. rewrite <- app_assoc in E.
  destruct (Nat.le_gt_cases (length (frame_bytes f)) (length a)) as [Hl|Hl].
  - assert (Ea : a = frame_bytes f ++ drop (length (frame_bytes f)) a).
    { rewrite <- (take_app_length (frame_bytes f) (concat (map frame_bytes fs) ++ tail)) at 1.
      rewrite E, take_app_le by done. by rewrite take_drop. }
    rewrite Ea, <- app_assoc in E. apply app_inv_head in E.
    destruct (IH tail _ rest Hwf Hok Hno E) as (fs1 & fs2 & t & -> & Et & E2 & H1 & H2 & H3).
    exists (f :: fs1), fs2, t. split_and!; [done| |done..]. cbn [map concat]. rewrite <- app_assoc, <- Et. exact Ea.
  - assert (Ef : frame_bytes f = a ++ drop (length a) (frame_bytes f)).
    { rewrite <- (take_app_length a rest) at 1. rewrite <- E, take_app_le by lia. by rewrite take_drop. }
    exists [], (f :: fs), a. split_and!; [done|done|cbn [map concat]; by rewrite <- app_assoc| | |by eexists].
    + intros g x Hg ->. rewrite <- app_assoc in Ef. destruct (frame_ends f g [] (x ++ drop (length (frame_bytes g ++ x)) (frame_bytes f))) as [Efg _];
        [done|done|rewrite app_nil_r; exact Ef|]. rewrite Efg in Hl. rewrite length_app in Hl. lia.
    + pose proof (frame_bytes_ok f Hf) as Hfo. rewrite Ef in Hfo. by apply Forall_app in Hfo as [Hfo _].
Qed.

Lemma async_ref_app fs1 fs2 : forall open w,
  async_ref open (fs1 ++ fs2) w =
  match async_ref open fs1 w with
  | (RefError, w1) => (RefError, w1)
  | (RefStopped fs open, w1) => (RefStopped (fs ++ fs2) open, w1)
  | (RefAll open, w1) => async_ref open fs2 w1
  end.
Proof.
  induction fs1 as [|f fs1 IH]; intros open w; [done|]. cbn [app async_ref].
  destruct (rfc_step open f) as [o|op data reply c o|reply c]; [| |done];
    destruct (terminate_pending _); auto.
Qed.

(** The reference stops where the connection is to end. *)
Lemma async_ref_pending fs : forall open w,
  lucky w -> terminate_pending w = false ->
  match async_ref open fs w with
  | (RefError, _) => True
  | (RefStopped _ _, w1) => terminate_pending w1 = true
  | (RefAll _, w1) => terminate_pending w1 = false /\ lucky w1
  end.
Proof.
  induction fs as [|f fs IH]; intros open w Hw Hp; [done|]. cbn [async_ref].
  destruct (rfc_step open f) as [o|op data reply c o|reply c]; [| |done].
  - rewrite Hp. by apply IH.
  - destruct (terminate_pending (ref_deliver _ _ _ _ w)) eqn:E; [done|]. by apply IH; [apply ref_deliver_lucky|].
Qed.

Lemma feed_events_spec events : forall fs tail r w open,
  Forall frame_wf fs -> bytes_ok tail -> no_frame tail -> lucky w -> async_open r open ->
  terminate_pending w = false -> no_frame (stash r) ->
  stash r ++ concat (map (@concat Z) events) = concat (map frame_bytes fs) ++ tail ->
  let '(unread, res) := feed_events events (r, w) in feed_agrees (async_ref open fs w) tail unread res.
Proof.
  induction events as [|segs events IH]; intros fs tail r w open Hwf Hok Hno Hw Ho Hp Hs E; cbn [feed_events].
  { cbn [map concat] in E. rewrite app_nil_r in E. destruct fs as [|f fs].
    - left. by split_and!.
    - cbn [map concat] in E. rewrite <- app_assoc in E. apply list.Forall_cons_1 in Hwf as [Hf _].
      by destruct (Hs f _ Hf E). }
  cbn [map concat] in E. rewrite app_assoc in E.
  destruct (recv_loop_spec segs false r w open Hw Ho) as (r1 & got & -> & E1 & Ho1). cbn [orb].
  rewrite <- E1 in E. symmetry in E.
  destruct (split_frames fs tail (stash r1) _ Hwf Hok Hno E) as (fs1 & fs2 & t & -> & Et & E2 & Ht & Htok & Hpart).
  apply Forall_app in Hwf as [Hwf1 Hwf2]. rewrite async_ref_app.
  pose proof (feed_spec fs1 t r1 w open Hwf1 Htok Ht Hw Ho1 Et) as H.
  pose proof (async_ref_pending fs1 open w Hw Hp) as Hpend.
  destruct (ws_async_feed park_limit cb (r1, w)) as [ok [r2 w2]]. unfold feed_agrees in H.
  destruct (async_ref open fs1 w) as [[|fs' open'|open'] w1].
  - by destruct H as [-> ->].
  - destruct H as (-> & -> & Es & Ho2). cbn [snd]. rewrite Hpend. cbn [andb negb feed_agrees].
    split_and!; [done|done| |done]. rewrite app_nil_r in Es. rewrite map_app, concat_app, <- app_assoc, E2, app_assoc.
    by rewrite <- Es.
  - destruct Hpend as [Hp1 Hw1]. destruct H as [(-> & -> & _ & Es & Ho2)|(-> & Hex & Hall)]; cbn [snd andb].
    + rewrite Hp1. cbn [negb]. apply IH; try done; rewrite Es; done.
    + destruct fs2 as [|f fs2]; cbn [map concat async_ref feed_agrees] in *.
      * right. split; [done|]. split; [by apply frame_starts|]. cbn in E2. intros g x Hg Eg.
        apply (Hall g (concat (map (@concat Z) events) ++ x) Hg). by rewrite Eg, E2, app_assoc.
      * destruct Hpart as [more Ef]. apply list.Forall_cons_1 in Hwf2 as [Hf _].
        by destruct (Hall f more Hf Ef) as (reply & c & -> & ->).
Qed.
End receive.

(** ** The theorem *)

(** C26: while allocations succeed, what a readable socket delivers, over any
    number of events and in whatever pieces, makes of the connection exactly what
    the frames in it say: the replies, the messages handed to the callback (with
    the calls the callback makes), the refusals and the message in progress are
    those of the reference [async_ref].  It goes on unless a frame is refused or
    the connection is to end; then the stash and what is not read are the bytes
    behind that frame, and otherwise the stash is what comes after the last
    complete frame.  These bytes are refused before the rest of their frame is
    there only if every frame that starts so is refused, with the same effect. *)
Theorem async_feed_refines park_limit cb events fs tail r w open :
  Forall frame_wf fs -> bytes_ok tail -> no_frame tail -> amem w = [] -> async_open r open ->
  terminate_pending w = false -> no_frame (stash r) ->
  stash r ++ concat (map (@concat Z) events) = concat (map frame_bytes fs) ++ tail ->
  let '(unread, res) := feed_events park_limit cb events (r, w) in
  feed_agrees park_limit (async_ref park_limit cb open fs w) tail unread res.
Proof. apply feed_events_spec. Qed.

(** A text in two fragments around a ping, in pieces, then the start of a frame. *)
Abbreviation demo_async_frames :=
  [demo_frame false 1 [72; 101]; demo_frame true 9 [1; 2; 3]; demo_frame true 0 [108; 108; 111]].
Abbreviation demo_async_tail := [130].
Abbreviation demo_async_stream := (concat (map frame_bytes demo_async_frames) ++ demo_async_tail).
Abbreviation demo_async_conn := (async_new [] [] [] 100).
Abbreviation demo_echo := (fun fs : list cwist_ws_frame =>
  match rev fs with f :: _ => [AppSend 2 (fr_payload f) (fr_payload_len f)] | [] => [] end).

Lemma no_frame_short tail : (length tail < 2)%nat -> no_frame tail.
Proof.
  intros H f rest _ E. apply (f_equal length) in E. rewrite length_app in E.
  pose proof (frame_bytes_long f). lia.
Qed.

Lemma async_feed_refines_witness :
  let events := [[take 4 demo_async_stream; sub demo_async_stream 4 3]; []; [drop 7 demo_async_stream]] in
  Forall frame_wf demo_async_frames /\
  let '(unread, res) := feed_events 65536 demo_echo events demo_async_conn in
  feed_agrees 65536 (async_ref 65536 demo_echo None demo_async_frames demo_async_conn.2) demo_async_tail unread res.
Proof.
  cbv zeta. assert (Hwf : Forall frame_wf demo_async_frames) by by apply frames_okb_wf.
  split; [exact Hwf|]. apply (async_feed_refines 65536 demo_echo _ _ _ demo_async_conn.1 demo_async_conn.2 None);
    [exact Hwf|by apply bytes_okb_ok|apply no_frame_short; cbn; lia|reflexivity|done|reflexivity|apply no_frame_nil|by vm_compute].
Defined.

(** The echo of the ping and of the text, the pong before them. *)
Example demo_async_run :
  let '(_, _, _, s) := async_recv_loop [RecvData demo_async_stream] false demo_async_conn in
  let '(ok, (r, w)) := ws_async_feed 65536 demo_echo s in
  (ok, stash r, awire w, length (delivered w)) =
  (true, demo_async_tail, server_frame 10 [1; 2; 3] ++ server_frame 2 [1; 2; 3] ++ server_frame 2 [72; 101; 108; 108; 111], 2%nat).
Proof. vm_compute. reflexivity. Qed.
