(* ===== verification/Timers.v ===== *)
(** * Reactor timers (sys/io/reactor.c)

    One-shot timers in a binary min-heap of pointers; a timer knows its place
    in the heap.  A timer is a number standing for its address; the callbacks
    are a function from the timers fired so far to the calls the last of them
    makes.  The clock is the list of readings to come. *)

From S2P Require Import Prelude.
From Stdlib Require Import Sorting.Sorted.

(** ** Data *)

Record cwist_reactor_timer := MkTimer { deadline_ns : Z; heap_slot : Z; has_cb : bool }.
#[export] Instance timer_fields : Fields cwist_reactor_timer := fun t =>
  MkTimer t.(deadline_ns) t.(heap_slot) t.(has_cb).

(** The timers in memory, the heap array with its used part [timer_n], and
    what comes from outside: the last and the next readings of the clock,
    allocations, the timers fired. *)
Record timer_queue := MkQueue {
  timers : gmap nat cwist_reactor_timer;
  timer_heap : list nat; timer_n : Z; timer_cap : Z;
  time : Z; readings : list Z; tmem : oracle; fired : list nat }.
#[export] Instance timer_queue_fields : Fields timer_queue := fun r =>
  MkQueue r.(timers) r.(timer_heap) r.(timer_n) r.(timer_cap) r.(time) r.(readings) r.(tmem) r.(fired).

(** [*timer], [timer_heap[i]] and the deadline there. *)
Definition deref (r : timer_queue) (id : nat) : cwist_reactor_timer :=
  default (MkTimer 0 0 false) (r.(timers) !! id).
Definition heap_at (r : timer_queue) (i : Z) : nat := nth (Z.to_nat i) r.(timer_heap) 0%nat.
Definition deadline_at (r : timer_queue) (i : Z) : Z := deadline_ns (deref r (heap_at r i)).

Definition set_timer (id : nat) (t : cwist_reactor_timer) (r : timer_queue) : timer_queue :=
  r <| timers := <[id := t]> r.(timers) |>.

Definition reactor_now_ns (r : timer_queue) : Z * timer_queue :=
  match r.(readings) with
  | [] => (r.(time), r)
  | t :: ts => (t, r <| time := t |> <| readings := ts |>)
  end.

(** ** The heap *)

Definition timer_heap_place (i : Z) (t : nat) (r : timer_queue) : timer_queue :=
  let r := r <| timer_heap := <[Z.to_nat i := t]> r.(timer_heap) |> in
  set_timer t ((deref r t) <| heap_slot := u32 (i + 1) |>) r.

(** The loops: where [t] goes, and the heap with everything else moved. *)
Fixpoint up_loop (fuel : nat) (t : nat) (i : Z) (r : timer_queue) : Z * timer_queue :=
  match fuel with
  | O => (i, r)
  | S fuel =>
      if 0 <? i then
        let parent := (i - 1) / 2 in
        if deadline_at r parent <=? deadline_ns (deref r t) then (i, r)
        else up_loop fuel t parent (timer_heap_place i (heap_at r parent) r)
      else (i, r)
  end.
Definition timer_heap_up (i : Z) (r : timer_queue) : timer_queue :=
  let t := heap_at r i in
  let (i, r) := up_loop (Z.to_nat i) t i r in
  timer_heap_place i t r.

Fixpoint down_loop (fuel : nat) (t : nat) (i : Z) (r : timer_queue) : Z * timer_queue :=
  match fuel with
  | O => (i, r)
  | S fuel =>
      let child := u32 (2 * i + 1) in
      if r.(timer_n) <=? child then (i, r)
      else
        let child :=
          if (u32 (child + 1) <? r.(timer_n)) && (deadline_at r (u32 (child + 1)) <? deadline_at r child)
          then u32 (child + 1) else child in
        if deadline_ns (deref r t) <=? deadline_at r child then (i, r)
        else down_loop fuel t child (timer_heap_place i (heap_at r child) r)
  end.
Definition timer_heap_down (i : Z) (r : timer_queue) : timer_queue :=
  let t := heap_at r i in
  let (i, r) := down_loop (Z.to_nat r.(timer_n)) t i r in
  timer_heap_place i t r.

Definition timer_heap_remove (t : nat) (r : timer_queue) : timer_queue :=
  let i := u32 (heap_slot (deref r t) - 1) in
  let r := set_timer t ((deref r t) <| heap_slot := 0 |>) r in
  let r := r <| timer_n := u32 (r.(timer_n) - 1) |> in
  let last := heap_at r r.(timer_n) in
  if i =? r.(timer_n) then r
  else
    let r := timer_heap_place i last r in
    if (0 <? i) && (deadline_ns (deref r last) <? deadline_at r ((i - 1) / 2)) then timer_heap_up i r
    else timer_heap_down i r.

(** ** Operations *)

Definition cwist_reactor_timer_init (id : nat) (cb : bool) (r : timer_queue) : timer_queue :=
  set_timer id (MkTimer 0 0 cb) r.

(** Doubling the array when it is full. *)
Definition timer_heap_room (r : timer_queue) : bool * timer_queue :=
  if r.(timer_n) =? r.(timer_cap) then
    let cap := if negb (r.(timer_cap) =? 0) then u32 (r.(timer_cap) * 2) else 64 in
    let (ok, o) := alloc r.(tmem) in
    let r := r <| tmem := o |> in
    if ok then
      (true, r <| timer_heap := take (Z.to_nat r.(timer_n)) r.(timer_heap) ++
                                replicate (Z.to_nat (cap - r.(timer_n))) 0%nat |>
               <| timer_cap := cap |>)
    else (false, r)
  else (true, r).

Definition cwist_reactor_timer_arm (id : nat) (delay_us : Z) (r : timer_queue) : bool * timer_queue :=
  if negb (has_cb (deref r id)) then (false, r)
  else
    let r := if negb (heap_slot (deref r id) =? 0) then timer_heap_remove id r else r in
    let (ok, r) := timer_heap_room r in
    if negb ok then (false, r)
    else
      let (now, r) := reactor_now_ns r in
      let r := set_timer id ((deref r id) <| deadline_ns := u64 (now + u64 (delay_us * 1000)) |>) r in
      let r := r <| timer_n := u32 (r.(timer_n) + 1) |> in
      let r := timer_heap_place (u32 (r.(timer_n) - 1)) id r in
      (true, timer_heap_up (u32 (r.(timer_n) - 1)) r).

Definition cwist_reactor_timer_cancel (id : nat) (r : timer_queue) : timer_queue :=
  if heap_slot (deref r id) =? 0 then r else timer_heap_remove id r.

Definition cwist_reactor_timer_armed (id : nat) (r : timer_queue) : bool :=
  negb (heap_slot (deref r id) =? 0).

Definition REACTOR_IDLE_WAIT_NS : Z := 100000000.

Definition reactor_wait_ns (r : timer_queue) : Z * timer_queue :=
  if r.(timer_n) =? 0 then (REACTOR_IDLE_WAIT_NS, r)
  else
    let (now, r) := reactor_now_ns r in
    let deadline := deadline_at r 0 in
    if deadline <=? now then (0, r)
    else
      let wait := deadline - now in
      ((if wait <? REACTOR_IDLE_WAIT_NS then wait else REACTOR_IDLE_WAIT_NS), r).

(** ** Running *)

Inductive timer_call := CallArm (id : nat) (delay_us : Z) | CallCancel (id : nat).
Definition run_timer_call (r : timer_queue) (c : timer_call) : timer_queue :=
  match c with
  | CallArm id delay_us => (cwist_reactor_timer_arm id delay_us r).2
  | CallCancel id => cwist_reactor_timer_cancel id r
  end.

Section run.
Context (react : list nat -> list timer_call).

Definition fire (t : nat) (r : timer_queue) : timer_queue :=
  let r := timer_heap_remove t r in
  let r := r <| fired := r.(fired) ++ [t] |> in
  fold_left run_timer_call (react r.(fired)) r.

Fixpoint run_timers_loop (budget : nat) (now : Z) (r : timer_queue) : timer_queue :=
  match budget with
  | O => r
  | S budget =>
      if (0 <? r.(timer_n)) && (deadline_at r 0 <=? now)
      then run_timers_loop budget now (fire (heap_at r 0) r) else r
  end.
Definition reactor_run_timers (r : timer_queue) : timer_queue :=
  if r.(timer_n) =? 0 then r
  else
    let (now, r) := reactor_now_ns r in
    run_timers_loop (Z.to_nat r.(timer_n)) now r.
End run.

Definition timers_new (ticks : list Z) (o : oracle) : timer_queue := MkQueue ∅ [] 0 0 0 ticks o [].
