(* ===== verification/TimerHeap.v ===== *)
(** * The timer heap's invariant

    Sifting is a sequence of swaps of the heap in which the moved timer is
    thought of as already standing in the hole.  Whatever calls are made, from
    callbacks or outside, the heap stays ordered and every timer knows its
    place. *)

From S2P Require Import Prelude.
From S2P Require Import Timers.

(** ** Reading after writing *)

Lemma heap_at_place i t r j :
  0 <= i < Z.of_nat (length (timer_heap r)) -> 0 <= j ->
  heap_at (timer_heap_place i t r) j = if j =? i then t else heap_at r j.
Proof.
  intros Hi Hj. unfold heap_at. change (timer_heap (timer_heap_place i t r))
    with (<[Z.to_nat i := t]> (timer_heap r)). rewrite !nth_lookup.
  destruct (Z.eqb_spec j i) as [->|H].
  - by rewrite list_lookup_insert_eq by lia.
  - by rewrite list_lookup_insert_ne by lia.
Qed.

Lemma deref_set id t r id' : deref (set_timer id t r) id' = if decide (id' = id) then t else deref r id'.
Proof.
  unfold deref. change (timers (set_timer id t r)) with (<[id := t]> (timers r)).
  destruct (decide (id' = id)) as [->|H]; [by rewrite lookup_insert_eq|by rewrite lookup_insert_ne].
Qed.

Lemma deref_place i t r id :
  deref (timer_heap_place i t r) id =
    if decide (id = t) then (deref r t) <| heap_slot := u32 (i + 1) |> else deref r id.
Proof. unfold timer_heap_place. by rewrite deref_set. Qed.

Lemma deadline_place i t r id : deadline_ns (deref (timer_heap_place i t r) id) = deadline_ns (deref r id).
Proof. rewrite deref_place. by destruct (decide (id = t)) as [->|]. Qed.

(** ** Every timer knows its place *)

Record slots_ok (r : timer_queue) : Prop := {
  so_cap : Z.of_nat (length (timer_heap r)) = timer_cap r;
  so_n : 0 <= timer_n r <= timer_cap r;
  so_slot : forall i, 0 <= i < timer_n r -> heap_slot (deref r (heap_at r i)) = i + 1;
  so_armed : forall id, heap_slot (deref r id) <> 0 ->
    0 < heap_slot (deref r id) <= timer_n r /\ heap_at r (heap_slot (deref r id) - 1) = id }.

Lemma heap_at_inj r i j :
  slots_ok r -> 0 <= i < timer_n r -> 0 <= j < timer_n r -> heap_at r i = heap_at r j -> i = j.
Proof.
  intros H Hi Hj E. pose proof (so_slot r H i Hi). pose proof (so_slot r H j Hj). rewrite E in *. lia.
Qed.

Lemma armed_known r id : heap_slot (deref r id) <> 0 -> is_Some (timers r !! id).
Proof. unfold deref. by destruct (timers r !! id). Qed.

(** The heap has no more entries than there are timers. *)
Lemma heap_size r : slots_ok r -> timer_n r <= Z.of_nat (size (timers r)).
Proof.
  intros H. set (l := map (fun i => heap_at r (Z.of_nat i)) (seq 0 (Z.to_nat (timer_n r)))).
  assert (Hl : length l = Z.to_nat (timer_n r)) by (unfold l; by rewrite length_map, length_seq).
  assert (Hd : NoDup l).
  { apply NoDup_fmap_2_strong; [|apply NoDup_seq]. intros x y Hx Hy E.
    apply elem_of_seq in Hx, Hy. apply heap_at_inj in E; [lia|done|lia|lia]. }
  assert (Hs : list_to_set l ⊆ dom (timers r)).
  { intros id Hid. apply elem_of_list_to_set, list_elem_of_fmap in Hid as (x & -> & Hx).
    apply elem_of_seq in Hx. apply elem_of_dom, armed_known. rewrite (so_slot r H); lia. }
  apply subseteq_size in Hs. rewrite size_list_to_set, size_dom in Hs by done. lia.
Qed.

(** At most this many timers: no index or capacity wraps. *)
Definition few (r : timer_queue) : Prop := Z.of_nat (size (timers r)) < 2147483648.

(** ** Order *)

Definition heap_ordered (n : Z) (d : Z -> Z) : Prop := forall j, 0 < j < n -> d ((j - 1) / 2) <= d j.
(** Except that the entry at [i] may be too early (it must go up) or too late
    (it must go down). *)
Definition up_ordered (n i : Z) (d : Z -> Z) : Prop :=
  (forall j, 0 < j < n -> j <> i -> d ((j - 1) / 2) <= d j) /\
  (0 < i -> forall j, 0 < j < n -> (j - 1) / 2 = i -> d ((i - 1) / 2) <= d j).
Definition down_ordered (n i : Z) (d : Z -> Z) : Prop :=
  (forall j, 0 < j < n -> (j - 1) / 2 <> i -> d ((j - 1) / 2) <= d j) /\
  (0 < i -> forall j, 0 < j < n -> (j - 1) / 2 = i -> d ((i - 1) / 2) <= d j).

Definition exchanged (a b : Z) {A} (d : Z -> A) (j : Z) : A :=
  if j =? a then d b else if j =? b then d a else d j.

Lemma exchanged_l a b {A} (d : Z -> A) : exchanged a b d a = d b.
Proof. unfold exchanged. by rewrite Z.eqb_refl. Qed.
Lemma exchanged_r a b {A} (d : Z -> A) : exchanged a b d b = d a.
Proof. unfold exchanged. rewrite Z.eqb_refl. by destruct (Z.eqb_spec b a) as [->|]. Qed.
Lemma exchanged_ne a b {A} (d : Z -> A) j : j <> a -> j <> b -> exchanged a b d j = d j.
Proof. unfold exchanged. intros. destruct (Z.eqb_spec j a), (Z.eqb_spec j b); congruence. Qed.

Lemma up_step n i d :
  0 < i < n -> up_ordered n i d -> d i < d ((i - 1) / 2) ->
  up_ordered n ((i - 1) / 2) (exchanged i ((i - 1) / 2) d).
Proof.
  intros Hi [Ho Hg] Hlt. set (p := (i - 1) / 2) in *. assert (Hp : 0 <= p < i) by (unfold p; zlia).
  split.
  - intros j Hj Hne. destruct (Z.eq_dec j i) as [->|Hji].
    { fold p. rewrite exchanged_l, exchanged_r. lia. }
    rewrite (exchanged_ne _ _ _ j) by done.
    destruct (Z.eq_dec ((j - 1) / 2) i) as [E|E1]; [rewrite E, exchanged_l; apply Hg; [lia|lia|done]|].
    destruct (Z.eq_dec ((j - 1) / 2) p) as [E|E2].
    { rewrite E, exchanged_r. specialize (Ho j Hj Hji). rewrite E in Ho. lia. }
    rewrite exchanged_ne by done. by apply Ho.
  - intros Hp0 j Hj Ej. assert (Hpp : 0 <= (p - 1) / 2 < p) by zlia.
    rewrite (exchanged_ne _ _ _ ((p - 1) / 2)) by lia. pose proof (Ho p ltac:(lia) ltac:(lia)) as H1.
    destruct (Z.eq_dec j i) as [->|Hji]; [by rewrite exchanged_l|].
    assert (j <> p) by (intros ->; zlia). rewrite exchanged_ne by done.
    pose proof (Ho j Hj Hji) as H2. rewrite Ej in H2. lia.
Qed.

Lemma up_end n i d : up_ordered n i d -> 0 <= i -> (0 < i -> d ((i - 1) / 2) <= d i) -> heap_ordered n d.
Proof.
  intros [Ho _] Hi He j Hj. destruct (Z.eq_dec j i) as [->|H]; [apply He; lia|by apply Ho].
Qed.

Lemma down_step n i c d :
  0 <= i -> c < n -> (c - 1) / 2 = i -> 0 < c -> down_ordered n i d ->
  (forall j, 0 < j < n -> (j - 1) / 2 = i -> d c <= d j) -> d c < d i ->
  down_ordered n c (exchanged i c d).
Proof.
  intros Hi Hcn Ec Hc [Ho Hg] Hmin Hlt. assert (i < c) by zlia.
  split.
  - intros j Hj Hne. destruct (Z.eq_dec j i) as [->|Hji].
    { assert ((i - 1) / 2 < i) by zlia. rewrite exchanged_l, exchanged_ne by lia.
      apply Hg; [lia|lia|done]. }
    destruct (Z.eq_dec j c) as [->|Hjc]; [rewrite Ec, exchanged_l, exchanged_r; lia|].
    rewrite (exchanged_ne _ _ _ j) by done.
    destruct (Z.eq_dec ((j - 1) / 2) i) as [E|E1]; [rewrite E, exchanged_l; by apply Hmin|].
    rewrite exchanged_ne by done. by apply Ho.
  - intros _ j Hj Ej. rewrite Ec, exchanged_l. assert (c < j) by zlia.
    rewrite exchanged_ne by lia. specialize (Ho j Hj ltac:(lia)). by rewrite Ej in Ho.
Qed.

Lemma down_end n i d :
  down_ordered n i d -> (forall j, 0 < j < n -> (j - 1) / 2 = i -> d i <= d j) -> heap_ordered n d.
Proof.
  intros [Ho _] He j Hj. destruct (Z.eq_dec ((j - 1) / 2) i) as [E|H]; [rewrite E; by apply He|by apply Ho].
Qed.

Section ext.
Context (n i : Z) (d d' : Z -> Z) (Hd : forall j, 0 <= j < n -> d j = d' j).

Lemma heap_ordered_ext : heap_ordered n d -> heap_ordered n d'.
Proof. intros H j Hj. rewrite <- !Hd by zlia. by apply H. Qed.
Lemma up_ordered_ext : i < n -> up_ordered n i d -> up_ordered n i d'.
Proof.
  intros Hi [Ho Hg]. split.
  - intros j Hj Hne. rewrite <- !Hd by zlia. by apply Ho.
  - intros H0 j Hj E. rewrite <- !Hd by zlia. by apply Hg.
Qed.
Lemma down_ordered_ext : i < n -> down_ordered n i d -> down_ordered n i d'.
Proof.
  intros Hi [Ho Hg]. split.
  - intros j Hj Hne. rewrite <- !Hd by zlia. by apply Ho.
  - intros H0 j Hj E. rewrite <- !Hd by zlia. by apply Hg.
Qed.
End ext.

(** ** Swapping two entries *)

(** The same timers, armed for the same times. *)
Record same_timers (r r' : timer_queue) : Prop := {
  st_n : timer_n r' = timer_n r; st_cap : timer_cap r' = timer_cap r;
  st_time : time r' = time r; st_readings : readings r' = readings r;
  st_mem : tmem r' = tmem r; st_fired : fired r' = fired r;
  st_dom : dom (timers r') = dom (timers r);
  st_deadline : forall id, deadline_ns (deref r' id) = deadline_ns (deref r id);
  st_cb : forall id, has_cb (deref r' id) = has_cb (deref r id);
  st_armed : forall id, heap_slot (deref r' id) = 0 <-> heap_slot (deref r id) = 0 }.

#[export] Instance same_timers_refl : Reflexive same_timers.
Proof. by constructor. Qed.
#[export] Instance same_timers_trans : Transitive same_timers.
Proof.
  intros r1 r2 r3 [] []. constructor; try congruence. intros id.
  by rewrite st_armed1.
Qed.

Lemma same_timers_few r r' : same_timers r r' -> few r -> few r'.
Proof. intros H. unfold few. by rewrite <- !size_dom, (st_dom _ _ H). Qed.

Record swapped (a b : Z) (r r' : timer_queue) : Prop := {
  sw_len : length (timer_heap r') = length (timer_heap r);
  sw_rest : (timer_n r', timer_cap r', time r', readings r', tmem r', fired r') =
    (timer_n r, timer_cap r, time r, readings r, tmem r, fired r);
  sw_dom : dom (timers r') = dom (timers r);
  sw_at : forall j, 0 <= j < timer_n r -> heap_at r' j = exchanged a b (heap_at r) j;
  sw_deref : forall id, deref r' id =
    if decide (id = heap_at r a) then (deref r id) <| heap_slot := b + 1 |>
    else if decide (id = heap_at r b) then (deref r id) <| heap_slot := a + 1 |> else deref r id }.

Section swap.
Context (a b : Z) (r r' : timer_queue) (Hok : slots_ok r) (H : swapped a b r r').
Context (Ha : 0 <= a < timer_n r) (Hb : 0 <= b < timer_n r) (Hab : a <> b).

Lemma swapped_deadline id : deadline_ns (deref r' id) = deadline_ns (deref r id).
Proof. rewrite (sw_deref _ _ _ _ H). by repeat destruct (decide _). Qed.

Lemma swapped_same : same_timers r r'.
Proof.
  pose proof (sw_rest _ _ _ _ H) as E. injection E as E1 E2 E3 E4 E5 E6.
  constructor; try done.
  - apply (sw_dom _ _ _ _ H).
  - apply swapped_deadline.
  - intros id. rewrite (sw_deref _ _ _ _ H). by repeat destruct (decide _).
  - intros id. rewrite (sw_deref _ _ _ _ H).
    destruct (decide (id = heap_at r a)) as [->|].
    { pose proof (so_slot r Hok a Ha) as Es. rewrite Es. cbn. lia. }
    destruct (decide (id = heap_at r b)) as [->|]; [|done].
    pose proof (so_slot r Hok b Hb) as Es. rewrite Es. cbn. lia.
Qed.

Lemma swapped_slots : slots_ok r'.
Proof.
  pose proof swapped_same as Hs. pose proof (st_n _ _ Hs) as En.
  assert (Hne : heap_at r a <> heap_at r b) by (intros E; by apply heap_at_inj in E).
  constructor.
  - rewrite (st_cap _ _ Hs), (sw_len _ _ _ _ H). apply (so_cap r Hok).
  - rewrite En, (st_cap _ _ Hs). apply (so_n r Hok).
  - intros j Hj. rewrite En in Hj. rewrite (sw_deref _ _ _ _ H), (sw_at _ _ _ _ H) by lia.
    unfold exchanged. destruct (Z.eqb_spec j a) as [->|Hja].
    { rewrite decide_False by done. by rewrite decide_True. }
    destruct (Z.eqb_spec j b) as [->|Hjb]; [by rewrite decide_True|].
    rewrite !decide_False; [by apply (so_slot r Hok)|..]; intros E; by apply heap_at_inj in E.
  - intros id. rewrite En, (sw_deref _ _ _ _ H).
    destruct (decide (id = heap_at r a)) as [->|Hida].
    { change (heap_slot ((deref r (heap_at r a)) <| heap_slot := b + 1 |>)) with (b + 1).
      intros _. split; [lia|]. replace (b + 1 - 1) with b by lia.
      rewrite (sw_at _ _ _ _ H) by lia. apply exchanged_r. }
    destruct (decide (id = heap_at r b)) as [->|Hidb].
    { change (heap_slot ((deref r (heap_at r b)) <| heap_slot := a + 1 |>)) with (a + 1).
      intros _. split; [lia|]. replace (a + 1 - 1) with a by lia.
      rewrite (sw_at _ _ _ _ H) by lia. apply exchanged_l. }
    intros Hid. destruct (so_armed r Hok id Hid) as [Hr E]. split; [done|].
    rewrite (sw_at _ _ _ _ H) by lia. rewrite exchanged_ne; [done|..]; intros Ej; by rewrite Ej in E.
Qed.

Lemma swapped_deadline_at j : 0 <= j < timer_n r -> exchanged a b (deadline_at r) j = deadline_at r' j.
Proof.
  intros Hj. unfold deadline_at. rewrite swapped_deadline, (sw_at _ _ _ _ H) by done.
  unfold exchanged. by repeat destruct (_ =? _).
Qed.
End swap.

Lemma slots_few_range r : slots_ok r -> few r -> timer_n r < 2147483648.
Proof. intros H Hf. pose proof (heap_size r H). unfold few in Hf. lia. Qed.

(** One round of a loop: the timer at [c] moves into the hole at [i]. *)
Lemma place_swapped i c t r :
  let r1 := timer_heap_place i t r in
  slots_ok r1 -> few r1 -> 0 <= i < timer_n r -> 0 <= c < timer_n r -> i <> c ->
  swapped i c r1 (timer_heap_place c t (timer_heap_place i (heap_at r c) r)).
Proof.
  intros r1 Hok Hf Hi Hc Hic. set (q := heap_at r c).
  assert (Hn : timer_n r1 = timer_n r) by done.
  assert (Hlen : Z.of_nat (length (timer_heap r)) = timer_cap r).
  { pose proof (so_cap _ Hok) as E. change (timer_cap r1) with (timer_cap r) in E. rewrite <- E.
    cbn. by rewrite length_insert. }
  pose proof (so_n _ Hok) as Hcap. rewrite Hn in Hcap. change (timer_cap r1) with (timer_cap r) in Hcap.
  assert (Eat : forall j, 0 <= j -> heap_at r1 j = if j =? i then t else heap_at r j)
    by (intros j Hj; apply heap_at_place; lia).
  assert (Et : heap_at r1 i = t) by (rewrite Eat by lia; by rewrite Z.eqb_refl).
  assert (Eq : heap_at r1 c = q) by (rewrite Eat by lia; by destruct (Z.eqb_spec c i)).
  assert (Htq : t <> q).
  { rewrite <- Et, <- Eq. intros E. apply heap_at_inj in E; [lia|done|lia|lia]. }
  pose proof (slots_few_range r1 Hok Hf) as Hrange. rewrite Hn in Hrange.
  constructor.
  - cbn. by rewrite !length_insert.
  - done.
  - assert (Hq : q ∈ dom (timers r1)).
    { apply elem_of_dom, armed_known. rewrite <- Eq, (so_slot _ Hok); lia. }
    unfold r1, timer_heap_place in *. cbn in *. rewrite dom_insert_L in Hq. rewrite !dom_insert_L.
    set_solver.
  - intros j Hj. rewrite heap_at_place by (cbn; rewrite ?length_insert; lia).
    rewrite heap_at_place by lia. unfold exchanged. rewrite Et, Eq.
    destruct (Z.eqb_spec j i) as [->|]; [by destruct (Z.eqb_spec i c)|].
    destruct (Z.eqb_spec j c); [done|]. rewrite Eat by lia. by destruct (Z.eqb_spec j i).
  - intros id. rewrite Et, Eq. unfold r1. rewrite !deref_place.
    destruct (decide (id = t)) as [->|]; [|destruct (decide (id = q)) as [->|]; [|done]].
    + rewrite decide_False by done. by rewrite u32_id by (unfold is_u32; lia).
    + by rewrite u32_id by (unfold is_u32; lia).
Qed.

Lemma place_same i r :
  slots_ok r -> few r -> 0 <= i < timer_n r -> timer_heap_place i (heap_at r i) r = r.
Proof.
  intros Hok Hf Hi. pose proof (so_slot r Hok i Hi) as Hs. pose proof (slots_few_range r Hok Hf).
  pose proof (so_n r Hok). pose proof (so_cap r Hok).
  assert (Ht : timers r !! heap_at r i = Some (deref r (heap_at r i))).
  { destruct (armed_known r (heap_at r i)) as [t Et]; [lia|]. unfold deref. by rewrite Et. }
  assert (El : <[Z.to_nat i := heap_at r i]> (timer_heap r) = timer_heap r).
  { apply list_insert_id. unfold heap_at. rewrite nth_lookup.
    destruct (lookup_lt_is_Some_2 (timer_heap r) (Z.to_nat i)) as [x Ex]; [lia|]. by rewrite Ex. }
  unfold timer_heap_place, set_timer. rewrite El.
  set (t := heap_at r i) in *. assert (Et : (deref r t) <| heap_slot := u32 (i + 1) |> = deref r t).
  { rewrite u32_id, <- Hs by (unfold is_u32; lia). by destruct (deref r t). }
  assert (Ei : <[t := (deref r t) <| heap_slot := u32 (i + 1) |>]> (timers r) = timers r)
    by (rewrite Et; by apply insert_id).
  cbv zeta. change (timers (r <| timer_heap := timer_heap r |>)) with (timers r).
  change (deref (r <| timer_heap := timer_heap r |>) t) with (deref r t). rewrite Ei. by destruct r.
Qed.

(** ** Sifting *)

(** The heap with the timer in its place. *)
Record sifted (r r' : timer_queue) : Prop := {
  sf_slots : slots_ok r';
  sf_order : heap_ordered (timer_n r') (deadline_at r');
  sf_same : same_timers r r' }.

Lemma sifted_trans r1 r2 r3 : same_timers r1 r2 -> sifted r2 r3 -> sifted r1 r3.
Proof. intros H []. constructor; [done|done|by etransitivity]. Qed.

Lemma deadline_hole i t r j :
  0 <= i < Z.of_nat (length (timer_heap r)) -> 0 <= j ->
  deadline_at (timer_heap_place i t r) j = if j =? i then deadline_ns (deref r t) else deadline_at r j.
Proof.
  intros Hi Hj. unfold deadline_at. rewrite deadline_place, heap_at_place by done.
  by destruct (j =? i).
Qed.

Lemma hole_length i t r : slots_ok (timer_heap_place i t r) -> Z.of_nat (length (timer_heap r)) = timer_cap r.
Proof.
  intros Hok. pose proof (so_cap _ Hok) as E. cbn in E. by rewrite length_insert in E.
Qed.

Lemma up_loop_spec fuel : forall t i r,
  let r1 := timer_heap_place i t r in
  slots_ok r1 -> few r1 -> 0 <= i < timer_n r -> i <= Z.of_nat fuel ->
  up_ordered (timer_n r) i (deadline_at r1) ->
  let '(i', r') := up_loop fuel t i r in sifted r1 (timer_heap_place i' t r').
Proof.
  induction fuel as [|fuel IH]; intros t i r r1 Hok Hf Hi Hfuel Ho; cbn [up_loop].
  { constructor; [done| |done]. eapply up_end; [exact Ho|lia|lia]. }
  pose proof (hole_length i t r Hok) as Hlen. pose proof (so_n _ Hok) as Hcap.
  change (timer_n r1) with (timer_n r) in Hcap. change (timer_cap r1) with (timer_cap r) in Hcap.
  destruct (Z.ltb_spec 0 i) as [H0|H0].
  2: { constructor; [done| |done]. eapply up_end; [exact Ho|lia|lia]. }
  cbv zeta. set (p := (i - 1) / 2). assert (Hp : 0 <= p < i) by (unfold p; zlia).
  assert (Ei : deadline_at r1 i = deadline_ns (deref r t)).
  { unfold r1. rewrite deadline_hole by lia. by rewrite Z.eqb_refl. }
  assert (Ep : deadline_at r1 p = deadline_at r p).
  { unfold r1. rewrite deadline_hole by lia. by destruct (Z.eqb_spec p i); [lia|]. }
  destruct (Z.leb_spec (deadline_at r p) (deadline_ns (deref r t))) as [Hle|Hgt].
  { constructor; [done| |done]. eapply up_end; [exact Ho|lia|]. intros _. fold r1 p. lia. }
  pose proof (place_swapped i p t r Hok Hf Hi ltac:(lia) ltac:(lia)) as Hsw. fold r1 in Hsw.
  set (r2 := timer_heap_place i (heap_at r p) r) in *.
  assert (Hi1 : 0 <= i < timer_n r1) by done.
  assert (Hp1 : 0 <= p < timer_n r1) by (change (timer_n r1) with (timer_n r); lia).
  pose proof (swapped_same i p r1 _ Hok Hsw Hi1 Hp1) as Hsame.
  specialize (IH t p r2). cbv zeta in IH.
  destruct (up_loop fuel t p r2) as [i' r'].
  eapply sifted_trans; [exact Hsame|]. apply IH.
  - eapply swapped_slots; [exact Hok|exact Hsw|done|done|lia].
  - by eapply same_timers_few.
  - cbn. lia.
  - lia.
  - eapply up_ordered_ext; [|cbn; lia|apply (up_step (timer_n r) i); [lia|exact Ho|fold p; lia]].
    intros j Hj. by apply (swapped_deadline_at i p r1).
Qed.

Lemma timer_heap_up_spec i r :
  slots_ok r -> few r -> 0 <= i < timer_n r -> up_ordered (timer_n r) i (deadline_at r) ->
  sifted r (timer_heap_up i r).
Proof.
  intros Hok Hf Hi Ho. unfold timer_heap_up. pose proof (place_same i r Hok Hf Hi) as E.
  pose proof (up_loop_spec (Z.to_nat i) (heap_at r i) i r) as H. cbv zeta in H. rewrite E in H.
  specialize (H Hok Hf Hi ltac:(lia) Ho). by destruct (up_loop _ _ _ _).
Qed.

Lemma down_loop_spec fuel : forall t i r,
  let r1 := timer_heap_place i t r in
  slots_ok r1 -> few r1 -> 0 <= i < timer_n r -> timer_n r - i <= Z.of_nat fuel ->
  down_ordered (timer_n r) i (deadline_at r1) ->
  let '(i', r') := down_loop fuel t i r in sifted r1 (timer_heap_place i' t r').
Proof.
  induction fuel as [|fuel IH]; intros t i r r1 Hok Hf Hi Hfuel Ho; cbn [down_loop]; [lia|].
  pose proof (hole_length i t r Hok) as Hlen. pose proof (so_n _ Hok) as Hcap.
  change (timer_n r1) with (timer_n r) in Hcap. change (timer_cap r1) with (timer_cap r) in Hcap.
  pose proof (slots_few_range r1 Hok Hf) as Hrange. change (timer_n r1) with (timer_n r) in Hrange.
  cbv zeta. rewrite (u32_id (2 * i + 1)), (u32_id (2 * i + 1 + 1)) by (unfold is_u32; lia).
  destruct (Z.leb_spec (timer_n r) (2 * i + 1)) as [Hend|Hin].
  { constructor; [done| |done]. eapply down_end; [exact Ho|]. intros j Hj Ej.
    change (timer_n (timer_heap_place i t r)) with (timer_n r) in Hj. zlia. }
  assert (Ei : deadline_at r1 i = deadline_ns (deref r t)).
  { unfold r1. rewrite deadline_hole by lia. by rewrite Z.eqb_refl. }
  assert (Ej : forall j, i < j -> deadline_at r1 j = deadline_at r j).
  { intros j Hj. unfold r1. rewrite deadline_hole by lia. by destruct (Z.eqb_spec j i); [lia|]. }
  set (c := if _ && _ then _ else _).
  assert (Hc : (c - 1) / 2 = i /\ i < c < timer_n r /\
    forall j, 0 < j < timer_n r -> (j - 1) / 2 = i -> deadline_at r1 c <= deadline_at r1 j).
  { unfold c. destruct (Z.ltb_spec (2 * i + 1 + 1) (timer_n r)) as [H2|H2]; cbn [andb].
    - destruct (Z.ltb_spec (deadline_at r (2 * i + 1 + 1)) (deadline_at r (2 * i + 1))) as [Hlt|Hge];
        (split; [zlia|split; [lia|]]); intros j Hj Hji;
        (assert (j = 2 * i + 1 \/ j = 2 * i + 1 + 1) as [-> | ->] by zlia); rewrite !Ej by lia; lia.
    - split; [zlia|split; [lia|]]. intros j Hj Hji. assert (j = 2 * i + 1) as -> by zlia. lia. }
  clearbody c. destruct Hc as (Ec & Hc & Hmin). rewrite <- (Ej c) by lia.
  destruct (Z.leb_spec (deadline_ns (deref r t)) (deadline_at r1 c)) as [Hle|Hgt].
  { constructor; [done| |done]. eapply down_end; [exact Ho|]. intros j Hj Hji.
    fold r1. rewrite Ei. specialize (Hmin j Hj Hji). lia. }
  pose proof (place_swapped i c t r Hok Hf Hi ltac:(lia) ltac:(lia)) as Hsw. fold r1 in Hsw.
  set (r2 := timer_heap_place i (heap_at r c) r) in *.
  assert (Hi1 : 0 <= i < timer_n r1) by done.
  assert (Hc1 : 0 <= c < timer_n r1) by (change (timer_n r1) with (timer_n r); lia).
  pose proof (swapped_same i c r1 _ Hok Hsw Hi1 Hc1) as Hsame.
  specialize (IH t c r2). cbv zeta in IH.
  destruct (down_loop fuel t c r2) as [i' r'].
  eapply sifted_trans; [exact Hsame|]. apply IH.
  - eapply swapped_slots; [exact Hok|exact Hsw|done|done|lia].
  - by eapply same_timers_few.
  - cbn. lia.
  - cbn. lia.
  - eapply down_ordered_ext; [|cbn; lia|apply (down_step (timer_n r) i c); [lia|lia|done|lia|exact Ho|exact Hmin|lia]].
    intros j Hj. by apply (swapped_deadline_at i c r1).
Qed.

Lemma timer_heap_down_spec i r :
  slots_ok r -> few r -> 0 <= i < timer_n r -> down_ordered (timer_n r) i (deadline_at r) ->
  sifted r (timer_heap_down i r).
Proof.
  intros Hok Hf Hi Ho. unfold timer_heap_down. pose proof (place_same i r Hok Hf Hi) as E.
  pose proof (down_loop_spec (Z.to_nat (timer_n r)) (heap_at r i) i r) as H. cbv zeta in H. rewrite E in H.
  specialize (H Hok Hf Hi ltac:(lia) Ho). by destruct (down_loop _ _ _ _).
Qed.

(** ** The operations *)

Record queue_ok (r : timer_queue) : Prop := {
  qo_slots : slots_ok r;
  qo_order : heap_ordered (timer_n r) (deadline_at r) }.

Lemma sifted_ok r r' : sifted r r' -> queue_ok r'.
Proof. by intros []. Qed.

(** When the timer is armed for. *)
Definition armed_for (r : timer_queue) (id : nat) : option Z :=
  if heap_slot (deref r id) =? 0 then None else Some (deadline_ns (deref r id)).

Lemma same_armed_for r r' id : same_timers r r' -> armed_for r' id = armed_for r id.
Proof.
  intros H. unfold armed_for. rewrite (st_deadline _ _ H). pose proof (st_armed _ _ H id).
  destruct (Z.eqb_spec (heap_slot (deref r' id)) 0), (Z.eqb_spec (heap_slot (deref r id)) 0); tauto.
Qed.

(** What is left alone by taking a timer out. *)
Record taken_out (id : nat) (r r' : timer_queue) : Prop := {
  to_rest : (timer_n r', timer_cap r', time r', readings r', tmem r', fired r') =
    (timer_n r - 1, timer_cap r, time r, readings r, tmem r, fired r);
  to_dom : dom (timers r') = dom (timers r);
  to_cb : forall x, has_cb (deref r' x) = has_cb (deref r x);
  to_armed : forall x, armed_for r' x = if decide (x = id) then None else armed_for r x }.

Lemma taken_out_sifted id r r1 r' : taken_out id r r1 -> same_timers r1 r' -> taken_out id r r'.
Proof.
  intros [E D C A] H. constructor.
  - rewrite <- E. destruct H. congruence.
  - by rewrite (st_dom _ _ H).
  - intros x. by rewrite (st_cb _ _ H).
  - intros x. by rewrite (same_armed_for _ _ x H).
Qed.

Section remove.
Context (r : timer_queue) (id : nat) (Hok : slots_ok r) (Hf : few r).
Context (Harmed : heap_slot (deref r id) <> 0).
Let i := heap_slot (deref r id) - 1.
Let r1 : timer_queue :=
  (set_timer id ((deref r id) <| heap_slot := 0 |>) r) <| timer_n := timer_n r - 1 |>.
Let last := heap_at r (timer_n r - 1).
Let r2 : timer_queue := timer_heap_place i last r1.

Lemma removed_at : 0 <= i < timer_n r /\ heap_at r i = id.
Proof. destruct (so_armed r Hok id Harmed) as [H E]. unfold i. by split; [lia|]. Qed.

Lemma removed_deref x : deref r1 x = if decide (x = id) then (deref r id) <| heap_slot := 0 |> else deref r x.
Proof. apply (deref_set id ((deref r id) <| heap_slot := 0 |>) r x). Qed.

Lemma removed_dom : dom (timers r1) = dom (timers r).
Proof.
  change (timers r1) with (<[id := (deref r id) <| heap_slot := 0 |>]> (timers r)).
  rewrite dom_insert_L. pose proof (armed_known r id Harmed) as H%elem_of_dom. set_solver.
Qed.

Lemma removed_taken : taken_out id r r1.
Proof.
  constructor; [done|apply removed_dom|..]; intros x; unfold armed_for; rewrite removed_deref;
    by destruct (decide (x = id)) as [->|].
Qed.

Lemma removed_last : i = timer_n r - 1 -> slots_ok r1.
Proof.
  intros Ei. destruct removed_at as [Hi Eid]. constructor.
  - apply (so_cap r Hok).
  - pose proof (so_n r Hok). change (0 <= timer_n r - 1 <= timer_cap r). lia.
  - intros j Hj. change (timer_n r1) with (timer_n r - 1) in Hj. change (heap_at r1 j) with (heap_at r j).
    rewrite removed_deref, decide_False; [apply (so_slot r Hok); lia|].
    rewrite <- Eid. intros E. apply heap_at_inj in E; [lia|done|lia|lia].
  - intros x. rewrite removed_deref. destruct (decide (x = id)) as [->|Hx]; [done|].
    intros Hs. destruct (so_armed r Hok x Hs) as [Hr Ex]. split; [|done].
    change (timer_n r1) with (timer_n r - 1). assert (heap_slot (deref r x) <> timer_n r); [|lia].
    intros En. rewrite En in Ex. congruence.
Qed.

Lemma removed_place_deref x : i <> timer_n r - 1 ->
  deref r2 x = if decide (x = last) then (deref r x) <| heap_slot := i + 1 |>
               else if decide (x = id) then (deref r x) <| heap_slot := 0 |> else deref r x.
Proof.
  intros Hi. destruct removed_at as [Hr Eid]. pose proof (slots_few_range r Hok Hf).
  assert (Hl : last <> id).
  { rewrite <- Eid. intros E. apply heap_at_inj in E; [lia|done|lia|lia]. }
  unfold r2. rewrite deref_place, !removed_deref.
  destruct (decide (x = last)) as [->|].
  - rewrite decide_False by done. by rewrite u32_id by (unfold is_u32; lia).
  - by destruct (decide (x = id)) as [->|].
Qed.

Lemma removed_place_at j : 0 <= j -> heap_at r2 j = if j =? i then last else heap_at r j.
Proof.
  intros Hj. destruct removed_at as [Hr _]. pose proof (so_n r Hok). pose proof (so_cap r Hok).
  unfold r2. rewrite heap_at_place; [done|cbn; lia|done].
Qed.

Lemma removed_place_slots : i <> timer_n r - 1 -> slots_ok r2.
Proof.
  intros Hi. destruct removed_at as [Hr Eid]. pose proof (so_n r Hok) as Hn.
  assert (Hl : heap_at r (timer_n r - 1) = last) by done.
  constructor.
  - cbn. rewrite length_insert. apply (so_cap r Hok).
  - change (0 <= timer_n r - 1 <= timer_cap r). lia.
  - intros j Hj. change (timer_n r2) with (timer_n r - 1) in Hj.
    rewrite removed_place_deref, removed_place_at by lia.
    destruct (Z.eqb_spec j i) as [->|Hji]; [by rewrite decide_True|].
    rewrite !decide_False; [apply (so_slot r Hok); lia|..].
    + rewrite <- Eid. intros E. apply heap_at_inj in E; [lia|done|lia|lia].
    + rewrite <- Hl. intros E. apply heap_at_inj in E; [lia|done|lia|lia].
  - intros x. change (timer_n r2) with (timer_n r - 1). rewrite removed_place_deref by done.
    destruct (decide (x = last)) as [->|Hx].
    { change (heap_slot ((deref r last) <| heap_slot := i + 1 |>)) with (i + 1). intros _.
      split; [lia|]. replace (i + 1 - 1) with i by lia. rewrite removed_place_at by lia.
      by rewrite Z.eqb_refl. }
    destruct (decide (x = id)) as [->|Hxid]; [done|]. intros Hs.
    destruct (so_armed r Hok x Hs) as [Hrx Ex].
    assert (heap_slot (deref r x) <> timer_n r) by (intros En; rewrite En in Ex; congruence).
    split; [lia|]. rewrite removed_place_at by lia.
    destruct (Z.eqb_spec (heap_slot (deref r x) - 1) i) as [E|]; [|done]. rewrite E in Ex. congruence.
Qed.

Lemma removed_place_taken : i <> timer_n r - 1 -> taken_out id r r2.
Proof.
  intros Hi. destruct removed_at as [Hr Eid]. constructor.
  - done.
  - pose proof removed_dom as D. change (timers r2) with (<[last := (deref r1 last) <| heap_slot := u32 (i + 1) |>]> (timers r1)).
    rewrite dom_insert_L, D. assert (last ∈ dom (timers r)); [|set_solver].
    apply elem_of_dom, armed_known. unfold last. rewrite (so_slot r Hok); lia.
  - intros x. rewrite removed_place_deref by done. by repeat destruct (decide _).
  - intros x. unfold armed_for. rewrite removed_place_deref by done.
    destruct (decide (x = last)) as [->|].
    + rewrite decide_False.
      * change (heap_slot ((deref r last) <| heap_slot := i + 1 |>)) with (i + 1).
        unfold last. rewrite (so_slot r Hok) by lia. destruct (Z.eqb_spec (i + 1) 0), (Z.eqb_spec (timer_n r - 1 + 1) 0); [lia..|done].
      * rewrite <- Eid. intros E. apply heap_at_inj in E; [lia|done|lia|lia].
    + by destruct (decide (x = id)) as [->|].
Qed.

Lemma removed_place_deadline j : i <> timer_n r - 1 -> 0 <= j ->
  deadline_at r2 j = if j =? i then deadline_at r (timer_n r - 1) else deadline_at r j.
Proof.
  intros Hi Hj. unfold deadline_at. rewrite removed_place_at, removed_place_deref by done.
  destruct (j =? i); repeat destruct (decide _); done.
Qed.

Lemma remove_spec :
  heap_ordered (timer_n r) (deadline_at r) ->
  queue_ok (timer_heap_remove id r) /\ taken_out id r (timer_heap_remove id r).
Proof.
  intros Ho. destruct removed_at as [Hi Eid]. pose proof (slots_few_range r Hok Hf) as Hrange.
  unfold timer_heap_remove. fold i. rewrite (u32_id i) by (unfold is_u32; lia).
  set (rr := set_timer id _ r). change (timer_n rr) with (timer_n r).
  rewrite (u32_id (timer_n r - 1)) by (unfold is_u32; lia).
  change (rr <| timer_n := timer_n r - 1 |>) with r1. change (timer_n r1) with (timer_n r - 1).
  change (heap_at r1 (timer_n r - 1)) with last. cbv zeta.
  destruct (Z.eqb_spec i (timer_n r - 1)) as [Ei|Ei].
  { split; [|apply removed_taken]. constructor; [by apply removed_last|].
    intros j Hj. change (timer_n r1) with (timer_n r - 1) in Hj.
    pose proof (fun k => f_equal deadline_ns (removed_deref k)) as Hd.
    assert (E : forall j, deadline_at r1 j = deadline_at r j).
    { intros k. unfold deadline_at. change (heap_at r1 k) with (heap_at r k). rewrite Hd.
      by destruct (decide (heap_at r k = id)) as [->|]. }
    rewrite !E. apply Ho. lia. }
  fold r2. pose proof (removed_place_slots Ei) as Hok2. pose proof (removed_place_taken Ei) as Ht.
  assert (Hf2 : few r2) by (unfold few in *; by rewrite <- size_dom, (to_dom _ _ _ Ht), size_dom).
  assert (Hn2 : timer_n r2 = timer_n r - 1) by done.
  assert (Hi2 : 0 <= i < timer_n r2) by lia.
  pose proof (fun j => removed_place_deadline j Ei) as Hd.
  assert (El : deadline_ns (deref r2 last) = deadline_at r2 i).
  { unfold deadline_at. rewrite removed_place_at by lia. by rewrite Z.eqb_refl. }
  assert (Hup : 0 < i -> forall j, 0 < j < timer_n r2 -> (j - 1) / 2 = i ->
    deadline_at r2 ((i - 1) / 2) <= deadline_at r2 j).
  { intros H0 j Hj Ej. rewrite !Hd by zlia. destruct (Z.eqb_spec ((i - 1) / 2) i); [zlia|].
    destruct (Z.eqb_spec j i); [zlia|]. pose proof (Ho i ltac:(lia)). pose proof (Ho j ltac:(lia)) as H2.
    rewrite Ej in H2. lia. }
  assert (Hside : forall j, 0 < j < timer_n r2 -> j <> i -> (j - 1) / 2 <> i ->
    deadline_at r2 ((j - 1) / 2) <= deadline_at r2 j).
  { intros j Hj H1 H2. rewrite !Hd by zlia. rewrite (proj2 (Z.eqb_neq _ _) H1), (proj2 (Z.eqb_neq _ _) H2).
    apply Ho. lia. }
  destruct ((0 <? i) && _) eqn:Ecase.
  - apply andb_true_iff in Ecase as [H0 Hlt]. rewrite El in Hlt.
    assert (Hs : sifted r2 (timer_heap_up i r2)).
    { apply timer_heap_up_spec; [done|done|done|]. split; [|exact Hup]. intros j Hj Hji.
      destruct (Z.eq_dec ((j - 1) / 2) i) as [E|]; [|by apply Hside].
      pose proof (Hup ltac:(lia) j Hj E). rewrite E. lia. }
    split; [by eapply sifted_ok|]. eapply taken_out_sifted; [exact Ht|apply Hs].
  - assert (Hs : sifted r2 (timer_heap_down i r2)).
    { apply timer_heap_down_spec; [done|done|done|]. split; [|exact Hup]. intros j Hj Hji.
      destruct (Z.eq_dec j i) as [->|]; [|by apply Hside]. rewrite El in Ecase. lia. }
    split; [by eapply sifted_ok|]. eapply taken_out_sifted; [exact Ht|apply Hs].
Qed.
End remove.
