(* ===== verification/TimerRun.v ===== *)
(** * What the reactor timers do

    Against a finite map from timers to deadlines: arming inserts, cancelling
    deletes, and a round of [reactor_run_timers] fires timers that are due,
    each time one with the earliest deadline, while the callbacks arm and
    cancel what they like. *)

From S2P Require Import Prelude.
From Stdlib Require Import Sorting.Sorted.
From S2P Require Import Timers.
From S2P Require Import TimerHeap.

(** ** Arming *)

(** Making room changes the array only. *)
Record roomier (r r' : timer_queue) : Prop := {
  rm_timers : timers r' = timers r;
  rm_rest : (timer_n r', time r', readings r', fired r') = (timer_n r, time r, readings r, fired r);
  rm_at : forall j, 0 <= j < timer_n r -> heap_at r' j = heap_at r j;
  rm_mem : tmem r = [] -> tmem r' = [] }.

Lemma roomier_deref r r' id : roomier r r' -> deref r' id = deref r id.
Proof. intros H. unfold deref. by rewrite (rm_timers _ _ H). Qed.

Lemma timer_heap_room_spec r :
  queue_ok r -> few r ->
  let (ok, r') := timer_heap_room r in
  queue_ok r' /\ roomier r r' /\ (tmem r = [] -> ok = true) /\
  if ok then timer_n r < timer_cap r' else timer_n r = timer_cap r.
Proof.
  intros [Hok Ho] Hf. pose proof (slots_few_range r Hok Hf) as Hrange. pose proof (so_n r Hok) as Hn.
  pose proof (so_cap r Hok) as Hc. unfold timer_heap_room.
  destruct (Z.eqb_spec (timer_n r) (timer_cap r)) as [E|E]; [|by split_and!; [| | |lia]].
  set (cap := if negb (timer_cap r =? 0) then _ else _).
  assert (Hcap : timer_n r < cap).
  { unfold cap. destruct (Z.eqb_spec (timer_cap r) 0); cbn [negb]; [lia|].
    rewrite u32_id by (unfold is_u32; lia). lia. }
  destruct (alloc (tmem r)) as [ok o] eqn:Ea.
  assert (Hm : tmem r = [] -> ok = true /\ o = []).
  { intros Em. rewrite Em in Ea. by injection Ea as <- <-. }
  assert (Hr0 : roomier r (r <| tmem := o |>)) by (constructor; try done; intros Em; by destruct (Hm Em)).
  destruct ok.
  2: { split; [by constructor; [destruct Hok; by constructor|]|]. split; [exact Hr0|].
       split; [intros Em; by destruct (Hm Em)|done]. }
  change (timer_n (r <| tmem := o |>)) with (timer_n r).
  change (timer_heap (r <| tmem := o |>)) with (timer_heap r).
  set (hp := take _ _ ++ replicate _ _). set (r1 := r <| tmem := o |> <| timer_heap := hp |> <| timer_cap := cap |>).
  change (queue_ok r1 /\ roomier r r1 /\ (tmem r = [] -> true = true) /\ timer_n r < cap).
  assert (Hat : forall j, 0 <= j < timer_n r -> heap_at r1 j = heap_at r j).
  { intros j Hj. unfold heap_at. change (timer_heap r1) with hp. unfold hp.
    rewrite app_nth1 by (rewrite length_take; lia). rewrite !nth_lookup, lookup_take_lt by lia. done. }
  assert (Hr1 : roomier r r1) by (constructor; [done|done|exact Hat|intros Em; by destruct (Hm Em)]).
  split; [|by split_and!]. constructor; [constructor|].
  - change (Z.of_nat (length hp) = cap). unfold hp. rewrite length_app, length_take, length_replicate. lia.
  - change (0 <= timer_n r <= cap). lia.
  - intros j Hj. rewrite Hat by done. apply (so_slot r Hok j Hj).
  - intros id Hid. destruct (so_armed r Hok id Hid) as [H1 H2]. split; [done|].
    rewrite Hat; [done|]. change (deref r1 id) with (deref r id). lia.
  - intros j Hj. change (timer_n r1) with (timer_n r) in Hj. unfold deadline_at. rewrite !Hat by zlia.
    by apply Ho.
Qed.

(** A timer that is not armed enters at the end. *)
Section add.
Context (r : timer_queue) (id : nat) (d : Z) (Hq : queue_ok r) (Hf : few r).
Context (Hroom : timer_n r < timer_cap r) (Hfree : heap_slot (deref r id) = 0) (Hknown : is_Some (timers r !! id)).
Let r1 : timer_queue :=
  (set_timer id ((deref r id) <| deadline_ns := d |>) r) <| timer_n := timer_n r + 1 |>.
Let r2 : timer_queue := timer_heap_place (timer_n r) id r1.

Lemma added_deref x :
  deref r2 x = if decide (x = id) then MkTimer d (timer_n r + 1) (has_cb (deref r id)) else deref r x.
Proof.
  pose proof (slots_few_range r (qo_slots r Hq) Hf). pose proof (so_n r (qo_slots r Hq)).
  assert (E : deref r1 id = (deref r id) <| deadline_ns := d |>).
  { change (deref r1 id) with (deref (set_timer id ((deref r id) <| deadline_ns := d |>) r) id).
    rewrite deref_set. by rewrite decide_True. }
  unfold r2. rewrite deref_place. destruct (decide (x = id)) as [->|Hx].
  - rewrite E, u32_id by (unfold is_u32; lia). done.
  - change (deref r1 x) with (deref (set_timer id ((deref r id) <| deadline_ns := d |>) r) x).
    rewrite deref_set. by rewrite decide_False.
Qed.

Lemma added_at j : 0 <= j -> heap_at r2 j = if j =? timer_n r then id else heap_at r j.
Proof.
  intros Hj. pose proof (so_n r (qo_slots r Hq)). pose proof (so_cap r (qo_slots r Hq)).
  unfold r2. rewrite heap_at_place; [done|cbn; lia|done].
Qed.

Lemma added_slots : slots_ok r2.
Proof.
  pose proof (qo_slots r Hq) as Hok. pose proof (so_n r Hok) as Hn.
  constructor.
  - cbn. rewrite length_insert. apply (so_cap r Hok).
  - change (0 <= timer_n r + 1 <= timer_cap r). lia.
  - intros j Hj. change (timer_n r2) with (timer_n r + 1) in Hj. rewrite added_at, added_deref by lia.
    destruct (Z.eqb_spec j (timer_n r)) as [->|]; [by rewrite decide_True|].
    rewrite decide_False; [apply (so_slot r Hok); lia|]. intros E.
    pose proof (so_slot r Hok j ltac:(lia)) as Hs. rewrite E in Hs. lia.
  - intros x. change (timer_n r2) with (timer_n r + 1). rewrite added_deref.
    destruct (decide (x = id)) as [->|]; cbn [heap_slot].
    { intros _. split; [lia|]. rewrite added_at by lia. by destruct (Z.eqb_spec (timer_n r + 1 - 1) (timer_n r)); [|lia]. }
    intros Hs. destruct (so_armed r Hok x Hs) as [H1 H2]. split; [lia|]. rewrite added_at by lia.
    by destruct (Z.eqb_spec (heap_slot (deref r x) - 1) (timer_n r)); [lia|].
Qed.

Lemma added_dom : dom (timers r2) = dom (timers r).
Proof.
  clear Hroom Hfree Hq Hf. apply elem_of_dom in Hknown. unfold r2, r1, timer_heap_place. cbn. rewrite !dom_insert_L. set_solver.
Qed.

Lemma added_few : few r2.
Proof. unfold few in *. by rewrite <- size_dom, added_dom, size_dom. Qed.

Lemma added_ordered : up_ordered (timer_n r + 1) (timer_n r) (deadline_at r2).
Proof.
  assert (E : forall j, 0 <= j < timer_n r -> deadline_at r2 j = deadline_at r j).
  { intros j Hj. unfold deadline_at. rewrite added_at by lia.
    destruct (Z.eqb_spec j (timer_n r)); [lia|]. rewrite added_deref. destruct (decide _) as [Ei|]; [|done].
    pose proof (so_slot r (qo_slots r Hq) j Hj) as Hs. rewrite Ei in Hs. lia. }
  split.
  - intros j Hj Hne. rewrite !E by zlia. apply (qo_order r Hq). lia.
  - intros _ j Hj Ej. zlia.
Qed.

Lemma add_spec :
  sifted r2 (timer_heap_up (timer_n r) r2).
Proof.
  pose proof (so_n r (qo_slots r Hq)).
  apply timer_heap_up_spec; [apply added_slots|apply added_few| |exact added_ordered].
  change (timer_n r2) with (timer_n r + 1). lia.
Qed.

Lemma added_armed_for x : armed_for r2 x = if decide (x = id) then Some d else armed_for r x.
Proof.
  pose proof (so_n r (qo_slots r Hq)). unfold armed_for. rewrite added_deref.
  destruct (decide (x = id)); [|done]. cbn [heap_slot deadline_ns].
  by destruct (Z.eqb_spec (timer_n r + 1) 0); [lia|].
Qed.
End add.

(** The clock's next reading, and the clock after it. *)
Definition clock : Type := Z * list Z.
Definition clock_of (r : timer_queue) : clock := (time r, readings r).
Definition reading (c : clock) : Z := match c.2 with [] => c.1 | t :: _ => t end.
Definition ticked (c : clock) : clock := match c.2 with [] => c | t :: ts => (t, ts) end.

(** What no call changes. *)
Record same_frame (r r' : timer_queue) : Prop := {
  fr_fired : fired r' = fired r;
  fr_dom : dom (timers r') = dom (timers r);
  fr_cb : forall x, has_cb (deref r' x) = has_cb (deref r x);
  fr_mem : tmem r = [] -> tmem r' = [] }.

#[export] Instance same_frame_refl : Reflexive same_frame.
Proof. by constructor. Qed.
#[export] Instance same_frame_trans : Transitive same_frame.
Proof. intros r1 r2 r3 [] []. constructor; [congruence|congruence|congruence|auto]. Qed.

Lemma same_frame_few r r' : same_frame r r' -> few r -> few r'.
Proof. intros H. unfold few. by rewrite <- !size_dom, (fr_dom _ _ H). Qed.

Lemma taken_frame id r r' : taken_out id r r' -> same_frame r r'.
Proof. intros [E D C _]. injection E as _ _ _ _ Em Ef. constructor; congruence. Qed.
Lemma same_timers_frame r r' : same_timers r r' -> same_frame r r'.
Proof. intros []. constructor; congruence. Qed.

Lemma armed_for_none r id : armed_for r id = None <-> heap_slot (deref r id) = 0.
Proof. unfold armed_for. destruct (Z.eqb_spec (heap_slot (deref r id)) 0); by split. Qed.

Definition arm_deadline (c : clock) (delay_us : Z) : Z := u64 (reading c + u64 (delay_us * 1000)).

(** The end of [cwist_reactor_timer_arm], once there is room. *)
Lemma arm_end id delay_us r :
  queue_ok r -> few r -> timer_n r < timer_cap r -> armed_for r id = None ->
  has_cb (deref r id) = true ->
  let (now, r1) := reactor_now_ns r in
  let r1 := set_timer id ((deref r1 id) <| deadline_ns := u64 (now + u64 (delay_us * 1000)) |>) r1 in
  let r1 := r1 <| timer_n := u32 (timer_n r1 + 1) |> in
  let r' := timer_heap_up (u32 (timer_n r1 - 1)) (timer_heap_place (u32 (timer_n r1 - 1)) id r1) in
  queue_ok r' /\ same_frame r r' /\ clock_of r' = ticked (clock_of r) /\
  forall x, armed_for r' x = if decide (x = id) then Some (arm_deadline (clock_of r) delay_us) else armed_for r x.
Proof.
  intros Hq Hf Hroom Hfree Hcb. apply armed_for_none in Hfree.
  assert (Hknown : is_Some (timers r !! id)).
  { unfold deref in Hcb. by destruct (timers r !! id). }
  pose proof (slots_few_range r (qo_slots r Hq) Hf) as Hrange. pose proof (so_n r (qo_slots r Hq)) as Hn.
  destruct (reactor_now_ns r) as [now r0] eqn:Enow.
  assert (H0 : now = reading (clock_of r) /\ clock_of r0 = ticked (clock_of r) /\
    r0 = r <| time := time r0 |> <| readings := readings r0 |>).
  { unfold reactor_now_ns, clock_of, reading, ticked in *. cbn [fst snd] in *. destruct (readings r) eqn:Er.
    - injection Enow as <- <-. rewrite Er. split; [done|]. split; [done|]. by destruct r; cbn in *; subst.
    - injection Enow as <- <-. done. }
  destruct H0 as (-> & Hclock & E0). clear Enow. cbv zeta.
  set (d := u64 _). fold (arm_deadline (clock_of r) delay_us) in d.
  assert (Hq0 : queue_ok r0) by (destruct Hq as [[] Ho]; rewrite E0; by constructor).
  assert (Hf0 : few r0) by (by rewrite E0). assert (Hd0 : forall x, deref r0 x = deref r x) by (intros x; by rewrite E0).
  assert (Hn0 : timer_n r0 = timer_n r) by by rewrite E0.
  assert (Hc0 : timer_cap r0 = timer_cap r) by by rewrite E0.
  assert (Ht0 : timers r0 = timers r) by by rewrite E0.
  assert (Hfr : same_frame r r0) by (rewrite E0; by constructor). clear E0.
  change (timer_n (set_timer id _ r0)) with (timer_n r0). rewrite (u32_id (timer_n r0 + 1)) by (unfold is_u32; lia).
  change (timer_n (_ <| timer_n := timer_n r0 + 1 |>)) with (timer_n r0 + 1).
  replace (timer_n r0 + 1 - 1) with (timer_n r0) by lia. rewrite (u32_id (timer_n r0)) by (unfold is_u32; lia).
  assert (Hfree0 : heap_slot (deref r0 id) = 0) by by rewrite Hd0.
  assert (Hknown0 : is_Some (timers r0 !! id)) by by rewrite Ht0.
  pose proof (add_spec r0 id d Hq0 Hf0 ltac:(lia) Hfree0 Hknown0) as Hs.
  pose proof (added_armed_for r0 id d Hq0 Hf0) as Ha.
  pose proof (added_dom r0 id d Hknown0) as Hdom. pose proof (added_deref r0 id d Hq0 Hf0) as Hder.
  cbv zeta in Hs, Ha, Hdom, Hder. set (r2 := timer_heap_place _ _ _) in *.
  split; [by eapply sifted_ok|]. split; [|split].
  - etransitivity; [exact Hfr|]. etransitivity; [|apply same_timers_frame, Hs].
    constructor; [done|done| |done]. intros x. rewrite Hder. by destruct (decide (x = id)) as [->|].
  - rewrite <- Hclock. unfold clock_of. pose proof (sf_same _ _ Hs) as Hst.
    by rewrite (st_time _ _ Hst), (st_readings _ _ Hst).
  - intros x. rewrite (same_armed_for r2) by apply Hs. rewrite Ha. unfold armed_for. by rewrite Hd0.
Qed.

Definition arm_result (id : nat) (delay_us : Z) (r : timer_queue) (ok : bool) (r' : timer_queue) : Prop :=
  if ok then
    has_cb (deref r id) = true /\ clock_of r' = ticked (clock_of r) /\
    forall x, armed_for r' x = if decide (x = id) then Some (arm_deadline (clock_of r) delay_us) else armed_for r x
  else
    (has_cb (deref r id) = false \/ tmem r <> [] /\ armed_for r id = None) /\
    clock_of r' = clock_of r /\ forall x, armed_for r' x = armed_for r x.

Lemma arm_spec id delay_us r :
  queue_ok r -> few r ->
  let (ok, r') := cwist_reactor_timer_arm id delay_us r in
  queue_ok r' /\ same_frame r r' /\ arm_result id delay_us r ok r'.
Proof.
  intros Hq Hf. unfold cwist_reactor_timer_arm.
  destruct (has_cb (deref r id)) eqn:Hcb; cbn [negb].
  2: { split; [done|]. split; [done|]. split; [by left|done]. }
  set (r0 := if negb _ then _ else r).
  assert (H0 : queue_ok r0 /\ same_frame r r0 /\ clock_of r0 = clock_of r /\ timer_cap r0 = timer_cap r /\
    (forall x, armed_for r0 x = if decide (x = id) then None else armed_for r x) /\
    (armed_for r id <> None -> timer_n r0 < timer_cap r0) /\ (armed_for r id = None -> tmem r0 = tmem r)).
  { unfold r0. destruct (Z.eqb_spec (heap_slot (deref r id)) 0) as [E|E]; cbn [negb].
    - apply armed_for_none in E as E'. split_and!; try done. intros x. by destruct (decide (x = id)) as [->|].
    - destruct (remove_spec r id (qo_slots r Hq) Hf E (qo_order r Hq)) as [Hq' Ht].
      pose proof (to_rest _ _ _ Ht) as Er. injection Er as En Ec E1 E2 E3 E4. pose proof (so_n r (qo_slots r Hq)).
      split_and!; [done|by eapply taken_frame|unfold clock_of; congruence|done|apply Ht|lia|].
      rewrite armed_for_none. done. }
  clearbody r0. destruct H0 as (Hq0 & Hfr0 & Hc0 & Hcap0 & Ha0 & Hroom0 & Hm0).
  pose proof (timer_heap_room_spec r0 Hq0 (same_frame_few _ _ Hfr0 Hf)) as H1.
  destruct (timer_heap_room r0) as [ok r1]. destruct H1 as (Hq1 & Hrm & Hmem & Hok1).
  pose proof (rm_rest _ _ Hrm) as Er. injection Er as E1 E2 E3 E4.
  assert (Hfr1 : same_frame r0 r1).
  { constructor; [done|by rewrite (rm_timers _ _ Hrm)| |apply Hrm]. intros x. by rewrite (roomier_deref _ _ x Hrm). }
  assert (Hfr : same_frame r r1) by by etransitivity.
  assert (Ha1 : forall x, armed_for r1 x = armed_for r0 x).
  { intros x. unfold armed_for. by rewrite (roomier_deref _ _ x Hrm). }
  assert (Hc1 : clock_of r1 = clock_of r) by (rewrite <- Hc0; unfold clock_of; congruence).
  destruct ok; cbn [negb].
  - pose proof (arm_end id delay_us r1 Hq1 (same_frame_few _ _ Hfr Hf) ltac:(lia)) as H2.
    rewrite Ha1, Ha0, decide_True in H2 by done. specialize (H2 eq_refl ltac:(by rewrite (fr_cb _ _ Hfr))).
    destruct (reactor_now_ns r1) as [now r2]. cbv zeta in H2. destruct H2 as (Hq' & Hfr' & Hc' & Ha').
    split; [done|]. split; [by etransitivity|]. split; [done|]. rewrite Hc1 in Hc', Ha'. split; [done|].
    intros x. rewrite Ha'. destruct (decide (x = id)) as [->|]; [done|]. by rewrite Ha1, Ha0, decide_False.
  - assert (Hnone : armed_for r id = None).
    { destruct (armed_for r id) eqn:Ea; [|done]. specialize (Hroom0 ltac:(done)). lia. }
    split; [done|]. split; [done|]. split; [|split; [done|]].
    + right. split; [|done]. rewrite <- Hm0 by done. intros E. specialize (Hmem E). done.
    + intros x. rewrite Ha1, Ha0. by destruct (decide (x = id)) as [->|].
Qed.

Lemma cancel_spec id r :
  queue_ok r -> few r ->
  let r' := cwist_reactor_timer_cancel id r in
  queue_ok r' /\ same_frame r r' /\ clock_of r' = clock_of r /\
  forall x, armed_for r' x = if decide (x = id) then None else armed_for r x.
Proof.
  intros Hq Hf. unfold cwist_reactor_timer_cancel.
  destruct (Z.eqb_spec (heap_slot (deref r id)) 0) as [E|E].
  - apply armed_for_none in E. cbv zeta. split_and!; [done|done|done|].
    intros x. by destruct (decide (x = id)) as [->|].
  - destruct (remove_spec r id (qo_slots r Hq) Hf E (qo_order r Hq)) as [Hq' Ht].
    pose proof (to_rest _ _ _ Ht) as Er. injection Er as _ _ E1 E2 _ _.
    split_and!; [done|by eapply taken_frame|unfold clock_of; congruence|apply Ht].
Qed.

(** ** The specification *)

(** The armed timers with their deadlines, and the clock. *)
Abbreviation spec := (gmap nat Z * clock)%type.

Definition armed_map (r : timer_queue) : gmap nat Z :=
  omap (fun t => if heap_slot t =? 0 then None else Some (deadline_ns t)) (timers r).

Section spec.
(** Which timers have a callback; whether an allocation can fail. *)
Context (cb : nat -> bool) (fails : Prop).

Inductive spec_call : spec -> timer_call -> spec -> Prop :=
  | spec_arm id delay_us m c :
      cb id = true -> spec_call (m, c) (CallArm id delay_us) (<[id := arm_deadline c delay_us]> m, ticked c)
  | spec_no_callback id delay_us m c : cb id = false -> spec_call (m, c) (CallArm id delay_us) (m, c)
  | spec_no_memory id delay_us m c : fails -> m !! id = None -> spec_call (m, c) (CallArm id delay_us) (m, c)
  | spec_cancel id m c : spec_call (m, c) (CallCancel id) (delete id m, c).

Inductive spec_calls : spec -> list timer_call -> spec -> Prop :=
  | spec_calls_nil s : spec_calls s [] s
  | spec_calls_cons s1 s2 s3 call calls :
      spec_call s1 call s2 -> spec_calls s2 calls s3 -> spec_calls s1 (call :: calls) s3.

Context (react : list nat -> list timer_call) (now : Z).

(** Firing: at most [budget] timers, each due and none of the armed earlier. *)
Inductive fires : nat -> list nat -> spec -> list nat -> spec -> Prop :=
  | fires_budget log s : fires O log s log s
  | fires_none budget log m c : (forall id d, m !! id = Some d -> now < d) -> fires budget log (m, c) log (m, c)
  | fires_next budget log m c id d s log' s' :
      m !! id = Some d -> d <= now -> (forall id' d', m !! id' = Some d' -> d <= d') ->
      spec_calls (delete id m, c) (react (log ++ [id])) s -> fires budget (log ++ [id]) s log' s' ->
      fires (S budget) log (m, c) log' s'.
End spec.

Lemma armed_map_lookup r id : armed_map r !! id = armed_for r id.
Proof. unfold armed_map, armed_for, deref. rewrite lookup_omap. by destruct (timers r !! id). Qed.

Definition spec_of (r : timer_queue) : spec := (armed_map r, clock_of r).

(** The parts of the state the specification is given. *)
Definition outside (cb : nat -> bool) (fails : Prop) (r : timer_queue) : Prop :=
  (forall x, has_cb (deref r x) = cb x) /\ (tmem r <> [] -> fails).

Lemma outside_frame cb fails r r' : same_frame r r' -> outside cb fails r -> outside cb fails r'.
Proof.
  intros H [Hcb Hm]. split; [intros x; by rewrite (fr_cb _ _ H)|]. intros Hne. apply Hm.
  intros E. by apply Hne, (fr_mem _ _ H).
Qed.

Lemma call_refines cb fails r call :
  queue_ok r -> few r -> outside cb fails r ->
  let r' := run_timer_call r call in
  queue_ok r' /\ same_frame r r' /\ spec_call cb fails (spec_of r) call (spec_of r').
Proof.
  intros Hq Hf [Hcb Hfails]. unfold spec_of. destruct call as [id delay_us|id]; cbn [run_timer_call].
  - pose proof (arm_spec id delay_us r Hq Hf) as H.
    destruct (cwist_reactor_timer_arm id delay_us r) as [ok r']. cbn [snd].
    destruct H as (Hq' & Hfr & Hres). split; [done|]. split; [done|]. destruct ok; cbn in Hres.
    + destruct Hres as (Hid & -> & Ha).
      replace (armed_map r') with (<[id := arm_deadline (clock_of r) delay_us]> (armed_map r)).
      { constructor. by rewrite <- Hcb. }
      apply map_eq. intros x. rewrite armed_map_lookup, Ha.
      destruct (decide (x = id)) as [->|]; [by rewrite lookup_insert_eq|].
      by rewrite lookup_insert_ne, armed_map_lookup.
    + destruct Hres as (Hcase & -> & Ha).
      replace (armed_map r') with (armed_map r) by (apply map_eq; intros x; by rewrite !armed_map_lookup, Ha).
      destruct Hcase as [Hid|[Hm Hnone]]; [apply spec_no_callback; by rewrite <- Hcb|].
      apply spec_no_memory; [by apply Hfails|by rewrite armed_map_lookup].
  - destruct (cancel_spec id r Hq Hf) as (Hq' & Hfr & Hc & Ha). split; [done|]. split; [done|].
    rewrite Hc.
    replace (armed_map (cwist_reactor_timer_cancel id r)) with (delete id (armed_map r)); [constructor|].
    apply map_eq. intros x. rewrite armed_map_lookup, Ha.
    destruct (decide (x = id)) as [->|]; [by rewrite lookup_delete_eq|].
    by rewrite lookup_delete_ne, armed_map_lookup.
Qed.

Lemma calls_refine cb fails calls : forall r,
  queue_ok r -> few r -> outside cb fails r ->
  let r' := fold_left run_timer_call calls r in
  queue_ok r' /\ same_frame r r' /\ spec_calls cb fails (spec_of r) calls (spec_of r').
Proof.
  induction calls as [|call calls IH]; intros r Hq Hf Hout; cbn [fold_left].
  { split; [done|]. split; [done|constructor]. }
  destruct (call_refines cb fails r call Hq Hf Hout) as (Hq1 & Hfr1 & Hs1).
  destruct (IH (run_timer_call r call)) as (Hq2 & Hfr2 & Hs2);
    [done|by eapply same_frame_few|by eapply outside_frame|].
  split; [done|]. split; [by etransitivity|]. by econstructor.
Qed.

(** ** Running *)

(** The root is due first. *)
Lemma root_first n d : heap_ordered n d -> forall j, 0 <= j < n -> d 0 <= d j.
Proof.
  intros Ho j Hj. assert (G : forall k : nat, 0 <= j -> j < n -> j <= Z.of_nat k -> d 0 <= d j); [|by apply (G (Z.to_nat j)); lia].
  clear Hj. intros k. revert j. induction k as [|k IH]; intros j H0 Hn Hk.
  - replace j with 0 by lia. lia.
  - destruct (Z.eq_dec j 0) as [->|]; [lia|]. specialize (IH ((j - 1) / 2)).
    pose proof (Ho j ltac:(lia)). assert (d 0 <= d ((j - 1) / 2)) by (apply IH; zlia). lia.
Qed.

Lemma armed_slot r id d : slots_ok r -> armed_for r id = Some d ->
  exists j, 0 <= j < timer_n r /\ heap_at r j = id /\ deadline_at r j = d.
Proof.
  intros Hok H. unfold armed_for in H. destruct (Z.eqb_spec (heap_slot (deref r id)) 0) as [|Hs]; [done|].
  destruct (so_armed r Hok id Hs) as [Hr E]. exists (heap_slot (deref r id) - 1).
  split; [lia|]. split; [done|]. unfold deadline_at. rewrite E. by injection H.
Qed.
Lemma slot_armed r j : slots_ok r -> 0 <= j < timer_n r ->
  armed_for r (heap_at r j) = Some (deadline_at r j).
Proof.
  intros Hok Hj. unfold armed_for. rewrite (so_slot r Hok j Hj). by destruct (Z.eqb_spec (j + 1) 0); [lia|].
Qed.

(** The heap holds the armed timers. *)
Lemma armed_map_size r : slots_ok r -> Z.of_nat (size (armed_map r)) = timer_n r.
Proof.
  intros Hok. set (l := map (fun i => heap_at r (Z.of_nat i)) (seq 0 (Z.to_nat (timer_n r)))).
  assert (Hd : NoDup l).
  { apply NoDup_fmap_2_strong; [|apply NoDup_seq]. intros x y Hx Hy E.
    apply elem_of_seq in Hx, Hy. apply heap_at_inj in E; [lia|done|lia|lia]. }
  assert (E : dom (armed_map r) = list_to_set l).
  { apply set_eq. intros x. rewrite elem_of_dom, elem_of_list_to_set, armed_map_lookup. split.
    - intros [d H]. destruct (armed_slot r x d Hok H) as (j & Hj & <- & _). apply list_elem_of_fmap.
      exists (Z.to_nat j). rewrite Z2Nat.id by lia. split; [done|]. apply elem_of_seq. lia.
    - intros Hx. apply list_elem_of_fmap in Hx as (i & -> & Hi). apply elem_of_seq in Hi.
      rewrite slot_armed; [done|done|lia]. }
  rewrite <- size_dom, E, size_list_to_set by done. unfold l. rewrite length_map, length_seq.
  pose proof (so_n r Hok). lia.
Qed.

Lemma fire_refines cb fails react r t :
  queue_ok r -> few r -> outside cb fails r -> heap_slot (deref r t) <> 0 ->
  let r' := fire react t r in
  queue_ok r' /\ few r' /\ outside cb fails r' /\ fired r' = fired r ++ [t] /\
  spec_calls cb fails (delete t (armed_map r), clock_of r) (react (fired r ++ [t])) (spec_of r').
Proof.
  intros Hq Hf Hout Ht. unfold fire.
  destruct (remove_spec r t (qo_slots r Hq) Hf Ht (qo_order r Hq)) as [Hq1 Hto].
  pose proof (taken_frame _ _ _ Hto) as Hfr1. set (r1 := timer_heap_remove t r) in *.
  rewrite (fr_fired _ _ Hfr1). set (r2 := r1 <| fired := fired r ++ [t] |>).
  change (fired r2) with (fired r ++ [t]). cbv zeta.
  assert (Hq2 : queue_ok r2) by (destruct Hq1 as [[] Ho]; by constructor).
  destruct (calls_refine cb fails (react (fired r ++ [t])) r2) as (Hq' & Hfr' & Hs).
  { done. }
  { exact (same_frame_few _ _ Hfr1 Hf). }
  { exact (outside_frame _ _ _ _ Hfr1 Hout). }
  split; [done|]. split; [apply (same_frame_few _ _ Hfr'); exact (same_frame_few _ _ Hfr1 Hf)|].
  split; [apply (outside_frame _ _ _ _ Hfr'); exact (outside_frame _ _ _ _ Hfr1 Hout)|].
  split; [by rewrite (fr_fired _ _ Hfr')|].
  replace (delete t (armed_map r), clock_of r) with (spec_of r2); [exact Hs|].
  unfold spec_of. f_equal.
  - apply map_eq. intros x. rewrite armed_map_lookup. change (armed_for r2 x) with (armed_for r1 x).
    rewrite (to_armed _ _ _ Hto). destruct (decide (x = t)) as [->|]; [by rewrite lookup_delete_eq|].
    by rewrite lookup_delete_ne, armed_map_lookup.
  - pose proof (to_rest _ _ _ Hto) as E. injection E as _ _ E1 E2 _ _.
    change (clock_of r2) with (clock_of r1). unfold clock_of. congruence.
Qed.

Lemma run_loop_refines cb fails react now budget : forall r,
  queue_ok r -> few r -> outside cb fails r ->
  let r' := run_timers_loop react budget now r in
  queue_ok r' /\ few r' /\ fires cb fails react now budget (fired r) (spec_of r) (fired r') (spec_of r').
Proof.
  induction budget as [|budget IH]; intros r Hq Hf Hout; cbn [run_timers_loop].
  { split; [done|]. split; [done|constructor]. }
  pose proof (qo_slots r Hq) as Hok. pose proof (so_n r Hok) as Hn.
  assert (Hnone : (forall id d, armed_map r !! id = Some d -> now < d) ->
    fires cb fails react now (S budget) (fired r) (spec_of r) (fired r) (spec_of r)) by by constructor.
  destruct (Z.ltb_spec 0 (timer_n r)) as [H0|H0]; cbn [andb].
  2: { split; [done|]. split; [done|]. apply Hnone. intros id d H. rewrite armed_map_lookup in H.
       apply armed_slot in H as (j & Hj & _); [lia|done]. }
  assert (Hroot : forall id d, armed_map r !! id = Some d -> deadline_at r 0 <= d).
  { intros id d H. rewrite armed_map_lookup in H. apply armed_slot in H as (j & Hj & _ & <-); [|done].
    by apply (root_first _ _ (qo_order r Hq)). }
  destruct (Z.leb_spec (deadline_at r 0) now) as [Hdue|Hlate].
  2: { split; [done|]. split; [done|]. apply Hnone. intros id d H. specialize (Hroot id d H). lia. }
  set (t := heap_at r 0).
  assert (Ht : armed_for r t = Some (deadline_at r 0)) by by apply slot_armed.
  assert (Hs : heap_slot (deref r t) <> 0) by (rewrite <- armed_for_none; congruence).
  destruct (fire_refines cb fails react r t Hq Hf Hout Hs) as (Hq1 & Hf1 & Hout1 & Ef & Hcalls).
  destruct (IH (fire react t r) Hq1 Hf1 Hout1) as (Hq' & Hf' & Hfires). split; [done|]. split; [done|].
  eapply fires_next; [by rewrite armed_map_lookup|done|done|exact Hcalls|]. by rewrite <- Ef.
Qed.

Lemma now_spec r now r' :
  reactor_now_ns r = (now, r') -> queue_ok r -> few r ->
  now = reading (clock_of r) /\ queue_ok r' /\ few r' /\ timer_n r' = timer_n r /\
  fired r' = fired r /\ spec_of r' = (armed_map r, ticked (clock_of r)) /\
  (forall cb fails, outside cb fails r -> outside cb fails r') /\
  (forall j, deadline_at r' j = deadline_at r j).
Proof.
  intros E Hq Hf. unfold reactor_now_ns, spec_of, clock_of, reading, ticked in *. cbn [fst snd] in *.
  destruct (readings r) eqn:Er; injection E as <- <-.
  - rewrite Er. by split_and!.
  - split_and!; try done. destruct Hq as [[] Ho]. by constructor.
Qed.

Lemma timer_round_refines cb fails react r :
  queue_ok r -> few r -> outside cb fails r ->
  let r' := reactor_run_timers react r in
  queue_ok r' /\ few r' /\
  (armed_map r = ∅ /\ r' = r \/
   fires cb fails react (reading (clock_of r)) (size (armed_map r)) (fired r)
     (armed_map r, ticked (clock_of r)) (fired r') (spec_of r')).
Proof.
  intros Hq Hf Hout. unfold reactor_run_timers. pose proof (armed_map_size r (qo_slots r Hq)) as Hn.
  destruct (Z.eqb_spec (timer_n r) 0) as [E|E].
  { split; [done|]. split; [done|]. left. split; [|done]. apply map_size_empty_inv. lia. }
  destruct (reactor_now_ns r) as [now r1] eqn:Enow.
  destruct (now_spec r now r1 Enow Hq Hf) as (-> & Hq1 & Hf1 & En & Ef & Es & Ho & _).
  destruct (run_loop_refines cb fails react (reading (clock_of r)) (Z.to_nat (timer_n r1)) r1)
    as (Hq' & Hf' & Hfires); [done|done|by apply Ho|].
  split; [done|]. split; [done|]. right. rewrite Es, Ef in Hfires.
  rewrite En, <- Hn, Nat2Z.id in Hfires. by rewrite En, <- Hn, Nat2Z.id.
Qed.

(** ** Reachable states *)

(** What programs can make of the reactor's timers.  A timer is only
    initialised while it is not armed, and there are fewer than 2^31. *)
Inductive reachable (react : list nat -> list timer_call) : timer_queue -> Prop :=
  | reach_new ticks o : reachable react (timers_new ticks o)
  | reach_init r id cb :
      reachable react r -> armed_for r id = None -> few (cwist_reactor_timer_init id cb r) ->
      reachable react (cwist_reactor_timer_init id cb r)
  | reach_call r call : reachable react r -> reachable react (run_timer_call r call)
  | reach_run r : reachable react r -> reachable react (reactor_run_timers react r)
  | reach_wait r : reachable react r -> reachable react (reactor_wait_ns r).2.

Lemma timer_init_ok id cb r : queue_ok r -> armed_for r id = None -> queue_ok (cwist_reactor_timer_init id cb r).
Proof.
  intros [Hok Ho] Hfree. apply armed_for_none in Hfree. unfold cwist_reactor_timer_init.
  assert (Hne : forall j, 0 <= j < timer_n r -> heap_at r j <> id).
  { intros j Hj E. pose proof (so_slot r Hok j Hj) as Hs. rewrite E in Hs. lia. }
  set (r' := set_timer _ _ r). assert (Hat : forall j, heap_at r' j = heap_at r j) by done.
  constructor; [constructor|].
  - apply (so_cap r Hok).
  - apply (so_n r Hok).
  - intros j Hj. rewrite Hat. unfold r'. rewrite deref_set, decide_False by by apply Hne.
    by apply (so_slot r Hok).
  - intros x. rewrite Hat. unfold r'. rewrite deref_set. destruct (decide (x = id)); [done|].
    apply (so_armed r Hok).
  - intros j Hj. change (timer_n r') with (timer_n r) in Hj. unfold deadline_at. rewrite !Hat. unfold r'.
    rewrite !deref_set, !decide_False by (apply Hne; zlia). by apply Ho.
Qed.

Lemma wait_spec r :
  queue_ok r -> few r ->
  let '(w, r') := reactor_wait_ns r in
  queue_ok r' /\ few r' /\ 0 <= w <= REACTOR_IDLE_WAIT_NS /\ (forall x, armed_for r' x = armed_for r x) /\
  (forall id d, armed_for r id = Some d -> w <= Z.max 0 (d - reading (clock_of r))) /\
  (w < REACTOR_IDLE_WAIT_NS -> exists id d, armed_for r id = Some d /\ w = Z.max 0 (d - reading (clock_of r))).
Proof.
  intros Hq Hf. pose proof (qo_slots r Hq) as Hok. pose proof (so_n r Hok) as Hn.
  unfold reactor_wait_ns. assert (HI : REACTOR_IDLE_WAIT_NS = 100000000) by done.
  destruct (Z.eqb_spec (timer_n r) 0) as [E|E].
  { split_and!; [done|done|lia|lia|done| |lia]. intros id d H. apply armed_slot in H as (j & Hj & _); [lia|done]. }
  destruct (reactor_now_ns r) as [now r1] eqn:Enow.
  destruct (now_spec r now r1 Enow Hq Hf) as (-> & Hq1 & Hf1 & En & _ & Es & _ & Ed).
  assert (Ha : forall x, armed_for r1 x = armed_for r x).
  { intros x. rewrite <- !armed_map_lookup. apply (f_equal fst) in Es.
    change (armed_map r1 = armed_map r) in Es. by rewrite Es. }
  rewrite Ed. set (now := reading (clock_of r)).
  assert (Hroot : forall id d, armed_for r id = Some d -> deadline_at r 0 <= d).
  { intros id d H. apply armed_slot in H as (j & Hj & _ & <-); [|done]. by apply (root_first _ _ (qo_order r Hq)). }
  pose proof (slot_armed r 0 Hok ltac:(lia)) as Ht. cbv zeta.
  destruct (Z.leb_spec (deadline_at r 0) now).
  { split_and!; [done|done|lia|lia|done|lia|]. intros _. eexists _, _. split; [exact Ht|lia]. }
  destruct (Z.ltb_spec (deadline_at r 0 - now) REACTOR_IDLE_WAIT_NS); split_and!; try done; try lia.
  - intros id d Hd. specialize (Hroot id d Hd). lia.
  - intros _. eexists _, _. split; [exact Ht|lia].
  - intros id d Hd. specialize (Hroot id d Hd). lia.
Qed.

Lemma reachable_ok react r : reachable react r -> queue_ok r /\ few r.
Proof.
  induction 1 as [ticks o|r id cb _ IH Hfree Hfew|r call _ [Hq Hf]|r _ [Hq Hf]|r _ [Hq Hf]].
  - split; [|done]. constructor; [constructor|]; cbn; try lia; try done.
  - destruct IH as [Hq _]. split; [by apply timer_init_ok|done].
  - destruct (call_refines (fun x => has_cb (deref r x)) True r call Hq Hf) as (Hq' & Hfr & _); [done|].
    split; [done|by eapply same_frame_few].
  - by destruct (timer_round_refines (fun x => has_cb (deref r x)) True react r Hq Hf) as (Hq' & Hf' & _).
  - pose proof (wait_spec r Hq Hf) as H. destruct (reactor_wait_ns r) as [w r']. by destruct H as (? & ? & _).
Qed.

(** ** Callbacks that make no calls *)

Definition by_deadline (m : gmap nat Z) (a b : nat) : Prop := default 0 (m !! a) <= default 0 (m !! b).

Lemma sorted_impl {A} (R R' : A -> A -> Prop) l :
  (forall a b, R a b -> R' a b) -> StronglySorted R l -> StronglySorted R' l.
Proof.
  intros H. induction 1 as [|a l _ IH Ha]; constructor; [done|].
  rewrite list.Forall_forall in *. auto.
Qed.

Lemma sorted_weaken m m' l :
  (forall x, x ∈ l -> m !! x = m' !! x) -> StronglySorted (by_deadline m) l -> StronglySorted (by_deadline m') l.
Proof.
  induction l as [|a l IH]; intros H Hs; [constructor|]. apply StronglySorted_inv in Hs as [Hs Ha].
  constructor; [apply IH; [|done]; intros x Hx; apply H; by right|].
  rewrite list.Forall_forall in *. intros b Hb. specialize (Ha b Hb). unfold by_deadline in *.
  rewrite <- !H; [done|by right|by left].
Qed.

Lemma fires_silent cb fails react now budget log m c log' m' c' :
  (forall l, react l = []) -> (size m <= budget)%nat ->
  fires cb fails react now budget log (m, c) log' (m', c') ->
  exists ids, log' = log ++ ids /\ c' = c /\ NoDup ids /\ StronglySorted (by_deadline m) ids /\
    (forall id, id ∈ ids <-> exists d, m !! id = Some d /\ d <= now) /\
    forall id, m' !! id = if decide (id ∈ ids) then None else m !! id.
Proof.
  intros Hr. remember (m, c) as s eqn:Es. remember (m', c') as s' eqn:Es'. intros Hsize H.
  revert m c m' c' Es Es' Hsize.
  induction H as [log s|budget log m0 c0 Hnone|budget log m0 c0 id d s log' s' Hid Hd Hmin Hcalls _ IH];
    intros m c m' c' Es Es' Hsize.
  - subst s. injection Es' as <- <-. assert (m = ∅) as -> by (apply map_size_empty_inv; lia).
    exists []. rewrite app_nil_r. split_and!; [done|done|constructor|constructor| |].
    + intros id. split; [intros H; by apply elem_of_nil in H|]. by intros (d & H & _).
    + done.
  - injection Es as -> ->. injection Es' as <- <-. exists []. rewrite app_nil_r.
    split_and!; [done|done|constructor|constructor| |].
    + intros id. split; [intros H; by apply elem_of_nil in H|]. intros (d & H & Hd). specialize (Hnone id d H). lia.
    + done.
  - injection Es as -> ->. rewrite Hr in Hcalls. inversion Hcalls; subst. clear Hcalls.
    destruct (IH (delete id m) c m' c' eq_refl eq_refl) as (ids & -> & -> & Hnd & Hsort & Hin & Hm').
    { rewrite map_size_delete, Hid. cbn. lia. }
    assert (Hnot : id ∉ ids).
    { rewrite Hin. intros (d' & H & _). by rewrite lookup_delete_eq in H. }
    assert (Hids : forall x, x ∈ ids -> delete id m !! x = m !! x).
    { intros x Hx. apply lookup_delete_ne. by intros ->. }
    exists (id :: ids). rewrite <- app_assoc. split_and!; [done|done|by constructor| | |].
    + constructor; [by eapply sorted_weaken|]. apply list.Forall_forall. intros x Hx. unfold by_deadline.
      rewrite Hid. apply Hin in Hx as Hx'. destruct Hx' as (dx & Hdx & _). rewrite Hids in Hdx by done.
      rewrite Hdx. cbn. by apply (Hmin x).
    + intros x. rewrite elem_of_cons, Hin. split.
      * intros [->|(dx & Hdx & Hle)]; [by exists d|]. exists dx.
        apply lookup_delete_Some in Hdx as [_ Hdx]. done.
      * intros (dx & Hdx & Hle). destruct (decide (x = id)) as [->|]; [by left|]. right. exists dx.
        by rewrite lookup_delete_ne.
    + intros x. rewrite Hm'. destruct (decide (x = id)) as [->|Hx].
      * rewrite decide_False by done. rewrite decide_True by by left. by rewrite lookup_delete_eq.
      * rewrite lookup_delete_ne by done. destruct (decide (x ∈ ids)).
        -- by rewrite decide_True by by right.
        -- rewrite decide_False; [done|]. rewrite elem_of_cons. tauto.
Qed.

(** ** The theorems *)

(** whatever timers are initialised, armed and cancelled, by callbacks or
    between rounds, and whichever allocations fail, the used part of the heap
    array is within its capacity, every timer in it knows its index, a timer
    reports itself armed exactly when it is in the heap, and no timer stands
    above one that is due before it. *)
Theorem timers_invariant react r :
  reachable react r ->
  0 <= timer_n r <= timer_cap r /\ timer_cap r = Z.of_nat (length (timer_heap r)) /\
  (forall i, 0 <= i < timer_n r -> heap_slot (deref r (heap_at r i)) = i + 1) /\
  (forall id, cwist_reactor_timer_armed id r = true <-> exists i, 0 <= i < timer_n r /\ heap_at r i = id) /\
  (forall i, 0 < i < timer_n r -> deadline_at r ((i - 1) / 2) <= deadline_at r i).
Proof.
  intros H. destruct (reachable_ok react r H) as [[Hok Ho] _].
  split; [apply (so_n r Hok)|]. split; [by rewrite (so_cap r Hok)|]. split; [apply (so_slot r Hok)|].
  split; [|exact Ho]. intros id. unfold cwist_reactor_timer_armed. split.
  - intros Ha. destruct (so_armed r Hok id) as [Hr E]; [destruct (Z.eqb_spec (heap_slot (deref r id)) 0); done|].
    exists (heap_slot (deref r id) - 1). split; [lia|done].
  - intros (i & Hi & <-). rewrite (so_slot r Hok) by done. by destruct (Z.eqb_spec (i + 1) 0); [lia|].
Qed.

(** C34: the reactor's timers are a finite map from armed timers to deadlines.
    Arming inserts a deadline of now plus the delay, replacing an earlier one;
    it does nothing without a callback, and fails for want of memory only when
    the timer is not armed and allocations can fail; cancelling deletes.  A
    round reads the clock once and fires armed timers that are due, each time
    one of the earliest, taking it out of the map before its callback makes its
    calls, until none is due or as many have fired as were armed at the start. *)
Theorem timers_refine react r :
  reachable react r ->
  let cb := fun id => has_cb (deref r id) in
  let fails := tmem r <> [] in
  (forall call, spec_call cb fails (spec_of r) call (spec_of (run_timer_call r call))) /\
  let r' := reactor_run_timers react r in
  armed_map r = ∅ /\ r' = r \/
  fires cb fails react (reading (clock_of r)) (size (armed_map r)) (fired r)
    (armed_map r, ticked (clock_of r)) (fired r') (spec_of r').
Proof.
  intros H cb fails. destruct (reachable_ok react r H) as [Hq Hf].
  assert (Ho : outside cb fails r) by done. split.
  - intros call. by apply (call_refines cb fails r call Hq Hf Ho).
  - apply (timer_round_refines cb fails react r Hq Hf Ho).
Qed.

(** C38: when the callbacks neither arm nor cancel, a round fires exactly the
    timers whose deadline has come, each once, in the order of their deadlines,
    and leaves the others armed as they were. *)
Theorem due_fire_in_order react r :
  reachable react r -> (forall l, react l = []) ->
  let now := reading (clock_of r) in
  let r' := reactor_run_timers react r in
  exists ids, fired r' = fired r ++ ids /\ NoDup ids /\
    StronglySorted (fun a b => default 0 (armed_for r a) <= default 0 (armed_for r b)) ids /\
    (forall id, id ∈ ids <-> exists d, armed_for r id = Some d /\ d <= now) /\
    forall id, armed_for r' id = if decide (id ∈ ids) then None else armed_for r id.
Proof.
  intros H Hr. destruct (reachable_ok react r H) as [Hq Hf]. cbv zeta.
  destruct (timer_round_refines (fun id => has_cb (deref r id)) (tmem r <> []) react r Hq Hf) as (_ & _ & Hrun); [done|].
  set (r' := reactor_run_timers react r) in *.
  assert (Hs : exists ids, fired r' = fired r ++ ids /\ NoDup ids /\
    StronglySorted (by_deadline (armed_map r)) ids /\
    (forall id, id ∈ ids <-> exists d, armed_map r !! id = Some d /\ d <= reading (clock_of r)) /\
    forall id, armed_map r' !! id = if decide (id ∈ ids) then None else armed_map r !! id).
  { destruct Hrun as [[Em E]|Hrun].
    - exists []. rewrite E, app_nil_r, Em. split_and!; [done|constructor|constructor| |done].
      intros id. split; [intros Hid; by apply elem_of_nil in Hid|]. intros (d & Hd & _). by rewrite lookup_empty in Hd.
    - apply fires_silent in Hrun as (ids & Ef & _ & Hnd & Hsort & Hin & Hm); [|done|done]. by exists ids. }
  destruct Hs as (ids & Ef & Hnd & Hsort & Hin & Hm). exists ids. split; [done|]. split; [done|]. split; [|split].
  - eapply sorted_impl; [|exact Hsort]. intros a b. unfold by_deadline. by rewrite !armed_map_lookup.
  - intros id. rewrite Hin. by rewrite armed_map_lookup.
  - intros id. by rewrite <- !armed_map_lookup.
Qed.

(** the poll never waits past the earliest timer: the wait is at most the
    idle wait and at most the time to any armed timer's deadline, zero for one
    that is due; and when it is shorter than the idle wait it ends exactly at
    the deadline of an armed timer. *)
Theorem wait_until_earliest react r :
  reachable react r ->
  let now := reading (clock_of r) in
  let '(w, r') := reactor_wait_ns r in
  0 <= w <= REACTOR_IDLE_WAIT_NS /\ (forall id, armed_for r' id = armed_for r id) /\
  (forall id d, armed_for r id = Some d -> w <= Z.max 0 (d - now)) /\
  (w < REACTOR_IDLE_WAIT_NS -> exists id d, armed_for r id = Some d /\ w = Z.max 0 (d - now)).
Proof.
  intros H. destruct (reachable_ok react r H) as [Hq Hf]. pose proof (wait_spec r Hq Hf) as Hw.
  cbv zeta. destruct (reactor_wait_ns r) as [w r']. tauto.
Qed.

(** ** Examples *)

(** Four timers, the last without callback; the first re-arms itself when it
    fires and cancels the third. *)
Abbreviation demo_react := (fun log : list nat =>
  if decide (log = [1%nat]) then [CallArm 1 5; CallCancel 3] else []).
Abbreviation demo_calls := [CallArm 2 40; CallArm 1 20; CallArm 3 30; CallArm 4 1; CallArm 2 10].
Abbreviation demo_init :=
  (cwist_reactor_timer_init 4 false (cwist_reactor_timer_init 3 true
    (cwist_reactor_timer_init 2 true (cwist_reactor_timer_init 1 true (timers_new [0; 100; 200; 50000; 60000] []))))).
Abbreviation demo_queue := (fold_left run_timer_call demo_calls demo_init).

Lemma demo_reachable react : reachable react demo_queue.
Proof.
  cbn [fold_left]. do 5 apply reach_call.
  do 4 (apply reach_init; [|vm_compute; reflexivity|vm_compute; reflexivity]). constructor.
Qed.

Lemma timers_invariant_witness :
  0 <= timer_n demo_queue <= timer_cap demo_queue /\
  timer_cap demo_queue = Z.of_nat (length (timer_heap demo_queue)) /\
  (forall i, 0 <= i < timer_n demo_queue -> heap_slot (deref demo_queue (heap_at demo_queue i)) = i + 1) /\
  (forall id, cwist_reactor_timer_armed id demo_queue = true <->
    exists i, 0 <= i < timer_n demo_queue /\ heap_at demo_queue i = id) /\
  (forall i, 0 < i < timer_n demo_queue -> deadline_at demo_queue ((i - 1) / 2) <= deadline_at demo_queue i).
Proof. apply (timers_invariant demo_react). apply demo_reachable. Defined.

Lemma timers_refine_witness :
  (forall call, spec_call (fun id => has_cb (deref demo_queue id)) (tmem demo_queue <> [])
    (spec_of demo_queue) call (spec_of (run_timer_call demo_queue call))) /\
  let r' := reactor_run_timers demo_react demo_queue in
  armed_map demo_queue = ∅ /\ r' = demo_queue \/
  fires (fun id => has_cb (deref demo_queue id)) (tmem demo_queue <> []) demo_react
    (reading (clock_of demo_queue)) (size (armed_map demo_queue)) (fired demo_queue)
    (armed_map demo_queue, ticked (clock_of demo_queue)) (fired r') (spec_of r').
Proof. apply (timers_refine demo_react demo_queue). apply demo_reachable. Defined.

Lemma due_fire_in_order_witness :
  let now := reading (clock_of demo_queue) in
  let r' := reactor_run_timers (fun _ => []) demo_queue in
  exists ids, fired r' = fired demo_queue ++ ids /\ NoDup ids /\
    StronglySorted (fun a b => default 0 (armed_for demo_queue a) <= default 0 (armed_for demo_queue b)) ids /\
    (forall id, id ∈ ids <-> exists d, armed_for demo_queue id = Some d /\ d <= now) /\
    forall id, armed_for r' id = if decide (id ∈ ids) then None else armed_for demo_queue id.
Proof. apply (due_fire_in_order (fun _ => []) demo_queue); [apply demo_reachable|done]. Defined.

Lemma wait_until_earliest_witness :
  let now := reading (clock_of demo_queue) in
  let '(w, r') := reactor_wait_ns demo_queue in
  0 <= w <= REACTOR_IDLE_WAIT_NS /\ (forall id, armed_for r' id = armed_for demo_queue id) /\
  (forall id d, armed_for demo_queue id = Some d -> w <= Z.max 0 (d - now)) /\
  (w < REACTOR_IDLE_WAIT_NS -> exists id d, armed_for demo_queue id = Some d /\ w = Z.max 0 (d - now)).
Proof. apply (wait_until_earliest demo_react demo_queue). apply demo_reachable. Defined.

(** The deadlines are 20100, 60000 (armed again) and 30200; the clock reads 60000. *)
Example demo_fired :
  let r' := reactor_run_timers demo_react demo_queue in
  (fired r', armed_for r' 1, armed_for r' 2, armed_for r' 3) = ([1%nat; 2%nat], Some 65000, None, None).
Proof. vm_compute. reflexivity. Qed.
