(* ===== verification/PostQueue.v ===== *)
(** * Posting to a reactor from other threads (sys/io/reactor.c)

    [cwist_reactor_post] pushes a node on a lock-free stack and wakes the run
    thread; [reactor_drain_posts] takes the whole stack, reverses it and runs
    the callbacks.  The program is a function from actions, each a step of one
    thread, to the shared state; an interleaving is a list of actions.  Memory
    is sequentially consistent. *)

From S2P Require Import Prelude.

(** ** Data *)

(** Where a thread stands in [cwist_reactor_post]: before the load; with the
    head it has seen, before [node->next = head]; before the exchange; before
    the wake-up. *)
Inductive producer :=
  | PLoad (node : nat) | PNext (node : nat) (head : option nat) | PCas (node : nat) (head : option nat)
  | PWake (head : option nat).

(** The run thread: waiting; with the wake-ups read, before the drain; in the
    first loop ([list], [rev]); in the second. *)
Inductive run_thread := RIdle | RWoken | RReverse (list rev : option nat) | RRun (rev : option nat).

#[export] Instance run_thread_eq_dec : EqDecision run_thread.
Proof. solve_decision. Defined.

(** A node is its address; [next] is the field of every node.  [wakes] counts
    what can be read from the wake descriptor.  [pushed] and [ran] record the
    order of the pushes and of the callbacks; [owned] the nodes handed over and
    not yet given back, by the rule of the interface. *)
Record post_state := MkPost {
  post_head : option nat; next : gmap nat (option nat);
  producers : gmap nat producer; runner : run_thread; wakes : Z;
  pushed : list nat; ran : list nat; owned : gset nat }.
#[export] Instance post_fields : Fields post_state := fun s =>
  MkPost s.(post_head) s.(next) s.(producers) s.(runner) s.(wakes) s.(pushed) s.(ran) s.(owned).

Definition next_of (s : post_state) (n : nat) : option nat := default None (s.(next) !! n).

(** ** Steps *)

(** Thread [t] calls [cwist_reactor_post] with a node it owns; it makes its
    next step ([ok]: the weak exchange does not fail spuriously); the run
    thread reads the wake-ups, starts a drain, or goes on with it. *)
Inductive post_action := APost (t node : nat) | AProduce (t : nat) (ok : bool) | AWake | ADrain | ARun.

Definition cwist_reactor_post_enter (t node : nat) (s : post_state) : option post_state :=
  if bool_decide (is_Some (s.(producers) !! t)) || bool_decide (node ∈ s.(owned)) then None
  else Some (s <| producers := <[t := PLoad node]> s.(producers) |> <| owned := {[node]} ∪ s.(owned) |>).

Definition cwist_reactor_post_step (t : nat) (ok : bool) (s : post_state) : option post_state :=
  let goto p := <[t := p]> s.(producers) in
  match s.(producers) !! t with
  | None => None
  | Some (PLoad node) => Some (s <| producers := goto (PNext node s.(post_head)) |>)
  | Some (PNext node head) =>
      Some (s <| next := <[node := head]> s.(next) |> <| producers := goto (PCas node head) |>)
  | Some (PCas node head) =>
      if bool_decide (s.(post_head) = head) && ok then
        Some (s <| post_head := Some node |> <| producers := goto (PWake head) |>
                <| pushed := s.(pushed) ++ [node] |>)
      else Some (s <| producers := goto (PNext node s.(post_head)) |>)
  | Some (PWake head) =>
      let s := s <| producers := delete t s.(producers) |> in
      Some (match head with None => s <| wakes := s.(wakes) + 1 |> | Some _ => s end)
  end.

(** [reactor_wake_cb] up to the drain. *)
Definition reactor_wake_read (s : post_state) : option post_state :=
  match s.(runner) with
  | RIdle => if 0 <? s.(wakes) then Some (s <| wakes := 0 |> <| runner := RWoken |>) else None
  | _ => None
  end.

Definition reactor_drain_start (s : post_state) : option post_state :=
  match s.(runner) with
  | RIdle | RWoken => Some (s <| runner := RReverse s.(post_head) None |> <| post_head := None |>)
  | _ => None
  end.

Definition reactor_drain_step (s : post_state) : option post_state :=
  match s.(runner) with
  | RReverse (Some node) rev =>
      Some (s <| next := <[node := rev]> s.(next) |> <| runner := RReverse (next_of s node) (Some node) |>)
  | RReverse None rev => Some (s <| runner := RRun rev |>)
  | RRun (Some node) =>
      Some (s <| runner := RRun (next_of s node) |> <| ran := s.(ran) ++ [node] |>
              <| owned := s.(owned) ∖ {[node]} |>)
  | RRun None => Some (s <| runner := RIdle |>)
  | _ => None
  end.

Definition post_step (a : post_action) (s : post_state) : option post_state :=
  match a with
  | APost t node => cwist_reactor_post_enter t node s
  | AProduce t ok => cwist_reactor_post_step t ok s
  | AWake => reactor_wake_read s
  | ADrain => reactor_drain_start s
  | ARun => reactor_drain_step s
  end.
Fixpoint post_run (acts : list post_action) (s : post_state) : option post_state :=
  match acts with
  | [] => Some s
  | a :: acts => match post_step a s with Some s => post_run acts s | None => None end
  end.

Definition post_new : post_state := MkPost None ∅ ∅ RIdle 0 [] [] ∅.

(** ** Linked lists *)

Fixpoint chain (nx : gmap nat (option nat)) (p : option nat) (l : list nat) : Prop :=
  match l with
  | [] => p = None
  | n :: l => p = Some n /\ chain nx (default None (nx !! n)) l
  end.

Lemma chain_insert nx p l n q : n ∉ l -> chain nx p l -> chain (<[n := q]> nx) p l.
Proof.
  revert p. induction l as [|x l IH]; intros p Hn; [done|]. cbn.
  rewrite elem_of_cons in Hn. intros [-> H]. split; [done|].
  rewrite lookup_insert_ne by (intros ->; tauto). apply IH; [tauto|done].
Qed.

Lemma chain_cons nx n p l : n ∉ l -> chain nx p l -> chain (<[n := p]> nx) (Some n) (n :: l).
Proof. intros Hn H. cbn. split; [done|]. rewrite lookup_insert_eq. by apply chain_insert. Qed.

(** ** The invariant *)

(** The node a producer holds. *)
Definition held (p : producer) : option nat :=
  match p with PLoad n | PNext n _ | PCas n _ => Some n | PWake _ => None end.

(** The run thread's two lists. *)
Definition runner_lists (nx : gmap nat (option nat)) (r : run_thread) (l m : list nat) : Prop :=
  match r with
  | RIdle | RWoken => l = [] /\ m = []
  | RReverse p q => chain nx p l /\ chain nx q m
  | RRun q => l = [] /\ chain nx q m
  end.

(** [stack] is what is pushed, newest first; [l] is still to be reversed, [m]
    is reversed.  Every node handed over is in one of the three or held by one
    producer. *)
Record post_inv (s : post_state) (stack l m : list nat) : Prop := {
  pi_stack : chain s.(next) s.(post_head) stack;
  pi_lists : runner_lists s.(next) s.(runner) l m;
  pi_nodup : NoDup (stack ++ l ++ m);
  pi_order : s.(pushed) = s.(ran) ++ rev l ++ m ++ rev stack;
  pi_held : forall t p n, s.(producers) !! t = Some p -> held p = Some n ->
    n ∈ s.(owned) /\ n ∉ stack ++ l ++ m;
  pi_apart : forall t t' p p' n, s.(producers) !! t = Some p -> s.(producers) !! t' = Some p' ->
    held p = Some n -> held p' = Some n -> t = t';
  pi_owned : forall n, n ∈ stack ++ l ++ m -> n ∈ s.(owned);
  pi_linked : forall t n h, s.(producers) !! t = Some (PCas n h) -> next_of s n = h;
  pi_woken : s.(post_head) <> None -> 0 < s.(wakes) \/ s.(runner) = RWoken \/
    exists t, s.(producers) !! t = Some (PWake None);
  pi_wakes : 0 <= s.(wakes) }.

Lemma runner_lists_insert nx r l m n q :
  n ∉ l ++ m -> runner_lists nx r l m -> runner_lists (<[n := q]> nx) r l m.
Proof.
  rewrite elem_of_app. intros Hn. destruct r; cbn; [done|done|..];
    intros [? ?]; split; try done; apply chain_insert; tauto.
Qed.

Lemma post_new_inv : post_inv post_new [] [] [].
Proof. constructor; try done; [constructor|intros n H; by apply elem_of_nil in H]. Qed.

Lemma goto_cases s t p t' q :
  <[t := p]> (producers s) !! t' = Some q -> t' = t /\ q = p \/ t' <> t /\ producers s !! t' = Some q.
Proof.
  destruct (decide (t' = t)) as [->|Hne].
  - rewrite lookup_insert_eq. intros [= <-]. by left.
  - rewrite lookup_insert_ne by done. by right.
Qed.

(** The fields of an updated state. *)
Ltac post_fields :=
  cbn [post_head next runner pushed ran producers owned wakes set_field].

Section steps.
Context (s : post_state) (stack l m : list nat) (H : post_inv s stack l m).

Lemma enter_inv t node s' :
  cwist_reactor_post_enter t node s = Some s' -> post_inv s' stack l m.
Proof.
  unfold cwist_reactor_post_enter. destruct (bool_decide_reflect (is_Some (producers s !! t))) as [|Ht]; [done|].
  destruct (bool_decide_reflect (node ∈ owned s)) as [|Hn]; [done|]. cbn [orb]. intros [= <-].
  assert (Hno : producers s !! t = None) by (destruct (producers s !! t); [by exfalso; apply Ht|done]).
  destruct H as [Hst Hl Hnd Hord Hheld Hapart Hown Hlink Hwoken Hwk].
  assert (Hfresh : forall t' p n, producers s !! t' = Some p -> held p = Some n -> n <> node).
  { intros t' p n Ht' Hp ->. destruct (Hheld t' p node Ht' Hp). done. }
  pose proof (goto_cases s t (PLoad node)) as Hget.
  constructor; post_fields; try done.
  - intros t' p n E Hp. apply Hget in E as [[-> ->]|[Hne E]].
    + injection Hp as <-. split; [set_solver|]. intros Hin. by apply Hn, Hown.
    + destruct (Hheld t' p n E Hp). split; [set_solver|done].
  - intros t1 t2 p1 p2 n E1 E2 H1 H2. apply Hget in E1 as [[-> ->]|[Hne1 E1]], E2 as [[-> ->]|[Hne2 E2]].
    + done.
    + injection H1 as <-. by destruct (Hfresh t2 p2 node E2 H2).
    + injection H2 as <-. by destruct (Hfresh t1 p1 node E1 H1).
    + by eapply Hapart.
  - intros n Hin. apply Hown in Hin. set_solver.
  - intros t' n h E. apply Hget in E as [[-> E]|[Hne E]]; [done|]. by apply (Hlink t').
  - intros Hh. destruct (Hwoken Hh) as [?|[?|[t' E]]]; [by left|by right; left|]. right. right.
    exists t'. rewrite lookup_insert_ne; [done|congruence].
Qed.

(** A producer moves on and keeps its node. *)
Lemma move_inv t p q :
  producers s !! t = Some p -> held q = held p -> (forall h, p <> PWake h) ->
  (forall n h, q = PCas n h -> next_of s n = h) ->
  post_inv (s <| producers := <[t := q]> (producers s) |>) stack l m.
Proof.
  intros Ep Eq Hp Hq. destruct H as [Hst Hl Hnd Hord Hheld Hapart Hown Hlink Hwoken Hwk].
  pose proof (goto_cases s t q) as Hget. constructor; post_fields; try done.
  - intros t' q' n E Hn. apply Hget in E as [[-> ->]|[_ E]]; [|by apply (Hheld t' q')].
    rewrite Eq in Hn. by apply (Hheld t p).
  - intros t1 t2 p1 p2 n E1 E2 H1 H2.
    apply Hget in E1 as [[-> ->]|[_ E1]], E2 as [[-> ->]|[_ E2]]; [done|..|by eapply Hapart]; rewrite Eq in *.
    + by apply (Hapart t t2 p p2 n).
    + by apply (Hapart t1 t p1 p n).
  - intros t' n h E. apply Hget in E as [[-> E]|[_ E]]; [by apply Hq|by apply (Hlink t')].
  - intros Hh. destruct (Hwoken Hh) as [?|[?|[t' E]]]; [by left|by right; left|]. right. right.
    exists t'. rewrite lookup_insert_ne; [done|]. intros <-. rewrite Ep in E. injection E as E. by apply (Hp None).
Qed.

(** It writes the link of its node. *)
Lemma write_inv t node head h :
  producers s !! t = Some (PNext node head) ->
  post_inv (s <| next := <[node := h]> (next s) |>) stack l m.
Proof.
  intros Ep. destruct H as [Hst Hl Hnd Hord Hheld Hapart Hown Hlink Hwoken Hwk].
  destruct (Hheld t (PNext node head) node Ep eq_refl) as [_ Hnin]. rewrite elem_of_app in Hnin.
  constructor; post_fields; try done.
  - apply chain_insert; tauto.
  - apply runner_lists_insert; tauto.
  - intros t' n h' E. unfold next_of. post_fields. rewrite lookup_insert_ne; [by apply (Hlink t')|]. intros <-.
    assert (t' = t) as -> by by apply (Hapart t' t (PCas node h') (PNext node head) node).
    rewrite Ep in E. done.
Qed.

(** It pushes its node. *)
Lemma push_inv t node :
  producers s !! t = Some (PCas node (post_head s)) ->
  post_inv (s <| post_head := Some node |> <| producers := <[t := PWake (post_head s)]> (producers s) |>
              <| pushed := pushed s ++ [node] |>) (node :: stack) l m.
Proof.
  intros Ep. destruct H as [Hst Hl Hnd Hord Hheld Hapart Hown Hlink Hwoken Hwk].
  destruct (Hheld t _ node Ep eq_refl) as [Hno Hnin]. pose proof (Hlink t node _ Ep) as Hnext.
  pose proof (goto_cases s t (PWake (post_head s))) as Hget. constructor; post_fields; try done.
  - cbn. split; [done|]. unfold next_of in Hnext. by rewrite Hnext.
  - by constructor.
  - rewrite Hord. cbn [rev]. by rewrite !app_assoc.
  - intros t' q n E Hq. apply Hget in E as [[-> ->]|[Hne E]]; [done|].
    destruct (Hheld t' q n E Hq) as [H1 H2]. split; [done|]. cbn. rewrite elem_of_cons. intros [->|H3]; [|done].
    by apply Hne, (Hapart t' t q (PCas node (post_head s)) node).
  - intros t1 t2 p1 p2 n E1 E2 H1 H2.
    apply Hget in E1 as [[-> ->]|[_ E1]], E2 as [[-> ->]|[_ E2]]; [done|done|done|by eapply Hapart].
  - intros n. cbn. rewrite elem_of_cons. intros [->|Hin]; [done|by apply Hown].
  - intros t' n h E. apply Hget in E as [[-> E]|[_ E]]; [done|by apply (Hlink t')].
  - intros _. destruct (post_head s) as [h|] eqn:Eh.
    + destruct (Hwoken ltac:(done)) as [?|[?|[t' E]]]; [by left|by right; left|]. right. right.
      exists t'. rewrite lookup_insert_ne; [done|]. intros <-. congruence.
    + right. right. exists t. by rewrite lookup_insert_eq.
Qed.

(** It returns, with a wake-up if the stack was empty. *)
Lemma wake_inv t head w :
  producers s !! t = Some (PWake head) -> wakes s <= w -> (head = None -> 0 < w) ->
  post_inv (s <| producers := delete t (producers s) |> <| wakes := w |>) stack l m.
Proof.
  intros Ep Hw Hw1. destruct H as [Hst Hl Hnd Hord Hheld Hapart Hown Hlink Hwoken Hwk].
  assert (Hdel : forall t' q, delete t (producers s) !! t' = Some q -> producers s !! t' = Some q).
  { intros t' q E. by apply lookup_delete_Some in E as [? ?]. }
  constructor; post_fields; try done; try lia.
  - intros t' q n E. by apply (Hheld t' q n), Hdel.
  - intros t1 t2 p1 p2 n E1 E2. apply Hapart; by apply Hdel.
  - intros t' n h E. by apply (Hlink t'), Hdel.
  - intros Hh. destruct (Hwoken Hh) as [?|[?|[t' E]]]; [left; lia|by right; left|].
    destruct (decide (t' = t)) as [->|Hne]; [|right; right; exists t'; by rewrite lookup_delete_ne].
    left. rewrite Ep in E. injection E as ->. by apply Hw1.
Qed.

End steps.

Lemma produce_inv s stack l m t ok s' :
  post_inv s stack l m -> cwist_reactor_post_step t ok s = Some s' -> exists stack', post_inv s' stack' l m.
Proof.
  intros H. unfold cwist_reactor_post_step. destruct (producers s !! t) as [p|] eqn:Ep; [|done].
  destruct p as [node|node head|node head|head].
  - intros [= <-]. exists stack. by apply (move_inv s stack l m H t (PLoad node)).
  - intros [= <-]. exists stack. pose proof (write_inv s stack l m H t node head head Ep) as H1.
    set (s1 := s <| next := <[node := head]> (next s) |>) in *.
    apply (move_inv s1 stack l m H1 t (PNext node head) (PCas node head)); [done|done|done|].
    intros n h [= <- <-]. unfold next_of. change (next s1) with (<[node := head]> (next s)).
    by rewrite lookup_insert_eq.
  - assert (Hretry : post_inv (s <| producers := <[t := PNext node (post_head s)]> (producers s) |>) stack l m)
      by by apply (move_inv s stack l m H t (PCas node head)).
    destruct (bool_decide_reflect (post_head s = head)) as [<-|Hhead]; [destruct ok|]; cbn [andb];
      intros [= <-]; [|by exists stack..].
    exists (node :: stack). by apply push_inv.
  - intros [= <-]. exists stack. pose proof (pi_wakes _ _ _ _ H). destruct head as [h|].
    + pose proof (wake_inv s stack l m H t (Some h) (wakes s) Ep) as H1.
      replace (s <| producers := delete t (producers s) |>)
        with (s <| producers := delete t (producers s) |> <| wakes := wakes s |>) by by destruct s.
      apply H1; [lia|done].
    + apply (wake_inv s stack l m H t None); [done|lia|lia].
Qed.

Lemma wake_read_inv s stack l m s' :
  post_inv s stack l m -> reactor_wake_read s = Some s' -> post_inv s' stack l m.
Proof.
  intros [Hst Hl Hnd Hord Hheld Hapart Hown Hlink Hwoken Hwk]. unfold reactor_wake_read.
  destruct (runner s) eqn:Er; try done. destruct (0 <? wakes s); [|done]. intros [= <-].
  constructor; post_fields; try done. intros _. by right; left.
Qed.

Lemma drain_start_inv s stack l m s' :
  post_inv s stack l m -> reactor_drain_start s = Some s' -> l = [] /\ m = [] /\ post_inv s' [] stack [].
Proof.
  intros [Hst Hl Hnd Hord Hheld Hapart Hown Hlink Hwoken Hwk]. unfold reactor_drain_start.
  assert (E : forall s1, s1 = s <| runner := RReverse (post_head s) None |> <| post_head := None |> ->
    l = [] /\ m = [] -> l = [] /\ m = [] /\ post_inv s1 [] stack []).
  { intros s1 -> [-> ->]. rewrite !app_nil_r in *. split; [done|]. split; [done|].
    constructor; post_fields; rewrite ?app_nil_l, ?app_nil_r; try done. }
  destruct (runner s); try done; intros [= <-]; by apply E.
Qed.

(** The steps a drain still takes. *)
Definition drain_left (r : run_thread) (l m : list nat) : nat :=
  match r with
  | RIdle | RWoken => 0%nat
  | RReverse _ _ => (2 * length l + length m + 2)%nat
  | RRun _ => (length m + 1)%nat
  end.

(** A step of a drain changes only the drain. *)
Definition drained (s : post_state) (l m : list nat) (s' : post_state) (l' m' : list nat) : Prop :=
  ran s' ++ rev l' ++ m' = ran s ++ rev l ++ m /\
  (pushed s', post_head s', producers s', wakes s') = (pushed s, post_head s, producers s, wakes s) /\
  runner s' <> RWoken /\ drain_left (runner s) l m = S (drain_left (runner s') l' m').

Lemma drain_step_inv s stack l m s' :
  post_inv s stack l m -> reactor_drain_step s = Some s' ->
  exists l' m', post_inv s' stack l' m' /\ drained s l m s' l' m'.
Proof.
  intros H. pose proof H as [Hst Hl Hnd Hord Hheld Hapart Hown Hlink Hwoken Hwk]. unfold reactor_drain_step.
  destruct (runner s) as [| |[node|] rv|[node|]] eqn:Er; try done; intros [= <-]; cbn in Hl.
  - destruct Hl as [Hl Hm]. destruct l as [|x l]; [done|]. cbn in Hl. destruct Hl as [[= <-] Hl].
    assert (Hp : Permutation (stack ++ (node :: l) ++ m) (stack ++ (l ++ (node :: m)))) by (f_equiv; cbn; by rewrite Permutation_middle).
    assert (Hn : (node ∉ stack) /\ (node ∉ l) /\ (node ∉ m)).
    { rewrite Hp in Hnd. apply list.NoDup_app in Hnd as (_ & Hd & Hlm). apply list.NoDup_app in Hlm as (_ & Hlm & Hm').
      apply list.NoDup_cons in Hm' as [? _]. split; [|split; [|done]].
      - intros Hx. apply (Hd node Hx). rewrite !elem_of_app, elem_of_cons. auto.
      - intros Hx. apply (Hlm node Hx). by left. }
    destruct Hn as (Hn1 & Hn2 & Hn3). exists l, (node :: m). split.
    + constructor; post_fields; try done.
      * by apply chain_insert.
      * split; [by apply chain_insert|by apply chain_cons].
      * by rewrite <- Hp.
      * rewrite Hord. cbn [rev]. by rewrite <- !app_assoc.
      * intros t p n E Hn. rewrite <- Hp. by apply (Hheld t p).
      * intros n. rewrite <- Hp. apply Hown.
      * intros t n h E. unfold next_of. post_fields. rewrite lookup_insert_ne; [by apply (Hlink t)|].
        intros <-. destruct (Hheld t (PCas node h) node E eq_refl) as [_ Hx]. apply Hx. set_solver.
      * intros Hh. destruct (Hwoken Hh) as [?|[?|?]]; [by left|done|by right; right].
    + unfold drained. rewrite Er. post_fields. cbn [rev drain_left length]. rewrite <- !app_assoc.
      split_and!; [done..|lia].
  - destruct Hl as [Hl Hm]. exists l, m. assert (l = []) as -> by (destruct l; [done|by destruct Hl]).
    split; [|unfold drained; rewrite Er; post_fields; cbn [drain_left length]; split_and!; [done..|lia]].
    constructor; post_fields; try done.
    intros Hh. destruct (Hwoken Hh) as [?|[?|?]]; [by left|done|by right; right].
  - destruct Hl as [-> Hm]. destruct m as [|x m]; [done|]. cbn in Hm. destruct Hm as [[= <-] Hm].
    assert (Hn : node ∉ stack ++ m).
    { apply list.NoDup_app in Hnd as (_ & Hd & Hm'). apply list.NoDup_cons in Hm' as [? _].
      rewrite elem_of_app. intros [Hx|Hx]; [|done]. apply (Hd node Hx). by left. }
    exists [], m. split.
    + constructor; post_fields; try done.
      * apply list.NoDup_app in Hnd as (? & Hd & Hm'). apply list.NoDup_cons in Hm' as [_ ?]. apply list.NoDup_app.
        split; [done|]. split; [|done]. intros y Hy Hy'. apply (Hd y Hy). by right.
      * rewrite Hord. cbn. by rewrite <- !app_assoc.
      * intros t p n E Hp. destruct (Hheld t p n E Hp) as [Ho Hni]. cbn in Hni. split; [|set_solver].
        assert (n <> node) by (intros ->; apply Hni; set_solver). set_solver.
      * intros n Hin. cbn in Hin. assert (n <> node) by congruence.
        assert (n ∈ owned s) by (apply Hown; set_solver). set_solver.
      * intros Hh. destruct (Hwoken Hh) as [?|[?|?]]; [by left|done|by right; right].
    + unfold drained. rewrite Er. post_fields. cbn [rev drain_left length]. rewrite <- app_assoc.
      split_and!; [done..|lia].
  - destruct Hl as [-> Hm]. assert (m = []) as -> by (destruct m; [done|by destruct Hm]).
    exists [], []. split; [|unfold drained; rewrite Er; by split_and!]. constructor; post_fields; try done.
    intros Hh. destruct (Hwoken Hh) as [?|[?|?]]; [by left|done|by right; right].
Qed.

Lemma post_step_inv a s stack l m s' :
  post_inv s stack l m -> post_step a s = Some s' -> exists stack' l' m', post_inv s' stack' l' m'.
Proof.
  intros H. destruct a as [t node|t ok| | |]; cbn [post_step]; intros E.
  - exists stack, l, m. by eapply enter_inv.
  - destruct (produce_inv s stack l m t ok s' H E) as [stack' H']. by exists stack', l, m.
  - exists stack, l, m. by eapply wake_read_inv.
  - destruct (drain_start_inv s stack l m s' H E) as (_ & _ & H'). by exists [], stack, [].
  - destruct (drain_step_inv s stack l m s' H E) as (l' & m' & H' & _). by exists stack, l', m'.
Qed.

Lemma post_run_inv acts : forall s s', (exists stack l m, post_inv s stack l m) ->
  post_run acts s = Some s' -> exists stack l m, post_inv s' stack l m.
Proof.
  induction acts as [|a acts IH]; intros s s' Hs; cbn [post_run]; [by intros [= <-]|].
  destruct (post_step a s) as [s1|] eqn:E; [|done]. destruct Hs as (stack & l & m & H). apply IH.
  by eapply post_step_inv.
Qed.

(** ** Draining *)

Lemma drain_step_enabled s : runner s <> RIdle -> runner s <> RWoken -> is_Some (reactor_drain_step s).
Proof. unfold reactor_drain_step. by destruct (runner s) as [| |[node|] rv|[node|]]. Qed.

(** The run thread alone finishes a drain. *)
Lemma drain_finishes k : forall s stack l m,
  post_inv s stack l m -> runner s <> RWoken -> drain_left (runner s) l m = k ->
  exists s', post_run (replicate k ARun) s = Some s' /\ post_inv s' stack [] [] /\
    runner s' = RIdle /\ ran s' = ran s ++ rev l ++ m /\
    (pushed s', post_head s', producers s', wakes s') = (pushed s, post_head s, producers s, wakes s).
Proof.
  induction k as [|k IH]; intros s stack l m H Hw Hk.
  - assert (Er : runner s = RIdle) by (destruct (runner s); cbn in Hk; [done|done|lia|lia]).
    pose proof (pi_lists _ _ _ _ H) as Hl. rewrite Er in Hl. destruct Hl as [-> ->].
    exists s. by rewrite app_nil_r.
  - assert (Hne : runner s <> RIdle) by (intros E; rewrite E in Hk; done).
    destruct (drain_step_enabled s Hne Hw) as [s1 E]. cbn [replicate post_run post_step]. rewrite E.
    destruct (drain_step_inv s stack l m s1 H E) as (l1 & m1 & H1 & Hran & Hrest & Hw1 & Hleft).
    destruct (IH s1 stack l1 m1 H1 Hw1 ltac:(lia)) as (s' & Hrun & H' & Er & Hran' & Hrest').
    exists s'. split; [done|]. split; [done|]. split; [done|]. by rewrite Hran', Hran, Hrest', Hrest.
Qed.

Lemma post_run_app acts1 acts2 s s1 :
  post_run acts1 s = Some s1 -> post_run (acts1 ++ acts2) s = post_run acts2 s1.
Proof.
  revert s. induction acts1 as [|a acts1 IH]; intros s; cbn [post_run app]; [by intros [= ->]|].
  destruct (post_step a s); [apply IH|done].
Qed.

(** A drain, from its start. *)
Lemma drain_all s stack l m :
  post_inv s stack l m -> runner s = RIdle \/ runner s = RWoken ->
  exists k s', post_run (ADrain :: replicate k ARun) s = Some s' /\ post_inv s' [] [] [] /\
    ran s' = pushed s /\ pushed s' = pushed s.
Proof.
  intros H Hr. assert (Hs : exists s1, reactor_drain_start s = Some s1 /\ runner s1 <> RWoken /\
    pushed s1 = pushed s /\ ran s1 = ran s).
  { unfold reactor_drain_start. destruct Hr as [-> | ->]; by eexists. }
  destruct Hs as (s1 & E & Hw & Hp1 & Hr1).
  destruct (drain_start_inv s stack l m s1 H E) as (-> & -> & H1).
  destruct (drain_finishes (drain_left (runner s1) stack []) s1 [] stack [] H1 Hw eq_refl)
    as (s' & Hrun & H' & Er & Hran & Hrest).
  eexists _, s'. cbn [post_run post_step]. rewrite E. split; [exact Hrun|]. split; [done|].
  injection Hrest as Hp _ _ _. rewrite Hran, Hp, Hp1, Hr1. split; [|done].
  pose proof (pi_order _ _ _ _ H) as Ho. cbn in Ho. by rewrite app_nil_r.
Qed.

(** ** The theorems *)

(** C36: whatever the interleaving of posting threads and the run thread, with
    exchanges that fail, nodes used again as soon as their callback has begun,
    and drains at any time: the callbacks run in the order in which the nodes
    were pushed, each push once; and those pushed but not yet run are distinct
    nodes still owned by the reactor, none when the stack is empty and no drain
    is under way. *)
Theorem posts_run_once_in_order acts s :
  post_run acts post_new = Some s ->
  exists pending, pushed s = ran s ++ pending /\ NoDup pending /\
    (forall n, n ∈ pending -> n ∈ owned s) /\
    (post_head s = None -> runner s = RIdle \/ runner s = RWoken -> pending = []).
Proof.
  intros E. destruct (post_run_inv acts post_new s) as (stack & l & m & H); [by exists [], [], []; apply post_new_inv|done|].
  assert (Hp : Permutation (stack ++ l ++ m) (rev l ++ m ++ rev stack)).
  { rewrite <- (Permutation_rev l), <- (Permutation_rev stack). rewrite Permutation_app_comm. by rewrite app_assoc. }
  exists (rev l ++ m ++ rev stack). split; [apply (pi_order _ _ _ _ H)|].
  split; [rewrite <- Hp; apply (pi_nodup _ _ _ _ H)|]. split.
  - intros n. rewrite <- Hp. apply (pi_owned _ _ _ _ H).
  - intros Hh Hr. pose proof (pi_stack _ _ _ _ H) as Hst. pose proof (pi_lists _ _ _ _ H) as Hl.
    rewrite Hh in Hst. assert (stack = []) as -> by (destruct stack; [done|by destruct Hst]).
    destruct Hr as [Er|Er]; rewrite Er in Hl; by destruct Hl as [-> ->].
Qed.

(** no wake-up is lost: while something is on the stack, a wake-up can be
    read, or has been read and the drain is about to start, or a posting thread
    is about to write one.  So whenever no thread is inside a post, the run
    thread alone, draining only when woken, comes to a state where every posted
    callback has run. *)
Theorem no_lost_wakeup acts s :
  post_run acts post_new = Some s ->
  (post_head s <> None ->
    0 < wakes s \/ runner s = RWoken \/ exists t, producers s !! t = Some (PWake None)) /\
  (producers s = ∅ -> exists k k' wake s',
    post_run (replicate k ARun ++ wake ++ replicate k' ARun) s = Some s' /\
    wake ∈ [[]; [ADrain]; [AWake; ADrain]] /\
    (wake = [ADrain] -> runner s = RWoken) /\
    ran s' = pushed s /\ pushed s' = pushed s).
Proof.
  intros E. destruct (post_run_inv acts post_new s) as (stack & l & m & H); [by exists [], [], []; apply post_new_inv|done|].
  split; [apply (pi_woken _ _ _ _ H)|]. intros Hno.
  destruct (decide (runner s = RWoken)) as [Er|Hne].
  { destruct (drain_all s stack l m H) as (k' & s' & Hrun & _ & Hran & Hp); [by right|].
    exists 0%nat, k', [ADrain], s'. split; [exact Hrun|]. split; [by right; left|]. by split_and!. }
  destruct (drain_finishes _ s stack l m H Hne eq_refl) as (s1 & Hrun1 & H1 & Er1 & Hran1 & Hrest1).
  injection Hrest1 as Hp1 Hh1 Hpr1 Hw1. pose proof (pi_order _ _ _ _ H1) as Ho1. cbn in Ho1.
  destruct (post_head s1) as [h|] eqn:Eh.
  2: { pose proof (pi_stack _ _ _ _ H1) as Hst. rewrite Eh in Hst.
       assert (stack = []) as -> by (destruct stack; [done|by destruct Hst]).
       eexists _, 0%nat, [], s1. rewrite app_nil_r. split; [exact Hrun1|]. split; [by left|]. split; [done|].
       cbn in Ho1. rewrite app_nil_r in Ho1. by rewrite <- Ho1. }
  destruct (pi_woken _ _ _ _ H1) as [Hw|[Hw|[t Ht]]]; [by rewrite Eh| |congruence|].
  2: { rewrite Hpr1, Hno in Ht. by rewrite lookup_empty in Ht. }
  assert (Ew : reactor_wake_read s1 = Some (s1 <| wakes := 0 |> <| runner := RWoken |>)).
  { unfold reactor_wake_read. rewrite Er1. by rewrite (proj2 (Z.ltb_lt _ _) Hw). }
  set (s2 := s1 <| wakes := 0 |> <| runner := RWoken |>) in *.
  pose proof (wake_read_inv s1 stack [] [] s2 H1 Ew) as H2.
  destruct (drain_all s2 stack [] [] H2) as (k' & s' & Hrun & _ & Hran & Hp); [by right|].
  eexists _, k', [AWake; ADrain], s'. rewrite (post_run_app _ _ _ _ Hrun1). split.
  { cbn [app post_run post_step]. rewrite Ew. exact Hrun. }
  split; [by right; right; left|]. split; [done|]. by rewrite Hran, Hp, <- Hp1.
Qed.

(** ** Examples *)

(** Two threads push at once: the second exchange fails once.  A drain takes
    both nodes; when node 1 has run it is posted again during the drain. *)
Abbreviation demo_posts := [
  APost 7 1; APost 8 2; AProduce 7 true; AProduce 8 true; AProduce 7 true; AProduce 8 true;
  AProduce 7 true; AProduce 8 true; AProduce 7 true; AProduce 8 true; AProduce 8 true; AWake; ADrain;
  ARun; ARun; ARun; ARun; APost 7 1; AProduce 7 true; ARun; AProduce 7 true; AProduce 7 true; AProduce 8 true;
  AProduce 7 true].
Abbreviation demo_posted := (default post_new (post_run demo_posts post_new)).

Lemma posts_run_once_in_order_witness :
  post_run demo_posts post_new = Some demo_posted /\
  exists pending, pushed demo_posted = ran demo_posted ++ pending /\ NoDup pending /\
    (forall n, n ∈ pending -> n ∈ owned demo_posted) /\
    (post_head demo_posted = None -> runner demo_posted = RIdle \/ runner demo_posted = RWoken -> pending = []).
Proof.
  assert (E : post_run demo_posts post_new = Some demo_posted) by (vm_compute; reflexivity).
  split; [exact E|]. exact (posts_run_once_in_order demo_posts demo_posted E).
Defined.

Lemma no_lost_wakeup_witness :
  post_run demo_posts post_new = Some demo_posted /\
  (post_head demo_posted <> None ->
    0 < wakes demo_posted \/ runner demo_posted = RWoken \/
    exists t, producers demo_posted !! t = Some (PWake None)) /\
  (producers demo_posted = ∅ -> exists k k' wake s',
    post_run (replicate k ARun ++ wake ++ replicate k' ARun) demo_posted = Some s' /\
    wake ∈ [[]; [ADrain]; [AWake; ADrain]] /\
    (wake = [ADrain] -> runner demo_posted = RWoken) /\
    ran s' = pushed demo_posted /\ pushed s' = pushed demo_posted).
Proof.
  assert (E : post_run demo_posts post_new = Some demo_posted) by (vm_compute; reflexivity).
  split; [exact E|]. exact (no_lost_wakeup demo_posts demo_posted E).
Defined.

Example demo_posted_state :
  (pushed demo_posted, ran demo_posted, post_head demo_posted, wakes demo_posted) = ([1; 2; 1]%nat, [1; 2]%nat, Some 1%nat, 1).
Proof. vm_compute. reflexivity. Qed.
