(* ===== verification/Protobuf.v ===== *)
(** * Protobuf wire format (net/grpc/protobuf.c)

    A writer is a growing buffer of which [pb_len] bytes are used; a reader is
    a position in a buffer.  Floating-point fields are their bit patterns. *)

From S2P Require Import Prelude.

(** ** Data *)

Definition CWIST_PB_VARINT : Z := 0.
Definition CWIST_PB_64BIT : Z := 1.
Definition CWIST_PB_LEN : Z := 2.
Definition CWIST_PB_32BIT : Z := 5.
Definition CWIST_PB_MAX_FIELD_NUMBER : Z := 536870911.

(** [cap] is the length of [pb_data]; [pb_mem] the allocations to come. *)
Record cwist_pb_writer := MkWriter { pb_data : bytes; pb_len : nat; pb_mem : oracle }.
#[export] Instance pb_writer_fields : Fields cwist_pb_writer := fun w =>
  MkWriter w.(pb_data) w.(pb_len) w.(pb_mem).

Record cwist_pb_reader := MkReader { pr_data : bytes; pr_pos : nat }.
#[export] Instance pb_reader_fields : Fields cwist_pb_reader := fun r => MkReader r.(pr_data) r.(pr_pos).

(** [fl_bytes] is an offset in the reader's buffer; [None] is NULL. *)
Record cwist_pb_field := MkField {
  fl_number : Z; fl_wire : Z; fl_varint : Z; fl_bytes : option nat; fl_len : nat }.

(** ** Writing *)

Definition cwist_pb_writer_init (o : oracle) : cwist_pb_writer := MkWriter [] 0 o.

Fixpoint pb_grow (fuel : nat) (need cap : Z) : Z :=
  match fuel with
  | O => cap
  | S fuel =>
      if cap <? need then if SIZE_MAX / 2 <? cap then need else pb_grow fuel need (u64 (cap * 2)) else cap
  end.

Definition cwist_pb_writer_reserve (w : cwist_pb_writer) (extra : Z) : bool * cwist_pb_writer :=
  let len := Z.of_nat w.(pb_len) in
  let cap := Z.of_nat (length w.(pb_data)) in
  if SIZE_MAX - len <? extra then (false, w)
  else
    let need := u64 (len + extra) in
    if need <=? cap then (true, w)
    else
      let new_cap := pb_grow 64 need (if negb (cap =? 0) then cap else 64) in
      let (ok, o) := alloc w.(pb_mem) in
      let w := w <| pb_mem := o |> in
      if ok then (true, w <| pb_data := w.(pb_data) ++ replicate (Z.to_nat (new_cap - cap)) 0 |>)
      else (false, w).

(** [w->data[w->len++] = (uint8_t)v] *)
Definition pb_put (w : cwist_pb_writer) (v : Z) : cwist_pb_writer :=
  w <| pb_data := put w.(pb_data) w.(pb_len) (u8 v) |> <| pb_len := S w.(pb_len) |>.

Fixpoint varint_loop (fuel : nat) (value : Z) (w : cwist_pb_writer) : cwist_pb_writer :=
  match fuel with
  | O => pb_put w value
  | S fuel =>
      if 128 <=? value then varint_loop fuel (Z.shiftr value 7) (pb_put w (Z.lor value 128))
      else pb_put w value
  end.
Definition cwist_pb_write_varint (w : cwist_pb_writer) (value : Z) : bool * cwist_pb_writer :=
  let (ok, w) := cwist_pb_writer_reserve w 10 in
  if negb ok then (false, w) else (true, varint_loop 9 value w).

Definition cwist_pb_write_key (w : cwist_pb_writer) (field_number wire_type : Z) : bool * cwist_pb_writer :=
  if (field_number =? 0) || (CWIST_PB_MAX_FIELD_NUMBER <? field_number) then (false, w)
  else if negb (wire_type =? CWIST_PB_VARINT) && negb (wire_type =? CWIST_PB_64BIT) &&
          negb (wire_type =? CWIST_PB_LEN) && negb (wire_type =? CWIST_PB_32BIT) then (false, w)
  else cwist_pb_write_varint w (Z.lor (Z.shiftl field_number 3) wire_type).

Definition cwist_pb_write_uint64_field (w : cwist_pb_writer) (field_number value : Z)
  : bool * cwist_pb_writer :=
  let (ok, w) := cwist_pb_write_key w field_number CWIST_PB_VARINT in
  if negb ok then (false, w) else cwist_pb_write_varint w value.
Definition cwist_pb_write_int64_field (w : cwist_pb_writer) (field_number value : Z)
  : bool * cwist_pb_writer :=
  cwist_pb_write_uint64_field w field_number (u64 value).
Definition cwist_pb_write_bool_field (w : cwist_pb_writer) (field_number value : Z)
  : bool * cwist_pb_writer :=
  cwist_pb_write_uint64_field w field_number (if negb (value =? 0) then 1 else 0).

Definition cwist_pb_write_raw32 (w : cwist_pb_writer) (value : Z) : bool * cwist_pb_writer :=
  let (ok, w) := cwist_pb_writer_reserve w 4 in
  if negb ok then (false, w)
  else
    let w := pb_put w value in
    let w := pb_put w (Z.shiftr value 8) in
    let w := pb_put w (Z.shiftr value 16) in
    (true, pb_put w (Z.shiftr value 24)).
Definition cwist_pb_write_raw64 (w : cwist_pb_writer) (value : Z) : bool * cwist_pb_writer :=
  let (ok, w) := cwist_pb_writer_reserve w 8 in
  if negb ok then (false, w)
  else (true, fold_left (fun w i => pb_put w (Z.shiftr value (Z.of_nat i * 8))) (seq 0 8) w).

Definition cwist_pb_write_fixed32_field (w : cwist_pb_writer) (field_number value : Z)
  : bool * cwist_pb_writer :=
  let (ok, w) := cwist_pb_write_key w field_number CWIST_PB_32BIT in
  if negb ok then (false, w) else cwist_pb_write_raw32 w value.
Definition cwist_pb_write_fixed64_field (w : cwist_pb_writer) (field_number value : Z)
  : bool * cwist_pb_writer :=
  let (ok, w) := cwist_pb_write_key w field_number CWIST_PB_64BIT in
  if negb ok then (false, w) else cwist_pb_write_raw64 w value.

Definition cwist_pb_write_bytes_field (w : cwist_pb_writer) (field_number : Z) (data : option bytes) (len : Z)
  : bool * cwist_pb_writer :=
  if (0 <? len) && bool_decide (data = None) then (false, w)
  else
    let (ok, w) := cwist_pb_write_key w field_number CWIST_PB_LEN in
    if negb ok then (false, w)
    else
      let (ok, w) := cwist_pb_write_varint w len in
      if negb ok then (false, w)
      else
        let (ok, w) := cwist_pb_writer_reserve w len in
        if negb ok then (false, w)
        else
          (true, w <| pb_data := blit w.(pb_data) w.(pb_len) (take (Z.to_nat len) (default [] data)) |>
                   <| pb_len := (w.(pb_len) + Z.to_nat len)%nat |>).
Definition cwist_pb_write_string_field (w : cwist_pb_writer) (field_number : Z) (value : option bytes)
  : bool * cwist_pb_writer :=
  match value with
  | None => (false, w)
  | Some v => cwist_pb_write_bytes_field w field_number (Some v) (blen (cstr v))
  end.

Definition cwist_pb_writer_free (w : cwist_pb_writer) : cwist_pb_writer :=
  w <| pb_data := [] |> <| pb_len := 0%nat |>.

(** ** Reading *)

Definition cwist_pb_reader_init (data : bytes) : cwist_pb_reader := MkReader data 0.

Fixpoint read_varint_loop (fuel : nat) (value shift : Z) (r : cwist_pb_reader)
  : option Z * cwist_pb_reader :=
  match fuel with
  | O => (None, r)
  | S fuel =>
      if (r.(pr_pos) <? length r.(pr_data))%nat && (shift <=? 63) then
        let byte := rd r.(pr_data) r.(pr_pos) in
        let r := r <| pr_pos := S r.(pr_pos) |> in
        if (shift =? 63) && (1 <? Z.land byte 127) then (None, r)
        else
          let value := Z.lor value (u64 (Z.shiftl (Z.land byte 127) shift)) in
          if Z.land byte 128 =? 0 then (Some value, r)
          else read_varint_loop fuel value (shift + 7) r
      else (None, r)
  end.
(** Eleven rounds: the shift passes 63 after ten. *)
Definition cwist_pb_read_varint (r : cwist_pb_reader) : option Z * cwist_pb_reader :=
  read_varint_loop 11 0 0 r.

(** A field, the end of the input, or malformed. *)
Inductive pb_read := PbField (f : cwist_pb_field) | PbEnd | PbError.

Definition take_bytes (number wire len : Z) (r : cwist_pb_reader) : pb_read * cwist_pb_reader :=
  if Z.of_nat (length r.(pr_data) - r.(pr_pos)) <? len then (PbError, r)
  else (PbField (MkField number wire 0 (Some r.(pr_pos)) (Z.to_nat len)),
        r <| pr_pos := (r.(pr_pos) + Z.to_nat len)%nat |>).

Definition cwist_pb_read_field (r : cwist_pb_reader) : pb_read * cwist_pb_reader :=
  if (length r.(pr_data) <=? r.(pr_pos))%nat then (PbEnd, r)
  else
    match cwist_pb_read_varint r with
    | (None, r) => (PbError, r)
    | (Some key, r) =>
        let number := Z.shiftr key 3 in
        if (number =? 0) || (CWIST_PB_MAX_FIELD_NUMBER <? number) then (PbError, r)
        else
          let number := u32 number in
          let wire := Z.land key 7 in
          if wire =? CWIST_PB_VARINT then
            match cwist_pb_read_varint r with
            | (None, r) => (PbError, r)
            | (Some v, r) => (PbField (MkField number wire v None 0), r)
            end
          else if wire =? CWIST_PB_LEN then
            match cwist_pb_read_varint r with
            | (None, r) => (PbError, r)
            | (Some len, r) => take_bytes number wire len r
            end
          else if wire =? CWIST_PB_32BIT then take_bytes number wire 4 r
          else if wire =? CWIST_PB_64BIT then take_bytes number wire 8 r
          else (PbError, r)
    end.

Definition cwist_pb_skip_field (r : cwist_pb_reader) (f : option cwist_pb_field) : bool :=
  match f with Some _ => true | None => false end.

Definition cwist_pb_load32_le (data : bytes) (off : nat) : Z :=
  Z.lor (Z.lor (Z.lor (rd data off) (Z.shiftl (rd data (off + 1)) 8)) (Z.shiftl (rd data (off + 2)) 16))
    (Z.shiftl (rd data (off + 3)) 24).
Definition cwist_pb_load64_le (data : bytes) (off : nat) : Z :=
  Z.lor (cwist_pb_load32_le data off) (Z.shiftl (cwist_pb_load32_le data (off + 4)) 32).

(** ** ZigZag *)

Definition cwist_pb_zigzag_encode (value : Z) : Z :=
  Z.lxor (u64 (Z.shiftl (u64 value) 1)) (u64 (0 - Z.shiftr (u64 value) 63)).
Definition cwist_pb_zigzag_decode (value : Z) : Z :=
  s64 (Z.lxor (Z.shiftr value 1) (u64 (- Z.land (s64 value) 1))).

(** ** Whole messages *)

Inductive pb_call :=
  | WUint64 (n v : Z) | WInt64 (n v : Z) | WBool (n v : Z) | WFixed32 (n v : Z) | WFixed64 (n v : Z)
  | WBytes (n : Z) (data : option bytes) (len : Z) | WString (n : Z) (value : option bytes).

Definition run_pb_call (c : pb_call) (w : cwist_pb_writer) : bool * cwist_pb_writer :=
  match c with
  | WUint64 n v => cwist_pb_write_uint64_field w n v
  | WInt64 n v => cwist_pb_write_int64_field w n v
  | WBool n v => cwist_pb_write_bool_field w n v
  | WFixed32 n v => cwist_pb_write_fixed32_field w n v
  | WFixed64 n v => cwist_pb_write_fixed64_field w n v
  | WBytes n data len => cwist_pb_write_bytes_field w n data len
  | WString n value => cwist_pb_write_string_field w n value
  end.
(** A caller that stops at the first failure. *)
Fixpoint write_fields (cs : list pb_call) (w : cwist_pb_writer) : bool * cwist_pb_writer :=
  match cs with
  | [] => (true, w)
  | c :: cs => let (ok, w) := run_pb_call c w in if ok then write_fields cs w else (false, w)
  end.
(** And one that reads to the end. *)
Fixpoint read_fields (fuel : nat) (r : cwist_pb_reader) : option (list cwist_pb_field) :=
  match fuel with
  | O => None
  | S fuel =>
      match cwist_pb_read_field r with
      | (PbEnd, _) => Some []
      | (PbError, _) => None
      | (PbField f, r) => fs ← read_fields fuel r; Some (f :: fs)
      end
  end.

(** Bit patterns of floating-point values. *)
Definition cwist_pb_write_float_field (w : cwist_pb_writer) (field_number bits : Z) : bool * cwist_pb_writer :=
  cwist_pb_write_fixed32_field w field_number bits.
Definition cwist_pb_write_double_field (w : cwist_pb_writer) (field_number bits : Z) : bool * cwist_pb_writer :=
  cwist_pb_write_fixed64_field w field_number bits.
