(* ===== verification/ProtobufSpec.v ===== *)
(** * What the Protobuf writer and reader do

    The bytes a writer holds are the concatenated encodings of its fields; the
    reader gets the fields back, accepts exactly the varints of the format, and
    stays inside its buffer on any input. *)

From S2P Require Import Prelude.
From S2P Require Import Protobuf.

(** ** Varints *)

(** The reference encoding, least significant group first. *)
Fixpoint varint_groups (fuel : nat) (v : Z) : bytes :=
  match fuel with
  | O => [v]
  | S fuel => if 128 <=? v then (v mod 128 + 128) :: varint_groups fuel (v / 128) else [v]
  end.
Definition varint (v : Z) : bytes := varint_groups 9 v.

Lemma group_byte v : 0 <= v -> u8 (Z.lor v 128) = v mod 128 + 128.
Proof.
  intros Hv. unfold u8. change 256 with (2 ^ 8). rewrite <- Z.land_ones by lia.
  rewrite Z.land_lor_distr_l. rewrite Z.land_ones by lia. change (Z.land 128 (Z.ones 8)) with 128.
  change (2 ^ 8) with 256.
  assert (H : forallb (fun n => let b := Z.of_nat n in Z.lor b 128 =? b mod 128 + 128) (seq 0 256) = true)
    by reflexivity.
  apply forallb_forall with (x := Z.to_nat (v mod 256)) in H; [|apply in_seq; zlia].
  cbv zeta in H. rewrite Z2Nat.id in H by zlia. assert (E : v mod 256 mod 128 = v mod 128) by zlia. lia.
Qed.

(** A varint: a continuation bit on every byte but the last, at most ten bytes,
    a value of 64 bits. *)
Fixpoint continued (b : bytes) : bool :=
  match b with
  | [] => false
  | [x] => x <? 128
  | x :: b => (128 <=? x) && continued b
  end.
Fixpoint varint_value (b : bytes) : Z :=
  match b with [] => 0 | x :: b => x mod 128 + 128 * varint_value b end.
Definition is_varint (b : bytes) : Prop :=
  continued b = true /\ (length b <= 10)%nat /\ varint_value b < 2 ^ 64.

Lemma varint_value_nonneg b : 0 <= varint_value b.
Proof. induction b as [|x b IH]; cbn; [lia|]. zlia. Qed.

Lemma varint_groups_ok fuel : forall v, 0 <= v < 128 ^ Z.of_nat (S fuel) ->
  let b := varint_groups fuel v in
  continued b = true /\ (length b <= S fuel)%nat /\ varint_value b = v /\ bytes_ok b /\ (1 <= length b)%nat.
Proof.
  induction fuel as [|fuel IH]; intros v Hv; cbn [varint_groups].
  { change (128 ^ Z.of_nat 1) with 128 in Hv. cbn. split; [lia|]. split; [lia|]. split; [rewrite Z.mod_small; lia|].
    split; [|lia]. repeat constructor; lia. }
  destruct (Z.leb_spec 128 v) as [H|H].
  - destruct (IH (v / 128)) as (Hc & Hl & Hval & Hok & H1).
    { rewrite Nat2Z.inj_succ, Z.pow_succ_r in Hv by lia. split; [zlia|]. apply Z.div_lt_upper_bound; lia. }
    set (b := varint_groups fuel (v / 128)) in *. cbn [varint_value length]. split; [|split; [lia|split; [|split; [|lia]]]].
    + destruct b as [|x b]; [cbn in H1; lia|]. cbn [continued] in *. rewrite Hc.
      destruct (Z.leb_spec 128 (v mod 128 + 128)); [done|zlia].
    + rewrite Hval. zlia.
    + constructor; [unfold is_u8; zlia|done].
  - cbn. split; [lia|]. split; [lia|]. split; [rewrite Z.mod_small; lia|]. split; [|lia]. repeat constructor; lia.
Qed.

Lemma varint_ok v : 0 <= v < 2 ^ 64 -> is_varint (varint v) /\ varint_value (varint v) = v /\
  bytes_ok (varint v) /\ (1 <= length (varint v) <= 10)%nat.
Proof.
  intros Hv. destruct (varint_groups_ok 9 v) as (Hc & Hl & Hval & Hok & H1).
  { change (128 ^ Z.of_nat 10) with 1180591620717411303424. change (2 ^ 64) with 18446744073709551616 in Hv. lia. }
  unfold is_varint, varint. rewrite Hval. split; [split; [done|split; [lia|lia]]|]. by split_and!.
Qed.

(** ** Reading a varint *)

Lemma read_group value shift x :
  0 <= shift -> shift mod 7 = 0 -> shift <= 63 -> 0 <= value < 2 ^ shift -> is_u8 x ->
  (shift = 63 -> x mod 128 <= 1) ->
  Z.lor value (u64 (Z.shiftl (Z.land x 127) shift)) = value + 2 ^ shift * (x mod 128).
Proof.
  intros Hs H7 Hmax Hv Hx H63. rewrite (land_mask x 7 127) by done. change (2 ^ 7) with 128.
  assert (Hg : 0 <= x mod 128 < 128) by zlia.
  assert (Hp : 0 < 2 ^ shift) by lia.
  rewrite Z.shiftl_mul_pow2 by lia.
  assert (Hfit : x mod 128 * 2 ^ shift < 2 ^ 64).
  { destruct (Z.eq_dec shift 63) as [->|Hne].
    - specialize (H63 eq_refl). change (2 ^ 63) with 9223372036854775808. change (2 ^ 64) with 18446744073709551616. lia.
    - assert (shift <= 56) by zlia. assert (2 ^ shift <= 2 ^ 56) by (apply Z.pow_le_mono_r; lia).
      change (2 ^ 56) with 72057594037927936 in *. change (2 ^ 64) with 18446744073709551616. nia. }
  change (2 ^ 64) with 18446744073709551616 in Hfit. rewrite u64_id by (unfold is_u64; nia).
  rewrite Z.lor_comm, (lor_add_above _ _ shift) by (first [lia|by apply Z.mod_mul; lia]). lia.
Qed.

Lemma continuation_bit x : is_u8 x -> (Z.land x 128 =? 0) = (x <? 128).
Proof.
  unfold is_u8. intros Hx.
  assert (H : forallb (fun n => let b := Z.of_nat n in Bool.eqb (Z.land b 128 =? 0) (b <? 128)) (seq 0 256) = true)
    by reflexivity.
  apply forallb_forall with (x := Z.to_nat x) in H; [|apply in_seq; lia].
  cbv zeta in H. rewrite Z2Nat.id in H by lia. by apply Bool.eqb_prop in H.
Qed.

(** What the loop has still to read, [k] groups in. *)
Definition rest_varint (k : nat) (value : Z) (b : bytes) : Prop :=
  continued b = true /\ (k + length b <= 10)%nat /\ value + 128 ^ Z.of_nat k * varint_value b < 2 ^ 64.

Lemma read_varint_loop_spec fuel : forall k value r,
  (fuel + k = 11)%nat -> 0 <= value < 128 ^ Z.of_nat k -> bytes_ok (pr_data r) ->
  match read_varint_loop fuel value (7 * Z.of_nat k) r with
  | (Some v, r') => exists b, rest_varint k value b /\ drop (pr_pos r) (pr_data r) = b ++ drop (pr_pos r') (pr_data r) /\
      v = value + 128 ^ Z.of_nat k * varint_value b /\ r' = r <| pr_pos := (pr_pos r + length b)%nat |>
  | (None, _) => forall b rest, drop (pr_pos r) (pr_data r) = b ++ rest -> ~ rest_varint k value b
  end.
Proof.
  induction fuel as [|fuel IH]; intros k value r Hk Hv Hok; cbn [read_varint_loop].
  { intros b rest _ (Hc & Hl & _). destruct b; [done|]. cbn in Hl. lia. }
  assert (Epow : 2 ^ (7 * Z.of_nat k) = 128 ^ Z.of_nat k).
  { rewrite Z.pow_mul_r by lia. done. }
  destruct (Nat.ltb_spec (pr_pos r) (length (pr_data r))) as [Hin|Hend]; cbn [andb].
  2: { intros b rest E (Hc & _). rewrite drop_ge in E by lia. by destruct b. }
  destruct (Z.leb_spec (7 * Z.of_nat k) 63) as [Hs|Hs].
  2: { intros b rest _ (Hc & Hl & _). destruct b; [done|]. cbn in Hl. lia. }
  destruct (lookup_lt_is_Some_2 (pr_data r) (pr_pos r)) as [x Ex]; [lia|].
  rewrite (rd_lookup _ _ _ Ex). pose proof (drop_S _ _ _ Ex) as Ed.
  assert (Hx : is_u8 x) by (unfold bytes_ok in Hok; by eapply Forall_lookup_1).
  set (r1 := r <| pr_pos := S (pr_pos r) |>). cbv zeta.
  assert (Hm : 0 <= x mod 128 < 128) by zlia. assert (Hp : 0 < 128 ^ Z.of_nat k) by lia.
  destruct ((7 * Z.of_nat k =? 63) && (1 <? Z.land x 127)) eqn:Ebig.
  { apply andb_true_iff in Ebig as [E9 Eb]. rewrite (land_mask x 7 127) in Eb by done.
    change (2 ^ 7) with 128 in Eb. assert (k = 9%nat) as -> by lia.
    intros b rest E (Hc & Hl & Hval). rewrite Ed in E. destruct b as [|y b]; [done|].
    injection E as <- _. cbn [varint_value] in Hval. pose proof (varint_value_nonneg b).
    change (128 ^ Z.of_nat 9) with 9223372036854775808 in Hval. change (2 ^ 64) with 18446744073709551616 in Hval. lia. }
  rewrite read_group; [|lia|zlia|lia|by rewrite Epow|done|].
  2: { intros E63. apply andb_false_iff in Ebig as [E|E]; [lia|]. rewrite (land_mask x 7 127) in E by done.
       change (2 ^ 7) with 128 in E. lia. }
  rewrite Epow. set (value1 := value + 128 ^ Z.of_nat k * (x mod 128)).
  assert (Hv1 : 0 <= value1 < 128 ^ Z.of_nat (S k)).
  { unfold value1. rewrite Nat2Z.inj_succ, Z.pow_succ_r by lia. nia. }
  rewrite (continuation_bit x Hx).
  destruct (Z.ltb_spec x 128) as [Hlast|Hcont].
  - exists [x]. cbn [varint_value length]. split; [|split; [|split]].
    + split; [cbn; lia|]. split; [cbn; lia|]. cbn [varint_value].
      replace (x mod 128 + 128 * 0) with (x mod 128) by lia. fold value1.
      destruct (Nat.eq_dec k 9%nat) as [->|].
      * unfold value1. apply andb_false_iff in Ebig as [E|E]; [done|]. rewrite (land_mask x 7 127) in E by done.
        change (2 ^ 7) with 128 in E. change (128 ^ Z.of_nat 9) with 9223372036854775808 in *.
        change (2 ^ 64) with 18446744073709551616. lia.
      * assert (128 ^ Z.of_nat (S k) <= 128 ^ 9) by (apply Z.pow_le_mono_r; lia).
        change (128 ^ 9) with 9223372036854775808 in *. change (2 ^ 64) with 18446744073709551616. lia.
    + rewrite Ed. cbn. f_equal.
    + unfold value1. lia.
    + unfold r1. f_equal. lia.
  - replace (7 * Z.of_nat k + 7) with (7 * Z.of_nat (S k)) by lia.
    specialize (IH (S k) value1 r1 ltac:(lia) Hv1 Hok).
    assert (Hpow : forall b, value + 128 ^ Z.of_nat k * varint_value (x :: b) = value1 + 128 ^ Z.of_nat (S k) * varint_value b).
    { intros b. cbn [varint_value]. unfold value1. rewrite Nat2Z.inj_succ, Z.pow_succ_r by lia. lia. }
    destruct (read_varint_loop fuel value1 _ r1) as [[v|] r'].
    + destruct IH as (b & (Hc & Hl & Hfit) & Eb & -> & ->). exists (x :: b).
      split; [|split; [|split]].
      * split; [|split; [cbn; lia|by rewrite Hpow]]. destruct b as [|y b]; [done|]. cbn [continued] in *.
        rewrite Hc. by rewrite (proj2 (Z.leb_le _ _)) by lia.
      * rewrite Ed. cbn [app]. f_equal. exact Eb.
      * by rewrite Hpow.
      * assert (En : (pr_pos r + length (x :: b) = S (pr_pos r) + length b)%nat) by (cbn [length]; lia).
        by rewrite En.
    + intros b rest E (Hc & Hl & Hfit). rewrite Ed in E. destruct b as [|y b]; [done|].
      injection E as <- E. destruct b as [|z b]; [cbn in Hc; lia|].
      apply (IH (z :: b) rest E). split; [|split; [cbn in *; lia|by rewrite <- Hpow]].
      cbn [continued] in Hc. by apply andb_true_iff in Hc as [_ Hc].
Qed.

Lemma continued_prefix a : forall b c d, continued a = true -> continued b = true -> a ++ c = b ++ d -> a = b.
Proof.
  induction a as [|x a IH]; intros b c d Ha Hb E; [done|].
  destruct b as [|y b]; [done|]. injection E as <- E. destruct a as [|x' a], b as [|y' b].
  - done.
  - cbn [continued] in Ha, Hb. apply andb_true_iff in Hb as [Hb _]. lia.
  - cbn [continued] in Ha, Hb. apply andb_true_iff in Ha as [Ha _]. lia.
  - cbn [continued] in Ha, Hb. apply andb_true_iff in Ha as [_ Ha]. apply andb_true_iff in Hb as [_ Hb].
    f_equal. by apply (IH _ c d).
Qed.

Definition at_pos (r : cwist_pb_reader) : bytes := drop (pr_pos r) (pr_data r).

(** A varint is read if and only if one is there. *)
Lemma read_varint_iff r v r' :
  bytes_ok (pr_data r) ->
  cwist_pb_read_varint r = (Some v, r') <->
  exists b, is_varint b /\ at_pos r = b ++ at_pos r' /\ v = varint_value b /\
    r' = r <| pr_pos := (pr_pos r + length b)%nat |>.
Proof.
  intros Hok. pose proof (read_varint_loop_spec 11 0 0 r eq_refl ltac:(cbn; lia) Hok) as H.
  change (7 * Z.of_nat 0) with 0 in H. unfold cwist_pb_read_varint.
  assert (Hrest : forall b, rest_varint 0 0 b <-> is_varint b).
  { intros b. unfold rest_varint, is_varint. change (128 ^ Z.of_nat 0) with 1. rewrite Z.mul_1_l. done. }
  split.
  - intros E. rewrite E in H. destruct H as (b & Hb & Eb & -> & Er). exists b.
    rewrite <- Hrest. split; [done|]. split; [rewrite Er in Eb |- *; exact Eb|]. change (128 ^ Z.of_nat 0) with 1. split; [lia|done].
  - intros (b & Hb & Eb & -> & ->). destruct (read_varint_loop 11 0 0 r) as [[v|] r1].
    + destruct H as (b' & [Hc _] & Eb' & -> & ->).
      assert (b' = b) as ->.
      { eapply continued_prefix; [exact Hc|apply Hb|]. etransitivity; [symmetry; exact Eb'|exact Eb]. }
      change (128 ^ Z.of_nat 0) with 1. f_equal. f_equal. lia.
    + exfalso. by apply (H b (at_pos (r <| pr_pos := (pr_pos r + length b)%nat |>)) Eb), Hrest.
Qed.

(** ** Writing *)

(** What has been written; the buffer is long enough. *)
Definition pb_bytes (w : cwist_pb_writer) : bytes := take (pb_len w) (pb_data w).
Definition writer_ok (w : cwist_pb_writer) : Prop := (pb_len w <= length (pb_data w))%nat.
Definition room (n : nat) (w : cwist_pb_writer) : Prop := (pb_len w + n <= length (pb_data w))%nat.

Lemma length_pb_bytes w : writer_ok w -> length (pb_bytes w) = pb_len w.
Proof. unfold writer_ok, pb_bytes. intros H. rewrite length_take. lia. Qed.

Lemma pb_put_spec n w v :
  room (S n) w -> room n (pb_put w v) /\ pb_bytes (pb_put w v) = pb_bytes w ++ [u8 v] /\
  pb_mem (pb_put w v) = pb_mem w.
Proof.
  unfold room. intros H. unfold pb_put, pb_bytes. cbn [pb_len pb_data pb_mem set_field]. split; [|split; [|done]].
  - rewrite length_put. lia.
  - rewrite (take_S_r _ _ (u8 v)); [|unfold put; apply list_lookup_insert_eq; lia].
    unfold put. by rewrite take_insert_ge by lia.
Qed.

(** A step that appends [b], or fails with no more room. *)
Definition appends (b : bytes) (w : cwist_pb_writer) (res : bool * cwist_pb_writer) : Prop :=
  let (ok, w') := res in
  writer_ok w' /\ (exists more, pb_bytes w' = pb_bytes w ++ more) /\
  (ok = true -> pb_bytes w' = pb_bytes w ++ b) /\
  (pb_mem w = [] -> pb_mem w' = [] /\ (blen (pb_bytes w) + blen b + 10 <= SIZE_MAX -> ok = true)).

Lemma pb_grow_spec fuel : forall need cap,
  0 < cap -> need <= SIZE_MAX -> cap <= SIZE_MAX -> need <= cap * 2 ^ Z.of_nat fuel ->
  need <= pb_grow fuel need cap <= SIZE_MAX /\ cap <= pb_grow fuel need cap.
Proof.
  assert (HS : SIZE_MAX = 18446744073709551615) by done.
  induction fuel as [|fuel IH]; intros need cap Hc Hn Hs Hf; cbn [pb_grow].
  { change (2 ^ Z.of_nat 0) with 1 in Hf. lia. }
  destruct (Z.ltb_spec cap need) as [Hlt|]; [|lia].
  destruct (Z.ltb_spec (SIZE_MAX / 2) cap) as [Hbig|Hbig]; [lia|].
  rewrite u64_id by (unfold is_u64; zlia).
  destruct (IH need (cap * 2)) as [H1 H2]; [lia|done|zlia| |lia].
  rewrite Nat2Z.inj_succ, Z.pow_succ_r in Hf by lia. lia.
Qed.

Lemma reserve_spec w extra :
  writer_ok w -> 0 <= extra <= SIZE_MAX ->
  let (ok, w') := cwist_pb_writer_reserve w extra in
  writer_ok w' /\ pb_bytes w' = pb_bytes w /\ (ok = true -> room (Z.to_nat extra) w') /\
  (pb_mem w = [] -> pb_mem w' = [] /\ (blen (pb_bytes w) + extra <= SIZE_MAX -> ok = true)).
Proof.
  intros Hok He. assert (HS : SIZE_MAX = 18446744073709551615) by done.
  assert (Hb : blen (pb_bytes w) = Z.of_nat (pb_len w)) by (unfold blen; by rewrite length_pb_bytes).
  unfold cwist_pb_writer_reserve, writer_ok in *. rewrite Hb. cbv zeta.
  destruct (Z.ltb_spec (SIZE_MAX - Z.of_nat (pb_len w)) extra) as [Hbig|Hfit].
  { split; [done|]. split; [done|]. split; [done|]. intros Hm. split; [done|lia]. }
  rewrite u64_id by (unfold is_u64; lia).
  destruct (Z.leb_spec (Z.of_nat (pb_len w) + extra) (Z.of_nat (length (pb_data w)))) as [Hroom|Hgrow].
  { split; [done|]. split; [done|]. split; [unfold room; lia|by intros Hm]. }
  destruct (alloc (pb_mem w)) as [ok o] eqn:Ea.
  assert (Hm : pb_mem w = [] -> ok = true /\ o = []).
  { intros E. rewrite E in Ea. by injection Ea as <- <-. }
  destruct ok.
  2: { split; [done|]. split; [done|]. split; [done|]. intros E. by destruct (Hm E). }
  set (cap := if negb _ then _ else 64). set (new_cap := pb_grow 64 _ cap).
  set (w1 := w <| pb_mem := o |>).
  change (pb_data w1) with (pb_data w).
  destruct (pb_grow_spec 64 (Z.of_nat (pb_len w) + extra) cap) as [Hg _].
  { unfold cap. destruct (Z.eqb_spec (Z.of_nat (length (pb_data w))) 0); cbn [negb]; lia. }
  { lia. }
  { unfold cap. destruct (Z.eqb_spec (Z.of_nat (length (pb_data w))) 0); cbn [negb]; lia. }
  { change (2 ^ Z.of_nat 64) with 18446744073709551616. unfold cap.
    destruct (Z.eqb_spec (Z.of_nat (length (pb_data w))) 0); cbn [negb]; lia. }
  fold new_cap in Hg. set (pad := replicate _ 0).
  split; [|split; [|split]].
  - cbn [pb_len pb_data set_field]. rewrite length_app. cbn. lia.
  - unfold pb_bytes. cbn [pb_len pb_data set_field]. by rewrite take_app_le by (cbn; lia).
  - intros _. unfold room. cbn [pb_len pb_data set_field]. unfold pad.
    rewrite length_app, length_replicate. change (pb_len w1) with (pb_len w). clearbody new_cap. lia.
  - intros E. destruct (Hm E) as [_ ->]. done.
Qed.

Lemma varint_loop_spec fuel : forall v w, 0 <= v < 128 ^ Z.of_nat (S fuel) -> room (S fuel) w ->
  let w' := varint_loop fuel v w in
  writer_ok w' /\ pb_bytes w' = pb_bytes w ++ varint_groups fuel v /\ pb_mem w' = pb_mem w.
Proof.
  induction fuel as [|fuel IH]; intros v w Hv Hr; cbn [varint_loop varint_groups].
  - change (128 ^ Z.of_nat 1) with 128 in Hv. destruct (pb_put_spec 0 w v Hr) as (Hr' & E & Em).
    rewrite u8_id in E by (unfold is_u8; lia). split; [unfold room, writer_ok in *; lia|done].
  - destruct (Z.leb_spec 128 v) as [H|H].
    + destruct (pb_put_spec (S fuel) w (Z.lor v 128) Hr) as (Hr' & E & Em).
      rewrite (shiftr_div v 7 128) by done.
      destruct (IH (v / 128) (pb_put w (Z.lor v 128))) as (Hok & Eb & Em'); [|done|].
      { rewrite Nat2Z.inj_succ, Z.pow_succ_r in Hv by lia. split; [zlia|]. apply Z.div_lt_upper_bound; lia. }
      split; [done|]. split; [|congruence]. rewrite Eb, E, <- app_assoc. cbn [app]. do 2 f_equal.
      rewrite group_byte by lia. done.
    + destruct (pb_put_spec (S fuel) w v Hr) as (Hr' & E & Em).
      rewrite u8_id in E by (unfold is_u8; lia). split; [unfold room, writer_ok in *; lia|done].
Qed.

Lemma write_varint_appends v w :
  writer_ok w -> 0 <= v < 2 ^ 64 -> appends (varint v) w (cwist_pb_write_varint w v).
Proof.
  intros Hok Hv. unfold cwist_pb_write_varint.
  pose proof (reserve_spec w 10 Hok ltac:(done)) as H. destruct (cwist_pb_writer_reserve w 10) as [ok w1].
  destruct H as (Hok1 & Eb & Hroom & Hm). destruct ok; cbn [negb].
  - destruct (varint_loop_spec 9 v w1) as (Hok' & E & Em); [|by apply Hroom|].
    { change (128 ^ Z.of_nat 10) with 1180591620717411303424. change (2 ^ 64) with 18446744073709551616 in Hv. lia. }
    split; [done|]. rewrite E, Eb. split; [by eexists|]. split; [done|]. intros Hm0. split; [|done].
    rewrite Em. by apply Hm.
  - split; [done|]. split; [exists []; by rewrite Eb, app_nil_r|]. split; [done|].
    intros Hm0. destruct (Hm Hm0) as [Hm1 Hs]. split; [done|]. intros Hfit. apply Hs.
    pose proof (blen_nonneg (varint v)). lia.
Qed.

(** One step after another. *)
Lemma appends_seq b1 b2 w r f :
  appends b1 w r -> (forall w1, writer_ok w1 -> appends b2 w1 (f w1)) ->
  appends (b1 ++ b2) w (let (ok, w1) := r in if negb ok then (false, w1) else f w1).
Proof.
  destruct r as [ok w1]. intros (Hok1 & [m1 E1] & Hb1 & Hm1) Hf.
  pose proof (blen_nonneg b1). pose proof (blen_nonneg b2). destruct ok; cbn [negb].
  - specialize (Hf w1 Hok1). specialize (Hb1 eq_refl). destruct (f w1) as [ok2 w2].
    destruct Hf as (Hok2 & [m2 E2] & Hb2 & Hm2). split; [done|]. split; [|split].
    + exists (m1 ++ m2). by rewrite E2, E1, app_assoc.
    + intros ->. by rewrite Hb2, Hb1, app_assoc.
    + intros Hm. destruct (Hm1 Hm) as [Hw1 _]. destruct (Hm2 Hw1) as [Hw2 Hs]. split; [done|].
      intros Hfit. apply Hs. rewrite blen_app in Hfit. rewrite Hb1, blen_app. lia.
  - split; [done|]. split; [by exists m1|]. split; [done|]. intros Hm. destruct (Hm1 Hm) as [Hw1 Hs].
    split; [done|]. rewrite blen_app. intros Hfit. apply Hs. lia.
Qed.

Definition wire_ok (t : Z) : Prop := t = 0 \/ t = 1 \/ t = 2 \/ t = 5.
Definition number_ok (n : Z) : Prop := 1 <= n <= CWIST_PB_MAX_FIELD_NUMBER.
Definition pb_key (n t : Z) : bytes := varint (8 * n + t).

Lemma key_value n t : number_ok n -> wire_ok t -> Z.lor (Z.shiftl n 3) t = 8 * n + t.
Proof.
  unfold number_ok, wire_ok. intros Hn Ht. rewrite lor_shiftl_add by lia. change (2 ^ 3) with 8. lia.
Qed.

Lemma write_key_appends n t w :
  writer_ok w -> number_ok n -> wire_ok t -> appends (pb_key n t) w (cwist_pb_write_key w n t).
Proof.
  intros Hok Hn Ht. unfold cwist_pb_write_key. pose proof (key_value n t Hn Ht) as E.
  unfold number_ok, CWIST_PB_MAX_FIELD_NUMBER in *.
  destruct (Z.eqb_spec n 0); [lia|]. destruct (Z.ltb_spec 536870911 n); [lia|]. cbn [orb].
  rewrite E. destruct (_ && _ && _ && _) eqn:Et.
  { exfalso. unfold CWIST_PB_VARINT, CWIST_PB_64BIT, CWIST_PB_LEN, CWIST_PB_32BIT in Et. unfold wire_ok in Ht. lia. }
  apply write_varint_appends; [done|]. unfold wire_ok in Ht. change (2 ^ 64) with 18446744073709551616. lia.
Qed.

(** Room is made once, then [n] bytes are put. *)
Lemma reserve_put n b w (f : cwist_pb_writer -> cwist_pb_writer) :
  writer_ok w -> length b = n -> Z.of_nat n <= 10 ->
  (forall w1, room n w1 -> writer_ok (f w1) /\ pb_bytes (f w1) = pb_bytes w1 ++ b /\ pb_mem (f w1) = pb_mem w1) ->
  appends b w (let (ok, w1) := cwist_pb_writer_reserve w (Z.of_nat n) in if negb ok then (false, w1) else (true, f w1)).
Proof.
  intros Hok Hl Hn Hf. pose proof (reserve_spec w (Z.of_nat n) Hok) as H.
  destruct (cwist_pb_writer_reserve w (Z.of_nat n)) as [ok w1].
  destruct H as (Hok1 & Eb & Hroom & Hm); [unfold SIZE_MAX, UINT64_MAX; lia|].
  assert (Hfit : blen b = Z.of_nat n) by (unfold blen; lia).
  destruct ok; cbn [negb].
  - specialize (Hroom eq_refl). rewrite Nat2Z.id in Hroom. destruct (Hf w1 Hroom) as (Hok' & E & Em).
    split; [done|]. rewrite E, Eb. split; [by eexists|]. split; [done|]. intros Hm0.
    split; [|done]. rewrite Em. by apply Hm.
  - split; [done|]. split; [exists []; by rewrite Eb, app_nil_r|]. split; [done|]. intros Hm0.
    destruct (Hm Hm0) as [Hw Hs]. split; [done|]. intros Hx. apply Hs. lia.
Qed.

Lemma raw32_appends v w : writer_ok w -> 0 <= v < 2 ^ 32 -> appends (le_bytes 4 v) w (cwist_pb_write_raw32 w v).
Proof.
  intros Hok Hv.
  apply (reserve_put 4 (le_bytes 4 v) w (fun w => pb_put (pb_put (pb_put (pb_put w v) (Z.shiftr v 8)) (Z.shiftr v 16)) (Z.shiftr v 24)));
    [done|done|done|].
  intros w1 H0. destruct (pb_put_spec 3 w1 v H0) as (H1 & E1 & M1).
  destruct (pb_put_spec 2 _ (Z.shiftr v 8) H1) as (H2 & E2 & M2).
  destruct (pb_put_spec 1 _ (Z.shiftr v 16) H2) as (H3 & E3 & M3).
  destruct (pb_put_spec 0 _ (Z.shiftr v 24) H3) as (H4 & E4 & M4).
  split; [unfold room, writer_ok in *; lia|]. split; [|congruence]. rewrite E4, E3, E2, E1, <- !app_assoc.
  cbn [app le_bytes]. shifts. rewrite !Z.div_div by lia. done.
Qed.

Lemma raw64_loop v n : forall k w, room n w ->
  let w' := fold_left (fun w i => pb_put w (Z.shiftr v (Z.of_nat i * 8))) (seq k n) w in
  writer_ok w' /\ pb_bytes w' = pb_bytes w ++ le_bytes n (v / 256 ^ Z.of_nat k) /\ pb_mem w' = pb_mem w.
Proof.
  induction n as [|n IH]; intros k w Hr; cbn [seq fold_left le_bytes].
  { rewrite app_nil_r. split; [unfold room, writer_ok in *; lia|done]. }
  destruct (pb_put_spec n w (Z.shiftr v (Z.of_nat k * 8)) Hr) as (Hr1 & E1 & M1).
  destruct (IH (S k) _ Hr1) as (Hok & E & M). split; [done|]. split; [|congruence].
  rewrite E, E1, <- app_assoc. cbn [app]. f_equal. f_equal.
  - rewrite Z.shiftr_div_pow2 by lia. f_equal. f_equal. rewrite Z.mul_comm, Z.pow_mul_r by lia. done.
  - f_equal. rewrite Nat2Z.inj_succ, Z.pow_succ_r, (Z.mul_comm 256), Z.div_div by lia. done.
Qed.

Lemma raw64_appends v w : writer_ok w -> appends (le_bytes 8 v) w (cwist_pb_write_raw64 w v).
Proof.
  intros Hok. apply (reserve_put 8 (le_bytes 8 v) w (fun w => fold_left _ _ w)); [done|done|done|].
  intros w1 H0. pose proof (raw64_loop v 8 0 w1 H0) as H. cbv zeta in H. change (256 ^ Z.of_nat 0) with 1 in H.
  by rewrite Z.div_1_r in H.
Qed.

Lemma copy_appends data len w :
  writer_ok w -> len = blen (take (Z.to_nat len) data) -> len <= SIZE_MAX ->
  appends (take (Z.to_nat len) data) w
    (let (ok, w) := cwist_pb_writer_reserve w len in
     if negb ok then (false, w)
     else (true, w <| pb_data := blit w.(pb_data) w.(pb_len) (take (Z.to_nat len) data) |>
                   <| pb_len := (w.(pb_len) + Z.to_nat len)%nat |>)).
Proof.
  intros Hok Hlen Hmax. set (b := take (Z.to_nat len) data) in *. pose proof (blen_nonneg b).
  pose proof (reserve_spec w len Hok ltac:(lia)) as H1. destruct (cwist_pb_writer_reserve w len) as [ok w1].
  destruct H1 as (Hok1 & Eb & Hroom & Hm). assert (Hl : length b = Z.to_nat len) by (unfold blen in Hlen; lia).
  destruct ok; cbn [negb].
  - specialize (Hroom eq_refl). unfold room in Hroom. set (w2 := w1 <| pb_data := _ |> <| pb_len := _ |>).
    assert (E : pb_bytes w2 = pb_bytes w1 ++ b).
    { unfold pb_bytes, w2. cbn [pb_len pb_data set_field]. rewrite blit_in_range by lia.
      rewrite app_assoc. apply take_app_length'. rewrite length_app, length_take. lia. }
    split; [unfold writer_ok, w2; cbn [pb_len pb_data set_field]; rewrite length_blit; lia|].
    rewrite E, Eb. split; [by eexists|]. split; [done|]. intros Hm0. split; [|done].
    change (pb_mem w2) with (pb_mem w1). by apply Hm.
  - split; [done|]. split; [exists []; by rewrite Eb, app_nil_r|]. split; [done|]. intros Hm0.
    destruct (Hm Hm0) as [Hw Hs]. split; [done|]. intros Hx. apply Hs. lia.
Qed.

(** ** Fields *)

(** A field as the reader's client sees it. *)
Inductive pb_value := PvVarint (v : Z) | PvFixed64 (v : Z) | PvBytes (b : bytes) | PvFixed32 (v : Z).
Definition value_wire (v : pb_value) : Z :=
  match v with PvVarint _ => 0 | PvFixed64 _ => 1 | PvBytes _ => 2 | PvFixed32 _ => 5 end.
Definition value_bytes (v : pb_value) : bytes :=
  match v with
  | PvVarint v => varint v | PvFixed64 v => le_bytes 8 v | PvFixed32 v => le_bytes 4 v
  | PvBytes b => varint (blen b) ++ b
  end.
Definition value_ok (v : pb_value) : Prop :=
  match v with
  | PvVarint v | PvFixed64 v => 0 <= v < 2 ^ 64 | PvFixed32 v => 0 <= v < 2 ^ 32
  | PvBytes b => bytes_ok b /\ blen b <= SIZE_MAX
  end.
Definition field_bytes (f : Z * pb_value) : bytes := pb_key f.1 (value_wire f.2) ++ value_bytes f.2.
Definition field_ok (f : Z * pb_value) : Prop := number_ok f.1 /\ value_ok f.2.

(** What a call stands for. *)
Definition call_field (c : pb_call) : Z * pb_value :=
  match c with
  | WUint64 n v => (n, PvVarint v)
  | WInt64 n v => (n, PvVarint (u64 v))
  | WBool n v => (n, PvVarint (if v =? 0 then 0 else 1))
  | WFixed32 n v => (n, PvFixed32 v)
  | WFixed64 n v => (n, PvFixed64 v)
  | WBytes n data len => (n, PvBytes (take (Z.to_nat len) (default [] data)))
  | WString n value => (n, PvBytes (cstr (default [] value)))
  end.
(** The caller's part: arguments of their types, buffers as long as it says. *)
Definition pb_call_ok (c : pb_call) : Prop :=
  value_ok (call_field c).2 /\
  match c with
  | WBytes _ data len => 0 <= len /\ Z.of_nat (length (take (Z.to_nat len) (default [] data))) = len
  | WString _ value => value <> None
  | _ => True
  end.

Lemma cstr_prefix v : take (length (cstr v)) v = cstr v.
Proof. induction v as [|b v IH]; cbn; [done|]. destruct (b =? 0); [done|]. cbn. by rewrite IH. Qed.

Lemma bytes_field_appends n data len w :
  writer_ok w -> number_ok n -> 0 <= len <= SIZE_MAX ->
  Z.of_nat (length (take (Z.to_nat len) (default [] data))) = len ->
  appends (field_bytes (n, PvBytes (take (Z.to_nat len) (default [] data)))) w
    (cwist_pb_write_bytes_field w n data len).
Proof.
  intros Hok Hn Hl Hlen. unfold cwist_pb_write_bytes_field, field_bytes. cbn [value_wire value_bytes fst snd].
  set (b := take (Z.to_nat len) (default [] data)) in *.
  destruct ((0 <? len) && bool_decide (data = None)) eqn:E.
  { apply andb_true_iff in E as [E1 E2]. apply bool_decide_eq_true in E2. subst data b. cbn in Hlen.
    destruct (Z.to_nat len); cbn in Hlen; lia. }
  assert (Eb : blen b = len) by done.
  apply appends_seq; [apply write_key_appends; [done|done|right; right; by left]|]. intros w1 Hok1. rewrite Eb.
  apply appends_seq; [|intros w2 Hok2; apply copy_appends; [done|done|lia]].
  apply write_varint_appends; [done|]. unfold SIZE_MAX, UINT64_MAX in Hl. change (2 ^ 64) with 18446744073709551616. lia.
Qed.

Lemma call_appends c w :
  writer_ok w -> number_ok (call_field c).1 -> pb_call_ok c ->
  appends (field_bytes (call_field c)) w (run_pb_call c w).
Proof.
  intros Hok Hn [Hv Hc]. destruct c as [n v|n v|n v|n v|n v|n data len|n value]; cbn [run_pb_call call_field fst snd] in *.
  - apply appends_seq; [apply write_key_appends; [done|done|by left]|]. intros. by apply write_varint_appends.
  - apply appends_seq; [apply write_key_appends; [done|done|by left]|]. intros. by apply write_varint_appends.
  - unfold cwist_pb_write_bool_field. replace (if negb (v =? 0) then 1 else 0) with (if v =? 0 then 0 else 1) by by destruct (v =? 0). apply appends_seq; [apply write_key_appends; [done|done|by left]|].
    intros. by apply write_varint_appends.
  - apply appends_seq; [apply write_key_appends; [done|done|by right; right; right]|]. intros. by apply raw32_appends.
  - apply appends_seq; [apply write_key_appends; [done|done|right; by left]|]. intros. by apply raw64_appends.
  - destruct Hv as [_ Hv], Hc as [H0 Hc]. unfold blen in Hv. apply bytes_field_appends; [done|done|lia|done].
  - destruct value as [v|]; [|done]. cbn [cwist_pb_write_string_field default from_option id].
    unfold cwist_pb_write_string_field. destruct Hv as [_ Hv]. cbn in Hv.
    assert (E : take (Z.to_nat (blen (cstr v))) (default [] (Some v)) = cstr v).
    { cbn. unfold blen. rewrite Nat2Z.id. apply cstr_prefix. }
    pose proof (blen_nonneg (cstr v)).
    pose proof (bytes_field_appends n (Some v) (blen (cstr v)) w Hok Hn) as H1. rewrite E in H1.
    apply H1; [lia|done].
Qed.
