(* ===== verification/ProtobufRead.v ===== *)
(** * Reading Protobuf messages

    What bytes are a field ([field_at]), that the reader accepts exactly those
    and stays inside its buffer, and that it gives back what was written. *)

From S2P Require Import Prelude.
From S2P Require Import Protobuf ProtobufSpec.

(** ** A field in a buffer *)

(** Little-endian bytes. *)
Fixpoint le_value (b : bytes) : Z := match b with [] => 0 | x :: b => x + 256 * le_value b end.

Lemma le_value_bytes n : forall v, 0 <= v < 256 ^ Z.of_nat n -> le_value (le_bytes n v) = v.
Proof.
  induction n as [|n IH]; intros v Hv; cbn [le_bytes le_value].
  { change (256 ^ Z.of_nat 0) with 1 in Hv. lia. }
  rewrite Nat2Z.inj_succ, Z.pow_succ_r in Hv by lia. unfold u8. rewrite IH; [zlia|].
  split; [zlia|]. apply Z.div_lt_upper_bound; lia.
Qed.
Lemma le_value_range b : bytes_ok b -> 0 <= le_value b < 256 ^ blen b.
Proof.
  unfold blen. induction 1 as [|x b Hx _ IH]; cbn [le_value length]; [change (256 ^ Z.of_nat 0) with 1; lia|].
  rewrite Nat2Z.inj_succ, Z.pow_succ_r by lia. unfold is_u8 in Hx. lia.
Qed.

(** [field_at b f rest]: [b] starts with the field [f], followed by [rest].
    Varints need not be the shortest. *)
Inductive field_at : bytes -> Z * pb_value -> bytes -> Prop :=
  | FieldVarint k n v rest :
      is_varint k -> varint_value k = 8 * n + 0 -> number_ok n -> is_varint v ->
      field_at (k ++ v ++ rest) (n, PvVarint (varint_value v)) rest
  | FieldFixed64 k n b rest :
      is_varint k -> varint_value k = 8 * n + 1 -> number_ok n -> length b = 8%nat ->
      field_at (k ++ b ++ rest) (n, PvFixed64 (le_value b)) rest
  | FieldLen k n l b rest :
      is_varint k -> varint_value k = 8 * n + 2 -> number_ok n -> is_varint l -> varint_value l = blen b ->
      field_at (k ++ l ++ b ++ rest) (n, PvBytes b) rest
  | FieldFixed32 k n b rest :
      is_varint k -> varint_value k = 8 * n + 5 -> number_ok n -> length b = 4%nat ->
      field_at (k ++ b ++ rest) (n, PvFixed32 (le_value b)) rest.

(** What the caller of the reader makes of a descriptor. *)
Definition fl_slice (data : bytes) (f : cwist_pb_field) : bytes :=
  match fl_bytes f with Some off => sub data off (fl_len f) | None => [] end.
Definition field_view (data : bytes) (f : cwist_pb_field) : Z * pb_value :=
  (fl_number f,
   let off := default 0%nat (fl_bytes f) in
   if fl_wire f =? CWIST_PB_VARINT then PvVarint (fl_varint f)
   else if fl_wire f =? CWIST_PB_64BIT then PvFixed64 (cwist_pb_load64_le data off)
   else if fl_wire f =? CWIST_PB_LEN then PvBytes (fl_slice data f)
   else PvFixed32 (cwist_pb_load32_le data off)).

Lemma load32_value data off : bytes_ok data -> (off + 4 <= length data)%nat ->
  cwist_pb_load32_le data off = le_value (sub data off 4).
Proof.
  intros Hok Hl. assert (Hd : (4 <= length (drop off data))%nat) by (rewrite length_drop; lia).
  assert (Hdok : bytes_ok (drop off data)) by by apply list.Forall_drop.
  unfold cwist_pb_load32_le, sub. replace (rd data off) with (rd data (off + 0)) by by rewrite Nat.add_0_r.
  rewrite <- !rd_drop. destruct (drop off data) as [|a [|b [|c [|d l]]]]; cbn in Hd; try lia.
  do 4 (apply list.Forall_cons in Hdok as [? Hdok]).
  unfold rd, is_u8 in *. cbn [nth take le_value].
  rewrite (lor_add_shiftl b a 8), (lor_add_shiftl c _ 16), (lor_add_shiftl d _ 24) by lia.
  change (take 0 l) with (@nil Z). cbn [le_value]. lia.
Qed.
Lemma load64_value data off : bytes_ok data -> (off + 8 <= length data)%nat ->
  cwist_pb_load64_le data off = le_value (sub data off 8).
Proof.
  intros Hok Hl. unfold cwist_pb_load64_le. rewrite !load32_value by (done || lia).
  assert (Hdok : bytes_ok (drop off data)) by by apply list.Forall_drop.
  assert (Hd : (8 <= length (drop off data))%nat) by (rewrite length_drop; lia).
  unfold sub. rewrite <- (drop_drop data 4 off).
  destruct (drop off data) as [|a [|b [|c [|d [|e [|f [|g [|h l]]]]]]]]; cbn in Hd; try lia.
  do 8 (apply list.Forall_cons in Hdok as [? Hdok]). unfold is_u8 in *. cbn [drop take le_value].
  rewrite !take_0. cbn [le_value]. rewrite lor_add_shiftl by lia. lia.
Qed.

(** ** The reader *)

Definition reader_ok (r : cwist_pb_reader) : Prop := bytes_ok (pr_data r) /\ (pr_pos r <= length (pr_data r))%nat.

(** [moved r b r']: the reader went past [b]. *)
Definition moved (r : cwist_pb_reader) (b : bytes) (r' : cwist_pb_reader) : Prop :=
  r' = r <| pr_pos := (pr_pos r + length b)%nat |> /\ at_pos r = b ++ at_pos r'.

Lemma moved_ok r b r' : reader_ok r -> moved r b r' -> reader_ok r'.
Proof.
  intros [Hok Hp] [-> E]. split; [done|]. apply (f_equal length) in E. unfold at_pos in E.
  cbn [pr_pos pr_data set_field] in *. rewrite length_app, !length_drop in E. lia.
Qed.
Lemma moved_data r b r' : moved r b r' -> pr_data r' = pr_data r.
Proof. by intros [-> _]. Qed.
Lemma moved_here r b rest : at_pos r = b ++ rest -> exists r', moved r b r' /\ at_pos r' = rest.
Proof.
  intros E. exists (r <| pr_pos := (pr_pos r + length b)%nat |>). unfold moved, at_pos in *.
  cbn [pr_pos pr_data set_field].
  assert (E2 : drop (pr_pos r + length b) (pr_data r) = rest).
  { rewrite <- drop_drop, E, drop_app_length'; done. }
  rewrite E2. by split.
Qed.
Lemma moved_app r b r1 c r2 : moved r b r1 -> moved r1 c r2 -> moved r (b ++ c) r2.
Proof.
  intros [-> E1] [-> E2]. split; [|by rewrite E1, E2, app_assoc]. rewrite length_app.
  unfold set_field. cbn. f_equal. lia.
Qed.

Lemma varint_read r v r' : reader_ok r ->
  cwist_pb_read_varint r = (Some v, r') <-> exists b, is_varint b /\ moved r b r' /\ v = varint_value b.
Proof. intros [Hok _]. rewrite read_varint_iff by done. unfold moved. naive_solver. Qed.

Lemma take_bytes_spec number wire len r : reader_ok r -> 0 <= len ->
  match take_bytes number wire len r with
  | (PbField f, r') =>
      f = MkField number wire 0 (Some (pr_pos r)) (Z.to_nat len) /\ blen (fl_slice (pr_data r) f) = len /\
      moved r (fl_slice (pr_data r) f) r'
  | (PbEnd, _) => False
  | (PbError, _) => blen (at_pos r) < len
  end.
Proof.
  intros [Hok Hp] Hl. unfold take_bytes. destruct (Z.ltb_spec (Z.of_nat (length (pr_data r) - pr_pos r)) len) as [Hs|Hs].
  - unfold blen, at_pos. rewrite length_drop. lia.
  - split; [done|]. unfold fl_slice. cbn [fl_bytes fl_len]. unfold sub.
    assert (Hlen : length (take (Z.to_nat len) (drop (pr_pos r) (pr_data r))) = Z.to_nat len)
      by (rewrite length_take, length_drop; lia).
    split; [unfold blen; lia|]. unfold moved. rewrite Hlen. split; [done|].
    unfold at_pos. cbn [pr_pos pr_data set_field]. rewrite <- drop_drop. symmetry. apply take_drop.
Qed.

Lemma payload n t len r f r' : reader_ok r -> 0 <= len -> take_bytes n t len r = (PbField f, r') ->
  f = MkField n t 0 (Some (pr_pos r)) (Z.to_nat len) /\ blen (fl_slice (pr_data r) f) = len /\
  moved r (fl_slice (pr_data r) f) r'.
Proof. intros Hr Hl E. pose proof (take_bytes_spec n t len r Hr Hl) as H. by rewrite E in H. Qed.

Lemma key_split key : 0 <= key -> key = 8 * Z.shiftr key 3 + Z.land key 7 /\ 0 <= Z.land key 7 < 8.
Proof.
  intros H. rewrite (land_mask key 3 7) by done. rewrite Z.shiftr_div_pow2 by lia.
  change (2 ^ 3) with 8. zlia.
Qed.
Lemma key_parts n t : 0 <= t < 8 -> Z.shiftr (8 * n + t) 3 = n /\ Z.land (8 * n + t) 7 = t.
Proof.
  intros H. rewrite (land_mask _ 3 7) by done. rewrite Z.shiftr_div_pow2 by lia.
  change (2 ^ 3) with 8. zlia.
Qed.

Lemma number_u32 n : number_ok n -> u32 n = n.
Proof. unfold number_ok, CWIST_PB_MAX_FIELD_NUMBER. intros H. apply u32_id. unfold is_u32. lia. Qed.

(** The descriptor of a field [b] at the reader [r]: a payload is a part of [b]. *)
Definition describes (r : cwist_pb_reader) (f : cwist_pb_field) (r' : cwist_pb_reader) : Prop :=
  exists b, moved r b r' /\ b <> [] /\ number_ok (fl_number f) /\ wire_ok (fl_wire f) /\
    match fl_bytes f with
    | Some off => (pr_pos r < off)%nat /\ (off + fl_len f)%nat = pr_pos r'
    | None => fl_len f = 0%nat
    end.

Lemma varint_nonempty b : is_varint b -> (1 <= length b)%nat.
Proof. intros (H & _ & _). destruct b; [done|]. cbn. lia. Qed.

Lemma payload_describes r k r1 n t len r2 : reader_ok r1 -> 0 <= len ->
  moved r k r1 -> k <> [] -> number_ok n -> wire_ok t ->
  forall f, take_bytes n t len r1 = (PbField f, r2) -> describes r f r2.
Proof.
  intros Hr1 Hl Hm Hk Hn Ht f E. destruct (payload _ _ _ _ _ _ Hr1 Hl E) as (Ef & Hb & Hm2).
  exists (k ++ fl_slice (pr_data r1) f). split; [by eapply moved_app|].
  split; [by destruct k|]. rewrite Ef. cbn [fl_number fl_wire fl_bytes fl_len]. split; [done|]. split; [done|].
  unfold blen in Hb. set (sl := fl_slice (pr_data r1) f) in *. clearbody sl.
  assert (E1 : pr_pos r1 = (pr_pos r + length k)%nat) by by destruct Hm as [-> _].
  assert (E2 : pr_pos r2 = (pr_pos r1 + length sl)%nat) by by destruct Hm2 as [-> _].
  destruct k; cbn [length] in *; [done|lia].
Qed.

Lemma fixed_payload r k r1 n t len f r2 :
  reader_ok r1 -> moved r k r1 -> 0 <= len -> take_bytes n t len r1 = (PbField f, r2) ->
  exists b, length b = Z.to_nat len /\ at_pos r = k ++ b ++ at_pos r2 /\
    sub (pr_data r) (pr_pos r1) (Z.to_nat len) = b /\ (pr_pos r1 + Z.to_nat len <= length (pr_data r))%nat /\
    f = MkField n t 0 (Some (pr_pos r1)) (Z.to_nat len).
Proof.
  intros Hr1 Hm Hl E. destruct (payload _ _ _ _ _ _ Hr1 Hl E) as (Ef & Hb & Hm2).
  pose proof (moved_ok _ _ _ Hr1 Hm2) as [_ Hend]. set (b := fl_slice (pr_data r1) f) in *.
  assert (Hlen : length b = Z.to_nat len) by (unfold blen in Hb; lia).
  exists b. split; [done|]. split; [by rewrite (proj2 Hm), (proj2 Hm2)|]. rewrite <- (moved_data _ _ _ Hm).
  split; [unfold b; by rewrite Ef|]. split; [|done]. destruct Hm2 as [-> _]. cbn in Hend. clearbody b. lia.
Qed.

(** What the reader returns is a field. *)
Lemma read_field_sound r f r' : reader_ok r -> cwist_pb_read_field r = (PbField f, r') ->
  field_at (at_pos r) (field_view (pr_data r) f) (at_pos r') /\ describes r f r'.
Proof.
  intros Hr. unfold cwist_pb_read_field. destruct (length (pr_data r) <=? pr_pos r)%nat; [done|].
  destruct (cwist_pb_read_varint r) as [[key|] r1] eqn:Ek; [|done].
  apply varint_read in Ek as (k & Hk & Hm & ->); [|done].
  pose proof (moved_ok _ _ _ Hr Hm) as Hr1. pose proof (varint_nonempty k Hk).
  assert (Hkn : k <> []) by by destruct k; cbn in *; [lia|].
  destruct (key_split (varint_value k) (varint_value_nonneg k)) as [Hkey Ht].
  set (n := Z.shiftr (varint_value k) 3) in *. set (t := Z.land (varint_value k) 7) in *. cbv zeta.
  destruct ((n =? 0) || (CWIST_PB_MAX_FIELD_NUMBER <? n)) eqn:En; [done|].
  assert (Hn : number_ok n) by (pose proof (varint_value_nonneg k); unfold number_ok; lia).
  clearbody n t. rewrite number_u32 by done.
  destruct (Z.eqb_spec t CWIST_PB_VARINT) as [->|H0].
  { destruct (cwist_pb_read_varint r1) as [[v|] r2] eqn:Ev; [|done]. intros [= <- <-].
    apply varint_read in Ev as (vb & Hv & Hm2 & ->); [|done].
    split.
    - rewrite (proj2 Hm), (proj2 Hm2). by apply FieldVarint.
    - exists (k ++ vb). split; [by eapply moved_app|]. split; [by destruct k|]. by split; [|split; [left|]]. }
  destruct (Z.eqb_spec t CWIST_PB_LEN) as [->|H2].
  { destruct (cwist_pb_read_varint r1) as [[l|] r2] eqn:Ev; [|done]. intros E.
    apply varint_read in Ev as (lb & Hv & Hm2 & ->); [|done].
    pose proof (moved_ok _ _ _ Hr1 Hm2) as Hr2. pose proof (varint_value_nonneg lb) as Hl.
    split.
    - destruct (payload _ _ _ _ _ _ Hr2 Hl E) as (Ef & Hb & Hm3).
      rewrite (moved_data _ _ _ Hm2), (moved_data _ _ _ Hm) in Hb, Hm3.
      rewrite (proj2 Hm), (proj2 Hm2), (proj2 Hm3). 
      assert (Ev : field_view (pr_data r) f = (n, PvBytes (fl_slice (pr_data r) f))) by by rewrite Ef.
      rewrite Ev. by apply FieldLen.
    - eapply (payload_describes r (k ++ lb)); [exact Hr2|exact Hl| |by destruct k|done|right; right; by left|exact E].
      by eapply moved_app. }
  destruct (Z.eqb_spec t CWIST_PB_32BIT) as [->|H5].
  { intros E. split; [|eapply (payload_describes r k); [exact Hr1| |done|done|done|by right; right; right|exact E]; lia].
    destruct (fixed_payload r k r1 n CWIST_PB_32BIT 4 f r') as (b & Hb & E1 & E2 & Hend & Ef); [done|done|lia|done|].
    rewrite E1. assert (Ev : field_view (pr_data r) f = (n, PvFixed32 (le_value b))).
    { change (Z.to_nat 4) with 4%nat in *. rewrite Ef.
    change (field_view _ _) with (n, PvFixed32 (cwist_pb_load32_le (pr_data r) (pr_pos r1))).
    by rewrite load32_value, E2 by (apply Hr || lia). }
    rewrite Ev. by apply FieldFixed32. }
  destruct (Z.eqb_spec t CWIST_PB_64BIT) as [->|H1]; [|done].
  intros E. split; [|eapply (payload_describes r k); [exact Hr1| |done|done|done|by right; left|exact E]; lia].
  destruct (fixed_payload r k r1 n CWIST_PB_64BIT 8 f r') as (b & Hb & E1 & E2 & Hend & Ef); [done|done|lia|done|].
  rewrite E1. assert (Ev : field_view (pr_data r) f = (n, PvFixed64 (le_value b))).
  { change (Z.to_nat 8) with 8%nat in *. rewrite Ef.
    change (field_view _ _) with (n, PvFixed64 (cwist_pb_load64_le (pr_data r) (pr_pos r1))).
    by rewrite load64_value, E2 by (apply Hr || lia). }
  rewrite Ev. by apply FieldFixed64.
Qed.

(** A varint that is there is read. *)
Lemma read_varint_here r b rest : reader_ok r -> is_varint b -> at_pos r = b ++ rest ->
  exists r1, cwist_pb_read_varint r = (Some (varint_value b), r1) /\ moved r b r1 /\ at_pos r1 = rest /\ reader_ok r1.
Proof.
  intros Hr Hb E. destruct (moved_here r b rest E) as (r1 & Hm & E1). exists r1.
  split; [apply varint_read; [done|by exists b]|]. split; [done|]. split; [done|by eapply moved_ok].
Qed.
Lemma read_key_here r k n t rest : reader_ok r -> is_varint k -> varint_value k = 8 * n + t -> number_ok n ->
  0 <= t < 8 -> at_pos r = k ++ rest ->
  exists r1, cwist_pb_read_varint r = (Some (varint_value k), r1) /\ moved r k r1 /\ at_pos r1 = rest /\ reader_ok r1 /\
    Z.shiftr (varint_value k) 3 = n /\ Z.land (varint_value k) 7 = t /\
    (n =? 0) || (CWIST_PB_MAX_FIELD_NUMBER <? n) = false /\ (length (pr_data r) <=? pr_pos r)%nat = false.
Proof.
  intros Hr Hk Ek Hn Ht E. destruct (read_varint_here r k rest Hr Hk E) as (r1 & E1 & Hm & E2 & Hr1). exists r1.
  rewrite Ek in *. destruct (key_parts n t Ht) as [Es El]. do 6 (split; [done|]). split.
  - unfold number_ok in Hn. lia.
  - pose proof (varint_nonempty k Hk). apply (f_equal length) in E. unfold at_pos in E.
    rewrite length_app, length_drop in E. apply Nat.leb_gt. lia.
Qed.
(** A payload that is there is taken. *)
Lemma take_bytes_here n t b r rest : reader_ok r -> at_pos r = b ++ rest ->
  exists r', take_bytes n t (blen b) r = (PbField (MkField n t 0 (Some (pr_pos r)) (length b)), r') /\ at_pos r' = rest /\
    sub (pr_data r) (pr_pos r) (length b) = b /\ (pr_pos r + length b <= length (pr_data r))%nat.
Proof.
  intros Hr E. pose proof (take_bytes_spec n t (blen b) r Hr (blen_nonneg b)) as H.
  destruct (moved_here r b rest E) as (r1 & Hm & E1). pose proof (moved_ok _ _ _ Hr Hm) as [_ Hend].
  destruct Hm as [-> _]. cbn in Hend.
  destruct (take_bytes n t (blen b) r) as [[f| |] r'].
  - destruct H as (Ef & Hb & [Er _]). unfold blen in Ef. rewrite Nat2Z.id in Ef. exists r'.
    assert (Es : fl_slice (pr_data r) f = b).
    { rewrite Ef. unfold fl_slice. cbn [fl_bytes fl_len]. unfold sub. fold (at_pos r). rewrite E. by apply take_app_length. }
    rewrite <- Ef. split; [done|]. rewrite Es in Er. rewrite Er. split; [done|]. split; [|done].
    by rewrite Ef in Es.
  - done.
  - rewrite E, blen_app in H. pose proof (blen_nonneg rest). lia.
Qed.

(** A field that is there is returned. *)
Lemma read_field_complete r v rest : reader_ok r -> field_at (at_pos r) v rest ->
  exists f r', cwist_pb_read_field r = (PbField f, r') /\ field_view (pr_data r) f = v /\ at_pos r' = rest.
Proof.
  intros Hr H. remember (at_pos r) as b eqn:Eb. symmetry in Eb. unfold cwist_pb_read_field.
  destruct H as [k n v rest Hk Ek Hn Hv|k n b rest Hk Ek Hn Hb|k n l b rest Hk Ek Hn Hl El|k n b rest Hk Ek Hn Hb];
    destruct (read_key_here r k n _ _ Hr Hk Ek Hn ltac:(done) Eb)
      as (r1 & E1 & Hm & E2 & Hr1 & Es & Et & En & Ep); rewrite Ep, E1, Es; cbv zeta; rewrite En, (number_u32 n Hn), Et;
    unfold CWIST_PB_VARINT, CWIST_PB_LEN, CWIST_PB_32BIT, CWIST_PB_64BIT; cbn [Z.eqb Pos.eqb].
  - destruct (read_varint_here r1 v rest Hr1 Hv E2) as (r2 & -> & _ & E3 & _). by eexists _, r2.
  - destruct (take_bytes_here n 1 b r1 rest Hr1 E2) as (r2 & Eb2 & E3 & Esub & Hend). unfold blen in Eb2.
    rewrite Hb in *. change (Z.of_nat 8) with 8 in Eb2. rewrite Eb2. eexists _, r2. split; [done|]. split; [|done].
    rewrite (moved_data _ _ _ Hm) in *.
    change (field_view _ _) with (n, PvFixed64 (cwist_pb_load64_le (pr_data r) (pr_pos r1))).
    by rewrite load64_value, Esub by (apply Hr || lia).
  - destruct (read_varint_here r1 l _ Hr1 Hl E2) as (r2 & -> & Hm2 & E3 & Hr2). rewrite El.
    destruct (take_bytes_here n 2 b r2 rest Hr2 E3) as (r3 & Eb2 & E4 & Esub & Hend). rewrite Eb2.
    rewrite (moved_data _ _ _ Hm2), (moved_data _ _ _ Hm) in *. eexists _, r3. split; [done|]. split; [|done].
    change (field_view _ _) with (n, PvBytes (sub (pr_data r) (pr_pos r2) (length b))). by rewrite Esub.
  - destruct (take_bytes_here n 5 b r1 rest Hr1 E2) as (r2 & Eb2 & E3 & Esub & Hend). unfold blen in Eb2.
    rewrite Hb in *. change (Z.of_nat 4) with 4 in Eb2. rewrite Eb2. eexists _, r2. split; [done|]. split; [|done].
    rewrite (moved_data _ _ _ Hm) in *.
    change (field_view _ _) with (n, PvFixed32 (cwist_pb_load32_le (pr_data r) (pr_pos r1))).
    by rewrite load32_value, Esub by (apply Hr || lia).
Qed.

Lemma read_field_end r r' : reader_ok r -> cwist_pb_read_field r = (PbEnd, r') -> r' = r /\ at_pos r = [].
Proof.
  intros Hr. unfold cwist_pb_read_field. destruct (Nat.leb_spec (length (pr_data r)) (pr_pos r)) as [H|H].
  { intros [= <-]. split; [done|]. apply drop_ge. lia. }
  destruct (cwist_pb_read_varint r) as [[key|] r1]; [|done]. cbv zeta.
  assert (Ht : forall n t len r, take_bytes n t len r <> (PbEnd, r')) by (intros n t len r2; unfold take_bytes; by destruct (_ <? _)).
  destruct (_ || _); [done|]. destruct (_ =? CWIST_PB_VARINT); [by destruct (cwist_pb_read_varint r1) as [[v|] r2]|].
  destruct (_ =? CWIST_PB_LEN); [destruct (cwist_pb_read_varint r1) as [[v|] r2]; [|done]; intros E; by apply Ht in E|].
  destruct (_ =? CWIST_PB_32BIT); [intros E; by apply Ht in E|].
  destruct (_ =? CWIST_PB_64BIT); [intros E; by apply Ht in E|done].
Qed.

(** C23: [cwist_pb_read_field] on any buffer.  At the end it says so and does
    not move.  It returns a descriptor exactly when a field starts at the
    position (error means that none does): the descriptor is that field's, its
    payload lies inside the buffer behind the position, and the reader stops
    right behind it. *)
Theorem read_field_exact r :
  reader_ok r ->
  match cwist_pb_read_field r with
  | (PbEnd, r') => at_pos r = [] /\ r' = r
  | (PbField f, r') =>
      field_at (at_pos r) (field_view (pr_data r) f) (at_pos r') /\ describes r f r' /\
      (pr_pos r' <= length (pr_data r))%nat
  | (PbError, _) => at_pos r <> [] /\ forall f rest, ~ field_at (at_pos r) f rest
  end.
Proof.
  intros Hr. destruct (cwist_pb_read_field r) as [[f| |] r'] eqn:E.
  - destruct (read_field_sound r f r' Hr E) as [Hf Hd]. split; [done|]. split; [done|].
    destruct Hd as (b & Hm & _). pose proof (moved_ok _ _ _ Hr Hm) as [_ H]. by rewrite (moved_data _ _ _ Hm) in H.
  - apply read_field_end in E as [-> ?]; [|done]. by split.
  - split; [|intros f rest Hf; destruct (read_field_complete r f rest Hr Hf) as (f' & r1 & E1 & _); congruence].
    intros E0. unfold cwist_pb_read_field in E. unfold at_pos in E0. apply (f_equal length) in E0.
    rewrite length_drop in E0. cbn in E0. destruct (Nat.leb_spec (length (pr_data r)) (pr_pos r)); [done|lia].
Qed.

(** ** Messages *)

(** A buffer that is a sequence of fields. *)
Inductive fields_at : bytes -> list (Z * pb_value) -> Prop :=
  | FieldsNil : fields_at [] []
  | FieldsCons b f rest fs : field_at b f rest -> fields_at rest fs -> fields_at b (f :: fs).

Lemma field_at_shorter b f rest : field_at b f rest -> (length rest < length b)%nat.
Proof.
  assert (H : forall k r, is_varint k -> (length r < length (k ++ r))%nat).
  { intros k r Hk. apply varint_nonempty in Hk. rewrite length_app. lia. }
  intros []; rewrite ?length_app;
    match goal with Hk : is_varint ?k |- context [length ?k] => apply varint_nonempty in Hk; lia end.
Qed.
Lemma field_at_nil f rest : ~ field_at [] f rest.
Proof. intros H. apply field_at_shorter in H. cbn in H. lia. Qed.

Lemma field_at_rest_ok b f rest : bytes_ok b -> field_at b f rest -> bytes_ok rest.
Proof.
  assert (H : forall a c : bytes, bytes_ok (a ++ c) -> bytes_ok c) by (intros a c; apply list.Forall_app).
  intros Hb Hf. revert Hb. destruct Hf; intros Hb; repeat apply H in Hb; exact Hb. Qed.

(** Where a field starts there is one field. *)
Lemma field_at_det b f1 r1 f2 r2 : bytes_ok b -> field_at b f1 r1 -> field_at b f2 r2 -> f1 = f2 /\ r1 = r2.
Proof.
  intros Hb H1 H2. assert (Hr : reader_ok (MkReader b 0)) by (split; [done|cbn; lia]).
  destruct (read_field_complete (MkReader b 0) f1 r1 Hr H1) as (g1 & s1 & E1 & <- & <-).
  destruct (read_field_complete (MkReader b 0) f2 r2 Hr H2) as (g2 & s2 & E2 & <- & <-).
  rewrite E1 in E2. by injection E2 as -> ->.
Qed.

Lemma fields_at_det b fs : bytes_ok b -> fields_at b fs -> forall fs', fields_at b fs' -> fs = fs'.
Proof.
  intros Hb H. revert Hb. induction H as [|b f rest fs Hf _ IH]; intros Hb fs' H'.
  - inversion H' as [|b' f' rest' fs2 Hf']; [done|]. by apply field_at_nil in Hf'.
  - inversion H' as [E|b' f' rest' fs2 Hf' Hfs' E1 E2].
    + subst. by apply field_at_nil in Hf.
    + destruct (field_at_det _ _ _ _ _ Hb Hf Hf') as [<- <-]. f_equal. apply IH; [|done].
      by eapply field_at_rest_ok.
Qed.

Lemma read_fields_spec fuel : forall r, reader_ok r -> (length (at_pos r) < fuel)%nat ->
  match read_fields fuel r with
  | Some fs => fields_at (at_pos r) (map (field_view (pr_data r)) fs)
  | None => forall fs, ~ fields_at (at_pos r) fs
  end.
Proof.
  induction fuel as [|fuel IH]; intros r Hr Hf; [lia|]. cbn [read_fields].
  destruct (cwist_pb_read_field r) as [[f| |] r'] eqn:E.
  - destruct (read_field_sound r f r' Hr E) as [Hat (b & Hm & _)].
    pose proof (field_at_shorter _ _ _ Hat). pose proof (moved_ok _ _ _ Hr Hm) as Hr'.
    specialize (IH r' Hr' ltac:(lia)). destruct (read_fields fuel r') as [fs|]; cbn [option_bind mbind].
    + cbn [map]. rewrite (moved_data _ _ _ Hm) in IH. by eapply FieldsCons.
    + intros fs Hfs. inversion Hfs as [E0|b' f' rest' fs' Hat' Hfs' E1 E2].
      * rewrite <- E0 in Hat. by apply field_at_nil in Hat.
      * destruct (field_at_det _ _ _ _ _ (list.Forall_drop _ _ _ (proj1 Hr)) Hat Hat') as [_ <-]. by apply (IH fs').
  - apply read_field_end in E as [-> E]; [|done]. rewrite E. constructor.
  - intros fs Hfs. inversion Hfs as [E0|b' f' rest' fs' Hat' Hfs' E1 E2].
    + symmetry in E0. unfold cwist_pb_read_field in E. apply (f_equal length) in E0. unfold at_pos in E0.
      rewrite length_drop in E0. cbn in E0. destruct (Nat.leb_spec (length (pr_data r)) (pr_pos r)); [done|lia].
    + destruct (read_field_complete r f' rest' Hr Hat') as (g & s & Eg & _). congruence.
Qed.

(** ** What was written is a message *)

Lemma field_bytes_at f rest : field_ok f -> field_at (field_bytes f ++ rest) f rest.
Proof.
  destruct f as [n v]. intros [Hn Hv]. unfold field_bytes, pb_key. cbn [fst snd] in *.
  assert (Hk : forall t, 0 <= t < 8 -> is_varint (varint (8 * n + t)) /\ varint_value (varint (8 * n + t)) = 8 * n + t).
  { intros t Ht. unfold number_ok, CWIST_PB_MAX_FIELD_NUMBER in Hn.
    destruct (varint_ok (8 * n + t)) as (H1 & H2 & _); [|done].
    change (2 ^ 64) with 18446744073709551616. lia. }
  destruct v as [v|v|b|v]; cbn [value_wire value_bytes value_ok] in *; rewrite <- ?app_assoc.
  - destruct (Hk 0 ltac:(done)), (varint_ok v Hv) as (Hv1 & Hv2 & _). rewrite <- Hv2 at 2. by apply FieldVarint.
  - destruct (Hk 1 ltac:(done)). rewrite <- (le_value_bytes 8 v) at 2 by done. by apply FieldFixed64.
  - destruct (Hk 2 ltac:(done)), Hv as [_ Hv]. destruct (varint_ok (blen b)) as (Hv1 & Hv2 & _); [|by apply FieldLen].
    pose proof (blen_nonneg b). unfold SIZE_MAX, UINT64_MAX in Hv. change (2 ^ 64) with 18446744073709551616. lia.
  - destruct (Hk 5 ltac:(done)). rewrite <- (le_value_bytes 4 v) at 2 by done. by apply FieldFixed32.
Qed.

Definition message (cs : list pb_call) : bytes := concat (map (fun c => field_bytes (call_field c)) cs).
Definition calls_ok (cs : list pb_call) : Prop := Forall (fun c => number_ok (call_field c).1 /\ pb_call_ok c) cs.

Lemma message_at cs : calls_ok cs -> fields_at (message cs) (map call_field cs).
Proof.
  induction 1 as [|c cs [Hn [Hv _]] _ IH]; [constructor|]. eapply FieldsCons; [|exact IH]. by apply field_bytes_at.
Qed.

Lemma value_bytes_ok f : field_ok f -> bytes_ok (field_bytes f).
Proof.
  destruct f as [n v]. intros [Hn Hv]. apply list.Forall_app_2.
  - apply (varint_ok (8 * n + value_wire v)). unfold number_ok, CWIST_PB_MAX_FIELD_NUMBER in Hn. cbn [fst] in Hn.
    change (2 ^ 64) with 18446744073709551616. destruct v; cbn [value_wire]; lia.
  - destruct v as [v|v|b|v]; cbn [value_bytes value_ok snd] in *; try apply le_bytes_ok.
    + by apply varint_ok.
    + destruct Hv as [Hb Hl]. apply list.Forall_app_2; [|done]. apply varint_ok. pose proof (blen_nonneg b).
      unfold SIZE_MAX, UINT64_MAX in Hl. change (2 ^ 64) with 18446744073709551616. lia.
Qed.
Lemma message_ok cs : calls_ok cs -> bytes_ok (message cs).
Proof.
  induction 1 as [|c cs [Hn [Hv _]] _ IH]; [constructor|]. apply list.Forall_app_2; [|done]. by apply value_bytes_ok.
Qed.

Lemma write_fields_appends cs : forall w, writer_ok w -> calls_ok cs -> appends (message cs) w (write_fields cs w).
Proof.
  induction cs as [|c cs IH]; intros w Hok Hcs.
  { cbn. split; [done|]. rewrite app_nil_r. split; [exists []; by rewrite app_nil_r|]. by split. }
  apply list.Forall_cons in Hcs as [[Hn Hc] Hcs].
  pose proof (appends_seq _ (message cs) w _ (write_fields cs) (call_appends c w Hok Hn Hc) (fun w1 H => IH w1 H Hcs)) as H.
  cbn [write_fields]. destruct (run_pb_call c w) as [[] w1]; exact H.
Qed.

(** C20: protobuf messages survive the wire.  Fields written with valid numbers
    and arguments into a fresh writer, whenever every call reports success,
    are read back in order, with their numbers and values, until the reader
    reports the end; and they do all succeed when memory is available and the
    message fits a [size_t]. *)
Theorem pb_roundtrip cs o :
  calls_ok cs ->
  let (ok, w) := write_fields cs (cwist_pb_writer_init o) in
  (ok = true -> exists fs,
     read_fields (S (length (pb_bytes w))) (cwist_pb_reader_init (pb_bytes w)) = Some fs /\
     map (field_view (pb_bytes w)) fs = map call_field cs) /\
  (o = [] -> blen (message cs) + 10 <= SIZE_MAX -> ok = true).
Proof.
  intros Hcs. assert (Hok : writer_ok (cwist_pb_writer_init o)) by (unfold writer_ok; cbn; lia).
  pose proof (write_fields_appends cs _ Hok Hcs) as H.
  destruct (write_fields cs (cwist_pb_writer_init o)) as [ok w]. destruct H as (_ & _ & Hb & Hm). split.
  - intros Ht. specialize (Hb Ht). cbn in Hb.
    assert (Hr : reader_ok (cwist_pb_reader_init (pb_bytes w))).
    { split; [|cbn; lia]. cbn. rewrite Hb. by apply message_ok. }
    assert (Hf : (length (at_pos (cwist_pb_reader_init (pb_bytes w))) < S (length (pb_bytes w)))%nat)
      by apply Nat.lt_succ_diag_r.
    pose proof (read_fields_spec _ _ Hr Hf) as H.
    change (at_pos (cwist_pb_reader_init (pb_bytes w))) with (pb_bytes w) in H.
    destruct (read_fields _ _) as [fs|].
    + exists fs. split; [done|]. cbn [pr_data cwist_pb_reader_init] in H.
      eapply fields_at_det; [apply Hr|exact H|]. cbn. rewrite Hb. by apply message_at.
    + exfalso. apply (H (map call_field cs)). rewrite Hb. by apply message_at.
  - intros Ho Hfit. destruct (Hm Ho) as [_ Hs]. apply Hs.
    change (pb_bytes (cwist_pb_writer_init o)) with (@nil Z). change (blen []) with 0. lia.
Qed.

(** ** ZigZag *)

Lemma lxor_all_ones x : is_u64 x -> Z.lxor x 18446744073709551615 = 18446744073709551615 - x.
Proof.
  intros Hx. change 18446744073709551615 with (Z.ones 64) at 1.
  transitivity ((Z.lnot x) mod 2 ^ 64).
  - apply Z.bits_inj'. intros i Hi. rewrite Z.lxor_spec. destruct (Z.ltb_spec i 64).
    + rewrite Z.ones_spec_low, Z.mod_pow2_bits_low, Z.lnot_spec by lia. apply xorb_true_r.
    + rewrite Z.ones_spec_high, Z.mod_pow2_bits_high by lia. rewrite xorb_false_r.
      rewrite <- (Z.mod_small x (2 ^ 64)) by exact Hx. apply Z.mod_pow2_bits_high. lia.
  - unfold Z.lnot, is_u64 in *. change (2 ^ 64) with 18446744073709551616. zlia.
Qed.
Definition is_s64 (x : Z) : Prop := -9223372036854775808 <= x < 9223372036854775808.

(** Small magnitudes get small codes. *)
Lemma zigzag_encode_value v : is_s64 v -> cwist_pb_zigzag_encode v = if v <? 0 then -2 * v - 1 else 2 * v.
Proof.
  unfold is_s64, cwist_pb_zigzag_encode. intros Hv.
  rewrite Z.shiftl_mul_pow2, Z.shiftr_div_pow2 by lia. change (2 ^ 1) with 2. change (2 ^ 63) with 9223372036854775808.
  destruct (Z.ltb_spec v 0).
  - replace (u64 (0 - u64 v / 9223372036854775808)) with 18446744073709551615 by (unfold u64; zlia).
    rewrite lxor_all_ones; unfold is_u64, u64; zlia.
  - replace (u64 (0 - u64 v / 9223372036854775808)) with 0 by (unfold u64; zlia).
    rewrite Z.lxor_0_r. unfold u64. zlia.
Qed.

(** Decoding undoes encoding, on every [int64_t]. *)
Lemma zigzag_roundtrip v : is_s64 v -> cwist_pb_zigzag_decode (cwist_pb_zigzag_encode v) = v.
Proof.
  intros Hv. rewrite zigzag_encode_value by done. unfold is_s64, cwist_pb_zigzag_decode in *.
  rewrite (land_mask _ 1 1), Z.shiftr_div_pow2 by done. change (2 ^ 1) with 2.
  destruct (Z.ltb_spec v 0).
  - assert (E : s64 (-2 * v - 1) mod 2 = 1) by (unfold s64, u64; case_match; zlia). rewrite E.
    change (u64 (- (1))) with 18446744073709551615. rewrite lxor_all_ones by (unfold is_u64; zlia).
    unfold s64, u64. case_match; zlia.
  - assert (E : s64 (2 * v) mod 2 = 0) by (unfold s64, u64; case_match; zlia). rewrite E.
    change (u64 (- 0)) with 0. rewrite Z.lxor_0_r. unfold s64, u64. case_match; zlia.
Qed.

(** ** Witnesses *)

Lemma read_field_exact_witness :
  let r := cwist_pb_reader_init [18; 2; 104; 105; 8] in
  reader_ok r /\ exists f r', cwist_pb_read_field r = (PbField f, r') /\
    field_at (at_pos r) (field_view (pr_data r) f) (at_pos r').
Proof.
  cbv zeta. assert (H : reader_ok (cwist_pb_reader_init [18; 2; 104; 105; 8]))
    by (split; [repeat constructor; lia|cbn; lia]).
  split; [exact H|]. pose proof (read_field_exact _ H) as H1.
  eexists _, _. split; [vm_compute; reflexivity|]. exact (proj1 H1).
Defined.

Definition sample_calls : list pb_call := [WUint64 1 300; WInt64 2 (-1); WString 3 (Some (bs "hi" ++ [0])); WFixed32 4 7].
Lemma pb_roundtrip_witness :
  calls_ok sample_calls /\ exists w fs, write_fields sample_calls (cwist_pb_writer_init []) = (true, w) /\
    map (field_view (pb_bytes w)) fs = map call_field sample_calls.
Proof.
  assert (H : calls_ok sample_calls).
  { repeat constructor; cbn; try done; try lia. all: unfold is_u8; try lia. }
  split; [exact H|]. pose proof (pb_roundtrip sample_calls [] H) as H1.
  destruct (write_fields sample_calls (cwist_pb_writer_init [])) as [ok w].
  destruct H1 as [H1 H2]. specialize (H2 eq_refl ltac:(vm_compute; done)). subst ok.
  destruct (H1 eq_refl) as (fs & _ & E). exists w, fs. split; [reflexivity|exact E].
Defined.
