(* ===== verification/Redis.v ===== *)
(** * The Redis client's wire (net/redis/cwist_redis.c)

    Commands are framed as RESP2 arrays; the deadline-bounded call parses its
    reply strictly and under limits, from a connection it shares with nobody
    while it holds it.  Sockets, the clock and system calls are outcomes in
    lists that the calls consume. *)

From S2P Require Import Prelude.

(** ** Limits and codes *)

Definition CWIST_REDIS_BUF_SIZE : Z := 65536.
Definition CWIST_REDIS_LINE_MAX : Z := 8192.
Definition CWIST_REDIS_TIMED_MAX_ARGC : Z := 1048576.
Definition CWIST_REDIS_TIMED_MAX_FRAME : Z := 536870912.
Definition CWIST_REDIS_TIMED_MAX_DEPTH : nat := 8.
Definition CWIST_REDIS_TIMED_MAX_NODES : Z := 65536.
Definition CWIST_REDIS_TIMED_MAX_BULK : Z := 8388608.
Definition CWIST_REDIS_TIMED_MAX_PAYLOAD : Z := 16777216.

Definition EPERM : Z := 1.
Definition EIO : Z := 5.
Definition ENOMEM : Z := 12.
Definition EINVAL : Z := 22.
Definition EPROTO : Z := 71.
Definition EBADMSG : Z := 74.
Definition ETIMEDOUT : Z := 110.

Definition CR : Z := 13.
Definition LF : Z := 10.
Definition crlf : bytes := [CR; LF].

(** ** Framing a command *)

Fixpoint redis_digits_loop (fuel : nat) (v n : Z) : Z :=
  match fuel with
  | O => n
  | S fuel => if 10 <=? v then redis_digits_loop fuel (v / 10) (n + 1) else n
  end.
Definition redis_digits (v : Z) : Z := redis_digits_loop 20 v 1.

(** An argument is a pointer, with as many bytes as its length says, or NULL. *)
Definition redis_arg : Type := option bytes * Z.

Fixpoint frame_size_loop (args : list redis_arg) (total : Z) : option Z :=
  match args with
  | [] => Some total
  | (p, len) :: args =>
      if bool_decide (p = None) && negb (len =? 0) then None
      else if CWIST_REDIS_TIMED_MAX_FRAME <? len then None
      else
        let part := u64 (1 + redis_digits len + 2 + len + 2) in
        if u64 (CWIST_REDIS_TIMED_MAX_FRAME - total) <? part then None
        else frame_size_loop args (u64 (total + part))
  end.
(** [None] is [-EINVAL]. *)
Definition redis_frame_size (args : list redis_arg) : option Z :=
  let argc := Z.of_nat (length args) in
  if CWIST_REDIS_TIMED_MAX_ARGC <? argc then None
  else frame_size_loop args (1 + redis_digits argc + 2).

(** [snprintf] of a one-byte mark, a [%zu] and CRLF at [off]: what it needs,
    and the buffer if it fits with its NUL. *)
Definition command_header (mark n : Z) : bytes := mark :: dec n ++ crlf.
Definition frame_printf (frame : bytes) (off : nat) (mark n : Z) : option (bytes * nat) :=
  let text := command_header mark n in
  if Z.of_nat (length frame - off) <=? blen text then None
  else Some (blit frame off (text ++ [0]), (off + length text)%nat).

Fixpoint frame_fill_loop (args : list redis_arg) (frame : bytes) (used : nat) : option (bytes * nat) :=
  match args with
  | [] => Some (frame, used)
  | (p, len) :: args =>
      match frame_printf frame used 36 len with
      | None => None
      | Some (frame, used) =>
          let remaining := Z.of_nat (length frame - used) in
          if (remaining <? 3) || (remaining - 3 <? len) || (negb (len =? 0) && bool_decide (p = None)) then None
          else
            let frame := blit frame used (take (Z.to_nat len) (default [] p)) in
            let used := (used + Z.to_nat len)%nat in
            let frame := put frame used CR in
            let frame := put frame (used + 1) LF in
            frame_fill_loop args frame (used + 2)
      end
  end.
(** [frame] is the buffer as allocated, [cap] bytes of it. *)
Definition redis_frame_fill (frame : bytes) (args : list redis_arg) : option bytes :=
  if (blen frame =? 0) || (Z.of_nat (length args) =? 0) then None
  else
    match frame_printf frame 0 42 (Z.of_nat (length args)) with
    | None => None
    | Some (frame, used) =>
        match frame_fill_loop args frame used with
        | None => None
        | Some (frame, used) =>
            if negb (used =? length frame - 1)%nat then None else Some (put frame used 0)
        end
    end.

(** ** Sockets and the clock *)

Inductive recv_outcome := RxData (b : bytes) | RxEof | RxIntr | RxAgain | RxErr.
Inductive send_outcome := TxSent (n : nat) | TxIntr | TxAgain | TxErr.
Inductive poll_outcome := PollReady | PollTimeout | PollIntr | PollErr.

(** The handle ([fd] open or -1, the bytes of [recv_buf]) and what is outside
    of it: what [recv] will return on the socket, what was written to it, the
    sockets that reconnecting would get, the outcomes of [send], [poll] and
    other system calls, the clock with the time that passes before each
    reading, the allocations; and the two counters of [redis_timed_parse].  An
    empty list of incoming data is the end of the stream; other lists that are
    used up are successes. *)
Record redis := MkRedis {
  rd_open : bool; recv_buf : bytes; incoming : list recv_outcome; wire : bytes;
  reconnects : list (list recv_outcome); sends : list send_outcome; polls : list poll_outcome;
  sys : list bool; now : Z; ticks : list Z; mem : oracle; nodes : Z; payload : Z }.
#[export] Instance redis_fields : Fields redis := fun r =>
  MkRedis r.(rd_open) r.(recv_buf) r.(incoming) r.(wire) r.(reconnects) r.(sends) r.(polls) r.(sys) r.(now)
    r.(ticks) r.(mem) r.(nodes) r.(payload).

(** A call returns a value or a (negative) error code. *)
Inductive outcome (A : Type) := Fail (code : Z) | Done (a : A).
#[global] Arguments Fail {A} code.
#[global] Arguments Done {A} a.
Definition RedisM (A : Type) : Type := redis -> outcome A * redis.
#[export] Instance redis_ret : MRet RedisM := fun A a s => (Done a, s).
#[export] Instance redis_bind : MBind RedisM := fun A B k m s =>
  match m s with
  | (Done a, s) => k a s
  | (Fail c, s) => (Fail c, s)
  end.
Definition fail {A} (code : Z) : RedisM A := fun s => (Fail code, s).
Definition get : RedisM redis := fun s => (Done s, s).
Definition modify (f : redis -> redis) : RedisM unit := fun s => (Done tt, f s).
Definition allocate : RedisM unit := fun s =>
  let (ok, o) := alloc s.(mem) in
  (if ok then Done tt else Fail (- ENOMEM), s <| mem := o |>).

Definition redis_now_ns (s : redis) : Z * redis :=
  match s.(ticks) with
  | [] => (s.(now), s)
  | t :: ts => (s.(now) + t, s <| now := s.(now) + t |> <| ticks := ts |>)
  end.
Definition redis_remaining_ms (deadline : Z) (s : redis) : Z * redis :=
  if deadline =? UINT64_MAX then (2147483647, s)
  else
    let (t, s) := redis_now_ns s in
    if deadline <=? t then (0, s)
    else
      let ms := u64 (deadline - t + 999999) / 1000000 in
      (if 2147483647 <? ms then 2147483647 else ms, s).

Definition poll (s : redis) : poll_outcome * redis :=
  match s.(polls) with
  | [] => (PollReady, s)
  | p :: ps => (p, s <| polls := ps |>)
  end.
(** [recv] into [space] bytes. *)
Definition recv (space : nat) (s : redis) : recv_outcome * redis :=
  match s.(incoming) with
  | [] => (RxEof, s)
  | RxData b :: rest =>
      match drop space b with
      | [] => (RxData b, s <| incoming := rest |>)
      | more => (RxData (take space b), s <| incoming := RxData more :: rest |>)
      end
  | e :: rest => (e, s <| incoming := rest |>)
  end.
(** [send] of [b]: at most all of it. *)
Definition send (b : bytes) (s : redis) : send_outcome * redis :=
  match s.(sends) with
  | [] => (TxSent (length b), s <| wire := s.(wire) ++ b |>)
  | TxSent n :: rest => (TxSent (min n (length b)), s <| sends := rest |> <| wire := s.(wire) ++ take n b |>)
  | e :: rest => (e, s <| sends := rest |>)
  end.
Definition syscall (s : redis) : bool * redis :=
  match s.(sys) with
  | [] => (true, s)
  | ok :: rest => (ok, s <| sys := rest |>)
  end.

Section Deadline.
Context (deadline : Z).

Fixpoint redis_wait_loop (fuel : nat) : RedisM unit := fun s =>
  match fuel with
  | O => (Fail (- EIO), s)
  | S fuel =>
      let (ms, s) := redis_remaining_ms deadline s in
      if ms <=? 0 then (Fail (- ETIMEDOUT), s)
      else
        let (p, s) := poll s in
        match p with
        | PollReady => (Done tt, s)
        | PollErr => (Fail (- EIO), s)
        | PollTimeout | PollIntr => redis_wait_loop fuel s
        end
  end.
(** Every round but the last takes an outcome of [polls]. *)
Definition redis_wait_fd : RedisM unit := fun s => redis_wait_loop (S (length s.(polls))) s.

Fixpoint redis_send_loop (fuel : nat) (buf : bytes) : RedisM unit := fun s =>
  match buf with
  | [] => (Done tt, s)
  | _ =>
      match fuel with
      | O => (Fail (- EIO), s)
      | S fuel =>
          let (t, s) := redis_now_ns s in
          if deadline <=? t then (Fail (- ETIMEDOUT), s)
          else
            let (n, s) := send buf s in
            match n with
            | TxSent O => (Fail (- EIO), s)
            | TxSent n => redis_send_loop fuel (drop n buf) s
            | TxIntr => redis_send_loop fuel buf s
            | TxAgain =>
                match redis_wait_fd s with
                | (Fail c, s) => (Fail c, s)
                | (Done _, s) => redis_send_loop fuel buf s
                end
            | TxErr => (Fail (- EIO), s)
            end
      end
  end.
Definition redis_send_deadline (buf : bytes) : RedisM unit := fun s => redis_send_loop (S (length s.(sends))) buf s.

Fixpoint redis_fill_loop (fuel : nat) : RedisM unit := fun s =>
  match fuel with
  | O => (Fail (- EIO), s)
  | S fuel =>
      let (t, s) := redis_now_ns s in
      if deadline <=? t then (Fail (- ETIMEDOUT), s)
      else
        let (e, s) := recv (Z.to_nat CWIST_REDIS_BUF_SIZE - length s.(recv_buf)) s in
        match e with
        | RxData [] | RxEof => (Fail (- EIO), s)
        | RxData b => (Done tt, s <| recv_buf := s.(recv_buf) ++ b |>)
        | RxIntr => redis_fill_loop fuel s
        | RxAgain =>
            match redis_wait_fd s with
            | (Fail c, s) => (Fail c, s)
            | (Done _, s) => redis_fill_loop fuel s
            end
        | RxErr => (Fail (- EIO), s)
        end
  end.
Definition redis_fill_deadline : RedisM unit := fun s =>
  if CWIST_REDIS_BUF_SIZE <=? blen s.(recv_buf) then (Fail (- EPROTO), s)
  else redis_fill_loop (S (length s.(incoming))) s.

Definition redis_consume (n : nat) : RedisM unit := modify (fun s => s <| recv_buf := drop n s.(recv_buf) |>).

(** [memchr] *)
Fixpoint memchr (c : Z) (b : bytes) : option nat :=
  match b with
  | [] => None
  | x :: b => if x =? c then Some O else option_map S (memchr c b)
  end.

Fixpoint redis_peek_loop (fuel scanned : nat) : RedisM nat :=
  match fuel with
  | O => fail (- EPROTO)
  | S fuel =>
      s ← get;
      let buf := s.(recv_buf) in
      match memchr LF (drop scanned buf) with
      | Some nl =>
          let len := (scanned + nl - 1)%nat in
          if (scanned + nl =? 0)%nat || negb (rd buf len =? CR) then fail (- EPROTO)
          else if CWIST_REDIS_LINE_MAX <=? Z.of_nat len then fail (- EPROTO)
          else if bool_decide (memchr CR (take len buf) <> None) then fail (- EPROTO)
          else mret len
      | None =>
          if CWIST_REDIS_LINE_MAX <? blen buf then fail (- EPROTO)
          else redis_fill_deadline ≫= fun _ => redis_peek_loop fuel (length buf)
      end
  end.
(** Every round but the last leaves the buffer a byte longer, and it is at most
    a byte longer than [CWIST_REDIS_LINE_MAX] when another one starts. *)
Definition redis_peek_line : RedisM nat := fun s =>
  redis_peek_loop (2 + Z.to_nat (CWIST_REDIS_LINE_MAX - blen s.(recv_buf))) 0 s.

Fixpoint redis_read_loop (fuel len : nat) (out : bytes) : RedisM bytes :=
  if (length out <? len)%nat then
    match fuel with
    | O => fail (- EIO)
    | S fuel =>
        s ← get;
        (if (length s.(recv_buf) =? 0)%nat then redis_fill_deadline else mret tt) ≫= fun _ =>
        s ← get;
        let n := min (length s.(recv_buf)) (len - length out) in
        redis_consume n ≫= fun _ =>
        redis_read_loop fuel len (out ++ take n s.(recv_buf))
    end
  else mret out.
Definition redis_read_exact (len : nat) : RedisM bytes := redis_read_loop len len [].

(** ** Replies *)

Fixpoint redis_parse_digits (limit v : Z) (s : bytes) : option Z :=
  match s with
  | [] => Some v
  | c :: s =>
      if (c <? 48) || (57 <? c) then None
      else if u64 (limit - (c - 48)) / 10 <? v then None
      else redis_parse_digits limit (u64 (v * 10 + (c - 48))) s
  end.
Definition redis_parse_ll (s : bytes) : option Z :=
  let neg := match s with c :: _ => c =? 45 | [] => false end in
  let s := if neg then drop 1 s else s in
  if bool_decide (s = []) then None
  else
    let limit := if neg then 9223372036854775808 else 9223372036854775807 in
    v ← redis_parse_digits limit 0 s;
    Some (if neg then (if v =? 9223372036854775808 then -9223372036854775808 else - v) else v).

(** [element] is the array of children, each NULL until it is read. *)
Inductive cwist_redis_reply :=
  MkReply (type : Z) (str : option bytes) (len integer : Z) (element : list (option cwist_redis_reply)).
Definition reply_type (r : cwist_redis_reply) : Z := let 'MkReply t _ _ _ _ := r in t.

Definition redis_copy_str (src : bytes) : RedisM bytes := allocate ≫= fun _ => mret src.

Definition count_node : RedisM unit :=
  modify (fun s => s <| nodes := s.(nodes) + 1 |>) ≫= fun _ =>
  s ← get; if CWIST_REDIS_TIMED_MAX_NODES <? s.(nodes) then fail (- EPROTO) else mret tt.
Definition add_payload (n : Z) : RedisM unit := modify (fun s => s <| payload := s.(payload) + n |>).

Definition read_text (type v : Z) (text : bytes) (n : nat) : RedisM cwist_redis_reply :=
  add_payload (blen text) ≫= fun _ =>
  str ← redis_copy_str text;
  redis_consume (n + 2) ≫= fun _ =>
  mret (MkReply type (Some str) (blen text) (if type =? 58 then v else 0) []).

Definition read_bulk (v : Z) (n : nat) : RedisM cwist_redis_reply :=
  redis_consume (n + 2) ≫= fun _ =>
  if v =? -1 then mret (MkReply 36 None 0 (-1) [])
  else
    s ← get;
    if (v <? 0) || (CWIST_REDIS_TIMED_MAX_BULK <? v) || (CWIST_REDIS_TIMED_MAX_PAYLOAD - s.(payload) <? v)
    then fail (- EPROTO)
    else
      add_payload v ≫= fun _ =>
      allocate ≫= fun _ =>
      str ← redis_read_exact (Z.to_nat v);
      end_ ← redis_read_exact 2;
      if negb (rd end_ 0 =? CR) || negb (rd end_ 1 =? LF) then fail (- EPROTO)
      else mret (MkReply 36 (Some str) v v []).

(** [n] elements, in order. *)
Fixpoint read_elements (read : RedisM cwist_redis_reply) (n : nat) : RedisM (list (option cwist_redis_reply)) :=
  match n with
  | O => mret []
  | S n => e ← read; es ← read_elements read n; mret (Some e :: es)
  end.

(** [read] is there while more levels of arrays may still open. *)
Definition read_array (read : option (RedisM cwist_redis_reply)) (v : Z) (n : nat) : RedisM cwist_redis_reply :=
  redis_consume (n + 2) ≫= fun _ =>
  if v =? -1 then mret (MkReply 42 None 0 (-1) [])
  else
    s ← get;
    match read with
    | None => fail (- EPROTO)
    | Some read =>
        if (v <? 0) || (CWIST_REDIS_TIMED_MAX_NODES - s.(nodes) <? v) then fail (- EPROTO)
        else if v =? 0 then mret (MkReply 42 None 0 0 [])
        else
          allocate ≫= fun _ =>
          es ← read_elements read (Z.to_nat v);
          mret (MkReply 42 None 0 v es)
    end.

(** [read] is for the elements of an array. *)
Definition timed_node (read : option (RedisM cwist_redis_reply)) : RedisM cwist_redis_reply :=
  count_node ≫= fun _ =>
  n ← redis_peek_line;
  if (n =? 0)%nat then fail (- EPROTO)
  else
    s ← get;
    let line := take n s.(recv_buf) in
    let type := rd line 0 in
    let text := drop 1 line in
    let number := (type =? 58) || (type =? 36) || (type =? 42) in
    match (if number then redis_parse_ll text else Some 0) with
    | None => fail (- EPROTO)
    | Some v =>
        if negb ((type =? 43) || (type =? 45) || number) then fail (- EPROTO)
        else if CWIST_REDIS_TIMED_MAX_PAYLOAD - s.(payload) <? blen text then fail (- EPROTO)
        else
          allocate ≫= fun _ =>
          if type =? 36 then read_bulk v n
          else if type =? 42 then read_array read v n
          else read_text type v text n
    end.
Fixpoint redis_timed_read (levels : nat) : RedisM cwist_redis_reply :=
  timed_node (match levels with O => None | S levels => Some (redis_timed_read levels) end).

End Deadline.
