(* ===== verification/RedisResp.v ===== *)
(** * What the Redis reply parser accepts

    [resp_at]: the strings that are a RESP2 reply within the limits.  Whatever
    the pieces in which the bytes arrive, the parser returns exactly the reply
    at the front of the stream. *)

From S2P Require Import Prelude.
From S2P Require Import Redis.

(** ** Replies as text *)

Inductive resp :=
  | RText (type : Z) (text : bytes) (v : Z)
  | RBulk (b : bytes)
  | RNull (type : Z)
  | RArray (l : list resp).

Fixpoint reply_of (v : resp) : cwist_redis_reply :=
  match v with
  | RText type text v => MkReply type (Some text) (blen text) (if type =? 58 then v else 0) []
  | RBulk b => MkReply 36 (Some b) (blen b) (blen b) []
  | RNull type => MkReply type None 0 (-1) []
  | RArray l => MkReply 42 None 0 (Z.of_nat (length l)) (map (fun v => Some (reply_of v)) l)
  end.

(** The contents of a line. *)
Definition line_ok (l : bytes) : Prop := Forall (fun c => c <> CR /\ c <> LF) l /\ blen l < CWIST_REDIS_LINE_MAX.

(** [head p type text v p']: a line of [type] and [text] opens a node, which
    stands for the number [v]; [p] counts the nodes and the bytes kept so far. *)
Definition head (p : Z * Z) (type : Z) (text : bytes) (v : Z) (p' : Z * Z) : Prop :=
  p.1 + 1 <= CWIST_REDIS_TIMED_MAX_NODES /\ line_ok (type :: text) /\
  blen text <= CWIST_REDIS_TIMED_MAX_PAYLOAD - p.2 /\
  (type = 43 \/ type = 45 \/ type = 58 \/ type = 36 \/ type = 42) /\
  (if (type =? 58) || (type =? 36) || (type =? 42) then redis_parse_ll text = Some v else v = 0) /\
  p' = (p.1 + 1, p.2).

(** [resp_at d p b v p']: [b] is the reply [v], with at most [d] levels of
    arrays; the counts go from [p] to [p'].  [body_at]: what follows its first
    line.  [resps_at]: several replies. *)
Inductive resp_at : nat -> Z * Z -> bytes -> resp -> Z * Z -> Prop :=
  | AtNode d p type text n p1 tail v p' :
      head p type text n p1 -> body_at d p1 type text n tail v p' ->
      resp_at d p ((type :: text) ++ crlf ++ tail) v p'
with body_at : nat -> Z * Z -> Z -> bytes -> Z -> bytes -> resp -> Z * Z -> Prop :=
  | BodyText d p type text n :
      type <> 36 -> type <> 42 -> body_at d p type text n [] (RText type text n) (p.1, p.2 + blen text)
  | BodyNull d p type text :
      type = 36 \/ type = 42 -> body_at d p type text (-1) [] (RNull type) p
  | BodyBulk d p text b :
      blen b <= CWIST_REDIS_TIMED_MAX_BULK -> blen b <= CWIST_REDIS_TIMED_MAX_PAYLOAD - p.2 ->
      body_at d p 36 text (blen b) (b ++ crlf) (RBulk b) (p.1, p.2 + blen b)
  | BodyArray d p text b l p' :
      Z.of_nat (length l) <= CWIST_REDIS_TIMED_MAX_NODES - p.1 -> resps_at d p b l p' ->
      body_at (S d) p 42 text (Z.of_nat (length l)) b (RArray l) p'
with resps_at : nat -> Z * Z -> bytes -> list resp -> Z * Z -> Prop :=
  | AtNil d p : resps_at d p [] [] p
  | AtCons d p b v p1 bs l p' : resp_at d p b v p1 -> resps_at d p1 bs l p' -> resps_at d p (b ++ bs) (v :: l) p'.

Scheme resp_at_ind2 := Minimality for resp_at Sort Prop
  with body_at_ind2 := Minimality for body_at Sort Prop
  with resps_at_ind2 := Minimality for resps_at Sort Prop.
Combined Scheme resp_at_mut from resp_at_ind2, body_at_ind2, resps_at_ind2.

(** ** The stream of bytes to come *)

Definition rx_bytes (e : recv_outcome) : bytes := match e with RxData b => b | _ => [] end.
Definition stream (s : redis) : bytes := s.(recv_buf) ++ concat (map rx_bytes s.(incoming)).

(** Nothing goes wrong: data, interruptions and waits only, before the
    deadline, with memory. *)
Definition calm_rx (e : recv_outcome) : Prop :=
  match e with RxData [] | RxEof | RxErr => False | _ => True end.
Record calm (deadline : Z) (s : redis) : Prop := {
  calm_in : Forall calm_rx s.(incoming);
  calm_polls : Forall (fun p => p <> PollErr) s.(polls);
  calm_ticks : Forall (fun t => 0 <= t) s.(ticks);
  calm_time : s.(now) + fold_right Z.add 0 s.(ticks) < deadline;
  calm_deadline : deadline < UINT64_MAX - 1000000;
  calm_now : 0 <= s.(now);
  calm_mem : s.(mem) = [] }.

Lemma calm_buf d s b : calm d s -> calm d (s <| recv_buf := b |>).
Proof. intros []. by constructor. Qed.

(** What the reading calls leave alone. *)
Definition same_counts (s s' : redis) : Prop := nodes s' = nodes s /\ payload s' = payload s.

Section Reading.
Context (deadline : Z).

(** An outcome of a call that needs [good] of the stream: an error other than
    a failure from outside means that the stream is not [good]. *)
Definition refuses (s : redis) (c : Z) (good : bytes -> Prop) : Prop :=
  (c = - EPROTO \/ calm deadline s) -> ~ good (stream s).

Lemma now_calm s : calm deadline s ->
  let (t, s') := redis_now_ns s in t < deadline /\ calm deadline s' /\ 0 <= t.
Proof.
  intros [? ? Ht Htime ? ? ?]. unfold redis_now_ns. destruct (ticks s) as [|t ts] eqn:E.
  - cbn in Htime. split; [lia|]. split; [|done]. constructor; try done. all: by rewrite ?E.
  - cbn in Htime. apply list.Forall_cons in Ht as [Ht Hts].
    assert (0 <= fold_right Z.add 0 ts) by (clear -Hts; induction Hts; cbn; lia).
    split; [lia|]. split; [|lia]. constructor; try done. all: cbn; lia.
Qed.
Lemma now_frame s : let (_, s') := redis_now_ns s in
  recv_buf s' = recv_buf s /\ incoming s' = incoming s /\ polls s' = polls s /\ same_counts s s'.
Proof. unfold redis_now_ns. by destruct (ticks s). Qed.

(** A call that waits leaves the bytes alone, and fails only if something went wrong. *)
Definition waits (s : redis) (res : outcome unit * redis) : Prop :=
  match res with
  | (Done _, s') => recv_buf s' = recv_buf s /\ incoming s' = incoming s /\ same_counts s s' /\
      (calm deadline s -> calm deadline s')
  | (Fail c, _) => c <> - EPROTO /\ ~ calm deadline s
  end.

Lemma remaining_spec s : let (ms, s') := redis_remaining_ms deadline s in
  recv_buf s' = recv_buf s /\ incoming s' = incoming s /\ polls s' = polls s /\ same_counts s s' /\
  (calm deadline s -> 0 < ms /\ calm deadline s').
Proof.
  unfold redis_remaining_ms. destruct (deadline =? UINT64_MAX); [by repeat (split; [done|])|].
  pose proof (now_frame s) as Hf. pose proof (now_calm s) as Hc. destruct (redis_now_ns s) as [t s1].
  destruct Hf as (E1 & E2 & E3 & E4). destruct (Z.leb_spec deadline t).
  - repeat (split; [done|]). intros Hs. destruct (Hc Hs). lia.
  - repeat (split; [done|]). intros Hs. destruct (Hc Hs) as (_ & Hs1 & H0). split; [|done].
    pose proof (calm_deadline _ _ Hs). unfold UINT64_MAX in *. rewrite u64_id by (unfold is_u64; lia).
    case_match; zlia.
Qed.

Lemma redis_wait_loop_spec fuel : forall s, (length (polls s) < fuel)%nat -> waits s (redis_wait_loop deadline fuel s).
Proof.
  induction fuel as [|fuel IH]; intros s Hf; [lia|]. cbn [redis_wait_loop].
  pose proof (remaining_spec s) as H. destruct (redis_remaining_ms deadline s) as [ms s1].
  destruct H as (E1 & E2 & E3 & [E4 E5] & Hc). destruct (Z.leb_spec ms 0).
  { split; [done|]. intros Hs. destruct (Hc Hs). lia. }
  unfold poll. rewrite E3. destruct (polls s) as [|p ps] eqn:Ep; [do 3 (split; [done|]); by intros Hs; apply Hc|].
  set (s2 := s1 <| polls := ps |>).
  assert (Hc2 : p <> PollErr -> calm deadline s -> calm deadline s2).
  { intros _ Hs. destruct (Hc Hs) as [_ []]. constructor; try done. unfold s2. cbn. rewrite E3 in calm_polls0.
    by apply list.Forall_cons in calm_polls0 as [_ ?]. }
  assert (Hrec : p <> PollErr -> waits s (redis_wait_loop deadline fuel s2)).
  { intros Hp. pose proof (IH s2 ltac:(cbn in *; lia)) as Hw. specialize (Hc2 Hp). unfold waits in *.
    destruct (redis_wait_loop deadline fuel s2) as [[c|u] s3].
    - destruct Hw as [? Hw]. split; [done|]. intros Hs. by apply Hw, Hc2.
    - destruct Hw as (F1 & F2 & [F3 F4] & F5). split; [by rewrite F1|]. split; [by rewrite F2|].
      split; [split; [by rewrite F3|by rewrite F4]|]. intros Hs. by apply F5, Hc2. }
  destruct p; [|by apply Hrec..|].
  - repeat (split; [done|]). by apply Hc2.
  - split; [done|]. intros []. rewrite Ep in calm_polls0. by apply list.Forall_cons in calm_polls0 as [? _].
Qed.
Lemma redis_wait_spec s : waits s (redis_wait_fd deadline s).
Proof. apply redis_wait_loop_spec. lia. Qed.

(** What arrived is at the end of the buffer. *)
Definition fills (s : redis) (res : outcome unit * redis) : Prop :=
  match res with
  | (Done _, s') => (length (recv_buf s) < length (recv_buf s'))%nat /\
      (exists b, recv_buf s' = recv_buf s ++ b) /\ stream s' = stream s /\ same_counts s s' /\
      (calm deadline s -> calm deadline s')
  | (Fail c, _) => c <> - EPROTO /\ (calm deadline s -> stream s = recv_buf s)
  end.

Lemma redis_fill_loop_spec fuel : forall s, (length (incoming s) < fuel)%nat -> blen (recv_buf s) < CWIST_REDIS_BUF_SIZE ->
  fills s (redis_fill_loop deadline fuel s).
Proof.
  induction fuel as [|fuel IH]; intros s Hf Hroom; [lia|]. cbn [redis_fill_loop].
  pose proof (now_frame s) as H. pose proof (now_calm s) as Hc. destruct (redis_now_ns s) as [t s1].
  destruct H as (E1 & E2 & E3 & [E4 E5]). destruct (Z.leb_spec deadline t).
  { split; [done|]. intros Hs. destruct (Hc Hs). lia. }
  assert (Hc1 : calm deadline s -> calm deadline s1) by (intros Hs; by destruct (Hc Hs) as (_ & ? & _)).
  clear Hc. rewrite E1. unfold recv. rewrite E2. unfold stream in *.
  destruct (incoming s) as [|e es] eqn:Ei.
  { split; [done|]. intros _. unfold stream. rewrite Ei. cbn. apply app_nil_r. }
  assert (Hcons : calm deadline s -> calm_rx e /\ forall e', calm_rx e' -> calm deadline (s1 <| incoming := e' :: es |>) /\
    calm deadline (s1 <| incoming := es |>)).
  { intros Hs. pose proof (calm_in _ _ Hs) as Hin. rewrite Ei in Hin. apply list.Forall_cons in Hin as [He Hes].
    split; [done|]. intros e' He'. destruct (Hc1 Hs). split; constructor; try done. by apply list.Forall_cons. }
  assert (Hrec : forall s2, recv_buf s2 = recv_buf s -> incoming s2 = es -> same_counts s s2 ->
    (calm deadline s -> calm deadline s2) -> rx_bytes e = [] -> fills s (redis_fill_loop deadline fuel s2)).
  { intros s2 F1 F2 [F3 F4] F5 F6. pose proof (IH s2) as Hw. rewrite F1, F2 in Hw. specialize (Hw ltac:(cbn in *; lia) Hroom).
    assert (Es : stream s2 = stream s) by (unfold stream; rewrite F1, F2, Ei; cbn; by rewrite F6).
    unfold fills in *. destruct (redis_fill_loop deadline fuel s2) as [[c|u] s3]; rewrite ?F1, Es in Hw.
    - destruct Hw as [? Hw]. split; [done|]. intros Hs. by apply Hw, F5.
    - destruct Hw as (G1 & G2 & G3 & [G4 G5] & G6). split; [done|]. split; [done|]. split; [done|].
      split; [split; congruence|]. intros Hs. by apply G6, F5. }
  assert (Hbad : ~ calm_rx e -> calm deadline s -> stream s = recv_buf s).
  { intros He Hs. by destruct He, (Hcons Hs). }
  destruct e as [b| | | |].
  - assert (Hspace : (0 < Z.to_nat CWIST_REDIS_BUF_SIZE - length (recv_buf s))%nat).
    { unfold blen in Hroom. apply Nat.lt_add_lt_sub_r. apply Z2Nat.inj_lt in Hroom; [|lia|done].
      by rewrite Nat2Z.id in Hroom. }
    set (space := (Z.to_nat CWIST_REDIS_BUF_SIZE - length (recv_buf s))%nat) in *. clearbody space.
    destruct (drop space b) as [|m more] eqn:Ed.
    + destruct b as [|x b]; [split; [done|apply Hbad; by intros []]|]. cbn [recv_buf incoming set_field].
      unfold fills, stream. cbn [recv_buf incoming set_field]. rewrite E1, Ei, length_app. cbn [length].
      split; [lia|]. split; [by eexists|]. split; [by rewrite <- app_assoc|]. split; [done|].
      intros Hs. destruct (Hcons Hs) as [_ H']. apply calm_buf. by apply (H' RxIntr).
    + assert (Eb : b = take space b ++ m :: more) by (rewrite <- Ed; symmetry; apply take_drop).
      destruct (take space b) as [|x tk] eqn:Et.
      { exfalso. apply (f_equal length) in Et. rewrite length_take in Et. cbn in Et.
        assert (length b <> O) by (apply (f_equal length) in Ed; rewrite length_drop in Ed; cbn in Ed; lia). lia. }
      unfold fills, stream. cbn [recv_buf incoming set_field]. rewrite E1, Ei, length_app. cbn [length].
      split; [lia|]. split; [by eexists|]. split.
      { cbn [map concat rx_bytes]. rewrite Eb, <- !app_assoc. done. }
      split; [done|]. intros Hs. destruct (Hcons Hs) as [_ H']. apply calm_buf. by apply (H' (RxData (m :: more))).
  - split; [done|apply Hbad; by intros []].
  - apply Hrec; [by rewrite <- E1|done|done| |done]. intros Hs. destruct (Hcons Hs) as [_ H']. by apply (H' RxIntr).
  - pose proof (redis_wait_spec (s1 <| incoming := es |>)) as Hw.
    destruct (redis_wait_fd deadline (s1 <| incoming := es |>)) as [[c|u] s2].
    + destruct Hw as [? Hw]. split; [done|]. intros Hs. exfalso. apply Hw. destruct (Hcons Hs) as [_ H']. by apply (H' RxIntr).
    + destruct Hw as (F1 & F2 & [F3 F4] & F5). apply Hrec; [by rewrite F1|done|by split; [rewrite F3|rewrite F4]| |done].
      intros Hs. apply F5. destruct (Hcons Hs) as [_ H']. by apply (H' RxIntr).
  - split; [done|apply Hbad; by intros []].
Qed.
Lemma fill_spec s : blen (recv_buf s) < CWIST_REDIS_BUF_SIZE -> fills s (redis_fill_deadline deadline s).
Proof.
  intros H. unfold redis_fill_deadline. destruct (Z.leb_spec CWIST_REDIS_BUF_SIZE (blen (recv_buf s))); [lia|].
  apply redis_fill_loop_spec; lia.
Qed.

(** ** Lines *)

Lemma memchr_spec c b : match memchr c b with
  | Some i => exists a r, b = a ++ c :: r /\ length a = i /\ Forall (fun x => x <> c) a
  | None => Forall (fun x => x <> c) b
  end.
Proof.
  induction b as [|x b IH]; cbn [memchr]; [constructor|]. destruct (Z.eqb_spec x c) as [->|].
  - exists [], b. by repeat split.
  - destruct (memchr c b) as [i|]; cbn [option_map]; [|by constructor].
    destruct IH as (a & r & -> & <- & Ha). exists (x :: a), r. split; [done|]. split; [done|by constructor].
Qed.

(** The line of a stream is where its first line feed is. *)
Lemma line_at line rest a r : line_ok line -> line ++ crlf ++ rest = a ++ LF :: r -> Forall (fun x => x <> LF) a ->
  a = line ++ [CR] /\ r = rest.
Proof.
  intros [Hl _] E Ha. assert (Hlf : Forall (fun x => x <> LF) (line ++ [CR])).
  { apply list.Forall_app_2; [|by repeat constructor]. eapply list.Forall_impl; [exact Hl|]. by intros x []. }
  change (line ++ crlf ++ rest) with (line ++ [CR] ++ LF :: rest) in E. rewrite app_assoc in E.
  revert E Hlf. generalize (line ++ [CR]). clear -Ha. induction a as [|x a IH]; intros [|y b] E Hb.
  - by injection E as ->.
  - injection E as -> E. by apply list.Forall_cons in Hb as [? _].
  - injection E as <- E. by apply list.Forall_cons in Ha as [? _].
  - injection E as -> E. apply list.Forall_cons in Hb as [_ Hb], Ha as [_ Ha]. by destruct (IH Ha b E Hb) as [-> ->].
Qed.

Definition has_line (b : bytes) : Prop := exists line rest, line_ok line /\ b = line ++ crlf ++ rest.

(** A line at the front of the buffer, or no line at the front of the stream. *)
Definition peeks (s : redis) (res : outcome nat * redis) : Prop :=
  match res with
  | (Done n, s') => exists line rest, n = length line /\ line_ok line /\ recv_buf s' = line ++ crlf ++ rest /\
      stream s' = stream s /\ same_counts s s' /\ (calm deadline s -> calm deadline s')
  | (Fail c, _) => refuses s c has_line
  end.

Lemma no_line_yet b : Forall (fun x => x <> LF) b -> ~ has_line b.
Proof.
  intros Hb (line & rest & _ & ->). apply list.Forall_app in Hb as [_ Hb].
  apply list.Forall_app in Hb as [Hb _]. by repeat (apply list.Forall_cons in Hb as [? Hb]).
Qed.
Lemma long_no_line b more : Forall (fun x => x <> LF) b -> CWIST_REDIS_LINE_MAX < blen b -> ~ has_line (b ++ more).
Proof.
  intros Hb Hlen (line & rest & [_ Hl] & E).
  assert (Hlf : (b ++ more) !! (length line + 1)%nat = Some LF).
  { rewrite E, lookup_app_r by lia. by replace (length line + 1 - length line)%nat with 1%nat by lia. }
  unfold blen in *. rewrite lookup_app_l in Hlf by lia. eapply list.Forall_lookup_1 in Hb; [|exact Hlf]. done.
Qed.
Lemma memchr_none c b : memchr c b = None <-> Forall (fun x => x <> c) b.
Proof.
  pose proof (memchr_spec c b) as H. destruct (memchr c b) as [i|]; [|done]. split; [done|]. intros Hb.
  destruct H as (a & r & -> & _). apply list.Forall_app in Hb as [_ Hb]. by apply list.Forall_cons in Hb as [? _].
Qed.

(** The tests on the bytes up to the first line feed. *)
Lemma line_tests A r more :
  let buf := A ++ LF :: r in let len := (length A - 1)%nat in
  Forall (fun x => x <> LF) A ->
  if (length A =? 0)%nat || negb (rd buf len =? CR) || (CWIST_REDIS_LINE_MAX <=? Z.of_nat len) ||
     bool_decide (memchr CR (take len buf) <> None)
  then ~ has_line (buf ++ more)
  else exists line, len = length line /\ line_ok line /\ buf = line ++ crlf ++ r.
Proof.
  intros buf len HA. destruct (_ || _ || _ || _) eqn:E.
  - intros (line & rest & Hl & Eb). unfold buf in Eb. rewrite <- app_assoc in Eb. cbn [app] in Eb.
    destruct (line_at line rest A (r ++ more) Hl (eq_sym Eb) HA) as [-> _].
    assert (Elen : len = length line) by (unfold len; rewrite length_app; cbn; lia).
    assert (Etk : take len buf = line) by (unfold buf; rewrite Elen, <- app_assoc; apply take_app_length).
    assert (Erd : rd buf len = CR).
    { unfold buf. rewrite Elen, <- app_assoc, rd_app_r, Nat.sub_diag by lia. done. }
    rewrite Etk, Erd, Elen, length_app in E. cbn [length] in E. destruct Hl as [Hl Hmax]. unfold blen in Hmax.
    replace (memchr CR line) with (@None nat) in E.
    { rewrite bool_decide_false in E by (intros H; by apply H).
      by rewrite Z.eqb_refl, (proj2 (Z.leb_gt _ _) Hmax), Nat.add_1_r in E. }
    symmetry. apply memchr_none. eapply list.Forall_impl; [exact Hl|]. by intros x [].
  - apply orb_false_iff in E as [E E4]. apply orb_false_iff in E as [E E3]. apply orb_false_iff in E as [E1 E2].
    apply bool_decide_eq_false, dec_stable in E4. apply memchr_none in E4.
    assert (HA0 : (0 < length A)%nat) by (apply Nat.eqb_neq in E1; lia).
    assert (EA : A = take len A ++ [CR]).
    { rewrite <- (take_drop len A) at 1. f_equal. assert (Hd : length (drop len A) = 1%nat) by (rewrite length_drop; lia).
      destruct (drop len A) as [|x [|]] eqn:Ed; [done| |done]. f_equal.
      apply negb_false_iff, Z.eqb_eq in E2. unfold buf in E2. rewrite rd_app_l in E2 by lia.
      rewrite <- (Nat.add_0_r len), <- rd_drop, Ed in E2. exact E2. }
    assert (Elen : length (take len A) = len) by (rewrite length_take; lia).
    unfold buf in E4. rewrite take_app_le in E4 by lia.
    exists (take len A). split; [done|]. split.
    + split; [|unfold blen; lia]. apply list.Forall_and. split; [done|]. by apply list.Forall_take.
    + unfold buf. rewrite EA at 1. by rewrite <- app_assoc.
Qed.

Lemma redis_peek_loop_spec fuel : forall scanned s,
  (Z.to_nat (CWIST_REDIS_LINE_MAX + 1 - blen (recv_buf s)) < fuel)%nat ->
  Forall (fun x => x <> LF) (take scanned (recv_buf s)) -> peeks s (redis_peek_loop deadline fuel scanned s).
Proof.
  induction fuel as [|fuel IH]; intros scanned s Hf Hscan; [lia|].
  cbn [redis_peek_loop]. unfold mbind, redis_bind at 1, get. cbv beta iota zeta.
  pose proof (memchr_spec LF (drop scanned (recv_buf s))) as Hm.
  destruct (memchr LF (drop scanned (recv_buf s))) as [nl|].
  - destruct Hm as (a & r & Ed & Hnl & Ha). set (A := take scanned (recv_buf s) ++ a).
    assert (Eb : recv_buf s = A ++ LF :: r) by (unfold A; by rewrite <- app_assoc, <- Ed, take_drop).
    assert (HlA : length A = (scanned + nl)%nat).
    { unfold A. rewrite length_app, length_take, Hnl. apply (f_equal length) in Ed. rewrite length_drop, length_app in Ed.
      cbn in Ed. lia. }
    pose proof (line_tests A r (concat (map rx_bytes (incoming s))) ltac:(by apply list.Forall_app_2)) as Ht. cbv zeta in Ht.
    rewrite HlA, <- Eb in Ht. fold (stream s) in Ht.
    destruct (_ || negb _); cbn [orb] in Ht; [by intros _|]. destruct (_ <=? _); cbn [orb] in Ht; [by intros _|].
    destruct (bool_decide _); cbn [orb] in Ht; [by intros _|]. destruct Ht as (line & El & Hl & Eb2).
    exists line, r. split; [done|]. split; [done|]. split; [done|]. by split.
  - assert (Hno : Forall (fun x => x <> LF) (recv_buf s)).
    { rewrite <- (take_drop scanned (recv_buf s)). by apply list.Forall_app_2. }
    destruct (Z.ltb_spec CWIST_REDIS_LINE_MAX (blen (recv_buf s))) as [Hlong|Hshort].
    { intros _. by apply long_no_line. }
    pose proof (fill_spec s ltac:(change CWIST_REDIS_BUF_SIZE with 65536; change CWIST_REDIS_LINE_MAX with 8192 in Hshort; lia)) as Hfill.
    unfold mbind, redis_bind. destruct (redis_fill_deadline deadline s) as [[c|u] s1].
    + destruct Hfill as [Hc Hend]. intros [->|Hs]; [done|]. rewrite (Hend Hs). by apply no_line_yet.
    + destruct Hfill as (Hlen & [b Eb] & Est & [Hn Hp] & Hcalm).
      pose proof (IH (length (recv_buf s)) s1) as Hr. rewrite Eb, take_app_length in Hr.
      specialize (Hr ltac:(rewrite <- Eb; unfold blen in *; lia) Hno).
      unfold peeks, refuses in *. rewrite Est in Hr.
      destruct (redis_peek_loop deadline fuel (length (recv_buf s)) s1) as [[c|n] s2].
      * intros [->|Hs]; apply Hr; [by left|right; by apply Hcalm].
      * destruct Hr as (line & rest & E1 & E2 & E3 & E4 & [E5 E6] & E7). exists line, rest.
        split; [done|]. split; [done|]. split; [done|]. split; [done|]. split; [split; congruence|tauto].
Qed.
Lemma peek_spec s : peeks s (redis_peek_line deadline s).
Proof. apply redis_peek_loop_spec; [lia|]. by rewrite take_0. Qed.

(** ** Payloads *)

Definition reads (len : nat) (s : redis) (res : outcome bytes * redis) : Prop :=
  match res with
  | (Done b, s') => length b = len /\ stream s = b ++ stream s' /\ same_counts s s' /\ (calm deadline s -> calm deadline s')
  | (Fail c, _) => c <> - EPROTO /\ (calm deadline s -> (length (stream s) < len)%nat)
  end.

Lemma redis_read_loop_spec fuel : forall len out s, (len <= length out + fuel)%nat -> (length out <= len)%nat ->
  match redis_read_loop deadline fuel len out s with
  | (Done b, s') => length b = len /\ out ++ stream s = b ++ stream s' /\ same_counts s s' /\ (calm deadline s -> calm deadline s')
  | (Fail c, _) => c <> - EPROTO /\ (calm deadline s -> (length out + length (stream s) < len)%nat)
  end.
Proof.
  induction fuel as [|fuel IH]; intros len out s Hf Hout; cbn [redis_read_loop].
  { destruct (Nat.ltb_spec (length out) len); [lia|]. split; [lia|]. by split. }
  destruct (Nat.ltb_spec (length out) len) as [Hlt|]; [|split; [lia|]; by split].
  unfold mbind, redis_bind, get, redis_consume, modify. cbv beta iota zeta.
  assert (Hgo : forall s1, stream s1 = stream s -> same_counts s s1 -> (calm deadline s -> calm deadline s1) ->
    (length (recv_buf s1) =? 0)%nat = false ->
    let n := min (length (recv_buf s1)) (len - length out) in
    match redis_read_loop deadline fuel len (out ++ take n (recv_buf s1)) (s1 <| recv_buf := drop n (recv_buf s1) |>) with
    | (Done b, s') => length b = len /\ out ++ stream s = b ++ stream s' /\ same_counts s s' /\ (calm deadline s -> calm deadline s')
    | (Fail c, _) => c <> - EPROTO /\ (calm deadline s -> (length out + length (stream s) < len)%nat)
    end).
  { intros s1 Est [Hn Hp] Hcalm Hne n. set (s2 := s1 <| recv_buf := drop n (recv_buf s1) |>).
    assert (Es2 : stream s = take n (recv_buf s1) ++ stream s2).
    { rewrite <- Est. unfold stream, s2. cbn [recv_buf incoming set_field]. by rewrite app_assoc, take_drop. }
    apply Nat.eqb_neq in Hne.
    pose proof (IH len (out ++ take n (recv_buf s1)) s2) as Hr. rewrite length_app, length_take in Hr.
    specialize (Hr ltac:(lia) ltac:(lia)). rewrite Es2.
    assert (Hc2 : calm deadline s -> calm deadline s2) by (intros Hs; by apply calm_buf, Hcalm).
    destruct (redis_read_loop deadline fuel len _ s2) as [[c|b] s3].
    - destruct Hr as [? Hr]. split; [done|]. intros Hs. rewrite length_app, length_take. specialize (Hr (Hc2 Hs)). lia.
    - destruct Hr as (E1 & E2 & [E3 E4] & E5). split; [done|]. split; [by rewrite app_assoc|].
      split; [split; [rewrite E3; exact Hn|rewrite E4; exact Hp]|tauto]. }
  destruct (length (recv_buf s) =? 0)%nat eqn:E0; [|by apply Hgo].
  apply Nat.eqb_eq in E0. pose proof (fill_spec s ltac:(unfold blen; rewrite E0; done)) as Hfill.
  destruct (redis_fill_deadline deadline s) as [[c|u] s1].
  - destruct Hfill as [? Hend]. split; [done|]. intros Hs. rewrite (Hend Hs), E0. lia.
  - destruct Hfill as (Hlen & _ & Est & Hcounts & Hcalm). apply Hgo; [done|done|done|]. apply Nat.eqb_neq. lia.
Qed.
Lemma read_spec len s : reads len s (redis_read_exact deadline len s).
Proof. apply (redis_read_loop_spec len len [] s); cbn; lia. Qed.
End Reading.
