(* ===== verification/RedisTimed.v ===== *)
(** * The strict reply parser

    It returns the reply at the front of the stream whatever the segments, and
    a protocol error exactly when there is none. *)

From S2P Require Import Prelude.
From S2P Require Import Redis RedisResp.

(** ** A stream starts with one reply *)

Lemma line_unique l1 l2 r1 r2 : line_ok l1 -> line_ok l2 -> l1 ++ crlf ++ r1 = l2 ++ crlf ++ r2 -> l1 = l2 /\ r1 = r2.
Proof.
  intros H1 H2 E. assert (Hlf : Forall (fun x => x <> LF) (l2 ++ [CR])).
  { apply list.Forall_app_2; [|by repeat constructor]. eapply list.Forall_impl; [exact (proj1 H2)|]. by intros x []. }
  change (l2 ++ crlf ++ r2) with (l2 ++ [CR] ++ LF :: r2) in E. rewrite (app_assoc l2) in E.
  destruct (line_at l1 r1 (l2 ++ [CR]) r2 H1 E Hlf) as [E1 E2]. by apply app_inj_tail in E1 as [-> _].
Qed.

Lemma head_det p t1 x1 n1 q1 t2 x2 n2 q2 r1 r2 : head p t1 x1 n1 q1 -> head p t2 x2 n2 q2 ->
  (t1 :: x1) ++ crlf ++ r1 = (t2 :: x2) ++ crlf ++ r2 -> t1 = t2 /\ x1 = x2 /\ n1 = n2 /\ q1 = q2 /\ r1 = r2.
Proof.
  intros (_ & H1 & _ & _ & H2 & ->) (_ & H3 & _ & _ & H4 & ->) E. apply line_unique in E as [[= -> ->] ->]; [|done..].
  split; [done|]. split; [done|]. split; [|done]. destruct (_ || _); [congruence|by rewrite H2, H4].
Qed.

Lemma app_same_length {A} (a b r1 r2 : list A) : a ++ r1 = b ++ r2 -> length a = length b -> a = b /\ r1 = r2.
Proof. intros E H. by apply app_inj_1. Qed.

Lemma resp_det :
  (forall d p b v p', resp_at d p b v p' -> forall b2 v2 p2 r r2, resp_at d p b2 v2 p2 -> b ++ r = b2 ++ r2 ->
     b = b2 /\ v = v2 /\ p' = p2 /\ r = r2) /\
  (forall d p t x n b v p', body_at d p t x n b v p' -> forall b2 v2 p2 r r2, body_at d p t x n b2 v2 p2 ->
     b ++ r = b2 ++ r2 -> b = b2 /\ v = v2 /\ p' = p2 /\ r = r2) /\
  (forall d p b l p', resps_at d p b l p' -> forall b2 l2 p2 r r2, resps_at d p b2 l2 p2 -> length l = length l2 ->
     b ++ r = b2 ++ r2 -> b = b2 /\ l = l2 /\ p' = p2 /\ r = r2).
Proof.
  apply resp_at_mut.
  - intros d p t x n p1 tail v p' Hh _ IH b2 v2 p2 r r2 H2 E. destruct H2 as [d p t2 x2 n2 q1 tail2 v2 p2 Hh2 H2].
    rewrite <- !app_assoc in E. destruct (head_det _ _ _ _ _ _ _ _ _ _ _ Hh Hh2 E) as (-> & -> & -> & -> & E2).
    by destruct (IH _ _ _ _ _ H2 E2) as (-> & -> & -> & ->).
  - intros d p t x n H1 H2 b2 v2 p2 r r2 H E. inversion H; subst; try done. by destruct_or?.
  - intros d p t x Ht b2 v2 p2 r r2 H E. inversion H; subst; try done; [by destruct_or?|..].
    all: try (pose proof (blen_nonneg b); lia). lia.
  - intros d p x b Hb1 Hb2 b2 v2 p2 r r2 H E. inversion H; subst; try done.
    { pose proof (blen_nonneg b). lia. }
    rewrite <- !app_assoc in E. apply app_same_length in E as [-> E]; [|unfold blen in *; lia].
    apply app_inv_head in E. by subst.
  - intros d p x b l p' Hl _ IH b2 v2 p2 r r2 H E. inversion H as [|? ? ? ? ?| |? ? ? ? l2]; subst; try done; [lia|].
    destruct (IH _ _ _ _ _ ltac:(eassumption) ltac:(lia) E) as (-> & -> & -> & ->). done.
  - intros d p b2 l2 p2 r r2 H Hl E. inversion H; subst; [done|]. done.
  - intros d p b v p1 bs l p' _ IH1 _ IH2 b2 l2 p2 r r2 H Hl E. inversion H as [|? ? b' v' q1 bs' l' q' Hr Hrs]; subst; [done|].
    rewrite <- !app_assoc in E. destruct (IH1 _ _ _ _ _ Hr E) as (-> & -> & -> & E2).
    cbn in Hl. destruct (IH2 _ _ _ _ _ Hrs ltac:(lia) E2) as (-> & -> & -> & ->). done.
Qed.

(** ** The parser, part by part *)

Definition counts (s : redis) : Z * Z := (nodes s, payload s).

Section Parsing.
Context (deadline : Z).
Abbreviation calm := (calm deadline).

(** [parses R f s res]: a call made at [s] consumed what [R] says and returned
    it, or nothing that [R] allows is at the front of the stream. *)
Definition parses {V A} (R : Z * Z -> bytes -> V -> Z * Z -> Prop) (f : V -> A) (s : redis) (res : outcome A * redis) : Prop :=
  match res with
  | (Done t, s') => exists b v, R (counts s) b v (counts s') /\ t = f v /\ stream s = b ++ stream s' /\ (calm s -> calm s')
  | (Fail c, _) => c = - EPROTO \/ calm s -> forall b v p' r, R (counts s) b v p' -> stream s <> b ++ r
  end.

Lemma allocate_spec s : waits deadline s (allocate s).
Proof.
  unfold allocate, alloc. destruct (mem s) as [|[] o] eqn:E; cbn.
  - split; [done|]. split; [done|]. split; [done|]. intros []. by constructor.
  - split; [done|]. split; [done|]. split; [done|]. intros []. congruence.
  - split; [done|]. intros []. congruence.
Qed.

Lemma calm_counts s n p : calm s -> calm (s <| nodes := n |> <| payload := p |>).
Proof. intros []. by constructor. Qed.

(** A call that leaves the bytes alone, before one that parses. *)
Lemma waits_parses {V A} (R : Z * Z -> bytes -> V -> Z * Z -> Prop) (f : V -> A) s
  (m : RedisM unit) (k : unit -> RedisM A) :
  waits deadline s (m s) -> (forall s1, recv_buf s1 = recv_buf s -> incoming s1 = incoming s -> counts s1 = counts s ->
    parses R f s1 (k tt s1)) -> parses R f s ((m ≫= k) s).
Proof.
  intros Hm Hk. unfold mbind, redis_bind. unfold waits in Hm. destruct (m s) as [[c|[]] s1].
  - destruct Hm as [Hc Hs]. by intros [->|?].
  - destruct Hm as (E1 & E2 & [E3 E4] & Hcalm). specialize (Hk s1 E1 E2 ltac:(unfold counts; congruence)).
    assert (Est : stream s1 = stream s) by (unfold stream; congruence).
    assert (Ec : counts s1 = counts s) by (unfold counts; congruence).
    unfold parses in *. rewrite Est, Ec in Hk. destruct (k tt s1) as [[c|t] s2].
    + intros [->|Hs]; apply Hk; [by left|right; by apply Hcalm].
    + destruct Hk as (b & v & H1 & H2 & H3 & H4). exists b, v. split; [done|]. split; [done|]. split; [done|tauto].
Qed.

(** Changes of the counts and of the buffer that are no calls. *)
Lemma parses_modify {V A} (R R' : Z * Z -> bytes -> V -> Z * Z -> Prop) (f : V -> A) s g pre (k : unit -> RedisM A) :
  (calm s -> calm (g s)) -> stream s = pre ++ stream (g s) ->
  (forall b v p', R (counts s) b v p' <-> exists b', b = pre ++ b' /\ R' (counts (g s)) b' v p') ->
  parses R' f (g s) (k tt (g s)) -> parses R f s ((modify g ≫= k) s).
Proof.
  intros Hcalm Est HR Hk. unfold mbind, redis_bind, modify. unfold parses in *. destruct (k tt (g s)) as [[c|t] s2].
  - intros Hc b v p' r Hb E. apply HR in Hb as (b' & -> & Hb). rewrite Est, <- app_assoc in E. apply app_inv_head in E.
    revert E. apply (Hk ltac:(tauto) _ _ _ _ Hb).
  - destruct Hk as (b & v & H1 & H2 & H3 & H4). exists (pre ++ b), v. split; [apply HR; by exists b|].
    split; [done|]. split; [by rewrite Est, H3, app_assoc|tauto].
Qed.

Lemma parses_fail {V A} (R : Z * Z -> bytes -> V -> Z * Z -> Prop) (f : V -> A) s c :
  (forall b v p' r, R (counts s) b v p' -> stream s <> b ++ r) -> parses R f s (fail c s).
Proof. intros H _. exact H. Qed.

Lemma parses_ret {V A} (R : Z * Z -> bytes -> V -> Z * Z -> Prop) (f : V -> A) s v :
  R (counts s) [] v (counts s) -> parses R f s (mret (M := RedisM) (f v) s).
Proof. intros H. by exists [], v. Qed.

(** One parser after another. *)
Definition prefix_det {V} (R : Z * Z -> bytes -> V -> Z * Z -> Prop) : Prop := forall p b1 v1 p1 b2 v2 p2 r1 r2,
  R p b1 v1 p1 -> R p b2 v2 p2 -> b1 ++ r1 = b2 ++ r2 -> b1 = b2 /\ v1 = v2 /\ p1 = p2 /\ r1 = r2.

Lemma parses_bind {V1 V A1 A} R1 (f1 : V1 -> A1) R2 (R : Z * Z -> bytes -> V -> Z * Z -> Prop) (f : V -> A) s
  (m : RedisM A1) (k : A1 -> RedisM A) :
  prefix_det R1 ->
  (forall b v p', R (counts s) b v p' <-> exists b1 v1 p1 b2, b = b1 ++ b2 /\ R1 (counts s) b1 v1 p1 /\ R2 v1 p1 b2 v p') ->
  parses R1 f1 s (m s) ->
  (forall s1 v1, (exists p b p', R1 p b v1 p') -> parses (R2 v1) f s1 (k (f1 v1) s1)) ->
  parses R f s ((m ≫= k) s).
Proof.
  intros Hdet HR Hm Hk. unfold mbind, redis_bind. unfold parses in Hm. destruct (m s) as [[c|t1] s1].
  - intros Hc b v p' r Hb E. apply HR in Hb as (b1 & v1 & p1 & b2 & -> & H1 & _). rewrite <- app_assoc in E.
    revert E. by apply (Hm Hc _ _ _ _ H1).
  - destruct Hm as (b1 & v1 & H1 & -> & Est & Hcalm). specialize (Hk s1 v1 ltac:(by exists (counts s), b1, (counts s1))). unfold parses in *.
    destruct (k (f1 v1) s1) as [[c|t] s2].
    + intros Hc b v p' r Hb E. apply HR in Hb as (b1' & v1' & p1' & b2 & -> & H1' & H2).
      rewrite Est, <- app_assoc in E. destruct (Hdet _ _ _ _ _ _ _ _ _ H1 H1' E) as (-> & -> & <- & E2).
      revert E2. apply (Hk ltac:(tauto) _ _ _ _ H2).
    + destruct Hk as (b2 & v & H2 & H3 & H4 & H5). exists (b1 ++ b2), v. split; [apply HR; by exists b1, v1, (counts s1), b2|].
      split; [done|]. split; [by rewrite Est, H4, app_assoc|tauto].
Qed.

(** [len] bytes as they are. *)
Definition exactly (len : nat) (p : Z * Z) (b v : bytes) (p' : Z * Z) : Prop := b = v /\ length v = len /\ p' = p.
Lemma exactly_det len : prefix_det (exactly len).
Proof.
  intros p b1 v1 p1 b2 v2 p2 r1 r2 (-> & H1 & ->) (-> & H2 & ->) E.
  by apply app_same_length in E as [-> ->]; [|congruence].
Qed.
Lemma parses_exactly len s : parses (exactly len) id s (redis_read_exact deadline len s).
Proof.
  pose proof (read_spec deadline len s) as H. unfold reads in H. destruct (redis_read_exact deadline len s) as [[c|b] s'].
  - destruct H as [Hc Hs]. intros [->|Hcalm]; [done|]. intros b v p' r (-> & Hl & _) E. specialize (Hs Hcalm).
    rewrite E, length_app in Hs. lia.
  - destruct H as (H1 & H2 & [H3 H4] & H5). exists b, b. split; [split; [done|split; [done|]]|by split].
    unfold counts. congruence.
Qed.

Lemma copy_bind {A} src (k : bytes -> RedisM A) s : (redis_copy_str src ≫= k) s = (allocate ≫= fun _ => k src) s.
Proof. unfold redis_copy_str, mbind, redis_bind. by destruct (allocate s) as [[c|[]] s1]. Qed.

(** *** What follows the first line *)

(** The parts of a reply behind a line that the buffer starts with. *)
Definition body_line (d : nat) (type : Z) (text : bytes) (n : Z) (p : Z * Z) (b : bytes) (v : resp) (p' : Z * Z) : Prop :=
  exists tail, b = (type :: text) ++ crlf ++ tail /\ body_at d p type text n tail v p'.
Definition at_line (s : redis) (line : bytes) : Prop := exists rest, recv_buf s = line ++ crlf ++ rest.

Lemma consume_line {V A} (R R' : Z * Z -> bytes -> V -> Z * Z -> Prop) (f : V -> A) s line (k : unit -> RedisM A) :
  at_line s line ->
  (forall b v p', R (counts s) b v p' <-> exists b', b = (line ++ crlf) ++ b' /\ R' (counts s) b' v p') ->
  (forall s1, counts s1 = counts s -> parses R' f s1 (k tt s1)) ->
  parses R f s ((redis_consume (length line + 2) ≫= k) s).
Proof.
  intros [rest Eb] HR Hk. unfold redis_consume.
  assert (Ed : drop (length line + 2) (recv_buf s) = rest).
  { rewrite Eb, app_assoc. apply drop_app_length'. by rewrite length_app. }
  apply parses_modify with (pre := line ++ crlf) (R' := R'); [apply calm_buf| |exact HR|by apply Hk].
  unfold stream. cbn [recv_buf incoming set_field]. by rewrite Ed, Eb, <- !app_assoc.
Qed.

Lemma body_line_split d type text n c b v p' :
  body_line d type text n c b v p' <-> exists b', b = ((type :: text) ++ crlf) ++ b' /\ body_at d c type text n b' v p'.
Proof. unfold body_line. split; intros (tail & -> & Hb); exists tail; by rewrite <- app_assoc. Qed.

Lemma body_inv_text d p type text n tail v p' : type <> 36 -> type <> 42 ->
  body_at d p type text n tail v p' <-> tail = [] /\ v = RText type text n /\ p' = (p.1, p.2 + blen text).
Proof.
  intros H1 H2. split.
  - intros H. inversion H; subst; try done. by destruct_or?.
  - intros (-> & -> & ->). by constructor.
Qed.

Lemma parses_text d type text n s : at_line s (type :: text) -> type <> 36 -> type <> 42 ->
  parses (body_line d type text n) reply_of s (read_text type n text (length (type :: text)) s).
Proof.
  intros [rest Eb] H1 H2. unfold read_text, add_payload.
  apply parses_modify with (pre := []) (R' := fun p b v p' => b = (type :: text) ++ crlf /\ v = RText type text n /\ p' = p);
    [intros H; by apply (calm_counts _ (nodes s))|done| |].
  { intros b v p'. cbn [app]. unfold body_line. split.
    - intros (tail & -> & Hb). apply body_inv_text in Hb as (-> & -> & ->); [|done..]. by eexists.
    - intros (b' & -> & -> & -> & ->). exists []. split; [done|]. by apply body_inv_text. }
  set (s1 := s <| payload := _ |>).
  rewrite copy_bind. apply waits_parses; [apply allocate_spec|]. intros s2 E2 _ Ec2.
  eapply (consume_line _ (fun p b v p' => b = [] /\ v = RText type text n /\ p' = p)).
  - exists rest. by rewrite E2.
  - intros b v p'. rewrite Ec2. split.
    + intros (-> & -> & ->). exists []. by rewrite app_nil_r.
    + intros (b' & -> & -> & -> & ->). by rewrite app_nil_r.
  - intros s3 E3. apply (parses_ret _ reply_of s3 (RText type text n)). by rewrite E3, Ec2.
Qed.

Lemma body_inv_null d p type text tail v p' : type = 36 \/ type = 42 ->
  body_at d p type text (-1) tail v p' <-> tail = [] /\ v = RNull type /\ p' = p.
Proof.
  intros Ht. split.
  - intros H. inversion H; subst; try done; [by destruct_or?| |lia].
    pose proof (blen_nonneg b). lia.
  - intros (-> & -> & ->). by constructor.
Qed.
Lemma parses_null d type text s1 s : type = 36 \/ type = 42 -> counts s1 = counts s ->
  parses (fun p b v p' => body_at d (counts s) type text (-1) b v p') reply_of s1 (mret (M := RedisM) (MkReply type None 0 (-1) []) s1).
Proof.
  intros Ht Ec. apply (parses_ret _ reply_of s1 (RNull type)). apply body_inv_null; [done|]. by rewrite Ec.
Qed.

Lemma body_inv_bulk d p text n tail v p' : n <> -1 ->
  body_at d p 36 text n tail v p' <->
  exists b, tail = b ++ crlf /\ v = RBulk b /\ blen b = n /\ n <= CWIST_REDIS_TIMED_MAX_BULK /\
    n <= CWIST_REDIS_TIMED_MAX_PAYLOAD - p.2 /\ p' = (p.1, p.2 + n).
Proof.
  intros Hn. split.
  - intros H. inversion H; subst; try done. by exists b.
  - intros (b & -> & -> & <- & H1 & H2 & ->). by constructor.
Qed.

Lemma parses_bulk d text n s : at_line s (36 :: text) ->
  parses (body_line d 36 text n) reply_of s (read_bulk deadline n (length (36 :: text)) s).
Proof.
  intros Hline. unfold read_bulk.
  apply (consume_line _ (fun p b v p' => body_at d (counts s) 36 text n b v p')); [done|apply body_line_split|].
  intros s1 Ec. destruct (Z.eqb_spec n (-1)) as [->|Hn]; [apply parses_null; [by left|done]|].
  unfold mbind at 1, redis_bind at 1, get. cbv beta iota.
  destruct ((n <? 0) || _ || _) eqn:Eb.
  { apply parses_fail. intros b v p' r Hb. apply body_inv_bulk in Hb as (b' & _ & _ & Hl & H1 & H2 & _); [|done].
    pose proof (blen_nonneg b'). injection Ec as _ Ep. cbn [snd counts] in H2. unfold counts in *. cbn [snd] in H2. lia. }
  assert (Hn0 : 0 <= n /\ n <= CWIST_REDIS_TIMED_MAX_BULK /\ n <= CWIST_REDIS_TIMED_MAX_PAYLOAD - (counts s).2).
  { injection Ec as _ Ep. cbn [snd counts]. unfold counts. cbn [snd]. lia. }
  apply (parses_modify _ (fun p b v p' => p' = p /\ exists b0, b = b0 ++ crlf /\ v = RBulk b0 /\ blen b0 = n)) with (pre := []);
    [intros H; by apply (calm_counts _ (nodes s1))|done| |].
  { intros b v p'. cbn [app]. rewrite body_inv_bulk by done. unfold counts at 4. cbn [nodes payload set_field].
    injection Ec as En Ep. rewrite En, Ep. split.
    - intros (b0 & -> & -> & Hl & _ & _ & ->). eexists. split; [done|]. split; [done|]. by exists b0.
    - intros (b' & -> & -> & b0 & -> & -> & Hl). exists b0. tauto. }
  set (s2 := s1 <| payload := _ |>). clearbody s2. clear Eb Hline Ec s1.
  apply waits_parses; [apply allocate_spec|]. intros s3 _ _ _. clear s2.
  eapply (parses_bind (exactly (Z.to_nat n)) id (fun b0 p b v p' => b = crlf /\ v = RBulk b0 /\ p' = p));
    [apply exactly_det| |apply parses_exactly|].
  { intros b v p'. split.
    - intros (-> & b0 & -> & -> & Hl). exists b0, b0, (counts s3), crlf. split; [done|]. split; [|done].
      split; [done|]. split; [|done]. unfold blen in Hl. lia.
    - intros (b1 & b0 & p1 & b2 & -> & (-> & Hl & ->) & -> & -> & ->). split; [done|]. exists b0. split; [done|]. split; [done|].
      unfold blen. lia. }
  intros s4 b0 (_ & _ & _ & _ & Hl & _). unfold id at 1. assert (Hb0 : blen b0 = n) by (unfold blen; lia).
  eapply (parses_bind (exactly 2) id (fun e p b v p' => b = [] /\ e = crlf /\ v = RBulk b0 /\ p' = p));
    [apply exactly_det| |apply parses_exactly|].
  { intros b v p'. split.
    - intros (-> & -> & ->). by exists crlf, crlf, (counts s4), [].
    - intros (b1 & e & p1 & b2 & -> & (-> & _ & ->) & -> & -> & -> & ->). by rewrite app_nil_r. }
  intros s5 e (_ & _ & _ & _ & He & _). destruct e as [|x [|y [|]]]; try done. unfold id, rd. cbn [nth].
  destruct (Z.eqb_spec x CR) as [->|Hx]; cbn [negb orb]; [destruct (Z.eqb_spec y LF) as [->|Hy]; cbn [negb]|].
  - rewrite <- Hb0 at 1 2. by apply (parses_ret _ reply_of s5 (RBulk b0)).
  - apply parses_fail. by intros b v p' r (_ & [= ?] & _).
  - apply parses_fail. by intros b v p' r (_ & [= ?] & _).
Qed.

(** *** Arrays *)

Lemma resp_prefix_det d : prefix_det (resp_at d).
Proof. intros p b1 v1 p1 b2 v2 p2 r1 r2 H1 H2 E. exact (proj1 resp_det _ _ _ _ _ H1 _ _ _ _ _ H2 E). Qed.

Lemma parses_elements d read n : (forall s, parses (resp_at d) reply_of s (read s)) -> forall s,
  parses (fun p b l p' => resps_at d p b l p' /\ length l = n) (map (fun v => Some (reply_of v))) s (read_elements read n s).
Proof.
  intros Hread. induction n as [|n IH]; intros s; cbn [read_elements].
  { apply (parses_ret _ (map _) s []). by split; [constructor|]. }
  eapply (parses_bind (resp_at d) reply_of (fun v p b l p' => exists l', l = v :: l' /\ resps_at d p b l' p' /\ length l' = n));
    [apply resp_prefix_det| |apply Hread|].
  { intros b l p'. split.
    - intros [H Hl]. inversion H as [|? ? b1 v p1 b2 l' ? H1 H2]; subst; [done|].
      exists b1, v, p1, b2. split; [done|]. split; [done|]. exists l'. by injection Hl.
    - intros (b1 & v & p1 & b2 & -> & H1 & l' & -> & H2 & <-). by split; [econstructor|]. }
  intros s1 v _.
  eapply (parses_bind _ _ (fun l' p b l p' => b = [] /\ l = v :: l' /\ p' = p)); [| |apply IH|].
  - intros p b1 l1 p1 b2 l2 p2 r1 r2 [H1 E1] [H2 E2] E.
    exact (proj2 (proj2 resp_det) _ _ _ _ _ H1 _ _ _ _ _ H2 ltac:(congruence) E).
  - intros b l p'. split.
    + intros (l' & -> & H & Hl). exists b, l', p', []. by rewrite app_nil_r.
    + intros (b1 & l' & p1 & b2 & -> & [H Hl] & -> & -> & ->). exists l'. by rewrite app_nil_r.
  - intros s2 l' _. by exists [], (v :: l').
Qed.

Lemma body_inv_array d p text n tail v p' : n <> -1 ->
  body_at d p 42 text n tail v p' <->
  exists d' l, d = S d' /\ v = RArray l /\ n = Z.of_nat (length l) /\ n <= CWIST_REDIS_TIMED_MAX_NODES - p.1 /\ resps_at d' p tail l p'.
Proof.
  intros Hn. split.
  - intros H. inversion H; subst; try done. by eexists _, _.
  - intros (d' & l & -> & -> & -> & H1 & H2). by constructor.
Qed.

Lemma parses_array d read text n s : at_line s (42 :: text) ->
  match d with
  | O => read = None
  | S d => exists r, read = Some r /\ forall s, parses (resp_at d) reply_of s (r s)
  end ->
  parses (body_line d 42 text n) reply_of s (read_array read n (length (42 :: text)) s).
Proof.
  intros Hline Hread. unfold read_array.
  apply (consume_line _ (fun p b v p' => body_at d (counts s) 42 text n b v p')); [done|apply body_line_split|].
  intros s1 Ec. destruct (Z.eqb_spec n (-1)) as [->|Hn]; [apply parses_null; [by right|done]|].
  unfold mbind at 1, redis_bind at 1, get. cbv beta iota.
  destruct d as [|d].
  { rewrite Hread. apply parses_fail. intros b v p' r Hb. by apply body_inv_array in Hb as (d' & l & ? & _). }
  destruct Hread as (rd & -> & Hrd).
  destruct ((n <? 0) || _) eqn:Eb.
  { apply parses_fail. intros b v p' r Hb. apply body_inv_array in Hb as (d' & l & _ & _ & -> & H & _); [|done].
    injection Ec as En _. unfold counts in H. cbn [fst] in H. lia. }
  assert (Hlim : 0 <= n <= CWIST_REDIS_TIMED_MAX_NODES - (counts s).1).
  { injection Ec as En _. unfold counts. cbn [fst]. lia. }
  set (R := fun p b l p' => resps_at d p b l p' /\ length l = Z.to_nat n).
  assert (HR : forall b v p', body_at (S d) (counts s) 42 text n b v p' <-> exists l, v = RArray l /\ R (counts s) b l p').
  { intros b v p'. rewrite body_inv_array by done. unfold R. split.
    - intros (d' & l & [= <-] & -> & -> & _ & H). exists l. split; [done|]. by rewrite Nat2Z.id.
    - intros (l & -> & H & Hl). exists d, l. split; [done|]. split; [done|]. split; [lia|]. by split; [lia|]. }
  destruct (Z.eqb_spec n 0) as [->|H0].
  { exists [], (RArray []). rewrite Ec. split; [|by split]. apply HR. exists []. by split; [|split; [constructor|]]. }
  apply waits_parses; [apply allocate_spec|]. intros s2 _ _ Ec2.
  eapply (parses_bind R _ (fun l p b v p' => b = [] /\ v = RArray l /\ p' = p)); [| |apply parses_elements, Hrd|].
  - intros p b1 l1 p1 b2 l2 p2 r1 r2 [H1 E1] [H2 E2] E.
    exact (proj2 (proj2 resp_det) _ _ _ _ _ H1 _ _ _ _ _ H2 ltac:(congruence) E).
  - intros b v p'. rewrite Ec2, Ec, HR. split.
    + intros (l & -> & H). exists b, l, p', []. by rewrite app_nil_r.
    + intros (b1 & l & p1 & b2 & -> & H & -> & -> & ->). exists l. by rewrite app_nil_r.
  - intros s3 l (_ & _ & _ & _ & Hl). exists [], (RArray l). split; [done|]. split; [|by split].
    cbn [reply_of]. rewrite Hl, Z2Nat.id by lia. done.
Qed.

(** *** A whole reply *)

Lemma parses_iff {V A} (R R' : Z * Z -> bytes -> V -> Z * Z -> Prop) (f : V -> A) s res :
  (forall b v p', R' (counts s) b v p' -> R (counts s) b v p') ->
  (forall b v p' r, R (counts s) b v p' -> stream s = b ++ r -> R' (counts s) b v p') ->
  parses R' f s res -> parses R f s res.
Proof.
  intros H1 H2 H. unfold parses in *. destruct res as [[c|t] s'].
  - intros Hc b v p' r Hb E. by eapply (H Hc); [eapply H2|].
  - destruct H as (b & v & H3 & H4). exists b, v. split; [by apply H1|done].
Qed.

Lemma count_parses {V A} (R R' : Z * Z -> bytes -> V -> Z * Z -> Prop) (f : V -> A) s (k : unit -> RedisM A) :
  (forall b v p', R (counts s) b v p' -> nodes s + 1 <= CWIST_REDIS_TIMED_MAX_NODES) ->
  (forall b v p', R (counts s) b v p' <-> R' (nodes s + 1, payload s) b v p') ->
  (let s1 := s <| nodes := nodes s + 1 |> in nodes s + 1 <= CWIST_REDIS_TIMED_MAX_NODES -> parses R' f s1 (k tt s1)) ->
  parses R f s ((count_node ≫= k) s).
Proof.
  intros Hmax HR Hk. unfold count_node, mbind, redis_bind, modify, get. cbv beta iota zeta.
  cbn [nodes set_field]. destruct (Z.ltb_spec CWIST_REDIS_TIMED_MAX_NODES (nodes s + 1)) as [H|H].
  - intros _ b v p' r Hb _. specialize (Hmax _ _ _ Hb). lia.
  - specialize (Hk H). unfold mret, redis_ret. set (s1 := s <| nodes := _ |>) in *.
    assert (Hc : calm s -> calm s1) by (intros []; by constructor).
    unfold parses in *. destruct (k tt s1) as [[c|t] s2].
    + intros Hc' b v p' r Hb E. apply HR in Hb. revert E. apply (Hk ltac:(tauto) _ _ _ _ Hb).
    + destruct Hk as (b & v & H1 & H2 & H3 & H4). exists b, v. split; [by apply HR|]. split; [done|]. split; [done|tauto].
Qed.

Lemma peek_parses {V A} (R : Z * Z -> bytes -> V -> Z * Z -> Prop) (f : V -> A) s (k : nat -> RedisM A) :
  (forall b v p' r, R (counts s) b v p' -> has_line (b ++ r)) ->
  (forall line s1, at_line s1 line -> line_ok line -> counts s1 = counts s -> parses R f s1 (k (length line) s1)) ->
  parses R f s ((redis_peek_line deadline ≫= k) s).
Proof.
  intros Hline Hk. unfold mbind, redis_bind. pose proof (peek_spec deadline s) as Hp. unfold peeks in Hp.
  destruct (redis_peek_line deadline s) as [[c|n] s1].
  - intros Hc b v p' r Hb E. apply (Hp Hc). rewrite E. by eapply Hline.
  - destruct Hp as (line & rest & -> & Hl & Eb & Est & [E1 E2] & Hcalm).
    assert (Ec : counts s1 = counts s) by (unfold counts; congruence).
    specialize (Hk line s1 ltac:(by exists rest) Hl Ec). unfold parses in *. rewrite Ec, Est in Hk.
    destruct (k (length line) s1) as [[c|t] s2].
    + intros Hc. apply Hk. tauto.
    + destruct Hk as (b & v & H1 & H2 & H3 & H4). exists b, v. split; [done|]. split; [done|]. split; [done|tauto].
Qed.

(** A reply at the front of the stream has the line that is there. *)
Lemma reply_line d p b v p' r s line : resp_at d p b v p' -> at_line s line -> line_ok line -> stream s = b ++ r ->
  exists type text n, line = type :: text /\ head p type text n (p.1 + 1, p.2) /\
    body_line d type text n (p.1 + 1, p.2) b v p'.
Proof.
  intros H [rest Eb] Hl E. destruct H as [d p type text n p1 tail v p' Hh Hb].
  assert (p1 = (p.1 + 1, p.2)) as -> by apply Hh.
  unfold stream in E. rewrite Eb, <- !app_assoc in E. apply line_unique in E as [-> _]; [|done|apply Hh].
  exists type, text, n. split; [done|]. split; [done|]. by exists tail.
Qed.

Lemma timed_read_parses d : forall s, parses (resp_at d) reply_of s (redis_timed_read deadline d s).
Proof.
  induction d as [d IH] using lt_wf_ind. intros s.
  assert (Hread : match d with O => (match d with O => None | S d => Some (redis_timed_read deadline d) end) = None
    | S d' => exists r, (match d with O => None | S d => Some (redis_timed_read deadline d) end) = Some r /\
        forall s, parses (resp_at d') reply_of s (r s) end).
  { destruct d as [|d']; [done|]. eexists. split; [done|]. intros s'. apply IH. lia. }
  remember (match d with O => None | S d => Some (redis_timed_read deadline d) end) as read eqn:Er.
  assert (Eq : redis_timed_read deadline d = timed_node deadline read) by (rewrite Er; by destruct d).
  rewrite Eq. clear Eq Er IH.
  unfold timed_node.
  set (R := fun (_ : Z * Z) b v p' => resp_at d (counts s) b v p').
  apply (count_parses _ R); [|done|].
  { intros b v p' H. unfold R in H. remember (counts s) as p eqn:Ep. destruct H as [d0 p type text n p1 tl v p' Hh _].
    subst p. exact (proj1 Hh). }
  intros s1 Hmax. unfold s1. clear s1. apply peek_parses.
  { intros b v p' r H. destruct H as [d0 p type text n p1 tl v p' Hh _].
    exists (type :: text), (tl ++ r). split; [apply Hh|]. by rewrite <- !app_assoc. }
  intros line s1 Hline Hl Ec0. assert (Ec : counts s1 = (nodes s + 1, payload s)) by exact Ec0. clear Ec0.
  assert (Hcand : forall b v p' r, R (counts s1) b v p' -> stream s1 = b ++ r ->
    exists type text n, line = type :: text /\ head (counts s) type text n (counts s1) /\ body_line d type text n (counts s1) b v p').
  { intros b v p' r H E. destruct (reply_line d _ b v p' r s1 line H Hline Hl E) as (type & text & n & H1 & H2 & H3).
    rewrite Ec. by exists type, text, n. }
  assert (Htake : take (length line) (recv_buf s1) = line) by (destruct Hline as [rest ->]; apply take_app_length).
  destruct line as [|type text].
  { apply parses_fail. intros b v p' r Hb E. by destruct (Hcand b v p' r Hb E) as (? & ? & ? & ? & _). }
  change (length (type :: text) =? 0)%nat with false. cbv iota.
  unfold mbind at 1, redis_bind at 1, get. cbv beta iota zeta. rewrite Htake.
  change (drop 1 (type :: text)) with text. change (rd (type :: text) 0) with type.
  assert (Hbad : forall c, (forall n, ~ head (counts s) type text n (counts s1)) -> parses R reply_of s1 (fail c s1)).
  { intros c Hno. apply parses_fail. intros b v p' r Hb E.
    destruct (Hcand b v p' r Hb E) as (type' & text' & n & [= <- <-] & Hh & _). by apply (Hno n). }
  set (number := (type =? 58) || (type =? 36) || (type =? 42)).
  destruct (if number then redis_parse_ll text else Some 0) as [v|] eqn:Ev.
  2: { apply Hbad. intros n (_ & _ & _ & _ & H & _). fold number in H. by destruct number; [congruence|]. }
  destruct (negb _) eqn:Et; [apply Hbad; intros n (_ & _ & _ & H & _); unfold number in Et; lia|].
  destruct (Z.ltb_spec (CWIST_REDIS_TIMED_MAX_PAYLOAD - payload s1) (blen text)) as [Hlong|Hfits].
  { apply Hbad. intros n (_ & _ & H & _). injection Ec as _ E2. unfold counts in H. cbn [snd] in H. lia. }
  assert (Hh : head (counts s) type text v (counts s1)).
  { rewrite Ec. injection Ec as _ E2. unfold head, counts. cbn [fst snd]. split; [exact Hmax|]. split; [exact Hl|].
    split; [lia|]. split; [unfold number in Et; lia|]. split; [|done]. fold number. by destruct number; [|injection Ev]. }
  apply (parses_iff R (body_line d type text v)).
  { intros b w p' (tl & -> & Hb). by econstructor. }
  { intros b w p' r Hb E. destruct (Hcand b w p' r Hb E) as (t' & x' & n & [= <- <-] & Hh' & Hb').
    assert (n = v) as ->; [|done]. destruct Hh as (_ & _ & _ & _ & H1 & _), Hh' as (_ & _ & _ & _ & H2 & _).
    by destruct (_ || _); [congruence|rewrite H1, H2]. }
  apply waits_parses; [apply allocate_spec|]. intros s2 E1 _ Ec2.
  assert (Hline2 : at_line s2 (type :: text)) by (destruct Hline as [rest ?]; exists rest; congruence).
  destruct (Z.eqb_spec type 36) as [->|H36]; [by apply parses_bulk|].
  destruct (Z.eqb_spec type 42) as [->|H42]; [by apply parses_array|]. by apply parses_text.
Qed.
End Parsing.
