(* ===== verification/RedisFrame.v ===== *)
(** * Commands on the wire

    A command's frame is computed and filled exactly; the strict parser reads
    it back as the array of its arguments.  What the parser accepts stays
    within its limits. *)

From S2P Require Import Prelude.
From S2P Require Import Redis RedisResp RedisTimed.

(** ** Numbers *)

Lemma digits_loop_spec fuel : forall v n, 0 <= v < 10 ^ Z.of_nat fuel -> (0 < fuel)%nat ->
  redis_digits_loop fuel v n = n + blen (dec_loop fuel v) - 1.
Proof.
  induction fuel as [|fuel IH]; intros v n Hv Hf; [lia|]. cbn [redis_digits_loop dec_loop]. rewrite blen_app.
  change (blen [48 + v mod 10]) with 1. destruct (Z.ltb_spec v 10) as [H|H].
  - destruct (Z.leb_spec 10 v); [lia|]. change (blen []) with 0. lia.
  - destruct (Z.leb_spec 10 v); [|lia]. rewrite Nat2Z.inj_succ, Z.pow_succ_r in Hv by lia.
    destruct fuel as [|fuel]; [change (10 ^ Z.of_nat 0) with 1 in Hv; lia|].
    rewrite IH by (zlia || lia). lia.
Qed.
Lemma digits_spec v : is_u64 v -> redis_digits v = blen (dec v).
Proof.
  intros Hv. unfold redis_digits, dec. rewrite digits_loop_spec; [lia| |lia].
  unfold is_u64 in Hv. change (10 ^ Z.of_nat 20) with 100000000000000000000. lia.
Qed.

(** [redis_parse_ll]: an optional minus, digits, and a value of 64 bits. *)
Lemma redis_parse_digits_spec limit s : forall v, 0 <= v <= limit -> 9 <= limit <= 9223372036854775808 ->
  redis_parse_digits limit v s =
  if forallb isdigit s && (digits_value s v <=? limit) then Some (digits_value s v) else None.
Proof.
  induction s as [|c s IH]; intros v Hv Hl; cbn [redis_parse_digits forallb digits_value].
  { destruct (Z.leb_spec v limit); [done|lia]. }
  unfold isdigit at 1. destruct (Z.ltb_spec c 48); [destruct (Z.leb_spec 48 c); [lia|done]|].
  destruct (Z.ltb_spec 57 c); [destruct (Z.leb_spec c 57); [lia|]; by destruct (48 <=? c)|].
  destruct (Z.leb_spec 48 c); [|lia]. destruct (Z.leb_spec c 57); [|lia]. cbn [andb].
  rewrite (u64_id (limit - (c - 48))) by (unfold is_u64; lia).
  destruct (Z.ltb_spec ((limit - (c - 48)) / 10) v) as [Hbig|Hfit].
  - assert (Hd : limit < v * 10 + (c - 48)) by zlia.
    assert (Hmono : forall s a, 0 <= a -> forallb isdigit s = true -> a <= digits_value s a).
    { clear. induction s as [|c s IH]; intros a Ha Hs; cbn in *; [lia|]. apply andb_true_iff in Hs as [Hc Hs].
      unfold isdigit in Hc. specialize (IH (a * 10 + (c - 48)) ltac:(lia) Hs). lia. }
    destruct (forallb isdigit s) eqn:Es; [|done]. specialize (Hmono s (v * 10 + (c - 48)) ltac:(lia) Es).
    destruct (Z.leb_spec (digits_value s (v * 10 + (c - 48))) limit); [lia|done].
  - rewrite u64_id by (unfold is_u64; zlia). by rewrite IH by zlia.
Qed.
Lemma parse_ll_dec n : 0 <= n <= 9223372036854775807 -> redis_parse_ll (dec n) = Some n.
Proof.
  intros Hn. destruct (dec_spec n) as (Hv & Hd & _ & Hne); [unfold is_u64; lia|]. unfold redis_parse_ll.
  destruct (dec n) as [|c s] eqn:E; [done|]. pose proof (proj1 (proj1 (list.Forall_cons _ _ _) Hd)) as Hc.
  assert ((c =? 45) = false) as -> by (unfold isdigit in Hc; lia).
  rewrite bool_decide_false by done. rewrite redis_parse_digits_spec by lia. rewrite Hv.
  rewrite (proj2 (forallb_forall _ _)); [|by apply Forall_forall]. destruct (Z.leb_spec n 9223372036854775807); [done|lia].
Qed.

(** ** Within the limits *)

Fixpoint node_count (v : resp) : Z :=
  match v with RArray l => 1 + fold_right (fun v a => node_count v + a) 0 l | _ => 1 end.
Fixpoint kept_bytes (v : resp) : Z :=
  match v with
  | RText _ text _ => blen text
  | RBulk b => blen b
  | RNull _ => 0
  | RArray l => fold_right (fun v a => kept_bytes v + a) 0 l
  end.
Fixpoint levels (v : resp) : nat :=
  match v with RArray l => S (fold_right (fun v a => max (levels v) a) 0%nat l) | _ => 0%nat end.

Lemma resp_within :
  (forall d p b v p', resp_at d p b v p' -> p'.1 = p.1 + node_count v /\ p'.2 = p.2 + kept_bytes v /\ (levels v <= d)%nat /\
     p'.1 <= CWIST_REDIS_TIMED_MAX_NODES /\ (p.2 <= CWIST_REDIS_TIMED_MAX_PAYLOAD -> p'.2 <= CWIST_REDIS_TIMED_MAX_PAYLOAD)) /\
  (forall d p t x n b v p', body_at d p t x n b v p' -> p.1 <= CWIST_REDIS_TIMED_MAX_NODES -> blen x <= CWIST_REDIS_TIMED_MAX_PAYLOAD - p.2 ->
     p'.1 = p.1 + node_count v - 1 /\ p'.2 = p.2 + kept_bytes v /\ (levels v <= d)%nat /\
     p'.1 <= CWIST_REDIS_TIMED_MAX_NODES /\ (p.2 <= CWIST_REDIS_TIMED_MAX_PAYLOAD -> p'.2 <= CWIST_REDIS_TIMED_MAX_PAYLOAD)) /\
  (forall d p b l p', resps_at d p b l p' -> p.1 <= CWIST_REDIS_TIMED_MAX_NODES ->
     p'.1 = p.1 + fold_right (fun v a => node_count v + a) 0 l /\ p'.2 = p.2 + fold_right (fun v a => kept_bytes v + a) 0 l /\
     (fold_right (fun v a => max (levels v) a) 0%nat l <= d)%nat /\
     p'.1 <= CWIST_REDIS_TIMED_MAX_NODES /\ (p.2 <= CWIST_REDIS_TIMED_MAX_PAYLOAD -> p'.2 <= CWIST_REDIS_TIMED_MAX_PAYLOAD)).
Proof.
  apply resp_at_mut.
  - intros d p t x n p1 tl v p' (H1 & _ & H2 & _ & _ & ->) _ IH. cbn [fst snd] in IH.
    destruct (IH H1 H2) as (E1 & E2 & H3 & H4 & H5). split; [lia|]. by split.
  - intros d p t x n _ _ H1 H2. cbn. split; [lia|]. split; [done|]. split; [lia|]. split; [done|]. lia.
  - intros d p t x _ H1 H2. cbn. split; [lia|]. split; [lia|]. split; [lia|]. by split.
  - intros d p x b H1 H2 H3 H4. cbn [fst snd node_count kept_bytes levels]. split; [lia|]. split; [done|]. split; [lia|]. split; [done|]. lia.
  - intros d p x b l p' _ _ IH H1 H2. destruct (IH H1) as (E1 & E2 & H3 & H4 & H5). cbn [node_count kept_bytes levels].
    split; [lia|]. split; [done|]. split; [lia|]. by split.
  - intros d p H. cbn. split; [lia|]. split; [lia|]. split; [lia|]. by split.
  - intros d p b v p1 bs l p' _ IH1 _ IH2 H. destruct IH1 as (E1 & E2 & H3 & H4 & H5).
    destruct (IH2 H4) as (F1 & F2 & G3 & G4 & G5). cbn [fold_right]. split; [lia|]. split; [lia|]. split; [lia|]. split; [done|]. tauto.
Qed.

(** ** The frame of a command *)

Definition bulk_bytes (b : bytes) : bytes := command_header 36 (blen b) ++ b ++ crlf.
Definition command_bytes (args : list bytes) : bytes :=
  command_header 42 (Z.of_nat (length args)) ++ concat (map bulk_bytes args).

(** The caller's arguments: at least as many bytes as the length, or NULL. *)
Definition arg_ok (a : redis_arg) : Prop :=
  is_u64 a.2 /\ forall b, a.1 = Some b -> a.2 <= blen b.
Definition arg_bytes (a : redis_arg) : bytes := take (Z.to_nat a.2) (default [] a.1).
(** A NULL argument with a length is not an argument. *)
Definition arg_there (a : redis_arg) : Prop := a.1 = None -> a.2 = 0.

Lemma arg_length a : arg_ok a -> arg_there a -> blen (arg_bytes a) = a.2.
Proof.
  destruct a as [[b|] len]; intros [Hu Hl] Ht; unfold arg_bytes, is_u64, blen in *; cbn [fst snd default from_option id] in *.
  - specialize (Hl b eq_refl). rewrite length_take. lia.
  - specialize (Ht eq_refl). cbn in Ht. by subst len.
Qed.

Lemma bulk_length b : is_u64 (blen b) -> blen (bulk_bytes b) = 1 + redis_digits (blen b) + 2 + blen b + 2.
Proof.
  intros H. unfold bulk_bytes, command_header. rewrite digits_spec by done. change (36 :: dec (blen b) ++ crlf) with ([36] ++ dec (blen b) ++ crlf).
  rewrite !blen_app. change (blen crlf) with 2. change (blen [36]) with 1. lia.
Qed.

Lemma digits_range v : is_u64 v -> 1 <= redis_digits v <= 20.
Proof.
  intros H. rewrite digits_spec by done. destruct (dec_spec v H) as (_ & _ & H1 & H2). unfold blen.
  destruct (dec v); [done|]. cbn [length] in *. lia.
Qed.

(** The size is that of the frame, or something is out of bounds. *)
Lemma frame_size_loop_spec args : forall total, Forall arg_ok args -> 0 <= total <= CWIST_REDIS_TIMED_MAX_FRAME ->
  let size := total + blen (concat (map bulk_bytes (map arg_bytes args))) in
  match frame_size_loop args total with
  | Some n => Forall arg_there args /\ n = size /\ n <= CWIST_REDIS_TIMED_MAX_FRAME
  | None => ~ Forall arg_there args \/ CWIST_REDIS_TIMED_MAX_FRAME < size
  end.
Proof.
  assert (HF : CWIST_REDIS_TIMED_MAX_FRAME = 536870912) by done.
  induction args as [|[p len] args IH]; intros total Hok Ht; cbn [frame_size_loop map concat].
  { change (blen []) with 0. rewrite Z.add_0_r. split; [constructor|]. split; [done|lia]. }
  apply list.Forall_cons in Hok as [Ha Hok]. cbv zeta.
  destruct (bool_decide (p = None) && negb (len =? 0)) eqn:E1.
  { left. intros H. apply list.Forall_cons in H as [H _]. unfold arg_there in H. cbn in H. apply andb_true_iff in E1 as [E1 E2].
    apply bool_decide_eq_true in E1. rewrite (H E1) in E2. done. }
  assert (Hthere : arg_there (p, len)).
  { intros H. cbn in *. rewrite bool_decide_true in E1 by done. destruct (Z.eqb_spec len 0); [done|done]. }
  pose proof (arg_length _ Ha Hthere) as Hl. cbn [snd] in Hl. rewrite blen_app.
  pose proof (blen_nonneg (concat (map bulk_bytes (map arg_bytes args)))) as Hrest.
  pose proof (proj1 Ha) as Hu. cbn [snd] in Hu. pose proof (digits_range len Hu) as Hd.
  rewrite (bulk_length (arg_bytes (p, len))), Hl by (by rewrite Hl). unfold is_u64 in Hu.
  destruct (Z.ltb_spec CWIST_REDIS_TIMED_MAX_FRAME len); [right; lia|].
  rewrite !u64_id by (unfold is_u64; lia).
  destruct (Z.ltb_spec (CWIST_REDIS_TIMED_MAX_FRAME - total) (1 + redis_digits len + 2 + len + 2)); [right; lia|].
  specialize (IH (total + (1 + redis_digits len + 2 + len + 2)) Hok ltac:(lia)). cbv zeta in IH.
  destruct (frame_size_loop args _) as [n|].
  - destruct IH as (H1 & H2 & H3). split; [by constructor|]. split; [lia|done].
  - destruct IH as [H1|H1]; [left|right; lia]. intros H2. apply H1. by apply list.Forall_cons in H2 as [_ ?].
Qed.

(** [written b frame used frame' used']: [b] was added behind the first [used] bytes. *)
Definition written (b frame : bytes) (used : nat) (frame' : bytes) (used' : nat) : Prop :=
  length frame' = length frame /\ used' = (used + length b)%nat /\ (used' <= length frame)%nat /\
  take used' frame' = take used frame ++ b.

Lemma blit_written b more frame used : (used + length b + length more <= length frame)%nat ->
  written b frame used (blit frame used (b ++ more)) (used + length b).
Proof.
  intros H. split; [apply length_blit|]. split; [done|]. split; [lia|].
  rewrite blit_in_range by (rewrite length_app; lia). rewrite <- !app_assoc, app_assoc.
  apply take_app_length'. rewrite length_app, length_take. lia.
Qed.
Lemma put_written v frame used : (used < length frame)%nat -> written [v] frame used (put frame used v) (used + 1).
Proof.
  intros H. split; [apply length_put|]. split; [done|]. split; [lia|]. unfold put.
  rewrite Nat.add_1_r, (take_S_r _ _ v) by (apply list_lookup_insert_eq; lia). by rewrite take_insert_ge by lia.
Qed.
Lemma written_app b1 b2 f u f1 u1 f2 u2 : written b1 f u f1 u1 -> written b2 f1 u1 f2 u2 -> written (b1 ++ b2) f u f2 u2.
Proof.
  intros (H1 & -> & H3 & H4) (H5 & -> & H7 & H8). split; [congruence|]. split; [rewrite length_app; lia|]. split; [lia|].
  by rewrite H8, H4, app_assoc.
Qed.

Lemma printf_spec frame off mark n :
  match frame_printf frame off mark n with
  | Some (frame', off') => written (command_header mark n) frame off frame' off'
  | None => (length frame <= off + length (command_header mark n))%nat
  end.
Proof.
  unfold frame_printf, blen. destruct (Z.leb_spec (Z.of_nat (length frame - off)) (Z.of_nat (length (command_header mark n)))) as [H|H]; [lia|].
  apply (blit_written _ [0]). cbn [length]. lia.
Qed.

Lemma frame_fill_loop_spec args : forall frame used, Forall arg_ok args -> Forall arg_there args ->
  (used + length (concat (map bulk_bytes (map arg_bytes args))) < length frame)%nat ->
  exists frame' used', frame_fill_loop args frame used = Some (frame', used') /\
    written (concat (map bulk_bytes (map arg_bytes args))) frame used frame' used'.
Proof.
  induction args as [|[p len] args IH]; intros frame used Hok Hth Hfit; cbn [frame_fill_loop map concat] in *.
  { exists frame, used. split; [done|]. split; [done|]. split; [cbn; lia|]. split; [lia|]. by rewrite app_nil_r. }
  apply list.Forall_cons in Hok as [Ha Hok], Hth as [Ht Hth]. pose proof (arg_length _ Ha Ht) as Hl. cbn [snd] in Hl.
  unfold bulk_bytes at 1 in Hfit. rewrite Hl in Hfit. rewrite !length_app in Hfit. cbn [length crlf] in Hfit.
  pose proof (printf_spec frame used 36 len) as Hp. destruct (frame_printf frame used 36 len) as [[f1 u1]|]; [|lia].
  pose proof Hp as (L1 & U1 & _ & _). unfold blen in Hl. set (b := arg_bytes (p, len)) in *.
  replace (_ || _ || _) with false.
  2: { symmetry. assert (Hrem : len + 3 <= Z.of_nat (length f1 - u1)) by (rewrite L1, U1; clear -Hfit Hl; lia).
       apply orb_false_iff. split; [apply orb_false_iff; split; apply Z.ltb_ge; lia|]. unfold arg_there in Ht. cbn in Ht.
       destruct (Z.eqb_spec len 0); [done|]. rewrite bool_decide_false; [done|]. intros E. by apply Ht in E. }
  change (take (Z.to_nat len) (default [] p)) with b. assert (Eb : Z.to_nat len = length b) by lia. rewrite Eb.
  assert (W2 : written b f1 u1 (blit f1 u1 b) (u1 + length b)).
  { rewrite <- (app_nil_r b) at 2. apply blit_written. cbn. lia. }
  pose proof (proj1 W2) as L2.
  assert (W3 := put_written CR (blit f1 u1 b) (u1 + length b) ltac:(lia)). pose proof (proj1 W3) as L3.
  assert (W4 := put_written LF _ (u1 + length b + 1) ltac:(rewrite L3; lia)). pose proof (proj1 W4) as L4.
  replace (u1 + length b + 2)%nat with (u1 + length b + 1 + 1)%nat by lia.
  edestruct IH as (f' & u' & E & W5); [exact Hok|exact Hth| |].
  2: { exists f', u'. split; [exact E|]. unfold bulk_bytes at 1. unfold blen. fold b. rewrite Hl.
       rewrite <- !app_assoc. change (crlf ++ ?x) with ([CR] ++ [LF] ++ x).
       exact (written_app _ _ _ _ _ _ _ _ Hp (written_app _ _ _ _ _ _ _ _ W2 (written_app _ _ _ _ _ _ _ _ W3 (written_app _ _ _ _ _ _ _ _ W4 W5)))). }
  rewrite L4, L3, L2, L1. lia.
Qed.

(** C37: A command's frame is exact.  With arguments that are there and within
    the limits the computed size is that of the RESP2 array of bulk strings,
    and a buffer of that size and one byte is filled with it, and a final NUL;
    otherwise the size is refused for a stated reason. *)
Theorem redis_command_framed args :
  Forall arg_ok args -> args <> [] ->
  let frame := command_bytes (map arg_bytes args) in
  match redis_frame_size args with
  | Some n =>
      Forall arg_there args /\ Z.of_nat (length args) <= CWIST_REDIS_TIMED_MAX_ARGC /\
      n = blen frame /\ n <= CWIST_REDIS_TIMED_MAX_FRAME /\
      forall buf, blen buf = n + 1 -> redis_frame_fill buf args = Some (frame ++ [0])
  | None =>
      CWIST_REDIS_TIMED_MAX_ARGC < Z.of_nat (length args) \/ ~ Forall arg_there args \/
      CWIST_REDIS_TIMED_MAX_FRAME < blen frame
  end.
Proof.
  intros Hok Hne frame. unfold redis_frame_size.
  assert (HA : CWIST_REDIS_TIMED_MAX_ARGC = 1048576) by done. assert (HF : CWIST_REDIS_TIMED_MAX_FRAME = 536870912) by done.
  destruct (Z.ltb_spec CWIST_REDIS_TIMED_MAX_ARGC (Z.of_nat (length args))) as [|Hargc]; [by left|].
  assert (Hu : is_u64 (Z.of_nat (length args))) by (unfold is_u64; lia).
  pose proof (digits_range _ Hu) as Hd.
  pose proof (frame_size_loop_spec args (1 + redis_digits (Z.of_nat (length args)) + 2) Hok ltac:(lia)) as Hs. cbv zeta in Hs.
  assert (El : 1 + redis_digits (Z.of_nat (length args)) + 2 + blen (concat (map bulk_bytes (map arg_bytes args))) = blen frame).
  { unfold frame, command_bytes, command_header. rewrite blen_app, length_map, digits_spec by done.
    change (42 :: ?x) with ([42] ++ x). rewrite !blen_app. change (blen crlf) with 2. change (blen [42]) with 1. lia. }
  rewrite El in Hs. destruct (frame_size_loop args _) as [n|]; [|by right].
  destruct Hs as (Hth & -> & Hn). split; [done|]. split; [done|]. split; [done|]. split; [done|].
  intros buf Hbuf. unfold redis_frame_fill. pose proof (blen_nonneg frame).
  destruct (Z.eqb_spec (blen buf) 0); [lia|]. destruct (Z.eqb_spec (Z.of_nat (length args)) 0); [by destruct args|]. cbn [orb].
  assert (Elen : length buf = (length frame + 1)%nat) by (unfold blen in *; lia).
  assert (Ef : length frame = (length (command_header 42 (Z.of_nat (length args))) +
    length (concat (map bulk_bytes (map arg_bytes args))))%nat) by (unfold frame, command_bytes; by rewrite length_app, length_map).
  pose proof (printf_spec buf 0 42 (Z.of_nat (length args))) as Hp.
  destruct (frame_printf buf 0 42 _) as [[f1 u1]|]; [|lia]. pose proof Hp as (L1 & U1 & _ & _).
  destruct (frame_fill_loop_spec args f1 u1 Hok Hth ltac:(lia)) as (f2 & u2 & -> & W).
  assert (Ecmd : command_header 42 (Z.of_nat (length args)) ++ concat (map bulk_bytes (map arg_bytes args)) = frame)
    by (unfold frame, command_bytes; by rewrite length_map).
  pose proof (written_app _ _ _ _ _ _ _ _ Hp W) as W'. rewrite Ecmd in W'. clear Hp W. destruct W' as (L2 & U2 & _ & E2).
  replace (u2 =? length f2 - 1)%nat with true by (symmetry; apply Nat.eqb_eq; lia). cbn [negb].
  destruct (put_written 0 f2 u2 ltac:(lia)) as (L3 & _ & _ & E3). f_equal.
  rewrite E2 in E3. change (take 0 buf ++ frame) with frame in E3. rewrite <- E3. symmetry. apply take_ge. lia.
Qed.

(** ** A command read back *)

Lemma header_line mark n : mark = 36 \/ mark = 42 -> 0 <= n <= 9223372036854775807 -> line_ok (mark :: dec n).
Proof.
  intros Hm Hn. destruct (dec_spec n) as (_ & Hd & Hl & _); [unfold is_u64; lia|]. split.
  - constructor; [unfold CR, LF; lia|]. eapply list.Forall_impl; [exact Hd|]. unfold isdigit, CR, LF. intros c Hc. lia.
  - unfold blen. cbn [length]. change CWIST_REDIS_LINE_MAX with 8192. lia.
Qed.

Definition total_bytes (l : list bytes) : Z := fold_right (fun b a => blen b + a) 0 l.
Lemma args_total_nonneg l : 0 <= total_bytes l.
Proof. unfold total_bytes. induction l as [|b l IH]; cbn [fold_right]; [lia|]. pose proof (blen_nonneg b). lia. Qed.

Lemma dec_short n : is_u64 n -> blen (dec n) <= 20.
Proof. intros H. destruct (dec_spec n H) as (_ & _ & Hl & _). unfold blen. lia. Qed.

Lemma bulks_at d l : forall p, p.1 + Z.of_nat (length l) <= CWIST_REDIS_TIMED_MAX_NODES ->
  p.2 + total_bytes l + 20 <= CWIST_REDIS_TIMED_MAX_PAYLOAD -> Forall (fun b => blen b <= CWIST_REDIS_TIMED_MAX_BULK) l ->
  resps_at d p (concat (map bulk_bytes l)) (map RBulk l) (p.1 + Z.of_nat (length l), p.2 + total_bytes l).
Proof.
  assert (HB : CWIST_REDIS_TIMED_MAX_BULK = 8388608) by done.
  induction l as [|b l IH]; intros p Hn Hp Hl; cbn [map concat total_bytes fold_right length] in *.
  { rewrite !Z.add_0_r. destruct p. constructor. }
  apply list.Forall_cons in Hl as [Hb Hl]. pose proof (args_total_nonneg l). fold (total_bytes l) in *. pose proof (blen_nonneg b).
  apply AtCons with (p1 := (p.1 + 1, p.2 + blen b)).
  - unfold bulk_bytes, command_header. cbn [app]. rewrite <- app_assoc.
    apply (AtNode d p 36 (dec (blen b)) (blen b) (p.1 + 1, p.2) (b ++ crlf)).
    + split; [lia|]. split; [apply header_line; [by left|lia]|]. pose proof (dec_short (blen b) ltac:(unfold is_u64; lia)).
      split; [lia|]. split; [lia|]. split; [apply parse_ll_dec; lia|done].
    + apply (BodyBulk d (p.1 + 1, p.2)); cbn [snd]; lia.
  - specialize (IH (p.1 + 1, p.2 + blen b)). cbn [fst snd] in IH.
    replace (p.1 + Z.of_nat (S (length l)), p.2 + (blen b + total_bytes l))
      with (p.1 + 1 + Z.of_nat (length l), p.2 + blen b + total_bytes l) by (f_equal; lia).
    apply IH; [lia|lia|done].
Qed.

Definition command_small (l : list bytes) : Prop :=
  1 + Z.of_nat (length l) <= CWIST_REDIS_TIMED_MAX_NODES /\ total_bytes l + 20 <= CWIST_REDIS_TIMED_MAX_PAYLOAD /\
  Forall (fun b => blen b <= CWIST_REDIS_TIMED_MAX_BULK) l.

Lemma command_at d l : command_small l ->
  resp_at (S d) (0, 0) (command_bytes l) (RArray (map RBulk l)) (1 + Z.of_nat (length l), total_bytes l).
Proof.
  intros (Hn & Hp & Hl). assert (HN : CWIST_REDIS_TIMED_MAX_NODES = 65536) by done. pose proof (args_total_nonneg l).
  unfold command_bytes, command_header. cbn [app]. rewrite <- app_assoc.
  apply (AtNode (S d) (0, 0) 42 (dec (Z.of_nat (length l))) (Z.of_nat (length l)) (1, 0)).
  - split; [cbn; lia|]. split; [apply header_line; [by right|lia]|].
    pose proof (dec_short (Z.of_nat (length l)) ltac:(unfold is_u64; lia)). cbn [snd].
    split; [lia|]. split; [lia|]. split; [apply parse_ll_dec; lia|done].
  - rewrite <- (length_map RBulk l). constructor; [rewrite length_map; cbn; lia|]. rewrite length_map.
    by apply (bulks_at d l (1, 0)).
Qed.

(** C17: The strict reply parser, for any bytes in any pieces and any waits,
    interruptions and failures.  A reply it returns is the one the stream starts
    with, and the stream goes on behind it; it has at most 65536 nodes, 16 MiB
    and 8 levels.  A protocol error means that the stream starts with no reply
    within the limits, and so does any error when nothing goes wrong. *)
Theorem timed_read_exact deadline s :
  counts s = (0, 0) ->
  match redis_timed_read deadline CWIST_REDIS_TIMED_MAX_DEPTH s with
  | (Done t, s') => exists b v,
      resp_at CWIST_REDIS_TIMED_MAX_DEPTH (0, 0) b v (node_count v, kept_bytes v) /\ t = reply_of v /\ stream s = b ++ stream s' /\
      node_count v <= CWIST_REDIS_TIMED_MAX_NODES /\ kept_bytes v <= CWIST_REDIS_TIMED_MAX_PAYLOAD /\
      (levels v <= CWIST_REDIS_TIMED_MAX_DEPTH)%nat
  | (Fail c, _) => c = - EPROTO \/ calm deadline s -> forall b v p' rest,
      resp_at CWIST_REDIS_TIMED_MAX_DEPTH (0, 0) b v p' -> stream s <> b ++ rest
  end.
Proof.
  intros Hc. pose proof (timed_read_parses deadline CWIST_REDIS_TIMED_MAX_DEPTH s) as H. unfold parses in H. rewrite Hc in H.
  destruct (redis_timed_read deadline CWIST_REDIS_TIMED_MAX_DEPTH s) as [[c|t] s']; [done|].
  destruct H as (b & v & Hr & -> & Est & _). exists b, v.
  destruct (proj1 resp_within _ _ _ _ _ Hr) as (E1 & E2 & H3 & H4 & H5). cbn [fst snd] in *.
  specialize (H5 ltac:(done)). assert (E : counts s' = (node_count v, kept_bytes v)) by (destruct (counts s'); cbn in *; f_equal; lia).
  rewrite E in Hr. split; [done|]. split; [done|]. split; [done|]. split; [lia|]. split; [lia|done].
Qed.

(** A command that is framed and read back by the strict parser, in any
    pieces and before the deadline, is the array of its arguments, and what
    follows it is left. *)
Theorem redis_command_roundtrip deadline s l rest :
  counts s = (0, 0) -> calm deadline s -> command_small l -> stream s = command_bytes l ++ rest ->
  exists s', redis_timed_read deadline CWIST_REDIS_TIMED_MAX_DEPTH s = (Done (reply_of (RArray (map RBulk l))), s') /\
    stream s' = rest.
Proof.
  intros Hc Hcalm Hl Est. pose proof (command_at 7 l Hl) as Hat.
  pose proof (timed_read_parses deadline CWIST_REDIS_TIMED_MAX_DEPTH s) as H. unfold parses in H. rewrite Hc in H.
  destruct (redis_timed_read deadline CWIST_REDIS_TIMED_MAX_DEPTH s) as [[c|t] s'].
  - exfalso. exact (H (or_intror Hcalm) _ _ _ _ Hat Est).
  - destruct H as (b & v & Hr & -> & Est2 & _). rewrite Est in Est2.
    destruct (resp_prefix_det _ _ _ _ _ _ _ _ _ _ Hat Hr Est2) as (_ & <- & _ & ->). by exists s'.
Qed.

(** ** Witnesses *)

Definition sample_conn (rx : list recv_outcome) : redis := MkRedis true [] rx [] [] [] [] [] 0 [1; 2; 3] [] 0 0.
Definition sample_rx : list recv_outcome :=
  [RxData (bs "*2" ++ [13; 10] ++ bs "$3" ++ [13]); RxAgain; RxData ([10] ++ bs "fo"); RxIntr;
   RxData (bs "o" ++ [13; 10] ++ bs "$2" ++ [13; 10] ++ bs "ab" ++ [13; 10] ++ bs "+")].

Lemma timed_read_exact_witness :
  counts (sample_conn sample_rx) = (0, 0) /\ exists s' b v,
    redis_timed_read 1000 CWIST_REDIS_TIMED_MAX_DEPTH (sample_conn sample_rx) = (Done (reply_of v), s') /\
    stream (sample_conn sample_rx) = b ++ bs "+".
Proof.
  split; [reflexivity|]. pose proof (timed_read_exact 1000 (sample_conn sample_rx) eq_refl) as H.
  destruct (redis_timed_read 1000 CWIST_REDIS_TIMED_MAX_DEPTH (sample_conn sample_rx)) as [o s'] eqn:E.
  assert (Es : stream s' = bs "+") by (change s' with ((o, s').2); rewrite <- E; vm_compute; reflexivity).
  destruct o as [c|t]; [exfalso; clear H; vm_compute in E; discriminate E|].
  destruct H as (b & v & _ & -> & H & _). exists s', b, v. split; [reflexivity|]. rewrite H, Es. reflexivity.
Defined.

Lemma redis_command_framed_witness :
  let args := [(Some (bs "GET"), 3); (Some (bs "key"), 3); (None, 0)] in
  Forall arg_ok args /\ redis_frame_size args = Some 28 /\
  forall buf, blen buf = 29 -> redis_frame_fill buf args = Some (command_bytes [bs "GET"; bs "key"; []] ++ [0]).
Proof.
  cbv zeta. set (args := [(Some (bs "GET"), 3); (Some (bs "key"), 3); (None, 0)]).
  assert (Hok : Forall arg_ok args).
  { repeat constructor; cbn; try lia; intros b [= <-]; vm_compute; discriminate. }
  pose proof (redis_command_framed args Hok ltac:(discriminate)) as H. cbv zeta in H.
  assert (E : redis_frame_size args = Some 28) by (vm_compute; reflexivity). rewrite E in H.
  split; [exact Hok|]. split; [exact E|]. intros buf Hb. apply H. exact Hb.
Defined.

Lemma redis_command_roundtrip_witness :
  command_small [bs "foo"; bs "ab"] /\ exists s',
    redis_timed_read 1000 CWIST_REDIS_TIMED_MAX_DEPTH (sample_conn sample_rx) =
      (Done (reply_of (RArray (map RBulk [bs "foo"; bs "ab"]))), s') /\ stream s' = bs "+".
Proof.
  assert (Hs : command_small [bs "foo"; bs "ab"]).
  { split; [vm_compute; discriminate|]. split; [vm_compute; discriminate|]. repeat constructor; vm_compute; discriminate. }
  split; [exact Hs|]. apply (redis_command_roundtrip 1000 (sample_conn sample_rx)).
  - reflexivity.
  - constructor; cbn; try lia; try done; repeat constructor; cbn; try done; lia.
  - exact Hs.
  - vm_compute. reflexivity.
Defined.
