(* ===== verification/RedisCall.v ===== *)
(** * A call over a pooled connection

    One command and its reply before a deadline, on a connection that is
    replaced whenever it could be out of step; and the pool that lends the
    connections out. *)

From S2P Require Import Prelude.
From S2P Require Import Redis RedisResp RedisTimed.

(** ** The call *)

(** What was written to a closed socket stays in [wire] until another is
    installed. *)
Definition redis_conn_discard (s : redis) : redis := s <| rd_open := false |> <| recv_buf := [] |>.

(** [poll] without waiting, again when it is interrupted. *)
Fixpoint unclean_loop (fuel : nat) (s : redis) : bool * redis :=
  match fuel with
  | O => (true, s)
  | S fuel =>
      let (p, s) := poll s in
      match p with
      | PollIntr => unclean_loop fuel s
      | PollTimeout => (false, s)
      | PollReady | PollErr => (true, s)
      end
  end.
Definition redis_conn_unclean (s : redis) : bool * redis :=
  if negb (length s.(recv_buf) =? 0)%nat then (true, s) else unclean_loop (S (length s.(polls))) s.

Definition check_call : RedisM unit := fun s =>
  let (ok, s) := syscall s in (if ok then Done tt else Fail (- EIO), s).

Section Deadline.
Context (deadline : Z) (peer_known : bool).

(** The new socket's data are the next of [reconnects]. *)
Definition install_socket : RedisM unit := modify (fun s =>
  match s.(reconnects) with
  | [] => s <| rd_open := true |> <| recv_buf := [] |> <| incoming := [] |> <| wire := [] |>
  | rx :: rest => s <| rd_open := true |> <| recv_buf := [] |> <| incoming := rx |> <| wire := [] |> <| reconnects := rest |>
  end).
Definition redis_reconnect : RedisM unit :=
  if negb peer_known then fail (- EIO)
  else
    check_call ≫= fun _ => (* socket *)
    check_call ≫= fun _ => (* F_GETFL *)
    check_call ≫= fun _ => (* O_NONBLOCK *)
    (fun s =>
       let (connected, s) := syscall s in
       if connected then (Done tt, s)
       else
         let (in_progress, s) := syscall s in
         if negb in_progress then (Fail (- EIO), s)
         else
           (redis_wait_fd deadline ≫= fun _ =>
            check_call ≫= fun _ => (* getsockopt *)
            check_call) s) ≫= fun _ => (* SO_ERROR *)
    check_call ≫= fun _ => (* flags back *)
    install_socket.

(** Up to the first byte written nothing is lost by giving up. *)
Definition call_prepare : RedisM unit := fun s =>
  let (t, s) := redis_now_ns s in
  if deadline <=? t then (Fail (- ETIMEDOUT), s)
  else
    let s :=
      if s.(rd_open) then
        let (unclean, s) := redis_conn_unclean s in if unclean then redis_conn_discard s else s
      else s in
    if s.(rd_open) then (Done tt, s) else redis_reconnect s.

Definition call_exchange (frame : bytes) : RedisM cwist_redis_reply :=
  check_call ≫= fun _ => (* F_GETFL *)
  check_call ≫= fun _ => (* O_NONBLOCK *)
  redis_send_deadline deadline frame ≫= fun _ =>
  modify (fun s => s <| nodes := 0 |> <| payload := 0 |>) ≫= fun _ =>
  tree ← redis_timed_read deadline CWIST_REDIS_TIMED_MAX_DEPTH;
  check_call ≫= fun _ => (* flags back *)
  mret tree.

(** What [cwist_redis_pool_command_argv_reply_timeout] does with the
    connection it holds. *)
Definition redis_call (frame : bytes) : RedisM cwist_redis_reply := fun s =>
  match call_prepare s with
  | (Fail c, s) => (Fail c, s)
  | (Done _, s) =>
      let (res, s) := call_exchange frame s in
      let failed := match res with Fail _ => true | Done _ => false end in
      let s := if failed || negb (length s.(recv_buf) =? 0)%nat then redis_conn_discard s else s in
      match res with
      | Done tree => if reply_type tree =? 45 then (Fail (- EBADMSG), s) else (Done tree, s)
      | Fail c => (Fail c, s)
      end
  end.
End Deadline.

(** ** The pool *)

(** [held]: which slot each thread holds. *)
Record redis_pool := MkPool {
  pl_conns : list redis; pl_available : list bool; pl_held : gmap nat nat }.
#[export] Instance pool_fields : Fields redis_pool := fun p =>
  MkPool p.(pl_conns) p.(pl_available) p.(pl_held).

(** The first free slot, and the first free one whose socket is open. *)
Fixpoint first_free (want_open : bool) (i : nat) (cs : list redis) (av : list bool) : option nat :=
  match cs, av with
  | c :: cs, a :: av => if a && (negb want_open || c.(rd_open)) then Some i else first_free want_open (S i) cs av
  | _, _ => None
  end.
(** One scan of [redis_pool_acquire_deadline]. *)
Definition acquire_pick (p : redis_pool) : option nat :=
  match first_free true 0 p.(pl_conns) p.(pl_available) with
  | Some i => Some i
  | None => first_free false 0 p.(pl_conns) p.(pl_available)
  end.
Definition take_slot (t i : nat) (p : redis_pool) : redis_pool :=
  p <| pl_available := <[i := false]> p.(pl_available) |> <| pl_held := <[t := i]> p.(pl_held) |>.
Definition redis_pool_release (t i : nat) (p : redis_pool) : redis_pool :=
  p <| pl_available := <[i := true]> p.(pl_available) |> <| pl_held := delete t p.(pl_held) |>.

(** What threads do; each is one critical section of the pool's or of a
    connection's mutex.  A thread that finds no slot waits or gives up. *)
Inductive pool_step : redis_pool -> redis_pool -> Prop :=
  | StepAcquire t p i :
      p.(pl_held) !! t = None -> acquire_pick p = Some i -> pool_step p (take_slot t i p)
  | StepCall t p i c deadline peer frame :
      p.(pl_held) !! t = Some i -> p.(pl_conns) !! i = Some c ->
      pool_step p (p <| pl_conns := <[i := (redis_call deadline peer frame c).2]> p.(pl_conns) |>)
  | StepRelease t p i :
      p.(pl_held) !! t = Some i -> pool_step p (redis_pool_release t i p).

(** ** What a call leaves alone *)

Definition same_socket (s s' : redis) : Prop :=
  rd_open s' = rd_open s /\ wire s' = wire s /\ reconnects s' = reconnects s.
Definition keeps {A} (m : RedisM A) : Prop := forall s, same_socket s (m s).2.

#[export] Instance same_socket_preorder : PreOrder same_socket.
Proof.
  split; [done|]. intros s1 s2 s3 (E1 & E2 & E3) (F1 & F2 & F3). split; [congruence|]. split; congruence.
Qed.

Create HintDb keeps.
Lemma keeps_bind {A B} (m : RedisM A) (k : A -> RedisM B) : keeps m -> (forall a, keeps (k a)) -> keeps (m ≫= k).
Proof.
  intros Hm Hk s. unfold mbind, redis_bind. specialize (Hm s). destruct (m s) as [[c|a] s1]; [done|].
  cbn [snd] in *. etransitivity; [exact Hm|apply Hk].
Qed.
Lemma keeps_ret {A} (a : A) : keeps (mret (M := RedisM) a).
Proof. by intros s. Qed.
Lemma keeps_fail {A} c : keeps (fail (A := A) c).
Proof. by intros s. Qed.
Lemma keeps_get : keeps get.
Proof. by intros s. Qed.
Lemma keeps_modify f : (forall s, same_socket s (f s)) -> keeps (modify f).
Proof. intros H s. apply H. Qed.
Lemma keeps_allocate : keeps allocate.
Proof. intros s. unfold allocate, alloc. by destruct (mem s) as [|[] o]. Qed.
#[export] Hint Resolve keeps_bind keeps_ret keeps_fail keeps_get keeps_allocate : keeps.

Lemma now_keeps s : let (_, s') := redis_now_ns s in same_socket s s'.
Proof. unfold redis_now_ns. by destruct (ticks s). Qed.
Lemma remaining_keeps d s : let (_, s') := redis_remaining_ms d s in same_socket s s'.
Proof.
  unfold redis_remaining_ms. destruct (d =? UINT64_MAX); [done|]. pose proof (now_keeps s) as H.
  destruct (redis_now_ns s) as [t s1]. by destruct (d <=? t).
Qed.
Lemma poll_keeps s : let (_, s') := poll s in same_socket s s' /\ recv_buf s' = recv_buf s /\ incoming s' = incoming s.
Proof. unfold poll. by destruct (polls s). Qed.
Lemma syscall_keeps s : let (_, s') := syscall s in same_socket s s' /\ recv_buf s' = recv_buf s /\ incoming s' = incoming s.
Proof. unfold syscall. by destruct (sys s). Qed.
Lemma recv_keeps n s : let (_, s') := recv n s in same_socket s s'.
Proof. unfold recv. destruct (incoming s) as [|[b| | | |] es]; try done. by destruct (drop n b). Qed.

Lemma wait_keeps d : keeps (redis_wait_fd d).
Proof.
  intros s. unfold redis_wait_fd. generalize (S (length (polls s))) as fuel. intros fuel. revert s.
  induction fuel as [|fuel IH]; intros s; cbn [redis_wait_loop]; [done|].
  pose proof (remaining_keeps d s) as H1. destruct (redis_remaining_ms d s) as [ms s1].
  destruct (ms <=? 0); [done|]. pose proof (poll_keeps s1) as H2. destruct (poll s1) as [p s2].
  destruct H2 as [H2 _]. assert (H : same_socket s s2) by (by etransitivity).
  destruct p; [done|by etransitivity; [exact H|apply IH]..|done].
Qed.
#[export] Hint Resolve wait_keeps : keeps.

Lemma fill_keeps d : keeps (redis_fill_deadline d).
Proof.
  intros s. unfold redis_fill_deadline. destruct (_ <=? _); [done|].
  generalize (S (length (incoming s))) as fuel. intros fuel. revert s.
  induction fuel as [|fuel IH]; intros s; cbn [redis_fill_loop]; [done|].
  pose proof (now_keeps s) as H1. destruct (redis_now_ns s) as [t s1]. destruct (d <=? t); [done|].
  pose proof (recv_keeps (Z.to_nat CWIST_REDIS_BUF_SIZE - length (recv_buf s1)) s1) as H2.
  destruct (recv _ s1) as [e s2]. assert (H : same_socket s s2) by (by etransitivity).
  destruct e as [[|x b]| | | |]; try exact H; [by etransitivity; [exact H|apply IH]|].
  pose proof (wait_keeps d s2) as H3. destruct (redis_wait_fd d s2) as [[c|u] s3]; cbn [snd] in *.
  - by etransitivity.
  - etransitivity; [exact H|]. etransitivity; [exact H3|apply IH].
Qed.
#[export] Hint Resolve fill_keeps : keeps.

Ltac keeps_step :=
  match goal with
  | |- keeps (_ ≫= _) => apply keeps_bind; [|intros ?]
  | |- keeps (modify _) => apply keeps_modify; intros ?; done
  | |- keeps (match ?x with _ => _ end) => destruct x
  | |- keeps (let _ := _ in _) => cbv zeta
  | |- keeps _ => solve [auto with keeps]
  end.

Lemma peek_keeps d : keeps (redis_peek_line d).
Proof.
  assert (H : forall fuel scanned, keeps (redis_peek_loop d fuel scanned)); [|intros s; apply H].
  induction fuel as [|fuel IH]; intros scanned; cbn [redis_peek_loop]; repeat keeps_step.
Qed.
Lemma read_keeps d len : keeps (redis_read_exact d len).
Proof.
  assert (H : forall fuel out, keeps (redis_read_loop d fuel len out)); [|apply H].
  induction fuel as [|fuel IH]; intros out; cbn [redis_read_loop]; unfold redis_consume; repeat keeps_step.
Qed.
#[export] Hint Resolve peek_keeps read_keeps : keeps.

Lemma elements_keeps read n : keeps read -> keeps (read_elements read n).
Proof. intros H. induction n; cbn [read_elements]; repeat keeps_step. all: done. Qed.
Lemma timed_keeps d n : keeps (redis_timed_read d n).
Proof.
  induction n as [n IH] using lt_wf_ind.
  assert (H : forall read, (forall r, read = Some r -> keeps r) -> keeps (timed_node d read)).
  { intros read Hread. unfold timed_node, count_node, read_bulk, read_array, read_text, redis_copy_str, redis_consume, add_payload.
    repeat (keeps_step || (apply elements_keeps, Hread; reflexivity)). }
  destruct n as [|n]; apply H; [done|]. intros r [= <-]. apply IH. lia.
Qed.

(** ** In step with the server *)

(** Nothing that arrived is left unread. *)
Definition idle (s : redis) : Prop := recv_buf s = [].

(** The socket a call writes to, by what was written to it and what it will
    deliver: the one there was, or the next new one. *)
Definition next_stream (s : redis) : bytes :=
  match reconnects s with [] => [] | rx :: _ => concat (map rx_bytes rx) end.
Definition socket_for (s : redis) (w st : bytes) : Prop :=
  (rd_open s = true /\ w = wire s /\ st = stream s) \/ (w = [] /\ st = next_stream s).

(** The same bytes before and after. *)
Definition same_bytes (s s' : redis) : Prop := same_socket s s' /\ recv_buf s' = recv_buf s /\ incoming s' = incoming s.
#[export] Instance same_bytes_preorder : PreOrder same_bytes.
Proof.
  split; [done|]. intros s1 s2 s3 (H1 & E2 & E3) (H2 & F2 & F3). split; [by etransitivity|]. split; congruence.
Qed.
Lemma same_stream s s' : same_bytes s s' -> stream s' = stream s.
Proof. intros (_ & E1 & E2). unfold stream. congruence. Qed.

Lemma now_bytes s : let (_, s') := redis_now_ns s in same_bytes s s'.
Proof. unfold redis_now_ns. by destruct (ticks s). Qed.
Lemma wait_bytes d s : let (o, s') := redis_wait_fd d s in match o with Done _ => same_bytes s s' | Fail _ => same_socket s s' end.
Proof.
  pose proof (redis_wait_spec d s) as H1. pose proof (wait_keeps d s) as H2. unfold waits in H1.
  destruct (redis_wait_fd d s) as [[c|u] s']; [done|]. by destruct H1 as (? & ? & _).
Qed.

(** What sending [b] does. *)
Definition sent (b : bytes) (s : redis) (res : outcome unit * redis) : Prop :=
  let (o, s') := res in
  rd_open s' = rd_open s /\ reconnects s' = reconnects s /\ recv_buf s' = recv_buf s /\
  match o with Done _ => wire s' = wire s ++ b /\ incoming s' = incoming s | Fail _ => True end.

Lemma sent_after b1 b2 s s1 res : rd_open s1 = rd_open s -> reconnects s1 = reconnects s -> recv_buf s1 = recv_buf s ->
  wire s1 = wire s ++ b1 -> incoming s1 = incoming s -> sent b2 s1 res -> sent (b1 ++ b2) s res.
Proof.
  intros E1 E2 E3 E4 E5. destruct res as [o s']. intros (F1 & F2 & F3 & F4). split; [congruence|]. split; [congruence|].
  split; [congruence|]. destruct o; [done|]. destruct F4 as [F4 F5]. split; [by rewrite F4, E4, app_assoc|congruence].
Qed.
Lemma sent_same b s s1 res : same_bytes s s1 -> sent b s1 res -> sent b s res.
Proof.
  intros ((E1 & E2 & E3) & E4 & E5) H. apply (sent_after [] b s s1 res E1 E3 E4); [by rewrite app_nil_r|done|done].
Qed.
Lemma sent_fail b s s1 c : rd_open s1 = rd_open s -> reconnects s1 = reconnects s -> recv_buf s1 = recv_buf s -> sent b s (Fail c, s1).
Proof. done. Qed.

Lemma wait_fd_bytes d s : let (o, s') := redis_wait_fd d s in same_bytes s s'.
Proof.
  unfold redis_wait_fd. generalize (S (length (polls s))) as fuel. intros fuel. revert s.
  induction fuel as [|fuel IH]; intros s; cbn [redis_wait_loop]; [done|].
  assert (H1 : let (_, s') := redis_remaining_ms d s in same_bytes s s').
  { unfold redis_remaining_ms. destruct (d =? UINT64_MAX); [done|]. pose proof (now_bytes s) as H.
    destruct (redis_now_ns s) as [t s1]. by destruct (d <=? t). }
  destruct (redis_remaining_ms d s) as [ms s1]. destruct (ms <=? 0); [done|].
  pose proof (poll_keeps s1) as H2. destruct (poll s1) as [p s2]. assert (H : same_bytes s s2) by (by etransitivity; [exact H1|]).
  destruct p; [done| | |done]; specialize (IH s2); destruct (redis_wait_loop d fuel s2) as [o s3]; by etransitivity.
Qed.

Lemma redis_send_loop_spec d fuel : forall b s, sent b s (redis_send_loop d fuel b s).
Proof.
  induction fuel as [|fuel IH]; intros b s; destruct b as [|x b]; cbn [redis_send_loop];
    try by (split; [|split; [|split; [|rewrite ?app_nil_r]]]).
  pose proof (now_bytes s) as H1. destruct (redis_now_ns s) as [t s1].
  destruct (d <=? t); [by apply (sent_same _ s s1)|]. apply (sent_same _ s s1); [done|]. clear H1 s.
  assert (Hsome : forall n s2, rd_open s2 = rd_open s1 -> reconnects s2 = reconnects s1 -> recv_buf s2 = recv_buf s1 ->
    incoming s2 = incoming s1 -> wire s2 = wire s1 ++ take n (x :: b) ->
    sent (x :: b) s1 (match n with O => (Fail (- EIO), s2) | S _ => redis_send_loop d fuel (drop n (x :: b)) s2 end)).
  { intros n s2 E1 E2 E3 E4 E5. destruct n as [|n]; [done|]. rewrite <- (take_drop (S n) (x :: b)) at 1.
    by apply (sent_after _ _ s1 s2). }
  unfold send. destruct (sends s1) as [|[n| | |] es].
  - apply (Hsome (length (x :: b))); try done. by rewrite firstn_all.
  - set (s2 := s1 <| sends := es |> <| wire := _ |>).
    apply (Hsome (min n (length (x :: b))) s2); try done. unfold s2. cbn [wire set_field]. f_equal.
    destruct (decide (n <= length (x :: b))%nat).
    + by rewrite Nat.min_l.
    + rewrite Nat.min_r, firstn_all by lia. apply take_ge. lia.
  - by apply (sent_same _ s1 (s1 <| sends := es |>)).
  - set (s2 := s1 <| sends := es |>). pose proof (wait_fd_bytes d s2) as H. destruct (redis_wait_fd d s2) as [[c|u] s3].
    + by apply (sent_same _ s1 s3); [etransitivity; [|exact H]|].
    + by apply (sent_same _ s1 s3); [etransitivity; [|exact H]|].
  - by apply (sent_same _ s1 (s1 <| sends := es |>)).
Qed.

Section Calls.
Context (deadline : Z) (peer_known : bool).

Lemma unclean_bytes s : let (_, s') := redis_conn_unclean s in same_bytes s s'.
Proof.
  unfold redis_conn_unclean. destruct (negb _); [done|]. generalize (S (length (polls s))) as fuel. intros fuel. revert s.
  induction fuel as [|fuel IH]; intros s; cbn [unclean_loop]; [done|].
  pose proof (poll_keeps s) as H. destruct (poll s) as [p s1]. destruct p; try done.
  specialize (IH s1). destruct (unclean_loop fuel s1) as [b s2]. by etransitivity.
Qed.

Lemma check_bytes s : let (o, s') := check_call s in same_bytes s s' /\ match o with Fail c => c = - EIO | Done _ => True end.
Proof. unfold check_call. pose proof (syscall_keeps s) as H. by destruct (syscall s) as [[] s']. Qed.

(** Calls that leave the bytes alone, and what comes behind one. *)
Definition gentle {A} (m : RedisM A) : Prop := forall s, same_bytes s (m s).2.
Lemma gentle_then {A B} (P : outcome B * redis -> Prop) (m : RedisM A) (k : A -> RedisM B) s :
  gentle m -> (forall c s1, same_bytes s s1 -> P (Fail c, s1)) -> (forall a s1, same_bytes s s1 -> P (k a s1)) ->
  P ((m ≫= k) s).
Proof.
  intros Hm Hf Hk. unfold mbind, redis_bind. specialize (Hm s). destruct (m s) as [[c|a] s1]; [by apply Hf|by apply Hk].
Qed.
Lemma gentle_bind {A B} (m : RedisM A) (k : A -> RedisM B) : gentle m -> (forall a, gentle (k a)) -> gentle (m ≫= k).
Proof.
  intros Hm Hk s. apply (gentle_then (fun r => same_bytes s r.2)); [done|done|].
  intros a s1 H. etransitivity; [exact H|apply Hk].
Qed.
Lemma gentle_check : gentle check_call.
Proof. intros s. pose proof (check_bytes s) as H. destruct (check_call s) as [o s1]. apply H. Qed.
Lemma gentle_wait : gentle (redis_wait_fd deadline).
Proof. intros s. pose proof (wait_fd_bytes deadline s) as H. destruct (redis_wait_fd deadline s) as [o s1]. exact H. Qed.

(** A new socket, or still none. *)
Lemma reconnect_spec s : idle s -> rd_open s = false ->
  let (o, s') := redis_reconnect deadline peer_known s in
  idle s' /\
  match o with
  | Done _ => rd_open s' = true /\ wire s' = [] /\ stream s' = next_stream s
  | Fail _ => rd_open s' = false
  end.
Proof.
  intros Hi Hc.
  set (P := fun r : outcome unit * redis => idle r.2 /\
    match r.1 with
    | Done _ => rd_open r.2 = true /\ wire r.2 = [] /\ stream r.2 = next_stream s
    | Fail _ => rd_open r.2 = false
    end).
  enough (H : P (redis_reconnect deadline peer_known s)) by (destruct (redis_reconnect deadline peer_known s) as [[c|u] s']; exact H).
  assert (Hf : forall c s1, same_bytes s s1 -> P (Fail c, s1)).
  { intros c s1 ((E1 & _ & _) & E2 & _). split; cbn; [unfold idle|]; congruence. }
  assert (Hstep : forall A (m : RedisM A) k s0, gentle m -> same_bytes s s0 ->
    (forall a s1, same_bytes s s1 -> P (k a s1)) -> P ((m ≫= k) s0)).
  { intros A m k s0 Hm H0 Hk. apply gentle_then; [done| |].
    - intros c s1 H. apply Hf. by etransitivity.
    - intros a s1 H. apply Hk. by etransitivity. }
  unfold redis_reconnect. destruct peer_known; cbn [negb]; [|by apply Hf].
  apply Hstep; [exact gentle_check|done|intros [] s1 H1].
  apply Hstep; [exact gentle_check|done|intros [] s2 H2].
  apply Hstep; [exact gentle_check|done|intros [] s3 H3].
  apply Hstep; [|done|intros [] s4 H4].
  { intros z0. pose proof (syscall_keeps z0) as K1. destruct (syscall z0) as [[] z1]; [exact K1|].
    pose proof (syscall_keeps z1) as K2. destruct (syscall z1) as [b z2]. assert (H : same_bytes z0 z2) by (by transitivity z1).
    destruct b; cbn [negb]; [|exact H]. transitivity z2; [exact H|].
    apply gentle_bind; [exact gentle_wait|]. intros []. apply gentle_bind; [exact gentle_check|]. intros []. exact gentle_check. }
  apply Hstep; [exact gentle_check|done|]. intros [] s5 ((_ & _ & E) & _ & _).
  unfold install_socket, modify, P, next_stream. rewrite E. by destruct (reconnects s) as [|rx rest].
Qed.

(** Before anything is written. *)
Lemma prepare_spec s : idle s ->
  let (o, s') := call_prepare deadline peer_known s in
  idle s' /\
  match o with
  | Done _ => rd_open s' = true /\ socket_for s (wire s') (stream s')
  | Fail _ => rd_open s' = true -> rd_open s = true /\ wire s' = wire s /\ stream s' = stream s
  end.
Proof.
  intros Hi. unfold call_prepare. pose proof (now_bytes s) as H0. destruct (redis_now_ns s) as [t s0].
  pose proof (same_stream _ _ H0) as Es0. destruct H0 as ((E1 & E2 & E3) & E4 & _).
  destruct (deadline <=? t); [split; [unfold idle; congruence|]; intros ?; by split; [congruence|]|].
  assert (Hnew : forall s1, idle s1 -> rd_open s1 = false -> reconnects s1 = reconnects s ->
    let (o, s') := redis_reconnect deadline peer_known s1 in idle s' /\
    match o with
    | Done _ => rd_open s' = true /\ socket_for s (wire s') (stream s')
    | Fail _ => rd_open s' = true -> rd_open s = true /\ wire s' = wire s /\ stream s' = stream s
    end).
  { intros s1 Hi1 Hc1 Er. pose proof (reconnect_spec s1 Hi1 Hc1) as H. destruct (redis_reconnect deadline peer_known s1) as [[c|u] s2].
    - destruct H as [H1 H2]. split; [done|]. congruence.
    - destruct H as (H1 & H2 & H3 & H4). split; [done|]. split; [done|]. right. split; [done|]. rewrite H4. unfold next_stream. by rewrite Er. }
  destruct (rd_open s0) eqn:Eo; cbn [rd_open].
  - pose proof (unclean_bytes s0) as Hu. destruct (redis_conn_unclean s0) as [[] s1].
    + destruct Hu as ((F1 & F2 & F3) & _). apply Hnew; [done|done|cbn; congruence].
    + pose proof (same_stream _ _ Hu) as Es1. destruct Hu as ((F1 & F2 & F3) & F4 & _). rewrite F1, Eo.
      split; [unfold idle in *; congruence|]. split; [congruence|]. left. split; [congruence|]. split; congruence.
  - rewrite Eo. apply Hnew; [unfold idle in *; congruence|done|done].
Qed.

(** What a call does on the socket it uses: it writes the command and takes
    the reply [v] from the front of what the socket delivers. *)
Definition exchanged (s : redis) (frame : bytes) (s' : redis) (v : resp) : Prop :=
  exists w st b p' rest, socket_for s w st /\ st = b ++ rest /\
    resp_at CWIST_REDIS_TIMED_MAX_DEPTH (0, 0) b v p' /\ wire s' = w ++ frame /\
    (rd_open s' = true -> stream s' = rest).

Lemma exchange_spec frame s t s' : rd_open s = true -> recv_buf s = [] ->
  call_exchange deadline frame s = (Done t, s') ->
  exists b v p', resp_at CWIST_REDIS_TIMED_MAX_DEPTH (0, 0) b v p' /\ t = reply_of v /\ stream s = b ++ stream s' /\
    wire s' = wire s ++ frame /\ rd_open s' = true.
Proof.
  intros Ho Hb. unfold call_exchange.
  set (P := fun r : outcome cwist_redis_reply * redis => r = (Done t, s') ->
    exists b v p', resp_at CWIST_REDIS_TIMED_MAX_DEPTH (0, 0) b v p' /\ t = reply_of v /\ stream s = b ++ stream s' /\
      wire s' = wire s ++ frame /\ rd_open s' = true).
  assert (Hf : forall c s1, P (Fail c, s1)) by (intros c s1 H; done).
  match goal with |- ?r = _ -> _ => change (P r) end.
  apply gentle_then; [exact gentle_check|intros; apply Hf|]. intros [] s1 H1.
  apply gentle_then; [exact gentle_check|intros; apply Hf|]. intros [] s2 H2.
  assert (H : same_bytes s s2) by (by transitivity s1). clear H1 H2 s1.
  pose proof (same_stream _ _ H) as Es2. destruct H as ((E1 & E2 & _) & _ & E5).
  unfold mbind at 1, redis_bind at 1, redis_send_deadline. pose proof (redis_send_loop_spec deadline (S (length (sends s2))) frame s2) as Hs.
  destruct (redis_send_loop deadline (S (length (sends s2))) frame s2) as [[c|u] s3]; [apply Hf|].
  destruct Hs as (F1 & _ & F3 & F4 & F5).
  unfold mbind at 1, redis_bind at 1, modify at 1. set (s4 := s3 <| nodes := 0 |> <| payload := 0 |>).
  unfold mbind at 1, redis_bind at 1.
  pose proof (timed_read_parses deadline CWIST_REDIS_TIMED_MAX_DEPTH s4) as Hp.
  pose proof (timed_keeps deadline CWIST_REDIS_TIMED_MAX_DEPTH s4) as Hk. unfold parses in Hp.
  destruct (redis_timed_read deadline CWIST_REDIS_TIMED_MAX_DEPTH s4) as [[c|t'] s5]; [apply Hf|].
  destruct Hp as (b & v & Hr & -> & Est & _). destruct Hk as (G1 & G2 & _). cbn [snd] in *.
  apply gentle_then; [exact gentle_check|intros; apply Hf|]. intros [] s6 H6. intros [= <- <-].
  pose proof (same_stream _ _ H6) as Es6. destruct H6 as ((K1 & K2 & _) & _).
  exists b, v, (counts s5). split; [exact Hr|]. split; [done|].
  assert (Es4 : stream s4 = stream s) by (unfold stream, s4 in *; cbn [recv_buf incoming set_field]; congruence).
  split; [congruence|]. assert (W4 : wire s4 = wire s3) by done. assert (O4 : rd_open s4 = rd_open s3) by done.
  split; congruence.
Qed.

(** C21: A call over a pooled connection stays in step with the server.  From an
    idle connection, whatever the sockets do, a reply that is returned was the
    first thing the socket delivered after everything written to it before was
    answered, and is no error; the connection ends idle, and if it is still
    open then either nothing was sent or exactly the command and its reply
    passed. *)
Theorem redis_call_in_step frame s :
  idle s ->
  let (res, s') := redis_call deadline peer_known frame s in
  idle s' /\
  match res with
  | Done t => exists v, exchanged s frame s' v /\ t = reply_of v /\ reply_type t <> 45
  | Fail c => rd_open s' = true ->
      (rd_open s = true /\ wire s' = wire s /\ stream s' = stream s) \/
      (c = - EBADMSG /\ exists v, exchanged s frame s' v /\ reply_type (reply_of v) = 45)
  end.
Proof.
  intros Hi. unfold redis_call. pose proof (prepare_spec s Hi) as Hp.
  destruct (call_prepare deadline peer_known s) as [[c|[]] s1].
  { destruct Hp as [H1 H2]. split; [done|]. intros Ho. left. by apply H2. }
  destruct Hp as (Hi1 & Ho1 & Hsock).
  pose proof (exchange_spec frame s1) as He. destruct (call_exchange deadline frame s1) as [[c|t] s2]; cbn [orb].
  { split; [done|]. done. }
  destruct (He t s2 Ho1 Hi1 eq_refl) as (b & v & p' & Hr & -> & Est & Ew & Ho2).
  set (s3 := if negb (length (recv_buf s2) =? 0)%nat then redis_conn_discard s2 else s2).
  assert (Hi3 : idle s3).
  { unfold s3. destruct (length (recv_buf s2) =? 0)%nat eqn:E0; cbn [negb]; [|done]. apply Nat.eqb_eq in E0.
    unfold idle. by destruct (recv_buf s2). }
  assert (Hx : exchanged s frame s3 v).
  { exists (wire s1), (stream s1), b, p', (stream s2). split; [done|]. split; [done|]. split; [done|].
    unfold s3. destruct (negb _); by split. }
  destruct (Z.eqb_spec (reply_type (reply_of v)) 45); (split; [done|]); [intros _; right|]; eauto.
Qed.
End Calls.

(** ** The pool lends each connection to one thread *)

Record pool_inv (p : redis_pool) : Prop := {
  pi_length : length (pl_available p) = length (pl_conns p);
  pi_busy : forall i, pl_available p !! i = Some false <-> exists t, pl_held p !! t = Some i;
  pi_one : forall t u i, pl_held p !! t = Some i -> pl_held p !! u = Some i -> t = u;
  pi_idle : Forall idle (pl_conns p) }.

Definition pool_new (cs : list redis) : redis_pool := MkPool cs (replicate (length cs) true) ∅.

Lemma first_free_spec want cs : forall i av j, first_free want i cs av = Some j ->
  (i <= j)%nat /\ av !! (j - i)%nat = Some true /\ (j - i < length cs)%nat.
Proof.
  induction cs as [|c cs IH]; intros i [|a av] j; cbn [first_free]; try done.
  destruct (a && _) eqn:E.
  - intros [= <-]. apply andb_true_iff in E as [-> _]. rewrite Nat.sub_diag. cbn. split; [lia|]. split; [done|lia].
  - intros H. destruct (IH _ _ _ H) as (H1 & H2 & H3). replace (j - i)%nat with (S (j - S i)) by lia.
    cbn. split; [lia|]. split; [done|lia].
Qed.
Lemma pick_spec p i : acquire_pick p = Some i -> pl_available p !! i = Some true.
Proof.
  unfold acquire_pick. destruct (first_free true 0 _ _) as [j|] eqn:E.
  - intros [= <-]. apply first_free_spec in E as (_ & H & _). by rewrite Nat.sub_0_r in H.
  - intros H. apply first_free_spec in H as (_ & H & _). by rewrite Nat.sub_0_r in H.
Qed.

Lemma pool_new_inv cs : Forall idle cs -> pool_inv (pool_new cs).
Proof.
  intros H. split; [apply length_replicate| |done|done]. intros i. split; [|by intros (t & ?)].
  intros E. by apply lookup_replicate in E as [? _].
Qed.

Lemma pool_step_inv p p' : pool_inv p -> pool_step p p' -> pool_inv p'.
Proof.
  intros [Hl Hb Ho Hi] H. destruct H as [t p i Ht Hp|t p i c d peer frame Ht Hc|t p i Ht].
  - apply pick_spec in Hp. assert (Hnone : forall u, pl_held p !! u <> Some i).
    { intros u Hu. assert (H : pl_available p !! i = Some false) by (apply Hb; by exists u). congruence. }
    unfold take_slot. split; cbn [pl_available pl_conns pl_held set_field]; [by rewrite length_insert| | |done].
    + intros j. destruct (decide (j = i)) as [->|Hj].
      * rewrite list_lookup_insert_eq by (by apply lookup_lt_Some in Hp). split; [|done]. intros _. exists t. by rewrite lookup_insert_eq.
      * rewrite list_lookup_insert_ne, Hb by done. split; intros (u & Hu); exists u.
        -- rewrite lookup_insert_ne; [done|]. congruence.
        -- apply lookup_insert_Some in Hu as [[_ ?]|[_ ?]]; [congruence|done].
    + intros u1 u2 j H1 H2. apply lookup_insert_Some in H1 as [[<- <-]|[? H1]], H2 as [[<- H2]|[? H2]]; try done.
      * by apply Hnone in H2.
      * subst j. by apply Hnone in H1.
      * by apply (Ho _ _ j).
  - split; cbn [pl_available pl_conns pl_held set_field]; [by rewrite length_insert|done|done|].
    apply list.Forall_insert; [done|]. pose proof (list.Forall_lookup_1 _ _ _ _ Hi Hc) as Hidle.
    pose proof (redis_call_in_step d peer frame c Hidle) as H. destruct (redis_call d peer frame c) as [res s']. exact (proj1 H).
  - unfold redis_pool_release. split; cbn [pl_available pl_conns pl_held set_field]; [by rewrite length_insert| | |done].
    + intros j. destruct (decide (j = i)) as [->|Hj].
      * assert (Hlt : (i < length (pl_available p))%nat) by (eapply lookup_lt_Some, Hb; by exists t).
        rewrite list_lookup_insert_eq by done. split; [done|]. intros (u & Hu). apply lookup_delete_Some in Hu as [Hne Hu].
        by destruct Hne; apply (Ho _ _ i).
      * rewrite list_lookup_insert_ne, Hb by done. split; intros (u & Hu); exists u.
        -- rewrite lookup_delete_ne; [done|]. congruence.
        -- by apply lookup_delete_Some in Hu as [_ ?].
    + intros u1 u2 j H1 H2. apply lookup_delete_Some in H1 as [_ H1], H2 as [_ H2]. by apply (Ho _ _ j).
Qed.

(** Whatever threads do with a pool of idle connections (taking slots,
    calling with any deadlines and outcomes, giving slots back), every taken
    slot is held by exactly one thread, every other one is available, and every
    connection is idle, so that each call starts and stays in step. *)
Theorem redis_pool_exclusive cs p :
  Forall idle cs -> rtc pool_step (pool_new cs) p -> pool_inv p.
Proof.
  intros Hcs H. assert (Hinv : pool_inv (pool_new cs)) by by apply pool_new_inv.
  revert Hinv. induction H as [|p1 p2 p3 H _ IH]; [done|]. intros Hinv. by apply IH, (pool_step_inv p1).
Qed.

(** ** Witnesses *)

Definition closed_conn (rx : list recv_outcome) : redis := MkRedis false [] [] [] [rx] [] [] [] 0 [] [] 0 0.
Definition one_reply : list recv_outcome := [RxData (bs "+P"); RxData (bs "ONG" ++ crlf)].

Lemma redis_call_in_step_witness :
  idle (closed_conn one_reply) /\ exists s' v,
    redis_call 1000 true (bs "PING" ++ crlf) (closed_conn one_reply) = (Done (reply_of v), s') /\
    exchanged (closed_conn one_reply) (bs "PING" ++ crlf) s' v.
Proof.
  assert (Hi : idle (closed_conn one_reply)) by reflexivity. split; [exact Hi|].
  pose proof (redis_call_in_step 1000 true (bs "PING" ++ crlf) (closed_conn one_reply) Hi) as H.
  destruct (redis_call 1000 true (bs "PING" ++ crlf) (closed_conn one_reply)) as [[c|t] s'] eqn:E.
  - exfalso. clear H. vm_compute in E. discriminate E.
  - destruct H as (_ & v & H1 & -> & _). exists s', v. split; [reflexivity|exact H1].
Defined.

Lemma redis_pool_exclusive_witness :
  let p := take_slot 7 0 (pool_new [closed_conn one_reply]) in
  Forall idle [closed_conn one_reply] /\ rtc pool_step (pool_new [closed_conn one_reply]) p /\ pool_inv p.
Proof.
  cbv zeta. assert (Hi : Forall idle [closed_conn one_reply]) by (constructor; [reflexivity|constructor]).
  assert (Hs : rtc pool_step (pool_new [closed_conn one_reply]) (take_slot 7 0 (pool_new [closed_conn one_reply]))).
  { eapply rtc_l; [|apply rtc_refl]. apply StepAcquire; reflexivity. }
  split; [exact Hi|]. split; [exact Hs|]. exact (redis_pool_exclusive _ _ Hi Hs).
Defined.
