(* ===== verification/RedisLegacy.v ===== *)
(** * The blocking Redis reader

    The reader of the calls without a deadline.  Its errors are
    [make_error(CWIST_ERR_INT16)], whose code is zero: a caller that looks at
    the code sees success, and the reader is such a caller of itself. *)

From S2P Require Import Prelude.
From S2P Require Import Redis.

Definition CWIST_REDIS_MAX_BULK_BYTES : Z := 536870912.
Definition CWIST_REDIS_MAX_REPLY_DEPTH : nat := 16.
Definition CWIST_REDIS_MAX_REPLY_ELEMENTS : Z := 1048576.

(** ** Lines and bytes *)

(** The buffered bytes up to a line feed, as long as the line has room. *)
Fixpoint take_line (room : nat) (buf line : bytes) : option bytes * bytes * bytes :=
  match room, buf with
  | S room, c :: buf =>
      if c =? LF then
        (Some (if (0 <? length line)%nat && (rd line (length line - 1) =? CR) then removelast line else line), line, buf)
      else take_line room buf (line ++ [c])
  | _, _ => (None, line, buf)
  end.

(** A blocking [recv] of what fits behind the buffered bytes. *)
Fixpoint recv_more (fuel : nat) (s : redis) : bool * redis :=
  match fuel with
  | O => (false, s)
  | S fuel =>
      let (e, s) := recv (Z.to_nat (CWIST_REDIS_BUF_SIZE - blen s.(recv_buf) - 1)) s in
      match e with
      | RxIntr => recv_more fuel s
      | RxData [] | RxEof | RxErr | RxAgain => (false, s)
      | RxData b => (true, s <| recv_buf := s.(recv_buf) ++ b |>)
      end
  end.
Definition recv_some (s : redis) : bool * redis := recv_more (S (length s.(incoming))) s.

Fixpoint recv_line_loop (fuel : nat) (line : bytes) (s : redis) : option bytes * redis :=
  match fuel with
  | O => (None, s)
  | S fuel =>
      let '(done, line, rest) := take_line (Z.to_nat (CWIST_REDIS_LINE_MAX - 1) - length line) s.(recv_buf) line in
      let s := s <| recv_buf := rest |> in
      match done with
      | Some l => (Some l, s)
      | None =>
          if CWIST_REDIS_LINE_MAX - 1 <=? blen line then (None, s)
          else
            let (ok, s) := recv_some s in
            if ok then recv_line_loop fuel line s else (None, s)
      end
  end.
(** A round adds a byte to the line. *)
Definition redis_recv_line (s : redis) : option bytes * redis := recv_line_loop (Z.to_nat CWIST_REDIS_LINE_MAX) [] s.

Fixpoint recv_bytes_loop (fuel len : nat) (out : bytes) (s : redis) : option bytes * redis :=
  if (length out <? len)%nat then
    match fuel with
    | O => (None, s)
    | S fuel =>
        let take_from s :=
          let n := min (length s.(recv_buf)) (len - length out) in
          recv_bytes_loop fuel len (out ++ take n s.(recv_buf)) (s <| recv_buf := drop n s.(recv_buf) |>) in
        if (0 <? length s.(recv_buf))%nat then take_from s
        else
          let (ok, s) := recv_some s in
          if ok then take_from s else (None, s)
    end
  else (Some out, s).
Definition redis_recv_bytes (len : nat) (s : redis) : option bytes * redis := recv_bytes_loop len len [] s.

(** ** Replies *)

(** [strtoll] in base ten: the value and what follows it; [None] without digits. *)
Definition isspace (c : Z) : bool := (c =? 32) || ((9 <=? c) && (c <=? 13)).
Fixpoint skip_space (s : bytes) : bytes :=
  match s with c :: s' => if isspace c then skip_space s' else s | [] => [] end.
Fixpoint leading_digits (s : bytes) : bytes :=
  match s with c :: s' => if isdigit c then c :: leading_digits s' else [] | [] => [] end.
Definition strtoll (s : bytes) : option (Z * bytes) :=
  let s := skip_space s in
  let '(neg, s) := match s with c :: s' => if c =? 45 then (true, s') else if c =? 43 then (false, s') else (false, s) | [] => (false, []) end in
  let ds := leading_digits s in
  if bool_decide (ds = []) then None
  else
    let v := digits_value ds 0 in
    let v := if neg then Z.max (- v) (-9223372036854775808) else Z.min v 9223372036854775807 in
    Some (v, drop (length ds) s).

Definition legacy_alloc (s : redis) : bool * redis :=
  let (ok, o) := alloc s.(mem) in (ok, s <| mem := o |>).

Fixpoint legacy_elements (read : redis -> option cwist_redis_reply * redis) (n : nat) (s : redis)
  : list (option cwist_redis_reply) * redis :=
  match n with
  | O => ([], s)
  | S n =>
      let (e, s) := read s in
      let (es, s) := legacy_elements read n s in
      (e :: es, s)
  end.

Definition legacy_bulk (len : Z) (s : redis) : option cwist_redis_reply * redis :=
  if len <? 0 then (Some (MkReply 36 None 0 0 []), s)
  else if CWIST_REDIS_MAX_BULK_BYTES <? len then (None, s)
  else
    let (ok, s) := legacy_alloc s in
    if negb ok then (None, s)
    else
      match redis_recv_bytes (Z.to_nat len) s with
      | (None, s) => (None, s)
      | (Some buf, s) =>
          match redis_recv_bytes 2 s with
          | (None, s) => (None, s)
          | (Some _, s) => (Some (MkReply 36 (Some buf) len len []), s)
          end
      end.

(** The reply, or NULL; the error code is zero either way.  [levels] is what
    is left of [CWIST_REDIS_MAX_REPLY_DEPTH]. *)
Fixpoint redis_read_resp (levels : nat) (s : redis) : option cwist_redis_reply * redis :=
  let (ok, s) := legacy_alloc s in
  if negb ok then (None, s)
  else
    match redis_recv_line s with
    | (None, s) => (None, s)
    | (Some raw, s) =>
        let line := cstr raw in
        let type := rd line 0 in
        let text := drop 1 line in
        let number := match strtoll text with Some (v, []) => Some v | _ => None end in
        if (type =? 43) || (type =? 45) then
          let (ok, s) := legacy_alloc s in
          if ok then (Some (MkReply type (Some text) (blen text) 0 []), s) else (None, s)
        else if type =? 58 then
          match number with
          | None => (None, s)
          | Some v =>
              let (ok, s) := legacy_alloc s in
              if ok then (Some (MkReply type (Some text) (blen text) v []), s) else (None, s)
          end
        else if type =? 36 then
          match number with Some len => legacy_bulk len s | None => (None, s) end
        else if type =? 42 then
          match levels, number with
          | S levels, Some count =>
              if (count <? 0) || (CWIST_REDIS_MAX_REPLY_ELEMENTS <? count) then (None, s)
              else if count =? 0 then (Some (MkReply 42 None 0 0 []), s)
              else
                let (ok, s) := legacy_alloc s in
                if negb ok then (None, s)
                else
                  let (es, s) := legacy_elements (redis_read_resp levels) (Z.to_nat count) s in
                  (Some (MkReply 42 None 0 0 es), s)
          | _, _ => (None, s)
          end
        else (None, s)
    end.

(** The value and length that the string calls hand out; [None] is NULL. *)
Definition flatten_reply (o : oracle) (t : option cwist_redis_reply) : option bytes * Z * oracle :=
  match t with
  | Some (MkReply type (Some str) len _ _) =>
      if (type =? 43) || (type =? 58) then
        let (ok, o) := alloc o in (if ok then Some (cstr str) else None, blen (cstr str), o)
      else if type =? 36 then
        let (ok, o) := alloc o in if ok then (Some str, len, o) else (None, 0, o)
      else (None, 0, o)
  | _ => (None, 0, o)
  end.

(** ** What a lost connection looks like *)

Definition dead (s : redis) : Prop := recv_buf s = [] /\ incoming s = [] /\ mem s = [].

Lemma dead_line s : dead s -> exists s', redis_recv_line s = (None, s') /\ dead s'.
Proof.
  intros (E1 & E2 & E3). unfold redis_recv_line. change (Z.to_nat CWIST_REDIS_LINE_MAX) with (S (Z.to_nat 8191)).
  cbn [recv_line_loop]. rewrite E1. destruct (Z.to_nat (CWIST_REDIS_LINE_MAX - 1) - length (@nil Z))%nat; cbn [take_line];
    destruct (_ <=? _); try (by eexists); unfold recv_some; cbn [incoming set_field]; rewrite E2;
    cbn [recv_more length]; unfold recv; cbn [incoming set_field]; rewrite E2; by eexists.
Qed.
Lemma dead_read levels s : dead s -> exists s', redis_read_resp levels s = (None, s') /\ dead s'.
Proof.
  intros Hd. assert (Hr : redis_read_resp levels s = match redis_recv_line (s <| mem := [] |>) with
    | (None, s) => (None, s) | _ => redis_read_resp levels s end).
  { destruct (dead_line (s <| mem := [] |>)) as (s' & E & _); [by destruct Hd as (? & ? & ?)|]. rewrite E.
    destruct levels; cbn [redis_read_resp]; unfold legacy_alloc, alloc; rewrite (proj2 (proj2 Hd)); cbn [negb]; by rewrite E. }
  rewrite Hr. destruct (dead_line (s <| mem := [] |>)) as (s' & E & Hd'); [by destruct Hd as (? & ? & ?)|].
  rewrite E. by exists s'.
Qed.
Lemma dead_elements levels n : forall s, dead s ->
  exists s', legacy_elements (redis_read_resp levels) n s = (replicate n None, s') /\ dead s'.
Proof.
  induction n as [|n IH]; intros s Hd; cbn [legacy_elements replicate]; [by exists s|].
  destruct (dead_read levels s Hd) as (s1 & -> & Hd1). destruct (IH s1 Hd1) as (s2 & -> & Hd2). by exists s2.
Qed.

Lemma leading_digits_all ds : Forall (fun c => isdigit c = true) ds -> leading_digits ds = ds.
Proof. induction 1 as [|c ds Hc _ IH]; cbn; [done|]. by rewrite Hc, IH. Qed.
Lemma strtoll_dec n : 0 <= n <= 9223372036854775807 -> strtoll (dec n) = Some (n, []).
Proof.
  intros Hn. destruct (dec_spec n) as (Hv & Hd & _ & Hne); [unfold is_u64; lia|]. unfold strtoll.
  destruct (dec n) as [|c s] eqn:E; [done|]. rewrite <- E in *.
  assert (Hc : isdigit c = true) by (rewrite E in Hd; by apply list.Forall_cons in Hd as [? _]).
  assert (Hsk : skip_space (dec n) = dec n).
  { rewrite E. cbn [skip_space]. unfold isspace, isdigit in *. by replace ((c =? 32) || ((9 <=? c) && (c <=? 13))) with false by lia. }
  rewrite Hsk, E. replace (c =? 45) with false by (unfold isdigit in Hc; lia). replace (c =? 43) with false by (unfold isdigit in Hc; lia).
  rewrite <- E, leading_digits_all by done. rewrite bool_decide_false by done. rewrite drop_all, Hv. f_equal. f_equal. lia.
Qed.

Lemma take_line_spec l : forall room rest line, Forall (fun x => x <> LF) l -> (length l < room)%nat ->
  take_line room (l ++ LF :: rest) line =
  let line := line ++ l in
  (Some (if (0 <? length line)%nat && (rd line (length line - 1) =? CR) then removelast line else line), line, rest).
Proof.
  induction l as [|c l IH]; intros room rest line Hl Hr; (destruct room as [|room]; [cbn in Hr; lia|]); cbn [app take_line].
  - by rewrite app_nil_r.
  - apply list.Forall_cons in Hl as [Hc Hl]. destruct (Z.eqb_spec c LF); [done|].
    rewrite IH by (done || (cbn in Hr; lia)). by rewrite <- app_assoc.
Qed.

(** The connection is lost behind the header of an array of [n]: the reader
    returns an array of [n] NULL elements, as a success. *)
Theorem legacy_truncated_array n s :
  1 <= n <= CWIST_REDIS_MAX_REPLY_ELEMENTS -> recv_buf s = 42 :: dec n ++ crlf -> incoming s = [] -> mem s = [] ->
  exists s', redis_read_resp CWIST_REDIS_MAX_REPLY_DEPTH s = (Some (MkReply 42 None 0 0 (replicate (Z.to_nat n) None)), s').
Proof.
  intros Hn Hb Hi Hm. assert (HE : CWIST_REDIS_MAX_REPLY_ELEMENTS = 1048576) by done.
  destruct (dec_spec n) as (_ & Hd & Hlen & _); [unfold is_u64; lia|].
  assert (Hdig : forall P : Z -> Prop, (forall c, 48 <= c <= 57 -> P c) -> Forall P (dec n)).
  { intros P HP. eapply list.Forall_impl; [exact Hd|]. intros c Hc. apply HP. unfold isdigit in Hc. lia. }
  set (line := 42 :: dec n).
  set (s1 := s <| recv_buf := [] |>).
  assert (Hline : forall s0, recv_buf s0 = recv_buf s -> redis_recv_line s0 = (Some line, s0 <| recv_buf := [] |>)).
  { intros s0 E0. unfold redis_recv_line. change (Z.to_nat CWIST_REDIS_LINE_MAX) with (S (Z.to_nat 8191)). cbn [recv_line_loop].
    rewrite E0, Hb. change (42 :: dec n ++ crlf) with (line ++ [CR] ++ LF :: []). rewrite app_assoc, take_line_spec.
    - cbv zeta. cbn [app]. rewrite length_app. cbn [length].
      replace (length line + 1 - 1)%nat with (length line) by lia. rewrite rd_app_r, Nat.sub_diag by lia.
      change (rd [CR] 0 =? CR) with true. replace (0 <? length line + 1)%nat with true by (symmetry; apply Nat.ltb_lt; lia).
      cbn [andb]. by rewrite removelast_last.
    - apply list.Forall_app_2; [|by repeat constructor]. constructor; [done|]. apply Hdig. intros c Hc. unfold LF. lia.
    - rewrite length_app. change (length line) with (S (length (dec n))). change (length [CR]) with 1%nat.
      change (length []) with 0%nat. change (CWIST_REDIS_LINE_MAX - 1) with 8191.
      apply Nat2Z.inj_lt. rewrite Nat.sub_0_r, Z2Nat.id by lia. lia. }
  assert (Hcstr : cstr line = line).
  { unfold line. cbn [cstr Z.eqb]. f_equal. clear -Hdig.
    assert (H : Forall (fun c => c <> 0) (dec n)) by (apply Hdig; intros c Hc; lia). clear Hdig. induction H as [|c l Hc _ IH]; cbn; [done|].
    destruct (Z.eqb_spec c 0); [done|]. by rewrite IH. }
  change CWIST_REDIS_MAX_REPLY_DEPTH with (S 15). generalize 15%nat as levels. intros levels. cbn [redis_read_resp]. unfold legacy_alloc at 1, alloc at 1. rewrite Hm. cbn [negb].
  rewrite Hline by done. rewrite Hcstr. change (drop 1 line) with (dec n). change (rd line 0) with 42.
  rewrite strtoll_dec by lia. cbn [Z.eqb Pos.eqb orb].
  destruct (Z.ltb_spec n 0); [lia|]. destruct (Z.ltb_spec CWIST_REDIS_MAX_REPLY_ELEMENTS n); [lia|]. cbn [orb].
  destruct (Z.eqb_spec n 0); [lia|]. unfold legacy_alloc at 1, alloc at 1. cbn [mem set_field negb].
  match goal with |- context [legacy_elements _ _ ?s2] => destruct (dead_elements levels (Z.to_nat n) s2) as (s3 & E & _); [done|] end.
  rewrite E. by eexists.
Qed.
