(* ===== verification/Sha256.v ===== *)
(** * SHA-256 and HMAC (core/crypto/sha256.h)

    The bundled SHA-256, fed a byte at a time, and the HMAC over it, against
    FIPS 180-4 and RFC 2104.  The specification computes its constants from the
    primes they come from. *)

From S2P Require Import Prelude Sha1.

(** ** The source *)

Definition CWIST_SHA256_DIGEST_LEN : nat := 32.

Definition cwist_sha256_rotr (x n : Z) : Z := Z.lor (Z.shiftr x n) (u32 (Z.shiftl x (32 - n))).

(** The rows of the C table. *)
Definition sha256_k : words := Eval cbv in concat
  [[0x428a2f98; 0x71374491; 0xb5c0fbcf; 0xe9b5dba5; 0x3956c25b; 0x59f111f1; 0x923f82a4];
   [0xab1c5ed5; 0xd807aa98; 0x12835b01; 0x243185be; 0x550c7dc3; 0x72be5d74; 0x80deb1fe];
   [0x9bdc06a7; 0xc19bf174; 0xe49b69c1; 0xefbe4786; 0x0fc19dc6; 0x240ca1cc; 0x2de92c6f];
   [0x4a7484aa; 0x5cb0a9dc; 0x76f988da; 0x983e5152; 0xa831c66d; 0xb00327c8; 0xbf597fc7];
   [0xc6e00bf3; 0xd5a79147; 0x06ca6351; 0x14292967; 0x27b70a85; 0x2e1b2138; 0x4d2c6dfc];
   [0x53380d13; 0x650a7354; 0x766a0abb; 0x81c2c92e; 0x92722c85; 0xa2bfe8a1; 0xa81a664b];
   [0xc24b8b70; 0xc76c51a3; 0xd192e819; 0xd6990624; 0xf40e3585; 0x106aa070; 0x19a4c116];
   [0x1e376c08; 0x2748774c; 0x34b0bcb5; 0x391c0cb3; 0x4ed8aa4a; 0x5b9cca4f; 0x682e6ff3];
   [0x748f82ee; 0x78a5636f; 0x84c87814; 0x8cc70208; 0x90befffa; 0xa4506ceb; 0xbef9a3f7];
   [0xc67178f2]].

Record cwist_sha256_ctx := MkSha {
  sh_state : words; sh_bitlen : Z; sh_data : bytes; sh_datalen : nat }.

Definition sha256_load (data : bytes) (i : nat) : Z :=
  Z.lor (Z.lor (Z.lor (Z.shiftl (rd data (i * 4)) 24) (Z.shiftl (rd data (i * 4 + 1)) 16))
               (Z.shiftl (rd data (i * 4 + 2)) 8)) (rd data (i * 4 + 3)).

(** [m[i]] for [i >= 16]; the array is filled in order, so [m] holds the first
    [i] words. *)
Definition sha256_word (m : words) (i : nat) : words :=
  let s0 := Z.lxor (Z.lxor (cwist_sha256_rotr (wd m (i - 15)) 7)
                           (cwist_sha256_rotr (wd m (i - 15)) 18))
                   (Z.shiftr (wd m (i - 15)) 3) in
  let s1 := Z.lxor (Z.lxor (cwist_sha256_rotr (wd m (i - 2)) 17)
                           (cwist_sha256_rotr (wd m (i - 2)) 19))
                   (Z.shiftr (wd m (i - 2)) 10) in
  m ++ [u32 (u32 (u32 (wd m (i - 16) + s0) + wd m (i - 7)) + s1)].

Record sha256_work := MkWork256 {
  w_a : Z; w_b : Z; w_c : Z; w_d : Z; w_e : Z; w_f : Z; w_g : Z; w_h : Z }.

Definition sha256_round (m : words) (s : sha256_work) (i : nat) : sha256_work :=
  let '(MkWork256 a b c d e f g h) := s in
  let s1 := Z.lxor (Z.lxor (cwist_sha256_rotr e 6) (cwist_sha256_rotr e 11))
                   (cwist_sha256_rotr e 25) in
  let ch := Z.lxor (Z.land e f) (Z.land (u32 (Z.lnot e)) g) in
  let t1 := u32 (u32 (u32 (u32 (h + s1) + ch) + wd sha256_k i) + wd m i) in
  let s0 := Z.lxor (Z.lxor (cwist_sha256_rotr a 2) (cwist_sha256_rotr a 13))
                   (cwist_sha256_rotr a 22) in
  let mj := Z.lxor (Z.lxor (Z.land a b) (Z.land a c)) (Z.land b c) in
  let t2 := u32 (s0 + mj) in
  MkWork256 (u32 (t1 + t2)) a b c (u32 (d + t1)) e f g.

Definition cwist_sha256_transform (state : words) (data : bytes) : words :=
  let m := fold_left sha256_word (seq 16 48) (map (sha256_load data) (seq 0 16)) in
  let s := MkWork256 (wd state 0) (wd state 1) (wd state 2) (wd state 3)
                     (wd state 4) (wd state 5) (wd state 6) (wd state 7) in
  let '(MkWork256 a b c d e f g h) := fold_left (sha256_round m) (seq 0 64) s in
  [u32 (wd state 0 + a); u32 (wd state 1 + b); u32 (wd state 2 + c); u32 (wd state 3 + d);
   u32 (wd state 4 + e); u32 (wd state 5 + f); u32 (wd state 6 + g); u32 (wd state 7 + h)].

Definition sha256_iv : words :=
  [0x6a09e667; 0xbb67ae85; 0x3c6ef372; 0xa54ff53a; 0x510e527f; 0x9b05688c; 0x1f83d9ab; 0x5be0cd19].

(** The context is on the stack: [data] holds whatever was there. *)
Definition cwist_sha256_init (stack : bytes) : cwist_sha256_ctx := MkSha sha256_iv 0 stack 0.

(** One turn of the update loop. *)
Definition sha256_byte (ctx : cwist_sha256_ctx) (b : Z) : cwist_sha256_ctx :=
  let data := put ctx.(sh_data) ctx.(sh_datalen) b in
  let datalen := S ctx.(sh_datalen) in
  if (datalen =? 64)%nat
  then MkSha (cwist_sha256_transform ctx.(sh_state) data) (u64 (ctx.(sh_bitlen) + 512)) data 0
  else MkSha ctx.(sh_state) ctx.(sh_bitlen) data datalen.
Definition cwist_sha256_update (ctx : cwist_sha256_ctx) (data : bytes) : cwist_sha256_ctx :=
  fold_left sha256_byte data ctx.

(** [data[i++] = 0x80; while (i < upto) data[i++] = 0x00;] *)
Definition pad_from (data : bytes) (i upto : nat) : bytes :=
  blit (put data i 128) (S i) (replicate (upto - S i) 0).

(** [for (j = 7; j >= 0; j--) data[63 - j] = (uint8_t)(bitlen >> (j * 8));] *)
Definition length_bytes (bitlen : Z) : bytes :=
  map (fun j => u8 (Z.shiftr bitlen (j * 8))) [7; 6; 5; 4; 3; 2; 1; 0].

Definition word_out (v : Z) : bytes :=
  [u8 (Z.shiftr v 24); u8 (Z.shiftr v 16); u8 (Z.shiftr v 8); u8 v].

(** The digest, and the context it leaves. *)
Definition cwist_sha256_final (ctx : cwist_sha256_ctx) : bytes * cwist_sha256_ctx :=
  let n := ctx.(sh_datalen) in
  let (state, data) :=
    if (n <? 56)%nat then (ctx.(sh_state), pad_from ctx.(sh_data) n 56)
    else
      let data := pad_from ctx.(sh_data) n 64 in
      (cwist_sha256_transform ctx.(sh_state) data, blit data 0 (replicate 56 0)) in
  let bitlen := u64 (ctx.(sh_bitlen) + Z.of_nat n * 8) in
  let data := blit data 56 (length_bytes bitlen) in
  let state := cwist_sha256_transform state data in
  (concat (map (fun i => word_out (wd state i)) (seq 0 8)), MkSha state bitlen data n).

(** [ipad] or [opad]: the 64 bytes of [k] against a constant. *)
Definition key_pad (k : bytes) (c : Z) : bytes := map (fun b => u8 (Z.lxor b c)) k.

(** [k] is cleared before the key, or its digest, is put at its front. *)
Definition hmac_key (stack key : bytes) : bytes :=
  if (64 <? length key)%nat
  then blit (replicate 64 0) 0
         (cwist_sha256_final (cwist_sha256_update (cwist_sha256_init stack) key)).1
  else if (0 <? length key)%nat then blit (replicate 64 0) 0 key
  else replicate 64 0.

Definition cwist_hmac_sha256 (stack key msg : bytes) : bytes :=
  let k := hmac_key stack key in
  let c := cwist_sha256_init stack in
  let c := cwist_sha256_update c (key_pad k 0x36) in
  let c := cwist_sha256_update c msg in
  let (inner, c) := cwist_sha256_final c in
  let c := cwist_sha256_init c.(sh_data) in
  let c := cwist_sha256_update c (key_pad k 0x5c) in
  let c := cwist_sha256_update c inner in
  (cwist_sha256_final c).1.

(** ** FIPS 180-4 and RFC 2104 *)

Definition rotr (n x : Z) : Z := x / 2 ^ n + (x mod 2 ^ n) * 2 ^ (32 - n).

Definition is_prime (n : nat) : bool :=
  forallb (fun d => negb (n mod d =? 0)%nat) (seq 2 (n - 2)).
Definition primes (bound : nat) : list Z :=
  map Z.of_nat (List.filter is_prime (seq 2 bound)).

(** The largest [r] below 2^[bits] with [r^3 <= n]. *)
Fixpoint cbrt_bits (bits : nat) (r n : Z) : Z :=
  match bits with
  | O => r
  | S bits =>
      let r' := r + 2 ^ Z.of_nat bits in
      cbrt_bits bits (if r' ^ 3 <=? n then r' else r) n
  end.
(** The first 32 bits of the fractional parts of cube and square roots. *)
Definition cube_root_word (p : Z) : Z := cbrt_bits 36 0 (p * 2 ^ 96) mod 2 ^ 32.
Definition square_root_word (p : Z) : Z := Z.sqrt (p * 2 ^ 64) mod 2 ^ 32.
Definition fips256_k : words := map cube_root_word (primes 310).
Definition fips256_iv : words := map square_root_word (primes 18).

Definition Ch (x y z : Z) : Z := Z.lxor (Z.land x y) (Z.land (Z.lxor x ones32) z).
Definition Maj (x y z : Z) : Z := Z.lxor (Z.land x y) (Z.lxor (Z.land x z) (Z.land y z)).
Definition Sigma0 (x : Z) : Z := Z.lxor (rotr 2 x) (Z.lxor (rotr 13 x) (rotr 22 x)).
Definition Sigma1 (x : Z) : Z := Z.lxor (rotr 6 x) (Z.lxor (rotr 11 x) (rotr 25 x)).
Definition sigma0 (x : Z) : Z := Z.lxor (rotr 7 x) (Z.lxor (rotr 18 x) (x / 2 ^ 3)).
Definition sigma1 (x : Z) : Z := Z.lxor (rotr 17 x) (Z.lxor (rotr 19 x) (x / 2 ^ 10)).

Fixpoint schedule256 (m : words) (n : nat) : words :=
  match n with
  | O => m
  | S n =>
      let l := schedule256 m n in
      let t := length l in
      l ++ [(sigma1 (wd l (t - 2)) + wd l (t - 7) + sigma0 (wd l (t - 15)) + wd l (t - 16)) mod 2 ^ 32]
  end.
Definition block_schedule256 (b : bytes) : words :=
  schedule256 (map (fun i => be_word b (4 * i)) (seq 0 16)) 48.

Definition fips256_round (w : words) (s : sha256_work) (t : nat) : sha256_work :=
  let '(MkWork256 a b c d e f g h) := s in
  let t1 := h + Sigma1 e + Ch e f g + wd fips256_k t + wd w t in
  let t2 := Sigma0 a + Maj a b c in
  MkWork256 ((t1 + t2) mod 2 ^ 32) a b c ((d + t1) mod 2 ^ 32) e f g.

Definition work_words (s : sha256_work) : words :=
  [w_a s; w_b s; w_c s; w_d s; w_e s; w_f s; w_g s; w_h s].
Definition work_of (h : words) : sha256_work :=
  MkWork256 (wd h 0) (wd h 1) (wd h 2) (wd h 3) (wd h 4) (wd h 5) (wd h 6) (wd h 7).
Definition compress256 (h : words) (b : bytes) : words :=
  zip_with (fun x y => (x + y) mod 2 ^ 32) (work_words (work_of h))
    (work_words (fold_left (fips256_round (block_schedule256 b)) (seq 0 64) (work_of h))).

Fixpoint compress256_blocks (n : nat) (h : words) (m : bytes) : words :=
  match n with
  | O => h
  | S n => compress256_blocks n (compress256 h (take 64 m)) (drop 64 m)
  end.
Definition sha256_padding (m : bytes) : bytes :=
  [128] ++ replicate (Z.to_nat ((55 - blen m) mod 64)) 0 ++ be_bytes 8 (8 * blen m).
Definition sha256_spec (m : bytes) : bytes :=
  let p := m ++ sha256_padding m in
  concat (map (be_bytes 4) (compress256_blocks (length p / 64) fips256_iv p)).

(** RFC 2104, for a hash of 64-byte blocks. *)
Definition block_key (H : bytes -> bytes) (key : bytes) : bytes :=
  let k := if (64 <? length key)%nat then H key else key in
  k ++ replicate (64 - length k) 0.
Definition hmac_spec (H : bytes -> bytes) (key text : bytes) : bytes :=
  let k := block_key H key in
  H (map (Z.lxor 0x5c) k ++ H (map (Z.lxor 0x36) k ++ text)).

Example sha256_abc :
  (cwist_sha256_final (cwist_sha256_update (cwist_sha256_init (replicate 64 7)) (bs "abc"))).1 =
  [0xba; 0x78; 0x16; 0xbf; 0x8f; 0x01; 0xcf; 0xea; 0x41; 0x41; 0x40; 0xde; 0x5d; 0xae; 0x22; 0x23;
   0xb0; 0x03; 0x61; 0xa3; 0x96; 0x17; 0x7a; 0x9c; 0xb4; 0x10; 0xff; 0x61; 0xf2; 0x00; 0x15; 0xad].
Proof. vm_compute. reflexivity. Qed.

(** ** The constants *)

Lemma sha256_k_fips : sha256_k = fips256_k.
Proof. vm_compute. reflexivity. Qed.
Lemma sha256_iv_fips : sha256_iv = fips256_iv.
Proof. vm_compute. reflexivity. Qed.

(** ** Words *)

Lemma rotr_rol x n : is_u32 x -> 0 <= n <= 32 -> cwist_sha256_rotr x n = rotr n x.
Proof.
  intros Hx Hn. unfold cwist_sha256_rotr, rotr. rewrite Z.lor_comm.
  replace (Z.lor _ _) with (rol32 x (32 - n))
    by (unfold rol32; by replace (32 - (32 - n)) with n by lia).
  rewrite rol32_rotl by (done || lia). unfold rotl. rewrite rotl_high by lia.
  replace (32 - (32 - n)) with n by lia. lia.
Qed.

Lemma rotr_u32 n x : is_u32 x -> 0 <= n <= 32 -> is_u32 (rotr n x).
Proof.
  intros Hx Hn. pose proof (rotl_u32 (32 - n) x Hx ltac:(lia)) as H.
  unfold rotl in H. rewrite rotl_high in H by lia. unfold rotr.
  replace (32 - (32 - n)) with n in H by lia. by rewrite Z.add_comm.
Qed.

Lemma lnot_ones x : is_u32 x -> u32 (Z.lnot x) = Z.lxor x ones32.
Proof.
  intros Hx. unfold u32. change 4294967296 with (2 ^ 32). rewrite <- Z.land_ones by lia.
  apply Z.bits_inj'. intros i Hi.
  rewrite Z.land_spec, Z.lnot_spec, Z.lxor_spec by lia.
  change (Z.ones 32) with ones32. rewrite !testbit_ones32 by lia.
  destruct (Z.ltb_spec i 32).
  - by destruct (Z.testbit x i).
  - rewrite (testbit_u32 x i) by (done || lia). by rewrite !andb_false_r.
Qed.

Lemma sha256_load_word data i : bytes_ok data -> sha256_load data i = be_word data (4 * i).
Proof.
  intros Hd. unfold sha256_load, be_word. rewrite (Nat.mul_comm i 4).
  pose proof (bytes_ok_rd data (4 * i) Hd). pose proof (bytes_ok_rd data (4 * i + 1) Hd).
  pose proof (bytes_ok_rd data (4 * i + 2) Hd). pose proof (bytes_ok_rd data (4 * i + 3) Hd).
  unfold is_u8 in *. rewrite !(lor_horner _ _ _ _) by (reflexivity || lia).
  rewrite lor_shiftl_add by lia. lia.
Qed.

(** A sum of wrapped terms, wrapped again, is the sum wrapped once. *)
Ltac mod_sum :=
  repeat (progress (rewrite ?Zplus_mod_idemp_l, ?Zplus_mod_idemp_r; rewrite <- ?Z.add_assoc));
  f_equal; ring.

(** ** The message schedule *)

Lemma schedule256_length m n : length (schedule256 m n) = (length m + n)%nat.
Proof. induction n as [|n IH]; cbn [schedule256]; rewrite ?length_app, ?IH; cbn; lia. Qed.

Lemma div_u32 x n : is_u32 x -> 0 <= n <= 32 -> is_u32 (x / 2 ^ n).
Proof.
  intros Hx Hn. unfold is_u32 in *. assert (0 < 2 ^ n) by (apply Z.pow_pos_nonneg; lia).
  split; [apply Z.div_pos; lia|]. apply Z.div_lt_upper_bound; nia.
Qed.

Lemma sha256_word_step m i :
  words_ok m -> (16 <= i)%nat -> length m = i ->
  sha256_word m i =
    m ++ [(sigma1 (wd m (i - 2)) + wd m (i - 7) + sigma0 (wd m (i - 15)) + wd m (i - 16)) mod 2 ^ 32].
Proof.
  intros Hm Hi El. unfold sha256_word, sigma0, sigma1.
  rewrite !rotr_rol by (first [by apply wd_ok|lia]). rewrite !Z.shiftr_div_pow2 by lia.
  rewrite !Z.lxor_assoc. do 2 f_equal. unfold u32. change (2 ^ 32) with 4294967296.
  mod_sum.
Qed.

Lemma schedule256_loop n : forall m,
  words_ok m -> length m = 16%nat ->
  fold_left sha256_word (seq 16 n) m = schedule256 m n /\ words_ok (schedule256 m n).
Proof.
  induction n as [|n IH]; intros m Hm Hl; [done|].
  destruct (IH m Hm Hl) as [E Hok].
  rewrite seq_S, fold_left_app, E. cbn [fold_left schedule256].
  pose proof (schedule256_length m n) as Hlen. rewrite Hl in Hlen.
  rewrite sha256_word_step by (done || lia). rewrite Hlen.
  split; [done|]. apply Forall_app_2; [done|]. apply list.Forall_singleton.
  unfold is_u32. change (2 ^ 32) with 4294967296. apply Z.mod_pos_bound. lia.
Qed.

Lemma schedule256_of_block data :
  bytes_ok data ->
  fold_left sha256_word (seq 16 48) (map (sha256_load data) (seq 0 16)) = block_schedule256 data /\
  words_ok (block_schedule256 data).
Proof.
  intros Hd. unfold block_schedule256.
  rewrite (map_ext _ (fun i => be_word data (4 * i)))
    by (intros i; by apply sha256_load_word).
  apply schedule256_loop; [|by rewrite length_map, length_seq].
  apply list.Forall_forall. intros x (i & -> & _)%list_elem_of_fmap. by apply be_word_u32.
Qed.

(** ** One block *)

Definition work_ok (s : sha256_work) : Prop := words_ok (work_words s).

Lemma sha256_round_fips m s i :
  work_ok s -> (i < 64)%nat ->
  sha256_round m s i = fips256_round m s i /\ work_ok (sha256_round m s i).
Proof.
  intros Hs Hi. destruct s as [a b c d e f g h]. unfold work_ok, work_words, words_ok in *.
  cbn [w_a w_b w_c w_d w_e w_f w_g w_h] in *. rewrite !list.Forall_cons in Hs.
  destruct Hs as (?&?&?&?&?&?&?&?&_). cbn [sha256_round fips256_round].
  rewrite !rotr_rol, lnot_ones by (first [done|lia]). rewrite <- sha256_k_fips.
  fold (Ch e f g). rewrite !Z.lxor_assoc. fold (Sigma1 e) (Sigma0 a) (Maj a b c). split.
  - f_equal; unfold u32; change (2 ^ 32) with 4294967296; zlia.
  - cbn [w_a w_b w_c w_d w_e w_f w_g w_h]. 
    repeat apply list.Forall_cons_2; try done; apply u32_range.
Qed.

Lemma rounds256 m n : forall i s,
  work_ok s -> (i + n <= 64)%nat ->
  fold_left (sha256_round m) (seq i n) s = fold_left (fips256_round m) (seq i n) s /\
  work_ok (fold_left (sha256_round m) (seq i n) s).
Proof.
  induction n as [|n IH]; intros i s Hs Hn; cbn [seq fold_left]; [done|].
  destruct (sha256_round_fips m s i Hs ltac:(lia)) as [E Hok].
  rewrite <- E. apply IH; [done|lia].
Qed.

Lemma work_of_ok h : words_ok h -> work_ok (work_of h).
Proof. intros H. repeat apply list.Forall_cons_2; try done; by apply wd_ok. Qed.

Lemma transform_compress256 state data :
  words_ok state -> bytes_ok data -> cwist_sha256_transform state data = compress256 state data.
Proof.
  intros Hs Hd. unfold cwist_sha256_transform, compress256.
  destruct (schedule256_of_block data Hd) as [-> _]. fold (work_of state).
  destruct (rounds256 (block_schedule256 data) 64 0 (work_of state) (work_of_ok state Hs) ltac:(lia))
    as [-> _].
  by destruct (fold_left _ _ _).
Qed.

Lemma compress256_ok h b : words_ok (compress256 h b).
Proof.
  unfold compress256. destruct (fold_left _ _ _). cbn.
  repeat apply list.Forall_cons_2; try done; unfold is_u32; change (2 ^ 32) with 4294967296;
    apply Z.mod_pos_bound; lia.
Qed.
Lemma compress256_length h b : length (compress256 h b) = 8%nat.
Proof. by unfold compress256; destruct (fold_left _ _ _). Qed.

Lemma compress256_blocks_ok n : forall h m,
  words_ok h -> length h = 8%nat ->
  words_ok (compress256_blocks n h m) /\ length (compress256_blocks n h m) = 8%nat.
Proof.
  induction n as [|n IH]; intros h m Hh Hl; [done|].
  apply IH; [apply compress256_ok|apply compress256_length].
Qed.

Lemma compress256_blocks_add a b : forall h m,
  compress256_blocks (a + b) h m = compress256_blocks b (compress256_blocks a h m) (drop (64 * a) m).
Proof.
  induction a as [|a IH]; intros h m; [done|].
  cbn [Nat.add compress256_blocks]. rewrite IH, drop_drop.
  do 2 f_equal. lia.
Qed.

Lemma compress256_blocks_prefix n : forall h m x,
  (64 * n <= length m)%nat -> compress256_blocks n h (m ++ x) = compress256_blocks n h m.
Proof.
  induction n as [|n IH]; intros h m x Hm; [done|]. cbn [compress256_blocks].
  rewrite take_app_le, drop_app_le by lia. apply IH. rewrite length_drop. lia.
Qed.

Lemma fips256_iv_ok : words_ok fips256_iv /\ length fips256_iv = 8%nat.
Proof.
  rewrite <- sha256_iv_fips. split; [|done].
  by repeat apply list.Forall_cons_2.
Qed.

(** ** Streaming *)

(** The context after the bytes [m]. *)
Record sha_at (m : bytes) (ctx : cwist_sha256_ctx) : Prop := {
  sa_state : ctx.(sh_state) = compress256_blocks (length m / 64) fips256_iv m;
  sa_len : length ctx.(sh_data) = 64%nat;
  sa_ok : bytes_ok ctx.(sh_data);
  sa_datalen : ctx.(sh_datalen) = (length m mod 64)%nat;
  sa_tail : take (length m mod 64) ctx.(sh_data) = drop (64 * (length m / 64)) m;
  sa_bitlen : ctx.(sh_bitlen) = u64 (512 * Z.of_nat (length m / 64)) }.

Lemma sha_init_at stack :
  length stack = 64%nat -> bytes_ok stack -> sha_at [] (cwist_sha256_init stack).
Proof. intros H1 H2. by split. Qed.

(** One byte behind the [j] that wait in the buffer. *)
Lemma take_put (l : bytes) (j : nat) b :
  (j < length l)%nat -> take (S j) (put l j b) = take j l ++ [b].
Proof.
  intros Hj. unfold put. rewrite (take_S_r _ _ b) by (by apply list_lookup_insert_eq).
  by rewrite take_insert_ge by lia.
Qed.

Lemma drop_snoc (m : bytes) k b : (k <= length m)%nat -> drop k (m ++ [b]) = drop k m ++ [b].
Proof. intros. by rewrite drop_app_le by lia. Qed.

Lemma sha256_byte_at m ctx b :
  sha_at m ctx -> is_u8 b -> sha_at (m ++ [b]) (sha256_byte ctx b).
Proof.
  intros H Hb. pose proof (nat_div_mod_64 (length m)) as [Hm Hj].
  set (j := (length m mod 64)%nat) in *. set (q := (length m / 64)%nat) in *.
  assert (Hput : take (S j) (put (sh_data ctx) j b) = drop (64 * q) m ++ [b]).
  { rewrite take_put by (rewrite (sa_len _ _ H); lia). f_equal. apply (sa_tail _ _ H). }
  assert (Hok : bytes_ok (put (sh_data ctx) j b)) by (apply bytes_ok_put; [apply (sa_ok _ _ H)|done]).
  unfold sha256_byte. rewrite (sa_datalen _ _ H). fold j.
  destruct (Nat.eqb_spec (S j) 64) as [E|E].
  - assert (Eq : (length (m ++ [b]) / 64 = S q)%nat).
    { rewrite length_app. change (length [b]) with 1%nat. symmetry. apply (Nat.div_unique _ _ _ 0); lia. }
    assert (Ej : (length (m ++ [b]) mod 64 = 0)%nat).
    { rewrite length_app. change (length [b]) with 1%nat. symmetry. apply (Nat.mod_unique _ _ (S q)); lia. }
    rewrite E, take_ge in Hput by (unfold put; rewrite length_insert, (sa_len _ _ H); lia).
    assert (Hst : words_ok (sh_state ctx)).
    { rewrite (sa_state _ _ H). apply compress256_blocks_ok; apply fips256_iv_ok. }
    pose proof (sa_state _ _ H) as Es. fold q in Es.
    split; rewrite ?Eq, ?Ej; cbn [sh_state sh_data sh_datalen sh_bitlen]; try done.
    + rewrite transform_compress256 by done.
      rewrite <- Nat.add_1_r, compress256_blocks_add, compress256_blocks_prefix, <- Es by lia.
      cbn [compress256_blocks]. rewrite drop_snoc, <- Hput by lia. by rewrite take_ge
        by (unfold put; rewrite length_insert, (sa_len _ _ H); lia).
    + unfold put. by rewrite length_insert, (sa_len _ _ H).
    + rewrite drop_ge by (rewrite length_app; change (length [b]) with 1%nat; lia). done.
    + rewrite (sa_bitlen _ _ H). fold q. unfold u64. rewrite Zplus_mod_idemp_l. f_equal. lia.
  - assert (Eq : (length (m ++ [b]) / 64 = q)%nat).
    { rewrite length_app. change (length [b]) with 1%nat. symmetry. apply (Nat.div_unique _ _ _ (S j)); lia. }
    assert (Ej : (length (m ++ [b]) mod 64 = S j)%nat).
    { rewrite length_app. change (length [b]) with 1%nat. symmetry. apply (Nat.mod_unique _ _ q); lia. }
    split; rewrite ?Eq, ?Ej; cbn [sh_state sh_data sh_datalen sh_bitlen]; try done.
    + rewrite compress256_blocks_prefix by lia. apply (sa_state _ _ H).
    + unfold put. by rewrite length_insert, (sa_len _ _ H).
    + by rewrite Hput, drop_snoc by lia.
    + apply (sa_bitlen _ _ H).
Qed.

Lemma sha256_update_at data : forall m ctx,
  sha_at m ctx -> bytes_ok data -> sha_at (m ++ data) (cwist_sha256_update ctx data).
Proof.
  induction data as [|b data IH]; intros m ctx H Hd; [by rewrite app_nil_r|].
  apply list.Forall_cons in Hd as [Hb Hd]. cbn [cwist_sha256_update fold_left].
  rewrite (app_assoc m [b] data : m ++ b :: data = _).
  apply IH; [|done]. by apply sha256_byte_at.
Qed.

Lemma sha256_updates_at pieces : forall m ctx,
  sha_at m ctx -> Forall bytes_ok pieces ->
  sha_at (m ++ concat pieces) (fold_left cwist_sha256_update pieces ctx).
Proof.
  induction pieces as [|p pieces IH]; intros m ctx H Hp; [by rewrite app_nil_r|].
  apply list.Forall_cons in Hp as [Hp Hps]. cbn [concat fold_left].
  rewrite app_assoc. apply IH; [|done]. by apply sha256_update_at.
Qed.

(** ** Finishing *)

Lemma length_bytes_be L : length_bytes (u64 (8 * L)) = be_bytes 8 (8 * L).
Proof.
  unfold length_bytes, be_bytes. cbn [map le_bytes rev app]. rewrite !Z.shiftr_div_pow2 by lia.
  set (x := 8 * L). clearbody x. unfold u64, u8. rewrite !Z.div_div by lia.
  repeat (f_equal; [cbn; zlia|]). f_equal. cbn. zlia.
Qed.

Lemma word_out_be v : is_u32 v -> word_out v = be_bytes 4 v.
Proof.
  intros Hv. unfold word_out, be_bytes. cbn [le_bytes rev app]. shifts.
  rewrite !Z.div_div by lia. done.
Qed.

Lemma digest_words state :
  words_ok state -> length state = 8%nat ->
  concat (map (fun i => word_out (wd state i)) (seq 0 8)) = concat (map (be_bytes 4) state).
Proof.
  intros Hok Hl. destruct state as [|s0 [|s1 [|s2 [|s3 [|s4 [|s5 [|s6 [|s7 [|]]]]]]]]]; try done.
  unfold words_ok in Hok. rewrite !list.Forall_cons in Hok. destruct Hok as (?&?&?&?&?&?&?&?&_).
  cbn [seq map wd nth]. by rewrite !word_out_be.
Qed.

(** What the waiting bytes look like once padded up to [upto]. *)
Lemma pad_from_eq data n upto :
  (n < upto <= length data)%nat ->
  pad_from data n upto =
    take n data ++ [128] ++ replicate (upto - S n) 0 ++ drop upto data.
Proof.
  intros Hn. unfold pad_from. rewrite blit_in_range
    by (unfold put; rewrite length_insert, length_replicate; lia).
  rewrite length_replicate, take_put by lia. rewrite <- app_assoc. do 3 f_equal.
  unfold put. replace (S n + (upto - S n))%nat with upto by lia.
  by rewrite drop_insert_lt by lia.
Qed.

Lemma pad_from_ok data n upto : bytes_ok data -> bytes_ok (pad_from data n upto).
Proof.
  intros Hd. apply bytes_ok_blit; [by apply bytes_ok_put|].
  apply list.Forall_forall. intros x [-> _]%elem_of_replicate. done.
Qed.

Lemma length_pad_from data n upto : length (pad_from data n upto) = length data.
Proof. unfold pad_from, put. by rewrite length_blit, length_insert. Qed.

(** The last block is the one that ends with the length. *)
Lemma last_block state data L :
  words_ok state -> bytes_ok data -> length data = 64%nat ->
  cwist_sha256_transform state (blit data 56 (length_bytes (u64 (8 * L)))) =
  compress256 state (take 56 data ++ be_bytes 8 (8 * L)).
Proof.
  intros Hs Hd Hl. rewrite length_bytes_be, transform_compress256;
    [|done|by apply bytes_ok_blit, be_bytes_ok].
  rewrite blit_in_range by (rewrite length_be_bytes; lia).
  rewrite (drop_ge data) by (rewrite length_be_bytes; lia). by rewrite app_nil_r.
Qed.

Lemma digest_ext h a b :
  a = b -> concat (map (be_bytes 4) (compress256 h a)) = concat (map (be_bytes 4) (compress256 h b)).
Proof. by intros ->. Qed.

Section Final.
Context (m : bytes) (ctx : cwist_sha256_ctx).
Hypothesis Hctx : sha_at m ctx.
Let n : nat := (length m mod 64)%nat.
Let q : nat := (length m / 64)%nat.
Let rest : bytes := drop (64 * q) m.

Lemma rest_length : length rest = n /\ take n ctx.(sh_data) = rest.
Proof.
  pose proof (nat_div_mod_64 (length m)) as [Hm _]. fold n q in Hm. split.
  - unfold rest. rewrite length_drop. lia.
  - apply (sa_tail _ _ Hctx).
Qed.

Lemma bits_total : u64 (ctx.(sh_bitlen) + Z.of_nat ctx.(sh_datalen) * 8) = u64 (8 * blen m).
Proof.
  pose proof (nat_div_mod_64 (length m)) as [Hm _]. fold n q in Hm.
  rewrite (sa_bitlen _ _ Hctx), (sa_datalen _ _ Hctx). fold n q. unfold u64, blen.
  rewrite Zplus_mod_idemp_l. f_equal. lia.
Qed.

Lemma state_words : words_ok ctx.(sh_state) /\ length ctx.(sh_state) = 8%nat.
Proof. rewrite (sa_state _ _ Hctx). apply compress256_blocks_ok; apply fips256_iv_ok. Qed.

(** The padded message, block by block. *)
Lemma padded_blocks (k : nat) pad :
  length (m ++ pad) = (64 * (q + k))%nat ->
  compress256_blocks (length (m ++ pad) / 64) fips256_iv (m ++ pad) =
  compress256_blocks k ctx.(sh_state) (rest ++ pad).
Proof.
  intros Hl. pose proof (nat_div_mod_64 (length m)) as [Hm _]. fold n q in Hm.
  rewrite Hl. replace (64 * (q + k) / 64)%nat with (q + k)%nat
    by (rewrite Nat.mul_comm; symmetry; by apply Nat.div_mul).
  rewrite compress256_blocks_add, compress256_blocks_prefix by lia.
  unfold rest. rewrite drop_app_le by lia. pose proof (sa_state _ _ Hctx) as Es. fold q in Es.
  by rewrite <- Es.
Qed.

Lemma final_short :
  (n < 56)%nat -> (cwist_sha256_final ctx).1 = sha256_spec m.
Proof.
  intros Hn. pose proof (nat_div_mod_64 (length m)) as [Hm _]. fold n q in Hm.
  destruct rest_length as [Hr Ht], state_words as [Hs Hsl].
  set (pad := sha256_padding m).
  assert (Epad : pad = ([128] ++ replicate (55 - n) 0) ++ be_bytes 8 (8 * blen m)).
  { unfold pad, sha256_padding. rewrite <- app_assoc. do 3 f_equal.
    unfold blen. rewrite Hm. zlia. }
  assert (El : length (rest ++ [128] ++ replicate (55 - n) 0) = 56%nat).
  { rewrite !length_app, length_replicate. change (length [128]) with 1%nat. lia. }
  unfold sha256_spec. cbv zeta. fold pad. rewrite (padded_blocks 1).
  2:{ rewrite Epad, !length_app, length_replicate, length_be_bytes. change (length [128]) with 1%nat. lia. }
  unfold cwist_sha256_final. rewrite bits_total, (sa_datalen _ _ Hctx). fold n.
  destruct (Nat.ltb_spec n 56); [|lia]. cbn [fst].
  rewrite last_block; [|done|apply pad_from_ok, (sa_ok _ _ Hctx)|rewrite length_pad_from; apply (sa_len _ _ Hctx)].
  rewrite pad_from_eq by (rewrite (sa_len _ _ Hctx); lia).
  rewrite Ht, !app_assoc, take_app_length' by (rewrite <- !app_assoc; replace (56 - S n)%nat with (55 - n)%nat by lia; symmetry; exact El).
  rewrite digest_words by (apply compress256_ok || apply compress256_length).
  cbn [compress256_blocks]. apply digest_ext. rewrite Epad, app_assoc.
  replace (56 - S n)%nat with (55 - n)%nat by lia. rewrite <- (app_assoc rest).
  symmetry. apply take_ge. rewrite length_app, El, length_be_bytes. lia.
Qed.

(** The mark does not fit with the length: one more block. *)
Lemma final_long :
  (56 <= n)%nat -> (cwist_sha256_final ctx).1 = sha256_spec m.
Proof.
  intros Hn. pose proof (nat_div_mod_64 (length m)) as [Hm Hn64]. fold n q in Hm, Hn64.
  destruct rest_length as [Hr Ht], state_words as [Hs Hsl].
  set (pad := sha256_padding m).
  set (first := rest ++ [128] ++ replicate (63 - n) 0).
  assert (Epad : rest ++ pad = first ++ replicate 56 0 ++ be_bytes 8 (8 * blen m)).
  { unfold pad, sha256_padding, first. rewrite <- !app_assoc. do 2 f_equal.
    rewrite (app_assoc (replicate _ _) (replicate _ _)), <- replicate_add. do 2 f_equal.
    unfold blen. rewrite Hm. zlia. }
  assert (El : length first = 64%nat).
  { unfold first. rewrite !length_app, length_replicate. change (length [128]) with 1%nat. lia. }
  unfold sha256_spec. cbv zeta. fold pad. rewrite (padded_blocks 2).
  2:{ apply (f_equal length) in Epad. rewrite !length_app, El, length_replicate, length_be_bytes, Hr in Epad.
      rewrite length_app. lia. }
  unfold cwist_sha256_final. rewrite bits_total, (sa_datalen _ _ Hctx). fold n.
  destruct (Nat.ltb_spec n 56); [lia|]. cbn [fst].
  set (data := pad_from (sh_data ctx) n 64).
  assert (Edata : data = first).
  { unfold data. rewrite pad_from_eq by (rewrite (sa_len _ _ Hctx); lia).
    rewrite Ht, (drop_ge (sh_data ctx)) by (rewrite (sa_len _ _ Hctx); lia).
    by rewrite app_nil_r. }
  assert (Hdata : bytes_ok data) by apply pad_from_ok, (sa_ok _ _ Hctx).
  assert (Hzero : bytes_ok (replicate 56 0)) by (by apply bytes_okb_ok).
  rewrite (transform_compress256 (sh_state ctx) data) by done. rewrite last_block.
  - rewrite digest_words by (apply compress256_ok || apply compress256_length).
    cbn [compress256_blocks]. rewrite Epad, take_app_length', drop_app_length' by done.
    rewrite Edata. apply digest_ext. rewrite blit_in_range by (rewrite length_replicate; lia).
    rewrite length_replicate. change (take 0 first) with (@nil Z). cbn [app].
    rewrite take_app_length' by (by rewrite length_replicate).
    symmetry. apply take_ge. by rewrite length_app, length_replicate, length_be_bytes.
  - apply compress256_ok.
  - by apply bytes_ok_blit.
  - rewrite length_blit, Edata. exact El.
Qed.

Lemma final_spec : (cwist_sha256_final ctx).1 = sha256_spec m.
Proof. destruct (decide (n < 56)%nat); [by apply final_short|apply final_long; lia]. Qed.
End Final.

Lemma final_context m ctx :
  sha_at m ctx ->
  length (cwist_sha256_final ctx).2.(sh_data) = 64%nat /\ bytes_ok (cwist_sha256_final ctx).2.(sh_data).
Proof.
  intros H. unfold cwist_sha256_final.
  assert (Hlen : forall bl, bytes_ok (length_bytes bl)).
  { intros bl. apply list.Forall_forall. intros x (j & -> & _)%list_elem_of_fmap. apply u8_range. }
  assert (Hzero : bytes_ok (replicate 56 0)) by (by apply bytes_okb_ok).
  destruct (sh_datalen ctx <? 56)%nat; cbn [snd sh_data];
    rewrite !length_blit, length_pad_from, (sa_len _ _ H); split; try done;
    repeat first [apply pad_from_ok|apply bytes_ok_blit|apply (sa_ok _ _ H)|done].
Qed.

Lemma sha256_digest pieces stack :
  length stack = 64%nat -> bytes_ok stack -> Forall bytes_ok pieces ->
  (cwist_sha256_final (fold_left cwist_sha256_update pieces (cwist_sha256_init stack))).1 =
  sha256_spec (concat pieces).
Proof.
  intros Hl Hs Hp. apply final_spec.
  apply (sha256_updates_at pieces [] _ (sha_init_at stack Hl Hs) Hp).
Qed.

(** ** HMAC *)

Lemma words_bytes l :
  length (concat (map (be_bytes 4) l)) = (4 * length l)%nat /\ bytes_ok (concat (map (be_bytes 4) l)).
Proof.
  induction l as [|w l [IHl IH]]; [by split; [|constructor]|]. cbn [map concat].
  split; [rewrite length_app, length_be_bytes, IHl; cbn [length]; lia|].
  apply Forall_app_2; [apply be_bytes_ok|done].
Qed.

Lemma sha256_spec_props m : length (sha256_spec m) = 32%nat /\ bytes_ok (sha256_spec m).
Proof.
  unfold sha256_spec. cbv zeta. destruct (words_bytes
    (compress256_blocks (length (m ++ sha256_padding m) / 64) fips256_iv (m ++ sha256_padding m)))
    as [-> H]. split; [|done].
  by rewrite (proj2 (compress256_blocks_ok _ _ _ (proj1 fips256_iv_ok) (proj2 fips256_iv_ok))).
Qed.

Lemma key_pad_xor k c : bytes_ok k -> is_u8 c -> key_pad k c = map (Z.lxor c) k.
Proof.
  intros Hk Hc. unfold key_pad. apply map_ext_in. intros b Hb%list_elem_of_In.
  rewrite Z.lxor_comm. apply u8_id, lxor_u8; [done|].
  by apply (proj1 (list.Forall_forall _ _) Hk).
Qed.

Lemma zeros_ok n : bytes_ok (replicate n 0).
Proof. apply list.Forall_forall. by intros x [-> _]%elem_of_replicate. Qed.

Lemma zero_fill (key : bytes) :
  (length key <= 64)%nat -> blit (replicate 64 0) 0 key = key ++ replicate (64 - length key) 0.
Proof.
  intros Hl. rewrite blit_in_range by (rewrite length_replicate; lia).
  by rewrite drop_replicate.
Qed.

Lemma hmac_key_spec stack key :
  length stack = 64%nat -> bytes_ok stack -> bytes_ok key ->
  hmac_key stack key = block_key sha256_spec key.
Proof.
  intros Hl Hs Hk. unfold hmac_key, block_key. destruct (Nat.ltb_spec 64 (length key)).
  - pose proof (sha256_digest [key] stack Hl Hs) as E. cbn [fold_left concat] in E.
    rewrite E, app_nil_r by (by apply list.Forall_singleton).
    apply zero_fill. rewrite (proj1 (sha256_spec_props key)). lia.
  - destruct (Nat.ltb_spec 0 (length key)); [apply zero_fill; lia|].
    destruct key; [done|cbn [length] in *; lia].
Qed.

Lemma block_key_ok key : bytes_ok key -> bytes_ok (block_key sha256_spec key).
Proof.
  intros Hk. unfold block_key. apply Forall_app_2; [|apply zeros_ok].
  destruct (64 <? length key)%nat; [apply sha256_spec_props|done].
Qed.

Lemma xor_ok k c : bytes_ok k -> is_u8 c -> bytes_ok (map (Z.lxor c) k).
Proof.
  intros Hk Hc. apply list.Forall_fmap. apply (list.Forall_impl _ _ _ Hk).
  intros b Hb. by apply lxor_u8.
Qed.

(** The two passes over a keyed hash, the second started in the context the
    first left: [pieces] is the text. *)
Lemma hmac_passes stack k pieces :
  length stack = 64%nat -> bytes_ok stack -> bytes_ok k -> Forall bytes_ok pieces ->
  let c := fold_left cwist_sha256_update (key_pad k 0x36 :: pieces) (cwist_sha256_init stack) in
  let (inner, c) := cwist_sha256_final c in
  (cwist_sha256_final
     (fold_left cwist_sha256_update [key_pad k 0x5c; inner] (cwist_sha256_init c.(sh_data)))).1 =
  sha256_spec (map (Z.lxor 0x5c) k ++ sha256_spec (map (Z.lxor 0x36) k ++ concat pieces)).
Proof.
  intros Hl Hs Hk Hp. cbv zeta. rewrite !key_pad_xor by done.
  set (c := fold_left _ _ _).
  assert (Hps : Forall bytes_ok (map (Z.lxor 0x36) k :: pieces)).
  { apply list.Forall_cons_2; [by apply xor_ok|done]. }
  assert (Hc : sha_at (concat (map (Z.lxor 0x36) k :: pieces)) c).
  { exact (sha256_updates_at _ [] _ (sha_init_at stack Hl Hs) Hps). }
  pose proof (final_context _ _ Hc) as [Hl2 Hs2]. pose proof (final_spec _ _ Hc) as E.
  destruct (cwist_sha256_final c) as [inner c2]. cbn [fst snd] in *. subst inner.
  rewrite sha256_digest; [|done|done|].
  - cbn [concat]. by rewrite app_nil_r.
  - repeat apply list.Forall_cons_2; [by apply xor_ok|apply sha256_spec_props|constructor].
Qed.

(** C35: The HMAC-SHA-256 of the builds without a crypto library is HMAC-SHA-256.
    The bundled code (bytes buffered one at a time, padding and length written
    into the waiting block, one context used for both passes) computes RFC 2104
    over FIPS 180-4, for every key and message, and whatever the uninitialised
    context held.  The constants of the specification are computed from the
    roots of the primes. *)
Theorem hmac_sha256_correct stack key msg :
  length stack = 64%nat -> bytes_ok stack -> bytes_ok key -> bytes_ok msg ->
  cwist_hmac_sha256 stack key msg = hmac_spec sha256_spec key msg.
Proof.
  intros Hl Hs Hk Hm. unfold cwist_hmac_sha256, hmac_spec. rewrite hmac_key_spec by done.
  pose proof (hmac_passes stack (block_key sha256_spec key) [msg] Hl Hs (block_key_ok key Hk)
    ltac:(by apply list.Forall_singleton)) as E.
  cbn [fold_left concat] in E. rewrite app_nil_r in E. cbv zeta in *.
  by destruct (cwist_sha256_final _).
Qed.

(** Test case 2 of RFC 4231. *)
Lemma hmac_sha256_correct_witness :
  cwist_hmac_sha256 (replicate 64 7) (bs "Jefe") (bs "what do ya want for nothing?") =
    hmac_spec sha256_spec (bs "Jefe") (bs "what do ya want for nothing?") /\
  cwist_hmac_sha256 (replicate 64 7) (bs "Jefe") (bs "what do ya want for nothing?") =
    [0x5b; 0xdc; 0xc1; 0x46; 0xbf; 0x60; 0x75; 0x4e; 0x6a; 0x04; 0x24; 0x26; 0x08; 0x95; 0x75; 0xc7;
     0x5a; 0x00; 0x3f; 0x08; 0x9d; 0x27; 0x39; 0x83; 0x9d; 0xec; 0x58; 0xb9; 0x64; 0xec; 0x38; 0x43].
Proof.
  split; [|vm_compute; reflexivity].
  apply (hmac_sha256_correct (replicate 64 7) (bs "Jefe") (bs "what do ya want for nothing?"));
    [reflexivity|apply bytes_okb_ok; reflexivity..].
Defined.
