(* ===== verification/SeqAuth.v ===== *)
(** * Authenticated sequencing (core/seq/seq_auth.c)

    The envelope around a chunk of a sequenced message: identifier, nonce and
    a truncated HMAC under a session key; and the two replay windows a receiver
    keeps.  The windows are circular buffers; they are proved to remember the
    last [capacity] entries, and the receiver to be the specification that
    keeps the whole history. *)

From S2P Require Import Prelude Seq Sha1.
From S2P Require Import Sha256.

(** ** The source *)

Definition CWIST_SEQ_AUTH_KEY_SIZE : nat := 32.
Definition CWIST_SEQ_AUTH_SESSION_ID_SIZE : nat := 16.
Definition CWIST_SEQ_AUTH_MESSAGE_ID_SIZE : nat := 16.
Definition CWIST_SEQ_AUTH_NONCE_SIZE : nat := 12.
Definition CWIST_SEQ_AUTH_TAG_SIZE : nat := 16.
Definition CWIST_SEQ_AUTH_HEADER_SIZE : nat := 52.

(** The counters stay at most [capacity], far from wrapping. *)
Record seq_auth_context := MkAuth {
  au_key : bytes; au_session : bytes; au_nonces : bytes; au_completed : bytes;
  au_capacity : nat; au_nonce_count : nat; au_completed_count : nat;
  au_nonce_next : nat; au_completed_next : nat }.
#[export] Instance seq_auth_fields : Fields seq_auth_context := fun r =>
  MkAuth r.(au_key) r.(au_session) r.(au_nonces) r.(au_completed) r.(au_capacity)
    r.(au_nonce_count) r.(au_completed_count) r.(au_nonce_next) r.(au_completed_next).

Record seq_auth_metadata := MkMeta { md_message_id : bytes; md_nonce : bytes }.

(** [*out] is a local of the only caller, which reads it after success. *)
Definition seq_auth_chunk_valid (data : option bytes) : option cwist_seq_chunk :=
  match data with
  | None => None
  | Some d =>
      if blen d <? Z.of_nat CWIST_SEQ_HEADER_SIZE then None
      else
        let seq := seq_read_u16 d 0 in
        let total := seq_read_u16 d 2 in
        let payload_len := seq_read_u16 d 4 in
        let chunk_size := seq_read_u16 d 6 in
        if negb (chunk_fields_valid seq total payload_len chunk_size) ||
           (blen d <? Z.of_nat CWIST_SEQ_AUTH_HEADER_SIZE + payload_len)
        then None
        else Some (MkChunk seq total payload_len chunk_size
                     (Some (drop CWIST_SEQ_AUTH_HEADER_SIZE d)))
  end.

(** The tag over session, header and payload: one implementation per build. *)
Class AuthTag := auth_tag :
  seq_auth_context -> bytes -> bytes -> oracle -> option bytes * oracle.

(** The branch over the bundled hash; the local arrays hold [stack]. *)
Definition bundled_key_block (key : bytes) : bytes := blit (replicate 64 0) 0 key.
Definition bundled_auth_tag (stack : bytes) : AuthTag :=
  fun ctx header_without_tag payload o =>
    let k := bundled_key_block ctx.(au_key) in
    let ipad := key_pad k 0x36 in
    let opad := key_pad k 0x5c in
    let c := cwist_sha256_init stack in
    let c := cwist_sha256_update c ipad in
    let c := cwist_sha256_update c ctx.(au_session) in
    let c := cwist_sha256_update c header_without_tag in
    let c := cwist_sha256_update c payload in
    let (inner, c) := cwist_sha256_final c in
    let c := cwist_sha256_init c.(sh_data) in
    let c := cwist_sha256_update c opad in
    let c := cwist_sha256_update c inner in
    (Some (cwist_sha256_final c).1, o).

(** The branch over OpenSSL: the calls succeed together or not. *)
Definition openssl_auth_tag (openssl_hmac : bytes -> bytes -> bytes) : AuthTag :=
  fun ctx header_without_tag payload o =>
    let tag := openssl_hmac ctx.(au_key) (ctx.(au_session) ++ header_without_tag ++ payload) in
    let (ok, o) := alloc o in
    (if ok && (CWIST_SEQ_AUTH_TAG_SIZE <=? length tag)%nat then Some tag else None, o).

(** [for (i = 0; i < count; ++i)], [n] entries to go. *)
Fixpoint cache_loop (cache : bytes) (width : nat) (value : bytes) (n i : nat) : bool :=
  match n with
  | O => false
  | S n =>
      if bool_decide (sub cache (i * width) width = take width value) then true
      else cache_loop cache width value n (S i)
  end.
Definition cache_contains (cache : bytes) (count width : nat) (value : bytes) : bool :=
  cache_loop cache width value count 0.

(** The cache, the count and the cursor. *)
Definition cache_add (cache : bytes) (count next capacity width : nat) (value : bytes)
  : bytes * nat * nat :=
  (blit cache (next * width) (take width value),
   if (count <? capacity)%nat then S count else count,
   ((next + 1) mod capacity)%nat).

(** The second outcome is that of [pthread_mutex_init]. *)
Definition cwist_seq_auth_context_create (key session_id : option bytes) (replay_window : Z)
  (o : oracle) : option seq_auth_context * oracle :=
  match key, session_id with
  | Some key, Some session_id =>
      if (replay_window =? 0) || (SIZE_MAX / 28 <? replay_window) then (None, o)
      else
        let (ok, o) := alloc o in
        if negb ok then (None, o)
        else
          let (mutex_ok, o) := alloc o in
          if negb mutex_ok then (None, o)
          else
            let (ok1, o) := alloc o in
            let (ok2, o) := alloc o in
            if negb (ok1 && ok2) then (None, o)
            else
              let n := Z.to_nat replay_window in
              (Some (MkAuth (take CWIST_SEQ_AUTH_KEY_SIZE key)
                       (take CWIST_SEQ_AUTH_SESSION_ID_SIZE session_id)
                       (replicate (n * CWIST_SEQ_AUTH_NONCE_SIZE) 0)
                       (replicate (n * CWIST_SEQ_AUTH_MESSAGE_ID_SIZE) 0) n 0 0 0 0), o)
  | _, _ => (None, o)
  end.

Section WithTag.
Context {T : AuthTag}.

(** Offsets of the envelope's fields. *)
Definition off_message_id : nat := 8.
Definition off_nonce : nat := 24.
Definition off_tag : nat := 36.

(** The pointers to the outputs are given; the length written is the buffer's. *)
Definition cwist_seq_auth_wrap (ctx : seq_auth_context) (message_id nonce : bytes)
  (chunk : option bytes) (o : oracle) : option bytes * oracle :=
  match cwist_seq_chunk_parse chunk (Some (MkChunk 0 0 0 0 None)), chunk with
  | (true, Some parsed), Some d =>
      if negb (blen d =? Z.of_nat CWIST_SEQ_HEADER_SIZE + parsed.(ck_payload_len)) then (None, o)
      else
        let n := Z.to_nat parsed.(ck_payload_len) in
        let payload := take n (default [] parsed.(ck_payload)) in
        let (ok, o) := alloc o in
        if negb ok then (None, o)
        else
          let wire := replicate (CWIST_SEQ_AUTH_HEADER_SIZE + n) 0 in
          let wire := blit wire 0 (take CWIST_SEQ_HEADER_SIZE d) in
          let wire := blit wire off_message_id (take CWIST_SEQ_AUTH_MESSAGE_ID_SIZE message_id) in
          let wire := blit wire off_nonce (take CWIST_SEQ_AUTH_NONCE_SIZE nonce) in
          let wire := blit wire CWIST_SEQ_AUTH_HEADER_SIZE payload in
          match auth_tag ctx (take off_tag wire) payload o with
          | (Some tag, o) => (Some (blit wire off_tag (take CWIST_SEQ_AUTH_TAG_SIZE tag)), o)
          | (None, o) => (None, o)
          end
  | _, _ => (None, o)
  end.

(** What is read and checked before the lock is taken. *)
Definition unwrap_verified (ctx : seq_auth_context) (data : option bytes) (o : oracle)
  : option (bytes * bytes * cwist_seq_chunk) * oracle :=
  match seq_auth_chunk_valid data, data with
  | Some parsed, Some d =>
      if negb (blen d =? Z.of_nat CWIST_SEQ_AUTH_HEADER_SIZE + parsed.(ck_payload_len)) then (None, o)
      else
        let message_id := sub d off_message_id CWIST_SEQ_AUTH_MESSAGE_ID_SIZE in
        let nonce := sub d off_nonce CWIST_SEQ_AUTH_NONCE_SIZE in
        let tag := sub d off_tag CWIST_SEQ_AUTH_TAG_SIZE in
        let payload := take (Z.to_nat parsed.(ck_payload_len)) (default [] parsed.(ck_payload)) in
        match auth_tag ctx (take off_tag d) payload o with
        | (Some expected, o) =>
            (if bool_decide (tag = take CWIST_SEQ_AUTH_TAG_SIZE expected)
             then Some (message_id, nonce, parsed) else None, o)
        | (None, o) => (None, o)
        end
  | _, _ => (None, o)
  end.

(** [outs]: both output pointers were given.  The part from the first lookup to
    the recording of the nonce runs under the lock. *)
Definition cwist_seq_auth_unwrap (ctx : seq_auth_context) (data : option bytes) (outs : bool)
  (o : oracle) : option (seq_auth_metadata * cwist_seq_chunk) * seq_auth_context * oracle :=
  if negb outs then (None, ctx, o)
  else
    match unwrap_verified ctx data o with
    | (Some (message_id, nonce, parsed), o) =>
        if cache_contains ctx.(au_nonces) ctx.(au_nonce_count) CWIST_SEQ_AUTH_NONCE_SIZE nonce ||
           cache_contains ctx.(au_completed) ctx.(au_completed_count)
             CWIST_SEQ_AUTH_MESSAGE_ID_SIZE message_id
        then (None, ctx, o)
        else
          let '(cache, count, next) :=
            cache_add ctx.(au_nonces) ctx.(au_nonce_count) ctx.(au_nonce_next)
              ctx.(au_capacity) CWIST_SEQ_AUTH_NONCE_SIZE nonce in
          (Some (MkMeta message_id nonce, parsed),
           ctx <| au_nonces := cache |> <| au_nonce_count := count |> <| au_nonce_next := next |>, o)
    | (None, o) => (None, ctx, o)
    end.
End WithTag.

Definition cwist_seq_auth_mark_complete (ctx : seq_auth_context) (message_id : option bytes)
  : seq_auth_context :=
  match message_id with
  | None => ctx
  | Some id =>
      if cache_contains ctx.(au_completed) ctx.(au_completed_count)
           CWIST_SEQ_AUTH_MESSAGE_ID_SIZE id
      then ctx
      else
        let '(cache, count, next) :=
          cache_add ctx.(au_completed) ctx.(au_completed_count) ctx.(au_completed_next)
            ctx.(au_capacity) CWIST_SEQ_AUTH_MESSAGE_ID_SIZE id in
        ctx <| au_completed := cache |> <| au_completed_count := count |>
            <| au_completed_next := next |>
  end.

(** ** The tag is HMAC-SHA-256 *)

(** The computation succeeds or not; when it does, it is the hash. *)
Class AuthTagLaw (T : AuthTag) := {
  tag_outcome : oracle -> bool * oracle;
  tag_outcome_nil : tag_outcome [] = (true, []);
  auth_tag_hmac ctx header payload o :
    bytes_ok ctx.(au_key) -> length ctx.(au_key) = CWIST_SEQ_AUTH_KEY_SIZE ->
    bytes_ok ctx.(au_session) -> bytes_ok header -> bytes_ok payload ->
    auth_tag ctx header payload o =
      let (ok, o') := tag_outcome o in
      (if ok then Some (hmac_spec sha256_spec ctx.(au_key) (ctx.(au_session) ++ header ++ payload))
       else None, o') }.

#[export] Instance bundled_law stack :
  length stack = 64%nat -> bytes_ok stack -> AuthTagLaw (bundled_auth_tag stack).
Proof.
  intros Hl Hs. exists (fun o => (true, o)); [done|].
  intros ctx h p o Hk Hkl Hse Hh Hp. unfold auth_tag, bundled_auth_tag, bundled_key_block.
  rewrite zero_fill by (rewrite Hkl; unfold CWIST_SEQ_AUTH_KEY_SIZE; lia).
  assert (E : block_key sha256_spec (au_key ctx) = au_key ctx ++ replicate (64 - length (au_key ctx)) 0).
  { unfold block_key. replace (64 <? length (au_key ctx))%nat with false by (by rewrite Hkl). done. }
  pose proof (hmac_passes stack (block_key sha256_spec (au_key ctx)) [au_session ctx; h; p] Hl Hs
    (block_key_ok _ Hk) ltac:(by repeat apply list.Forall_cons_2)) as Hpass.
  cbv zeta in *. cbn [fold_left concat] in Hpass. rewrite E in Hpass.
  destruct (cwist_sha256_final _) as [inner c]. rewrite Hpass, app_nil_r.
  unfold hmac_spec. by rewrite E.
Qed.

Section OpenSSL.
Variable openssl_hmac : bytes -> bytes -> bytes.
(** What OpenSSL documents of [HMAC] with [EVP_sha256]. *)
Hypothesis openssl_hmac_sha256 : forall key text,
  bytes_ok key -> bytes_ok text -> openssl_hmac key text = hmac_spec sha256_spec key text.

Lemma openssl_law : AuthTagLaw (openssl_auth_tag openssl_hmac).
Proof.
  exists alloc; [done|]. intros ctx h p o Hk _ Hs Hh Hp. unfold auth_tag, openssl_auth_tag.
  rewrite openssl_hmac_sha256 by (repeat apply Forall_app_2; done). destruct (alloc o) as [ok o'].
  unfold hmac_spec at 1. rewrite (proj1 (sha256_spec_props _)). by destruct ok.
Qed.
End OpenSSL.

(** ** Envelopes *)

Definition seq_tag (key session header payload : bytes) : bytes :=
  take CWIST_SEQ_AUTH_TAG_SIZE (hmac_spec sha256_spec key (session ++ header ++ payload)).

(** The envelope of identifier, nonce and chunk. *)
Definition envelope (key session id nonce chunk : bytes) : bytes :=
  let header := take 8 chunk ++ id ++ nonce in
  header ++ seq_tag key session header (drop 8 chunk) ++ drop 8 chunk.

(** Opening: what is left when the envelope is taken away is a chunk, all of
    it, and the tag is right. *)
Definition stripped (d : bytes) : bytes := take 8 d ++ drop 52 d.
Definition open_envelope (key session d : bytes) : option (bytes * bytes * cwist_seq_chunk) :=
  if (length d <? 52)%nat then None
  else
    match chunk_of (stripped d) with
    | Some c =>
        if (blen d =? 52 + c.(ck_payload_len)) &&
           bool_decide (sub d 36 16 = seq_tag key session (take 36 d) (drop 52 d))
        then Some (sub d 8 16, sub d 24 12, c)
        else None
    | None => None
    end.

Lemma stripped_u16 d off :
  (52 <= length d)%nat -> (off <= 6)%nat -> seq_read_u16 (stripped d) off = seq_read_u16 d off.
Proof.
  intros Hl Ho. unfold seq_read_u16, stripped.
  assert (H : forall k, (k < 8)%nat -> rd (take 8 d ++ drop 52 d) k = rd d k).
  { intros k Hk. rewrite rd_app_l by (rewrite length_take; lia).
    rewrite <- (take_drop 8 d) at 2. by rewrite rd_app_l by (rewrite length_take; lia). }
  by rewrite !H by lia.
Qed.

Lemma blen_stripped d : (52 <= length d)%nat -> blen (stripped d) = blen d - 44.
Proof. intros. unfold stripped, blen. rewrite length_app, length_take, length_drop. lia. Qed.

(** The header check is that of the plain chunk. *)
Lemma chunk_valid_stripped d :
  seq_auth_chunk_valid (Some d) =
    if (length d <? 52)%nat then None else chunk_of (stripped d).
Proof.
  unfold seq_auth_chunk_valid. unfold CWIST_SEQ_HEADER_SIZE, CWIST_SEQ_AUTH_HEADER_SIZE.
  change (Z.of_nat 8) with 8. change (Z.of_nat 52) with 52.
  assert (Hp : 0 <= seq_read_u16 d 4) by apply u16_range.
  destruct (Nat.ltb_spec (length d) 52) as [Hs|Hl].
  - destruct (Z.ltb_spec (blen d) 8); [done|].
    replace (_ || (blen d <? _)) with true; [done|].
    symmetry. apply orb_true_iff. right. apply Z.ltb_lt. unfold blen. lia.
  - destruct (Z.ltb_spec (blen d) 8); [unfold blen in *; lia|].
    unfold chunk_of, cwist_seq_chunk_parse. rewrite blen_stripped by lia.
    change (Z.of_nat CWIST_SEQ_HEADER_SIZE) with 8.
    destruct (Z.ltb_spec (blen d - 44) 8); [unfold blen in *; lia|].
    rewrite !stripped_u16 by lia. cbv zeta.
    assert (Ed : drop 8 (stripped d) = drop 52 d).
    { unfold stripped. rewrite drop_app_length'; [done|]. rewrite length_take. lia. }
    unfold CWIST_SEQ_HEADER_SIZE. rewrite Ed.
    replace (blen d - 44 - 8 <? seq_read_u16 d 4) with (blen d <? 52 + seq_read_u16 d 4)
      by (destruct (Z.ltb_spec (blen d) (52 + seq_read_u16 d 4)); lia).
    destruct (chunk_fields_valid _ _ _ _), (blen d <? _); done.
Qed.

(** Keys and sessions of a context. *)
Record auth_keyed (ctx : seq_auth_context) (key session : bytes) : Prop := {
  ak_key : ctx.(au_key) = key;
  ak_session : ctx.(au_session) = session;
  ak_key_len : length key = CWIST_SEQ_AUTH_KEY_SIZE;
  ak_key_ok : bytes_ok key;
  ak_session_ok : bytes_ok session }.

Section Verified.
Context {T : AuthTag} {L : AuthTagLaw T} (ctx : seq_auth_context) (key session : bytes).
Hypothesis Hctx : auth_keyed ctx key session.

Lemma tag_of header payload o :
  bytes_ok header -> bytes_ok payload ->
  auth_tag ctx header payload o =
    let (ok, o') := tag_outcome o in
    (if ok then Some (hmac_spec sha256_spec key (session ++ header ++ payload)) else None, o').
Proof.
  intros Hh Hp. destruct Hctx as [Ek Es Hl Hk Hs].
  by rewrite auth_tag_hmac, Ek, Es by (rewrite ?Ek, ?Es; done).
Qed.

(** The part of [unwrap] before the lock opens the envelope; a chunk that fails
    the first checks costs no tag. *)
Lemma unwrap_verified_open data o :
  bytes_ok data ->
  exists (ok : bool) o', unwrap_verified ctx (Some data) o =
      (if ok then open_envelope key session data else None, o') /\
    (o = [] -> ok = true /\ o' = []).
Proof.
  intros Hd. unfold unwrap_verified, open_envelope. rewrite chunk_valid_stripped.
  destruct (Nat.ltb_spec (length data) 52) as [|Hl]; [by exists true, o|].
  destruct (chunk_of (stripped data)) as [c|] eqn:Hc; [|by exists true, o].
  change (Z.of_nat CWIST_SEQ_AUTH_HEADER_SIZE) with 52.
  destruct (Z.eqb_spec (blen data) (52 + ck_payload_len c)) as [El|]; [|by exists true, o].
  cbn [negb andb].
  assert (Ep : take (Z.to_nat (ck_payload_len c)) (default [] (ck_payload c)) = drop 52 data).
  { unfold chunk_of in Hc. destruct (cwist_seq_chunk_parse _ _) as [[] x] eqn:E; [|done].
    subst x. unfold cwist_seq_chunk_parse in E. destruct (_ <? _); [done|]. cbv zeta in E.
    injection E as _ <-. cbn [ck_payload_len ck_payload default] in *.
    unfold CWIST_SEQ_HEADER_SIZE, stripped.
    rewrite drop_app_length' by (rewrite length_take; lia).
    apply take_ge. rewrite length_drop. unfold blen in El. unfold stripped in El. lia. }
  rewrite Ep, tag_of; [|by apply Forall_take|by apply Forall_drop].
  exists (tag_outcome o).1, (tag_outcome o).2. split.
  - destruct (tag_outcome o) as [[] o']; [|done]. cbn [fst snd].
    unfold seq_tag, off_tag, off_message_id, off_nonce. by destruct (bool_decide _).
  - intros ->. by rewrite tag_outcome_nil.
Qed.
End Verified.

(** ** The replay windows *)

(** The [k]th entry behind the cursor. *)
Definition slot (cap next k : nat) : nat :=
  if (k <? next)%nat then (next - 1 - k)%nat else (next + cap - 1 - k)%nat.

(** [hist]: everything ever added, newest first. *)
Record cache_repr (cap w : nat) (cache : bytes) (count next : nat) (hist : list bytes) : Prop := {
  cr_len : length cache = (cap * w)%nat;
  cr_next : (next < cap)%nat;
  cr_count : count = Nat.min (length hist) cap;
  cr_partial : (length hist < cap)%nat -> next = length hist;
  cr_width : Forall (fun v : bytes => length v = w) hist;
  cr_slots : forall (k : nat) (v : bytes), hist !! k = Some v -> (k < cap)%nat ->
    sub cache (slot cap next k * w) w = v }.

Lemma cache_loop_spec cache w value n : forall i,
  cache_loop cache w value n i = true <->
  exists j, (i <= j < i + n)%nat /\ sub cache (j * w) w = take w value.
Proof.
  induction n as [|n IH]; intros i; cbn [cache_loop].
  - split; [done|]. intros (j & ? & _). lia.
  - destruct (bool_decide_reflect (sub cache (i * w) w = take w value)) as [E|Hne].
    + split; [|done]. intros _. exists i. split; [lia|done].
    + rewrite IH. split; intros (j & Hj & E); exists j; (split; [|done]); [lia|].
      destruct (decide (j = i)) as [->|]; [done|lia].
Qed.

(** The slots in use are those of the last [cap] entries. *)
Lemma slot_surjective cap next count (i : nat) :
  (next < cap)%nat -> (count < cap -> next = count)%nat -> (i < count <= cap)%nat ->
  exists k, (k < count)%nat /\ slot cap next k = i.
Proof.
  intros Hn Hp Hi.
  exists (if (i <? next)%nat then (next - 1 - i)%nat else (next + cap - 1 - i)%nat). unfold slot.
  destruct (Nat.ltb_spec i next) as [H|H].
  - split; [lia|]. destruct (Nat.ltb_spec (next - 1 - i) next); lia.
  - assert (count = cap) by (destruct (decide (count < cap)%nat); lia).
    split; [lia|]. destruct (Nat.ltb_spec (next + cap - 1 - i) next); lia.
Qed.

Lemma slot_bound cap next count k :
  (next < cap)%nat -> (count < cap -> next = count)%nat -> (k < count <= cap)%nat ->
  (slot cap next k < count)%nat.
Proof. intros. unfold slot. destruct (Nat.ltb_spec k next); lia. Qed.

Lemma cache_contains_recent cap w cache count next hist v :
  cache_repr cap w cache count next hist -> length v = w ->
  cache_contains cache count w v = bool_decide (v ∈ take cap hist).
Proof.
  intros [Hl Hn Hc Hp Hw Hs] Hv. apply eq_true_iff_eq. rewrite bool_decide_eq_true.
  unfold cache_contains. rewrite cache_loop_spec, (take_ge v) by lia.
  assert (Hpart : (count < cap -> next = count)%nat) by lia. split.
  - intros (j & Hj & E).
    destruct (slot_surjective cap next count j Hn Hpart ltac:(lia)) as (k & Hk & Ek).
    destruct (lookup_lt_is_Some_2 hist k ltac:(lia)) as [x Hx].
    apply (list_elem_of_lookup_2 _ k). rewrite lookup_take_lt by lia. rewrite Hx. f_equal.
    rewrite <- (Hs k x Hx ltac:(lia)), Ek. done.
  - intros (k & Hk)%list_elem_of_lookup_1. apply lookup_take_Some in Hk as [Hk Hkc].
    pose proof (lookup_lt_Some _ _ _ Hk). exists (slot cap next k).
    split; [|by apply Hs]. split; [lia|]. cbn. apply slot_bound; lia.
Qed.

Lemma cache_add_repr cap w cache count next hist v :
  cache_repr cap w cache count next hist -> length v = w ->
  let '(cache', count', next') := cache_add cache count next cap w v in
  cache_repr cap w cache' count' next' (v :: hist).
Proof.
  intros [Hl Hn Hc Hp Hw Hs] Hv. unfold cache_add. rewrite (take_ge v) by lia.
  assert (Hfit : (next * w + length v <= length cache)%nat) by (rewrite Hl, Hv; nia).
  assert (En : ((next + 1) mod cap = if (S next =? cap)%nat then 0 else S next)%nat).
  { destruct (Nat.eqb_spec (S next) cap) as [<-|].
    - rewrite Nat.add_1_r. by apply Nat.Div0.mod_same.
    - rewrite Nat.mod_small by lia. lia. }
  rewrite En. split.
  - by rewrite length_blit.
  - destruct (Nat.eqb_spec (S next) cap); lia.
  - cbn [length]. destruct (Nat.ltb_spec count cap); lia.
  - cbn [length]. intros. destruct (Nat.eqb_spec (S next) cap); lia.
  - by constructor.
  - intros k x Hx Hk. destruct k as [|k].
    + injection Hx as <-. replace (slot _ _ 0) with next.
      * pose proof (sub_blit_same cache (next * w) v Hfit) as E. by rewrite Hv in E.
      * unfold slot. destruct (Nat.eqb_spec (S next) cap); cbn; lia.
    + cbn [lookup list_lookup] in Hx. rewrite <- (Hs k x Hx ltac:(lia)).
      replace (slot cap _ (S k)) with (slot cap next k).
      * apply sub_blit_other; [done|]. rewrite Hv.
        assert (Hd : (slot cap next k <> next)%nat).
        { unfold slot. destruct (Nat.ltb_spec k next); lia. }
        clear - Hd. revert Hd. generalize (slot cap next k). intros j Hd. nia.
      * unfold slot. destruct (Nat.eqb_spec (S next) cap);
          destruct (Nat.ltb_spec k next), (Nat.ltb_spec (S k) (S next)); cbn; lia.
Qed.

Lemma cache_repr_empty cap w :
  (0 < cap)%nat -> cache_repr cap w (replicate (cap * w) 0) 0 0 [].
Proof. intros. split; try done. by rewrite length_replicate. Qed.

(** ** Specification: the whole history *)

(** Every nonce accepted and every message marked, newest first. *)
Record auth_spec := MkAuthSpec { as_nonces : list bytes; as_done : list bytes }.
#[export] Instance auth_spec_fields : Fields auth_spec := fun r =>
  MkAuthSpec r.(as_nonces) r.(as_done).

Section Spec.
Context (key session : bytes) (window : nat).

Definition spec_unwrap (s : auth_spec) (data : bytes)
  : option (seq_auth_metadata * cwist_seq_chunk) * auth_spec :=
  match open_envelope key session data with
  | Some (id, nonce, c) =>
      if bool_decide (nonce ∈ take window s.(as_nonces)) ||
         bool_decide (id ∈ take window s.(as_done))
      then (None, s)
      else (Some (MkMeta id nonce, c), s <| as_nonces := nonce :: s.(as_nonces) |>)
  | None => (None, s)
  end.
Definition spec_complete_id (s : auth_spec) (id : bytes) : auth_spec :=
  if bool_decide (id ∈ take window s.(as_done)) then s
  else s <| as_done := id :: s.(as_done) |>.
End Spec.

(** Calls on one context; a call is atomic, its critical section being the only
    part that touches the windows. *)
Inductive auth_event :=
  | EvUnwrap (data : option bytes) (outs : bool)
  | EvComplete (message_id : option bytes).
Definition auth_event_ok (e : auth_event) : Prop :=
  match e with
  | EvUnwrap (Some d) _ => bytes_ok d
  | EvComplete (Some id) => length id = CWIST_SEQ_AUTH_MESSAGE_ID_SIZE
  | _ => True
  end.

Section Runs.
Context {T : AuthTag}.

Definition auth_step (e : auth_event) (ctx : seq_auth_context) (o : oracle)
  : option (seq_auth_metadata * cwist_seq_chunk) * seq_auth_context * oracle :=
  match e with
  | EvUnwrap data outs => cwist_seq_auth_unwrap ctx data outs o
  | EvComplete id => (None, cwist_seq_auth_mark_complete ctx id, o)
  end.
Fixpoint auth_run (es : list auth_event) (ctx : seq_auth_context) (o : oracle)
  : list (option (seq_auth_metadata * cwist_seq_chunk)) * seq_auth_context * oracle :=
  match es with
  | [] => ([], ctx, o)
  | e :: es =>
      let '(r, ctx, o) := auth_step e ctx o in
      let '(rs, ctx, o) := auth_run es ctx o in (r :: rs, ctx, o)
  end.
End Runs.

(** [ok]: no tag computation failed in the call. *)
Definition auth_spec_step (key session : bytes) (window : nat) (e : auth_event) (ok : bool)
  (s : auth_spec) : option (seq_auth_metadata * cwist_seq_chunk) * auth_spec :=
  match e with
  | EvUnwrap (Some d) true => if ok then spec_unwrap key session window s d else (None, s)
  | EvComplete (Some id) => (None, spec_complete_id window s id)
  | _ => (None, s)
  end.
Fixpoint auth_spec_run (key session : bytes) (window : nat) (es : list (auth_event * bool))
  (s : auth_spec) : list (option (seq_auth_metadata * cwist_seq_chunk)) * auth_spec :=
  match es with
  | [] => ([], s)
  | (e, ok) :: es =>
      let (r, s) := auth_spec_step key session window e ok s in
      let (rs, s) := auth_spec_run key session window es s in (r :: rs, s)
  end.

(** ** Refinement *)

Record auth_repr (ctx : seq_auth_context) (key session : bytes) (window : nat) (s : auth_spec)
  : Prop := {
  ar_keyed : auth_keyed ctx key session;
  ar_capacity : ctx.(au_capacity) = window;
  ar_nonces : cache_repr window CWIST_SEQ_AUTH_NONCE_SIZE ctx.(au_nonces)
    ctx.(au_nonce_count) ctx.(au_nonce_next) s.(as_nonces);
  ar_done : cache_repr window CWIST_SEQ_AUTH_MESSAGE_ID_SIZE ctx.(au_completed)
    ctx.(au_completed_count) ctx.(au_completed_next) s.(as_done) }.

Lemma open_envelope_widths key session d id nonce c :
  open_envelope key session d = Some (id, nonce, c) -> length id = 16%nat /\ length nonce = 12%nat.
Proof.
  unfold open_envelope. destruct (Nat.ltb_spec (length d) 52); [done|].
  destruct (chunk_of _); [|done]. destruct (_ && _); [|done]. intros [= <- <- _].
  unfold sub. rewrite !length_take, !length_drop. lia.
Qed.

Section Refinement.
Context {T : AuthTag} {L : AuthTagLaw T} (key session : bytes) (window : nat).

Lemma unwrap_refines ctx s data outs o :
  auth_repr ctx key session window s -> auth_event_ok (EvUnwrap data outs) ->
  exists (ok : bool) r ctx' s' o',
    cwist_seq_auth_unwrap ctx data outs o = (r, ctx', o') /\
    auth_spec_step key session window (EvUnwrap data outs) ok s = (r, s') /\
    auth_repr ctx' key session window s' /\ (o = [] -> ok = true /\ o' = []).
Proof.
  intros Hr Hd. unfold cwist_seq_auth_unwrap, auth_spec_step.
  destruct outs; cbn [negb]; [|by exists true; destruct data; eauto 10].
  destruct data as [d|]; [|by exists true; eauto 10].
  destruct (unwrap_verified_open ctx key session (ar_keyed _ _ _ _ _ Hr) d o Hd) as (ok & o' & -> & Ho).
  exists ok. destruct ok; [|by eauto 10]. unfold spec_unwrap.
  destruct (open_envelope key session d) as [[[id nonce] c]|] eqn:Hopen; [|by eauto 10].
  apply open_envelope_widths in Hopen as [Hid Hnonce].
  rewrite (cache_contains_recent _ _ _ _ _ _ _ (ar_nonces _ _ _ _ _ Hr) Hnonce).
  rewrite (cache_contains_recent _ _ _ _ _ _ _ (ar_done _ _ _ _ _ Hr) Hid).
  destruct (_ || _); [by eauto 10|].
  pose proof (cache_add_repr _ _ _ _ _ _ nonce (ar_nonces _ _ _ _ _ Hr) Hnonce) as Hadd.
  rewrite (ar_capacity _ _ _ _ _ Hr).
  destruct (cache_add _ _ _ _ _ _) as [[cache count] next].
  do 4 eexists. split; [done|]. split; [done|]. split; [|done].
  destruct Hr as [[] ? ? ?]. by split; [split|..].
Qed.

Lemma mark_refines ctx s id :
  auth_repr ctx key session window s -> length id = CWIST_SEQ_AUTH_MESSAGE_ID_SIZE ->
  auth_repr (cwist_seq_auth_mark_complete ctx (Some id)) key session window
    (spec_complete_id window s id).
Proof.
  intros Hr Hid. unfold cwist_seq_auth_mark_complete, spec_complete_id.
  rewrite (cache_contains_recent _ _ _ _ _ _ _ (ar_done _ _ _ _ _ Hr) Hid).
  destruct (bool_decide _); [done|].
  pose proof (cache_add_repr _ _ _ _ _ _ id (ar_done _ _ _ _ _ Hr) Hid) as Hadd.
  rewrite (ar_capacity _ _ _ _ _ Hr).
  destruct (cache_add _ _ _ _ _ _) as [[cache count] next].
  destruct Hr as [[] ? ? ?]. by split; [split|..].
Qed.

Lemma auth_run_refines es : forall ctx s o,
  auth_repr ctx key session window s -> Forall auth_event_ok es ->
  exists oks ctx' o', length oks = length es /\
    auth_run es ctx o = ((auth_spec_run key session window (zip es oks) s).1, ctx', o') /\
    auth_repr ctx' key session window (auth_spec_run key session window (zip es oks) s).2 /\
    (o = [] -> oks = replicate (length es) true /\ o' = []).
Proof.
  induction es as [|e es IH]; intros ctx s o Hr Hok.
  { exists [], ctx, o. by split_and!. }
  apply list.Forall_cons in Hok as [He Hes]. cbn [auth_run].
  assert (Hstep : exists (ok : bool) r ctx1 s1 o1, auth_step e ctx o = (r, ctx1, o1) /\
    auth_spec_step key session window e ok s = (r, s1) /\ auth_repr ctx1 key session window s1 /\
    (o = [] -> ok = true /\ o1 = [])).
  { destruct e as [data outs|[id|]]; [by apply unwrap_refines| |by exists true; eauto 10].
    exists true. cbn. do 4 eexists. split; [done|]. split; [done|]. split; [|done].
    by apply mark_refines. }
  destruct Hstep as (ok & r & ctx1 & s1 & o1 & E1 & E2 & Hr1 & Ho1). rewrite E1.
  destruct (IH ctx1 s1 o1 Hr1 Hes) as (oks & ctx2 & o2 & Hlen & E3 & Hr2 & Ho2). rewrite E3.
  exists (ok :: oks), ctx2, o2. cbn [zip zip_with auth_spec_run length]. rewrite E2.
  fold (zip es oks). destruct (auth_spec_run key session window (zip es oks) s1) as [rs s2].
  split; [lia|]. split; [done|]. split; [done|].
  intros ->. destruct (Ho1 eq_refl) as [-> ->]. destruct (Ho2 eq_refl) as [-> ->]. done.
Qed.
End Refinement.

Lemma create_repr key session window o ctx o' :
  length key = CWIST_SEQ_AUTH_KEY_SIZE -> length session = CWIST_SEQ_AUTH_SESSION_ID_SIZE ->
  bytes_ok key -> bytes_ok session -> is_u64 window ->
  cwist_seq_auth_context_create (Some key) (Some session) window o = (Some ctx, o') ->
  auth_repr ctx key session (Z.to_nat window) (MkAuthSpec [] []) /\ 0 < window.
Proof.
  intros Hkl Hsl Hk Hs Hw. unfold cwist_seq_auth_context_create.
  destruct ((window =? 0) || _) eqn:E; [done|]. apply orb_false_iff in E as [E%Z.eqb_neq _].
  unfold is_u64 in Hw. destruct (alloc o) as [[] o1]; [|done]. destruct (alloc o1) as [[] o2]; [|done].
  destruct (alloc o2) as [ok1 o3], (alloc o3) as [ok2 o4]. cbn [negb]. destruct (ok1 && ok2); [|done]. cbn [negb].
  intros [= <- _]. rewrite !take_ge by lia. split; [|lia].
  split; [done|done|apply cache_repr_empty; lia..].
Qed.

(** Accepted nonces, newest first, do not come again within the window. *)
Lemma spec_run_spaced key session window es : forall s,
  (forall (i : nat) v, s.(as_nonces) !! i = Some v -> v ∉ take window (drop (S i) s.(as_nonces))) ->
  let s' := (auth_spec_run key session window es s).2 in
  forall (i : nat) v, s'.(as_nonces) !! i = Some v -> v ∉ take window (drop (S i) s'.(as_nonces)).
Proof.
  induction es as [|[e ok] es IH]; intros s H; [done|]. cbn [auth_spec_run].
  assert (H1 : let s1 := (auth_spec_step key session window e ok s).2 in
    forall (i : nat) v, s1.(as_nonces) !! i = Some v -> v ∉ take window (drop (S i) s1.(as_nonces))).
  { cbv zeta. destruct e as [[d|] []|[id|]]; cbn [auth_spec_step]; try exact H.
    - destruct ok; [|exact H]. unfold spec_unwrap.
      destruct (open_envelope key session d) as [[[id nonce] c]|]; [|exact H].
      destruct (bool_decide_reflect (nonce ∈ take window (as_nonces s))) as [|Hn]; [exact H|].
      destruct (bool_decide _); [exact H|]. intros [|i] v; [intros [= <-]; exact Hn|apply H].
    - unfold spec_complete_id. by destruct (bool_decide _). }
  destruct (auth_spec_step key session window e ok s) as [r s1]. cbn [snd] in *.
  specialize (IH s1 H1). by destruct (auth_spec_run key session window es s1).
Qed.

(** What was accepted, newest first, is what is remembered. *)
Definition accepted_nonces (rs : list (option (seq_auth_metadata * cwist_seq_chunk))) : list bytes :=
  reverse (omap (fun r => (fun p => md_nonce p.1) <$> r) rs).

Lemma spec_run_nonces key session window es : forall s,
  (auth_spec_run key session window es s).2.(as_nonces) =
  accepted_nonces (auth_spec_run key session window es s).1 ++ s.(as_nonces).
Proof.
  unfold accepted_nonces. induction es as [|[e ok] es IH]; intros s; [done|]. cbn [auth_spec_run].
  destruct (auth_spec_step key session window e ok s) as [r s1] eqn:E.
  specialize (IH s1). destruct (auth_spec_run key session window es s1) as [rs s2]. cbn [fst snd] in *.
  assert (H : s1.(as_nonces) = (match r with Some p => [md_nonce p.1] | None => [] end) ++ s.(as_nonces)).
  { destruct e as [[d|] []|[id|]]; cbn [auth_spec_step] in E; try (by injection E as <- <-).
    - destruct ok; [|by injection E as <- <-]. unfold spec_unwrap in E.
      destruct (open_envelope key session d) as [[[id nonce] c]|]; [|by injection E as <- <-].
      destruct (_ || _); by injection E as <- <-.
    - injection E as <- <-. unfold spec_complete_id. by destruct (bool_decide _). }
  rewrite IH, H. destruct r as [p|]; cbn [omap list_omap fmap option_fmap option_map]; [|done].
  by rewrite reverse_cons, <- app_assoc.
Qed.

(** ** Wrapping *)

Lemma blit_field (pre old new post : bytes) off :
  off = length pre -> length new = length old ->
  blit (pre ++ old ++ post) off new = pre ++ new ++ post.
Proof.
  intros -> Hl. rewrite blit_in_range by (rewrite !length_app; lia).
  rewrite take_app_length. do 2 f_equal. rewrite app_assoc, drop_app_length'; [done|].
  rewrite length_app. lia.
Qed.

Lemma chunk_of_payload d c :
  chunk_of d = Some c -> (8 <= length d)%nat /\ c.(ck_payload) = Some (drop 8 d) /\
  0 <= c.(ck_payload_len).
Proof.
  unfold chunk_of. destruct (cwist_seq_chunk_parse _ _) as [[] x] eqn:E; [|done]. intros ->.
  unfold cwist_seq_chunk_parse in E. change (Z.of_nat CWIST_SEQ_HEADER_SIZE) with 8 in E.
  destruct (Z.ltb_spec (blen d) 8); [done|]. cbv zeta in E. injection E as _ <-.
  split; [unfold blen in *; lia|]. split; [done|]. apply u16_range.
Qed.

Section Wrap.
Context {T : AuthTag} {L : AuthTagLaw T} (ctx : seq_auth_context) (key session id nonce d : bytes)
  (c : cwist_seq_chunk).
Hypothesis Hctx : auth_keyed ctx key session.
Hypothesis Hid : length id = 16%nat.
Hypothesis Hnonce : length nonce = 12%nat.
Hypothesis Hc : chunk_of d = Some c.
Hypothesis Hlen : blen d = 8 + c.(ck_payload_len).

Lemma seq_tag_length header payload : length (seq_tag key session header payload) = 16%nat.
Proof. unfold seq_tag, hmac_spec. rewrite length_take, (proj1 (sha256_spec_props _)). done. Qed.

Lemma open_envelope_wrapped :
  open_envelope key session (envelope key session id nonce d) = Some (id, nonce, c).
Proof.
  destruct (chunk_of_payload d c Hc) as (Hl8 & Hp & Hp0).
  assert (Ht8 : length (take 8 d) = 8%nat) by (rewrite length_take; lia).
  unfold envelope. set (tag := seq_tag _ _ _ _).
  assert (Ht : length tag = 16%nat) by apply seq_tag_length.
  set (w := (take 8 d ++ id ++ nonce) ++ tag ++ drop 8 d).
  assert (Hh : length (take 8 d ++ id ++ nonce) = 36%nat) by (rewrite !length_app; lia).
  assert (Hw : length w = (52 + length (drop 8 d))%nat) by (unfold w; rewrite !length_app in *; lia).
  assert (E36 : take 36 w = take 8 d ++ id ++ nonce) by (unfold w; by rewrite take_app_length').
  assert (E52 : drop 52 w = drop 8 d).
  { unfold w. rewrite app_assoc. apply drop_app_length'. rewrite length_app. lia. }
  assert (Etag : sub w 36 16 = tag).
  { unfold sub, w. rewrite drop_app_length' by done. by rewrite take_app_length'. }
  assert (Eid : sub w 8 16 = id).
  { unfold sub, w. rewrite <- !app_assoc, drop_app_length' by done. by rewrite take_app_length'. }
  assert (En : sub w 24 12 = nonce).
  { unfold sub, w. rewrite <- !app_assoc, (app_assoc (take 8 d)), drop_app_length'
      by (rewrite length_app; lia). by rewrite take_app_length'. }
  assert (Es : stripped w = d).
  { unfold stripped. rewrite E52. unfold w. rewrite <- !app_assoc, take_app_length' by done.
    apply take_drop. }
  unfold open_envelope. destruct (Nat.ltb_spec (length w) 52); [lia|].
  rewrite Es, Hc, Etag, Eid, En, E36, E52. fold tag. rewrite bool_decide_eq_true_2 by done.
  replace (blen w =? 52 + ck_payload_len c) with true; [done|].
  symmetry. apply Z.eqb_eq. unfold blen in *. rewrite Hw, length_drop. lia.
Qed.

Hypothesis Hidok : bytes_ok id.
Hypothesis Hnonceok : bytes_ok nonce.
Hypothesis Hdok : bytes_ok d.

Lemma wrap_envelope :
  cwist_seq_auth_wrap ctx id nonce (Some d) [] = (Some (envelope key session id nonce d), []).
Proof.
  destruct (chunk_of_payload d c Hc) as (Hl8 & Hp & Hp0).
  unfold cwist_seq_auth_wrap. pose proof Hc as Hparse. unfold chunk_of in Hparse.
  destruct (cwist_seq_chunk_parse _ _) as [[] x]; [|done]. subst x.
  change (Z.of_nat CWIST_SEQ_HEADER_SIZE) with 8. rewrite Hlen, Z.eqb_refl, Hp.
  cbn [negb alloc default].
  set (n := Z.to_nat (ck_payload_len c)).
  assert (Hn : length (drop 8 d) = n) by (rewrite length_drop; unfold blen in Hlen; lia).
  assert (Ht8 : length (take 8 d) = 8%nat) by (rewrite length_take; lia).
  unfold CWIST_SEQ_AUTH_HEADER_SIZE, CWIST_SEQ_HEADER_SIZE, CWIST_SEQ_AUTH_MESSAGE_ID_SIZE,
    CWIST_SEQ_AUTH_NONCE_SIZE, CWIST_SEQ_AUTH_TAG_SIZE, off_message_id, off_nonce, off_tag.
  rewrite (take_ge (drop 8 d)), (take_ge id), (take_ge nonce) by lia.
  replace (52 + n)%nat with (8 + (16 + (12 + (16 + n))))%nat by lia.
  rewrite !replicate_add.
  pose proof (blit_field [] (replicate 8 0) (take 8 d)) as B1. cbn [app] in B1.
  rewrite B1 by (rewrite ?length_replicate; done).
  rewrite (blit_field (take 8 d)) by (rewrite ?length_replicate; done).
  rewrite (app_assoc (take 8 d)).
  rewrite (blit_field (take 8 d ++ id)) by (rewrite ?length_app, ?length_replicate; lia).
  rewrite (app_assoc (take 8 d ++ id)). rewrite <- (app_nil_r (replicate n 0)).
  rewrite (app_assoc _ (replicate 16 0)).
  rewrite (blit_field ((((take 8 d ++ id) ++ nonce)) ++ replicate 16 0))
    by (rewrite ?length_app, ?length_replicate; lia).
  rewrite app_nil_r, <- (app_assoc _ (replicate 16 0)).
  assert (Hh : length ((take 8 d ++ id) ++ nonce) = 36%nat) by (rewrite !length_app; lia).
  rewrite take_app_length' by done.
  rewrite (tag_of ctx key session Hctx)
    by (first [by apply Forall_drop|repeat apply Forall_app_2; try done; by apply Forall_take]).
  rewrite tag_outcome_nil. unfold envelope. rewrite <- (app_assoc (take 8 d)).
  rewrite blit_field; [done|rewrite !length_app in *; lia|].
  rewrite length_take, length_replicate. unfold hmac_spec. by rewrite (proj1 (sha256_spec_props _)).
Qed.
End Wrap.
