(* ===== verification/SeqAuthRun.v ===== *)
(** * Authenticated sequencing: what a receiver accepts

    The receiver against its history, and messages sent through it: split,
    sealed chunk by chunk, delivered in any order with copies and strays, and
    put together. *)

From S2P Require Import Prelude Seq Sha1.
From S2P Require Import Sha256 SeqAuth.

(** C27: The replay windows do what they promise.  Whatever a receiver is given
    (envelopes, genuine, forged, cut or malformed, and marks of finished
    messages, in any order), it answers as the specification that keeps the
    whole history: a chunk is accepted exactly when its envelope opens (the
    layout is that of a chunk, all of it, and the tag is the truncated HMAC of
    session, header and payload under the key), its nonce is not among the last
    [window] accepted and its message not among the last [window] marked.  So
    between two chunks accepted with one nonce lie at least [window] others.
    Only a failed tag computation can refuse more; without failures there is
    none. *)
Theorem auth_refines {T : AuthTag} {L : AuthTagLaw T} key session window o ctx o' es o1 :
  length key = CWIST_SEQ_AUTH_KEY_SIZE -> length session = CWIST_SEQ_AUTH_SESSION_ID_SIZE ->
  bytes_ok key -> bytes_ok session -> is_u64 window ->
  cwist_seq_auth_context_create (Some key) (Some session) window o = (Some ctx, o') ->
  Forall auth_event_ok es ->
  let n := Z.to_nat window in
  let rs := (auth_run es ctx o1).1.1 in
  (exists oks, length oks = length es /\
     rs = (auth_spec_run key session n (zip es oks) (MkAuthSpec [] [])).1 /\
     (o1 = [] -> oks = replicate (length es) true)) /\
  forall (i j : nat) v,
    accepted_nonces rs !! i = Some v -> accepted_nonces rs !! j = Some v -> (i < j)%nat ->
    (n < j - i)%nat.
Proof.
  intros Hkl Hsl Hk Hs Hw Hcreate Hes. cbv zeta.
  destruct (create_repr _ _ _ _ _ _ Hkl Hsl Hk Hs Hw Hcreate) as [Hr _].
  destruct (auth_run_refines key session _ es ctx _ o1 Hr Hes) as (oks & c2 & o2 & Hlen & E & _ & Ho).
  rewrite E. cbn [fst]. split.
  { exists oks. split; [done|]. split; [done|]. intros E0. by destruct (Ho E0). }
  intros i j v Hi Hj Hij. set (n := Z.to_nat window) in *.
  pose proof (spec_run_spaced key session n (zip es oks) (MkAuthSpec [] [])) as Hsp.
  pose proof (spec_run_nonces key session n (zip es oks) (MkAuthSpec [] [])) as Hn.
  cbn [as_nonces] in *. rewrite app_nil_r in Hn. rewrite Hn in Hsp. cbv zeta in Hsp.
  specialize (Hsp ltac:(done) i v Hi). apply Nat.nle_gt. intros Hle. apply Hsp.
  apply (list_elem_of_lookup_2 _ (j - S i)). rewrite lookup_take_lt by lia.
  rewrite lookup_drop. by replace (S i + (j - S i))%nat with j by lia.
Qed.

(** ** Sending a message *)

(** The sender seals the chunks of a split in order, a nonce for each. *)
Fixpoint seal_chunks {T : AuthTag} (ctx : seq_auth_context) (id : bytes) (nonces chunks : list bytes)
  (o : oracle) : option (list bytes) * oracle :=
  match nonces, chunks with
  | nonce :: nonces, chunk :: chunks =>
      match cwist_seq_auth_wrap ctx id nonce (Some chunk) o with
      | (Some wire, o) =>
          let (rest, o) := seal_chunks ctx id nonces chunks o in (cons wire <$> rest, o)
      | (None, o) => (None, o)
      end
  | _, _ => (Some [], o)
  end.

(** The receiver feeds the assembler what it accepts. *)
Definition accepted_chunks (rs : list (option (seq_auth_metadata * cwist_seq_chunk))) : list seq_op :=
  map (fun p => OpFeed p.2) (omap id rs).
Definition deliver (datagrams : list bytes) : list auth_event :=
  map (fun d => EvUnwrap (Some d) true) datagrams.

(** Chunks of the message, each at least once, make the message. *)
Lemma genuine_reassemble d cps msg idx limit a oa :
  split_facts d cps msg ->
  cwist_seq_assembler_create_limited limit oa = (Some a, []) ->
  msg.(msg_count) * cps <= spec_ceiling (spec_empty limit) ->
  Forall (fun k => (k < Z.to_nat msg.(msg_count))%nat) idx ->
  (forall k, (k < Z.to_nat msg.(msg_count))%nat -> k ∈ idx) ->
  cwist_seq_assembler_get_data
    (asm_run (feed_buffers (map (genuine_chunk d cps msg.(msg_count)) idx)) a []).1.2 = Some d.
Proof.
  intros Hs Hcreate Hfit Hidx Hall. set (t := msg_count msg) in *.
  set (bufs := map (genuine_chunk d cps t) idx).
  assert (Hno : existsb (contradicts d t cps) bufs = false).
  { apply not_true_is_false. intros (b & (k & <- & Hk)%in_map_iff & Hc)%existsb_exists.
    apply list_elem_of_In in Hk. pose proof (proj1 (list.Forall_forall _ _) Hidx k Hk) as Hkt.
    destruct (genuine_chunk_of d cps msg k Hs Hkt) as (c & Ec & _ & Ei & Ep).
    unfold contradicts in Hc. fold t in Ec. rewrite Ec, Ei, Ep in Hc.
    rewrite bool_decide_eq_true_2, andb_false_r in Hc by done. done. }
  assert (Hcar : forall k, (k < Z.to_nat t)%nat -> existsb (carries t cps k) bufs = true).
  { intros k Hk. apply existsb_exists. exists (genuine_chunk d cps t k). split.
    - apply in_map, list_elem_of_In. by apply Hall.
    - destruct (genuine_chunk_of d cps msg k Hs Hk) as (c & Ec & El & Ei & _).
      unfold carries. fold t in Ec, El. rewrite Ec, El, Ei. by rewrite Nat.eqb_refl. }
  destruct idx as [|k0 idx].
  { pose proof (sf_count _ _ _ Hs). specialize (Hall 0%nat ltac:(unfold t; lia)). by apply elem_of_nil in Hall. }
  pose proof (proj1 (proj1 (list.Forall_cons _ _ _) Hidx)) as Hk0.
  destruct (tracks_fresh d cps msg k0 limit (map (genuine_chunk d cps t) idx) Hs Hk0 Hfit)
    as (bs & s & Hrun & seen & Ht & Hseen).
  pose proof (assembler_steps _ limit _ _ _ Hcreate (feed_buffers_ok bufs)) as H.
  unfold bufs in *. cbn [map] in *. fold t in Hrun. rewrite Hrun in H.
  destruct (asm_run _ a []) as [[bs' a'] o1]. destruct H as (_ & _ & H). cbn [fst snd].
  rewrite (data_refines _ _ H). unfold spec_data.
  destruct (agreeing_queries d cps msg _ seen s Hs Ht Hseen Hno) as (_ & E2 & E3).
  fold t in E2, E3.
  assert (Em : filter (fun k => existsb (carries t cps k)
      (genuine_chunk d cps t k0 :: map (genuine_chunk d cps t) idx) = false) (seq 0 (Z.to_nat t)) = []).
  { apply elem_of_nil_inv. intros k [Hk1 Hk2%elem_of_seq]%list_elem_of_filter.
    by rewrite Hcar in Hk1 by lia. }
  rewrite E2, bool_decide_eq_true_2 by exact Em. by rewrite E3.
Qed.

(** ** Delivery *)

(** Numbers of chunks without repetition. *)
Lemma accepted_bound (acc : list nat) n :
  NoDup acc -> Forall (fun k => (k < n)%nat) acc -> (length acc <= n)%nat.
Proof.
  intros Hd Hb. rewrite <- (length_seq n 0). apply submseteq_length, NoDup_submseteq; [done|].
  intros k Hk. apply elem_of_seq. pose proof (proj1 (list.Forall_forall _ _) Hb k Hk). cbn in *. lia.
Qed.

Section Delivery.
Context (key session id : bytes) (nonces : list bytes) (wires : list bytes)
  (chunks : list cwist_seq_chunk) (window : nat).
Hypothesis Hnodup : NoDup nonces.
(** Wire [k] opens to chunk [k] under nonce [k]. *)
Hypothesis Hopens : forall (k : nat) w, wires !! k = Some w ->
  exists n c, nonces !! k = Some n /\ chunks !! k = Some c /\
    open_envelope key session w = Some (id, n, c).

(** [acc]: the numbers accepted so far, newest first. *)
Record delivered (acc : list nat) (s : auth_spec) : Prop := {
  dl_done : s.(as_done) = [];
  dl_range : Forall (fun k => (k < length nonces)%nat) acc;
  dl_nonces : Forall2 (fun k n => nonces !! k = Some n) acc s.(as_nonces);
  dl_once : (length nonces <= window)%nat -> NoDup acc }.

Definition answer (k : nat) : option (seq_auth_metadata * cwist_seq_chunk) :=
  n ← nonces !! k; c ← chunks !! k; Some (MkMeta id n, c).

Lemma same_wire (k k' : nat) w : wires !! k = Some w -> wires !! k' = Some w -> k = k'.
Proof.
  intros Hk Hk'. destruct (Hopens k w Hk) as (n & c & En & _ & Eo), (Hopens k' w Hk') as (n' & c' & En' & _ & Eo').
  assert (n' = n) as -> by congruence. exact (NoDup_lookup _ _ _ _ Hnodup En En').
Qed.

(** A wire is accepted unless its nonce is remembered; then it was accepted
    before. *)
Lemma deliver_wire acc s k w :
  delivered acc s -> wires !! k = Some w ->
  let (r, s') := spec_unwrap key session window s w in
  (r = None /\ s' = s /\ k ∈ acc) \/
  (r = answer k /\ r <> None /\ delivered (k :: acc) s').
Proof.
  intros [Hd Hr Hn Ho] Hw. destruct (Hopens k w Hw) as (n & c & En & Ec & Eo).
  pose proof (lookup_lt_Some _ _ _ En) as Hk.
  unfold spec_unwrap. rewrite Eo, Hd, take_nil.
  rewrite (bool_decide_eq_false_2 (id ∈ [])) by apply not_elem_of_nil. rewrite orb_false_r.
  destruct (bool_decide_reflect (n ∈ take window (as_nonces s))) as [Hin|Hnot].
  - left. split_and!; [done|done|]. apply list_elem_of_lookup_1 in Hin as (i & Hi).
    apply lookup_take_Some in Hi as [Hi _].
    destruct (Forall2_lookup_r _ _ _ _ _ Hn Hi) as (k' & Hk' & En').
    rewrite (NoDup_lookup _ _ _ _ Hnodup En En'). by apply (list_elem_of_lookup_2 _ i).
  - right. unfold answer. rewrite En, Ec. split_and!; [done|done|]. split.
    + done.
    + by constructor.
    + by constructor.
    + intros Hle. constructor; [|by apply Ho]. intros Hin. apply Hnot.
      rewrite take_ge.
      * apply list_elem_of_lookup_1 in Hin as (i & Hi).
        destruct (Forall2_lookup_l _ _ _ _ _ Hn Hi) as (n' & Hn' & En').
        assert (n' = n) as -> by congruence. by apply (list_elem_of_lookup_2 _ i).
      * rewrite <- (list.Forall2_length _ _ _ Hn).
        pose proof (accepted_bound acc _ (Ho Hle) Hr). lia.
Qed.

(** Datagrams: wires in any order, and strays that open to nothing. *)
Lemma deliver_all ds : forall acc s,
  delivered acc s ->
  (forall x, x ∈ ds -> x ∈ wires \/ open_envelope key session x = None) ->
  exists new, let (rs, s') := auth_spec_run key session window (map (fun e => (e, true)) (deliver ds)) s in
    delivered (new ++ acc) s' /\
    omap Datatypes.id rs = omap answer (reverse new) /\
    (forall k w, wires !! k = Some w -> w ∈ ds -> k ∈ new ++ acc).
Proof.
  induction ds as [|x ds IH]; intros acc s Hdl Hds.
  { exists []. cbn. split_and!; [done|done|]. intros k w _ []%elem_of_nil. }
  unfold deliver in *. cbn [map auth_spec_run auth_spec_step].
  assert (Hds' : forall y, y ∈ ds -> y ∈ wires \/ open_envelope key session y = None).
  { intros y Hy. apply Hds. by right. }
  destruct (Hds x ltac:(left)) as [(k & Hk)%list_elem_of_lookup_1|Hstray].
  - pose proof (deliver_wire acc s k x Hdl Hk) as H.
    destruct (spec_unwrap key session window s x) as [r s1].
    destruct H as [(-> & -> & Hin)|(Er & Hne & Hdl1)].
    + destruct (IH acc s Hdl Hds') as (new & H). exists new.
      destruct (auth_spec_run _ _ _ _ s) as [rs s2]. destruct H as (H1 & H2 & H3).
      split_and!; [done|done|]. intros k' w Hw [->|Hin']%elem_of_cons; [|by apply (H3 k' w)].
      rewrite (same_wire k' k x Hw Hk). apply elem_of_app. by right.
    + destruct (IH (k :: acc) s1 Hdl1 Hds') as (new & H). exists (new ++ [k]).
      destruct (auth_spec_run _ _ _ _ s1) as [rs s2]. destruct H as (H1 & H2 & H3).
      rewrite <- app_assoc. split_and!; [done| |].
      * rewrite reverse_snoc. destruct r as [p|]; [|done]. cbn. by rewrite <- Er, H2.
      * intros k' w Hw [->|Hin']%elem_of_cons; [|by apply (H3 k' w)].
        rewrite (same_wire k' k x Hw Hk). apply elem_of_app. right. left.
  - unfold spec_unwrap. rewrite Hstray. destruct (IH acc s Hdl Hds') as (new & H). exists new.
    destruct (auth_spec_run _ _ _ _ s) as [rs s2]. destruct H as (H1 & H2 & H3).
    split_and!; [done|done|]. intros k' w Hw [->|Hin']%elem_of_cons; [|by apply (H3 k' w)].
    destruct (Hopens k' x Hw) as (n & c & _ & _ & Eo). congruence.
Qed.
End Delivery.

(** ** Transport *)

(** The chunk number [k] of a split, as a receiver parses it. *)
Definition sent_chunk (d : bytes) (cps t : Z) (k : nat) : cwist_seq_chunk :=
  MkChunk (Z.of_nat k + 1) t (blen (genuine_part d cps k)) cps (Some (genuine_part d cps k)).

Lemma sent_chunk_of d cps msg k :
  split_facts d cps msg -> (k < Z.to_nat msg.(msg_count))%nat ->
  chunk_of (genuine_chunk d cps msg.(msg_count) k) = Some (sent_chunk d cps msg.(msg_count) k).
Proof. intros Hs Hk. unfold chunk_of. by rewrite (genuine_parse d cps msg k _ Hs Hk). Qed.

Lemma genuine_chunk_ok d cps t k : bytes_ok d -> bytes_ok (genuine_chunk d cps t k).
Proof.
  intros Hd. unfold genuine_chunk. apply Forall_app_2.
  - unfold cwist_seq_chunk_build_header, seq_write_u16. repeat apply Forall_app_2;
      repeat apply list.Forall_cons_2; try apply u8_range; constructor.
  - unfold genuine_part. by apply Forall_take, Forall_drop.
Qed.

Lemma zip_true (es : list auth_event) : zip es (replicate (length es) true) = map (fun e => (e, true)) es.
Proof. induction es as [|e es IH]; [done|]. cbn. by rewrite <- IH. Qed.

Lemma seal_envelopes {T : AuthTag} {L : AuthTagLaw T} ctx key session id nonces : forall chunks,
  auth_keyed ctx key session -> length id = 16%nat -> bytes_ok id ->
  Forall (fun n => length n = 12%nat /\ bytes_ok n) nonces ->
  Forall (fun d => bytes_ok d /\ exists c, chunk_of d = Some c /\ blen d = 8 + c.(ck_payload_len)) chunks ->
  seal_chunks ctx id nonces chunks [] =
    (Some (zip_with (envelope key session id) nonces chunks), []).
Proof.
  induction nonces as [|n nonces IH]; intros chunks Hk Hl Hok Hn Hc; [done|].
  destruct chunks as [|d chunks]; [done|].
  apply list.Forall_cons in Hn as [[Hn1 Hn2] Hn]. apply list.Forall_cons in Hc as [(Hd & c & Hc1 & Hc2) Hc].
  cbn [seal_chunks zip_with]. rewrite (wrap_envelope ctx key session id n d c) by done.
  by rewrite IH.
Qed.

Section Transport.
Context {T : AuthTag} {L : AuthTagLaw T} (key session id : bytes) (nonces : list bytes)
  (d : bytes) (cps : Z) (msg : cwist_seq_message).
Hypothesis Hsplit : split_facts d cps msg.
Hypothesis Hd : bytes_ok d.
Hypothesis Hid : length id = 16%nat.
Hypothesis Hidok : bytes_ok id.
Hypothesis Hcount : length nonces = Z.to_nat msg.(msg_count).
Hypothesis Hnonces : Forall (fun n => length n = 12%nat /\ bytes_ok n) nonces.
Hypothesis Hnodup : NoDup nonces.
Let t := msg.(msg_count).
Let wires := zip_with (envelope key session id) nonces msg.(msg_chunks).
Let chunks := map (sent_chunk d cps t) (seq 0 (Z.to_nat t)).

Lemma sealed ctx :
  auth_keyed ctx key session -> seal_chunks ctx id nonces msg.(msg_chunks) [] = (Some wires, []).
Proof.
  intros Hk. apply (seal_envelopes ctx key session id nonces); try done.
  rewrite (sf_chunks _ _ _ Hsplit). fold t. apply list.Forall_forall.
  intros b (k & -> & Hk'%elem_of_seq)%list_elem_of_fmap. split; [by apply genuine_chunk_ok|].
  exists (sent_chunk d cps t k). split; [apply (sent_chunk_of d cps msg k Hsplit); unfold t in *; lia|].
  unfold genuine_chunk. rewrite blen_app. done.
Qed.

Lemma wires_open (k : nat) w : wires !! k = Some w ->
  exists n c, nonces !! k = Some n /\ chunks !! k = Some c /\
    open_envelope key session w = Some (id, n, c).
Proof.
  unfold wires. intros (n & b & Ew & En & Eb)%lookup_zip_with_Some. subst w.
  rewrite (sf_chunks _ _ _ Hsplit) in Eb. fold t in Eb.
  apply list_lookup_fmap_Some in Eb as (k' & -> & Ek). apply lookup_seq in Ek as [-> Hk]. cbn [Nat.add].
  exists n, (sent_chunk d cps t k). split; [done|]. split.
  - unfold chunks. rewrite list_lookup_fmap, (proj2 (lookup_seq 0 _ k k)) by lia. done.
  - pose proof (proj1 (list.Forall_forall _ _) Hnonces n ltac:(by apply (list_elem_of_lookup_2 _ k))) as [Hl _].
    apply open_envelope_wrapped; try done.
    + apply (sent_chunk_of d cps msg k Hsplit). done.
    + unfold genuine_chunk. rewrite blen_app. done.
Qed.

Lemma answers_feed ks rs :
  Forall (fun k => (k < length nonces)%nat) ks ->
  omap Datatypes.id rs = omap (answer id nonces chunks) ks ->
  accepted_chunks rs = feed_buffers (map (genuine_chunk d cps t) ks) /\
  length (accepted_chunks rs) = length ks.
Proof.
  unfold accepted_chunks, feed_buffers. intros Hks ->.
  induction Hks as [|k ks Hk _ [IH1 IH2]]; [done|].
  destruct (lookup_lt_is_Some_2 nonces k Hk) as [n En].
  assert (Ec : chunks !! k = Some (sent_chunk d cps t k)).
  { unfold chunks. rewrite list_lookup_fmap, (proj2 (lookup_seq 0 _ k k)) by (unfold t in *; lia). done. }
  assert (Ea : answer id nonces chunks k = Some (MkMeta id n, sent_chunk d cps t k)).
  { unfold answer. by rewrite En, Ec. }
  cbn [omap list_omap map]. rewrite Ea.
  pose proof (sent_chunk_of d cps msg k Hsplit ltac:(lia)) as Eg. fold t in Eg. rewrite Eg.
  cbn [map snd length]. unfold omap in *. by rewrite IH1, IH2 at 1.
Qed.
End Transport.

(** C24: A message sent in sealed chunks arrives, once, and only as it was sent.
    A sender splits it and seals each chunk under a nonce of its own; the
    network delivers every sealed chunk, in any order and number of copies,
    among any other datagrams whose tags are not valid.  What a fresh receiver
    accepts, fed to an assembler, is the message byte for byte; with a window
    as large as the message every chunk is accepted exactly once; and once the
    message is marked complete, none of its chunks is accepted again. *)
Theorem auth_transport {T : AuthTag} {L : AuthTagLaw T}
    sender key session window o receiver o' d cps os msg os' id nonces limit oa a :
  auth_keyed sender key session -> length session = CWIST_SEQ_AUTH_SESSION_ID_SIZE ->
  is_u64 window ->
  cwist_seq_auth_context_create (Some key) (Some session) window o = (Some receiver, o') ->
  is_u16 cps -> bytes_ok d -> cwist_seq_split (Some d) cps os = (true, msg, os') ->
  length id = CWIST_SEQ_AUTH_MESSAGE_ID_SIZE -> bytes_ok id ->
  length nonces = Z.to_nat msg.(msg_count) -> NoDup nonces ->
  Forall (fun n => length n = CWIST_SEQ_AUTH_NONCE_SIZE /\ bytes_ok n) nonces ->
  cwist_seq_assembler_create_limited limit oa = (Some a, []) ->
  msg.(msg_count) * cps <= (if limit =? 0 then CWIST_SEQ_MAX_REASSEMBLED_SIZE else limit) ->
  exists wires, seal_chunks sender id nonces msg.(msg_chunks) [] = (Some wires, []) /\
  forall ds, Forall bytes_ok ds -> (forall w, w ∈ wires -> w ∈ ds) ->
    (forall x, x ∈ ds -> x ∈ wires \/ open_envelope key session x = None) ->
    let '(rs, receiver', _) := auth_run (deliver ds) receiver [] in
    cwist_seq_assembler_get_data (asm_run (accepted_chunks rs) a []).1.2 = Some d /\
    (msg.(msg_count) <= window -> Z.of_nat (length (accepted_chunks rs)) = msg.(msg_count)) /\
    forall w, w ∈ wires ->
      (cwist_seq_auth_unwrap (cwist_seq_auth_mark_complete receiver' (Some id)) (Some w) true []).1.1 = None.
Proof.
  intros Hkey Hsl Hw Hcreate Hcps Hd Hsp Hid Hidok Hcount Hnodup Hnonces Hasm Hfit.
  pose proof (split_spec _ _ _ _ _ Hcps Hsp) as Hs.
  pose proof Hkey as [_ _ Hkl Hkok Hsok].
  destruct (create_repr _ _ _ _ _ _ Hkl Hsl Hkok Hsok Hw Hcreate) as [Hr Hw0].
  eexists. split; [by apply (sealed key session id nonces d cps msg)|].
  set (wires := zip_with _ _ _). intros ds Hds Hall Hun.
  destruct (auth_run_refines key session _ (deliver ds) receiver _ [] Hr) as (oks & rc & o2 & _ & E & Hr' & Ho).
  { apply list.Forall_fmap. exact Hds. }
  destruct (Ho eq_refl) as [-> ->]. rewrite zip_true in *. rewrite E.
  set (n := Z.to_nat window) in *.
  set (chunks := map (sent_chunk d cps (msg_count msg)) (seq 0 (Z.to_nat (msg_count msg)))).
  pose proof (wires_open key session id nonces d cps msg Hs Hid Hcount Hnonces) as Hopens.
  fold wires chunks in Hopens.
  assert (Hwl : length wires = length nonces).
  { unfold wires. rewrite length_zip_with, (sf_chunks _ _ _ Hs), length_map, length_seq. lia. }
  assert (Hdl0 : delivered nonces n [] (MkAuthSpec [] [])).
  { split; cbn; try done. intros _. constructor. }
  destruct (deliver_all key session id nonces wires chunks n Hnodup Hopens ds [] _ Hdl0 Hun)
    as (new & H).
  destruct (auth_spec_run _ _ _ _ _) as [rs s']. cbn [fst snd] in *. rewrite app_nil_r in H.
  destruct H as (Hdl & Hrs & Hin).
  assert (Hcover : forall k, (k < Z.to_nat (msg_count msg))%nat -> k ∈ new).
  { intros k Hk. destruct (lookup_lt_is_Some_2 wires k ltac:(lia)) as [w Hwk].
    apply (Hin k w Hwk), Hall, (list_elem_of_lookup_2 _ k), Hwk. }
  assert (Hrange : Forall (fun k => (k < length nonces)%nat) (reverse new)).
  { apply Forall_reverse, (dl_range _ _ _ _ Hdl). }
  destruct (answers_feed id nonces d cps msg Hs Hid Hcount (reverse new) rs Hrange Hrs) as [Efeed Elen].
  split_and!.
  - rewrite Efeed. eapply genuine_reassemble; [done|done| | |].
    + unfold spec_ceiling. cbn. exact Hfit.
    + by rewrite <- Hcount.
    + intros k Hk. apply elem_of_reverse. by apply Hcover.
  - intros Hle. rewrite Elen, length_reverse.
    pose proof (dl_once _ _ _ _ Hdl ltac:(lia)) as Hnd.
    pose proof (accepted_bound new _ Hnd (dl_range _ _ _ _ Hdl)).
    pose proof (sf_count _ _ _ Hs).
    assert (length (seq 0 (Z.to_nat (msg_count msg))) <= length new)%nat.
    { apply submseteq_length, NoDup_submseteq; [apply NoDup_seq|].
      intros k Hk%elem_of_seq. apply Hcover. lia. }
    rewrite length_seq in *. lia.
  - intros w Hwin. apply list_elem_of_lookup_1 in Hwin as (k & Hk).
    destruct (Hopens k w Hk) as (nn & c & _ & _ & Eo).
    pose proof (mark_refines key session n rc s' id Hr' Hid) as Hr2.
    destruct (unwrap_refines key session n _ _ (Some w) true [] Hr2) as (ok & r & c2 & s2 & o3 & E1 & E2 & _ & Hok).
    { cbn. apply (proj1 (list.Forall_forall _ _) Hds), Hall, (list_elem_of_lookup_2 _ k), Hk. }
    destruct (Hok eq_refl) as [-> ->]. rewrite E1. cbn [fst]. cbn [auth_spec_step] in E2.
    unfold spec_unwrap in E2. rewrite Eo in E2.
    rewrite (bool_decide_eq_true_2 (id ∈ _)), orb_true_r in E2; [by injection E2|].
    unfold spec_complete_id. destruct (bool_decide_reflect (id ∈ take n (as_done s'))); [done|].
    cbn [as_done set_field]. assert (Hn0 : (0 < n)%nat) by (unfold n; lia).
    destruct (Nat.lt_exists_pred 0 n Hn0) as (m & -> & _). by left.
Qed.

(** ** Concrete runs *)

Abbreviation demo_key := (replicate 32 11).
Abbreviation demo_session := (replicate 16 22).
Abbreviation demo_id := (replicate 16 33).
Abbreviation demo_nonces := [replicate 12 1; replicate 12 2; replicate 12 3].
Abbreviation demo_stack := (replicate 64 7).
Definition demo_context (n : nat) : seq_auth_context :=
  MkAuth demo_key demo_session (replicate (n * 12) 0) (replicate (n * 16) 0) n 0 0 0 0.
Definition demo_wires : list bytes :=
  [[0; 1; 0; 3; 0; 4; 0; 4; 33; 33; 33; 33; 33; 33; 33; 33; 33; 33; 33; 33; 33; 33; 33; 33;
    1; 1; 1; 1; 1; 1; 1; 1; 1; 1; 1; 1; 212; 49; 16; 170; 104; 95; 23; 203; 105; 87; 102;
    195; 105; 156; 204; 26; 104; 101; 108; 108];
   [0; 2; 0; 3; 0; 4; 0; 4; 33; 33; 33; 33; 33; 33; 33; 33; 33; 33; 33; 33; 33; 33; 33; 33;
    2; 2; 2; 2; 2; 2; 2; 2; 2; 2; 2; 2; 10; 163; 158; 93; 254; 194; 217; 251; 185; 47; 225;
    123; 229; 235; 223; 11; 111; 32; 119; 111];
   [0; 3; 0; 3; 0; 3; 0; 4; 33; 33; 33; 33; 33; 33; 33; 33; 33; 33; 33; 33; 33; 33; 33; 33;
    3; 3; 3; 3; 3; 3; 3; 3; 3; 3; 3; 3; 138; 212; 100; 184; 36; 218; 37; 202; 117; 249; 7;
    61; 208; 76; 12; 158; 114; 108; 100]].
Definition demo_wire (k : nat) : bytes := nth k demo_wires [].

#[local] Instance demo_tag : AuthTag := bundled_auth_tag demo_stack.
#[local] Instance demo_law : AuthTagLaw demo_tag.
Proof. apply bundled_law; [done|by apply bytes_okb_ok]. Defined.

Definition demo_events : list auth_event :=
  [EvUnwrap (Some (demo_wire 0)) true; EvUnwrap (Some (demo_wire 0)) true;
   EvUnwrap (Some (bs "junk")) true; EvUnwrap None true; EvUnwrap (Some (demo_wire 1)) true;
   EvUnwrap (Some (demo_wire 0)) true; EvComplete (Some demo_id); EvUnwrap (Some (demo_wire 2)) true].

(** With a window of one, the first nonce is forgotten after the second. *)
Lemma auth_refines_witness :
  let rs := (auth_run demo_events (demo_context 1) []).1.1 in
  map (fun r => bool_decide (r = None)) rs = [false; true; true; true; false; false; true; true] /\
  (exists oks, length oks = length demo_events /\
     rs = (auth_spec_run demo_key demo_session 1 (zip demo_events oks) (MkAuthSpec [] [])).1 /\
     ((@nil bool) = [] -> oks = replicate (length demo_events) true)) /\
  forall (i j : nat) v,
    accepted_nonces rs !! i = Some v -> accepted_nonces rs !! j = Some v -> (i < j)%nat ->
    (1 < j - i)%nat.
Proof.
  cbv zeta. split; [vm_compute; reflexivity|].
  apply (auth_refines demo_key demo_session 1 [] (demo_context 1) [] demo_events []);
    [done|done|by apply bytes_okb_ok|by apply bytes_okb_ok|done|reflexivity|].
  unfold demo_events.
  do 8 (apply list.Forall_cons_2;
    [first [apply bytes_okb_ok; vm_compute; reflexivity|exact I|reflexivity]|]); constructor.
Defined.

Lemma auth_transport_witness :
  let '(rs, receiver, _) :=
    auth_run (deliver [demo_wire 2; bs "junk"; demo_wire 0; demo_wire 2; demo_wire 1]) (demo_context 3) [] in
  cwist_seq_assembler_get_data (asm_run (accepted_chunks rs) assembler_zero []).1.2 = Some demo_message /\
  length (accepted_chunks rs) = 3%nat /\
  (cwist_seq_auth_unwrap (cwist_seq_auth_mark_complete receiver (Some demo_id))
     (Some (demo_wire 1)) true []).1.1 = None.
Proof.
  destruct (auth_transport (demo_context 1) demo_key demo_session 3 [] (demo_context 3) []
    demo_message 4 [] demo_split [] demo_id demo_nonces 0 [] assembler_zero) as (wires & Hseal & H).
  - split; try done; by apply bytes_okb_ok.
  - done.
  - done.
  - reflexivity.
  - done.
  - by apply bytes_okb_ok.
  - vm_compute; reflexivity.
  - done.
  - by apply bytes_okb_ok.
  - done.
  - apply NoDup_cons_2; [|apply NoDup_cons_2; [|apply NoDup_singleton]]; apply (bool_decide_unpack _); vm_compute; done.
  - repeat apply list.Forall_cons_2; try done; (split; [done|by apply bytes_okb_ok]).
  - reflexivity.
  - vm_compute; discriminate.
  - assert (E : wires = demo_wires) by (vm_compute in Hseal; injection Hseal as <-; vm_compute; reflexivity).
    subst wires. clear Hseal.
    specialize (H [demo_wire 2; bs "junk"; demo_wire 0; demo_wire 2; demo_wire 1]).
    destruct (auth_run _ _ _) as [[rs rc] oo]. destruct H as (H1 & H2 & H3).
    + do 5 (apply list.Forall_cons_2; [apply bytes_okb_ok; vm_compute; reflexivity|]); constructor.
    + assert (E : demo_wires = [demo_wire 0; demo_wire 1; demo_wire 2]) by (vm_compute; reflexivity).
      intros w. rewrite E. rewrite !elem_of_cons. intuition idtac.
    + intros x. rewrite !elem_of_cons.
      intros [->|[->|[->|[->|[->|[]%elem_of_nil]]]]]; try (by right; vm_compute);
        left; [apply (list_elem_of_lookup_2 _ 2)|apply (list_elem_of_lookup_2 _ 0)|
               apply (list_elem_of_lookup_2 _ 2)|apply (list_elem_of_lookup_2 _ 1)]; vm_compute; reflexivity.
    + split; [exact H1|]. split; [|apply H3; apply (list_elem_of_lookup_2 _ 1); vm_compute; reflexivity].
      apply Nat2Z.inj. apply H2. vm_compute. discriminate.
Defined.
