(* ===== verification/QuicFlow.v ===== *)
(** * QUIC flow control (net/quic_flow_control.c)

    Windows, RTT estimate and the MAX_DATA and MAX_STREAM_DATA frames of a QUIC
    connection, against a peer that reads the frames as RFC 9000 has them. *)

From S2P Require Import Prelude Sha1.

(** ** The source *)

Definition QUIC_FLOW_CONTROL_MIN_INITIAL_WINDOW : Z := 1048576.
Definition QUIC_MAX_VARINT : Z := 4611686018427387903.
Definition QUIC_FRAME_MAX_DATA : Z := 16.
Definition QUIC_FRAME_MAX_STREAM_DATA : Z := 17.

Inductive quic_net_quality :=
  | QUIC_NET_QUALITY_EXCELLENT | QUIC_NET_QUALITY_NORMAL
  | QUIC_NET_QUALITY_HIGH_RTT | QUIC_NET_QUALITY_POOR.
Definition quality_rank (q : quic_net_quality) : Z :=
  match q with
  | QUIC_NET_QUALITY_EXCELLENT => 0
  | QUIC_NET_QUALITY_NORMAL => 1
  | QUIC_NET_QUALITY_HIGH_RTT => 2
  | QUIC_NET_QUALITY_POOR => 3
  end.

Record quic_conn_fc := MkConnFc {
  srtt_us : Z; rttvar_us : Z; min_rtt_us : Z; rtt_initialized : bool;
  q_quality : quic_net_quality;
  max_data : Z; conn_consumed : Z; conn_window_size : Z; conn_min_window : Z; conn_max_window : Z;
  base_stream_window : Z; stream_min_window : Z; stream_max_window : Z }.
#[export] Instance quic_conn_fields : Fields quic_conn_fc := fun r =>
  MkConnFc r.(srtt_us) r.(rttvar_us) r.(min_rtt_us) r.(rtt_initialized) r.(q_quality)
    r.(max_data) r.(conn_consumed) r.(conn_window_size) r.(conn_min_window) r.(conn_max_window)
    r.(base_stream_window) r.(stream_min_window) r.(stream_max_window).

Record quic_stream_fc := MkStreamFc {
  stream_id : Z; max_stream_data : Z; stream_consumed : Z; stream_window_size : Z }.
#[export] Instance quic_stream_fields : Fields quic_stream_fc := fun r =>
  MkStreamFc r.(stream_id) r.(max_stream_data) r.(stream_consumed) r.(stream_window_size).

Definition clamp_window (window : Z) : Z :=
  if window <? QUIC_FLOW_CONTROL_MIN_INITIAL_WINDOW
  then QUIC_FLOW_CONTROL_MIN_INITIAL_WINDOW else window.

Definition saturating_add (value increment : Z) : Z :=
  if u64 (QUIC_MAX_VARINT - increment) <? value then QUIC_MAX_VARINT else u64 (value + increment).

Definition varint_size (value : Z) : nat :=
  if value <? 64 then 1 else if value <? 16384 then 2 else if value <? 1073741824 then 4 else 8.

(** [for (i = size; i-- > 0; value >>= 8) buf[i] = (uint8_t)value;] *)
Fixpoint write_loop (buf : bytes) (off : nat) (value : Z) (i : nat) : bytes :=
  match i with
  | O => buf
  | S i => write_loop (put buf (off + i) (u8 value)) off (Z.shiftr value 8) i
  end.
(** At [buf + off]. *)
Definition write_varint (buf : bytes) (off : nat) (value : Z) (size : nat) : bytes :=
  let buf := write_loop buf off value size in
  let code := match size with 1%nat => 0 | 2%nat => 1 | 4%nat => 2 | _ => 3 end in
  put buf off (Z.lor (rd buf off) (u8 (Z.shiftl code 6))).

Definition should_update (consumed maximum window : Z) : bool :=
  (maximum <=? consumed) || (maximum <=? u64 (consumed + window / 2)).

Definition quic_flow_control_init (initial_conn_window initial_stream_window
    max_conn_window max_stream_window : Z) : quic_conn_fc :=
  let initial_conn_window := clamp_window initial_conn_window in
  let initial_stream_window := clamp_window initial_stream_window in
  let max_conn_window := clamp_window max_conn_window in
  let max_stream_window := clamp_window max_stream_window in
  let max_conn_window :=
    if max_conn_window <? initial_conn_window then initial_conn_window else max_conn_window in
  let max_stream_window :=
    if max_stream_window <? initial_stream_window then initial_stream_window
    else max_stream_window in
  MkConnFc 0 0 0 false QUIC_NET_QUALITY_NORMAL
    initial_conn_window 0 initial_conn_window initial_conn_window max_conn_window
    initial_stream_window initial_stream_window max_stream_window.

Definition quic_stream_fc_init (id initial_stream_window : Z) : quic_stream_fc :=
  let initial_stream_window := clamp_window initial_stream_window in
  MkStreamFc id initial_stream_window 0 initial_stream_window.

Definition quic_flow_control_evaluate_quality (fc : quic_conn_fc)
  : quic_net_quality * quic_conn_fc :=
  if negb fc.(rtt_initialized) then (QUIC_NET_QUALITY_NORMAL, fc)
  else
    let q :=
      if fc.(srtt_us) <=? 50000 then QUIC_NET_QUALITY_EXCELLENT
      else if fc.(srtt_us) <=? 150000 then QUIC_NET_QUALITY_NORMAL
      else if fc.(srtt_us) <=? 500000 then QUIC_NET_QUALITY_HIGH_RTT
      else QUIC_NET_QUALITY_POOR in
    (q, fc <| q_quality := q |>).

Definition quic_flow_control_update_rtt (fc : quic_conn_fc) (rtt_sample_us : Z) : quic_conn_fc :=
  if rtt_sample_us =? 0 then fc
  else
    let fc :=
      if negb fc.(rtt_initialized) then
        fc <| srtt_us := rtt_sample_us |> <| rttvar_us := rtt_sample_us / 2 |>
           <| min_rtt_us := rtt_sample_us |> <| rtt_initialized := true |>
      else
        let difference :=
          if rtt_sample_us <? fc.(srtt_us) then fc.(srtt_us) - rtt_sample_us
          else rtt_sample_us - fc.(srtt_us) in
        let fc := fc <| rttvar_us := u64 (u64 (3 * fc.(rttvar_us)) + difference) / 4 |> in
        let fc := fc <| srtt_us := u64 (u64 (7 * fc.(srtt_us)) + rtt_sample_us) / 8 |> in
        if rtt_sample_us <? fc.(min_rtt_us) then fc <| min_rtt_us := rtt_sample_us |> else fc in
    snd (quic_flow_control_evaluate_quality fc).

Definition grow_window (size maximum : Z) : Z :=
  if size <? maximum then
    let size := u64 (size * 2) in if maximum <? size then maximum else size
  else size.
Definition quic_flow_control_adjust_windows (fc : quic_conn_fc) (sfc : option quic_stream_fc)
  : quic_conn_fc * option quic_stream_fc :=
  if quality_rank fc.(q_quality) <? 2 then (fc, sfc)
  else
    let fc := fc <| conn_window_size := grow_window fc.(conn_window_size) fc.(conn_max_window) |> in
    (fc, (fun s => s <| stream_window_size :=
                      grow_window s.(stream_window_size) fc.(stream_max_window) |>) <$> sfc).

Definition quic_flow_control_consume_conn (fc : quic_conn_fc) (n : Z) : quic_conn_fc :=
  fc <| conn_consumed := saturating_add fc.(conn_consumed) n |>.
Definition quic_flow_control_consume_stream (sfc : quic_stream_fc) (n : Z) : quic_stream_fc :=
  sfc <| stream_consumed := saturating_add sfc.(stream_consumed) n |>.

(** The result, the buffer, [*written] and the state. *)
Definition quic_flow_control_maybe_send_max_data (fc : quic_conn_fc) (buf : bytes) (force : bool)
  : Z * bytes * nat * quic_conn_fc :=
  if negb force && negb (should_update fc.(conn_consumed) fc.(max_data) fc.(conn_window_size))
  then (0, buf, 0%nat, fc)
  else
    let maximum := saturating_add fc.(conn_consumed) fc.(conn_window_size) in
    let maximum := if maximum <? fc.(max_data) then fc.(max_data) else maximum in
    let value_size := varint_size maximum in
    if (length buf <? 1 + value_size)%nat then (-1, buf, 0%nat, fc)
    else
      let buf := put buf 0 QUIC_FRAME_MAX_DATA in
      let buf := write_varint buf 1 maximum value_size in
      (1, buf, (1 + value_size)%nat, fc <| max_data := maximum |>).

Definition quic_flow_control_maybe_send_max_stream_data (sfc : quic_stream_fc) (buf : bytes)
  (force : bool) : Z * bytes * nat * quic_stream_fc :=
  if negb force &&
     negb (should_update sfc.(stream_consumed) sfc.(max_stream_data) sfc.(stream_window_size))
  then (0, buf, 0%nat, sfc)
  else
    let maximum := saturating_add sfc.(stream_consumed) sfc.(stream_window_size) in
    let maximum := if maximum <? sfc.(max_stream_data) then sfc.(max_stream_data) else maximum in
    let id_size := varint_size sfc.(stream_id) in
    let value_size := varint_size maximum in
    if (length buf <? 1 + id_size + value_size)%nat then (-1, buf, 0%nat, sfc)
    else
      let buf := put buf 0 QUIC_FRAME_MAX_STREAM_DATA in
      let buf := write_varint buf 1 sfc.(stream_id) id_size in
      let buf := write_varint buf (1 + id_size) maximum value_size in
      (1, buf, (1 + id_size + value_size)%nat, sfc <| max_stream_data := maximum |>).

(** ** The peer: RFC 9000 *)

Definition be_value (l : bytes) : Z := fold_left (fun acc b => acc * 256 + b) l 0.

(** A variable-length integer and what follows it. *)
Definition read_varint (d : bytes) : option (Z * bytes) :=
  match d with
  | [] => None
  | b :: _ =>
      let n := Z.to_nat (2 ^ (b / 64)) in
      if (length d <? n)%nat then None
      else Some (be_value (b mod 64 :: take (n - 1) (drop 1 d)), drop n d)
  end.

Inductive quic_frame := MaxData (m : Z) | MaxStreamData (id m : Z).
Definition read_frame (d : bytes) : option quic_frame :=
  match d with
  | 16 :: d => match read_varint d with Some (m, []) => Some (MaxData m) | _ => None end
  | 17 :: d =>
      match read_varint d with
      | Some (id, d) =>
          match read_varint d with Some (m, []) => Some (MaxStreamData id m) | _ => None end
      | None => None
      end
  | _ => None
  end.

(** ** Integers on the wire *)

Lemma be_bytes_S n v : be_bytes (S n) v = be_bytes n (v / 256) ++ [u8 v].
Proof. done. Qed.

Lemma be_value_bytes n : forall v, 0 <= v -> be_value (be_bytes n v) = v mod 256 ^ Z.of_nat n.
Proof.
  unfold be_value. induction n as [|n IH]; intros v Hv.
  - cbn. by rewrite Z.mod_1_r.
  - rewrite be_bytes_S, fold_left_app, IH by zlia. cbn [fold_left]. unfold u8.
    rewrite Nat2Z.inj_succ, Z.pow_succ_r, Z.rem_mul_r by (try apply Z.pow_nonzero; lia). lia.
Qed.

Lemma write_loop_spec off n : forall buf v,
  (off + n <= length buf)%nat ->
  write_loop buf off v n = take off buf ++ be_bytes n v ++ drop (off + n) buf.
Proof.
  induction n as [|n IH]; intros buf v Hl; cbn [write_loop].
  - rewrite Nat.add_0_r. cbn. by rewrite take_drop.
  - rewrite IH by (unfold put; rewrite length_insert; lia).
    rewrite be_bytes_S, <- app_assoc. change 8 with (Z.of_nat 8). shifts. unfold put.
    rewrite take_insert_ge by lia. do 2 f_equal.
    rewrite (drop_S _ (u8 v)) by (apply list_lookup_insert_eq; lia).
    rewrite drop_insert_lt by lia. cbn [app]. by rewrite Nat.add_succ_r.
Qed.

(** The sizes a value is written in. *)
Definition varint_fits (size : nat) (code v : Z) : Prop :=
  Z.of_nat size = 2 ^ code /\ 0 <= code <= 3 /\ 0 <= v < 2 ^ (8 * Z.of_nat size - 2).
Definition varint_bytes (size : nat) (code v : Z) : bytes :=
  match be_bytes size v with b :: l => (b + 64 * code) :: l | [] => [] end.

Lemma varint_size_fits v :
  0 <= v <= QUIC_MAX_VARINT -> exists code, varint_fits (varint_size v) code v.
Proof.
  unfold QUIC_MAX_VARINT, varint_size, varint_fits. intros Hv.
  destruct (Z.ltb_spec v 64); [by exists 0; cbn; lia|].
  destruct (Z.ltb_spec v 16384); [by exists 1; cbn; lia|].
  destruct (Z.ltb_spec v 1073741824); [by exists 2; cbn; lia|]. by exists 3; cbn; lia.
Qed.

Lemma fits_cases size code v :
  varint_fits size code v ->
  (size = 1%nat /\ code = 0) \/ (size = 2%nat /\ code = 1) \/ (size = 4%nat /\ code = 2) \/
  (size = 8%nat /\ code = 3).
Proof.
  intros (Hs & Hc & _). assert (code = 0 \/ code = 1 \/ code = 2 \/ code = 3) as Hcase by lia.
  destruct Hcase as [->|[->|[->| ->]]]; cbn in Hs; lia.
Qed.

(** The first byte leaves its two high bits free. *)
Lemma head_byte size code v :
  varint_fits size code v ->
  exists b l, be_bytes size v = b :: l /\ 0 <= b < 64 /\ length l = (size - 1)%nat.
Proof.
  intros Hf. pose proof (fits_cases _ _ _ Hf) as Hcase. destruct Hf as (_ & _ & Hv).
  destruct Hcase as [[-> ->]|[[-> ->]|[[-> ->]|[-> ->]]]]; unfold be_bytes; cbn [le_bytes rev app];
    do 2 eexists; (split; [done|]); (split; [|done]); cbn in Hv; unfold u8; rewrite ?Z.div_div by lia; zlia.
Qed.

Lemma write_varint_bytes buf off v size code :
  varint_fits size code v -> (off + size <= length buf)%nat ->
  write_varint buf off v size = take off buf ++ varint_bytes size code v ++ drop (off + size) buf.
Proof.
  intros Hf Hl. unfold write_varint. rewrite write_loop_spec by done. unfold varint_bytes.
  destruct (head_byte size code v Hf) as (b & l & -> & Hb & _).
  assert (Eoff : length (take off buf) = off) by (rewrite length_take; lia).
  assert (Er : rd (take off buf ++ (b :: l) ++ drop (off + size) buf) off = b).
  { rewrite rd_app_r by lia. rewrite Eoff, Nat.sub_diag. done. }
  rewrite Er. unfold put. rewrite insert_app_r_alt by lia. rewrite Eoff, Nat.sub_diag.
  cbn [app insert list_insert]. f_equal.
  pose proof (fits_cases _ _ _ Hf) as Hcase.
  assert (El : Z.lor b (u8 (Z.shiftl (match size with 1%nat => 0 | 2%nat => 1 | 4%nat => 2 | _ => 3 end) 6))
    = b + 64 * code).
  { destruct Hcase as [[-> ->]|[[-> ->]|[[-> ->]|[-> ->]]]].
    all: match goal with |- Z.lor ?y (u8 (Z.shiftl ?k 6)) = _ =>
      change (u8 (Z.shiftl k 6)) with (Z.shiftl k 6) end.
    all: rewrite lor_add_shiftl by (cbn; lia); lia. }
  by rewrite El.
Qed.

Lemma read_varint_bytes size code v rest :
  varint_fits size code v -> read_varint (varint_bytes size code v ++ rest) = Some (v, rest).
Proof.
  intros Hf. pose proof (head_byte size code v Hf) as (b & l & Eb & Hb & Hl).
  pose proof Hf as (Hs & Hc & Hv). unfold varint_bytes. rewrite Eb. cbn [app read_varint].
  replace ((b + 64 * code) / 64) with code by zlia.
  replace ((b + 64 * code) mod 64) with b by zlia.
  rewrite <- Hs, Nat2Z.id. pose proof (fits_cases _ _ _ Hf).
  destruct (Nat.ltb_spec (length ((b + 64 * code) :: l ++ rest)) size) as [H1|_].
  { cbn [length] in H1. rewrite length_app in H1. lia. }
  change (drop 1 ((b + 64 * code) :: l ++ rest)) with (l ++ rest).
  rewrite take_app_length' by lia. rewrite <- Eb, be_value_bytes by lia. f_equal. f_equal.
  - apply Z.mod_small. split; [lia|]. eapply Z.lt_le_trans; [apply Hv|].
    change 256 with (2 ^ 8). rewrite <- Z.pow_mul_r by lia. apply Z.pow_le_mono_r; lia.
  - destruct size as [|size]; [lia|]. cbn [drop]. apply drop_app_length'. lia.
Qed.

Lemma varint_bytes_length size code v : varint_fits size code v -> length (varint_bytes size code v) = size.
Proof.
  intros Hf. destruct (head_byte size code v Hf) as (b & l & Eb & _ & Hl).
  unfold varint_bytes. rewrite Eb. cbn. pose proof (fits_cases _ _ _ Hf). lia.
Qed.

(** ** One limit: the connection's or a stream's *)

(** The update shared by both frames. *)
Definition next_limit (consumed window old : Z) : Z :=
  Z.max old (Z.min (consumed + window) QUIC_MAX_VARINT).

Lemma saturating_add_min v inc :
  0 <= v <= QUIC_MAX_VARINT -> 0 <= inc <= QUIC_MAX_VARINT ->
  saturating_add v inc = Z.min (v + inc) QUIC_MAX_VARINT.
Proof.
  unfold saturating_add, QUIC_MAX_VARINT. intros Hv Hi.
  rewrite !u64_id by (unfold is_u64; lia). destruct (Z.ltb_spec (4611686018427387903 - inc) v); lia.
Qed.

(** Beyond that, the sum is not cut. *)
Example saturating_add_large :
  saturating_add 0 (QUIC_MAX_VARINT + 1) = QUIC_MAX_VARINT + 1.
Proof. reflexivity. Qed.

Lemma next_limit_spec c w m :
  0 <= c <= QUIC_MAX_VARINT -> 0 <= w <= QUIC_MAX_VARINT ->
  (let maximum := saturating_add c w in if maximum <? m then m else maximum) = next_limit c w m.
Proof.
  intros Hc Hw. cbv zeta. rewrite saturating_add_min by done. unfold next_limit.
  destruct (Z.ltb_spec (Z.min (c + w) QUIC_MAX_VARINT) m); lia.
Qed.

Lemma should_update_spec c m w :
  0 <= c <= QUIC_MAX_VARINT -> 0 <= w <= QUIC_MAX_VARINT ->
  should_update c m w = (m <=? c + w / 2).
Proof.
  unfold should_update, QUIC_MAX_VARINT. intros Hc Hw. rewrite u64_id by (unfold is_u64; zlia).
  destruct (Z.leb_spec m c), (Z.leb_spec m (c + w / 2)); first [done|zlia].
Qed.

(** ** Runs of calls *)

Record quic_state := MkQuic { qs_conn : quic_conn_fc; qs_streams : list quic_stream_fc }.

Inductive quic_event :=
  | QOpen (id window : Z)
  | QRtt (sample : Z)
  | QConsume (n : Z)
  | QStreamConsume (i : nat) (n : Z)
  | QAdjust (i : option nat)
  | QMaxData (buf : bytes) (force : bool)
  | QMaxStreamData (i : nat) (buf : bytes) (force : bool).

(** The state after a call, and what a sending call returned: the result and
    the bytes it wrote. *)
Definition quic_step (st : quic_state) (e : quic_event) : quic_state * option (Z * bytes) :=
  let '(MkQuic fc ss) := st in
  match e with
  | QOpen id window => (MkQuic fc (ss ++ [quic_stream_fc_init id window]), None)
  | QRtt sample => (MkQuic (quic_flow_control_update_rtt fc sample) ss, None)
  | QConsume n => (MkQuic (quic_flow_control_consume_conn fc n) ss, None)
  | QStreamConsume i n =>
      match ss !! i with
      | Some s => (MkQuic fc (<[i := quic_flow_control_consume_stream s n]> ss), None)
      | None => (st, None)
      end
  | QAdjust None => (MkQuic (fst (quic_flow_control_adjust_windows fc None)) ss, None)
  | QAdjust (Some i) =>
      match quic_flow_control_adjust_windows fc (ss !! i) with
      | (fc, Some s) => (MkQuic fc (<[i := s]> ss), None)
      | (fc, None) => (MkQuic fc ss, None)
      end
  | QMaxData buf force =>
      let '(rc, buf, written, fc) := quic_flow_control_maybe_send_max_data fc buf force in
      (MkQuic fc ss, Some (rc, take written buf))
  | QMaxStreamData i buf force =>
      match ss !! i with
      | Some s =>
          let '(rc, buf, written, s) := quic_flow_control_maybe_send_max_stream_data s buf force in
          (MkQuic fc (<[i := s]> ss), Some (rc, take written buf))
      | None => (st, None)
      end
  end.

(** The peer's view of its limits.  It takes a limit only if it does not
    shrink, and fails on anything else. *)
Record quic_peer := MkPeer { peer_conn : Z; peer_streams : gmap Z Z }.
Definition peer_receive (p : quic_peer) (f : quic_frame) : option quic_peer :=
  match f with
  | MaxData m => if p.(peer_conn) <=? m then Some (MkPeer m p.(peer_streams)) else None
  | MaxStreamData id m =>
      match p.(peer_streams) !! id with
      | Some old => if old <=? m then Some (MkPeer p.(peer_conn) (<[id := m]> p.(peer_streams))) else None
      | None => None
      end
  end.
(** A stream opens with the window both sides agreed on; the bytes of a
    successful send are read as one frame. *)
Definition peer_step (p : quic_peer) (e : quic_event) (out : option (Z * bytes)) : option quic_peer :=
  match e, out with
  | QOpen id window, _ => Some (MkPeer p.(peer_conn) (<[id := clamp_window window]> p.(peer_streams)))
  | _, Some (1, frame) => f ← read_frame frame; peer_receive p f
  | _, _ => Some p
  end.

(** What a sending call promises on each of its three results; [f] is the frame
    for a limit, [frame] the bytes sent.  A frame fits the buffer or the call is
    refused, and it is refused only if no frame for that limit fits. *)
Definition send_outcome (f : Z -> quic_frame) (consumed window old new : Z) (buf : bytes) (force : bool)
    (rc : Z) (frame : bytes) (unchanged : Prop) : Prop :=
  let due := force = true \/ old <= consumed + window / 2 in
  let limit := next_limit consumed window old in
  (rc = 0 /\ force = false /\ unchanged /\ consumed + window / 2 < old) \/
  (rc = 1 /\ due /\ new = limit /\ (length frame <= length buf)%nat /\ read_frame frame = Some (f limit)) \/
  (rc = -1 /\ due /\ unchanged /\
   forall d, bytes_ok d -> read_frame d = Some (f limit) -> (length buf < length d)%nat).
Definition step_outcome (st : quic_state) (e : quic_event) (out : option (Z * bytes)) (st' : quic_state)
  : Prop :=
  match e, out with
  | QMaxData buf force, Some (rc, frame) =>
      let fc := st.(qs_conn) in
      send_outcome MaxData fc.(conn_consumed) fc.(conn_window_size) fc.(max_data) st'.(qs_conn).(max_data)
        buf force rc frame (st' = st)
  | QMaxStreamData i buf force, Some (rc, frame) =>
      exists s s', st.(qs_streams) !! i = Some s /\ st'.(qs_streams) !! i = Some s' /\
      send_outcome (MaxStreamData s.(stream_id)) s.(stream_consumed) s.(stream_window_size)
        s.(max_stream_data) s'.(max_stream_data) buf force rc frame (st' = st)
  | _, _ => True
  end.

(** Together: the calls, the peer, and the promise of each call. *)
Inductive quic_run : list quic_event -> quic_state -> quic_peer -> quic_state -> quic_peer -> Prop :=
  | quic_run_nil st p : quic_run [] st p st p
  | quic_run_cons e es st p st1 out p1 st2 p2 :
      quic_step st e = (st1, out) -> peer_step p e out = Some p1 -> step_outcome st e out st1 ->
      quic_run es st1 p1 st2 p2 -> quic_run (e :: es) st p st2 p2.

(** ** Invariants *)

Section Invariant.
(** A bound on every RTT sample, in microseconds. *)
Context (B : Z).

Definition quality_of (srtt : Z) : quic_net_quality :=
  if srtt <=? 50000 then QUIC_NET_QUALITY_EXCELLENT
  else if srtt <=? 150000 then QUIC_NET_QUALITY_NORMAL
  else if srtt <=? 500000 then QUIC_NET_QUALITY_HIGH_RTT
  else QUIC_NET_QUALITY_POOR.

Record conn_ok (fc : quic_conn_fc) : Prop := {
  co_consumed : 0 <= fc.(conn_consumed) <= QUIC_MAX_VARINT;
  co_limit : 0 <= fc.(max_data) <= QUIC_MAX_VARINT;
  co_window : QUIC_FLOW_CONTROL_MIN_INITIAL_WINDOW <= fc.(conn_min_window) <= fc.(conn_window_size) /\
    fc.(conn_window_size) <= fc.(conn_max_window) <= QUIC_MAX_VARINT;
  co_stream : fc.(stream_max_window) <= QUIC_MAX_VARINT;
  co_rtt : if fc.(rtt_initialized)
    then 0 < fc.(min_rtt_us) <= fc.(srtt_us) /\ fc.(srtt_us) <= B /\ 0 <= fc.(rttvar_us) <= B /\
         fc.(q_quality) = quality_of fc.(srtt_us)
    else fc.(q_quality) = QUIC_NET_QUALITY_NORMAL }.
Record stream_ok (s : quic_stream_fc) : Prop := {
  so_id : 0 <= s.(stream_id) <= QUIC_MAX_VARINT;
  so_consumed : 0 <= s.(stream_consumed) <= QUIC_MAX_VARINT;
  so_limit : 0 <= s.(max_stream_data) <= QUIC_MAX_VARINT;
  so_window : QUIC_FLOW_CONTROL_MIN_INITIAL_WINDOW <= s.(stream_window_size) <= QUIC_MAX_VARINT }.

Definition quic_event_ok (e : quic_event) : Prop :=
  match e with
  | QOpen id window => 0 <= id <= QUIC_MAX_VARINT /\ 0 <= window <= QUIC_MAX_VARINT
  | QRtt sample => 0 <= sample <= B
  | QConsume n | QStreamConsume _ n => 0 <= n <= QUIC_MAX_VARINT
  | _ => True
  end.
Definition opened (es : list quic_event) : list Z :=
  omap (fun e => match e with QOpen id _ => Some id | _ => None end) es.

Lemma clamp_window_range w :
  0 <= w <= QUIC_MAX_VARINT ->
  QUIC_FLOW_CONTROL_MIN_INITIAL_WINDOW <= clamp_window w <= QUIC_MAX_VARINT.
Proof.
  unfold clamp_window, QUIC_FLOW_CONTROL_MIN_INITIAL_WINDOW, QUIC_MAX_VARINT. intros.
  destruct (Z.ltb_spec w 1048576); lia.
Qed.

Lemma quic_init_ok wc ws mc ms :
  Forall (fun w => 0 <= w <= QUIC_MAX_VARINT) [wc; ws; mc; ms] ->
  conn_ok (quic_flow_control_init wc ws mc ms).
Proof.
  rewrite !list.Forall_cons. intros (H1 & H2 & H3 & H4 & _).
  apply clamp_window_range in H1, H2, H3, H4.
  unfold quic_flow_control_init, QUIC_FLOW_CONTROL_MIN_INITIAL_WINDOW, QUIC_MAX_VARINT in *.
  destruct (Z.ltb_spec (clamp_window mc) (clamp_window wc)), (Z.ltb_spec (clamp_window ms) (clamp_window ws));
    split; cbn; unfold QUIC_FLOW_CONTROL_MIN_INITIAL_WINDOW, QUIC_MAX_VARINT; try lia; done.
Qed.

Lemma grow_window_range size maximum :
  0 <= size <= QUIC_MAX_VARINT -> maximum <= QUIC_MAX_VARINT ->
  size <= grow_window size maximum /\ (size <= maximum -> grow_window size maximum <= maximum) /\
  grow_window size maximum <= QUIC_MAX_VARINT.
Proof.
  unfold grow_window, QUIC_MAX_VARINT. intros. rewrite u64_id by (unfold is_u64; lia). cbv zeta.
  destruct (Z.ltb_spec size maximum); [|lia]. destruct (Z.ltb_spec maximum (size * 2)); lia.
Qed.

Lemma evaluate_quality_spec fc :
  fc.(rtt_initialized) = true ->
  quic_flow_control_evaluate_quality fc =
    (quality_of fc.(srtt_us), fc <| q_quality := quality_of fc.(srtt_us) |>).
Proof. intros H. unfold quic_flow_control_evaluate_quality. by rewrite H. Qed.

Hypothesis HB : 0 <= B <= 2 ^ 60.

Lemma quic_update_rtt_ok fc sample :
  conn_ok fc -> 0 <= sample <= B ->
  conn_ok (quic_flow_control_update_rtt fc sample) /\
  (quic_flow_control_update_rtt fc sample).(max_data) = fc.(max_data).
Proof.
  intros [Hc Hl Hw Hs Hr] Hsmp. unfold quic_flow_control_update_rtt.
  destruct (Z.eqb_spec sample 0); [done|].
  destruct (rtt_initialized fc) eqn:Ei; cbn [negb].
  - change (2 ^ 60) with 1152921504606846976 in HB. destruct Hr as ((Hm1 & Hm2) & Hs1 & Hv & Hq).
    set (diff := if sample <? srtt_us fc then _ else _).
    assert (Hd : 0 <= diff <= B) by (unfold diff; destruct (Z.ltb_spec sample (srtt_us fc)); lia).
    clearbody diff.
    set (fc1 := fc <| rttvar_us := u64 (u64 (3 * rttvar_us fc) + diff) / 4 |>).
    set (fc2 := fc1 <| srtt_us := u64 (u64 (7 * srtt_us fc1) + sample) / 8 |>).
    assert (E2 : srtt_us fc2 = (7 * srtt_us fc + sample) / 8).
    { cbn. rewrite (u64_id (7 * _)), u64_id by (unfold is_u64; lia). done. }
    assert (Ev : rttvar_us fc2 = (3 * rttvar_us fc + diff) / 4).
    { cbn. rewrite (u64_id (3 * _)), u64_id by (unfold is_u64; lia). done. }
    set (fc3 := if sample <? min_rtt_us fc2 then fc2 <| min_rtt_us := sample |> else fc2).
    assert (E3 : rtt_initialized fc3 = true /\ srtt_us fc3 = srtt_us fc2 /\ rttvar_us fc3 = rttvar_us fc2 /\
      min_rtt_us fc3 = Z.min sample (min_rtt_us fc)).
    { unfold fc3. change (min_rtt_us fc2) with (min_rtt_us fc).
      destruct (Z.ltb_spec sample (min_rtt_us fc)); (split; [exact Ei|]); (split; [done|]);
        (split; [done|]); cbn; lia. }
    assert (Erest : conn_consumed fc3 = conn_consumed fc /\ max_data fc3 = max_data fc /\
      conn_min_window fc3 = conn_min_window fc /\ conn_window_size fc3 = conn_window_size fc /\
      conn_max_window fc3 = conn_max_window fc /\ stream_max_window fc3 = stream_max_window fc).
    { unfold fc3. by destruct (sample <? min_rtt_us fc2). }
    destruct E3 as (E3 & E4 & E5 & E6). destruct Erest as (R1 & R2 & R3 & R4 & R5 & R6).
    rewrite evaluate_quality_spec by done. clearbody fc3. cbn [snd].
    split; [|exact R2]. split; cbn; rewrite ?R1, ?R2, ?R3, ?R4, ?R5, ?R6; try done.
    rewrite E3. rewrite E4, E5, E6, E2, Ev.
    split; [zlia|]. split; [zlia|]. split; [zlia|done].
  - rewrite evaluate_quality_spec by done. cbn. split; [|done].
    split; cbn; try done. split; [lia|]. split; [lia|]. split; [zlia|done].
Qed.

Lemma quic_adjust_ok fc so :
  conn_ok fc -> (forall s, so = Some s -> stream_ok s) ->
  let (fc', so') := quic_flow_control_adjust_windows fc so in
  conn_ok fc' /\ fc'.(max_data) = fc.(max_data) /\
  forall s', so' = Some s' -> stream_ok s' /\
    exists s, so = Some s /\ s'.(stream_id) = s.(stream_id) /\ s'.(max_stream_data) = s.(max_stream_data).
Proof.
  intros [Hc Hl Hw Hs Hr] Hso. unfold quic_flow_control_adjust_windows.
  destruct (_ <? 2); [split; [done|]; split; [done|]; intros s' ->; split; [by apply Hso|by exists s']|].
  unfold QUIC_FLOW_CONTROL_MIN_INITIAL_WINDOW in *.
  pose proof (grow_window_range (conn_window_size fc) (conn_max_window fc) ltac:(lia) ltac:(lia)) as (G1 & G2 & G3).
  split; [split; cbn; unfold QUIC_FLOW_CONTROL_MIN_INITIAL_WINDOW; try done; lia|]. split; [done|].
  destruct so as [s|]; [|done]. intros s' [= <-]. destruct (Hso s eq_refl) as [S1 S2 S3 S4].
  unfold QUIC_FLOW_CONTROL_MIN_INITIAL_WINDOW in *.
  pose proof (grow_window_range (stream_window_size s) (stream_max_window fc) ltac:(lia) ltac:(lia)) as (H1 & _ & H3).
  split; [|by exists s]. split; cbn; unfold QUIC_FLOW_CONTROL_MIN_INITIAL_WINDOW; try done; lia.
Qed.
End Invariant.

(** ** Sending a limit *)

(** A field is added behind what is written already. *)
Lemma write_varint_take buf off v size code :
  varint_fits size code v -> (off + size <= length buf)%nat ->
  take (off + size) (write_varint buf off v size) = take off buf ++ varint_bytes size code v /\
  length (write_varint buf off v size) = length buf.
Proof.
  intros Hf Hl. rewrite (write_varint_bytes _ _ _ _ _ Hf) by done.
  pose proof (varint_bytes_length _ _ _ Hf) as Hv.
  assert (Eo : length (take off buf) = off) by (rewrite length_take; lia). split.
  - rewrite app_assoc. apply take_app_length'. rewrite length_app. lia.
  - rewrite !length_app, length_drop, Hv, Eo. lia.
Qed.

Lemma take_type buf t : (0 < length buf)%nat -> take 1 (put buf 0 t) = [t].
Proof. by destruct buf as [|x buf]; cbn; [lia|]. Qed.

Lemma next_limit_range c w m :
  0 <= c <= QUIC_MAX_VARINT -> 0 <= w -> 0 <= m <= QUIC_MAX_VARINT ->
  0 <= next_limit c w m <= QUIC_MAX_VARINT /\ m <= next_limit c w m.
Proof. unfold next_limit. lia. Qed.

Lemma write_varint_length buf off v size code :
  varint_fits size code v -> (off + size <= length buf)%nat ->
  length (write_varint buf off v size) = length buf.
Proof. intros Hf Hl. by apply (write_varint_take buf off v size code). Qed.

(** A varint is never shorter than [varint_size]. *)
Lemma be_value_acc l : forall acc, fold_left (fun acc b => acc * 256 + b) l acc = acc * 256 ^ Z.of_nat (length l) + be_value l.
Proof.
  unfold be_value. induction l as [|b l IH]; intros acc; cbn [fold_left length].
  - change (256 ^ Z.of_nat 0) with 1. lia.
  - rewrite IH, (IH (0 * 256 + b)), Nat2Z.inj_succ, Z.pow_succ_r by lia. ring.
Qed.
Lemma be_value_range l : bytes_ok l -> 0 <= be_value l < 256 ^ Z.of_nat (length l).
Proof.
  induction 1 as [|b l Hb _ IH]; [done|]. unfold be_value in *. cbn [fold_left length].
  rewrite be_value_acc, Nat2Z.inj_succ, Z.pow_succ_r by lia. unfold is_u8, be_value in *. nia.
Qed.
Lemma read_varint_size d v rest :
  bytes_ok d -> read_varint d = Some (v, rest) ->
  bytes_ok rest /\ (varint_size v + length rest <= length d)%nat.
Proof.
  intros Hok. unfold read_varint. destruct d as [|b d]; [done|].
  apply list.Forall_cons in Hok as [Hb Hd]. unfold is_u8 in Hb. change (drop 1 (b :: d)) with d.
  assert (Hcase : b / 64 = 0 \/ b / 64 = 1 \/ b / 64 = 2 \/ b / 64 = 3) by zlia.
  set (n := Z.to_nat (2 ^ (b / 64))). destruct (Nat.ltb_spec (length (b :: d)) n) as [|Hl]; [done|].
  intros [= <- <-]. assert (Hn : (1 <= n)%nat) by (unfold n; destruct Hcase as [->|[->|[->| ->]]]; cbn; lia).
  split; [by apply Forall_drop; constructor|].
  assert (Ht : bytes_ok (take (n - 1) d)) by by apply Forall_take.
  pose proof (be_value_range _ Ht) as Hr. rewrite length_take in Hr. cbn [length] in Hl.
  replace (Nat.min (n - 1) (length d)) with (n - 1)%nat in Hr by lia.
  unfold be_value at 1. cbn [fold_left]. rewrite be_value_acc, length_take.
  replace (Nat.min (n - 1) (length d)) with (n - 1)%nat by lia.
  assert (Hm : 0 <= b mod 64 < 64) by (apply Z.mod_pos_bound; lia).
  rewrite length_drop. cbn [length]. enough (varint_size ((0 * 256 + b mod 64) * 256 ^ Z.of_nat (n - 1) + be_value (take (n - 1) d)) <= n)%nat by lia.
  set (w := be_value (take (n - 1) d)) in *. set (h := b mod 64) in *. change (0 * 256 + h) with h.
  assert (E : n = 1%nat \/ n = 2%nat \/ n = 4%nat \/ n = 8%nat)
    by (unfold n; destruct Hcase as [->|[->|[->| ->]]]; auto).
  clearbody n w h. unfold varint_size. destruct E as [->|[->|[->| ->]]];
    match type of Hr with 0 <= w < ?p => let q := eval vm_compute in p in change p with q in Hr |- * end;
    repeat match goal with |- context [?x <? ?y] => destruct (Z.ltb_spec x y) end; lia.
Qed.

(** The least room for each frame. *)
Lemma read_max_data_size d m :
  bytes_ok d -> read_frame d = Some (MaxData m) -> (1 + varint_size m <= length d)%nat.
Proof.
  intros Hok H. destruct d as [|b d]; [done|]. apply list.Forall_cons in Hok as [_ Hd].
  assert (Hv : read_varint d = Some (m, [])).
  { cbn [read_frame] in H. repeat case_match; simplify_eq; done. }
  destruct (read_varint_size _ _ _ Hd Hv) as [_ Hl]. cbn [length] in *. lia.
Qed.
Lemma read_max_stream_data_size d id m :
  bytes_ok d -> read_frame d = Some (MaxStreamData id m) ->
  (1 + varint_size id + varint_size m <= length d)%nat.
Proof.
  intros Hok H. destruct d as [|b d]; [done|]. apply list.Forall_cons in Hok as [_ Hd].
  assert (Hv : exists r, read_varint d = Some (id, r) /\ read_varint r = Some (m, [])).
  { cbn [read_frame] in H. repeat case_match; simplify_eq; eauto. }
  destruct Hv as (r & H1 & H2). destruct (read_varint_size _ _ _ Hd H1) as [Hr Hl1].
  destruct (read_varint_size _ _ _ Hr H2) as [_ Hl2]. cbn [length] in *. lia.
Qed.

Lemma send_max_data B fc buf force :
  conn_ok B fc ->
  let '(rc, buf', written, fc') := quic_flow_control_maybe_send_max_data fc buf force in
  conn_ok B fc' /\ fc.(max_data) <= fc'.(max_data) /\
  send_outcome MaxData fc.(conn_consumed) fc.(conn_window_size) fc.(max_data) fc'.(max_data) buf force rc
    (take written buf') (fc' = fc).
Proof.
  intros Hok. pose proof Hok as [Hc Hl Hw Hs Hr]. unfold QUIC_FLOW_CONTROL_MIN_INITIAL_WINDOW in *.
  unfold quic_flow_control_maybe_send_max_data.
  rewrite should_update_spec, next_limit_spec by lia. unfold send_outcome.
  set (m := next_limit _ _ _).
  destruct (next_limit_range (conn_consumed fc) (conn_window_size fc) (max_data fc)) as [Hm Hge];
    [lia..|]. fold m in Hm, Hge.
  destruct force, (Z.leb_spec (max_data fc) (conn_consumed fc + conn_window_size fc / 2)); cbn [negb andb].
  4:{ split; [done|]. split; [lia|]. by left. }
  all: destruct (varint_size_fits m Hm) as [code Hf];
    destruct (Nat.ltb_spec (length buf) (1 + varint_size m)) as [Hshort|Hlong];
    [split; [done|split; [lia|right; right]]; (split_and!; [done|auto|done|]);
     intros d Hd Hread; pose proof (read_max_data_size d m Hd Hread); lia|].
  all: split; [split; cbn; unfold QUIC_FLOW_CONTROL_MIN_INITIAL_WINDOW; try done; lia|];
    split; [done|]; right; left; (split_and!; [done|auto|done| |]);
    [rewrite length_take; apply Nat.le_trans with (1 + varint_size m)%nat; [apply Nat.le_min_l|done]|].
  all: destruct (write_varint_take (put buf 0 QUIC_FRAME_MAX_DATA) 1 m _ _ Hf) as [E _];
    [unfold put; rewrite length_insert; lia|];
    rewrite E, take_type by lia;
    pose proof (read_varint_bytes _ _ _ [] Hf) as Hread; rewrite app_nil_r in Hread;
    unfold QUIC_FRAME_MAX_DATA; cbn [app read_frame Z.eqb Pos.eqb]; by rewrite Hread.
Qed.

Lemma send_max_stream_data s buf force :
  stream_ok s ->
  let '(rc, buf', written, s') := quic_flow_control_maybe_send_max_stream_data s buf force in
  stream_ok s' /\ s'.(stream_id) = s.(stream_id) /\ s.(max_stream_data) <= s'.(max_stream_data) /\
  send_outcome (MaxStreamData s.(stream_id)) s.(stream_consumed) s.(stream_window_size)
    s.(max_stream_data) s'.(max_stream_data) buf force rc (take written buf') (s' = s).
Proof.
  intros Hok. pose proof Hok as [Hi Hc Hl Hw]. unfold QUIC_FLOW_CONTROL_MIN_INITIAL_WINDOW in *.
  unfold quic_flow_control_maybe_send_max_stream_data.
  rewrite should_update_spec, next_limit_spec by lia. unfold send_outcome.
  set (m := next_limit _ _ _).
  destruct (next_limit_range (stream_consumed s) (stream_window_size s) (max_stream_data s)) as [Hm Hge];
    [lia..|]. fold m in Hm, Hge.
  destruct force, (Z.leb_spec (max_stream_data s) (stream_consumed s + stream_window_size s / 2)); cbn [negb andb].
  4:{ split; [done|]. split; [done|]. split; [lia|]. by left. }
  all: destruct (varint_size_fits m Hm) as [code Hf], (varint_size_fits (stream_id s) Hi) as [icode Hfi];
    destruct (Nat.ltb_spec (length buf) (1 + varint_size (stream_id s) + varint_size m)) as [Hshort|Hlong];
    [split; [done|split; [done|split; [lia|right; right]]]; (split_and!; [done|auto|done|]);
     intros d Hd Hread; pose proof (read_max_stream_data_size d _ m Hd Hread); lia|].
  all: split; [split; cbn; unfold QUIC_FLOW_CONTROL_MIN_INITIAL_WINDOW; try done; lia|];
    split; [done|]; split; [done|]; right; left; (split_and!; [done|auto|done| |]);
    [rewrite length_take; eapply Nat.le_trans; [apply Nat.le_min_l|done]|].
  all: destruct (write_varint_take (put buf 0 QUIC_FRAME_MAX_STREAM_DATA) 1 (stream_id s) _ _ Hfi) as [E1 L1];
    [unfold put; rewrite length_insert; lia|];
    destruct (write_varint_take (write_varint (put buf 0 QUIC_FRAME_MAX_STREAM_DATA) 1 (stream_id s)
      (varint_size (stream_id s))) (1 + varint_size (stream_id s)) m _ _ Hf) as [E2 _];
    [rewrite L1; unfold put; rewrite length_insert; lia|];
    rewrite E2, E1, take_type by lia;
    pose proof (read_varint_bytes _ _ _ [] Hf) as Hread; rewrite app_nil_r in Hread;
    unfold QUIC_FRAME_MAX_STREAM_DATA; cbn [app read_frame];
    rewrite (read_varint_bytes _ _ _ _ Hfi); by rewrite Hread.
Qed.

(** ** The connection and its peer *)

Record quic_agrees (B : Z) (st : quic_state) (p : quic_peer) : Prop := {
  qa_conn : conn_ok B st.(qs_conn);
  qa_streams : Forall stream_ok st.(qs_streams);
  qa_ids : NoDup (map stream_id st.(qs_streams));
  qa_peer_conn : p.(peer_conn) = st.(qs_conn).(max_data);
  qa_peer_streams : Forall (fun s => p.(peer_streams) !! s.(stream_id) = Some s.(max_stream_data))
                      st.(qs_streams) }.

Section Run.
Context (B : Z).
Hypothesis HB : 0 <= B <= 2 ^ 60.

(** A call that changes a stream's bookkeeping but not its limit. *)
Lemma agrees_stream st p i s s' fc :
  quic_agrees B st p -> st.(qs_streams) !! i = Some s -> stream_ok s' ->
  s'.(stream_id) = s.(stream_id) -> s'.(max_stream_data) = s.(max_stream_data) ->
  conn_ok B fc -> fc.(max_data) = st.(qs_conn).(max_data) ->
  quic_agrees B (MkQuic fc (<[i := s']> st.(qs_streams))) p.
Proof.
  intros [H1 H2 H3 H4 H5] Hi Hok Eid Em Hfc Hmd. split; cbn.
  - done.
  - by apply Forall_insert.
  - rewrite list_fmap_insert, list_insert_id; [done|]. by rewrite list_lookup_fmap, Hi, Eid.
  - by rewrite H4.
  - apply Forall_insert; [done|]. rewrite Eid, Em. by apply (Forall_lookup_1 _ _ _ _ H5 Hi).
Qed.

(** A stream's limit raised on both sides. *)
Lemma agrees_raise st p i s s' :
  quic_agrees B st p -> st.(qs_streams) !! i = Some s -> stream_ok s' ->
  s'.(stream_id) = s.(stream_id) ->
  quic_agrees B (MkQuic st.(qs_conn) (<[i := s']> st.(qs_streams)))
    (MkPeer p.(peer_conn) (<[s.(stream_id) := s'.(max_stream_data)]> p.(peer_streams))).
Proof.
  intros [H1 H2 H3 H4 H5] Hi Hok Eid. split; cbn.
  - done.
  - by apply Forall_insert.
  - rewrite list_fmap_insert, list_insert_id; [done|]. by rewrite list_lookup_fmap, Hi, Eid.
  - done.
  - apply Forall_lookup_2. intros j x Hx.
    destruct (decide (i = j)) as [<-|Hne].
    + rewrite list_lookup_insert_eq in Hx by (by eapply lookup_lt_Some). injection Hx as <-.
      by rewrite Eid, lookup_insert_eq.
    + rewrite list_lookup_insert_ne in Hx by done.
      rewrite lookup_insert_ne; [by apply (Forall_lookup_1 _ _ _ _ H5 Hx)|].
      intros E. apply Hne. apply (NoDup_lookup _ _ _ (stream_id s) H3); rewrite list_lookup_fmap.
      * by rewrite Hi.
      * rewrite Hx. cbn. by rewrite E.
Qed.

Lemma quic_step_agrees st p e :
  quic_agrees B st p -> quic_event_ok B e ->
  (forall id w, e = QOpen id w -> id ∉ map stream_id st.(qs_streams)) ->
  exists p', peer_step p e (quic_step st e).2 = Some p' /\
    step_outcome st e (quic_step st e).2 (quic_step st e).1 /\
    quic_agrees B (quic_step st e).1 p' /\
    map stream_id (quic_step st e).1.(qs_streams) =
      map stream_id st.(qs_streams) ++ opened [e].
Proof.
  intros Hag He Hfresh. pose proof Hag as [H1 H2 H3 H4 H5]. destruct st as [fc ss]. cbn [qs_conn qs_streams] in *.
  assert (Hsame : forall i s s', ss !! i = Some s -> stream_id s' = stream_id s ->
    map stream_id (<[i := s']> ss) = map stream_id ss).
  { intros i s s' Hi E. rewrite list_fmap_insert, list_insert_id; [done|]. by rewrite list_lookup_fmap, Hi, E. }
  destruct e as [id w|sample|n|i n|[i|]|buf force|i buf force]; cbn [quic_step].
  - destruct He as [Hid Hw]. exists (MkPeer (peer_conn p) (<[id := clamp_window w]> (peer_streams p))).
    split; [done|]. split; [done|]. specialize (Hfresh id w eq_refl).
    assert (Hso : stream_ok (quic_stream_fc_init id w)).
    { pose proof (clamp_window_range w Hw). unfold QUIC_FLOW_CONTROL_MIN_INITIAL_WINDOW, QUIC_MAX_VARINT in *.
      split; cbn; unfold QUIC_FLOW_CONTROL_MIN_INITIAL_WINDOW, QUIC_MAX_VARINT; lia. }
    split; [|cbn; by rewrite map_app]. split; cbn.
    + done.
    + apply Forall_app_2; [done|]. by apply list.Forall_singleton.
    + rewrite map_app. apply list.NoDup_app. split; [done|]. split; [|apply NoDup_singleton].
      intros x Hx ->%list_elem_of_singleton. by apply Hfresh.
    + done.
    + apply Forall_app_2.
      * apply (list.Forall_forall _ _). intros s Hs.
        rewrite lookup_insert_ne; [by apply (proj1 (list.Forall_forall _ _) H5)|].
        intros ->. apply Hfresh. by apply list_elem_of_fmap_2.
      * apply list.Forall_singleton. by rewrite lookup_insert_eq.
  - exists p. split; [done|]. split; [done|]. cbn [opened omap list_omap]. rewrite app_nil_r.
    destruct (quic_update_rtt_ok B HB fc sample H1 He) as [Hok E]. split; [|done]. split; try done.
    cbn. by rewrite E.
  - exists p. split; [done|]. split; [done|]. cbn [opened omap list_omap]. rewrite app_nil_r.
    split; [|done]. cbn in He. destruct H1 as [C1 C2 C3 C4 C5]. split; try done. split; try done.
    cbn. rewrite saturating_add_min by lia. lia.
  - cbn [opened omap list_omap]. rewrite app_nil_r. cbn in He. exists p.
    destruct (ss !! i) as [s|] eqn:Hi; [|done].
    pose proof (Forall_lookup_1 _ _ _ _ H2 Hi) as Hs.
    split; [done|]. split; [done|]. split; [|by apply (Hsame i s)].
    apply (agrees_stream _ _ i s _ fc Hag); try done. destruct Hs as [S1 S2 S3 S4]. split; try done.
    cbn. rewrite saturating_add_min by lia. lia.
  - exists p. cbn [opened omap list_omap]. rewrite app_nil_r.
    pose proof (quic_adjust_ok B fc (ss !! i) H1 ltac:(intros s Hs; by apply (Forall_lookup_1 _ _ _ _ H2 Hs))) as H.
    destruct (quic_flow_control_adjust_windows fc (ss !! i)) as [fc' [s'|]]; destruct H as (Hok & E & Hs').
    + destruct (Hs' s' eq_refl) as (Hs & s & Hi & Eid & Em).
      split; [done|]. split; [done|]. split; [|by apply (Hsame i s)].
      by apply (agrees_stream _ _ i s s' fc' Hag).
    + split; [done|]. split; [done|]. split; [|done]. split; try done. cbn. by rewrite E.
  - exists p. split; [done|]. split; [done|]. cbn [opened omap list_omap]. rewrite app_nil_r.
    pose proof (quic_adjust_ok B fc None H1 ltac:(done)) as H.
    destruct (quic_flow_control_adjust_windows fc None) as [fc' so]. destruct H as (Hok & E & _).
    split; [|done]. split; try done. cbn. by rewrite E.
  - cbn [opened omap list_omap]. rewrite app_nil_r.
    pose proof (send_max_data B fc buf force H1) as H.
    destruct (quic_flow_control_maybe_send_max_data fc buf force) as [[[rc buf'] written] fc'].
    destruct H as (Hok & Hge & Hout). cbn [fst snd].
    exists (MkPeer (max_data fc') (peer_streams p)). split; [|split; [|split; [|done]]].
    + cbn [peer_step]. destruct Hout as [(-> & _ & -> & _)|[(-> & _ & El & _ & Hframe)|(-> & _ & -> & _)]].
      * by replace (MkPeer _ _) with p by (destruct p; cbn in *; by subst).
      * rewrite Hframe, <- El. cbn. rewrite H4. by destruct (Z.leb_spec (max_data fc) (max_data fc')); [|lia].
      * by replace (MkPeer _ _) with p by (destruct p; cbn in *; by subst).
    + cbn. destruct Hout as [(-> & Hf & -> & ?)|[(-> & ? & ?)|(-> & ? & -> & ?)]]; unfold send_outcome; auto 10.
    + by split.
  - cbn [opened omap list_omap]. rewrite app_nil_r.
    destruct (ss !! i) as [s|] eqn:Hi; [|by exists p].
    pose proof (Forall_lookup_1 _ _ _ _ H2 Hi) as Hs. pose proof (Forall_lookup_1 _ _ _ _ H5 Hi) as Hp.
    pose proof (send_max_stream_data s buf force Hs) as H.
    destruct (quic_flow_control_maybe_send_max_stream_data s buf force) as [[[rc buf'] written] s'].
    destruct H as (Hok & Eid & Hge & Hout). cbn [fst snd].
    exists (MkPeer (peer_conn p) (<[stream_id s := max_stream_data s']> (peer_streams p))).
    split; [|split; [|split; [|by apply (Hsame i s)]]].
    + cbn [peer_step]. destruct Hout as [(-> & _ & -> & _)|[(-> & _ & El & _ & Hframe)|(-> & _ & -> & _)]].
      * rewrite insert_id by done. by replace (MkPeer _ _) with p by (by destruct p).
      * rewrite Hframe, <- El. cbn. rewrite Hp.
        by destruct (Z.leb_spec (max_stream_data s) (max_stream_data s')); [|lia].
      * rewrite insert_id by done. by replace (MkPeer _ _) with p by (by destruct p).
    + cbn. exists s, s'. split; [done|]. split; [apply list_lookup_insert_eq; by eapply lookup_lt_Some|].
      destruct Hout as [(-> & Hf & -> & ?)|[(-> & ? & ?)|(-> & ? & -> & ?)]]; unfold send_outcome;
        rewrite ?list_insert_id by done; auto 10.
    + by apply (agrees_raise (MkQuic fc ss) p i s s' Hag).
Qed.

Lemma quic_run_agrees es : forall st p,
  quic_agrees B st p -> Forall (quic_event_ok B) es ->
  NoDup (map stream_id st.(qs_streams) ++ opened es) ->
  exists st' p', quic_run es st p st' p' /\ quic_agrees B st' p'.
Proof.
  induction es as [|e es IH]; intros st p Hag Hes Hnd.
  { exists st, p. by split; [constructor|]. }
  apply list.Forall_cons in Hes as [He Hes].
  assert (Eo : opened (e :: es) = opened [e] ++ opened es) by (by destruct e).
  rewrite Eo, app_assoc in Hnd.
  destruct (quic_step_agrees st p e Hag He) as (p1 & Hp & Hout & Hag1 & Eids).
  { intros id w -> Hin. apply list.NoDup_app in Hnd as [Hnd _]. apply list.NoDup_app in Hnd as (_ & Hnd & _).
    apply (Hnd id Hin). by left. }
  rewrite <- Eids in Hnd. destruct (IH _ p1 Hag1 Hes Hnd) as (st2 & p2 & Hrun & Hag2).
  exists st2, p2. split; [|done].
  eapply quic_run_cons; [apply surjective_pairing|exact Hp|exact Hout|exact Hrun].
Qed.
End Run.

(** C29: A QUIC connection and its peer agree on every flow-control limit.  From
    the initial windows, under any sequence of calls (streams opened with ids of
    their own, RTT samples, bytes consumed, windows grown, limits offered with any
    buffer, forced or not) whose windows, amounts and stream ids are at most
    2^62 - 1 and whose samples are at most a bound of up to 2^60: every frame sent
    is read by RFC 9000 as one frame, raises the limit or repeats it, and leaves
    the peer with exactly the limit the connection enforces, on the connection and
    on each stream.  A send answers 0 only when it is not forced and the peer has
    more than half a window left; when it answers 1 a frame that fits the buffer
    offers what is consumed plus the window, up to 2^62 - 1, or the old limit when
    that is larger; it answers -1 only when no frame for that limit fits the
    buffer, and then nothing has changed.  Windows stay between their minimum and
    their maximum, the smoothed RTT between the least sample and the bound, and the
    quality is that of the smoothed RTT.  Larger windows break this
    ([saturating_add_large]). *)
Theorem quic_peer_agrees B wc ws mc ms es :
  0 <= B <= 2 ^ 60 ->
  Forall (fun w => 0 <= w <= QUIC_MAX_VARINT) [wc; ws; mc; ms] ->
  Forall (quic_event_ok B) es -> NoDup (opened es) ->
  exists st p,
    quic_run es (MkQuic (quic_flow_control_init wc ws mc ms) []) (MkPeer (clamp_window wc) ∅) st p /\
    p.(peer_conn) = st.(qs_conn).(max_data) /\
    Forall (fun s => p.(peer_streams) !! s.(stream_id) = Some s.(max_stream_data)) st.(qs_streams) /\
    conn_ok B st.(qs_conn) /\ Forall stream_ok st.(qs_streams).
Proof.
  intros HB Hw Hes Hnd.
  destruct (quic_run_agrees B HB es (MkQuic (quic_flow_control_init wc ws mc ms) [])
    (MkPeer (clamp_window wc) ∅)) as (st & p & Hrun & [H1 H2 _ H4 H5]); [|done|done|].
  - split; cbn; try constructor; try done; by apply quic_init_ok.
  - by exists st, p.
Qed.

(** ** A concrete run *)

Definition quic_demo : list quic_event :=
  [QOpen 4 70000; QRtt 600000; QConsume 600000; QMaxData (replicate 20 0) false;
   QStreamConsume 0 600000; QAdjust (Some 0%nat); QMaxStreamData 0 (replicate 3 0) false;
   QMaxStreamData 0 (replicate 20 0) false].

Lemma quic_peer_agrees_witness :
  exists st p,
    quic_run quic_demo (MkQuic (quic_flow_control_init 0 0 (2 ^ 24) (2 ^ 24)) [])
      (MkPeer (clamp_window 0) ∅) st p /\
    p.(peer_conn) = st.(qs_conn).(max_data) /\
    Forall (fun s => p.(peer_streams) !! s.(stream_id) = Some s.(max_stream_data)) st.(qs_streams) /\
    conn_ok 1000000 st.(qs_conn) /\ Forall stream_ok st.(qs_streams).
Proof.
  apply (quic_peer_agrees 1000000 0 0 (2 ^ 24) (2 ^ 24) quic_demo).
  - lia.
  - unfold QUIC_MAX_VARINT. repeat apply list.Forall_cons_2; try lia; constructor.
  - unfold quic_demo, quic_event_ok, QUIC_MAX_VARINT.
    repeat apply list.Forall_cons_2; first [exact I|lia|constructor].
  - apply NoDup_singleton.
Defined.
