(* ===== verification/Memory.v ===== *)
(** * Checked memory and C strings

    Reads and writes of a C object, checked against its extent ([None] is
    undefined behaviour), [strlen], and what cutting a buffer at its first NUL
    does. *)

From S2P Require Import Prelude.

(** ** Operations *)

(** [strlen]: the object must hold a NUL. *)
Fixpoint strlen (d : bytes) : option nat :=
  match d with
  | [] => None
  | b :: d => if b =? 0 then Some O else S <$> strlen d
  end.
(** [memcpy(d + off, src, n)] and reading [n] bytes at [off]. *)
Definition mem_write (d : bytes) (off : nat) (src : bytes) : option bytes :=
  if (off + length src <=? length d)%nat then Some (blit d off src) else None.
Definition mem_read (d : bytes) (off n : nat) : option bytes :=
  if (off + n <=? length d)%nat then Some (sub d off n) else None.

(** ** C strings *)

Lemma cstr_app_nul t rest : cstr (t ++ 0 :: rest) = cstr t.
Proof. induction t as [|b t IH]; cbn; [done|]. destruct (b =? 0); [done|]. by rewrite IH. Qed.
Lemma cstr_idem t : cstr (cstr t) = cstr t.
Proof. induction t as [|b t IH]; cbn; [done|]. destruct (b =? 0) eqn:E; [done|]. cbn. by rewrite E, IH. Qed.
Lemma cstr_take t n : cstr t = t -> cstr (take n t) = take n t.
Proof.
  revert n. induction t as [|b t IH]; intros [|n]; cbn; try done.
  destruct (b =? 0); [done|]. intros H. injection H as H. by rewrite IH.
Qed.
Lemma cstr_drop t n : cstr t = t -> cstr (drop n t) = drop n t.
Proof.
  revert n. induction t as [|b t IH]; intros [|n]; cbn; try done.
  destruct (b =? 0); [done|]. intros H. injection H as H. by rewrite IH.
Qed.
Lemma cstr_front t : exists rest, t ++ [0] = cstr t ++ 0 :: rest.
Proof.
  induction t as [|b t [rest IH]]; cbn; [by exists []|].
  destruct (Z.eqb_spec b 0) as [->|_]; [by eexists|]. exists rest. cbn. by rewrite IH.
Qed.
Lemma cstr_length_le t : (length (cstr t) <= length t)%nat.
Proof. induction t as [|b t IH]; cbn; [lia|]. destruct (b =? 0); cbn; lia. Qed.
Lemma cstr_take_self t : take (length (cstr t)) t = cstr t.
Proof. induction t as [|b t IH]; cbn; [done|]. destruct (b =? 0); cbn; [done|]. by rewrite IH. Qed.
Lemma cstr_nul t : (t ++ [0]) !! length (cstr t) = Some 0.
Proof. destruct (cstr_front t) as [rest ->]. by apply list_lookup_middle. Qed.

Lemma strlen_nul t rest : strlen (t ++ 0 :: rest) = Some (length (cstr t)).
Proof. induction t as [|b t IH]; cbn; [done|]. destruct (b =? 0); [done|]. by rewrite IH. Qed.

(** ** Reads and writes in range *)

Lemma mem_write_at d off src :
  (off + length src <= length d)%nat ->
  mem_write d off src = Some (take off d ++ src ++ drop (off + length src) d).
Proof.
  intros H. unfold mem_write. rewrite (proj2 (Nat.leb_le _ _) H). by rewrite blit_in_range.
Qed.
(** A write behind a prefix keeps it. *)
Lemma mem_write_behind a d src :
  (length src <= length d)%nat ->
  mem_write (a ++ d) (length a) src = Some (a ++ src ++ drop (length src) d).
Proof.
  intros H. rewrite mem_write_at by (rewrite length_app; lia).
  rewrite take_app_length, drop_app_ge by lia. do 3 f_equal. f_equal. lia.
Qed.
Lemma mem_write_behind' a d src off :
  off = length a -> (length src <= length d)%nat ->
  mem_write (a ++ d) off src = Some (a ++ src ++ drop (length src) d).
Proof. intros ->. apply mem_write_behind. Qed.
Lemma mem_read_at d off n : (off + n <= length d)%nat -> mem_read d off n = Some (sub d off n).
Proof. intros H. unfold mem_read. by rewrite (proj2 (Nat.leb_le _ _) H). Qed.
