(* ===== verification/SString.v ===== *)
(** * The string type (core/sstring/sstring.c)

    A growable string over memory that can be owned, a region of a larger
    allocation, or borrowed.  Reads and writes are checked against the extent
    of the object they touch: [None] is undefined behaviour.  *)

From S2P Require Import Prelude Memory.

Definition is_space (c : Z) : bool := (c =? 32) || ((9 <=? c) && (c <=? 13)).

(** ** The source *)

(** Leading white space: [while (start < len && isspace(data[start])) start++]. *)
Fixpoint ltrim_start (text : bytes) : nat :=
  match text with
  | c :: text => if is_space c then S (ltrim_start text) else O
  | [] => O
  end.

(** [ss_data]: the bytes from the [data] pointer to the end of its object;
    [ss_lead]: those between the allocation base and [data]. *)
Record sstring := MkSS {
  ss_data : option bytes; ss_lead : bytes; ss_has_base : bool; ss_is_fixed : bool;
  ss_owns_storage : bool; ss_borrows : bool; ss_size : Z; ss_capacity : Z; ss_escapes : bool }.
#[export] Instance sstring_fields : Fields sstring := fun r =>
  MkSS r.(ss_data) r.(ss_lead) r.(ss_has_base) r.(ss_is_fixed) r.(ss_owns_storage) r.(ss_borrows)
    r.(ss_size) r.(ss_capacity) r.(ss_escapes).

(** An INT8 code, or a JSON payload that could be created or not. *)
Inductive ss_error :=
  | ERR_SSTRING_OKAY | ERR_SSTRING_ZERO_LENGTH | ERR_SSTRING_NULL_STRING | ERR_SSTRING_CONSTANT
  | ERR_SSTRING_RESIZE_TOO_SMALL | ERR_SSTRING_RESIZE_TOO_LARGE | ERR_SSTRING_OUTOFBOUND
  | SsJson (created : bool).
#[export] Instance ss_error_eq_dec : EqDecision ss_error.
Proof. solve_decision. Defined.

(** [cwist_error_is_ok]: the channel holds its zero value. *)
Definition cwist_error_is_ok (e : ss_error) : bool :=
  match e with ERR_SSTRING_OKAY => true | SsJson created => negb created | _ => false end.

(** A pointer argument: NULL, memory of the caller's, or into the string. *)
Inductive ss_source := SrcNull | SrcExt (b : bytes) | SrcOwn (off : nat).

Definition sstring_init : sstring := MkSS None [] false false false false 0 0 false.
Definition sstring_init_escaped : sstring := MkSS None [] false false false false 0 0 true.
Definition cwist_sstring_create (o : oracle) : option sstring * oracle :=
  let (ok, o) := alloc o in
  (if ok then Some (MkSS None [] false false true false 0 0 false) else None, o).

Definition cwist_sstring_get_size (s : sstring) : Z := s.(ss_size).

(** [while (new_cap < needed)]: 64 doublings pass every size. *)
Fixpoint sstring_grow (fuel : nat) (new_cap needed : Z) : Z :=
  match fuel with
  | O => new_cap
  | S fuel =>
      if new_cap <? needed then
        if (SIZE_MAX - 1) / 2 <? new_cap then needed else sstring_grow fuel (u64 (new_cap * 2)) needed
      else new_cap
  end.

Section Memory.
(** What a grown block holds where nothing was written. *)
Context (junk : nat -> Z).

Definition realloc (old : bytes) (n : nat) : bytes :=
  take n old ++ map junk (seq (length old) (n - length old)).

(** The first line of [cwist_sstring_reserve]: the buffer stays where it is. *)
Definition keeps_buffer (s : sstring) (needed : Z) : bool :=
  negb s.(ss_borrows) && bool_decide (is_Some s.(ss_data)) && (needed <=? s.(ss_capacity)).

(** The new buffer, from its [data] position on. *)
Definition cwist_sstring_reserve (s : sstring) (needed : Z) (preserve_len : nat) (o : oracle)
  : option (option bytes * sstring * oracle) :=
  if keeps_buffer s needed then Some (s.(ss_data), s, o)
  else
    let new_cap := if s.(ss_capacity) =? 0 then 16 else s.(ss_capacity) in
    let new_cap := sstring_grow 64 new_cap needed in
    let (ok, o) := alloc o in
    if s.(ss_borrows) then
      if negb ok then Some (None, s, o)
      else
        let result := replicate (Z.to_nat (u64 (new_cap + 1))) 0 in
        result ← (match s.(ss_data) with
                  | Some d =>
                      if (0 <? preserve_len)%nat then
                        kept ← mem_read d 0 preserve_len; mem_write result 0 kept
                      else Some result
                  | None => Some result
                  end);
        Some (Some result, s <| ss_has_base := true |> <| ss_lead := [] |>
                             <| ss_capacity := new_cap |>, o)
    else if negb ok then Some (None, s, o)
    else
      let lead := length s.(ss_lead) in
      let grown := realloc (s.(ss_lead) ++ default [] s.(ss_data))
                     (Z.to_nat (u64 (Z.of_nat lead + new_cap + 1))) in
      Some (Some (drop lead grown), s <| ss_has_base := true |> <| ss_lead := take lead grown |>
                                      <| ss_capacity := new_cap |>, o).

(** [str->data = new_data; str->borrows_buffer = false; str->size = n]. *)
Definition installed (s : sstring) (d : option bytes) (n : Z) : sstring :=
  s <| ss_data := d |> <| ss_borrows := false |> <| ss_size := n |>.

(** The bytes from [data] on, for the [memcpy] that follows a reservation of
    [len] bytes.  There is no test for a source in the string's own buffer: after
    a reallocation it points at released memory, in a buffer that stayed it must
    not overlap the front, and a borrowed one is still there. *)
Definition assign_source (s : sstring) (data : ss_source) (len : nat) : option (option bytes) :=
  match data with
  | SrcNull => Some None
  | SrcExt b => Some (Some b)
  | SrcOwn off =>
      d ← s.(ss_data);
      if (len =? 0)%nat || s.(ss_borrows) || (keeps_buffer s (Z.of_nat len) && (len <=? off)%nat)
      then Some (Some (drop off d)) else None
  end.
Definition cwist_sstring_assign_len (s0 : sstring) (data : ss_source) (len : nat) (o : oracle)
  : option (ss_error * sstring * oracle) :=
  '(new_data, s, o) ← cwist_sstring_reserve s0 (Z.of_nat len) 0 o;
  match new_data with
  | None =>
      if (0 <? len)%nat then let (created, o) := alloc o in Some (SsJson created, s, o)
      else Some (ERR_SSTRING_OKAY, installed s None 0, o)
  | Some d =>
      data ← assign_source s0 data len;
      d ← (match data with
           | Some b => if (0 <? len)%nat then p ← mem_read b 0 len; mem_write d 0 p else Some d
           | None => Some d
           end);
      d ← mem_write d len [0];
      Some (ERR_SSTRING_OKAY, installed s (Some d) (Z.of_nat len), o)
  end.

(** The source must outlive the string; what was owned is released first, so a
    source in an owned buffer leaves the string pointing at released memory. *)
Definition borrowed (s : sstring) (d : bytes) (len : Z) : sstring :=
  s <| ss_lead := [] |> <| ss_has_base := false |> <| ss_data := Some d |> <| ss_size := len |>
    <| ss_capacity := 0 |> <| ss_borrows := true |> <| ss_is_fixed := false |>.
Definition cwist_sstring_borrow (s : sstring) (data : ss_source) (len : nat) : option sstring :=
  match data with
  | SrcNull => Some (borrowed s [0] 0)
  | SrcExt b => Some (borrowed s b (Z.of_nat len))
  | SrcOwn off =>
      d ← s.(ss_data);
      if s.(ss_borrows) then Some (borrowed s (drop off d) (Z.of_nat len)) else None
  end.

(** [base] is an allocation the caller hands over.  The string's own is released
    before it is written to, and memory it only borrows is not one. *)
Definition cwist_sstring_adopt_region (s : sstring) (base : ss_source) (offset len : nat)
  : option sstring :=
  let s := s <| ss_capacity := 0 |> <| ss_borrows := false |> in
  match base with
  | SrcNull => Some (s <| ss_data := None |> <| ss_lead := [] |> <| ss_has_base := false |>
                       <| ss_size := 0 |>)
  | SrcExt b =>
      b ← mem_write b (offset + len) [0];
      Some (s <| ss_data := Some (drop offset b) |> <| ss_lead := take offset b |>
              <| ss_has_base := true |> <| ss_size := Z.of_nat len |>)
  | SrcOwn _ => None
  end.
Definition cwist_sstring_adopt_len (s : sstring) (buf : ss_source) (len : nat) : option sstring :=
  cwist_sstring_adopt_region s buf 0 len.

(** A pointer into the string lies between the base and the NUL; the caller's
    memory does not.  One past the NUL is neither, and its use is not covered. *)
Definition sstring_aliases (s : sstring) (p : ss_source) : bool :=
  match p, s.(ss_data) with
  | SrcOwn off, Some _ => Z.of_nat off <? s.(ss_size) + 1
  | _, _ => false
  end.

(** The string at a pointer.  [SrcExt] is given without its NUL. *)
Definition source_string (s : sstring) (p : ss_source) : option bytes :=
  match p, s.(ss_data) with
  | SrcExt b, _ => Some b
  | SrcOwn off, Some d => n ← strlen (drop off d); Some (sub d off n)
  | _, _ => None
  end.

Definition append_len_copied (s : sstring) (data : bytes) (o : oracle)
  : option (ss_error * sstring * oracle) :=
  let current_len := s.(ss_size) in
  let new_size := u64 (current_len + blen data) in
  '(new_data, s, o) ← cwist_sstring_reserve s new_size (Z.to_nat current_len) o;
  match new_data with
  | None => let (created, o) := alloc o in Some (SsJson created, s, o)
  | Some d =>
      d ← mem_write d (Z.to_nat current_len) data;
      d ← mem_write d (Z.to_nat new_size) [0];
      Some (ERR_SSTRING_OKAY, installed s (Some d) new_size, o)
  end.
Definition cwist_sstring_append_len (s : sstring) (data : ss_source) (len : nat) (o : oracle)
  : option (ss_error * sstring * oracle) :=
  if (len =? 0)%nat then Some (ERR_SSTRING_OKAY, s, o)
  else
    match data with
    | SrcNull => Some (ERR_SSTRING_OKAY, s, o)
    | SrcExt b => p ← mem_read b 0 len; append_len_copied s p o
    | SrcOwn off =>
        d ← s.(ss_data); p ← mem_read d off len;
        if sstring_aliases s data then
          let (ok, o) := alloc o in
          if ok then append_len_copied s p o else Some (ERR_SSTRING_RESIZE_TOO_LARGE, s, o)
        else None
    end.

(** [str->data ? strlen(str->data) : 0]. *)
Definition current_length (s : sstring) : option nat :=
  match s.(ss_data) with Some d => strlen d | None => Some O end.

Definition cwist_sstring_ltrim (s : sstring) (o : oracle) : option (ss_error * sstring * oracle) :=
  match s.(ss_data) with
  | None => Some (ERR_SSTRING_NULL_STRING, s, o)
  | Some d =>
      len ← strlen d;
      let start := ltrim_start (take len d) in
      if (0 <? start)%nat then
        rest ← mem_read d start (len - start + 1);
        let n := Z.of_nat (len - start) in
        if s.(ss_borrows) then
          '(new_data, s, o) ← cwist_sstring_reserve s n 0 o;
          match new_data with
          | None => Some (ERR_SSTRING_NULL_STRING, s, o)
          | Some d' => d' ← mem_write d' 0 rest; Some (ERR_SSTRING_OKAY, installed s (Some d') n, o)
          end
        else
          d' ← mem_write d 0 rest;
          Some (ERR_SSTRING_OKAY, s <| ss_data := Some d' |> <| ss_size := n |>, o)
      else Some (ERR_SSTRING_OKAY, s, o)
  end.

(** [while (end < len && isspace(data[end])) end--]: one past the last byte
    kept. *)
Fixpoint rtrim_end (text : bytes) (n : nat) : nat :=
  match n with
  | O => O
  | S n' => if is_space (rd text n') then rtrim_end text n' else S n'
  end.
Definition cwist_sstring_rtrim (s : sstring) (o : oracle) : option (ss_error * sstring * oracle) :=
  match s.(ss_data) with
  | None => Some (ERR_SSTRING_NULL_STRING, s, o)
  | Some d =>
      len ← strlen d;
      if (len =? 0)%nat then Some (ERR_SSTRING_OKAY, s, o)
      else
        let stop := rtrim_end d len in
        '(new_data, s, o) ←
          (if s.(ss_borrows) then cwist_sstring_reserve s (Z.of_nat stop) stop o
           else Some (Some d, s, o));
        match new_data with
        | None => Some (ERR_SSTRING_NULL_STRING, s, o)
        | Some d =>
            d ← mem_write d stop [0];
            Some (ERR_SSTRING_OKAY, installed s (Some d) (Z.of_nat stop), o)
        end
  end.
Definition cwist_sstring_trim (s : sstring) (o : oracle) : option (ss_error * sstring * oracle) :=
  '(e, s, o) ← cwist_sstring_rtrim s o;
  if bool_decide (e = ERR_SSTRING_OKAY) then cwist_sstring_ltrim s o else Some (e, s, o).

(** The size the source leaves alone when it does not shrink the string. *)
Definition cwist_sstring_change_size (s : sstring) (new_size : nat) (blow_data : bool) (o : oracle)
  : option (ss_error * sstring * oracle) :=
  if s.(ss_is_fixed) then Some (ERR_SSTRING_CONSTANT, s, o)
  else
    current_len ← current_length s;
    if (new_size <? current_len)%nat && negb blow_data
    then let (created, o) := alloc o in Some (SsJson created, s, o)
    else
      let keep := Nat.min current_len new_size in
      let was_borrowed := s.(ss_borrows) in
      '(new_data, s, o) ← cwist_sstring_reserve s (Z.of_nat new_size) keep o;
      match new_data with
      | None =>
          (* With a zero size the source goes on, and writes a NUL at NULL. *)
          if (0 <? new_size)%nat then Some (ERR_SSTRING_RESIZE_TOO_LARGE, s, o)
          else None
      | Some d =>
          if (new_size <? current_len)%nat then
            d ← mem_write d new_size [0];
            Some (ERR_SSTRING_OKAY, installed s (Some d) (Z.of_nat new_size), o)
          else if (current_len =? 0)%nat || was_borrowed then
            d ← mem_write d current_len [0];
            Some (ERR_SSTRING_OKAY, installed s (Some d) s.(ss_size), o)
          else Some (ERR_SSTRING_OKAY, installed s (Some d) s.(ss_size), o)
      end.

(** [sstring_with_copy]: the operation on a duplicate of the argument. *)
Definition with_copy (op : sstring -> option bytes -> oracle -> option (ss_error * sstring * oracle))
  (s : sstring) (data : ss_source) (o : oracle) : option (ss_error * sstring * oracle) :=
  match data with
  | SrcNull => op s None o
  | SrcExt b => op s (Some b) o
  | SrcOwn _ =>
      b ← source_string s data;
      if sstring_aliases s data then
        let (ok, o) := alloc o in
        if ok then op s (Some b) o else Some (ERR_SSTRING_RESIZE_TOO_LARGE, s, o)
      else None
  end.

(** Every argument from here on is a string apart from the destination. *)
Definition assign_copied (s : sstring) (data : option bytes) (o : oracle)
  : option (ss_error * sstring * oracle) :=
  let (created, o) := alloc o in
  let b := default [] data in
  if s.(ss_is_fixed) then
    if s.(ss_size) <? blen b then
      d ← s.(ss_data); n ← strlen d;
      '(e, s, o) ← cwist_sstring_change_size s n false o;
      Some (if bool_decide (e = ERR_SSTRING_OKAY) then e else SsJson created, s, o)
    else
      match s.(ss_data) with
      | Some d => d ← mem_write d 0 (b ++ [0]); Some (ERR_SSTRING_OKAY, s <| ss_data := Some d |>, o)
      | None => Some (ERR_SSTRING_OKAY, s, o)
      end
  else
    '(new_data, s, o) ← cwist_sstring_reserve s (blen b) 0 o;
    match new_data with
    | None => Some (SsJson created, s, o)
    | Some d =>
        d ← mem_write d 0 (b ++ [0]);
        Some (ERR_SSTRING_OKAY, installed s (Some d) (blen b), o)
    end.
Definition cwist_sstring_assign := with_copy assign_copied.

(** [strcat] starts at the NUL it finds. *)
Definition strcat (d data : bytes) : option bytes := n ← strlen d; mem_write d n (data ++ [0]).
Definition append_copied (s : sstring) (data : option bytes) (o : oracle)
  : option (ss_error * sstring * oracle) :=
  match data with
  | None => Some (ERR_SSTRING_OKAY, s, o)
  | Some b =>
      current_len ← current_length s;
      let new_size := u64 (Z.of_nat current_len + blen b) in
      let (created, o) := alloc o in
      let finish (s : sstring) (o : oracle) :=
        match s.(ss_data) with
        | Some d =>
            d ← (if (current_len =? 0)%nat then mem_write d 0 [0] else Some d);
            d ← strcat d b;
            Some (ERR_SSTRING_OKAY, s <| ss_data := Some d |>, o)
        | None => Some (ERR_SSTRING_OKAY, s, o)
        end in
      if s.(ss_is_fixed) then
        if s.(ss_size) <? new_size then Some (SsJson created, s, o) else finish s o
      else
        '(new_data, s, o) ← cwist_sstring_reserve s new_size current_len o;
        match new_data with
        | None => Some (SsJson created, s, o)
        | Some d => finish (installed s (Some d) new_size) o
        end
  end.
Definition cwist_sstring_append := with_copy append_copied.

Definition escape_byte (c : Z) : bytes :=
  if c =? 60 then bs "&lt;" else if c =? 62 then bs "&gt;" else if c =? 38 then bs "&amp;"
  else if c =? 34 then bs "&quot;" else if c =? 39 then bs "&#39;" else [c].
(** The loop over the source, writing at [ptr]. *)
Fixpoint escape_loop (d : bytes) (ptr : nat) (data : bytes) : option (bytes * nat) :=
  match data with
  | [] => Some (d, ptr)
  | c :: data =>
      d ← mem_write d ptr (escape_byte c);
      escape_loop d (ptr + length (escape_byte c)) data
  end.
Definition append_escaped_copied (s : sstring) (data : option bytes) (o : oracle)
  : option (ss_error * sstring * oracle) :=
  match data with
  | None => Some (ERR_SSTRING_OKAY, s, o)
  | Some b =>
      current_len ← current_length s;
      let new_size := u64 (Z.of_nat current_len + blen b * 6 + 1) in
      let finish (s : sstring) (d : bytes) (o : oracle) :=
        '(d, ptr) ← escape_loop d current_len b;
        d ← mem_write d ptr [0];
        Some (ERR_SSTRING_OKAY, s <| ss_data := Some d |> <| ss_size := Z.of_nat ptr |>, o) in
      if s.(ss_is_fixed) then
        if s.(ss_size) <? new_size then let (created, o) := alloc o in Some (SsJson created, s, o)
        else d ← s.(ss_data); finish s d o
      else
        '(new_data, s, o) ← cwist_sstring_reserve s new_size current_len o;
        match new_data with
        | None => let (created, o) := alloc o in Some (SsJson created, s, o)
        | Some d => finish (installed s (Some d) new_size) d o
        end
  end.
Definition cwist_sstring_append_escaped := with_copy append_escaped_copied.

(** The string of another object, or the object itself. *)
Definition cwist_sstring_append_sstring (s : sstring) (from : option ss_source) (o : oracle) :=
  match from with Some p => cwist_sstring_append s p o | None => Some (ERR_SSTRING_OKAY, s, o) end.
Definition cwist_sstring_append_sstring_escaped (s : sstring) (from : option ss_source) (o : oracle) :=
  match from with
  | Some p => cwist_sstring_append_escaped s p o | None => Some (ERR_SSTRING_OKAY, s, o)
  end.
Definition cwist_sstring_copy_sstring (s : sstring) (from : option ss_source) (o : oracle) :=
  cwist_sstring_assign s (default SrcNull from) o.

(** What is written to the caller's buffer, NUL included. *)
Definition cwist_sstring_seek (s : sstring) (location : Z) : option (ss_error * bytes) :=
  match s.(ss_data) with
  | None => Some (ERR_SSTRING_NULL_STRING, [])
  | Some d =>
      len ← strlen d;
      if (location <? 0) || (Z.of_nat len <=? location) then Some (ERR_SSTRING_OUTOFBOUND, [])
      else
        let at_ := Z.to_nat location in
        n ← strlen (drop at_ d); Some (ERR_SSTRING_OKAY, sub d at_ n ++ [0])
  end.
Definition cwist_sstring_copy (s : sstring) : option (ss_error * bytes) :=
  match s.(ss_data) with
  | None => Some (ERR_SSTRING_NULL_STRING, [])
  | Some d => n ← strlen d; Some (ERR_SSTRING_OKAY, take n d ++ [0])
  end.

(** The arguments are of type [int]. *)
Definition INT_MAX : Z := 2147483647.
Definition cwist_sstring_substr (s : sstring) (start len : Z) (o : oracle)
  : option (option sstring * oracle) :=
  match s.(ss_data) with
  | None => Some (None, o)
  | Some d =>
      if (start <? 0) || (len <? 0) then Some (None, o)
      else
        current_len ← strlen d;
        if Z.of_nat current_len <=? start then Some (None, o)
        else
          let len := if Z.of_nat current_len - start <? len then Z.of_nat current_len - start else len in
          match cwist_sstring_create o with
          | (None, o) => Some (None, o)
          | (Some r, o) =>
              if len =? INT_MAX then None (* [length + 1] *)
              else
              let (ok, o) := alloc o in
              if ok then
                p ← mem_read d (Z.to_nat start) (Z.to_nat len);
                b ← mem_write (replicate (Z.to_nat len + 1) 0) 0 p;
                b ← mem_write b (Z.to_nat len) [0];
                Some (Some (r <| ss_data := Some b |> <| ss_has_base := true |>
                              <| ss_capacity := len |> <| ss_size := len |>), o)
              else Some (None, o)
          end
  end.
End Memory.

(** [strcmp], by its sign. *)
Fixpoint strcmp (a b : bytes) : comparison :=
  match a, b with
  | [], [] => Eq
  | [], _ => Lt
  | _, [] => Gt
  | x :: a, y :: b => match x ?= y with Eq => strcmp a b | c => c end
  end.
Definition sstring_as_text (s : option sstring) : option bytes :=
  match s with
  | Some s => match s.(ss_data) with Some d => n ← strlen d; Some (take n d) | None => Some [] end
  | None => Some []
  end.
Definition cwist_sstring_compare (s : option sstring) (compare_to : option bytes) : option comparison :=
  t ← sstring_as_text s; Some (strcmp t (default [] compare_to)).
Definition cwist_sstring_compare_sstring (left_ right_ : option sstring) : option comparison :=
  a ← sstring_as_text left_; b ← sstring_as_text right_; Some (strcmp a b).

(** ** Specification: the contents *)

(** [None]: no buffer. *)
Definition ss_content (s : sstring) : option bytes :=
  d ← s.(ss_data); Some (take (Z.to_nat s.(ss_size)) d).
Abbreviation text := (default (@nil Z)).

Definition html_escape (b : bytes) : bytes := concat (map escape_byte b).
Definition rtrim_text (u : bytes) : bytes := take (rtrim_end u (length u)) u.

Inductive ss_op :=
  | OpAssign (p : ss_source) | OpAssignLen (p : ss_source) (len : nat)
  | OpAppend (p : ss_source) | OpAppendLen (p : ss_source) (len : nat)
  | OpAppendEscaped (p : ss_source)
  | OpBorrow (p : ss_source) (len : nat) | OpAdoptRegion (p : ss_source) (off len : nat)
  | OpLtrim | OpRtrim | OpTrim | OpChangeSize (n : nat) (blow : bool).

(** The C string at a pointer. *)
Definition spec_source (c : option bytes) (p : ss_source) : option bytes :=
  match p with
  | SrcNull => None
  | SrcExt b => Some b
  | SrcOwn off => Some (cstr (drop off (text c)))
  end.

(** The bytes at a pointer. *)
Definition spec_bytes (c : option bytes) (p : ss_source) : bytes :=
  match p with SrcNull => [] | SrcExt b => b | SrcOwn off => drop off (text c) end.

(** The answer and the contents; [fail]: an allocation was refused. *)
Definition unless_fail (c : option bytes) (c' : bytes) (fail : bool) : bool * option bytes :=
  if fail then (false, c) else (true, Some c').
Definition ss_spec (fail : bool) (op : ss_op) (c : option bytes) : bool * option bytes :=
  let unless c' := unless_fail c c' fail in
  match op with
  | OpAssign p => unless (text (spec_source c p))
  | OpAssignLen p len =>
      if fail && (len =? 0)%nat then (true, None) else unless (take len (spec_bytes c p))
  | OpAppend p =>
      match spec_source c p with None => (true, c) | Some b => unless (cstr (text c) ++ b) end
  | OpAppendLen p len =>
      if (len =? 0)%nat then (true, c)
      else
        match p with
        | SrcNull => (true, c)
        | SrcExt b => unless (text c ++ take len b)
        | SrcOwn off => unless (text c ++ sub (text c) off len)
        end
  | OpAppendEscaped p =>
      match spec_source c p with
      | None => (true, c) | Some b => unless (cstr (text c) ++ html_escape b)
      end
  | OpBorrow p len => (true, Some (take len (spec_bytes c p)))
  | OpAdoptRegion p off len =>
      (true, match p with SrcNull => None | _ => Some (sub (spec_bytes c p) off len) end)
  | OpLtrim =>
      match c with
      | None => (false, None)
      | Some t =>
          let u := cstr t in
          if (ltrim_start u =? 0)%nat then (true, c) else unless (drop (ltrim_start u) u)
      end
  | OpRtrim =>
      match c with
      | None => (false, None)
      | Some t => if (length (cstr t) =? 0)%nat then (true, c) else unless (rtrim_text (cstr t))
      end
  | OpTrim =>
      match c with
      | None => (false, None)
      | Some t =>
          if (length (cstr t) =? 0)%nat then (true, c)
          else let u := rtrim_text (cstr t) in unless (drop (ltrim_start u) u)
      end
  | OpChangeSize n blow =>
      if (n <? length (text c))%nat && negb blow then (false, c) else unless (take n (text c))
  end.

(** What a caller may pass: pointers into the string point at its contents, and
    are given to [assign_len] and [borrow] only where those do without a test for
    them (a borrowed buffer; for [assign_len] also one that stays and a source
    behind the bytes written), never to be adopted; borrowed and adopted memory
    has a NUL behind its length; sizes are those of objects in memory; a resize is
    asked of contents without a NUL, and to zero only where no allocation can be
    refused. *)
(** 2^60. *)
Definition HALF : Z := 1152921504606846976.
Definition source_ok (c : option bytes) (p : ss_source) : Prop :=
  blen (text c) + 6 * blen (text (spec_source c p)) + 1 <= HALF /\
  match p with SrcOwn off => exists t, c = Some t /\ (off <= length t)%nat | _ => True end.
Definition op_ok (s : sstring) (c : option bytes) (o : oracle) (op : ss_op) : Prop :=
  match op with
  | OpAssign p | OpAppend p | OpAppendEscaped p => source_ok c p
  | OpAssignLen p len =>
      Z.of_nat len <= HALF /\
      match p with
      | SrcNull => len = O
      | SrcExt b => (len <= length b)%nat
      | SrcOwn off =>
          (exists t, c = Some t /\ (off + len <= length t)%nat) /\
          (len = O \/ s.(ss_borrows) = true \/
           (s.(ss_borrows) = false /\ Z.of_nat len <= s.(ss_capacity) /\ (len <= off)%nat))
      end
  | OpAppendLen p len =>
      blen (text c) + Z.of_nat len + 1 <= HALF /\
      match p with
      | SrcNull => True
      | SrcExt b => (len <= length b)%nat
      | SrcOwn off => exists t, c = Some t /\ (off + len <= length t)%nat
      end
  | OpBorrow p len =>
      Z.of_nat len <= HALF /\
      match p with
      | SrcNull => True
      | SrcExt d => d !! len = Some 0
      | SrcOwn off => s.(ss_borrows) = true /\ exists t, c = Some t /\ (t ++ [0]) !! (off + len)%nat = Some 0
      end
  | OpAdoptRegion p off len =>
      match p with
      | SrcNull => True
      | SrcExt b => (off + len < length b)%nat /\ blen b <= HALF
      | SrcOwn _ => False
      end
  | OpLtrim | OpRtrim | OpTrim => True
  | OpChangeSize n _ =>
      Z.of_nat n <= HALF /\ cstr (text c) = text c /\
      ((0 < n)%nat \/ keeps_buffer s 0 = true \/ (alloc o).1 = true)
  end.

Section Runs.
Context (junk : nat -> Z).

Definition ss_apply (op : ss_op) (s : sstring) (o : oracle) : option (ss_error * sstring * oracle) :=
  match op with
  | OpAssign p => cwist_sstring_assign junk s p o
  | OpAssignLen p len => cwist_sstring_assign_len junk s p len o
  | OpAppend p => cwist_sstring_append junk s p o
  | OpAppendLen p len => cwist_sstring_append_len junk s p len o
  | OpAppendEscaped p => cwist_sstring_append_escaped junk s p o
  | OpBorrow p len => s ← cwist_sstring_borrow s p len; Some (ERR_SSTRING_OKAY, s, o)
  | OpAdoptRegion p off len =>
      s ← cwist_sstring_adopt_region s p off len; Some (ERR_SSTRING_OKAY, s, o)
  | OpLtrim => cwist_sstring_ltrim junk s o
  | OpRtrim => cwist_sstring_rtrim junk s o
  | OpTrim => cwist_sstring_trim junk s o
  | OpChangeSize n blow => cwist_sstring_change_size junk s n blow o
  end.
End Runs.


(** ** The invariant: a string represents its contents *)

Record ss_repr (s : sstring) (c : option bytes) : Prop := {
  sr_fixed : s.(ss_is_fixed) = false;
  sr_size : s.(ss_size) = blen (text c) /\ s.(ss_size) <= HALF;
  sr_capacity : 0 <= s.(ss_capacity) <= 4 * HALF;
  sr_lead : blen s.(ss_lead) <= HALF;
  sr_data :
    match s.(ss_data), c with
    | None, None => s.(ss_capacity) = 0 /\ s.(ss_lead) = []
    | Some d, Some t =>
        (exists rest, d = t ++ 0 :: rest) /\
        (if s.(ss_borrows) then s.(ss_capacity) = 0 /\ s.(ss_lead) = []
         else s.(ss_capacity) + 1 <= blen d)
    | _, _ => False
    end }.

Lemma ss_repr_content s c : ss_repr s c -> ss_content s = c.
Proof.
  intros [_ [Hs _] _ _ Hd]. unfold ss_content. destruct (ss_data s) as [d|], c as [t|]; try done.
  destruct Hd as [[rest ->] _]. cbn in *. rewrite Hs. unfold blen. by rewrite Nat2Z.id, take_app_length.
Qed.

Lemma repr_data s t : ss_repr s (Some t) -> exists rest, s.(ss_data) = Some (t ++ 0 :: rest).
Proof. intros [_ _ _ _ Hd]. destruct (ss_data s) as [d|]; [|done]. destruct Hd as [[rest ->] _]. by exists rest. Qed.
Lemma repr_none s : ss_repr s None -> s.(ss_data) = None.
Proof. intros [_ _ _ _ Hd]. by destruct (ss_data s). Qed.

Lemma ss_init_repr : ss_repr sstring_init None.
Proof. split; cbn; unfold blen, HALF; cbn; try done; lia. Qed.

(** ** Reserving room *)

Lemma sstring_grow_spec fuel : forall cap needed,
  0 < cap -> needed <= 2 * HALF -> needed <= cap * 2 ^ Z.of_nat fuel ->
  let r := sstring_grow fuel cap needed in needed <= r /\ cap <= r <= Z.max cap (2 * needed).
Proof.
  unfold HALF. induction fuel as [|fuel IH]; intros cap needed Hc Hn Hf; cbn [sstring_grow].
  { change (2 ^ Z.of_nat 0) with 1 in Hf. lia. }
  destruct (Z.ltb_spec cap needed); [|lia].
  replace ((SIZE_MAX - 1) / 2 <? cap) with false by (symmetry; apply Z.ltb_ge; change ((SIZE_MAX - 1) / 2) with 9223372036854775807; lia).
  rewrite u64_id by (unfold is_u64; lia).
  rewrite Nat2Z.inj_succ, Z.pow_succ_r in Hf by lia.
  specialize (IH (cap * 2) needed ltac:(lia) Hn ltac:(lia)). cbv zeta in *. lia.
Qed.

(** [d'] is the new buffer, [s'] the string with its capacity. *)
Record reserved (s s' : sstring) (c : option bytes) (needed : Z) (keep : nat) (d' : bytes) : Prop := {
  rv_fixed : s'.(ss_is_fixed) = false;
  rv_size : s'.(ss_size) = s.(ss_size);
  rv_capacity : 0 <= s'.(ss_capacity) <= 4 * HALF /\ s'.(ss_capacity) + 1 <= blen d';
  rv_lead : blen s'.(ss_lead) <= HALF;
  rv_room : needed + 1 <= blen d';
  rv_prefix : exists tail, d' = take keep (text c) ++ tail;
  rv_nul : is_Some c -> (text c ++ [0]) !! keep = Some 0 ->
    exists tail, d' = take keep (text c) ++ 0 :: tail }.

Lemma new_cap_spec s needed :
  0 <= s.(ss_capacity) <= 4 * HALF -> 0 <= needed <= 2 * HALF ->
  let r := sstring_grow 64 (if s.(ss_capacity) =? 0 then 16 else s.(ss_capacity)) needed in
  needed <= r /\ s.(ss_capacity) <= r <= 4 * HALF /\ 0 < r.
Proof.
  intros Hc Hn. cbv zeta.
  destruct (sstring_grow_spec 64 (if ss_capacity s =? 0 then 16 else ss_capacity s) needed) as [H1 H2].
  - destruct (Z.eqb_spec (ss_capacity s) 0); lia.
  - lia.
  - unfold HALF in *. change (2 ^ Z.of_nat 64) with 18446744073709551616. destruct (Z.eqb_spec (ss_capacity s) 0); lia.
  - unfold HALF in *. destruct (Z.eqb_spec (ss_capacity s) 0); lia.
Qed.

(** Where the text goes on, or its NUL stands. *)
Lemma take_keep_split t rest keep :
  (keep <= length t)%nat -> (t ++ [0]) !! keep = Some 0 ->
  exists tail, t ++ 0 :: rest = take keep t ++ 0 :: tail.
Proof.
  intros Hk Hz. exists (drop (S keep) (t ++ 0 :: rest)).
  rewrite <- (take_drop keep (t ++ 0 :: rest)) at 1. rewrite take_app_le by done. f_equal.
  apply drop_S. destruct (decide (keep < length t)%nat).
  - rewrite lookup_app_l in Hz |- * by done. done.
  - replace keep with (length t) by lia. by apply list_lookup_middle.
Qed.

Section Operations.
Context (junk : nat -> Z).

Lemma length_realloc old n : length (realloc junk old n) = n.
Proof. unfold realloc. rewrite length_app, length_take, length_map, length_seq. lia. Qed.

Lemma realloc_grown lead d lead' n :
  length lead = lead' -> (lead' + n <= length (lead ++ d) + (lead' + n - length (lead ++ d)))%nat ->
  drop lead' (realloc junk (lead ++ d) (lead' + n)) =
    take n d ++ map junk (seq (length (lead ++ d)) (lead' + n - length (lead ++ d))).
Proof.
  intros <- _. unfold realloc. rewrite take_app_add'  by done.
  by rewrite <- app_assoc, drop_app_length.
Qed.

Lemma realloc_lead lead d n : take (length lead) (realloc junk (lead ++ d) (length lead + n)) = lead.
Proof.
  unfold realloc. rewrite take_app_add' by done. by rewrite <- app_assoc, take_app_length.
Qed.

(** The fresh buffer of a string that borrowed its text. *)
Lemma detach_spec d t rest keep r needed :
  d = t ++ 0 :: rest -> (keep <= length t)%nat -> Z.of_nat keep <= needed -> needed <= r ->
  r <= 4 * HALF ->
  let result := replicate (Z.to_nat (u64 (r + 1))) 0 in
  (if (0 <? keep)%nat then kept ← mem_read d 0 keep; mem_write result 0 kept else Some result) =
    Some (take keep t ++ 0 :: replicate (Z.to_nat r - keep) 0).
Proof.
  intros -> Hk Hkn Hr Hb. cbv zeta. rewrite u64_id by (unfold is_u64, HALF in *; lia).
  replace (Z.to_nat (r + 1)) with (keep + S (Z.to_nat r - keep))%nat by lia.
  destruct (Nat.ltb_spec 0 keep).
  - rewrite mem_read_at by (rewrite length_app; lia). cbn [mbind option_bind].
    unfold sub. rewrite drop_0, take_app_le by done.
    rewrite mem_write_at by (rewrite length_take, length_replicate; lia).
    cbn [take app Nat.add]. rewrite length_take, Nat.min_l by done.
    rewrite drop_replicate. by replace (keep + S (Z.to_nat r - keep) - keep)%nat with (S (Z.to_nat r - keep)) by lia.
  - by replace keep with 0%nat by lia.
Qed.

(** The old one, grown in place behind what leads up to it. *)
Lemma realloc_spec lead d r :
  0 < r <= 4 * HALF -> blen lead <= HALF ->
  let grown := realloc junk (lead ++ d) (Z.to_nat (u64 (Z.of_nat (length lead) + r + 1))) in
  take (length lead) grown = lead /\
  exists pad, drop (length lead) grown = take (Z.to_nat r + 1) d ++ pad /\
    blen (drop (length lead) grown) = r + 1.
Proof.
  intros Hr Hl. cbv zeta. unfold blen, HALF in *. rewrite u64_id by (unfold is_u64; lia).
  replace (Z.to_nat (Z.of_nat (length lead) + r + 1)) with (length lead + (Z.to_nat r + 1))%nat by lia.
  split; [apply realloc_lead|]. eexists. split.
  - unfold realloc. rewrite take_app_add' by done. by rewrite <- app_assoc, drop_app_length.
  - rewrite length_drop, length_realloc. lia.
Qed.

(** Room for [needed] bytes and a NUL, behind the first [keep] of the text. *)
Lemma ss_reserve_spec s c needed keep o :
  ss_repr s c -> 0 <= needed <= 2 * HALF -> (keep <= length (text c))%nat -> Z.of_nat keep <= needed ->
  exists r s' o', cwist_sstring_reserve junk s needed keep o = Some (r, s', o') /\
    (o = [] -> o' = []) /\
    match r with
    | None => s' = s /\ o <> [] /\ (needed = 0 -> s.(ss_capacity) = 0 /\ s.(ss_lead) = [])
    | Some d' => reserved s s' c needed keep d'
    end.
Proof.
  intros [Hf [Hsz Hszb] Hcap Hlead Hd] Hn Hk Hkn. unfold cwist_sstring_reserve.
  unfold keeps_buffer.
  destruct (negb (ss_borrows s) && bool_decide (is_Some (ss_data s)) && (needed <=? ss_capacity s)) eqn:Efit.
  { apply andb_prop in Efit as [Efit Hle]. apply andb_prop in Efit as [Hb Hs].
    destruct (ss_data s) as [d|] eqn:Ed, c as [t|]; try done.
    destruct Hd as [[rest Erest] Hroom]. destruct (ss_borrows s); [done|].
    do 3 eexists. split; [done|]. split; [done|]. split; try done; try lia.
    + exists (drop keep d). cbn in *. rewrite Erest, drop_app_le by done.
      by rewrite app_assoc, take_drop.
    + intros _ Hz. cbn in *. rewrite Erest. by apply take_keep_split. }
  pose proof (new_cap_spec s needed Hcap Hn) as Hr. cbv zeta in Hr |- *.
  set (r := sstring_grow _ _ _) in *. clearbody r. destruct Hr as (Hr1 & Hr2 & Hr3).
  destruct (alloc o) as [ok o'] eqn:Eo.
  assert (Ho : o = [] -> ok = true /\ o' = []) by (intros ->; by injection Eo as <- <-).
  assert (Hfail : ok = false -> needed = 0 -> ss_capacity s = 0 /\ ss_lead s = []).
  { intros _ ->. destruct (ss_data s) as [d|], c as [t|]; try done. destruct Hd as [_ Hd].
    destruct (ss_borrows s); [done|]. cbn in Efit. lia. }
  destruct ok; cbn [negb].
  2: { exists None, s, o'. split; [by destruct (ss_borrows s)|]. assert (o <> []) by (intros Hn'; by destruct (Ho Hn')).
       split; [done|]. split; [done|]. split; [done|by apply Hfail]. }
  destruct (ss_borrows s) eqn:Eb.
  - destruct (ss_data s) as [d|] eqn:Ed, c as [t|]; try done.
    + destruct Hd as [[rest Erest] _].
      rewrite (detach_spec d t rest keep r needed Erest Hk Hkn Hr1 ltac:(lia)). cbn [mbind option_bind].
      do 3 eexists. split; [done|]. split; [intros ?; by apply Ho|].
      split; cbn; try done; unfold blen; rewrite ?length_app, ?length_take; cbn [length];
        rewrite ?length_replicate; cbn in Hk; unfold HALF in *; try lia; eauto.
    + cbn in Hk. cbn [mbind option_bind]. rewrite u64_id by (unfold is_u64, HALF in *; lia).
      do 3 eexists. split; [done|]. split; [intros ?; by apply Ho|].
      split; cbn; try done; unfold blen; rewrite ?length_replicate; cbn [length]; unfold HALF in *; try lia.
      rewrite take_nil. by eexists.
  - destruct (realloc_spec (ss_lead s) (default [] (ss_data s)) r ltac:(lia) Hlead) as (El & pad & Ed' & Hb).
    cbv zeta in *. do 3 eexists. split; [done|]. split; [intros ?; by apply Ho|].
    split; cbn; try done; rewrite ?El, ?Hb; try lia; rewrite Ed'; clear Ed' Hb El.
    + destruct (ss_data s) as [d|], c as [t|]; try done; cbn in *.
      * destruct Hd as [[rest ->] _]. rewrite take_app.
        exists (drop keep (take (Z.to_nat r + 1) t) ++ take (Z.to_nat r + 1 - length t) (0 :: rest) ++ pad).
        rewrite <- (take_drop keep (take (Z.to_nat r + 1) t)) at 1.
        rewrite take_take, Nat.min_l, <- !app_assoc by lia. done.
      * rewrite !take_nil. by eexists.
    + intros Hc Hz. destruct (ss_data s) as [d|], c as [t|]; try done. cbn in *.
      destruct Hd as [[rest ->] _]. destruct (take_keep_split t rest keep Hk Hz) as [tail ->].
      rewrite take_app, length_take, Nat.min_l by done.
      rewrite (take_ge (take keep t)) by (rewrite length_take; lia).
      replace (Z.to_nat r + 1 - keep)%nat with (S (Z.to_nat r - keep)) by lia. cbn [take].
      rewrite <- app_assoc. by eexists.
Qed.

(** What is put in the new buffer is the new contents. *)
Lemma reserved_installed s s' c needed keep d' d'' t rest :
  reserved s s' c needed keep d' -> length d'' = length d' -> d'' = t ++ 0 :: rest -> blen t <= HALF ->
  ss_repr (installed s' (Some d'') (blen t)) (Some t).
Proof.
  intros [] El -> Hb. unfold installed. split; cbn; try done; try lia.
  split; [by eexists|]. unfold blen in *. rewrite El. lia.
Qed.

(** An operation answers as its specification, with a refused allocation only
    if one was refused. *)
Definition answers (spec : bool -> bool * option bytes) (o : oracle)
    (r : option (ss_error * sstring * oracle)) : Prop :=
  exists fail e s' o', r = Some (e, s', o') /\ (o = [] -> fail = false /\ o' = []) /\
    (spec fail).1 = bool_decide (e = ERR_SSTRING_OKAY) /\ ss_repr s' (spec fail).2.

Lemma answers_nil spec o o1 r : (o = [] -> o1 = []) -> answers spec o1 r -> answers spec o r.
Proof. intros Ho (fail & e & s' & o' & ? & H & ?). exists fail, e, s', o'. split_and!; naive_solver. Qed.
Lemma answers_okay spec s c o :
  ss_repr s c -> spec false = (true, c) -> answers spec o (Some (ERR_SSTRING_OKAY, s, o)).
Proof. intros Hr Hs. exists false, ERR_SSTRING_OKAY, s, o. by rewrite Hs. Qed.

(** Reserve, then install the new contents or leave everything as it was. *)
Definition refused (s : sstring) (o : oracle) (r : option (ss_error * sstring * oracle)) : Prop :=
  exists e o', r = Some (e, s, o') /\ e <> ERR_SSTRING_OKAY /\ o <> [].
Definition detached (t : bytes) (o : oracle) (r : option (ss_error * sstring * oracle)) : Prop :=
  exists s' o', r = Some (ERR_SSTRING_OKAY, s', o') /\ (o = [] -> o' = []) /\
    ss_repr s' (Some t) /\ s'.(ss_borrows) = false.

Lemma ss_reserve_cases s c needed keep o t
    (k : option bytes * sstring * oracle -> option (ss_error * sstring * oracle)) :
  ss_repr s c -> 0 <= needed <= 2 * HALF -> (keep <= length (text c))%nat -> Z.of_nat keep <= needed ->
  blen t <= HALF ->
  (forall o', cwist_sstring_reserve junk s needed keep o = Some (None, s, o') ->
    exists e o'', k (None, s, o') = Some (e, s, o'') /\ e <> ERR_SSTRING_OKAY) ->
  (forall s' d' o', reserved s s' c needed keep d' ->
    exists d'' rest, k (Some d', s', o') = Some (ERR_SSTRING_OKAY, installed s' (Some d'') (blen t), o') /\
      length d'' = length d' /\ d'' = t ++ 0 :: rest) ->
  let r := cwist_sstring_reserve junk s needed keep o ≫= k in refused s o r \/ detached t o r.
Proof.
  intros Hr Hn Hk Hkn Ht Hfail Hok. cbv zeta.
  destruct (ss_reserve_spec s c needed keep o Hr Hn Hk Hkn) as (r & s' & o' & E & Ho & H).
  rewrite E. cbn [mbind option_bind]. destruct r as [d'|].
  - destruct (Hok s' d' o' H) as (d'' & rest & -> & El & Ed). right.
    do 2 eexists. split; [done|]. split; [done|]. split; [by eapply reserved_installed|done].
  - destruct H as (-> & Hne & _). destruct (Hfail o' E) as (e & o'' & -> & He). left. by exists e, o''.
Qed.

Lemma cases_answers s c t o r :
  ss_repr s c -> refused s o r \/ detached t o r -> answers (unless_fail c t) o r.
Proof.
  intros Hr [(e & o' & -> & He & Ho)|(s' & o' & -> & Ho & Hs & _)].
  - exists true, e, s, o'. split; [done|]. split; [done|]. cbn. by rewrite bool_decide_false.
  - exists false, ERR_SSTRING_OKAY, s', o'. auto.
Qed.
Lemma reserve_then s c needed keep o t
    (k : option bytes * sstring * oracle -> option (ss_error * sstring * oracle)) :
  ss_repr s c -> 0 <= needed <= 2 * HALF -> (keep <= length (text c))%nat -> Z.of_nat keep <= needed ->
  blen t <= HALF ->
  (forall o', cwist_sstring_reserve junk s needed keep o = Some (None, s, o') ->
    exists e o'', k (None, s, o') = Some (e, s, o'') /\ e <> ERR_SSTRING_OKAY) ->
  (forall s' d' o', reserved s s' c needed keep d' ->
    exists d'' rest, k (Some d', s', o') = Some (ERR_SSTRING_OKAY, installed s' (Some d'') (blen t), o') /\
      length d'' = length d' /\ d'' = t ++ 0 :: rest) ->
  answers (unless_fail c t) o (cwist_sstring_reserve junk s needed keep o ≫= k).
Proof. intros. apply (cases_answers s); [done|]. by eapply ss_reserve_cases. Qed.

(** Overwriting the front, and going on behind a prefix. *)
Lemma write_front d' b :
  blen b + 1 <= blen d' ->
  exists rest, mem_write d' 0 (b ++ [0]) = Some (b ++ 0 :: rest) /\
    length (b ++ 0 :: rest) = length d'.
Proof.
  unfold blen. intros H. rewrite mem_write_at by (rewrite length_app; cbn; lia).
  eexists. rewrite take_0, <- app_assoc. cbn [app]. split; [done|].
  rewrite length_app. cbn [length]. rewrite length_drop, length_app. cbn. lia.
Qed.
Lemma write_back (a tail b : bytes) :
  (length b < length tail)%nat ->
  exists rest, mem_write (a ++ tail) (length a) (b ++ [0]) = Some (a ++ b ++ 0 :: rest) /\
    length (a ++ b ++ 0 :: rest) = length (a ++ tail).
Proof.
  intros H. rewrite mem_write_behind by (rewrite length_app; cbn; lia). eexists. rewrite <- app_assoc.
  split; [done|]. rewrite !length_app. cbn [length app]. rewrite length_drop. cbn. lia.
Qed.

(** The operation on a string of its own, where the argument may be a part. *)
Lemma with_copy_answers op s c p o (g : option bytes -> bool -> bool * option bytes) :
  ss_repr s c -> source_ok c p -> (forall b, g (Some b) true = (false, c)) ->
  (forall o, answers (g (spec_source c p)) o (op s (spec_source c p) o)) ->
  answers (g (spec_source c p)) o (with_copy op s p o).
Proof.
  intros Hr [_ Hp] Hg Hop. unfold with_copy. destruct p as [|b|off]; [apply Hop|apply Hop|].
  destruct Hp as (t & -> & Hoff). destruct (repr_data s t Hr) as [rest Ed].
  pose proof (proj1 (sr_size _ _ Hr)) as Hsz.
  unfold source_string, sstring_aliases. rewrite Ed. rewrite drop_app_le, strlen_nul by done. cbn [mbind option_bind].
  cbn [text default] in *. unfold blen in Hsz. cbn in Hsz. rewrite Hsz, (proj2 (Z.ltb_lt _ _)) by lia.
  assert (E : sub (t ++ 0 :: rest) off (length (cstr (drop off t))) = cstr (drop off t)).
  { unfold sub. rewrite drop_app_le, take_app_le by (done || apply cstr_length_le). apply cstr_take_self. }
  rewrite E. destruct (alloc o) as [[|] o'] eqn:Eo.
  - eapply answers_nil; [|apply Hop]. intros ->. by injection Eo.
  - exists true, ERR_SSTRING_RESIZE_TOO_LARGE, s, o'. split; [done|]. split; [intros ->; done|].
    cbn [spec_source text default]. by rewrite Hg.
Qed.

(** ** Assigning and appending *)

Ltac size := unfold blen, HALF in *; rewrite ?length_app; cbn [length app]; lia.

Lemma assign_answers s c data o :
  ss_repr s c -> blen (text data) <= HALF ->
  answers (unless_fail c (text data)) o (assign_copied junk s data o).
Proof.
  intros Hr Hb. unfold assign_copied. rewrite (sr_fixed _ _ Hr).
  destruct (alloc o) as [created o1] eqn:Eo.
  apply (answers_nil _ o o1); [intros ->; by injection Eo|].
  apply (reserve_then s c (blen (text data)) 0 o1); [done|size..| |].
  - intros o' _. by do 2 eexists.
  - intros s' d' o' H. destruct (write_front d' (text data)) as (rest & -> & El).
    { apply (rv_room _ _ _ _ _ _ H). }
    by do 2 eexists.
Qed.

Lemma assign_source_spec s c o p len :
  ss_repr s c -> op_ok s c o (OpAssignLen p len) ->
  exists b, assign_source s p len = Some b /\ (len <= length (text b))%nat /\
    take len (text b) = take len (spec_bytes c p).
Proof.
  intros Hr (_ & Hp). destruct p as [|b|off].
  - exists None. by rewrite Hp.
  - by exists (Some b).
  - destruct Hp as [(t & -> & Hl) Hown]. destruct (repr_data s t Hr) as [rest Ed].
    cbn [assign_source text default spec_bytes]. rewrite Ed. cbn [mbind option_bind].
    assert (E : (len =? 0)%nat || ss_borrows s || (keeps_buffer s (Z.of_nat len) && (len <=? off)%nat) = true).
    { destruct Hown as [->|[->|(Hb & Hc & Ho)]]; [done|by rewrite orb_true_r|].
      unfold keeps_buffer. rewrite Hb, Ed, (proj2 (Z.leb_le _ _) Hc), (proj2 (Nat.leb_le _ _) Ho).
      by rewrite orb_true_r. }
    rewrite E. eexists. split; [done|]. cbn [from_option]. unfold id. rewrite length_drop, length_app. cbn [length]. split; [lia|].
    rewrite drop_app_le by lia. by rewrite take_app_le by (rewrite length_drop; lia).
Qed.

Lemma assign_len_answers s c b len o :
  ss_repr s c -> op_ok s c o (OpAssignLen b len) ->
  answers (fun fail => ss_spec fail (OpAssignLen b len) c) o (cwist_sstring_assign_len junk s b len o).
Proof.
  intros Hr Hop. destruct (assign_source_spec s c o b len Hr Hop) as (src & Esrc & Hlen & Etake).
  destruct Hop as (Hb & _). unfold cwist_sstring_assign_len. cbn [ss_spec]. rewrite <- Etake.
  destruct (ss_reserve_spec s c (Z.of_nat len) 0 o Hr ltac:(unfold HALF in *; lia) ltac:(lia) ltac:(lia))
    as (r & s' & o' & -> & Ho & H). cbn [mbind option_bind]. destruct r as [d'|].
  - pose proof (rv_room _ _ _ _ _ _ H) as Hroom. unfold blen in Hroom.
    set (t := take len (text src)). rewrite Esrc. cbn [mbind option_bind].
    assert (Et : length t = len) by (unfold t; rewrite length_take; lia).
    assert (E : exists d, length d = length d' /\ take len d = t /\
      match src with
      | Some b => if (0 <? len)%nat then p ← mem_read b 0 len; mem_write d' 0 p else Some d'
      | None => Some d'
      end = Some d).
    { destruct (Nat.ltb_spec 0 len), src as [u|]; cbn in Hlen; try lia.
      2,3: exists d'; unfold t; by replace len with 0%nat by lia.
      rewrite mem_read_at by lia. cbn [mbind option_bind]. unfold sub. rewrite drop_0.
      change (take len u) with t. rewrite mem_write_at by lia. eexists. split; [|split; [|done]].
      - rewrite take_0. cbn [app]. rewrite length_app, length_drop. lia.
      - rewrite take_0. cbn [app]. by rewrite <- Et, take_app_length. }
    destruct E as (d & El & Etd & ->). cbn [mbind option_bind].
    rewrite mem_write_at by (cbn; lia). cbn [mbind option_bind]. rewrite Etd.
    exists false, ERR_SSTRING_OKAY. do 2 eexists. split; [done|]. split; [auto|]. split; [done|].
    replace (Z.of_nat len) with (blen t) by (unfold blen; lia).
    apply (reserved_installed s s' c (Z.of_nat len) 0 d' _ t (drop (len + 1) d)); try done.
    + rewrite length_app. cbn [app length]. rewrite length_drop. lia.
    + unfold blen. lia.
  - destruct H as (-> & Hne & Hz). destruct (Nat.ltb_spec 0 len).
    + destruct (alloc o') as [created o'']. exists true, (SsJson created), s, o''.
      split; [done|]. split; [done|]. cbn. by replace (len =? 0)%nat with false by (symmetry; by apply Nat.eqb_neq; lia).
    + replace len with 0%nat in * by lia. exists true, ERR_SSTRING_OKAY. do 2 eexists.
      split; [done|]. split; [done|]. split; [done|]. destruct (Hz eq_refl) as [Hc Hl].
      destruct Hr. by split.
Qed.

Lemma current_length_spec s c : ss_repr s c -> current_length s = Some (length (cstr (text c))).
Proof.
  intros Hr. unfold current_length. destruct c as [t|].
  - destruct (repr_data s t Hr) as [rest ->]. apply strlen_nul.
  - by rewrite (repr_none s Hr).
Qed.

(** The reserved buffer holds the old C string, once its NUL is put where
    there was no text. *)
Lemma nul_placed s s' c needed d' :
  let u := cstr (text c) in
  reserved s s' c needed (length u) d' -> 0 <= needed ->
  exists tail, (if (length u =? 0)%nat then mem_write d' 0 [0] else Some d') = Some (u ++ 0 :: tail) /\
    length (u ++ 0 :: tail) = length d'.
Proof.
  intros u H Hn. destruct (Nat.eqb_spec (length u) 0) as [E|E].
  - apply length_zero_iff_nil in E as ->. pose proof (rv_room _ _ _ _ _ _ H) as Hroom. unfold blen in Hroom.
    rewrite mem_write_at by (cbn; lia). eexists. rewrite take_0. split; [done|].
    cbn [app length Nat.add]. rewrite length_drop. lia.
  - destruct (rv_nul _ _ _ _ _ _ H) as [tail Ed].
    + destruct c; [done|]. by destruct E.
    + apply cstr_nul.
    + exists tail. unfold u in *. by rewrite Ed, cstr_take_self.
Qed.

Lemma append_answers s c b o :
  ss_repr s c -> blen (text c) + 6 * blen b + 1 <= HALF ->
  answers (unless_fail c (cstr (text c) ++ b)) o (append_copied junk s (Some b) o).
Proof.
  intros Hr Hb. unfold append_copied. rewrite (sr_fixed _ _ Hr).
  set (u := cstr (text c)).
  rewrite (current_length_spec s c Hr). fold u. cbn [mbind option_bind]. pose proof (cstr_length_le (text c)) as Hu. fold u in Hu.
  assert (En : u64 (Z.of_nat (length u) + blen b) = blen (u ++ b)).
  { rewrite blen_app, u64_id; [done|]. unfold is_u64, blen, HALF in *. lia. }
  rewrite En. destruct (alloc o) as [created o1] eqn:Eo.
  apply (answers_nil _ o o1); [intros ->; by injection Eo|].
  apply (reserve_then s c _ (length u) o1); [done|size..| |].
  - intros o' _. by do 2 eexists.
  - intros s' d' o' H. destruct (nul_placed s s' c _ d' H (blen_nonneg _)) as (tail & E & El). fold u in E, El.
    set (s1 := installed s' (Some d') _). change (ss_data s1) with (Some d'). cbv iota.
    rewrite E. cbn [mbind option_bind].
    unfold strcat. rewrite strlen_nul, (cstr_idem (text c) : cstr u = u). cbn [mbind option_bind].
    destruct (write_back u (0 :: tail) b) as (rest & -> & El').
    { pose proof (rv_room _ _ _ _ _ _ H) as Hroom. rewrite blen_app in Hroom. unfold blen in Hroom.
      rewrite length_app in El. cbn [length] in *. lia. }
    exists (u ++ b ++ 0 :: rest), rest. split; [done|]. split; [congruence|]. by rewrite app_assoc.
Qed.

Lemma escape_byte_length c : (1 <= length (escape_byte c) <= 6)%nat.
Proof. unfold escape_byte. repeat case_match; lengths; lia. Qed.
Lemma html_escape_length b : (length (html_escape b) <= 6 * length b)%nat.
Proof.
  induction b as [|c b IH]; [done|]. unfold html_escape in *. cbn [map concat].
  rewrite length_app. pose proof (escape_byte_length c). cbn [length]. lia.
Qed.

Lemma escape_loop_spec data : forall a tail,
  (length (html_escape data) <= length tail)%nat ->
  escape_loop (a ++ tail) (length a) data =
    Some (a ++ html_escape data ++ drop (length (html_escape data)) tail,
          (length a + length (html_escape data))%nat).
Proof.
  induction data as [|c data IH]; intros a tail H; unfold html_escape in *; cbn [map concat escape_loop] in *.
  { cbn. by rewrite Nat.add_0_r, drop_0. }
  rewrite length_app in H. rewrite mem_write_behind by lia. cbn [mbind option_bind].
  rewrite app_assoc, <- length_app, IH by (rewrite length_drop; lia).
  rewrite drop_drop, !length_app, <- !app_assoc. by rewrite Nat.add_assoc.
Qed.

Lemma append_escaped_answers s c b o :
  ss_repr s c -> blen (text c) + 6 * blen b + 1 <= HALF ->
  answers (unless_fail c (cstr (text c) ++ html_escape b)) o (append_escaped_copied junk s (Some b) o).
Proof.
  intros Hr Hb. unfold append_escaped_copied. rewrite (sr_fixed _ _ Hr).
  set (u := cstr (text c)). rewrite (current_length_spec s c Hr). fold u. cbn [mbind option_bind].
  pose proof (cstr_length_le (text c)) as Hu. fold u in Hu. pose proof (html_escape_length b) as Hh.
  rewrite u64_id by (unfold is_u64; size).
  apply (reserve_then s c _ (length u) o); [done|size..| |].
  - intros o' _. destruct (alloc o') as [created o'']. by exists (SsJson created), o''.
  - intros s' d' o' H. destruct (rv_prefix _ _ _ _ _ _ H) as [tail Ed].
    unfold u in Ed. rewrite cstr_take_self in Ed. fold u in Ed.
    pose proof (rv_room _ _ _ _ _ _ H) as Hroom. unfold blen in Hroom. rewrite Ed, length_app in Hroom.
    rewrite Ed, escape_loop_spec by lia. cbn [mbind option_bind].
    rewrite app_assoc, <- length_app, mem_write_behind by (rewrite length_drop; cbn; lia).
    cbn [mbind option_bind]. do 2 eexists. split; [done|]. split; [|done].
    rewrite !length_app. cbn [length]. rewrite !length_drop. lia.
Qed.

Lemma append_len_answers s c p len o :
  ss_repr s c -> op_ok s c o (OpAppendLen p len) ->
  answers (fun fail => ss_spec fail (OpAppendLen p len) c) o (cwist_sstring_append_len junk s p len o).
Proof.
  intros Hr [Hb Hp]. unfold cwist_sstring_append_len. cbn [ss_spec].
  destruct (Nat.eqb_spec len 0) as [->|Hl0]; [by eapply answers_okay|].
  assert (Hcopied : forall data o1, length data = len ->
    answers (unless_fail c (text c ++ data)) o1 (append_len_copied junk s data o1)).
  { intros data o1 El. unfold append_len_copied. rewrite (proj1 (sr_size _ _ Hr)).
    rewrite u64_id by (unfold is_u64; size). rewrite <- blen_app, !(Nat2Z.id (length _) : Z.to_nat (blen _) = _).
    apply (reserve_then s c _ (length (text c)) o1); [done|size..| |].
    - intros o' _. destruct (alloc o') as [created o'']. by exists (SsJson created), o''.
    - intros s' d' o' H. destruct (rv_prefix _ _ _ _ _ _ H) as [tail Ed]. rewrite take_ge in Ed by lia.
      pose proof (rv_room _ _ _ _ _ _ H) as Hroom. unfold blen in Hroom. rewrite Ed, length_app in Hroom.
      rewrite length_app in Hroom. rewrite Ed, mem_write_behind by lia. cbn [mbind option_bind].
      rewrite app_assoc, mem_write_behind by (rewrite length_drop; cbn; lia). cbn [mbind option_bind].
      do 2 eexists. split; [done|]. split; [|done].
      rewrite !length_app. cbn [length]. rewrite !length_drop. lia. }
  destruct p as [|b|off].
  - by eapply answers_okay.
  - rewrite mem_read_at by lia. cbn [mbind option_bind]. unfold sub. rewrite drop_0.
    apply Hcopied. rewrite length_take. lia.
  - destruct Hp as (t & -> & Hoff). destruct (repr_data s t Hr) as [rest Ed]. rewrite Ed.
    cbn [mbind option_bind]. rewrite mem_read_at by (rewrite length_app; lia). cbn [mbind option_bind].
    unfold sstring_aliases. rewrite Ed, (proj1 (sr_size _ _ Hr)), (proj2 (Z.ltb_lt _ _)) by (cbn; unfold blen; lia).
    assert (E : sub (t ++ 0 :: rest) off len = sub t off len).
    { unfold sub. rewrite drop_app_le, take_app_le by (rewrite ?length_drop; lia). done. }
    rewrite E. destruct (alloc o) as [[|] o'] eqn:Eo.
    + eapply answers_nil; [|apply Hcopied]; [intros ->; by injection Eo|].
      unfold sub. rewrite length_take, length_drop. cbn. lia.
    + exists true, ERR_SSTRING_RESIZE_TOO_LARGE, s, o'. split; [done|]. by split; [intros ->|].
Qed.

(** ** Trimming *)

Lemma repr_cstr s t : ss_repr s (Some t) -> exists rest, s.(ss_data) = Some (cstr t ++ 0 :: rest).
Proof.
  intros Hr. destruct (repr_data s t Hr) as [rest Ed]. destruct (cstr_front t) as [r2 E].
  exists (r2 ++ rest). rewrite Ed. f_equal. change (0 :: rest) with ([0] ++ rest).
  by rewrite app_assoc, E, <- app_assoc.
Qed.
Lemma strlen_cstr t rest : strlen (cstr t ++ 0 :: rest) = Some (length (cstr t)).
Proof. by rewrite strlen_nul, cstr_idem. Qed.

(** New contents in the memory the string owns. *)
Lemma repr_overwrite s s' t d d' t' rest :
  ss_repr s (Some t) -> s.(ss_borrows) = false -> s.(ss_data) = Some d ->
  length d' = length d -> d' = t' ++ 0 :: rest -> blen t' <= HALF ->
  s' = s <| ss_data := Some d' |> <| ss_size := blen t' |> -> ss_repr s' (Some t').
Proof.
  intros [Hf Hs Hc Hl Hd] Hb Ed El -> Ht ->. rewrite Ed, Hb in Hd. split; cbn; try done.
  rewrite Hb. split; [by eexists|]. unfold blen in *. rewrite El. apply Hd.
Qed.

Lemma ltrim_start_le u : (ltrim_start u <= length u)%nat.
Proof. induction u as [|c u IH]; cbn; [lia|]. destruct (is_space c); lia. Qed.

(** A suffix of the text, with its NUL. *)
Lemma read_suffix u rest n :
  (n <= length u)%nat -> mem_read (u ++ 0 :: rest) n (length u - n + 1) = Some (drop n u ++ [0]).
Proof.
  intros H. rewrite mem_read_at by (rewrite length_app; cbn; lia). unfold sub.
  by rewrite drop_app_le, <- length_drop, take_app_add by done.
Qed.

(** In owned memory nothing can be refused. *)
Lemma ltrim_owned s t o :
  ss_repr s (Some t) -> s.(ss_borrows) = false ->
  exists s', cwist_sstring_ltrim junk s o = Some (ERR_SSTRING_OKAY, s', o) /\
    ss_repr s' (Some (if (ltrim_start (cstr t) =? 0)%nat then t else drop (ltrim_start (cstr t)) (cstr t))).
Proof.
  intros Hr Hb. destruct (repr_cstr s t Hr) as [rest Ed]. unfold cwist_sstring_ltrim.
  rewrite Ed, strlen_cstr. cbn [mbind option_bind]. rewrite take_app_length.
  set (u := cstr t) in *. pose proof (ltrim_start_le u) as Hs.
  assert (Hu : blen u <= HALF).
  { pose proof (sr_size _ _ Hr). pose proof (cstr_length_le t). fold u in H0. cbn in H. unfold blen in *. lia. }
  destruct (Nat.ltb_spec 0 (ltrim_start u)) as [H|H].
  2: { exists s. by replace (ltrim_start u) with 0%nat by lia. }
  replace (ltrim_start u =? 0)%nat with false by (symmetry; apply Nat.eqb_neq; lia).
  rewrite read_suffix by done. cbn [mbind option_bind]. rewrite Hb.
  destruct (write_front (u ++ 0 :: rest) (drop (ltrim_start u) u)) as (r2 & -> & El).
  { unfold blen. rewrite length_app, length_drop. cbn. lia. }
  cbn [mbind option_bind]. eexists. split; [done|].
  eapply (repr_overwrite s _ t _ _ _ r2 Hr Hb Ed El eq_refl).
  - unfold blen in *. rewrite length_drop. lia.
  - unfold blen. by rewrite length_drop.
Qed.
Lemma ltrim_answers s c o :
  ss_repr s c -> answers (fun fail => ss_spec fail OpLtrim c) o (cwist_sstring_ltrim junk s o).
Proof.
  intros Hr. destruct c as [t|].
  2: { unfold cwist_sstring_ltrim. rewrite (repr_none s Hr). by exists false, ERR_SSTRING_NULL_STRING, s, o. }
  cbn [ss_spec]. destruct (ss_borrows s) eqn:Hb.
  2: { destruct (ltrim_owned s t o Hr Hb) as (s' & -> & Hr').
       exists false, ERR_SSTRING_OKAY, s', o. split; [done|]. split; [done|].
       by destruct (ltrim_start (cstr t) =? 0)%nat. }
  destruct (repr_cstr s t Hr) as [rest Ed]. unfold cwist_sstring_ltrim.
  rewrite Ed, strlen_cstr. cbn [mbind option_bind]. rewrite take_app_length.
  pose proof (ltrim_start_le (cstr t)) as Hs. pose proof (cstr_length_le t). pose proof (sr_size _ _ Hr) as [Esz Hsz].
  set (u := cstr t) in *. cbn in Esz. destruct (Nat.eqb_spec (ltrim_start u) 0) as [E0|E0].
  { rewrite E0. by eapply answers_okay. }
  rewrite (proj2 (Nat.ltb_lt 0 _)) by lia.
  rewrite read_suffix by done. cbn [mbind option_bind]. rewrite Hb.
  rewrite <- length_drop.
  apply (reserve_then s (Some t) _ 0 o (drop (ltrim_start u) u)); unfold blen in *; rewrite ?length_drop;
    [done|unfold HALF in *; lia..| |].
  - intros o' _. by exists ERR_SSTRING_NULL_STRING, o'.
  - intros s' d' o' Hv. destruct (write_front d' (drop (ltrim_start u) u)) as (r2 & E2 & El).
    { pose proof (rv_room _ _ _ _ _ _ Hv). unfold blen in *. rewrite length_drop. lia. }
    rewrite E2. cbn [mbind option_bind]. rewrite <- length_drop. by do 2 eexists.
Qed.

Lemma rtrim_end_le u n : (rtrim_end u n <= n)%nat.
Proof. induction n as [|n IH]; cbn [rtrim_end]; [done|]. destruct (is_space _); lia. Qed.
Lemma rtrim_end_app u x n : (n <= length u)%nat -> rtrim_end (u ++ x) n = rtrim_end u n.
Proof.
  induction n as [|n IH]; intros H; cbn [rtrim_end]; [done|]. rewrite rd_app_l by lia.
  destruct (is_space _); [apply IH; lia|done].
Qed.

(** Trimming the end leaves owned memory, or nothing was there to trim. *)
Lemma rtrim_cases s t o :
  ss_repr s (Some t) -> cstr t <> [] ->
  refused s o (cwist_sstring_rtrim junk s o) \/
  detached (rtrim_text (cstr t)) o (cwist_sstring_rtrim junk s o).
Proof.
  intros Hr Hne. destruct (repr_cstr s t Hr) as [rest Ed]. unfold cwist_sstring_rtrim.
  rewrite Ed, strlen_cstr. cbn [mbind option_bind].
  pose proof (cstr_take_self t) as Et. pose proof (cstr_length_le t). pose proof (sr_size _ _ Hr) as [Esz Hsz].
  set (u := cstr t) in *. cbn in Esz. rewrite (proj2 (Nat.eqb_neq _ _)) by (by destruct u).
  rewrite rtrim_end_app by done. unfold rtrim_text. pose proof (rtrim_end_le u (length u)) as Hle.
  set (n := rtrim_end u (length u)) in *.
  assert (En : Z.of_nat n = blen (take n u)) by (unfold blen; rewrite length_take; lia).
  destruct (ss_borrows s) eqn:Hb.
  - apply (ss_reserve_cases s (Some t) _ n o (take n u)); [done|cbn; unfold blen, HALF in *; lia..| |].
    + intros o' _. by exists ERR_SSTRING_NULL_STRING, o'.
    + intros s' d' o' Hv. destruct (rv_prefix _ _ _ _ _ _ Hv) as [tail E]. cbn in E.
      assert (Etn : take n t = take n u) by (rewrite <- Et, take_take; f_equal; lia).
      pose proof (rv_room _ _ _ _ _ _ Hv) as Hroom. rewrite E, Etn, blen_app in Hroom. unfold blen in Hroom, En.
      rewrite E, Etn, (mem_write_behind' (take n u)) by (cbn; lia). cbn [mbind option_bind]. rewrite En.
      do 2 eexists. split; [done|]. split; [|done]. rewrite !length_app. cbn [length]. rewrite length_drop. cbn. lia.
  - right. cbn [mbind option_bind].
    assert (Eu : u ++ 0 :: rest = take n u ++ (drop n u ++ 0 :: rest)) by (by rewrite app_assoc, take_drop).
    unfold blen in En. rewrite Eu, (mem_write_behind' (take n u)) by (rewrite ?length_app; cbn; lia). cbn [mbind option_bind].
    do 2 eexists. split; [done|]. split; [done|]. split; [|done].
    refine (repr_overwrite s _ t _ _ (take n u) (drop 1 (drop n u ++ 0 :: rest)) Hr Hb Ed _ eq_refl _ _);
      [|unfold blen in *; lia|].
    + rewrite Eu, !length_app. cbn [length]. rewrite length_drop, length_app. cbn. lia.
    + unfold installed. destruct s. cbn in *. by rewrite Hb, En.
Qed.
Lemma rtrim_empty s t o :
  ss_repr s (Some t) -> cstr t = [] -> cwist_sstring_rtrim junk s o = Some (ERR_SSTRING_OKAY, s, o).
Proof.
  intros Hr E. destruct (repr_cstr s t Hr) as [rest Ed]. unfold cwist_sstring_rtrim.
  rewrite Ed, strlen_cstr. by rewrite E.
Qed.
Lemma rtrim_answers s c o :
  ss_repr s c -> answers (fun fail => ss_spec fail OpRtrim c) o (cwist_sstring_rtrim junk s o).
Proof.
  intros Hr. destruct c as [t|].
  2: { unfold cwist_sstring_rtrim. rewrite (repr_none s Hr). by exists false, ERR_SSTRING_NULL_STRING, s, o. }
  cbn [ss_spec]. destruct (cstr t) as [|b u] eqn:Eu.
  - rewrite (rtrim_empty s t o Hr Eu). by eapply answers_okay.
  - rewrite <- Eu. rewrite (proj2 (Nat.eqb_neq _ _)) by (by rewrite Eu).
    apply (cases_answers s); [done|]. apply rtrim_cases; [done|by rewrite Eu].
Qed.

Lemma trim_answers s c o :
  ss_repr s c -> answers (fun fail => ss_spec fail OpTrim c) o (cwist_sstring_trim junk s o).
Proof.
  intros Hr. unfold cwist_sstring_trim. destruct c as [t|].
  2: { unfold cwist_sstring_rtrim. rewrite (repr_none s Hr). cbn.
       by exists false, ERR_SSTRING_NULL_STRING, s, o. }
  cbn [ss_spec]. destruct (decide (cstr t = [])) as [Eu|Eu].
  - rewrite (rtrim_empty s t o Hr Eu). cbn [mbind option_bind]. rewrite bool_decide_true by done.
    pose proof (ltrim_answers s (Some t) o Hr) as H. cbn [ss_spec] in H. by rewrite Eu in H |- *.
  - rewrite (proj2 (Nat.eqb_neq _ _)) by (by destruct (cstr t)).
    destruct (rtrim_cases s t o Hr Eu) as [(e & o' & -> & He & Ho)|(s' & o' & -> & Ho & Hs & Hb)].
    + cbn [mbind option_bind]. rewrite bool_decide_false by done. apply (cases_answers s); [done|].
      left. by exists e, o'.
    + cbn [mbind option_bind]. rewrite bool_decide_true by done.
      destruct (ltrim_owned s' _ o' Hs Hb) as (s2 & -> & Hs2).
      exists false, ERR_SSTRING_OKAY, s2, o'. split; [done|]. split; [auto|]. split; [done|].
      assert (Ec : cstr (rtrim_text (cstr t)) = rtrim_text (cstr t)) by apply cstr_take, cstr_idem.
      rewrite Ec in Hs2. cbn. destruct (Nat.eqb_spec (ltrim_start (rtrim_text (cstr t))) 0) as [E|]; [|done].
      by rewrite E, drop_0.
Qed.

(** ** Resizing, borrowing and adopting *)

Lemma reserve_not_refused s needed keep o s' o' :
  keeps_buffer s needed = true \/ (alloc o).1 = true ->
  cwist_sstring_reserve junk s needed keep o = Some (None, s', o') -> False.
Proof.
  unfold cwist_sstring_reserve. destruct (keeps_buffer s needed) eqn:Ek.
  - intros _ H. injection H as E _ _. unfold keeps_buffer in Ek. rewrite E in Ek.
    by rewrite andb_false_r in Ek.
  - intros [|Ha]; [done|]. destruct (alloc o) as [ok o1]. cbn [fst] in Ha. subst ok. cbn [negb].
    destruct (ss_borrows s); [|done]. by destruct (_ : option bytes).
Qed.

Lemma change_size_answers s c n blow o :
  ss_repr s c -> op_ok s c o (OpChangeSize n blow) ->
  answers (fun fail => ss_spec fail (OpChangeSize n blow) c) o (cwist_sstring_change_size junk s n blow o).
Proof.
  intros Hr (Hn & Ec & Hn0). unfold cwist_sstring_change_size. rewrite (sr_fixed _ _ Hr).
  rewrite (current_length_spec s c Hr), Ec. cbn [mbind option_bind ss_spec].
  pose proof (sr_size _ _ Hr) as [Esz Hsz]. set (t := text c) in *.
  destruct ((n <? length t)%nat && negb blow).
  { destruct (alloc o) as [created o'] eqn:Eo. exists false, (SsJson created), s, o'.
    split; [done|]. split; [intros ->; by injection Eo|]. done. }
  assert (Hk : (Nat.min (length t) n <= length t)%nat) by lia.
  apply (reserve_then s c _ (Nat.min (length t) n) o (take n t)); [done|unfold HALF in *; lia|done|lia| | |].
  - unfold blen in *. rewrite length_take. lia.
  - intros o' Href. destruct Hn0 as [Hn0|Hn0].
    2: { destruct (Nat.eq_dec n O) as [->|]; [by destruct (reserve_not_refused _ _ _ _ _ _ Hn0 Href)|].
         rewrite (proj2 (Nat.ltb_lt 0 n)) by lia. by exists ERR_SSTRING_RESIZE_TOO_LARGE, o'. }
    rewrite (proj2 (Nat.ltb_lt 0 n)) by lia. by exists ERR_SSTRING_RESIZE_TOO_LARGE, o'.
  - intros s' d' o' Hv. pose proof (rv_room _ _ _ _ _ _ Hv) as Hroom.
    destruct (rv_prefix _ _ _ _ _ _ Hv) as [tail Ed]. fold t in Ed.
    assert (El : length d' = (Nat.min (length t) n + length tail)%nat).
    { rewrite Ed, length_app, length_take. lia. }
    unfold blen in Hroom. destruct (Nat.ltb_spec n (length t)).
    + rewrite Nat.min_r in Ed by lia. rewrite Ed, (mem_write_behind' (take n t)) by (rewrite ?length_take; cbn; lia).
      cbn [mbind option_bind]. replace (Z.of_nat n) with (blen (take n t)) by (unfold blen; rewrite length_take; lia).
      do 2 eexists. split; [done|]. split; [|done].
      rewrite !length_app. cbn [length]. rewrite length_drop. cbn. lia.
    + rewrite Nat.min_l, take_ge in Ed by lia. rewrite take_ge by lia. rewrite (rv_size _ _ _ _ _ _ Hv), Esz.
      destruct ((length t =? 0)%nat || ss_borrows s) eqn:Ew.
      * rewrite Ed, (mem_write_behind' t) by (cbn; lia). cbn [mbind option_bind].
        do 2 eexists. split; [done|]. split; [|done].
        rewrite !length_app. cbn [length]. rewrite length_drop. cbn. lia.
      * destruct (rv_nul _ _ _ _ _ _ Hv) as [tail2 Ed2].
        { destruct c; [done|]. by cbn in Ew. }
        { fold t. rewrite Nat.min_l by lia. by apply list_lookup_middle. }
        fold t in Ed2. rewrite Nat.min_l, take_ge in Ed2 by lia. by exists d', tail2.
Qed.

Lemma borrowed_repr s d len :
  d !! len = Some 0 -> Z.of_nat len <= HALF -> ss_repr (borrowed s d (Z.of_nat len)) (Some (take len d)).
Proof.
  intros Hd Hl. pose proof (take_drop_middle d len 0 Hd) as E. apply lookup_lt_Some in Hd.
  split; cbn; try done.
  - unfold blen. rewrite length_take. lia.
  - rewrite <- E. rewrite take_app_length' by (rewrite length_take; lia). split; [by eexists|done].
Qed.
Lemma borrow_answers s c p len o :
  ss_repr s c -> op_ok s c o (OpBorrow p len) ->
  answers (fun fail => ss_spec fail (OpBorrow p len) c) o
    (s ← cwist_sstring_borrow s p len; Some (ERR_SSTRING_OKAY, s, o)).
Proof.
  intros Hr [Hl Hp]. destruct p as [|d|off]; cbn [cwist_sstring_borrow].
  - eapply answers_okay; [|done]. cbn [spec_bytes]. rewrite take_nil.
    split; cbn; try done. split; [by exists []|done].
  - eapply answers_okay; [by apply borrowed_repr|done].
  - destruct Hp as (Hb & t & -> & Hz). destruct (repr_data s t Hr) as [rest Ed]. rewrite Ed, Hb. cbn [mbind option_bind].
    assert (Hlt : (off + len <= length t)%nat).
    { apply lookup_lt_Some in Hz. rewrite length_app in Hz. cbn in Hz. lia. }
    assert (Hd : drop off (t ++ 0 :: rest) !! len = Some 0).
    { rewrite lookup_drop. destruct (decide (off + len < length t)%nat).
      - rewrite lookup_app_l in Hz |- * by done. done.
      - replace (off + len)%nat with (length t) by lia. by apply list_lookup_middle. }
    eapply answers_okay; [by apply borrowed_repr|]. cbn [ss_spec spec_bytes text default]. do 2 f_equal.
    rewrite drop_app_le by lia. by rewrite take_app_le by (rewrite length_drop; lia).
Qed.

Lemma adopt_answers s c p off len o :
  ss_repr s c -> op_ok s c o (OpAdoptRegion p off len) ->
  answers (fun fail => ss_spec fail (OpAdoptRegion p off len) c) o
    (s ← cwist_sstring_adopt_region s p off len; Some (ERR_SSTRING_OKAY, s, o)).
Proof.
  intros Hr Hok. unfold cwist_sstring_adopt_region. destruct p as [|b|]; cbn [op_ok] in Hok; [|  |done].
  - eapply answers_okay; [|done]. destruct Hr. split; cbn; try done; unfold blen, HALF; cbn; lia.
  - destruct Hok as [Hl Hb]. rewrite mem_write_at by (cbn; lia). cbn [mbind option_bind length].
    eapply answers_okay; [|done]. cbn [spec_bytes].
    assert (Eo : length (take off b) = off) by (rewrite length_take; lia).
    unfold sub. rewrite <- take_take_drop, <- app_assoc, drop_app_length', take_app_length' by done.
    unfold blen in *. split; cbn.
    + apply (sr_fixed _ _ Hr).
    + unfold blen. rewrite length_take, length_drop. lia.
    + unfold HALF. lia.
    + unfold blen. rewrite Eo. lia.
    + split; [by eexists|]. unfold blen. rewrite length_app. cbn. lia.
Qed.

(** ** One operation *)

(** Each operation, on an argument of its own or a part of the string. *)
Lemma apply_answers op s c o :
  ss_repr s c -> op_ok s c o op ->
  answers (fun fail => ss_spec fail op c) o (ss_apply junk op s o).
Proof.
  intros Hr Hok. destruct op as [p|b len|p|p len|p|b len|b off len| | | |n blow]; cbn [ss_apply].
  - cbn in Hok. apply (with_copy_answers _ s c p o (fun data => unless_fail c (text data)) Hr Hok); [done|].
    intros o'. apply assign_answers; [done|]. destruct Hok as [H _]. unfold blen in *. lia.
  - by apply assign_len_answers.
  - cbn in Hok.
    pose proof (with_copy_answers (append_copied junk) s c p o
      (fun data fail => match data with None => (true, c) | Some b => unless_fail c (cstr (text c) ++ b) fail end)
      Hr Hok ltac:(done)) as H.
    cbn [ss_spec]. destruct (spec_source c p) as [b|] eqn:Ep; apply H; intros o'.
    + apply append_answers; [done|]. destruct Hok as [H' _]. by rewrite Ep in H'.
    + by eapply answers_okay.
  - by apply append_len_answers.
  - cbn in Hok.
    pose proof (with_copy_answers (append_escaped_copied junk) s c p o
      (fun data fail => match data with None => (true, c) | Some b => unless_fail c (cstr (text c) ++ html_escape b) fail end)
      Hr Hok ltac:(done)) as H.
    cbn [ss_spec]. destruct (spec_source c p) as [b|] eqn:Ep; apply H; intros o'.
    + apply append_escaped_answers; [done|]. destruct Hok as [H' _]. by rewrite Ep in H'.
    + by eapply answers_okay.
  - by apply borrow_answers.
  - by apply adopt_answers.
  - by apply ltrim_answers.
  - by apply rtrim_answers.
  - by apply trim_answers.
  - by apply change_size_answers.
Qed.
End Operations.

(** ** Reading *)

Definition take_text (start len : Z) (u : bytes) : bytes :=
  take (Z.to_nat len) (drop (Z.to_nat start) u).

(** What the reading calls say of a string with contents [c]. *)
Record ss_reads (s : sstring) (c : option bytes) : Prop := {
  rd_size : cwist_sstring_get_size s = blen (text c);
  rd_copy : cwist_sstring_copy s =
    Some (match c with None => (ERR_SSTRING_NULL_STRING, []) | Some t => (ERR_SSTRING_OKAY, cstr t ++ [0]) end);
  rd_seek location : cwist_sstring_seek s location =
    Some (match c with
          | None => (ERR_SSTRING_NULL_STRING, [])
          | Some t =>
              if (0 <=? location) && (location <? blen (cstr t))
              then (ERR_SSTRING_OKAY, drop (Z.to_nat location) (cstr t) ++ [0])
              else (ERR_SSTRING_OUTOFBOUND, [])
          end);
  rd_compare other : cwist_sstring_compare (Some s) other =
    Some (strcmp (cstr (text c)) (default [] other));
  rd_substr start len : len < INT_MAX -> exists r, cwist_sstring_substr s start len [] = Some (r, []) /\
    if (0 <=? start) && (start <? blen (cstr (text c))) && (0 <=? len)
    then exists r', r = Some r' /\ ss_repr r' (Some (take_text start len (cstr (text c))))
    else r = None }.

Lemma reads_agree s c : ss_repr s c -> ss_reads s c.
Proof.
  intros Hr. split.
  - apply (proj1 (sr_size _ _ Hr)).
  - unfold cwist_sstring_copy. destruct c as [t|].
    + destruct (repr_cstr s t Hr) as [rest ->]. rewrite strlen_cstr. cbn [mbind option_bind].
      by rewrite take_app_length.
    + by rewrite (repr_none s Hr).
  - intros l. unfold cwist_sstring_seek. destruct c as [t|].
    + destruct (repr_cstr s t Hr) as [rest ->]. rewrite strlen_cstr. cbn [mbind option_bind]. fold (blen (cstr t)).
      destruct (Z.ltb_spec l 0), (Z.leb_spec 0 l); try lia; [done|]. cbn [orb andb].
      destruct (Z.leb_spec (blen (cstr t)) l), (Z.ltb_spec l (blen (cstr t))); try lia; [done|].
      unfold blen in *. rewrite drop_app_le, strlen_nul, cstr_drop by (lia || apply cstr_idem).
      cbn [mbind option_bind]. unfold sub. rewrite drop_app_le by lia. by rewrite take_app_length.
    + by rewrite (repr_none s Hr).
  - intros other. unfold cwist_sstring_compare, sstring_as_text. destruct c as [t|].
    + destruct (repr_cstr s t Hr) as [rest ->]. rewrite strlen_cstr. cbn [mbind option_bind].
      by rewrite take_app_length.
    + by rewrite (repr_none s Hr).
  - intros start len Hint. unfold cwist_sstring_substr. destruct c as [t|].
    2: { rewrite (repr_none s Hr). eexists. split; [done|]. cbn [text default cstr]. unfold blen. cbn [length].
         destruct (Z.leb_spec 0 start), (Z.ltb_spec start (Z.of_nat 0)); try lia; done. }
    destruct (repr_cstr s t Hr) as [rest ->]. change (text (Some t)) with t. rewrite strlen_cstr.
    cbn [mbind option_bind]. fold (blen (cstr t)). pose proof (sr_size _ _ Hr) as [Esz Hsz]. cbn in Esz.
    pose proof (cstr_length_le t). set (u := cstr t) in *.
    destruct (Z.ltb_spec start 0), (Z.leb_spec 0 start); try lia; cbn [orb andb]; [by eexists|].
    destruct (Z.ltb_spec len 0), (Z.leb_spec 0 len); try lia; rewrite ?andb_true_r, ?andb_false_r; [by eexists|].
    destruct (Z.leb_spec (blen u) start), (Z.ltb_spec start (blen u)); try lia; [by eexists|].
    cbn [cwist_sstring_create alloc]. set (n := if _ <? len then _ else len).
    assert (Hn : n = Z.min len (blen u - start)) by (unfold n; destruct (Z.ltb_spec (blen u - start) len); lia).
    clearbody n. unfold blen, INT_MAX in *. rewrite (proj2 (Z.eqb_neq n _)) by lia.
    assert (El : length (take_text start len u) = Z.to_nat n).
    { unfold take_text. rewrite length_take, length_drop. lia. }
    assert (E : sub (u ++ 0 :: rest) (Z.to_nat start) (Z.to_nat n) = take_text start len u).
    { unfold sub, take_text. rewrite drop_app_le, take_app_le by (rewrite ?length_drop; lia).
      destruct (Z.leb_spec len (Z.of_nat (length u) - start)); [by replace n with len by lia|].
      rewrite !take_ge; [done|rewrite length_drop; lia..]. }
    rewrite mem_read_at, E by (rewrite length_app; cbn; lia). cbn [mbind option_bind].
    rewrite mem_write_at by (rewrite length_replicate, El; lia). cbn [mbind option_bind].
    rewrite take_0. cbn [app]. rewrite (mem_write_behind' (take_text start len u))
      by (rewrite ?length_drop, ?length_replicate; cbn; lia).
    cbn [mbind option_bind]. eexists. split; [done|]. eexists. split; [done|].
    split; cbn; unfold blen, HALF in *; rewrite ?El; try done; try lia.
    split; [by eexists|]. rewrite length_app, El. cbn [length]. lia.
Qed.

(** ** Runs *)

Fixpoint ss_run (junk : nat -> Z) (ops : list ss_op) (s : sstring) (o : oracle)
  : option (list bool * sstring * oracle) :=
  match ops with
  | [] => Some ([], s, o)
  | op :: ops =>
      '(e, s, o) ← ss_apply junk op s o;
      '(rs, s, o) ← ss_run junk ops s o;
      Some (bool_decide (e = ERR_SSTRING_OKAY) :: rs, s, o)
  end.

(** The same calls on the contents; [fails] says which had an allocation refused. *)
Fixpoint ss_spec_run (fails : list bool) (ops : list ss_op) (c : option bytes)
  : list bool * option bytes :=
  match ops, fails with
  | op :: ops, fail :: fails =>
      let (ok, c) := ss_spec fail op c in
      let (oks, c) := ss_spec_run fails ops c in (ok :: oks, c)
  | _, _ => ([], c)
  end.

(** Each call is one its caller may make of the contents it finds. *)
Fixpoint ops_ok (junk : nat -> Z) (ops : list ss_op) (s : sstring) (o : oracle) : Prop :=
  match ops with
  | [] => True
  | op :: ops =>
      op_ok s (ss_content s) o op /\
      match ss_apply junk op s o with Some (_, s, o) => ops_ok junk ops s o | None => True end
  end.

Lemma ss_run_spec junk ops : forall s c o,
  ss_repr s c -> ops_ok junk ops s o ->
  exists fails rs s' o', ss_run junk ops s o = Some (rs, s', o') /\ length fails = length ops /\
    (o = [] -> fails = replicate (length ops) false /\ o' = []) /\
    (ss_spec_run fails ops c).1 = rs /\ ss_repr s' (ss_spec_run fails ops c).2.
Proof.
  induction ops as [|op ops IH]; intros s c o Hr Hok; cbn [ss_run].
  { by exists [], [], s, o. }
  destruct Hok as [Hop Hrest]. rewrite (ss_repr_content _ _ Hr) in Hop.
  destruct (apply_answers junk op s c o Hr Hop) as (fail & e & s1 & o1 & E & Ho & He & Hr1).
  rewrite E in Hrest |- *. cbn [mbind option_bind]. destruct (IH s1 _ o1 Hr1 Hrest) as (fails & rs & s2 & o2 & -> & Hl & Ho2 & Hrs & Hr2).
  cbn [mbind option_bind]. exists (fail :: fails). do 3 eexists. split; [done|]. split; [cbn; by rewrite Hl|].
  split.
  { intros Hnil. destruct (Ho Hnil) as [-> ?]. destruct Ho2 as [-> ?]; done. }
  cbn [ss_spec_run]. destruct (ss_spec fail op c) as [ok c'] eqn:Es. cbn [fst snd] in *.
  destruct (ss_spec_run fails ops c') as [oks c'']. cbn in *. by subst.
Qed.

(** C6: The growable string is memory safe and is its contents.  From
    [cwist_sstring_init], under any sequence of assignments, appends (plain,
    counted, HTML-escaped), borrowing, adoption of a region, trims and resizes that
    keeps to [op_ok], and whichever allocations fail and whatever grown memory
    holds: no call reads or writes outside an object, each answers success exactly
    when the same call on the contents does, and the string ends with the contents
    so computed, NUL-terminated inside the capacity it records.  With no
    allocation refused every call has its full effect.  Size, copy, seek, compare
    and substring read those contents.  Arguments may point into the string, and
    for assign and the appends anywhere in its contents.  [op_ok] leaves out what
    the source does not guard: a source in the string's own buffer given to
    [assign_len] (unless the buffer is borrowed, or stays and they do not overlap),
    to [borrow] (unless it is borrowed) or to be adopted; a resize of contents with
    a NUL, and one to zero that can be refused ([assign_len_own_buffer],
    [change_size_null_write]). *)
Theorem sstring_refines junk ops o :
  ops_ok junk ops sstring_init o ->
  exists fails rs s o', ss_run junk ops sstring_init o = Some (rs, s, o') /\
    length fails = length ops /\ (o = [] -> fails = replicate (length ops) false) /\
    rs = (ss_spec_run fails ops None).1 /\
    ss_content s = (ss_spec_run fails ops None).2 /\
    ss_repr s (ss_content s) /\ ss_reads s (ss_content s).
Proof.
  intros Hok. destruct (ss_run_spec junk ops _ _ o ss_init_repr Hok) as (fails & rs & s & o' & Hrun & Hl & Ho & Hrs & Hr).
  exists fails, rs, s, o'. rewrite (ss_repr_content _ _ Hr). split_and!; try done.
  - intros Hnil. by apply Ho.
  - by apply reads_agree.
Qed.

(** Where the source does not guard.  [assign_len], unlike [assign], does not look
    for a source in its own buffer: it reads released memory when the buffer moves
    (here the capacity of an adopted region is not known), copies between places
    that overlap when it does not, and [borrow] keeps a pointer to what it has just
    released. *)
Example assign_len_own_buffer :
  let own (op : ss_op) (call : sstring -> option (ss_error * sstring * oracle)) :=
    '(_, s, _) ← ss_apply (fun _ => 0) op sstring_init []; call s in
  own (OpAdoptRegion (SrcExt (bs "abcdef" ++ [0])) 0 6)
    (fun s => cwist_sstring_assign_len (fun _ => 0) s (SrcOwn 4) 2 []) = None /\
  own (OpAssign (SrcExt (bs "abcdef")))
    (fun s => cwist_sstring_assign_len (fun _ => 0) s (SrcOwn 1) 3 []) = None /\
  own (OpAssign (SrcExt (bs "abcdef")))
    (fun s => s ← cwist_sstring_borrow s (SrcOwn 1) 5; Some (ERR_SSTRING_OKAY, s, [])) = None.
Proof. vm_compute. auto. Qed.
(** A resize to nothing that is refused writes a NUL through
    NULL. *)
Example change_size_null_write :
  cwist_sstring_change_size (fun _ => 0) sstring_init 0 true [false] = None.
Proof. reflexivity. Qed.
(** With no memory for the error object either, a refused append is taken for
    a success. *)
Example refused_append_is_ok :
  let r := cwist_sstring_append (fun _ => 0) sstring_init (SrcExt (bs "a")) [false; false] in
  (fun r => (cwist_error_is_ok r.1.1, ss_content r.1.2)) <$> r = Some (true, None).
Proof. reflexivity. Qed.

(** ** A concrete run *)

Definition ss_demo : list ss_op :=
  [OpAssign (SrcExt (bs " a<b ")); OpTrim; OpAppendEscaped (SrcOwn 0); OpChangeSize 4 true;
   OpBorrow (SrcExt (bs "hello" ++ [0])) 5; OpBorrow (SrcOwn 1) 4; OpAppendLen (SrcOwn 1) 3; OpRtrim;
   OpAdoptRegion (SrcExt (bs "xx: yz..")) 4 2; OpAppend (SrcExt (bs "!"));
   OpAssign (SrcExt (bs "of its own")); OpAssignLen (SrcOwn 7) 3; OpChangeSize 0 true].
(** The append to the borrowed text is refused. *)
Definition ss_demo_oracle : oracle := [true; true; true; true; true; false].

Lemma sstring_refines_witness :
  exists fails rs s o', ss_run (fun _ => 7) ss_demo sstring_init ss_demo_oracle = Some (rs, s, o') /\
    length fails = length ss_demo /\ (ss_demo_oracle = [] -> fails = replicate (length ss_demo) false) /\
    rs = (ss_spec_run fails ss_demo None).1 /\
    ss_content s = (ss_spec_run fails ss_demo None).2 /\
    ss_repr s (ss_content s) /\ ss_reads s (ss_content s).
Proof.
  apply (sstring_refines (fun _ => 7) ss_demo ss_demo_oracle).
  vm_compute.
  repeat first [exact I | reflexivity | discriminate | (cbn; lia) | (eexists; split; [reflexivity|]) | split
    | (right; left; reflexivity) | (right; right; split; [reflexivity|split; [discriminate|cbn; lia]])].
Defined.
