(* ===== verification/Stun.v ===== *)
(** * STUN for the ICE-lite agent (net/webrtc/ice.c)

    Connectivity checks: the CRC-32 of FINGERPRINT, the walk over attributes,
    the readers of what a peer sent, and the writers of requests and responses.
    Reads of a datagram and writes of the local buffers are checked ([None] is
    out of bounds).  HMAC-SHA1 is OpenSSL's. *)

From S2P Require Import Prelude Memory Sha1.

(** ** The source *)

Definition STUN_MAGIC : Z := 0x2112A442.
Definition STUN_HDR_LEN : nat := 20.
Definition ATTR_USERNAME : Z := 0x0006.
Definition ATTR_MESSAGE_INTEGRITY : Z := 0x0008.
Definition ATTR_PRIORITY : Z := 0x0024.
Definition ATTR_USE_CANDIDATE : Z := 0x0025.
Definition ATTR_XOR_MAPPED_ADDRESS : Z := 0x0020.
Definition ATTR_FINGERPRINT : Z := 0x8028.
Definition ATTR_ICE_CONTROLLING : Z := 0x802A.
Definition CWIST_STUN_BINDING_REQUEST : Z := 0x0001.
Definition CWIST_STUN_BINDING_RESPONSE : Z := 0x0101.

(** One of the eight turns of the table's inner loop. *)
Definition crc32_turn (c : Z) : Z :=
  if negb (Z.land c 1 =? 0) then Z.lxor 0xEDB88320 (Z.shiftr c 1) else Z.shiftr c 1.
Definition crc32_entry (i : Z) : Z := Nat.iter 8 crc32_turn i.
(** The table, filled once. *)
Definition crc32_table : list Z := map (fun i => crc32_entry (Z.of_nat i)) (seq 0 256).
Definition crc32_byte (c b : Z) : Z :=
  Z.lxor (nth (Z.to_nat (Z.land (Z.lxor c b) 0xFF)) crc32_table 0) (Z.shiftr c 8).
Definition crc32_update (c : Z) (data : bytes) : Z := fold_left crc32_byte data c.

Definition rd32 (buf : bytes) (off : nat) : option Z :=
  p ← mem_read buf off 4;
  Some (Z.lor (Z.lor (Z.lor (u32 (Z.shiftl (rd p 0) 24)) (Z.shiftl (rd p 1) 16))
                     (Z.shiftl (rd p 2) 8)) (rd p 3)).
Definition rd16 (buf : bytes) (off : nat) : option Z :=
  p ← mem_read buf off 2; Some (u16 (Z.lor (Z.shiftl (rd p 0) 8) (rd p 1))).
Definition wr16 (v : Z) : bytes := [u8 (Z.shiftr v 8); u8 v].
Definition wr32 (v : Z) : bytes :=
  [u8 (Z.shiftr v 24); u8 (Z.shiftr v 16); u8 (Z.shiftr v 8); u8 v].

(** [body + blen] is written to and [blen] moved on; [cap] is the size of [body]. *)
Definition body_put (cap : nat) (body src : bytes) : option bytes :=
  if (length body + length src <=? cap)%nat then Some (body ++ src) else None.
(** [while (blen % 4) body[blen++] = 0;] *)
Definition body_pad (cap : nat) (body : bytes) : option bytes :=
  body_put cap body (replicate ((4 - length body mod 4) mod 4)%nat 0).
(** [(n + 3) & ~3u]. *)
Definition pad4 (n : Z) : nat := Z.to_nat (Z.land (u32 (n + 3)) 0xFFFFFFFC).

Definition cwist_ice_stun_is_message (buf : bytes) : option bool :=
  if (length buf <? STUN_HDR_LEN)%nat then Some false
  else magic ← rd32 buf 4; Some (magic =? STUN_MAGIC).
Definition cwist_ice_stun_is_binding_request (buf : bytes) : option bool :=
  ok ← cwist_ice_stun_is_message buf;
  if (ok : bool) then type ← rd16 buf 0; Some (type =? CWIST_STUN_BINDING_REQUEST) else Some false.

Section Walk.
Context {A : Type}.
(** Type, offset of the value, its length, the argument; whether to go on. *)
Context (cb : Z -> nat -> Z -> A -> option (bool * A)).

(** [while (off + 4 <= end)]: each turn moves four bytes on at least. *)
Fixpoint walk_loop (fuel : nat) (msg : bytes) (off stop : nat) (arg : A) : option (bool * A) :=
  match fuel with
  | O => Some ((off =? stop)%nat, arg)
  | S fuel =>
      if (off + 4 <=? stop)%nat then
        type ← rd16 msg off;
        alen ← rd16 msg (off + 2);
        let off := (off + 4)%nat in
        if (stop <? off + Z.to_nat alen)%nat then Some (false, arg)
        else
          '(go, arg) ← cb type off alen arg;
          if (go : bool) then walk_loop fuel msg (off + pad4 alen) stop arg else Some (false, arg)
      else Some ((off =? stop)%nat, arg)
  end.
Definition walk_attrs (msg : bytes) (arg : A) : option (bool * A) :=
  msg_len ← rd16 msg 2;
  if (length msg <? Z.to_nat msg_len + STUN_HDR_LEN)%nat || negb (msg_len mod 4 =? 0)
  then Some (false, arg)
  else walk_loop (length msg) msg STUN_HDR_LEN (STUN_HDR_LEN + Z.to_nat msg_len) arg.
End Walk.

(** The length found is not used. *)
Definition attr_find_cb (type_wanted type : Z) (val : nat) (val_len : Z) (found : bool)
  : option (bool * bool) :=
  if type =? type_wanted then Some (false, true) else Some (true, found).
Definition attr_present (msg : bytes) (type : Z) : option bool :=
  '(_, found) ← walk_attrs (attr_find_cb type) msg false; Some found.
Definition cwist_ice_stun_has_use_candidate (buf : bytes) : option bool :=
  attr_present buf ATTR_USE_CANDIDATE.

(** Offset of the attribute's header, and whether its length is 20. *)
Definition find_mi_cb (type : Z) (val : nat) (val_len : Z) (arg : option (nat * bool))
  : option (bool * option (nat * bool)) :=
  if negb (type =? ATTR_MESSAGE_INTEGRITY) then Some (true, arg)
  else Some (false, Some ((val - 4)%nat, val_len =? 20)).
Definition find_mi (msg : bytes) : option (option nat) :=
  ok ← cwist_ice_stun_is_message msg;
  if negb ok then Some None
  else
    '(_, arg) ← walk_attrs find_mi_cb msg None;
    Some (match arg with Some (off, true) => Some off | _ => None end).

(** Port and address in host order. *)
Record sockaddr_in := MkAddr { sin_port : Z; sin_addr : Z }.

Section Hmac.
(** OpenSSL's HMAC with [EVP_sha1]: key, then text. *)
Variable openssl_hmac_sha1 : bytes -> bytes -> bytes.

(** The calls succeed together or not. *)
Definition stun_hmac_sha1 (hdr body pwd : bytes) (o : oracle) : option bytes * oracle :=
  let out := openssl_hmac_sha1 pwd (hdr ++ body) in
  let (ok, o) := alloc o in (if ok && (length out =? 20)%nat then Some out else None, o).

Definition cwist_ice_stun_validate_request (buf pwd : bytes) (o : oracle) : option (bool * oracle) :=
  ok ← cwist_ice_stun_is_message buf;
  if negb ok then Some (false, o)
  else
    mi ← find_mi buf;
    match mi with
    | None => Some (false, o)
    | Some mi_off =>
        hdr ← mem_read buf 0 STUN_HDR_LEN;
        let hdr := blit hdr 2 (wr16 (u16 (Z.of_nat (mi_off - STUN_HDR_LEN + 4 + 20)))) in
        body ← mem_read buf STUN_HDR_LEN (mi_off - STUN_HDR_LEN);
        match stun_hmac_sha1 hdr body pwd o with
        | (None, o) => Some (false, o)
        | (Some hmac, o) => val ← mem_read buf (mi_off + 4) 20; Some (bool_decide (hmac = val), o)
        end
    end.

(** The response written to [out], or -1. *)
Definition cwist_ice_stun_build_response (cap : nat) (req : bytes) (mapped : sockaddr_in)
  (pwd : bytes) (o : oracle) : option (option bytes * oracle) :=
  if (length req <? STUN_HDR_LEN)%nat then Some (None, o)
  else
    body ← body_put 64 [] (wr16 ATTR_XOR_MAPPED_ADDRESS ++ wr16 8);
    body ← body_put 64 body [0; 1];
    body ← body_put 64 body (wr16 (u16 (Z.lxor mapped.(sin_port) 0xFFFF)));
    body ← body_put 64 body (wr32 (Z.lxor mapped.(sin_addr) STUN_MAGIC));
    body ← body_pad 64 body;
    let len_for_mi := u16 (blen body + 4 + 20) in
    txid ← mem_read req 8 12;
    let hdr := wr16 CWIST_STUN_BINDING_RESPONSE ++ wr16 len_for_mi ++ wr32 STUN_MAGIC ++ txid in
    match stun_hmac_sha1 hdr body pwd o with
    | (None, o) => Some (None, o)
    | (Some mi, o) =>
        body ← body_put 64 body (wr16 ATTR_MESSAGE_INTEGRITY ++ wr16 20);
        body ← body_put 64 body mi;
        let len_for_fp := u16 (blen body + 8) in
        let hdr2 := blit hdr 2 (wr16 len_for_fp) in
        let c := crc32_update 0xFFFFFFFF hdr2 in
        let c := crc32_update c body in
        let c := Z.lxor c 0xFFFFFFFF in
        body ← body_put 64 body (wr16 ATTR_FINGERPRINT ++ wr16 4 ++ wr32 (Z.lxor c 0x5354554E));
        if (cap <? STUN_HDR_LEN + length body)%nat then Some (None, o)
        else Some (Some (hdr2 ++ body), o)
    end.

(** [out] after the call, or -1; [txid] has 12 bytes. *)
Definition cwist_ice_stun_build_request (cap : nat) (txid username : bytes) : option (option bytes) :=
  let ulen := blen username in
  let username_attr_len := if ulen =? 0 then 0%nat else (4 + pad4 ulen)%nat in
  let fixed_attrs_len := (12 + 4 + 8)%nat in
  if (UINT16_MAX <? ulen) || (544 - fixed_attrs_len <? username_attr_len)%nat ||
     (cap <? STUN_HDR_LEN + username_attr_len + fixed_attrs_len)%nat
  then Some None
  else
    txid ← mem_read txid 0 12;
    body ← (if 0 <? ulen then
              body ← body_put 544 [] (wr16 ATTR_USERNAME ++ wr16 ulen);
              body ← body_put 544 body username;
              body_pad 544 body
            else Some []);
    body ← body_put 544 body (wr16 ATTR_ICE_CONTROLLING ++ wr16 8 ++ replicate 8 0);
    body ← body_put 544 body (wr16 ATTR_USE_CANDIDATE ++ wr16 0);
    body ← body_put 544 body (wr16 ATTR_PRIORITY ++ wr16 4 ++ wr32 0x7EFFFFFF);
    if (cap <? STUN_HDR_LEN + length body)%nat then Some None
    else
      Some (Some (wr16 CWIST_STUN_BINDING_REQUEST ++ wr16 (u16 (blen body)) ++ wr32 STUN_MAGIC ++
                  txid ++ body)).

(** The message, extended; [msg] is its first [msg_len] bytes. *)
Definition stun_sign (cap : nat) (msg pwd : bytes) (o : oracle) : option (option bytes * oracle) :=
  let msg_len := length msg in
  if (msg_len <? STUN_HDR_LEN)%nat || (cap <? msg_len)%nat then Some (None, o)
  else
    let len_for_mi := u16 (Z.of_nat (msg_len - STUN_HDR_LEN + 4 + 20)) in
    hdr ← mem_read msg 0 STUN_HDR_LEN;
    let hdr := blit hdr 2 (wr16 len_for_mi) in
    let rest := drop STUN_HDR_LEN msg in
    match stun_hmac_sha1 hdr rest pwd o with
    | (None, o) => Some (None, o)
    | (Some mi, o) =>
        body ← body_put 64 [] (wr16 ATTR_MESSAGE_INTEGRITY ++ wr16 20);
        body ← body_put 64 body mi;
        let len_for_fp := u16 (Z.of_nat (msg_len - STUN_HDR_LEN + length body + 8)) in
        let hdr2 := blit hdr 2 (wr16 len_for_fp) in
        let c := crc32_update 0xFFFFFFFF hdr2 in
        let c := crc32_update c rest in
        let c := crc32_update c body in
        let c := Z.lxor c 0xFFFFFFFF in
        body ← body_put 64 body (wr16 ATTR_FINGERPRINT ++ wr16 4 ++ wr32 (Z.lxor c 0x5354554E));
        if (cap <? msg_len + length body)%nat then Some (None, o)
        else Some (Some (hdr2 ++ rest ++ body), o)
    end.
Definition cwist_ice_stun_sign_request := stun_sign.

(** [mi_val] was set; the address. *)
Definition parse_resp_cb (msg : bytes) (type : Z) (val : nat) (val_len : Z)
  (arg : bool * option sockaddr_in) : option (bool * (bool * option sockaddr_in)) :=
  if type =? ATTR_MESSAGE_INTEGRITY then Some (true, (true, arg.2))
  else if (type =? ATTR_XOR_MAPPED_ADDRESS) && (8 <=? val_len) then
    port ← rd16 msg (val + 2);
    addr ← rd32 msg (val + 4);
    Some (true, (arg.1, Some (MkAddr (u16 (Z.lxor port 0xFFFF)) (Z.lxor addr STUN_MAGIC))))
  else Some (true, arg).

(** Accepted or not, and [*mapped] where it is asked for. *)
Definition cwist_ice_stun_parse_response (buf txid pwd : bytes) (mapped : bool) (o : oracle)
  : option (bool * option sockaddr_in * oracle) :=
  ok ← cwist_ice_stun_is_message buf;
  ok ← (if (ok : bool) then type ← rd16 buf 0; Some (type =? CWIST_STUN_BINDING_RESPONSE)
        else Some false);
  if negb ok then Some (false, None, o)
  else
    theirs ← mem_read buf 8 12;
    if negb (bool_decide (theirs = txid)) then Some (false, None, o)
    else
      '(ok, o) ← cwist_ice_stun_validate_request buf pwd o;
      if negb ok then Some (false, None, o)
      else
        '(ok, (mi, addr)) ← walk_attrs (parse_resp_cb buf) buf (false, None);
        if negb ok || negb mi then Some (false, None, o)
        else
          match mapped, addr with
          | true, None => Some (false, None, o)
          | true, Some a => Some (true, Some a, o)
          | false, _ => Some (true, None, o)
          end.
End Hmac.

(** [while (colon < alen && name[colon] != ':') colon++]: what follows the
    colon, if there is one. *)
Fixpoint after_colon (name : bytes) : option bytes :=
  match name with
  | [] => None
  | c :: name => if c =? 58 then Some name else after_colon name
  end.
(** The ufrag, without its NUL, or -1. *)
Fixpoint remote_ufrag_loop (fuel : nat) (buf : bytes) (off stop cap : nat) : option (option bytes) :=
  match fuel with
  | O => Some None
  | S fuel =>
      if (off + 4 <=? stop)%nat then
        type ← rd16 buf off;
        alen ← rd16 buf (off + 2);
        if type =? ATTR_USERNAME then
          if (stop <? off + 4 + Z.to_nat alen)%nat then Some None
          else
            name ← mem_read buf (off + 4) (Z.to_nat alen);
            Some (take (cap - 1) <$> after_colon name)
        else remote_ufrag_loop fuel buf (off + (4 + pad4 alen)) stop cap
      else Some None
  end.
Definition cwist_ice_stun_get_remote_ufrag (buf : bytes) (cap : nat) : option (option bytes) :=
  if (cap =? 0)%nat then Some None
  else
    ok ← cwist_ice_stun_is_message buf;
    if negb ok then Some None
    else
      msg_len ← rd16 buf 2;
      if negb (msg_len mod 4 =? 0) || (length buf - STUN_HDR_LEN <? Z.to_nat msg_len)%nat
      then Some None
      else remote_ufrag_loop (length buf) buf STUN_HDR_LEN (STUN_HDR_LEN + Z.to_nat msg_len) cap.

Definition b64url_chars : bytes :=
  bs "ABCDEFGHIJKLMNOPQRSTUVWXYZabcdefghijklmnopqrstuvwxyz0123456789-_".
(** [raw]: the 24 random bytes, or a failure.  The strings, without their NUL. *)
Definition cwist_ice_random_creds (ufrag_cap pwd_cap : nat) (raw : option bytes) : bytes * bytes :=
  match raw with
  | Some raw =>
      if (ufrag_cap =? 0)%nat || (pwd_cap =? 0)%nat then ([], [])
      else
        let char i := rd b64url_chars (Z.to_nat (Z.land (rd raw i) 63)) in
        let n := Nat.min (ufrag_cap - 1) 8 in
        let m := Nat.min (pwd_cap - 1) 32 in
        (map char (seq 0 n), map (fun i => char (8 + i mod 16)%nat) (seq 0 m))
  | None => ([], [])
  end.

(** ** Reference: CRC-32 a bit at a time *)

(** Division by the reflected polynomial, the lowest bit of a byte first. *)
Definition crc_bit (c : Z) (b : bool) : Z :=
  if xorb (Z.odd c) b then Z.lxor (c / 2) 0xEDB88320 else c / 2.
Definition byte_bits (b : Z) : list bool := map (fun i => Z.testbit b (Z.of_nat i)) (seq 0 8).
Definition crc32_spec (data : bytes) : Z :=
  Z.lxor (fold_left crc_bit (concat (map byte_bits data)) 0xFFFFFFFF) 0xFFFFFFFF.

Lemma land_1_odd c : negb (Z.land c 1 =? 0) = Z.odd c.
Proof.
  rewrite (land_mask c 1 1) by (done || lia). change (2 ^ 1) with 2. rewrite Zmod_odd.
  by destruct (Z.odd c).
Qed.
Lemma crc32_turn_bit c : crc32_turn c = crc_bit c false.
Proof.
  unfold crc32_turn, crc_bit. rewrite land_1_odd, xorb_false_r, (shiftr_div c 1 2) by (done || lia).
  destruct (Z.odd c); [apply Z.lxor_comm|done].
Qed.

Lemma odd_lxor a b : Z.odd (Z.lxor a b) = xorb (Z.odd a) (Z.odd b).
Proof. by rewrite <- !Z.bit0_odd, Z.lxor_spec. Qed.
Lemma half_lxor a b : Z.lxor a b / 2 = Z.lxor (a / 2) (b / 2).
Proof. rewrite <- !Z.div2_div. change Z.div2 with (fun x => Z.div2 x). cbv beta. rewrite !Z.div2_spec. apply Z.shiftr_lxor. Qed.

(** A turn is linear in what it does not test. *)
Lemma crc_bit_lxor c b d : crc_bit (Z.lxor c d) (xorb b (Z.odd d)) = Z.lxor (crc_bit c b) (d / 2).
Proof.
  unfold crc_bit. rewrite odd_lxor, half_lxor.
  replace (xorb (xorb (Z.odd c) (Z.odd d)) (xorb b (Z.odd d))) with (xorb (Z.odd c) b)
    by (by destruct (Z.odd c), (Z.odd d), b).
  destruct (xorb _ _); [|done]. rewrite !Z.lxor_assoc. f_equal. apply Z.lxor_comm.
Qed.

Lemma crc_bits_turns n : forall c b,
  fold_left crc_bit (map (fun i => Z.testbit b (Z.of_nat i)) (seq 0 n)) c =
  Nat.iter n crc32_turn (Z.lxor c (b mod 2 ^ Z.of_nat n)).
Proof.
  induction n as [|n IH]; intros c b.
  { cbn [seq map fold_left Nat.iter]. by rewrite Z.mod_1_r, Z.lxor_0_r. }
  rewrite <- cons_seq, <- seq_shift, map_cons, map_map. cbn [fold_left].
  rewrite (map_ext (fun i => Z.testbit b (Z.of_nat (S i))) (fun i => Z.testbit (b / 2) (Z.of_nat i))).
  2: { intros i. rewrite <- Z.div2_div, Z.div2_spec, Z.shiftr_spec by lia. f_equal. lia. }
  rewrite IH. change (Z.of_nat 0) with 0. rewrite Z.bit0_odd.
  rewrite Nat.iter_succ_r. f_equal. rewrite crc32_turn_bit.
  rewrite Nat2Z.inj_succ, Z.pow_succ_r by lia.
  set (d := b mod (2 * 2 ^ Z.of_nat n)).
  assert (Ed : d = b mod 2 + 2 * ((b / 2) mod 2 ^ Z.of_nat n)).
  { unfold d. by rewrite Z.rem_mul_r by (try apply Z.pow_nonzero; lia). }
  assert (Eo : Z.odd d = Z.odd b).
  { rewrite Ed, Z.odd_add_mul_2, Zmod_odd. by destruct (Z.odd b). }
  rewrite <- Eo. replace false with (xorb (Z.odd d) (Z.odd d)) by apply xorb_nilpotent.
  rewrite crc_bit_lxor. f_equal.
  rewrite Ed. zlia.
Qed.

(** What lies above the bits tested comes down unchanged. *)
Lemma iter_turn_high n : forall x h,
  Nat.iter n crc32_turn (Z.lxor x (h * 2 ^ Z.of_nat n)) = Z.lxor (Nat.iter n crc32_turn x) h.
Proof.
  induction n as [|n IH]; intros x h.
  { cbn. by rewrite Z.mul_1_r. }
  rewrite !Nat.iter_succ_r, Nat2Z.inj_succ, Z.pow_succ_r by lia. rewrite <- IH. f_equal.
  rewrite !crc32_turn_bit. set (d := h * (2 * 2 ^ Z.of_nat n)).
  assert (Eo : Z.odd d = false) by (unfold d; rewrite !Z.odd_mul, andb_false_r; done).
  replace (crc_bit (Z.lxor x d) false) with (crc_bit (Z.lxor x d) (xorb false (Z.odd d))) by (by rewrite Eo).
  rewrite crc_bit_lxor. f_equal.
  unfold d. rewrite Z.mul_assoc, (Z.mul_comm h 2), <- Z.mul_assoc, Z.mul_comm. by rewrite Z.div_mul by lia.
Qed.

Lemma split_low_byte x : 0 <= x -> x = Z.lxor (Z.land x 0xFF) (Z.shiftr x 8 * 2 ^ Z.of_nat 8).
Proof.
  intros Hx. rewrite <- Z.shiftl_mul_pow2 by lia. change (Z.of_nat 8) with 8.
  rewrite Z.lxor_comm, <- Z.add_nocarry_lxor.
  - shifts. rewrite Z.shiftl_mul_pow2 by lia. zlia.
  - apply land_shiftl_small; [lia|]. shifts. zlia.
Qed.

Lemma crc32_byte_bits c b :
  0 <= c -> is_u8 b -> fold_left crc_bit (byte_bits b) c = crc32_byte c b.
Proof.
  intros Hc Hb. unfold byte_bits. rewrite crc_bits_turns, Z.mod_small by (cbn; mlia).
  assert (Hx : 0 <= Z.lxor c b) by (apply Z.lxor_nonneg; unfold is_u8 in Hb; lia).
  rewrite (split_low_byte (Z.lxor c b) Hx) at 1. rewrite iter_turn_high. unfold crc32_byte. f_equal.
  - set (i := Z.land (Z.lxor c b) 255).
    assert (Hi : 0 <= i < 256) by (unfold i; shifts; zlia).
    unfold crc32_table. rewrite (nth_indep _ 0 (crc32_entry (Z.of_nat 0))) by (rewrite length_map, length_seq; lia).
    rewrite (map_nth (fun i => crc32_entry (Z.of_nat i))), seq_nth by lia.
    by rewrite Nat.add_0_l, Z2Nat.id by lia.
  - rewrite Z.shiftr_lxor. assert (E : Z.shiftr b 8 = 0) by (shifts; unfold is_u8 in Hb; zlia).
    by rewrite E, Z.lxor_0_r.
Qed.

Lemma crc_bit_nonneg c b : 0 <= c -> 0 <= crc_bit c b.
Proof. intros H. unfold crc_bit. destruct (xorb _ _); [apply Z.lxor_nonneg|]; zlia. Qed.
Lemma crc_bits_nonneg l : forall c, 0 <= c -> 0 <= fold_left crc_bit l c.
Proof. induction l as [|b l IH]; intros c H; [done|]. apply IH, crc_bit_nonneg, H. Qed.
Lemma crc32_update_bits data : forall c,
  0 <= c -> bytes_ok data ->
  crc32_update c data = fold_left crc_bit (concat (map byte_bits data)) c.
Proof.
  induction data as [|b data IH]; intros c Hc Hd; [done|].
  apply list.Forall_cons in Hd as [Hb Hd]. cbn [map concat]. rewrite fold_left_app, crc32_byte_bits by done.
  unfold crc32_update in *. cbn [fold_left]. apply IH; [|done].
  rewrite <- crc32_byte_bits by done. by apply crc_bits_nonneg.
Qed.
Lemma crc32_update_app c a b : crc32_update c (a ++ b) = crc32_update (crc32_update c a) b.
Proof. apply fold_left_app. Qed.
Lemma crc32_update_spec data :
  bytes_ok data -> Z.lxor (crc32_update 0xFFFFFFFF data) 0xFFFFFFFF = crc32_spec data.
Proof. intros H. unfold crc32_spec. by rewrite crc32_update_bits. Qed.
(** The check value of the standard. *)
Example crc32_check : crc32_spec (bs "123456789") = 0xCBF43926.
Proof. reflexivity. Qed.

(** ** Specification: the attributes of a message *)

Definition padded (n : nat) : nat := (4 * ((n + 3) / 4))%nat.
Lemma pad4_padded v : 0 <= v < 65536 -> pad4 v = padded (Z.to_nat v).
Proof.
  intros H. unfold pad4, padded. rewrite u32_id by (unfold is_u32; lia).
  assert (E : Z.land (v + 3) 0xFFFFFFFC = 4 * ((v + 3) / 4)).
  { change 0xFFFFFFFC with (Z.shiftl (Z.ones 30) 2).
    apply Z.bits_inj'. intros i Hi. rewrite Z.land_spec, Z.shiftl_spec by done.
    rewrite (Z.mul_comm 4), <- (Z.shiftl_mul_pow2 _ 2), <- (Z.shiftr_div_pow2 _ 2) by lia.
    rewrite Z.shiftl_spec by done. destruct (Z.ltb_spec i 2).
    - rewrite !(Z.testbit_neg_r _ (i - 2)) by lia. by rewrite andb_false_r.
    - rewrite Z.shiftr_spec by lia. replace (i - 2 + 2) with i by lia.
      destruct (Z.ltb_spec (i - 2) 30).
      + rewrite Z.ones_spec_low by lia. apply andb_true_r.
      + rewrite Z.ones_spec_high, andb_false_r by lia. symmetry.
        apply Z.bits_above_log2; [lia|]. apply Z.log2_lt_pow2; [lia|].
        apply (Z.lt_le_trans _ (2 ^ 32)); [lia|]. apply Z.pow_le_mono_r; lia. }
  rewrite E. apply Nat2Z.inj. rewrite Z2Nat.id by zlia. rewrite Nat2Z.inj_mul, Nat2Z.inj_div, Nat2Z.inj_add.
  rewrite Z2Nat.id by lia. done.
Qed.

(** Type, offset of the value in the message, value. *)
Abbreviation stun_attr := (Z * nat * bytes)%type.

(** The attributes up to the first that does not fit, and whether all did. *)
Fixpoint attrs_from (fuel off : nat) (body : bytes) : list stun_attr * bool :=
  match fuel with
  | O => ([], bool_decide (body = []))
  | S fuel =>
      match body with
      | [] => ([], true)
      | t1 :: t0 :: l1 :: l0 :: rest =>
          let n := Z.to_nat (l1 * 256 + l0) in
          if (length rest <? n)%nat then ([], false)
          else
            let (l, ok) := attrs_from fuel (off + 4 + padded n) (drop (padded n) rest) in
            ((t1 * 256 + t0, (off + 4)%nat, take n rest) :: l, ok)
      | _ => ([], false)
      end
  end.
(** Of a datagram with a header. *)
Definition stun_attrs (msg : bytes) : list stun_attr * bool :=
  let n := Z.to_nat (rd msg 2 * 256 + rd msg 3) in
  if (length msg <? n + 20)%nat || negb (n mod 4 =? 0)%nat then ([], false)
  else attrs_from n 20 (sub msg 20 n).

Definition is_stun (d : bytes) : bool :=
  (20 <=? length d)%nat && bool_decide (sub d 4 4 = [0x21; 0x12; 0xA4; 0x42]).
Definition stun_type (d : bytes) : Z := rd d 0 * 256 + rd d 1.
Definition first_attr (type : Z) (d : bytes) : option stun_attr :=
  find (fun a => a.1.1 =? type) (stun_attrs d).1.

(** RFC 5389, 15.4: the HMAC is over the message up to MESSAGE-INTEGRITY, with
    a length that ends behind it. *)
Definition authentic (hmac : bytes -> bytes -> bytes) (pwd d : bytes) : bool :=
  match first_attr ATTR_MESSAGE_INTEGRITY d with
  | Some (_, voff, value) =>
      (length value =? 20)%nat &&
      bool_decide (hmac pwd (take 2 d ++ be_bytes 2 (Z.of_nat voff) ++ sub d 4 (voff - 8)) = value)
  | None => false
  end.

(** RFC 5389, 15.2: in the value of XOR-MAPPED-ADDRESS, behind a reserved byte
    and the family (1 is IPv4), the port is masked by the upper half of the magic
    cookie and, for IPv4, the four bytes of the address by the whole of it. *)
Definition be_number (l : bytes) : Z := fold_left (fun acc b => acc * 256 + b) l 0.
Definition mapped_fields (v : bytes) : sockaddr_in :=
  MkAddr (Z.lxor (be_number (sub v 2 2)) (Z.shiftr STUN_MAGIC 16))
         (Z.lxor (be_number (sub v 4 4)) STUN_MAGIC).
Definition xor_mapped_address (v : bytes) : option sockaddr_in :=
  if (length v =? 8)%nat && (rd v 1 =? 1) then Some (mapped_fields v) else None.
(** This agent masks ports by 0xFFFF: what it makes of a port masked as the format
    has it. *)
Definition wrong_port (a : sockaddr_in) : sockaddr_in :=
  MkAddr (Z.lxor a.(sin_port) 0xDEED) a.(sin_addr).
(** The last of the values with room for an IPv4 address, whatever its family. *)
Definition response_value (d : bytes) : option bytes :=
  fold_left (fun acc (a : stun_attr) =>
               if (a.1.1 =? ATTR_XOR_MAPPED_ADDRESS) && (8 <=? length a.2)%nat then Some a.2 else acc)
    (stun_attrs d).1 None.

(** The address as this agent writes it, and reads it. *)
Definition mapped_value (a : sockaddr_in) : bytes :=
  [0; 1] ++ be_bytes 2 (Z.lxor a.(sin_port) 0xFFFF) ++ be_bytes 4 (Z.lxor a.(sin_addr) STUN_MAGIC).
Definition value_mapped (v : bytes) : sockaddr_in :=
  MkAddr (Z.lxor (be_number (sub v 2 2)) 0xFFFF) (Z.lxor (be_number (sub v 4 4)) STUN_MAGIC).
(** The last of the attributes that can hold one. *)
Definition response_address (d : bytes) : option sockaddr_in :=
  fold_left (fun acc (a : stun_attr) =>
               if (a.1.1 =? ATTR_XOR_MAPPED_ADDRESS) && (8 <=? length a.2)%nat
               then Some (value_mapped a.2) else acc) (stun_attrs d).1 None.
Definition response_ok (hmac : bytes -> bytes -> bytes) (txid pwd d : bytes) : bool :=
  is_stun d && (stun_type d =? CWIST_STUN_BINDING_RESPONSE) && bool_decide (sub d 8 12 = txid) &&
  authentic hmac pwd d && (stun_attrs d).2.
Definition username_sender (d : bytes) : option bytes :=
  '(_, _, name) ← first_attr ATTR_USERNAME d; after_colon name.

(** ** Reading integers *)

Lemma rd_u8 d i : bytes_ok d -> 0 <= rd d i < 256.
Proof. intros H. pose proof (bytes_ok_rd d i H). unfold is_u8 in *. lia. Qed.
Lemma rd_sub d off n i : (i < n)%nat -> rd (sub d off n) i = rd d (off + i).
Proof.
  intros H. rewrite <- rd_drop. unfold sub, rd. revert H. generalize (drop off d). clear d off.
  intros l. revert n i. induction l as [|x l IH]; intros [|n] [|i] H; cbn; try done; try lia.
  apply IH. lia.
Qed.

Lemma rd16_at d off :
  bytes_ok d -> (off + 2 <= length d)%nat -> rd16 d off = Some (rd d off * 256 + rd d (off + 1)).
Proof.
  intros Hd Hl. unfold rd16. rewrite mem_read_at by done. cbn [mbind option_bind].
  rewrite !rd_sub by lia. rewrite Nat.add_0_r. f_equal.
  pose proof (rd_u8 d off Hd). pose proof (rd_u8 d (off + 1) Hd).
  rewrite lor_shiftl_add by lia. change (2 ^ 8) with 256. rewrite u16_id by mlia. done.
Qed.
Lemma be4 a b c d :
  0 <= a < 256 -> 0 <= b < 256 -> 0 <= c < 256 -> 0 <= d < 256 ->
  Z.lor (Z.lor (Z.lor (u32 (Z.shiftl a 24)) (Z.shiftl b 16)) (Z.shiftl c 8)) d =
  ((a * 256 + b) * 256 + c) * 256 + d.
Proof.
  intros. rewrite <- !Z.lor_assoc, (lor_shiftl_add c d 8) by lia.
  rewrite (lor_shiftl_add b _ 16) by lia.
  rewrite (Z.shiftl_mul_pow2 _ 24), u32_id by mlia.
  rewrite <- (Z.shiftl_mul_pow2 _ 24), lor_shiftl_add by lia. lia.
Qed.
Lemma sub_list d off n :
  (off + n <= length d)%nat -> sub d off n = map (fun i => rd d (off + i)) (seq 0 n).
Proof.
  intros H. apply (list_eq_same_length _ _ n).
  - by rewrite length_map, length_seq.
  - unfold sub. rewrite length_take, length_drop. lia.
  - intros i x y Hi Hx Hy. apply list_lookup_fmap_Some in Hy as (j & -> & Hj).
    apply lookup_seq in Hj as [-> Hj]. apply rd_lookup in Hx. rewrite rd_sub in Hx by lia.
    by rewrite <- Hx.
Qed.
Lemma rd32_at d off :
  bytes_ok d -> (off + 4 <= length d)%nat -> rd32 d off = Some (be_number (sub d off 4)).
Proof.
  intros Hd Hl. unfold rd32. rewrite mem_read_at by done. cbn [mbind option_bind].
  rewrite !rd_sub by lia. rewrite sub_list by done. cbn [seq map]. rewrite Nat.add_0_r. unfold be_number.
  cbn [fold_left]. by rewrite be4 by (by apply rd_u8).
Qed.

(** ** The walk is the list of attributes *)

Lemma drop_sub d off k j : drop j (sub d off k) = sub d (off + j) (k - j).
Proof. unfold sub. by rewrite skipn_firstn_comm, drop_drop. Qed.
Lemma take_sub d off k j : (j <= k)%nat -> take j (sub d off k) = sub d off j.
Proof. intros H. unfold sub. rewrite take_take. f_equal. lia. Qed.
Lemma sub_sub d off n i m : (i + m <= n)%nat -> sub (sub d off n) i m = sub d (off + i) m.
Proof. intros H. unfold sub at 1. rewrite drop_sub. apply take_sub. lia. Qed.
Lemma sub_length d off k : (off + k <= length d)%nat -> length (sub d off k) = k.
Proof. intros H. unfold sub. rewrite length_take, length_drop. lia. Qed.
Lemma sub_cons d off k :
  (off < length d)%nat -> sub d off (S k) = rd d off :: sub d (off + 1) k.
Proof.
  intros H. unfold sub. destruct (lookup_lt_is_Some_2 d off H) as [b Hb].
  rewrite (drop_S _ _ _ Hb), (rd_lookup _ _ _ Hb). cbn [take]. by rewrite Nat.add_1_r.
Qed.

Lemma sub_header d off k :
  (off + 4 + k <= length d)%nat ->
  sub d off (4 + k) =
    rd d off :: rd d (off + 1) :: rd d (off + 2) :: rd d (off + 3) :: sub d (off + 4) k.
Proof.
  intros H. cbn [Nat.add]. rewrite !sub_cons by lia. by rewrite <- !Nat.add_assoc.
Qed.

Lemma padded_le n k : (k mod 4 = 0 -> n <= k -> padded n <= k)%nat.
Proof.
  intros Hk Hn. unfold padded. pose proof (Nat.div_mod_eq k 4).
  assert ((n + 3) / 4 <= (k + 3) / 4)%nat by (apply Nat.Div0.div_le_mono; lia).
  assert ((k + 3) / 4 = k / 4)%nat; [|lia].
  rewrite (Nat.div_mod_eq k 4), Hk, Nat.add_0_r. rewrite (Nat.mul_comm 4 (k / 4)), Nat.div_add_l by lia.
  rewrite Nat.div_mul by lia. cbn. lia.
Qed.
Lemma padded_mod n : (padded n mod 4 = 0)%nat.
Proof. unfold padded. by rewrite Nat.mul_comm, Nat.Div0.mod_mul. Qed.

Fixpoint fold_attrs {A} (f : stun_attr -> A -> bool * A) (l : list stun_attr) (ok : bool) (a : A)
  : bool * A :=
  match l with
  | [] => (ok, a)
  | x :: l => let (go, a) := f x a in if go then fold_attrs f l ok a else (false, a)
  end.

Section WalkSpec.
Context {A : Type} (cb : Z -> nat -> Z -> A -> option (bool * A)) (f : stun_attr -> A -> bool * A).
Context (msg : bytes) (Hmsg : bytes_ok msg).
Context (cb_spec : forall t off n a, 0 <= n < 65536 -> (off + Z.to_nat n <= length msg)%nat ->
  cb t off n a = Some (f (t, off, sub msg off (Z.to_nat n)) a)).

Lemma walk_loop_spec fuel : forall fuel' off stop a,
  (off <= stop <= length msg)%nat -> ((stop - off) mod 4 = 0)%nat ->
  (stop - off <= fuel)%nat -> (stop - off <= fuel')%nat ->
  walk_loop cb fuel msg off stop a =
    Some (let (l, ok) := attrs_from fuel' off (sub msg off (stop - off)) in fold_attrs f l ok a).
Proof.
  induction fuel as [|fuel IH]; intros fuel' off stop a Hb Hm Hf Hf'.
  { replace stop with off by lia. cbn [walk_loop]. rewrite Nat.eqb_refl, Nat.sub_diag.
    by destruct fuel'. }
  destruct (decide (stop = off)) as [->|Hne].
  { cbn [walk_loop]. rewrite (proj2 (Nat.leb_gt _ _)), Nat.eqb_refl, Nat.sub_diag by lia. by destruct fuel'. }
  assert (Hk : (4 <= stop - off)%nat).
  { destruct (Nat.ltb_spec (stop - off) 4); [|lia]. rewrite Nat.mod_small in Hm; lia. }
  destruct fuel' as [|fuel']; [lia|]. cbn [walk_loop].
  rewrite (proj2 (Nat.leb_le _ _)) by lia.
  rewrite !rd16_at by (done || lia). cbn [mbind option_bind].
  remember (stop - off - 4)%nat as k eqn:Ek.
  replace (stop - off)%nat with (4 + k)%nat by lia. rewrite sub_header by lia. cbn [attrs_from].
  pose proof (rd_u8 msg (off + 2) Hmsg). pose proof (rd_u8 msg (off + 3) Hmsg).
  replace (off + 2 + 1)%nat with (off + 3)%nat by lia.
  set (v := rd msg (off + 2) * 256 + rd msg (off + 3)) in *.
  assert (Hv : 0 <= v < 65536) by (unfold v; lia). clearbody v. rewrite pad4_padded by done.
  set (n := Z.to_nat v) in *. rewrite sub_length by lia.
  destruct (Nat.ltb_spec k n), (Nat.ltb_spec stop (off + 4 + n)); try lia; [done|].
  rewrite cb_spec by (done || (unfold n in *; lia)). cbn [mbind option_bind]. fold n.
  rewrite take_sub, drop_sub by lia.
  assert (Hm4 : (k mod 4 = 0)%nat).
  { replace (stop - off)%nat with (k + 1 * 4)%nat in Hm by lia. by rewrite Nat.Div0.mod_add in Hm. }
  pose proof (padded_le n k Hm4 ltac:(lia)) as Hp. pose proof (padded_mod n) as Hp4.
  assert (Hmk : ((k - padded n) mod 4 = 0)%nat).
  { pose proof (Nat.div_mod_eq k 4). pose proof (Nat.div_mod_eq (padded n) 4).
    replace (k - padded n)%nat with ((k / 4 - padded n / 4) * 4)%nat by lia. apply Nat.Div0.mod_mul. }
  specialize (IH fuel' (off + 4 + padded n)%nat stop).
  replace (stop - (off + 4 + padded n))%nat with (k - padded n)%nat in IH by lia.
  destruct (attrs_from fuel' (off + 4 + padded n) (sub msg (off + 4 + padded n) (k - padded n))) as [l ok].
  cbn [fold_attrs]. destruct (f _ a) as [[|] a']; [|done]. apply IH; lia.
Qed.

Lemma walk_attrs_spec a :
  (4 <= length msg)%nat ->
  walk_attrs cb msg a = Some (let (l, ok) := stun_attrs msg in fold_attrs f l ok a).
Proof.
  intros Hl. unfold walk_attrs, stun_attrs. rewrite rd16_at by (done || lia). cbn [mbind option_bind].
  change (2 + 1)%nat with 3%nat. pose proof (rd_u8 msg 2 Hmsg). pose proof (rd_u8 msg 3 Hmsg).
  set (v := rd msg 2 * 256 + rd msg 3) in *. assert (Hv : 0 <= v < 65536) by (unfold v; lia). clearbody v.
  set (n := Z.to_nat v). unfold STUN_HDR_LEN.
  assert (Em : (v mod 4 =? 0) = (n mod 4 =? 0)%nat).
  { unfold n. replace v with (Z.of_nat (Z.to_nat v)) at 1 by lia. change 4 with (Z.of_nat 4) at 1.
    rewrite <- Nat2Z.inj_mod. destruct (Nat.eqb_spec (Z.to_nat v mod 4) 0) as [->|H']; [done|].
    apply Z.eqb_neq. lia. }
  rewrite Em. destruct (Nat.ltb_spec (length msg) (n + 20)); [done|]. cbn [orb].
  destruct (Nat.eqb_spec (n mod 4) 0) as [Hm|]; [|done]. cbn [negb].
  rewrite (walk_loop_spec _ n 20 (20 + n)); replace (20 + n - 20)%nat with n by lia; done || lia.
Qed.
End WalkSpec.

(** ** What the readers answer *)

Lemma be_bytes_2 v : be_bytes 2 v = [u8 (v / 256); u8 v].
Proof. done. Qed.
Lemma be_bytes_4 v :
  be_bytes 4 v = [u8 (v / 256 / 256 / 256); u8 (v / 256 / 256); u8 (v / 256); u8 v].
Proof. done. Qed.
Lemma wr16_be v : wr16 v = be_bytes 2 v.
Proof. unfold wr16. rewrite be_bytes_2. by shifts. Qed.
Lemma wr32_be v : wr32 v = be_bytes 4 v.
Proof. unfold wr32. rewrite be_bytes_4. shifts. by rewrite !Z.div_div by lia. Qed.

Lemma is_message_spec d : bytes_ok d -> cwist_ice_stun_is_message d = Some (is_stun d).
Proof.
  intros Hd. unfold cwist_ice_stun_is_message, is_stun, STUN_HDR_LEN.
  destruct (Nat.ltb_spec (length d) 20), (Nat.leb_spec 20 (length d)); try lia; [done|].
  rewrite rd32_at by (done || lia). cbn [mbind option_bind andb]. f_equal.
  rewrite sub_list by lia. cbn [seq map Nat.add]. unfold be_number, STUN_MAGIC. cbn [fold_left].
  pose proof (rd_u8 d 4 Hd). pose proof (rd_u8 d 5 Hd). pose proof (rd_u8 d 6 Hd). pose proof (rd_u8 d 7 Hd).
  case_bool_decide as E.
  - injection E as -> -> -> ->. done.
  - apply Z.eqb_neq. intros E'. apply E. repeat f_equal; lia.
Qed.
Lemma is_stun_length d : is_stun d = true -> (20 <= length d)%nat.
Proof. unfold is_stun. intros H. apply andb_prop in H as [H _]. by apply Nat.leb_le. Qed.

Lemma is_binding_request_spec d :
  bytes_ok d -> cwist_ice_stun_is_binding_request d =
    Some (is_stun d && (stun_type d =? CWIST_STUN_BINDING_REQUEST)).
Proof.
  intros Hd. unfold cwist_ice_stun_is_binding_request. rewrite is_message_spec by done.
  cbn [mbind option_bind]. destruct (is_stun d) eqn:E; [|done]. apply is_stun_length in E.
  by rewrite rd16_at by (done || lia).
Qed.

(** Every attribute lies in the message. *)
Definition attr_in (base : nat) (body : bytes) (a : stun_attr) : Prop :=
  (base + 4 <= a.1.2)%nat /\ (a.1.2 - base + length a.2 <= length body)%nat /\
  a.2 = sub body (a.1.2 - base) (length a.2).
Lemma attrs_from_in fuel : forall off body, Forall (attr_in off body) (attrs_from fuel off body).1.
Proof.
  induction fuel as [|fuel IH]; intros off body; [constructor|].
  destruct body as [|t1 [|t0 [|l1 [|l0 rest]]]]; try constructor. cbn [attrs_from].
  set (n := Z.to_nat _). destruct (Nat.ltb_spec (length rest) n) as [|Hn]; [constructor|].
  specialize (IH (off + 4 + padded n)%nat (drop (padded n) rest)).
  destruct (attrs_from _ _ _) as [l ok]. cbn [fst] in *. constructor.
  - unfold attr_in. cbn [fst snd]. rewrite length_take. split; [lia|].
    replace (off + 4 - off)%nat with 4%nat by lia. split; [cbn [length]; lia|].
    unfold sub. cbn [drop]. f_equal. lia.
  - eapply list.Forall_impl; [exact IH|]. intros [[t o] v] (H1 & H2 & H3). unfold attr_in. cbn [fst snd] in *.
    rewrite length_drop in H2. split; [lia|]. destruct (decide (padded n <= length rest)%nat).
    + split; [cbn [length]; lia|]. rewrite H3 at 1.
      replace (o - off)%nat with (4 + padded n + (o - (off + 4 + padded n)))%nat by lia.
      unfold sub. rewrite drop_drop. cbn [drop Nat.add]. done.
    + replace (length v) with 0%nat in * by lia. cbn [length]. split; [lia|].
      apply length_zero_iff_nil. lia.
Qed.
Lemma stun_attrs_in d a :
  a ∈ (stun_attrs d).1 -> (24 <= a.1.2)%nat /\ (a.1.2 + length a.2 <= length d)%nat /\
    (a.1.2 + length a.2 <= 20 + Z.to_nat (rd d 2 * 256 + rd d 3))%nat /\ a.2 = sub d a.1.2 (length a.2).
Proof.
  unfold stun_attrs. set (n := Z.to_nat _).
  destruct (Nat.ltb_spec (length d) (n + 20)); [cbn; by intros ?%elem_of_nil|].
  destruct (negb _); [cbn; by intros ?%elem_of_nil|]. cbn [orb].
  intros Ha. pose proof (attrs_from_in n 20 (sub d 20 n)) as Hall.
  rewrite list.Forall_forall in Hall. destruct (Hall a Ha) as (H1 & H2 & H3).
  rewrite sub_length in H2 by lia. split; [lia|]. split; [lia|]. split; [lia|].
  rewrite H3 at 1. unfold sub at 1. rewrite drop_sub. replace (20 + (a.1.2 - 20))%nat with a.1.2 by lia.
  apply take_sub. lia.
Qed.
Lemma first_attr_in type d t off v :
  first_attr type d = Some (t, off, v) ->
  t = type /\ (24 <= off)%nat /\ (off + length v <= length d)%nat /\
  (off + length v <= 20 + Z.to_nat (rd d 2 * 256 + rd d 3))%nat /\ v = sub d off (length v).
Proof.
  unfold first_attr. intros H. apply find_some in H as [Hin Ht]. cbn in Ht.
  apply list_elem_of_In, stun_attrs_in in Hin. cbn [fst snd] in Hin. split; [lia|]. tauto.
Qed.

(** A walk that stops at the first attribute of a type. *)
Lemma fold_find {B} (type : Z) (g : stun_attr -> B) l : forall ok (a : B),
  (fold_attrs (fun x a => if x.1.1 =? type then (false, g x) else (true, a)) l ok a).2 =
  match find (fun x => x.1.1 =? type) l with Some x => g x | None => a end.
Proof. induction l as [|x l IH]; intros ok a; [done|]. cbn. destruct (x.1.1 =? type); [done|apply IH]. Qed.

Lemma attr_present_spec d type :
  bytes_ok d ->
  attr_present d type =
    (if (length d <? 4)%nat then None else Some (bool_decide (is_Some (first_attr type d)))).
Proof.
  intros Hd. destruct (Nat.ltb_spec (length d) 4) as [Hl|Hl].
  { unfold attr_present, walk_attrs, rd16, mem_read.
    by rewrite (proj2 (Nat.leb_gt (2 + 2) (length d))) by lia. }
  unfold attr_present, first_attr.
  rewrite (walk_attrs_spec _ (fun x a => if x.1.1 =? type then (false, true) else (true, a))) by
    (done || (intros; unfold attr_find_cb; cbn; by destruct (_ =? _))).
  cbn [mbind option_bind]. destruct (stun_attrs d) as [l ok]. cbn [fst].
  pose proof (fold_find type (fun _ => true) l ok false) as H.
  destruct (fold_attrs _ l ok false) as [go found]. cbn in H. rewrite H. by destruct (find _ l).
Qed.

Lemma find_mi_spec d :
  bytes_ok d -> is_stun d = true ->
  find_mi d = Some (match first_attr ATTR_MESSAGE_INTEGRITY d with
                    | Some (_, voff, v) => if (length v =? 20)%nat then Some (voff - 4)%nat else None
                    | None => None
                    end).
Proof.
  intros Hd Hs. pose proof (is_stun_length d Hs) as Hl. unfold find_mi, first_attr.
  rewrite is_message_spec, Hs by done. cbn [mbind option_bind negb].
  rewrite (walk_attrs_spec _ (fun x a => if x.1.1 =? ATTR_MESSAGE_INTEGRITY
    then (false, Some ((x.1.2 - 4)%nat, (length x.2 =? 20)%nat)) else (true, a))); [|done| |lia].
  2: { intros t off n a Hn Hb. unfold find_mi_cb. cbn [fst snd]. destruct (t =? ATTR_MESSAGE_INTEGRITY); [|done].
       cbn [negb]. rewrite sub_length by done. do 5 f_equal.
       destruct (Z.eqb_spec n 20), (Nat.eqb_spec (Z.to_nat n) 20); try done; lia. }
  cbn [mbind option_bind]. destruct (stun_attrs d) as [l ok]. cbn [fst].
  pose proof (fold_find ATTR_MESSAGE_INTEGRITY
    (fun x => Some ((x.1.2 - 4)%nat, (length x.2 =? 20)%nat)) l ok None) as H.
  destruct (fold_attrs _ l ok None) as [go r]. cbn in H. rewrite H.
  destruct (find _ l) as [[[t o] v]|]; [|done]. cbn. by destruct (length v =? 20)%nat.
Qed.

Lemma be_bytes_u16 v : is_u16 v -> be_bytes 2 v = [v / 256; v mod 256].
Proof. intros H. rewrite be_bytes_2. unfold u8. f_equal. apply Z.mod_small. unfold is_u16 in H. zlia. Qed.

(** The header whose length field is replaced. *)
Lemma header_length_put d v :
  (20 <= length d)%nat -> blit (sub d 0 20) 2 (wr16 v) = take 2 d ++ be_bytes 2 v ++ sub d 4 16.
Proof.
  intros H. rewrite wr16_be. rewrite blit_in_range by (rewrite length_be_bytes, sub_length by lia; lia).
  rewrite take_sub, drop_sub, length_be_bytes by lia. unfold sub at 1. by rewrite drop_0.
Qed.
Lemma sub_app_sub d off n m : sub d off n ++ sub d (off + n) m = sub d off (n + m).
Proof. unfold sub. rewrite <- drop_drop. apply take_take_drop. Qed.

Section Readers.
Context (hmac : bytes -> bytes -> bytes) (hmac_length : forall key text, length (hmac key text) = 20%nat).

Lemma stun_hmac_spec hdr body pwd o :
  exists ok o', stun_hmac_sha1 hmac hdr body pwd o = (if (ok : bool) then Some (hmac pwd (hdr ++ body)) else None, o') /\
    (o = [] -> ok = true /\ o' = []).
Proof.
  unfold stun_hmac_sha1. rewrite hmac_length. destruct (alloc o) as [ok o'] eqn:E.
  exists ok, o'. rewrite andb_true_r. split; [done|]. intros ->. by injection E as <- <-.
Qed.

Lemma validate_spec d pwd o :
  bytes_ok d ->
  exists ok o', cwist_ice_stun_validate_request hmac d pwd o =
    Some (is_stun d && authentic hmac pwd d && (ok : bool), o') /\ (o = [] -> ok = true /\ o' = []).
Proof.
  intros Hd. unfold cwist_ice_stun_validate_request. rewrite is_message_spec by done.
  cbn [mbind option_bind]. destruct (is_stun d) eqn:Hs; cbn [negb andb]; [|by exists true, o].
  rewrite find_mi_spec by done. unfold authentic. cbn [mbind option_bind].
  pose proof (is_stun_length d Hs) as Hl.
  destruct (first_attr _ d) as [[[t voff] v]|] eqn:Ef; [|by exists true, o].
  apply first_attr_in in Ef as (-> & Hoff & Hin & Hlen & Ev).
  destruct (Nat.eqb_spec (length v) 20) as [E20|]; [|by exists true, o]. cbn [andb].
  unfold STUN_HDR_LEN. rewrite !mem_read_at by lia. cbn [mbind option_bind].
  replace (voff - 4 - 20 + 4 + 20)%nat with voff by lia. rewrite E20 in *.
  pose proof (rd_u8 d 2 Hd). pose proof (rd_u8 d 3 Hd).
  rewrite u16_id by (unfold is_u16; lia). rewrite header_length_put by done.
  match goal with |- context [stun_hmac_sha1 hmac ?h ?b pwd o] =>
    destruct (stun_hmac_spec h b pwd o) as (ok & o' & -> & Ho) end.
  destruct ok.
  2: { exists false, o'. rewrite andb_false_r. split; [done|]. intros H'. by destruct (Ho H'). }
  exists true, o'. split; [|done]. cbn [mbind option_bind].
  rewrite andb_true_r. replace (voff - 4 + 4)%nat with voff by lia. rewrite <- Ev.
  rewrite <- !app_assoc. replace (voff - 8)%nat with (16 + (voff - 4 - 20))%nat by lia.
  by rewrite <- sub_app_sub.
Qed.

Definition response_turn (x : stun_attr) (a : bool * option sockaddr_in) : bool * (bool * option sockaddr_in) :=
  (true,
   if x.1.1 =? ATTR_MESSAGE_INTEGRITY then (true, a.2)
   else if (x.1.1 =? ATTR_XOR_MAPPED_ADDRESS) && (8 <=? length x.2)%nat then (a.1, Some (value_mapped x.2))
   else a).
Lemma response_turns l ok : forall mi addr,
  fold_attrs response_turn l ok (mi, addr) =
  (ok, (mi || existsb (fun x => x.1.1 =? ATTR_MESSAGE_INTEGRITY) l,
        fold_left (fun acc (a : stun_attr) =>
          if (a.1.1 =? ATTR_XOR_MAPPED_ADDRESS) && (8 <=? length a.2)%nat
          then Some (value_mapped a.2) else acc) l addr)).
Proof.
  induction l as [|x l IH]; intros mi addr; [by rewrite orb_false_r|].
  cbn [fold_attrs response_turn existsb fold_left].
  destruct (Z.eqb_spec x.1.1 ATTR_MESSAGE_INTEGRITY) as [E|].
  - rewrite IH, E. cbn. by rewrite orb_true_r.
  - destruct ((x.1.1 =? ATTR_XOR_MAPPED_ADDRESS) && (8 <=? length x.2)%nat); by rewrite IH.
Qed.

Lemma parse_resp_cb_spec d t off n a :
  bytes_ok d -> 0 <= n < 65536 -> (off + Z.to_nat n <= length d)%nat ->
  parse_resp_cb d t off n a = Some (response_turn (t, off, sub d off (Z.to_nat n)) a).
Proof.
  intros Hd Hn Hb. unfold parse_resp_cb, response_turn. cbn [fst snd].
  destruct (t =? ATTR_MESSAGE_INTEGRITY); [done|]. rewrite sub_length by done.
  assert (E8 : (8 <=? n) = (8 <=? Z.to_nat n)%nat).
  { destruct (Z.leb_spec 8 n), (Nat.leb_spec 8 (Z.to_nat n)); try done; lia. }
  rewrite E8. destruct (Nat.leb_spec 8 (Z.to_nat n)); [|by rewrite andb_false_r].
  destruct (t =? ATTR_XOR_MAPPED_ADDRESS); [|done]. cbn [andb].
  rewrite rd16_at, rd32_at by (done || lia). cbn [mbind option_bind]. unfold value_mapped.
  rewrite !sub_sub by lia. do 5 f_equal.
  rewrite (sub_list d (off + 2)) by lia. cbn [seq map]. unfold be_number. cbn [fold_left].
  rewrite Nat.add_0_r. pose proof (rd_u8 d (off + 2) Hd). pose proof (rd_u8 d (off + 2 + 1) Hd).
  rewrite u16_id; [done|].
  set (v := _ * 256 + _). assert (Hv : 0 <= v < 65536) by (unfold v; lia). clearbody v.
  assert (0 <= Z.lxor v 65535) by (apply Z.lxor_nonneg; lia). split; [done|].
  destruct (decide (Z.lxor v 65535 = 0)) as [->|]; [done|].
  enough (Z.lxor v 65535 < 2 ^ 16) by lia. apply Z.log2_lt_pow2; [lia|].
  pose proof (Z.log2_lxor v 65535 ltac:(lia) ltac:(lia)). change (Z.log2 65535) with 15 in *.
  assert (Z.log2 v < 16); [|lia]. destruct (decide (v = 0)) as [->|]; [done|]. apply Z.log2_lt_pow2; lia.
Qed.

Lemma parse_response_spec d txid pwd mapped o :
  bytes_ok d ->
  exists ok o', (o = [] -> ok = true /\ o' = []) /\
    cwist_ice_stun_parse_response hmac d txid pwd mapped o =
      Some (match response_ok hmac txid pwd d && (ok : bool), mapped, response_address d with
            | true, true, Some a => (true, Some a, o')
            | true, false, _ => (true, None, o')
            | _, _, _ => (false, None, o')
            end).
Proof.
  intros Hd. unfold cwist_ice_stun_parse_response, response_ok. rewrite is_message_spec by done.
  cbn [mbind option_bind]. destruct (is_stun d) eqn:Hs; cbn [andb]; [|by exists true, o].
  pose proof (is_stun_length d Hs) as Hl. rewrite rd16_at by (done || lia). cbn [mbind option_bind].
  change (rd d 0 * 256 + rd d (0 + 1)) with (stun_type d).
  destruct (stun_type d =? CWIST_STUN_BINDING_RESPONSE); cbn [negb andb]; [|by exists true, o].
  rewrite mem_read_at by lia. cbn [mbind option_bind].
  destruct (bool_decide (sub d 8 12 = txid)); cbn [negb andb]; [|by exists true, o].
  destruct (validate_spec d pwd o Hd) as (ok & o' & -> & Ho). cbn [mbind option_bind]. rewrite Hs. cbn [andb].
  exists ok, o'. split; [done|]. destruct (authentic hmac pwd d) eqn:Ha; cbn [negb andb]; [|done].
  destruct ok; cbn [negb]; [|by rewrite andb_false_r].
  rewrite (walk_attrs_spec _ response_turn) by (done || lia || (intros; by apply parse_resp_cb_spec)).
  cbn [mbind option_bind]. unfold response_address.
  assert (Hmi : existsb (fun x => x.1.1 =? ATTR_MESSAGE_INTEGRITY) (stun_attrs d).1 = true).
  { unfold authentic, first_attr in Ha. destruct (find _ _) as [x|] eqn:Ef; [|done].
    apply find_some in Ef as [Hin Hx]. apply existsb_exists. by exists x. }
  destruct (stun_attrs d) as [l okl]. cbn [fst snd] in *. rewrite response_turns, Hmi. cbn [orb negb].
  rewrite andb_true_r, orb_false_r. destruct okl; cbn [negb]; [|done].
  destruct mapped; [|done]. by destruct (fold_left _ l None).
Qed.
End Readers.

(** ** The sender's name *)

Definition ufrag_cb (d : bytes) (cap : nat) (type : Z) (val : nat) (val_len : Z) (arg : option bytes)
  : option (bool * option bytes) :=
  if type =? ATTR_USERNAME then
    name ← mem_read d val (Z.to_nat val_len); Some (false, take (cap - 1) <$> after_colon name)
  else Some (true, arg).
Lemma remote_as_walk d cap fuel : forall off stop,
  bytes_ok d -> (stop <= length d)%nat ->
  remote_ufrag_loop fuel d off stop cap = snd <$> walk_loop (ufrag_cb d cap) fuel d off stop None.
Proof.
  induction fuel as [|fuel IH]; intros off stop Hd Hs; [done|]. cbn [remote_ufrag_loop walk_loop].
  destruct (Nat.leb_spec (off + 4) stop); [|done].
  rewrite !rd16_at by (done || lia). cbn [mbind option_bind].
  set (type := _ * 256 + rd d (off + 1)). set (alen := _ * 256 + _).
  destruct (Nat.ltb_spec stop (off + 4 + Z.to_nat alen)) as [H1|H1].
  - destruct (type =? ATTR_USERNAME); [done|]. destruct fuel as [|fuel]; [done|]. cbn [remote_ufrag_loop].
    assert (Hp : (off + (4 + pad4 alen) + 4 <=? stop)%nat = false).
    { apply Nat.leb_gt. pose proof (rd_u8 d (off + 2) Hd). pose proof (rd_u8 d (off + 2 + 1) Hd).
      rewrite pad4_padded by (unfold alen; lia). unfold padded.
      pose proof (Nat.div_mod_eq (Z.to_nat alen + 3) 4). pose proof (Nat.mod_upper_bound (Z.to_nat alen + 3) 4). lia. }
    by rewrite Hp.
  - change (ufrag_cb d cap type (off + 4) alen None) with
      (if type =? ATTR_USERNAME then
         name ← mem_read d (off + 4) (Z.to_nat alen); Some (false, take (cap - 1) <$> after_colon name)
       else Some (true, @None bytes)).
    destruct (type =? ATTR_USERNAME); cbn [mbind option_bind].
    + by destruct (mem_read d (off + 4) (Z.to_nat alen)).
    + rewrite IH by done. by rewrite Nat.add_assoc.
Qed.

Lemma remote_ufrag_spec d cap :
  bytes_ok d ->
  cwist_ice_stun_get_remote_ufrag d cap =
    Some (if is_stun d && (0 <? cap)%nat then take (cap - 1) <$> username_sender d else None).
Proof.
  intros Hd. unfold cwist_ice_stun_get_remote_ufrag.
  destruct cap as [|cap']; [by rewrite andb_false_r|]. set (cap := S cap'). cbn [Nat.eqb].
  rewrite is_message_spec by done. cbn [mbind option_bind].
  destruct (is_stun d) eqn:Hs; cbn [negb andb]; [|done]. pose proof (is_stun_length d Hs) as Hl.
  assert (Ew : snd <$> walk_attrs (ufrag_cb d cap) d None = Some (take (cap - 1) <$> username_sender d)).
  { rewrite (walk_attrs_spec _ (fun x a => if x.1.1 =? ATTR_USERNAME
      then (false, take (cap - 1) <$> after_colon x.2) else (true, a))); [|done| |lia].
    2: { intros t off n a Hn Hb. unfold ufrag_cb. cbn [fst snd]. destruct (t =? ATTR_USERNAME); [|done].
         by rewrite mem_read_at by done. }
    unfold username_sender, first_attr. destruct (stun_attrs d) as [l ok]. cbn [fst].
    pose proof (fold_find ATTR_USERNAME (fun x => take (cap - 1) <$> after_colon x.2) l ok None) as H.
    destruct (fold_attrs _ l ok None) as [go r]. cbn in H |- *. rewrite H.
    by destruct (find _ l) as [[[? ?] ?]|]. }
  change (0 <? cap)%nat with true. cbv iota. rewrite <- Ew. unfold walk_attrs. rewrite rd16_at by (done || lia). cbn [mbind option_bind].
  set (n := Z.to_nat _). unfold STUN_HDR_LEN.
  assert (E : (length d - 20 <? n)%nat = (length d <? n + 20)%nat).
  { destruct (Nat.ltb_spec (length d - 20) n), (Nat.ltb_spec (length d) (n + 20)); try done; lia. }
  rewrite E, orb_comm. destruct (Nat.ltb_spec (length d) (n + 20)); [done|]. cbn [orb].
  destruct (negb _); [done|]. apply remote_as_walk; [done|lia].
Qed.

(** ** Specification: the messages written *)

Definition attr_bytes (a : Z * bytes) : bytes :=
  be_bytes 2 a.1 ++ be_bytes 2 (blen a.2) ++ a.2 ++ replicate (padded (length a.2) - length a.2) 0.
Definition attrs_bytes (l : list (Z * bytes)) : bytes := concat (map attr_bytes l).
Definition stun_header (type len : Z) (txid : bytes) : bytes :=
  be_bytes 2 type ++ be_bytes 2 len ++ [0x21; 0x12; 0xA4; 0x42] ++ txid.
Definition stun_message (type : Z) (txid : bytes) (l : list (Z * bytes)) : bytes :=
  stun_header type (blen (attrs_bytes l)) txid ++ attrs_bytes l.

(** RFC 5389, 15.4 and 15.5. *)
Definition with_integrity (hmac : bytes -> bytes -> bytes) (pwd : bytes) (type : Z) (txid : bytes)
    (l : list (Z * bytes)) : list (Z * bytes) :=
  l ++ [(ATTR_MESSAGE_INTEGRITY,
         hmac pwd (stun_header type (blen (attrs_bytes l) + 24) txid ++ attrs_bytes l))].
Definition with_fingerprint (type : Z) (txid : bytes) (l : list (Z * bytes)) : list (Z * bytes) :=
  l ++ [(ATTR_FINGERPRINT,
         be_bytes 4 (Z.lxor (crc32_spec (stun_header type (blen (attrs_bytes l) + 8) txid ++ attrs_bytes l))
                            0x5354554E))].
Definition signed (hmac : bytes -> bytes -> bytes) (pwd : bytes) (type : Z) (txid : bytes)
    (l : list (Z * bytes)) : bytes :=
  stun_message type txid (with_fingerprint type txid (with_integrity hmac pwd type txid l)).

Definition request_attrs (username : bytes) : list (Z * bytes) :=
  match username with [] => [] | _ => [(ATTR_USERNAME, username)] end ++
  [(ATTR_ICE_CONTROLLING, replicate 8 0); (ATTR_USE_CANDIDATE, []); (ATTR_PRIORITY, be_bytes 4 0x7EFFFFFF)].
Definition response_attrs (a : sockaddr_in) : list (Z * bytes) := [(ATTR_XOR_MAPPED_ADDRESS, mapped_value a)].

(** ** The writers write them *)

Lemma padded_ge n : (n <= padded n < n + 4)%nat.
Proof.
  unfold padded. pose proof (Nat.div_mod_eq (n + 3) 4). pose proof (Nat.mod_upper_bound (n + 3) 4). lia.
Qed.
Lemma attr_bytes_length a : length (attr_bytes a) = (4 + padded (length a.2))%nat.
Proof.
  unfold attr_bytes. rewrite !length_app, length_replicate, !length_be_bytes.
  pose proof (padded_ge (length a.2)). lia.
Qed.
Lemma attrs_bytes_app a b : attrs_bytes (a ++ b) = attrs_bytes a ++ attrs_bytes b.
Proof. unfold attrs_bytes. by rewrite map_app, concat_app. Qed.
Lemma attrs_bytes_mod l : (length (attrs_bytes l) mod 4 = 0)%nat.
Proof.
  induction l as [|a l IH]; [done|]. unfold attrs_bytes in *. cbn [map concat].
  rewrite length_app, attr_bytes_length. pose proof (padded_mod (length a.2)) as H.
  rewrite Nat.Div0.add_mod, IH, Nat.add_0_r, (Nat.Div0.add_mod 4), H. done.
Qed.
Lemma stun_header_length type len txid : length (stun_header type len txid) = (8 + length txid)%nat.
Proof. unfold stun_header. by rewrite !length_app, !length_be_bytes. Qed.

Lemma body_put_ok cap body src :
  (length body + length src <= cap)%nat -> body_put cap body src = Some (body ++ src).
Proof. intros H. unfold body_put. by rewrite (proj2 (Nat.leb_le _ _) H). Qed.
Lemma pad_count n : ((4 - (4 + n) mod 4) mod 4 = padded n - n)%nat.
Proof.
  unfold padded. pose proof (Nat.div_mod_eq (n + 3) 4). pose proof (Nat.div_mod_eq (4 + n) 4).
  pose proof (Nat.mod_upper_bound (n + 3) 4). pose proof (Nat.mod_upper_bound (4 + n) 4).
  pose proof (Nat.div_mod_eq (4 - (4 + n) mod 4) 4). pose proof (Nat.mod_upper_bound (4 - (4 + n) mod 4) 4). lia.
Qed.

(** The header the source writes, and the change of its length. *)
Lemma header_written type len txid :
  wr16 type ++ wr16 len ++ wr32 STUN_MAGIC ++ txid = stun_header type len txid.
Proof. unfold stun_header. by rewrite !wr16_be. Qed.
Lemma header_rewritten type len len' txid :
  blit (stun_header type len txid) 2 (wr16 len') = stun_header type len' txid.
Proof.
  rewrite blit_in_range by (rewrite stun_header_length; cbn; lia).
  unfold stun_header. rewrite wr16_be, !be_bytes_2. done.
Qed.
Lemma be_bytes_2_u16 v : be_bytes 2 (u16 v) = be_bytes 2 v.
Proof. rewrite !be_bytes_2. unfold u8, u16. f_equal; [zlia|]. f_equal. zlia. Qed.

(** The first attribute of a request, if there is a name. *)
Definition username_attr (username : bytes) : list (Z * bytes) :=
  match username with [] => [] | _ => [(ATTR_USERNAME, username)] end.
Lemma username_attr_length username :
  length (attrs_bytes (username_attr username)) =
    (if length username =? 0 then 0 else 4 + padded (length username))%nat.
Proof.
  destruct username; [done|]. unfold attrs_bytes. cbn [username_attr map concat]. rewrite app_nil_r.
  apply attr_bytes_length.
Qed.
Lemma username_put username :
  (length (attrs_bytes (username_attr username)) <= 544)%nat ->
  (if 0 <? blen username then
     body ← body_put 544 [] (wr16 ATTR_USERNAME ++ wr16 (blen username));
     body ← body_put 544 body username; body_pad 544 body
   else Some []) = Some (attrs_bytes (username_attr username)).
Proof.
  rewrite username_attr_length. destruct username as [|c name]; [done|]. intros H.
  rewrite (proj2 (Z.ltb_lt _ _)) by (unfold blen; cbn; lia). set (w := c :: name) in *.
  rewrite (proj2 (Nat.eqb_neq _ _)) in H by done. pose proof (padded_ge (length w)).
  rewrite body_put_ok by (cbn; lia). cbn [mbind option_bind].
  rewrite body_put_ok by (rewrite !length_app; cbn [length wr16]; lia). cbn [mbind option_bind].
  unfold body_pad. rewrite !length_app. cbn [length wr16]. rewrite pad_count.
  rewrite body_put_ok by (rewrite !length_app, length_replicate; cbn [length wr16]; lia).
  unfold attrs_bytes, attr_bytes. cbn [username_attr w map concat app fst snd].
  rewrite app_nil_r, !wr16_be, <- !app_assoc. done.
Qed.

(** The size test of the source is that of the whole body. *)
Lemma request_fits cap username :
  let u := if blen username =? 0 then 0%nat else (4 + pad4 (blen username))%nat in
  let body := length (attrs_bytes (request_attrs username)) in
  (UINT16_MAX <? blen username) || (544 - (12 + 4 + 8) <? u)%nat ||
    (cap <? STUN_HDR_LEN + u + (12 + 4 + 8))%nat =
  negb ((body <=? 544)%nat && (20 + body <=? cap)%nat).
Proof.
  cbv zeta. unfold request_attrs. fold (username_attr username). rewrite attrs_bytes_app, length_app.
  rewrite username_attr_length. change (length (attrs_bytes [_; _; _])) with 24%nat.
  unfold blen, UINT16_MAX, STUN_HDR_LEN. set (u := length username). pose proof (padded_ge u).
  destruct (Z.ltb_spec 65535 (Z.of_nat u)) as [Hbig|Hbig].
  { cbn [orb]. symmetry. apply negb_true_iff, andb_false_iff. left. apply Nat.leb_gt.
    destruct (Nat.eqb_spec u 0); lia. }
  assert (El : (if Z.of_nat u =? 0 then 0%nat else (4 + pad4 (Z.of_nat u))%nat) = (if u =? 0 then 0 else 4 + padded u)%nat).
  { destruct (Nat.eqb_spec u 0) as [->|]; [done|]. rewrite (proj2 (Z.eqb_neq _ _)) by lia.
    by rewrite pad4_padded, Nat2Z.id by lia. }
  rewrite El. cbn [orb]. destruct (Nat.eqb_spec u 0); cbn [Nat.add Nat.sub];
    repeat match goal with
    | |- context [(?a <? ?b)%nat] => destruct (Nat.ltb_spec a b)
    | |- context [(?a <=? ?b)%nat] => destruct (Nat.leb_spec a b)
    end; cbn; lia.
Qed.

Lemma build_request_spec cap txid username :
  length txid = 12%nat ->
  let body := attrs_bytes (request_attrs username) in
  cwist_ice_stun_build_request cap txid username =
    Some (if (length body <=? 544)%nat && (20 + length body <=? cap)%nat
          then Some (stun_message CWIST_STUN_BINDING_REQUEST txid (request_attrs username)) else None).
Proof.
  intros Ht body. unfold cwist_ice_stun_build_request.
  pose proof (request_fits cap username) as Ef. cbv zeta in Ef. cbv zeta. rewrite Ef. fold body.
  destruct (_ && _) eqn:Efit; [|done]. cbn [negb].
  apply andb_prop in Efit as [H544 Hcap]. apply Nat.leb_le in H544, Hcap. fold body in H544, Hcap.
  rewrite mem_read_at by lia. cbn [mbind option_bind]. unfold sub. rewrite drop_0, take_ge by lia.
  set (head := attrs_bytes (username_attr username)).
  assert (Eb : body = ((head ++ (wr16 ATTR_ICE_CONTROLLING ++ wr16 8 ++ replicate 8 0)) ++
      (wr16 ATTR_USE_CANDIDATE ++ wr16 0)) ++ (wr16 ATTR_PRIORITY ++ wr16 4 ++ wr32 0x7EFFFFFF)).
  { unfold body, request_attrs. fold (username_attr username). rewrite attrs_bytes_app, <- !(app_assoc head). done. }
  assert (Hl : length body = (length head + 24)%nat).
  { rewrite Eb, !length_app. cbn [length wr16 wr32]. rewrite length_replicate. lia. }
  rewrite username_put by (fold head; lia). fold head. cbn [mbind option_bind].
  do 3 (rewrite body_put_ok by (rewrite ?length_app, ?length_replicate; cbn [length wr16 wr32]; lia);
        cbn [mbind option_bind]).
  rewrite <- Eb. rewrite (proj2 (Nat.ltb_ge _ _)) by (unfold STUN_HDR_LEN; lia). do 2 f_equal.
  rewrite wr16_be, wr16_be, be_bytes_2_u16. unfold stun_message, stun_header. fold body.
  by rewrite <- !app_assoc.
Qed.

(** FINGERPRINT, as both writers compute it. *)
Lemma bytes_ok_header type len txid : bytes_ok txid -> bytes_ok (stun_header type len txid).
Proof.
  intros H. unfold stun_header. do 2 (apply Forall_app_2; [apply be_bytes_ok|]). apply Forall_app_2; [|done].
  apply bytes_okb_ok. reflexivity.
Qed.
Lemma fingerprint_value head rest :
  bytes_ok head -> bytes_ok rest ->
  wr32 (Z.lxor (Z.lxor (crc32_update (crc32_update 0xFFFFFFFF head) rest) 0xFFFFFFFF) 0x5354554E) =
  be_bytes 4 (Z.lxor (crc32_spec (head ++ rest)) 0x5354554E).
Proof.
  intros H1 H2. rewrite wr32_be, <- crc32_update_app. by rewrite crc32_update_spec by (by apply Forall_app_2).
Qed.
Lemma attrs_bytes_ok l : Forall (fun a => bytes_ok a.2) l -> bytes_ok (attrs_bytes l).
Proof.
  intros H. unfold attrs_bytes. induction H as [|a l Ha _ IH]; [constructor|]. cbn [map concat].
  apply Forall_app_2; [|done]. unfold attr_bytes. do 2 (apply Forall_app_2; [apply be_bytes_ok|]).
  apply Forall_app_2; [done|]. apply Forall_replicate. mlia.
Qed.
Lemma attrs_bytes_snoc l t v : attrs_bytes (l ++ [(t, v)]) = attrs_bytes l ++ attr_bytes (t, v).
Proof. rewrite attrs_bytes_app. unfold attrs_bytes at 2. cbn [map concat]. by rewrite app_nil_r. Qed.

Section Writers.
Context (hmac : bytes -> bytes -> bytes) (hmac_length : forall key text, length (hmac key text) = 20%nat).
Context (hmac_bytes : forall key text, bytes_ok (hmac key text)).

Lemma integrity_bytes key text : attr_bytes (ATTR_MESSAGE_INTEGRITY, hmac key text) =
  (wr16 ATTR_MESSAGE_INTEGRITY ++ wr16 20) ++ hmac key text.
Proof.
  unfold attr_bytes, blen. cbn [fst snd]. rewrite hmac_length. change (padded 20 - 20)%nat with 0%nat.
  cbn [replicate]. by rewrite app_nil_r, !wr16_be, <- app_assoc.
Qed.
Lemma fingerprint_bytes v : attr_bytes (ATTR_FINGERPRINT, be_bytes 4 v) =
  wr16 ATTR_FINGERPRINT ++ wr16 4 ++ be_bytes 4 v.
Proof. unfold attr_bytes, blen. cbn [fst snd]. by rewrite !length_be_bytes, !wr16_be, app_nil_r. Qed.

(** The two attributes behind any others. *)
Lemma signed_bytes pwd type txid l :
  let body := attrs_bytes l in
  let mi := hmac pwd (stun_header type (blen body + 24) txid ++ body) in
  let sealed := body ++ ((wr16 ATTR_MESSAGE_INTEGRITY ++ wr16 20) ++ mi) in
  bytes_ok body -> bytes_ok txid ->
  signed hmac pwd type txid l =
    stun_header type (blen sealed + 8) txid ++ sealed ++
    (wr16 ATTR_FINGERPRINT ++ wr16 4 ++
     wr32 (Z.lxor (Z.lxor (crc32_update (crc32_update 0xFFFFFFFF (stun_header type (blen sealed + 8) txid)) sealed)
             0xFFFFFFFF) 0x5354554E)).
Proof.
  intros body mi sealed Hb Ht.
  assert (E1 : attrs_bytes (with_integrity hmac pwd type txid l) = sealed).
  { unfold with_integrity. rewrite attrs_bytes_snoc. by rewrite integrity_bytes. }
  assert (Hs : bytes_ok sealed).
  { apply Forall_app_2; [done|]. apply Forall_app_2; [|apply hmac_bytes]. rewrite !wr16_be.
    apply Forall_app_2; apply be_bytes_ok. }
  unfold signed, stun_message, with_fingerprint. rewrite !attrs_bytes_snoc, E1, fingerprint_bytes.
  rewrite fingerprint_value by (try apply bytes_ok_header; done). rewrite blen_app. done.
Qed.

Lemma sign_spec cap pwd type txid l o :
  length txid = 12%nat -> bytes_ok txid -> Forall (fun a => bytes_ok a.2) l ->
  blen (attrs_bytes l) + 32 < 65536 ->
  exists ok o', (o = [] -> ok = true /\ o' = []) /\
    cwist_ice_stun_sign_request hmac cap (stun_message type txid l) pwd o =
      Some (if (ok : bool) && (20 + length (attrs_bytes l) + 32 <=? cap)%nat
            then Some (signed hmac pwd type txid l) else None, o').
Proof.
  intros Ht Htb Hl Hsize. unfold cwist_ice_stun_sign_request, stun_sign, STUN_HDR_LEN.
  pose proof (attrs_bytes_ok l Hl) as Hb. set (body := attrs_bytes l) in *.
  assert (El : length (stun_message type txid l) = (20 + length body)%nat).
  { unfold stun_message. rewrite length_app, stun_header_length, Ht. done. }
  rewrite El. destruct (Nat.ltb_spec (20 + length body) 20); [lia|]. cbn [orb].
  destruct (Nat.ltb_spec cap (20 + length body)).
  { exists true, o. split; [done|]. by rewrite (proj2 (Nat.leb_gt _ _)) by lia. }
  rewrite mem_read_at by lia. cbn [mbind option_bind].
  assert (Eh : sub (stun_message type txid l) 0 20 = stun_header type (blen body) txid /\
               drop 20 (stun_message type txid l) = body).
  { unfold stun_message, sub. rewrite drop_0. fold body.
    rewrite take_app_length', drop_app_length' by (rewrite stun_header_length; lia). done. }
  destruct Eh as [-> ->]. rewrite header_rewritten.
  replace (u16 (Z.of_nat (20 + length body - 20 + 4 + 20))) with (blen body + 24)
    by (rewrite u16_id; unfold is_u16, blen in *; lia).
  destruct (stun_hmac_spec hmac hmac_length (stun_header type (blen body + 24) txid) body pwd o)
    as (ok & o' & -> & Ho).
  exists ok, o'. split; [done|]. destruct ok; [|done]. cbn [andb].
  set (mi := hmac pwd _).
  rewrite body_put_ok by (cbn; lia). cbn [mbind option_bind app].
  rewrite body_put_ok by (unfold mi; rewrite !length_app, hmac_length; cbn; lia). cbn [mbind option_bind].
  rewrite header_rewritten.
  assert (Em : length ((wr16 ATTR_MESSAGE_INTEGRITY ++ wr16 20) ++ mi) = 24%nat).
  { unfold mi. rewrite !length_app, hmac_length. done. }
  rewrite body_put_ok by (rewrite Em; cbn; lia). cbn [mbind option_bind].
  rewrite length_app, Em. change (length (wr16 ATTR_FINGERPRINT ++ _ ++ _)) with 8%nat.
  destruct (Nat.leb_spec (20 + length body + 32) cap), (Nat.ltb_spec cap (20 + length body + (24 + 8))); try lia; [|done].
  do 3 f_equal. rewrite (signed_bytes pwd type txid l Hb Htb). fold body. fold mi.
  assert (Ed : u16 (Z.of_nat (20 + length body - 20 + 24 + 8)) =
    blen (body ++ (wr16 ATTR_MESSAGE_INTEGRITY ++ wr16 20) ++ mi) + 8).
  { unfold blen in *. rewrite length_app, Em, u16_id by (unfold is_u16; lia). lia. }
  rewrite Ed, !crc32_update_app. by rewrite <- !app_assoc.
Qed.

Lemma lxor_u16 a b : is_u16 a -> is_u16 b -> is_u16 (Z.lxor a b).
Proof.
  unfold is_u16. intros Ha Hb. assert (0 <= Z.lxor a b) by (apply Z.lxor_nonneg; lia).
  split; [done|]. destruct (decide (Z.lxor a b = 0)) as [->|]; [lia|].
  enough (Z.lxor a b < 2 ^ 16) by lia. apply Z.log2_lt_pow2; [lia|].
  pose proof (Z.log2_lxor a b ltac:(lia) ltac:(lia)).
  assert (forall c, 0 <= c < 65536 -> Z.log2 c < 16) as Hlog.
  { intros c Hc. destruct (decide (c = 0)) as [->|]; [done|]. apply Z.log2_lt_pow2; lia. }
  pose proof (Hlog a Ha). pose proof (Hlog b Hb). lia.
Qed.

Lemma mapped_bytes a :
  is_u16 a.(sin_port) ->
  attr_bytes (ATTR_XOR_MAPPED_ADDRESS, mapped_value a) =
  ((wr16 ATTR_XOR_MAPPED_ADDRESS ++ wr16 8) ++ [0; 1]) ++ wr16 (u16 (Z.lxor a.(sin_port) 0xFFFF)) ++
  wr32 (Z.lxor a.(sin_addr) STUN_MAGIC).
Proof.
  intros Hp. unfold attr_bytes, mapped_value. cbn [fst snd].
  rewrite !wr16_be, wr32_be, be_bytes_2_u16.
  assert (E : length ([0; 1] ++ be_bytes 2 (Z.lxor (sin_port a) 65535) ++ be_bytes 4 (Z.lxor (sin_addr a) STUN_MAGIC)) = 8%nat)
    by (rewrite !length_app, !length_be_bytes; done).
  unfold blen. rewrite E. change (padded 8 - 8)%nat with 0%nat. cbn [replicate]. by rewrite app_nil_r, <- !app_assoc.
Qed.

Lemma build_response_spec cap req mapped pwd o :
  bytes_ok req -> is_u16 mapped.(sin_port) ->
  exists ok o', (o = [] -> ok = true /\ o' = []) /\
    cwist_ice_stun_build_response hmac cap req mapped pwd o =
      Some (if (20 <=? length req)%nat && (ok : bool) && (64 <=? cap)%nat
            then Some (signed hmac pwd CWIST_STUN_BINDING_RESPONSE (sub req 8 12) (response_attrs mapped))
            else None, o').
Proof.
  intros Hreq Hport. unfold cwist_ice_stun_build_response, STUN_HDR_LEN.
  destruct (Nat.ltb_spec (length req) 20), (Nat.leb_spec 20 (length req)); try lia; [by exists true, o|]. cbn [andb].
  set (txid := sub req 8 12).
  assert (Ht : length txid = 12%nat) by (unfold txid; rewrite sub_length; lia).
  assert (Htb : bytes_ok txid) by (apply Forall_take, Forall_drop, Hreq).
  set (body := attrs_bytes (response_attrs mapped)).
  assert (Eb : body = ((wr16 ATTR_XOR_MAPPED_ADDRESS ++ wr16 8) ++ [0; 1]) ++
     wr16 (u16 (Z.lxor (sin_port mapped) 0xFFFF)) ++ wr32 (Z.lxor (sin_addr mapped) STUN_MAGIC)).
  { unfold body, response_attrs, attrs_bytes. cbn [map concat]. by rewrite app_nil_r, mapped_bytes. }
  assert (El : length body = 12%nat) by (rewrite Eb; done).
  assert (Hb : bytes_ok body).
  { rewrite Eb, !wr16_be, wr32_be. apply Forall_app_2; [|apply Forall_app_2; apply be_bytes_ok].
    apply bytes_okb_ok. reflexivity. }
  do 4 (rewrite body_put_ok by (cbn; lia); cbn [mbind option_bind]).
  rewrite app_nil_l, <- (app_assoc _ (wr16 _) (wr32 _)), <- Eb.
  unfold body_pad. rewrite El. change ((4 - 12 mod 4) mod 4)%nat with 0%nat. cbn [replicate].
  rewrite body_put_ok by (rewrite El; cbn; lia). cbn [mbind option_bind]. rewrite app_nil_r.
  assert (Eb12 : blen body = 12) by (unfold blen; by rewrite El).
  rewrite mem_read_at by lia. cbn [mbind option_bind]. fold txid. rewrite header_written.
  replace (u16 (blen body + 4 + 20)) with (blen body + 24) by (by rewrite Eb12).
  destruct (stun_hmac_spec hmac hmac_length (stun_header CWIST_STUN_BINDING_RESPONSE (blen body + 24) txid) body pwd o)
    as (ok & o' & -> & Ho).
  exists ok, o'. split; [done|]. destruct ok; [|done]. cbn [andb].
  set (mi := hmac pwd _). assert (Em : length mi = 20%nat) by apply hmac_length.
  rewrite body_put_ok by (rewrite El; cbn; lia). cbn [mbind option_bind].
  rewrite body_put_ok by (rewrite length_app, El, Em; cbn; lia). cbn [mbind option_bind].
  rewrite header_rewritten, <- app_assoc.
  set (sealed := body ++ (wr16 ATTR_MESSAGE_INTEGRITY ++ wr16 20) ++ mi).
  assert (Es : length sealed = 36%nat) by (unfold sealed; rewrite !length_app, El, Em; done).
  rewrite body_put_ok by (rewrite Es; cbn; lia). cbn [mbind option_bind].
  rewrite length_app, Es. change (length (wr16 ATTR_FINGERPRINT ++ _ ++ _)) with 8%nat. cbn [Nat.add].
  destruct (Nat.leb_spec 64 cap), (Nat.ltb_spec cap 64); try lia; [|done].
  do 3 f_equal. rewrite (signed_bytes pwd CWIST_STUN_BINDING_RESPONSE txid _ Hb Htb). fold body. fold mi. fold sealed.
  replace (u16 (blen sealed + 8)) with (blen sealed + 8) by (unfold blen; by rewrite Es).
  done.
Qed.
End Writers.

(** ** Reading back what was written *)

(** Where the attributes of a message lie. *)
Fixpoint placed (off : nat) (l : list (Z * bytes)) : list stun_attr :=
  match l with
  | [] => []
  | a :: l => (a.1, (off + 4)%nat, a.2) :: placed (off + 4 + padded (length a.2)) l
  end.
Definition attr_fits (a : Z * bytes) : Prop := is_u16 a.1 /\ blen a.2 < 65536.

Lemma attrs_from_written l : forall fuel off,
  Forall attr_fits l -> (length (attrs_bytes l) <= fuel)%nat ->
  attrs_from fuel off (attrs_bytes l) = (placed off l, true).
Proof.
  induction l as [|[t v] l IH]; intros fuel off Hl Hf; [by destruct fuel|].
  apply list.Forall_cons in Hl as [[Ht Hv] Hl]. cbn [fst snd] in Ht, Hv.
  unfold attrs_bytes in *. cbn [map concat] in *. rewrite length_app, attr_bytes_length in Hf. cbn [snd] in Hf.
  destruct fuel as [|fuel]; [lia|]. unfold attr_bytes at 1. cbn [fst snd]. unfold is_u16 in Ht.
  rewrite !be_bytes_u16 by (unfold is_u16, blen in *; lia). rewrite <- !app_assoc. cbn [app attrs_from].
  replace (Z.to_nat (blen v / 256 * 256 + blen v mod 256)) with (length v) by (unfold blen; zlia).
  replace (t / 256 * 256 + t mod 256) with t by zlia.
  pose proof (padded_ge (length v)).
  rewrite (proj2 (Nat.ltb_ge _ _)) by (rewrite length_app; lia).
  rewrite take_app_length, (app_assoc v), drop_app_length' by (rewrite length_app, length_replicate; lia).
  rewrite IH by (done || lia). done.
Qed.

Lemma message_fields type txid l :
  length txid = 12%nat -> is_u16 type -> blen (attrs_bytes l) < 65536 ->
  let d := stun_message type txid l in
  is_stun d = true /\ stun_type d = type /\ sub d 8 12 = txid /\
  (forall k, sub d 20 k = take k (attrs_bytes l)) /\
  Z.to_nat (rd d 2 * 256 + rd d 3) = length (attrs_bytes l) /\
  length d = (20 + length (attrs_bytes l))%nat /\ take 2 d = be_bytes 2 type /\
  drop 4 d = [0x21; 0x12; 0xA4; 0x42] ++ txid ++ attrs_bytes l.
Proof.
  intros Ht Htype Hl d. unfold is_u16 in Htype.
  assert (Hn : is_u16 (blen (attrs_bytes l))) by (unfold is_u16, blen in *; lia).
  assert (E : d = [type / 256; type mod 256; blen (attrs_bytes l) / 256; blen (attrs_bytes l) mod 256;
                   0x21; 0x12; 0xA4; 0x42] ++ txid ++ attrs_bytes l).
  { unfold d, stun_message, stun_header. rewrite !be_bytes_u16 by done. by rewrite <- !app_assoc. }
  assert (El : length d = (20 + length (attrs_bytes l))%nat).
  { rewrite E, !length_app, Ht. cbn [length]. lia. }
  split_and!.
  - unfold is_stun. rewrite El, (proj2 (Nat.leb_le _ _)) by lia. cbn [andb]. apply bool_decide_eq_true. by rewrite E.
  - unfold stun_type. rewrite E. cbn. zlia.
  - rewrite E. unfold sub. cbn [app drop]. by apply take_app_length'.
  - intros k. unfold sub. f_equal.
    rewrite E, app_assoc. apply drop_app_length'. rewrite length_app, Ht. done.
  - rewrite E. change (rd ([_; _; ?a; ?b; _; _; _; _] ++ _) 2) with a. cbn [app rd nth]. unfold blen. zlia.
  - done.
  - rewrite E, be_bytes_u16 by done. done.
  - by rewrite E.
Qed.

Lemma stun_attrs_written type txid l :
  length txid = 12%nat -> is_u16 type -> blen (attrs_bytes l) < 65536 -> Forall attr_fits l ->
  stun_attrs (stun_message type txid l) = (placed 20 l, true).
Proof.
  intros Ht Htype Hl Hfit. destruct (message_fields type txid l Ht Htype Hl) as (_ & _ & _ & Hs & Hn & Hlen & _).
  unfold stun_attrs. rewrite Hn, Hlen, (proj2 (Nat.ltb_ge _ _)) by lia.
  rewrite attrs_bytes_mod. cbn [orb negb Nat.eqb]. rewrite Hs, take_ge by lia. by apply attrs_from_written.
Qed.

Lemma find_placed type l : forall off off',
  match find (fun x => x.1.1 =? type) (placed off l), find (fun x => x.1.1 =? type) (placed off' l) with
  | Some x, Some y => x.2 = y.2
  | None, None => True
  | _, _ => False
  end.
Proof. induction l as [|a l IH]; intros off off'; [done|]. cbn. destruct (a.1 =? type); [done|apply IH]. Qed.
Lemma find_placed_app type l a l' : forall off,
  Forall (fun a => a.1 <> type) l -> a.1 = type ->
  find (fun x => x.1.1 =? type) (placed off (l ++ a :: l')) =
  Some (type, (off + length (attrs_bytes l) + 4)%nat, a.2).
Proof.
  induction l as [|b l IH]; intros off Hl Ha.
  - cbn. rewrite Ha, Z.eqb_refl. by rewrite Nat.add_0_r.
  - apply list.Forall_cons in Hl as [Hb Hl]. cbn [app placed find fst]. rewrite (proj2 (Z.eqb_neq _ _) Hb).
    rewrite IH by done. unfold attrs_bytes. cbn [map concat]. rewrite length_app, attr_bytes_length.
    do 3 f_equal. lia.
Qed.

(** A message with MESSAGE-INTEGRITY behind [l] is authentic, whatever follows. *)
Lemma authentic_written hmac pwd type txid l l' :
  (forall key text, length (hmac key text) = 20%nat) ->
  let all := with_integrity hmac pwd type txid l ++ l' in
  length txid = 12%nat -> is_u16 type -> blen (attrs_bytes all) < 65536 -> Forall attr_fits all ->
  Forall (fun a => a.1 <> ATTR_MESSAGE_INTEGRITY) l ->
  authentic hmac pwd (stun_message type txid all) = true.
Proof.
  intros Hh all Ht Htype Hl Hfit Hno. unfold authentic, first_attr.
  rewrite stun_attrs_written by done. cbn [fst].
  destruct (message_fields type txid all Ht Htype Hl) as (_ & _ & _ & _ & _ & Hlen & H2 & H4).
  unfold all at 1, with_integrity. rewrite <- app_assoc. cbn [app]. rewrite find_placed_app by done. cbn [snd].
  rewrite Hh. cbn [Nat.eqb andb]. apply bool_decide_eq_true. f_equal. rewrite H2.
  unfold stun_header, sub. rewrite H4. unfold all, with_integrity. rewrite !attrs_bytes_app, <- !app_assoc.
  do 2 f_equal; [f_equal; unfold blen; lia|]. rewrite !app_assoc. rewrite <- app_assoc.
  apply take_app_length'. rewrite !length_app, Ht. cbn [length]. lia.
Qed.

Lemma first_attr_written wanted type txid l :
  length txid = 12%nat -> is_u16 type -> blen (attrs_bytes l) < 65536 -> Forall attr_fits l ->
  (fun x : stun_attr => x.2) <$> first_attr wanted (stun_message type txid l) =
  snd <$> find (fun a => a.1 =? wanted) l.
Proof.
  intros Ht Htype Hl Hfit. unfold first_attr. rewrite stun_attrs_written by done. cbn [fst].
  clear. generalize 20%nat. induction l as [|a l IH]; intros off; [done|]. cbn.
  destruct (a.1 =? wanted); [done|apply IH].
Qed.
(** The last address that fits. *)
Definition last_address (l : list (Z * bytes)) : option sockaddr_in :=
  fold_left (fun acc a => if (a.1 =? ATTR_XOR_MAPPED_ADDRESS) && (8 <=? length a.2)%nat
                          then Some (value_mapped a.2) else acc) l None.
Lemma response_address_written type txid l :
  length txid = 12%nat -> is_u16 type -> blen (attrs_bytes l) < 65536 -> Forall attr_fits l ->
  response_address (stun_message type txid l) = last_address l.
Proof.
  intros Ht Htype Hl Hfit. unfold response_address, last_address. rewrite stun_attrs_written by done. cbn [fst].
  clear. generalize 20%nat. generalize (@None sockaddr_in).
  induction l as [|a l IH]; intros acc off; [done|]. cbn [placed fold_left fst snd]. apply IH.
Qed.
Lemma message_bytes_ok type txid l :
  bytes_ok txid -> Forall (fun a => bytes_ok a.2) l -> bytes_ok (stun_message type txid l).
Proof. intros Ht Hl. apply Forall_app_2; [by apply bytes_ok_header|by apply attrs_bytes_ok]. Qed.

(** The address comes back from its attribute. *)
Lemma be_number_be_bytes_2 v : is_u16 v -> be_number (be_bytes 2 v) = v.
Proof. intros H. rewrite be_bytes_u16 by done. unfold be_number. cbn [fold_left]. zlia. Qed.
Lemma be_number_be_bytes_4 v : is_u32 v -> be_number (be_bytes 4 v) = v.
Proof.
  unfold is_u32. intros H. rewrite be_bytes_4. unfold be_number, u8. cbn [fold_left]. zlia.
Qed.
Definition addr_ok (a : sockaddr_in) : Prop := is_u16 a.(sin_port) /\ is_u32 a.(sin_addr).
Lemma mapped_value_length a : length (mapped_value a) = 8%nat.
Proof. unfold mapped_value. by rewrite !length_app, !length_be_bytes. Qed.
Lemma value_mapped_value a : addr_ok a -> value_mapped (mapped_value a) = a.
Proof.
  intros [Hp Ha]. destruct a as [p ip]. cbn [sin_port sin_addr] in *. unfold value_mapped, mapped_value.
  cbn [sin_port sin_addr].
  assert (E1 : sub ([0; 1] ++ be_bytes 2 (Z.lxor p 65535) ++ be_bytes 4 (Z.lxor ip STUN_MAGIC)) 2 2 =
               be_bytes 2 (Z.lxor p 65535)) by done.
  assert (E2 : sub ([0; 1] ++ be_bytes 2 (Z.lxor p 65535) ++ be_bytes 4 (Z.lxor ip STUN_MAGIC)) 4 4 =
               be_bytes 4 (Z.lxor ip STUN_MAGIC)) by done.
  rewrite E1, E2, be_number_be_bytes_2, be_number_be_bytes_4;
    [|apply lxor_u32; [done|unfold is_u32, STUN_MAGIC; lia]|apply lxor_u16; [done|unfold is_u16; lia]].
  by rewrite !Z.lxor_assoc, !Z.lxor_nilpotent, !Z.lxor_0_r.
Qed.
Lemma mapped_value_ok a : bytes_ok (mapped_value a).
Proof.
  unfold mapped_value. apply Forall_app_2; [|apply Forall_app_2; apply be_bytes_ok].
  apply bytes_okb_ok. reflexivity.
Qed.

(** An attribute put behind a message by someone without the password. *)
Definition append_attr (d : bytes) (a : Z * bytes) : bytes :=
  take 2 d ++ be_bytes 2 (blen d - 20 + blen (attr_bytes a)) ++ drop 4 d ++ attr_bytes a.
Lemma append_attr_message type txid l a :
  length txid = 12%nat -> append_attr (stun_message type txid l) a = stun_message type txid (l ++ [a]).
Proof.
  intros Ht. unfold append_attr, stun_message. destruct a as [t v]. rewrite attrs_bytes_snoc, blen_app.
  rewrite (blen_app (attrs_bytes l)).
  assert (E : blen (stun_header type (blen (attrs_bytes l)) txid) = 20)
    by (unfold blen at 1; rewrite stun_header_length, Ht; done).
  rewrite E. replace (20 + blen (attrs_bytes l) - 20 + _) with (blen (attrs_bytes l) + blen (attr_bytes (t, v))) by lia.
  unfold stun_header. rewrite !be_bytes_2. cbn [app take drop]. by rewrite <- !app_assoc.
Qed.

(** ** What the agent reads and writes *)

Section Checks.
Context (hmac : bytes -> bytes -> bytes) (hmac_length : forall key text, length (hmac key text) = 20%nat).
Context (hmac_bytes : forall key text, bytes_ok (hmac key text)).

Lemma signed_attrs_fit pwd type txid l :
  Forall attr_fits l -> Forall attr_fits (with_fingerprint type txid (with_integrity hmac pwd type txid l)).
Proof.
  intros H. unfold with_fingerprint, with_integrity. 
  apply Forall_app_2; [apply Forall_app_2; [done|]|]; apply Forall_singleton;
    unfold attr_fits; cbn [fst snd]; split; try (unfold blen; rewrite ?hmac_length, ?length_be_bytes; lia);
    unfold is_u16, ATTR_MESSAGE_INTEGRITY, ATTR_FINGERPRINT; lia.
Qed.
Lemma signed_attrs_ok pwd type txid l :
  Forall (fun a => bytes_ok a.2) l ->
  Forall (fun a => bytes_ok a.2) (with_fingerprint type txid (with_integrity hmac pwd type txid l)).
Proof.
  intros H. unfold with_fingerprint, with_integrity. 
  apply Forall_app_2; [apply Forall_app_2; [done|]|]; apply Forall_singleton; [apply hmac_bytes|apply be_bytes_ok].
Qed.
Lemma signed_attrs_length pwd type txid l :
  length (attrs_bytes (with_fingerprint type txid (with_integrity hmac pwd type txid l))) =
  (length (attrs_bytes l) + 32)%nat.
Proof.
  unfold with_fingerprint, with_integrity. rewrite !attrs_bytes_snoc, !length_app, !attr_bytes_length. cbn [snd].
  rewrite hmac_length, length_be_bytes. change (padded 20) with 20%nat. change (padded 4) with 4%nat. lia.
Qed.

(** What a reader finds in a signed message. *)
Lemma signed_reads pwd type txid l :
  length txid = 12%nat -> bytes_ok txid -> is_u16 type -> Forall attr_fits l ->
  Forall (fun a => bytes_ok a.2) l -> blen (attrs_bytes l) + 32 < 65536 ->
  Forall (fun a => a.1 <> ATTR_MESSAGE_INTEGRITY) l ->
  let d := signed hmac pwd type txid l in
  bytes_ok d /\ is_stun d = true /\ stun_type d = type /\ sub d 8 12 = txid /\ authentic hmac pwd d = true /\
  (stun_attrs d).2 = true /\ length d = (20 + length (attrs_bytes l) + 32)%nat.
Proof.
  intros Ht Htb Htype Hfit Hok Hsize Hno d. unfold d, signed.
  set (all := with_fingerprint type txid (with_integrity hmac pwd type txid l)).
  assert (Hall : blen (attrs_bytes all) < 65536) by (unfold blen, all in *; rewrite signed_attrs_length; lia).
  assert (Hf : Forall attr_fits all) by by apply signed_attrs_fit.
  destruct (message_fields type txid all Ht Htype Hall) as (H1 & H2 & H3 & _ & _ & Hlen & _).
  split_and!; try done.
  - apply message_bytes_ok; [done|]. by apply (signed_attrs_ok pwd type txid l).
  - by apply authentic_written.
  - rewrite stun_attrs_written by done. done.
  - rewrite Hlen. unfold all. rewrite signed_attrs_length. lia.
Qed.

Lemma request_attrs_fit username :
  blen username < 65536 -> bytes_ok username ->
  Forall attr_fits (request_attrs username) /\ Forall (fun a => bytes_ok a.2) (request_attrs username) /\
  Forall (fun a => a.1 <> ATTR_MESSAGE_INTEGRITY) (request_attrs username).
Proof.
  intros Hl Hb. unfold request_attrs, attr_fits, is_u16.
  assert (H0 : bytes_ok (replicate 8 0)) by (apply Forall_replicate; mlia).
  pose proof (be_bytes_ok 4 0x7EFFFFFF) as H4.
  pose proof (list.Forall_nil_2 is_u8 : bytes_ok []) as Hnil.
  destruct username as [|c name]; [|set (w := c :: name) in *; clearbody w]; cbn [app]; split_and!;
    repeat match goal with |- Forall _ (_ :: _) => apply list.Forall_cons_2 end; try apply list.Forall_nil_2;
    cbn [fst snd]; try done; (split; [done|]; first [exact Hl|reflexivity]).
Qed.
Lemma response_attrs_fit a :
  Forall attr_fits (response_attrs a) /\ Forall (fun a => bytes_ok a.2) (response_attrs a) /\
  Forall (fun a => a.1 <> ATTR_MESSAGE_INTEGRITY) (response_attrs a).
Proof.
  unfold response_attrs. split_and!; apply Forall_singleton; [|apply mapped_value_ok|done].
  unfold attr_fits, blen. cbn [fst snd]. by rewrite mapped_value_length.
Qed.

Lemma after_colon_length name rest : after_colon name = Some rest -> (length rest < length name)%nat.
Proof.
  induction name as [|c name IH]; [done|]. cbn. destruct (c =? 58); [intros [= ->]; lia|].
  intros H. specialize (IH H). lia.
Qed.
Lemma find_app {A} (p : A -> bool) l l' : find p (l ++ l') = match find p l with Some x => Some x | None => find p l' end.
Proof. induction l as [|x l IH]; [done|]. cbn. destruct (p x); [done|apply IH]. Qed.
(** The attributes a request and a response carry, seen by the reader. *)
Lemma signed_first_attr wanted pwd type txid l :
  length txid = 12%nat -> is_u16 type -> Forall attr_fits l -> blen (attrs_bytes l) + 32 < 65536 ->
  wanted <> ATTR_MESSAGE_INTEGRITY -> wanted <> ATTR_FINGERPRINT ->
  (fun x : stun_attr => x.2) <$> first_attr wanted (signed hmac pwd type txid l) =
  snd <$> find (fun a => a.1 =? wanted) l.
Proof.
  intros Ht Htype Hfit Hsize Hmi Hfp. unfold signed. rewrite first_attr_written; try done.
  - unfold with_fingerprint, with_integrity. rewrite !find_app.
    destruct (find _ l); [done|]. cbn [find fst].
    by rewrite !(proj2 (Z.eqb_neq _ _)) by congruence.
  - unfold blen in *. rewrite signed_attrs_length. lia.
  - by apply signed_attrs_fit.
Qed.
Lemma signed_address pwd txid a :
  length txid = 12%nat -> addr_ok a ->
  response_address (signed hmac pwd CWIST_STUN_BINDING_RESPONSE txid (response_attrs a)) = Some a.
Proof.
  intros Ht Ha. destruct (response_attrs_fit a) as (Rfit & _ & _). unfold signed.
  rewrite response_address_written; try done.
  - unfold with_fingerprint, with_integrity, response_attrs, last_address. cbn [app fold_left fst snd].
    change (ATTR_XOR_MAPPED_ADDRESS =? ATTR_XOR_MAPPED_ADDRESS) with true.
    change (ATTR_MESSAGE_INTEGRITY =? ATTR_XOR_MAPPED_ADDRESS) with false.
    change (ATTR_FINGERPRINT =? ATTR_XOR_MAPPED_ADDRESS) with false.
    rewrite mapped_value_length. cbn [andb Nat.leb]. by rewrite value_mapped_value.
  - unfold blen. rewrite signed_attrs_length. unfold response_attrs, attrs_bytes. cbn [map concat].
    rewrite app_nil_r, attr_bytes_length. cbn [snd]. by rewrite mapped_value_length.
  - by apply signed_attrs_fit.
Qed.

Lemma response_address_value d :
  response_address d = (fun v => wrong_port (mapped_fields v)) <$> response_value d.
Proof.
  assert (E : forall v, value_mapped v = wrong_port (mapped_fields v)).
  { intros v. unfold value_mapped, wrong_port, mapped_fields. cbn [sin_port sin_addr]. by rewrite Z.lxor_assoc. }
  unfold response_address, response_value. change (@None sockaddr_in) with
    ((fun v => wrong_port (mapped_fields v)) <$> @None bytes).
  generalize (@None bytes). induction (stun_attrs d).1 as [|x l IH]; intros acc; [done|]. cbn [fold_left].
  rewrite <- IH. destruct (_ && _); [|done]. cbn [fmap option_fmap option_map]. by rewrite E.
Qed.


(** C31: A connectivity check end to end.  A request built for a name of at most
    516 bytes and signed with the peer's password is, for the peer, a Binding
    request with USE-CANDIDATE from that name that the password authenticates;
    the response the peer builds for the address it saw is accepted by the
    sender, for its own transaction, with exactly that address. *)
Theorem connectivity_check cap txid username pwd mapped :
  length txid = 12%nat -> bytes_ok txid -> bytes_ok username -> addr_ok mapped ->
  (length username <= 516)%nat -> (596 <= cap)%nat ->
  exists unsigned req resp,
    cwist_ice_stun_build_request cap txid username = Some (Some unsigned) /\
    cwist_ice_stun_sign_request hmac cap unsigned pwd [] = Some (Some req, []) /\
    cwist_ice_stun_is_binding_request req = Some true /\
    cwist_ice_stun_has_use_candidate req = Some true /\
    cwist_ice_stun_get_remote_ufrag req cap = Some (after_colon username) /\
    cwist_ice_stun_validate_request hmac req pwd [] = Some (true, []) /\
    cwist_ice_stun_build_response hmac cap req mapped pwd [] = Some (Some resp, []) /\
    cwist_ice_stun_parse_response hmac resp txid pwd true [] = Some (true, Some mapped, []).
Proof using hmac_length hmac_bytes.
  intros Ht Htb Hub Haddr Hul Hcap.
  destruct (request_attrs_fit username ltac:(unfold blen; lia) Hub) as (Hfit & Hok & Hno).
  assert (Hsize : (length (attrs_bytes (request_attrs username)) <= 544)%nat).
  { unfold request_attrs. fold (username_attr username). rewrite attrs_bytes_app, length_app, username_attr_length.
    change (length (attrs_bytes [_; _; _])) with 24%nat. destruct (length username =? 0)%nat; [lia|].
    pose proof (padded_le (length username) 516 eq_refl Hul). lia. }
  destruct (signed_reads pwd CWIST_STUN_BINDING_REQUEST txid _ Ht Htb ltac:(done) Hfit Hok
              ltac:(unfold blen; lia) Hno) as (Hb & Hs & Hty & Htx & Ha & _ & Hlen).
  set (req := signed hmac pwd CWIST_STUN_BINDING_REQUEST txid (request_attrs username)) in *.
  destruct (response_attrs_fit mapped) as (Rfit & Rok & Rno).
  assert (Rsize : length (attrs_bytes (response_attrs mapped)) = 12%nat).
  { unfold response_attrs, attrs_bytes. cbn [map concat]. rewrite app_nil_r, attr_bytes_length. cbn [snd].
    by rewrite mapped_value_length. }
  destruct (signed_reads pwd CWIST_STUN_BINDING_RESPONSE txid _ Ht Htb ltac:(done) Rfit Rok
              ltac:(unfold blen; lia) Rno) as (Qb & Qs & Qty & Qtx & Qa & Qok & Qlen).
  set (resp := signed hmac pwd CWIST_STUN_BINDING_RESPONSE txid (response_attrs mapped)) in *.
  exists (stun_message CWIST_STUN_BINDING_REQUEST txid (request_attrs username)), req, resp. split_and!.
  - rewrite build_request_spec by done. rewrite !(proj2 (Nat.leb_le _ _)) by lia. done.
  - destruct (sign_spec hmac hmac_length hmac_bytes cap pwd CWIST_STUN_BINDING_REQUEST txid
                (request_attrs username) [] Ht Htb Hok ltac:(unfold blen; lia)) as (ok & o' & Ho & ->).
    destruct (Ho eq_refl) as [-> ->]. rewrite (proj2 (Nat.leb_le _ _)) by lia. done.
  - rewrite is_binding_request_spec, Hs, Hty by done. done.
  - unfold cwist_ice_stun_has_use_candidate.
    rewrite attr_present_spec, (proj2 (Nat.ltb_ge _ _)) by (done || lia). f_equal.
    apply bool_decide_eq_true.
    pose proof (signed_first_attr ATTR_USE_CANDIDATE pwd CWIST_STUN_BINDING_REQUEST txid _ Ht ltac:(done) Hfit
                  ltac:(unfold blen; lia) ltac:(done) ltac:(done)) as H.
    fold req in H. destruct (first_attr ATTR_USE_CANDIDATE req); [by eexists|]. by destruct username.
  - rewrite remote_ufrag_spec, Hs, (proj2 (Nat.ltb_lt _ _)) by (done || lia). cbn [andb]. f_equal.
    pose proof (signed_first_attr ATTR_USERNAME pwd CWIST_STUN_BINDING_REQUEST txid _ Ht ltac:(done) Hfit
                  ltac:(unfold blen; lia) ltac:(done) ltac:(done)) as H.
    fold req in H. unfold username_sender.
    assert (E : ('(_, _, name) ← first_attr ATTR_USERNAME req; after_colon name) = after_colon username).
    { destruct username as [|c name].
      - destruct (first_attr ATTR_USERNAME req) as [[[? ?] ?]|]; [|done]. done.
      - destruct (first_attr ATTR_USERNAME req) as [[[? ?] ?]|]; [|done]. by injection H as ->. }
    rewrite E. destruct (after_colon username) as [rest|] eqn:Ec; [|done]. cbn. f_equal.
    apply take_ge. apply after_colon_length in Ec. lia.
  - destruct (validate_spec hmac hmac_length req pwd [] Hb) as (ok & o' & -> & Ho).
    destruct (Ho eq_refl) as [-> ->]. by rewrite Hs, Ha.
  - destruct (build_response_spec hmac hmac_length hmac_bytes cap req mapped pwd [] Hb (proj1 Haddr))
      as (ok & o' & Ho & ->). destruct (Ho eq_refl) as [-> ->].
    rewrite Htx, !(proj2 (Nat.leb_le _ _)) by lia. done.
  - destruct (parse_response_spec hmac hmac_length resp txid pwd true [] Qb) as (ok & o' & Ho & ->).
    destruct (Ho eq_refl) as [-> ->]. unfold response_ok. rewrite Qs, Qty, Qa, Qok, bool_decide_eq_true_2 by done.
    cbn [andb]. unfold resp. by rewrite signed_address.
Qed.

(** Only what stands before MESSAGE-INTEGRITY is authenticated, and the
    reader of responses goes on behind it: whoever appends an address to a
    genuine response, without the password, decides which one is taken. *)
Theorem unsigned_address_taken cap req txid pwd mapped forged resp :
  bytes_ok req -> (20 <= length req)%nat -> sub req 8 12 = txid -> addr_ok mapped -> addr_ok forged ->
  cwist_ice_stun_build_response hmac cap req mapped pwd [] = Some (Some resp, []) ->
  cwist_ice_stun_parse_response hmac
    (append_attr resp (ATTR_XOR_MAPPED_ADDRESS, mapped_value forged)) txid pwd true [] =
    Some (true, Some forged, []).
Proof using hmac_length hmac_bytes.
  intros Hreq Hlen <- Haddr Hforged Hresp. set (txid := sub req 8 12).
  assert (Ht : length txid = 12%nat) by (unfold txid; rewrite sub_length; lia).
  assert (Htb : bytes_ok txid) by (apply Forall_take, Forall_drop, Hreq).
  destruct (build_response_spec hmac hmac_length hmac_bytes cap req mapped pwd [] Hreq (proj1 Haddr))
    as (ok & o' & Ho & E). destruct (Ho eq_refl) as [-> ->]. rewrite Hresp in E.
  destruct ((20 <=? length req)%nat && true && (64 <=? cap)%nat); [|done]. injection E as ->. fold txid.
  unfold signed. rewrite append_attr_message by done.
  set (type := CWIST_STUN_BINDING_RESPONSE).
  destruct (response_attrs_fit mapped) as (Rfit & Rok & Rno).
  set (all := with_fingerprint type txid (with_integrity hmac pwd type txid (response_attrs mapped)) ++
              [(ATTR_XOR_MAPPED_ADDRESS, mapped_value forged)]).
  assert (Hfit : Forall attr_fits all).
  { apply Forall_app_2; [by apply signed_attrs_fit|]. apply Forall_singleton. unfold attr_fits, blen. cbn [fst snd].
    by rewrite mapped_value_length. }
  assert (Hok : Forall (fun a => bytes_ok a.2) all).
  { apply Forall_app_2; [by apply (signed_attrs_ok pwd type txid)|]. apply Forall_singleton, mapped_value_ok. }
  assert (Hsize : blen (attrs_bytes all) < 65536).
  { unfold all, blen. rewrite attrs_bytes_snoc, length_app, signed_attrs_length, attr_bytes_length. cbn [snd].
    rewrite mapped_value_length. unfold response_attrs, attrs_bytes. cbn [map concat].
    rewrite app_nil_r, attr_bytes_length. cbn [snd]. by rewrite mapped_value_length. }
  destruct (message_fields type txid all Ht ltac:(done) Hsize) as (Hs & Hty & Htx & _).
  destruct (parse_response_spec hmac hmac_length (stun_message type txid all) txid pwd true []) as (ok & o' & Ho' & ->).
  { by apply message_bytes_ok. }
  destruct (Ho' eq_refl) as [-> ->]. unfold response_ok.
  rewrite Hs, Hty, bool_decide_eq_true_2 by done.
  assert (Ha : authentic hmac pwd (stun_message type txid all) = true).
  { unfold all, with_fingerprint in *. rewrite <- app_assoc in *. by apply authentic_written. }
  rewrite Ha, stun_attrs_written, response_address_written by done. cbn [snd andb].
  unfold all, last_address. rewrite fold_left_app. cbn [fold_left fst snd].
  rewrite mapped_value_length, Z.eqb_refl. cbn [andb Nat.leb]. by rewrite value_mapped_value.
Qed.
End Checks.

(** The value the format has for 192.0.2.1:32853 (RFC 5769, 2.2) is read with
    another port; one of another family is no IPv4 address, and is taken for one. *)
Lemma mapped_port_misread :
  let v := [0; 1; 0xa1; 0x47; 0xe1; 0x12; 0xa6; 0x43] in
  xor_mapped_address v = Some (MkAddr 32853 0xC0000201) /\ (value_mapped v).(sin_port) = 0x5EB8 /\
  let v6 := [0; 2; 0xa1; 0x47; 0xe1; 0x12; 0xa6; 0x43] ++ replicate 12 0 in
  xor_mapped_address v6 = None /\ value_mapped v6 = value_mapped v /\
  parse_resp_cb v6 ATTR_XOR_MAPPED_ADDRESS 0 20 (false, None) = Some (true, (false, Some (value_mapped v))).
Proof. vm_compute. auto. Qed.

(** The 32 characters of a password are 16 characters twice. *)
Lemma creds_repeat raw :
  let pwd := (cwist_ice_random_creds 17 65 (Some raw)).2 in
  length pwd = 32%nat /\ pwd = take 16 pwd ++ take 16 pwd.
Proof. done. Qed.

(** ** Witnesses, for a 160-bit checksum in the place of HMAC *)

Definition toy_hmac (key text : bytes) : bytes := be_bytes 20 (be_number (key ++ text)).
Lemma toy_hmac_length key text : length (toy_hmac key text) = 20%nat.
Proof. apply length_be_bytes. Qed.
Lemma toy_hmac_bytes key text : bytes_ok (toy_hmac key text).
Proof. apply be_bytes_ok. Qed.


Lemma connectivity_check_witness :
  exists unsigned req resp,
    cwist_ice_stun_build_request 600 (replicate 12 7) (bs "peer:me") = Some (Some unsigned) /\
    cwist_ice_stun_sign_request toy_hmac 600 unsigned (bs "secret") [] = Some (Some req, []) /\
    cwist_ice_stun_is_binding_request req = Some true /\
    cwist_ice_stun_has_use_candidate req = Some true /\
    cwist_ice_stun_get_remote_ufrag req 600 = Some (after_colon (bs "peer:me")) /\
    cwist_ice_stun_validate_request toy_hmac req (bs "secret") [] = Some (true, []) /\
    cwist_ice_stun_build_response toy_hmac 600 req (MkAddr 5000 0x7F000001) (bs "secret") [] = Some (Some resp, []) /\
    cwist_ice_stun_parse_response toy_hmac resp (replicate 12 7) (bs "secret") true [] =
      Some (true, Some (MkAddr 5000 0x7F000001), []).
Proof.
  apply (connectivity_check toy_hmac toy_hmac_length toy_hmac_bytes).
  - reflexivity.
  - apply bytes_okb_ok. reflexivity.
  - apply bytes_okb_ok. reflexivity.
  - unfold addr_ok, is_u16, is_u32. cbn. lia.
  - cbn. lia.
  - apply Nat.leb_le. reflexivity.
Defined.
